(* ===== verification/_CoqProject ===== *)
-Q . S2P
Prelude.v
Chain.v
DList.v
PrioMap.v
DeltaQ.v
Kernel.v
Sched.v
Frame.v
SchedInv.v
Dispatch.v
SchedProps.v
Service.v
Taskq.v
TaskqRep.v
TaskqInv.v
TaskqProps.v
Wait.v
WaitInv.v
WaitProps.v
Block.v
Names.v
Sema.v
SemaInv.v
SemaProps.v
Prio.v
Mutex.v
SemaLife.v
Timer.v
TimerInv.v
TimerProps.v
Circbuf.v
CircbufProps.v
Page.v
PageGeo.v
PageInv.v
PageAlloc.v
PageProps.v
PageRegions.v
Memblock.v
MemblockInv.v
MemblockProps.v
Handover.v
RBTree.v
RBHeap.v
RBPure.v
RBInsert.v
RBErase.v
RBProps.v
KTimerQ.v
IdTree.v
Pid.v
PidProps.v
KTime.v
KTimeProps.v
Calendar.v
KTimer.v
KTimerInv.v
KTimerProps.v
KTimerOps.v
Msgq.v
MsgqInv.v
MsgqOps.v
MsgqProps.v
MsgqLife.v
MsgqCases.v
Notifier.v
Tid.v
Completion.v
