(* ===== verification/Prelude.v ===== *)
(** * Intewell-RTOS: a verification library for the kernel

    Intewell-RTOS is a real-time operating system in C.  Its kernel ([src/kernel],
    [src/include]) schedules tasks by priority on several CPUs, lets them wait on
    queues with timeouts, offers semaphores, mutexes, completions, message queues
    and timers, keeps time, and manages physical memory and the identifiers of
    processes and threads.  This library models these parts and proves them
    correct, operation by operation.

    ** The program and its parts

    - Intrusive doubly linked lists ([include/list.h]) carry every kernel queue;
      red-black trees ([kernel/utils/ttosRBTree.c]) carry the ordered ones.
    - The scheduler ([include/ttosInterTask.inl], [kernel/task/ttosSchedule.c],
      [ttosSetTaskReady.c], [ttosClearTaskReady.c], [ttosTaskUtils.c]) keeps a
      ready queue per priority for each CPU and one set for unbound tasks, with a
      two-level bitmap of the priorities in use ([include/ttosBase.h],
      [arch/aarch64/cpu_bitops.S]) and a cached first task; a CPU switches to its
      candidate when a service ends.
    - Waiting tasks are on a wait queue ([kernel/task/ttosTaskq.c] and its
      neighbours), FIFO or by priority, and, with a timeout, on the tick queue
      ([ttosInsertWaitedTask.c], [ttosExactWaitedTask.c], [ttosTickNotify.c]),
      whose nodes hold differences of deadlines.
    - Semaphores and mutexes ([kernel/sema]), completions ([kernel/completion])
      and message queues ([kernel/msgq]) block on wait queues; mutexes change
      priorities ([taskChangePriority]); a message queue copies messages with the
      lock given up.  Their control blocks come from object pools
      ([kernel/utils/ttosUtils.c]) and have names ([kernel/utils]).
    - Timers on the tick ([kernel/timer]) have a queue of differences of their own.
      High-resolution timers ([kernel/time/ktimer*.c]) have a red-black tree per
      clock and CPU ([ktimerqueue.c]) and program the clock chip; the clocks and
      the conversions of time are in [kernel/time/ktime.c], [include/time/ktime.h]
      and [components/clock].
    - At boot [kernel/memory/memblock] holds physical memory as tables of regions;
      what is free goes to the buddy allocator of [kernel/memory/page.c].
    - Process identifiers ([kernel/process/pid.c], [process_obj.c]) are bits of a
      pool and nodes of a tree, shared by reference-counted objects; thread
      identifiers ([kernel/process/tid.c]) are a counter, a list of free ones and a
      tree.
    - Notifier chains ([kernel/notifier]) are lists of callbacks by priority.
    - Circular byte buffers ([kernel/utils/circbuf]) serve the drivers.

    ** Files

    - [Prelude]: the state and error monad, total-correctness triples ([wp]),
      machine integers ([Width]), shared lemmas.
    - [Chain], [DList]: lists as sequences per list head, and the pointer code of
      [list.h] with the proof that it implements them.
    - [PrioMap]: the priority bitmaps.  [DeltaQ]: the theory of delta queues.
    - [Kernel], [Sched]: task control blocks, the manager, the scheduler's code.
      [Frame]: frame laws found by instance search ([Pres]).  [SchedInv],
      [Dispatch], [SchedProps]: the invariant, the switch loop, the properties.
    - [Service]: the dispatch lock, suspension, resumption, affinity.
    - [Taskq], [TaskqRep], [TaskqInv], [TaskqProps]: the wait queues on pointers
      and the refinement to one sequence of tasks per queue.  [Wait], [WaitInv],
      [WaitProps]: the tick queue, the tick interrupt and sleeping, over such
      sequences.  [Block]: the invariant of ready, tick and wait queues together,
      and blocking and waking under it.
    - [Names]: object names.  [Sema]: semaphores and mutexes.  [SemaInv],
      [SemaProps], [Prio], [Mutex], [SemaLife]: their invariant and theorems.
    - [Timer], [TimerInv], [TimerProps]: software timers.
    - [Circbuf], [CircbufProps]: circular buffers and the console driver's
      [char_prepare_xfer].
    - [Page]: the page allocator.  [PageGeo]: blocks and buddies as sets of frames.
      [PageInv], [PageAlloc], [PageProps]: the free lists, the loops, the
      properties.  [PageRegions]: the report of the shell command [phymem].
    - [Memblock], [MemblockInv], [MemblockProps]: early memory as sets of
      addresses.  [Handover]: which frames the page allocator gets from it.
    - [RBTree]: the pointer code of the trees.  [RBHeap]: a separation logic for
      it, on Iris.  [RBPure]: rebalancing as functions on trees.  [RBInsert],
      [RBErase], [RBProps]: the code does what the functions do, and what that
      means.  [KTimerQ]: the queues of timers on top.  [IdTree]: trees of
      identifiers.
    - [Pid], [PidProps]: process identifiers and process objects.
    - [KTime], [KTimeProps]: clocks and conversions.  [Calendar]: dates.
    - [KTimer], [KTimerInv], [KTimerProps], [KTimerOps]: high-resolution timers.
    - [Msgq]: message queues.  [MsgqInv], [MsgqOps]: memory, the order of the
      pending messages, the invariant and the parts of the calls.  [MsgqProps]:
      histories, round trip, urgent messages.  [MsgqLife]: creation, deletion and
      lookup.  [MsgqCases]: concrete queues and runs.
    - [Notifier]: notifier chains.  [Tid]: thread identifiers.  [Completion]:
      completions.

    ** How code becomes definitions

    A C function is a definition of the same name in the monad [M S]: it takes the
    state and returns a result with the new state, or [None] for a fault (a null
    or dangling dereference, an access behind an array, a failed assertion, signed
    overflow).  Unsigned arithmetic wraps explicitly ([u8], [u32], [u64]).  A task,
    timer, semaphore or queue is named by its identifier, which stands for the
    address of its control block; a null pointer is [None].  The configuration is
    the one the boards build: [CONFIG_SMP], 256 priorities, 64-bit addresses,
    pages of 4 KiB.  A service runs under its lock with interrupts off where it
    touches the queues, so one service is one step; a call that blocks is two
    steps, up to the switch and after it ([TTOS_SleepTask] and
    [TTOS_SleepTask_result], [TTOS_ObtainSemaWithInterruptFlags] and
    [obtain_resume]; [ttos_WaitCompletion] only returns after it), and a call that
    gives up the lock in the middle is one step per locked part ([TTOS_SendMsgq]
    and [ttosCommitMessage], [TTOS_ReceiveMsgq] and [ttosReceiveMessage]).  What
    other CPUs and interrupts do in between is the sequence of steps a theorem
    quantifies over.

    Code outside [src] is a parameter: the handlers of timers and the callbacks of
    notifiers ([routine], [call]), the blocks the allocators return, the readings of
    the hardware counter ([clock]), [qsort], whether a signal is pending.
    [kmap] of the page tables, which are not modelled, is a parameter of the
    hand-over.

    ** What the theorems show

    - Refinement: any sequence of [list.h] operations acts as on sequences
      ([list_h_refines_chains]); any sequence of wait-queue operations acts as on
      one sequence per queue ([taskq_refines_sequences]); circular buffers are
      bounded byte queues ([circbuf_refines_queue]); counting semaphores are a
      count with a FIFO of waiting tasks ([semaphore_trace_correct]); message
      queues are queues by priority through every interleaving of calls with ordinary
      messages ([msgq_history_correct]); completions are a flag with at most one waiting task
      ([completion_trace_correct]); notifier chains are sequences by priority
      ([notifier_chain_refines]); red-black trees are sequences
      ([rb_tree_correct]), timer queues sorted ones ([ktimerqueue_refines]).
    - Scheduling: the switch loop ends with the right task running
      ([schedule_settles], [candidate_is_optimal]), every task on at most one CPU;
      every operation on the ready queues keeps the invariant and does what it says.
    - Waiting: insertion and removal keep deadlines; a tick wakes exactly the
      tasks that are due ([tick_notify_correct]); sleeping.
    - Semaphores and mutexes: obtaining, releasing, resetting, creating, deleting
      and finding, on every branch; ownership, nesting, hand-over and the return
      to the base priority of mutexes ([mutex_release_correct]).
    - Message queues: what is sent is what is received
      ([send_receive_roundtrip]); committing, creating and deleting; the exact
      bound on message sizes ([block_size_bounds]).
    - Timers: every service on every branch and the notification, with handlers that
      call the services ([timer_notify_correct]); expiry, starting, cancelling and forwarding of the
      high-resolution ones ([ktimer_pass_correct], [ktimer_start_correct]).
    - Memory: in every history of the page allocator the free frames and the blocks
      of the clients partition what it was given ([page_history_correct]), freeing
      undoes allocating; memblock acts as union and difference of sets
      ([memblk_sets_correct]), and exactly its free frames are released to the page
      allocator; its free lists hold them if no page descriptor reads as a free page
      beforehand, which the code does not see to ([handover_correct]).
    - Identifiers: the pool, the tree and the reference counts implement a table of
      processes ([pid_table_correct]), those of threads a table of tasks
      ([tid_table_correct]).
    - Notifiers: a chain that is stopped is rolled back, until a block stops the
      rollback ([notifier_robust_correct]).
    - Time: conversions are exact or saturate as documented; dates are those of the
      Gregorian calendar ([tm_to_secs_is_gregorian]).
    - Divergences: some theorems exhibit a state from which the code does not do
      what it means to, among them [set_affinity_two_cpus],
      [sleep_returns_stale_code], [update_uninstalled_faults],
      [overwrite_empty_overruns], [prepare_xfer_full_reorders],
      [refused_attempt_breaks_mutex], [timeout_loses_wakeup], [pid_alloc_spins],
      [phymem_second_report_stale], [urgent_message_faults], [wake_up_is_lost],
      [delete_under_copy] and [wait_timeout_says_ok].

    ** Fuel

    Recursion that is not structural takes fuel, and running out of it is a fault,
    so a theorem that a call returns shows that the fuel is enough.  The switch
    loop gets 3 turns ([sched_fuel]): two switches and the turn that finds nothing
    to do.  Loops over a queue, a list of blocks or a table get its length and one
    more; the loops that climb or descend a tree get the number of its nodes and
    one more ([tree_fuel]); merging buddies gets one turn per order ([merge_up],
    53); the search for a free identifier the size of the pool and one more;
    [TTOS_ResetSema] the distance to the new count and one more; dispatching
    expired timers more turns than there are timers; a notification of [k] ticks, whose
    handlers may start timers again, one turn for every timer and tick.

    ** Not modelled

    Task creation, deletion and period tasks, which build stacks and call process
    code; events, the atomic mutexes and work queues; page tables, the
    kernel heap and address spaces; processes beyond their identifiers, signals and
    System V objects; interrupt controllers, spin locks and start-up; clock sources
    and clock chips, POSIX timers; the components above the kernel, drivers,
    architecture code and boards.  They are device and register code, or rest on
    atomics across CPUs that one kernel lock does not describe, or are further
    clients of the structures verified here.  The register switch between two
    tasks is architecture code; choosing and recording the switch is modelled. *)

From Stdlib Require Export ZArith Lia.
From stdpp Require Export base tactics strings numbers option countable sets gmap list.

(** ** Conventions

    Machine integers are elements of [Z] kept inside their range by explicit
    wrap-around; booleans are [bool]; a C pointer that may be [NULL] is an
    [option]. *)

Declare Scope kern_scope.
Delimit Scope kern_scope with K.

#[export] Unset Printing Use Implicit Types.
#[export] Set Default Goal Selector "!".

(** [chains]: well-formedness of chain stores.  [kern]: invariants of the
    kernel components. *)
Create HintDb chains discriminated.
Create HintDb kern discriminated.

Module Width.

(** The wrap-around of an unsigned [w]-bit C integer. *)
Definition wrap (w : Z) (x : Z) : Z := (x mod 2 ^ w)%Z.

Definition u8 := wrap 8.
Definition u32 := wrap 32.
Definition u64 := wrap 64.

Definition in_width (w x : Z) : Prop := (0 ≤ x < 2 ^ w)%Z.

Lemma wrap_range w x : (0 ≤ w)%Z → in_width w (wrap w x).
Proof. intros. apply Z.mod_pos_bound. lia. Qed.

Lemma wrap_small w x : in_width w x → wrap w x = x.
Proof. apply Z.mod_small. Qed.

Lemma u32_small x : (0 ≤ x < 2 ^ 32)%Z → u32 x = x.
Proof. apply wrap_small. Qed.

Lemma u64_small x : (0 ≤ x < 2 ^ 64)%Z → u64 x = x.
Proof. apply wrap_small. Qed.

Lemma u8_small x : (0 ≤ x < 2 ^ 8)%Z → u8 x = x.
Proof. apply wrap_small. Qed.

Lemma u32_range x : (0 ≤ u32 x < 2 ^ 32)%Z.
Proof. apply (wrap_range 32); lia. Qed.

Lemma u64_range x : (0 ≤ u64 x < 2 ^ 64)%Z.
Proof. apply (wrap_range 64); lia. Qed.

End Width.

(** ** A state and error monad

    [M S A] is a computation over a state [S]; [None] is a C fault: the
    dereference of a null or dangling pointer, an index out of bounds, or a
    failed assertion. *)

Definition M (S A : Type) : Type := S → option (A * S).

#[export] Instance M_ret {S} : MRet (M S) := λ A a s, Some (a, s).
#[export] Instance M_bind {S} : MBind (M S) :=
  λ A B f m s, match m s with Some (a, s') => f a s' | None => None end.

Definition fault {S A} : M S A := λ _, None.
Definition gets {S A} (f : S → A) : M S A := λ s, Some (f s, s).
Definition modify {S} (f : S → S) : M S unit := λ s, Some (tt, f s).
Definition lift {S A} (o : option A) : M S A :=
  λ s, match o with Some a => Some (a, s) | None => None end.
Definition massert {S} (b : bool) : M S unit :=
  λ s, if b then Some (tt, s) else None.
Definition whenM {S} (b : bool) (m : M S unit) : M S unit :=
  if b then m else mret tt.

Section Monad.
Context {S : Type}.

Lemma bind_Some_M {A B} (m : M S A) (f : A → M S B) s b s' :
  (m ≫= f) s = Some (b, s') ↔
  ∃ a s1, m s = Some (a, s1) ∧ f a s1 = Some (b, s').
Proof.
  unfold mbind, M_bind. destruct (m s) as [[a s1]|]; naive_solver.
Qed.

Lemma bind_run {A B} (m : M S A) (f : A → M S B) s a s1 :
  m s = Some (a, s1) → (m ≫= f) s = f a s1.
Proof. unfold mbind, M_bind. by intros ->. Qed.

End Monad.

(** ** Total-correctness triples

    [wp m s Φ]: from state [s] the computation [m] does not fault and its
    result and final state satisfy [Φ]. *)

Definition wp {S A} (m : M S A) (s : S) (Φ : A → S → Prop) : Prop :=
  match m s with Some (a, s') => Φ a s' | None => False end.

Section WP.
Context {S : Type}.

Lemma wp_bind {A B} (m : M S A) (f : A → M S B) s Φ :
  wp m s (λ a s', wp (f a) s' Φ) → wp (m ≫= f) s Φ.
Proof. unfold wp, mbind, M_bind. by destruct (m s) as [[]|]. Qed.

Lemma wp_bind_inv {A B} (m : M S A) (f : A → M S B) s Φ :
  wp (m ≫= f) s Φ → wp m s (λ a s', wp (f a) s' Φ).
Proof. unfold wp, mbind, M_bind. by destruct (m s) as [[]|]. Qed.

Lemma wp_seq {A B C} (m : M S A) (n : A → M S B) (k : B → M S C) s Φ :
  wp (m ≫= n) s (λ b s', wp (k b) s' Φ) → wp (m ≫= λ a, n a ≫= k) s Φ.
Proof. unfold wp, mbind, M_bind. destruct (m s) as [[a s1]|]; [|done]. by destruct (n a s1) as [[]|]. Qed.

Lemma wp_mono {A} (m : M S A) s (Φ Ψ : A → S → Prop) :
  wp m s Φ → (∀ a s', Φ a s' → Ψ a s') → wp m s Ψ.
Proof. unfold wp. destruct (m s) as [[]|]; eauto. Qed.

Lemma wp_ret {A} (a : A) s (Φ : A → S → Prop) : Φ a s → wp (mret a) s Φ.
Proof. done. Qed.

Lemma wp_gets {A} (f : S → A) s (Φ : A → S → Prop) : Φ (f s) s → wp (gets f) s Φ.
Proof. done. Qed.

Lemma wp_modify (f : S → S) s Φ : Φ tt (f s) → wp (modify f) s Φ.
Proof. done. Qed.

Lemma wp_lift {A} (o : option A) a s (Φ : A → S → Prop) :
  o = Some a → Φ a s → wp (lift o) s Φ.
Proof. by intros ->. Qed.

Lemma wp_assert b s (Φ : unit → S → Prop) : b = true → Φ tt s → wp (massert b) s Φ.
Proof. by intros ->. Qed.

Lemma wp_when b (m : M S unit) s Φ :
  (b = true → wp m s Φ) → (b = false → Φ tt s) → wp (whenM b m) s Φ.
Proof. destruct b; intros Ht Hf; [by apply Ht|]. by apply wp_ret, Hf. Qed.

Lemma wp_run {A} (m : M S A) s Φ :
  wp m s Φ ↔ ∃ a s', m s = Some (a, s') ∧ Φ a s'.
Proof. unfold wp. destruct (m s) as [[]|]; naive_solver. Qed.

Lemma wp_and {A} (m : M S A) s (Φ Ψ : A → S → Prop) :
  wp m s Φ → wp m s Ψ → wp m s (λ a s', Φ a s' ∧ Ψ a s').
Proof. unfold wp. destruct (m s) as [[]|]; eauto. Qed.

End WP.

(** ** Lists *)

Section Lists.
Context {X : Type} `{EqDecision X}.

Lemma filter_ne_fresh (n : X) (l : list X) : n ∉ l → filter (λ m, m ≠ n) l = l.
Proof.
  induction l as [|x l IH]; intros Hn; [done|].
  apply not_elem_of_cons in Hn as [??].
  rewrite filter_cons_True by done. by rewrite IH.
Qed.

Lemma filter_ne_split (n : X) (l1 l2 : list X) :
  n ∉ l1 → n ∉ l2 → filter (λ m, m ≠ n) (l1 ++ n :: l2) = l1 ++ l2.
Proof.
  intros. rewrite filter_app, filter_cons_False by naive_solver.
  by rewrite !filter_ne_fresh.
Qed.

End Lists.

Section Filter.
Context {X : Type} (P : X → Prop) `{!∀ x, Decision (P x)}.

Lemma filter_all (l : list X) : Forall P l → filter P l = l.
Proof. induction 1; [done|]. rewrite filter_cons_True by done. by f_equal. Qed.

Lemma filter_none (l : list X) : Forall (λ x, ¬ P x) l → filter P l = [].
Proof. induction 1; [done|]. by rewrite filter_cons_False by done. Qed.

End Filter.
