(* ===== verification/Chain.v ===== *)
(** * Chain stores: the contract of [include/list.h]

    The kernel threads its objects through intrusive doubly linked lists.  A
    {e chain store} is what those lists mean: for every list head the sequence
    of the nodes linked on it.  The clients (ready queues, tick queues, task
    wait queues, timers) are written over this contract; [DList] proves that
    the pointer code of [list.h] implements it. *)

From S2P Require Import Prelude.

Section Chain.
Context {Q N : Type} `{Countable Q} `{EqDecision N}.

(** The nodes linked on head [q], in order; an untouched head is empty. *)
Definition c_get (q : Q) (C : gmap Q (list N)) : list N := default [] (C !! q).

Definition c_set (q : Q) (xs : list N) (C : gmap Q (list N)) : gmap Q (list N) :=
  <[q := xs]> C.

Definition c_add_tail (n : N) (q : Q) (C : gmap Q (list N)) : gmap Q (list N) :=
  c_set q (c_get q C ++ [n]) C.

Definition c_add_head (n : N) (q : Q) (C : gmap Q (list N)) : gmap Q (list N) :=
  c_set q (n :: c_get q C) C.

(** [list_delete] is given the node alone: it leaves whichever chain it is on. *)
Definition c_delete (n : N) (C : gmap Q (list N)) : gmap Q (list N) :=
  filter (λ m, m ≠ n) <$> C.

Definition c_first (q : Q) (C : gmap Q (list N)) : option N := head (c_get q C).

Definition c_is_empty (q : Q) (C : gmap Q (list N)) : bool :=
  match c_get q C with [] => true | _ => false end.

(** The test [node.next != NULL]. *)
Definition c_linked (n : N) (C : gmap Q (list N)) : bool :=
  bool_decide (n ∈ concat (map_to_list C).*2).

Fixpoint succ_in (n : N) (xs : list N) : option N :=
  match xs with
  | [] => None
  | x :: xs' => if decide (x = n) then head xs' else succ_in n xs'
  end.

Definition c_next (n : N) (q : Q) (C : gmap Q (list N)) : option N :=
  succ_in n (c_get q C).

(** [list_add_before]/[list_add_after] place [n] next to the linked node [m]. *)
Fixpoint insert_before (n m : N) (xs : list N) : list N :=
  match xs with
  | [] => []
  | x :: xs' => if decide (x = m) then n :: x :: xs' else x :: insert_before n m xs'
  end.

Fixpoint insert_after (n m : N) (xs : list N) : list N :=
  match xs with
  | [] => []
  | x :: xs' => if decide (x = m) then x :: n :: xs' else x :: insert_after n m xs'
  end.

(** Every node is linked at most once, on at most one chain. *)
Record c_wf (C : gmap Q (list N)) : Prop := CWf {
  c_nodup : ∀ q, NoDup (c_get q C);
  c_disj : ∀ q1 q2 n, n ∈ c_get q1 C → n ∈ c_get q2 C → q1 = q2;
}.

(** ** Lookup laws *)

Lemma c_get_set q q' xs C :
  c_get q' (c_set q xs C) = if decide (q = q') then xs else c_get q' C.
Proof.
  unfold c_get, c_set. destruct (decide (q = q')) as [->|].
  - by rewrite lookup_insert_eq.
  - by rewrite lookup_insert_ne.
Qed.

Lemma c_get_set_eq q xs C : c_get q (c_set q xs C) = xs.
Proof. rewrite c_get_set. by case_decide. Qed.

Lemma c_get_set_ne q q' xs C : q ≠ q' → c_get q' (c_set q xs C) = c_get q' C.
Proof. intros. rewrite c_get_set. by case_decide. Qed.

Lemma c_get_delete n q C : c_get q (c_delete n C) = filter (λ m, m ≠ n) (c_get q C).
Proof. unfold c_get, c_delete. rewrite lookup_fmap. by destruct (C !! q). Qed.

Lemma elem_of_c_delete n m q C : m ∈ c_get q (c_delete n C) ↔ m ≠ n ∧ m ∈ c_get q C.
Proof. rewrite c_get_delete. by rewrite list_elem_of_filter. Qed.

Lemma c_get_delete_fresh n q C : n ∉ c_get q C → c_get q (c_delete n C) = c_get q C.
Proof.
  rewrite c_get_delete. apply filter_ne_fresh.
Qed.

Lemma c_linked_spec n C : c_linked n C = true ↔ ∃ q, n ∈ c_get q C.
Proof.
  unfold c_linked. rewrite bool_decide_eq_true. split.
  - intros Hin. apply list_elem_of_In, in_concat in Hin as (l & Hl & Hn).
    apply list_elem_of_In in Hl. apply list_elem_of_fmap in Hl as ([q l'] & -> & Hq).
    apply elem_of_map_to_list in Hq. exists q. unfold c_get. rewrite Hq.
    by apply list_elem_of_In.
  - intros [q Hq]. unfold c_get in Hq. destruct (C !! q) as [l|] eqn:E; simpl in Hq.
    2: { by apply not_elem_of_nil in Hq. }
    apply list_elem_of_In, in_concat. exists l.
    split; [|by apply list_elem_of_In].
    apply list_elem_of_In, list_elem_of_fmap. exists (q, l).
    split; [done|]. by apply elem_of_map_to_list.
Qed.

Lemma c_linked_false n C : c_linked n C = false ↔ ∀ q, n ∉ c_get q C.
Proof.
  rewrite <- not_true_iff_false, c_linked_spec. naive_solver.
Qed.

Lemma c_is_empty_spec q C : c_is_empty q C = true ↔ c_get q C = [].
Proof. unfold c_is_empty. by destruct (c_get q C). Qed.

(** ** Places in a chain *)

Lemma insert_before_split n m (xs1 xs2 : list N) :
  m ∉ xs1 → insert_before n m (xs1 ++ m :: xs2) = xs1 ++ n :: m :: xs2.
Proof.
  induction xs1 as [|x xs1 IH]; intros Hm; simpl.
  - by case_decide.
  - apply not_elem_of_cons in Hm as [? ?]. case_decide; [congruence|]. by rewrite IH.
Qed.

Lemma insert_after_split n m (xs1 xs2 : list N) :
  m ∉ xs1 → insert_after n m (xs1 ++ m :: xs2) = xs1 ++ m :: n :: xs2.
Proof.
  induction xs1 as [|x xs1 IH]; intros Hm; simpl.
  - by case_decide.
  - apply not_elem_of_cons in Hm as [? ?]. case_decide; [congruence|]. by rewrite IH.
Qed.

Lemma succ_in_split n (xs1 xs2 : list N) :
  n ∉ xs1 → succ_in n (xs1 ++ n :: xs2) = head xs2.
Proof.
  induction xs1 as [|x xs1 IH]; intros Hn; simpl.
  - by case_decide.
  - apply not_elem_of_cons in Hn as [? ?]. case_decide; [congruence|]. by rewrite IH.
Qed.

(** ** Well-formedness is preserved by the list operations *)

Lemma c_wf_empty : c_wf ∅.
Proof.
  split; intros; unfold c_get in *; rewrite ?lookup_empty in *; simpl in *.
  - constructor.
  - by apply not_elem_of_nil in H1.
Qed.

Lemma c_wf_set q xs C :
  c_wf C → NoDup xs →
  (∀ n q', n ∈ xs → n ∈ c_get q' C → q' = q) →
  c_wf (c_set q xs C).
Proof.
  intros [Hnd Hdj] Hxs Hfresh. split.
  - intros q'. rewrite c_get_set. by case_decide.
  - intros q1 q2 n. rewrite !c_get_set.
    repeat case_decide; subst; intros; try done; eauto.
    + symmetry; eauto.
Qed.

Lemma c_wf_add_tail n q C :
  c_wf C → c_linked n C = false → c_wf (c_add_tail n q C).
Proof.
  intros Hwf Hl. rewrite c_linked_false in Hl. apply c_wf_set; [done| |].
  - apply NoDup_app. split; [apply Hwf|]. split; [|apply NoDup_singleton].
    intros x Hx ->%list_elem_of_singleton. by apply (Hl q).
  - intros m q' [Hm | ->%list_elem_of_singleton]%elem_of_app Hm'; [by eapply Hwf|].
    by apply Hl in Hm'.
Qed.

Lemma c_wf_add_head n q C :
  c_wf C → c_linked n C = false → c_wf (c_add_head n q C).
Proof.
  intros Hwf Hl. rewrite c_linked_false in Hl. apply c_wf_set; [done| |].
  - apply NoDup_cons. split; [apply Hl|apply Hwf].
  - intros m q' [-> | Hm]%elem_of_cons Hm'; [|by eapply Hwf].
    by apply Hl in Hm'.
Qed.

Lemma c_wf_delete n C : c_wf C → c_wf (c_delete n C).
Proof.
  intros [Hnd Hdj]. split.
  - intros q. rewrite c_get_delete. by apply NoDup_filter.
  - intros q1 q2 m [_ ?]%elem_of_c_delete [_ ?]%elem_of_c_delete. eauto.
Qed.

Lemma c_linked_delete n C : c_linked n (c_delete n C) = false.
Proof. apply c_linked_false. intros q [? _]%elem_of_c_delete. done. Qed.

Lemma c_linked_delete_ne n m C :
  n ≠ m → c_linked m (c_delete n C) = c_linked m C.
Proof.
  intros Hne. apply eq_bool_prop_intro. rewrite !Is_true_true, !c_linked_spec.
  setoid_rewrite elem_of_c_delete. naive_solver.
Qed.

End Chain.

#[export] Hint Resolve c_wf_add_tail c_wf_add_head c_wf_delete c_wf_empty
  c_linked_delete : chains.
