(* ===== verification/DList.v ===== *)
(** * Doubly linked lists of [include/list.h]

    The pointer code of [list.h], statement by statement, over a heap of
    [struct list_node]s, and the proof that it implements the chain stores of
    [Chain].  A fault ([None]) is the dereference of [NULL] or of an address
    that holds no node. *)

From S2P Require Import Prelude Chain.

Section Pointers.
Context {A : Type} `{Countable A}.

(** ** The code *)

Record list_node := ListNode { next : option A; prev : option A }.

Abbreviation heap := (gmap A list_node).
Abbreviation ptr := (option A).

Definition load (p : ptr) : M heap list_node :=
  λ h, match p with
       | Some a => match h !! a with Some n => Some (n, h) | None => None end
       | None => None
       end.

Definition get_next (p : ptr) : M heap ptr := n ← load p; mret (next n).
Definition get_prev (p : ptr) : M heap ptr := n ← load p; mret (prev n).

Definition store (p : ptr) (n : list_node) : M heap unit :=
  λ h, match p with Some a => Some (tt, <[a := n]> h) | None => None end.

Definition set_next (p v : ptr) : M heap unit :=
  n ← load p; store p (ListNode v (prev n)).
Definition set_prev (p v : ptr) : M heap unit :=
  n ← load p; store p (ListNode (next n) v).

Definition INIT_LIST_HEAD (head : ptr) : M heap unit :=
  _ ← set_next head head; set_prev head head.

Definition list_add_tail (node head : ptr) : M heap unit :=
  hp ← get_prev head;
  _ ← set_prev node hp;
  _ ← set_next node head;
  hp ← get_prev head;
  _ ← set_next hp node;
  set_prev head node.

Definition list_add_between (new prev next : ptr) : M heap unit :=
  _ ← set_prev new prev;
  _ ← set_next new next;
  _ ← set_next prev new;
  set_prev next new.

Definition list_add_after (new head : ptr) : M heap unit :=
  hn ← get_next head; list_add_between new head hn.

Definition list_add_before (node head : ptr) : M heap unit :=
  hp ← get_prev head;
  _ ← set_next hp node;
  hp ← get_prev head;
  _ ← set_prev node hp;
  _ ← set_prev head node;
  set_next node head.

Definition list_add_head (node head : ptr) : M heap unit :=
  hn ← get_next head;
  _ ← set_next node hn;
  _ ← set_prev node head;
  hn ← get_next head;
  _ ← set_prev hn node;
  set_next head node.

Definition list_delete (node : ptr) : M heap unit :=
  nn ← get_next node;
  np ← get_prev node;
  _ ← set_prev nn np;
  np ← get_prev node;
  nn ← get_next node;
  _ ← set_next np nn;
  _ ← set_next node None;
  set_prev node None.

Definition list_delete_head (head : ptr) : M heap ptr :=
  hn ← get_next head;
  if decide (hn ≠ head) then _ ← list_delete hn; mret hn else mret None.

Definition list_delete_tail (head : ptr) : M heap ptr :=
  hp ← get_prev head;
  if decide (hp ≠ head) then _ ← list_delete hp; mret hp else mret None.

Definition list_prev (node head : ptr) : M heap ptr :=
  np ← get_prev node; mret (if decide (np ≠ head) then np else None).

Definition list_next (node head : ptr) : M heap ptr :=
  nn ← get_next node; mret (if decide (nn ≠ head) then nn else None).

Definition list_first (head : ptr) : M heap ptr :=
  hn ← get_next head; mret (if decide (hn ≠ head) then hn else None).

Definition list_tail (head : ptr) : M heap ptr :=
  hp ← get_prev head; mret (if decide (hp ≠ head) then hp else None).

Definition list_is_empty (head : ptr) : M heap bool :=
  hn ← get_next head; mret (bool_decide (hn = head)).

Definition list_is_first (node head : ptr) : M heap bool :=
  np ← get_prev node; mret (bool_decide (np = head)).

Definition list_is_last (node head : ptr) : M heap bool :=
  nn ← get_next node; mret (bool_decide (nn = head)).

(** The [list_for_each] walk of [list_count]; [None] also when the fuel runs
    out before the walk is back at the head. *)
Fixpoint list_count_from (fuel : nat) (node head : ptr) (count : nat) : M heap nat :=
  match fuel with
  | O => fault
  | S fuel =>
      if decide (node = head) then mret count
      else n ← get_next node; list_count_from fuel n head (S count)
  end.

Definition list_count (fuel : nat) (head : ptr) : M heap nat :=
  hn ← get_next head; list_count_from fuel hn head 0.

Definition list_replace (old new : ptr) : M heap unit :=
  on ← get_next old;
  _ ← set_next new on;
  nn ← get_next new;
  _ ← set_prev nn new;
  op ← get_prev old;
  _ ← set_prev new op;
  np ← get_prev new;
  set_next np new.

Definition list_del_init (entry : ptr) : M heap unit :=
  _ ← list_delete entry; INIT_LIST_HEAD entry.

(** ** What a heap means

    [nx h a] and [pv h a] are the two fields of the node at [a]. *)

Definition nx (h : heap) (a : A) : option ptr := next <$> h !! a.
Definition pv (h : heap) (a : A) : option ptr := prev <$> h !! a.

Definition lnk (h : heap) (a b : A) : Prop :=
  nx h a = Some (Some b) ∧ pv h b = Some (Some a).

(** Consecutive nodes of [l] are linked to each other. *)
Fixpoint adj (h : heap) (l : list A) : Prop :=
  match l with
  | a :: l' => match l' with b :: _ => lnk h a b ∧ adj h l' | [] => True end
  | [] => True
  end.

(** One turn around the circular list with head [q]. *)
Definition cycle (q : A) (xs : list A) : list A := q :: xs ++ [q].

(** ** Executing the field accesses *)

Lemma wp_get_next h a p Φ : nx h a = Some p → Φ p h → wp (get_next (Some a)) h Φ.
Proof.
  unfold nx, wp, get_next, mbind, M_bind, load. destruct (h !! a); naive_solver.
Qed.

Lemma wp_get_prev h a p Φ : pv h a = Some p → Φ p h → wp (get_prev (Some a)) h Φ.
Proof.
  unfold pv, wp, get_prev, mbind, M_bind, load. destruct (h !! a); naive_solver.
Qed.

Lemma nx_insert h a n x : nx (<[a := n]> h) x = if decide (x = a) then Some (next n) else nx h x.
Proof.
  unfold nx. rewrite lookup_insert. repeat case_decide; naive_solver.
Qed.

Lemma pv_insert h a n x : pv (<[a := n]> h) x = if decide (x = a) then Some (prev n) else pv h x.
Proof.
  unfold pv. rewrite lookup_insert. repeat case_decide; naive_solver.
Qed.

Lemma nx_pv_dom h a : is_Some (nx h a) ↔ is_Some (pv h a).
Proof. unfold nx, pv. by rewrite !fmap_is_Some. Qed.

Lemma wp_set_next h a v (Φ : unit → heap → Prop) :
  is_Some (nx h a) →
  (∀ h', (∀ x, nx h' x = if decide (x = a) then Some v else nx h x) →
         (∀ x, pv h' x = pv h x) → Φ tt h') →
  wp (set_next (Some a) v) h Φ.
Proof.
  unfold wp, set_next, mbind, M_bind, load. intros [n Hn] HΦ. unfold nx in Hn.
  destruct (h !! a) as [m|] eqn:E; [|done]. simpl. apply HΦ; intros x.
  - apply nx_insert.
  - rewrite pv_insert. case_decide; [|done]. subst. unfold pv. by rewrite E.
Qed.

Lemma wp_set_prev h a v (Φ : unit → heap → Prop) :
  is_Some (pv h a) →
  (∀ h', (∀ x, nx h' x = nx h x) →
         (∀ x, pv h' x = if decide (x = a) then Some v else pv h x) → Φ tt h') →
  wp (set_prev (Some a) v) h Φ.
Proof.
  unfold wp, set_prev, mbind, M_bind, load. intros [n Hn] HΦ. unfold pv in Hn.
  destruct (h !! a) as [m|] eqn:E; [|done]. simpl. apply HΦ; intros x.
  - rewrite nx_insert. case_decide; [|done]. subst. unfold nx. by rewrite E.
  - apply pv_insert.
Qed.

(** The effect of linking [n] between the neighbours [p] and [q]... *)
Definition spliced (h h' : heap) (p n q : A) : Prop :=
  (∀ x, nx h' x = if decide (x = n) then Some (Some q)
                  else if decide (x = p) then Some (Some n) else nx h x) ∧
  (∀ x, pv h' x = if decide (x = n) then Some (Some p)
                  else if decide (x = q) then Some (Some n) else pv h x).

(** ... and of unlinking it. *)
Definition unspliced (h h' : heap) (p n q : A) : Prop :=
  (∀ x, nx h' x = if decide (x = n) then Some None
                  else if decide (x = p) then Some (Some q) else nx h x) ∧
  (∀ x, pv h' x = if decide (x = n) then Some None
                  else if decide (x = q) then Some (Some p) else pv h x).

End Pointers.

Arguments list_node _ : clear implicits.
Arguments ListNode {A} _ _.

(** Runs the field accesses of a pointer program one by one, reading each
    field through the writes done so far. *)
Ltac fields :=
  repeat match goal with
  | H : ∀ x, nx ?h x = _ |- context [nx ?h _] => rewrite !H
  | H : ∀ x, pv ?h x = _ |- context [pv ?h _] => rewrite !H
  end;
  repeat (case_decide; subst; try congruence); eauto.

Ltac ptr_step :=
  match goal with
  | |- wp (get_next _ ≫= _) _ _ => apply wp_bind; eapply wp_get_next; [fields|simpl]
  | |- wp (get_prev _ ≫= _) _ _ => apply wp_bind; eapply wp_get_prev; [fields|simpl]
  | |- wp (set_next _ _ ≫= _) _ _ =>
      apply wp_bind; eapply wp_set_next; [fields|intros ? ? ?; simpl]
  | |- wp (set_prev _ _ ≫= _) _ _ =>
      apply wp_bind; eapply wp_set_prev; [fields|intros ? ? ?; simpl]
  | |- wp (set_next _ _) _ _ => eapply wp_set_next; [fields|intros ? ? ?]
  | |- wp (set_prev _ _) _ _ => eapply wp_set_prev; [fields|intros ? ? ?]
  end.

Section Refine.
Context {A : Type} `{Countable A}.

Abbreviation heap := (gmap A (list_node A)).
Abbreviation ptr := (option A).

Implicit Types (h : heap).

Lemma lnk_dom h a b : lnk h a b →
  is_Some (nx h a) ∧ is_Some (pv h a) ∧ is_Some (nx h b) ∧ is_Some (pv h b).
Proof. intros [Ha Hb]. rewrite (nx_pv_dom h b), <- (nx_pv_dom h a). rewrite Ha, Hb. eauto. Qed.

Section Splice.
Context (h : heap) (p n q : A).
Context (Hpq : lnk h p q) (Hn : is_Some (nx h n)) (Hnp : n ≠ p) (Hnq : n ≠ q).

Lemma list_add_between_splices :
  wp (list_add_between (Some n) (Some p) (Some q)) h (λ _ h', spliced h h' p n q).
Proof.
  destruct (lnk_dom _ _ _ Hpq) as (?&?&?&?). destruct Hpq as [Hpn Hqp].
  pose proof (proj1 (nx_pv_dom h n) Hn).
  unfold list_add_between. do 4 ptr_step.
  split; intros x; fields.
Qed.

Lemma list_add_after_splices :
  wp (list_add_after (Some n) (Some p)) h (λ _ h', spliced h h' p n q).
Proof.
  unfold list_add_after. destruct Hpq as [Hpn _]. apply wp_bind.
  eapply wp_get_next; [done|]. apply list_add_between_splices.
Qed.

Lemma list_add_tail_splices :
  wp (list_add_tail (Some n) (Some q)) h (λ _ h', spliced h h' p n q).
Proof.
  destruct (lnk_dom _ _ _ Hpq) as (?&?&?&?). destruct Hpq as [Hpn Hqp].
  pose proof (proj1 (nx_pv_dom h n) Hn).
  unfold list_add_tail. do 6 ptr_step. split; intros x; fields.
Qed.

Lemma list_add_before_splices :
  wp (list_add_before (Some n) (Some q)) h (λ _ h', spliced h h' p n q).
Proof.
  destruct (lnk_dom _ _ _ Hpq) as (?&?&?&?). destruct Hpq as [Hpn Hqp].
  pose proof (proj1 (nx_pv_dom h n) Hn).
  unfold list_add_before. do 6 ptr_step. split; intros x; fields.
Qed.

Lemma list_add_head_splices :
  wp (list_add_head (Some n) (Some p)) h (λ _ h', spliced h h' p n q).
Proof.
  destruct (lnk_dom _ _ _ Hpq) as (?&?&?&?). destruct Hpq as [Hpn Hqp].
  pose proof (proj1 (nx_pv_dom h n) Hn).
  unfold list_add_head. do 6 ptr_step. split; intros x; fields.
Qed.

End Splice.

Lemma list_delete_unsplices h p n q :
  lnk h p n → lnk h n q → n ≠ p → n ≠ q →
  wp (list_delete (Some n)) h (λ _ h', unspliced h h' p n q).
Proof.
  intros Hpn Hnq ? ?.
  destruct (lnk_dom _ _ _ Hpn) as (?&?&?&?), (lnk_dom _ _ _ Hnq) as (?&?&?&?).
  destruct Hpn as [Hp Hn], Hnq as [Hn' Hq].
  unfold list_delete. do 8 ptr_step. split; intros x; fields.
Qed.

Lemma list_replace_splices h p old n q :
  lnk h p old → lnk h old q → old ≠ p → old ≠ q → is_Some (nx h n) → n ≠ p → n ≠ q → n ≠ old →
  wp (list_replace (Some old) (Some n)) h (λ _ h', spliced h h' p n q).
Proof.
  intros Hpo Hoq ? ? Hn ? ? ?. pose proof (proj1 (nx_pv_dom h n) Hn).
  destruct (lnk_dom _ _ _ Hpo) as (?&?&?&?), (lnk_dom _ _ _ Hoq) as (?&?&?&?).
  destruct Hpo as [Hp Ho], Hoq as [Ho' Hq].
  unfold list_replace. do 8 ptr_step. split; intros x; fields.
Qed.

(** ** Cycles *)

Lemma adj_app h l1 a l2 : adj h (l1 ++ a :: l2) ↔ adj h (l1 ++ [a]) ∧ adj h (a :: l2).
Proof.
  induction l1 as [|x l1 IH]; [simpl; naive_solver|].
  destruct l1 as [|y l1]; [simpl; naive_solver|].
  change (lnk h x y ∧ adj h ((y :: l1) ++ a :: l2) ↔
          (lnk h x y ∧ adj h ((y :: l1) ++ [a])) ∧ adj h (a :: l2)).
  rewrite IH. naive_solver.
Qed.

(** A walk only reads the [next] of all but its last node and the [prev] of
    all but its first. *)
Lemma adj_frame h h' l x :
  adj h (l ++ [x]) →
  (∀ y, y ∈ l → nx h' y = nx h y) →
  (∀ y, y ∈ tail (l ++ [x]) → pv h' y = pv h y) →
  adj h' (l ++ [x]).
Proof.
  induction l as [|a l IH]; [done|]. intros Hadj Hnx Hpv.
  destruct l as [|b l].
  - destruct Hadj as [[Ha Hx] _]. split; [|done]. split.
    + rewrite Hnx; [done|set_solver].
    + rewrite Hpv; [done|simpl; set_solver].
  - destruct Hadj as [[Ha Hb] Hrest]. split.
    + split; [rewrite Hnx; [done|set_solver]|rewrite Hpv; [done|simpl; set_solver]].
    + apply IH; [done|set_solver|]. intros y Hy. apply Hpv. simpl in *. set_solver.
Qed.

Lemma node_ext h a u v : h !! a = Some (ListNode u v) ↔ nx h a = Some u ∧ pv h a = Some v.
Proof.
  unfold nx, pv. split; [by intros ->|].
  destruct (h !! a) as [[]|]; simpl; naive_solver.
Qed.

Definition unlinked (C : gmap A (list A)) (n : A) : Prop :=
  ∀ q xs, C !! q = Some xs → n ∉ q :: xs.

(** The cycle seen from a gap between [xs1] and [xs2]. *)
Lemma cycle_gap hd xs1 xs2 (p q : A) :
  last (hd :: xs1) = Some p → head (xs2 ++ [hd]) = Some q →
  ∃ l1 l2, hd :: xs1 = l1 ++ [p] ∧ xs2 ++ [hd] = q :: l2 ∧
           cycle hd (xs1 ++ xs2) = l1 ++ p :: q :: l2.
Proof.
  intros [l1 Hl1]%last_Some Hq. destruct (xs2 ++ [hd]) as [|q' l2] eqn:E; [done|].
  injection Hq as ->. exists l1, l2. split; [done|]. split; [done|].
  unfold cycle. rewrite <- (assoc_L (++)), E.
  change (hd :: xs1 ++ q :: l2) with ((hd :: xs1) ++ q :: l2).
  by rewrite Hl1, <- (assoc_L (++)).
Qed.

Lemma cycle_mid hd xs1 xs2 n (p q : A) l1 l2 :
  hd :: xs1 = l1 ++ [p] → xs2 ++ [hd] = q :: l2 →
  cycle hd (xs1 ++ n :: xs2) = l1 ++ p :: n :: q :: l2.
Proof.
  intros E1 E2. unfold cycle. rewrite <- (assoc_L (++)). simpl. rewrite E2.
  change ((hd :: xs1) ++ n :: q :: l2 = l1 ++ p :: n :: q :: l2).
  by rewrite E1, <- (assoc_L (++)).
Qed.

Lemma gap_nodup hd xs1 xs2 (p q : A) l1 l2 :
  NoDup (hd :: xs1 ++ xs2) → hd :: xs1 = l1 ++ [p] → xs2 ++ [hd] = q :: l2 →
  p ∉ l1 ∧ q ∉ xs1 ∧ p ∉ xs2 ∧ q ∉ l2.
Proof.
  intros Hnd E1 E2.
  assert (NoDup (hd :: xs1)) as Hnd1.
  { change (NoDup ((hd :: xs1) ++ xs2)) in Hnd. by apply NoDup_app in Hnd as [? _]. }
  assert (NoDup (xs2 ++ [hd])) as Hnd2.
  { apply NoDup_cons in Hnd as [Hh Hnd]. apply NoDup_app in Hnd as (_ & _ & ?).
    apply NoDup_app. split; [done|]. split; [|apply NoDup_singleton]. set_solver. }
  rewrite E1 in Hnd1. rewrite E2 in Hnd2.
  apply NoDup_app in Hnd1 as (_ & Hp & _). apply NoDup_cons in Hnd2 as [Hq _].
  assert (p ∈ hd :: xs1) by (rewrite E1; set_solver).
  assert (q ∈ xs2 ++ [hd]) by (rewrite E2; set_solver).
  apply NoDup_cons in Hnd as [Hh Hnd]. apply NoDup_app in Hnd as (_ & Hd & _).
  split_and!; set_solver.
Qed.

(** Chains whose nodes are not touched keep their cycle. *)
Lemma adj_untouched h h' q xs :
  adj h (cycle q xs) →
  (∀ y, y ∈ q :: xs → nx h' y = nx h y ∧ pv h' y = pv h y) →
  adj h' (cycle q xs).
Proof.
  intros Ha Hf. unfold cycle in *. change (adj h' ((q :: xs) ++ [q])).
  apply (adj_frame h); [done| |].
  - intros y Hy. by apply Hf.
  - intros y Hy. simpl in Hy. apply Hf. set_solver.
Qed.

(** Which addresses are nodes of objects, as opposed to list heads: a node that
    is on no list has null links, and the code tests for that. *)
Context (nodes : A → Prop).

(** [Rep h C]: the heap [h] holds the circular lists of the store [C], and the
    nodes on no list have null links. *)
Record Rep (h : heap) (C : gmap A (list A)) : Prop := {
  rep_adj : ∀ q xs, C !! q = Some xs → adj h (cycle q xs);
  rep_nodup : ∀ q xs, C !! q = Some xs → NoDup (q :: xs);
  rep_disj : ∀ q1 q2 xs1 xs2 a, C !! q1 = Some xs1 → C !! q2 = Some xs2 →
    a ∈ q1 :: xs1 → a ∈ q2 :: xs2 → q1 = q2;
  rep_null : ∀ a n, nodes a → h !! a = Some n →
    (∀ q xs, C !! q = Some xs → a ∉ q :: xs) → n = ListNode None None;
}.

(** Replacing the contents [xs] of one chain by [ys]: it suffices to look at
    that chain, at the nodes that enter it and at those that leave it. *)
Lemma Rep_update h h' C hd xs ys :
  Rep h C → C !! hd = Some xs →
  adj h' (cycle hd ys) → NoDup (hd :: ys) →
  (∀ y, y ∈ ys → y ∈ xs ∨ unlinked C y) →
  (∀ y, y ∉ hd :: xs → y ∉ ys → nx h' y = nx h y ∧ pv h' y = pv h y) →
  (∀ y, nodes y → y ∈ xs → y ∉ ys → nx h' y = Some None ∧ pv h' y = Some None) →
  Rep h' (<[hd := ys]> C).
Proof.
  intros HR HC Hadj Hnd Hin Hsame Hleft.
  assert (∀ q zs y, q ≠ hd → C !! q = Some zs → y ∈ q :: zs → y ∉ hd :: xs ∧ y ∉ ys)
    as Hother.
  { intros q zs y Hne Hq Hy.
    assert (y ∉ hd :: xs) as Hy'.
    { intros ?. by apply Hne, (rep_disj _ _ HR _ _ _ _ y Hq HC). }
    split; [done|]. intros [?|Hu]%Hin; [set_solver|]. by apply (Hu _ _ Hq). }
  split.
  - intros q zs [[<- <-]|[Hne Hq]]%lookup_insert_Some; [done|].
    apply (adj_untouched h); [by apply HR|]. intros y Hy.
    apply Hsame; by eapply Hother.
  - intros q zs [[<- <-]|[Hne Hq]]%lookup_insert_Some; [done|]. by apply HR.
  - intros q1 q2 zs1 zs2 y [[<- <-]|[Hne1 Hq1]]%lookup_insert_Some
      [[<- <-]|[Hne2 Hq2]]%lookup_insert_Some H1 H2; [done| | |].
    + exfalso. destruct (Hother q2 zs2 y); [done..|set_solver].
    + exfalso. destruct (Hother q1 zs1 y); [done..|set_solver].
    + by eapply (rep_disj _ _ HR).
  - intros a [u v] Hnode Ha Hun. apply node_ext in Ha as [Hu Hv].
    assert (a ∉ hd :: ys) as Hays by (apply Hun; by rewrite lookup_insert_eq).
    destruct (decide (a ∈ xs)) as [Hax|Hax].
    + destruct (Hleft a) as [Hu' Hv']; [done|done|set_solver|]. congruence.
    + destruct (Hsame a) as [Hu' Hv']; [set_solver..|].
      eapply (rep_null _ _ HR a); [done|apply node_ext; split; congruence|].
      intros q zs Hq. destruct (decide (q = hd)) as [->|Hne]; [set_solver|].
      apply Hun. by rewrite lookup_insert_ne.
Qed.

Lemma gap_in hd xs1 xs2 (p q : A) :
  last (hd :: xs1) = Some p → head (xs2 ++ [hd]) = Some q →
  p ∈ hd :: xs1 ∧ q ∈ xs2 ++ [hd].
Proof.
  intros Hp Hq. destruct (cycle_gap _ _ _ _ _ Hp Hq) as (l1 & l2 & E1 & E2 & _).
  rewrite E1, E2. split; set_solver.
Qed.

Lemma gap_lnk h hd xs1 xs2 (p q : A) :
  last (hd :: xs1) = Some p → head (xs2 ++ [hd]) = Some q →
  adj h (cycle hd (xs1 ++ xs2)) → lnk h p q.
Proof.
  intros Hp Hq. destruct (cycle_gap _ _ _ _ _ Hp Hq) as (l1 & l2 & _ & _ & ->).
  by intros [_ [? _]]%adj_app.
Qed.

Section Resplice.
Context (h h' : heap) (C : gmap A (list A)) (hd : A) (xs1 xs2 : list A) (p q n : A).
Context (HR : Rep h C).
Context (Hp : last (hd :: xs1) = Some p) (Hq : head (xs2 ++ [hd]) = Some q).

(** The two ends of the gap, with [n] linked between them. *)
Lemma adj_join :
  NoDup (hd :: xs1 ++ xs2) → n ∉ hd :: xs1 ++ xs2 → spliced h h' p n q →
  adj h (hd :: xs1) → adj h (xs2 ++ [hd]) → adj h' (cycle hd (xs1 ++ n :: xs2)).
Proof.
  intros Hnd Hn [Hnx Hpv].
  destruct (cycle_gap _ _ _ _ _ Hp Hq) as (l1 & l2 & E1 & E2 & Ec).
  destruct (gap_nodup _ _ _ _ _ _ _ Hnd E1 E2) as (Hpl & Hqx & Hpx & Hql).
  destruct (gap_in _ _ _ _ _ Hp Hq) as [Hpin Hqin]. rewrite (cycle_mid _ _ _ _ _ _ _ _ E1 E2).
  assert (n ∉ l1 ++ [p]) as Hn1 by (rewrite <- E1; set_solver).
  assert (n ∉ q :: l2) as Hn2 by (rewrite <- E2; set_solver).
  intros Ha1 Ha2. apply adj_app. split; [|split; [|split]].
  - rewrite <- E1. rewrite E1 in Ha1 |- *. apply (adj_frame h); [done| |].
    + intros y Hy. rewrite Hnx. repeat case_decide; subst; set_solver.
    + rewrite <- E1. simpl. intros y Hy. rewrite Hpv. repeat case_decide; subst; set_solver.
  - split; [rewrite Hnx|rewrite Hpv]; repeat case_decide; subst; set_solver.
  - split; [rewrite Hnx|rewrite Hpv]; repeat case_decide; subst; set_solver.
  - rewrite <- E2. apply (adj_frame h); [done| |].
    + intros y Hy. rewrite Hnx. repeat case_decide; subst; set_solver.
    + rewrite E2. simpl. intros y Hy. rewrite Hpv. repeat case_decide; subst; set_solver.
Qed.

Lemma adj_spliced :
  NoDup (hd :: xs1 ++ xs2) → n ∉ hd :: xs1 ++ xs2 → spliced h h' p n q →
  adj h (cycle hd (xs1 ++ xs2)) → adj h' (cycle hd (xs1 ++ n :: xs2)).
Proof.
  intros Hnd Hn Hs. destruct (cycle_gap _ _ _ _ _ Hp Hq) as (l1 & l2 & E1 & E2 & ->).
  intros [Ha1 [_ Ha2]]%adj_app. apply adj_join; [done..| |]; [by rewrite E1|by rewrite E2].
Qed.

Lemma Rep_splice :
  C !! hd = Some (xs1 ++ xs2) → unlinked C n → spliced h h' p n q →
  Rep h' (<[hd := xs1 ++ n :: xs2]> C).
Proof.
  intros HC Hn Hs. pose proof (rep_nodup _ _ HR _ _ HC) as Hnd.
  pose proof (Hn _ _ HC) as Hnhd. destruct (gap_in _ _ _ _ _ Hp Hq) as [Hpin Hqin].
  eapply Rep_update; [done|done| | | | |].
  - apply adj_spliced; [done..|]. by apply HR.
  - rewrite <- Permutation_middle, Permutation_swap. by apply NoDup_cons.
  - intros y Hy. destruct (decide (y = n)) as [->|]; [by right|left; set_solver].
  - destruct Hs as [Hnx Hpv]. intros y Hy Hy'. rewrite Hnx, Hpv.
    repeat case_decide; subst; set_solver.
  - set_solver.
Qed.

Lemma adj_unspliced :
  NoDup (hd :: xs1 ++ n :: xs2) → unspliced h h' p n q →
  adj h (cycle hd (xs1 ++ n :: xs2)) → adj h' (cycle hd (xs1 ++ xs2)).
Proof.
  intros Hnd [Hnx Hpv].
  rewrite <- Permutation_middle, Permutation_swap in Hnd. apply NoDup_cons in Hnd as [Hn Hnd].
  destruct (cycle_gap _ _ _ _ _ Hp Hq) as (l1 & l2 & E1 & E2 & Ec).
  destruct (gap_nodup _ _ _ _ _ _ _ Hnd E1 E2) as (Hpl & Hqx & Hpx & Hql).
  destruct (gap_in _ _ _ _ _ Hp Hq) as [Hpin Hqin]. rewrite Ec, (cycle_mid _ _ _ _ _ _ _ _ E1 E2).
  assert (n ∉ l1 ++ [p]) as Hn1 by (rewrite <- E1; set_solver).
  assert (n ∉ q :: l2) as Hn2 by (rewrite <- E2; set_solver).
  intros (Ha1 & Hpn & Hnq & Ha2)%adj_app. apply adj_app. split; [|split].
  - apply (adj_frame h); [done| |].
    + intros y Hy. rewrite Hnx. repeat case_decide; subst; set_solver.
    + rewrite <- E1. simpl. intros y Hy. rewrite Hpv. repeat case_decide; subst; set_solver.
  - split; [rewrite Hnx|rewrite Hpv]; repeat case_decide; subst; set_solver.
  - rewrite <- E2 in Ha2 |- *. apply (adj_frame h); [done| |].
    + intros y Hy. rewrite Hnx. repeat case_decide; subst; set_solver.
    + rewrite E2. simpl. intros y Hy. rewrite Hpv. repeat case_decide; subst; set_solver.
Qed.

Lemma Rep_unsplice :
  C !! hd = Some (xs1 ++ n :: xs2) → unspliced h h' p n q →
  Rep h' (<[hd := xs1 ++ xs2]> C).
Proof.
  intros HC Hs. pose proof (rep_nodup _ _ HR _ _ HC) as Hnd.
  destruct (gap_in _ _ _ _ _ Hp Hq) as [Hpin Hqin].
  pose proof Hnd as Hnd'. rewrite <- Permutation_middle, Permutation_swap in Hnd'.
  apply NoDup_cons in Hnd' as [Hn Hnd'].
  eapply Rep_update; [done|done| |done| | |].
  - apply adj_unspliced; [done..|]. by apply HR.
  - set_solver.
  - destruct Hs as [Hnx Hpv]. intros y Hy Hy'. rewrite Hnx, Hpv.
    repeat case_decide; subst; set_solver.
  - destruct Hs as [Hnx Hpv]. intros y _ Hy Hy'. assert (y = n) as -> by set_solver.
    rewrite Hnx, Hpv. by case_decide.
Qed.

(** [n] in the place of [old], whose links are left as they were. *)
Lemma Rep_replace old :
  C !! hd = Some (xs1 ++ old :: xs2) → unlinked C n → ¬ nodes old → spliced h h' p n q →
  Rep h' (<[hd := xs1 ++ n :: xs2]> C).
Proof.
  intros HC Hn Hold Hs. pose proof (rep_nodup _ _ HR _ _ HC) as Hnd.
  pose proof (Hn _ _ HC) as Hnhd. destruct (gap_in _ _ _ _ _ Hp Hq) as [Hpin Hqin].
  rewrite <- Permutation_middle, Permutation_swap in Hnd. apply NoDup_cons in Hnd as [Ho Hnd].
  destruct (cycle_gap _ _ _ _ _ Hp Hq) as (l1 & l2 & E1 & E2 & _).
  pose proof (rep_adj _ _ HR _ _ HC) as Ha. rewrite (cycle_mid _ _ _ _ _ _ _ _ E1 E2) in Ha.
  apply adj_app in Ha as (Ha1 & _ & _ & Ha2).
  eapply Rep_update; [done|done| | | | |].
  - apply adj_join; [done|set_solver|done|by rewrite E1|by rewrite E2].
  - rewrite <- Permutation_middle, Permutation_swap. apply NoDup_cons. split; [set_solver|done].
  - intros y Hy. destruct (decide (y = n)) as [->|]; [by right|left; set_solver].
  - destruct Hs as [Hnx Hpv]. intros y Hy Hy'. rewrite Hnx, Hpv.
    repeat case_decide; subst; set_solver.
  - intros y Hy Hy1 Hy2. assert (y = old) as -> by set_solver. done.
Qed.

End Resplice.

(** ** The contract, operation by operation *)

Lemma gap_exists hd (xs1 xs2 : list A) :
  ∃ p q, last (hd :: xs1) = Some p ∧ head (xs2 ++ [hd]) = Some q.
Proof.
  destruct (last (hd :: xs1)) as [p|] eqn:Ep; [|by apply last_None in Ep].
  destruct (xs2 ++ [hd]) as [|q l] eqn:Eq; [by destruct xs2|]. eauto.
Qed.

(** The node at a place of the cycle and its two neighbours. *)
Lemma around h C hd xs1 n xs2 :
  Rep h C → C !! hd = Some (xs1 ++ n :: xs2) →
  ∃ p q, last (hd :: xs1) = Some p ∧ head (xs2 ++ [hd]) = Some q ∧
         lnk h p n ∧ lnk h n q ∧ n ≠ p ∧ n ≠ q.
Proof.
  intros HR HC. destruct (gap_exists hd xs1 xs2) as (p & q & Hp & Hq).
  pose proof (rep_adj _ _ HR _ _ HC) as Ha. pose proof (rep_nodup _ _ HR _ _ HC) as Hnd.
  destruct (gap_in _ _ _ _ _ Hp Hq) as [Hpin Hqin].
  exists p, q. split_and!; [done|done| | | |].
  - eapply (gap_lnk h hd xs1 (n :: xs2)); [done|done|done].
  - eapply (gap_lnk h hd (xs1 ++ [n]) xs2); [|done|by rewrite <- (assoc_L (++))].
    by rewrite app_comm_cons, last_snoc.
  - rewrite <- Permutation_middle, Permutation_swap in Hnd.
    apply NoDup_cons in Hnd as [Hn _]. set_solver.
  - rewrite <- Permutation_middle, Permutation_swap in Hnd.
    apply NoDup_cons in Hnd as [Hn _]. set_solver.
Qed.

Lemma insert_in_gap h C hd xs1 xs2 n (m : M heap unit) :
  Rep h C → C !! hd = Some (xs1 ++ xs2) → unlinked C n → is_Some (h !! n) →
  (∀ p q, last (hd :: xs1) = Some p → head (xs2 ++ [hd]) = Some q →
     lnk h p q → is_Some (nx h n) → n ≠ p → n ≠ q →
     wp m h (λ _ h', spliced h h' p n q)) →
  wp m h (λ _ h', Rep h' (<[hd := xs1 ++ n :: xs2]> C) ∧ dom h' = dom h).
Proof.
  intros HR HC Hn [nd Hnd] Hm.
  destruct (gap_exists hd xs1 xs2) as (p & q & Hp & Hq).
  destruct (gap_in _ _ _ _ _ Hp Hq) as [Hpin Hqin].
  pose proof (gap_lnk h _ _ _ _ _ Hp Hq (rep_adj _ _ HR _ _ HC)) as Hl.
  pose proof (Hn _ _ HC) as Hnin.
  assert (is_Some (nx h n)) as Hnn by (unfold nx; rewrite Hnd; eauto).
  eapply wp_mono; [apply (Hm p q); [done|done|done|done|set_solver|set_solver]|].
  intros [] h' Hs. split; [by eapply Rep_splice|].
  destruct (lnk_dom _ _ _ Hl) as (Hpd & _ & _ & _).
  apply set_eq. intros x. rewrite !elem_of_dom.
  assert (∀ k : heap, is_Some (k !! x) ↔ is_Some (nx k x)) as Hnx
    by (intros k; unfold nx; by rewrite fmap_is_Some).
  rewrite !Hnx. destruct Hs as [Hs _]. rewrite Hs. repeat case_decide; subst; naive_solver.
Qed.

Lemma unspliced_dom h h' p n q :
  lnk h p n → unspliced h h' p n q → dom h' = dom h.
Proof.
  intros Hl [Hs _]. destruct (lnk_dom _ _ _ Hl) as (Hpd & _ & Hnd & _).
  apply set_eq. intros x. rewrite !elem_of_dom.
  assert (∀ k : heap, is_Some (k !! x) ↔ is_Some (nx k x)) as Hnx
    by (intros k; unfold nx; by rewrite fmap_is_Some).
  rewrite !Hnx, Hs. repeat case_decide; subst; naive_solver.
Qed.

Lemma add_tail_rep h C hd xs n :
  Rep h C → C !! hd = Some xs → unlinked C n → is_Some (h !! n) →
  wp (list_add_tail (Some n) (Some hd)) h
     (λ _ h', Rep h' (c_add_tail n hd C) ∧ dom h' = dom h).
Proof.
  intros HR HC Hn Hd. unfold c_add_tail, c_set, c_get. rewrite HC.
  apply insert_in_gap; [done|by rewrite app_nil_r|done|done|].
  intros p q Hp [= <-] **. by apply list_add_tail_splices.
Qed.

Lemma add_head_rep h C hd xs n :
  Rep h C → C !! hd = Some xs → unlinked C n → is_Some (h !! n) →
  wp (list_add_head (Some n) (Some hd)) h
     (λ _ h', Rep h' (c_add_head n hd C) ∧ dom h' = dom h).
Proof.
  intros HR HC Hn Hd. unfold c_add_head, c_set, c_get. rewrite HC.
  apply (insert_in_gap _ _ _ []); [done..|].
  intros p q [= <-] Hq **. by apply list_add_head_splices.
Qed.

(** A linked node splits its chain. *)
Lemma linked_split h C hd xs m :
  Rep h C → C !! hd = Some xs → m ∈ xs → ∃ xs1 xs2, xs = xs1 ++ m :: xs2 ∧ m ∉ xs1.
Proof.
  intros HR HC Hm. apply list_elem_of_split in Hm as (xs1 & xs2 & ->).
  exists xs1, xs2. split; [done|].
  pose proof (rep_nodup _ _ HR _ _ HC) as Hnd.
  apply NoDup_cons in Hnd as [_ Hnd]. apply NoDup_app in Hnd as (_ & Hd & _). set_solver.
Qed.

Lemma add_before_rep h C hd xs n m :
  Rep h C → C !! hd = Some xs → m ∈ xs → unlinked C n → is_Some (h !! n) →
  wp (list_add_before (Some n) (Some m)) h
     (λ _ h', Rep h' (c_set hd (insert_before n m (c_get hd C)) C) ∧ dom h' = dom h).
Proof.
  intros HR HC Hm Hn Hd. unfold c_set, c_get. rewrite HC. simpl.
  destruct (linked_split _ _ _ _ _ HR HC Hm) as (xs1 & xs2 & -> & Hm1).
  rewrite insert_before_split by done.
  apply insert_in_gap; [done..|].
  intros p q Hp [= <-] **. by apply list_add_before_splices.
Qed.

Lemma add_after_rep h C hd xs n m :
  Rep h C → C !! hd = Some xs → m ∈ xs → unlinked C n → is_Some (h !! n) →
  wp (list_add_after (Some n) (Some m)) h
     (λ _ h', Rep h' (c_set hd (insert_after n m (c_get hd C)) C) ∧ dom h' = dom h).
Proof.
  intros HR HC Hm Hn Hd. unfold c_set, c_get. rewrite HC. simpl.
  destruct (linked_split _ _ _ _ _ HR HC Hm) as (xs1 & xs2 & -> & Hm1).
  rewrite insert_after_split by done. rewrite (cons_middle m), (assoc_L (++)).
  apply insert_in_gap; [done|by rewrite <- (assoc_L (++))|done|done|].
  intros p q. rewrite app_comm_cons, last_snoc. intros [= <-] **.
  by eapply list_add_after_splices.
Qed.

Lemma delete_rep h C hd xs n :
  Rep h C → C !! hd = Some xs → n ∈ xs →
  wp (list_delete (Some n)) h (λ _ h', Rep h' (c_delete n C) ∧ dom h' = dom h).
Proof.
  intros HR HC Hn.
  destruct (linked_split _ _ _ _ _ HR HC Hn) as (xs1 & xs2 & -> & Hn1).
  destruct (around _ _ _ _ _ _ HR HC) as (p & q & Hp & Hq & Hpn & Hnq & ? & ?).
  eapply wp_mono; [by apply (list_delete_unsplices h p n q)|].
  intros [] h' Hu. split; [|by apply (unspliced_dom h h' p n q)].
  replace (c_delete n C) with (<[hd := xs1 ++ xs2]> C); [by eapply Rep_unsplice|].
  pose proof (rep_nodup _ _ HR _ _ HC) as Hnd.
  rewrite <- Permutation_middle, Permutation_swap in Hnd. apply NoDup_cons in Hnd as [Hnx _].
  apply map_eq. intros k. unfold c_delete. rewrite lookup_fmap.
  destruct (decide (k = hd)) as [->|Hne].
  - rewrite lookup_insert_eq, HC. simpl. f_equal. symmetry. apply filter_ne_split; set_solver.
  - rewrite lookup_insert_ne by done. destruct (C !! k) as [ys|] eqn:Ek; [|done].
    simpl. f_equal. symmetry. apply filter_ne_fresh. intros Hin. apply Hne.
    apply (rep_disj _ _ HR _ _ _ _ n Ek HC); set_solver.
Qed.

Lemma replace_rep h C hd xs1 old xs2 n :
  Rep h C → C !! hd = Some (xs1 ++ old :: xs2) → ¬ nodes old → unlinked C n → is_Some (h !! n) →
  wp (list_replace (Some old) (Some n)) h
     (λ _ h', Rep h' (<[hd := xs1 ++ n :: xs2]> C) ∧ dom h' = dom h).
Proof.
  intros HR HC Hold Hn [nd Hd]. pose proof (Hn _ _ HC) as Hnin.
  destruct (around _ _ _ _ _ _ HR HC) as (p & q & Hp & Hq & Hpo & Hoq & ? & ?).
  destruct (gap_in _ _ _ _ _ Hp Hq) as [Hpin Hqin].
  assert (is_Some (nx h n)) as Hnn by (unfold nx; rewrite Hd; eauto).
  eapply wp_mono; [by apply (list_replace_splices h p old n q); try set_solver|].
  intros [] h' Hs. split; [by eapply Rep_replace|].
  destruct (lnk_dom _ _ _ Hpo) as (Hpd & _ & _ & _). destruct Hs as [Hs _].
  apply set_eq. intros x. rewrite !elem_of_dom.
  assert (∀ k : heap, is_Some (k !! x) ↔ is_Some (nx k x)) as Hnx
    by (intros k; unfold nx; by rewrite fmap_is_Some).
  rewrite !Hnx, Hs. repeat case_decide; subst; naive_solver.
Qed.

(** ** Reads *)

Lemma first_rep h C hd xs :
  Rep h C → C !! hd = Some xs →
  nx h hd = Some (Some (default hd (head xs))) ∧
  pv h hd = Some (Some (default hd (last xs))).
Proof.
  intros HR HC. pose proof (rep_adj _ _ HR _ _ HC) as Ha. split.
  - destruct xs as [|x xs]; destruct Ha as [[? ?] _]; done.
  - destruct xs as [|x xs] using rev_ind; [destruct Ha as [[? ?] _]; done|].
    rewrite last_snoc. simpl.
    destruct (gap_lnk h hd (xs ++ [x]) [] x hd) as [_ Hpv]; [|done|by rewrite app_nil_r|done].
    by rewrite app_comm_cons, last_snoc.
Qed.

Lemma next_rep h C hd xs n :
  Rep h C → C !! hd = Some xs → n ∈ xs →
  nx h n = Some (Some (default hd (succ_in n xs))) ∧
  pv h n = Some (Some (default hd (succ_in n (reverse xs)))).
Proof.
  intros HR HC Hn. pose proof (rep_nodup _ _ HR _ _ HC) as Hnd.
  destruct (linked_split _ _ _ _ _ HR HC Hn) as (xs1 & xs2 & -> & Hn1).
  destruct (around _ _ _ _ _ _ HR HC) as (p & q & Hp & Hq & [_ Hpn] & [Hnq _] & _).
  rewrite Hpn, Hnq, succ_in_split by done.
  rewrite reverse_app, reverse_cons, <- (assoc_L (++)). simpl.
  apply NoDup_cons in Hnd as [_ Hnd]. apply NoDup_app in Hnd as (_ & _ & Hnd).
  apply NoDup_cons in Hnd as [Hn2 _].
  rewrite succ_in_split by (by rewrite elem_of_reverse). split.
  - destruct xs2 as [|y xs2]; by injection Hq as ->.
  - rewrite head_reverse. destruct xs1 as [|x xs1] using rev_ind; [by injection Hp as ->|].
    rewrite app_comm_cons, last_snoc in Hp. rewrite last_snoc. by injection Hp as ->.
Qed.

Lemma not_head h C hd xs (o : option A) :
  Rep h C → C !! hd = Some xs → (∀ x, o = Some x → x ∈ xs) →
  (if decide (Some (default hd o) ≠ Some hd) then Some (default hd o) else None) = o.
Proof.
  intros HR HC Ho. pose proof (rep_nodup _ _ HR _ _ HC) as Hnd.
  apply NoDup_cons in Hnd as [Hh _]. destruct o as [x|]; simpl; case_decide; try done.
  exfalso. specialize (Ho x eq_refl). assert (x = hd) by (by destruct (decide (x = hd)); [|congruence]).
  congruence.
Qed.

Lemma count_walk h C hd xs1 xs2 fuel k :
  Rep h C → C !! hd = Some (xs1 ++ xs2) → length xs2 < fuel →
  wp (list_count_from fuel (Some (default hd (head xs2))) (Some hd) k) h
     (λ c h', c = k + length xs2 ∧ h' = h).
Proof.
  intros HR. revert xs1 fuel k. induction xs2 as [|x xs2 IH]; intros xs1 fuel k HC Hf.
  - destruct fuel; [simpl in Hf; lia|]. simpl. rewrite decide_True by done.
    apply wp_ret. simpl. split; [lia|done].
  - destruct fuel; [simpl in Hf; lia|]. simpl.
    pose proof (rep_nodup _ _ HR _ _ HC) as Hnd. apply NoDup_cons in Hnd as [Hh _].
    rewrite decide_False by set_solver.
    destruct (around _ _ _ _ _ _ HR HC) as (p & q & _ & Hq & _ & [Hxq _] & _).
    apply wp_bind. eapply wp_get_next; [done|].
    assert (q = default hd (head xs2)) as -> by (destruct xs2; by injection Hq as ->).
    eapply wp_mono; [apply (IH (xs1 ++ [x])); [by rewrite <- (assoc_L (++))|simpl in Hf; lia]|].
    intros c h' [-> ->]. simpl. split; [lia|done].
Qed.

Lemma init_rep h C q :
  Rep h C → unlinked C q → is_Some (h !! q) →
  wp (INIT_LIST_HEAD (Some q)) h (λ _ h', Rep h' (<[q := []]> C) ∧ dom h' = dom h).
Proof.
  intros HR Hq Hd. assert (is_Some (nx h q)) as Hn by (unfold nx; by rewrite fmap_is_Some).
  pose proof (proj1 (nx_pv_dom h q) Hn).
  unfold INIT_LIST_HEAD. ptr_step. ptr_step.
  assert (∀ x, x ≠ q → nx h'0 x = nx h x ∧ pv h'0 x = pv h x) as Hsame by (intros; fields).
  assert (C !! q = None) as HCq.
  { destruct (C !! q) as [xs|] eqn:E; [|done]. exfalso. eapply Hq; [done|set_solver]. }
  split.
  - split.
    + intros k zs [[<- <-]|[Hne Hk]]%lookup_insert_Some.
      * split; [|done]. split; fields.
      * apply (adj_untouched h); [by apply HR|]. intros y Hy. apply Hsame.
        intros ->. by apply (Hq _ _ Hk).
    + intros k zs [[<- <-]|[Hne Hk]]%lookup_insert_Some; [apply NoDup_singleton|by apply HR].
    + intros k1 k2 zs1 zs2 y [[<- <-]|[Hne1 Hk1]]%lookup_insert_Some
        [[<- <-]|[Hne2 Hk2]]%lookup_insert_Some Hy1 Hy2; [done| | |by eapply (rep_disj _ _ HR)].
      * apply list_elem_of_singleton in Hy1 as ->. exfalso. by apply (Hq _ _ Hk2).
      * apply list_elem_of_singleton in Hy2 as ->. exfalso. by apply (Hq _ _ Hk1).
    + intros a [u v] Hnode Ha Hun. apply node_ext in Ha as [Hu Hv].
      assert (a ≠ q) as Haq.
      { intros ->. apply (Hun q []); [by rewrite lookup_insert_eq|set_solver]. }
      destruct (Hsame a Haq) as [Hu' Hv'].
      eapply (rep_null _ _ HR a); [done|apply node_ext; split; congruence|].
      intros k zs Hk. apply Hun. rewrite lookup_insert_ne; [done|congruence].
  - apply set_eq. intros x. rewrite !elem_of_dom.
    assert (∀ k : heap, is_Some (k !! x) ↔ is_Some (nx k x)) as Hnx
      by (intros k; unfold nx; by rewrite fmap_is_Some).
    rewrite !Hnx. fields. naive_solver.
Qed.

(** ** The refinement theorem

    The interface of [list.h] as commands; [exec] runs the pointer code,
    [spec] is the same command on a chain store, [None] when the caller breaks
    the list discipline (adds a node that is already linked, deletes one that
    is not, names a head that was never initialised).  [list_replace] leaves the
    links of the node it takes out, so that node must not be one whose links are
    tested for null; [list_del_init] leaves an empty list of its own. *)

Context `{!∀ a, Decision (nodes a)}.

Inductive lop :=
| OpInit (q : A)
| OpAddTail (n q : A)
| OpAddHead (n q : A)
| OpAddBefore (n m q : A)
| OpAddAfter (n m q : A)
| OpDelete (n : A)
| OpDeleteHead (q : A)
| OpDeleteTail (q : A)
| OpReplace (old new q : A)
| OpDelInit (n : A)
| OpFirst (q : A)
| OpTail (q : A)
| OpNext (n q : A)
| OpPrev (n q : A)
| OpIsEmpty (q : A)
| OpIsFirst (n q : A)
| OpIsLast (n q : A)
| OpCount (q : A).

Inductive lres :=
| RUnit
| RPtr (p : ptr)
| RBool (b : bool)
| RNat (n : nat).

Definition exec (fuel : nat) (o : lop) : M heap lres :=
  match o with
  | OpInit q => _ ← INIT_LIST_HEAD (Some q); mret RUnit
  | OpAddTail n q => _ ← list_add_tail (Some n) (Some q); mret RUnit
  | OpAddHead n q => _ ← list_add_head (Some n) (Some q); mret RUnit
  | OpAddBefore n m _ => _ ← list_add_before (Some n) (Some m); mret RUnit
  | OpAddAfter n m _ => _ ← list_add_after (Some n) (Some m); mret RUnit
  | OpDelete n => _ ← list_delete (Some n); mret RUnit
  | OpDeleteHead q => p ← list_delete_head (Some q); mret (RPtr p)
  | OpDeleteTail q => p ← list_delete_tail (Some q); mret (RPtr p)
  | OpReplace old new _ => _ ← list_replace (Some old) (Some new); mret RUnit
  | OpDelInit n => _ ← list_del_init (Some n); mret RUnit
  | OpFirst q => p ← list_first (Some q); mret (RPtr p)
  | OpTail q => p ← list_tail (Some q); mret (RPtr p)
  | OpNext n q => p ← list_next (Some n) (Some q); mret (RPtr p)
  | OpPrev n q => p ← list_prev (Some n) (Some q); mret (RPtr p)
  | OpIsEmpty q => b ← list_is_empty (Some q); mret (RBool b)
  | OpIsFirst n q => b ← list_is_first (Some n) (Some q); mret (RBool b)
  | OpIsLast n q => b ← list_is_last (Some n) (Some q); mret (RBool b)
  | OpCount q => c ← list_count fuel (Some q); mret (RNat c)
  end.

Definition fresh (D : gset A) (n : A) (C : gmap A (list A)) : bool :=
  bool_decide (n ∈ D) && bool_decide (C !! n = None) && negb (c_linked n C).

Definition c_delete_opt (o : option A) (C : gmap A (list A)) : gmap A (list A) :=
  match o with Some n => c_delete n C | None => C end.

Definition spec (fuel : nat) (D : gset A) (o : lop) (C : gmap A (list A)) :
    option (lres * gmap A (list A)) :=
  match o with
  | OpInit q => if fresh D q C then Some (RUnit, <[q := []]> C) else None
  | OpAddTail n q =>
      match C !! q with
      | Some _ => if fresh D n C then Some (RUnit, c_add_tail n q C) else None
      | None => None
      end
  | OpAddHead n q =>
      match C !! q with
      | Some _ => if fresh D n C then Some (RUnit, c_add_head n q C) else None
      | None => None
      end
  | OpAddBefore n m q =>
      if bool_decide (m ∈ c_get q C) && fresh D n C
      then Some (RUnit, c_set q (insert_before n m (c_get q C)) C) else None
  | OpAddAfter n m q =>
      if bool_decide (m ∈ c_get q C) && fresh D n C
      then Some (RUnit, c_set q (insert_after n m (c_get q C)) C) else None
  | OpDelete n => if c_linked n C then Some (RUnit, c_delete n C) else None
  | OpDeleteHead q => xs ← C !! q; Some (RPtr (head xs), c_delete_opt (head xs) C)
  | OpDeleteTail q => xs ← C !! q; Some (RPtr (last xs), c_delete_opt (last xs) C)
  | OpReplace old new q =>
      if bool_decide (old ∈ c_get q C) && bool_decide (¬ nodes old) && fresh D new C
      then Some (RUnit, c_set q ((λ x, if decide (x = old) then new else x) <$> c_get q C) C) else None
  | OpDelInit n => if c_linked n C then Some (RUnit, <[n := []]> (c_delete n C)) else None
  | OpFirst q => xs ← C !! q; Some (RPtr (head xs), C)
  | OpTail q => xs ← C !! q; Some (RPtr (last xs), C)
  | OpNext n q =>
      if bool_decide (n ∈ c_get q C) then Some (RPtr (succ_in n (c_get q C)), C) else None
  | OpPrev n q =>
      if bool_decide (n ∈ c_get q C)
      then Some (RPtr (succ_in n (reverse (c_get q C))), C) else None
  | OpIsEmpty q => xs ← C !! q; Some (RBool (bool_decide (xs = [])), C)
  | OpIsFirst n q =>
      if bool_decide (n ∈ c_get q C) then Some (RBool (bool_decide (head (c_get q C) = Some n)), C) else None
  | OpIsLast n q =>
      if bool_decide (n ∈ c_get q C) then Some (RBool (bool_decide (last (c_get q C) = Some n)), C) else None
  | OpCount q =>
      xs ← C !! q; if decide (length xs < fuel) then Some (RNat (length xs), C) else None
  end.

Fixpoint exec_all (fuel : nat) (os : list lop) : M heap (list lres) :=
  match os with
  | [] => mret []
  | o :: os => r ← exec fuel o; rs ← exec_all fuel os; mret (r :: rs)
  end.

Fixpoint spec_all (fuel : nat) (D : gset A) (os : list lop) (C : gmap A (list A)) :
    option (list lres * gmap A (list A)) :=
  match os with
  | [] => Some ([], C)
  | o :: os =>
      '(r, C1) ← spec fuel D o C; '(rs, C2) ← spec_all fuel D os C1; Some (r :: rs, C2)
  end.

Lemma fresh_unlinked h D n C :
  Rep h C → dom h = D → fresh D n C = true → unlinked C n ∧ is_Some (h !! n).
Proof.
  unfold fresh. intros HR <- [[Hd HC]%andb_true_iff Hl]%andb_true_iff.
  apply bool_decide_eq_true in Hd, HC. apply negb_true_iff in Hl.
  rewrite c_linked_false in Hl. apply elem_of_dom in Hd. split; [|done].
  intros q xs Hq. apply not_elem_of_cons. split; [congruence|].
  specialize (Hl q). unfold c_get in Hl. by rewrite Hq in Hl.
Qed.

Lemma c_get_elem q n (C : gmap A (list A)) : n ∈ c_get q C → ∃ xs, C !! q = Some xs ∧ n ∈ xs.
Proof. unfold c_get. destruct (C !! q) as [xs|]; simpl; [eauto|]. by intros ?%not_elem_of_nil. Qed.

Lemma wp_then_ret {B} (m : M heap B) (f : B → lres) h (Φ : lres → heap → Prop) :
  wp m h (λ b h', Φ (f b) h') → wp (b ← m; mret (f b)) h Φ.
Proof. intros Hm. apply wp_bind. eapply wp_mono; [done|]. intros b h' ?. by apply wp_ret. Qed.

Lemma head_in (xs : list A) x : head xs = Some x → x ∈ xs.
Proof. destruct xs; [done|]. intros [= ->]. left. Qed.

Lemma last_in (xs : list A) x : last xs = Some x → x ∈ xs.
Proof. intros [l ->]%last_Some. apply elem_of_app. right. left. Qed.

Lemma succ_in_in n (xs : list A) x : succ_in n xs = Some x → x ∈ xs.
Proof.
  induction xs as [|y xs IH]; simpl; [done|]. case_decide; intros Hx.
  - right. by apply head_in.
  - right. auto.
Qed.

(** Taking out the node at one end, if there is one. *)
Lemma delete_end_rep h C q xs o : Rep h C → C !! q = Some xs → (∀ x, o = Some x → x ∈ xs) →
  wp (if decide (Some (default q o) ≠ Some q) then _ ← list_delete (Some (default q o)); mret (Some (default q o))
      else mret None) h (λ p h', p = o ∧ Rep h' (c_delete_opt o C) ∧ dom h' = dom h).
Proof.
  intros HR Eq Ho. pose proof (rep_nodup _ _ HR _ _ Eq) as [Hh _]%NoDup_cons.
  destruct o as [x|]; simpl; case_decide as E; [| |done|by apply wp_ret].
  - apply wp_bind. eapply wp_mono; [by eapply delete_rep; [..|apply Ho]|]. intros [] h' [? ?]. by apply wp_ret.
  - injection E as ->. exfalso. by apply Hh, Ho.
Qed.

Lemma del_init_rep h C q xs n : Rep h C → C !! q = Some xs → n ∈ xs →
  wp (list_del_init (Some n)) h (λ _ h', Rep h' (<[n := []]> (c_delete n C)) ∧ dom h' = dom h).
Proof.
  intros HR Eq Hn. unfold list_del_init. apply wp_bind.
  eapply wp_mono; [by eapply delete_rep|]. intros [] h1 [HR1 Hd1].
  eapply wp_mono; [apply (init_rep h1 (c_delete n C)); [done| |]|].
  - intros k zs Hk. unfold c_delete in Hk. rewrite lookup_fmap in Hk.
    destruct (C !! k) as [ys|] eqn:Ek; [|done]. injection Hk as <-. apply not_elem_of_cons. split.
    + intros ->. assert (k = q) as -> by (eapply (rep_disj _ _ HR _ _ _ _ k Ek Eq); [left|by right]).
      simplify_eq. by pose proof (rep_nodup _ _ HR _ _ Eq) as [? _]%NoDup_cons.
    + rewrite list_elem_of_filter. naive_solver.
  - destruct (next_rep _ _ _ _ _ HR Eq Hn) as [Hx _]. apply elem_of_dom. rewrite Hd1. apply elem_of_dom.
    unfold nx in Hx. destruct (h !! n); [eauto|done].
  - intros [] h2 [? ?]. split; [done|congruence].
Qed.

Lemma replace_fmap h C q xs1 old xs2 n : Rep h C → C !! q = Some (xs1 ++ old :: xs2) →
  (λ x, if decide (x = old) then n else x) <$> (xs1 ++ old :: xs2) = xs1 ++ n :: xs2.
Proof.
  intros HR Eq. pose proof (rep_nodup _ _ HR _ _ Eq) as Hnd.
  rewrite <- Permutation_middle, Permutation_swap in Hnd. apply NoDup_cons in Hnd as [Ho _].
  assert (Hid : ∀ l : list A, old ∉ l → (λ x, if decide (x = old) then n else x) <$> l = l).
  { intros l. induction l as [|x l IH]; [done|]. intros [? ?]%not_elem_of_cons.
    rewrite fmap_cons, IH, decide_False by done. done. }
  rewrite fmap_app, fmap_cons, decide_True, !Hid by (done || set_solver). done.
Qed.

(** The node before the head is the last one. *)
Lemma end_rep h C q xs ys n : Rep h C → C !! q = Some xs → n ∈ ys → (∀ x, x ∈ ys → x ∈ xs) → NoDup ys →
  Some (default q (succ_in n ys)) = Some q ↔ last ys = Some n.
Proof.
  intros HR Eq Hn Hsub Hnd. pose proof (rep_nodup _ _ HR _ _ Eq) as [Hh _]%NoDup_cons.
  apply list_elem_of_split in Hn as (l1 & l2 & ->). apply NoDup_app in Hnd as (Hnd1 & Hd & [Hn2 _]%NoDup_cons).
  rewrite succ_in_split by set_solver. destruct l2 as [|y l2] using rev_ind; simpl.
  - by rewrite last_snoc.
  - clear IHl2. rewrite (app_comm_cons l2), (assoc_L (++)), last_snoc. split.
    + intros [= E]. destruct (head (l2 ++ [y])) as [z|] eqn:Ez; simpl in E; [|by destruct l2].
      subst z. exfalso. apply Hh, Hsub. apply head_in in Ez. set_solver.
    + intros [= ->]. set_solver.
Qed.

Definition is_read (o : lop) : bool :=
  match o with
  | OpFirst _ | OpTail _ | OpNext _ _ | OpPrev _ _ | OpIsEmpty _ | OpIsFirst _ _ | OpIsLast _ _ | OpCount _ => true
  | _ => false
  end.

(** One command that changes a list agrees with the chain store. *)
Lemma exec_changes fuel D o h C r C' :
  is_read o = false → Rep h C → dom h = D → spec fuel D o C = Some (r, C') →
  wp (exec fuel o) h (λ r' h', r' = r ∧ Rep h' C' ∧ dom h' = D).
Proof.
  intros Ho HR HD Hs. destruct o; try discriminate Ho; clear Ho; simpl in Hs |- *; apply wp_then_ret.
  - destruct (fresh D q C) eqn:E; [|done]. injection Hs as <- <-.
    destruct (fresh_unlinked _ _ _ _ HR HD E).
    eapply wp_mono; [by apply (init_rep h C)|]. intros [] h' [? ?]. split_and!; congruence.
  - destruct (C !! q) as [xs|] eqn:Eq; [|done].
    destruct (fresh D n C) eqn:E; [|done]. injection Hs as <- <-.
    destruct (fresh_unlinked _ _ _ _ HR HD E).
    eapply wp_mono; [by eapply add_tail_rep|]. intros [] h' [? ?]. split_and!; congruence.
  - destruct (C !! q) as [xs|] eqn:Eq; [|done].
    destruct (fresh D n C) eqn:E; [|done]. injection Hs as <- <-.
    destruct (fresh_unlinked _ _ _ _ HR HD E).
    eapply wp_mono; [by eapply add_head_rep|]. intros [] h' [? ?]. split_and!; congruence.
  - destruct (bool_decide _ && _) eqn:E; [|done]. injection Hs as <- <-.
    apply andb_true_iff in E as [Em%bool_decide_eq_true E].
    destruct (fresh_unlinked _ _ _ _ HR HD E), (c_get_elem _ _ _ Em) as (xs & Eq & Hm).
    eapply wp_mono; [by eapply add_before_rep|]. intros [] h' [? ?]. split_and!; congruence.
  - destruct (bool_decide _ && _) eqn:E; [|done]. injection Hs as <- <-.
    apply andb_true_iff in E as [Em%bool_decide_eq_true E].
    destruct (fresh_unlinked _ _ _ _ HR HD E), (c_get_elem _ _ _ Em) as (xs & Eq & Hm).
    eapply wp_mono; [by eapply add_after_rep|]. intros [] h' [? ?]. split_and!; congruence.
  - destruct (c_linked n C) eqn:E; [|done]. injection Hs as <- <-.
    apply c_linked_spec in E as [q (xs & Eq & Hm)%c_get_elem].
    eapply wp_mono; [by eapply delete_rep|]. intros [] h' [? ?]. split_and!; congruence.
  - apply bind_Some in Hs as (xs & Eq & [= <- <-]). destruct (first_rep _ _ _ _ HR Eq) as [Hn _].
    unfold list_delete_head. apply wp_bind. eapply wp_get_next; [done|].
    eapply wp_mono; [apply (delete_end_rep h C q xs (head xs)); [done..|intros x; apply head_in]|].
    intros p h' (-> & ? & ?). split_and!; congruence.
  - apply bind_Some in Hs as (xs & Eq & [= <- <-]). destruct (first_rep _ _ _ _ HR Eq) as [_ Hn].
    unfold list_delete_tail. apply wp_bind. eapply wp_get_prev; [done|].
    eapply wp_mono; [apply (delete_end_rep h C q xs (last xs)); [done..|intros x; apply last_in]|].
    intros p h' (-> & ? & ?). split_and!; congruence.
  - destruct (_ && fresh D new C) eqn:E; [|done]. injection Hs as <- <-.
    apply andb_true_iff in E as [[Em%bool_decide_eq_true Hno%bool_decide_eq_true]%andb_true_iff E].
    destruct (fresh_unlinked _ _ _ _ HR HD E), (c_get_elem _ _ _ Em) as (xs & Eq & Hm).
    destruct (linked_split _ _ _ _ _ HR Eq Hm) as (xs1 & xs2 & -> & _).
    eapply wp_mono; [by eapply replace_rep|]. intros [] h' [? ?]. split_and!; [done| |congruence].
    unfold c_set, c_get. rewrite Eq. simpl. by rewrite (replace_fmap h C q).
  - destruct (c_linked n C) eqn:E; [|done]. injection Hs as <- <-.
    apply c_linked_spec in E as [q (xs & Eq & Hm)%c_get_elem].
    eapply wp_mono; [by eapply del_init_rep|]. intros [] h' [? ?]. split_and!; congruence.
Qed.

(** And one that only reads. *)
Lemma exec_reads fuel D o h C r C' :
  is_read o = true → Rep h C → dom h = D → spec fuel D o C = Some (r, C') →
  wp (exec fuel o) h (λ r' h', r' = r ∧ Rep h' C' ∧ dom h' = D).
Proof.
  intros Ho HR HD Hs. destruct o; try discriminate Ho; clear Ho; simpl in Hs |- *; apply wp_then_ret.
  - apply bind_Some in Hs as (xs & Eq & [= <- <-]).
    destruct (first_rep _ _ _ _ HR Eq) as [Hn _].
    unfold list_first. apply wp_bind. eapply wp_get_next; [done|]. apply wp_ret.
    rewrite (not_head _ _ _ _ _ HR Eq) by apply head_in. done.
  - apply bind_Some in Hs as (xs & Eq & [= <- <-]).
    destruct (first_rep _ _ _ _ HR Eq) as [_ Hn].
    unfold list_tail. apply wp_bind. eapply wp_get_prev; [done|]. apply wp_ret.
    rewrite (not_head _ _ _ _ _ HR Eq) by apply last_in. done.
  - case_bool_decide as Em; [|done]. injection Hs as <- <-.
    destruct (c_get_elem _ _ _ Em) as (xs & Eq & Hm). unfold c_get. rewrite Eq. simpl.
    destruct (next_rep _ _ _ _ _ HR Eq Hm) as [Hn _].
    unfold list_next. apply wp_bind. eapply wp_get_next; [done|]. apply wp_ret.
    rewrite (not_head _ _ _ _ _ HR Eq) by apply succ_in_in. done.
  - case_bool_decide as Em; [|done]. injection Hs as <- <-.
    destruct (c_get_elem _ _ _ Em) as (xs & Eq & Hm). unfold c_get. rewrite Eq. simpl.
    destruct (next_rep _ _ _ _ _ HR Eq Hm) as [_ Hn].
    unfold list_prev. apply wp_bind. eapply wp_get_prev; [done|]. apply wp_ret.
    rewrite (not_head _ _ _ _ _ HR Eq); [done|].
    intros x Hx%succ_in_in. by apply elem_of_reverse.
  - apply bind_Some in Hs as (xs & Eq & [= <- <-]).
    destruct (first_rep _ _ _ _ HR Eq) as [Hn _].
    unfold list_is_empty. apply wp_bind. eapply wp_get_next; [done|]. apply wp_ret.
    split_and!; [|done|done]. f_equal. apply bool_decide_ext.
    pose proof (rep_nodup _ _ HR _ _ Eq) as [Hh _]%NoDup_cons.
    destruct xs as [|x xs]; simpl; [done|]. split; [|done]. intros [= ->]. set_solver.
  - case_bool_decide as Em; [|done]. injection Hs as <- <-.
    destruct (c_get_elem _ _ _ Em) as (xs & Eq & Hm). unfold c_get. rewrite Eq. simpl.
    unfold list_is_first. apply wp_bind. eapply wp_get_prev; [by eapply next_rep|]. apply wp_ret.
    split_and!; [|done|done]. f_equal. apply bool_decide_ext. rewrite <- last_reverse.
    eapply end_rep; [done..|by apply elem_of_reverse|intros x; apply elem_of_reverse|].
    rewrite reverse_Permutation. by pose proof (rep_nodup _ _ HR _ _ Eq) as [_ ?]%NoDup_cons.
  - case_bool_decide as Em; [|done]. injection Hs as <- <-.
    destruct (c_get_elem _ _ _ Em) as (xs & Eq & Hm). unfold c_get. rewrite Eq. simpl.
    unfold list_is_last. apply wp_bind. eapply wp_get_next; [by eapply next_rep|]. apply wp_ret.
    split_and!; [|done|done]. f_equal. apply bool_decide_ext.
    eapply end_rep; [done..|]. by pose proof (rep_nodup _ _ HR _ _ Eq) as [_ ?]%NoDup_cons.
  - apply bind_Some in Hs as (xs & Eq & Hs). case_decide; [|done]. injection Hs as <- <-.
    destruct (first_rep _ _ _ _ HR Eq) as [Hn _].
    unfold list_count. apply wp_bind. eapply wp_get_next; [done|].
    eapply wp_mono; [by apply (count_walk h C q [] xs)|]. intros c h' [-> ->]. done.
Qed.

Lemma exec_refines fuel D o h C r C' :
  Rep h C → dom h = D → spec fuel D o C = Some (r, C') →
  wp (exec fuel o) h (λ r' h', r' = r ∧ Rep h' C' ∧ dom h' = D).
Proof. destruct (is_read o) eqn:Eo; [by apply exec_reads|by apply exec_changes]. Qed.

(** C2: the pointer code of [list.h] implements chain stores: from a heap that
    represents a store, every sequence of its operations (initialising a list,
    adding at either end and next to a node, deleting a node or the one at either
    end, replacing, deleting and reinitialising, and the queries) that respects the
    list discipline runs without a null or dangling dereference, returns what the
    store's sequence returns and ends in a heap that represents the store's
    result.  The discipline: only unlinked nodes are added, only linked ones
    deleted or replaced, only initialised heads named, and no node is replaced that
    the code tests for being linked ([nodes]), since [list_replace] leaves its links
    as they were. *)
Theorem list_h_refines_chains fuel D os h C rs C' :
  Rep h C → dom h = D → spec_all fuel D os C = Some (rs, C') →
  wp (exec_all fuel os) h (λ rs' h', rs' = rs ∧ Rep h' C' ∧ dom h' = D).
Proof.
  revert h C rs C'. induction os as [|o os IH]; intros h C rs C' HR HD Hs; simpl in Hs |- *.
  - injection Hs as <- <-. by apply wp_ret.
  - apply bind_Some in Hs as ([r C1] & Ho & Hs).
    apply bind_Some in Hs as ([rs1 C2] & Hos & [= <- <-]).
    apply wp_bind. eapply wp_mono; [by eapply exec_refines|]. intros r' h1 (-> & HR1 & HD1).
    apply wp_bind. eapply wp_mono; [by eapply IH|]. intros rs' h2 (-> & ? & ?).
    by apply wp_ret.
Qed.

End Refine.

(** ** Witness: six nodes, one queue *)

Lemma Rep_null {A} `{Countable A} (P : A → Prop) (D : gset A) :
  Rep P (gset_to_gmap (ListNode None None) D) ∅.
Proof.
  split; try (intros; by rewrite lookup_empty in *).
  intros a n _ Ha _. apply lookup_gset_to_gmap_Some in Ha as [_ <-]. done.
Qed.

Definition demo_nodes : gset nat := {[0; 1; 2; 3; 4; 5]}.

Definition demo_ops : list (@lop nat) :=
  [OpInit 0; OpAddTail 1 0; OpAddHead 2 0; OpAddBefore 3 1 0; OpAddAfter 4 2 0;
   OpCount 0; OpDelete 2; OpFirst 0; OpNext 3 0; OpPrev 3 0; OpTail 0; OpIsEmpty 0;
   OpReplace 3 5 0; OpIsFirst 4 0; OpIsLast 5 0; OpDeleteHead 0; OpDelInit 1; OpDeleteTail 0; OpDeleteTail 0].

(** Node 3 is one whose links nobody tests. *)
Lemma list_h_refines_chains_witness :
  ∃ h', exec_all 10 demo_ops (gset_to_gmap (ListNode None None) demo_nodes)
        = Some ([RUnit; RUnit; RUnit; RUnit; RUnit; RNat 4; RUnit; RPtr (Some 4);
                 RPtr (Some 1); RPtr (Some 4); RPtr (Some 1); RBool false;
                 RUnit; RBool true; RBool false; RPtr (Some 4); RUnit; RPtr (Some 5); RPtr None], h') ∧
        Rep (λ a, a ≠ 3) h' {[0 := []; 1 := []]}.
Proof.
  pose proof (list_h_refines_chains (λ a, a ≠ 3) 10 demo_nodes demo_ops
    (gset_to_gmap (ListNode None None) demo_nodes) ∅ _ _
    (Rep_null _ _) (dom_gset_to_gmap _ _) eq_refl) as Hw.
  apply wp_run in Hw as (rs & h' & Hrun & -> & HR & _).
  exists h'. split; [exact Hrun|]. exact HR.
Defined.
