(* ===== verification/PrioMap.v ===== *)
(** * Priority bitmaps

    The two-level bitmap over the 256 task priorities: [T_TTOS_PriorityMap] and
    the [TBSP_*_PRIORITYBITMAP] macros of [include/ttosBase.h],
    [ttosGetHighestPriority] of [include/ttosInterTask.inl] and the leading-zero
    count of [arch/aarch64/cpu_bitops.S]. *)

From S2P Require Import Prelude.
Import Width.
Local Open Scope Z_scope.

(** [clz w0, w0]. *)
Definition zero_num_of_word_get (numVar : Z) : Z :=
  if decide (numVar = 0) then 32 else 31 - Z.log2 numVar.

Record T_TTOS_PriorityMap := PriorityMap {
  major : Z;
  bitMap : list Z;
}.

Definition TOPBIT : Z := 0x80000000.

Definition TBSP_SET_PRIORITYBITMAP (pri : Z) (m : T_TTOS_PriorityMap) :
    option T_TTOS_PriorityMap :=
  let setPri := Z.shiftr pri 5 in
  w ← bitMap m !! Z.to_nat setPri;
  Some (PriorityMap
    (Z.lor (major m) (Z.shiftr TOPBIT setPri))
    (<[Z.to_nat setPri := Z.lor w (Z.shiftr TOPBIT (Z.land pri 0x1F))]> (bitMap m))).

Definition TBSP_CLEAR_PRIORITYBITMAP (pri : Z) (m : T_TTOS_PriorityMap) :
    option T_TTOS_PriorityMap :=
  let clePri := Z.shiftr pri 5 in
  w ← bitMap m !! Z.to_nat clePri;
  let w' := Z.land w (u32 (Z.lnot (Z.shiftr TOPBIT (Z.land pri 0x1F)))) in
  Some (PriorityMap
    (if decide (w' = 0)
     then Z.land (major m) (u32 (Z.lnot (Z.shiftr TOPBIT clePri))) else major m)
    (<[Z.to_nat clePri := w']> (bitMap m))).

Definition ttosGetHighestPriority (m : T_TTOS_PriorityMap) : option Z :=
  let getPri := zero_num_of_word_get (major m) in
  w ← bitMap m !! Z.to_nat getPri;
  let pri := zero_num_of_word_get w in
  Some (Z.lor pri (u32 (Z.shiftl getPri 5))).

Definition empty_map : T_TTOS_PriorityMap := PriorityMap 0 (replicate 8 0).

(** ** Meaning

    Bit [i] of a word, counted from the top as the macros do. *)
Definition topbit (w i : Z) : bool := Z.testbit w (31 - i).

Definition pri_set (m : T_TTOS_PriorityMap) (pri : Z) : bool :=
  match bitMap m !! Z.to_nat (Z.shiftr pri 5) with
  | Some w => topbit w (Z.land pri 0x1F)
  | None => false
  end.

Record pmap_wf (m : T_TTOS_PriorityMap) : Prop := {
  pm_len : length (bitMap m) = 8%nat;
  pm_word : ∀ i w, bitMap m !! i = Some w → 0 ≤ w < 2 ^ 32;
  pm_major : 0 ≤ major m < 2 ^ 32;
  pm_top : ∀ i, 0 ≤ i < 32 →
    topbit (major m) i = true ↔ ∃ w, bitMap m !! Z.to_nat i = Some w ∧ w ≠ 0;
}.

Lemma topbit_shiftr_top i j : 0 ≤ i < 32 → 0 ≤ j < 32 →
  topbit (Z.shiftr TOPBIT i) j = bool_decide (i = j).
Proof.
  intros Hi Hj. unfold topbit, TOPBIT. rewrite Z.shiftr_spec by lia.
  change 0x80000000 with (2 ^ 31). rewrite Z.pow2_bits_eqb by lia.
  case_bool_decide; [apply Z.eqb_eq|apply Z.eqb_neq]; lia.
Qed.

Lemma topbit_lor w v i : topbit (Z.lor w v) i = topbit w i || topbit v i.
Proof. apply Z.lor_spec. Qed.

Lemma topbit_land_not w v i : 0 ≤ i < 32 →
  topbit (Z.land w (u32 (Z.lnot v))) i = topbit w i && negb (topbit v i).
Proof.
  intros. unfold topbit, u32, wrap. rewrite Z.land_spec, Z.mod_pow2_bits_low by lia.
  by rewrite Z.lnot_spec by lia.
Qed.

Lemma word_zero w : 0 ≤ w < 2 ^ 32 →
  w = 0 ↔ ∀ i, 0 ≤ i < 32 → topbit w i = false.
Proof.
  intros Hw. split; [intros -> i Hi; apply Z.bits_0|]. intros Hb.
  apply Z.bits_inj'. intros k Hk. rewrite Z.bits_0.
  destruct (decide (k < 32)).
  - specialize (Hb (31 - k)). unfold topbit in Hb. replace (31 - (31 - k)) with k in Hb by lia.
    apply Hb. lia.
  - destruct (decide (w = 0)) as [->|]; [apply Z.bits_0|].
    apply Z.bits_above_log2; [lia|]. pose proof (Z.log2_lt_pow2 w 32). lia.
Qed.

Lemma word_nonzero w i : 0 ≤ i < 32 → topbit w i = true → w ≠ 0.
Proof. intros ? Hb ->. unfold topbit in Hb. by rewrite Z.bits_0 in Hb. Qed.

Lemma word_lor_range w v : 0 ≤ w < 2 ^ 32 → 0 ≤ v < 2 ^ 32 → 0 ≤ Z.lor w v < 2 ^ 32.
Proof.
  intros Hw Hv. assert (0 ≤ Z.lor w v) by (apply Z.lor_nonneg; lia). split; [done|].
  destruct (decide (Z.lor w v = 0)); [lia|]. apply Z.log2_lt_pow2; [lia|].
  rewrite Z.log2_lor by lia.
  assert (∀ x, 0 ≤ x < 2 ^ 32 → Z.log2 x < 32) as Hl.
  { intros x Hx. destruct (decide (x = 0)) as [->|]; [simpl; lia|].
    apply Z.log2_lt_pow2; lia. }
  pose proof (Hl w Hw). pose proof (Hl v Hv). lia.
Qed.

Lemma word_land_range w v : 0 ≤ w < 2 ^ 32 → 0 ≤ v < 2 ^ 32 → 0 ≤ Z.land w v < 2 ^ 32.
Proof.
  intros Hw Hv. assert (0 ≤ Z.land w v) by (apply Z.land_nonneg; lia). split; [done|].
  destruct (decide (Z.land w v = 0)); [lia|]. apply Z.log2_lt_pow2; [lia|].
  eapply Z.le_lt_trans; [apply Z.log2_land; lia|].
  apply Z.min_lt_iff. left. destruct (decide (w = 0)) as [->|]; [simpl; lia|].
  apply Z.log2_lt_pow2; lia.
Qed.

Lemma topbit_range i : 0 ≤ i < 32 → 0 ≤ Z.shiftr TOPBIT i < 2 ^ 32.
Proof.
  intros. unfold TOPBIT. rewrite Z.shiftr_div_pow2 by lia. split.
  - apply Z.div_pos; lia.
  - apply Z.le_lt_trans with 0x80000000; [|lia].
    rewrite <- (Z.div_1_r 0x80000000) at 2. apply Z.div_le_compat_l; lia.
Qed.

(** The leading-zero count finds the first set bit from the top. *)
Lemma clz_spec w : 0 < w < 2 ^ 32 →
  let z := zero_num_of_word_get w in
  0 ≤ z < 32 ∧ topbit w z = true ∧ ∀ j, 0 ≤ j < z → topbit w j = false.
Proof.
  intros Hw. unfold zero_num_of_word_get, topbit. case_decide; [lia|]. simpl.
  pose proof (Z.log2_nonneg w). pose proof (proj1 (Z.log2_lt_pow2 w 32 ltac:(lia)) ltac:(lia)).
  split; [lia|]. split.
  - replace (31 - (31 - Z.log2 w)) with (Z.log2 w) by lia. apply Z.bit_log2. lia.
  - intros j Hj. apply Z.bits_above_log2; lia.
Qed.

(** ** The two indices of a priority *)

Lemma pri_split pri : 0 ≤ pri < 256 →
  0 ≤ Z.shiftr pri 5 < 8 ∧ 0 ≤ Z.land pri 0x1F < 32 ∧
  pri = 32 * Z.shiftr pri 5 + Z.land pri 0x1F.
Proof.
  intros. rewrite Z.shiftr_div_pow2 by lia. change 0x1F with (Z.ones 5).
  rewrite Z.land_ones by lia. change (2 ^ 5) with 32.
  pose proof (Z.div_mod pri 32). pose proof (Z.mod_pos_bound pri 32).
  split; [|lia]. split; [apply Z.div_pos; lia|]. apply Z.div_lt_upper_bound; lia.
Qed.

Lemma pri_join i j : 0 ≤ i < 8 → 0 ≤ j < 32 →
  Z.lor j (u32 (Z.shiftl i 5)) = 32 * i + j ∧
  Z.shiftr (32 * i + j) 5 = i ∧ Z.land (32 * i + j) 0x1F = j.
Proof.
  intros Hi Hj. rewrite Z.shiftl_mul_pow2 by lia. rewrite u32_small by lia. split_and!.
  - assert (Z.land j (i * 2 ^ 5) = 0) as Hd.
    { apply Z.bits_inj'. intros k Hk. rewrite Z.land_spec, Z.bits_0.
      destruct (decide (k < 5)).
      - rewrite Z.mul_pow2_bits_low by lia. apply andb_false_r.
      - rewrite <- (Z.mod_small j (2 ^ 5)) by lia. by rewrite Z.mod_pow2_bits_high by lia. }
    pose proof (Z.add_lor_land j (i * 2 ^ 5)). lia.
  - rewrite Z.shiftr_div_pow2 by lia. change (2 ^ 5) with 32.
    rewrite (Z.mul_comm 32), Z.div_add_l, Z.div_small by lia. lia.
  - change 0x1F with (Z.ones 5). rewrite Z.land_ones by lia. change (2 ^ 5) with 32.
    by rewrite (Z.mul_comm 32), Z.add_comm, Z.mod_add, Z.mod_small by lia.
Qed.

(** ** Operations *)

Section Ops.
Context (m : T_TTOS_PriorityMap) (Hwf : pmap_wf m).

Lemma word_at i : 0 ≤ i < 8 → ∃ w, bitMap m !! Z.to_nat i = Some w ∧ 0 ≤ w < 2 ^ 32.
Proof.
  intros Hi. destruct (lookup_lt_is_Some_2 (bitMap m) (Z.to_nat i)) as [w Hw].
  { rewrite (pm_len _ Hwf). lia. }
  exists w. split; [done|]. by eapply pm_word.
Qed.

Lemma set_spec pri : 0 ≤ pri < 256 →
  ∃ m', TBSP_SET_PRIORITYBITMAP pri m = Some m' ∧ pmap_wf m' ∧
    ∀ p, 0 ≤ p < 256 → pri_set m' p = bool_decide (p = pri) || pri_set m p.
Proof.
  intros Hp. destruct (pri_split pri Hp) as (Hi & Hj & Epri).
  destruct (word_at _ Hi) as (w & Ew & Hw). unfold TBSP_SET_PRIORITYBITMAP. rewrite Ew. simpl.
  eexists. split; [done|].
  set (i := Z.shiftr pri 5) in *. set (j := Z.land pri 31) in *.
  assert (topbit (Z.lor w (Z.shiftr TOPBIT j)) j = true) as Hset.
  { rewrite topbit_lor, topbit_shiftr_top by lia. rewrite bool_decide_true by done.
    by rewrite orb_true_r. }
  assert (0 ≤ Z.lor w (Z.shiftr TOPBIT j) < 2 ^ 32) as Hr
    by (apply word_lor_range; [done|by apply topbit_range]).
  split; [split; simpl|].
  - rewrite length_insert. apply Hwf.
  - intros k w' [(_ & <- & _)|[_ Hk]]%list_lookup_insert_Some; [done|]. by eapply pm_word.
  - apply word_lor_range; [apply Hwf|]. apply topbit_range. lia.
  - intros k Hk. rewrite topbit_lor, topbit_shiftr_top by lia.
    rewrite orb_true_iff, bool_decide_eq_true, (pm_top _ Hwf) by lia.
    destruct (decide (i = k)) as [<-|Hne].
    + rewrite list_lookup_insert_eq by (rewrite (pm_len _ Hwf); lia).
      split; [|by right]. intros _. eexists. split; [done|]. eapply word_nonzero; [|done]. lia.
    + rewrite list_lookup_insert_ne by lia. naive_solver.
  - intros p Hpp. destruct (pri_split p Hpp) as (Hi' & Hj' & Ep).
    unfold pri_set. simpl. destruct (decide (Z.shiftr p 5 = i)) as [Eq|Hne].
    + rewrite Eq, list_lookup_insert_eq by (rewrite (pm_len _ Hwf); lia).
      rewrite Ew, topbit_lor, topbit_shiftr_top by lia. rewrite orb_comm. f_equal.
      apply bool_decide_ext. lia.
    + rewrite list_lookup_insert_ne by lia. rewrite bool_decide_false; [done|]. intros ->. done.
Qed.

Lemma clear_spec pri : 0 ≤ pri < 256 →
  ∃ m', TBSP_CLEAR_PRIORITYBITMAP pri m = Some m' ∧ pmap_wf m' ∧
    ∀ p, 0 ≤ p < 256 → pri_set m' p = negb (bool_decide (p = pri)) && pri_set m p.
Proof.
  intros Hp. destruct (pri_split pri Hp) as (Hi & Hj & Epri).
  destruct (word_at _ Hi) as (w & Ew & Hw). unfold TBSP_CLEAR_PRIORITYBITMAP. rewrite Ew. simpl.
  eexists. split; [done|].
  set (i := Z.shiftr pri 5) in *. set (j := Z.land pri 31) in *.
  set (w' := Z.land w _).
  assert (0 ≤ w' < 2 ^ 32) as Hr by (apply word_land_range; [done|apply u32_range]).
  split; [split; simpl|].
  - rewrite length_insert. apply Hwf.
  - intros k v [(_ & <- & _)|[_ Hk]]%list_lookup_insert_Some; [done|]. by eapply pm_word.
  - case_decide; [|apply Hwf]. apply word_land_range; [apply Hwf|apply u32_range].
  - intros k Hk. destruct (decide (i = k)) as [<-|Hne].
    + rewrite list_lookup_insert_eq by (rewrite (pm_len _ Hwf); lia).
      case_decide as Ez.
      * rewrite topbit_land_not, topbit_shiftr_top, bool_decide_true, andb_false_r by (lia || done).
        naive_solver.
      * rewrite (pm_top _ Hwf) by lia. split; [naive_solver|]. intros _. exists w.
        split; [done|]. intros ->. by apply Ez.
    + rewrite list_lookup_insert_ne by lia. rewrite <- (pm_top _ Hwf) by lia.
      case_decide; [|done].
      rewrite topbit_land_not, topbit_shiftr_top, bool_decide_false, andb_true_r by (lia || done).
      done.
  - intros p Hpp. destruct (pri_split p Hpp) as (Hi' & Hj' & Ep).
    unfold pri_set. simpl. destruct (decide (Z.shiftr p 5 = i)) as [Eq|Hne].
    + rewrite Eq, list_lookup_insert_eq by (rewrite (pm_len _ Hwf); lia).
      unfold w'. rewrite Ew, topbit_land_not, topbit_shiftr_top by lia. rewrite andb_comm. f_equal.
      f_equal. apply bool_decide_ext. lia.
    + rewrite list_lookup_insert_ne by lia. rewrite bool_decide_false; [done|]. intros ->. done.
Qed.

Lemma major_zero : major m = 0 ↔ ∀ p, 0 ≤ p < 256 → pri_set m p = false.
Proof.
  split.
  - intros Hz p Hp. destruct (pri_split p Hp) as (Hi & Hj & Ep).
    destruct (word_at _ Hi) as (w & Ew & Hw). unfold pri_set. rewrite Ew.
    apply not_true_is_false. intros Hb. apply word_nonzero in Hb; [|lia].
    assert (topbit (major m) (Z.shiftr p 5) = true) as Ht by (apply Hwf; [lia|eauto]).
    rewrite Hz in Ht. unfold topbit in Ht. by rewrite Z.bits_0 in Ht.
  - intros Hall. apply word_zero; [apply Hwf|]. intros i Hi. apply not_true_is_false.
    intros Ht. apply (pm_top _ Hwf) in Ht as (w & Ew & Hne); [|done].
    pose proof (lookup_lt_Some _ _ _ Ew) as Hlt. rewrite (pm_len _ Hwf) in Hlt.
    apply Hne, word_zero; [by eapply pm_word|]. intros j Hj.
    destruct (pri_join i j) as (_ & E1 & E2); [lia..|].
    specialize (Hall (32 * i + j) ltac:(lia)). unfold pri_set in Hall.
    by rewrite E1, E2, Ew in Hall.
Qed.

Lemma highest_spec p : 0 ≤ p < 256 → pri_set m p = true →
  ∃ pri, ttosGetHighestPriority m = Some pri ∧ 0 ≤ pri < 256 ∧ pri_set m pri = true ∧
    ∀ p', 0 ≤ p' < pri → pri_set m p' = false.
Proof.
  intros Hp Hset.
  assert (major m ≠ 0) as Hmaj.
  { intros Hz. rewrite major_zero in Hz. by rewrite Hz in Hset. }
  destruct (clz_spec (major m)) as (Hz & Ht & Hlow); [pose proof (pm_major _ Hwf); lia|].
  unfold ttosGetHighestPriority. set (i := zero_num_of_word_get (major m)) in *.
  pose proof Ht as Ht'. apply (pm_top _ Hwf) in Ht' as (w & Ew & Hne); [|done].
  pose proof (lookup_lt_Some _ _ _ Ew) as Hlt. rewrite (pm_len _ Hwf) in Hlt.
  destruct (clz_spec w) as (Hj & Htw & Hloww); [pose proof (pm_word _ Hwf _ _ Ew); lia|].
  rewrite Ew. simpl. set (j := zero_num_of_word_get w) in *.
  destruct (pri_join i j) as (-> & E1 & E2); [lia..|].
  eexists. split; [done|]. split; [lia|]. split.
  - unfold pri_set. by rewrite E1, E2, Ew.
  - intros p' Hp'. destruct (pri_split p') as (Hi' & Hj' & Ep'); [lia|].
    unfold pri_set. destruct (decide (Z.shiftr p' 5 = i)) as [Eq|Hne'].
    + rewrite Eq, Ew. apply Hloww. lia.
    + destruct (word_at _ Hi') as (w' & Ew' & Hw'). rewrite Ew'.
      apply not_true_is_false. intros Hb. apply word_nonzero in Hb; [|lia].
      assert (topbit (major m) (Z.shiftr p' 5) = true) as Ht' by (apply Hwf; [lia|eauto]).
      by rewrite Hlow in Ht' by lia.
Qed.

End Ops.

Lemma empty_map_wf : pmap_wf empty_map.
Proof.
  split; simpl; [done| |lia|].
  - intros i w Hw. apply (list_elem_of_lookup_2 (replicate 8 0)), elem_of_replicate in Hw.
    lia.
  - intros i Hi. unfold topbit. rewrite Z.bits_0. split; [done|].
    intros (w & Hw & Hne). apply (list_elem_of_lookup_2 (replicate 8 0)), elem_of_replicate in Hw.
    lia.
Qed.
