(* ===== verification/DeltaQ.v ===== *)
(** * Delta queues

    The tick queues of the kernel (waiting tasks, timers, period tasks) keep in
    each node the number of ticks after its predecessor.  This file holds their
    theory, on sequences of nodes with their increments: [abs_from] gives the
    absolute deadlines; insertion, removal and the passing of ticks are related
    to the deadlines.  The components prove that their list code computes these
    functions. *)

From S2P Require Import Prelude Chain.
Local Open Scope Z_scope.

Section DeltaQ.
Context {A : Type} `{EqDecision A}.
Implicit Types (q : list (A * Z)) (t : A).

(** [passes late d w]: a node that waits [w] goes behind one that waits [d];
    [late] is the comparison [w >= d] (the task queue), its negation [w > d]
    (the timer queue). *)
Definition passes (late : bool) (d w : Z) : bool := if late then d <=? w else d <? w.

Fixpoint d_insert (late : bool) t (w : Z) q : list (A * Z) :=
  match q with
  | [] => [(t, w)]
  | (n, d) :: q' =>
      if passes late d w then (n, d) :: d_insert late t (w - d) q' else (t, w) :: (n, d - w) :: q'
  end.

Fixpoint d_extract t q : list (A * Z) :=
  match q with
  | [] => []
  | (n, d) :: q' =>
      if decide (n = t)
      then match q' with [] => [] | (n', d') :: q'' => (n', d' + d) :: q'' end
      else (n, d) :: d_extract t q'
  end.

(** [d_tick k q]: the nodes that [k] ticks release, and the queue left. *)
Fixpoint d_tick (k : Z) q : list A * list (A * Z) :=
  match q with
  | [] => ([], [])
  | (n, d) :: q' =>
      if k <? d then ([], (n, d - k) :: q')
      else let '(e, r) := d_tick (k - d) q' in (n :: e, r)
  end.

(** ** Deadlines *)

Fixpoint abs_from (b : Z) q : list (A * Z) :=
  match q with [] => [] | (n, d) :: q' => (n, b + d) :: abs_from (b + d) q' end.

Definition deadlines q : list (A * Z) := abs_from 0 q.

(** Insertion by deadline: behind every node it passes. *)
Fixpoint insert_by (late : bool) t (w : Z) (l : list (A * Z)) : list (A * Z) :=
  match l with
  | [] => [(t, w)]
  | (n, x) :: l' => if passes late x w then (n, x) :: insert_by late t w l' else (t, w) :: l
  end.

Record dq_wf q : Prop := {
  dq_pos : ∀ n d, (n, d) ∈ q → 0 ≤ d;
  dq_nodup : NoDup q.*1;
}.

Lemma abs_ids b q : (abs_from b q).*1 = q.*1.
Proof. revert b. induction q as [|[n d] q IH]; intros b; simpl; [done|]. by rewrite IH. Qed.

Lemma dq_wf_cons n d q : dq_wf ((n, d) :: q) ↔ 0 ≤ d ∧ n ∉ q.*1 ∧ dq_wf q.
Proof.
  split.
  - intros [Hp Hnd]. simpl in Hnd. apply NoDup_cons in Hnd as [??]. split_and!; [|done|split; [|done]].
    + apply (Hp n). left.
    + intros n' d' Hin. apply (Hp n'). by right.
  - intros (Hd & Hn & [Hp Hnd]). split.
    + intros n' d' [E|Hin]%elem_of_cons; [by simplify_eq|by eapply Hp].
    + simpl. by apply NoDup_cons.
Qed.

Lemma abs_ge b q n x : dq_wf q → (n, x) ∈ abs_from b q → b ≤ x.
Proof.
  revert b. induction q as [|[n' d] q IH]; intros b Hwf; simpl; [by intros []%not_elem_of_nil|].
  apply dq_wf_cons in Hwf as (Hd & _ & Hwf). intros [E|Hin]%elem_of_cons; [simplify_eq; lia|].
  specialize (IH _ Hwf Hin). lia.
Qed.

Lemma abs_shift b c q : abs_from (b + c) q = prod_map id (Z.add c) <$> abs_from b q.
Proof.
  revert b. induction q as [|[n d] q IH]; intros b; simpl; [done|]. f_equal; [f_equal; simpl; lia|].
  rewrite <- IH. f_equal. lia.
Qed.

(** ** Insertion *)

Lemma passes_shift late x w b : passes late (b + x) (b + w) = passes late x w.
Proof. unfold passes. destruct late; apply eq_true_iff_eq; rewrite ?Z.leb_le, ?Z.ltb_lt; lia. Qed.

Lemma insert_deadlines late t w b q :
  abs_from b (d_insert late t w q) = insert_by late t (b + w) (abs_from b q).
Proof.
  revert w b. induction q as [|[n d] q IH]; intros w b; simpl; [done|].
  rewrite passes_shift. destruct (passes late d w); simpl.
  - rewrite IH. by replace (b + d + (w - d)) with (b + w) by lia.
  - by replace (b + w + (d - w)) with (b + d) by lia.
Qed.

Lemma insert_by_bound late t w l B :
  Forall (λ p, p.2 < B) l → w < B → Forall (λ p, p.2 < B) (insert_by late t w l).
Proof.
  intros Hl Hw. induction Hl as [|[n x] l Hx Hl IH]; simpl; [by repeat constructor|].
  destruct (passes late x w); repeat constructor; try done.
Qed.

Lemma insert_ids late t w q : (d_insert late t w q).*1 ≡ₚ t :: q.*1.
Proof.
  revert w. induction q as [|[n d] q IH]; intros w; simpl; [done|].
  destruct (passes late d w); simpl; [|done]. rewrite IH. apply Permutation_swap.
Qed.

Lemma insert_wf late t w q : dq_wf q → t ∉ q.*1 → 0 ≤ w → dq_wf (d_insert late t w q).
Proof.
  revert w. induction q as [|[n d] q IH]; intros w Hwf Ht Hw; simpl.
  - apply dq_wf_cons. split_and!; [done|by apply not_elem_of_nil|done].
  - apply dq_wf_cons in Hwf as (Hd & Hn & Hwf). simpl in Ht. apply not_elem_of_cons in Ht as [Htn Ht].
    destruct (passes late d w) eqn:Hp; unfold passes in Hp.
    + assert (Hle : 0 ≤ w - d) by (destruct late; [apply Z.leb_le in Hp|apply Z.ltb_lt in Hp]; lia).
      apply dq_wf_cons. split_and!; [done| |by apply IH].
      rewrite insert_ids. apply not_elem_of_cons. split; [congruence|done].
    + assert (Hle : 0 ≤ d - w) by (destruct late; [apply Z.leb_gt in Hp|apply Z.ltb_ge in Hp]; lia).
      apply dq_wf_cons. split_and!; [done| |by apply dq_wf_cons]. simpl. by apply not_elem_of_cons.
Qed.

(** ** Removal *)

Lemma extract_deadlines t b q : dq_wf q →
  abs_from b (d_extract t q) = filter (λ p, p.1 ≠ t) (abs_from b q).
Proof.
  revert b. induction q as [|[n d] q IH]; intros b Hwf; simpl; [done|].
  apply dq_wf_cons in Hwf as (Hd & Hn & Hwf). case_decide as E.
  - subst n. rewrite filter_cons_False by naive_solver.
    assert (Hf : filter (λ p, p.1 ≠ t) (abs_from (b + d) q) = abs_from (b + d) q).
    { clear -Hn. revert b d Hn. induction q as [|[n' d'] q IH]; intros b d Hn; simpl; [done|].
      simpl in Hn. apply not_elem_of_cons in Hn as [??].
      rewrite filter_cons_True by (simpl; congruence). f_equal. by apply IH. }
    rewrite Hf. destruct q as [|[n' d'] q']; simpl; [done|].
    by replace (b + (d' + d)) with (b + d + d') by lia.
  - rewrite filter_cons_True by done. simpl. f_equal. by apply IH.
Qed.

Lemma extract_fresh t q : t ∉ q.*1 → d_extract t q = q.
Proof.
  induction q as [|[n d] q IH]; simpl; intros Ht; [done|]. apply not_elem_of_cons in Ht as [Hne Ht].
  rewrite decide_False by done. by rewrite IH.
Qed.

Lemma extract_sub t q n : n ∈ (d_extract t q).*1 → n ∈ q.*1.
Proof.
  induction q as [|[x d] q IH]; simpl; [done|]. case_decide.
  - destruct q as [|[n' d'] q']; simpl; set_solver.
  - simpl. set_solver.
Qed.

Lemma extract_gone t q : NoDup q.*1 → t ∉ (d_extract t q).*1.
Proof.
  induction q as [|[x d] q IH]; simpl; intros Hnd; [apply not_elem_of_nil|].
  apply NoDup_cons in Hnd as [Hn Hnd]. case_decide as Hx.
  - subst x. by destruct q as [|[n' d'] q'].
  - simpl. apply not_elem_of_cons. split; [done|by apply IH].
Qed.

Lemma extract_wf t q : dq_wf q → dq_wf (d_extract t q).
Proof.
  induction q as [|[n d] q IH]; intros Hwf; simpl; [done|].
  apply dq_wf_cons in Hwf as (Hd & Hn & Hwf). case_decide.
  - destruct q as [|[n' d'] q']; [done|]. apply dq_wf_cons in Hwf as (? & ? & ?).
    apply dq_wf_cons. split_and!; [lia|done..].
  - apply dq_wf_cons. split_and!; [done| |auto]. by intros ?%extract_sub.
Qed.

(** ** Ticks *)

Lemma tick_from k b q : dq_wf q → 0 ≤ k →
  (d_tick k q).1 = (filter (λ p, p.2 ≤ b + k) (abs_from b q)).*1 ∧
  abs_from b (d_tick k q).2 =
    prod_map id (λ x, x - k) <$> filter (λ p, b + k < p.2) (abs_from b q).
Proof.
  revert k b. induction q as [|[n d] q IH]; intros k b Hwf Hk; simpl; [done|].
  apply dq_wf_cons in Hwf as (Hd & Hn & Hwf). destruct (Z.ltb_spec k d) as [Hlt|Hge].
  - assert (Hall : Forall (λ p, b + k < p.2) (abs_from (b + d) q)).
    { apply Forall_forall. intros [n' x] Hin. simpl. pose proof (abs_ge _ _ _ _ Hwf Hin). lia. }
    simpl. rewrite filter_cons_False by (simpl; lia). rewrite filter_cons_True by (simpl; lia). split.
    + rewrite filter_none; [done|]. eapply Forall_impl; [exact Hall|]. simpl. lia.
    + rewrite filter_all by exact Hall. simpl. f_equal; [f_equal; lia|].
      replace (b + (d - k)) with ((b + d) + (- k)) by lia. rewrite abs_shift.
      apply list_fmap_ext. intros _ [n' x] _. simpl. f_equal. lia.
  - specialize (IH (k - d) (b + d) Hwf ltac:(lia)). destruct (d_tick (k - d) q) as [e r]. simpl in *.
    replace (b + d + (k - d)) with (b + k) in IH by lia. destruct IH as [He Hr].
    rewrite (filter_cons_True (λ p, p.2 ≤ b + k)) by (simpl; lia).
    rewrite (filter_cons_False (λ p, b + k < p.2)) by (simpl; lia). simpl. split; [by rewrite He|].
    replace b with ((b + d) + (- d)) at 1 by lia. rewrite abs_shift, Hr, <- list_fmap_compose.
    apply list_fmap_ext. intros _ [n' x] _. simpl. f_equal. lia.
Qed.

Lemma tick_wf k q : dq_wf q → dq_wf (d_tick k q).2 ∧
  ∀ n, n ∈ (d_tick k q).1 ∨ n ∈ (d_tick k q).2.*1 → n ∈ q.*1.
Proof.
  revert k. induction q as [|[n d] q IH]; intros k Hwf; simpl; [split; [done|set_solver]|].
  apply dq_wf_cons in Hwf as (Hd & Hn & Hwf). destruct (Z.ltb_spec k d).
  - split; [apply dq_wf_cons; split_and!; [lia|done..]|]. simpl. set_solver.
  - destruct (IH (k - d) Hwf) as [Hwf' Hsub]. destruct (d_tick (k - d) q) as [e r]. simpl in *.
    split; [done|]. intros x. specialize (Hsub x). set_solver.
Qed.

Lemma tick_length k q : (length (d_tick k q).1 ≤ length q)%nat.
Proof.
  revert k. induction q as [|[n d] q IH]; intros k; simpl; [lia|]. destruct (k <? d); simpl; [lia|].
  specialize (IH (k - d)). destruct (d_tick (k - d) q). simpl in *. lia.
Qed.

Lemma tick_bound k q B : dq_wf q → 0 ≤ k →
  Forall (λ p, p.2 < B) (deadlines q) → Forall (λ p, p.2 < B) (deadlines (d_tick k q).2).
Proof.
  intros Hwf Hk Hb. unfold deadlines. destruct (tick_from k 0 q Hwf Hk) as [_ ->].
  apply Forall_fmap, Forall_forall. intros p [_ Hp]%list_elem_of_filter. simpl.
  rewrite Forall_forall in Hb. specialize (Hb p Hp). lia.
Qed.

(** [k] ticks release exactly the nodes whose deadline has come, in order, and
    bring the other deadlines [k] nearer. *)
Lemma tick_deadlines k q : dq_wf q → 0 ≤ k →
  (d_tick k q).1 = (filter (λ p, p.2 ≤ k) (deadlines q)).*1 ∧
  deadlines (d_tick k q).2 = prod_map id (λ x, x - k) <$> filter (λ p, k < p.2) (deadlines q).
Proof. apply (tick_from k 0). Qed.

Lemma extract_app t (pre post : list (A * Z)) d : t ∉ pre.*1 →
  d_extract t (pre ++ (t, d) :: post) =
  pre ++ match post with [] => [] | (n, d') :: post' => (n, d' + d) :: post' end.
Proof.
  induction pre as [|[x y] pre IH]; simpl; intros Hp; [by rewrite decide_True|].
  apply not_elem_of_cons in Hp as [??]. rewrite decide_False by congruence. by rewrite IH.
Qed.

Lemma abs_app b (q1 q2 : list (A * Z)) :
  ∃ b', abs_from b (q1 ++ q2) = abs_from b q1 ++ abs_from b' q2 ∧ (dq_wf q1 → b ≤ b').
Proof.
  revert b. induction q1 as [|[n d] q1 IH]; intros b; simpl; [exists b; split; [done|lia]|].
  destruct (IH (b + d)) as (b' & -> & Hb). exists b'. split; [done|].
  intros (? & _ & Hwf)%dq_wf_cons. specialize (Hb Hwf). lia.
Qed.

(** Two neighbours' increments add up without wrap-around. *)
Lemma neighbours_fit (pre post : list (A * Z)) t d n d' :
  dq_wf (pre ++ (t, d) :: (n, d') :: post) →
  Forall (λ p, p.2 < 2 ^ 32) (deadlines (pre ++ (t, d) :: (n, d') :: post)) → 0 ≤ d' + d < 2 ^ 32.
Proof.
  intros Hwf Hb. unfold deadlines in Hb. destruct (abs_app 0 pre ((t, d) :: (n, d') :: post)) as (b & E & Hge).
  rewrite E in Hb. simpl in Hb. apply Forall_app in Hb as [_ Hb].
  apply Forall_cons in Hb as [_ Hb]. apply Forall_cons in Hb as [Hb _]. simpl in Hb.
  assert (Hpre : dq_wf pre).
  { destruct Hwf as [Hp Hnd]. split.
    - intros n' x Hin. apply (Hp n'). set_solver.
    - rewrite fmap_app in Hnd. by apply NoDup_app in Hnd as [? _]. }
  specialize (Hge Hpre).
  assert (0 ≤ d ∧ 0 ≤ d') as [? ?].
  { destruct Hwf as [Hp _]. split; [apply (Hp t)|apply (Hp n)]; set_solver. }
  lia.
Qed.

(** The deadlines behind the first node. *)
Lemma bound_tail n d q B : 0 ≤ d →
  Forall (λ p, p.2 < B) (deadlines ((n, d) :: q)) → d < B ∧ Forall (λ p, p.2 < B) (deadlines q).
Proof.
  intros Hd Hb. unfold deadlines in *. simpl in Hb. apply Forall_cons in Hb as [Hdn Hb]. split; [done|].
  rewrite Forall_forall in Hb |- *. intros [x y] Hin. simpl.
  assert (Hin' : (x, d + y) ∈ abs_from (0 + d) q).
  { rewrite abs_shift. apply list_elem_of_fmap. exists (x, y). done. }
  specialize (Hb _ Hin'). simpl in Hb. lia.
Qed.

(** A node put back for [p] more ticks while [k] ticks are being handled is not
    released by them, and stays for [p] ticks. *)
Lemma tick_insert late t p k q : 0 < p → dq_wf q → 0 ≤ k →
  d_tick k (d_insert late t (p + k) q) =
    ((d_tick k q).1, d_insert late t p (d_tick k q).2).
Proof.
  intros Hp. revert k. induction q as [|[n d] q IH]; intros k Hwf Hk; simpl.
  - rewrite (proj2 (Z.ltb_lt _ _)) by lia. by replace (p + k - k) with p by lia.
  - apply dq_wf_cons in Hwf as (Hd & _ & Hwf). destruct (Z.ltb_spec k d) as [Hlt|Hge].
    + simpl. rewrite <- (passes_shift late (d - k) p k). replace (k + (d - k)) with d by lia.
      replace (k + p) with (p + k) by lia. destruct (passes late d (p + k)); simpl.
      * rewrite (proj2 (Z.ltb_lt _ _)) by lia. by replace (p + k - d) with (p - (d - k)) by lia.
      * rewrite (proj2 (Z.ltb_lt _ _)) by lia. replace (p + k - k) with p by lia. by replace (d - (p + k)) with (d - k - p) by lia.
    + assert (Hps : passes late d (p + k) = true)
        by (unfold passes; destruct late; [apply Z.leb_le|apply Z.ltb_lt]; lia).
      rewrite Hps. simpl. rewrite (proj2 (Z.ltb_ge _ _)) by lia.
      replace (p + k - d) with (p + (k - d)) by lia. rewrite IH by (done || lia).
      by destruct (d_tick (k - d) q).
Qed.

End DeltaQ.
