(* ===== verification/Kernel.v ===== *)
(** * The kernel state

    Task control blocks ([T_TTOS_TaskControlBlock] of [include/ttos.h]), the
    manager ([T_TTOS_TTOSManager] of [include/ttosBase.h]) and the globals of
    [kernel/task/ttosSchedule.c], in the [CONFIG_SMP == 1], 256-priority
    configuration the boards build.

    A task is named by its identifier (the address of its control block), a
    CPU by its index; [CPU_NONE] is [None].  The chains through
    [objCore.objectNode] are a chain store ([Chain]), whose heads are the ready
    queues and the other queues a task's object node is put on. *)

From S2P Require Import Prelude Chain PrioMap.
Import Width.
Local Open Scope Z_scope.

Abbreviation tid := nat.
Abbreviation cpuid := nat.

(** ** Constants ([include/ttosUtils.h], [include/ttos.h]) *)

Definition TTOS_TASK_DORMANT : Z := 0x1.
Definition TTOS_TASK_READY : Z := 0x2.
Definition TTOS_TASK_RUNNING : Z := 0x4.
Definition TTOS_TASK_DELAYING : Z := 0x8.
Definition TTOS_TASK_SUSPEND : Z := 0x10.
Definition TTOS_TASK_FIRSTRUN : Z := 0x20.
Definition TTOS_TASK_WAITING_FOR_FUTEX : Z := 0x40.
Definition TTOS_TASK_PWAITING : Z := 0x80.
Definition TTOS_TASK_CWAITING : Z := 0x100.
Definition TTOS_TASK_WAITING_FOR_EVENT : Z := 0x200.
Definition TTOS_TASK_WAITING_FOR_MSGQ : Z := 0x400.
Definition TTOS_TASK_WAITING_FOR_SEMAPHORE : Z := 0x800.
Definition TTOS_TASK_WAITING_FOR_JOIN_AT_EXIT : Z := 0x2000.
Definition TTOS_TASK_WAITING_FOR_SIGNAL : Z := 0x4000.
Definition TTOS_TASK_WAITING_FOR_MUTEX : Z := 0x8000.
Definition TTOS_TASK_WAITING_FOR_RWLOCK : Z := 0x10000.
Definition TTOS_TASK_WAITING_FOR_PROCESS : Z := 0x20000.
Definition TTOS_TASK_WAITING_FOR_TASK_EXIT : Z := 0x40000.
Definition TTOS_TASK_INTERRUPTIBLE_BY_SIGNAL : Z := 0x80000.
Definition TTOS_KTIMER_SLEEP : Z := 0x100000.
Definition TTOS_TASK_WAITING_COMPLETION : Z := 0x200000.
Definition TTOS_TASK_WAITING_SIGNAL_PENDING : Z := 0x400000.
Definition TTOS_TASK_STOPPED_BY_SIGNAL : Z := 0x800000.
Definition TTOS_TASK_WAITING_DELETE : Z := 0x1000000.
Definition TTOS_TASK_EXIT_DEAD : Z := 0x2000000.
Definition TTOS_TASK_EXIT_ZOMBIE : Z := 0x4000000.

Definition lor_all (l : list Z) : Z := foldr Z.lor 0 l.

Definition TTOS_TASK_BLOCKING_ON_TASK_QUEUE : Z := lor_all
  [TTOS_TASK_WAITING_FOR_SEMAPHORE; TTOS_TASK_WAITING_FOR_MSGQ;
   TTOS_TASK_WAITING_FOR_TASK_EXIT; TTOS_TASK_WAITING_FOR_SIGNAL;
   TTOS_TASK_WAITING_FOR_RWLOCK; TTOS_TASK_WAITING_FOR_PROCESS;
   TTOS_TASK_WAITING_SIGNAL_PENDING; TTOS_TASK_WAITING_COMPLETION].

Definition TTOS_TASK_BLOCKING : Z := lor_all
  [TTOS_TASK_BLOCKING_ON_TASK_QUEUE; TTOS_TASK_WAITING_FOR_EVENT;
   TTOS_TASK_WAITING_FOR_TASK_EXIT; TTOS_TASK_WAITING_FOR_MUTEX;
   TTOS_TASK_WAITING_FOR_FUTEX].

Definition TTOS_TASK_WAITING : Z := lor_all
  [TTOS_TASK_DELAYING; TTOS_TASK_BLOCKING; TTOS_TASK_WAITING_FOR_JOIN_AT_EXIT;
   TTOS_TASK_INTERRUPTIBLE_BY_SIGNAL; TTOS_KTIMER_SLEEP].

Definition TTOS_TASK_NONRUNNING_STATE : Z := lor_all
  [TTOS_TASK_DORMANT; TTOS_TASK_WAITING; TTOS_TASK_SUSPEND;
   TTOS_TASK_PWAITING; TTOS_TASK_CWAITING].

Definition TTOS_WAIT_FOREVER : Z := 0xFFFFFFFF.
Definition SCHED_FIFO : Z := 1.

(** [T_TTOS_ReturnCode]. *)
Inductive retcode :=
| TTOS_OK | TTOS_FAIL | TTOS_INVALID_ID | TTOS_INVALID_NAME | TTOS_INVALID_ADDRESS
| TTOS_INVALID_TIME | TTOS_INVALID_STATE | TTOS_INVALID_TYPE | TTOS_UNSATISFIED
| TTOS_INVALID_USER | TTOS_CALLED_FROM_ISR | TTOS_INVALID_SIZE | TTOS_TIMEOUT
| TTOS_INTERNAL_ERROR | TTOS_INVALID_ALIGNED | TTOS_INVALID_NUMBER | TTOS_TOO_MANY
| TTOS_OBJECT_WAS_DELETED | TTOS_INVALID_ATTRIBUTE | TTOS_INVALID_PRIORITY
| TTOS_NOT_OWNER_OF_RESOURCE | TTOS_RESOURCE_IN_USE | TTOS_INVAILD_VERSION
| TTOS_MASKED | TTOS_INVALID_INDEX | TTOS_INVALID_SYSCALL
| TTOS_MUTEX_NESTING_NOT_ALLOWED | TTOS_MUTEX_CEILING_VIOLATED
| TTOS_MUTEX_NEST_OVERFLOW | TTOS_OBJECT_WAS_CANCELED | TTOS_SIGNAL_INTR.

#[export] Instance retcode_eq_dec : EqDecision retcode.
Proof. solve_decision. Defined.

(** Heads of the chains through [objCore.objectNode]. *)
Inductive oqid :=
| RQ (a : option cpuid) (pri : Z)   (** ready queues: [None] is the global one *)
| TaskWaitedQ                       (** [ttosManager.taskWaitedQueue] *)
| DeleteSelfQ                       (** [ttosManager.deleteSelfTaskIdQueue] *)
| PeriodReadyQ.                     (** [ttosPeriodPrioReadyQueueHead] *)

#[export] Instance oqid_eq_dec : EqDecision oqid.
Proof. solve_decision. Defined.

Definition oqid_enc (q : oqid) : (option cpuid * Z) + nat :=
  match q with
  | RQ a p => inl (a, p) | TaskWaitedQ => inr 0%nat | DeleteSelfQ => inr 1%nat
  | PeriodReadyQ => inr 2%nat
  end.

Definition oqid_dec (x : (option cpuid * Z) + nat) : oqid :=
  match x with
  | inl (a, p) => RQ a p | inr O => TaskWaitedQ | inr (S O) => DeleteSelfQ
  | inr _ => PeriodReadyQ
  end.

#[export] Instance oqid_countable : Countable oqid.
Proof. refine (inj_countable' oqid_enc oqid_dec _). by intros []. Defined.

(** Wait queues are named by the object that owns them. *)
Abbreviation wqid := nat.

(** [T_TTOS_Task_Wait_Information] (the argument pointers are in the components that use them). *)
Record wait_info := WaitInfo {
  wait_id : option nat;
  wait_count : Z;
  wait_option : Z;
  returnCode : retcode;
  wait_queue : option wqid;
}.

Definition set_wait_id (v : option nat) (r : wait_info) : wait_info :=
  WaitInfo v (wait_count r) (wait_option r) (returnCode r) (wait_queue r).
Definition set_wait_count (v : Z) (r : wait_info) : wait_info :=
  WaitInfo (wait_id r) v (wait_option r) (returnCode r) (wait_queue r).
Definition set_wait_option (v : Z) (r : wait_info) : wait_info :=
  WaitInfo (wait_id r) (wait_count r) v (returnCode r) (wait_queue r).
Definition set_returnCode (v : retcode) (r : wait_info) : wait_info :=
  WaitInfo (wait_id r) (wait_count r) (wait_option r) v (wait_queue r).
Definition set_wait_queue (v : option wqid) (r : wait_info) : wait_info :=
  WaitInfo (wait_id r) (wait_count r) (wait_option r) (returnCode r) v.

(** [T_TTOS_SmpInfo]. *)
Record smp_info := SmpInfo {
  affinity : gset cpuid;
  affinityCpuIndex : option cpuid;
  cpuIndex : option cpuid;
  isChangedToPrivate : bool;
  isRotated : bool;
  gRunTaskAffinity : gset cpuid;
  gRunTaskAffinityCpuIndex : option cpuid;
}.

Definition set_affinity (v : gset cpuid) (r : smp_info) : smp_info :=
  SmpInfo v (affinityCpuIndex r) (cpuIndex r) (isChangedToPrivate r) (isRotated r) (gRunTaskAffinity r) (gRunTaskAffinityCpuIndex r).
Definition set_affinityCpuIndex (v : option cpuid) (r : smp_info) : smp_info :=
  SmpInfo (affinity r) v (cpuIndex r) (isChangedToPrivate r) (isRotated r) (gRunTaskAffinity r) (gRunTaskAffinityCpuIndex r).
Definition set_cpuIndex (v : option cpuid) (r : smp_info) : smp_info :=
  SmpInfo (affinity r) (affinityCpuIndex r) v (isChangedToPrivate r) (isRotated r) (gRunTaskAffinity r) (gRunTaskAffinityCpuIndex r).
Definition set_isChangedToPrivate (v : bool) (r : smp_info) : smp_info :=
  SmpInfo (affinity r) (affinityCpuIndex r) (cpuIndex r) v (isRotated r) (gRunTaskAffinity r) (gRunTaskAffinityCpuIndex r).
Definition set_isRotated (v : bool) (r : smp_info) : smp_info :=
  SmpInfo (affinity r) (affinityCpuIndex r) (cpuIndex r) (isChangedToPrivate r) v (gRunTaskAffinity r) (gRunTaskAffinityCpuIndex r).
Definition set_gRunTaskAffinity (v : gset cpuid) (r : smp_info) : smp_info :=
  SmpInfo (affinity r) (affinityCpuIndex r) (cpuIndex r) (isChangedToPrivate r) (isRotated r) v (gRunTaskAffinityCpuIndex r).
Definition set_gRunTaskAffinityCpuIndex (v : option cpuid) (r : smp_info) : smp_info :=
  SmpInfo (affinity r) (affinityCpuIndex r) (cpuIndex r) (isChangedToPrivate r) (isRotated r) (gRunTaskAffinity r) v.

(** [T_TTOS_TaskControlBlock]; [periodic] is [taskType == TTOS_SCHED_PERIOD]. *)
Record tcb := TCB {
  state : Z;
  taskPriority : Z;
  taskSchedPolicy : Z;
  taskCurPriority : Z;
  preemptCount : Z;
  preemptedConfig : Z;
  periodic : bool;
  waitedTicks : Z;
  tickSliceSize : Z;
  tickSlice : Z;
  executedTicks : Z;
  resourceCount : Z;
  disableDeleteFlag : bool;
  wait : wait_info;
  smpInfo : smp_info;
}.

Definition set_state (v : Z) (r : tcb) : tcb :=
  TCB v (taskPriority r) (taskSchedPolicy r) (taskCurPriority r) (preemptCount r) (preemptedConfig r) (periodic r) (waitedTicks r) (tickSliceSize r) (tickSlice r) (executedTicks r) (resourceCount r) (disableDeleteFlag r) (wait r) (smpInfo r).
Definition set_taskPriority (v : Z) (r : tcb) : tcb :=
  TCB (state r) v (taskSchedPolicy r) (taskCurPriority r) (preemptCount r) (preemptedConfig r) (periodic r) (waitedTicks r) (tickSliceSize r) (tickSlice r) (executedTicks r) (resourceCount r) (disableDeleteFlag r) (wait r) (smpInfo r).
Definition set_taskSchedPolicy (v : Z) (r : tcb) : tcb :=
  TCB (state r) (taskPriority r) v (taskCurPriority r) (preemptCount r) (preemptedConfig r) (periodic r) (waitedTicks r) (tickSliceSize r) (tickSlice r) (executedTicks r) (resourceCount r) (disableDeleteFlag r) (wait r) (smpInfo r).
Definition set_taskCurPriority (v : Z) (r : tcb) : tcb :=
  TCB (state r) (taskPriority r) (taskSchedPolicy r) v (preemptCount r) (preemptedConfig r) (periodic r) (waitedTicks r) (tickSliceSize r) (tickSlice r) (executedTicks r) (resourceCount r) (disableDeleteFlag r) (wait r) (smpInfo r).
Definition set_preemptCount (v : Z) (r : tcb) : tcb :=
  TCB (state r) (taskPriority r) (taskSchedPolicy r) (taskCurPriority r) v (preemptedConfig r) (periodic r) (waitedTicks r) (tickSliceSize r) (tickSlice r) (executedTicks r) (resourceCount r) (disableDeleteFlag r) (wait r) (smpInfo r).
Definition set_preemptedConfig (v : Z) (r : tcb) : tcb :=
  TCB (state r) (taskPriority r) (taskSchedPolicy r) (taskCurPriority r) (preemptCount r) v (periodic r) (waitedTicks r) (tickSliceSize r) (tickSlice r) (executedTicks r) (resourceCount r) (disableDeleteFlag r) (wait r) (smpInfo r).
Definition set_periodic (v : bool) (r : tcb) : tcb :=
  TCB (state r) (taskPriority r) (taskSchedPolicy r) (taskCurPriority r) (preemptCount r) (preemptedConfig r) v (waitedTicks r) (tickSliceSize r) (tickSlice r) (executedTicks r) (resourceCount r) (disableDeleteFlag r) (wait r) (smpInfo r).
Definition set_waitedTicks (v : Z) (r : tcb) : tcb :=
  TCB (state r) (taskPriority r) (taskSchedPolicy r) (taskCurPriority r) (preemptCount r) (preemptedConfig r) (periodic r) v (tickSliceSize r) (tickSlice r) (executedTicks r) (resourceCount r) (disableDeleteFlag r) (wait r) (smpInfo r).
Definition set_tickSliceSize (v : Z) (r : tcb) : tcb :=
  TCB (state r) (taskPriority r) (taskSchedPolicy r) (taskCurPriority r) (preemptCount r) (preemptedConfig r) (periodic r) (waitedTicks r) v (tickSlice r) (executedTicks r) (resourceCount r) (disableDeleteFlag r) (wait r) (smpInfo r).
Definition set_tickSlice (v : Z) (r : tcb) : tcb :=
  TCB (state r) (taskPriority r) (taskSchedPolicy r) (taskCurPriority r) (preemptCount r) (preemptedConfig r) (periodic r) (waitedTicks r) (tickSliceSize r) v (executedTicks r) (resourceCount r) (disableDeleteFlag r) (wait r) (smpInfo r).
Definition set_executedTicks (v : Z) (r : tcb) : tcb :=
  TCB (state r) (taskPriority r) (taskSchedPolicy r) (taskCurPriority r) (preemptCount r) (preemptedConfig r) (periodic r) (waitedTicks r) (tickSliceSize r) (tickSlice r) v (resourceCount r) (disableDeleteFlag r) (wait r) (smpInfo r).
Definition set_resourceCount (v : Z) (r : tcb) : tcb :=
  TCB (state r) (taskPriority r) (taskSchedPolicy r) (taskCurPriority r) (preemptCount r) (preemptedConfig r) (periodic r) (waitedTicks r) (tickSliceSize r) (tickSlice r) (executedTicks r) v (disableDeleteFlag r) (wait r) (smpInfo r).
Definition set_disableDeleteFlag (v : bool) (r : tcb) : tcb :=
  TCB (state r) (taskPriority r) (taskSchedPolicy r) (taskCurPriority r) (preemptCount r) (preemptedConfig r) (periodic r) (waitedTicks r) (tickSliceSize r) (tickSlice r) (executedTicks r) (resourceCount r) v (wait r) (smpInfo r).
Definition set_wait (v : wait_info) (r : tcb) : tcb :=
  TCB (state r) (taskPriority r) (taskSchedPolicy r) (taskCurPriority r) (preemptCount r) (preemptedConfig r) (periodic r) (waitedTicks r) (tickSliceSize r) (tickSlice r) (executedTicks r) (resourceCount r) (disableDeleteFlag r) v (smpInfo r).
Definition set_smpInfo (v : smp_info) (r : tcb) : tcb :=
  TCB (state r) (taskPriority r) (taskSchedPolicy r) (taskCurPriority r) (preemptCount r) (preemptedConfig r) (periodic r) (waitedTicks r) (tickSliceSize r) (tickSlice r) (executedTicks r) (resourceCount r) (disableDeleteFlag r) (wait r) v.

(** [T_TTOS_Task_Queue_Control]: the tasks that wait for an object, in the
    order they will be served.  [Taskq] proves that the queue structure of the
    code, with its priority headers and groups, holds such a sequence. *)
Record wqueue := WQueue {
  wq_fifo : bool;
  wq_state : Z;
  wq_tasks : list tid;
}.

Definition set_wq_tasks (v : list tid) (r : wqueue) : wqueue := WQueue (wq_fifo r) (wq_state r) v.

(** The place of a task by priority, behind its equals. *)
Fixpoint pri_insert (pri : tid → Z) (t : tid) (xs : list tid) : list tid :=
  match xs with
  | [] => [t]
  | x :: xs' => if pri x <=? pri t then x :: pri_insert pri t xs' else t :: xs
  end.

(** The manager and the scheduler's globals.  [this_cpu] is [cpuid_get()];
    [ipis] records the reschedule interrupts sent by [ipiRescheduleEmit];
    [in_isr] is [ttosIsISR()]. *)
Record kernel := Kernel {
  tasks : gmap tid tcb;
  oq : gmap oqid (list tid);
  runningTask : gmap cpuid tid;
  priorityQueueTask : gmap cpuid tid;
  globalTask : option tid;
  idleTask : gmap cpuid tid;
  ttosPriorityBitMap : gmap cpuid T_TTOS_PriorityMap;
  ttosGlobalPriorityBitMap : T_TTOS_PriorityMap;
  ttosDisableScheduleLevel : gmap cpuid Z;
  ncpus : nat;
  cpus_enabled : gset cpuid;
  cpus_reserved : gset cpuid;
  this_cpu : cpuid;
  ipis : list cpuid;
  in_isr : bool;
  wqs : gmap wqid wqueue;
}.

Definition set_tasks (v : gmap tid tcb) (r : kernel) : kernel :=
  Kernel v (oq r) (runningTask r) (priorityQueueTask r) (globalTask r) (idleTask r) (ttosPriorityBitMap r) (ttosGlobalPriorityBitMap r) (ttosDisableScheduleLevel r) (ncpus r) (cpus_enabled r) (cpus_reserved r) (this_cpu r) (ipis r) (in_isr r) (wqs r).
Definition set_oq (v : gmap oqid (list tid)) (r : kernel) : kernel :=
  Kernel (tasks r) v (runningTask r) (priorityQueueTask r) (globalTask r) (idleTask r) (ttosPriorityBitMap r) (ttosGlobalPriorityBitMap r) (ttosDisableScheduleLevel r) (ncpus r) (cpus_enabled r) (cpus_reserved r) (this_cpu r) (ipis r) (in_isr r) (wqs r).
Definition set_runningTask (v : gmap cpuid tid) (r : kernel) : kernel :=
  Kernel (tasks r) (oq r) v (priorityQueueTask r) (globalTask r) (idleTask r) (ttosPriorityBitMap r) (ttosGlobalPriorityBitMap r) (ttosDisableScheduleLevel r) (ncpus r) (cpus_enabled r) (cpus_reserved r) (this_cpu r) (ipis r) (in_isr r) (wqs r).
Definition set_priorityQueueTask (v : gmap cpuid tid) (r : kernel) : kernel :=
  Kernel (tasks r) (oq r) (runningTask r) v (globalTask r) (idleTask r) (ttosPriorityBitMap r) (ttosGlobalPriorityBitMap r) (ttosDisableScheduleLevel r) (ncpus r) (cpus_enabled r) (cpus_reserved r) (this_cpu r) (ipis r) (in_isr r) (wqs r).
Definition set_globalTask (v : option tid) (r : kernel) : kernel :=
  Kernel (tasks r) (oq r) (runningTask r) (priorityQueueTask r) v (idleTask r) (ttosPriorityBitMap r) (ttosGlobalPriorityBitMap r) (ttosDisableScheduleLevel r) (ncpus r) (cpus_enabled r) (cpus_reserved r) (this_cpu r) (ipis r) (in_isr r) (wqs r).
Definition set_idleTask (v : gmap cpuid tid) (r : kernel) : kernel :=
  Kernel (tasks r) (oq r) (runningTask r) (priorityQueueTask r) (globalTask r) v (ttosPriorityBitMap r) (ttosGlobalPriorityBitMap r) (ttosDisableScheduleLevel r) (ncpus r) (cpus_enabled r) (cpus_reserved r) (this_cpu r) (ipis r) (in_isr r) (wqs r).
Definition set_ttosPriorityBitMap (v : gmap cpuid T_TTOS_PriorityMap) (r : kernel) : kernel :=
  Kernel (tasks r) (oq r) (runningTask r) (priorityQueueTask r) (globalTask r) (idleTask r) v (ttosGlobalPriorityBitMap r) (ttosDisableScheduleLevel r) (ncpus r) (cpus_enabled r) (cpus_reserved r) (this_cpu r) (ipis r) (in_isr r) (wqs r).
Definition set_ttosGlobalPriorityBitMap (v : T_TTOS_PriorityMap) (r : kernel) : kernel :=
  Kernel (tasks r) (oq r) (runningTask r) (priorityQueueTask r) (globalTask r) (idleTask r) (ttosPriorityBitMap r) v (ttosDisableScheduleLevel r) (ncpus r) (cpus_enabled r) (cpus_reserved r) (this_cpu r) (ipis r) (in_isr r) (wqs r).
Definition set_ttosDisableScheduleLevel (v : gmap cpuid Z) (r : kernel) : kernel :=
  Kernel (tasks r) (oq r) (runningTask r) (priorityQueueTask r) (globalTask r) (idleTask r) (ttosPriorityBitMap r) (ttosGlobalPriorityBitMap r) v (ncpus r) (cpus_enabled r) (cpus_reserved r) (this_cpu r) (ipis r) (in_isr r) (wqs r).
Definition set_ncpus (v : nat) (r : kernel) : kernel :=
  Kernel (tasks r) (oq r) (runningTask r) (priorityQueueTask r) (globalTask r) (idleTask r) (ttosPriorityBitMap r) (ttosGlobalPriorityBitMap r) (ttosDisableScheduleLevel r) v (cpus_enabled r) (cpus_reserved r) (this_cpu r) (ipis r) (in_isr r) (wqs r).
Definition set_cpus_enabled (v : gset cpuid) (r : kernel) : kernel :=
  Kernel (tasks r) (oq r) (runningTask r) (priorityQueueTask r) (globalTask r) (idleTask r) (ttosPriorityBitMap r) (ttosGlobalPriorityBitMap r) (ttosDisableScheduleLevel r) (ncpus r) v (cpus_reserved r) (this_cpu r) (ipis r) (in_isr r) (wqs r).
Definition set_cpus_reserved (v : gset cpuid) (r : kernel) : kernel :=
  Kernel (tasks r) (oq r) (runningTask r) (priorityQueueTask r) (globalTask r) (idleTask r) (ttosPriorityBitMap r) (ttosGlobalPriorityBitMap r) (ttosDisableScheduleLevel r) (ncpus r) (cpus_enabled r) v (this_cpu r) (ipis r) (in_isr r) (wqs r).
Definition set_this_cpu (v : cpuid) (r : kernel) : kernel :=
  Kernel (tasks r) (oq r) (runningTask r) (priorityQueueTask r) (globalTask r) (idleTask r) (ttosPriorityBitMap r) (ttosGlobalPriorityBitMap r) (ttosDisableScheduleLevel r) (ncpus r) (cpus_enabled r) (cpus_reserved r) v (ipis r) (in_isr r) (wqs r).
Definition set_ipis (v : list cpuid) (r : kernel) : kernel :=
  Kernel (tasks r) (oq r) (runningTask r) (priorityQueueTask r) (globalTask r) (idleTask r) (ttosPriorityBitMap r) (ttosGlobalPriorityBitMap r) (ttosDisableScheduleLevel r) (ncpus r) (cpus_enabled r) (cpus_reserved r) (this_cpu r) v (in_isr r) (wqs r).
Definition set_in_isr (v : bool) (r : kernel) : kernel :=
  Kernel (tasks r) (oq r) (runningTask r) (priorityQueueTask r) (globalTask r) (idleTask r) (ttosPriorityBitMap r) (ttosGlobalPriorityBitMap r) (ttosDisableScheduleLevel r) (ncpus r) (cpus_enabled r) (cpus_reserved r) (this_cpu r) (ipis r) v (wqs r).
Definition set_wqs (v : gmap wqid wqueue) (r : kernel) : kernel :=
  Kernel (tasks r) (oq r) (runningTask r) (priorityQueueTask r) (globalTask r) (idleTask r) (ttosPriorityBitMap r) (ttosGlobalPriorityBitMap r) (ttosDisableScheduleLevel r) (ncpus r) (cpus_enabled r) (cpus_reserved r) (this_cpu r) (ipis r) (in_isr r) v.

(** ** State access *)

Definition get_task (t : tid) : M kernel tcb :=
  λ K, match tasks K !! t with Some tc => Some (tc, K) | None => None end.

Definition upd_task (t : tid) (f : tcb → tcb) : M kernel unit :=
  λ K, match tasks K !! t with
       | Some tc => Some (tt, set_tasks (<[t := f tc]> (tasks K)) K)
       | None => None
       end.

Definition upd_smp (f : smp_info → smp_info) (tc : tcb) : tcb := set_smpInfo (f (smpInfo tc)) tc.
Definition upd_wait (f : wait_info → wait_info) (tc : tcb) : tcb := set_wait (f (wait tc)) tc.

Definition task_state (t : tid) : M kernel Z := tc ← get_task t; mret (state tc).

Definition affCpu (tc : tcb) : option cpuid := affinityCpuIndex (smpInfo tc).
Definition onCpu (tc : tcb) : option cpuid := cpuIndex (smpInfo tc).

(** [flag_on m s] is the test [0 != (s & m)]. *)
Definition flag_on (m s : Z) : bool := negb (Z.land s m =? 0).

Definition set_flag (m s : Z) : Z := Z.lor s m.
Definition clear_flag (m s : Z) : Z := Z.land s (u32 (Z.lnot m)).

(** List operations on the object nodes.  Linking a node that is already
    linked, or unlinking one that is not, corrupts the lists: a fault. *)
Definition obj_add_tail (t : tid) (q : oqid) : M kernel unit :=
  b ← gets (λ K, c_linked t (oq K));
  _ ← massert (negb b);
  modify (λ K, set_oq (c_add_tail t q (oq K)) K).

Definition obj_add_head (t : tid) (q : oqid) : M kernel unit :=
  b ← gets (λ K, c_linked t (oq K));
  _ ← massert (negb b);
  modify (λ K, set_oq (c_add_head t q (oq K)) K).

Definition obj_delete (t : tid) : M kernel unit :=
  b ← gets (λ K, c_linked t (oq K));
  _ ← massert b;
  modify (λ K, set_oq (c_delete t (oq K)) K).
