(* ===== verification/Sched.v ===== *)
(** * Ready queues and the choice of the running task

    [include/ttosInterTask.inl], [kernel/task/ttosSetTaskReady.c],
    [ttosClearTaskReady.c], [ttosTaskUtils.c], [ttosSetTaskPriority.c] and
    [ttosSchedule.c]: the per-CPU (bound) and the global (unbound) ready queues
    with their bitmaps and cached heads, the decision which CPU to interrupt,
    and the candidate a CPU switches to.  This file holds the code; the theorems
    are in [SchedInv]. *)

From S2P Require Import Prelude Chain PrioMap Kernel.
Import Width.
Local Open Scope Z_scope.

(** ** Ready-queue primitives *)

Definition rq_bitmap (a : option cpuid) (K : kernel) : option T_TTOS_PriorityMap :=
  match a with
  | None => Some (ttosGlobalPriorityBitMap K)
  | Some c => ttosPriorityBitMap K !! c
  end.

Definition set_rq_bitmap (a : option cpuid) (m : T_TTOS_PriorityMap) (K : kernel) : kernel :=
  match a with
  | None => set_ttosGlobalPriorityBitMap m K
  | Some c => set_ttosPriorityBitMap (<[c := m]> (ttosPriorityBitMap K)) K
  end.

Definition set_priority_bit (a : option cpuid) (pri : Z) : M kernel unit :=
  λ K, m ← rq_bitmap a K; m' ← TBSP_SET_PRIORITYBITMAP pri m; Some (tt, set_rq_bitmap a m' K).

Definition clear_priority_bit (a : option cpuid) (pri : Z) : M kernel unit :=
  λ K, m ← rq_bitmap a K; m' ← TBSP_CLEAR_PRIORITYBITMAP pri m; Some (tt, set_rq_bitmap a m' K).

Definition ttosReadyQueueHeadGet (a : option cpuid) (pri : Z) : M kernel (option tid) :=
  gets (λ K, c_first (RQ a pri) (oq K)).

Definition ttosReadyQueueIsEmpty (a : option cpuid) (pri : Z) : M kernel bool :=
  gets (λ K, c_is_empty (RQ a pri) (oq K)).

(** The task at the head of the highest non-empty queue; no global task is
    ready when the global bitmap's major word is zero. *)
Definition ttosGetHighestPriorityTask (a : option cpuid) : M kernel (option tid) :=
  g ← gets ttosGlobalPriorityBitMap;
  if bool_decide (a = None) && (major g =? 0) then mret None
  else
    m ← (λ K, m ← rq_bitmap a K; Some (m, K));
    pri ← lift (ttosGetHighestPriority m);
    ttosReadyQueueHeadGet a (u8 pri).

Definition cached_top (a : option cpuid) (K : kernel) : option tid :=
  match a with None => globalTask K | Some c => priorityQueueTask K !! c end.

Definition set_cached_top (a : option cpuid) (o : option tid) (K : kernel) : kernel :=
  match a with
  | None => set_globalTask o K
  | Some c => set_priorityQueueTask (partial_alter (λ _, o) c (priorityQueueTask K)) K
  end.

Definition ttosSetHighestPriorityTask (a : option cpuid) : M kernel unit :=
  o ← ttosGetHighestPriorityTask a; modify (set_cached_top a o).

Definition ttosReadyQueuePut (t : tid) (prependIt : bool) : M kernel unit :=
  tc ← get_task t;
  let q := RQ (affCpu tc) (taskCurPriority tc) in
  if prependIt then obj_add_head t q else obj_add_tail t q.

Definition ttosGetRunningTaskWithCpuID (c : cpuid) : M kernel tid :=
  λ K, t ← runningTask K !! c; Some (t, K).

Definition ttosGetRunningTask : M kernel tid :=
  c ← gets this_cpu; ttosGetRunningTaskWithCpuID c.

Definition ttosIsRunningTask (t : tid) : M kernel bool :=
  r ← ttosGetRunningTask; mret (bool_decide (t = r)).

(** ** Which CPU to interrupt *)

Definition ipiRescheduleEmit (c : option cpuid) : M kernel unit :=
  match c with
  | Some c => modify (λ K, set_ipis (ipis K ++ [c]) K)
  | None => mret tt
  end.

(** The loop over the CPUs of [ttosGetUnReserveCpuLowestRTask]. *)
Fixpoint lowest_from (cs : list cpuid) (lowest : option tid) : M kernel (option tid) :=
  match cs with
  | [] => mret lowest
  | c :: cs =>
      r ← ttosGetRunningTaskWithCpuID c;
      rc ← get_task r;
      K ← gets id;
      if bool_decide (c ∉ cpus_reserved K) && bool_decide (c ∈ cpus_enabled K) &&
         (preemptCount rc =? 0)
      then
        let lowest := match lowest with None => r | Some l => l end in
        lc ← get_task lowest;
        lowest_from cs (Some (if taskCurPriority lc <? taskCurPriority rc then r else lowest))
      else lowest_from cs lowest
  end.

Definition ttosGetUnReserveCpuLowestRTask : M kernel (option tid) :=
  n ← gets ncpus; lowest_from (seq 0 n) None.

Definition isRTaskNeedReSchedule (t : tid) (c : cpuid) : M kernel bool :=
  r ← ttosGetRunningTaskWithCpuID c;
  rc ← get_task r;
  tc ← get_task t;
  e ← gets cpus_enabled;
  mret (bool_decide (c ∈ e) && (taskCurPriority tc <? taskCurPriority rc) &&
        (preemptCount rc =? 0)).

(** The CPU that must reschedule after [t] changed. *)
Definition reschedule_target (t : tid) (isChangedToReady : bool) : M kernel (option cpuid) :=
  cur ← gets this_cpu;
  tc ← get_task t;
  if isChangedToReady then
    match affCpu tc with
    | Some a =>
        b ← isRTaskNeedReSchedule t a;
        mret (if (b : bool) then Some a else Some cur)
    | None =>
        match onCpu tc with
        | Some c => mret (Some c)
        | None =>
            res ← gets cpus_reserved;
            b ← (if bool_decide (cur ∉ res) then isRTaskNeedReSchedule t cur else mret false);
            if (b : bool) then mret (Some cur)
            else
              l ← ttosGetUnReserveCpuLowestRTask;
              match l with
              | Some l =>
                  lc ← get_task l;
                  mret (if taskCurPriority tc <? taskCurPriority lc then onCpu lc else Some cur)
              | None => mret (Some cur)
              end
        end
    end
  else mret (match onCpu tc with Some c => Some c | None => Some cur end).

Definition ttosTaskStateChanged (t : tid) (isChangedToReady : bool) : M kernel unit :=
  cur ← gets this_cpu;
  target ← reschedule_target t isChangedToReady;
  whenM (bool_decide (target ≠ Some cur)) (ipiRescheduleEmit target).

(** ** Entering and leaving the ready queues *)

(** Bound tasks and unbound tasks that are not running are on a queue. *)
Definition queued_kind (tc : tcb) : bool :=
  bool_decide (affCpu tc ≠ None) || bool_decide (onCpu tc = None).

Definition ttosSetTaskReady (t : tid) : M kernel unit :=
  tc ← get_task t;
  if flag_on (Z.lor TTOS_TASK_READY TTOS_TASK_SUSPEND) (state tc) then mret tt
  else
    _ ← upd_task t (λ tc, set_state (set_flag TTOS_TASK_READY (state tc)) tc);
    _ ← whenM (queued_kind tc) (
      _ ← set_priority_bit (affCpu tc) (taskCurPriority tc);
      _ ← ttosReadyQueuePut t false;
      _ ← upd_task t (λ tc, set_tickSlice (tickSliceSize tc) tc);
      ttosSetHighestPriorityTask (affCpu tc));
    ttosTaskStateChanged t true.

(** Take a queued task off its ready queue, with the bitmap and the cache. *)
Definition ttosClearTaskReady (t : tid) : M kernel unit :=
  tc ← get_task t;
  _ ← upd_task t (λ tc, set_state (clear_flag TTOS_TASK_READY (state tc)) tc);
  _ ← whenM (queued_kind tc) (
    _ ← obj_delete t;
    e ← ttosReadyQueueIsEmpty (affCpu tc) (taskCurPriority tc);
    _ ← whenM e (clear_priority_bit (affCpu tc) (taskCurPriority tc));
    ttosSetHighestPriorityTask (affCpu tc));
  ttosTaskStateChanged t false.

Definition ttosClearTaskWaiting (t : tid) : M kernel unit :=
  _ ← upd_task t (λ tc, set_state (clear_flag TTOS_TASK_WAITING (state tc)) tc);
  s ← task_state t;
  whenM (negb (flag_on TTOS_TASK_NONRUNNING_STATE s)) (ttosSetTaskReady t).

Definition ttosSetTaskState (t : tid) (taskState : Z) : M kernel unit :=
  s ← task_state t;
  if negb (Z.land s TTOS_TASK_READY =? TTOS_TASK_READY)
  then upd_task t (λ tc, set_state (Z.lor (state tc) taskState) tc)
  else
    _ ← upd_task t (set_state taskState);
    ttosClearTaskReady t.

(** Unbound tasks leave the global queue while they run and go back when they
    are switched out. *)
Definition ttosGTaskRQueuePut (t : tid) : M kernel unit :=
  tc ← get_task t;
  if bool_decide (affCpu tc ≠ None) then mret tt
  else
    _ ← upd_task t (upd_smp (set_isRotated false));
    _ ← whenM (isChangedToPrivate (smpInfo tc))
      (upd_task t (upd_smp (λ s,
        set_gRunTaskAffinityCpuIndex None
          (set_isChangedToPrivate false
            (set_affinityCpuIndex (gRunTaskAffinityCpuIndex s)
              (set_affinity (gRunTaskAffinity s) s))))));
    tc ← get_task t;
    if negb (flag_on TTOS_TASK_READY (state tc)) then mret tt
    else
      _ ← set_priority_bit (affCpu tc) (taskCurPriority tc);
      _ ← ttosReadyQueuePut t false;
      _ ← ttosSetHighestPriorityTask (affCpu tc);
      if bool_decide (affCpu tc = None) then
        l ← ttosGetUnReserveCpuLowestRTask;
        match l with
        | Some l =>
            lc ← get_task l;
            whenM (taskCurPriority tc <? taskCurPriority lc) (ipiRescheduleEmit (onCpu lc))
        | None => mret tt
        end
      else ttosTaskStateChanged t true.

Definition ttosGTaskRQueueRemove (t : tid) : M kernel unit :=
  tc ← get_task t;
  if bool_decide (affCpu tc ≠ None) then mret tt
  else
    _ ← obj_delete t;
    e ← ttosReadyQueueIsEmpty (affCpu tc) (taskCurPriority tc);
    _ ← whenM e (clear_priority_bit (affCpu tc) (taskCurPriority tc));
    ttosSetHighestPriorityTask (affCpu tc).

(** ** Priority changes *)

Definition TTOS_SetTaskPriority (t : tid) (newPriority : Z) (prependIt : bool) :
    M kernel retcode :=
  tc ← get_task t;
  let before := taskCurPriority tc in
  _ ← upd_task t (λ tc, set_taskCurPriority newPriority (set_taskPriority newPriority tc));
  _ ← whenM (negb (flag_on TTOS_TASK_NONRUNNING_STATE (state tc))) (
    _ ← whenM (queued_kind tc) (
      _ ← obj_delete t;
      e ← ttosReadyQueueIsEmpty (affCpu tc) before;
      _ ← whenM e (clear_priority_bit (affCpu tc) before);
      _ ← set_priority_bit (affCpu tc) newPriority;
      _ ← ttosReadyQueuePut t prependIt;
      ttosSetHighestPriorityTask (affCpu tc));
    ttosTaskStateChanged t true);
  mret TTOS_OK.

(** ** Round robin *)

Definition ttosRotateRunningTask (t : tid) : M kernel unit :=
  tc ← get_task t;
  let q := RQ (affCpu tc) (taskCurPriority tc) in
  match affCpu tc with
  | None =>
      e ← ttosReadyQueueIsEmpty None (taskCurPriority tc);
      whenM (negb e) (
        _ ← upd_task t (upd_smp (set_isRotated true));
        b ← ttosIsRunningTask t;
        whenM (negb b) (ipiRescheduleEmit (onCpu tc)))
  | Some _ =>
      n ← gets (λ K, c_next t q (oq K));
      whenM (bool_decide (n ≠ None)) (
        _ ← obj_delete t;
        _ ← obj_add_tail t q;
        _ ← ttosSetHighestPriorityTask (affCpu tc);
        b ← ttosIsRunningTask t;
        whenM (negb b) (ipiRescheduleEmit (onCpu tc)))
  end.

(** ** The candidate *)

Definition ttosGetCandidateTask (c : cpuid) : M kernel tid :=
  K ← gets id;
  if bool_decide (c ∉ cpus_enabled K) then lift (idleTask K !! c)
  else if bool_decide (c ∈ cpus_reserved K) then lift (priorityQueueTask K !! c)
  else
    r ← ttosGetRunningTaskWithCpuID c;
    rc ← get_task r;
    let globalRunning :=
      if bool_decide (affCpu rc = None) && negb (isChangedToPrivate (smpInfo rc))
      then
        if isRotated (smpInfo rc) &&
           negb (c_is_empty (RQ (affCpu rc) (taskCurPriority rc)) (oq K))
        then None else Some rc
      else None in
    cand ← lift (priorityQueueTask K !! c);
    candc ← get_task cand;
    cand ← (match globalTask K with
            | Some g =>
                gc ← get_task g;
                mret (if taskCurPriority gc <? taskCurPriority candc then g else cand)
            | None => mret cand
            end);
    candc ← get_task cand;
    mret (match globalRunning with
          | Some rc =>
              if flag_on TTOS_TASK_READY (state rc) &&
                 (taskCurPriority rc <=? taskCurPriority candc)
              then r else cand
          | None => cand
          end).

(** ** The switch loop

    One turn of [ttosTaskSchedule] on CPU [c]: the incoming task resumes inside
    its own call of the same loop (or, on its first run, calls the scheduler
    from [tEntryHandler]), so the turns of successive tasks form one loop over
    the kernel state. *)

Definition ttosSetRunningTaskWithCpuID (c : cpuid) (t : tid) : M kernel unit :=
  _ ← modify (λ K, set_runningTask (<[c := t]> (runningTask K)) K);
  upd_task t (upd_smp (set_cpuIndex (Some c))).

Definition ttosSetDisableScheduleLevel (c : cpuid) (level : Z) : M kernel unit :=
  modify (λ K, set_ttosDisableScheduleLevel (<[c := level]> (ttosDisableScheduleLevel K)) K).

Definition switch_task (c : cpuid) (old new : tid) : M kernel unit :=
  _ ← ttosSetRunningTaskWithCpuID c new;
  _ ← upd_task old (upd_smp (set_cpuIndex None));
  _ ← ttosGTaskRQueuePut old;
  _ ← ttosGTaskRQueueRemove new;
  upd_task new (λ tc, set_state (clear_flag TTOS_TASK_FIRSTRUN (state tc)) tc).

Fixpoint ttosTaskSchedule (fuel : nat) (c : cpuid) : M kernel unit :=
  match fuel with
  | O => fault
  | S fuel =>
      old ← ttosGetRunningTaskWithCpuID c;
      new ← ttosGetCandidateTask c;
      if bool_decide (new = old) then
        _ ← upd_task new (λ tc, set_state (clear_flag TTOS_TASK_FIRSTRUN (state tc)) tc);
        ttosSetDisableScheduleLevel c 0
      else
        _ ← ttosSetDisableScheduleLevel c 1;
        oc ← get_task old;
        if negb (flag_on TTOS_TASK_NONRUNNING_STATE (state oc)) && (0 <? preemptCount oc)
        then ttosSetDisableScheduleLevel c 0
        else
          _ ← switch_task c old new;
          ttosTaskSchedule fuel c
  end.

Definition ttosSchedule (fuel : nat) : M kernel unit :=
  c ← gets this_cpu;
  level ← (λ K, l ← ttosDisableScheduleLevel K !! c; Some (l, K));
  if negb (level =? 0) then mret tt else ttosTaskSchedule fuel c.

Definition ttosIsNeedRescheduleWithCpuId (c : cpuid) : M kernel bool :=
  level ← (λ K, l ← ttosDisableScheduleLevel K !! c; Some (l, K));
  if negb (level =? 0) then mret false
  else
    old ← ttosGetRunningTaskWithCpuID c;
    oc ← get_task old;
    if negb (flag_on TTOS_TASK_NONRUNNING_STATE (state oc)) && (0 <? preemptCount oc)
    then mret false
    else
      new ← ttosGetCandidateTask c;
      mret (negb (bool_decide (new = old))).
