(* ===== verification/Frame.v ===== *)
(** * What the operations leave alone

    Frame laws as instances of a class, so that the frame of a composite
    operation is found by instance search.  [Keeps]: the ready-queue operations
    never write the running tasks, the idle tasks, the CPU sets, the dispatch
    levels or the interrupt state.  [Evolves]: scheduling changes no field
    of a task but its SMP fields and the first-run mark of its state. *)

From S2P Require Import Prelude Chain PrioMap Kernel Sched.

Definition env (K : kernel) :=
  (runningTask K, idleTask K, ncpus K, cpus_enabled K, cpus_reserved K, this_cpu K, in_isr K,
   ttosDisableScheduleLevel K).

(** Every run of [m] relates its start to its end by [R]. *)
Class Pres (R : kernel → kernel → Prop) {A} (m : M kernel A) : Prop :=
  pres : ∀ K a K', m K = Some (a, K') → R K K'.

Lemma wp_pres R {A} (m : M kernel A) K Φ :
  Pres R m → wp m K Φ → wp m K (λ a K', Φ a K' ∧ R K K').
Proof. intros Hk. unfold wp. destruct (m K) as [[a K']|] eqn:E; [|done]. by split; [|eapply Hk]. Qed.

Section Pres.
Context (R : kernel → kernel → Prop) `{!PreOrder R}.

#[export] Instance pres_bind {A B} (m : M kernel A) (f : A → M kernel B) :
  Pres R m → (∀ a, Pres R (f a)) → Pres R (m ≫= f).
Proof.
  intros Hm Hf K b K' (a & K1 & H1 & H2)%bind_Some_M. transitivity K1; [by eapply Hm|by eapply Hf].
Qed.

#[export] Instance pres_ret {A} (a : A) : Pres R (mret a).
Proof. by intros K b K' [= <- <-]. Qed.

#[export] Instance pres_gets {A} (f : kernel → A) : Pres R (gets f).
Proof. by intros K b K' [= <- <-]. Qed.

#[export] Instance pres_lift {A} (o : option A) : Pres R (lift o).
Proof. intros K b K'. unfold lift. by destruct o; intros [= <- <-]. Qed.

#[export] Instance pres_fault {A} : Pres R (@fault kernel A).
Proof. done. Qed.

#[export] Instance pres_assert b : Pres R (massert b).
Proof. intros K a K'. unfold massert. by destruct b; intros [= <- <-]. Qed.

#[export] Instance pres_when b (m : M kernel unit) : Pres R m → Pres R (whenM b m).
Proof. intros. unfold whenM. destruct b; apply _. Qed.

#[export] Instance pres_if {A} (b : bool) (m1 m2 : M kernel A) :
  Pres R m1 → Pres R m2 → Pres R (if b then m1 else m2).
Proof. by destruct b. Qed.

#[export] Instance pres_option {A X} (o : option X) (f : X → M kernel A) (m : M kernel A) :
  (∀ x, Pres R (f x)) → Pres R m → Pres R (match o with Some x => f x | None => m end).
Proof. by destruct o. Qed.

#[export] Instance pres_get_task t : Pres R (get_task t).
Proof. intros K a K'. unfold get_task. by destruct (tasks K !! t); intros [= <- <-]. Qed.

#[export] Instance pres_task_state t : Pres R (task_state t).
Proof. apply _. Qed.

#[export] Instance pres_read {A} (f : kernel → option A) : Pres R (λ K, x ← f K; Some (x, K)).
Proof. intros K b K'. simpl. by destruct (f K); intros [= <- <-]. Qed.

#[export] Instance pres_running c : Pres R (ttosGetRunningTaskWithCpuID c).
Proof. apply pres_read. Qed.

#[export] Instance pres_lowest cs l : Pres R (lowest_from cs l).
Proof. revert l. induction cs; intros l; simpl; apply _. Qed.

#[export] Instance pres_need t c : Pres R (isRTaskNeedReSchedule t c).
Proof. unfold isRTaskNeedReSchedule. apply _. Qed.

#[export] Instance pres_target t b : Pres R (reschedule_target t b).
Proof. unfold reschedule_target, ttosGetUnReserveCpuLowestRTask. apply _. Qed.

#[export] Instance pres_candidate c : Pres R (ttosGetCandidateTask c).
Proof. unfold ttosGetCandidateTask. apply _. Qed.

End Pres.

(** ** The environment of the queues *)

Abbreviation Keeps := (Pres (λ K K', env K' = env K)).

#[export] Instance env_preorder : PreOrder (λ K K', env K' = env K).
Proof. split; [done|]. intros K1 K2 K3 H1 H2. congruence. Qed.

#[export] Instance keeps_upd_task t f : Keeps (upd_task t f).
Proof. intros K a K'. unfold upd_task. by destruct (tasks K !! t); intros [= <- <-]. Qed.

#[export] Instance keeps_modify_oq f : Keeps (modify (λ K, set_oq (f K) K)).
Proof. by intros K a K' [= <- <-]. Qed.

#[export] Instance keeps_modify_ipis f : Keeps (modify (λ K, set_ipis (f K) K)).
Proof. by intros K a K' [= <- <-]. Qed.

#[export] Instance keeps_modify_top a o : Keeps (modify (set_cached_top a o)).
Proof. intros K b K' [= <- <-]. by destruct a. Qed.

#[export] Instance keeps_set_bit a p : Keeps (set_priority_bit a p).
Proof.
  intros K b K'. unfold set_priority_bit. destruct (rq_bitmap a K); simpl; [|done].
  destruct (TBSP_SET_PRIORITYBITMAP _ _); simpl; [|done]. intros [= <- <-]. by destruct a.
Qed.

#[export] Instance keeps_clear_bit a p : Keeps (clear_priority_bit a p).
Proof.
  intros K b K'. unfold clear_priority_bit. destruct (rq_bitmap a K); simpl; [|done].
  destruct (TBSP_CLEAR_PRIORITYBITMAP _ _); simpl; [|done]. intros [= <- <-]. by destruct a.
Qed.

#[export] Instance keeps_add_tail t q : Keeps (obj_add_tail t q).
Proof. unfold obj_add_tail. apply _. Qed.

#[export] Instance keeps_add_head t q : Keeps (obj_add_head t q).
Proof. unfold obj_add_head. apply _. Qed.

#[export] Instance keeps_delete t : Keeps (obj_delete t).
Proof. unfold obj_delete. apply _. Qed.

#[export] Instance keeps_set_top a : Keeps (ttosSetHighestPriorityTask a).
Proof. unfold ttosSetHighestPriorityTask, ttosGetHighestPriorityTask, ttosReadyQueueHeadGet. apply _. Qed.

#[export] Instance keeps_put t b : Keeps (ttosReadyQueuePut t b).
Proof. unfold ttosReadyQueuePut. apply _. Qed.

#[export] Instance keeps_emit c : Keeps (ipiRescheduleEmit c).
Proof. unfold ipiRescheduleEmit. apply _. Qed.

#[export] Instance keeps_state_changed t b : Keeps (ttosTaskStateChanged t b).
Proof. unfold ttosTaskStateChanged. apply _. Qed.

#[export] Instance keeps_set_ready t : Keeps (ttosSetTaskReady t).
Proof. unfold ttosSetTaskReady. apply _. Qed.

#[export] Instance keeps_clear_ready t : Keeps (ttosClearTaskReady t).
Proof. unfold ttosClearTaskReady, ttosReadyQueueIsEmpty. apply _. Qed.

#[export] Instance keeps_clear_waiting t : Keeps (ttosClearTaskWaiting t).
Proof. unfold ttosClearTaskWaiting. apply _. Qed.

#[export] Instance keeps_set_priority t p b : Keeps (TTOS_SetTaskPriority t p b).
Proof. unfold TTOS_SetTaskPriority, ttosReadyQueueIsEmpty. apply _. Qed.

#[export] Instance keeps_rotate t : Keeps (ttosRotateRunningTask t).
Proof.
  unfold ttosRotateRunningTask, ttosReadyQueueIsEmpty, ttosIsRunningTask, ttosGetRunningTask. apply _.
Qed.

(** ** Scheduling and the task states *)

Record calm (tc tc' : tcb) : Prop := {
  cm_fields : tc' = set_smpInfo (smpInfo tc') (set_state (state tc') tc);
  cm_state : state tc' = state tc ∨ state tc' = clear_flag TTOS_TASK_FIRSTRUN (state tc);
}.

Definition evolves (K K' : kernel) : Prop := ∀ t, option_Forall2 calm (tasks K !! t) (tasks K' !! t).

Lemma clear_flag_idem m s : clear_flag m (clear_flag m s) = clear_flag m s.
Proof. unfold clear_flag. by rewrite <- Z.land_assoc, Z.land_diag. Qed.

#[export] Instance calm_preorder : PreOrder calm.
Proof.
  split.
  - intros []. by split; [|left].
  - intros tc1 tc2 tc3 [F12 S12] [F23 S23]. split; [by rewrite F23, F12|].
    destruct S12 as [E2|E2], S23 as [E3|E3]; rewrite E3, E2; auto. right. apply clear_flag_idem.
Qed.

#[export] Instance evolves_preorder : PreOrder evolves.
Proof.
  split.
  - intros K t. by destruct (tasks K !! t); constructor.
  - intros K1 K2 K3 H12 H23 t. specialize (H12 t). specialize (H23 t).
    destruct H12; inversion H23; subst; constructor. by etrans.
Qed.

Lemma evolves_task K K' t tc : evolves K K' → tasks K !! t = Some tc →
  ∃ tc', tasks K' !! t = Some tc' ∧ calm tc tc'.
Proof. intros He Ht. specialize (He t). rewrite Ht in He. inversion He; subst. eauto. Qed.

Lemma evolves_back K K' t tc' : evolves K K' → tasks K' !! t = Some tc' →
  ∃ tc, tasks K !! t = Some tc ∧ calm tc tc'.
Proof. intros He Ht. specialize (He t). rewrite Ht in He. inversion He; subst. eauto. Qed.

Abbreviation Evolves := (Pres evolves).

(** Steps that do not write the task table. *)
Lemma evolves_same_tasks {A} (m : M kernel A) :
  (∀ K a K', m K = Some (a, K') → tasks K' = tasks K) → Evolves m.
Proof. intros Hm K a K' H t. rewrite (Hm _ _ _ H). by destruct (tasks K !! t); constructor. Qed.

Lemma evolves_upd t f : (∀ tc, calm tc (f tc)) → Evolves (upd_task t f).
Proof.
  intros Hf K a K'. unfold upd_task. destruct (tasks K !! t) as [tc|] eqn:Ht; [|done].
  intros [= <- <-] x. simpl. destruct (decide (x = t)) as [->|].
  - rewrite lookup_insert_eq, Ht. by constructor.
  - rewrite lookup_insert_ne by done. by destruct (tasks K !! x); constructor.
Qed.

#[export] Instance evolves_upd_smp t f : Evolves (upd_task t (upd_smp f)).
Proof. apply evolves_upd. intros []. by split; [|left]. Qed.

#[export] Instance evolves_first_run t :
  Evolves (upd_task t (λ tc, set_state (clear_flag TTOS_TASK_FIRSTRUN (state tc)) tc)).
Proof. apply evolves_upd. intros []. by split; [|right]. Qed.

#[export] Instance evolves_modify f : (∀ K, tasks (f K) = tasks K) → Evolves (modify f).
Proof. intros Hf. apply evolves_same_tasks. intros K a K' [= <- <-]. apply Hf. Qed.

#[export] Instance evolves_add_tail t q : Evolves (obj_add_tail t q).
Proof. unfold obj_add_tail. repeat (apply pres_bind; [apply _..|intros]). by apply evolves_modify. Qed.

#[export] Instance evolves_add_head t q : Evolves (obj_add_head t q).
Proof. unfold obj_add_head. repeat (apply pres_bind; [apply _..|intros]). by apply evolves_modify. Qed.

#[export] Instance evolves_delete t : Evolves (obj_delete t).
Proof. unfold obj_delete. repeat (apply pres_bind; [apply _..|intros]). by apply evolves_modify. Qed.

#[export] Instance evolves_set_top a : Evolves (ttosSetHighestPriorityTask a).
Proof.
  unfold ttosSetHighestPriorityTask, ttosGetHighestPriorityTask, ttosReadyQueueHeadGet.
  apply pres_bind; [apply _..|]. intros o. apply evolves_modify. intros K. by destruct a.
Qed.

#[export] Instance evolves_set_bit a p : Evolves (set_priority_bit a p).
Proof.
  apply evolves_same_tasks. intros K b K'. unfold set_priority_bit.
  destruct (rq_bitmap a K); simpl; [|done].
  destruct (TBSP_SET_PRIORITYBITMAP _ _); simpl; [|done]. intros [= <- <-]. by destruct a.
Qed.

#[export] Instance evolves_clear_bit a p : Evolves (clear_priority_bit a p).
Proof.
  apply evolves_same_tasks. intros K b K'. unfold clear_priority_bit.
  destruct (rq_bitmap a K); simpl; [|done].
  destruct (TBSP_CLEAR_PRIORITYBITMAP _ _); simpl; [|done]. intros [= <- <-]. by destruct a.
Qed.

#[export] Instance evolves_emit c : Evolves (ipiRescheduleEmit c).
Proof. unfold ipiRescheduleEmit. destruct c; [by apply evolves_modify|apply _]. Qed.

#[export] Instance evolves_state_changed t b : Evolves (ttosTaskStateChanged t b).
Proof. unfold ttosTaskStateChanged. apply _. Qed.

#[export] Instance evolves_level c l : Evolves (ttosSetDisableScheduleLevel c l).
Proof. by apply evolves_modify. Qed.

#[export] Instance evolves_switch c old new : Evolves (switch_task c old new).
Proof.
  unfold switch_task, ttosSetRunningTaskWithCpuID, ttosGTaskRQueuePut, ttosGTaskRQueueRemove,
    ttosReadyQueuePut, ttosReadyQueueIsEmpty, ttosGetUnReserveCpuLowestRTask.
  apply pres_bind; [apply _| |intros; apply _].
  apply pres_bind; [apply _|by apply evolves_modify|intros; apply _].
Qed.

#[export] Instance evolves_schedule fuel c : Evolves (ttosTaskSchedule fuel c).
Proof. induction fuel; simpl; apply _. Qed.

(** ** The wait queues are not touched by the ready-queue operations *)

#[export] Instance wqs_preorder : PreOrder (λ K K', wqs K' = wqs K).
Proof. split; [done|]. intros K1 K2 K3 H1 H2. congruence. Qed.

Abbreviation KeepsWqs := (Pres (λ K K', wqs K' = wqs K)).

#[export] Instance keeps_wqs_upd t f : KeepsWqs (upd_task t f).
Proof. intros K a K'. unfold upd_task. by destruct (tasks K !! t); intros [= <- <-]. Qed.

#[export] Instance keeps_wqs_oq f : KeepsWqs (modify (λ K, set_oq (f K) K)).
Proof. by intros K a K' [= <- <-]. Qed.

#[export] Instance keeps_wqs_ipis f : KeepsWqs (modify (λ K, set_ipis (f K) K)).
Proof. by intros K a K' [= <- <-]. Qed.

#[export] Instance keeps_wqs_top a o : KeepsWqs (modify (set_cached_top a o)).
Proof. intros K b K' [= <- <-]. by destruct a. Qed.

#[export] Instance keeps_wqs_set_bit a p : KeepsWqs (set_priority_bit a p).
Proof.
  intros K b K'. unfold set_priority_bit. destruct (rq_bitmap a K); simpl; [|done].
  destruct (TBSP_SET_PRIORITYBITMAP _ _); simpl; [|done]. intros [= <- <-]. by destruct a.
Qed.

#[export] Instance keeps_wqs_clear_bit a p : KeepsWqs (clear_priority_bit a p).
Proof.
  intros K b K'. unfold clear_priority_bit. destruct (rq_bitmap a K); simpl; [|done].
  destruct (TBSP_CLEAR_PRIORITYBITMAP _ _); simpl; [|done]. intros [= <- <-]. by destruct a.
Qed.

#[export] Instance keeps_wqs_state_changed t b : KeepsWqs (ttosTaskStateChanged t b).
Proof. unfold ttosTaskStateChanged, ipiRescheduleEmit. apply _. Qed.

#[export] Instance keeps_wqs_set_top a : KeepsWqs (ttosSetHighestPriorityTask a).
Proof. unfold ttosSetHighestPriorityTask, ttosGetHighestPriorityTask, ttosReadyQueueHeadGet. apply _. Qed.

#[export] Instance keeps_wqs_set_ready t : KeepsWqs (ttosSetTaskReady t).
Proof. unfold ttosSetTaskReady, ttosReadyQueuePut, obj_add_head, obj_add_tail. apply _. Qed.

#[export] Instance keeps_wqs_clear_ready t : KeepsWqs (ttosClearTaskReady t).
Proof. unfold ttosClearTaskReady, ttosReadyQueueIsEmpty, obj_delete. apply _. Qed.

#[export] Instance keeps_wqs_running c t : KeepsWqs (ttosSetRunningTaskWithCpuID c t).
Proof.
  unfold ttosSetRunningTaskWithCpuID. apply pres_bind; [apply _| |intros; apply _].
  by intros K a K' [= <- <-].
Qed.

#[export] Instance keeps_wqs_level c l : KeepsWqs (ttosSetDisableScheduleLevel c l).
Proof. by intros K a K' [= <- <-]. Qed.

#[export] Instance keeps_wqs_switch c old new : KeepsWqs (switch_task c old new).
Proof.
  unfold switch_task, ttosGTaskRQueuePut, ttosGTaskRQueueRemove, ttosReadyQueuePut, ttosReadyQueueIsEmpty,
    ttosGetUnReserveCpuLowestRTask, obj_add_head, obj_add_tail, obj_delete, ipiRescheduleEmit.
  apply _.
Qed.

#[export] Instance keeps_wqs_schedule fuel c : KeepsWqs (ttosTaskSchedule fuel c).
Proof. induction fuel; simpl; apply _. Qed.

(** ** What a context switch leaves of the environment *)

Definition sys (K : kernel) :=
  (idleTask K, ncpus K, cpus_enabled K, cpus_reserved K, this_cpu K, in_isr K).

#[export] Instance sys_preorder : PreOrder (λ K K', sys K' = sys K).
Proof. split; [done|]. intros K1 K2 K3 H1 H2. congruence. Qed.

Abbreviation KeepsSys := (Pres (λ K K', sys K' = sys K)).

Lemma env_sys K K' : env K' = env K → sys K' = sys K.
Proof. unfold env, sys. congruence. Qed.

#[export] Instance keeps_sys {A} (m : M kernel A) : Keeps m → KeepsSys m.
Proof. intros Hm K a K' H. by eapply env_sys, Hm. Qed.

#[export] Instance keeps_sys_running c t : KeepsSys (ttosSetRunningTaskWithCpuID c t).
Proof.
  unfold ttosSetRunningTaskWithCpuID. apply pres_bind; [apply _| |intros; apply _].
  by intros K a K' [= <- <-].
Qed.

#[export] Instance keeps_sys_level c l : KeepsSys (ttosSetDisableScheduleLevel c l).
Proof. by intros K a K' [= <- <-]. Qed.

#[export] Instance keeps_sys_switch c old new : KeepsSys (switch_task c old new).
Proof.
  unfold switch_task, ttosGTaskRQueuePut, ttosGTaskRQueueRemove, ttosReadyQueueIsEmpty,
    ttosGetUnReserveCpuLowestRTask.
  apply _.
Qed.

#[export] Instance keeps_sys_schedule fuel c : KeepsSys (ttosTaskSchedule fuel c).
Proof. induction fuel; simpl; apply _. Qed.
