(* ===== verification/SchedInv.v ===== *)
(** * The ready-queue invariant and the scheduler's theorems *)

From S2P Require Import Prelude Chain PrioMap Kernel Sched.
Import Width.
Local Open Scope Z_scope.

Definition ready (tc : tcb) : bool := flag_on TTOS_TASK_READY (state tc).

(** ** Invariants *)

(** A bitmap names exactly the priorities whose queue is not empty. *)
Definition maps_ok (K : kernel) : Prop := ∀ a m, rq_bitmap a K = Some m →
  pmap_wf m ∧ ∀ p, 0 ≤ p < 256 → pri_set m p = true ↔ c_get (RQ a p) (oq K) ≠ [].

(** [o] is the head of the most urgent non-empty queue of [a]. *)
Definition top_spec (a : option cpuid) (C : gmap oqid (list tid)) (o : option tid) : Prop :=
  match o with
  | Some t => ∃ p, 0 ≤ p < 256 ∧ head (c_get (RQ a p) C) = Some t ∧
                   ∀ p', 0 ≤ p' < p → c_get (RQ a p') C = []
  | None => ∀ p, 0 ≤ p < 256 → c_get (RQ a p) C = []
  end.

(** A control block on its own: its numbers are in range, a bound task only
    runs where it is bound, and the two flags of a running unbound task are
    off on every other task. *)
Record tcb_ok (n : nat) (tc : tcb) : Prop := {
  to_prio : 0 ≤ taskCurPriority tc < 256;
  to_aff : ∀ c, affCpu tc = Some c → (c < n)%nat;
  to_grun : ∀ c, gRunTaskAffinityCpuIndex (smpInfo tc) = Some c → (c < n)%nat;
  to_bound : ∀ a c, affCpu tc = Some a → onCpu tc = Some c → c = a;
  to_private : isChangedToPrivate (smpInfo tc) = true → affCpu tc = None ∧ onCpu tc ≠ None;
  to_rotated : isRotated (smpInfo tc) = true → affCpu tc = None ∧ onCpu tc ≠ None;
}.

(** The invariant, relative to which tasks belong on a ready queue ([qk]). *)
Record sched_inv (qk : tid → tcb → bool) (K : kernel) : Prop := {
  si_wf : c_wf (oq K);
  si_maps : maps_ok K;
  si_tops : ∀ a m, rq_bitmap a K = Some m → top_spec a (oq K) (cached_top a K);
  si_sound : ∀ a p t, t ∈ c_get (RQ a p) (oq K) →
    ∃ tc, tasks K !! t = Some tc ∧ affCpu tc = a ∧ taskCurPriority tc = p ∧
          ready tc = true ∧ qk t tc = true;
  si_complete : ∀ t tc, tasks K !! t = Some tc → ready tc = true → qk t tc = true →
    t ∈ c_get (RQ (affCpu tc) (taskCurPriority tc)) (oq K);
  si_task : ∀ t tc, tasks K !! t = Some tc → tcb_ok (ncpus K) tc;
  si_cpus : ∀ c, (c < ncpus K)%nat ↔ is_Some (ttosPriorityBitMap K !! c);
  si_run : ∀ c, (c < ncpus K)%nat →
    ∃ r rc, runningTask K !! c = Some r ∧ tasks K !! r = Some rc ∧ onCpu rc = Some c;
  si_oncpu : ∀ t tc c, tasks K !! t = Some tc → onCpu tc = Some c →
    runningTask K !! c = Some t ∧ (c < ncpus K)%nat;
  si_idle : ∀ c, (c < ncpus K)%nat →
    ∃ i ic, idleTask K !! c = Some i ∧ tasks K !! i = Some ic ∧ affCpu ic = Some c ∧
            ready ic = true ∧ qk i ic = true;
  si_this : (this_cpu K < ncpus K)%nat;
}.

(** The invariant between two kernel calls. *)
Abbreviation kernel_inv := (sched_inv (λ _, queued_kind)).

Definition without (t : tid) (qk : tid → tcb → bool) : tid → tcb → bool :=
  λ t' tc', if decide (t' = t) then false else qk t' tc'.

Definition not_idle (t : tid) (K : kernel) : Prop :=
  ∀ c, (c < ncpus K)%nat → idleTask K !! c ≠ Some t.

(** ** Bits and queues move together *)

Lemma rq_bitmap_set a a' m K :
  rq_bitmap a' (set_rq_bitmap a m K) = if decide (a = a') then Some m else rq_bitmap a' K.
Proof.
  destruct a as [c|], a' as [c'|]; simpl; try done.
  - rewrite lookup_insert. repeat case_decide; congruence.
Qed.

Lemma rq_bitmap_set_oq a C K : rq_bitmap a (set_oq C K) = rq_bitmap a K.
Proof. by destruct a. Qed.

Lemma oq_set_rq_bitmap a m K : oq (set_rq_bitmap a m K) = oq K.
Proof. by destruct a. Qed.

(** Changing one queue of [a] and adjusting its bit keeps the bitmaps right. *)
Lemma maps_ok_update a m m' pri xs K :
  maps_ok K → rq_bitmap a K = Some m → pmap_wf m' → 0 ≤ pri < 256 →
  (∀ p, 0 ≤ p < 256 → pri_set m' p =
     if decide (p = pri) then negb (bool_decide (xs = [])) else pri_set m p) →
  maps_ok (set_oq (c_set (RQ a pri) xs (oq K)) (set_rq_bitmap a m' K)).
Proof.
  intros Hok Hm Hwf Hp Hbits a' m1. rewrite rq_bitmap_set_oq, rq_bitmap_set.
  destruct (decide (a = a')) as [<-|Hne].
  - intros [= <-]. split; [done|]. intros p Hpp. simpl. rewrite Hbits by done.
    destruct (decide (p = pri)) as [->|Hpne].
    + rewrite c_get_set_eq, negb_true_iff, bool_decide_eq_false. done.
    + rewrite c_get_set_ne by congruence. by apply (Hok a m).
  - intros Ha'. destruct (Hok _ _ Ha') as [? Hb]. split; [done|]. intros p Hpp.
    simpl. rewrite c_get_set_ne by congruence. by apply Hb.
Qed.

(** The part of the state the queue operations leave alone. *)
Definition rest (K : kernel) :=
  (tasks K, runningTask K, idleTask K, ncpus K, cpus_enabled K, cpus_reserved K, this_cpu K,
   dom (ttosPriorityBitMap K)).

Lemma rest_set_rq_bitmap a m m' K :
  rq_bitmap a K = Some m → rest (set_rq_bitmap a m' K) = rest K.
Proof.
  unfold rest. destruct a as [c|]; simpl; [|done]. intros Hc.
  by rewrite dom_insert_lookup_L.
Qed.

Lemma rest_set_cached_top a o K : rest (set_cached_top a o K) = rest K.
Proof. by destruct a. Qed.

Lemma rq_bitmap_rest a K K' : rest K' = rest K → is_Some (rq_bitmap a K') ↔ is_Some (rq_bitmap a K).
Proof.
  intros [= _ _ _ _ _ _ _ Hd]. destruct a as [c|]; simpl; [|done].
  by rewrite <- !elem_of_dom, Hd.
Qed.

Lemma cached_top_set_rq_bitmap a a' m K : cached_top a (set_rq_bitmap a' m K) = cached_top a K.
Proof. by destruct a, a'. Qed.

Lemma cached_top_set_oq a C K : cached_top a (set_oq C K) = cached_top a K.
Proof. by destruct a. Qed.

Lemma cached_top_set a a' o K :
  cached_top a (set_cached_top a' o K) = if decide (a' = a) then o else cached_top a K.
Proof.
  destruct a as [c|], a' as [c'|]; simpl; try done.
  - destruct (decide (c' = c)) as [->|].
    + rewrite lookup_partial_alter_eq. by case_decide.
    + rewrite lookup_partial_alter_ne by done. case_decide; congruence.
Qed.

Lemma oq_set_cached_top a o K : oq (set_cached_top a o K) = oq K.
Proof. by destruct a. Qed.

Lemma rq_bitmap_set_cached_top a a' o K : rq_bitmap a (set_cached_top a' o K) = rq_bitmap a K.
Proof. by destruct a, a'. Qed.

(** ** The queue steps, in the order the code takes them *)

Definition c_put (prepend : bool) (t : tid) (q : oqid) (C : gmap oqid (list tid)) :=
  if prepend then c_add_head t q C else c_add_tail t q C.

(** After a queue step: new chains, right bitmaps, everything else as before. *)
Record stepped (K K' : kernel) (C : gmap oqid (list tid)) : Prop := {
  sp_oq : oq K' = C;
  sp_maps : maps_ok K';
  sp_tops : ∀ a, cached_top a K' = cached_top a K;
  sp_rest : rest K' = rest K;
}.

(** The same, when the cached head of [a] may be out of date. *)
Definition stepped_but (a : option cpuid) (K K' : kernel) (C : gmap oqid (list tid)) : Prop :=
  oq K' = C ∧ maps_ok K' ∧ (∀ a', a' ≠ a → cached_top a' K' = cached_top a' K) ∧ rest K' = rest K.

Lemma stepped_stepped_but a K K' C : stepped K K' C → stepped_but a K K' C.
Proof. intros []. by split_and!. Qed.

Section Steps.
Context {B : Type} (K : kernel) (a : option cpuid) (m : T_TTOS_PriorityMap) (pri : Z) (t : tid).
Hypothesis Hmaps : maps_ok K.
Hypothesis Hm : rq_bitmap a K = Some m.
Hypothesis Hpri : 0 ≤ pri < 256.

Lemma wp_enqueue (prepend : bool) (tc : tcb) (k : M kernel B) Φ :
  c_linked t (oq K) = false →
  tasks K !! t = Some tc → affCpu tc = a → taskCurPriority tc = pri →
  (∀ K', stepped K K' (c_put prepend t (RQ a pri) (oq K)) → wp k K' Φ) →
  wp (_ ← set_priority_bit a pri; _ ← ttosReadyQueuePut t prepend; k) K Φ.
Proof.
  intros Hl Ht Ha Hp Hk.
  destruct (Hmaps _ _ Hm) as [Hwf Hbits].
  destruct (set_spec m Hwf pri Hpri) as (m' & Hset & Hwf' & Hm').
  apply wp_bind. unfold wp at 1, set_priority_bit. rewrite Hm. simpl. rewrite Hset. simpl.
  set (K1 := set_rq_bitmap a m' K).
  assert (Hr : rest K1 = rest K) by (by eapply rest_set_rq_bitmap).
  assert (Ht1 : tasks K1 !! t = Some tc) by (injection Hr as ->; done).
  apply wp_bind. unfold ttosReadyQueuePut. apply wp_bind.
  unfold wp at 1, get_task. rewrite Ht1. rewrite Ha, Hp.
  assert (Hpost : wp (if prepend then obj_add_head t (RQ a pri) else obj_add_tail t (RQ a pri)) K1
    (λ _ K', K' = set_oq (c_put prepend t (RQ a pri) (oq K)) K1)).
  { assert (Ho : oq K1 = oq K) by apply oq_set_rq_bitmap.
    destruct prepend; apply wp_bind, wp_gets; rewrite Ho, Hl;
      apply wp_bind, wp_assert; try done; apply wp_modify; by rewrite Ho. }
  eapply wp_mono; [exact Hpost|]. intros [] K' ->. apply Hk. split.
  - done.
  - unfold c_put, c_add_head, c_add_tail, K1.
    destruct prepend; apply maps_ok_update with m; try done; intros p Hpp; rewrite Hm' by done.
    + by case_decide; case_bool_decide.
    + case_decide; case_bool_decide; try done. by destruct (c_get _ _).
  - intros a'. rewrite cached_top_set_oq. apply cached_top_set_rq_bitmap.
  - done.
Qed.

Lemma filter_nil_iff xs : NoDup xs → t ∈ xs → filter (λ x, x ≠ t) xs = [] ↔ xs = [t].
Proof.
  intros Hnd Hin. split; [|intros ->; by rewrite filter_cons_False by naive_solver].
  intros Hf. apply list_elem_of_split in Hin as (l1 & l2 & ->).
  apply NoDup_app in Hnd as (_ & Hd & [Hn _]%NoDup_cons).
  rewrite filter_ne_split in Hf; [|intros ?; by eapply Hd; [done|left]|done].
  by apply app_nil in Hf as [-> ->].
Qed.

Lemma wp_dequeue (k : M kernel B) Φ :
  c_wf (oq K) → t ∈ c_get (RQ a pri) (oq K) →
  (∀ K', stepped K K' (c_delete t (oq K)) → wp k K' Φ) →
  wp (_ ← obj_delete t; e ← ttosReadyQueueIsEmpty a pri;
      _ ← whenM e (clear_priority_bit a pri); k) K Φ.
Proof.
  intros Hwf Hin Hk.
  destruct (Hmaps _ _ Hm) as [Hpw Hbits].
  assert (Hl : c_linked t (oq K) = true) by (apply c_linked_spec; eauto).
  apply wp_bind. unfold obj_delete. apply wp_bind, wp_gets, wp_bind, wp_assert, wp_modify; [done|].
  set (K1 := set_oq (c_delete t (oq K)) K).
  assert (Hget : ∀ a' p, c_get (RQ a' p) (c_delete t (oq K)) =
    if decide (RQ a' p = RQ a pri) then filter (λ x, x ≠ t) (c_get (RQ a pri) (oq K))
    else c_get (RQ a' p) (oq K)).
  { intros a' p. case_decide as E; [by rewrite E, c_get_delete|].
    apply c_get_delete_fresh. intros Hin'. by apply E, (c_disj _ Hwf _ _ t). }
  apply wp_bind, wp_gets. simpl. apply wp_bind, wp_when; intros He.
  - apply c_is_empty_spec in He. simpl in He.
    destruct (clear_spec m Hpw pri Hpri) as (m' & Hclr & Hwf' & Hm').
    unfold wp at 1, clear_priority_bit, K1. rewrite rq_bitmap_set_oq, Hm. simpl.
    rewrite Hclr. simpl. apply Hk. split.
    + by rewrite oq_set_rq_bitmap.
    + intros a' m1. rewrite rq_bitmap_set, rq_bitmap_set_oq, oq_set_rq_bitmap. simpl.
      case_decide as Ea.
      * intros [= <-]. subst a'. split; [done|]. intros p Hpp. rewrite Hm' by done.
        destruct (decide (p = pri)) as [->|Hne].
        -- rewrite He. by rewrite bool_decide_true.
        -- rewrite Hget, decide_False by congruence. rewrite bool_decide_false by done.
           by apply Hbits.
      * intros Hm1. destruct (Hmaps _ _ Hm1) as [? Hb]. split; [done|]. intros p Hpp.
        rewrite Hget, decide_False by congruence. by apply Hb.
    + intros a'. rewrite cached_top_set_rq_bitmap. apply cached_top_set_oq.
    + by erewrite rest_set_rq_bitmap by (by rewrite rq_bitmap_set_oq).
  - apply Hk. split; [done| |intros a'; apply cached_top_set_oq|done].
    intros a' m1. unfold K1. rewrite rq_bitmap_set_oq. intros Hm1.
    destruct (Hmaps _ _ Hm1) as [? Hb]. split; [done|]. intros p Hpp. simpl.
    rewrite Hb by done. rewrite Hget. case_decide as E; [|done]. injection E as -> ->.
    assert (c_get (RQ a pri) (c_delete t (oq K)) ≠ []).
    { intros E'. apply c_is_empty_spec in E'. unfold K1 in He. simpl in He. congruence. }
    rewrite Hget, decide_True in H0 by done.
    split; intros _; [done|]. intros E'. rewrite E' in Hin. by apply not_elem_of_nil in Hin.
Qed.

End Steps.

Lemma major_nonzero m :
  pmap_wf m → major m ≠ 0 → ∃ p, 0 ≤ p < 256 ∧ pri_set m p = true.
Proof.
  intros Hwf Hnz.
  destruct (decide (Exists (λ i, pri_set m (Z.of_nat i) = true) (seq 0 256))) as [He|Hno].
  - apply Exists_exists in He as (i & Hi%elem_of_seq & Hs). exists (Z.of_nat i). split; [lia|done].
  - exfalso. apply Hnz, (major_zero _ Hwf). intros p Hp. apply not_true_iff_false. intros Hs.
    apply Hno, Exists_exists. exists (Z.to_nat p). split; [apply elem_of_seq; lia|].
    by rewrite Z2Nat.id by lia.
Qed.

(** Refreshing the cached head of [a]; a CPU's own queues are never all empty. *)
Lemma wp_set_top a m K Φ :
  maps_ok K → rq_bitmap a K = Some m →
  (∀ c, a = Some c → ∃ p, 0 ≤ p < 256 ∧ c_get (RQ a p) (oq K) ≠ []) →
  (∀ o, top_spec a (oq K) o → Φ tt (set_cached_top a o K)) →
  wp (ttosSetHighestPriorityTask a) K Φ.
Proof.
  intros Hmaps Hm Hne HΦ. destruct (Hmaps _ _ Hm) as [Hwf Hbits].
  unfold ttosSetHighestPriorityTask. apply wp_bind.
  unfold ttosGetHighestPriorityTask. apply wp_bind, wp_gets.
  destruct (bool_decide (a = None) && (major (ttosGlobalPriorityBitMap K) =? 0)) eqn:Ez.
  - apply andb_true_iff in Ez as [->%bool_decide_eq_true Hz%Z.eqb_eq].
    apply wp_ret, wp_modify, HΦ. intros p Hp. injection Hm as Hm. subst m.
    destruct (c_get (RQ None p) (oq K)) eqn:E; [done|]. exfalso.
    assert (Hs : pri_set (ttosGlobalPriorityBitMap K) p = true) by (apply Hbits; [done|by rewrite E]).
    rewrite (proj1 (major_zero _ Hwf) Hz) in Hs by done. done.
  - assert (∃ p, 0 ≤ p < 256 ∧ pri_set m p = true) as (p & Hp & Hs).
    { destruct a as [c|].
      - destruct (Hne c) as (p & Hp & Hq); [done|]. exists p. split; [done|]. by apply Hbits.
      - injection Hm as Hm. subst m. simpl in Ez. apply Z.eqb_neq in Ez.
        by apply major_nonzero. }
    destruct (highest_spec m Hwf p Hp Hs) as (pri & Hh & Hpri & Hset & Hlow).
    apply wp_bind. unfold wp at 1. rewrite Hm. simpl. apply wp_bind.
    eapply wp_lift; [done|]. rewrite u8_small by lia. apply wp_gets, wp_modify, HΦ.
    unfold c_first. destruct (c_get (RQ a pri) (oq K)) as [|x xs] eqn:E.
    + exfalso. by apply (Hbits pri Hpri).
    + simpl. exists pri. rewrite E. split; [done|]. split; [done|]. intros p' Hp'.
      destruct (c_get (RQ a p') (oq K)) eqn:E'; [done|]. exfalso.
      assert (pri_set m p' = true) by (apply Hbits; [lia|by rewrite E']).
      specialize (Hlow p' ltac:(lia)). congruence.
Qed.

(** ** Rebuilding the invariant after a queue step *)

Lemma top_spec_ext a C C' o :
  (∀ p, c_get (RQ a p) C' = c_get (RQ a p) C) → top_spec a C o → top_spec a C' o.
Proof.
  intros E. destruct o as [t|]; simpl; [|by setoid_rewrite E].
  intros (p & ? & ? & ?). exists p. rewrite E. split_and!; [lia..|done|]. intros. rewrite E. eauto.
Qed.

Lemma si_prio qk K t tc : sched_inv qk K → tasks K !! t = Some tc → 0 ≤ taskCurPriority tc < 256.
Proof. intros Hinv Ht. by destruct (si_task _ _ Hinv _ _ Ht). Qed.

Lemma si_aff qk K t tc c : sched_inv qk K → tasks K !! t = Some tc → affCpu tc = Some c →
  (c < ncpus K)%nat.
Proof. intros Hinv Ht. by apply (si_task _ _ Hinv _ _ Ht). Qed.

Lemma si_nonempty qk K c : sched_inv qk K → (c < ncpus K)%nat →
  ∃ i p, idleTask K !! c = Some i ∧ 0 ≤ p < 256 ∧ i ∈ c_get (RQ (Some c) p) (oq K).
Proof.
  intros Hinv Hc. destruct (si_idle _ _ Hinv c Hc) as (i & ic & Hi & Hic & Ha & Hr & Hq).
  exists i, (taskCurPriority ic). split; [done|]. split; [by eapply si_prio|].
  rewrite <- Ha. by eapply si_complete.
Qed.

Lemma si_bitmap qk K t tc : sched_inv qk K → tasks K !! t = Some tc →
  is_Some (rq_bitmap (affCpu tc) K).
Proof.
  intros Hinv Ht. destruct (affCpu tc) as [c|] eqn:Ea; simpl; [|by eexists].
  apply (si_cpus _ _ Hinv). by eapply si_aff.
Qed.

(** The task clauses, over any state that agrees on [rest]. *)
Lemma si_rebuild qk qk' K K' :
  sched_inv qk K → rest K' = rest K →
  c_wf (oq K') → maps_ok K' →
  (∀ a, is_Some (rq_bitmap a K') → top_spec a (oq K') (cached_top a K')) →
  (∀ a p t tc, t ∈ c_get (RQ a p) (oq K') → tasks K !! t = Some tc →
     qk' t tc = true ∧ (t ∈ c_get (RQ a p) (oq K) ∨
       affCpu tc = a ∧ taskCurPriority tc = p ∧ ready tc = true)) →
  (∀ a p t, t ∈ c_get (RQ a p) (oq K') → is_Some (tasks K !! t)) →
  (∀ t tc, tasks K !! t = Some tc → ready tc = true → qk' t tc = true →
     t ∈ c_get (RQ (affCpu tc) (taskCurPriority tc)) (oq K')) →
  (∀ c i ic, (c < ncpus K)%nat → idleTask K !! c = Some i → tasks K !! i = Some ic →
     qk i ic = true → qk' i ic = true) →
  sched_inv qk' K'.
Proof.
  intros Hinv Hrest Hwf Hmaps Htops Hsound Hdom Hcomp Hidle.
  injection Hrest as Et Er Ei En Ee Es Eth Ed.
  split; rewrite ?Et, ?Er, ?Ei, ?En, ?Eth; try done; try by apply Hinv.
  - intros a m Hm. apply Htops. by eexists.
  - intros a p t Hin. destruct (Hdom _ _ _ Hin) as [tc Ht]. exists tc. split; [done|].
    destruct (Hsound _ _ _ _ Hin Ht) as [Hq [Hold|(?&?&?)]]; [|done].
    destruct (si_sound _ _ Hinv _ _ _ Hold) as (tc' & Ht' & ? & ? & ? & ?).
    simplify_eq. done.
  - intros c. rewrite <- elem_of_dom, Ed, elem_of_dom. apply (si_cpus _ _ Hinv).
  - intros c Hc. destruct (si_idle _ _ Hinv c Hc) as (i & ic & ? & ? & ? & ? & ?).
    exists i, ic. split_and!; eauto.
  - apply (si_this _ _ Hinv).
Qed.

Lemma elem_of_c_put t b x q0 q' C :
  x ∈ c_get q' (c_put b t q0 C) ↔ x ∈ c_get q' C ∨ (x = t ∧ q' = q0).
Proof.
  unfold c_put, c_add_head, c_add_tail. destruct b; rewrite c_get_set; case_decide; subst;
    rewrite ?elem_of_app, ?elem_of_cons, ?elem_of_nil; intuition congruence.
Qed.

Section Assemble.
Context (qk : tid → tcb → bool) (K : kernel) (t : tid) (tc : tcb).
Hypothesis Ht : tasks K !! t = Some tc.
Local Abbreviation q := (RQ (affCpu tc) (taskCurPriority tc)).

Lemma inv_insert b K' o :
  sched_inv (without t qk) K → c_linked t (oq K) = false →
  ready tc = true → qk t tc = true →
  stepped_but (affCpu tc) K K' (c_put b t q (oq K)) → top_spec (affCpu tc) (oq K') o →
  sched_inv qk (set_cached_top (affCpu tc) o K').
Proof.
  intros Hinv Hl Hr Hq (Hoq & Hmaps & Htops & Hrest) Ho.
  apply si_rebuild with (without t qk) K; rewrite ?oq_set_cached_top, ?Hoq; [done|..].
  - by rewrite rest_set_cached_top.
  - pose proof (si_wf _ _ Hinv). unfold c_put. destruct b; eauto with chains.
  - intros a' m' Ha'. rewrite rq_bitmap_set_cached_top in Ha'. rewrite oq_set_cached_top. by apply Hmaps.
  - intros a' Ha'. rewrite rq_bitmap_set_cached_top in Ha'. rewrite cached_top_set.
    case_decide as E; [subst a'; by rewrite <- Hoq|]. rewrite Htops by done.
    rewrite rq_bitmap_rest in Ha' by done. destruct Ha' as [m' Ha'].
    eapply top_spec_ext; [|by eapply si_tops]. intros p.
    unfold c_put, c_add_head, c_add_tail. destruct b; apply c_get_set_ne; congruence.
  - intros a' p x xc Hin Hx. apply elem_of_c_put in Hin as [Hin|[-> Hq']].
    + destruct (si_sound _ _ Hinv _ _ _ Hin) as (? & ? & ? & ? & ? & Hw). unfold without in Hw.
      case_decide; [done|]. simplify_eq. auto.
    + simplify_eq. auto 10.
  - intros a' p x Hin. apply elem_of_c_put in Hin as [Hin|[-> Hq']]; [|by eexists].
    destruct (si_sound _ _ Hinv _ _ _ Hin) as (? & ? & ?). by eexists.
  - intros x xc Hx Hrx Hqx. apply elem_of_c_put. destruct (decide (x = t)) as [->|].
    + simplify_eq. by right.
    + left. apply (si_complete _ _ Hinv); [done..|]. unfold without. by rewrite decide_False.
  - intros c i ic _ _ _. unfold without. by case_decide.
Qed.

Lemma inv_remove K' o :
  sched_inv qk K → not_idle t K → t ∈ c_get q (oq K) →
  stepped K K' (c_delete t (oq K)) → top_spec (affCpu tc) (oq K') o →
  sched_inv (without t qk) (set_cached_top (affCpu tc) o K').
Proof.
  intros Hinv Hni Hin [Hoq Hmaps Htops Hrest] Ho.
  apply si_rebuild with qk K; rewrite ?oq_set_cached_top, ?Hoq; [done|..].
  - by rewrite rest_set_cached_top.
  - pose proof (si_wf _ _ Hinv). eauto with chains.
  - intros a' m' Ha'. rewrite rq_bitmap_set_cached_top in Ha'. rewrite oq_set_cached_top. by apply Hmaps.
  - intros a' Ha'. rewrite rq_bitmap_set_cached_top in Ha'. rewrite cached_top_set.
    case_decide as E; [subst a'; by rewrite <- Hoq|]. rewrite Htops.
    rewrite rq_bitmap_rest in Ha' by done. destruct Ha' as [m' Ha'].
    eapply top_spec_ext; [|by eapply si_tops]. intros p.
    apply c_get_delete_fresh. intros Hin'. apply E.
    pose proof (c_disj _ (si_wf _ _ Hinv) _ _ _ Hin Hin'). congruence.
  - intros a' p x xc [Hne Hx]%elem_of_c_delete Hxc.
    destruct (si_sound _ _ Hinv _ _ _ Hx) as (? & ? & ? & ? & ? & ?). simplify_eq.
    split; [|auto]. unfold without. by rewrite decide_False.
  - intros a' p x [Hne Hx]%elem_of_c_delete.
    destruct (si_sound _ _ Hinv _ _ _ Hx) as (? & ? & ?). by eexists.
  - intros x xc Hx Hrx Hqx. unfold without in Hqx. case_decide; [done|].
    apply elem_of_c_delete. split; [done|]. by apply (si_complete _ _ Hinv).
  - intros c i ic Hc Hi _ Hqi. unfold without. case_decide; [subst; by apply Hni in Hi|done].
Qed.

End Assemble.

(** ** Interrupting other CPUs never touches the queues *)

Definition emitted (K K' : kernel) : Prop := ∃ l, K' = set_ipis (ipis K ++ l) K.

Lemma emitted_refl K : emitted K K.
Proof. exists []. rewrite app_nil_r. by destruct K. Qed.

Lemma emitted_inv qk K K' : emitted K K' → sched_inv qk K → sched_inv qk K'.
Proof.
  intros [l ->] Hinv. apply si_rebuild with qk K; simpl; try done; try apply Hinv.
  - intros a [m Hm]. eapply top_spec_ext; [done|].
    replace (cached_top a (set_ipis (ipis K ++ l) K)) with (cached_top a K) by (by destruct a).
    apply (si_tops _ _ Hinv a m). by destruct a.
  - intros a p t tc Hin Ht. destruct (si_sound _ _ Hinv _ _ _ Hin) as (? & ? & ? & ? & ? & ?).
    simplify_eq. auto.
  - intros a p t Hin. destruct (si_sound _ _ Hinv _ _ _ Hin) as (? & ? & ?). by eexists.
Qed.

Section Notify.
Context (qk : tid → tcb → bool) (K : kernel).
Hypothesis Hinv : sched_inv qk K.

Lemma wp_running c Φ :
  (c < ncpus K)%nat →
  (∀ r rc, runningTask K !! c = Some r → tasks K !! r = Some rc → Φ r K) →
  wp (ttosGetRunningTaskWithCpuID c) K Φ.
Proof.
  intros Hc HΦ. destruct (si_run _ _ Hinv c Hc) as (r & rc & Hr & Hrc & _).
  unfold wp, ttosGetRunningTaskWithCpuID. rewrite Hr. simpl. eauto.
Qed.

Lemma wp_get_task t tc Φ : tasks K !! t = Some tc → Φ tc K → wp (get_task t) K Φ.
Proof. intros Ht ?. unfold wp, get_task. by rewrite Ht. Qed.

(** The loop over the CPUs returns a running task no less urgent than none of
    those it scanned. *)
Definition preemptible (c : cpuid) (rc : tcb) : Prop :=
  c ∉ cpus_reserved K ∧ c ∈ cpus_enabled K ∧ preemptCount rc = 0.

Lemma wp_lowest_from cs lowest :
  (∀ c, c ∈ cs → (c < ncpus K)%nat) →
  (∀ l, lowest = Some l → ∃ lc c, tasks K !! l = Some lc ∧ onCpu lc = Some c ∧ preemptible c lc) →
  wp (lowest_from cs lowest) K (λ o K', K' = K ∧
    (∀ l, o = Some l → ∃ lc c, tasks K !! l = Some lc ∧ onCpu lc = Some c ∧ preemptible c lc ∧
       (∀ l0 lc0, lowest = Some l0 → tasks K !! l0 = Some lc0 →
          taskCurPriority lc0 ≤ taskCurPriority lc) ∧
       ∀ c' r rc, c' ∈ cs → runningTask K !! c' = Some r → tasks K !! r = Some rc →
          preemptible c' rc → taskCurPriority rc ≤ taskCurPriority lc) ∧
    (o = None → lowest = None ∧
       ∀ c r rc, c ∈ cs → runningTask K !! c = Some r → tasks K !! r = Some rc →
          ¬ preemptible c rc)).
Proof.
  revert lowest. induction cs as [|c cs IH]; intros lowest Hcs Hlow; simpl.
  - apply wp_ret. split; [done|]. split.
    + intros l ->. destruct (Hlow l eq_refl) as (lc & c & ? & ? & ?). exists lc, c.
      split_and!; try done.
      * intros l0 lc0 [= <-] ?. simplify_eq. lia.
      * intros c' r rc []%not_elem_of_nil.
    + intros ->. split; [done|]. intros c r rc []%not_elem_of_nil.
  - destruct (si_run _ _ Hinv c) as (r & rc & Hr & Hrc & Hon); [apply Hcs; left|].
    apply wp_bind. unfold wp at 1, ttosGetRunningTaskWithCpuID. rewrite Hr. simpl.
    apply wp_bind. eapply wp_get_task; [done|]. apply wp_bind, wp_gets. unfold id.
    assert (Hcs' : ∀ c, c ∈ cs → (c < ncpus K)%nat) by (intros; apply Hcs; by right).
    destruct (bool_decide _ && bool_decide _ && _) eqn:Ep.
    + apply andb_true_iff in Ep as [[?%bool_decide_eq_true ?%bool_decide_eq_true]%andb_true_iff
        ?%Z.eqb_eq].
      assert (Hp : preemptible c rc) by done.
      set (l1 := match lowest with None => r | Some l => l end).
      assert (∃ lc1 c1, tasks K !! l1 = Some lc1 ∧ onCpu lc1 = Some c1 ∧ preemptible c1 lc1)
        as (lc1 & c1 & Hl1 & Hon1 & Hp1).
      { destruct lowest as [l|]; [by apply Hlow|]. by exists rc, c. }
      apply wp_bind. eapply wp_get_task; [exact Hl1|].
      eapply wp_mono; [apply IH; [done|]|].
      { intros l [= <-]. destruct (_ <? _); eauto 10. }
      intros o K' (-> & Hsome & Hnone). split; [done|]. split.
      * intros l Hl. destruct (Hsome l Hl) as (lc & cl & ? & ? & ? & Hlow' & Hall).
        assert (Hboth : taskCurPriority lc1 ≤ taskCurPriority lc ∧
                        taskCurPriority rc ≤ taskCurPriority lc).
        { destruct (Z.ltb_spec (taskCurPriority lc1) (taskCurPriority rc)).
          - specialize (Hlow' r rc eq_refl Hrc). lia.
          - specialize (Hlow' l1 lc1 eq_refl Hl1). lia. }
        exists lc, cl. split_and!; try done.
        -- intros l0 lc0 -> Hl0. unfold l1 in Hl1. simplify_eq. lia.
        -- intros c' r' rc' [->|Hin]%elem_of_cons Hr' Hrc' Hp'; [simplify_eq; lia|by eapply Hall].
      * intros Ho. by destruct (Hnone Ho).
    + assert (Hp : ¬ preemptible c rc).
      { intros (? & ? & Hz). rewrite !bool_decide_true, Hz in Ep by done. done. }
      eapply wp_mono; [by apply IH|]. intros o K' (-> & Hsome & Hnone). split; [done|]. split.
      * intros l Hl. destruct (Hsome l Hl) as (lc & cl & ? & ? & ? & ? & Hall).
        exists lc, cl. split_and!; try done.
        intros c' r' rc' [->|Hin]%elem_of_cons Hr' Hrc' Hp'; [by simplify_eq|by eapply Hall].
      * intros Ho. destruct (Hnone Ho) as [? Hall]. split; [done|].
        intros c' r' rc' [->|Hin]%elem_of_cons Hr' Hrc' Hp'; [by simplify_eq|by eapply Hall].
Qed.

Lemma wp_lowest :
  wp ttosGetUnReserveCpuLowestRTask K (λ o K', K' = K ∧
    ∀ l, o = Some l → ∃ lc c, tasks K !! l = Some lc ∧ onCpu lc = Some c).
Proof.
  unfold ttosGetUnReserveCpuLowestRTask. apply wp_bind, wp_gets.
  eapply wp_mono; [apply wp_lowest_from|].
  - intros c Hc%elem_of_seq. lia.
  - done.
  - intros o K' (-> & Hs & _). split; [done|]. intros l Hl.
    destruct (Hs l Hl) as (lc & c & ? & ? & _). eauto.
Qed.

Lemma wp_need_reschedule t tc c Φ :
  tasks K !! t = Some tc → (c < ncpus K)%nat → (∀ b, Φ b K) →
  wp (isRTaskNeedReSchedule t c) K Φ.
Proof.
  intros Ht Hc HΦ. unfold isRTaskNeedReSchedule. apply wp_bind, wp_running; [done|].
  intros r rc Hr Hrc. apply wp_bind. eapply wp_get_task; [done|]. apply wp_bind.
  eapply wp_get_task; [done|]. apply wp_bind, wp_gets, wp_ret, HΦ.
Qed.

Lemma wp_reschedule_target t tc b :
  tasks K !! t = Some tc → wp (reschedule_target t b) K (λ _ K', K' = K).
Proof.
  intros Ht. unfold reschedule_target. apply wp_bind, wp_gets, wp_bind.
  eapply wp_get_task; [done|]. destruct b; [|by apply wp_ret].
  destruct (affCpu tc) as [a|] eqn:Ea.
  - apply wp_bind. eapply wp_need_reschedule; [done|by eapply si_aff|]. intros b. by apply wp_ret.
  - destruct (onCpu tc); [by apply wp_ret|]. apply wp_bind, wp_gets, wp_bind.
    assert (Hk : ∀ b : bool, wp (if b then mret (Some (this_cpu K)) else
       l ← ttosGetUnReserveCpuLowestRTask;
       match l with
       | Some l => lc ← get_task l;
           mret (if taskCurPriority tc <? taskCurPriority lc then onCpu lc else Some (this_cpu K))
       | None => mret (Some (this_cpu K))
       end) K (λ _ K', K' = K)).
    { intros []; [by apply wp_ret|]. apply wp_bind. eapply wp_mono; [apply wp_lowest|].
      intros [l|] K' [-> Hl]; [|by apply wp_ret]. destruct (Hl l eq_refl) as (lc & c & Hlc & _).
      apply wp_bind. eapply wp_get_task; [done|]. by apply wp_ret. }
    destruct (bool_decide _); [|apply wp_ret; exact (Hk false)].
    eapply wp_need_reschedule; [done|apply (si_this _ _ Hinv)|done].
Qed.

Lemma wp_emit c : wp (ipiRescheduleEmit c) K (λ _ K', emitted K K').
Proof. destruct c as [c|]; [apply wp_modify; by eexists|apply wp_ret, emitted_refl]. Qed.

Lemma wp_state_changed t tc b :
  tasks K !! t = Some tc → wp (ttosTaskStateChanged t b) K (λ _ K', emitted K K').
Proof.
  intros Ht. unfold ttosTaskStateChanged. apply wp_bind, wp_gets, wp_bind.
  eapply wp_mono; [by eapply wp_reschedule_target|]. intros target K' ->.
  apply wp_when; intros _; [apply wp_emit|apply emitted_refl].
Qed.

End Notify.

(** ** Changing one task control block *)

Lemma si_member qk K t tc a p :
  sched_inv qk K → tasks K !! t = Some tc →
  t ∈ c_get (RQ a p) (oq K) ↔
  affCpu tc = a ∧ taskCurPriority tc = p ∧ ready tc = true ∧ qk t tc = true.
Proof.
  intros Hinv Ht. split.
  - intros Hin. destruct (si_sound _ _ Hinv _ _ _ Hin) as (tc' & ? & ?). by simplify_eq.
  - intros (<- & <- & Hr & Hq). by apply (si_complete _ _ Hinv).
Qed.

Lemma si_tcb_ok qk K t tc : sched_inv qk K → tasks K !! t = Some tc → tcb_ok (ncpus K) tc.
Proof. intros Hinv. apply (si_task _ _ Hinv). Qed.

Lemma inv_upd_task qk qk' K t tc tc' :
  sched_inv qk K → tasks K !! t = Some tc → tcb_ok (ncpus K) tc' → onCpu tc' = onCpu tc →
  (∀ t' c, t' ≠ t → qk' t' c = qk t' c) →
  (∀ a p, t ∈ c_get (RQ a p) (oq K) ↔
     affCpu tc' = a ∧ taskCurPriority tc' = p ∧ ready tc' = true ∧ qk' t tc' = true) →
  (∀ c, (c < ncpus K)%nat → idleTask K !! c = Some t →
     affCpu tc' = affCpu tc ∧ ready tc' = true ∧ qk' t tc' = true) →
  sched_inv qk' (set_tasks (<[t := tc']> (tasks K)) K).
Proof.
  intros Hinv Ht Hok Hon Hqk Hmem Hidle.
  split; simpl; try apply Hinv.
  - intros a p x Hin. destruct (decide (x = t)) as [->|Hne].
    + exists tc'. rewrite lookup_insert_eq. split; [done|]. by apply Hmem.
    + destruct (si_sound _ _ Hinv _ _ _ Hin) as (xc & ? & ? & ? & ? & ?).
      exists xc. rewrite lookup_insert_ne, Hqk by done. done.
  - intros x xc [[<- <-]|[Hne Hx]]%lookup_insert_Some Hr Hq; [by apply Hmem|].
    rewrite Hqk in Hq by done. by apply (si_complete _ _ Hinv).
  - intros x xc [[<- <-]|[Hne Hx]]%lookup_insert_Some; [done|]. by apply (si_task _ _ Hinv x).
  - intros c Hc. destruct (si_run _ _ Hinv c Hc) as (r & rc & Hr & Hrc & Hon').
    exists r. destruct (decide (r = t)) as [->|].
    + exists tc'. rewrite lookup_insert_eq. simplify_eq. by rewrite Hon.
    + exists rc. by rewrite lookup_insert_ne.
  - intros x xc c [[<- <-]|[Hne Hx]]%lookup_insert_Some Hc; [|by apply (si_oncpu _ _ Hinv x xc)].
    rewrite Hon in Hc. by apply (si_oncpu _ _ Hinv t tc).
  - intros c Hc. destruct (si_idle _ _ Hinv c Hc) as (i & ic & Hi & Hic & Hia & Hir & Hiq).
    exists i. destruct (decide (i = t)) as [->|].
    + exists tc'. rewrite lookup_insert_eq. destruct (Hidle c Hc Hi) as (E & ? & ?). simplify_eq.
      by rewrite E.
    + exists ic. by rewrite lookup_insert_ne, Hqk.
  - apply (si_cpus _ _ Hinv), (si_this _ _ Hinv).
Qed.

(** Writing fields the scheduler does not look at. *)
Lemma inv_upd_inert qk K t tc tc' :
  sched_inv qk K → tasks K !! t = Some tc →
  smpInfo tc' = smpInfo tc → taskCurPriority tc' = taskCurPriority tc →
  ready tc' = ready tc → qk t tc' = qk t tc →
  sched_inv qk (set_tasks (<[t := tc']> (tasks K)) K).
Proof.
  intros Hinv Ht Hs Hp Hr Hq.
  assert (Ha : affCpu tc' = affCpu tc) by (unfold affCpu; by rewrite Hs).
  assert (Ho : onCpu tc' = onCpu tc) by (unfold onCpu; by rewrite Hs).
  eapply inv_upd_task; try done.
  - destruct (si_tcb_ok _ _ _ _ Hinv Ht). split; rewrite ?Hp, ?Ha, ?Ho, ?Hs; done.
  - intros a p. rewrite (si_member _ _ _ _ _ _ Hinv Ht). by rewrite Ha, Hp, Hr, Hq.
  - intros c Hc Hi. destruct (si_idle _ _ Hinv c Hc) as (i & ic & Hi' & Hic & _ & Hir & Hiq).
    simplify_eq. by rewrite Hr, Hq.
Qed.

(** A task off the ready queues, and kept off them by [without]. *)
Lemma inv_upd_off qk K t tc tc' :
  sched_inv qk K → tasks K !! t = Some tc → tcb_ok (ncpus K) tc' → onCpu tc' = onCpu tc →
  not_idle t K → (∀ a p, t ∉ c_get (RQ a p) (oq K)) →
  sched_inv (without t qk) (set_tasks (<[t := tc']> (tasks K)) K).
Proof.
  intros Hinv Ht Hok Hon Hni Hoff. eapply inv_upd_task; try done.
  - intros t' c Hne. unfold without. by rewrite decide_False.
  - intros a p. unfold without. rewrite decide_True by done. split; [by intros ?%Hoff|naive_solver].
  - intros c Hc Hi. by apply Hni in Hi.
Qed.

(** [without t] is no restriction on a task that does not belong on a queue. *)
Lemma inv_with qk K t tc :
  sched_inv (without t qk) K → tasks K !! t = Some tc →
  ready tc = false ∨ qk t tc = false → sched_inv qk K.
Proof.
  intros Hinv Ht Hno.
  assert (Hw : ∀ x xc, without t qk x xc = true → qk x xc = true)
    by (unfold without; intros x xc; by case_decide).
  apply si_rebuild with (without t qk) K; try done; try apply Hinv.
  - intros a [m Hm]. by eapply si_tops.
  - intros a p x xc Hin Hx. split; [|by left]. apply Hw.
    by apply (si_member _ _ _ _ _ _ Hinv Hx) in Hin as (_ & _ & _ & ?).
  - intros a p x Hin. destruct (si_sound _ _ Hinv _ _ _ Hin) as (? & ? & ?). by eexists.
  - intros x xc Hx Hr Hq. apply (si_complete _ _ Hinv); [done..|]. unfold without.
    case_decide; [|done]. subst. simplify_eq. destruct Hno; congruence.
  - intros c i ic _ _ _. apply Hw.
Qed.

Lemma off_queues qk K t tc : sched_inv qk K → tasks K !! t = Some tc →
  ready tc = false ∨ qk t tc = false → ∀ a p, t ∉ c_get (RQ a p) (oq K).
Proof.
  intros Hinv Ht Hno a p. rewrite (si_member _ _ _ _ _ _ Hinv Ht).
  intros (_ & _ & ? & ?). destruct Hno; congruence.
Qed.

Lemma not_ready_not_idle qk K t tc : sched_inv qk K → tasks K !! t = Some tc →
  ready tc = false ∨ qk t tc = false → not_idle t K.
Proof.
  intros Hinv Ht Hno c Hc Hi.
  destruct (si_idle _ _ Hinv c Hc) as (i & ic & ? & ? & _ & ? & ?). simplify_eq.
  destruct Hno; congruence.
Qed.

(** ** Becoming ready *)

Lemma wp_upd_task K t tc f Φ :
  tasks K !! t = Some tc → Φ tt (set_tasks (<[t := f tc]> (tasks K)) K) → wp (upd_task t f) K Φ.
Proof. intros Ht ?. unfold wp, upd_task. by rewrite Ht. Qed.

Lemma flag_on_set m s : m ≠ 0 → flag_on m (set_flag m s) = true.
Proof.
  intros Hm. unfold flag_on, set_flag. apply negb_true_iff, Z.eqb_neq.
  rewrite Z.land_lor_distr_l, Z.land_diag. intros [_ ?]%Z.lor_eq_0_iff. done.
Qed.

Lemma flag_on_clear m s : 0 ≤ m < 2 ^ 32 → flag_on m (clear_flag m s) = false.
Proof.
  intros Hm. unfold flag_on, clear_flag, u32, wrap. apply negb_false_iff, Z.eqb_eq.
  rewrite <- Z.land_ones by lia.
  apply Z.bits_inj'. intros i Hi. rewrite !Z.land_spec, Z.bits_0, Z.lnot_spec by lia.
  by destruct (Z.testbit m i), (Z.testbit s i), (Z.testbit _ i).
Qed.

Lemma flag_on_clear_ne m m' s : 0 ≤ m < 2 ^ 32 → 0 ≤ m' < 2 ^ 32 → Z.land m m' = 0 →
  flag_on m' (clear_flag m s) = flag_on m' s.
Proof.
  intros Hm Hm' Hd. unfold flag_on, clear_flag, u32, wrap. do 2 f_equal.
  rewrite <- Z.land_ones by lia. apply Z.bits_inj'. intros i Hi. rewrite !Z.land_spec, Z.lnot_spec by lia.
  assert (Hbit : Z.testbit m i && Z.testbit m' i = false) by (rewrite <- Z.land_spec, Hd; apply Z.bits_0).
  destruct (Z.testbit m' i) eqn:E; [|by rewrite !andb_false_r]. rewrite andb_true_r in Hbit.
  rewrite Hbit. destruct (decide (i < 32)); [by rewrite Z.ones_spec_low, !andb_true_r by lia|].
  exfalso. rewrite Z.bits_above_log2 in E; [done|lia|].
  apply Z.lt_le_trans with 32; [|lia]. destruct (decide (m' = 0)) as [->|]; [done|].
  apply Z.log2_lt_pow2; lia.
Qed.

Lemma flag_on_lor m1 m2 s : flag_on (Z.lor m1 m2) s = flag_on m1 s || flag_on m2 s.
Proof.
  unfold flag_on. rewrite Z.land_lor_distr_r.
  apply eq_bool_prop_intro. rewrite !Is_true_true, orb_true_iff, !negb_true_iff, !Z.eqb_neq.
  rewrite Z.lor_eq_0_iff. destruct (decide (Z.land s m1 = 0)), (decide (Z.land s m2 = 0)); naive_solver.
Qed.

Lemma set_tasks_same K : set_tasks (tasks K) K = K.
Proof. by destruct K. Qed.

Lemma wp_set_top_tasks K K' a C T Φ :
  stepped K K' C → is_Some (rq_bitmap a K) →
  (∀ c, a = Some c → ∃ p, 0 ≤ p < 256 ∧ c_get (RQ a p) C ≠ []) →
  (∀ o, top_spec a (oq K') o → Φ tt (set_tasks T (set_cached_top a o K'))) →
  wp (ttosSetHighestPriorityTask a) (set_tasks T K') Φ.
Proof.
  intros [Hoq Hmaps _ Hrest] Hm Hne HΦ. apply (rq_bitmap_rest _ _ K') in Hm as [m Hm]; [|done].
  apply wp_set_top with m.
  - intros a' m' Hm'. apply Hmaps. by destruct a'.
  - by destruct a.
  - simpl. by rewrite Hoq.
  - intros o Ho. replace (set_cached_top a o (set_tasks T K'))
      with (set_tasks T (set_cached_top a o K')) by (by destruct a). by apply HΦ.
Qed.

Lemma wp_set_top_stepped K K' a C Φ :
  stepped K K' C → is_Some (rq_bitmap a K) →
  (∀ c, a = Some c → ∃ p, 0 ≤ p < 256 ∧ c_get (RQ a p) C ≠ []) →
  (∀ o, top_spec a (oq K') o → Φ tt (set_cached_top a o K')) →
  wp (ttosSetHighestPriorityTask a) K' Φ.
Proof.
  intros Hst Hm Hne HΦ. rewrite <- (set_tasks_same K'). eapply wp_set_top_tasks; try done.
  intros o Ho. replace (set_tasks (tasks K') (set_cached_top a o K')) with (set_cached_top a o K')
    by (destruct a; by rewrite <- (set_tasks_same (set_cached_top _ o K')) at 1).
  by apply HΦ.
Qed.

Lemma c_put_nonempty b t q C : c_get q (c_put b t q C) ≠ [].
Proof.
  unfold c_put, c_add_head, c_add_tail. destruct b; rewrite c_get_set_eq; [done|].
  by destruct (c_get q C).
Qed.

(** After a queue step, the fields outside the queues. *)
Lemma after_top K K' C a o : stepped K K' C →
  tasks (set_cached_top a o K') = tasks K ∧
  runningTask (set_cached_top a o K') = runningTask K ∧ oq (set_cached_top a o K') = C ∧
  idleTask (set_cached_top a o K') = idleTask K.
Proof. intros [? _ _ [= ? ? ? ? ? ? ? ?]]. destruct a; simpl; by split_and!. Qed.

Definition made_ready (tc : tcb) : tcb :=
  let tc1 := set_state (set_flag TTOS_TASK_READY (state tc)) tc in
  if queued_kind tc then set_tickSlice (tickSliceSize tc) tc1 else tc1.

(** What [ttosSetTaskReady] does to a task that is neither ready nor suspended. *)
Lemma set_ready_run K t tc :
  kernel_inv K → tasks K !! t = Some tc → c_linked t (oq K) = false →
  flag_on (Z.lor TTOS_TASK_READY TTOS_TASK_SUSPEND) (state tc) = false →
  wp (ttosSetTaskReady t) K (λ _ K', kernel_inv K' ∧
    tasks K' = <[t := made_ready tc]> (tasks K) ∧ runningTask K' = runningTask K ∧
    oq K' = if queued_kind tc then c_add_tail t (RQ (affCpu tc) (taskCurPriority tc)) (oq K)
            else oq K).
Proof.
  intros Hinv Ht Hl Hfl. unfold ttosSetTaskReady. apply wp_bind.
  eapply wp_get_task; [done|]. rewrite Hfl. rewrite flag_on_lor in Hfl.
  apply orb_false_iff in Hfl as [Hnr _].
  apply wp_bind. eapply wp_upd_task; [done|]. unfold made_ready.
  set (tc1 := set_state _ tc). set (K1 := set_tasks _ K).
  assert (Hr1 : ready tc1 = true) by (apply flag_on_set; done).
  assert (Ht1 : tasks K1 !! t = Some tc1) by (unfold K1; simpl; apply lookup_insert_eq).
  assert (Hinv1 : sched_inv (without t (λ _, queued_kind)) K1).
  { eapply inv_upd_off; try done.
    - by destruct (si_tcb_ok _ _ _ _ Hinv Ht).
    - by eapply not_ready_not_idle; [..|left].
    - by apply (off_queues _ _ _ _ Hinv Ht); left. }
  apply wp_bind, wp_when; intros Hk; rewrite ?Hk.
  - destruct (si_bitmap _ _ _ _ Hinv1 Ht1) as [m Hm].
    apply wp_enqueue with m tc1; try done; [apply Hinv1|by apply (si_prio _ _ _ _ Hinv1 Ht1)|].
    intros K2 Hst. assert (HtK2 : tasks K2 = tasks K1) by (by destruct Hst as [_ _ _ [= ->]]).
    apply wp_bind. eapply wp_upd_task; [by rewrite HtK2|]. rewrite HtK2.
    eapply wp_set_top_tasks; [done|by eexists| |].
    { intros c _. exists (taskCurPriority tc). split; [by apply (si_prio _ _ _ _ Hinv Ht)|].
      apply c_put_nonempty. }
    intros o Ho. destruct (after_top _ _ _ (affCpu tc) o Hst) as (Et & Er & Eo & _).
    set (K3 := set_cached_top _ o K2) in *.
    assert (Hinv3 : kernel_inv K3) by (eapply (inv_insert _ K1 t tc1 Ht1 false); try done; by apply stepped_stepped_but).
    set (tc2 := set_tickSlice _ tc1).
    assert (Hinv4 : kernel_inv (set_tasks (<[t := tc2]> (tasks K3)) K3)).
    { by eapply inv_upd_inert; [|rewrite Et| | | |]. }
    rewrite Et in Hinv4.
    eapply wp_mono; [eapply (wp_state_changed _ _ Hinv4 t tc2), lookup_insert_eq|].
    intros [] K' [l ->]. split; [by eapply emitted_inv; [by eexists|]|]. simpl.
    split_and!; [|by rewrite Er|by rewrite Eo]. unfold K1. simpl. by rewrite insert_insert_eq.
  - assert (Hinv2 : kernel_inv K1) by (eapply inv_with; [done..|by right]).
    eapply wp_mono; [by eapply (wp_state_changed _ _ Hinv2)|].
    intros [] K' [l ->]. split; [by eapply emitted_inv; [by eexists|]|]. done.
Qed.

(** ** Leaving the ready state *)

Lemma stepped_tasks K K' T C : stepped (set_tasks T K) K' C →
  stepped K (set_tasks (tasks K) K') C ∧ K' = set_tasks T (set_tasks (tasks K) K').
Proof.
  intros [Hoq Hmaps Htops Hrest]. split; [split; simpl|].
  - done.
  - intros a m Hm. apply Hmaps. by destruct a.
  - intros a. specialize (Htops a). by destruct a.
  - unfold rest in *. simpl in *. congruence.
  - injection Hrest as <-. by destruct K'.
Qed.

Lemma nonempty_after_delete qk K t a : sched_inv qk K → not_idle t K →
  is_Some (rq_bitmap a K) →
  ∀ c, a = Some c → ∃ p, 0 ≤ p < 256 ∧ c_get (RQ a p) (c_delete t (oq K)) ≠ [].
Proof.
  intros Hinv Hni Ha c ->. apply (si_cpus _ _ Hinv) in Ha as Hc.
  destruct (si_nonempty _ _ c Hinv Hc) as (i & p & Hi & Hp & Hin).
  exists p. split; [done|]. assert (Hne : i ≠ t) by (intros ->; by apply Hni in Hi).
  assert (Hin' : i ∈ c_get (RQ (Some c) p) (c_delete t (oq K))) by (by apply elem_of_c_delete).
  intros E. rewrite E in Hin'. by apply not_elem_of_nil in Hin'.
Qed.

Definition made_unready (tc : tcb) : tcb :=
  set_state (clear_flag TTOS_TASK_READY (state tc)) tc.

(** [ttosClearTaskReady] on a task that was ready; its caller may already have
    replaced the state word ([tc1]). *)
Lemma clear_ready_run K t tc tc1 :
  kernel_inv K → tasks K !! t = Some tc → ready tc = true → not_idle t K →
  smpInfo tc1 = smpInfo tc → taskCurPriority tc1 = taskCurPriority tc →
  wp (ttosClearTaskReady t) (set_tasks (<[t := tc1]> (tasks K)) K) (λ _ K', kernel_inv K' ∧
    tasks K' = <[t := made_unready tc1]> (tasks K) ∧ runningTask K' = runningTask K ∧
    idleTask K' = idleTask K ∧
    oq K' = if queued_kind tc then c_delete t (oq K) else oq K).
Proof.
  intros Hinv Ht Hr Hni Hs Hp.
  assert (Ha : affCpu tc1 = affCpu tc) by (unfold affCpu; by rewrite Hs).
  assert (Hqk : queued_kind tc1 = queued_kind tc) by (unfold queued_kind, affCpu, onCpu; by rewrite Hs).
  unfold ttosClearTaskReady. apply wp_bind. eapply wp_get_task; [apply lookup_insert_eq|].
  apply wp_bind. eapply wp_upd_task; [apply lookup_insert_eq|]. rewrite Hqk, Ha, Hp. simpl.
  rewrite insert_insert_eq. set (T := <[t := _]> (tasks K)).
  change (set_tasks T (set_tasks _ K)) with (set_tasks T K).
  set (tc2 := made_unready tc1) in *.
  assert (Hok : tcb_ok (ncpus K) tc2).
  { destruct (si_tcb_ok _ _ _ _ Hinv Ht). unfold tc2, made_unready.
    split; simpl; unfold affCpu, onCpu in *; simpl; rewrite ?Hs, ?Hp; done. }
  assert (Hr2 : ready tc2 = false) by (apply flag_on_clear; done).
  assert (Ho2 : onCpu tc2 = onCpu tc) by (unfold onCpu; simpl; by rewrite Hs).
  assert (Hend : ∀ qk K4, sched_inv qk K4 → (∀ x xc, x ≠ t → qk x xc = queued_kind xc) →
    tasks K4 = tasks K → runningTask K4 = runningTask K → idleTask K4 = idleTask K →
    ncpus K4 = ncpus K → (∀ a p, t ∉ c_get (RQ a p) (oq K4)) →
    wp (ttosTaskStateChanged t false) (set_tasks T K4) (λ _ K', kernel_inv K' ∧
      tasks K' = T ∧ runningTask K' = runningTask K ∧ idleTask K' = idleTask K ∧ oq K' = oq K4)).
  { intros qk K4 Hinv4 Hqk4 Et Er Ei En Hoff.
    assert (Hinv5 : kernel_inv (set_tasks T K4)).
    { eapply inv_with; [|simpl; apply lookup_insert_eq|by left]. unfold T. rewrite <- Et.
      eapply inv_upd_task; [done|by rewrite Et| |done|..].
      - destruct Hok. split; by rewrite ?En.
      - intros x xc Hne. unfold without. rewrite decide_False by done. by rewrite Hqk4.
      - intros a p. unfold without. rewrite decide_True by done.
        split; [by intros ?%Hoff|naive_solver].
      - intros c Hc Hi. rewrite En in Hc. rewrite Ei in Hi. by apply Hni in Hi. }
    eapply wp_mono; [eapply (wp_state_changed _ _ Hinv5), lookup_insert_eq|].
    intros [] K' [l ->]. split; [by eapply emitted_inv; [by eexists|]|]. done. }
  apply wp_bind, wp_when; intros Hk; rewrite ?Hk.
  - assert (Hin : t ∈ c_get (RQ (affCpu tc) (taskCurPriority tc)) (oq K))
      by (by apply (si_complete _ _ Hinv)).
    destruct (si_bitmap _ _ _ _ Hinv Ht) as [m Hm].
    apply wp_dequeue with m.
    + intros a m' Hm'. apply Hinv. by destruct a.
    + by destruct (affCpu tc).
    + by apply (si_prio _ _ _ _ Hinv Ht).
    + apply Hinv.
    + done.
    + intros K3 Hst. apply stepped_tasks in Hst as [Hst ->].
      eapply wp_set_top_tasks; [done|by eexists|
        apply (nonempty_after_delete _ K t _ Hinv Hni); by eexists|].
      intros o Ho. destruct (after_top _ _ _ (affCpu tc) o Hst) as (Et & Er & Eo & Ei).
      simpl in Eo. eapply wp_mono; [eapply Hend|].
      * by eapply inv_remove.
      * intros x xc Hx. unfold without. by rewrite decide_False.
      * done.
      * done.
      * done.
      * destruct Hst as [_ _ _ Hrest]. rewrite <- (rest_set_cached_top (affCpu tc) o) in Hrest.
        by injection Hrest.
      * intros a p. rewrite Eo, elem_of_c_delete. naive_solver.
      * simpl. intros _ K' (? & ? & ? & ? & ->). by rewrite Eo.
  - eapply wp_mono; [eapply (Hend (λ _, queued_kind) K); try done|done].
    by apply (off_queues _ _ _ _ Hinv Ht); right.
Qed.

Lemma top_exists a m K :
  maps_ok K → rq_bitmap a K = Some m →
  (∀ c, a = Some c → ∃ p, 0 ≤ p < 256 ∧ c_get (RQ a p) (oq K) ≠ []) →
  ∃ o, top_spec a (oq K) o.
Proof.
  intros Hmaps Hm Hne.
  assert (Hwp : wp (ttosSetHighestPriorityTask a) K (λ _ _, ∃ o, top_spec a (oq K) o))
    by (eapply wp_set_top; eauto).
  apply wp_run in Hwp as (? & ? & _ & ?). done.
Qed.

(** Taking a task off its queue, with a cached head computed for the
    remaining tasks: the state between the two halves of a priority change. *)
Lemma inv_taken qk K K2 t tc tc1 :
  sched_inv qk K → tasks K !! t = Some tc → not_idle t K →
  t ∈ c_get (RQ (affCpu tc) (taskCurPriority tc)) (oq K) →
  tcb_ok (ncpus K) tc1 → onCpu tc1 = onCpu tc →
  stepped (set_tasks (<[t := tc1]> (tasks K)) K) K2 (c_delete t (oq K)) →
  ∃ o, sched_inv (without t qk) (set_cached_top (affCpu tc) o K2).
Proof.
  intros Hinv Ht Hni Hin Hok Hon Hst. apply stepped_tasks in Hst as [Hst ->].
  destruct (si_bitmap _ _ _ _ Hinv Ht) as [m Hm].
  set (K3 := set_tasks (tasks K) K2) in *.
  assert (Hm3 : is_Some (rq_bitmap (affCpu tc) K3)) by (eapply rq_bitmap_rest; [apply Hst|by eexists]).
  destruct Hm3 as [m3 Hm3].
  destruct (top_exists (affCpu tc) m3 K3) as [o Ho]; [apply Hst|done| |].
  { intros c Hc. rewrite (sp_oq _ _ _ Hst). by eapply nonempty_after_delete; [..|by eexists|]. }
  exists o. pose proof (inv_remove qk K t tc K3 o Hinv Hni Hin Hst Ho) as Hinv3.
  replace (set_cached_top _ o (set_tasks _ K3))
    with (set_tasks (<[t := tc1]> (tasks K)) (set_cached_top (affCpu tc) o K3))
    by (by destruct (affCpu tc)).
  destruct (after_top _ _ _ (affCpu tc) o Hst) as (Et & Er & Eo & Ei).
  assert (En : ncpus (set_cached_top (affCpu tc) o K3) = ncpus K).
  { destruct Hst as [_ _ _ Hrest]. rewrite <- (rest_set_cached_top (affCpu tc) o) in Hrest.
    by injection Hrest. }
  rewrite <- Et. eapply inv_upd_task; [done|by rewrite Et| |done| | |].
  - destruct Hok. split; by rewrite ?En.
  - done.
  - intros a p. rewrite Eo, elem_of_c_delete. unfold without. rewrite decide_True by done. naive_solver.
  - intros c Hc Hi. rewrite En in Hc. rewrite Ei in Hi. by apply Hni in Hi.
Qed.

(** ** Changing a priority *)

(** A ready task's move to the queue of its new priority: [tc1] is its control block
    with that priority. *)
Lemma requeue_run K t tc tc1 prepend :
  kernel_inv K → tasks K !! t = Some tc → not_idle t K → ready tc = true → queued_kind tc = true →
  tcb_ok (ncpus K) tc1 → smpInfo tc1 = smpInfo tc → ready tc1 = true →
  let q := RQ (affCpu tc) (taskCurPriority tc1) in
  wp (_ ← obj_delete t;
      e ← ttosReadyQueueIsEmpty (affCpu tc) (taskCurPriority tc);
      _ ← whenM e (clear_priority_bit (affCpu tc) (taskCurPriority tc));
      _ ← set_priority_bit (affCpu tc) (taskCurPriority tc1);
      _ ← ttosReadyQueuePut t prepend;
      ttosSetHighestPriorityTask (affCpu tc)) (set_tasks (<[t := tc1]> (tasks K)) K) (λ _ K', kernel_inv K' ∧
    tasks K' = <[t := tc1]> (tasks K) ∧ runningTask K' = runningTask K ∧
    oq K' = c_put prepend t q (c_delete t (oq K))).
Proof.
  intros Hinv Ht Hni Hr Hk Hok Hs Hr1 q. set (T := <[t := tc1]> (tasks K)).
  assert (Ea : affCpu tc1 = affCpu tc) by (unfold affCpu; by rewrite Hs).
  assert (Hk1 : queued_kind tc1 = true) by (unfold queued_kind, affCpu, onCpu in *; by rewrite Hs).
  assert (Hin : t ∈ c_get (RQ (affCpu tc) (taskCurPriority tc)) (oq K))
    by (by apply (si_complete _ _ Hinv)).
  destruct (si_bitmap _ _ _ _ Hinv Ht) as [m Hm].
  apply wp_dequeue with m.
  - intros a m' Hm'. apply Hinv. by destruct a.
  - by destruct (affCpu tc).
  - by apply (si_prio _ _ _ _ Hinv Ht).
  - apply Hinv.
  - done.
  - intros K2 Hst.
    assert (Eon : onCpu tc1 = onCpu tc) by (unfold onCpu; by rewrite Hs).
    destruct (inv_taken _ _ K2 _ _ tc1 Hinv Ht Hni Hin Hok Eon Hst) as [o2 Hinv2].
    destruct (after_top _ _ _ (affCpu tc) o2 Hst) as (Et2 & Er2 & Eo2 & _).
    destruct (si_bitmap _ _ t tc1 Hinv2) as [m2 Hm2]; [rewrite Et2; apply lookup_insert_eq|].
    rewrite Ea, rq_bitmap_set_cached_top in Hm2.
    assert (HtK2 : tasks K2 = T) by (by destruct Hst as [_ _ _ [= ->]]).
    apply wp_enqueue with m2 tc1; try done.
    + apply Hst.
    + apply Hok.
    + rewrite (sp_oq _ _ _ Hst). apply c_linked_delete.
    + rewrite HtK2. apply lookup_insert_eq.
    + intros K3 Hst3. eapply wp_set_top_stepped; [done|by eexists| |].
      { intros c _. exists (taskCurPriority tc1). split; [apply Hok|apply c_put_nonempty]. }
      intros o Ho.
      assert (Hbut : stepped_but (affCpu tc) (set_cached_top (affCpu tc) o2 K2) K3
        (c_put prepend t q (oq K2))).
      { destruct Hst3 as [? ? Htops ?]. split_and!; [done|done| |by rewrite rest_set_cached_top].
        intros a' Hne. rewrite Htops, cached_top_set. by rewrite decide_False. }
      destruct (after_top _ _ _ (affCpu tc) o Hst3) as (Et3 & Er3 & Eo3 & _). split_and!.
      * rewrite <- Ea in Hbut, Ho |- *.
        apply (inv_insert _ (set_cached_top (affCpu tc1) o2 K2) t tc1) with prepend; rewrite ?Ea; try done.
        -- rewrite Et2. apply lookup_insert_eq.
        -- rewrite Eo2. apply c_linked_delete.
        -- rewrite oq_set_cached_top. by rewrite Ea in Hbut.
        -- by rewrite <- Ea.
      * by rewrite Et3.
      * rewrite Er3. by destruct Hst as [_ _ _ [= _ ->]].
      * by rewrite Eo3, (sp_oq _ _ _ Hst).
Qed.

(** Announcing a change of a task leaves all but the interrupts as it is. *)
Lemma announce_run K T t tc1 : kernel_inv K → tasks K = T → T !! t = Some tc1 →
  wp (ttosTaskStateChanged t true) K (λ _ K', kernel_inv K' ∧ tasks K' = T ∧
    runningTask K' = runningTask K ∧ oq K' = oq K).
Proof.
  intros Hinv Et Ht. eapply wp_mono; [eapply (wp_state_changed _ _ Hinv t tc1); by rewrite Et|].
  intros [] K' [l ->]. split; [by eapply emitted_inv; [by eexists|]|]. done.
Qed.

(** A task that is on no ready queue takes a new priority. *)
Lemma inv_new_priority K t tc tc1 :
  kernel_inv K → tasks K !! t = Some tc → not_idle t K → tcb_ok (ncpus K) tc1 → smpInfo tc1 = smpInfo tc →
  ready tc1 = ready tc → ready tc && queued_kind tc = false → kernel_inv (set_tasks (<[t := tc1]> (tasks K)) K).
Proof.
  intros Hinv Ht Hni Hok Hs Hr Hf%andb_false_iff.
  eapply inv_with; [|apply lookup_insert_eq|].
  - eapply inv_upd_off; try done; [unfold onCpu; by rewrite Hs|by apply (off_queues _ _ _ _ Hinv Ht)].
  - unfold queued_kind, affCpu, onCpu. by rewrite Hs, Hr.
Qed.

Definition with_priority (p : Z) (tc : tcb) : tcb :=
  set_taskCurPriority p (set_taskPriority p tc).

Lemma set_priority_run K t tc p prepend :
  kernel_inv K → tasks K !! t = Some tc → not_idle t K → 0 ≤ p < 256 →
  ready tc = negb (flag_on TTOS_TASK_NONRUNNING_STATE (state tc)) →
  wp (TTOS_SetTaskPriority t p prepend) K (λ r K', r = TTOS_OK ∧ kernel_inv K' ∧
    tasks K' = <[t := with_priority p tc]> (tasks K) ∧ runningTask K' = runningTask K ∧
    oq K' = if ready tc && queued_kind tc
            then c_put prepend t (RQ (affCpu tc) p) (c_delete t (oq K)) else oq K).
Proof.
  intros Hinv Ht Hni Hp Hrun. unfold TTOS_SetTaskPriority. apply wp_bind.
  eapply wp_get_task; [done|]. apply wp_bind. eapply wp_upd_task; [done|].
  change (set_taskCurPriority p (set_taskPriority p tc)) with (with_priority p tc).
  set (tc1 := with_priority p tc). rewrite <- Hrun.
  assert (Hok : tcb_ok (ncpus K) tc1) by (destruct (si_tcb_ok _ _ _ _ Hinv Ht); by split).
  assert (Hoff : ready tc && queued_kind tc = false → kernel_inv (set_tasks (<[t := tc1]> (tasks K)) K))
    by (by apply inv_new_priority).
  apply wp_bind, wp_when; intros Hr; rewrite Hr in *; simpl in *; [|by apply wp_ret; split_and!; auto].
  apply wp_bind, wp_when; intros Hk; rewrite Hk in *.
  - eapply wp_mono; [by apply (requeue_run K t tc tc1 prepend)|]. intros [] K1 (Hi1 & Et1 & Er1 & Eo1).
    eapply wp_mono; [apply (announce_run K1 _ t tc1 Hi1 Et1); apply lookup_insert_eq|].
    intros [] K2 (? & ? & Er2 & Eo2). apply wp_ret. split_and!; try done; [by rewrite Er2|by rewrite Eo2].
  - eapply wp_mono; [apply (announce_run _ _ t tc1 (Hoff eq_refl) eq_refl); apply lookup_insert_eq|].
    intros [] K2 (? & ? & ? & ?). apply wp_ret. by split_and!.
Qed.

(** ** Round robin *)

Definition rotated (t : tid) (q : oqid) (C : gmap oqid (list tid)) :=
  c_add_tail t q (c_delete t C).

Lemma get_rotated t q q' C : t ∈ c_get q C → c_wf C →
  c_get q' (rotated t q C) =
    if decide (q = q') then filter (λ x, x ≠ t) (c_get q C) ++ [t] else c_get q' C.
Proof.
  intros Hin Hwf. unfold rotated, c_add_tail. rewrite c_get_set, c_get_delete.
  case_decide as E; [done|]. apply c_get_delete_fresh. intros Hin'.
  by apply E, (c_disj _ Hwf _ _ t).
Qed.

Lemma elem_of_rotated t q q' C x : t ∈ c_get q C → c_wf C →
  x ∈ c_get q' (rotated t q C) ↔ x ∈ c_get q' C.
Proof.
  intros Hin Hwf. rewrite get_rotated by done. case_decide; [subst|done].
  rewrite elem_of_app, list_elem_of_filter, list_elem_of_singleton.
  destruct (decide (x = t)) as [->|]; naive_solver.
Qed.

Lemma rotated_maps_ok t a p K : t ∈ c_get (RQ a p) (oq K) → c_wf (oq K) → maps_ok K →
  maps_ok (set_oq (rotated t (RQ a p) (oq K)) K).
Proof.
  intros Hin Hwf Hmaps a' m Hm. rewrite rq_bitmap_set_oq in Hm.
  destruct (Hmaps _ _ Hm) as [? Hb]. split; [done|]. intros p' Hp'. rewrite Hb by done. simpl.
  assert (Hmem : ∀ x, x ∈ c_get (RQ a' p') (rotated t (RQ a p) (oq K)) ↔ x ∈ c_get (RQ a' p') (oq K))
    by (intros x; by apply elem_of_rotated).
  destruct (c_get (RQ a' p') (oq K)) as [|y ys], (c_get (RQ a' p') (rotated _ _ _)) as [|z zs]; try done.
  - by destruct (proj1 (elem_of_nil z) (proj1 (Hmem z) (list_elem_of_here _ _))).
  - by destruct (proj1 (elem_of_nil y) (proj2 (Hmem y) (list_elem_of_here _ _))).
Qed.

(** A bound task with a successor on its queue goes to the tail; an unbound
    running task is marked when somebody waits at its priority. *)
Lemma rotate_run K t tc c :
  kernel_inv K → tasks K !! t = Some tc → ready tc = true → onCpu tc = Some c →
  wp (ttosRotateRunningTask t) K (λ _ K', kernel_inv K' ∧ runningTask K' = runningTask K ∧
    let q := RQ (affCpu tc) (taskCurPriority tc) in
    match affCpu tc with
    | None => oq K' = oq K ∧
        tasks K' = if c_is_empty q (oq K) then tasks K
                   else <[t := upd_smp (set_isRotated true) tc]> (tasks K)
    | Some _ => tasks K' = tasks K ∧
        oq K' = if bool_decide (c_next t q (oq K) = None) then oq K else rotated t q (oq K)
    end).
Proof.
  intros Hinv Ht Hr Hon. unfold ttosRotateRunningTask. apply wp_bind.
  eapply wp_get_task; [done|]. cbv zeta. destruct (affCpu tc) as [a|] eqn:Ea.
  - assert (Hin : t ∈ c_get (RQ (Some a) (taskCurPriority tc)) (oq K)).
    { rewrite <- Ea. apply (si_complete _ _ Hinv); [done..|]. unfold queued_kind. by rewrite Ea. }
    apply wp_bind, wp_gets. destruct (c_next _ _ _) as [n|] eqn:En.
    2: { rewrite !bool_decide_false by naive_solver. apply wp_ret. by rewrite bool_decide_true. }
    rewrite (bool_decide_true (Some n ≠ None)), (bool_decide_false (Some n = None)) by done.
    destruct (si_bitmap _ _ _ _ Hinv Ht) as [m Hm]. rewrite Ea in Hm.
    unfold whenM at 1, obj_delete, obj_add_tail.
    apply wp_bind, wp_bind, wp_gets, wp_bind, wp_assert; [apply c_linked_spec; eauto|]. apply wp_modify.
    apply wp_bind, wp_bind, wp_gets, wp_bind, wp_assert; [simpl; by rewrite c_linked_delete|].
    apply wp_modify. set (K1 := set_oq (rotated t (RQ (Some a) (taskCurPriority tc)) (oq K)) K).
    match goal with |- wp ?m _ ?Φ => change (wp m K1 Φ) end.
    apply wp_bind, wp_set_top with m; [apply rotated_maps_ok; [done|apply Hinv..]|done| |].
    { intros c' _. exists (taskCurPriority tc). split; [by eapply si_prio|].
      apply (c_put_nonempty false). }
    intros o Ho. set (K2 := set_cached_top (Some a) o K1).
    assert (Hmem : ∀ q x, x ∈ c_get q (oq K2) ↔ x ∈ c_get q (oq K))
      by (intros q x; apply elem_of_rotated; [done|apply Hinv]).
    assert (Hinv2 : kernel_inv K2).
    { apply si_rebuild with (λ _, queued_kind) K; try done.
      - pose proof (si_wf _ _ Hinv). unfold K2, K1, rotated. simpl. eauto with chains.
      - intros a' m'. unfold K2. rewrite rq_bitmap_set_cached_top.
        apply rotated_maps_ok; [done|apply Hinv..].
      - intros a' [m' Hm']. unfold K2. rewrite cached_top_set. case_decide as E; [by subst a'|].
        unfold K1. rewrite cached_top_set_oq. eapply top_spec_ext.
        2: { apply (si_tops _ _ Hinv a' m'). unfold K2, K1 in Hm'.
             by rewrite rq_bitmap_set_cached_top, rq_bitmap_set_oq in Hm'. }
        intros p. simpl. rewrite get_rotated by (done || apply Hinv). by rewrite decide_False by congruence.
      - intros a' p x xc Hx Hxc. apply Hmem in Hx. split; [|by left].
        by apply (si_member _ _ _ _ _ _ Hinv Hxc) in Hx as (_ & _ & _ & ?).
      - intros a' p x Hx. apply Hmem in Hx.
        destruct (si_sound _ _ Hinv _ _ _ Hx) as (? & ? & ?). by eexists.
      - intros x xc Hx Hrx Hqx. apply Hmem. by apply (si_complete _ _ Hinv). }
    apply wp_bind. unfold ttosIsRunningTask, ttosGetRunningTask. apply wp_bind, wp_bind, wp_gets.
    eapply (wp_running _ K2 Hinv2); [apply (si_this _ _ Hinv2)|]. intros r rc _ _. apply wp_ret.
    apply wp_when; intros _; [|done]. eapply wp_mono; [apply wp_emit|].
    intros _ K' [l ->]. split; [by eapply emitted_inv; [by eexists|]|]. done.
  - apply wp_bind, wp_gets. destruct (c_is_empty _ _); [by apply wp_ret|].
    apply wp_bind. eapply wp_upd_task; [done|].
    set (tc' := upd_smp (set_isRotated true) tc). set (K1 := set_tasks _ K).
    assert (Hinv1 : kernel_inv K1).
    { eapply inv_upd_task; try done.
      - destruct (si_task _ _ Hinv _ _ Ht). split; try done. intros _.
        split; [done|]. by rewrite (Hon : onCpu tc' = _).
      - intros a p. apply (si_member _ _ _ _ _ _ Hinv Ht).
      - intros c' Hc' Hi. destruct (si_idle _ _ Hinv c' Hc') as (i & ic & ? & ? & ? & _). congruence. }
    apply wp_bind. unfold ttosIsRunningTask, ttosGetRunningTask. apply wp_bind, wp_bind, wp_gets.
    eapply (wp_running _ K1 Hinv1); [apply (si_this _ _ Hinv1)|]. intros r rc _ _. apply wp_ret.
    apply wp_when; intros _; [|done]. eapply wp_mono; [apply wp_emit|].
    intros _ K' [l ->]. split; [by eapply emitted_inv; [by eexists|]|]. done.
Qed.

(** ** A new task *)

Lemma inv_new_task qk K t tc :
  sched_inv qk K → tasks K !! t = None → tcb_ok (ncpus K) tc → ready tc = false →
  onCpu tc = None → sched_inv qk (set_tasks (<[t := tc]> (tasks K)) K).
Proof.
  intros Hinv Ht Hok Hr Ho. split; simpl; try apply Hinv.
  - intros a p x Hin. destruct (si_sound _ _ Hinv _ _ _ Hin) as (xc & ? & ?).
    exists xc. by rewrite lookup_insert_ne by congruence.
  - intros x xc [[<- <-]|[Hne Hx]]%lookup_insert_Some Hrx Hq; [congruence|].
    by apply (si_complete _ _ Hinv).
  - intros x xc [[<- <-]|[Hne Hx]]%lookup_insert_Some; [done|]. by apply (si_task _ _ Hinv x).
  - intros c Hc. destruct (si_run _ _ Hinv c Hc) as (r & rc & Hrr & Hrc & Hon).
    exists r, rc. by rewrite lookup_insert_ne by congruence.
  - intros x xc c [[<- <-]|[Hne Hx]]%lookup_insert_Some Hc; [congruence|].
    by apply (si_oncpu _ _ Hinv x xc).
  - intros c Hc. destruct (si_idle _ _ Hinv c Hc) as (i & ic & ? & ? & ?).
    exists i, ic. by rewrite lookup_insert_ne by congruence.
  - apply (si_cpus _ _ Hinv), (si_this _ _ Hinv).
Qed.
