(* ===== verification/Dispatch.v ===== *)
(** * The switch loop: candidate, context switch, convergence

    Over the invariant of [SchedInv]: the candidate is an eligible task of the
    best priority, a switch keeps every task on at most one CPU, and the loop
    of [ttosTaskSchedule] stops after at most two switches with the candidate
    running. *)

From S2P Require Import Prelude Chain PrioMap Kernel Sched SchedInv.
Import Width.
Local Open Scope Z_scope.

(** ** The control blocks of a switch *)

Definition switched_in (c : cpuid) (nc : tcb) : tcb := upd_smp (set_cpuIndex (Some c)) nc.

(** [ttosGTaskRQueuePut]'s changes to the unbound task that leaves a CPU. *)
Definition put_fields (oc : tcb) : tcb :=
  if bool_decide (affCpu oc ≠ None) then oc
  else
    let oc := upd_smp (set_isRotated false) oc in
    if isChangedToPrivate (smpInfo oc)
    then upd_smp (λ s,
        set_gRunTaskAffinityCpuIndex None
          (set_isChangedToPrivate false
            (set_affinityCpuIndex (gRunTaskAffinityCpuIndex s)
              (set_affinity (gRunTaskAffinity s) s)))) oc
    else oc.

Definition switched_out (oc : tcb) : tcb := put_fields (upd_smp (set_cpuIndex None) oc).

(** The queue membership during the switch: the incoming task is still queued,
    the outgoing one only if it is bound. *)
Definition mid_kind (new : tid) (x : tid) (xc : tcb) : bool :=
  bool_decide (x = new) || queued_kind xc.

(** ** Small facts *)

Lemma sched_inv_ext qk qk' K :
  sched_inv qk K → (∀ x xc, tasks K !! x = Some xc → qk x xc = qk' x xc) → sched_inv qk' K.
Proof.
  intros Hinv Hext. apply si_rebuild with qk K; try done; try apply Hinv.
  - intros a [m Hm]. by eapply si_tops.
  - intros a p x xc Hin Hx. rewrite <- Hext by done. split; [|by left].
    by apply (si_member _ _ _ _ _ _ Hinv Hx) in Hin as (_ & _ & _ & ?).
  - intros a p x Hin. destruct (si_sound _ _ Hinv _ _ _ Hin) as (? & ? & ?). by eexists.
  - intros x xc Hx Hr Hq. rewrite <- Hext in Hq by done. by apply (si_complete _ _ Hinv).
  - intros c i ic _ _ Hi ?. by rewrite <- Hext.
Qed.

Lemma switched_out_prio oc : taskCurPriority (switched_out oc) = taskCurPriority oc.
Proof.
  unfold switched_out, put_fields. case_bool_decide; [done|]. by destruct (isChangedToPrivate _).
Qed.

Lemma switched_out_state oc : state (switched_out oc) = state oc.
Proof.
  unfold switched_out, put_fields. case_bool_decide; [done|]. by destruct (isChangedToPrivate _).
Qed.

Lemma switched_out_off oc : onCpu (switched_out oc) = None.
Proof.
  unfold switched_out, put_fields. case_bool_decide; [done|]. by destruct (isChangedToPrivate _).
Qed.

Lemma switched_out_aff oc : isChangedToPrivate (smpInfo oc) = false →
  affCpu (switched_out oc) = affCpu oc.
Proof.
  intros Hp. unfold switched_out, put_fields. case_bool_decide; [done|]. simpl. by rewrite Hp.
Qed.

Lemma switched_out_bound oc a : tcb_ok a oc → affCpu oc ≠ None →
  switched_out oc = upd_smp (set_cpuIndex None) oc.
Proof. intros Hok Ha. unfold switched_out, put_fields. by rewrite bool_decide_true. Qed.

Lemma switched_out_ok n oc : tcb_ok n oc → tcb_ok n (switched_out oc).
Proof.
  intros [Hp Ha Hg Hb Hpr Hro]. split.
  - by rewrite switched_out_prio.
  - unfold switched_out, put_fields. case_bool_decide; [done|]. simpl.
    by destruct (isChangedToPrivate _).
  - unfold switched_out, put_fields. case_bool_decide; [done|]. simpl.
    by destruct (isChangedToPrivate _).
  - intros a c _. by rewrite switched_out_off.
  - unfold switched_out, put_fields. case_bool_decide as Hn.
    + intros Hp'. by destruct (Hpr Hp') as [? _].
    + simpl. by destruct (isChangedToPrivate (smpInfo oc)) eqn:E; simpl; rewrite ?E.
  - unfold switched_out, put_fields. case_bool_decide as Hn.
    + intros Hro'. by destruct (Hro Hro') as [? _].
    + simpl. by destruct (isChangedToPrivate (smpInfo oc)).
Qed.

(** ** The handover of the CPU *)

Section Swap.
Context (K : kernel) (c : cpuid) (old new : tid) (oc nc : tcb).
Hypothesis Hinv : kernel_inv K.
Hypothesis Hrun : runningTask K !! c = Some old.
Hypothesis Hoc : tasks K !! old = Some oc.
Hypothesis Hnc : tasks K !! new = Some nc.
Hypothesis Hne : new ≠ old.
Hypothesis Hnoff : onCpu nc = None.
Hypothesis Hnaff : ∀ a, affCpu nc = Some a → a = c.
Hypothesis Hc : (c < ncpus K)%nat.

Definition swapped : kernel :=
  set_tasks (<[old := switched_out oc]> (<[new := switched_in c nc]> (tasks K)))
    (set_runningTask (<[c := new]> (runningTask K)) K).

Lemma old_on_c : onCpu oc = Some c.
Proof.
  destruct (si_run _ _ Hinv c Hc) as (r & rc & Hr & Hrc & Hon). by simplify_eq.
Qed.

Lemma lookup_swapped x xc : tasks swapped !! x = Some xc ↔
  (x = old ∧ xc = switched_out oc) ∨ (x = new ∧ xc = switched_in c nc) ∨
  (x ≠ old ∧ x ≠ new ∧ tasks K !! x = Some xc).
Proof.
  simpl. rewrite !lookup_insert_Some. naive_solver.
Qed.

Lemma swapped_ok x xc : tasks swapped !! x = Some xc → tcb_ok (ncpus K) xc.
Proof.
  intros [[-> ->]|[[-> ->]|(_ & _ & Hx)]]%lookup_swapped.
  - eapply switched_out_ok, (si_task _ _ Hinv), Hoc.
  - destruct (si_task _ _ Hinv _ _ Hnc) as [? ? ? ? Hpr Hro]. split; try done.
    + intros a c' Ha [= <-]. by rewrite (Hnaff a Ha).
    + intros [_ ?]%Hpr. done.
    + intros [_ ?]%Hro. done.
  - by eapply (si_task _ _ Hinv).
Qed.

(** Bound or not, the outgoing task is on the queues it was on before. *)
Lemma swapped_inv :
  sched_inv (λ x xc, if decide (x = old) then bool_decide (affCpu oc ≠ None)
                     else mid_kind new x xc) swapped.
Proof.
  pose proof old_on_c as Hon.
  assert (Hkind : queued_kind oc = bool_decide (affCpu oc ≠ None)).
  { unfold queued_kind. rewrite Hon. by rewrite orb_false_r. }
  assert (Hnk : queued_kind nc = true).
  { unfold queued_kind. rewrite Hnoff. by rewrite orb_true_r. }
  assert (Hob : affCpu oc ≠ None → affCpu (switched_out oc) = affCpu oc).
  { intros Ha. by rewrite (switched_out_bound oc (ncpus K)) by (done || by eapply (si_task _ _ Hinv)). }
  split; simpl; try apply Hinv.
  - intros a p x Hin. destruct (si_sound _ _ Hinv _ _ _ Hin) as (xc & Hx & Ha & Hp & Hr & Hq).
    destruct (decide (x = old)) as [->|Hxo].
    + exists (switched_out oc). rewrite lookup_insert_eq. simplify_eq.
      rewrite Hkind in Hq. apply bool_decide_eq_true in Hq as Hq'.
      rewrite switched_out_prio, Hob by done. unfold ready. by rewrite switched_out_state.
    + rewrite lookup_insert_ne by done. unfold mid_kind. destruct (decide (x = new)) as [->|Hxn].
      * exists (switched_in c nc). rewrite lookup_insert_eq, bool_decide_true by done.
        simplify_eq. done.
      * exists xc. rewrite lookup_insert_ne, bool_decide_false by done. done.
  - intros x xc Hx Hr Hq. change (tasks swapped !! x = Some xc) in Hx.
    apply lookup_swapped in Hx as [[-> ->]|[[-> ->]|(Hxo & Hxn & Hx)]].
    + rewrite decide_True in Hq by done. apply bool_decide_eq_true in Hq as Hq'.
      rewrite switched_out_prio, Hob by done. unfold ready in Hr. rewrite switched_out_state in Hr.
      apply (si_complete _ _ Hinv); [done..|]. by rewrite Hkind.
    + apply (si_complete _ _ Hinv new nc); done.
    + rewrite decide_False in Hq by done. unfold mid_kind in Hq.
      rewrite bool_decide_false in Hq by done. by apply (si_complete _ _ Hinv).
  - apply swapped_ok.
  - intros c' Hc'. destruct (decide (c' = c)) as [->|Hcc].
    + exists new, (switched_in c nc). by rewrite lookup_insert_eq, lookup_insert_ne, lookup_insert_eq.
    + destruct (si_run _ _ Hinv c' Hc') as (r & rc & Hr & Hrc & Hon').
      exists r, rc. rewrite lookup_insert_ne by done. split; [done|]. split; [|done].
      apply lookup_swapped. right. right. split_and!; [congruence..|done].
  - intros x xc c' Hx Hon'. change (tasks swapped !! x = Some xc) in Hx.
    apply lookup_swapped in Hx as [[-> ->]|[[-> ->]|(Hxo & Hxn & Hx)]].
    + by rewrite switched_out_off in Hon'.
    + injection Hon' as <-. by rewrite lookup_insert_eq.
    + destruct (si_oncpu _ _ Hinv _ _ _ Hx Hon') as [Hr ?].
      rewrite lookup_insert_ne; [done|]. congruence.
  - intros c' Hc'. destruct (si_idle _ _ Hinv c' Hc') as (i & ic & Hi & Hic & Hia & Hir & Hiq).
    exists i. destruct (decide (i = old)) as [->|Hio].
    + exists (switched_out oc). rewrite lookup_insert_eq. simplify_eq.
      rewrite Hob by congruence. unfold ready. rewrite switched_out_state.
      rewrite bool_decide_true by congruence. done.
    + rewrite lookup_insert_ne by done. unfold mid_kind. destruct (decide (i = new)) as [->|Hin].
      * exists (switched_in c nc). rewrite lookup_insert_eq, bool_decide_true by done.
        simplify_eq. done.
      * exists ic. by rewrite lookup_insert_ne, bool_decide_false.
  - apply (si_cpus _ _ Hinv), (si_this _ _ Hinv).
Qed.

End Swap.

(** ** Putting the outgoing unbound task back, taking the incoming one off *)

(** The fields of the state that neither operation changes. *)
Definition same_env (K K' : kernel) : Prop :=
  runningTask K' = runningTask K ∧ idleTask K' = idleTask K ∧ ncpus K' = ncpus K ∧
  cpus_enabled K' = cpus_enabled K ∧ cpus_reserved K' = cpus_reserved K ∧
  ttosDisableScheduleLevel K' = ttosDisableScheduleLevel K.

Lemma put_unbound_run qk K t tc :
  tasks K !! t = Some tc → affCpu tc = None →
  sched_inv (without t qk) (set_tasks (<[t := put_fields tc]> (tasks K)) K) →
  qk t (put_fields tc) = true →
  (ready tc = true → c_linked t (oq K) = false) →
  wp (ttosGTaskRQueuePut t) K (λ _ K', sched_inv qk K' ∧
    tasks K' = <[t := put_fields tc]> (tasks K) ∧
    oq K' = (if ready tc
             then c_add_tail t (RQ (affCpu (put_fields tc)) (taskCurPriority tc)) (oq K)
             else oq K) ∧ rest K' = rest (set_tasks (tasks K') K)).
Proof.
  intros Ht Ha Hinv Hq Hl. unfold ttosGTaskRQueuePut. apply wp_bind.
  eapply wp_get_task; [done|]. rewrite Ha, bool_decide_false by naive_solver.
  set (tc' := put_fields tc) in *. set (K1 := set_tasks (<[t := tc']> _) K) in *.
  assert (Hfields : ∀ (k : M kernel unit) Φ, wp k K1 Φ →
    wp (_ ← upd_task t (upd_smp (set_isRotated false));
        _ ← whenM (isChangedToPrivate (smpInfo tc)) (upd_task t (upd_smp (λ s,
          set_gRunTaskAffinityCpuIndex None
            (set_isChangedToPrivate false
              (set_affinityCpuIndex (gRunTaskAffinityCpuIndex s)
                (set_affinity (gRunTaskAffinity s) s)))))); k) K Φ).
  { intros k Φ Hk. apply wp_bind. eapply wp_upd_task; [done|]. apply wp_bind.
    unfold K1, tc', put_fields in Hk. rewrite Ha, bool_decide_false in Hk by naive_solver.
    simpl in Hk. apply wp_when; intros Hp; rewrite Hp in Hk; [|done].
    eapply wp_upd_task; [apply lookup_insert_eq|]. simpl. by rewrite insert_insert_eq. }
  assert (Hst' : state tc' = state tc ∧ taskCurPriority tc' = taskCurPriority tc).
  { unfold tc', put_fields. case_bool_decide; [done|]. by destruct (isChangedToPrivate _). }
  destruct Hst' as [Hst' Hpr'].
  assert (Ht1 : tasks K1 !! t = Some tc') by apply lookup_insert_eq.
  apply Hfields. clear Hfields. apply wp_bind. eapply wp_get_task; [done|].
  fold (ready tc'). assert (Hr' : ready tc' = ready tc) by (unfold ready; by rewrite Hst').
  rewrite Hr'. destruct (ready tc) eqn:Hr; simpl.
  2: { apply wp_ret. split_and!; [|done..]. by eapply inv_with; [..|left]. }
  destruct (si_bitmap _ _ _ _ Hinv Ht1) as [m Hm].
  apply wp_enqueue with m tc'; try done; [apply Hinv|by apply (si_prio _ _ _ _ Hinv Ht1)|by apply Hl|].
  intros K2 Hst. apply wp_bind. eapply wp_set_top_stepped; [done|by eexists| |].
  { intros c' _. exists (taskCurPriority tc'). split; [by apply (si_prio _ _ _ _ Hinv Ht1)|].
    apply c_put_nonempty. }
  intros o Ho. destruct (after_top _ _ _ (affCpu tc') o Hst) as (Et & _ & Eo & _).
  assert (Hrest : rest (set_cached_top (affCpu tc') o K2) = rest K1)
    by (rewrite rest_set_cached_top; apply Hst).
  set (K3 := set_cached_top _ o K2) in *.
  assert (Hinv3 : sched_inv qk K3).
  { eapply (inv_insert _ K1 t tc' Ht1 false); try done; [by apply Hl|by apply stepped_stepped_but]. }
  assert (Ht3 : tasks K3 !! t = Some tc') by (by rewrite Et).
  assert (Hend : ∀ m, wp m K3 (λ (_ : unit) K', emitted K3 K') →
    wp m K3 (λ _ K', sched_inv qk K' ∧ tasks K' = <[t := tc']> (tasks K) ∧
      oq K' = c_add_tail t (RQ (affCpu tc') (taskCurPriority tc)) (oq K) ∧
      rest K' = rest (set_tasks (tasks K') K))).
  { intros m' Hm'. eapply wp_mono; [done|]. intros [] K' [l ->].
    split; [by eapply emitted_inv; [by eexists|]|]. simpl. rewrite Et, Eo, Hpr'.
    split_and!; try done; unfold rest in *; simpl in *; congruence. }
  case_bool_decide as Ha'; [|by apply Hend; eapply wp_state_changed].
  apply Hend, wp_bind. eapply wp_mono; [by eapply wp_lowest|].
  intros [l|] K' [-> Hlw]; [|apply wp_ret, emitted_refl].
  destruct (Hlw l eq_refl) as (lc & lcpu & Hlc & _). apply wp_bind. eapply wp_get_task; [done|].
  apply wp_when; intros _; [apply wp_emit|apply emitted_refl].
Qed.

Lemma remove_unbound_run qk K t tc :
  sched_inv qk K → tasks K !! t = Some tc → affCpu tc = None →
  t ∈ c_get (RQ None (taskCurPriority tc)) (oq K) →
  wp (ttosGTaskRQueueRemove t) K (λ _ K', sched_inv (without t qk) K' ∧
    tasks K' = tasks K ∧ oq K' = c_delete t (oq K) ∧ rest K' = rest K).
Proof.
  intros Hinv Ht Ha Hin. unfold ttosGTaskRQueueRemove. apply wp_bind.
  eapply wp_get_task; [done|]. rewrite Ha, bool_decide_false by naive_solver.
  assert (Hni : not_idle t K).
  { intros c Hc Hi. destruct (si_idle _ _ Hinv c Hc) as (i & ic & ? & ? & ? & _). simplify_eq. }
  apply wp_dequeue with (ttosGlobalPriorityBitMap K); try done; [apply Hinv|..].
  - by apply (si_prio _ _ _ _ Hinv Ht).
  - apply Hinv.
  - intros K2 Hst. eapply wp_set_top_stepped; [done|by eexists|done|].
    intros o Ho. destruct (after_top _ _ _ None o Hst) as (Et & _ & Eo & _).
    split_and!; [|done..|rewrite rest_set_cached_top; apply Hst].
    pose proof (inv_remove qk K t tc K2 o Hinv Hni) as Hrm. rewrite Ha in Hrm. by apply Hrm.
Qed.

(** ** One switch *)

Definition first_run_over (nc : tcb) : tcb :=
  set_state (clear_flag TTOS_TASK_FIRSTRUN (state nc)) nc.

Lemma ready_first_run_over nc : ready (first_run_over nc) = ready nc.
Proof. apply flag_on_clear_ne; done. Qed.

(** The unbound task running on [c] is on no list. *)
Definition running_unlinked (c : cpuid) (K : kernel) : Prop :=
  ∀ r rc, runningTask K !! c = Some r → tasks K !! r = Some rc → affCpu rc = None →
    ready rc = true → c_linked r (oq K) = false.

(** The chains after a switch. *)
Definition switch_queues (old new : tid) (oc nc : tcb) (C : gmap oqid (list tid)) :=
  let C1 := if bool_decide (affCpu oc = None) && ready oc
            then c_add_tail old (RQ (affCpu (switched_out oc)) (taskCurPriority oc)) C else C in
  if bool_decide (affCpu nc = None) then c_delete new C1 else C1.

Lemma linked_add_tail_ne t x q C : t ≠ x → c_linked x (c_add_tail t q C : gmap oqid (list tid)) = c_linked x C.
Proof.
  intros Hne. apply eq_bool_prop_intro. rewrite !Is_true_true, !c_linked_spec.
  setoid_rewrite (elem_of_c_put t false). naive_solver.
Qed.

Section Switch.
Context (K : kernel) (c : cpuid) (old new : tid) (oc nc : tcb).
Hypothesis Hinv : kernel_inv K.
Hypothesis Hc : (c < ncpus K)%nat.
Hypothesis Hunl : running_unlinked c K.
Hypothesis Hrun : runningTask K !! c = Some old.
Hypothesis Hoc : tasks K !! old = Some oc.
Hypothesis Hnc : tasks K !! new = Some nc.
Hypothesis Hne : new ≠ old.
Hypothesis Hnoff : onCpu nc = None.
Hypothesis Hnr : ready nc = true.
Hypothesis Hnaff : ∀ a, affCpu nc = Some a → a = c.

Local Abbreviation S := (swapped K c old new oc nc).
Local Abbreviation oc1 := (upd_smp (set_cpuIndex None) oc).

(** The state when [ttosGTaskRQueuePut] is called. *)
Definition handed_over : kernel :=
  set_tasks (<[old := oc1]> (<[new := switched_in c nc]> (tasks K)))
    (set_runningTask (<[c := new]> (runningTask K)) K).

Lemma put_old_run :
  wp (ttosGTaskRQueuePut old) handed_over (λ _ K', sched_inv (mid_kind new) K' ∧
    tasks K' = tasks S ∧
    oq K' = (if bool_decide (affCpu oc = None) && ready oc
             then c_add_tail old (RQ (affCpu (switched_out oc)) (taskCurPriority oc)) (oq K)
             else oq K) ∧ rest K' = rest S).
Proof.
  pose proof (swapped_inv K c old new oc nc Hinv Hrun Hoc Hnc Hne Hnoff Hnaff Hc) as Hsw.
  destruct (decide (affCpu oc = None)) as [Ha|Ha].
  - rewrite bool_decide_true by done.
    assert (ES : set_tasks (<[old := put_fields oc1]> (tasks handed_over)) handed_over = S).
    { unfold handed_over, swapped. simpl. by rewrite insert_insert_eq. }
    eapply wp_mono; [apply (put_unbound_run (mid_kind new) handed_over old oc1)|].
    + apply lookup_insert_eq.
    + done.
    + rewrite ES. eapply sched_inv_ext; [done|]. intros x xc Hx. simpl. unfold without.
      case_decide; [|done]. by rewrite Ha.
    + unfold mid_kind, queued_kind. rewrite orb_true_iff, orb_true_iff. right. right.
      apply bool_decide_eq_true, (switched_out_off oc).
    + intros Hr. by eapply Hunl.
    + intros _ K' (Hi & Et & Eo & Er). split_and!; [done| |done|].
      * rewrite Et. simpl. by rewrite insert_insert_eq.
      * rewrite Er, Et, <- ES. done.
  - rewrite bool_decide_false by done.
    assert (ES : handed_over = S).
    { unfold handed_over, swapped. by rewrite (switched_out_bound oc (ncpus K)) by
        (done || by eapply (si_task _ _ Hinv)). }
    unfold ttosGTaskRQueuePut. apply wp_bind. eapply wp_get_task; [apply lookup_insert_eq|].
    change (affCpu oc1) with (affCpu oc). rewrite bool_decide_true by done. apply wp_ret.
    rewrite ES. split_and!; [|done..]. eapply sched_inv_ext; [done|]. intros x xc Hx. simpl.
    case_decide as Ex; [|done]. subst x. rewrite bool_decide_true by done.
    rewrite lookup_swapped in Hx by done.
    destruct Hx as [[_ ->]|[[? _]|[? _]]]; [|done..]. unfold mid_kind, queued_kind.
    rewrite switched_out_off. by rewrite !orb_true_r.
Qed.

Lemma remove_new_run K2 :
  sched_inv (mid_kind new) K2 → tasks K2 = tasks S → rest K2 = rest S →
  wp (ttosGTaskRQueueRemove new) K2 (λ _ K', kernel_inv K' ∧ tasks K' = tasks S ∧
    oq K' = (if bool_decide (affCpu nc = None) then c_delete new (oq K2) else oq K2) ∧
    rest K' = rest S).
Proof.
  intros Hinv2 Et2 Er2.
  assert (Hn2 : tasks K2 !! new = Some (switched_in c nc)).
  { rewrite Et2. simpl. by rewrite lookup_insert_ne, lookup_insert_eq. }
  assert (Hkind : ∀ x xc, tasks K2 !! x = Some xc → x ≠ new → mid_kind new x xc = queued_kind xc).
  { intros x xc _ Hx. unfold mid_kind. by rewrite bool_decide_false. }
  case_bool_decide as Ha.
  - assert (Hin : new ∈ c_get (RQ None (taskCurPriority nc)) (oq K2)).
    { rewrite (si_member _ _ _ _ _ _ Hinv2 Hn2). split_and!; [done..|].
      unfold mid_kind. by rewrite bool_decide_true. }
    eapply wp_mono; [by eapply remove_unbound_run|].
    intros _ K' (Hi & Et & Eo & Er). split_and!; [|by rewrite Et|done|by rewrite Er].
    eapply sched_inv_ext; [done|]. rewrite Et. intros x xc Hx. unfold without.
    case_decide as Ex; [|by apply Hkind]. subst x. rewrite Hn2 in Hx. injection Hx as <-.
    unfold queued_kind. change (affCpu (switched_in c nc)) with (affCpu nc). by rewrite Ha.
  - unfold ttosGTaskRQueueRemove. apply wp_bind. eapply wp_get_task; [done|].
    change (affCpu (switched_in c nc)) with (affCpu nc). rewrite bool_decide_true by done.
    apply wp_ret. split_and!; [|done..]. eapply sched_inv_ext; [done|]. intros x xc Hx.
    destruct (decide (x = new)) as [->|]; [|by apply Hkind]. rewrite Hn2 in Hx. injection Hx as <-.
    unfold mid_kind, queued_kind. change (affCpu (switched_in c nc)) with (affCpu nc).
    rewrite bool_decide_true by done. by rewrite (bool_decide_true (affCpu nc ≠ None)).
Qed.

Lemma switch_run :
  wp (switch_task c old new) K (λ _ K', kernel_inv K' ∧ running_unlinked c K' ∧
    tasks K' = <[new := first_run_over (switched_in c nc)]>
                 (<[old := switched_out oc]> (tasks K)) ∧
    runningTask K' = <[c := new]> (runningTask K) ∧
    oq K' = switch_queues old new oc nc (oq K) ∧
    idleTask K' = idleTask K ∧ ncpus K' = ncpus K ∧
    cpus_enabled K' = cpus_enabled K ∧ cpus_reserved K' = cpus_reserved K).
Proof.
  unfold switch_task. apply wp_bind. unfold ttosSetRunningTaskWithCpuID.
  apply wp_bind, wp_modify. eapply wp_upd_task; [exact Hnc|].
  apply wp_bind. eapply wp_upd_task; [simpl; by rewrite lookup_insert_ne|].
  match goal with |- wp ?m _ ?Φ => change (wp m handed_over Φ) end.
  apply wp_bind. eapply wp_mono; [apply put_old_run|]. intros [] K2 (Hinv2 & Et2 & Eo2 & Er2).
  apply wp_bind. eapply wp_mono; [by apply remove_new_run|]. intros [] K3 (Hinv3 & Et3 & Eo3 & Er3).
  assert (Hn3 : tasks K3 !! new = Some (switched_in c nc)).
  { rewrite Et3. simpl. by rewrite lookup_insert_ne, lookup_insert_eq. }
  eapply wp_upd_task; [done|].
  assert (EK : oq K3 = switch_queues old new oc nc (oq K)) by (by rewrite Eo3, Eo2).
  injection Er3 as _ Erun Eid En Een Ers _ _. split_and!; try done.
  - eapply inv_upd_inert; try done. apply ready_first_run_over.
  - intros r rc. simpl. rewrite Erun. simpl. rewrite lookup_insert_eq. intros [= <-].
    rewrite lookup_insert_eq. intros [= <-] Ha _. rewrite Eo3.
    change (affCpu _) with (affCpu nc) in Ha. rewrite bool_decide_true by done.
    apply c_linked_delete.
  - simpl. rewrite Et3. simpl. rewrite (insert_insert_ne _ old new) by done.
    by rewrite insert_insert_eq.
Qed.

End Switch.

(** ** The candidate *)

(** The running unbound task competes only if it is not being bound and has
    not to make way for a task of its own priority. *)
Definition competes (K : kernel) (rc : tcb) : bool :=
  bool_decide (affCpu rc = None) && negb (isChangedToPrivate (smpInfo rc)) &&
  negb (isRotated (smpInfo rc) && negb (c_is_empty (RQ None (taskCurPriority rc)) (oq K))).

(** The tasks CPU [c] may run next. *)
Definition eligible (c : cpuid) (K : kernel) (t : tid) (tc : tcb) : Prop :=
  tasks K !! t = Some tc ∧ ready tc = true ∧
  (affCpu tc = Some c ∨
   c ∉ cpus_reserved K ∧ affCpu tc = None ∧
   (onCpu tc = None ∨ onCpu tc = Some c ∧ competes K tc = true)).

(** The choice of [ttosGetCandidateTask], as a function. *)
Definition pick (r b : tid) (rc bc : tcb) (g : option (tid * tcb)) (K : kernel) : tid :=
  let '(x, xc) := match g with
                  | Some (g, gc) =>
                      if taskCurPriority gc <? taskCurPriority bc then (g, gc) else (b, bc)
                  | None => (b, bc)
                  end in
  if competes K rc && ready rc && (taskCurPriority rc <=? taskCurPriority xc) then r else x.

Section Candidate.
Context (K : kernel) (c : cpuid).
Hypothesis Hinv : kernel_inv K.
Hypothesis Hc : (c < ncpus K)%nat.

Lemma top_task a t : is_Some (rq_bitmap a K) → cached_top a K = Some t →
  ∃ tc, tasks K !! t = Some tc ∧ affCpu tc = a ∧ ready tc = true ∧ queued_kind tc = true ∧
    ∀ t' tc', tasks K !! t' = Some tc' → affCpu tc' = a → ready tc' = true →
      queued_kind tc' = true → taskCurPriority tc ≤ taskCurPriority tc'.
Proof.
  intros [m Hm] Ht. pose proof (si_tops _ _ Hinv a m Hm) as Htop. rewrite Ht in Htop.
  destruct Htop as (p & Hp & Hhd & Hlow).
  assert (Hin : t ∈ c_get (RQ a p) (oq K)).
  { destruct (c_get (RQ a p) (oq K)); simplify_eq/=. left. }
  destruct (si_sound _ _ Hinv _ _ _ Hin) as (tc & ? & ? & ? & ? & ?). exists tc.
  split_and!; try done. intros t' tc' Ht' Ha' Hr' Hq'. subst p.
  destruct (decide (taskCurPriority tc ≤ taskCurPriority tc')); [done|]. exfalso.
  pose proof (si_complete _ _ Hinv _ _ Ht' Hr' Hq') as Hin'. rewrite Ha', Hlow in Hin'.
  - by apply not_elem_of_nil in Hin'.
  - pose proof (si_prio _ _ _ _ Hinv Ht'). lia.
Qed.

Lemma bound_top : ∃ b, priorityQueueTask K !! c = Some b.
Proof.
  destruct (proj1 (si_cpus _ _ Hinv c) Hc) as [m Hm].
  pose proof (si_tops _ _ Hinv (Some c) m Hm) as Htop. simpl in Htop.
  destruct (priorityQueueTask K !! c) as [b|]; [by exists b|]. exfalso.
  destruct (si_nonempty _ _ c Hinv Hc) as (i & p & _ & Hp & Hin). simpl in Htop.
  rewrite Htop in Hin by done. by apply not_elem_of_nil in Hin.
Qed.

Lemma no_global_top t tc : globalTask K = None → tasks K !! t = Some tc → affCpu tc = None →
  ready tc = true → queued_kind tc = true → False.
Proof.
  intros Hg Ht Ha Hr Hq. pose proof (si_tops _ _ Hinv None _ eq_refl) as Htop. simpl in Htop.
  rewrite Hg in Htop. simpl in Htop. pose proof (si_complete _ _ Hinv _ _ Ht Hr Hq) as Hin.
  rewrite Ha, Htop in Hin; [by apply not_elem_of_nil in Hin|by eapply si_prio].
Qed.

(** On an enabled CPU that is not reserved. *)
Lemma candidate_run r rc b bc :
  c ∈ cpus_enabled K → c ∉ cpus_reserved K →
  runningTask K !! c = Some r → tasks K !! r = Some rc →
  priorityQueueTask K !! c = Some b → tasks K !! b = Some bc →
  ∃ g, match globalTask K with
       | Some t => ∃ gc, tasks K !! t = Some gc ∧ g = Some (t, gc)
       | None => g = None
       end ∧ ttosGetCandidateTask c K = Some (pick r b rc bc g K, K).
Proof.
  intros Hen Hres Hr Hrc Hb Hbc.
  assert (Hcomp : (if bool_decide (affCpu rc = None) && negb (isChangedToPrivate (smpInfo rc))
      then if isRotated (smpInfo rc) && negb (c_is_empty (RQ (affCpu rc) (taskCurPriority rc)) (oq K))
           then None else Some rc else None) = if competes K rc then Some rc else None).
  { unfold competes. case_bool_decide as Ha; [|done]. rewrite Ha. simpl.
    destruct (isChangedToPrivate _); [done|]. simpl. by destruct (_ && _). }
  unfold ttosGetCandidateTask, mbind, M_bind, gets, id, lift, ttosGetRunningTaskWithCpuID, get_task.
  rewrite bool_decide_false by naive_solver. rewrite bool_decide_false by done. rewrite Hr. simpl.
  rewrite Hrc, Hcomp, Hb, Hbc. clear Hcomp.
  assert (Hfin : ∀ x xc, (if competes K rc && ready rc && (taskCurPriority rc <=? taskCurPriority xc)
    then r else x) = match (if competes K rc then Some rc else None) with
      | Some rc0 => if flag_on TTOS_TASK_READY (state rc0) &&
           (taskCurPriority rc0 <=? taskCurPriority xc) then r else x
      | None => x end) by (intros x xc; unfold ready; by destruct (competes K rc)).
  destruct (globalTask K) as [g|] eqn:Hg.
  - destruct (top_task None g) as (gc & Hgc & _); [by eexists|done|].
    exists (Some (g, gc)). split; [by exists gc|]. rewrite Hgc. unfold pick.
    destruct (_ <? _); unfold mret, M_ret; [rewrite Hgc|rewrite Hbc]; by rewrite Hfin.
  - exists None. split; [done|]. unfold mret, M_ret. rewrite Hbc. unfold pick. by rewrite Hfin.
Qed.

Lemma candidate_reserved b :
  c ∈ cpus_enabled K → c ∈ cpus_reserved K → priorityQueueTask K !! c = Some b →
  ttosGetCandidateTask c K = Some (b, K).
Proof.
  intros Hen Hres Hb. unfold ttosGetCandidateTask, mbind, M_bind, gets, id, lift.
  rewrite bool_decide_false by naive_solver. rewrite bool_decide_true by done. by rewrite Hb.
Qed.

Lemma candidate_disabled i :
  c ∉ cpus_enabled K → idleTask K !! c = Some i → ttosGetCandidateTask c K = Some (i, K).
Proof.
  intros Hen Hi. unfold ttosGetCandidateTask, mbind, M_bind, gets, id, lift.
  rewrite bool_decide_true by done. by rewrite Hi.
Qed.

(** The tasks the choice is made from. *)
Lemma candidate_parts : ∃ r rc b bc,
  runningTask K !! c = Some r ∧ tasks K !! r = Some rc ∧ onCpu rc = Some c ∧
  priorityQueueTask K !! c = Some b ∧ tasks K !! b = Some bc ∧ affCpu bc = Some c ∧
  ready bc = true ∧
  (∀ t tc, tasks K !! t = Some tc → affCpu tc = Some c → ready tc = true →
     taskCurPriority bc ≤ taskCurPriority tc).
Proof.
  destruct (si_run _ _ Hinv c Hc) as (r & rc & ? & ? & ?). destruct bound_top as [b Hb].
  destruct (top_task (Some c) b) as (bc & ? & ? & ? & _ & Hmin); [|done|].
  { by apply (si_cpus _ _ Hinv). }
  exists r, rc, b, bc. split_and!; try done. intros t tc Ht Ha Hr. eapply Hmin; try done.
  unfold queued_kind. by rewrite Ha.
Qed.

(** The unbound ready queue's head, when there is one, is the most urgent
    unbound task that is not running. *)
Lemma global_top_min g gc :
  globalTask K = Some g → tasks K !! g = Some gc →
  affCpu gc = None ∧ ready gc = true ∧ onCpu gc = None ∧
  ∀ t tc, tasks K !! t = Some tc → affCpu tc = None → ready tc = true → onCpu tc = None →
     taskCurPriority gc ≤ taskCurPriority tc.
Proof.
  intros Hg Hgc. destruct (top_task None g) as (gc' & Hgc' & Ha & Hr & Hq & Hmin); [by eexists|done|].
  simplify_eq. split_and!; try done.
  - unfold queued_kind in Hq. rewrite Ha in Hq. simpl in Hq. by apply bool_decide_eq_true in Hq.
  - intros t tc Ht Hat Hrt Hot. eapply Hmin; try done. unfold queued_kind. rewrite Hot.
    by rewrite orb_true_r.
Qed.

Lemma candidate_best :
  c ∈ cpus_enabled K →
  ∃ t tc, ttosGetCandidateTask c K = Some (t, K) ∧ eligible c K t tc ∧
    ∀ t' tc', eligible c K t' tc' → taskCurPriority tc ≤ taskCurPriority tc'.
Proof.
  intros Hen.
  destruct candidate_parts as (r & rc & b & bc & Hr & Hrc & Hron & Hb & Hbc & Hba & Hbr & Hbmin).
  destruct (decide (c ∈ cpus_reserved K)) as [Hres|Hres].
  { exists b, bc. split; [by apply candidate_reserved|]. split; [by split_and!; [..|left]|].
    intros t' tc' (Ht' & Hr' & [Ha'|(? & _)]); [by eapply Hbmin|done]. }
  destruct (candidate_run r rc b bc Hen Hres Hr Hrc Hb Hbc) as (g & Hg & ->).
  set (best := λ xc : tcb, ∀ t' tc', tasks K !! t' = Some tc' → ready tc' = true →
    (affCpu tc' = Some c ∨ affCpu tc' = None ∧ onCpu tc' = None) →
    taskCurPriority xc ≤ taskCurPriority tc').
  set (x := match g with Some (g, gc) =>
        if taskCurPriority gc <? taskCurPriority bc then (g, gc) else (b, bc)
      | None => (b, bc) end).
  assert (Hx : eligible c K x.1 x.2 ∧ best x.2).
  { assert (Hbe : eligible c K b bc) by (by split_and!; [..|left]).
    unfold x. destruct (globalTask K) as [gt|] eqn:Hgt.
    - destruct Hg as (gc & Hgc & ->). destruct (global_top_min _ _ Hgt Hgc) as (Hga & Hgr & Hgo & Hgmin).
      destruct (Z.ltb_spec (taskCurPriority gc) (taskCurPriority bc)); simpl.
      + split; [by split_and!; [..|right; split_and!; [..|left]]|].
        intros t' tc' Ht' Hr' [Ha'|[Ha' Ho']]; [|by eapply Hgmin].
        specialize (Hbmin _ _ Ht' Ha' Hr'). lia.
      + split; [done|]. intros t' tc' Ht' Hr' [Ha'|[Ha' Ho']]; [by eapply Hbmin|].
        specialize (Hgmin _ _ Ht' Ha' Hr' Ho'). lia.
    - subst g. split; [done|]. intros t' tc' Ht' Hr' [Ha'|[Ha' Ho']]; [by eapply Hbmin|].
      exfalso. eapply no_global_top; try done. unfold queued_kind. rewrite Ho'. by rewrite orb_true_r. }
  unfold pick. fold x. destruct x as [xt xc]. simpl in Hx. destruct Hx as [Hxe Hxb].
  assert (Hother : ∀ t' tc', eligible c K t' tc' →
    taskCurPriority xc ≤ taskCurPriority tc' ∨ (t' = r ∧ tc' = rc ∧ competes K rc = true ∧ ready rc = true)).
  { intros t' tc' (Ht' & Hr' & [Ha'|(_ & Ha' & [Ho'|[Ho' Hcm]])]).
    - left. eapply Hxb; eauto.
    - left. eapply Hxb; eauto.
    - destruct (si_oncpu _ _ Hinv _ _ _ Ht' Ho') as [Hr'' _]. simplify_eq. by right. }
  destruct (competes K rc && ready rc && (taskCurPriority rc <=? taskCurPriority xc)) eqn:Ew.
  - apply andb_true_iff in Ew as [[Hcm Hrr]%andb_true_iff Hle%Z.leb_le].
    exists r, rc. split; [done|]. split.
    + split_and!; [done..|]. right. split_and!; [done| |by right].
      unfold competes in Hcm. rewrite <- andb_assoc in Hcm.
      by apply andb_true_iff in Hcm as [?%bool_decide_eq_true _].
    + intros t' tc' [Hle'|(_ & -> & _)]%Hother; lia.
  - exists xt, xc. split; [done|]. split; [done|].
    intros t' tc' [Hle'|(_ & -> & Hcm & Hrr)]%Hother; [done|].
    rewrite Hcm, Hrr in Ew. apply Z.leb_gt in Ew. lia.
Qed.

(** Whatever the masks, the candidate can run on [c]. *)
Lemma candidate_fit r :
  runningTask K !! c = Some r →
  ∃ t tc, ttosGetCandidateTask c K = Some (t, K) ∧ tasks K !! t = Some tc ∧ ready tc = true ∧
    (∀ a, affCpu tc = Some a → a = c) ∧ (t ≠ r → onCpu tc = None).
Proof.
  intros Hr.
  assert (Hon : ∀ t tc, tasks K !! t = Some tc → affCpu tc = Some c → t ≠ r → onCpu tc = None).
  { intros t tc Ht Ha Hne. destruct (onCpu tc) as [c'|] eqn:Ho; [|done]. exfalso.
    assert (c' = c) by (by eapply (si_task _ _ Hinv t tc Ht)). subst c'.
    destruct (si_oncpu _ _ Hinv _ _ _ Ht Ho). congruence. }
  destruct (decide (c ∈ cpus_enabled K)) as [Hen|Hen].
  - destruct (candidate_best Hen) as (t & tc & Hrun & (Ht & Hrd & Hel) & _).
    exists t, tc. split_and!; try done.
    + destruct Hel as [->|(_ & -> & _)]; congruence.
    + intros Hne. destruct Hel as [Ha|(_ & _ & [Ho|[Ho _]])]; [by eapply Hon|done|].
      destruct (si_oncpu _ _ Hinv _ _ _ Ht Ho). congruence.
  - destruct (si_idle _ _ Hinv c Hc) as (i & ic & Hi & Hic & Ha & Hrd & _).
    exists i, ic. split_and!; [by apply candidate_disabled|done..|congruence|].
    intros Hne. by eapply Hon.
Qed.

End Candidate.

(** ** The loop stops *)

Lemma top_spec_unique a C o1 o2 : top_spec a C o1 → top_spec a C o2 → o1 = o2.
Proof.
  assert (Hnil : ∀ q t, head (c_get q C) = Some t → c_get q C ≠ []) by (intros q t H E; by rewrite E in H).
  destruct o1 as [t1|], o2 as [t2|]; simpl.
  - intros (p1 & ? & H1 & L1) (p2 & ? & H2 & L2). destruct (Z.lt_trichotomy p1 p2) as [?|[->|?]].
    + exfalso. eapply Hnil; [exact H1|]. apply L2. lia.
    + congruence.
    + exfalso. eapply Hnil; [exact H2|]. apply L1. lia.
  - intros (p1 & ? & H1 & _) Hn. exfalso. eapply Hnil; [exact H1|]. by apply Hn.
  - intros Hn (p1 & ? & H1 & _). exfalso. eapply Hnil; [exact H1|]. by apply Hn.
  - done.
Qed.

Section Stable.
Context (K K' : kernel) (c : cpuid) (old new : tid) (oc nc : tcb).
Hypothesis Hinv : kernel_inv K.
Hypothesis Hinv' : kernel_inv K'.
Hypothesis Hc : (c < ncpus K)%nat.
Hypothesis Hrun : runningTask K !! c = Some old.
Hypothesis Hoc : tasks K !! old = Some oc.
Hypothesis Hnc : tasks K !! new = Some nc.
Hypothesis Hne : new ≠ old.
Hypothesis Hnoff : onCpu nc = None.
Hypothesis Hnr : ready nc = true.
Hypothesis Hcand : ttosGetCandidateTask c K = Some (new, K).
Hypothesis Hnopriv : isChangedToPrivate (smpInfo oc) = false.
Hypothesis Etasks : tasks K' = <[new := first_run_over (switched_in c nc)]>
                                 (<[old := switched_out oc]> (tasks K)).
Hypothesis Erun : runningTask K' = <[c := new]> (runningTask K).
Hypothesis Eoq : oq K' = switch_queues old new oc nc (oq K).
Hypothesis Eidle : idleTask K' = idleTask K.
Hypothesis Encpus : ncpus K' = ncpus K.
Hypothesis Een : cpus_enabled K' = cpus_enabled K.
Hypothesis Eres : cpus_reserved K' = cpus_reserved K.

Lemma bound_queue_same p : c_get (RQ (Some c) p) (oq K') = c_get (RQ (Some c) p) (oq K).
Proof.
  rewrite Eoq. unfold switch_queues.
  assert (Hadd : c_get (RQ (Some c) p) (if bool_decide (affCpu oc = None) && ready oc
      then c_add_tail old (RQ (affCpu (switched_out oc)) (taskCurPriority oc)) (oq K) else oq K)
    = c_get (RQ (Some c) p) (oq K)).
  { case_bool_decide as Ha; [|done]. simpl. destruct (ready oc); [|done].
    unfold c_add_tail. rewrite c_get_set_ne; [done|]. rewrite switched_out_aff, Ha; done. }
  cbv zeta. destruct (bool_decide (affCpu nc = None)) eqn:Ha; [|exact Hadd].
  apply bool_decide_eq_true in Ha. rewrite c_get_delete_fresh; [exact Hadd|]. rewrite Hadd.
  rewrite (si_member _ _ _ _ _ _ Hinv Hnc). intros (? & _). congruence.
Qed.

Lemma bound_top_same : priorityQueueTask K' !! c = priorityQueueTask K !! c.
Proof.
  assert (Hc' : (c < ncpus K')%nat) by (by rewrite Encpus).
  destruct (proj1 (si_cpus _ _ Hinv c) Hc) as [m Hm].
  destruct (proj1 (si_cpus _ _ Hinv' c) Hc') as [m' Hm'].
  eapply top_spec_unique; [by apply (si_tops _ _ Hinv' (Some c) m')|].
  eapply top_spec_ext; [apply bound_queue_same|by apply (si_tops _ _ Hinv (Some c) m)].
Qed.

Lemma prio_same x xc' : tasks K' !! x = Some xc' →
  ∃ xc, tasks K !! x = Some xc ∧ taskCurPriority xc' = taskCurPriority xc ∧ ready xc' = ready xc ∧
    affCpu xc' = affCpu xc ∧ (x = old ∨ x = new ∨ xc' = xc).
Proof.
  rewrite Etasks. intros [[<- <-]|[Hxn [[<- <-]|[Hxo Hx]]%lookup_insert_Some]]%lookup_insert_Some.
  - exists nc. rewrite ready_first_run_over. split_and!; auto.
  - exists oc. rewrite switched_out_prio, switched_out_aff by done. unfold ready.
    rewrite switched_out_state. split_and!; auto.
  - exists xc'. split_and!; auto.
Qed.

(** No unbound ready task is more urgent than the task that was chosen. *)
Lemma new_beats_global x xc' : c ∈ cpus_enabled K → c ∉ cpus_reserved K →
  tasks K' !! x = Some xc' → affCpu xc' = None → ready xc' = true → onCpu xc' = None →
  taskCurPriority nc ≤ taskCurPriority xc'.
Proof.
  intros Hen Hres Hx Ha Hr Ho.
  destruct (candidate_best K c Hinv Hc Hen) as (t & tc & Hcand' & (Ht & _) & Hmin).
  rewrite Hcand in Hcand'. injection Hcand' as <-. rewrite Hnc in Ht. injection Ht as <-.
  destruct (prio_same x xc' Hx) as (xc & HxK & Hp & Hrx & Hax & Hcase).
  rewrite Hp. rewrite Hrx in Hr. rewrite Hax in Ha. clear Hp Hrx Hax.
  destruct Hcase as [ -> | [ -> | -> ] ].
  - rewrite Hoc in HxK. injection HxK as <-.
    destruct (competes K oc) eqn:Hcm.
    + apply (Hmin old). split_and!; [done..|]. right. split_and!; [done..|]. right.
      split; [|done]. by apply (old_on_c K c old oc).
    + unfold competes in Hcm. rewrite Ha, Hnopriv in Hcm. simpl in Hcm.
      apply negb_false_iff, andb_true_iff in Hcm as [_ Hq%negb_true_iff].
      destruct (c_get (RQ None (taskCurPriority oc)) (oq K)) as [|y ys] eqn:Ey.
      { apply c_is_empty_spec in Ey. congruence. }
      assert (Hy : y ∈ c_get (RQ None (taskCurPriority oc)) (oq K)) by (rewrite Ey; left).
      destruct (si_sound _ _ Hinv _ _ _ Hy) as (yc & Hyc & Hya & Hyp & Hyr & Hyq).
      rewrite <- Hyp. apply (Hmin y). split_and!; [done..|]. right. split_and!; [done..|]. left.
      unfold queued_kind in Hyq. rewrite Hya in Hyq. by apply bool_decide_eq_true in Hyq.
  - rewrite Hnc in HxK. injection HxK as <-. done.
  - apply (Hmin x). split_and!; [done..|]. right. split_and!; [done..|]. by left.
Qed.

Lemma candidate_stable : ttosGetCandidateTask c K' = Some (new, K').
Proof.
  assert (Hc' : (c < ncpus K')%nat) by (by rewrite Encpus).
  destruct (candidate_parts K' c Hinv' Hc')
    as (r & rc & b & bc' & Hr & Hrc & _ & Hb & Hbc' & Hba' & Hbr' & _).
  rewrite Erun, lookup_insert_eq in Hr. injection Hr as <-.
  assert (Hb0 := Hb). rewrite bound_top_same in Hb0.
  destruct (prio_same b bc' Hbc') as (bc & Hbc & Hbp & Hbr & Hba & _).
  destruct (decide (c ∈ cpus_enabled K)) as [Hen|Hen].
  2: { destruct (si_idle _ _ Hinv c Hc) as (i & ic & Hi & _).
       rewrite (candidate_disabled K c i Hen Hi) in Hcand. injection Hcand as ->.
       apply candidate_disabled; [by rewrite Een|by rewrite Eidle]. }
  destruct (decide (c ∈ cpus_reserved K)) as [Hres|Hres].
  { rewrite (candidate_reserved K c b Hen Hres Hb0) in Hcand. injection Hcand as ->.
    apply candidate_reserved; by rewrite ?Een, ?Eres. }
  destruct (candidate_run K' c Hinv' Hc' new rc b bc') as (g' & Hg' & ->);
    [by rewrite Een|by rewrite Eres|by rewrite Erun, lookup_insert_eq|done..|].
  do 2 f_equal.
  assert (Hgl : ∀ y yc, g' = Some (y, yc) → taskCurPriority nc ≤ taskCurPriority yc).
  { intros y yc ->. destruct (globalTask K') as [gt|] eqn:Hgt; [|done].
    destruct Hg' as (gc & Hgc & [= -> ->]).
    destruct (global_top_min K' c Hinv' Hc' _ _ Hgt Hgc) as (? & ? & ? & _).
    by apply (new_beats_global gt). }
  assert (Hbb : taskCurPriority nc ≤ taskCurPriority bc').
  { destruct (candidate_best K c Hinv Hc Hen) as (t & tc & Hcand' & (Ht & _) & Hmin).
    rewrite Hcand in Hcand'. injection Hcand' as <-. rewrite Hnc in Ht. injection Ht as <-.
    rewrite Hbp. apply (Hmin b). split_and!; [done|congruence|]. left. congruence. }
  assert (Erc : rc = first_run_over (switched_in c nc)).
  { rewrite Etasks, lookup_insert_eq in Hrc. by injection Hrc as <-. }
  destruct (si_task _ _ Hinv _ _ Hnc) as [_ _ _ _ Hpriv Hrot].
  unfold pick. destruct (decide (affCpu nc = None)) as [Ha|Ha].
  - assert (Hcm : competes K' rc = true).
    { subst rc. unfold competes. simpl.
      rewrite bool_decide_true by (exact Ha).
      destruct (isChangedToPrivate (smpInfo nc)); [by destruct (Hpriv eq_refl)|].
      destruct (isRotated (smpInfo nc)); [by destruct (Hrot eq_refl)|]. done. }
    rewrite Hcm. subst rc. rewrite ready_first_run_over. change (ready (switched_in c nc)) with (ready nc).
    rewrite Hnr. simpl. destruct g' as [[y yc]|]; [destruct (_ <? _)|];
      by rewrite (proj2 (Z.leb_le _ _)) by (done || by eapply Hgl).
  - assert (Hcm : competes K' rc = false).
    { subst rc. unfold competes. by rewrite bool_decide_false. }
    rewrite Hcm. simpl.
    assert (Enew : new = b).
    { destruct (candidate_run K c Hinv Hc old oc b bc Hen Hres Hrun Hoc Hb0 Hbc) as (g & Hg & Hp).
      rewrite Hcand in Hp. injection Hp as Hp. unfold pick in Hp.
      destruct g as [[y yc]|]; [destruct (_ <? _)|]; destruct (_ && _ && _); try done. subst y.
      destruct (globalTask K) as [gt|] eqn:Hgt; [|done]. destruct Hg as (gc & Hgc & [= -> ->]).
      destruct (global_top_min K c Hinv Hc _ _ Hgt Hgc) as (? & _). congruence. }
    destruct g' as [[y yc]|]; [|done]. specialize (Hgl y yc eq_refl).
    assert (bc = nc) as -> by congruence.
    destruct (Z.ltb_spec (taskCurPriority yc) (taskCurPriority bc')); [lia|done].
Qed.

End Stable.

(** The queues that are not ready queues. *)
Definition same_others (K K' : kernel) : Prop :=
  ∀ q, (∀ a p, q ≠ RQ a p) → c_get q (oq K') = c_get q (oq K).

#[export] Instance same_others_preorder : PreOrder same_others.
Proof. split; [done|]. intros K1 K2 K3 H12 H23 q Hq. by rewrite H23, H12. Qed.

Lemma switch_others K K' old new oc nc :
  kernel_inv K → tasks K !! new = Some nc → ready nc = true → onCpu nc = None →
  oq K' = switch_queues old new oc nc (oq K) → same_others K K'.
Proof.
  intros Hinv Hnc Hnr Hnoff Eo q Hq. rewrite Eo. unfold switch_queues. cbv zeta.
  assert (Hadd : c_get q (if bool_decide (affCpu oc = None) && ready oc
      then c_add_tail old (RQ (affCpu (switched_out oc)) (taskCurPriority oc)) (oq K) else oq K)
    = c_get q (oq K)).
  { destruct (_ && _); [|done]. unfold c_add_tail. by rewrite c_get_set_ne by (apply not_eq_sym, Hq). }
  destruct (bool_decide (affCpu nc = None)); [|exact Hadd]. rewrite c_get_delete_fresh; [exact Hadd|]. rewrite Hadd. intros Hin.
  assert (Hrq : new ∈ c_get (RQ (affCpu nc) (taskCurPriority nc)) (oq K)).
  { apply (si_complete _ _ Hinv); [done..|]. unfold queued_kind. rewrite Hnoff. by rewrite orb_true_r. }
  by apply (Hq _ _ (c_disj _ (si_wf _ _ Hinv) _ _ _ Hin Hrq)).
Qed.

(** One turn of the loop that switches: the next state, and a state from which
    the next candidate is the running task if the outgoing task was not being
    moved to another CPU. *)
Lemma switch_turn K c old oc new nc :
  kernel_inv K → (c < ncpus K)%nat → running_unlinked c K →
  runningTask K !! c = Some old → tasks K !! old = Some oc → new ≠ old →
  ttosGetCandidateTask c K = Some (new, K) → tasks K !! new = Some nc → ready nc = true →
  (∀ a, affCpu nc = Some a → a = c) → onCpu nc = None →
  wp (switch_task c old new) K (λ _ K', kernel_inv K' ∧ (c < ncpus K')%nat ∧
    running_unlinked c K' ∧ ncpus K' = ncpus K ∧ same_others K K' ∧
    runningTask K' = <[c := new]> (runningTask K) ∧
    (∃ nc', tasks K' !! new = Some nc' ∧ isChangedToPrivate (smpInfo nc') = false) ∧
    (isChangedToPrivate (smpInfo oc) = false → ttosGetCandidateTask c K' = Some (new, K'))).
Proof.
  intros Hinv Hc Hunl Hrun Hoc Hne Hcand Hnc Hnr Hnaff Hnoff.
  eapply wp_mono; [by apply (switch_run K c old new oc nc)|].
  intros [] K' (Hinv' & Hunl' & Et & Er & Eo & Ei & En & Ee & Es).
  split_and!; [done|by rewrite En|done..|by eapply switch_others|done| |].
  - eexists. rewrite Et, lookup_insert_eq. split; [done|]. simpl.
    destruct (si_task _ _ Hinv _ _ Hnc) as [_ _ _ _ Hpriv _].
    destruct (isChangedToPrivate (smpInfo nc)); [|done]. by destruct (Hpriv eq_refl).
  - intros Hp. by apply (candidate_stable K K' c old new oc nc).
Qed.

(** The state a finished loop leaves: the candidate runs, or the running task
    is ready and holds off preemption. *)
Definition settled (c : cpuid) (K : kernel) : Prop :=
  ttosDisableScheduleLevel K !! c = Some 0 ∧
  ∃ r rc, runningTask K !! c = Some r ∧ tasks K !! r = Some rc ∧
    (ttosGetCandidateTask c K = Some (r, K) ∨
     flag_on TTOS_TASK_NONRUNNING_STATE (state rc) = false ∧ 0 < preemptCount rc).

Lemma inv_set_level qk K l : sched_inv qk K → sched_inv qk (set_ttosDisableScheduleLevel l K).
Proof.
  intros Hinv. apply si_rebuild with qk K; simpl; try done; try apply Hinv.
  - intros a [m Hm]. replace (cached_top a _) with (cached_top a K) by (by destruct a).
    apply (si_tops _ _ Hinv a m). by destruct a.
  - intros a p t tc Hin Ht. split; [|by left].
    by apply (si_member _ _ _ _ _ _ Hinv Ht) in Hin as (_ & _ & _ & ?).
  - intros a p t Hin. destruct (si_sound _ _ Hinv _ _ _ Hin) as (? & ? & ?). by eexists.
Qed.

(** The choice looks only at priorities, the ready bit and the SMP fields. *)
Definition same_view (tc tc' : tcb) : Prop :=
  taskCurPriority tc' = taskCurPriority tc ∧ ready tc' = ready tc ∧ smpInfo tc' = smpInfo tc.

Lemma candidate_view c K K' t :
  (∀ x, option_Forall2 same_view (tasks K !! x) (tasks K' !! x)) →
  oq K' = oq K → runningTask K' = runningTask K → idleTask K' = idleTask K →
  priorityQueueTask K' = priorityQueueTask K → globalTask K' = globalTask K →
  cpus_enabled K' = cpus_enabled K → cpus_reserved K' = cpus_reserved K →
  ttosGetCandidateTask c K = Some (t, K) → ttosGetCandidateTask c K' = Some (t, K').
Proof.
  intros Hv Eo Er Ei Ep Eg Ee Es.
  unfold ttosGetCandidateTask, mbind, M_bind, gets, id, lift, ttosGetRunningTaskWithCpuID,
    get_task, mret, M_ret.
  rewrite Ee, Es. destruct (bool_decide _).
  { rewrite Ei. destruct (idleTask K !! c); simpl; congruence. }
  destruct (bool_decide _).
  { rewrite Ep. destruct (priorityQueueTask K !! c); simpl; congruence. }
  cbv beta iota. rewrite Er. destruct (runningTask K !! c) as [r|]; simpl; [|done].
  assert (Hget : ∀ x xc, tasks K !! x = Some xc →
    ∃ xc', tasks K' !! x = Some xc' ∧ same_view xc xc').
  { intros x xc Hx. specialize (Hv x). rewrite Hx in Hv. inversion Hv; subst. eauto. }
  destruct (tasks K !! r) as [rc|] eqn:Hr; [|done].
  destruct (Hget _ _ Hr) as (rc' & -> & Hrp & Hrr & Hrs).
  assert (Ha : affCpu rc' = affCpu rc) by (unfold affCpu; by rewrite Hrs).
  rewrite Eo, Ep, Eg, Ha, Hrs, Hrp.
  destruct (priorityQueueTask K !! c) as [b|]; [|done].
  destruct (tasks K !! b) as [bc|] eqn:Hb; [|done].
  destruct (Hget _ _ Hb) as (bc' & Hb' & Hbp & _). rewrite Hb', Hbp.
  assert (Hfin : ∀ x xc xc', same_view xc xc' → ∀ e,
    match (if (e : bool) then if isRotated (smpInfo rc) &&
             negb (c_is_empty (RQ (affCpu rc) (taskCurPriority rc)) (oq K))
           then None else Some rc' else None) with
      | Some rc0 => if flag_on TTOS_TASK_READY (state rc0) &&
           (taskCurPriority rc0 <=? taskCurPriority xc') then r else x
      | None => x end =
    match (if (e : bool) then if isRotated (smpInfo rc) &&
             negb (c_is_empty (RQ (affCpu rc) (taskCurPriority rc)) (oq K))
           then None else Some rc else None) with
      | Some rc0 => if flag_on TTOS_TASK_READY (state rc0) &&
           (taskCurPriority rc0 <=? taskCurPriority xc) then r else x
      | None => x end).
  { intros x xc xc' [Hxp _] []; [|done]. destruct (_ && _); [done|].
    fold (ready rc) (ready rc'). by rewrite Hxp, Hrr, Hrp. }
  assert (Hsel : ∀ x, match tasks K !! x with Some xc => Some (xc, K) | None => None end ≠ None →
    ∃ xc xc', tasks K !! x = Some xc ∧ tasks K' !! x = Some xc' ∧ same_view xc xc').
  { intros x Hx. destruct (tasks K !! x) as [xc|] eqn:E; [|done].
    destruct (Hget _ _ E) as (xc' & ? & ?). eauto 10. }
  destruct (globalTask K) as [g|].
  - destruct (tasks K !! g) as [gc|] eqn:Hg; [|done].
    destruct (Hget _ _ Hg) as (gc' & Hg' & Hgv). rewrite Hg', (proj1 Hgv).
    destruct (_ <? _).
    + rewrite Hg, Hg'. by rewrite (Hfin _ _ _ Hgv); intros [= ->].
    + rewrite Hb, Hb'. destruct (Hsel b) as (xc & xc' & ? & ? & Hbv); [by rewrite Hb|]. simplify_eq.
      by rewrite (Hfin _ _ _ Hbv); intros [= ->].
  - rewrite Hb, Hb'. destruct (Hsel b) as (xc & xc' & ? & ? & Hbv); [by rewrite Hb|]. simplify_eq.
    by rewrite (Hfin _ _ _ Hbv); intros [= ->].
Qed.

Section Loop.
Context (c : cpuid).

(** What holds between turns. *)
Record turn (K : kernel) (r : tid) (rc : tcb) : Prop := {
  tn_inv : kernel_inv K;
  tn_cpu : (c < ncpus K)%nat;
  tn_unl : running_unlinked c K;
  tn_run : runningTask K !! c = Some r;
  tn_task : tasks K !! r = Some rc;
}.

Definition finished (K0 : kernel) (_ : unit) (K : kernel) : Prop :=
  kernel_inv K ∧ running_unlinked c K ∧ ncpus K = ncpus K0 ∧ settled c K ∧ same_others K0 K.

Lemma finished_from K0 K1 u K : finished K1 u K → ncpus K1 = ncpus K0 → same_others K0 K1 → finished K0 u K.
Proof. intros (? & ? & E & ? & ?) En Ho. split_and!; try done; [congruence|by etrans]. Qed.

Lemma turn_set_level K r rc l : turn K r rc → turn (set_ttosDisableScheduleLevel l K) r rc.
Proof. intros [????]. split; try done. by apply inv_set_level. Qed.

Lemma candidate_set_level K t l : ttosGetCandidateTask c K = Some (t, K) →
  ttosGetCandidateTask c (set_ttosDisableScheduleLevel l K)
    = Some (t, set_ttosDisableScheduleLevel l K).
Proof.
  apply candidate_view; try done. intros x. simpl. destruct (tasks K !! x); by constructor.
Qed.

(** The candidate already runs: the loop is over. *)
Lemma last_turn fuel K r rc :
  turn K r rc → ttosGetCandidateTask c K = Some (r, K) →
  wp (ttosTaskSchedule (S fuel) c) K (finished K).
Proof.
  intros [Hinv Hc Hunl Hr Hrc] Hcand. simpl. apply wp_bind.
  unfold wp at 1, ttosGetRunningTaskWithCpuID. rewrite Hr. simpl.
  apply wp_bind. unfold wp at 1. rewrite Hcand. rewrite bool_decide_true by done.
  apply wp_bind. eapply wp_upd_task; [done|]. apply wp_modify.
  fold (first_run_over rc).
  set (K' := set_tasks (<[r := first_run_over rc]> (tasks K)) K).
  assert (Hinv' : kernel_inv K') by (by eapply inv_upd_inert; try done; apply ready_first_run_over).
  split_and!.
  - by apply inv_set_level.
  - intros r' rc'. simpl. rewrite Hr. intros [= <-]. rewrite lookup_insert_eq. intros [= <-].
    rewrite ready_first_run_over. by apply (Hunl r rc).
  - done.
  - split; [apply lookup_insert_eq|]. exists r, (first_run_over rc).
    split_and!; [done|apply lookup_insert_eq|]. left.
    revert Hcand. apply candidate_view; try done. intros x. simpl.
    destruct (decide (x = r)) as [->|].
    + rewrite Hrc, lookup_insert_eq. constructor. split_and!; try done. apply ready_first_run_over.
    + rewrite lookup_insert_ne by done. destruct (tasks K !! x); by constructor.
  - done.
Qed.

(** A turn that may switch. *)
Lemma next_turn fuel K r rc :
  turn K r rc →
  (∀ K' r' rc', turn K' r' rc' → ncpus K' = ncpus K →
     isChangedToPrivate (smpInfo rc') = false →
     (isChangedToPrivate (smpInfo rc) = false → ttosGetCandidateTask c K' = Some (r', K')) →
     wp (ttosTaskSchedule fuel c) K' (finished K')) →
  wp (ttosTaskSchedule (S fuel) c) K (finished K).
Proof.
  intros Hturn Hrest.
  destruct (candidate_fit K c (tn_inv _ _ _ Hturn) (tn_cpu _ _ _ Hturn) r (tn_run _ _ _ Hturn))
    as (t & tc & Hcand & Ht & Hrd & Haff & Hoff).
  destruct (decide (t = r)) as [->|Hne]; [by eapply last_turn|]. simpl. apply wp_bind.
  unfold wp at 1, ttosGetRunningTaskWithCpuID. rewrite (tn_run _ _ _ Hturn). simpl.
  apply wp_bind. unfold wp at 1. rewrite Hcand. rewrite bool_decide_false by done.
  apply wp_bind, wp_modify. set (K1 := set_ttosDisableScheduleLevel _ K).
  assert (Hturn1 : turn K1 r rc) by (by apply turn_set_level).
  assert (Hcand1 : ttosGetCandidateTask c K1 = Some (t, K1)) by (by apply candidate_set_level).
  destruct Hturn1 as [Hinv Hc Hunl Hr Hrc].
  apply wp_bind. eapply wp_get_task; [done|].
  destruct (negb _ && _) eqn:Ep.
  - apply andb_true_iff in Ep as [Hn%negb_true_iff Hp%Z.ltb_lt]. apply wp_modify. split_and!.
    + by apply inv_set_level.
    + done.
    + done.
    + split; [apply lookup_insert_eq|]. exists r, rc. split_and!; [done..|by right].
    + done.
  - apply wp_bind. eapply wp_mono; [by eapply switch_turn; eauto|].
    intros [] K2 (Hinv2 & Hc2 & Hunl2 & En2 & Eo2 & Er2 & (nc' & Hn2 & Hp2) & Hst2).
    eapply wp_mono; [eapply Hrest; try done; split; try done; by rewrite Er2, lookup_insert_eq|].
    intros u K3 Hf. by eapply finished_from.
Qed.

Lemma schedule_run fuel K r rc :
  turn K r rc → wp (ttosTaskSchedule (3 + fuel) c) K (finished K).
Proof.
  intros Hturn. eapply next_turn; [done|]. intros K1 r1 rc1 Hturn1 En1 Hp1 _.
  eapply next_turn; [done|]. intros K2 r2 rc2 Hturn2 En2 Hp2 Hst2. eapply last_turn; eauto.
Qed.

End Loop.
