(* ===== verification/SchedProps.v ===== *)
(** * The scheduler's properties, and the states that witness them

    The theorems of [SchedInv] and [Dispatch] stated for the code's entry
    points, with a two-CPU kernel on which each of them is instantiated. *)

From S2P Require Import Prelude Chain PrioMap Kernel Sched SchedInv Dispatch.
Import Width.
Local Open Scope Z_scope.

(** ** A two-CPU kernel after boot: each CPU runs its idle task *)

Definition no_wait : wait_info := WaitInfo None 0 0 TTOS_OK None.

Definition mk_task (st pri : Z) (aff on : option cpuid) : tcb :=
  TCB st pri SCHED_FIFO pri 0 0 false 0 0 0 0 0 false no_wait
    (SmpInfo (match aff with Some c => {[c]} | None => ∅ end) aff on false false ∅ None).

Definition idle_tcb (c : cpuid) : tcb := mk_task TTOS_TASK_READY 255 (Some c) (Some c).

Definition idle_map : T_TTOS_PriorityMap :=
  default empty_map (TBSP_SET_PRIORITYBITMAP 255 empty_map).

Definition boot_kernel : kernel := {|
  tasks := {[0%nat := idle_tcb 0; 1%nat := idle_tcb 1]};
  oq := {[RQ (Some 0%nat) 255 := [0%nat]; RQ (Some 1%nat) 255 := [1%nat]]};
  runningTask := {[0%nat := 0%nat; 1%nat := 1%nat]};
  priorityQueueTask := {[0%nat := 0%nat; 1%nat := 1%nat]};
  globalTask := None;
  idleTask := {[0%nat := 0%nat; 1%nat := 1%nat]};
  ttosPriorityBitMap := {[0%nat := idle_map; 1%nat := idle_map]};
  ttosGlobalPriorityBitMap := empty_map;
  ttosDisableScheduleLevel := {[0%nat := 0; 1%nat := 0]};
  ncpus := 2;
  cpus_enabled := {[0%nat; 1%nat]};
  cpus_reserved := ∅;
  this_cpu := 0;
  ipis := [];
  in_isr := false;
  wqs := ∅;
|}.

Lemma idle_map_spec : pmap_wf idle_map ∧
  ∀ p, 0 ≤ p < 256 → pri_set idle_map p = bool_decide (p = 255).
Proof.
  destruct (set_spec empty_map empty_map_wf 255) as (m & Hm & Hwf & Hb); [lia|].
  unfold idle_map. rewrite Hm. simpl. split; [done|]. intros p Hp. rewrite Hb by done.
  assert (Hz : pri_set empty_map p = false) by (by apply (major_zero _ empty_map_wf)).
  by rewrite Hz, orb_false_r.
Qed.

Lemma boot_queue q : c_get q (oq boot_kernel) =
  if decide (q = RQ (Some 0%nat) 255) then [0%nat]
  else if decide (q = RQ (Some 1%nat) 255) then [1%nat] else [].
Proof.
  unfold c_get. simpl. repeat case_decide; subst; simplify_map_eq; try done.
Qed.

Lemma boot_cpu {A} (x : A) c v : ({[0%nat := x; 1%nat := x]} : gmap nat A) !! c = Some v →
  (c < 2)%nat ∧ v = x.
Proof. rewrite lookup_insert_Some, lookup_singleton_Some. naive_solver lia. Qed.

Lemma boot_inv : kernel_inv boot_kernel.
Proof.
  assert (Htask : ∀ t tc, tasks boot_kernel !! t = Some tc → (t < 2)%nat ∧ tc = idle_tcb t).
  { intros t tc. simpl. rewrite lookup_insert_Some, lookup_singleton_Some. naive_solver lia. }
  assert (Hcase : ∀ t, (t < 2)%nat → t = 0%nat ∨ t = 1%nat) by lia.
  split.
  - split.
    + intros q. rewrite boot_queue. repeat case_decide; repeat constructor; set_solver.
    + intros q1 q2 n. rewrite !boot_queue. repeat case_decide; set_solver.
  - intros a m. destruct idle_map_spec as [Hwf Hb]. destruct a as [c|]; cbn [rq_bitmap].
    + intros [Hc ->]%boot_cpu. split; [done|]. intros p Hp. rewrite Hb, bool_decide_eq_true by done.
      rewrite (boot_queue (RQ (Some c) p)).
      destruct (Hcase c Hc) as [-> | ->]; repeat case_decide; naive_solver.
    + intros [= <-]. split; [apply empty_map_wf|]. intros p Hp.
      rewrite (boot_queue (RQ None p)). rewrite (proj1 (major_zero _ empty_map_wf)) by done. done.
  - intros a m. destruct a as [c|]; cbn [rq_bitmap cached_top].
    + intros [Hc ->]%boot_cpu. assert (Hl : priorityQueueTask boot_kernel !! c = Some c).
      { by destruct (Hcase c Hc) as [-> | ->]. }
      rewrite Hl. exists 255. split; [lia|]. rewrite (boot_queue (RQ (Some c) 255)). split.
      * by destruct (Hcase c Hc) as [-> | ->].
      * intros p Hp. rewrite (boot_queue (RQ (Some c) p)). rewrite !decide_False by (intros [= _ ->]; lia).
        done.
    + intros _ p Hp. by rewrite (boot_queue (RQ None p)).
  - intros a p t. rewrite boot_queue. repeat case_decide; simplify_eq; intros Ht.
    + apply list_elem_of_singleton in Ht as ->. by exists (idle_tcb 0).
    + apply list_elem_of_singleton in Ht as ->. by exists (idle_tcb 1).
    + by apply not_elem_of_nil in Ht.
  - intros t tc [Ht ->]%Htask _ _. rewrite boot_queue.
    destruct (Hcase t Ht) as [-> | ->]; simpl; set_solver.
  - intros t tc [Ht ->]%Htask. split; try done; simpl.
    + intros c [= <-]. done.
    + intros a c [= <-] [= <-]. done.
  - intros c. simpl. split.
    + intros Hc. by destruct (Hcase c Hc) as [-> | ->]; eexists.
    + intros [m [Hc _]%boot_cpu]. done.
  - intros c Hc. exists c, (idle_tcb c). by destruct (Hcase c Hc) as [-> | ->].
  - intros t tc c [Ht ->]%Htask [= <-]. by destruct (Hcase t Ht) as [-> | ->].
  - intros c Hc. exists c, (idle_tcb c). by destruct (Hcase c Hc) as [-> | ->].
  - simpl. lia.
Qed.

(** Three more tasks, created but not started: 2 unbound, 3 and 4 bound to CPU 0. *)
Definition add_task (t : tid) (tc : tcb) (K : kernel) : kernel :=
  set_tasks (<[t := tc]> (tasks K)) K.

Definition demo_kernel : kernel :=
  add_task 4 (mk_task 0 20 (Some 0%nat) None)
    (add_task 3 (mk_task 0 20 (Some 0%nat) None)
      (add_task 2 (mk_task 0 10 None None) boot_kernel)).

Lemma fresh_ok pri aff n :
  0 ≤ pri < 256 → (∀ c, aff = Some c → (c < n)%nat) →
  tcb_ok n (mk_task 0 pri aff None).
Proof. intros Hp Ha. split; try done; simpl; by destruct aff. Qed.

Lemma demo_inv : kernel_inv demo_kernel.
Proof.
  unfold demo_kernel. do 3 (apply inv_new_task; [|done|apply fresh_ok; [lia|intros c Hc; simplify_eq/=; lia]|done..]).
  apply boot_inv.
Qed.

(** The kernel after a computation that does not fault. *)
Definition after {A} (m : M kernel A) (K : kernel) : kernel :=
  match m K with Some (_, K') => K' | None => K end.

Lemma after_wp {A} (m : M kernel A) K (P : kernel → Prop) : wp m K (λ _ K', P K') → P (after m K).
Proof. unfold wp, after. by destruct (m K) as [[]|]. Qed.

(** Tasks 2, 3 and 4 made ready. *)
Definition ready_kernel : kernel :=
  after (ttosSetTaskReady 4) (after (ttosSetTaskReady 3) (after (ttosSetTaskReady 2) demo_kernel)).

Lemma ready_inv : kernel_inv ready_kernel.
Proof.
  assert (Hstep : ∀ K t tc, kernel_inv K → tasks K !! t = Some tc → c_linked t (oq K) = false →
    flag_on (Z.lor TTOS_TASK_READY TTOS_TASK_SUSPEND) (state tc) = false →
    kernel_inv (after (ttosSetTaskReady t) K)).
  { intros K t tc Hinv Ht Hl Hf. apply after_wp.
    eapply wp_mono; [by eapply set_ready_run|]. by intros _ K' [? _]. }
  unfold ready_kernel.
  do 3 (eapply Hstep; [|vm_compute; reflexivity..]). apply demo_inv.
Qed.

(** ** Properties *)

(** C35: [ttosSetTaskReady] never faults on a task that is on no list unless it
    is ready, keeps the scheduler's invariant (the queues, both bitmap levels
    and the cached heads agree with the task states), does nothing to a task
    that is already ready or is suspended, and otherwise sets the ready bit and
    appends the task to the tail of the queue of its CPU and priority, with a
    full time slice, unless it is an unbound running task. *)
Theorem set_task_ready_correct K t tc :
  kernel_inv K → tasks K !! t = Some tc → (ready tc = false → c_linked t (oq K) = false) →
  ∃ K', ttosSetTaskReady t K = Some (tt, K') ∧ kernel_inv K' ∧
    if flag_on (Z.lor TTOS_TASK_READY TTOS_TASK_SUSPEND) (state tc) then K' = K
    else tasks K' = <[t := made_ready tc]> (tasks K) ∧ runningTask K' = runningTask K ∧
         oq K' = if queued_kind tc
                 then c_add_tail t (RQ (affCpu tc) (taskCurPriority tc)) (oq K) else oq K.
Proof.
  intros Hinv Ht Hl. destruct (flag_on (Z.lor _ _) (state tc)) eqn:Hf.
  - exists K. split_and!; try done. unfold ttosSetTaskReady.
    erewrite bind_run by (unfold get_task; by rewrite Ht). by rewrite Hf.
  - assert (Hr : ready tc = false) by (rewrite flag_on_lor in Hf; by apply orb_false_iff in Hf as [? _]).
    pose proof (set_ready_run _ _ _ Hinv Ht (Hl Hr) Hf) as Hwp.
    apply wp_run in Hwp as ([] & K' & ? & ? & ?). by exists K'.
Qed.

Lemma set_task_ready_correct_witness :
  ∃ K', ttosSetTaskReady 2 demo_kernel = Some (tt, K') ∧ c_get (RQ None 10) (oq K') = [2%nat].
Proof.
  destruct (set_task_ready_correct demo_kernel 2 (mk_task 0 10 None None)) as (K' & Hr & _ & _ & _ & Eo).
  - apply demo_inv.
  - vm_compute. reflexivity.
  - vm_compute. reflexivity.
  - exists K'. split; [exact Hr|]. rewrite Eo. vm_compute. reflexivity.
Defined.

(** [ttosSetTaskState] (through [ttosClearTaskReady]) keeps the invariant:
    a task that is not ready only gains the given state bits; a ready task that
    is not an idle task loses the ready bit, takes the given state and leaves
    its queue, the other tasks and queues staying as they are. *)
Theorem set_task_state_correct K t tc s :
  kernel_inv K → tasks K !! t = Some tc → not_idle t K →
  0 ≤ s < 2 ^ 32 → flag_on TTOS_TASK_READY s = false →
  ∃ K' tc', ttosSetTaskState t s K = Some (tt, K') ∧ kernel_inv K' ∧
    tasks K' = <[t := tc']> (tasks K) ∧ ready tc' = false ∧
    state tc' = (if ready tc then clear_flag TTOS_TASK_READY s else Z.lor (state tc) s) ∧
    oq K' = if ready tc && queued_kind tc then c_delete t (oq K) else oq K.
Proof.
  intros Hinv Ht Hni Hs Hsr. unfold ttosSetTaskState, task_state.
  erewrite bind_run by (erewrite bind_run by (unfold get_task; by rewrite Ht); done).
  assert (Hb : (Z.land (state tc) TTOS_TASK_READY =? TTOS_TASK_READY) = ready tc).
  { unfold ready, flag_on. change TTOS_TASK_READY with (2 ^ 1).
    destruct (Z.testbit (state tc) 1) eqn:E.
    - replace (Z.land (state tc) (2 ^ 1)) with (2 ^ 1); [done|].
      apply Z.bits_inj'. intros i Hi. rewrite Z.land_spec, Z.pow2_bits_eqb by lia.
      destruct (Z.eqb_spec 1 i) as [<-|]; [by rewrite E|by rewrite andb_false_r].
    - replace (Z.land (state tc) (2 ^ 1)) with 0; [done|].
      apply Z.bits_inj'. intros i Hi. rewrite Z.bits_0, Z.land_spec, Z.pow2_bits_eqb by lia.
      destruct (Z.eqb_spec 1 i) as [<-|]; [by rewrite E|by rewrite andb_false_r]. }
  rewrite Hb. destruct (ready tc) eqn:Hr; simpl.
  - erewrite bind_run by (unfold upd_task; by rewrite Ht).
    pose proof (clear_ready_run K t tc (set_state s tc) Hinv Ht Hr Hni eq_refl eq_refl) as Hwp.
    apply wp_run in Hwp as ([] & K' & Hrun & ? & Et & _ & _ & Eo).
    exists K', (made_unready (set_state s tc)). split_and!; try done. by apply flag_on_clear.
  - set (tc' := set_state (Z.lor (state tc) s) tc).
    assert (Hr' : ready tc' = false).
    { unfold ready, flag_on in *. apply negb_false_iff, Z.eqb_eq. simpl.
      apply negb_false_iff, Z.eqb_eq in Hr, Hsr. rewrite Z.land_lor_distr_l, Hr, Hsr. done. }
    exists (set_tasks (<[t := tc']> (tasks K)) K), tc'. split; [unfold upd_task; by rewrite Ht|].
    split_and!; try done. eapply inv_upd_inert; try done. congruence.
Qed.

Lemma set_task_state_correct_witness :
  ∃ K' tc', ttosSetTaskState 3 TTOS_TASK_SUSPEND ready_kernel = Some (tt, K') ∧
    state tc' = TTOS_TASK_SUSPEND ∧ tasks K' !! 3%nat = Some tc' ∧
    c_get (RQ (Some 0%nat) 20) (oq K') = [4%nat].
Proof.
  destruct (set_task_state_correct ready_kernel 3 (made_ready (mk_task 0 20 (Some 0%nat) None))
    TTOS_TASK_SUSPEND) as (K' & tc' & Hr & _ & Et & _ & Es & Eo).
  - apply ready_inv.
  - vm_compute. reflexivity.
  - intros c Hc. assert (Hcc : c = 0%nat ∨ c = 1%nat) by (vm_compute in Hc; lia).
    destruct Hcc as [-> | ->]; vm_compute; discriminate.
  - vm_compute. split; [discriminate|reflexivity].
  - vm_compute. reflexivity.
  - exists K', tc'. rewrite Et, Eo, Es. split_and!; [exact Hr|vm_compute; reflexivity| |vm_compute; reflexivity].
    apply lookup_insert_eq.
Defined.

(** [TTOS_SetTaskPriority] returns [TTOS_OK] and keeps the invariant; a
    queued task moves to the head or the tail of the queue of its new priority
    as [prependIt] asks, and a task that is not on a queue only has its two
    priority fields written. *)
Theorem set_task_priority_correct K t tc p prepend :
  kernel_inv K → tasks K !! t = Some tc → not_idle t K → 0 ≤ p < 256 →
  ready tc = negb (flag_on TTOS_TASK_NONRUNNING_STATE (state tc)) →
  ∃ K', TTOS_SetTaskPriority t p prepend K = Some (TTOS_OK, K') ∧ kernel_inv K' ∧
    tasks K' = <[t := with_priority p tc]> (tasks K) ∧
    oq K' = if ready tc && queued_kind tc
            then c_put prepend t (RQ (affCpu tc) p) (c_delete t (oq K)) else oq K.
Proof.
  intros Hinv Ht Hni Hp Hr.
  pose proof (set_priority_run K t tc p prepend Hinv Ht Hni Hp Hr) as Hwp.
  apply wp_run in Hwp as (r & K' & ? & -> & ? & ? & _ & ?). by exists K'.
Qed.

Lemma ready_not_idle t : (2 ≤ t)%nat → not_idle t ready_kernel.
Proof.
  intros Ht c Hc. assert (Hcc : c = 0%nat ∨ c = 1%nat) by (vm_compute in Hc; lia).
  destruct Hcc as [-> | ->]; [change (Some 0%nat ≠ Some t)|change (Some 1%nat ≠ Some t)]; intros [= <-]; lia.
Qed.

Lemma set_task_priority_correct_witness :
  ∃ K', TTOS_SetTaskPriority 3 5 true ready_kernel = Some (TTOS_OK, K') ∧
    c_get (RQ (Some 0%nat) 5) (oq K') = [3%nat] ∧ c_get (RQ (Some 0%nat) 20) (oq K') = [4%nat].
Proof.
  destruct (set_task_priority_correct ready_kernel 3 (made_ready (mk_task 0 20 (Some 0%nat) None))
    5 true) as (K' & Hr & _ & _ & Eo).
  - apply ready_inv.
  - vm_compute. reflexivity.
  - apply ready_not_idle. lia.
  - lia.
  - vm_compute. reflexivity.
  - exists K'. rewrite Eo. split_and!; [exact Hr|vm_compute; reflexivity..].
Defined.

(** [ttosRotateRunningTask] keeps the invariant and gives round robin: a
    bound running task that has a successor on its queue goes to the tail of
    that queue, the others keeping their order; an unbound running task is
    marked rotated exactly when another unbound task waits at its priority. *)
Theorem rotate_running_task_correct K t tc c :
  kernel_inv K → tasks K !! t = Some tc → ready tc = true → onCpu tc = Some c →
  ∃ K', ttosRotateRunningTask t K = Some (tt, K') ∧ kernel_inv K' ∧
    match affCpu tc with
    | None => oq K' = oq K ∧
        tasks K' = if c_is_empty (RQ None (taskCurPriority tc)) (oq K) then tasks K
                   else <[t := upd_smp (set_isRotated true) tc]> (tasks K)
    | Some a => tasks K' = tasks K ∧
        ∀ q, c_get q (oq K') =
          if decide (q = RQ (Some a) (taskCurPriority tc))
          then match c_next t q (oq K) with
               | Some _ => filter (λ x, x ≠ t) (c_get q (oq K)) ++ [t]
               | None => c_get q (oq K)
               end
          else c_get q (oq K)
    end.
Proof.
  intros Hinv Ht Hr Hon. pose proof (rotate_run K t tc c Hinv Ht Hr Hon) as Hwp.
  apply wp_run in Hwp as ([] & K' & Hrun & Hinv' & _ & Hpost). exists K'. split_and!; [done..|].
  destruct (affCpu tc) as [a|] eqn:Ea; [|done]. destruct Hpost as [Et Eo]. split; [done|].
  assert (Hin : t ∈ c_get (RQ (Some a) (taskCurPriority tc)) (oq K)).
  { rewrite <- Ea. apply (si_complete _ _ Hinv); [done..|]. unfold queued_kind. by rewrite Ea. }
  intros q. rewrite Eo. destruct (c_next t (RQ _ _) (oq K)) as [n|] eqn:En.
  - rewrite bool_decide_false, get_rotated by (done || apply Hinv). repeat case_decide; try congruence.
    subst q. by rewrite En.
  - rewrite bool_decide_true by done. case_decide; [|done]. subst q. by rewrite En.
Qed.

(** CPU 0 switched to task 3, task 2 running on CPU 1. *)
Definition busy_kernel : kernel :=
  after (ttosTaskSchedule 3 0) (after (ttosTaskSchedule 3 1) ready_kernel).

(** C21: on an enabled CPU, [ttosGetCandidateTask] returns a task that may run
    there (ready, and bound to it or, unless the CPU is reserved, unbound and
    not running elsewhere) and no such task is more urgent. *)
Theorem candidate_is_optimal K c :
  kernel_inv K → (c < ncpus K)%nat → c ∈ cpus_enabled K →
  ∃ t tc, ttosGetCandidateTask c K = Some (t, K) ∧ eligible c K t tc ∧
    ∀ t' tc', eligible c K t' tc' → taskCurPriority tc ≤ taskCurPriority tc'.
Proof. intros Hinv Hc Hen. by apply candidate_best. Qed.

Lemma candidate_is_optimal_witness :
  ∃ t tc, ttosGetCandidateTask 0 ready_kernel = Some (t, ready_kernel) ∧
    eligible 0 ready_kernel t tc.
Proof.
  destruct (candidate_is_optimal ready_kernel 0) as (t & tc & Hr & He & _).
  - apply ready_inv.
  - vm_compute. lia.
  - vm_compute. reflexivity.
  - exists t, tc. split; assumption.
Defined.

(** C1: from any state of the invariant the loop of [ttosTaskSchedule] on CPU
    [c] terminates without a fault after at most two context switches (three
    turns of fuel are enough, whatever the queues hold), keeps the invariant,
    re-enables scheduling on [c], and leaves the candidate running, unless the
    running task is runnable and has disabled preemption. *)
Theorem schedule_settles K c fuel :
  kernel_inv K → (c < ncpus K)%nat → running_unlinked c K →
  ∃ K', ttosTaskSchedule (3 + fuel) c K = Some (tt, K') ∧ kernel_inv K' ∧ settled c K'.
Proof.
  intros Hinv Hc Hunl. destruct (si_run _ _ Hinv c Hc) as (r & rc & Hr & Hrc & _).
  pose proof (schedule_run c fuel K r rc) as Hwp.
  assert (Ht : turn c K r rc) by (by split). apply Hwp in Ht.
  apply wp_run in Ht as ([] & K' & ? & ? & _ & _ & ? & _). by exists K'.
Qed.

Lemma bound_running_unlinked c K r rc :
  runningTask K !! c = Some r → tasks K !! r = Some rc → affCpu rc ≠ None → running_unlinked c K.
Proof. intros Hr Hrc Ha r' rc' Hr' Hrc'. simplify_eq. done. Qed.

Lemma schedule_settles_witness :
  ∃ K', ttosTaskSchedule 3 1 ready_kernel = Some (tt, K') ∧ settled 1 K'.
Proof.
  destruct (schedule_settles ready_kernel 1 0) as (K' & Hr & _ & Hs).
  - apply ready_inv.
  - vm_compute. lia.
  - eapply bound_running_unlinked; [vm_compute; reflexivity..|vm_compute; discriminate].
  - exists K'. split; [exact Hr|exact Hs].
Defined.

Lemma busy_inv : kernel_inv busy_kernel.
Proof.
  assert (Hstep : ∀ K c r rc, kernel_inv K → (c < ncpus K)%nat →
    runningTask K !! c = Some r → tasks K !! r = Some rc → affCpu rc ≠ None →
    kernel_inv (after (ttosTaskSchedule 3 c) K)).
  { intros K c r rc Hinv Hc Hr Hrc Ha. apply after_wp.
    eapply wp_mono; [eapply (schedule_run c 0 K r rc)|by intros [] K' [? _]].
    split; try done. by eapply bound_running_unlinked. }
  unfold busy_kernel.
  eapply Hstep; [eapply Hstep; [apply ready_inv|..]|..]; try (vm_compute; reflexivity);
    try (vm_compute; lia); vm_compute; discriminate.
Qed.

Lemma rotate_running_task_correct_witness :
  ∃ K', ttosRotateRunningTask 3 busy_kernel = Some (tt, K') ∧
    c_get (RQ (Some 0%nat) 20) (oq K') = [4%nat; 3%nat].
Proof.
  destruct (rotate_running_task_correct busy_kernel 3
    (switched_in 0 (made_ready (mk_task 0 20 (Some 0%nat) None))) 0) as (K' & Hr & _ & _ & Eo).
  - apply busy_inv.
  - vm_compute. reflexivity.
  - vm_compute. reflexivity.
  - vm_compute. reflexivity.
  - exists K'. split; [exact Hr|]. rewrite Eo. vm_compute. reflexivity.
Defined.
