(* ===== verification/Service.v ===== *)
(** * Entering and leaving a kernel service; task affinity, suspension

    [kernel/task/ttosTaskUtils.c] (the dispatch lock and [TTOS_SetTaskAffinity]),
    [ttosDisablePreempt.c], [ttosEnablePreempt.c], [ttosSuspendTask.c],
    [ttosResumeTask.c] and the object lookup of [kernel/utils/ttosUtils.c].

    A service runs under the kernel lock, so one service is one step of the
    model; [ttosEnableTaskDispatchWithLock] at its end reschedules the calling
    CPU.  The three turns the switch loop needs ([Dispatch.schedule_run]) are
    its fuel. *)

From S2P Require Import Prelude Chain PrioMap Kernel Sched Frame SchedInv Dispatch SchedProps.
Import Width.
Local Open Scope Z_scope.

Definition sched_fuel : nat := 3.

(** ** The dispatch lock *)

Definition ttosGetDisableScheduleLevelWithCpuID (c : cpuid) : M kernel Z :=
  λ K, l ← ttosDisableScheduleLevel K !! c; Some (l, K).

Definition ttosIncDisableScheduleLevel : M kernel unit :=
  c ← gets this_cpu;
  l ← ttosGetDisableScheduleLevelWithCpuID c;
  ttosSetDisableScheduleLevel c (u64 (l + 1)).

Definition ttosDecDisableScheduleLevel (c : cpuid) : M kernel unit :=
  l ← ttosGetDisableScheduleLevelWithCpuID c;
  ttosSetDisableScheduleLevel c (u64 (l - 1)).

Definition ttosDisableTaskDispatch : M kernel unit := ttosIncDisableScheduleLevel.

(** [osFaultHook] stops the system: a fault. *)
Definition ttosEnableTaskDispatch : M kernel unit :=
  c ← gets this_cpu;
  l ← ttosGetDisableScheduleLevelWithCpuID c;
  if negb (l =? 0) then
    _ ← ttosDecDisableScheduleLevel c;
    l ← ttosGetDisableScheduleLevelWithCpuID c;
    whenM (l =? 0) (ttosSchedule sched_fuel)
  else fault.

Definition ttosDisableTaskDispatchWithLock : M kernel unit := ttosDisableTaskDispatch.

Definition ttosScheduleInKernelLock : M kernel unit :=
  c ← gets this_cpu; ttosTaskSchedule sched_fuel c.

Definition ttosScheduleInIntDisAndKernelLock : M kernel unit :=
  c ← gets this_cpu;
  l ← ttosGetDisableScheduleLevelWithCpuID c;
  if negb (l =? 0) then mret tt else ttosTaskSchedule sched_fuel c.

Definition ttosEnableTaskDispatchWithLock : M kernel unit :=
  c ← gets this_cpu;
  l ← ttosGetDisableScheduleLevelWithCpuID c;
  if l =? 1 then ttosScheduleInKernelLock
  else if 1 <? l then ttosDecDisableScheduleLevel c
  else fault.

(** ** Preemption *)

Definition TTOS_DisablePreempt : M kernel unit :=
  t ← ttosGetRunningTask;
  isr ← gets in_isr;
  if (isr : bool) then mret tt
  else upd_task t (λ tc, set_preemptCount (u32 (preemptCount tc + 1)) tc).

Definition TTOS_EnablePreempt : M kernel unit :=
  t ← ttosGetRunningTask;
  isr ← gets in_isr;
  if (isr : bool) then mret tt
  else
    tc ← get_task t;
    whenM (negb (preemptCount tc =? 0)) (
      _ ← upd_task t (set_preemptCount (preemptCount tc - 1));
      whenM (preemptCount tc - 1 =? 0) (ttosSchedule sched_fuel)).

(** ** Looking a task up

    A task id that [ttosVerifyObjectCore] accepts is a task of the table that
    is not an idle task (idle tasks have no object header). *)

Definition ttosIsIdleTask (t : tid) : M kernel bool :=
  c ← gets this_cpu; gets (λ K, bool_decide (idleTask K !! c = Some t)).

Definition is_task_object (t : tid) (K : kernel) : bool :=
  bool_decide (is_Some (tasks K !! t)) &&
  forallb (λ c, negb (bool_decide (idleTask K !! c = Some t))) (seq 0 (ncpus K)).

(** [None] is [TTOS_SELF_OBJECT_ID]; the lookup leaves the dispatch lock held. *)
Definition ttosGetObjectById (id : option tid) : M kernel (option tid) :=
  match id with
  | None =>
      t ← ttosGetRunningTask;
      b ← ttosIsIdleTask t;
      if (b : bool) then mret None
      else _ ← ttosDisableTaskDispatchWithLock; mret (Some t)
  | Some t =>
      ok ← gets (is_task_object t);
      if (ok : bool) then _ ← ttosDisableTaskDispatchWithLock; mret (Some t) else mret None
  end.

(** ** Affinity *)

Definition CPU_SETSIZE : nat := 1024.
Definition CONFIG_MAX_CPUS : nat := 8.

(** The first CPU of a set; the loop variable keeps 0 for an empty one. *)
Definition first_cpu (s : gset cpuid) : cpuid :=
  match filter (λ i, i ∈ s) (seq 0 CPU_SETSIZE) with i :: _ => i | [] => 0%nat end.

(** The requested CPU: [None] when the arguments are rejected, [Some None] for
    an unbound task. *)
Definition affinity_index (aff : gset cpuid) (K : kernel) : option (option cpuid) :=
  if (size aff =? 0)%nat then Some None
  else
    let i := first_cpu aff in
    if (ncpus K <=? i)%nat || (1 <? size aff)%nat then None
    else if bool_decide (i ∉ cpus_enabled K) || (CONFIG_MAX_CPUS <=? i)%nat then None
    else Some (Some i).

(** The move itself, with the task found and the arguments accepted. *)
Definition move_task (t : tid) (tc : tcb) (aff : gset cpuid) (idx : option cpuid) :
    M kernel unit :=
  if bool_decide (affCpu tc = None) && bool_decide (onCpu tc ≠ None) then
    upd_task t (upd_smp (λ s, set_gRunTaskAffinityCpuIndex idx
      (set_gRunTaskAffinity aff (set_isChangedToPrivate true s))))
  else
    let was_ready := flag_on TTOS_TASK_READY (state tc) in
    _ ← whenM was_ready (ttosClearTaskReady t);
    _ ← upd_task t (upd_smp (λ s, set_affinityCpuIndex idx (set_affinity aff s)));
    whenM was_ready (
      _ ← ttosSetTaskReady t;
      upd_task t (set_tickSlice (tickSlice tc))).

Definition TTOS_SetTaskAffinity (id : option tid) (aff : gset cpuid) : M kernel retcode :=
  executing ← ttosGetRunningTask;
  isr ← gets in_isr;
  if (isr : bool) then mret TTOS_CALLED_FROM_ISR
  else
    o ← gets (affinity_index aff);
    match o with
    | None => mret TTOS_INVALID_NUMBER
    | Some idx =>
        idle ← ttosIsIdleTask executing;
        if bool_decide (id = None) && (idle : bool) then mret TTOS_INVALID_USER
        else
          o ← ttosGetObjectById (Some (default executing id));
          match o with
          | None => mret TTOS_INVALID_ID
          | Some t =>
              tc ← get_task t;
              if bool_decide (aff = affinity (smpInfo tc)) then
                _ ← ttosEnableTaskDispatchWithLock; mret TTOS_OK
              else if bool_decide (onCpu tc ≠ None) && (0 <? preemptCount tc) then
                _ ← ttosEnableTaskDispatchWithLock; mret TTOS_INVALID_STATE
              else
                _ ← move_task t tc aff idx;
                _ ← ttosEnableTaskDispatchWithLock; mret TTOS_OK
          end
    end.

Definition TTOS_GetTaskAffinity (id : option tid) : M kernel (retcode * option (gset cpuid)) :=
  executing ← ttosGetRunningTask;
  o ← ttosGetObjectById (Some (default executing id));
  match o with
  | None => mret (TTOS_INVALID_ID, None)
  | Some t =>
      tc ← get_task t;
      _ ← ttosEnableTaskDispatchWithLock;
      mret (TTOS_OK, Some (affinity (smpInfo tc)))
  end.

(** ** Suspend and resume *)

Definition ttosSuspendTask (t : tid) : M kernel unit :=
  _ ← upd_task t (λ tc, set_state (set_flag TTOS_TASK_SUSPEND (state tc)) tc);
  s ← task_state t;
  whenM (flag_on TTOS_TASK_READY s) (ttosClearTaskReady t).

Definition TTOS_SuspendTask (id : option tid) : M kernel retcode :=
  executing ← ttosGetRunningTask;
  isr ← gets in_isr;
  idle ← ttosIsIdleTask executing;
  if bool_decide (id = None) && (isr : bool) then mret TTOS_CALLED_FROM_ISR
  else if bool_decide (id = None) && (idle : bool) then mret TTOS_INVALID_USER
  else
    o ← ttosGetObjectById (Some (default executing id));
    match o with
    | None => mret TTOS_INVALID_ID
    | Some t =>
        s ← task_state t;
        if flag_on (Z.lor TTOS_TASK_DORMANT TTOS_TASK_SUSPEND) s then
          _ ← ttosEnableTaskDispatchWithLock; mret TTOS_INVALID_STATE
        else
          _ ← ttosSuspendTask t;
          _ ← ttosEnableTaskDispatchWithLock; mret TTOS_OK
    end.

Definition TTOS_ResumeTask (id : option tid) : M kernel retcode :=
  o ← ttosGetObjectById id;
  match o with
  | None => mret TTOS_INVALID_ID
  | Some t =>
      s ← task_state t;
      if negb (flag_on TTOS_TASK_SUSPEND s) then
        _ ← ttosEnableTaskDispatchWithLock; mret TTOS_INVALID_STATE
      else
        _ ← upd_task t (λ tc, set_state (clear_flag TTOS_TASK_SUSPEND (state tc)) tc);
        s ← task_state t;
        _ ← whenM (negb (flag_on TTOS_TASK_NONRUNNING_STATE s)) (ttosSetTaskReady t);
        _ ← ttosEnableTaskDispatchWithLock; mret TTOS_OK
  end.

(** ** Affinity keeps the invariant, unless it moves a running bound task *)

Lemma move_task_run K t tc aff idx :
  kernel_inv K → tasks K !! t = Some tc → not_idle t K →
  (∀ c, idx = Some c → (c < ncpus K)%nat) →
  (affCpu tc = None ∨ onCpu tc = None ∨ idx = None) →
  wp (move_task t tc aff idx) K (λ _ K', kernel_inv K' ∧ ∃ tc', tasks K' !! t = Some tc' ∧
    if bool_decide (affCpu tc = None) && bool_decide (onCpu tc ≠ None)
    then gRunTaskAffinityCpuIndex (smpInfo tc') = idx ∧ isChangedToPrivate (smpInfo tc') = true
    else affCpu tc' = idx).
Proof.
  intros Hinv Ht Hni Hidx Hsafe. unfold move_task.
  destruct (si_tcb_ok _ _ _ _ Hinv Ht) as [Hp Ha Hg Hb Hpr Hro].
  destruct (bool_decide (affCpu tc = None) && bool_decide (onCpu tc ≠ None)) eqn:Hcase.
  - apply andb_true_iff in Hcase as [Hn%bool_decide_eq_true Ho%bool_decide_eq_true].
    eapply wp_upd_task; [done|]. set (tc' := upd_smp _ tc). split.
    + eapply inv_upd_task; try done.
      * intros a p. apply (si_member _ _ _ _ _ _ Hinv Ht).
      * intros c Hc Hi. by apply Hni in Hi.
    + exists tc'. split; [apply lookup_insert_eq|done].
  - assert (Hq : queued_kind tc = true).
    { unfold queued_kind. apply andb_false_iff in Hcase as [H|H];
        apply bool_decide_eq_false in H; apply orb_true_iff;
        rewrite !bool_decide_eq_true; destruct (onCpu tc); naive_solver. }
    assert (Hnp : isChangedToPrivate (smpInfo tc) = false ∧ isRotated (smpInfo tc) = false).
    { split; apply not_true_iff_false; intros H;
        [destruct (Hpr H) as [E1 E2]|destruct (Hro H) as [E1 E2]];
        rewrite !bool_decide_true in Hcase by done; done. }
    set (tc1 := if ready tc then made_unready tc else tc).
    assert (Hfirst : wp (whenM (ready tc) (ttosClearTaskReady t)) K
      (λ _ K', kernel_inv K' ∧ tasks K' = <[t := tc1]> (tasks K) ∧
         (ready tc = true → c_linked t (oq K') = false) ∧ env K' = env K)).
    { unfold tc1. destruct (ready tc) eqn:Hr; simpl.
      - pose proof (clear_ready_run K t tc tc Hinv Ht Hr Hni eq_refl eq_refl) as Hwp.
        rewrite insert_id, set_tasks_same in Hwp by done. apply (wp_pres (λ K K', env K' = env K)) in Hwp; [|apply _].
        eapply wp_mono; [exact Hwp|]. intros _ K' ((? & -> & _ & _ & Eo) & ?). split_and!; try done.
        intros _. rewrite Eo, Hq. apply c_linked_delete.
      - apply wp_ret. split_and!; try done. by rewrite insert_id. }
    apply wp_bind. eapply wp_mono; [exact Hfirst|]. intros [] K1 (Hinv1 & Et1 & Hl1 & Henv1).
    injection Henv1 as _ Ei1 En1 _ _ _ _ _.
    assert (Hni1 : not_idle t K1) by (intros c; rewrite En1, Ei1; apply Hni).
    assert (Ht1 : tasks K1 !! t = Some tc1) by (rewrite Et1; apply lookup_insert_eq).
    assert (Hr1 : ready tc1 = false).
    { unfold tc1. destruct (ready tc) eqn:Hr; [by apply flag_on_clear|done]. }
    assert (Hsmp1 : smpInfo tc1 = smpInfo tc ∧ taskCurPriority tc1 = taskCurPriority tc)
      by (unfold tc1; by destruct (ready tc)).
    destruct Hsmp1 as [Hsmp1 Hpr1]. destruct Hnp as [Hnp Hnr].
    apply wp_bind. eapply wp_upd_task; [done|]. set (tc2 := upd_smp _ tc1).
    assert (Ha2 : affCpu tc2 = idx) by done.
    assert (Ho2 : onCpu tc2 = onCpu tc) by (unfold onCpu; simpl; by rewrite Hsmp1).
    assert (Hok2 : tcb_ok (ncpus K1) tc2).
    { rewrite En1. split; simpl; rewrite ?Hsmp1, ?Hpr1, ?Hnp, ?Hnr; try done.
      intros a c. rewrite Ha2, Ho2. intros -> Hc. destruct Hsafe as [Hs|[Hs|Hs]]; [|congruence..].
      exfalso. rewrite Hs, Hc in Hcase. done. }
    assert (Hinv2 : kernel_inv (set_tasks (<[t := tc2]> (tasks K1)) K1)).
    { eapply inv_with; [|apply lookup_insert_eq|by left].
      eapply inv_upd_off; try done.
      by apply (off_queues _ _ _ _ Hinv1 Ht1); left. }
    set (K2 := set_tasks _ K1) in *.
    assert (Ht2 : tasks K2 !! t = Some tc2) by apply lookup_insert_eq.
    apply wp_when; intros Hr; [|split; [done|by exists tc2]].
    assert (Hthird : wp (ttosSetTaskReady t) K2 (λ _ K', kernel_inv K' ∧
      ∃ tc3, tasks K' !! t = Some tc3 ∧ affCpu tc3 = idx)).
    { destruct (flag_on (Z.lor TTOS_TASK_READY TTOS_TASK_SUSPEND) (state tc2)) eqn:Hf.
      - unfold ttosSetTaskReady. apply wp_bind. eapply wp_get_task; [done|]. rewrite Hf.
        apply wp_ret. split; [done|by exists tc2].
      - eapply wp_mono; [eapply (set_ready_run K2 t tc2); try done; by apply Hl1|].
        intros _ K' (? & Et & _). split; [done|]. exists (made_ready tc2).
        rewrite Et, lookup_insert_eq. split; [done|]. unfold made_ready.
        by destruct (queued_kind tc2). }
    apply wp_bind. eapply wp_mono; [exact Hthird|]. intros [] K3 (Hinv3 & tc3 & Ht3 & Ha3).
    eapply wp_upd_task; [done|]. split; [by eapply inv_upd_inert|].
    eexists. split; [apply lookup_insert_eq|done].
Qed.

(** ** Service entry and exit *)

Lemma lookup_run K t l :
  is_task_object t K = true → ttosDisableScheduleLevel K !! this_cpu K = Some l →
  wp (ttosGetObjectById (Some t)) K (λ o K', o = Some t ∧
    K' = set_ttosDisableScheduleLevel
           (<[this_cpu K := u64 (l + 1)]> (ttosDisableScheduleLevel K)) K).
Proof.
  intros Hobj Hl. simpl. apply wp_bind, wp_gets. rewrite Hobj.
  apply wp_bind. unfold ttosDisableTaskDispatchWithLock, ttosDisableTaskDispatch,
    ttosIncDisableScheduleLevel, ttosGetDisableScheduleLevelWithCpuID.
  apply wp_bind, wp_gets, wp_bind. unfold wp at 1. rewrite Hl. simpl.
  apply wp_modify, wp_ret. done.
Qed.

(** What rescheduling at the end of a service leaves. *)
Record rescheduled (K K' : kernel) : Prop := {
  rs_evolves : evolves K K';
  rs_others : same_others K K';
  rs_wqs : wqs K' = wqs K;
  rs_sys : sys K' = sys K;
  rs_unl : running_unlinked (this_cpu K) K';
}.

Lemma leave_service_run K :
  kernel_inv K → running_unlinked (this_cpu K) K →
  ttosDisableScheduleLevel K !! this_cpu K = Some 1 →
  wp ttosEnableTaskDispatchWithLock K (λ _ K', kernel_inv K' ∧ settled (this_cpu K) K' ∧ rescheduled K K').
Proof.
  intros Hinv Hunl Hl. unfold ttosEnableTaskDispatchWithLock. apply wp_bind, wp_gets, wp_bind.
  unfold wp at 1, ttosGetDisableScheduleLevelWithCpuID. rewrite Hl. simpl.
  unfold ttosScheduleInKernelLock. apply wp_bind, wp_gets.
  destruct (si_run _ _ Hinv _ (si_this _ _ Hinv)) as (r & rc & Hr & Hrc & _).
  eapply wp_mono.
  - apply (wp_pres evolves); [apply _|]. apply (wp_pres (λ K K', wqs K' = wqs K)); [apply _|].
    apply (wp_pres (λ K K', sys K' = sys K)); [apply _|].
    apply (schedule_run _ 0 K r rc). split; try done. apply (si_this _ _ Hinv).
  - intros [] K' [[[(? & ? & _ & ? & ?) ?] ?] ?]. done.
Qed.

Lemma exit_run K :
  kernel_inv K → running_unlinked (this_cpu K) K →
  ttosDisableScheduleLevel K !! this_cpu K = Some 1 →
  wp ttosEnableTaskDispatchWithLock K (λ _ K', kernel_inv K' ∧ settled (this_cpu K) K' ∧ evolves K K').
Proof.
  intros. eapply wp_mono; [by apply leave_service_run|]. intros _ K' (? & ? & []). done.
Qed.

Lemma task_object_not_idle t K : is_task_object t K = true → not_idle t K.
Proof.
  unfold is_task_object. intros [_ Hall]%andb_true_iff c Hc Hi.
  rewrite forallb_forall in Hall. specialize (Hall c).
  rewrite bool_decide_true in Hall by done. discriminate Hall. apply in_seq. lia.
Qed.

(** A state bit other than the first-run mark survives scheduling. *)
Lemma evolves_flag K K' t tc m :
  evolves K K' → tasks K !! t = Some tc → 0 ≤ m < 2 ^ 32 → Z.land TTOS_TASK_FIRSTRUN m = 0 →
  ∃ tc', tasks K' !! t = Some tc' ∧ flag_on m (state tc') = flag_on m (state tc).
Proof.
  intros He Ht Hm Hd. destruct (evolves_task _ _ _ _ He Ht) as (tc' & Ht' & _ & Hs). exists tc'. split; [done|].
  destruct Hs as [->| ->]; [done|]. by apply flag_on_clear_ne.
Qed.

Lemma clear_set_flag m m' s : 0 ≤ m < 2 ^ 32 → 0 ≤ m' < 2 ^ 32 → Z.land m m' = 0 → m' ≠ 0 →
  flag_on m' (clear_flag m (set_flag m' s)) = true.
Proof. intros. rewrite flag_on_clear_ne by done. by apply flag_on_set. Qed.

(** [ttosSuspendTask]: the task is suspended and off the ready queues. *)
Lemma suspend_run K t tc :
  kernel_inv K → tasks K !! t = Some tc → not_idle t K →
  wp (ttosSuspendTask t) K (λ _ K', kernel_inv K' ∧ env K' = env K ∧
    (∃ tc', tasks K' = <[t := tc']> (tasks K) ∧ flag_on TTOS_TASK_SUSPEND (state tc') = true ∧
       ready tc' = false) ∧
    oq K' = if ready tc && queued_kind tc then c_delete t (oq K) else oq K).
Proof.
  intros Hinv Ht Hni. unfold ttosSuspendTask. apply wp_bind. eapply wp_upd_task; [done|].
  set (tc1 := set_state _ tc).
  assert (Hr1 : ready tc1 = ready tc).
  { unfold ready, tc1, set_flag, flag_on. simpl. rewrite Z.land_lor_distr_l.
    change (Z.land TTOS_TASK_SUSPEND TTOS_TASK_READY) with 0. by rewrite Z.lor_0_r. }
  apply wp_bind. unfold task_state. apply wp_bind. eapply wp_get_task; [apply lookup_insert_eq|].
  apply wp_ret. fold (ready tc1). rewrite Hr1. apply wp_when; intros Hr; rewrite Hr; simpl.
  - pose proof (clear_ready_run K t tc tc1 Hinv Ht Hr Hni eq_refl eq_refl) as Hwp.
    apply (wp_pres (λ K K', env K' = env K)) in Hwp; [|apply _]. eapply wp_mono; [exact Hwp|].
    intros _ K' ((? & Et & _ & _ & Eo) & Henv). split_and!; try done.
    exists (made_unready tc1). split_and!; [done| |by apply flag_on_clear]. by apply clear_set_flag.
  - split_and!; try done.
    + eapply inv_upd_inert; try done.
    + exists tc1. split_and!; [done| |congruence]. by apply flag_on_set.
Qed.

Lemma linked_delete_if b t r (C : gmap oqid (list tid)) :
  c_linked r C = false → c_linked r (if (b : bool) then c_delete t C else C) = false.
Proof.
  intros Hl. destruct b; [|done]. rewrite c_linked_false in *. intros q. rewrite elem_of_c_delete.
  specialize (Hl q). naive_solver.
Qed.

(** [TTOS_SuspendTask] on an existing task that is not an idle task never
    faults, keeps the invariant and reschedules the calling CPU.  A dormant or
    suspended task is refused with [TTOS_INVALID_STATE] and its state is
    unchanged; otherwise the call returns [TTOS_OK], the task has the suspend
    bit and is not ready. *)
Theorem suspend_task_correct K t tc :
  kernel_inv K → running_unlinked (this_cpu K) K →
  ttosDisableScheduleLevel K !! this_cpu K = Some 0 →
  is_task_object t K = true → tasks K !! t = Some tc →
  ∃ r K' tc', TTOS_SuspendTask (Some t) K = Some (r, K') ∧ kernel_inv K' ∧
    settled (this_cpu K) K' ∧ tasks K' !! t = Some tc' ∧
    if flag_on (Z.lor TTOS_TASK_DORMANT TTOS_TASK_SUSPEND) (state tc)
    then r = TTOS_INVALID_STATE ∧ ready tc' = ready tc
    else r = TTOS_OK ∧ flag_on TTOS_TASK_SUSPEND (state tc') = true ∧ ready tc' = false.
Proof.
  intros Hinv Hunl Hl Hobj Ht. pose proof (task_object_not_idle _ _ Hobj) as Hni.
  enough (Hwp : wp (TTOS_SuspendTask (Some t)) K (λ r K', kernel_inv K' ∧ settled (this_cpu K) K' ∧
    ∃ tc', tasks K' !! t = Some tc' ∧
    if flag_on (Z.lor TTOS_TASK_DORMANT TTOS_TASK_SUSPEND) (state tc)
    then r = TTOS_INVALID_STATE ∧ ready tc' = ready tc
    else r = TTOS_OK ∧ flag_on TTOS_TASK_SUSPEND (state tc') = true ∧ ready tc' = false)).
  { apply wp_run in Hwp as (r & K' & ? & ? & ? & tc' & ? & ?). by exists r, K', tc'. }
  destruct (si_run _ _ Hinv _ (si_this _ _ Hinv)) as (e & ec & He & Hec & _).
  unfold TTOS_SuspendTask, ttosIsIdleTask. apply wp_bind. unfold ttosGetRunningTask.
  apply wp_bind, wp_gets. unfold wp at 1, ttosGetRunningTaskWithCpuID. rewrite He. simpl.
  apply wp_bind, wp_gets, wp_bind, wp_bind, wp_gets, wp_gets. simpl.
  apply wp_bind. eapply wp_mono; [by eapply lookup_run|]. intros o K1 [-> ->].
  set (K1 := set_ttosDisableScheduleLevel _ K).
  assert (Hinv1 : kernel_inv K1) by (by apply inv_set_level).
  apply wp_bind. unfold task_state. apply wp_bind. eapply (wp_get_task K1); [exact Ht|]. apply wp_ret.
  destruct (flag_on (Z.lor _ _) (state tc)).
  - apply wp_bind. eapply wp_mono; [apply (exit_run K1 Hinv1 Hunl), lookup_insert_eq|].
    intros [] K' (? & ? & Hev). apply wp_ret. split_and!; try done.
    destruct (evolves_flag _ _ _ _ TTOS_TASK_READY Hev Ht) as (tc' & ? & ?); [done..|].
    by exists tc'.
  - apply wp_bind. eapply wp_mono; [by apply (suspend_run K1 t tc)|].
    intros [] K2 (Hinv2 & Henv & (tc2 & Et2 & Hs2 & Hr2) & Eo2).
    injection Henv as Erun _ _ _ _ Eth _ Elv.
    apply wp_bind. eapply wp_mono; [apply (exit_run K2 Hinv2)|].
    + rewrite Eth. intros r rc. rewrite Erun, Et2. intros Hr.
      destruct (decide (r = t)) as [->|].
      * rewrite lookup_insert_eq. intros [= <-] _. congruence.
      * rewrite lookup_insert_ne by done. intros Hrc Ha Hrd. rewrite Eo2. apply linked_delete_if.
        by eapply Hunl.
    + rewrite Elv, Eth. apply lookup_insert_eq.
    + intros [] K' (? & Hset & Hev). apply wp_ret. rewrite Eth in Hset.
      assert (Ht2 : tasks K2 !! t = Some tc2) by (rewrite Et2; apply lookup_insert_eq).
      destruct (evolves_flag _ _ _ _ TTOS_TASK_READY Hev Ht2) as (tc' & Ht' & Hf1); [done..|].
      destruct (evolves_flag _ _ _ _ TTOS_TASK_SUSPEND Hev Ht2) as (tc'' & Ht'' & Hf2); [done..|].
      rewrite Ht' in Ht''. injection Ht'' as <-. split_and!; try done.
      exists tc'. split_and!; try done; [by rewrite Hf2|]. unfold ready in *. by rewrite Hf1.
Qed.

Lemma suspend_task_correct_witness :
  ∃ r K' tc', TTOS_SuspendTask (Some 3%nat) ready_kernel = Some (r, K') ∧
    tasks K' !! 3%nat = Some tc' ∧ r = TTOS_OK ∧ ready tc' = false.
Proof.
  destruct (suspend_task_correct ready_kernel 3 (made_ready (mk_task 0 20 (Some 0%nat) None)))
    as (r & K' & tc' & Hr & _ & _ & Ht & Hres & _ & Hrd).
  - apply ready_inv.
  - eapply bound_running_unlinked; [vm_compute; reflexivity..|vm_compute; discriminate].
  - vm_compute. reflexivity.
  - vm_compute. reflexivity.
  - vm_compute. reflexivity.
  - exists r, K', tc'. split_and!; assumption.
Defined.

Lemma linked_add_tail_other t r q (C : gmap oqid (list tid)) :
  r ≠ t → c_linked r C = false → c_linked r (c_add_tail t q C) = false.
Proof.
  intros Hne Hl. rewrite c_linked_false in *. intros q'.
  rewrite (elem_of_c_put t false r q q' C). specialize (Hl q'). naive_solver.
Qed.

Definition resumed (tc : tcb) : tcb := set_state (clear_flag TTOS_TASK_SUSPEND (state tc)) tc.

(** Making a task ready that is neither ready nor suspended, if [b]. *)
Lemma ready_if_run K t tc (b : bool) :
  kernel_inv K → tasks K !! t = Some tc → ready tc = false →
  flag_on TTOS_TASK_SUSPEND (state tc) = false → running_unlinked (this_cpu K) K →
  (b = true → c_linked t (oq K) = false) →
  wp (whenM b (ttosSetTaskReady t)) K (λ _ K', kernel_inv K' ∧ env K' = env K ∧
    running_unlinked (this_cpu K) K' ∧ ∃ tc', tasks K' !! t = Some tc' ∧
      flag_on TTOS_TASK_SUSPEND (state tc') = false ∧ ready tc' = b).
Proof.
  intros Hinv Ht Hr Hs Hunl Hlink. destruct b; simpl.
  2: { apply wp_ret. split_and!; try done. by exists tc. }
  pose proof (set_ready_run K t tc Hinv Ht (Hlink eq_refl)) as Hwp.
  rewrite flag_on_lor in Hwp. fold (ready tc) in Hwp. rewrite Hr, Hs in Hwp.
  specialize (Hwp eq_refl). apply (wp_pres (λ K K', env K' = env K)) in Hwp; [|apply _].
  eapply wp_mono; [exact Hwp|]. intros _ K' ((? & Et & Er & Eo) & Henv). split_and!; try done.
  - intros r rc. rewrite Er, Et, Eo. intros Hrun. destruct (decide (r = t)) as [->|Hrt].
    + rewrite lookup_insert_eq. intros [= <-] Ha _.
      assert (Hq : queued_kind tc = false).
      { destruct (si_run _ _ Hinv _ (si_this _ _ Hinv)) as (e & ec & He & Hec & Hon). simplify_eq.
        unfold queued_kind. rewrite Hon.
        assert (Ha' : affCpu tc = None) by (unfold made_ready in Ha; by destruct (queued_kind tc)).
        by rewrite Ha'. }
      rewrite Hq. by apply Hlink.
    + rewrite lookup_insert_ne by done. intros Hrc Ha Hrd.
      destruct (queued_kind _); [apply linked_add_tail_other; [done|]|]; by eapply Hunl.
  - exists (made_ready tc). rewrite Et, lookup_insert_eq. split; [done|].
    assert (Est : state (made_ready tc) = set_flag TTOS_TASK_READY (state tc))
      by (unfold made_ready; by destruct (queued_kind _)).
    unfold ready. rewrite Est. split; [|by apply flag_on_set].
    unfold flag_on, set_flag. rewrite Z.land_lor_distr_l.
    change (Z.land TTOS_TASK_READY TTOS_TASK_SUSPEND) with 0. rewrite Z.lor_0_r. exact Hs.
Qed.

(** [TTOS_ResumeTask] on an existing task refuses a task that is not
    suspended; otherwise it clears the suspend bit, and the task becomes ready
    exactly when no other non-running state is left (a task that still sleeps
    or waits stays off the ready queues).  The invariant is kept and the
    calling CPU rescheduled. *)
Theorem resume_task_correct K t tc :
  kernel_inv K → running_unlinked (this_cpu K) K →
  ttosDisableScheduleLevel K !! this_cpu K = Some 0 →
  is_task_object t K = true → tasks K !! t = Some tc → ready tc = false →
  (flag_on TTOS_TASK_NONRUNNING_STATE (state (resumed tc)) = false → c_linked t (oq K) = false) →
  ∃ r K' tc', TTOS_ResumeTask (Some t) K = Some (r, K') ∧ kernel_inv K' ∧
    settled (this_cpu K) K' ∧ tasks K' !! t = Some tc' ∧
    if flag_on TTOS_TASK_SUSPEND (state tc)
    then r = TTOS_OK ∧ flag_on TTOS_TASK_SUSPEND (state tc') = false ∧
         ready tc' = negb (flag_on TTOS_TASK_NONRUNNING_STATE (state (resumed tc)))
    else r = TTOS_INVALID_STATE ∧ ready tc' = false.
Proof.
  intros Hinv Hunl Hl Hobj Ht Hnr Hlink. pose proof (task_object_not_idle _ _ Hobj) as Hni.
  enough (Hwp : wp (TTOS_ResumeTask (Some t)) K (λ r K', kernel_inv K' ∧ settled (this_cpu K) K' ∧
    ∃ tc', tasks K' !! t = Some tc' ∧
    if flag_on TTOS_TASK_SUSPEND (state tc)
    then r = TTOS_OK ∧ flag_on TTOS_TASK_SUSPEND (state tc') = false ∧
         ready tc' = negb (flag_on TTOS_TASK_NONRUNNING_STATE (state (resumed tc)))
    else r = TTOS_INVALID_STATE ∧ ready tc' = false)).
  { apply wp_run in Hwp as (r & K' & ? & ? & ? & tc' & ? & ?). by exists r, K', tc'. }
  unfold TTOS_ResumeTask. apply wp_bind. eapply wp_mono; [by eapply lookup_run|].
  intros o K1 [-> ->]. set (K1 := set_ttosDisableScheduleLevel _ K).
  assert (Hinv1 : kernel_inv K1) by (by apply inv_set_level).
  apply wp_bind. unfold task_state. apply wp_bind. eapply (wp_get_task K1); [exact Ht|]. apply wp_ret.
  destruct (flag_on TTOS_TASK_SUSPEND (state tc)) eqn:Hs; simpl.
  2: { apply wp_bind. eapply wp_mono; [apply (exit_run K1 Hinv1 Hunl), lookup_insert_eq|].
       intros [] K' (? & ? & Hev). apply wp_ret. split_and!; try done.
       destruct (evolves_flag _ _ _ _ TTOS_TASK_READY Hev Ht) as (tc' & ? & Hf); [done..|].
       exists tc'. split_and!; try done. unfold ready in *. by rewrite Hf. }
  apply wp_bind. eapply (wp_upd_task K1); [exact Ht|]. change (set_state _ tc) with (resumed tc).
  set (K2 := set_tasks _ K1).
  assert (Hr2 : ready (resumed tc) = false).
  { unfold ready, resumed. simpl. rewrite flag_on_clear_ne by done. exact Hnr. }
  assert (Hinv2 : kernel_inv K2) by (eapply inv_upd_inert; try done; congruence).
  assert (Ht2 : tasks K2 !! t = Some (resumed tc)) by apply lookup_insert_eq.
  assert (Hs2 : flag_on TTOS_TASK_SUSPEND (state (resumed tc)) = false) by (by apply flag_on_clear).
  apply wp_bind, wp_bind. eapply wp_get_task; [done|]. apply wp_ret.
  set (b := negb (flag_on TTOS_TASK_NONRUNNING_STATE (state (resumed tc)))).
  assert (Hunl2 : running_unlinked (this_cpu K) K2).
  { intros r rc Hr Hrc. destruct (decide (r = t)) as [->|]; [simplify_eq; congruence|].
    simpl in Hrc. rewrite lookup_insert_ne in Hrc by done. by apply Hunl. }
  apply wp_bind. eapply wp_mono.
  { apply (ready_if_run K2 t (resumed tc) b Hinv2 Ht2 Hr2 Hs2 Hunl2).
    intros Hb%negb_true_iff. by apply Hlink. }
  intros [] K3 (Hinv3 & Henv3 & Hunl3 & tc3 & Ht3 & Hs3 & Hr3).
  injection Henv3 as _ _ _ _ _ Eth _ Elv. apply wp_bind.
  eapply wp_mono; [apply (exit_run K3 Hinv3); [by rewrite Eth|rewrite Elv, Eth; apply lookup_insert_eq]|].
  intros [] K' (? & Hst & Hev). apply wp_ret. rewrite Eth in Hst. split_and!; try done.
  destruct (evolves_flag _ _ _ _ TTOS_TASK_READY Hev Ht3) as (tc' & Ht' & Hf1); [done..|].
  destruct (evolves_flag _ _ _ _ TTOS_TASK_SUSPEND Hev Ht3) as (tc'' & Ht'' & Hf2); [done..|].
  rewrite Ht' in Ht''. injection Ht'' as <-. exists tc'. split_and!; try done; [by rewrite Hf2|].
  unfold ready in *. by rewrite Hf1.
Qed.

(** The round trip: task 3, suspended and resumed. *)
Definition suspended_kernel : kernel := after (ttosSuspendTask 3) ready_kernel.

Lemma suspended_inv : kernel_inv suspended_kernel.
Proof.
  unfold suspended_kernel. apply after_wp. eapply wp_mono.
  - apply (suspend_run ready_kernel 3 (made_ready (mk_task 0 20 (Some 0%nat) None)) ready_inv).
    + vm_compute. reflexivity.
    + apply ready_not_idle. lia.
  - by intros _ K' [? _].
Qed.

Lemma resume_task_correct_witness :
  ∃ r K' tc', TTOS_ResumeTask (Some 3%nat) suspended_kernel = Some (r, K') ∧
    tasks K' !! 3%nat = Some tc' ∧ r = TTOS_OK ∧ ready tc' = true.
Proof.
  destruct (resume_task_correct suspended_kernel 3
      (made_unready (set_state (set_flag TTOS_TASK_SUSPEND TTOS_TASK_READY)
        (made_ready (mk_task 0 20 (Some 0%nat) None)))))
    as (r & K' & tc' & Hr & _ & _ & Ht & Hres & _ & Hrd).
  - apply suspended_inv.
  - eapply bound_running_unlinked; [vm_compute; reflexivity..|vm_compute; discriminate].
  - vm_compute. reflexivity.
  - vm_compute. reflexivity.
  - vm_compute. reflexivity.
  - vm_compute. reflexivity.
  - intros _. vm_compute. reflexivity.
  - exists r, K', tc'. split_and!; [exact Hr|exact Ht|exact Hres|].
    rewrite Hrd. vm_compute. reflexivity.
Defined.

(** The move at the heart of [TTOS_SetTaskAffinity] keeps the invariant
    whenever it does not take a bound task away from under the CPU that runs
    it: an unbound running task is only marked for the move, any other task is
    on the queue of its new CPU afterwards. *)
Theorem affinity_move_correct K t tc aff idx :
  kernel_inv K → tasks K !! t = Some tc → not_idle t K →
  (∀ c, idx = Some c → (c < ncpus K)%nat) →
  (affCpu tc = None ∨ onCpu tc = None ∨ idx = None) →
  ∃ K' tc', move_task t tc aff idx K = Some (tt, K') ∧ kernel_inv K' ∧
    tasks K' !! t = Some tc' ∧
    if bool_decide (affCpu tc = None) && bool_decide (onCpu tc ≠ None)
    then gRunTaskAffinityCpuIndex (smpInfo tc') = idx ∧ isChangedToPrivate (smpInfo tc') = true
    else affCpu tc' = idx.
Proof.
  intros Hinv Ht Hni Hidx Hsafe.
  pose proof (move_task_run K t tc aff idx Hinv Ht Hni Hidx Hsafe) as Hwp.
  apply wp_run in Hwp as ([] & K' & ? & ? & tc' & ? & ?). by exists K', tc'.
Qed.

Lemma affinity_move_correct_witness :
  ∃ K' tc', move_task 3 (made_ready (mk_task 0 20 (Some 0%nat) None)) {[1%nat]} (Some 1%nat)
      ready_kernel = Some (tt, K') ∧ tasks K' !! 3%nat = Some tc' ∧ affCpu tc' = Some 1%nat.
Proof.
  destruct (affinity_move_correct ready_kernel 3 (made_ready (mk_task 0 20 (Some 0%nat) None))
    {[1%nat]} (Some 1%nat)) as (K' & tc' & Hr & _ & Ht & Ha).
  - apply ready_inv.
  - vm_compute. reflexivity.
  - apply ready_not_idle. lia.
  - intros c [= <-]. vm_compute. lia.
  - right. left. vm_compute. reflexivity.
  - exists K', tc'. split_and!; [exact Hr|exact Ht|exact Ha].
Defined.

(** Task 3 bound to CPU 0 and running there; CPU 1 executes a service. *)
Definition other_cpu_kernel : kernel :=
  set_this_cpu 1 (after (TTOS_SetTaskPriority 3 5 false) busy_kernel).

(** [TTOS_SetTaskAffinity] can put one task on two CPUs: a state of the
    invariant in which task 3 runs on CPU 0, to which it is bound, and CPU 1
    calls [TTOS_SetTaskAffinity] to bind it to CPU 1: the call returns
    [TTOS_OK] and both CPUs run task 3.  (Only unbound running tasks are
    deferred to their next switch.) *)
Theorem set_affinity_two_cpus :
  kernel_inv other_cpu_kernel ∧
  wp (TTOS_SetTaskAffinity (Some 3%nat) {[1%nat]}) other_cpu_kernel (λ r K',
    r = TTOS_OK ∧ runningTask K' !! 0%nat = Some 3%nat ∧ runningTask K' !! 1%nat = Some 3%nat).
Proof.
  split.
  - assert (Hinv : kernel_inv (after (TTOS_SetTaskPriority 3 5 false) busy_kernel)).
    { apply after_wp. eapply wp_mono.
      - apply (set_priority_run busy_kernel 3
          (switched_in 0 (made_ready (mk_task 0 20 (Some 0%nat) None))) 5 false busy_inv);
          try (vm_compute; reflexivity); [|lia].
        intros c Hc. assert (Hcc : c = 0%nat ∨ c = 1%nat) by (vm_compute in Hc; lia).
        destruct Hcc as [-> | ->]; vm_compute; discriminate.
      - by intros r K' (_ & ? & _). }
    unfold other_cpu_kernel. destruct Hinv. split; try done. vm_compute. lia.
  - vm_compute. repeat split; reflexivity.
Qed.
