(* ===== verification/Taskq.v ===== *)
(** * Task wait queues: the pointer code

    [kernel/task/ttosTaskq.c], [ttosEnequeueTaskq.c], [ttosDequeueTaskq.c] and
    [ttosExtractTaskq.c] over the list nodes they link: a queue control block
    has one head (FIFO) or four heads of 64 priorities each, on which the
    first task of every priority is linked through its [resourceNode]; the
    other tasks of that priority are on the [samePriQueue] of the first.

    [pri] reads [taskCurPriority] from the control blocks.  The store to
    [wait.queue] is not a link and is made by [Wait.wq_enqueue].  Loops over a
    list take fuel; [TaskqInv] shows that the number of queued tasks plus one is
    enough. *)

From S2P Require Import Prelude Chain DList Kernel.
Local Open Scope Z_scope.

(** [&task->resourceNode.objectNode], [&task->wait.samePriQueue] and
    [&queue->queues.priorityQueue[i]]; [fifoQueue] shares the union with
    [priorityQueue[0]]. *)
Inductive addr :=
| Node (t : tid)
| Same (t : tid)
| Header (w : wqid) (i : nat).

#[export] Instance addr_eq_dec : EqDecision addr.
Proof. solve_decision. Defined.

Definition addr_enc (a : addr) : (tid + tid) + (wqid * nat) :=
  match a with Node t => inl (inl t) | Same t => inl (inr t) | Header w i => inr (w, i) end.

Definition addr_dec (x : (tid + tid) + (wqid * nat)) : addr :=
  match x with inl (inl t) => Node t | inl (inr t) => Same t | inr (w, i) => Header w i end.

#[export] Instance addr_countable : Countable addr.
Proof. refine (inj_countable' addr_enc addr_dec _). by intros []. Defined.

Abbreviation links := (gmap addr (list_node addr)).

Definition TTOS_QUEUE_DATA_NUMBER_OF_PRIORITY_HEADERS : nat := 4.
Definition TTOS_QUEUE_DATA_PRIORITIES_PER_HEADER : Z := 64.
Definition TTOS_QUEUE_DATA_REVERSE_SEARCH_LEVEL : Z := 0x20.

(** [((T_TTOS_ResourceTaskNode * )node)->task]. *)
Definition task_of (p : option addr) : option tid :=
  match p with Some (Node t) => Some t | _ => None end.

Definition header_of (w : wqid) (priority : Z) : addr :=
  Header w (Z.to_nat (priority / TTOS_QUEUE_DATA_PRIORITIES_PER_HEADER)).

Section Code.
Context (pri : tid → Z).

(** ** [ttosTaskq.c] *)

Fixpoint init_headers (w : wqid) (idx n : nat) : M links unit :=
  match n with
  | O => mret tt
  | S n => _ ← INIT_LIST_HEAD (Some (Header w idx)); init_headers w (S idx) n
  end.

Definition ttosInitializeTaskq (w : wqid) (fifo : bool) : M links unit :=
  if fifo then INIT_LIST_HEAD (Some (Header w 0))
  else init_headers w 0 TTOS_QUEUE_DATA_NUMBER_OF_PRIORITY_HEADERS.

Fixpoint headers_empty (w : wqid) (idx n : nat) : M links bool :=
  match n with
  | O => mret true
  | S n =>
      e ← list_is_empty (Some (Header w idx));
      if (e : bool) then headers_empty w (S idx) n else mret false
  end.

Definition ttosTaskqIsEmpty (w : wqid) (fifo : bool) : M links bool :=
  if fifo then list_is_empty (Some (Header w 0))
  else headers_empty w 0 TTOS_QUEUE_DATA_NUMBER_OF_PRIORITY_HEADERS.

(** ** [ttosEnequeueTaskq.c] *)

Definition ttosEnqueueFifo (w : wqid) (t : tid) : M links unit :=
  list_add_tail (Some (Node t)) (Some (Header w 0)).

(** The two searches of [ttosEnqueuePriority], from the tail and from the head. *)
Fixpoint search_back (fuel : nat) (priority : Z) (recordNode header : option addr) :
    M links (option addr) :=
  match fuel with
  | O => fault
  | S fuel =>
      match recordNode with
      | None => mret None
      | Some _ =>
          searchTask ← lift (task_of recordNode);
          if pri searchTask <=? priority then mret recordNode
          else p ← list_prev recordNode header; search_back fuel priority p header
      end
  end.

Fixpoint search_forward (fuel : nat) (priority : Z) (recordNode header : option addr) :
    M links (option addr) :=
  match fuel with
  | O => fault
  | S fuel =>
      match recordNode with
      | None => mret None
      | Some _ =>
          searchTask ← lift (task_of recordNode);
          if priority <=? pri searchTask then mret recordNode
          else n ← list_next recordNode header; search_forward fuel priority n header
      end
  end.

Definition ttosEnqueuePriority (fuel : nat) (w : wqid) (t : tid) : M links unit :=
  _ ← INIT_LIST_HEAD (Some (Same t));
  let priority := pri t in
  let tmpPriority := priority mod TTOS_QUEUE_DATA_PRIORITIES_PER_HEADER in
  let header := Some (header_of w priority) in
  if TTOS_QUEUE_DATA_REVERSE_SEARCH_LEVEL <=? tmpPriority then
    r ← list_tail header;
    recordNode ← search_back fuel priority r header;
    match recordNode with
    | Some _ =>
        searchTask ← lift (task_of recordNode);
        if priority =? pri searchTask
        then list_add_tail (Some (Node t)) (Some (Same searchTask))
        else list_add_after (Some (Node t)) recordNode
    | None => list_add_head (Some (Node t)) header
    end
  else
    r ← list_first header;
    recordNode ← search_forward fuel priority r header;
    match recordNode with
    | Some _ =>
        searchTask ← lift (task_of recordNode);
        if priority =? pri searchTask
        then list_add_tail (Some (Node t)) (Some (Same searchTask))
        else list_add_before (Some (Node t)) recordNode
    | None => list_add_tail (Some (Node t)) header
    end.

(** ** [ttosDequeueTaskq.c] *)

Definition ttosDequeueFifo (w : wqid) : M links (option tid) :=
  node ← list_first (Some (Header w 0));
  match node with
  | Some _ =>
      task ← lift (task_of node);
      _ ← list_delete node;
      mret (Some task)
  | None => mret None
  end.

Fixpoint first_node (w : wqid) (idx n : nat) : M links (option addr) :=
  match n with
  | O => mret None
  | S n =>
      e ← list_is_empty (Some (Header w idx));
      if (e : bool) then first_node w (S idx) n else list_first (Some (Header w idx))
  end.

(** The last two stores, and the task. *)
Definition unlink (t : tid) : M links (option tid) :=
  _ ← set_next (Some (Node t)) None;
  _ ← set_prev (Some (Node t)) None;
  mret (Some t).

Definition ttosDequeuePriority (w : wqid) : M links (option tid) :=
  node ← first_node w 0 TTOS_QUEUE_DATA_NUMBER_OF_PRIORITY_HEADERS;
  match node with
  | None => mret None
  | Some _ =>
      theTask ← lift (task_of node);
      newFirstNode ← list_first (Some (Same theTask));
      nextNode ← get_next (Some (Node theTask));
      previousNode ← get_prev (Some (Node theTask));
      if decide (nextNode = None ∨ previousNode = None) then mret None
      else
        let newFirstSame := Same <$> task_of newFirstNode in
        e ← list_is_empty (Some (Same theTask));
        if (e : bool) then
          _ ← set_next previousNode nextNode;
          _ ← set_prev nextNode previousNode;
          unlink theTask
        else
          lastNode ← list_tail (Some (Same theTask));
          newSecondNode ← get_next newFirstNode;
          _ ← set_next previousNode newFirstNode;
          _ ← set_prev nextNode newFirstNode;
          _ ← set_next newFirstNode nextNode;
          _ ← set_prev newFirstNode previousNode;
          if decide (lastNode = None) then mret None
          else
            _ ← if decide (newFirstNode ≠ lastNode) then
                  _ ← set_prev newSecondNode newFirstSame;
                  _ ← set_next newFirstSame newSecondNode;
                  _ ← set_prev newFirstSame lastNode;
                  set_next lastNode newFirstSame
                else mret tt;
            unlink theTask
  end.

(** ** [ttosExtractTaskq.c] *)

Definition ttosExtractFifo (t : tid) : M links unit :=
  n ← get_next (Some (Node t));
  if decide (n = None) then mret tt else list_delete (Some (Node t)).

Fixpoint move_all (fuel : nat) (from to : option addr) : M links unit :=
  match fuel with
  | O => fault
  | S fuel =>
      e ← list_is_empty from;
      if (e : bool) then mret tt
      else
        samePriNode ← list_delete_head from;
        _ ← list_add_tail samePriNode to;
        move_all fuel from to
  end.

Definition ttosExtractPriority (fuel : nat) (t : tid) : M links unit :=
  n ← get_next (Some (Node t));
  if decide (n = None) then mret tt
  else
    e ← list_is_empty (Some (Same t));
    _ ← if (e : bool) then list_delete (Some (Node t))
        else
          newFirstNode ← list_delete_head (Some (Same t));
          newFirstTask ← lift (task_of newFirstNode);
          _ ← list_replace (Some (Node t)) newFirstNode;
          _ ← set_next (Some (Node t)) None;
          _ ← set_prev (Some (Node t)) None;
          _ ← INIT_LIST_HEAD (Some (Same newFirstTask));
          move_all fuel (Some (Same t)) (Some (Same newFirstTask));
    INIT_LIST_HEAD (Some (Same t)).

End Code.
