(* ===== verification/TaskqRep.v ===== *)
(** * Wait-queue links as chains of tasks

    What the links of [Taskq] mean: for every head the tasks linked on it.  Each
    list operation of [list.h] and the two pieces of pointer surgery of the
    queue code ([list_replace] with its unlinking, and the promotion in
    [ttosDequeuePriority]) are verified against that meaning. *)

From S2P Require Import Prelude Chain DList Kernel Taskq.

Definition is_node (a : addr) : Prop := match a with Node _ => True | _ => False end.

Abbreviation chains := (gmap addr (list tid)).

Definition nodes_of (D : chains) : gmap addr (list addr) :=
  (λ xs : list tid, (Node <$> xs : list addr)) <$> D.

(** The links [h] hold the chains [D]; only heads have chains. *)
Record trep (h : links) (D : chains) : Prop := {
  tr_rep : Rep is_node h (nodes_of D);
  tr_heads : ∀ t, D !! Node t = None;
}.

#[export] Instance Node_inj : Inj (=) (=) Node.
Proof. by intros ?? [= ->]. Qed.

Section Rep.
Context (h : links) (D : chains) (HR : trep h D).

Lemma tr_lookup q xs : D !! q = Some xs →
  nodes_of D !! q = Some (Node <$> xs).
Proof. intros Hq. by unfold nodes_of; rewrite lookup_fmap, Hq. Qed.

Lemma tr_lookup_inv q xs : nodes_of D !! q = Some xs →
  ∃ ys, D !! q = Some ys ∧ xs = Node <$> ys.
Proof. unfold nodes_of. rewrite lookup_fmap. destruct (D !! q); naive_solver. Qed.

Lemma tr_nodup q xs : D !! q = Some xs → NoDup xs.
Proof.
  intros Hq. pose proof (rep_nodup _ _ _ (tr_rep _ _ HR) _ _ (tr_lookup _ _ Hq)) as Hnd.
  apply NoDup_cons in Hnd as [_ Hnd]. by apply NoDup_fmap_1 in Hnd.
Qed.

Lemma tr_disj q1 q2 xs1 xs2 t : D !! q1 = Some xs1 → D !! q2 = Some xs2 →
  t ∈ xs1 → t ∈ xs2 → q1 = q2.
Proof.
  intros H1 H2 Ht1 Ht2. eapply (rep_disj _ _ _ (tr_rep _ _ HR) _ _ _ _ (Node t)); try by apply tr_lookup.
  - right. by apply list_elem_of_fmap_2.
  - right. by apply list_elem_of_fmap_2.
Qed.

Lemma tr_wf : c_wf D.
Proof.
  split.
  - intros q. unfold c_get. destruct (D !! q) eqn:E; simpl; [by eapply tr_nodup|constructor].
  - intros q1 q2 t. unfold c_get.
    destruct (D !! q1) eqn:E1; simpl; [|by intros ?%not_elem_of_nil].
    destruct (D !! q2) eqn:E2; simpl; [|by intros _ ?%not_elem_of_nil]. by eapply tr_disj.
Qed.

Lemma tr_unlinked_node t : c_linked t D = false → unlinked (nodes_of D) (Node t).
Proof.
  rewrite c_linked_false. intros Hl q xs (ys & Hq & ->)%tr_lookup_inv. apply not_elem_of_cons. split.
  - intros <-. by rewrite (tr_heads _ _ HR) in Hq.
  - intros (t' & [= <-] & Hin)%list_elem_of_fmap. apply (Hl q). unfold c_get. by rewrite Hq.
Qed.

Lemma tr_unlinked_head q : ¬ is_node q → D !! q = None → unlinked (nodes_of D) q.
Proof.
  intros Hq Hn k xs (ys & Hk & ->)%tr_lookup_inv. apply not_elem_of_cons. split; [congruence|].
  intros (t & -> & _)%list_elem_of_fmap. by apply Hq.
Qed.

Lemma tr_get q t : t ∈ c_get q D → ∃ xs, D !! q = Some xs ∧ t ∈ xs ∧ Node t ∈ Node <$> xs.
Proof.
  unfold c_get. destruct (D !! q) as [xs|]; simpl; [|by intros ?%not_elem_of_nil].
  intros Ht. exists xs. split_and!; [done..|]. by apply list_elem_of_fmap_2.
Qed.

(** [next != NULL] is the test that the task is queued. *)
Lemma tr_linked t : is_Some (h !! Node t) →
  ∃ p, nx h (Node t) = Some p ∧ (p = None ↔ c_linked t D = false).
Proof.
  intros [[p v] Hn]. exists p. split; [unfold nx; by rewrite Hn|]. split.
  - intros ->. apply c_linked_false. intros q (xs & Hq & _ & Hin)%tr_get.
    destruct (next_rep _ _ _ _ _ _ (tr_rep _ _ HR) (tr_lookup _ _ Hq) Hin) as [Hnx _].
    unfold nx in Hnx. rewrite Hn in Hnx. done.
  - intros Hl. apply tr_unlinked_node in Hl.
    pose proof (rep_null _ _ _ (tr_rep _ _ HR) (Node t) _ I Hn Hl) as [= -> _]. done.
Qed.

End Rep.

Lemma fmap_c_set (D : chains) q xs : nodes_of (c_set q xs D) = c_set q (Node <$> xs) (nodes_of D).
Proof. unfold nodes_of, c_set. by rewrite fmap_insert. Qed.

Lemma fmap_c_get (D : chains) q : c_get q (nodes_of D) = Node <$> c_get q D.
Proof. unfold nodes_of, c_get. rewrite lookup_fmap. by destruct (D !! q). Qed.

Lemma heads_set (h : links) (D : chains) q xs : trep h D → is_Some (D !! q) →
  ∀ t, c_set q xs D !! Node t = None.
Proof.
  intros HR [ys Hq] t. unfold c_set. rewrite lookup_insert_ne; [apply HR|]. intros ->.
  by rewrite (tr_heads _ _ HR) in Hq.
Qed.

(** ** The list operations *)

Section Ops.
Context (h : links) (D : chains) (HR : trep h D).

Lemma t_first q xs : D !! q = Some xs →
  wp (list_first (Some q)) h (λ r h', r = Node <$> head xs ∧ h' = h).
Proof.
  intros Hq. pose proof (tr_lookup D _ _ Hq) as HC.
  destruct (first_rep _ _ _ _ _ (tr_rep _ _ HR) HC) as [Hn _].
  unfold list_first. apply wp_bind. eapply wp_get_next; [exact Hn|]. apply wp_ret. split; [|done].
  rewrite (not_head _ _ _ _ _ _ (tr_rep _ _ HR) HC); [by destruct xs|].
  intros x Hx. destruct xs; [done|]. injection Hx as <-. left.
Qed.

Lemma t_tail q xs : D !! q = Some xs →
  wp (list_tail (Some q)) h (λ r h', r = Node <$> last xs ∧ h' = h).
Proof.
  intros Hq. pose proof (tr_lookup D _ _ Hq) as HC.
  destruct (first_rep _ _ _ _ _ (tr_rep _ _ HR) HC) as [_ Hp].
  unfold list_tail. apply wp_bind. eapply wp_get_prev; [exact Hp|]. apply wp_ret. split; [|done].
  rewrite (not_head _ _ _ _ _ _ (tr_rep _ _ HR) HC); [by rewrite fmap_last|].
  intros x Hx. by apply last_in.
Qed.

Lemma t_is_empty q xs : D !! q = Some xs →
  wp (list_is_empty (Some q)) h (λ b h', b = bool_decide (xs = []) ∧ h' = h).
Proof.
  intros Hq. pose proof (tr_lookup D _ _ Hq) as HC.
  destruct (first_rep _ _ _ _ _ (tr_rep _ _ HR) HC) as [Hn _].
  unfold list_is_empty. apply wp_bind. eapply wp_get_next; [exact Hn|]. apply wp_ret. split; [|done].
  apply bool_decide_ext. destruct xs as [|x xs]; simpl; [done|]. split; [|done].
  intros [= <-]. by rewrite (tr_heads _ _ HR) in Hq.
Qed.

Lemma t_next q xs1 t xs2 : D !! q = Some (xs1 ++ t :: xs2) →
  wp (list_next (Some (Node t)) (Some q)) h (λ r h', r = Node <$> head xs2 ∧ h' = h).
Proof.
  intros Hq. pose proof (tr_lookup D _ _ Hq) as HC. rewrite fmap_app, fmap_cons in HC.
  destruct (around _ _ _ _ _ _ _ (tr_rep _ _ HR) HC) as (p & s & _ & Hs & _ & [Hn _] & _).
  unfold list_next. apply wp_bind. eapply wp_get_next; [exact Hn|]. apply wp_ret. split; [|done].
  destruct xs2 as [|x xs2]; injection Hs as <-; [by rewrite decide_False by congruence|].
  rewrite decide_True; [done|]. intros [= <-]. by rewrite (tr_heads _ _ HR) in Hq.
Qed.

Lemma t_prev q xs1 t xs2 : D !! q = Some (xs1 ++ t :: xs2) →
  wp (list_prev (Some (Node t)) (Some q)) h (λ r h', r = Node <$> last xs1 ∧ h' = h).
Proof.
  intros Hq. pose proof (tr_lookup D _ _ Hq) as HC. rewrite fmap_app, fmap_cons in HC.
  destruct (around _ _ _ _ _ _ _ (tr_rep _ _ HR) HC) as (p & s & Hp & _ & [_ Hv] & _).
  unfold list_prev. apply wp_bind. eapply wp_get_prev; [exact Hv|]. apply wp_ret. split; [|done].
  destruct xs1 as [|x xs1] using rev_ind.
  - injection Hp as <-. by rewrite decide_False by congruence.
  - rewrite fmap_app, app_comm_cons in Hp. change (Node <$> [x]) with [Node x] in Hp.
    rewrite last_snoc in Hp. injection Hp as <-.
    rewrite last_snoc. rewrite decide_True; [done|]. intros [= <-]. by rewrite (tr_heads _ _ HR) in Hq.
Qed.

Lemma t_add_tail q xs t : D !! q = Some xs → c_linked t D = false → is_Some (h !! Node t) →
  wp (list_add_tail (Some (Node t)) (Some q)) h
    (λ _ h', trep h' (c_set q (xs ++ [t]) D) ∧ dom h' = dom h).
Proof.
  intros Hq Hl Hd. eapply wp_mono.
  { eapply add_tail_rep; [apply HR|by apply tr_lookup|by eapply tr_unlinked_node|done]. }
  intros [] h' [HR' ?]. split; [|done]. split; [|eapply heads_set; eauto].
  rewrite fmap_c_set, fmap_app. unfold c_add_tail in HR'. rewrite fmap_c_get in HR'.
  unfold c_get in HR'. by rewrite Hq in HR'.
Qed.

Lemma t_add_head q xs t : D !! q = Some xs → c_linked t D = false → is_Some (h !! Node t) →
  wp (list_add_head (Some (Node t)) (Some q)) h
    (λ _ h', trep h' (c_set q (t :: xs) D) ∧ dom h' = dom h).
Proof.
  intros Hq Hl Hd. eapply wp_mono.
  { eapply add_head_rep; [apply HR|by apply tr_lookup|by eapply tr_unlinked_node|done]. }
  intros [] h' [HR' ?]. split; [|done]. split; [|eapply heads_set; eauto].
  rewrite fmap_c_set. unfold c_add_head in HR'. rewrite fmap_c_get in HR'.
  unfold c_get in HR'. by rewrite Hq in HR'.
Qed.

Lemma t_split q xs1 t xs2 : D !! q = Some (xs1 ++ t :: xs2) →
  Node t ∉ Node <$> xs1 ∧ Node t ∈ Node <$> (xs1 ++ t :: xs2).
Proof.
  intros Hq. pose proof (tr_nodup _ _ HR _ _ Hq) as (_ & Hd & _)%NoDup_app. split.
  - intros (t' & [= <-] & Hin)%list_elem_of_fmap. apply (Hd t Hin). left.
  - apply list_elem_of_fmap_2. set_solver.
Qed.

Lemma t_add_before q xs1 m xs2 t :
  D !! q = Some (xs1 ++ m :: xs2) → c_linked t D = false → is_Some (h !! Node t) →
  wp (list_add_before (Some (Node t)) (Some (Node m))) h
    (λ _ h', trep h' (c_set q (xs1 ++ t :: m :: xs2) D) ∧ dom h' = dom h).
Proof.
  intros Hq Hl Hd. destruct (t_split _ _ _ _ Hq) as [Hm Hin]. eapply wp_mono.
  { eapply add_before_rep; [apply HR|by apply tr_lookup|done|by eapply tr_unlinked_node|done]. }
  intros [] h' [HR' ?]. split; [|done]. split; [|eapply heads_set; eauto].
  rewrite fmap_c_set, fmap_app. rewrite fmap_c_get in HR'. unfold c_get in HR'. rewrite Hq in HR'.
  simpl in HR'. by rewrite fmap_app, fmap_cons, insert_before_split in HR'.
Qed.

Lemma t_add_after q xs1 m xs2 t :
  D !! q = Some (xs1 ++ m :: xs2) → c_linked t D = false → is_Some (h !! Node t) →
  wp (list_add_after (Some (Node t)) (Some (Node m))) h
    (λ _ h', trep h' (c_set q (xs1 ++ m :: t :: xs2) D) ∧ dom h' = dom h).
Proof.
  intros Hq Hl Hd. destruct (t_split _ _ _ _ Hq) as [Hm Hin]. eapply wp_mono.
  { eapply add_after_rep; [apply HR|by apply tr_lookup|done|by eapply tr_unlinked_node|done]. }
  intros [] h' [HR' ?]. split; [|done]. split; [|eapply heads_set; eauto].
  rewrite fmap_c_set, fmap_app. rewrite fmap_c_get in HR'. unfold c_get in HR'. rewrite Hq in HR'.
  simpl in HR'. by rewrite fmap_app, fmap_cons, insert_after_split in HR'.
Qed.

(** One chain loses [t]. *)
Lemma t_unspliced q xs1 t xs2 p s h' : D !! q = Some (xs1 ++ t :: xs2) →
  last (q :: (Node <$> xs1)) = Some p → head ((Node <$> xs2) ++ [q]) = Some s →
  unspliced h h' p (Node t) s → trep h' (c_set q (xs1 ++ xs2) D) ∧ dom h' = dom h.
Proof.
  intros Hq Hp Hs Hu. pose proof (tr_lookup D _ _ Hq) as HC. rewrite fmap_app, fmap_cons in HC. split.
  - split; [|eapply heads_set; eauto]. rewrite fmap_c_set, fmap_app. by eapply Rep_unsplice; [apply HR|..].
  - destruct (around _ _ _ _ _ _ _ (tr_rep _ _ HR) HC) as (p' & s' & Hp' & _ & Hpn & _).
    rewrite Hp in Hp'. injection Hp' as <-. by apply (unspliced_dom is_node h h' p (Node t) s).
Qed.

Lemma t_around q xs1 t xs2 : D !! q = Some (xs1 ++ t :: xs2) →
  ∃ p s, last (q :: (Node <$> xs1)) = Some p ∧ head ((Node <$> xs2) ++ [q]) = Some s ∧
    lnk h p (Node t) ∧ lnk h (Node t) s ∧ Node t ≠ p ∧ Node t ≠ s.
Proof.
  intros Hq. pose proof (tr_lookup D _ _ Hq) as HC. rewrite fmap_app, fmap_cons in HC.
  by apply (around _ _ _ _ _ _ _ (tr_rep _ _ HR) HC).
Qed.

(** The addresses of a chain are allocated. *)
Lemma t_mem q xs x : D !! q = Some xs → x ∈ q :: (Node <$> xs) → is_Some (nx h x).
Proof.
  intros Hq [->|Hx]%elem_of_cons.
  - destruct (first_rep _ _ _ _ _ (tr_rep _ _ HR) (tr_lookup D _ _ Hq)) as [-> _]. eauto.
  - apply list_elem_of_fmap in Hx as (t & -> & (xs1 & xs2 & ->)%list_elem_of_split).
    destruct (t_around _ _ _ _ Hq) as (? & ? & _ & _ & _ & Hl & _). by destruct (lnk_dom _ _ _ Hl).
Qed.

Lemma t_mem_node q xs t : D !! q = Some xs → t ∈ xs → is_Some (h !! Node t).
Proof.
  intros Hq Ht. assert (Hx : is_Some (nx h (Node t))).
  { apply (t_mem q xs); [done|]. right. by apply list_elem_of_fmap_2. }
  unfold nx in Hx. by rewrite fmap_is_Some in Hx.
Qed.

Lemma t_mem_head q xs : D !! q = Some xs → is_Some (h !! q).
Proof.
  intros Hq. assert (Hx : is_Some (nx h q)) by (apply (t_mem q xs); [done|left]).
  unfold nx in Hx. by rewrite fmap_is_Some in Hx.
Qed.

Lemma t_delete q xs1 t xs2 : D !! q = Some (xs1 ++ t :: xs2) →
  wp (list_delete (Some (Node t))) h (λ _ h', trep h' (c_set q (xs1 ++ xs2) D) ∧ dom h' = dom h).
Proof.
  intros Hq. destruct (t_around _ _ _ _ Hq) as (p & s & Hp & Hs & Hpn & Hnq & ? & ?).
  eapply wp_mono; [by apply (list_delete_unsplices h p (Node t) s)|].
  intros [] h' Hu. by apply (t_unspliced q xs1 t xs2 p s).
Qed.

Lemma t_delete_head q x xs : D !! q = Some (x :: xs) →
  wp (list_delete_head (Some q)) h
    (λ r h', r = Some (Node x) ∧ trep h' (c_set q xs D) ∧ dom h' = dom h).
Proof.
  intros Hq. destruct (first_rep _ _ _ _ _ (tr_rep _ _ HR) (tr_lookup D _ _ Hq)) as [Hn _].
  unfold list_delete_head. apply wp_bind. eapply wp_get_next; [exact Hn|]. simpl. rewrite decide_True.
  - apply wp_bind. eapply wp_mono; [by apply (t_delete q [] x xs)|]. intros [] h' [? ?]. by apply wp_ret.
  - intros [= <-]. by rewrite (tr_heads _ _ HR) in Hq.
Qed.

Lemma t_drop q : ¬ is_node q → c_get q D = [] → trep h (delete q D).
Proof.
  intros Hn Hq. split.
  2: { intros t. rewrite lookup_delete_ne; [apply HR|]. by intros ->. }
  unfold nodes_of. rewrite fmap_delete. fold (nodes_of D). destruct (tr_rep _ _ HR) as [Ha Hnd Hdj Hnull]. split.
  - intros k xs [_ Hk]%lookup_delete_Some. by apply Ha.
  - intros k xs [_ Hk]%lookup_delete_Some. by apply Hnd.
  - intros k1 k2 xs1 xs2 a [_ H1]%lookup_delete_Some [_ H2]%lookup_delete_Some. by eapply Hdj.
  - intros a n Hna Han Hun. apply (Hnull a n Hna Han). intros k xs Hk.
    destruct (decide (k = q)) as [->|Hne]; [|apply Hun; by rewrite lookup_delete_ne].
    apply tr_lookup_inv in Hk as (ys & Hk & ->). unfold c_get in Hq. rewrite Hk in Hq. simpl in Hq.
    subst ys. simpl. intros ->%list_elem_of_singleton. done.
Qed.

End Ops.

Lemma t_init h D q : trep h D → ¬ is_node q → c_get q D = [] → is_Some (h !! q) →
  wp (INIT_LIST_HEAD (Some q)) h (λ _ h', trep h' (<[q := []]> D) ∧ dom h' = dom h).
Proof.
  intros HR Hn Hq Hd. pose proof (t_drop _ _ HR q Hn Hq) as HR1. eapply wp_mono.
  { eapply init_rep; [apply HR1| |done]. apply tr_unlinked_head; [done|]. apply lookup_delete_eq. }
  intros [] h' [HR' ?]. split; [|done]. split.
  - unfold nodes_of in *. by rewrite fmap_delete, insert_delete_eq in HR'; rewrite fmap_insert.
  - intros t. rewrite lookup_insert_ne; [apply HR|]. by intros ->.
Qed.

(** ** Pointer surgery *)

Lemma dom_nx (h h' : links) : (∀ x, is_Some (nx h' x) ↔ is_Some (nx h x)) → dom h' = dom h.
Proof.
  intros Hx. apply set_eq. intros x. rewrite !elem_of_dom. specialize (Hx x). unfold nx in Hx.
  by rewrite !fmap_is_Some in Hx.
Qed.

Section Replace.
Context (h : links) (D : chains) (HR : trep h D).
Context (q : addr) (xs1 xs2 : list tid) (o n : tid) (p s : addr).
Hypothesis Hq : D !! q = Some (xs1 ++ o :: xs2).
Hypothesis Hfresh : c_linked n D = false.
Hypothesis Hp : last (q :: (Node <$> xs1)) = Some p.
Hypothesis Hs : head ((Node <$> xs2) ++ [q]) = Some s.

(** [n] has taken the place of [o] between [p] and [s]. *)
Definition replaced (h' : links) : Prop :=
  (∀ x, nx h' x = if decide (x = Node o) then Some None
                  else if decide (x = Node n) then Some (Some s)
                  else if decide (x = p) then Some (Some (Node n)) else nx h x) ∧
  (∀ x, pv h' x = if decide (x = Node o) then Some None
                  else if decide (x = Node n) then Some (Some p)
                  else if decide (x = s) then Some (Some (Node n)) else pv h x).

Lemma replace_around : lnk h p (Node o) ∧ lnk h (Node o) s ∧
  Node o ≠ p ∧ Node o ≠ s ∧ n ≠ o ∧ Node n ≠ p ∧ Node n ≠ s.
Proof.
  pose proof (tr_lookup D _ _ Hq) as HC. rewrite fmap_app, fmap_cons in HC.
  destruct (around _ _ _ _ _ _ _ (tr_rep _ _ HR) HC) as (p' & s' & Hp' & Hs' & ? & ? & ? & ?).
  rewrite Hp in Hp'. rewrite Hs in Hs'. injection Hp' as <-. injection Hs' as <-.
  pose proof (tr_unlinked_node _ _ HR _ Hfresh _ _ HC) as Hu.
  destruct (gap_in is_node _ _ _ _ _ Hp Hs) as [Hpin Hsin]. split_and!; try done; set_solver.
Qed.

Lemma replaced_rep h' : replaced h' → trep h' (c_set q (xs1 ++ n :: xs2) D).
Proof.
  intros [Hnx Hpv]. destruct replace_around as (Hpo & Hos & ? & ? & Hno & ? & ?).
  assert (Hno' : Node n ≠ Node o) by congruence.
  pose proof (list_delete_unsplices h p (Node o) s Hpo Hos) as Hd.
  apply wp_run in Hd as ([] & h1 & _ & Hu); [|done..].
  pose proof (tr_lookup D _ _ Hq) as HC. rewrite fmap_app, fmap_cons in HC.
  pose proof (Rep_unsplice _ h h1 _ _ _ _ _ _ (Node o) (tr_rep _ _ HR) Hp Hs HC Hu) as HR1.
  split; [|eapply heads_set; [exact HR|eauto]].
  assert (Hsp : spliced h1 h' p (Node n) s).
  { destruct Hu as [Hun Hup]. split; intros x; [rewrite Hnx, Hun|rewrite Hpv, Hup];
      repeat case_decide; congruence. }
  eapply Rep_splice in Hsp; [|exact HR1|exact Hp|exact Hs|by rewrite lookup_insert_eq|].
  - rewrite fmap_c_set, fmap_app. unfold c_set. by rewrite insert_insert_eq in Hsp.
  - intros k ys [[<- <-]|[Hne Hk]]%lookup_insert_Some.
    + pose proof (tr_unlinked_node _ _ HR _ Hfresh _ _ HC). set_solver.
    + by apply (tr_unlinked_node _ _ HR _ Hfresh _ _ Hk).
Qed.

Lemma replaced_dom h' : replaced h' → is_Some (h !! Node n) → dom h' = dom h.
Proof.
  intros [Hnx _] [nd Hn]. destruct replace_around as (Hpo & Hos & _).
  destruct (lnk_dom _ _ _ Hpo) as (Hp1 & _ & Ho1 & _).
  apply dom_nx. intros x. rewrite Hnx. repeat case_decide; subst; try naive_solver.
  unfold nx. rewrite Hn. naive_solver.
Qed.

Lemma replace_run {B} (k : M links B) Φ : is_Some (h !! Node n) →
  (∀ h', replaced h' → wp k h' Φ) →
  wp (_ ← list_replace (Some (Node o)) (Some (Node n));
      _ ← set_next (Some (Node o)) None; _ ← set_prev (Some (Node o)) None; k) h Φ.
Proof.
  intros Hn Hk. destruct replace_around as (Hpo & Hos & ? & ? & Hno & ? & ?).
  assert (Hno' : Node n ≠ Node o) by congruence.
  destruct (lnk_dom _ _ _ Hpo) as (?&?&?&?), (lnk_dom _ _ _ Hos) as (?&?&?&?).
  assert (is_Some (nx h (Node n))) as Hnn by (unfold nx; by rewrite fmap_is_Some).
  pose proof (proj1 (nx_pv_dom h _) Hnn).
  destruct Hpo as [Hpn Hop], Hos as [Hon Hsp].
  apply wp_bind. unfold list_replace. do 8 ptr_step. do 2 ptr_step.
  apply Hk. split; intros x; fields.
Qed.

Lemma t_replace {B} (k : M links B) Φ : is_Some (h !! Node n) →
  (∀ h', trep h' (c_set q (xs1 ++ n :: xs2) D) → dom h' = dom h → wp k h' Φ) →
  wp (_ ← list_replace (Some (Node o)) (Some (Node n));
      _ ← set_next (Some (Node o)) None; _ ← set_prev (Some (Node o)) None; k) h Φ.
Proof.
  intros Hn Hk. apply replace_run; [done|]. intros h' Hr.
  apply Hk; [by apply replaced_rep|by apply replaced_dom].
Qed.

End Replace.

(** Only the nodes and the heads of the store matter. *)
Lemma t_frame h h' D : trep h D →
  (∀ a, is_node a ∨ is_Some (D !! a) → nx h' a = nx h a ∧ pv h' a = pv h a) → trep h' D.
Proof.
  intros HR Hsame. split; [|apply HR]. destruct (tr_rep _ _ HR) as [Ha Hnd Hdj Hnull].
  split; [|done|done|].
  - intros q xs Hq. apply (adj_untouched h); [by apply Ha|]. intros y Hy.
    apply tr_lookup_inv in Hq as (ys & Hq & ->). apply Hsame.
    apply elem_of_cons in Hy as [->|(t & -> & _)%list_elem_of_fmap]; [by right|by left].
  - intros a [u v] Hn Hl Hun. apply (Hnull a _ Hn); [|done].
    apply node_ext in Hl as [Hu Hv]. apply node_ext. destruct (Hsame a (or_introl Hn)). split; congruence.
Qed.

Lemma adj_rehead (h h' : links) a b x z xs : NoDup (x :: xs) → last (x :: xs) = Some z →
  adj h (cycle a (x :: xs)) → lnk h' b x → lnk h' z b →
  (∀ y, y ∈ x :: xs → (y ≠ z → nx h' y = nx h y) ∧ (y ≠ x → pv h' y = pv h y)) →
  adj h' (cycle b (x :: xs)).
Proof.
  intros Hnd Hz Ha Hbx Hzb Hsame. pose proof Hnd as [Hxs _]%NoDup_cons.
  split; [done|]. change (adj h' ((x :: xs) ++ [b])).
  destruct Ha as [_ Ha]. change (adj h ((x :: xs) ++ [a])) in Ha.
  apply last_Some in Hz as [ys Hys].
  assert (Htl : tail (ys ++ [z]) = xs) by (by rewrite <- Hys).
  rewrite Hys in Ha, Hsame, Hnd |- *. rewrite <- (assoc_L (++)) in Ha |- *. simpl in Ha |- *.
  apply adj_app in Ha as [Ha _]. apply adj_app. split; [|done].
  apply NoDup_app in Hnd as (_ & Hdj & _). apply (adj_frame h); [done| |].
  - intros y Hy. apply Hsame; [set_solver|]. intros ->. apply (Hdj z Hy). left.
  - rewrite Htl. intros y Hy. apply Hsame.
    + rewrite <- Hys. by right.
    + by intros ->.
Qed.

(** The chain of [a] hung on another head [b]. *)
Lemma t_rehead h h' D a b x z xs : trep h D → D !! a = Some (x :: xs) → last (x :: xs) = Some z →
  ¬ is_node a → ¬ is_node b → D !! b = None →
  nx h' b = Some (Some (Node x)) → pv h' b = Some (Some (Node z)) →
  nx h' (Node z) = Some (Some b) → pv h' (Node x) = Some (Some b) →
  (∀ y, y ≠ a → y ≠ b → (y ≠ Node z → nx h' y = nx h y) ∧ (y ≠ Node x → pv h' y = pv h y)) →
  trep h' (<[b := x :: xs]> (delete a D)).
Proof.
  intros HR Ha Hz Hna Hnb Hb Hbx Hbz Hzb Hxb Hsame.
  assert (Hxin : x ∈ x :: xs) by left. assert (Hzin : z ∈ x :: xs) by (by apply last_in).
  assert (Hother : ∀ k ys y, k ≠ a → k ≠ b → D !! k = Some ys → y ∈ k :: (Node <$> ys) →
    nx h' y = nx h y ∧ pv h' y = pv h y).
  { intros k ys y Hka Hkb Hk Hy. assert (Hyn : ∀ u, u ∈ x :: xs → y ≠ Node u).
    { intros u Hu ->. apply elem_of_cons in Hy as [<-|(u' & [= <-] & Hu')%list_elem_of_fmap].
      - by rewrite (tr_heads _ _ HR) in Hk.
      - by apply Hka, (tr_disj _ _ HR k a ys (x :: xs) u). }
    destruct (Hsame y) as [H1 H2].
    - apply elem_of_cons in Hy as [->|(u & -> & _)%list_elem_of_fmap]; [done|]. by intros <-.
    - apply elem_of_cons in Hy as [->|(u & -> & _)%list_elem_of_fmap]; [done|]. by intros <-.
    - split; [apply H1, Hyn, Hzin|apply H2, Hyn, Hxin]. }
  split.
  2: { intros t. rewrite lookup_insert_ne by (by intros ->).
       rewrite lookup_delete_ne by (by intros ->). apply HR. }
  destruct (tr_rep _ _ HR) as [Hadj Hnd Hdj Hnull].
  pose proof (tr_lookup D _ _ Ha) as HCa. unfold nodes_of. rewrite fmap_insert, fmap_delete. fold (nodes_of D).
  assert (Hsep : ∀ k ys y, nodes_of D !! k = Some ys → k ≠ a → b ≠ k →
    y ∈ b :: (Node <$> x :: xs) → y ∉ k :: ys).
  { intros k ys y Hk Hka Hkb [->|Hy]%elem_of_cons Hy'.
    - apply tr_lookup_inv in Hk as (? & _ & ->).
      apply elem_of_cons in Hy' as [->|(u & -> & _)%list_elem_of_fmap]; [done|by apply Hnb].
    - apply Hka, (Hdj k a ys (Node <$> x :: xs) y); [done..|by right]. }
  split.
  - intros k ys [[<- <-]|[Hkb [Hka Hk]%lookup_delete_Some]]%lookup_insert_Some.
    + rewrite fmap_cons. apply (adj_rehead h h' a b (Node x) (Node z) (Node <$> xs)); try done.
      * by apply Hnd, NoDup_cons in HCa as [_ ?].
      * by rewrite <- fmap_cons, fmap_last, Hz.
      * by apply Hadj.
      * intros y (u & -> & _)%(list_elem_of_fmap_1 Node (x :: xs)). apply Hsame; by intros <-.
    + apply (adj_untouched h); [by apply Hadj|]. apply tr_lookup_inv in Hk as (ys' & Hk & ->).
      intros y. by apply Hother.
  - intros k ys [[<- <-]|[Hkb [Hka Hk]%lookup_delete_Some]]%lookup_insert_Some; [|by apply Hnd].
    apply NoDup_cons. split; [|by apply Hnd, NoDup_cons in HCa as [_ ?]].
    intros (u & -> & _)%list_elem_of_fmap. done.
  - intros k1 k2 ys1 ys2 y [[<- <-]|[Hk1b [Hk1a Hk1]%lookup_delete_Some]]%lookup_insert_Some
      [[<- <-]|[Hk2b [Hk2a Hk2]%lookup_delete_Some]]%lookup_insert_Some; [done| | |by eapply Hdj].
    + intros Hy1 Hy2. exfalso. by eapply (Hsep k2).
    + intros Hy1 Hy2. exfalso. by eapply (Hsep k1).
  - intros y [u v] Hny Hy Hun.
    assert (Hyx : y ∉ Node <$> x :: xs).
    { intros Hin. apply (Hun b (Node <$> x :: xs)); [apply lookup_insert_eq|by right]. }
    apply (Hnull y _ Hny).
    + apply node_ext in Hy as [Hu Hv]. apply node_ext.
      destruct (Hsame y) as [H1 H2]; [by intros ->..|].
      rewrite <- H1, <- H2; [done|..]; intros ->; apply Hyx; by apply list_elem_of_fmap_2.
    + intros k ys Hk. destruct (decide (k = a)) as [->|Hka].
      * rewrite HCa in Hk. injection Hk as <-. apply not_elem_of_cons. split; [by intros ->|done].
      * apply Hun. rewrite lookup_insert_ne, lookup_delete_ne; [done|done|]. intros <-.
        apply tr_lookup_inv in Hk as (? & Hk & _). congruence.
Qed.

(** A node taken off its chain, with what that does to the links. *)
Lemma t_unsplice h D q xs1 t xs2 : trep h D → D !! q = Some (xs1 ++ t :: xs2) →
  ∃ h' p s, last (q :: (Node <$> xs1)) = Some p ∧ head ((Node <$> xs2) ++ [q]) = Some s ∧
    unspliced h h' p (Node t) s ∧ trep h' (c_set q (xs1 ++ xs2) D) ∧ dom h' = dom h.
Proof.
  intros HR Hq. destruct (t_around h D HR _ _ _ _ Hq) as (p & s & Hp & Hs & Hpn & Hnq & Hne1 & Hne2).
  pose proof (list_delete_unsplices h p (Node t) s Hpn Hnq Hne1 Hne2) as Hd.
  apply wp_run in Hd as ([] & h' & _ & Hu). exists h', p, s.
  destruct (t_unspliced h D HR _ _ _ _ _ _ _ Hq Hp Hs Hu). done.
Qed.

Section Promote.
Context (h : links) (D : chains) (HR : trep h D).
Context (q : addr) (xs1 xs2 : list tid) (t f : tid) (ms : list tid) (p s : addr).
Hypothesis Hq : D !! q = Some (xs1 ++ t :: xs2).
Hypothesis Ht : D !! Same t = Some (f :: ms).
Hypothesis Hf : D !! Same f = Some [].
Hypothesis Hqt : q ≠ Same t.
Hypothesis Hqf : q ≠ Same f.
Hypothesis Hp : last (q :: (Node <$> xs1)) = Some p.
Hypothesis Hs : head ((Node <$> xs2) ++ [q]) = Some s.

(** The stores of [ttosDequeuePriority]: [f] takes the place of [t], and the
    rest of the group of [t] hangs on [f]. *)
Definition promoted (h' : links) : Prop :=
  (∀ x, nx h' x =
     if decide (x = Node t) then Some None
     else if decide (x = Node f) then Some (Some s)
     else if decide (x = p) then Some (Some (Node f))
     else match head ms, last ms with
          | Some y, Some z => if decide (x = Same f) then Some (Some (Node y))
                              else if decide (x = Node z) then Some (Some (Same f)) else nx h x
          | _, _ => nx h x
          end) ∧
  (∀ x, pv h' x =
     if decide (x = Node t) then Some None
     else if decide (x = Node f) then Some (Some p)
     else if decide (x = s) then Some (Some (Node f))
     else match head ms, last ms with
          | Some y, Some z => if decide (x = Same f) then Some (Some (Node z))
                              else if decide (x = Node y) then Some (Some (Same f)) else pv h x
          | _, _ => pv h x
          end).

Lemma promote_fresh : f ≠ t ∧ f ∉ ms ∧ c_linked f (c_set (Same t) ms D) = false.
Proof.
  pose proof (tr_nodup _ _ HR _ _ Ht) as [Hfm _]%NoDup_cons.
  assert (Hft : f ≠ t).
  { intros ->. apply Hqt. eapply (tr_disj _ _ HR q (Same t) _ _ t); [done..|set_solver|left]. }
  split_and!; [done..|]. apply c_linked_false. intros k. rewrite c_get_set. case_decide as E; [done|].
  unfold c_get. destruct (D !! k) as [ys|] eqn:Ek; simpl; [|set_solver]. intros Hin.
  apply E. symmetry. eapply (tr_disj _ _ HR k (Same t) ys _ f); [done..|left].
Qed.

(** The state in which [f] has taken the place of [t], before the group moves. *)
Lemma promote_steps : ∃ h2,
  trep h2 (c_set q (xs1 ++ f :: xs2) (c_set (Same t) ms D)) ∧
  (∀ x, x ≠ Same t → nx h2 x =
     if decide (x = Node t) then Some None
     else if decide (x = Node f) then Some (Some s)
     else if decide (x = p) then Some (Some (Node f)) else nx h x) ∧
  (∀ x, Some x ≠ Node <$> head ms → x ≠ Same t → pv h2 x =
     if decide (x = Node t) then Some None
     else if decide (x = Node f) then Some (Some p)
     else if decide (x = s) then Some (Some (Node f)) else pv h x).
Proof.
  destruct promote_fresh as (Hft & Hfm & Hfl).
  destruct (t_unsplice h D (Same t) [] f ms HR Ht) as (h1 & p1 & s1 & Hp1 & Hs1 & [Hun Hup] & HR1 & Hd1).
  injection Hp1 as <-. simpl in HR1.
  assert (Hq1 : c_set (Same t) ms D !! q = Some (xs1 ++ t :: xs2)).
  { unfold c_set. by rewrite lookup_insert_ne by done. }
  assert (Hfd : is_Some (h1 !! Node f)).
  { apply elem_of_dom. rewrite Hd1. apply elem_of_dom.
    destruct (around _ _ _ _ [] _ _ (tr_rep _ _ HR) (tr_lookup D _ _ Ht)) as (? & ? & _ & _ & Hl & _).
    destruct (lnk_dom _ _ _ Hl) as (_ & _ & Hx & _). unfold nx in Hx. by rewrite fmap_is_Some in Hx. }
  assert (Hw : wp (_ ← list_replace (Some (Node t)) (Some (Node f));
    _ ← set_next (Some (Node t)) None; _ ← set_prev (Some (Node t)) None; mret tt) h1
    (λ _ h', replaced h1 t f p s h')).
  { apply (replace_run h1 _ HR1 q xs1 xs2 t f p s Hq1 Hfl Hp Hs); [done|]. intros h' Hr. by apply wp_ret. }
  apply wp_run in Hw as (_ & h2 & _ & Hr). exists h2.
  split; [by eapply replaced_rep|]. destruct Hr as [Hnx Hpv].
  assert (Hs1' : s1 = Same t ∨ Some s1 = Node <$> head ms).
  { destruct ms; injection Hs1 as <-; [by left|by right]. }
  split; intros x; intros; [rewrite Hnx, Hun|rewrite Hpv, Hup]; repeat case_decide; try congruence.
  destruct Hs1'; congruence.
Qed.

(** The rest of the group is away from the places the promotion touches. *)
Lemma promote_apart : p ≠ Same f ∧ s ≠ Same f ∧
  ∀ u, u ∈ f :: ms → u ≠ t ∧ Node u ≠ p ∧ Node u ≠ s.
Proof.
  destruct promote_fresh as (Hft & Hfm & _).
  destruct (gap_in is_node _ _ _ _ _ Hp Hs) as [Hpin Hsin].
  assert (Hsep : ∀ u, u ∈ f :: ms → u ∉ xs1 ++ t :: xs2).
  { intros u Hu Hu'. apply Hqt. eapply (tr_disj _ _ HR q (Same t) _ _ u); done. }
  assert (Hqn : ∀ u, q ≠ Node u) by (intros u ->; by rewrite (tr_heads _ _ HR) in Hq).
  split_and!.
  - apply elem_of_cons in Hpin as [->|(? & -> & _)%list_elem_of_fmap]; done.
  - apply elem_of_app in Hsin as [(? & -> & _)%list_elem_of_fmap|E%list_elem_of_singleton]; congruence.
  - intros u Hu. specialize (Hsep u Hu). split_and!; [set_solver| |].
    + intros <-. apply elem_of_cons in Hpin as [E|(? & [= <-] & Hin)%list_elem_of_fmap]; [by apply (Hqn u)|].
      set_solver.
    + intros <-. apply elem_of_app in Hsin as [(? & [= <-] & Hin)%list_elem_of_fmap|E%list_elem_of_singleton];
        [set_solver|by apply (Hqn u)].
Qed.

Lemma promoted_rep h' : promoted h' →
  trep h' (<[Same f := ms]> (delete (Same t) (c_set q (xs1 ++ f :: xs2) D))).
Proof.
  intros [Hnx Hpv]. destruct promote_fresh as (Hft & Hfm & _).
  destruct promote_apart as (Hpf & Hsf & Hap).
  destruct promote_steps as (h2 & HR2 & Hnx2 & Hpv2). set (D2 := c_set q _ _) in HR2.
  assert (Hft' : Same f ≠ Same t) by congruence.
  destruct ms as [|y ms'] eqn:Ems.
  - assert (HR3 : trep h2 (delete (Same t) D2)).
    { apply t_drop; [done|by intros []|]. unfold D2. rewrite c_get_set_ne, c_get_set_eq by done. done. }
    replace (<[Same f := []]> _) with (delete (Same t) D2).
    { eapply t_frame; [exact HR3|]. intros a Ha.
      assert (a ≠ Same t) by (intros ->; rewrite lookup_delete_eq in Ha; by destruct Ha as [[]|[]]).
      simpl in Hnx, Hpv. rewrite Hnx, Hpv, Hnx2, Hpv2 by (simpl; congruence). done. }
    unfold D2, c_set. rewrite (insert_id _ (Same f) []).
    + rewrite !(delete_insert_ne _ (Same t) q) by done. rewrite delete_insert_eq. done.
    + rewrite lookup_delete_ne, lookup_insert_ne by done. done.
  - destruct (last (y :: ms')) as [z|] eqn:Ez; [|by apply last_None in Ez].
    assert (Hzin : z ∈ y :: ms') by (by apply last_in).
    pose proof (Hap y ltac:(set_solver)) as (? & ? & ?).
    pose proof (Hap z ltac:(set_solver)) as (? & ? & ?).
    assert (y ≠ f ∧ z ≠ f) as [? ?] by (split; intros ->; set_solver).
    assert (HR3 : trep h2 (delete (Same f) D2)).
    { apply t_drop; [done|by intros []|]. unfold D2. rewrite !c_get_set_ne by done. unfold c_get. by rewrite Hf. }
    cbn [head] in Hnx, Hpv.
    replace (<[Same f := y :: ms']> _) with (<[Same f := y :: ms']> (delete (Same t) (delete (Same f) D2))).
    { apply (t_rehead h2 h' _ (Same t) (Same f) y z ms' HR3); try done.
      - rewrite lookup_delete_ne by done. unfold D2, c_set. by rewrite lookup_insert_ne, lookup_insert_eq by done.
      - by intros [].
      - by intros [].
      - apply lookup_delete_eq.
      - rewrite Hnx. repeat case_decide; congruence.
      - rewrite Hpv. repeat case_decide; congruence.
      - rewrite Hnx. repeat case_decide; congruence.
      - rewrite Hpv. repeat case_decide; congruence.
      - intros x Hxt Hxf. split; intros Hxz.
        + rewrite Hnx, Hnx2 by done. repeat case_decide; congruence.
        + rewrite Hpv, Hpv2; [|simpl; congruence|done]. repeat case_decide; congruence. }
    rewrite delete_delete. rewrite insert_delete_eq. unfold D2, c_set.
    rewrite !(delete_insert_ne _ (Same t) q) by done. rewrite delete_insert_eq. done.
Qed.

Lemma promoted_dom h' : promoted h' → dom h' = dom h.
Proof.
  intros [Hnx _]. destruct (gap_in is_node _ _ _ _ _ Hp Hs) as [Hpin _].
  assert (Hpn : is_Some (nx h p)) by (apply (t_mem h D HR q _ p Hq); rewrite fmap_app; set_solver).
  assert (Htn : is_Some (nx h (Node t))) by (apply (t_mem h D HR q _ (Node t) Hq); rewrite fmap_app; set_solver).
  assert (Hfn : is_Some (nx h (Node f))) by (apply (t_mem h D HR _ _ (Node f) Ht); set_solver).
  assert (Hsf : is_Some (nx h (Same f))) by (apply (t_mem h D HR _ _ (Same f) Hf); set_solver).
  assert (Hzn : ∀ z, last ms = Some z → is_Some (nx h (Node z))).
  { intros z Hz%last_in. apply (t_mem h D HR _ _ (Node z) Ht). right.
    apply list_elem_of_fmap_2. by right. }
  apply dom_nx. intros x. rewrite Hnx.
  destruct (head ms), (last ms) eqn:Ez; repeat case_decide; subst; naive_solver.
Qed.

(** The stores of the non-empty branch of [ttosDequeuePriority]. *)
Lemma promote_run Φ : (∀ h', promoted h' → Φ (Some t) h') →
  wp (lastNode ← list_tail (Some (Same t));
      newSecondNode ← get_next (Some (Node f));
      _ ← set_next (Some p) (Some (Node f));
      _ ← set_prev (Some s) (Some (Node f));
      _ ← set_next (Some (Node f)) (Some s);
      _ ← set_prev (Some (Node f)) (Some p);
      if decide (lastNode = None) then mret None
      else
        _ ← if decide (Some (Node f) ≠ lastNode) then
              _ ← set_prev newSecondNode (Some (Same f));
              _ ← set_next (Some (Same f)) newSecondNode;
              _ ← set_prev (Some (Same f)) lastNode;
              set_next lastNode (Some (Same f))
            else mret tt;
        unlink t) h Φ.
Proof.
  intros Hk. destruct promote_fresh as (Hft & Hfm & _). destruct promote_apart as (Hpf & Hsf' & Hap).
  destruct (t_around h D HR _ _ _ _ Hq) as (p' & s' & Hp' & Hs' & Hpt & Hts & Hne1 & Hne2).
  rewrite Hp in Hp'. rewrite Hs in Hs'. injection Hp' as <-. injection Hs' as <-.
  destruct (t_around h D HR (Same t) [] f ms Ht) as (p1 & s1 & Hp1 & Hs1 & Hl1 & Hl2 & _).
  injection Hp1 as <-.
  destruct (lnk_dom _ _ _ Hpt) as (?&?&?&?), (lnk_dom _ _ _ Hts) as (?&?&?&?),
    (lnk_dom _ _ _ Hl1) as (?&?&?&?), (lnk_dom _ _ _ Hl2) as (?&?&?&?).
  assert (is_Some (nx h (Same f))) by (apply (t_mem h D HR _ _ (Same f) Hf); set_solver).
  pose proof (proj1 (nx_pv_dom h (Same f)) ltac:(done)).
  destruct (Hap f ltac:(left)) as (_ & ? & ?). destruct Hpt as [Hpt1 Hpt2], Hts as [Hts1 Hts2], Hl2 as [Hl21 Hl22].
  apply wp_bind. eapply wp_mono; [by eapply (t_tail h D HR (Same t))|]. intros r h0 [-> ->].
  apply wp_bind. eapply wp_get_next; [done|].
  do 4 ptr_step. destruct (last (f :: ms)) as [z|] eqn:Ez; [|by apply last_None in Ez]. simpl.
  assert (Hzd : is_Some (nx h (Node z)) ∧ is_Some (pv h (Node z))).
  { apply last_Some in Ez as [l El]. rewrite El in Ht.
    destruct (t_around h D HR _ _ _ _ Ht) as (? & ? & _ & _ & _ & Hl & _).
    destruct (lnk_dom _ _ _ Hl) as (? & ? & _). done. }
  destruct Hzd as [Hzn Hzp]. apply wp_bind.
  destruct ms as [|y ms'] eqn:Ems.
  - injection Ez as <-. rewrite decide_False by naive_solver. apply wp_ret.
    unfold unlink. do 2 ptr_step. apply wp_ret, Hk.
    unfold promoted. rewrite Ems. simpl. split; intros x; fields.
  - injection Hs1 as <-. change (last (y :: ms') = Some z) in Ez.
    assert (Hzin : z ∈ y :: ms') by (by apply last_in).
    destruct (Hap y ltac:(set_solver)) as (? & ? & ?). destruct (Hap z ltac:(set_solver)) as (? & ? & ?).
    assert (y ≠ f ∧ z ≠ f) as [? ?] by (split; intros ->; set_solver).
    assert (Node y ≠ Node f ∧ Node z ≠ Node f ∧ Node y ≠ Node t ∧ Node z ≠ Node t ∧ Node f ≠ Node t)
      as (? & ? & ? & ? & ?) by (split_and!; congruence).
    rewrite decide_True by congruence. do 4 ptr_step. unfold unlink. do 2 ptr_step. apply wp_ret, Hk.
    unfold promoted. rewrite Ems, Ez. cbn [head]. split; intros x; fields.
Qed.
End Promote.
