(* ===== verification/TaskqInv.v ===== *)
(** * Wait queues refine sequences of tasks

    The well-formedness of the headers and groups of [Taskq], and the proof that
    on well-formed links the queue code is enqueueing by priority behind equals,
    taking the first task, and removing a task, on one sequence of tasks per
    queue: the contract [Wait] is written over. *)

From stdpp Require Import sorting.
From S2P Require Import Prelude Chain DList Kernel Taskq TaskqRep.
Local Open Scope Z_scope.

Section Taskq.
Context (pri : tid → Z) (fifo : wqid → bool).

(** ** Headers, groups, and the sequence they stand for *)

Definition leaders (D : chains) (w : wqid) (i : nat) : list tid := c_get (Header w i) D.
Definition members (D : chains) (l : tid) : list tid := c_get (Same l) D.

Definition part (D : chains) (w : wqid) (i : nat) : list tid :=
  concat ((λ l, l :: members D l) <$> leaders D w i).

Definition nheads (w : wqid) : nat :=
  if fifo w then 1 else TTOS_QUEUE_DATA_NUMBER_OF_PRIORITY_HEADERS.

Definition flat (D : chains) (w : wqid) : list tid := concat (part D w <$> seq 0 (nheads w)).

Definition header_index (p : Z) : nat := Z.to_nat (p / TTOS_QUEUE_DATA_PRIORITIES_PER_HEADER).

Definition more_urgent (a b : tid) : Prop := pri a < pri b.

Record tq_wf (D : chains) : Prop := {
  w_header : ∀ w i t, fifo w = false → t ∈ leaders D w i →
    0 ≤ pri t < 256 ∧ i = header_index (pri t);
  w_sorted : ∀ w i, fifo w = false → StronglySorted more_urgent (leaders D w i);
  w_fifo : ∀ w i t, fifo w = true → t ∈ leaders D w i → i = 0%nat ∧ members D t = [];
  w_same : ∀ l m, m ∈ members D l →
    pri m = pri l ∧ is_Some (D !! Same m) ∧ ∃ w i, fifo w = false ∧ l ∈ leaders D w i;
  w_dom : ∀ w i t, fifo w = false → t ∈ leaders D w i → is_Some (D !! Same t);
}.

(** The heads of the queue are initialised. *)
Definition init_ok (w : wqid) (D : chains) : Prop :=
  ∀ i, (i < nheads w)%nat → is_Some (D !! Header w i).

Lemma header_index_bound p : 0 ≤ p < 256 → (header_index p < 4)%nat.
Proof.
  intros Hp. unfold header_index, TTOS_QUEUE_DATA_PRIORITIES_PER_HEADER.
  assert (0 ≤ p / 64 < 4); [|lia]. split; [apply Z.div_pos; lia|apply Z.div_lt_upper_bound; lia].
Qed.

Lemma header_index_lt p p' : 0 ≤ p → 0 ≤ p' → (header_index p < header_index p')%nat → p < p'.
Proof.
  unfold header_index, TTOS_QUEUE_DATA_PRIORITIES_PER_HEADER. intros Hp Hp' Hlt.
  destruct (Z.lt_ge_cases p p') as [|Hge]; [done|]. exfalso.
  assert (p' / 64 ≤ p / 64) by (apply Z.div_le_mono; lia). lia.
Qed.

Lemma elem_of_part D w i t :
  t ∈ part D w i ↔ ∃ l, l ∈ leaders D w i ∧ (t = l ∨ t ∈ members D l).
Proof.
  unfold part. rewrite list_elem_of_In, in_concat. split.
  - intros (g & Hg & Ht). apply list_elem_of_In, list_elem_of_fmap in Hg as (l & -> & Hl).
    apply list_elem_of_In, elem_of_cons in Ht. eauto.
  - intros (l & Hl & Ht). exists (l :: members D l). split.
    + apply list_elem_of_In, list_elem_of_fmap. eauto.
    + by apply list_elem_of_In, elem_of_cons.
Qed.

Lemma part_ext D D' w i : leaders D' w i = leaders D w i →
  (∀ l, l ∈ leaders D w i → members D' l = members D l) → part D' w i = part D w i.
Proof.
  intros Hl Hm. unfold part. rewrite Hl. f_equal. apply list_fmap_ext. intros k l Hk.
  f_equal. apply Hm. by apply list_elem_of_lookup_2 in Hk.
Qed.

Lemma part_index D w i t : tq_wf D → fifo w = false → t ∈ part D w i →
  0 ≤ pri t < 256 ∧ i = header_index (pri t).
Proof.
  intros Hwf Hw (l & Hl & Ht)%elem_of_part. destruct (w_header _ Hwf _ _ _ Hw Hl) as [? ?].
  destruct Ht as [->|Ht]; [done|]. by destruct (w_same _ Hwf _ _ Ht) as (-> & _).
Qed.

(** The parts around header [i]. *)
Lemma flat_split D w i : (i < nheads w)%nat →
  flat D w = concat (part D w <$> seq 0 i) ++ part D w i ++
             concat (part D w <$> seq (S i) (nheads w - S i)).
Proof.
  intros Hi. unfold flat.
  replace (seq 0 (nheads w)) with (seq 0 i ++ i :: seq (S i) (nheads w - S i)).
  - by rewrite fmap_app, concat_app, fmap_cons.
  - change (i :: seq (S i) (nheads w - S i)) with (seq (0 + i) (S (nheads w - S i))).
    rewrite <- seq_app. f_equal. lia.
Qed.

Lemma parts_ext D D' w js : (∀ j, j ∈ js → part D' w j = part D w j) →
  concat (part D' w <$> js) = concat (part D w <$> js).
Proof.
  intros Hj. f_equal. apply list_fmap_ext. intros k j Hk. apply Hj. by apply list_elem_of_lookup_2 in Hk.
Qed.

Lemma parts_Forall D w js (P : tid → Prop) : (∀ j t, j ∈ js → t ∈ part D w j → P t) →
  Forall P (concat (part D w <$> js)).
Proof.
  intros Hj. apply Forall_concat, Forall_fmap, Forall_forall. intros j Hin. simpl.
  apply Forall_forall. intros t Ht. by eapply Hj.
Qed.

(** Insertion by priority at a split. *)
Lemma pri_insert_split t A B : Forall (λ x, pri x ≤ pri t) A → Forall (λ x, pri t < pri x) B →
  pri_insert pri t (A ++ B) = A ++ t :: B.
Proof.
  intros HA HB. induction HA as [|x A Hx HA IH]; simpl.
  - destruct HB as [|y B Hy]; [done|]. simpl. by rewrite (proj2 (Z.leb_gt _ _)) by lia.
  - rewrite (proj2 (Z.leb_le _ _)) by lia. by rewrite IH.
Qed.

(** ** The searches *)

Lemma head_tail_node (xs : list tid) : Node <$> head xs = None → xs = [].
Proof. by destruct xs. Qed.

Lemma search_forward_run h D hd p L2 : ∀ L1 fuel,
  trep h D → D !! hd = Some (L1 ++ L2) → (length L2 < fuel)%nat →
  wp (search_forward pri fuel p (Node <$> head L2) (Some hd)) h (λ r h', h' = h ∧
    ∃ M1 M2, L2 = M1 ++ M2 ∧ Forall (λ x, pri x < p) M1 ∧ r = Node <$> head M2 ∧
      ∀ s, head M2 = Some s → p ≤ pri s).
Proof.
  induction L2 as [|x L2 IH]; intros L1 fuel HR Hq Hf; (destruct fuel as [|fuel]; [simpl in Hf; lia|]); simpl.
  - apply wp_ret. split; [done|]. by exists [], [].
  - apply wp_bind, (wp_lift _ x); [done|]. destruct (Z.leb_spec p (pri x)) as [Hle|Hlt].
    + apply wp_ret. split; [done|]. exists [], (x :: L2). split_and!; try done. by intros s [= <-].
    + apply wp_bind. eapply wp_mono; [by eapply t_next|]. intros r h' [-> ->].
      eapply wp_mono; [apply (IH (L1 ++ [x])); [done|by rewrite <- (assoc_L (++))|simpl in Hf; lia]|].
      intros r h' (-> & M1 & M2 & -> & HM & Hr & Hs). split; [done|].
      exists (x :: M1), M2. split_and!; try done. by constructor.
Qed.

Lemma search_back_run h D hd p L1 : ∀ L2 fuel,
  trep h D → D !! hd = Some (L1 ++ L2) → (length L1 < fuel)%nat →
  wp (search_back pri fuel p (Node <$> last L1) (Some hd)) h (λ r h', h' = h ∧
    ∃ M1 M2, L1 = M1 ++ M2 ∧ Forall (λ x, p < pri x) M2 ∧ r = Node <$> last M1 ∧
      ∀ s, last M1 = Some s → pri s ≤ p).
Proof.
  induction L1 as [|x L1 IH] using rev_ind; intros L2 fuel HR Hq Hf;
    (destruct fuel as [|fuel]; [simpl in Hf; lia|]); [|rewrite last_snoc]; simpl.
  - apply wp_ret. split; [done|]. by exists [], [].
  - rewrite length_app in Hf. simpl in Hf.
    apply wp_bind, (wp_lift _ x); [done|]. destruct (Z.leb_spec (pri x) p) as [Hle|Hlt].
    + apply wp_ret. split; [done|]. exists (L1 ++ [x]), [].
      rewrite app_nil_r, last_snoc. split_and!; try done. by intros s [= <-].
    + rewrite <- (assoc_L (++)) in Hq. simpl in Hq.
      apply wp_bind. eapply wp_mono; [by eapply t_prev|]. intros r h' [-> ->].
      eapply wp_mono; [apply (IH (x :: L2)); [done..|lia]|].
      intros r h' (-> & M1 & M2 & -> & HM & Hr & Hs). split; [done|].
      exists M1, (M2 ++ [x]). split_and!; try done; [by rewrite <- (assoc_L (++))|].
      apply Forall_app. split; [done|]. by constructor.
Qed.

(** ** Enqueueing by priority *)

(** The two ways a task enters a header's list. *)
Inductive placed (D : chains) (w : wqid) (t : tid) : chains → Prop :=
| placed_behind L1 s L2 :
    leaders D w (header_index (pri t)) = L1 ++ s :: L2 → pri s = pri t →
    Forall (λ x, pri x < pri t) L1 → Forall (λ x, pri t < pri x) L2 →
    placed D w t (c_set (Same s) (members D s ++ [t]) (<[Same t := []]> D))
| placed_alone L1 L2 :
    leaders D w (header_index (pri t)) = L1 ++ L2 →
    Forall (λ x, pri x < pri t) L1 → Forall (λ x, pri t < pri x) L2 →
    placed D w t (c_set (Header w (header_index (pri t))) (L1 ++ t :: L2) (<[Same t := []]> D)).

Lemma sorted_app_inv (L1 L2 : list tid) x : StronglySorted more_urgent (L1 ++ x :: L2) →
  Forall (λ y, pri y < pri x) L1 ∧ Forall (λ y, pri x < pri y) L2.
Proof.
  intros Hs. split.
  - apply Forall_forall. intros y Hy. by eapply (StronglySorted_app_1_elem_of more_urgent L1 (x :: L2)); [..|left].
  - apply StronglySorted_app_1_r in Hs. by apply StronglySorted_cons in Hs as [? _].
Qed.

Lemma enqueue_links h D w t fuel :
  trep h D → tq_wf D → init_ok w D → fifo w = false → 0 ≤ pri t < 256 → c_linked t D = false →
  is_Some (h !! Node t) → is_Some (h !! Same t) →
  (length (leaders D w (header_index (pri t))) < fuel)%nat →
  wp (ttosEnqueuePriority pri fuel w t) h (λ _ h',
    dom h' = dom h ∧ ∃ D', trep h' D' ∧ placed D w t D').
Proof.
  intros HR Hwf Hin Hw Hp Hl Hn Hsm Hf. set (i := header_index (pri t)) in *.
  destruct (Hin i) as [L HL]; [unfold nheads; rewrite Hw; by apply header_index_bound|].
  assert (EL : leaders D w i = L) by (unfold leaders, c_get; by rewrite HL).
  pose proof (w_sorted _ Hwf w i Hw) as Hsort. rewrite EL in Hf, Hsort.
  unfold ttosEnqueuePriority. apply wp_bind. eapply wp_mono.
  { apply (t_init h D (Same t)); [done|by intros []| |done].
    destruct (c_get (Same t) D) as [|m ms] eqn:E; [done|]. exfalso.
    destruct (w_same _ Hwf t m) as (_ & _ & w' & i' & _ & Hin'); [unfold members; rewrite E; left|].
    rewrite c_linked_false in Hl. by apply (Hl (Header w' i')). }
  intros [] h1 [HR1 Hd1]. set (D1 := <[Same t := []]> D) in *. cbv zeta.
  assert (HL1 : D1 !! Header w i = Some L) by (unfold D1; by rewrite lookup_insert_ne).
  assert (Hl1 : c_linked t D1 = false).
  { rewrite c_linked_false in Hl |- *. intros q. unfold D1. change (t ∉ c_get q (c_set (Same t) [] D)).
    rewrite c_get_set. case_decide; [set_solver|apply Hl]. }
  assert (Hn1 : is_Some (h1 !! Node t)) by (apply elem_of_dom; rewrite Hd1; by apply elem_of_dom).
  assert (Hbehind : ∀ L1 s L2, L = L1 ++ s :: L2 → pri s = pri t →
    wp (list_add_tail (Some (Node t)) (Some (Same s))) h1 (λ _ h',
      dom h' = dom h ∧ ∃ D', trep h' D' ∧ placed D w t D')).
  { intros L1 s L2 E Hs. destruct (w_dom _ Hwf w i s Hw) as [ms Hms]; [rewrite EL, E; set_solver|].
    assert (Hst : s ≠ t).
    { intros ->. rewrite c_linked_false in Hl. apply (Hl (Header w i)). unfold leaders in EL.
      rewrite EL, E. set_solver. }
    eapply wp_mono; [eapply (t_add_tail h1 D1 HR1 (Same s) ms); [|done..]|].
    { unfold D1. rewrite lookup_insert_ne by congruence. done. }
    intros [] h' [HR' Hd']. split; [congruence|]. eexists. split; [exact HR'|].
    rewrite E in Hsort. destruct (sorted_app_inv _ _ _ Hsort) as [HA HB]. rewrite Hs in HA, HB.
    replace ms with (members D s) by (unfold members, c_get; by rewrite Hms).
    eapply placed_behind; [fold i; by rewrite EL|done..]. }
  assert (Halone : ∀ L1 L2 h', L = L1 ++ L2 →
    Forall (λ x, pri x < pri t) L1 → Forall (λ x, pri t < pri x) L2 →
    trep h' (c_set (Header w i) (L1 ++ t :: L2) D1) → dom h' = dom h1 →
    dom h' = dom h ∧ ∃ D', trep h' D' ∧ placed D w t D').
  { intros L1 L2 h' E HA HB HR' Hd'. split; [congruence|]. eexists. split; [exact HR'|].
    eapply placed_alone; [fold i; by rewrite EL|done..]. }
  change (header_of w (pri t)) with (Header w i).
  destruct (_ <=? _).
  - apply wp_bind. eapply wp_mono; [by eapply t_tail|]. intros r h' [-> ->].
    apply wp_bind. eapply wp_mono.
    { apply (search_back_run h1 D1 (Header w i) (pri t) L []); [done|by rewrite app_nil_r|done]. }
    intros r h' (-> & M1 & M2 & E & HM & -> & Hle).
    destruct M1 as [|s M1 _] using rev_ind.
    { eapply wp_mono; [by eapply t_add_head|]. intros [] h' [HR' Hd']. apply (Halone [] M2); try done.
      simpl in E |- *. by rewrite <- E. }
    rewrite last_snoc in *. specialize (Hle s eq_refl). rewrite <- (assoc_L (++)) in E. simpl in E |- *.
    apply wp_bind, (wp_lift _ s); [done|].
    destruct (Z.eqb_spec (pri t) (pri s)) as [Heq|Hne]; [by eapply Hbehind|].
    rewrite E in HL1. eapply wp_mono; [by eapply t_add_after|].
    intros [] h' [HR' Hd']. apply (Halone (M1 ++ [s]) M2); try done; rewrite <- ?(assoc_L (++)); try done.
    rewrite E in Hsort. destruct (sorted_app_inv _ _ _ Hsort) as [HA _].
    apply Forall_app. split; [|constructor; [lia|done]].
    eapply Forall_impl; [exact HA|]. simpl. lia.
  - apply wp_bind. eapply wp_mono; [by eapply t_first|]. intros r h' [-> ->].
    apply wp_bind. eapply wp_mono; [by apply (search_forward_run h1 D1 (Header w i) (pri t) L [])|].
    intros r h' (-> & M1 & M2 & E & HM & -> & Hle).
    destruct M2 as [|s M2]; simpl.
    { eapply wp_mono; [by eapply t_add_tail|]. intros [] h' [HR' Hd']. rewrite app_nil_r in E. subst M1.
      apply (Halone L []); try done. by rewrite app_nil_r. }
    specialize (Hle s eq_refl). apply wp_bind, (wp_lift _ s); [done|].
    destruct (Z.eqb_spec (pri t) (pri s)) as [Heq|Hne]; [by eapply Hbehind|].
    rewrite E in HL1. eapply wp_mono; [by eapply t_add_before|].
    intros [] h' [HR' Hd']. apply (Halone M1 (s :: M2)); try done.
    rewrite E in Hsort. destruct (sorted_app_inv _ _ _ Hsort) as [_ HB].
    constructor; [lia|]. eapply Forall_impl; [exact HB|]. simpl. lia.
Qed.

Definition groups (D : chains) (L : list tid) : list tid := concat ((λ l, l :: members D l) <$> L).

Lemma groups_app D L1 L2 : groups D (L1 ++ L2) = groups D L1 ++ groups D L2.
Proof. unfold groups. by rewrite fmap_app, concat_app. Qed.

Lemma groups_cons D l L : groups D (l :: L) = l :: members D l ++ groups D L.
Proof. done. Qed.

Lemma groups_ext D D' L : (∀ l, l ∈ L → members D' l = members D l) → groups D' L = groups D L.
Proof.
  intros Hm. unfold groups. f_equal. apply list_fmap_ext. intros k l Hk. f_equal.
  apply Hm. by apply list_elem_of_lookup_2 in Hk.
Qed.

(** A property of priorities holds of groups when it holds of their leaders. *)
Lemma groups_Forall D L (P : Z → Prop) : tq_wf D → Forall (λ l, P (pri l)) L →
  Forall (λ x, P (pri x)) (groups D L).
Proof.
  intros Hwf HL. apply Forall_concat, Forall_fmap. eapply Forall_impl; [exact HL|]. intros l Hl. simpl.
  constructor; [done|]. apply Forall_forall. intros m Hm. by destruct (w_same _ Hwf _ _ Hm) as (-> & _).
Qed.

Section Placed.
Context (D D' : chains) (w : wqid) (t : tid).
Hypothesis Hc : c_wf D.
Hypothesis Hwf : tq_wf D.
Hypothesis Hw : fifo w = false.
Hypothesis Hp : 0 ≤ pri t < 256.
Hypothesis Hl : c_linked t D = false.
Hypothesis Hpl : placed D w t D'.

Lemma unlinked_members x : c_linked x D = false → members D x = [].
Proof.
  intros Hx. destruct (members D x) as [|m ms] eqn:E; [done|]. exfalso.
  destruct (w_same _ Hwf x m) as (_ & _ & w' & i' & _ & Hin'); [rewrite E; left|].
  rewrite c_linked_false in Hx. by apply (Hx (Header w' i')).
Qed.

Lemma leaders_not t' w' i' : t' ∈ leaders D w' i' → t' ≠ t.
Proof. intros Hin ->. rewrite c_linked_false in Hl. by apply (Hl (Header w' i')). Qed.

Lemma members_fresh l : c_get (Same l) (<[Same t := []]> D) = members D l.
Proof.
  change (c_get (Same l) (c_set (Same t) [] D) = members D l). rewrite c_get_set.
  case_decide as E; [|done]. injection E as <-. by rewrite unlinked_members.
Qed.

Lemma leaders_fresh w' i' : c_get (Header w' i') (<[Same t := []]> D) = leaders D w' i'.
Proof. change (c_get (Header w' i') (c_set (Same t) [] D) = leaders D w' i'). by rewrite c_get_set_ne. Qed.

(** What a placement changes: one header's sequence gains [t] at its place. *)
Lemma placed_part :
  (∃ A B, part D w (header_index (pri t)) = A ++ B ∧
     part D' w (header_index (pri t)) = A ++ t :: B ∧
     Forall (λ x, pri x ≤ pri t) A ∧ Forall (λ x, pri t < pri x) B) ∧
  (∀ w' j, (w', j) ≠ (w, header_index (pri t)) →
     leaders D' w' j = leaders D w' j ∧ part D' w' j = part D w' j).
Proof.
  destruct Hpl as [L1 s L2 EL Hs HA HB|L1 L2 EL HA HB]; set (i := header_index (pri t)) in *.
  - assert (Em : ∀ l, members (c_set (Same s) (members D s ++ [t]) (<[Same t := []]> D)) l =
      if decide (s = l) then members D s ++ [t] else members D l).
    { intros l. unfold members at 1. rewrite c_get_set, members_fresh.
      repeat case_decide; try congruence; done. }
    assert (El : ∀ w' j, leaders (c_set (Same s) (members D s ++ [t]) (<[Same t := []]> D)) w' j =
      leaders D w' j).
    { intros w' j. unfold leaders at 1. rewrite c_get_set_ne, leaders_fresh by done. done. }
    pose proof (c_nodup _ Hc (Header w i)) as Hnd. fold (leaders D w i) in Hnd. rewrite EL in Hnd.
    apply NoDup_app in Hnd as (_ & Hd1 & [Hs2 _]%NoDup_cons).
    split.
    + exists (groups D L1 ++ s :: members D s), (groups D L2). split_and!.
      * change (groups D (leaders D w i) = (groups D L1 ++ s :: members D s) ++ groups D L2).
        by rewrite EL, groups_app, groups_cons, <- (assoc_L (++)).
      * unfold part. rewrite El. fold (groups (c_set (Same s) (members D s ++ [t]) (<[Same t := []]> D)) (leaders D w i)).
        rewrite EL, groups_app, groups_cons, Em, decide_True by done.
        rewrite (groups_ext D _ L2), (groups_ext D _ L1); [by rewrite <- !(assoc_L (++))| |].
        -- intros l Hin. rewrite Em, decide_False; [done|]. intros ->. apply (Hd1 l Hin). left.
        -- intros l Hin. rewrite Em, decide_False; [done|]. by intros ->.
      * apply Forall_app. split; [apply groups_Forall with (P := λ x, x ≤ pri t); [done|];
          eapply Forall_impl; [exact HA|]; simpl; lia|].
        constructor; [lia|]. apply Forall_forall. intros m Hm. destruct (w_same _ Hwf _ _ Hm) as (-> & _). lia.
      * by apply groups_Forall with (P := λ x, pri t < x).
    + intros w' j Hne. split; [apply El|]. apply part_ext; [apply El|]. intros l Hin.
      rewrite Em, decide_False; [done|]. intros <-. apply Hne.
      assert (E : Header w' j = Header w i).
      { eapply (c_disj _ Hc _ _ s); [done|]. fold (leaders D w i). rewrite EL. set_solver. }
      by injection E as -> ->.
  - assert (Em : ∀ l, members (c_set (Header w i) (L1 ++ t :: L2) (<[Same t := []]> D)) l = members D l).
    { intros l. unfold members at 1. by rewrite c_get_set_ne, members_fresh by done. }
    assert (El : ∀ w' j, leaders (c_set (Header w i) (L1 ++ t :: L2) (<[Same t := []]> D)) w' j =
      if decide (Header w i = Header w' j) then L1 ++ t :: L2 else leaders D w' j).
    { intros w' j. unfold leaders at 1. rewrite c_get_set, leaders_fresh. done. }
    split.
    + exists (groups D L1), (groups D L2). split_and!.
      * change (groups D (leaders D w i) = groups D L1 ++ groups D L2). by rewrite EL, groups_app.
      * unfold part. rewrite El, decide_True by done.
        fold (groups (c_set (Header w i) (L1 ++ t :: L2) (<[Same t := []]> D)) (L1 ++ t :: L2)).
        rewrite (groups_ext D) by (intros; apply Em).
        rewrite groups_app, groups_cons, unlinked_members by done. done.
      * apply groups_Forall with (P := λ x, x ≤ pri t); [done|]. eapply Forall_impl; [exact HA|]. simpl. lia.
      * by apply groups_Forall with (P := λ x, pri t < x).
    + intros w' j Hne. assert (E : leaders (c_set (Header w i) (L1 ++ t :: L2) (<[Same t := []]> D)) w' j =
        leaders D w' j) by (rewrite El; case_decide; congruence).
      split; [done|]. apply part_ext; [done|]. intros l _. apply Em.
Qed.

Lemma placed_flat : flat D' w = pri_insert pri t (flat D w) ∧
  ∀ w', w' ≠ w → flat D' w' = flat D w'.
Proof.
  destruct placed_part as [(A & B & EA & EB & HA & HB) Hother].
  set (i := header_index (pri t)) in *.
  assert (Hi : (i < nheads w)%nat) by (unfold nheads; rewrite Hw; by apply header_index_bound).
  assert (Hne : ∀ j, j ≠ i → part D' w j = part D w j).
  { intros j Hj. apply Hother. congruence. }
  split.
  - rewrite !(flat_split _ w i Hi), EA, EB.
    rewrite !(parts_ext D D') by (intros j [??]%elem_of_seq; apply Hne; lia).
    set (X := concat (part D w <$> seq 0 i)). set (Y := concat (part D w <$> seq (S i) _)).
    replace (X ++ (A ++ B) ++ Y) with ((X ++ A) ++ B ++ Y) by (by rewrite <- !(assoc_L (++))).
    rewrite pri_insert_split.
    + by rewrite <- !(assoc_L (++)).
    + apply Forall_app. split; [|done]. apply parts_Forall. intros j x [??]%elem_of_seq Hx.
      destruct (part_index _ _ _ _ Hwf Hw Hx) as [Hxp ->].
      assert (pri x < pri t); [|lia]. apply header_index_lt; [lia..|]. unfold i in *. lia.
    + apply Forall_app. split; [done|]. apply parts_Forall. intros j x [??]%elem_of_seq Hx.
      destruct (part_index _ _ _ _ Hwf Hw Hx) as [Hxp ->].
      apply header_index_lt; [lia..|]. unfold i in *. lia.
  - intros w' Hw'. apply parts_ext. intros j _. apply Hother. congruence.
Qed.

Lemma sorted_insert L1 L2 : StronglySorted more_urgent (L1 ++ L2) →
  Forall (λ x, pri x < pri t) L1 → Forall (λ x, pri t < pri x) L2 →
  StronglySorted more_urgent (L1 ++ t :: L2).
Proof.
  induction L1 as [|x L1 IH]; simpl; intros Hs HA HB.
  - by apply StronglySorted_cons.
  - apply StronglySorted_cons in Hs as [Hx Hs]. apply Forall_cons in HA as [Hxt HA].
    apply StronglySorted_cons. split; [|by apply IH].
    apply Forall_app in Hx as [H1 H2]. apply Forall_app. split; [done|]. by constructor.
Qed.

Lemma placed_dom q : is_Some (D !! q) → is_Some (D' !! q).
Proof.
  intros Hq. destruct Hpl; unfold c_set; rewrite !lookup_insert; repeat case_decide; eauto.
Qed.

Lemma placed_same_t : is_Some (D' !! Same t).
Proof. destruct Hpl; unfold c_set; rewrite !lookup_insert; repeat case_decide; try done; eauto. Qed.

Lemma placed_wf : tq_wf D'.
Proof.
  pose proof placed_dom as Hdom. pose proof placed_same_t as Hdt.
  set (i := header_index (pri t)) in *.
  assert (Hlead : ∀ w' j x, x ∈ leaders D' w' j → x ∈ leaders D w' j ∨ x = t ∧ w' = w ∧ j = i).
  { destruct Hpl as [L1 s L2 EL|L1 L2 EL]; intros w' j x; unfold leaders.
    - rewrite c_get_set_ne, leaders_fresh by done. by left.
    - rewrite c_get_set, leaders_fresh. case_decide as E; [|by left]. injection E as <- <-.
      unfold leaders in EL. rewrite EL. set_solver. }
  assert (Hkeep : ∀ w' j x, x ∈ leaders D w' j → x ∈ leaders D' w' j).
  { destruct Hpl as [L1 s L2 EL|L1 L2 EL]; intros w' j x; unfold leaders at 2.
    - by rewrite c_get_set_ne, leaders_fresh.
    - rewrite c_get_set, leaders_fresh. case_decide as E; [|done]. injection E as <- <-.
      rewrite EL. set_solver. }
  assert (Hmem : ∀ l m, m ∈ members D' l → m ∈ members D l ∨ m = t ∧ pri l = pri t ∧ l ∈ leaders D w i).
  { destruct Hpl as [L1 s L2 EL Hs|L1 L2 EL]; intros l m; unfold members at 1.
    - rewrite c_get_set, members_fresh. case_decide as E; [|by left]. injection E as ->.
      fold i in EL. rewrite EL. set_solver.
    - rewrite c_get_set_ne, members_fresh by done. by left. }
  split.
  - intros w' j x Hw' [Hx|(-> & -> & ->)]%Hlead; [by eapply (w_header _ Hwf)|done].
  - intros w' j Hw'. pose proof (w_sorted _ Hwf w' j Hw') as Hs.
    destruct Hpl as [L1 s L2 EL|L1 L2 EL HA HB]; unfold leaders.
    + by rewrite c_get_set_ne, leaders_fresh.
    + rewrite c_get_set, leaders_fresh. case_decide as E; [|done]. injection E as <- <-.
      rewrite EL in Hs. by apply sorted_insert.
  - intros w' j x Hw' [Hx|(-> & -> & ->)]%Hlead; [|congruence].
    destruct (w_fifo _ Hwf w' j x Hw' Hx) as [-> Em]. split; [done|].
    destruct (members D' x) as [|m ms] eqn:E; [done|]. exfalso.
    destruct (Hmem x m) as [Hm|(-> & _ & Hxw)]; [rewrite E; left|rewrite Em in Hm; set_solver|].
    assert (E' : Header w' 0 = Header w i) by (by eapply (c_disj _ Hc _ _ x)). congruence.
  - intros l m [Hm|(-> & Hlt & Hlw)]%Hmem.
    + destruct (w_same _ Hwf _ _ Hm) as (? & ? & w' & j & ? & ?). split_and!; [done|by apply Hdom|].
      exists w', j. split; [done|by apply Hkeep].
    + split_and!; [done..|]. exists w, i. split; [done|by apply Hkeep].
  - intros w' j x Hw' [Hx|(-> & _)]%Hlead; [|done]. apply Hdom. by eapply (w_dom _ Hwf).
Qed.

End Placed.

(** ** Leaving a queue *)

(** What is left when [t] has gone: a task alone at its priority leaves its
    header; the first of a group hands its place and group to the second; any
    other leaves the group. *)
Inductive removed (D : chains) (t : tid) (D' : chains) : Prop :=
| removed_single w i L1 L2 :
    leaders D w i = L1 ++ t :: L2 → members D t = [] →
    (∀ w' j, leaders D' w' j = if decide ((w', j) = (w, i)) then L1 ++ L2 else leaders D w' j) →
    (∀ l, members D' l = members D l) → removed D t D'
| removed_promote w i L1 L2 f ms :
    leaders D w i = L1 ++ t :: L2 → members D t = f :: ms →
    (∀ w' j, leaders D' w' j = if decide ((w', j) = (w, i)) then L1 ++ f :: L2 else leaders D w' j) →
    (∀ l, members D' l = if decide (l = t) then [] else if decide (l = f) then ms else members D l) →
    removed D t D'
| removed_member s M1 M2 :
    members D s = M1 ++ t :: M2 →
    (∀ w' j, leaders D' w' j = leaders D w' j) →
    (∀ l, members D' l = if decide (l = s) then M1 ++ M2 else members D l) → removed D t D'.

Section Removed.
Context (D D' : chains) (t : tid).
Hypothesis Hc : c_wf D.
Hypothesis Hwf : tq_wf D.
Hypothesis Hrm : removed D t D'.
Hypothesis Hdom : ∀ q, q ≠ Same t → is_Some (D !! q) → is_Some (D' !! q).

Lemma leader_apart w i x : x ∈ leaders D w i → ∀ l, x ∉ members D l.
Proof. intros Hx l Hl. assert (E : Header w i = Same l) by (by eapply (c_disj _ Hc _ _ x)). done. Qed.

Lemma leader_once w i w' i' x : x ∈ leaders D w i → x ∈ leaders D w' i' → (w', i') = (w, i).
Proof.
  intros Hx Hx'. assert (E : Header w i = Header w' i') by (by eapply (c_disj _ Hc _ _ x)). congruence.
Qed.

Lemma member_members x l : x ∈ members D l → members D x = [].
Proof.
  intros Hx. destruct (members D x) as [|m ms] eqn:E; [done|]. exfalso.
  destruct (w_same _ Hwf x m) as (_ & _ & w & i & _ & Hl); [rewrite E; left|]. by apply (leader_apart w i x Hl l).
Qed.

Lemma leader_head w i x : x ∈ leaders D w i → (i < nheads w)%nat.
Proof.
  intros Hx. unfold nheads. destruct (fifo w) eqn:E.
  - destruct (w_fifo _ Hwf w i x E Hx) as [-> _]. lia.
  - destruct (w_header _ Hwf w i x E Hx) as [? ->]. by apply header_index_bound.
Qed.

Lemma leaders_split w i L1 x L2 : leaders D w i = L1 ++ x :: L2 → x ∉ L1 ∧ x ∉ L2.
Proof.
  intros E. pose proof (c_nodup _ Hc (Header w i)) as Hnd. fold (leaders D w i) in Hnd. rewrite E in Hnd.
  apply NoDup_app in Hnd as (_ & Hd & [? _]%NoDup_cons). split; [|done]. intros Hx. apply (Hd x Hx). left.
Qed.

Lemma removed_part : ∃ w i A B, (i < nheads w)%nat ∧
  part D w i = A ++ t :: B ∧ part D' w i = A ++ B ∧
  ∀ w' j, (w', j) ≠ (w, i) → part D' w' j = part D w' j.
Proof.
  destruct Hrm as [w i L1 L2 EL Em El' Em'|w i L1 L2 f ms EL Em El' Em'|s M1 M2 EM El' Em'].
  - exists w, i, (groups D L1), (groups D L2). split_and!.
    + apply (leader_head w i t). rewrite EL. set_solver.
    + change (groups D (leaders D w i) = groups D L1 ++ t :: groups D L2).
      by rewrite EL, groups_app, groups_cons, Em.
    + change (groups D' (leaders D' w i) = groups D L1 ++ groups D L2).
      by rewrite El', decide_True, (groups_ext D), groups_app.
    + intros w' j Hne. apply part_ext; [by rewrite El', decide_False|]. intros l _. apply Em'.
  - destruct (leaders_split _ _ _ _ _ EL) as [Ht1 Ht2].
    assert (Htl : t ∈ leaders D w i) by (rewrite EL; set_solver).
    assert (Hfm : f ∈ members D t) by (rewrite Em; left).
    assert (Hne : ∀ w' j l, l ∈ leaders D w' j → l ≠ t → members D' l = members D l).
    { intros w' j l Hl Hlt. rewrite Em'. rewrite !decide_False; [done| |done]. intros ->.
      by apply (leader_apart w' j f Hl t). }
    exists w, i, (groups D L1), (f :: ms ++ groups D L2). split_and!.
    + by eapply leader_head.
    + change (groups D (leaders D w i) = groups D L1 ++ t :: f :: ms ++ groups D L2).
      by rewrite EL, groups_app, groups_cons, Em.
    + change (groups D' (leaders D' w i) = groups D L1 ++ f :: ms ++ groups D L2).
      rewrite El', decide_True, groups_app, groups_cons, Em' by done.
      rewrite (decide_False (P := f = t)), decide_True by (try done; intros ->; by apply (leader_apart w i t Htl t)).
      rewrite (groups_ext D _ L1), (groups_ext D _ L2); [done|..]; intros l Hl; apply (Hne w i);
        try (rewrite EL; set_solver); by intros ->.
    + intros w' j Hwj. apply part_ext; [by rewrite El', decide_False|]. intros l Hl. apply (Hne w' j l Hl).
      intros ->. by apply Hwj, (leader_once w i w' j t).
  - destruct (w_same _ Hwf s t) as (_ & _ & w & i & _ & Hs); [rewrite EM; set_solver|].
    pose proof Hs as Hs'. apply list_elem_of_split in Hs' as (L1 & L2 & EL).
    destruct (leaders_split _ _ _ _ _ EL) as [Hs1 Hs2].
    exists w, i, (groups D L1 ++ s :: M1), (M2 ++ groups D L2). split_and!.
    + by eapply leader_head.
    + change (groups D (leaders D w i) = (groups D L1 ++ s :: M1) ++ t :: M2 ++ groups D L2).
      rewrite EL, groups_app, groups_cons, EM. by rewrite <- !(assoc_L (++)).
    + change (groups D' (leaders D' w i) = (groups D L1 ++ s :: M1) ++ M2 ++ groups D L2).
      rewrite El', EL, groups_app, groups_cons, Em', decide_True by done.
      rewrite (groups_ext D _ L1), (groups_ext D _ L2); [by rewrite <- !(assoc_L (++))|..];
        intros l Hl; rewrite Em', decide_False; try done; by intros ->.
    + intros w' j Hwj. apply part_ext; [by rewrite El'|]. intros l Hl. rewrite Em', decide_False; [done|].
      intros ->. by apply Hwj, (leader_once w i w' j s).
Qed.

Lemma removed_flat : c_linked t D' = false → ∃ w A B,
  flat D w = A ++ t :: B ∧ flat D' w = A ++ B ∧ t ∉ A ++ B ∧
  ∀ w', w' ≠ w → flat D' w' = flat D w' ∧ t ∉ flat D w'.
Proof.
  intros Hl'. destruct removed_part as (w & i & A & B & Hi & EA & EB & Hother).
  assert (Hout : ∀ w', t ∉ flat D' w').
  { intros w'. unfold flat. intros Hin. apply list_elem_of_In, in_concat in Hin as (g & Hg & Ht).
    apply list_elem_of_In, list_elem_of_fmap in Hg as (j & -> & _). apply list_elem_of_In, elem_of_part in Ht.
    rewrite c_linked_false in Hl'. destruct Ht as (l & Hl & [->|Hm]); [by apply (Hl' (Header w' j))|].
    by apply (Hl' (Same l)). }
  assert (Hpe : ∀ n k, (k + n ≤ i ∨ i < k)%nat →
    concat (part D' w <$> seq k n) = concat (part D w <$> seq k n)).
  { intros n k Hk. apply parts_ext. intros j [??]%elem_of_seq. apply Hother. intros [= ->]. lia. }
  specialize (Hout w) as Hw. rewrite (flat_split D' w i Hi), EB, !Hpe in Hw by lia.
  set (X := concat (part D w <$> seq 0 i)) in *. set (Y := concat (part D w <$> seq (S i) (nheads w - S i))) in *.
  exists w, (X ++ A), (B ++ Y). split_and!.
  - rewrite (flat_split D w i Hi), EA. by rewrite <- !(assoc_L (++)).
  - rewrite (flat_split D' w i Hi), EB, !Hpe by lia. by rewrite <- !(assoc_L (++)).
  - by rewrite <- (assoc_L (++)), (assoc_L (++) A).
  - intros w' Hne. assert (E : flat D' w' = flat D w') by (apply parts_ext; intros j _; apply Hother; congruence).
    split; [done|]. rewrite <- E. apply Hout.
Qed.

Lemma removed_filter : c_linked t D' = false →
  ∀ w, flat D' w = filter (λ x, x ≠ t) (flat D w).
Proof.
  intros Hl'. destruct (removed_flat Hl') as (w & A & B & EA & EB & Ht & Hother). intros w'.
  destruct (decide (w' = w)) as [->|Hne].
  - rewrite EA, EB. symmetry. apply filter_ne_split; set_solver.
  - destruct (Hother w' Hne) as [-> Hn]. by rewrite filter_ne_fresh.
Qed.

Lemma sorted_swap (L1 L2 : list tid) x y : pri y = pri x →
  StronglySorted more_urgent (L1 ++ x :: L2) → StronglySorted more_urgent (L1 ++ y :: L2).
Proof.
  intros Hxy. induction L1 as [|z L1 IH]; simpl; rewrite !StronglySorted_cons.
  - unfold more_urgent. by rewrite Hxy.
  - intros [Hz Hs]. split; [|by apply IH]. apply Forall_app in Hz as [? [??]%Forall_cons].
    apply Forall_app. split; [done|]. constructor; [|done]. unfold more_urgent in *. by rewrite Hxy.
Qed.

Lemma sorted_drop (L1 L2 : list tid) x :
  StronglySorted more_urgent (L1 ++ x :: L2) → StronglySorted more_urgent (L1 ++ L2).
Proof.
  induction L1 as [|z L1 IH]; simpl; rewrite !StronglySorted_cons; [naive_solver|].
  intros [Hz Hs]. split; [|by apply IH]. apply Forall_app in Hz as [? [??]%Forall_cons].
  by apply Forall_app.
Qed.

(** The leaders and members afterwards, in terms of those before. *)
Lemma removed_leader w j x : x ∈ leaders D' w j →
  x ∈ leaders D w j ∨ x ∈ members D t ∧ t ∈ leaders D w j.
Proof.
  destruct Hrm as [w0 i L1 L2 EL Em El' Em'|w0 i L1 L2 f ms EL Em El' Em'|s M1 M2 EM El' Em'];
    rewrite El'; [case_decide as E|case_decide as E|by left]; try (by left);
    injection E as -> ->; rewrite EL, ?Em; set_solver.
Qed.

Lemma removed_keeps w j x : x ∈ leaders D w j → x ≠ t → x ∈ leaders D' w j.
Proof.
  intros Hx Hne.
  destruct Hrm as [w0 i L1 L2 EL Em El' Em'|w0 i L1 L2 f ms EL Em El' Em'|s M1 M2 EM El' Em'];
    rewrite El'; [case_decide as E|case_decide as E|done]; try done;
    injection E as -> ->; rewrite EL in Hx; set_solver.
Qed.

Lemma removed_members l m : m ∈ members D' l →
  m ∈ members D l ∧ l ≠ t ∨ m ∈ members D t ∧ l ∈ members D t ∧ ∃ w i, t ∈ leaders D w i ∧ l ∈ leaders D' w i.
Proof.
  destruct Hrm as [w0 i L1 L2 EL Em El' Em'|w0 i L1 L2 f ms EL Em El' Em'|s M1 M2 EM El' Em']; rewrite Em'.
  - intros Hm. left. split; [done|]. intros ->. rewrite Em in Hm. set_solver.
  - repeat case_decide; subst; [set_solver| |by left]. intros Hm. right. rewrite Em. split_and!; [set_solver..|].
    exists w0, i. split; [rewrite EL; set_solver|]. rewrite El', decide_True by done. set_solver.
  - assert (Htm : t ∈ members D s) by (rewrite EM; set_solver). case_decide as E; subst.
    + intros Hm. left. split; [rewrite EM; set_solver|]. intros ->.
      pose proof (member_members t t Htm) as E. rewrite E in Htm. set_solver.
    + intros Hm. left. split; [done|]. intros ->. rewrite (member_members t s Htm) in Hm. set_solver.
Qed.

Lemma removed_wf : c_linked t D' = false → tq_wf D'.
Proof.
  intros Hl'. rewrite c_linked_false in Hl'.
  assert (Hlne : ∀ w j x, x ∈ leaders D' w j → x ≠ t) by (intros w j x Hx ->; by apply (Hl' (Header w j))).
  assert (Hmne : ∀ l x, x ∈ members D' l → x ≠ t) by (intros l x Hx ->; by apply (Hl' (Same l))).
  assert (Htf : ∀ w j, t ∈ leaders D w j → members D t ≠ [] → fifo w = false).
  { intros w j Ht Hne. destruct (fifo w) eqn:E; [|done]. by destruct (w_fifo _ Hwf w j t E Ht). }
  split.
  - intros w j x Hw [Hx|[Hx Ht]]%removed_leader; [by eapply (w_header _ Hwf)|].
    destruct (w_same _ Hwf _ _ Hx) as (-> & _). by eapply (w_header _ Hwf).
  - intros w j Hw. pose proof (w_sorted _ Hwf w j Hw) as Hs.
    destruct Hrm as [w0 i L1 L2 EL Em El' Em'|w0 i L1 L2 f ms EL Em El' Em'|s M1 M2 EM El' Em']; rewrite El';
      [case_decide as E|case_decide as E|]; try done; injection E as -> ->; rewrite EL in Hs.
    + by eapply sorted_drop.
    + eapply sorted_swap; [|done]. destruct (w_same _ Hwf t f) as (-> & _); [rewrite Em; left|done].
  - intros w j x Hw Hx. destruct (removed_leader _ _ _ Hx) as [Hx'|[Hx' Ht]].
    2: { destruct (w_fifo _ Hwf w j t Hw Ht) as [_ E]. rewrite E in Hx'. set_solver. }
    destruct (w_fifo _ Hwf w j x Hw Hx') as [-> Em]. split; [done|].
    destruct (members D' x) as [|m ms] eqn:E; [done|]. exfalso.
    destruct (removed_members x m) as [[Hm _]|(_ & Hxm & _)]; [rewrite E; left| |].
    + rewrite Em in Hm. set_solver.
    + by apply (leader_apart w 0 x Hx' t).
  - intros l m Hm. pose proof (Hmne l m Hm) as Hmt.
    destruct (removed_members l m Hm) as [[Hm' Hlt]|(Hmm & Hlm & w & i & Ht & Hl)].
    + destruct (w_same _ Hwf _ _ Hm') as (? & ? & w & i & ? & ?).
      split_and!; [done|apply Hdom; [congruence|done]|]. exists w, i. split; [done|by apply removed_keeps].
    + destruct (w_same _ Hwf _ _ Hmm) as (-> & ? & _). destruct (w_same _ Hwf _ _ Hlm) as (-> & _).
      split_and!; [done|apply Hdom; [congruence|done]|]. exists w, i. split; [|done].
      apply (Htf w i Ht). intros E. rewrite E in Hmm. set_solver.
  - intros w j x Hw Hx. pose proof (Hlne _ _ _ Hx) as Hxt. apply Hdom; [congruence|].
    destruct (removed_leader _ _ _ Hx) as [Hx'|[Hx' _]]; [by eapply (w_dom _ Hwf)|].
    by destruct (w_same _ Hwf _ _ Hx') as (_ & ? & _).
Qed.

End Removed.

(** ** Taking the first task *)

(** The links after a removal: [t] is on no list, and no head is lost. *)
Definition removal (D : chains) (t : tid) (h h' : links) : Prop :=
  dom h' = dom h ∧ ∃ D', trep h' D' ∧ removed D t D' ∧ c_linked t D' = false ∧
    ∀ q, q ≠ Same t → is_Some (D !! q) → is_Some (D' !! q).

Lemma linked_set (D : chains) t q xs : c_wf D → t ∈ c_get q D → t ∉ xs →
  c_linked t (c_set q xs D) = false.
Proof.
  intros Hc Hin Hxs. apply c_linked_false. intros k. rewrite c_get_set. case_decide as E; [done|].
  intros Hk. by apply E, (c_disj _ Hc _ _ t).
Qed.

Lemma first_node_run h D w : trep h D → ∀ n idx,
  (∀ j, (idx ≤ j < idx + n)%nat → is_Some (D !! Header w j)) →
  wp (first_node w idx n) h (λ r h', h' = h ∧
    ((r = None ∧ ∀ j, (idx ≤ j < idx + n)%nat → leaders D w j = []) ∨
     ∃ i t L, r = Some (Node t) ∧ D !! Header w i = Some (t :: L) ∧ (idx ≤ i < idx + n)%nat ∧
       ∀ j, (idx ≤ j < i)%nat → leaders D w j = [])).
Proof.
  intros HR. induction n as [|n IH]; intros idx Hin; simpl.
  - apply wp_ret. split; [done|]. left. split; [done|]. lia.
  - destruct (Hin idx) as [xs Hxs]; [lia|]. apply wp_bind.
    eapply wp_mono; [by eapply (t_is_empty h D HR)|]. intros b h' [-> ->]. case_bool_decide as E.
    + eapply wp_mono; [apply IH; intros; apply Hin; lia|].
      assert (E0 : leaders D w idx = []) by (unfold leaders, c_get; by rewrite Hxs, E).
      intros r h' (-> & [[-> Hj]|(i & t & L & -> & Hi & Hb & Hj)]); (split; [done|]).
      * left. split; [done|]. intros j Hb. destruct (decide (j = idx)) as [->|]; [done|]. apply Hj. lia.
      * right. exists i, t, L. split_and!; [done|done|lia|lia|]. intros j Hjb.
        destruct (decide (j = idx)) as [->|]; [done|]. apply Hj. lia.
    + destruct xs as [|t L]; [done|]. eapply wp_mono; [by eapply (t_first h D HR)|].
      intros r h' [-> ->]. split; [done|]. right. exists idx, t, L. split_and!; [done|done|lia|lia|]. lia.
Qed.

(** Headers without leaders have empty parts. *)
Lemma parts_empty D w js : (∀ j, j ∈ js → leaders D w j = []) → concat (part D w <$> js) = [].
Proof.
  induction js as [|j js IH]; intros Hj; [done|].
  change (part D w j ++ concat (part D w <$> js) = []). rewrite IH by (intros; apply Hj; by right).
  unfold part. rewrite Hj by left. done.
Qed.

Lemma unlink_single h D w i t L :
  trep h D → D !! Header w i = Some (t :: L) → members D t = [] →
  ∀ Ψ : option tid → links → Prop, (∀ h', removal D t h h' → Ψ (Some t) h') →
  ∃ p s, nx h (Node t) = Some (Some s) ∧ pv h (Node t) = Some (Some p) ∧
    wp (_ ← set_next (Some p) (Some s); _ ← set_prev (Some s) (Some p); unlink t) h Ψ.
Proof.
  intros HR HL Em Ψ HΨ. destruct (t_around h D HR (Header w i) [] t L HL) as (p & s & Hp & Hs & Hpt & Hts & ? & ?).
  exists p, s. destruct (lnk_dom _ _ _ Hpt) as (?&?&?&?), (lnk_dom _ _ _ Hts) as (?&?&?&?).
  pose proof Hpt as [_ Hpt2]. pose proof Hts as [Hts1 _]. split_and!; [done..|].
  do 2 ptr_step. unfold unlink. do 2 ptr_step. apply wp_ret, HΨ.
  match goal with |- removal _ _ _ ?h' => assert (Hu : unspliced h h' p (Node t) s) by (split; intros x; fields) end.
  destruct (t_unspliced h D HR (Header w i) [] t L p s _ HL Hp Hs Hu) as [HR' Hd']. split; [done|].
  eexists. split; [exact HR'|]. pose proof (tr_nodup _ _ HR _ _ HL) as [HtL _]%NoDup_cons.
  assert (EL : leaders D w i = [] ++ t :: L) by (unfold leaders, c_get; by rewrite HL).
  split_and!.
  - apply (removed_single _ _ _ w i [] L); [done..| |].
    + intros w' j. unfold leaders at 1. rewrite c_get_set. repeat case_decide; try congruence. done.
    + intros l. unfold members at 1. by rewrite c_get_set_ne.
  - apply linked_set; [by eapply tr_wf| |done]. fold (leaders D w i). rewrite EL. left.
  - intros q _ Hq. unfold c_set. rewrite lookup_insert. case_decide; eauto.
Qed.

Lemma second_empty h D : trep h D → tq_wf D → ∀ t f ms, D !! Same t = Some (f :: ms) → D !! Same f = Some [].
Proof.
  intros HR Hwf t f ms Ht. assert (Hf : f ∈ members D t) by (unfold members, c_get; rewrite Ht; left).
  destruct (w_same _ Hwf t f Hf) as (_ & [fs Hfs] & _). rewrite Hfs. f_equal.
  pose proof (member_members D (tr_wf _ _ HR) Hwf f t Hf) as E. unfold members, c_get in E. by rewrite Hfs in E.
Qed.

(** The promotion is a removal. *)
Lemma promoted_removed D w i L1 L2 t f ms (D' : chains) : c_wf D →
  D !! Header w i = Some (L1 ++ t :: L2) → D !! Same t = Some (f :: ms) →
  (∀ q, c_get q D' = c_get q (<[Same f := ms]> (delete (Same t) (c_set (Header w i) (L1 ++ f :: L2) D)))) →
  removed D t D' ∧ c_linked t D' = false.
Proof.
  intros Hc HL Ht ED.
  assert (EL : leaders D w i = L1 ++ t :: L2) by (unfold leaders, c_get; by rewrite HL).
  assert (Em : members D t = f :: ms) by (unfold members, c_get; by rewrite Ht).
  destruct (leaders_split D Hc w i L1 t L2 EL) as [Ht1 Ht2].
  assert (Htl : t ∈ leaders D w i) by (rewrite EL; set_solver).
  assert (Hft : f ≠ t).
  { intros ->. apply (leader_apart D Hc w i t Htl t). rewrite Em. left. }
  assert (Hg : ∀ q, c_get q D' = if decide (q = Same f) then ms else if decide (q = Same t) then []
    else if decide (q = Header w i) then L1 ++ f :: L2 else c_get q D).
  { intros q. rewrite ED. unfold c_get, c_set. rewrite lookup_insert, lookup_delete, lookup_insert.
    repeat case_decide; congruence || done. }
  split.
  - apply (removed_promote _ _ _ w i L1 L2 f ms); [done..| |].
    + intros w' j. unfold leaders at 1. rewrite Hg. repeat case_decide; congruence || done.
    + intros l. unfold members at 1. rewrite Hg. repeat case_decide; congruence || done.
  - apply c_linked_false. intros q. rewrite Hg. repeat case_decide; subst.
    + intros Hin. apply (leader_apart D Hc w i t Htl t). rewrite Em. by right.
    + set_solver.
    + set_solver.
    + intros Hin. by apply H1, (c_disj _ Hc _ _ t).
Qed.

Lemma dequeue_priority_links h D w :
  trep h D → tq_wf D → init_ok w D → fifo w = false →
  wp (ttosDequeuePriority w) h (λ r h',
    match flat D w with
    | [] => r = None ∧ h' = h
    | t :: _ => r = Some t ∧ removal D t h h'
    end).
Proof.
  intros HR Hwf Hin Hw. assert (En : nheads w = 4%nat) by (unfold nheads; by rewrite Hw).
  unfold ttosDequeuePriority. apply wp_bind. eapply wp_mono.
  { apply (first_node_run h D w HR). intros j Hj. apply Hin. rewrite En.
    unfold TTOS_QUEUE_DATA_NUMBER_OF_PRIORITY_HEADERS in Hj. lia. }
  change TTOS_QUEUE_DATA_NUMBER_OF_PRIORITY_HEADERS with 4%nat.
  intros r h' (-> & [[-> Hj]|(i & t & L & -> & HL & Hi & Hj)]).
  { apply wp_ret. unfold flat. rewrite parts_empty; [done|]. intros j [??]%elem_of_seq. apply Hj. lia. }
  assert (EL : leaders D w i = t :: L) by (unfold leaders, c_get; by rewrite HL).
  rewrite (flat_split D w i), parts_empty by (try lia; intros j [??]%elem_of_seq; apply Hj; lia).
  unfold part at 1. rewrite EL. simpl.
  destruct (w_dom _ Hwf w i t Hw) as [ms Hms]; [rewrite EL; left|].
  apply wp_bind, (wp_lift _ t); [done|].
  apply wp_bind. eapply wp_mono; [by eapply (t_first h D HR)|]. intros r h' [-> ->].
  destruct (t_around h D HR (Header w i) [] t L HL) as (p & s & Hp & Hs & [_ Hpt] & [Hts _] & _).
  apply wp_bind. eapply wp_get_next; [exact Hts|]. apply wp_bind. eapply wp_get_prev; [exact Hpt|].
  rewrite decide_False by naive_solver. cbv zeta.
  apply wp_bind. eapply wp_mono; [by eapply (t_is_empty h D HR)|]. intros b h' [-> ->].
  destruct ms as [|f ms]; simpl.
  - destruct (unlink_single h D w i t L HR HL) with (Ψ := λ r h', r = Some t ∧ removal D t h h')
      as (p' & s' & Hs' & Hp' & Hwp); [unfold members, c_get; by rewrite Hms|done|].
    rewrite Hts in Hs'. rewrite Hpt in Hp'. by simplify_eq.
  - assert (Hf : D !! Same f = Some []) by (by eapply (second_empty h D HR Hwf t f ms)).
    apply (promote_run h D HR (Header w i) [] L t f ms p s); try done.
    intros h' Hpr. split; [done|]. split; [by eapply (promoted_dom h D HR (Header w i) [] L t f ms p s)|].
    pose proof (promoted_rep h D HR (Header w i) [] L t f ms p s HL Hms Hf ltac:(done) ltac:(done) Hp Hs h' Hpr) as HR'.
    eexists. split; [exact HR'|]. destruct (promoted_removed D w i [] L t f ms _ (tr_wf _ _ HR) HL Hms ltac:(done)).
    split_and!; try done. intros q Hqt Hq. rewrite lookup_insert, lookup_delete_ne by done.
    unfold c_set. rewrite lookup_insert. repeat case_decide; eauto.
Qed.

(** ** Removing a given task *)

Lemma move_all_run t f : t ≠ f → ∀ ms acc h D fuel,
  trep h D → D !! Same t = Some ms → D !! Same f = Some acc → (length ms < fuel)%nat →
  wp (move_all fuel (Some (Same t)) (Some (Same f))) h (λ _ h', dom h' = dom h ∧ ∃ D',
    trep h' D' ∧ (∀ q, is_Some (D' !! q) ↔ is_Some (D !! q)) ∧
    ∀ q, c_get q D' = if decide (q = Same t) then []
                      else if decide (q = Same f) then acc ++ ms else c_get q D).
Proof.
  intros Hne. induction ms as [|x ms IH]; intros acc h D fuel HR Ht Hf Hlen;
    (destruct fuel as [|fuel]; [simpl in Hlen; lia|]); simpl;
    apply wp_bind; (eapply wp_mono; [by eapply (t_is_empty h D HR)|]); intros b h0 [-> ->]; simpl.
  - apply wp_ret. split; [done|]. exists D. split_and!; try done. intros q. unfold c_get.
    repeat case_decide; subst; rewrite ?Ht, ?Hf, ?app_nil_r; done.
  - apply wp_bind. eapply wp_mono; [by eapply (t_delete_head h D HR)|].
    intros r h1 (-> & HR1 & Hd1). set (D1 := c_set (Same t) ms D) in *.
    assert (Hxl : c_linked x D1 = false).
    { pose proof (tr_nodup _ _ HR _ _ Ht) as [? _]%NoDup_cons. apply linked_set; [by eapply tr_wf| |done].
      unfold c_get. rewrite Ht. left. }
    assert (Hxm : is_Some (h1 !! Node x)).
    { apply elem_of_dom. rewrite Hd1. apply elem_of_dom. by eapply (t_mem_node h D HR _ _ x Ht); left. }
    assert (Hf1 : D1 !! Same f = Some acc) by (unfold D1, c_set; by rewrite lookup_insert_ne by congruence).
    apply wp_bind. eapply wp_mono; [by eapply (t_add_tail h1 D1 HR1 (Same f) acc)|].
    intros [] h2 [HR2 Hd2]. eapply wp_mono; [apply (IH (acc ++ [x]) h2 _ fuel HR2)|].
    + unfold c_set. rewrite lookup_insert_ne by congruence. unfold D1, c_set. apply lookup_insert_eq.
    + apply lookup_insert_eq.
    + simpl in Hlen. lia.
    + intros [] h' (Hd' & D' & HR' & Hdom & Hg). split; [congruence|]. exists D'. split_and!; [done|..].
      * intros q. rewrite Hdom. unfold D1, c_set. rewrite !lookup_insert.
        repeat case_decide; subst; rewrite ?Ht, ?Hf; split; intros; done || eauto.
      * intros q. rewrite Hg. unfold D1. rewrite !c_get_set, <- (assoc_L (++)). simpl.
        repeat case_decide; congruence || done.
Qed.

(** The code of [ttosExtractPriority] on the first of a group. *)
Lemma extract_promote h D w i L1 L2 t f ms fuel :
  trep h D → tq_wf D → D !! Header w i = Some (L1 ++ t :: L2) → D !! Same t = Some (f :: ms) →
  (length ms < fuel)%nat →
  wp (newFirstNode ← list_delete_head (Some (Same t));
      newFirstTask ← lift (task_of newFirstNode);
      _ ← list_replace (Some (Node t)) newFirstNode;
      _ ← set_next (Some (Node t)) None;
      _ ← set_prev (Some (Node t)) None;
      _ ← INIT_LIST_HEAD (Some (Same newFirstTask));
      move_all fuel (Some (Same t)) (Some (Same newFirstTask))) h (λ _ h',
    dom h' = dom h ∧ ∃ D', trep h' D' ∧ removed D t D' ∧ c_linked t D' = false ∧ members D' t = [] ∧
      ∀ q, is_Some (D !! q) → is_Some (D' !! q)).
Proof.
  intros HR Hwf HL Ht Hlen. pose proof (second_empty h D HR Hwf t f ms Ht) as Hf.
  pose proof (tr_wf _ _ HR) as Hc.
  assert (Hft : f ≠ t).
  { intros ->. rewrite Hf in Ht. done. }
  apply wp_bind. eapply wp_mono; [by eapply (t_delete_head h D HR)|].
  intros r h1 (-> & HR1 & Hd1). set (D1 := c_set (Same t) ms D) in *.
  apply wp_bind, (wp_lift _ f); [done|].
  assert (Hfl : c_linked f D1 = false).
  { pose proof (tr_nodup _ _ HR _ _ Ht) as [? _]%NoDup_cons. apply linked_set; [done| |done].
    unfold c_get. rewrite Ht. left. }
  assert (Hfm : is_Some (h1 !! Node f)).
  { apply elem_of_dom. rewrite Hd1. apply elem_of_dom. by eapply (t_mem_node h D HR _ _ f Ht); left. }
  assert (HL1 : D1 !! Header w i = Some (L1 ++ t :: L2)) by (unfold D1, c_set; by rewrite lookup_insert_ne).
  destruct (t_around h1 D1 HR1 _ _ _ _ HL1) as (p & s & Hp & Hs & _).
  apply (t_replace h1 D1 HR1 (Header w i) L1 L2 t f p s); try done.
  intros h2 HR2 Hd2. set (D2 := c_set (Header w i) (L1 ++ f :: L2) D1) in *.
  assert (Hf2 : D2 !! Same f = Some []).
  { unfold D2, D1, c_set. rewrite !lookup_insert_ne by congruence. done. }
  assert (Ht2 : D2 !! Same t = Some ms).
  { unfold D2, D1, c_set. rewrite lookup_insert_ne by congruence. apply lookup_insert_eq. }
  assert (Hfs : is_Some (h2 !! Same f)) by (by eapply (t_mem_head h2 D2 HR2)).
  apply wp_bind. eapply wp_mono.
  { apply (t_init h2 D2 (Same f)); [done|by intros []|unfold c_get; by rewrite Hf2|done]. }
  rewrite insert_id by done. intros [] h3 [HR3 Hd3].
  eapply wp_mono; [by apply (move_all_run t f (not_eq_sym Hft) ms [] h3 D2 fuel)|].
  intros [] h' (Hd' & D' & HR' & Hdom & Hg). split; [congruence|]. exists D'.
  destruct (promoted_removed D w i L1 L2 t f ms D' Hc HL Ht) as [Hr Hl].
  { intros q. rewrite Hg. unfold D2, D1. unfold c_get, c_set.
    rewrite !lookup_insert, lookup_delete, lookup_insert. repeat case_decide; congruence || done. }
  split_and!; try done.
  - unfold members. by rewrite Hg, decide_True.
  - intros q Hq. apply Hdom. unfold D2, D1, c_set. rewrite !lookup_insert. repeat case_decide; eauto.
Qed.

(** What every removal leaves behind. *)
Definition left_queue (D : chains) (t : tid) (h h' : links) : Prop :=
  dom h' = dom h ∧ ∃ D', trep h' D' ∧ tq_wf D' ∧ c_linked t D' = false ∧
    (∀ w, flat D' w = filter (λ x, x ≠ t) (flat D w)) ∧ ∀ w, init_ok w D → init_ok w D'.

Lemma removal_left h h' D t : trep h D → tq_wf D → removal D t h h' → left_queue D t h h'.
Proof.
  intros HR Hwf (Hd & D' & HR' & Hr & Hl & Hdom). split; [done|]. exists D'.
  pose proof (tr_wf _ _ HR) as Hc. split_and!; [done|by eapply removed_wf|done|by eapply removed_filter|].
  intros w Hin i Hi. apply Hdom; [done|by apply Hin].
Qed.

(** Removing the first task of a queue. *)
Lemma removal_first h h' D t w xs : trep h D → tq_wf D → flat D w = t :: xs → removal D t h h' →
  dom h' = dom h ∧ ∃ D', trep h' D' ∧ tq_wf D' ∧ flat D' w = xs ∧
    (∀ w', w' ≠ w → flat D' w' = flat D w') ∧ ∀ w', init_ok w' D → init_ok w' D'.
Proof.
  intros HR Hwf Ew (Hd & D' & HR' & Hr & Hl & Hdom). split; [done|]. exists D'.
  pose proof (tr_wf _ _ HR) as Hc.
  destruct (removed_flat D D' t Hc Hwf Hr Hdom Hl) as (w0 & A & B & EA & EB & Ht & Hother).
  assert (w0 = w) as ->.
  { destruct (decide (w0 = w)) as [->|Hne]; [done|]. destruct (Hother w (not_eq_sym Hne)) as [_ Hn].
    rewrite Ew in Hn. set_solver. }
  split_and!; [done|by eapply removed_wf| | |].
  - rewrite EA in Ew. destruct A as [|a A]; simpl in Ew; simplify_eq/=; [done|set_solver].
  - intros w' Hne. by apply Hother.
  - intros w' Hin i Hi. apply Hdom; [done|by apply Hin].
Qed.

Lemma removed_get D t D1 D2 : (∀ q, c_get q D2 = c_get q D1) → removed D t D1 → removed D t D2.
Proof.
  intros Hg. assert (El : ∀ w j, leaders D2 w j = leaders D1 w j) by (intros; apply Hg).
  assert (Em : ∀ l, members D2 l = members D1 l) by (intros; apply Hg).
  intros [w i L1 L2 ? ? El' Em'|w i L1 L2 f ms ? ? El' Em'|s M1 M2 ? El' Em'].
  - apply (removed_single _ _ _ w i L1 L2); try done; intros; [by rewrite El|by rewrite Em].
  - apply (removed_promote _ _ _ w i L1 L2 f ms); try done; intros; [by rewrite El|by rewrite Em].
  - apply (removed_member _ _ _ s M1 M2); try done; intros; [by rewrite El|by rewrite Em].
Qed.

Lemma linked_get (D1 D2 : chains) t : (∀ q, c_get q D2 = c_get q D1) → c_linked t D2 = c_linked t D1.
Proof.
  intros Hg. apply eq_bool_prop_intro. rewrite !Is_true_true, !c_linked_spec. by setoid_rewrite Hg.
Qed.

(** Removing a task from the chain [q], when it has no group of its own. *)
Lemma delete_removed D q xs1 t xs2 : c_wf D → tq_wf D → D !! q = Some (xs1 ++ t :: xs2) →
  (∀ x, q ≠ Node x) → members D t = [] →
  removed D t (c_set q (xs1 ++ xs2) D) ∧ c_linked t (c_set q (xs1 ++ xs2) D) = false ∧
  ∀ l, l = t → members (c_set q (xs1 ++ xs2) D) l = [].
Proof.
  intros Hc Hwf Hq Hnode Em.
  assert (Eq : c_get q D = xs1 ++ t :: xs2) by (unfold c_get; by rewrite Hq).
  pose proof (c_nodup _ Hc q) as Hnd. rewrite Eq in Hnd.
  apply NoDup_app in Hnd as (_ & Hd & [Ht2 _]%NoDup_cons).
  assert (Ht1 : t ∉ xs1) by (intros Hin; apply (Hd t Hin); left).
  split_and!.
  - destruct q as [x|s|w i]; [by destruct (Hnode x)| |].
    + apply (removed_member _ _ _ s xs1 xs2); [done|..].
      * intros w' j. unfold leaders at 1. by rewrite c_get_set_ne.
      * intros l. unfold members at 1. rewrite c_get_set. repeat case_decide; congruence || done.
    + apply (removed_single _ _ _ w i xs1 xs2); [done..| |].
      * intros w' j. unfold leaders at 1. rewrite c_get_set. repeat case_decide; congruence || done.
      * intros l. unfold members at 1. by rewrite c_get_set_ne.
  - apply linked_set; [done| |set_solver]. rewrite Eq. set_solver.
  - intros l ->. unfold members. rewrite c_get_set. case_decide as E; [|done]. subst q.
    fold (members D t) in Eq. rewrite Em in Eq. by destruct xs1.
Qed.

Lemma elem_of_flat D w t : t ∈ flat D w ↔ ∃ i, (i < nheads w)%nat ∧ t ∈ part D w i.
Proof.
  unfold flat. rewrite list_elem_of_In, in_concat. split.
  - intros (g & Hg & Ht). apply list_elem_of_In, list_elem_of_fmap in Hg as (i & -> & [_ Hi]%elem_of_seq).
    apply list_elem_of_In in Ht. eauto.
  - intros (i & Hi & Ht). exists (part D w i). split; [|by apply list_elem_of_In].
    apply list_elem_of_In, list_elem_of_fmap. exists i. split; [done|]. apply elem_of_seq. lia.
Qed.

(** A task is linked exactly when some queue's sequence has it. *)
Lemma linked_flat h D t : trep h D → tq_wf D → c_linked t D = true ↔ ∃ w, t ∈ flat D w.
Proof.
  intros HR Hwf. rewrite c_linked_spec. setoid_rewrite elem_of_flat. setoid_rewrite elem_of_part. split.
  - intros [q Hq]. destruct q as [x|s|w i].
    + unfold c_get in Hq. rewrite (tr_heads _ _ HR) in Hq. by apply not_elem_of_nil in Hq.
    + destruct (w_same _ Hwf s t Hq) as (_ & _ & w & i & _ & Hs). exists w, i.
      split; [by eapply (leader_head D Hwf)|]. exists s. split; [done|by right].
    + exists w, i. split; [by eapply (leader_head D Hwf)|]. exists t. split; [done|by left].
  - intros (w & i & _ & l & Hl & [->|Hm]); eauto.
Qed.

(** The last statement of [ttosExtractPriority]. *)
Lemma reinit_left h D t h1 D1 : trep h D → tq_wf D → is_Some (h !! Same t) →
  dom h1 = dom h → trep h1 D1 → removed D t D1 → c_linked t D1 = false → members D1 t = [] →
  (∀ q, q ≠ Same t → is_Some (D !! q) → is_Some (D1 !! q)) →
  wp (INIT_LIST_HEAD (Some (Same t))) h1 (λ _ h', left_queue D t h h').
Proof.
  intros HR Hwf Hs Hd1 HR1 Hr1 Hl1 Em1 Hdom1. eapply wp_mono.
  - apply (t_init h1 D1 (Same t)); [done|by intros []|done|].
    apply elem_of_dom. rewrite Hd1. by apply elem_of_dom.
  - intros [] h' [HR' Hd']. apply removal_left; [done..|]. split; [congruence|].
    assert (Hg : ∀ k, c_get k (<[Same t := []]> D1) = c_get k D1).
    { intros k. change (c_get k (c_set (Same t) [] D1) = c_get k D1). rewrite c_get_set.
      case_decide as Ek; [|done]. subst k. done. }
    eexists. split; [exact HR'|]. split_and!; [by eapply removed_get|by rewrite (linked_get D1)|].
    intros k Hk Hks. rewrite lookup_insert_ne by done. by apply Hdom1.
Qed.

Lemma extract_priority_links h D t fuel :
  trep h D → tq_wf D → is_Some (h !! Node t) → is_Some (h !! Same t) →
  (∀ w i, t ∈ leaders D w i → fifo w = false) → (length (members D t) < fuel)%nat →
  wp (ttosExtractPriority fuel t) h (λ _ h', left_queue D t h h').
Proof.
  intros HR Hwf Hn Hs Hprio Hlen. pose proof (tr_wf _ _ HR) as Hc.
  destruct (tr_linked h D HR t Hn) as (p & Hp & Hpl). unfold ttosExtractPriority.
  apply wp_bind. eapply wp_get_next; [done|]. destruct (decide (p = None)) as [E|E].
  { apply Hpl in E. apply wp_ret. split; [done|]. exists D. split_and!; try done.
    intros w. rewrite filter_ne_fresh; [done|]. intros Hin.
    rewrite (proj2 (linked_flat h D t HR Hwf)) in E; [done|eauto]. }
  assert (Hl : c_linked t D = true) by (destruct (c_linked t D) eqn:El; [done|by destruct E; apply Hpl]).
  apply c_linked_spec in Hl as [q Hq].
  assert (Hnode : ∀ x, q ≠ Node x).
  { intros x ->. unfold c_get in Hq. rewrite (tr_heads _ _ HR) in Hq. by apply not_elem_of_nil in Hq. }
  assert (Hsame : is_Some (D !! Same t)).
  { destruct q as [x|s|w i]; [by destruct (Hnode x)|by destruct (w_same _ Hwf s t Hq) as (_ & ? & _)|].
    by eapply (w_dom _ Hwf w i t (Hprio w i Hq)). }
  destruct Hsame as [ms Hms]. assert (Em : members D t = ms) by (unfold members, c_get; by rewrite Hms).
  destruct (tr_get D _ _ Hq) as (xs & Hqs & (xs1 & xs2 & ->)%list_elem_of_split & _).
  apply wp_bind. eapply wp_mono; [by eapply (t_is_empty h D HR)|]. intros b h0 [-> ->].
  destruct ms as [|f ms].
  - rewrite bool_decide_true by done.
    destruct (delete_removed D q xs1 t xs2 Hc Hwf Hqs Hnode Em) as (Hr & Hl & Hm).
    apply wp_bind. eapply wp_mono; [by eapply (t_delete h D HR)|]. intros [] h1 [HR1 Hd1].
    apply (reinit_left h D t h1 _ HR Hwf Hs Hd1 HR1 Hr Hl); [by apply Hm|]. intros k _ Hk. unfold c_set. rewrite lookup_insert.
    case_decide; eauto.
  - rewrite bool_decide_false by done. destruct q as [x|s|w i]; [by destruct (Hnode x)| |].
    { pose proof (member_members D Hc Hwf t s) as Em'. rewrite Em in Em'. specialize (Em' Hq). done. }
    apply wp_bind. eapply wp_mono; [apply (extract_promote h D w i xs1 xs2 t f ms fuel); try done|].
    { rewrite Em in Hlen. simpl in Hlen. lia. }
    intros [] h1 (Hd1 & D1 & HR1 & Hr & Hl & Hm & Hdom). apply (reinit_left h D t h1 D1); try done. intros k _. apply Hdom.
Qed.

End Taskq.
