(* ===== verification/TaskqProps.v ===== *)
(** * The wait-queue refinement theorem

    The wait-queue interface as commands, run on the pointer code of [Taskq] and
    on one sequence of tasks per queue, and the theorem that the code implements
    the sequences whatever the order of the calls. *)

From stdpp Require Import sorting.
From S2P Require Import Prelude Chain DList Kernel Taskq TaskqRep TaskqInv.
Local Open Scope Z_scope.

Section Refine.
Context (pri : tid → Z) (fifo : wqid → bool) (fuel : nat).

Abbreviation wf := (tq_wf pri fifo).
Abbreviation seq_of := (flat fifo).

(** ** The commands *)

Inductive qop :=
| QInit (w : wqid)
| QEnqueue (w : wqid) (t : tid)
| QDequeue (w : wqid)
| QExtract (w : wqid) (t : tid)
| QIsEmpty (w : wqid).

Inductive qres := QUnit | QTask (o : option tid) | QBool (b : bool).

(** The code, dispatched on the queue's discipline as its callers do. *)
Definition q_exec (o : qop) : M links qres :=
  match o with
  | QInit w => _ ← ttosInitializeTaskq w (fifo w); mret QUnit
  | QEnqueue w t =>
      _ ← if fifo w then ttosEnqueueFifo w t else ttosEnqueuePriority pri fuel w t; mret QUnit
  | QDequeue w =>
      r ← if fifo w then ttosDequeueFifo w else ttosDequeuePriority w; mret (QTask r)
  | QExtract w t =>
      _ ← if fifo w then ttosExtractFifo t else ttosExtractPriority fuel t; mret QUnit
  | QIsEmpty w => b ← ttosTaskqIsEmpty w (fifo w); mret (QBool b)
  end.

(** The contract: a sequence of tasks per queue.  [None] when the caller breaks
    the discipline: a queue initialised twice or never, a task put on two
    queues, a task extracted from a queue it is not on. *)
Definition allocated (D : gset addr) (t : tid) : bool :=
  bool_decide (Node t ∈ D) && bool_decide (Same t ∈ D).

Definition q_spec (D : gset addr) (o : qop) (Q : gmap wqid (list tid)) :
    option (qres * gmap wqid (list tid)) :=
  match o with
  | QInit w =>
      if bool_decide (Q !! w = None) &&
         forallb (λ i, bool_decide (Header w i ∈ D)) (seq 0 (nheads fifo w))
      then Some (QUnit, <[w := []]> Q) else None
  | QEnqueue w t =>
      xs ← Q !! w;
      if negb (c_linked t Q) && allocated D t && ((0 <=? pri t) && (pri t <? 256)) &&
         bool_decide (length xs < fuel)%nat
      then Some (QUnit, <[w := if fifo w then xs ++ [t] else pri_insert pri t xs]> Q) else None
  | QDequeue w =>
      xs ← Q !! w;
      Some (match xs with
            | [] => (QTask None, Q)
            | t :: xs' => (QTask (Some t), <[w := xs']> Q)
            end)
  | QExtract w t =>
      xs ← Q !! w;
      if allocated D t && (bool_decide (t ∈ xs) || negb (c_linked t Q)) &&
         bool_decide (length xs < fuel)%nat
      then Some (QUnit, c_delete t Q) else None
  | QIsEmpty w => xs ← Q !! w; Some (QBool (bool_decide (xs = [])), Q)
  end.

Fixpoint q_exec_all (os : list qop) : M links (list qres) :=
  match os with
  | [] => mret []
  | o :: os => r ← q_exec o; rs ← q_exec_all os; mret (r :: rs)
  end.

Fixpoint q_spec_all (D : gset addr) (os : list qop) (Q : gmap wqid (list tid)) :
    option (list qres * gmap wqid (list tid)) :=
  match os with
  | [] => Some ([], Q)
  | o :: os =>
      '(r, Q1) ← q_spec D o Q; '(rs, Q2) ← q_spec_all D os Q1; Some (r :: rs, Q2)
  end.

(** The links [h] hold the sequences [Q]. *)
Definition holds (h : links) (Q : gmap wqid (list tid)) : Prop :=
  ∃ D, trep h D ∧ wf D ∧
    (∀ w, seq_of D w = c_get w Q) ∧ (∀ w, is_Some (Q !! w) → init_ok fifo w D).

(** ** FIFO queues *)

Lemma flat_fifo D w : wf D → fifo w = true → seq_of D w = leaders D w 0.
Proof.
  intros Hwf Hw. unfold flat, nheads. rewrite Hw. simpl. rewrite app_nil_r. unfold part.
  assert (Hm : ∀ l, l ∈ leaders D w 0 → members D l = []) by (intros l Hl; by apply (w_fifo _ _ _ Hwf w 0 l)).
  induction (leaders D w 0) as [|l L IH]; [done|]. simpl. rewrite Hm by left. simpl. f_equal.
  apply IH. intros. apply Hm. by right.
Qed.

Lemma unlinked_members' D t : wf D → c_linked t D = false → members D t = [].
Proof. intros. by eapply (unlinked_members pri fifo D). Qed.

(** Appending to a FIFO queue keeps the rest. *)
Lemma append_wf D w t : c_wf D → wf D → fifo w = true → c_linked t D = false →
  wf (c_set (Header w 0) (leaders D w 0 ++ [t]) D) ∧
  seq_of (c_set (Header w 0) (leaders D w 0 ++ [t]) D) w = seq_of D w ++ [t] ∧
  ∀ w', w' ≠ w → seq_of (c_set (Header w 0) (leaders D w 0 ++ [t]) D) w' = seq_of D w'.
Proof.
  intros Hc Hwf Hw Hl. set (D' := c_set _ _ D).
  assert (El : ∀ w' j, leaders D' w' j = if decide ((w', j) = (w, 0%nat)) then leaders D w 0 ++ [t] else leaders D w' j).
  { intros w' j. unfold leaders at 1, D'. rewrite c_get_set. repeat case_decide; congruence || done. }
  assert (Em : ∀ l, members D' l = members D l) by (intros l; unfold members, D'; by rewrite c_get_set_ne).
  assert (Hkeep : ∀ w' j x, x ∈ leaders D w' j → x ∈ leaders D' w' j).
  { intros w' j x Hx. rewrite El. case_decide as E; [|done]. injection E as -> ->. set_solver. }
  assert (Hdom : ∀ q, is_Some (D !! q) → is_Some (D' !! q)).
  { intros q Hq. unfold D', c_set. rewrite lookup_insert. case_decide; eauto. }
  assert (Hwf' : wf D').
  { split.
    - intros w' j x Hw'. rewrite El. case_decide as E; [injection E as -> ->; congruence|]. by apply (w_header _ _ _ Hwf).
    - intros w' j Hw'. rewrite El. case_decide as E; [injection E as -> ->; congruence|]. by apply (w_sorted _ _ _ Hwf).
    - intros w' j x Hw'. rewrite El, Em. case_decide as E; [|by apply (w_fifo _ _ _ Hwf)].
      injection E as -> ->. intros [Hx | ->%list_elem_of_singleton]%elem_of_app; [by apply (w_fifo _ _ _ Hwf w)|].
      split; [done|by apply unlinked_members'].
    - intros l m. rewrite Em. intros Hm. destruct (w_same _ _ _ Hwf l m Hm) as (? & ? & w' & i & ? & ?).
      split_and!; [done|by apply Hdom|]. exists w', i. split; [done|by apply Hkeep].
    - intros w' j x Hw'. rewrite El. case_decide as E; [injection E as -> ->; congruence|].
      intros Hx. apply Hdom. by eapply (w_dom _ _ _ Hwf). }
  split_and!; [done| |].
  - rewrite !flat_fifo by done. by rewrite El, decide_True.
  - intros w' Hne. apply (parts_ext D D'). intros j _. apply part_ext; [rewrite El, decide_False; congruence|].
    intros l _. apply Em.
Qed.

Lemma dequeue_fifo_links h D w : trep h D → wf D → init_ok fifo w D → fifo w = true →
  wp (ttosDequeueFifo w) h (λ r h',
    match seq_of D w with
    | [] => r = None ∧ h' = h
    | t :: _ => r = Some t ∧ removal D t h h'
    end).
Proof.
  intros HR Hwf Hin Hw. destruct (Hin 0%nat) as [L HL]; [unfold nheads; rewrite Hw; lia|].
  rewrite flat_fifo by done. assert (EL : leaders D w 0 = L) by (unfold leaders, c_get; by rewrite HL).
  rewrite EL. unfold ttosDequeueFifo. apply wp_bind.
  eapply wp_mono; [by eapply (t_first h D HR)|]. intros r h' [-> ->]. destruct L as [|t L]; simpl; [by apply wp_ret|].
  apply wp_bind, (wp_lift _ t); [done|]. apply wp_bind.
  eapply wp_mono; [by apply (t_delete h D HR (Header w 0) [] t L)|]. intros [] h' [HR' Hd']. apply wp_ret.
  split; [done|]. split; [done|]. eexists. split; [exact HR'|].
  destruct (delete_removed pri fifo D (Header w 0) [] t L (tr_wf _ _ HR) Hwf HL) as (? & ? & _); [done| |].
  { apply (w_fifo _ _ _ Hwf w 0 t Hw). rewrite EL. left. }
  split_and!; try done. intros q _ Hq. unfold c_set. rewrite lookup_insert. case_decide; eauto.
Qed.

Lemma extract_fifo_links h D t : trep h D → wf D → is_Some (h !! Node t) →
  (∀ l, t ∉ members D l) → (∀ w i, t ∈ leaders D w i → fifo w = true) →
  wp (ttosExtractFifo t) h (λ _ h', left_queue pri fifo D t h h').
Proof.
  intros HR Hwf Hn Hnm Hff. destruct (tr_linked h D HR t Hn) as (p & Hp & Hpl). unfold ttosExtractFifo.
  apply wp_bind. eapply wp_get_next; [done|]. destruct (decide (p = None)) as [E|E].
  { apply Hpl in E. apply wp_ret. split; [done|]. exists D. split_and!; try done.
    intros w. rewrite filter_ne_fresh; [done|]. intros Hin.
    rewrite (proj2 (linked_flat pri fifo h D t HR Hwf)) in E; [done|eauto]. }
  assert (Hl : c_linked t D = true) by (destruct (c_linked t D) eqn:El; [done|by destruct E; apply Hpl]).
  apply c_linked_spec in Hl as [q Hq]. destruct (tr_get D _ _ Hq) as (xs & Hqs & (xs1 & xs2 & ->)%list_elem_of_split & _).
  destruct q as [x|s|w i]; [by rewrite (tr_heads _ _ HR) in Hqs|by destruct (Hnm s)|].
  eapply wp_mono; [by eapply (t_delete h D HR)|]. intros [] h' [HR' Hd'].
  apply removal_left; [done..|]. split; [done|]. eexists. split; [exact HR'|].
  destruct (delete_removed pri fifo D (Header w i) xs1 t xs2 (tr_wf _ _ HR) Hwf Hqs) as (? & ? & _); [done| |].
  { by apply (w_fifo _ _ _ Hwf w i t (Hff w i Hq)). }
  split_and!; try done. intros k _ Hk. unfold c_set. rewrite lookup_insert. case_decide; eauto.
Qed.

(** ** Initialisation and the emptiness test *)

(** The same lists, possibly with more heads. *)
Definition extends (D D' : chains) : Prop :=
  (∀ q, c_get q D' = c_get q D) ∧ ∀ q, is_Some (D !! q) → is_Some (D' !! q).

#[local] Instance extends_preorder : PreOrder extends.
Proof.
  split; [done|]. intros D1 D2 D3 [Hg1 Hd1] [Hg2 Hd2]. split; [|auto]. intros q. by rewrite Hg2.
Qed.

Lemma extends_wf D D' : extends D D' → wf D → wf D'.
Proof.
  intros [Hg Hd] Hwf. assert (El : ∀ w j, leaders D' w j = leaders D w j) by (intros; apply Hg).
  assert (Em : ∀ l, members D' l = members D l) by (intros; apply Hg). split.
  - intros w i t. rewrite El. apply Hwf.
  - intros w i. rewrite El. apply Hwf.
  - intros w i t. rewrite El, Em. apply Hwf.
  - intros l m. rewrite Em. intros Hm. destruct (w_same _ _ _ Hwf l m Hm) as (? & ? & w & i & ? & ?).
    split_and!; [done|by apply Hd|]. exists w, i. by rewrite El.
  - intros w i t. rewrite El. intros. apply Hd. by eapply (w_dom _ _ _ Hwf).
Qed.

Lemma extends_seq D D' w : extends D D' → seq_of D' w = seq_of D w.
Proof. intros [Hg _]. apply (parts_ext D D'). intros j _. apply part_ext; [apply Hg|]. intros. apply Hg. Qed.

Lemma init_head_run h D w i : trep h D → leaders D w i = [] → is_Some (h !! Header w i) →
  wp (INIT_LIST_HEAD (Some (Header w i))) h (λ _ h', dom h' = dom h ∧ ∃ D',
    trep h' D' ∧ extends D D' ∧ is_Some (D' !! Header w i)).
Proof.
  intros HR Hl Hh. eapply wp_mono; [apply (t_init h D (Header w i)); [done|by intros []|done..]|].
  intros [] h' [HR' Hd']. split; [done|]. eexists. split; [exact HR'|]. split; [split|].
  - intros q. change (c_get q (c_set (Header w i) [] D) = c_get q D). rewrite c_get_set.
    case_decide as E; [|done]. by subst q.
  - intros q Hq. rewrite lookup_insert. case_decide; eauto.
  - rewrite lookup_insert_eq. eauto.
Qed.

Lemma init_headers_run w n : ∀ idx h D, trep h D → (∀ i, leaders D w i = []) →
  (∀ i, (idx ≤ i < idx + n)%nat → is_Some (h !! Header w i)) →
  wp (init_headers w idx n) h (λ _ h', dom h' = dom h ∧ ∃ D',
    trep h' D' ∧ extends D D' ∧ ∀ i, (idx ≤ i < idx + n)%nat → is_Some (D' !! Header w i)).
Proof.
  induction n as [|n IH]; intros idx h D HR Hl Hh; simpl.
  - apply wp_ret. split; [done|]. exists D. split_and!; [done..|]. lia.
  - apply wp_bind. eapply wp_mono; [apply (init_head_run h D w idx HR); [done|apply Hh; lia]|].
    intros [] h1 (Hd1 & D1 & HR1 & He1 & Hi1).
    eapply wp_mono; [apply (IH (S idx) h1 D1 HR1)|].
    + intros i. unfold leaders. rewrite (proj1 He1). apply Hl.
    + intros i Hi. apply elem_of_dom. rewrite Hd1. apply elem_of_dom, Hh. lia.
    + intros [] h' (Hd' & D' & HR' & He' & Hi'). split; [congruence|]. exists D'. split_and!; [done|by etrans|].
      intros i Hi. destruct (decide (i = idx)) as [->|]; [by apply He'|]. apply Hi'. lia.
Qed.

Lemma initialize_run h D w : trep h D → (∀ i, leaders D w i = []) →
  (∀ i, (i < nheads fifo w)%nat → is_Some (h !! Header w i)) →
  wp (ttosInitializeTaskq w (fifo w)) h (λ _ h', dom h' = dom h ∧ ∃ D',
    trep h' D' ∧ extends D D' ∧ init_ok fifo w D').
Proof.
  unfold ttosInitializeTaskq, init_ok, nheads. intros HR Hl Hh. destruct (fifo w).
  - eapply wp_mono; [apply (init_head_run h D w 0 HR); [done|apply Hh; lia]|].
    intros [] h' (Hd & D' & HR' & He & Hi). split; [done|]. exists D'. split_and!; [done..|].
    intros i Hi'. by replace i with 0%nat by lia.
  - eapply wp_mono; [apply (init_headers_run w _ 0 h D HR Hl)|].
    + intros i Hi. apply Hh. lia.
    + intros [] h' (Hd & D' & HR' & He & Hi). split; [done|]. exists D'. split_and!; [done..|].
      intros i Hi'. apply Hi. lia.
Qed.

Lemma headers_empty_run h D w n : trep h D → ∀ idx,
  (∀ j, (idx ≤ j < idx + n)%nat → is_Some (D !! Header w j)) →
  wp (headers_empty w idx n) h (λ b h', h' = h ∧ b = bool_decide (concat (part D w <$> seq idx n) = [])).
Proof.
  intros HR. induction n as [|n IH]; intros idx Hin; [by apply wp_ret|]. cbn [headers_empty].
  change (concat (part D w <$> seq idx (S n))) with (part D w idx ++ concat (part D w <$> seq (S idx) n)).
  destruct (Hin idx) as [xs Hxs]; [lia|]. apply wp_bind.
  eapply wp_mono; [by eapply (t_is_empty h D HR)|]. intros b h' [-> ->].
  assert (Ep : part D w idx = groups D xs) by (unfold part, leaders, c_get; by rewrite Hxs).
  rewrite Ep. case_bool_decide as E.
  - subst xs. eapply wp_mono; [apply IH; intros; apply Hin; lia|]. intros b h' [-> ->]. done.
  - apply wp_ret. split; [done|]. rewrite bool_decide_false; [done|]. by destruct xs.
Qed.

Lemma is_empty_run h D w : trep h D → wf D → init_ok fifo w D →
  wp (ttosTaskqIsEmpty w (fifo w)) h (λ b h', h' = h ∧ b = bool_decide (seq_of D w = [])).
Proof.
  intros HR Hwf Hin. unfold ttosTaskqIsEmpty. destruct (fifo w) eqn:Hw.
  - destruct (Hin 0%nat) as [xs Hxs]; [unfold nheads; rewrite Hw; lia|].
    eapply wp_mono; [by eapply (t_is_empty h D HR)|]. intros b h' [-> ->]. split; [done|].
    rewrite flat_fifo by done. unfold leaders, c_get. by rewrite Hxs.
  - unfold flat, nheads. rewrite Hw. apply (headers_empty_run h D w _ HR). intros j Hj. apply Hin.
    unfold nheads. rewrite Hw. lia.
Qed.

(** ** The refinement *)

Lemma holds_linked h D Q t : trep h D → wf D → (∀ w, seq_of D w = c_get w Q) →
  c_linked t D = c_linked t Q.
Proof.
  intros HR Hwf Hs. apply eq_bool_prop_intro. rewrite !Is_true_true, (linked_flat pri fifo h D t HR Hwf).
  rewrite c_linked_spec. by setoid_rewrite Hs.
Qed.

Lemma part_length D w i : (i < nheads fifo w)%nat → (length (part D w i) ≤ length (seq_of D w))%nat.
Proof. intros Hi. rewrite (flat_split fifo D w i Hi), !length_app. lia. Qed.

Lemma groups_length D L : (length L ≤ length (groups D L))%nat.
Proof. induction L as [|l L IH]; [done|]. rewrite groups_cons. simpl. rewrite length_app. lia. Qed.

Lemma members_length D L l : l ∈ L → (length (members D l) ≤ length (groups D L))%nat.
Proof.
  induction L as [|x L IH]; [by intros ?%not_elem_of_nil|]. rewrite groups_cons. simpl. rewrite length_app.
  intros [->|Hl]%elem_of_cons; [lia|]. specialize (IH Hl). lia.
Qed.

(** The queues a task is on. *)
Lemma seq_leaders D w i t : wf D → t ∈ leaders D w i → t ∈ seq_of D w.
Proof.
  intros Hwf Ht. apply elem_of_flat. exists i. split; [by eapply (leader_head pri fifo D Hwf)|].
  apply elem_of_part. exists t. split; [done|by left].
Qed.

Lemma seq_members D t l : wf D → t ∈ members D l → ∃ w, fifo w = false ∧ t ∈ seq_of D w.
Proof.
  intros Hwf Ht. destruct (w_same _ _ _ Hwf l t Ht) as (_ & _ & w & i & Hw & Hl). exists w. split; [done|].
  apply elem_of_flat. exists i. split; [by eapply (leader_head pri fifo D Hwf)|].
  apply elem_of_part. exists l. split; [done|by right].
Qed.

Lemma seq_disj D w w' t : c_wf D → wf D → t ∈ seq_of D w → t ∈ seq_of D w' → w' = w.
Proof.
  intros Hc Hwf (i & _ & Ht)%elem_of_flat (i' & _ & Ht')%elem_of_flat.
  apply elem_of_part in Ht as (l & Hl & Ht), Ht' as (l' & Hl' & Ht').
  assert (E : l' = l → w' = w).
  { intros ->. by injection (leader_once D Hc w i w' i' l Hl Hl') as -> ->. }
  destruct Ht as [->|Hm], Ht' as [->|Hm'].
  - by apply E.
  - by destruct (leader_apart D Hc w i l Hl l').
  - by destruct (leader_apart D Hc w' i' l' Hl' l).
  - apply E. assert (E' : Same l' = Same l) by (by eapply (c_disj _ Hc _ _ t)). congruence.
Qed.

Lemma holds_left h h' D Q t :
  trep h D → wf D → (∀ w, seq_of D w = c_get w Q) → (∀ w, is_Some (Q !! w) → init_ok fifo w D) →
  left_queue pri fifo D t h h' → holds h' (c_delete t Q) ∧ dom h' = dom h.
Proof.
  intros HR Hwf Hs Hin (Hd & D' & HR' & Hwf' & Hl' & Hf & Hin'). split; [|done].
  exists D'. split_and!; [done..| |].
  - intros w. by rewrite Hf, Hs, c_get_delete.
  - intros w. unfold c_delete. rewrite lookup_fmap, fmap_is_Some. auto.
Qed.

Lemma enqueue_refines h D Q w t xs :
  trep h D → wf D → (∀ w, seq_of D w = c_get w Q) → (∀ w, is_Some (Q !! w) → init_ok fifo w D) →
  Q !! w = Some xs → c_linked t Q = false → is_Some (h !! Node t) → is_Some (h !! Same t) →
  0 ≤ pri t < 256 → (length xs < fuel)%nat →
  wp (if fifo w then ttosEnqueueFifo w t else ttosEnqueuePriority pri fuel w t) h (λ _ h',
    holds h' (<[w := if fifo w then xs ++ [t] else pri_insert pri t xs]> Q) ∧ dom h' = dom h).
Proof.
  intros HR Hwf Hs Hin Hq Hl Hn Hsm Hp Hlen. pose proof (Hin w ltac:(eauto)) as Hw0.
  assert (Hsw : seq_of D w = xs) by (rewrite Hs; unfold c_get; by rewrite Hq).
  rewrite <- (holds_linked h D Q t HR Hwf Hs) in Hl. pose proof (tr_wf _ _ HR) as Hc.
  assert (Hins : ∀ D' ys, (∀ q, is_Some (D !! q) → is_Some (D' !! q)) →
    ∀ w', is_Some (<[w := ys]> Q !! w') → init_ok fifo w' D').
  { intros D' ys Hd w'. rewrite lookup_insert. case_decide as E.
    - subst w'. intros _ i Hi. by apply Hd, Hw0.
    - intros Hw' i Hi. by apply Hd, (Hin w' Hw'). }
  destruct (fifo w) eqn:Hw.
  - destruct (Hw0 0%nat) as [L HL]; [unfold nheads; rewrite Hw; lia|].
    assert (EL : L = leaders D w 0) by (unfold leaders, c_get; by rewrite HL).
    eapply wp_mono; [by eapply (t_add_tail h D HR)|]. intros [] h' [HR' Hd']. split; [|done].
    rewrite EL in HR'. destruct (append_wf D w t Hc Hwf Hw Hl) as (Hwf' & Hf & Hother).
    eexists. split; [exact HR'|]. split_and!; [done| |].
    + intros w'. change (seq_of (c_set (Header w 0) (leaders D w 0 ++ [t]) D) w' = c_get w' (c_set w (xs ++ [t]) Q)).
      rewrite c_get_set. case_decide as E; [subst w'; by rewrite Hf, Hsw|]. by rewrite Hother.
    + apply Hins. intros q Hq'. unfold c_set. rewrite lookup_insert. case_decide; eauto.
  - eapply wp_mono.
    { apply (enqueue_links pri fifo h D w t fuel); try done.
      eapply Nat.le_lt_trans; [|exact Hlen]. rewrite <- Hsw.
      etrans; [apply (groups_length D)|]. apply (part_length D w (header_index (pri t))).
      unfold nheads. rewrite Hw. by apply header_index_bound. }
    intros [] h' (Hd' & D' & HR' & Hpl). split; [|done].
    destruct (placed_flat pri fifo D D' w t Hc Hwf Hw Hp Hl Hpl) as [Hf Hother].
    exists D'. split_and!; [done|by eapply placed_wf| |].
    + intros w'. change (seq_of D' w' = c_get w' (c_set w (pri_insert pri t xs) Q)).
      rewrite c_get_set. case_decide as E; [subst w'; by rewrite Hf, Hsw|]. by rewrite Hother.
    + apply Hins. intros q. by eapply placed_dom.
Qed.

Lemma extract_refines h D Q w t xs :
  trep h D → wf D → (∀ w, seq_of D w = c_get w Q) → (∀ w, is_Some (Q !! w) → init_ok fifo w D) →
  Q !! w = Some xs → t ∈ xs ∨ c_linked t Q = false → is_Some (h !! Node t) → is_Some (h !! Same t) →
  (length xs < fuel)%nat →
  wp (if fifo w then ttosExtractFifo t else ttosExtractPriority fuel t) h (λ _ h',
    holds h' (c_delete t Q) ∧ dom h' = dom h).
Proof.
  intros HR Hwf Hs Hin Hq Ht Hn Hsm Hlen. pose proof (tr_wf _ _ HR) as Hc.
  assert (Hsw : seq_of D w = xs) by (rewrite Hs; unfold c_get; by rewrite Hq).
  assert (Hon : ∀ w', t ∈ seq_of D w' → w' = w).
  { intros w' Hw'. destruct Ht as [Ht|Hl]; [apply (seq_disj D w w' t); [done..|by rewrite Hsw|done]|].
    rewrite <- (holds_linked h D Q t HR Hwf Hs) in Hl.
    by rewrite (proj2 (linked_flat pri fifo h D t HR Hwf) (ex_intro _ w' Hw')) in Hl. }
  destruct (fifo w) eqn:Hw.
  - eapply wp_mono; [apply (extract_fifo_links h D t); try done|].
    + intros l (w' & Hw' & Hin')%seq_members; [|done]. rewrite (Hon w' Hin') in Hw'. congruence.
    + intros w' i Hl%seq_leaders; [|done]. by rewrite (Hon w' Hl).
    + intros [] h' Hleft. by eapply holds_left.
  - eapply wp_mono; [apply (extract_priority_links pri fifo h D t fuel); try done|].
    + intros w' i Hl%seq_leaders; [|done]. by rewrite (Hon w' Hl).
    + destruct (members D t) as [|m ms] eqn:Em; [simpl; lia|].
      destruct (w_same _ _ _ Hwf t m) as (_ & _ & w' & i & _ & Hl); [rewrite Em; left|].
      rewrite <- Em. eapply Nat.le_lt_trans; [|exact Hlen]. rewrite <- Hsw.
      pose proof (seq_leaders D w' i t Hwf Hl) as Hw'. rewrite (Hon w' Hw') in Hl.
      etrans; [apply (members_length D (leaders D w i) t Hl)|]. apply (part_length D w i).
      by eapply (leader_head pri fifo D Hwf).
    + intros [] h' Hleft. by eapply holds_left.
Qed.

Lemma dequeue_refines h D Q w xs :
  trep h D → wf D → (∀ w, seq_of D w = c_get w Q) → (∀ w, is_Some (Q !! w) → init_ok fifo w D) →
  Q !! w = Some xs →
  wp (if fifo w then ttosDequeueFifo w else ttosDequeuePriority w) h (λ r h',
    r = head xs ∧ holds h' (match xs with [] => Q | _ :: xs' => <[w := xs']> Q end) ∧ dom h' = dom h).
Proof.
  intros HR Hwf Hs Hin Hq. assert (Hsw : seq_of D w = xs) by (rewrite Hs; unfold c_get; by rewrite Hq).
  pose proof (Hin w ltac:(eauto)) as Hw0.
  assert (Hwp : wp (if fifo w then ttosDequeueFifo w else ttosDequeuePriority w) h (λ r h',
    match seq_of D w with
    | [] => r = None ∧ h' = h
    | t :: _ => r = Some t ∧ removal D t h h'
    end)).
  { destruct (fifo w) eqn:Hw; [by apply dequeue_fifo_links|by eapply dequeue_priority_links]. }
  eapply wp_mono; [exact Hwp|]. rewrite Hsw. intros r h'. destruct xs as [|t xs].
  - intros [-> ->]. split_and!; [done| |done]. by exists D.
  - intros [-> Hrm].
    destruct (removal_first pri fifo h h' D t w xs HR Hwf Hsw Hrm) as (Hd & D' & HR' & Hwf' & Hf & Hother & Hi).
    split_and!; [done| |done]. exists D'. split_and!; [done..| |].
    + intros w'. change (seq_of D' w' = c_get w' (c_set w xs Q)). rewrite c_get_set.
      case_decide as E; [by subst w'|]. by rewrite Hother, Hs.
    + intros w'. rewrite lookup_insert. case_decide as E; [subst w'; intros _; by apply Hi|]. intros ?. by apply Hi, Hin.
Qed.

Lemma init_refines h D Q w :
  trep h D → wf D → (∀ w, seq_of D w = c_get w Q) → (∀ w, is_Some (Q !! w) → init_ok fifo w D) →
  Q !! w = None → (∀ i, (i < nheads fifo w)%nat → is_Some (h !! Header w i)) →
  wp (ttosInitializeTaskq w (fifo w)) h (λ _ h', holds h' (<[w := []]> Q) ∧ dom h' = dom h).
Proof.
  intros HR Hwf Hs Hin Hq Hh. eapply wp_mono; [apply (initialize_run h D w HR); [|done]|].
  - intros i. destruct (leaders D w i) as [|t L] eqn:E; [done|]. exfalso.
    assert (Ht : t ∈ seq_of D w) by (apply (seq_leaders D w i t Hwf); rewrite E; left).
    rewrite Hs in Ht. unfold c_get in Ht. rewrite Hq in Ht. by apply not_elem_of_nil in Ht.
  - intros [] h' (Hd & D' & HR' & He & Hi). split; [|done]. exists D'.
    split_and!; [done|by eapply extends_wf| |].
    + intros w'. rewrite (extends_seq D D' w' He), Hs. unfold c_get. rewrite lookup_insert.
      case_decide as E; [subst w'; by rewrite Hq|done].
    + intros w'. rewrite lookup_insert. case_decide as E; [by subst w'|]. intros Hw' i Hi'.
      by apply He, (Hin w' Hw').
Qed.

Lemma allocated_spec (h : links) D t : dom h = D → allocated D t = true → is_Some (h !! Node t) ∧ is_Some (h !! Same t).
Proof.
  intros <- [H1 H2]%andb_true_iff. apply bool_decide_eq_true in H1, H2. by split; apply elem_of_dom.
Qed.

Lemma q_exec_refines D o (h : links) Q r Q' :
  holds h Q → dom h = D → q_spec D o Q = Some (r, Q') →
  wp (q_exec o) h (λ r' h', r' = r ∧ holds h' Q' ∧ dom h' = D).
Proof.
  intros (C & HR & Hwf & Hs & Hin) Hd Hsp. destruct o as [w|w t|w|w t|w]; simpl in Hsp |- *; apply wp_bind.
  - destruct (bool_decide (Q !! w = None)) eqn:E; simpl in Hsp; [|done]. apply bool_decide_eq_true in E.
    destruct (forallb _ _) eqn:Ea; [|done]. injection Hsp as <- <-.
    eapply wp_mono; [apply (init_refines h C Q w); try done|].
    { intros i Hi. rewrite forallb_forall in Ea. specialize (Ea i). rewrite bool_decide_eq_true in Ea.
      apply elem_of_dom. rewrite Hd. apply Ea, in_seq. lia. }
    intros [] h' [? ?]. apply wp_ret. split_and!; [done..|congruence].
  - apply bind_Some in Hsp as (xs & Hq & Hsp). destruct (_ && _) eqn:E; [|done]. injection Hsp as <- <-.
    apply andb_true_iff in E as [[[El Ea]%andb_true_iff Ep]%andb_true_iff Ef]. apply bool_decide_eq_true in Ef.
    apply negb_true_iff in El. apply andb_true_iff in Ep as [Hp1%Z.leb_le Hp2%Z.ltb_lt].
    destruct (allocated_spec h D t Hd Ea) as [Hn Hsm].
    eapply wp_mono; [by apply (enqueue_refines h C Q w t xs)|].
    intros [] h' [? ?]. apply wp_ret. split_and!; [done..|congruence].
  - apply bind_Some in Hsp as (xs & Hq & Hsp). injection Hsp as Hsp.
    eapply wp_mono; [by apply (dequeue_refines h C Q w xs)|]. intros r' h' (-> & Hh & Hd'). apply wp_ret.
    destruct xs; injection Hsp as <- <-; (split_and!; [done..|congruence]).
  - apply bind_Some in Hsp as (xs & Hq & Hsp). destruct (_ && _) eqn:E; [|done]. injection Hsp as <- <-.
    apply andb_true_iff in E as [[Ea Et]%andb_true_iff Ef]. apply bool_decide_eq_true in Ef.
    destruct (allocated_spec h D t Hd Ea) as [Hn Hsm].
    eapply wp_mono; [apply (extract_refines h C Q w t xs); try done|].
    { apply orb_true_iff in Et as [Et|Et]; [left; by apply bool_decide_eq_true in Et|right; by apply negb_true_iff]. }
    intros [] h' [? ?]. apply wp_ret. split_and!; [done..|congruence].
  - apply bind_Some in Hsp as (xs & Hq & Hsp). injection Hsp as <- <-.
    eapply wp_mono; [apply (is_empty_run h C w HR Hwf); apply Hin; eauto|]. intros b h' [-> ->]. apply wp_ret.
    rewrite Hs. unfold c_get. rewrite Hq. split_and!; [done| |done]. by exists C.
Qed.

(** C6: the wait-queue code refines one sequence of tasks per queue.  From
    links that hold the sequences, every series of calls that respects the
    discipline runs without a null or dangling access, returns what the
    sequences return, and leaves links that hold the resulting sequences:
    enqueueing appends (FIFO) or inserts behind the tasks of the same or a more
    urgent priority, whichever end the search starts from; dequeueing takes the
    first task; extraction removes the task from wherever it is, promoting the
    next of its group. *)
Theorem taskq_refines_sequences D os (h : links) Q rs Q' :
  holds h Q → dom h = D → q_spec_all D os Q = Some (rs, Q') →
  wp (q_exec_all os) h (λ rs' h', rs' = rs ∧ holds h' Q' ∧ dom h' = D).
Proof.
  revert h Q rs Q'. induction os as [|o os IH]; intros h Q rs Q' HR HD Hs; simpl in Hs |- *.
  - injection Hs as <- <-. by apply wp_ret.
  - apply bind_Some in Hs as ([r Q1] & Ho & Hs). apply bind_Some in Hs as ([rs1 Q2] & Hos & [= <- <-]).
    apply wp_bind. eapply wp_mono; [by eapply q_exec_refines|]. intros r' h1 (-> & HR1 & HD1).
    apply wp_bind. eapply wp_mono; [by eapply IH|]. intros rs' h2 (-> & ? & ?). by apply wp_ret.
Qed.

End Refine.

(** ** Witness: two queues, five tasks of three priorities *)

Definition demo_pri (t : tid) : Z :=
  match t with 0%nat => 100 | 1%nat => 40 | 2%nat => 100 | 3%nat => 100 | _ => 70 end.

Definition demo_fifo (w : wqid) : bool := match w with 0%nat => false | _ => true end.

Definition demo_mem : gset addr :=
  list_to_set ((Node <$> seq 0 5) ++ (Same <$> seq 0 5) ++ (Header 0 <$> seq 0 4) ++ [Header 1 0]).

Definition demo_qops : list qop :=
  [QInit 0; QInit 1; QEnqueue 0 0; QEnqueue 0 1; QEnqueue 0 2; QEnqueue 0 3; QEnqueue 1 4;
   QDequeue 0; QDequeue 0; QExtract 0 2; QEnqueue 1 2; QIsEmpty 0; QDequeue 1; QDequeue 0; QIsEmpty 0].

Lemma holds_null pri fifo (D : gset addr) : holds pri fifo (gset_to_gmap (ListNode None None) D) ∅.
Proof.
  exists ∅. split_and!.
  - split; [|intros; apply lookup_empty]. unfold nodes_of. rewrite fmap_empty. apply Rep_null.
  - assert (E : ∀ q, c_get q (∅ : chains) = []) by (intros q; unfold c_get; by rewrite lookup_empty).
    split; unfold leaders, members; intros; rewrite ?E in *; try (by apply not_elem_of_nil in H0);
      try (by apply not_elem_of_nil in H). constructor.
  - intros w. unfold flat. unfold c_get. rewrite lookup_empty. apply parts_empty. intros. unfold leaders, c_get.
    by rewrite lookup_empty.
  - intros w [? Hw]. by rewrite lookup_empty in Hw.
Qed.

Definition demo_qres : list qres :=
  [QUnit; QUnit; QUnit; QUnit; QUnit; QUnit; QUnit; QTask (Some 1%nat); QTask (Some 0%nat);
   QUnit; QUnit; QBool false; QTask (Some 4%nat); QTask (Some 3%nat); QBool true].

Lemma taskq_refines_sequences_witness :
  ∃ h', q_exec_all demo_pri demo_fifo 5 demo_qops (gset_to_gmap (ListNode None None) demo_mem)
        = Some (demo_qres, h') ∧
    holds demo_pri demo_fifo h' {[0%nat := []; 1%nat := [2%nat]]}.
Proof.
  assert (Hs : q_spec_all demo_pri demo_fifo 5 demo_mem demo_qops ∅ =
    Some (demo_qres, {[0%nat := []; 1%nat := [2%nat]]})) by (vm_compute; reflexivity).
  pose proof (taskq_refines_sequences demo_pri demo_fifo 5 demo_mem demo_qops
    (gset_to_gmap (ListNode None None) demo_mem) ∅ _ _ (holds_null _ _ _) (dom_gset_to_gmap _ _) Hs) as Hw.
  destruct (proj1 (wp_run _ _ _) Hw) as (rs & h' & Hrun & Hrs & HR & _). exists h'. rewrite Hrs in Hrun.
  split; [exact Hrun|exact HR].
Defined.
