(* ===== verification/Wait.v ===== *)
(** * Waiting: the tick queue and the wait queues

    [kernel/task/ttosInsertWaitedTask.c], [ttosExactWaitedTask.c],
    [ttosEnequeueTaskq.c], [ttosDequeueTaskq.c], [ttosExtractTaskq.c],
    [ttosTaskq.c], [ttosTickNotify.c] and [ttosSleepTask.c], over the wait-queue
    contract ([wqueue]) that [Taskq] proves of the queue structure. *)

From S2P Require Import Prelude Chain PrioMap DeltaQ Kernel Sched Frame SchedInv Dispatch SchedProps Service.
Import Width.
Local Open Scope Z_scope.

(** ** The tick queue *)

(** [list_add_after (task, node->prev)]: [t] goes in front of [n]. *)
Definition obj_add_before (t n : tid) (q : oqid) : M kernel unit :=
  b ← gets (λ K, c_linked t (oq K));
  _ ← massert (negb b);
  modify (λ K, set_oq (c_set q (insert_before t n (c_get q (oq K))) (oq K)) K).

(** The search loop, over the nodes from the current one on. *)
Fixpoint insert_waited_from (nodes : list tid) (t : tid) : M kernel unit :=
  match nodes with
  | [] => obj_add_tail t TaskWaitedQ
  | n :: nodes =>
      tc ← get_task t;
      nc ← get_task n;
      if waitedTicks nc <=? waitedTicks tc then
        _ ← upd_task t (set_waitedTicks (u32 (waitedTicks tc - waitedTicks nc)));
        insert_waited_from nodes t
      else
        _ ← upd_task n (set_waitedTicks (u32 (waitedTicks nc - waitedTicks tc)));
        obj_add_before t n TaskWaitedQ
  end.

Definition ttosInsertWaitedTask (t : tid) : M kernel unit :=
  nodes ← gets (λ K, c_get TaskWaitedQ (oq K));
  insert_waited_from nodes t.

Definition ttosExactWaitedTask (t : tid) : M kernel unit :=
  next ← gets (λ K, c_next t TaskWaitedQ (oq K));
  tc ← get_task t;
  _ ← match next with
      | Some n => upd_task n (λ nc, set_waitedTicks (u32 (waitedTicks nc + waitedTicks tc)) nc)
      | None => mret tt
      end;
  _ ← upd_task t (set_waitedTicks 0);
  obj_delete t.

(** ** The wait queues *)

Definition get_wq (w : wqid) : M kernel wqueue := λ K, q ← wqs K !! w; Some (q, K).

Definition set_wq (w : wqid) (xs : list tid) : M kernel unit :=
  λ K, q ← wqs K !! w; Some (tt, set_wqs (<[w := set_wq_tasks xs q]> (wqs K)) K).

(** [resourceNode.objectNode.next != NULL]: the task is on some wait queue. *)
Definition wq_linked (t : tid) (K : kernel) : bool :=
  bool_decide (t ∈ concat (wq_tasks <$> (map_to_list (wqs K)).*2)).

Definition cur_pri (K : kernel) (t : tid) : Z := default 0 (taskCurPriority <$> tasks K !! t).

(** [ttosEnqueueFifo] and [ttosEnqueuePriority]. *)
Definition wq_enqueue (w : wqid) (t : tid) : M kernel unit :=
  q ← get_wq w;
  b ← gets (wq_linked t);
  _ ← massert (negb b);
  K ← gets id;
  _ ← whenM (negb (wq_fifo q)) (upd_task t (upd_wait (set_wait_queue (Some w))));
  set_wq w (if wq_fifo q then wq_tasks q ++ [t] else pri_insert (cur_pri K) t (wq_tasks q)).

(** [ttosDequeueFifo] and [ttosDequeuePriority]. *)
Definition wq_dequeue (w : wqid) : M kernel (option tid) :=
  q ← get_wq w;
  match wq_tasks q with
  | [] => mret None
  | t :: xs => _ ← set_wq w xs; mret (Some t)
  end.

(** [ttosExtractFifo] and [ttosExtractPriority] leave whichever queue the task
    is on. *)
Definition wq_extract (t : tid) : M kernel unit :=
  modify (λ K, set_wqs ((λ q, set_wq_tasks (filter (λ x, x ≠ t) (wq_tasks q)) q) <$> wqs K) K).

Definition ttosExtractTaskq (w : option wqid) (t : tid) : M kernel unit :=
  match w with
  | None => mret tt
  | Some _ =>
      b ← gets (wq_linked t);
      _ ← whenM b (wq_extract t);
      upd_task t (upd_wait (set_wait_queue None))
  end.

Definition ttosTaskqIsEmpty (w : wqid) : M kernel bool :=
  q ← get_wq w; mret (bool_decide (wq_tasks q = [])).

Definition ttosInitializeTaskq (w : wqid) (fifo : bool) (st : Z) : M kernel unit :=
  modify (λ K, set_wqs (<[w := WQueue fifo st []]> (wqs K)) K).

Definition ttosEnqueueTaskqEx (t : tid) (w : wqid) (ticks : Z) (is_interruptible : bool) :
    M kernel unit :=
  _ ← ttosClearTaskReady t;
  q ← get_wq w;
  _ ← upd_task t (set_state (wq_state q));
  _ ← upd_task t (λ tc, set_state
        (if is_interruptible then set_flag TTOS_TASK_INTERRUPTIBLE_BY_SIGNAL (state tc)
         else clear_flag TTOS_TASK_INTERRUPTIBLE_BY_SIGNAL (state tc)) tc);
  _ ← upd_task t (upd_wait (set_wait_queue (Some w)));
  _ ← whenM (negb (ticks =? TTOS_WAIT_FOREVER)) (
    _ ← upd_task t (set_waitedTicks ticks);
    ttosInsertWaitedTask t);
  wq_enqueue w t.

Definition ttosEnqueueTaskq (w : wqid) (ticks : Z) (is_interruptible : bool) : M kernel unit :=
  t ← ttosGetRunningTask; ttosEnqueueTaskqEx t w ticks is_interruptible.

Definition ttosDequeueTaskq (w : wqid) : M kernel (option tid) :=
  o ← wq_dequeue w;
  match o with
  | None => mret None
  | Some t =>
      b ← gets (λ K, c_linked t (oq K));
      _ ← whenM b (ttosExactWaitedTask t);
      _ ← ttosClearTaskWaiting t;
      _ ← upd_task t (upd_wait (set_wait_queue None));
      mret (Some t)
  end.

Definition ttosDequeueTaskFromTaskq (w : wqid) : M kernel (option tid) :=
  o ← wq_dequeue w;
  match o with
  | None => mret None
  | Some t =>
      b ← gets (λ K, c_linked t (oq K));
      _ ← whenM b (ttosExactWaitedTask t);
      _ ← upd_task t (upd_wait (λ i, set_wait_id None (set_wait_queue None i)));
      mret (Some t)
  end.

(** ** Ticks *)

(** The end of a task's wait, in the first loop of [ttosTickNotify]. *)
Definition wake_task (t : tid) (tc : tcb) : M kernel unit :=
  _ ← upd_task t (set_waitedTicks 0);
  _ ← obj_delete t;
  _ ← ttosExtractTaskq (wait_queue (wait tc)) t;
  s ← task_state t;
  _ ← whenM (flag_on TTOS_TASK_BLOCKING s) (upd_task t (upd_wait (set_returnCode TTOS_TIMEOUT)));
  ttosClearTaskWaiting t.

(** That loop: wake the tasks whose time has come. *)
Fixpoint wake_loop (fuel : nat) (ticks : Z) : M kernel unit :=
  match fuel with
  | O => fault
  | S fuel =>
      o ← gets (λ K, c_first TaskWaitedQ (oq K));
      match o with
      | None => mret tt
      | Some t =>
          tc ← get_task t;
          if ticks <? waitedTicks tc
          then upd_task t (set_waitedTicks (u32 (waitedTicks tc - ticks)))
          else
            _ ← wake_task t tc;
            wake_loop fuel (u32 (ticks - waitedTicks tc))
      end
  end.

(** One CPU of the second loop: time slices. *)
Definition slice_tick (c : cpuid) : M kernel unit :=
  en ← gets cpus_enabled;
  if bool_decide (c ∉ en) then mret tt
  else
    t ← ttosGetRunningTaskWithCpuID c;
    _ ← upd_task t (λ tc, set_executedTicks (u64 (executedTicks tc + 1)) tc);
    tc ← get_task t;
    if negb (flag_on TTOS_TASK_READY (state tc)) then mret tt
    else if 0 <? preemptCount tc then mret tt
    else if taskSchedPolicy tc =? SCHED_FIFO then mret tt
    else
      _ ← whenM (0 <? tickSlice tc) (upd_task t (set_tickSlice (tickSlice tc - 1)));
      tc ← get_task t;
      whenM (tickSlice tc =? 0) (
        _ ← upd_task t (λ tc, set_tickSlice (tickSliceSize tc) tc);
        ttosRotateRunningTask t).

Fixpoint slice_loop (cs : list cpuid) : M kernel unit :=
  match cs with
  | [] => mret tt
  | c :: cs => _ ← slice_tick c; slice_loop cs
  end.

Definition ttosTickNotify (fuel : nat) (ticks : Z) : M kernel unit :=
  _ ← wake_loop fuel ticks;
  n ← gets ncpus;
  slice_loop (seq 0 n).

(** ** Sleeping

    [TTOS_SleepTask] up to the switch away from the caller ([None]: it sleeps),
    and the value the call returns when the caller runs again. *)

Definition TTOS_SleepTask (ticks : Z) : M kernel (option retcode) :=
  t ← ttosGetRunningTask;
  isr ← gets in_isr;
  idle ← ttosIsIdleTask t;
  tc ← get_task t;
  if (isr : bool) then mret (Some TTOS_CALLED_FROM_ISR)
  else if (idle : bool) then mret (Some TTOS_INVALID_USER)
  else if ticks =? 0 then mret (Some TTOS_INVALID_TIME)
  else if state tc =? TTOS_TASK_DORMANT then mret (Some TTOS_INVALID_STATE)
  else
    _ ← ttosClearTaskReady t;
    _ ← upd_task t (set_waitedTicks ticks);
    _ ← ttosInsertWaitedTask t;
    _ ← upd_task t (set_state (Z.lor TTOS_TASK_DELAYING TTOS_TASK_INTERRUPTIBLE_BY_SIGNAL));
    _ ← ttosScheduleInIntDisAndKernelLock;
    mret None.

Definition TTOS_SleepTask_result (t : tid) : M kernel retcode :=
  tc ← get_task t; mret (returnCode (wait tc)).
