(* ===== verification/WaitInv.v ===== *)
(** * Theorems on waiting: the tick queue refines deadlines

    The tick queue code of [Wait] computes the delta-queue operations of
    [DeltaQ], without wrap-around, and keeps the scheduler's invariant; a tick
    wakes exactly the tasks whose deadline has come. *)

From S2P Require Import Prelude Chain PrioMap DeltaQ Kernel Sched Frame SchedInv Dispatch SchedProps Service Wait.
Import Width.
Local Open Scope Z_scope.

(** ** The tick queue as a delta queue *)

Definition wt (K : kernel) (t : tid) : Z := default 0 (waitedTicks <$> tasks K !! t).

Definition view (K : kernel) (xs : list tid) : list (tid * Z) := (λ t, (t, wt K t)) <$> xs.

Definition waited (K : kernel) : list (tid * Z) := view K (c_get TaskWaitedQ (oq K)).

(** The tick queue holds tasks that are not ready, and every deadline fits in
    the 32 bits of [waitedTicks]. *)
Record wait_inv (K : kernel) : Prop := {
  wi_task : ∀ t, t ∈ c_get TaskWaitedQ (oq K) →
    ∃ tc, tasks K !! t = Some tc ∧ ready tc = false ∧ 0 ≤ waitedTicks tc;
  wi_bound : Forall (λ p, p.2 < 2 ^ 32) (deadlines (waited K));
  wi_queue : ∀ w q t tc, wqs K !! w = Some q → t ∈ wq_tasks q → tasks K !! t = Some tc →
    wait_queue (wait tc) ≠ None;
}.

(** Two task tables that differ in [waitedTicks] only. *)
Definition same_but_wt (tc tc' : tcb) : Prop := tc' = set_waitedTicks (waitedTicks tc') tc.

Definition only_wt (K K' : kernel) : Prop :=
  ∀ x, option_Forall2 same_but_wt (tasks K !! x) (tasks K' !! x).

Lemma same_but_wt_refl tc : same_but_wt tc tc.
Proof. unfold same_but_wt. by destruct tc. Qed.

Lemma only_wt_refl K : only_wt K K.
Proof. intros x. destruct (tasks K !! x); constructor. apply same_but_wt_refl. Qed.

Lemma only_wt_trans K1 K2 K3 : only_wt K1 K2 → only_wt K2 K3 → only_wt K1 K3.
Proof.
  intros H12 H23 x. specialize (H12 x). specialize (H23 x).
  inversion H12 as [a b Hab E1 E2|E1 E2]; rewrite <- E2 in H23; inversion H23 as [b' c Hbc E3 E4|E3 E4];
    subst; constructor.
  unfold same_but_wt in *. rewrite Hbc, Hab. by destruct a.
Qed.

Lemma only_wt_upd K t tc v : tasks K !! t = Some tc →
  only_wt K (set_tasks (<[t := set_waitedTicks v tc]> (tasks K)) K).
Proof.
  intros Ht x. simpl. destruct (decide (x = t)) as [->|].
  - rewrite Ht, lookup_insert_eq. constructor. done.
  - rewrite lookup_insert_ne by done. destruct (tasks K !! x); constructor. apply same_but_wt_refl.
Qed.

Lemma only_wt_lookup K K' t tc : only_wt K K' → tasks K !! t = Some tc →
  ∃ tc', tasks K' !! t = Some tc' ∧ tc' = set_waitedTicks (waitedTicks tc') tc.
Proof. intros Ho Ht. specialize (Ho t). rewrite Ht in Ho. inversion Ho; subst. eauto. Qed.

(** ** The scheduler does not look at the tick queue *)

Lemma inv_upd_wt qk K t tc v : sched_inv qk K → tasks K !! t = Some tc →
  qk t (set_waitedTicks v tc) = qk t tc →
  sched_inv qk (set_tasks (<[t := set_waitedTicks v tc]> (tasks K)) K).
Proof. intros. by eapply inv_upd_inert. Qed.

Lemma inv_set_oq qk K C :
  sched_inv qk K → c_wf C → (∀ a p, c_get (RQ a p) C = c_get (RQ a p) (oq K)) →
  sched_inv qk (set_oq C K).
Proof.
  intros Hinv Hwf Hsame. apply si_rebuild with qk K; simpl; try done.
  - intros a m. rewrite rq_bitmap_set_oq. intros Hm. destruct (si_maps _ _ Hinv a m Hm) as [? Hb].
    split; [done|]. intros p Hp. simpl. rewrite Hsame. by apply Hb.
  - intros a [m Hm]. rewrite rq_bitmap_set_oq in Hm. rewrite cached_top_set_oq.
    eapply top_spec_ext; [|by eapply si_tops]. done.
  - intros a p t tc Hin Ht. rewrite Hsame in Hin. split; [|by left].
    by apply (si_member _ _ _ _ _ _ Hinv Ht) in Hin as (_ & _ & _ & ?).
  - intros a p t Hin. rewrite Hsame in Hin.
    destruct (si_sound _ _ Hinv _ _ _ Hin) as (? & ? & ?). by eexists.
  - intros t tc Ht Hr Hq. rewrite Hsame. by apply (si_complete _ _ Hinv).
Qed.

(** ** Insertion *)

Lemma view_ext K K' xs : (∀ x, x ∈ xs → wt K' x = wt K x) → view K' xs = view K xs.
Proof.
  intros Hx. unfold view. apply list_fmap_ext. intros i x Hi. f_equal. apply Hx.
  by eapply list_elem_of_lookup_2.
Qed.

Lemma wt_insert_ne K t tc x : x ≠ t →
  wt (set_tasks (<[t := tc]> (tasks K)) K) x = wt K x.
Proof. intros Hne. unfold wt. simpl. by rewrite lookup_insert_ne. Qed.

Lemma wt_insert_eq K t tc : wt (set_tasks (<[t := tc]> (tasks K)) K) t = waitedTicks tc.
Proof. unfold wt. simpl. by rewrite lookup_insert_eq. Qed.

Definition other_chains (K K' : kernel) : Prop :=
  ∀ q, q ≠ TaskWaitedQ → c_get q (oq K') = c_get q (oq K).

Lemma twq_wf (C : gmap oqid (list tid)) t xs ys :
  c_wf C → c_get TaskWaitedQ C = xs ++ ys → c_linked t C = false →
  c_wf (c_set TaskWaitedQ (xs ++ t :: ys) C).
Proof.
  intros Hwf Hc Hl. rewrite c_linked_false in Hl. pose proof (c_nodup _ Hwf TaskWaitedQ) as Hnd.
  pose proof (Hl TaskWaitedQ) as Ht. rewrite Hc in Hnd, Ht.
  assert (Hperm : xs ++ t :: ys ≡ₚ t :: (xs ++ ys)) by (by rewrite Permutation_middle).
  apply c_wf_set; [done| |].
  - rewrite Hperm. by apply NoDup_cons.
  - intros n q'. rewrite Hperm. intros [->|Hin]%elem_of_cons Hin'; [by apply Hl in Hin'|].
    rewrite <- Hc in Hin. by apply (c_disj _ Hwf _ _ n).
Qed.

(** Linking [t] between [pre] and [post]. *)
Lemma link_twq_inv qk K t pre post :
  sched_inv qk K → c_get TaskWaitedQ (oq K) = pre ++ post → c_linked t (oq K) = false →
  sched_inv qk (set_oq (c_set TaskWaitedQ (pre ++ t :: post) (oq K)) K).
Proof.
  intros Hinv Hc Hl. apply inv_set_oq; [done|apply twq_wf; [apply Hinv|done..]|].
  intros a p. by rewrite c_get_set_ne.
Qed.

Lemma insert_from_run nodes : ∀ pre K t tc,
  kernel_inv K → c_get TaskWaitedQ (oq K) = pre ++ nodes → c_linked t (oq K) = false →
  tasks K !! t = Some tc → ready tc = false → 0 ≤ waitedTicks tc < 2 ^ 32 →
  (∀ x, x ∈ pre ++ nodes → is_Some (tasks K !! x)) →
  dq_wf (view K nodes) → Forall (λ p, p.2 < 2 ^ 32) (deadlines (view K nodes)) →
  wp (insert_waited_from nodes t) K (λ _ K', kernel_inv K' ∧ only_wt K K' ∧ other_chains K K' ∧
    wqs K' = wqs K ∧
    waited K' = view K pre ++ d_insert true t (waitedTicks tc) (view K nodes)).
Proof.
  induction nodes as [|n nodes IH]; intros pre K t tc Hinv Hc Hl Ht Hr Hw Hsome Hwf Hb; simpl.
  - unfold obj_add_tail. apply wp_bind, wp_gets, wp_bind, wp_assert; [by rewrite Hl|]. apply wp_modify.
    unfold c_add_tail. rewrite Hc, app_nil_r. split_and!.
    + by apply (link_twq_inv _ K t pre []).
    + exact (only_wt_refl K).
    + intros q Hq. simpl. by rewrite c_get_set_ne.
    + done.
    + unfold waited. simpl. rewrite c_get_set_eq. unfold view at 1. rewrite fmap_app. simpl.
      unfold wt at 2. simpl. by rewrite Ht.
  - assert (Hts : t ∉ pre ++ n :: nodes).
    { rewrite <- Hc. rewrite c_linked_false in Hl. apply Hl. }
    assert (Hne : n ≠ t) by (intros ->; apply Hts; set_solver).
    destruct (Hsome n) as [nc Hn]; [set_solver|].
    assert (Ewn : wt K n = waitedTicks nc) by (unfold wt; by rewrite Hn).
    pose proof Hwf as Hwf0. simpl in Hwf. rewrite Ewn in *. apply dq_wf_cons in Hwf as (Hd & Hnn & Hwf).
    pose proof Hb as Hb0. unfold deadlines in Hb. simpl in Hb. rewrite Ewn in *.
    apply Forall_cons in Hb as [Hdn Hb]. simpl in Hdn.
    apply wp_bind. eapply wp_get_task; [done|]. apply wp_bind. eapply wp_get_task; [done|].
    destruct (Z.leb_spec (waitedTicks nc) (waitedTicks tc)) as [Hle|Hgt].
    + apply wp_bind. eapply wp_upd_task; [done|]. rewrite u32_small by lia.
      set (tc1 := set_waitedTicks _ tc). set (K1 := set_tasks _ K).
      assert (Hv : ∀ xs, t ∉ xs → view K1 xs = view K xs).
      { intros xs Hxs. apply view_ext. intros x Hx. apply wt_insert_ne. by intros ->. }
      eapply wp_mono; [eapply (IH (pre ++ [n]) K1 t tc1)|].
      * by eapply inv_upd_wt.
      * simpl. by rewrite <- app_assoc.
      * done.
      * apply lookup_insert_eq.
      * done.
      * simpl. lia.
      * intros x. rewrite <- app_assoc. intros Hx. simpl. apply lookup_insert_is_Some'.
        right. by apply Hsome.
      * rewrite Hv by set_solver. done.
      * rewrite Hv by set_solver. unfold deadlines.
        rewrite Forall_forall in Hb |- *. intros [x y] Hin. simpl.
        assert (Hin' : (x, waitedTicks nc + y) ∈ abs_from (0 + waitedTicks nc) (view K nodes)).
        { rewrite abs_shift. apply list_elem_of_fmap. exists (x, y). done. }
        specialize (Hb _ Hin'). simpl in Hb. lia.
      * intros _ K' (? & Ho & Hoc & ? & ->). split_and!; try done.
        -- apply (only_wt_trans _ K1); [by apply only_wt_upd|exact Ho].
        -- rewrite (Hv (pre ++ [n])), (Hv nodes) by set_solver. unfold view. rewrite fmap_app. simpl.
           rewrite Ewn, <- app_assoc. done.
    + apply wp_bind. eapply wp_upd_task; [done|]. rewrite u32_small by lia.
      set (nc1 := set_waitedTicks _ nc). set (K1 := set_tasks _ K).
      unfold obj_add_before. apply wp_bind, wp_gets, wp_bind, wp_assert; [by change (oq K1) with (oq K); rewrite Hl|].
      apply wp_modify. simpl. rewrite Hc.
      assert (Hnp : n ∉ pre).
      { pose proof (c_nodup _ (si_wf _ _ Hinv) TaskWaitedQ) as Hnd. rewrite Hc in Hnd.
        apply NoDup_app in Hnd as (_ & Hd' & _). intros Hin. eapply Hd'; [done|left]. }
      rewrite insert_before_split by done.
      assert (Hinv1 : kernel_inv K1) by (by eapply inv_upd_wt).
      split_and!.
      * by apply (link_twq_inv _ K1 t pre (n :: nodes)).
      * by apply only_wt_upd.
      * intros q Hq. simpl. by rewrite c_get_set_ne.
      * done.
      * unfold waited. simpl. rewrite c_get_set_eq.
        assert (Hv : ∀ xs, n ∉ xs → view (set_oq (c_set TaskWaitedQ (pre ++ t :: n :: nodes) (oq K)) K1) xs
          = view K xs).
        { intros xs Hxs. apply view_ext. intros x Hx. apply (wt_insert_ne K). by intros ->. }
        assert (Hnn' : n ∉ nodes).
        { intros Hin. apply Hnn. unfold view. rewrite <- list_fmap_compose. apply list_elem_of_fmap.
          by exists n. }
        unfold view at 1. rewrite fmap_app. cbn [fmap list_fmap].
        fold (view (set_oq (c_set TaskWaitedQ (pre ++ t :: n :: nodes) (oq K)) K1) pre).
        fold (view (set_oq (c_set TaskWaitedQ (pre ++ t :: n :: nodes) (oq K)) K1) nodes).
        rewrite !Hv by done. f_equal.
        unfold wt. simpl. rewrite lookup_insert_ne, lookup_insert_eq, Ht by done. done.
Qed.

Lemma waited_wf K : kernel_inv K → wait_inv K → dq_wf (waited K).
Proof.
  intros Hinv Hw. split.
  - intros n d Hin. unfold waited, view in Hin. apply list_elem_of_fmap in Hin as (x & [= -> ->] & Hx).
    destruct (wi_task _ Hw _ Hx) as (tc & Ht & _ & ?). unfold wt. by rewrite Ht.
  - unfold waited, view. rewrite <- list_fmap_compose. simpl. rewrite list_fmap_id.
    apply (c_nodup _ (si_wf _ _ Hinv)).
Qed.

Lemma waited_ids K : (waited K).*1 = c_get TaskWaitedQ (oq K).
Proof. unfold waited, view. rewrite <- list_fmap_compose. simpl. apply list_fmap_id. Qed.

Lemma waited_wt K t d : (t, d) ∈ waited K → wt K t = d.
Proof. unfold waited, view. intros (x & [= -> ->] & _)%list_elem_of_fmap. done. Qed.

(** [wait_inv] from the shape of the delta queue. *)
Lemma wait_inv_intro K :
  (∀ t, t ∈ c_get TaskWaitedQ (oq K) → ∃ tc, tasks K !! t = Some tc ∧ ready tc = false) →
  dq_wf (waited K) → Forall (λ p, p.2 < 2 ^ 32) (deadlines (waited K)) →
  (∀ w q t tc, wqs K !! w = Some q → t ∈ wq_tasks q → tasks K !! t = Some tc →
    wait_queue (wait tc) ≠ None) → wait_inv K.
Proof.
  intros Ht Hwf Hb Hq. split; [|done..]. intros t Hin. destruct (Ht t Hin) as (tc & Htc & Hr).
  exists tc. split_and!; [done..|].
  assert (Hin' : (t, wt K t) ∈ waited K) by (unfold waited, view; apply list_elem_of_fmap; by exists t).
  pose proof (dq_pos _ Hwf _ _ Hin') as Hp. unfold wt in Hp. by rewrite Htc in Hp.
Qed.

Lemma only_wt_ready K K' t tc : only_wt K K' → tasks K !! t = Some tc → ready tc = false →
  ∃ tc', tasks K' !! t = Some tc' ∧ ready tc' = false.
Proof.
  intros Ho Ht Hr. destruct (only_wt_lookup _ _ _ _ Ho Ht) as (tc' & Ht' & E).
  exists tc'. split; [done|]. by rewrite E.
Qed.

(** The queue clause does not depend on [waitedTicks]. *)
Lemma only_wt_queue K K' : wait_inv K → only_wt K K' → wqs K' = wqs K →
  ∀ w q t tc, wqs K' !! w = Some q → t ∈ wq_tasks q → tasks K' !! t = Some tc →
    wait_queue (wait tc) ≠ None.
Proof.
  intros Hw Ho Ewq w q t tc. rewrite Ewq. intros Hq Hin Ht. specialize (Ho t). rewrite Ht in Ho.
  destruct (tasks K !! t) as [tc0|] eqn:E; inversion Ho as [a b Hab|]; subst. rewrite Hab.
  by apply (wi_queue _ Hw w q t tc0).
Qed.

(** [ttosInsertWaitedTask] is insertion by deadline, behind equal deadlines. *)
Lemma insert_waited_run K t tc :
  kernel_inv K → wait_inv K → tasks K !! t = Some tc → ready tc = false →
  c_linked t (oq K) = false → 0 ≤ waitedTicks tc < 2 ^ 32 →
  wp (ttosInsertWaitedTask t) K (λ _ K', kernel_inv K' ∧ wait_inv K' ∧ only_wt K K' ∧
    other_chains K K' ∧ wqs K' = wqs K ∧
    waited K' = d_insert true t (waitedTicks tc) (waited K)).
Proof.
  intros Hinv Hw Ht Hr Hl Hb. unfold ttosInsertWaitedTask. apply wp_bind, wp_gets.
  assert (Hfresh : t ∉ (waited K).*1) by (rewrite waited_ids; rewrite c_linked_false in Hl; apply Hl).
  pose proof (waited_wf _ Hinv Hw) as Hwf.
  eapply wp_mono; [apply (insert_from_run _ [] K t tc); try done|].
  - intros x Hx. destruct (wi_task _ Hw x Hx) as (xc & ? & _). by eexists.
  - apply Hw.
  - simpl. intros _ K' (Hinv' & Ho & Hoc & Ewq & Ewt). split_and!; try done.
    fold (waited K) in Ewt.
    apply wait_inv_intro.
    + intros x Hx. rewrite <- waited_ids, Ewt in Hx.
      rewrite insert_ids in Hx. apply elem_of_cons in Hx as Hx'.
      destruct Hx' as [->|Hx']; [by eapply only_wt_ready|]. rewrite waited_ids in Hx'.
      destruct (wi_task _ Hw x Hx') as (xc & Hxc & Hxr & _). by eapply only_wt_ready.
    + rewrite Ewt. apply insert_wf; [done..|lia].
    + rewrite Ewt. unfold deadlines. rewrite insert_deadlines. apply insert_by_bound; [apply Hw|lia].
    + by apply (only_wt_queue K K').
Qed.

(** ** Removal *)

Lemma view_app K xs ys : view K (xs ++ ys) = view K xs ++ view K ys.
Proof. apply fmap_app. Qed.

Lemma unlink_twq_inv qk K t pre post :
  sched_inv qk K → c_get TaskWaitedQ (oq K) = pre ++ t :: post →
  sched_inv qk (set_oq (c_delete t (oq K)) K) ∧
  c_get TaskWaitedQ (c_delete t (oq K)) = pre ++ post ∧
  (∀ q, q ≠ TaskWaitedQ → c_get q (c_delete t (oq K)) = c_get q (oq K)) ∧
  t ∉ pre ∧ t ∉ post ∧ c_linked t (oq K) = true.
Proof.
  intros Hinv Hc. pose proof (si_wf _ _ Hinv) as Hwf.
  pose proof (c_nodup _ Hwf TaskWaitedQ) as Hnd. rewrite Hc in Hnd.
  apply NoDup_app in Hnd as (_ & Hd & [Hpost _]%NoDup_cons).
  assert (Hpre : t ∉ pre) by (intros Hin; eapply Hd; [done|left]).
  assert (Hin : t ∈ c_get TaskWaitedQ (oq K)) by (rewrite Hc; set_solver).
  assert (Hother : ∀ q, q ≠ TaskWaitedQ → c_get q (c_delete t (oq K)) = c_get q (oq K)).
  { intros q Hq. apply c_get_delete_fresh. intros Hin'. by apply Hq, (c_disj _ Hwf _ _ t). }
  split_and!; try done.
  - apply inv_set_oq; [done|by apply c_wf_delete|]. intros a p. by apply Hother.
  - rewrite c_get_delete, Hc. by apply filter_ne_split.
  - apply c_linked_spec. eauto.
Qed.

(** [ttosExactWaitedTask] removes a task and keeps every other deadline. *)
Lemma exact_waited_run K t :
  kernel_inv K → wait_inv K → t ∈ c_get TaskWaitedQ (oq K) →
  wp (ttosExactWaitedTask t) K (λ _ K', kernel_inv K' ∧ wait_inv K' ∧ only_wt K K' ∧
    other_chains K K' ∧ wqs K' = wqs K ∧ c_linked t (oq K') = false ∧
    waited K' = d_extract t (waited K)).
Proof.
  intros Hinv Hw Hin. destruct (wi_task _ Hw t Hin) as (tc & Ht & Hr & Hp).
  pose proof (waited_wf _ Hinv Hw) as Hwf. pose proof (wi_bound _ Hw) as Hb.
  apply list_elem_of_split in Hin as (pre & post & Hc).
  destruct (unlink_twq_inv _ K t pre post Hinv Hc) as (_ & _ & _ & Hpre & Hpost & _).
  assert (Hwt : wt K t = waitedTicks tc) by (unfold wt; by rewrite Ht).
  assert (Ew : waited K = view K pre ++ (t, waitedTicks tc) :: view K post).
  { unfold waited. rewrite Hc, view_app. simpl. by rewrite Hwt. }
  assert (Hview : t ∉ (view K pre).*1).
  { unfold view. rewrite <- list_fmap_compose. simpl. by rewrite list_fmap_id. }
  assert (Hgoal : ∀ K1, kernel_inv K1 → only_wt K K1 → oq K1 = oq K → wqs K1 = wqs K →
    tasks K1 !! t = Some tc →
    view K1 (pre ++ post) = view K pre ++ match view K post with
      | [] => [] | (n, d') :: q => (n, d' + waitedTicks tc) :: q end →
    wp (_ ← upd_task t (set_waitedTicks 0); obj_delete t) K1 (λ _ K', kernel_inv K' ∧ wait_inv K' ∧
      only_wt K K' ∧ other_chains K K' ∧ wqs K' = wqs K ∧ c_linked t (oq K') = false ∧
      waited K' = d_extract t (waited K))).
  { intros K1 Hinv1 Ho1 Eo1 Ewq1 Ht1 Ev1. apply wp_bind. eapply wp_upd_task; [done|].
    set (K2 := set_tasks _ K1). assert (Hinv2 : kernel_inv K2) by (by eapply inv_upd_wt).
    destruct (unlink_twq_inv _ K2 t pre post Hinv2) as (Hinv3 & Htwq & Hoth & _ & _ & Hlk);
      [simpl; by rewrite Eo1|].
    unfold obj_delete. apply wp_bind, wp_gets, wp_bind, wp_assert; [done|]. apply wp_modify.
    assert (Ewt : waited (set_oq (c_delete t (oq K2)) K2) = d_extract t (waited K)).
    { unfold waited at 1. simpl. simpl in Htwq. rewrite Htwq, Ew, extract_app, <- Ev1 by done.
      apply view_ext. intros x Hx. apply (wt_insert_ne K1). intros ->. set_solver. }
    assert (Ho2 : only_wt K (set_oq (c_delete t (oq K2)) K2)).
    { apply (only_wt_trans _ K1); [done|]. by apply (only_wt_upd K1). }
    split_and!; try done.
    - apply wait_inv_intro.
      + intros x. simpl. simpl in Htwq. rewrite Htwq. intros Hx.
        destruct (wi_task _ Hw x) as (xc & Hxc & Hxr & _); [rewrite Hc; set_solver|].
        exact (only_wt_ready _ _ _ _ Ho2 Hxc Hxr).
      + rewrite Ewt. by apply extract_wf.
      + rewrite Ewt. unfold deadlines. rewrite extract_deadlines by done.
        rewrite Forall_forall in Hb |- *. intros p [_ Hp']%list_elem_of_filter. by apply Hb.
      + by apply (only_wt_queue K).
    - intros q Hq. simpl. specialize (Hoth q Hq). simpl in Hoth. by rewrite Hoth, Eo1.
    - simpl. apply c_linked_delete. }
  unfold ttosExactWaitedTask. apply wp_bind, wp_gets. unfold c_next. rewrite Hc, succ_in_split by done.
  apply wp_bind. eapply wp_get_task; [done|]. destruct post as [|n post]; simpl.
  - apply Hgoal; try done; [apply only_wt_refl|]. by rewrite view_app.
  - destruct (wi_task _ Hw n) as (nc & Hn & _ & Hpn); [rewrite Hc; set_solver|].
    assert (Ewn : wt K n = waitedTicks nc) by (unfold wt; by rewrite Hn).
    assert (Hfit : 0 ≤ waitedTicks nc + waitedTicks tc < 2 ^ 32).
    { rewrite Ew in Hwf, Hb. simpl in Hwf, Hb. rewrite Ewn in Hwf, Hb. by eapply neighbours_fit. }
    assert (Hnt : n ≠ t) by set_solver.
    apply wp_bind. eapply wp_upd_task; [done|]. rewrite u32_small by lia.
    assert (Hnp : n ∉ pre ++ post).
    { pose proof (c_nodup _ (si_wf _ _ Hinv) TaskWaitedQ) as Hnd. rewrite Hc in Hnd.
      apply NoDup_app in Hnd as (_ & Hd & [_ Hnd]%NoDup_cons). apply NoDup_cons in Hnd as [? _].
      rewrite elem_of_app. intros [Hi|Hi]; [|done]. eapply Hd; [exact Hi|]. set_solver. }
    apply Hgoal; try done.
    + by eapply inv_upd_wt.
    + by apply only_wt_upd.
    + simpl. by rewrite lookup_insert_ne.
    + simpl. rewrite view_app. simpl. rewrite wt_insert_eq. simpl. rewrite Ewn.
      f_equal; [|f_equal]; apply view_ext; intros x Hx; apply wt_insert_ne; set_solver.
Qed.

(** ** A tick *)

(** What the end of a wait does to a control block. *)
Record woken (tc tc' : tcb) : Prop := {
  wk_ticks : waitedTicks tc' = 0;
  wk_waiting : flag_on TTOS_TASK_WAITING (state tc') = false;
  wk_code : returnCode (wait tc') =
    if flag_on TTOS_TASK_BLOCKING (state tc) then TTOS_TIMEOUT else returnCode (wait tc);
  wk_queue : wait_queue (wait tc') = None;
  wk_ready : ready tc' =
    negb (flag_on TTOS_TASK_NONRUNNING_STATE (clear_flag TTOS_TASK_WAITING (state tc)));
}.

(** [ttosClearTaskWaiting] on a task that is not ready and is on no list. *)
Lemma clear_waiting_run K t tc :
  kernel_inv K → tasks K !! t = Some tc → ready tc = false → c_linked t (oq K) = false →
  wp (ttosClearTaskWaiting t) K (λ _ K', kernel_inv K' ∧ env K' = env K ∧ wqs K' = wqs K ∧
    c_get TaskWaitedQ (oq K') = c_get TaskWaitedQ (oq K) ∧
    ∃ tc', tasks K' = <[t := tc']> (tasks K) ∧ waitedTicks tc' = waitedTicks tc ∧
      wait tc' = wait tc ∧ flag_on TTOS_TASK_WAITING (state tc') = false ∧
      ready tc' = negb (flag_on TTOS_TASK_NONRUNNING_STATE (clear_flag TTOS_TASK_WAITING (state tc))) ∧
      flag_on TTOS_TASK_NONRUNNING_STATE (state tc') = negb (ready tc') ∧
      smpInfo tc' = smpInfo tc ∧ resourceCount tc' = resourceCount tc ∧
      (oq K' = oq K ∨ queued_kind tc = true ∧
         oq K' = c_add_tail t (RQ (affCpu tc) (taskCurPriority tc)) (oq K))).
Proof.
  intros Hinv Ht Hr Hl. unfold ttosClearTaskWaiting. apply wp_bind. eapply wp_upd_task; [done|].
  set (tc1 := set_state _ tc). set (K1 := set_tasks _ K).
  assert (Hr1 : ready tc1 = false) by (unfold ready; simpl; by rewrite flag_on_clear_ne).
  assert (Hinv1 : kernel_inv K1) by (eapply inv_upd_inert; try done; congruence).
  assert (Ht1 : tasks K1 !! t = Some tc1) by apply lookup_insert_eq.
  apply wp_bind. unfold task_state. apply wp_bind. eapply wp_get_task; [done|]. apply wp_ret.
  simpl. apply wp_when; intros Hn.
  - assert (Hf : flag_on (Z.lor TTOS_TASK_READY TTOS_TASK_SUSPEND) (state tc1) = false).
    { rewrite flag_on_lor. fold (ready tc1). rewrite Hr1. simpl.
      apply negb_true_iff in Hn. unfold TTOS_TASK_NONRUNNING_STATE in Hn. simpl in Hn.
      rewrite !flag_on_lor in Hn. by repeat apply orb_false_iff in Hn as [? Hn]. }
    pose proof (set_ready_run K1 t tc1 Hinv1 Ht1 Hl Hf) as Hwp.
    apply (wp_pres (λ K K', env K' = env K)) in Hwp; [|apply _].
    assert (Hwq : Pres (λ K K', wqs K' = wqs K) (ttosSetTaskReady t)) by apply keeps_wqs_set_ready.
    apply (wp_pres (λ K K', wqs K' = wqs K)) in Hwp; [|done].
    eapply wp_mono; [exact Hwp|]. intros _ K' (((? & Et & _ & Eo) & ?) & ?). split_and!; try done.
    + rewrite Eo. destruct (queued_kind tc1); [|done]. unfold c_add_tail. by rewrite c_get_set_ne.
    + exists (made_ready tc1). split; [rewrite Et; simpl; by rewrite insert_insert_eq|].
      assert (Est : state (made_ready tc1) = set_flag TTOS_TASK_READY (state tc1) ∧
        waitedTicks (made_ready tc1) = waitedTicks tc ∧ wait (made_ready tc1) = wait tc ∧
        smpInfo (made_ready tc1) = smpInfo tc ∧ resourceCount (made_ready tc1) = resourceCount tc)
        by (unfold made_ready; by destruct (queued_kind tc1)).
      destruct Est as (Est & -> & -> & -> & ->). unfold ready. rewrite Est. split_and!; try done.
      * unfold flag_on, set_flag. rewrite Z.land_lor_distr_l.
        change (Z.land TTOS_TASK_READY TTOS_TASK_WAITING) with 0. rewrite Z.lor_0_r.
        by apply (flag_on_clear TTOS_TASK_WAITING).
      * rewrite flag_on_set by done. by rewrite Hn.
      * rewrite flag_on_set by done. unfold flag_on, set_flag. rewrite Z.land_lor_distr_l.
        change (Z.land TTOS_TASK_READY TTOS_TASK_NONRUNNING_STATE) with 0. rewrite Z.lor_0_r.
        apply negb_true_iff in Hn. exact Hn.
      * change (queued_kind tc) with (queued_kind tc1). destruct (queued_kind tc1); [right|left]; done.
  - split_and!; try done. exists tc1. apply negb_false_iff in Hn.
    split_and!; try done; [by apply flag_on_clear|by rewrite Hn|by rewrite Hr1|by left].
Qed.

Lemma inv_set_wqs qk K W : sched_inv qk K → sched_inv qk (set_wqs W K).
Proof. intros []. by split. Qed.

Definition leave (xs : list tid) (q : wqueue) : wqueue :=
  set_wq_tasks (filter (λ x, x ∉ xs) (wq_tasks q)) q.

Lemma leave_nil q : leave [] q = q.
Proof.
  unfold leave. rewrite filter_all; [by destruct q|]. apply Forall_forall. intros x _. apply not_elem_of_nil.
Qed.

Lemma leave_leave xs t q : leave xs (leave [t] q) = leave (t :: xs) q.
Proof.
  unfold leave. simpl. rewrite list_filter_filter. unfold set_wq_tasks. simpl. f_equal.
  apply list_filter_iff. intros x. set_solver.
Qed.

(** [ttosExtractTaskq] takes the task off its wait queue. *)
Lemma extract_taskq_run K t tc :
  tasks K !! t = Some tc →
  (∀ w q, wqs K !! w = Some q → t ∈ wq_tasks q → wait_queue (wait tc) ≠ None) →
  wp (ttosExtractTaskq (wait_queue (wait tc)) t) K (λ _ K',
    K' = set_wqs (leave [t] <$> wqs K)
           (set_tasks (<[t := upd_wait (set_wait_queue None) tc]> (tasks K)) K)).
Proof.
  intros Ht Hq.
  assert (Hid : (∀ w q, wqs K !! w = Some q → t ∉ wq_tasks q) → leave [t] <$> wqs K = wqs K).
  { intros Hno. apply map_eq. intros w. rewrite lookup_fmap.
    destruct (wqs K !! w) as [q|] eqn:E; [|done]. simpl. f_equal. unfold leave.
    rewrite filter_all; [by destruct q|]. apply Forall_forall. intros x Hx.
    apply not_elem_of_cons. split; [|apply not_elem_of_nil]. intros ->. by eapply Hno. }
  unfold ttosExtractTaskq. destruct (wait_queue (wait tc)) as [w|] eqn:Ew.
  - assert (Hb : wq_linked t K = false → leave [t] <$> wqs K = wqs K).
    { intros Hl. apply Hid. intros w' q Hw' Hin. unfold wq_linked in Hl.
      apply bool_decide_eq_false in Hl. apply Hl. apply list_elem_of_In, in_concat.
      exists (wq_tasks q). split; [|by apply list_elem_of_In]. apply list_elem_of_In.
      apply list_elem_of_fmap. exists q. split; [done|]. apply list_elem_of_fmap.
      exists (w', q). split; [done|]. by apply elem_of_map_to_list. }
    apply wp_bind, wp_gets, wp_bind, wp_when; intros Hl.
    + unfold wq_extract. apply wp_modify. eapply (wp_upd_task (set_wqs _ K)); [exact Ht|].
      replace ((λ q, set_wq_tasks (filter (λ x, x ≠ t) (wq_tasks q)) q) <$> wqs K)
        with (leave [t] <$> wqs K); [done|].
      apply map_fmap_ext. intros w' q _. unfold leave. f_equal. apply list_filter_iff.
      intros x. set_solver.
    + eapply wp_upd_task; [done|]. rewrite (Hb Hl). by destruct K.
  - apply wp_ret. rewrite Hid; [|intros w q Hw Hin; by apply (Hq w q)].
    rewrite insert_id; [by destruct K|]. rewrite Ht. f_equal. unfold upd_wait, set_wait_queue.
    destruct tc as [?????????????[?????]?]; simpl in *. by subst.
Qed.

(** One turn of the wake loop, for the first task of the queue. *)
Lemma wake_one_run K t tc xs :
  kernel_inv K → wait_inv K → c_get TaskWaitedQ (oq K) = t :: xs → tasks K !! t = Some tc →
  wp (wake_task t tc) K (λ _ K', kernel_inv K' ∧ env K' = env K ∧
    c_get TaskWaitedQ (oq K') = xs ∧ wqs K' = leave [t] <$> wqs K ∧
    ∃ tc', tasks K' = <[t := tc']> (tasks K) ∧ woken tc tc').
Proof.
  intros Hinv Hw Hc Ht. destruct (wi_task _ Hw t) as (tc0 & Ht0 & Hr & _); [rewrite Hc; left|].
  simplify_eq. unfold wake_task. apply wp_bind. eapply wp_upd_task; [done|].
  set (tc1 := set_waitedTicks 0 tc). set (K1 := set_tasks _ K).
  assert (Hinv1 : kernel_inv K1) by (by eapply inv_upd_wt).
  destruct (unlink_twq_inv _ K1 t [] xs Hinv1 Hc) as (Hinv2 & Htwq & _ & _ & _ & Hlk).
  apply wp_bind. unfold obj_delete. apply wp_bind, wp_gets, wp_bind, wp_assert; [done|].
  apply wp_modify. set (K2 := set_oq _ K1) in *.
  assert (Ht2 : tasks K2 !! t = Some tc1) by apply lookup_insert_eq.
  apply wp_bind. change (wait_queue (wait tc)) with (wait_queue (wait tc1)).
  eapply wp_mono; [apply (extract_taskq_run K2 t tc1 Ht2)|].
  { intros w q Hq Hin. by apply (wi_queue _ Hw w q t tc). }
  intros [] K3 ->. set (tc3 := upd_wait _ tc1). set (K3 := set_wqs _ _).
  assert (Hinv3 : kernel_inv K3) by (apply inv_set_wqs; by eapply inv_upd_inert).
  assert (Ht3 : tasks K3 !! t = Some tc3) by apply lookup_insert_eq.
  apply wp_bind. unfold task_state. apply wp_bind. eapply wp_get_task; [done|]. apply wp_ret.
  set (tc4 := if flag_on TTOS_TASK_BLOCKING (state tc)
              then upd_wait (set_returnCode TTOS_TIMEOUT) tc3 else tc3).
  assert (Hcode : wp (whenM (flag_on TTOS_TASK_BLOCKING (state tc3))
      (upd_task t (upd_wait (set_returnCode TTOS_TIMEOUT)))) K3
    (λ _ K', K' = set_tasks (<[t := tc4]> (tasks K3)) K3)).
  { unfold tc4. change (state tc3) with (state tc). apply wp_when; intros ->.
    - by eapply wp_upd_task.
    - rewrite insert_id by done. by rewrite set_tasks_same. }
  apply wp_bind. eapply wp_mono; [exact Hcode|]. intros [] K4 ->.
  assert (E4 : smpInfo tc4 = smpInfo tc3 ∧ taskCurPriority tc4 = taskCurPriority tc3 ∧
    state tc4 = state tc ∧ waitedTicks tc4 = 0 ∧ wait_queue (wait tc4) = None ∧
    returnCode (wait tc4) =
      if flag_on TTOS_TASK_BLOCKING (state tc) then TTOS_TIMEOUT else returnCode (wait tc)).
  { unfold tc4. by destruct (flag_on TTOS_TASK_BLOCKING (state tc)). }
  destruct E4 as (Hs4 & Hp4 & Hst4 & Hw4 & Hq4 & Hc4).
  assert (Hr4 : ready tc4 = false) by (unfold ready; by rewrite Hst4).
  set (K4 := set_tasks _ K3).
  assert (Hinv4 : kernel_inv K4).
  { eapply inv_upd_inert; try done; [by rewrite Hr4|]. unfold queued_kind, affCpu, onCpu. by rewrite Hs4. }
  eapply wp_mono; [apply (clear_waiting_run K4 t tc4 Hinv4)|].
  - apply lookup_insert_eq.
  - done.
  - simpl. apply c_linked_delete.
  - intros _ K' (? & Henv & Ewq & Eq & tc' & Et & Hwt & Hwa & Hfl & Hrd & _). split_and!; try done.
    + rewrite Eq. exact Htwq.
    + exists tc'. split.
      * rewrite Et. simpl. by rewrite !insert_insert_eq.
      * split; [by rewrite Hwt|done|by rewrite Hwa|by rewrite Hwa|by rewrite Hrd, Hst4].
Qed.

Lemma waited_cons K t xs tc : c_get TaskWaitedQ (oq K) = t :: xs → tasks K !! t = Some tc →
  waited K = (t, waitedTicks tc) :: view K xs.
Proof. intros Hc Ht. unfold waited. rewrite Hc. simpl. unfold wt. by rewrite Ht. Qed.

(** The rest of the queue after its first task is gone. *)
Lemma wait_inv_tail K K1 t tc tc1 xs :
  kernel_inv K → wait_inv K → c_get TaskWaitedQ (oq K) = t :: xs → tasks K !! t = Some tc →
  c_get TaskWaitedQ (oq K1) = xs → tasks K1 = <[t := tc1]> (tasks K) →
  wqs K1 = leave [t] <$> wqs K → t ∉ xs →
  waited K1 = view K xs ∧ wait_inv K1.
Proof.
  intros Hinv Hw Hc Ht Hc1 Et1 Ewq1 Hnin.
  assert (Hsame : ∀ x, x ≠ t → tasks K1 !! x = tasks K !! x)
    by (intros x Hx; by rewrite Et1, lookup_insert_ne).
  assert (Ew1 : waited K1 = view K xs).
  { unfold waited. rewrite Hc1. apply view_ext. intros x Hx. unfold wt. rewrite Hsame; [done|].
    by intros ->. }
  split; [done|]. pose proof (waited_wf _ Hinv Hw) as Hwf. pose proof (wi_bound _ Hw) as Hb.
  rewrite (waited_cons K t xs tc Hc Ht) in Hwf, Hb. apply dq_wf_cons in Hwf as (Hd & _ & Hwf1).
  apply wait_inv_intro.
  - intros x. rewrite Hc1. intros Hx. rewrite Hsame by (by intros ->).
    destruct (wi_task _ Hw x) as (xc & ? & ? & _); [rewrite Hc; by right|]. eauto.
  - by rewrite Ew1.
  - rewrite Ew1. unfold deadlines in *. simpl in Hb. apply Forall_cons in Hb as [_ Hb].
    rewrite Forall_forall in Hb |- *. intros [x y] Hin. simpl.
    assert (Hin' : (x, waitedTicks tc + y) ∈ abs_from (0 + waitedTicks tc) (view K xs)).
    { rewrite abs_shift. apply list_elem_of_fmap. exists (x, y). done. }
    specialize (Hb _ Hin'). simpl in Hb. lia.
  - intros w q x xc. rewrite Ewq1, lookup_fmap. destruct (wqs K !! w) as [q0|] eqn:Eq; [|done].
    simpl. intros [= <-]. unfold leave. simpl. intros [Hxt Hx]%list_elem_of_filter.
    rewrite Hsame by set_solver. by apply (wi_queue _ Hw w q0 x).
Qed.

(** [ttosTickNotify]'s wake loop against the delta queue: it ends (a turn per
    queued task and one more are enough), wakes exactly the tasks the ticks
    release and leaves the rest of the queue to [d_tick]. *)
Lemma wake_run xs : ∀ K ticks fuel,
  kernel_inv K → wait_inv K → c_get TaskWaitedQ (oq K) = xs → (length xs < fuel)%nat →
  0 ≤ ticks < 2 ^ 32 →
  wp (wake_loop fuel ticks) K (λ _ K', kernel_inv K' ∧ wait_inv K' ∧ env K' = env K ∧
    waited K' = (d_tick ticks (waited K)).2 ∧
    wqs K' = leave (d_tick ticks (waited K)).1 <$> wqs K ∧
    (∀ t, t ∈ (d_tick ticks (waited K)).1 →
       ∃ tc tc', tasks K !! t = Some tc ∧ tasks K' !! t = Some tc' ∧ woken tc tc') ∧
    (∀ t, t ∉ xs → tasks K' !! t = tasks K !! t) ∧
    (∀ t, t ∉ (d_tick ticks (waited K)).1 →
       option_Forall2 same_but_wt (tasks K !! t) (tasks K' !! t))).
Proof.
  induction xs as [|t xs IH]; intros K ticks fuel Hinv Hw Hc Hfuel Hk;
    (destruct fuel as [|fuel]; [simpl in Hfuel; lia|]); simpl; apply wp_bind, wp_gets;
    unfold c_first; rewrite Hc; simpl.
  { apply wp_ret. assert (Ew : waited K = []) by (unfold waited; by rewrite Hc). rewrite Ew. simpl.
    split_and!; try done.
    - symmetry. etrans; [|apply map_fmap_id]. apply map_fmap_ext. intros w q _. apply leave_nil.
    - intros t []%not_elem_of_nil.
    - intros t _. apply only_wt_refl. }
  destruct (wi_task _ Hw t) as (tc & Ht & Hr & Hpos); [rewrite Hc; left|].
  pose proof (waited_cons K t xs tc Hc Ht) as Ew.
  pose proof (waited_wf _ Hinv Hw) as Hwf. pose proof (wi_bound _ Hw) as Hb.
  pose proof (tick_wf ticks _ Hwf) as [Htwf Hsub].
  pose proof (tick_bound ticks _ _ Hwf (proj1 Hk) Hb) as Htb.
  assert (Hnin : t ∉ xs).
  { pose proof (c_nodup _ (si_wf _ _ Hinv) TaskWaitedQ) as Hnd. rewrite Hc in Hnd.
    by apply NoDup_cons in Hnd as [? _]. }
  apply wp_bind. eapply wp_get_task; [done|]. rewrite Ew in *. simpl in *.
  destruct (Z.ltb_spec ticks (waitedTicks tc)) as [Hlt|Hge].
  - eapply wp_upd_task; [done|].
    assert (Hdt : waitedTicks tc < 2 ^ 32).
    { unfold deadlines in Hb. simpl in Hb. by apply Forall_cons in Hb as [Hbt _]. }
    rewrite u32_small by lia. set (K' := set_tasks _ K).
    assert (Ew' : waited K' = (t, waitedTicks tc - ticks) :: view K xs).
    { unfold waited. simpl. rewrite Hc. simpl. unfold K'. rewrite wt_insert_eq. f_equal.
      apply view_ext. intros x Hx. apply wt_insert_ne. by intros ->. }
    assert (Ho : only_wt K K') by (by apply only_wt_upd).
    split_and!; try done.
    + by eapply inv_upd_wt.
    + apply wait_inv_intro; [|by rewrite Ew'..|by apply (only_wt_queue K)].
      intros x Hx. destruct (wi_task _ Hw x Hx) as (xc & Hxc & Hxr & _). by eapply only_wt_ready.
    + symmetry. etrans; [|apply map_fmap_id]. apply map_fmap_ext. intros w q _. apply leave_nil.
    + intros x []%not_elem_of_nil.
    + intros x Hx. simpl. rewrite lookup_insert_ne; [done|]. intros ->. set_solver.
  - apply wp_bind. eapply wp_mono; [by eapply wake_one_run|].
    intros [] K1 (Hinv1 & Henv1 & Hc1 & Ewq1 & tc1 & Et1 & Hwk).
    destruct (wait_inv_tail K K1 t tc tc1 xs) as [Ew1 Hw1]; try done.
    assert (Hsame : ∀ x, x ≠ t → tasks K1 !! x = tasks K !! x)
      by (intros x Hx; by rewrite Et1, lookup_insert_ne).
    apply dq_wf_cons in Hwf as (_ & Hfr & Hwf1).
    rewrite u32_small by lia.
    eapply wp_mono; [apply (IH K1 (ticks - waitedTicks tc) fuel Hinv1 Hw1 Hc1); lia|].
    intros [] K'. rewrite Ew1. destruct (tick_wf (ticks - waitedTicks tc) _ Hwf1) as [_ Hsub1].
    destruct (d_tick (ticks - waitedTicks tc) (view K xs)) as [e r]. simpl in *.
    intros (Hinv' & Hw' & Henv' & Ew' & Ewq' & Hwoken & Hout & Hrest).
    assert (Hte : t ∉ e).
    { intros Hin. apply Hfr, Hsub1. by left. }
    split_and!; try done.
    + by rewrite Henv'.
    + rewrite Ewq', Ewq1, <- map_fmap_compose. apply map_fmap_ext. intros w q _. apply leave_leave.
    + intros x [->|Hx]%elem_of_cons.
      * exists tc, tc1. split_and!; try done. rewrite Hout by done. rewrite Et1. apply lookup_insert_eq.
      * destruct (Hwoken x Hx) as (xc & xc' & Hxc & ? & ?). exists xc, xc'. split_and!; try done.
        rewrite <- Hxc. symmetry. apply Hsame. by intros ->.
    + intros x [Hxt Hx]%not_elem_of_cons. rewrite Hout by done. by apply Hsame.
    + intros x [Hxt Hx]%not_elem_of_cons. rewrite <- (Hsame x Hxt). by apply Hrest.
Qed.
