(* ===== verification/WaitProps.v ===== *)
(** * Properties of waiting

    The theorems of [WaitInv] stated for the code's entry points: the tick
    queue, the tick interrupt with its time slices, and sleeping, each with the
    state that witnesses it. *)

From S2P Require Import Prelude Chain PrioMap DeltaQ Kernel Sched Frame SchedInv Dispatch SchedProps Service Wait WaitInv.
Import Width.
Local Open Scope Z_scope.

(** ** Time slices *)

(** What a tick may do to a task that it does not wake. *)
Definition same_wait (tc tc' : tcb) : Prop :=
  state tc' = state tc ∧ wait tc' = wait tc ∧ waitedTicks tc' = waitedTicks tc.

Record sliced (K K' : kernel) : Prop := {
  sl_inv : kernel_inv K';
  sl_env : env K' = env K;
  sl_wqs : wqs K' = wqs K;
  sl_queue : c_get TaskWaitedQ (oq K') = c_get TaskWaitedQ (oq K);
  sl_tasks : ∀ t, option_Forall2 same_wait (tasks K !! t) (tasks K' !! t);
}.

Lemma sliced_refl K : kernel_inv K → sliced K K.
Proof. intros Hinv. split; try done. intros t. by destruct (tasks K !! t); constructor. Qed.

Lemma sliced_trans K1 K2 K3 : sliced K1 K2 → sliced K2 K3 → sliced K1 K3.
Proof.
  intros [_ He Hw Hq Ht] [Hi He' Hw' Hq' Ht']. split; try congruence.
  intros t. specialize (Ht t). specialize (Ht' t).
  destruct Ht as [tc tc2 H12|]; inversion Ht' as [? tc3 H23|]; subst; constructor.
  unfold same_wait in *. naive_solver congruence.
Qed.

Lemma sliced_upd K t tc tc' : kernel_inv K → tasks K !! t = Some tc →
  smpInfo tc' = smpInfo tc → taskCurPriority tc' = taskCurPriority tc → same_wait tc tc' →
  sliced K (set_tasks (<[t := tc']> (tasks K)) K).
Proof.
  intros Hinv Ht Hs Hp Hw. split; try done.
  - eapply inv_upd_inert; try done; [unfold ready; by rewrite (proj1 Hw)|].
    unfold queued_kind, affCpu, onCpu. by rewrite Hs.
  - intros x. simpl. destruct (decide (x = t)) as [->|Hne].
    + rewrite lookup_insert_eq, Ht. by constructor.
    + rewrite lookup_insert_ne by done. by destruct (tasks K !! x); constructor.
Qed.

#[export] Instance keeps_wqs_rotate t : KeepsWqs (ttosRotateRunningTask t).
Proof. unfold ttosRotateRunningTask. apply _. Qed.

Lemma sliced_rotate K t tc c :
  kernel_inv K → tasks K !! t = Some tc → ready tc = true → onCpu tc = Some c →
  wp (ttosRotateRunningTask t) K (λ _ K', sliced K K').
Proof.
  intros Hinv Ht Hr Hon.
  pose proof (rotate_run K t tc c Hinv Ht Hr Hon) as Hwp.
  apply (wp_pres (λ K K', wqs K' = wqs K)) in Hwp; [|apply _].
  apply (wp_pres (λ K K', env K' = env K)) in Hwp; [|apply _].
  eapply wp_mono; [exact Hwp|]. intros _ K' [[(Hinv' & _ & Hpost) Hwq] Henv]. cbv zeta in Hpost.
  destruct (affCpu tc) as [a|] eqn:Ea; destruct Hpost as [E1 E2].
  - split; try done.
    + rewrite E2. case_bool_decide; [done|]. apply get_rotated; [|apply Hinv].
      rewrite <- Ea. apply (si_complete _ _ Hinv); [done..|]. unfold queued_kind. by rewrite Ea.
    + intros x. rewrite E1. by destruct (tasks K !! x); constructor.
  - split; try done; [by rewrite E1|]. intros x. rewrite E2. destruct (c_is_empty _ _).
    + by destruct (tasks K !! x); constructor.
    + destruct (decide (x = t)) as [->|Hne].
      * rewrite lookup_insert_eq, Ht. by constructor.
      * rewrite lookup_insert_ne by done. by destruct (tasks K !! x); constructor.
Qed.

Lemma wp_sliced {A} (m : M kernel A) K K1 :
  sliced K K1 → wp m K1 (λ _ K', sliced K1 K') → wp m K1 (λ _ K', sliced K K').
Proof. intros Hs Hwp. eapply wp_mono; [exact Hwp|]. intros a K' ?. by eapply sliced_trans. Qed.

Lemma slice_tick_run K c : kernel_inv K → (c < ncpus K)%nat →
  wp (slice_tick c) K (λ _ K', sliced K K').
Proof.
  intros Hinv Hc. destruct (si_run _ _ Hinv c Hc) as (t & tc & Hr & Ht & Hon).
  unfold slice_tick. apply wp_bind, wp_gets. case_bool_decide; [by apply wp_ret, sliced_refl|].
  apply wp_bind. eapply wp_running; [done..|]. intros t' tc' Hr' _. rewrite Hr in Hr'. injection Hr' as <-.
  apply wp_bind. eapply wp_upd_task; [done|].
  set (tc1 := set_executedTicks _ tc). set (K1 := set_tasks _ K).
  assert (Hs1 : sliced K K1) by (by eapply sliced_upd).
  assert (Ht1 : tasks K1 !! t = Some tc1) by apply lookup_insert_eq.
  apply wp_bind. eapply wp_get_task; [done|].
  destruct (negb _) eqn:Hrd; [by apply wp_ret|]. apply negb_false_iff in Hrd.
  destruct (0 <? preemptCount _); [by apply wp_ret|].
  destruct (_ =? SCHED_FIFO); [by apply wp_ret|].
  set (tc2 := if 0 <? tickSlice tc1 then set_tickSlice (tickSlice tc1 - 1) tc1 else tc1).
  set (K2 := set_tasks (<[t := tc2]> (tasks K1)) K1).
  assert (Hs2 : sliced K K2).
  { eapply sliced_trans; [exact Hs1|]. eapply sliced_upd; [apply Hs1|exact Ht1|..]; unfold tc2; by destruct (0 <? _). }
  apply wp_bind. eapply wp_mono with (Φ := λ _ K', K' = K2).
  { unfold whenM, K2, tc2. destruct (0 <? tickSlice tc1); [by eapply wp_upd_task|].
    rewrite insert_id by done. by destruct K1. }
  intros [] K' ->. assert (Ht2 : tasks K2 !! t = Some tc2) by apply lookup_insert_eq.
  apply wp_bind. eapply wp_get_task; [done|]. unfold whenM.
  destruct (tickSlice tc2 =? 0); [|done].
  apply wp_bind. eapply wp_upd_task; [done|]. set (tc3 := set_tickSlice _ tc2).
  set (K3 := set_tasks _ K2).
  assert (Hs3 : sliced K K3).
  { eapply sliced_trans; [exact Hs2|]. by eapply sliced_upd; [apply Hs2|exact Ht2|..]. }
  apply (wp_sliced _ K K3 Hs3). eapply (sliced_rotate K3 t tc3 c); [apply Hs3|apply lookup_insert_eq|..];
    unfold tc3, tc2; by destruct (0 <? _).
Qed.

Lemma slice_loop_run cs : ∀ K, kernel_inv K → Forall (λ c, c < ncpus K)%nat cs →
  wp (slice_loop cs) K (λ _ K', sliced K K').
Proof.
  induction cs as [|c cs IH]; intros K Hinv Hcs; simpl; [by apply wp_ret, sliced_refl|].
  apply Forall_cons in Hcs as [Hc Hcs]. apply wp_bind.
  eapply wp_mono; [by apply slice_tick_run|]. intros [] K1 Hs. apply (wp_sliced _ K K1 Hs).
  apply IH; [apply Hs|]. pose proof (sl_env _ _ Hs) as He. unfold env in He.
  replace (ncpus K1) with (ncpus K) by congruence. done.
Qed.

Lemma sliced_task K K' t tc : sliced K K' → tasks K !! t = Some tc →
  ∃ tc', tasks K' !! t = Some tc' ∧ same_wait tc tc'.
Proof.
  intros Hs Ht. pose proof (sl_tasks _ _ Hs t) as H. rewrite Ht in H.
  inversion H as [tc0 tc' Hsw E1 E2|]; subst. by exists tc'.
Qed.

Lemma sliced_back K K' t tc' : sliced K K' → tasks K' !! t = Some tc' →
  ∃ tc, tasks K !! t = Some tc ∧ same_wait tc tc'.
Proof.
  intros Hs Ht. pose proof (sl_tasks _ _ Hs t) as H. rewrite Ht in H.
  inversion H as [tc tc0 Hsw E1 E2|]; subst. by exists tc.
Qed.

(** Time slices leave the tick queue and the waits alone. *)
Lemma sliced_wait K K' : wait_inv K → sliced K K' → wait_inv K' ∧ waited K' = waited K.
Proof.
  intros Hw Hs.
  assert (Ew : waited K' = waited K).
  { unfold waited. rewrite (sl_queue _ _ Hs). apply view_ext. intros t Ht. unfold wt.
    destruct (wi_task _ Hw t Ht) as (tc & Htc & _).
    destruct (sliced_task _ _ _ _ Hs Htc) as (tc' & -> & _ & _ & Hwt). by rewrite Htc; simpl; rewrite Hwt. }
  split; [|done]. split.
  - intros t. rewrite (sl_queue _ _ Hs). intros Ht. destruct (wi_task _ Hw t Ht) as (tc & Htc & Hr & Hp).
    destruct (sliced_task _ _ _ _ Hs Htc) as (tc' & Ht' & Hst & _ & Hwt). exists tc'. unfold ready.
    by rewrite Hst, Hwt.
  - rewrite Ew. apply Hw.
  - intros w q t tc'. rewrite (sl_wqs _ _ Hs). intros Hq Hin Ht'.
    destruct (sliced_back _ _ _ _ Hs Ht') as (tc & Ht & _ & -> & _). by eapply (wi_queue _ Hw).
Qed.

Lemma woken_sliced tc tc1 tc' : woken tc tc1 → same_wait tc1 tc' → woken tc tc'.
Proof. intros [? ? ? ? Hr] (Es & Ewt & Ek). unfold ready in Hr. split; unfold ready; congruence. Qed.

(** ** Properties *)

(** [ttosInsertWaitedTask] puts a task on the tick queue by its deadline,
    behind the tasks with the same deadline: read as absolute deadlines, the
    relative counts it subtracts and stores (without wrap-around) are exactly
    the old deadlines with the new one inserted in order.  Nothing but counts
    and that queue changes. *)
Theorem insert_waited_correct K t tc :
  kernel_inv K → wait_inv K → tasks K !! t = Some tc → ready tc = false →
  c_linked t (oq K) = false → 0 ≤ waitedTicks tc < 2 ^ 32 →
  ∃ K', ttosInsertWaitedTask t K = Some (tt, K') ∧ kernel_inv K' ∧ wait_inv K' ∧
    only_wt K K' ∧ other_chains K K' ∧ wqs K' = wqs K ∧
    deadlines (waited K') = insert_by true t (waitedTicks tc) (deadlines (waited K)).
Proof.
  intros Hinv Hw Ht Hr Hl Hb. pose proof (insert_waited_run K t tc Hinv Hw Ht Hr Hl Hb) as Hwp.
  apply wp_run in Hwp as ([] & K' & ? & ? & ? & ? & ? & ? & Ew). exists K'. split_and!; try done.
  unfold deadlines. rewrite Ew. apply (insert_deadlines true t (waitedTicks tc) 0).
Qed.

(** [ttosExactWaitedTask] takes a task off the tick queue and leaves every
    other deadline as it was, although the counts it stores are relative. *)
Theorem exact_waited_correct K t :
  kernel_inv K → wait_inv K → t ∈ c_get TaskWaitedQ (oq K) →
  ∃ K', ttosExactWaitedTask t K = Some (tt, K') ∧ kernel_inv K' ∧ wait_inv K' ∧
    only_wt K K' ∧ other_chains K K' ∧ c_linked t (oq K') = false ∧
    deadlines (waited K') = filter (λ p, p.1 ≠ t) (deadlines (waited K)).
Proof.
  intros Hinv Hw Hin. pose proof (exact_waited_run K t Hinv Hw Hin) as Hwp.
  apply wp_run in Hwp as ([] & K' & ? & ? & ? & ? & ? & _ & ? & Ew). exists K'. split_and!; try done.
  rewrite Ew. by apply extract_deadlines, waited_wf.
Qed.

(** The tasks whose deadline has come after [ticks] ticks. *)
Definition expired (ticks : Z) (K : kernel) : list tid :=
  (filter (λ p, p.2 ≤ ticks) (deadlines (waited K))).*1.

(** C9: a tick interrupt.  [ttosTickNotify] ends without a fault (one turn of
    its loop per queued task and one more are enough), keeps the scheduler's
    and the tick queue's invariants and the running tasks; it wakes exactly the
    tasks whose deadline has come (their waiting bits go, they leave their wait
    queue, a blocked one gets [TTOS_TIMEOUT], and one that nothing else stops
    is ready), and every other deadline comes [ticks] closer. *)
Theorem tick_notify_correct K ticks fuel :
  kernel_inv K → wait_inv K → 0 ≤ ticks < 2 ^ 32 →
  (length (c_get TaskWaitedQ (oq K)) < fuel)%nat →
  ∃ K', ttosTickNotify fuel ticks K = Some (tt, K') ∧ kernel_inv K' ∧ wait_inv K' ∧
    env K' = env K ∧
    deadlines (waited K') =
      prod_map id (λ x, x - ticks) <$> filter (λ p, ticks < p.2) (deadlines (waited K)) ∧
    wqs K' = leave (expired ticks K) <$> wqs K ∧
    (∀ t, t ∈ expired ticks K →
       ∃ tc tc', tasks K !! t = Some tc ∧ tasks K' !! t = Some tc' ∧ woken tc tc') ∧
    (∀ t tc, t ∉ expired ticks K → tasks K !! t = Some tc →
       ∃ tc', tasks K' !! t = Some tc' ∧ state tc' = state tc ∧ wait tc' = wait tc).
Proof.
  intros Hinv Hw Hk Hf. pose proof (waited_wf _ Hinv Hw) as Hwf.
  destruct (tick_deadlines ticks _ Hwf (proj1 Hk)) as [Eexp Erest].
  cut (wp (ttosTickNotify fuel ticks) K (λ _ K', ∃ K1,
    kernel_inv K1 ∧ wait_inv K1 ∧ env K1 = env K ∧ sliced K1 K' ∧
    waited K1 = (d_tick ticks (waited K)).2 ∧ wqs K1 = leave (expired ticks K) <$> wqs K ∧
    (∀ t, t ∈ expired ticks K →
       ∃ tc tc', tasks K !! t = Some tc ∧ tasks K1 !! t = Some tc' ∧ woken tc tc') ∧
    (∀ t, t ∉ expired ticks K → option_Forall2 same_but_wt (tasks K !! t) (tasks K1 !! t)))).
  - intros Hwp. apply wp_run in Hwp as ([] & K' & Hrun & K1 & Hi1 & Hw1 & He1 & Hs & Ew & Eq & Hwk & Hrest).
    exists K'. destruct (sliced_wait K1 K' Hw1 Hs) as [Hw' Ew']. split_and!; try done.
    + apply Hs.
    + by rewrite (sl_env _ _ Hs).
    + by rewrite Ew', Ew.
    + by rewrite (sl_wqs _ _ Hs).
    + intros t Hin. destruct (Hwk t Hin) as (tc & tc1 & Ht & Ht1 & Hk1).
      destruct (sliced_task K1 K' t tc1 Hs Ht1) as (tc' & Ht' & Hsw). exists tc, tc'. split_and!; try done.
      by eapply woken_sliced.
    + intros t tc Hin Ht. specialize (Hrest t Hin). rewrite Ht in Hrest.
      inversion Hrest as [tc0 tc1 Hsb Heq1 Heq2|]; subst.
      destruct (sliced_task K1 K' t tc1 Hs (eq_sym Heq2)) as (tc' & Ht' & Hst & Hwt & _). exists tc'.
      rewrite Hst, Hwt. split; [done|]. by rewrite Hsb.
  - unfold ttosTickNotify. apply wp_bind. eapply wp_mono; [by apply (wake_run (c_get TaskWaitedQ (oq K)) K ticks fuel)|].
    unfold expired. rewrite <- Eexp.
    intros [] K1 (Hi1 & Hw1 & He1 & Ew & Eq & Hwk & _ & Hrest). apply wp_bind, wp_gets.
    eapply wp_mono; [apply (slice_loop_run _ K1 Hi1)|].
    + apply Forall_forall. intros c ?%elem_of_seq. lia.
    + intros [] K' Hs. exists K1. done.
Qed.

(** Tasks 2, 3 and 4 delaying, with 7, 3 and 7 ticks. *)
Definition delay (t : tid) (d : Z) : M kernel unit :=
  _ ← upd_task t (λ tc, set_state TTOS_TASK_DELAYING (set_waitedTicks d tc));
  ttosInsertWaitedTask t.

Definition delay_kernel : kernel :=
  after (delay 4 7) (after (delay 3 3) (after (delay 2 7) demo_kernel)).

Lemma demo_wait : wait_inv demo_kernel.
Proof.
  split.
  - intros t Ht. vm_compute in Ht. by apply not_elem_of_nil in Ht.
  - assert (E : waited demo_kernel = []) by (vm_compute; reflexivity). rewrite E. constructor.
  - intros w q t tc Hq. change (wqs demo_kernel) with (∅ : gmap wqid wqueue) in Hq.
    by rewrite lookup_empty in Hq.
Qed.

Lemma delay_step K t tc d : kernel_inv K → wait_inv K → tasks K !! t = Some tc → ready tc = false →
  c_linked t (oq K) = false → 0 ≤ d < 2 ^ 32 →
  kernel_inv (after (delay t d) K) ∧ wait_inv (after (delay t d) K).
Proof.
  intros Hinv Hw Ht Hr Hl Hd.
  apply (after_wp (delay t d) K (λ K', kernel_inv K' ∧ wait_inv K')). unfold delay.
  apply wp_bind. eapply wp_upd_task; [done|]. set (tc1 := set_state _ _). set (K1 := set_tasks _ K).
  assert (Hinv1 : kernel_inv K1) by (by eapply inv_upd_inert).
  assert (Hne : ∀ x, x ∈ c_get TaskWaitedQ (oq K) → x ≠ t).
  { intros x Hx ->. rewrite c_linked_false in Hl. by apply (Hl TaskWaitedQ). }
  assert (Ew : waited K1 = waited K).
  { unfold waited. apply view_ext. intros x Hx. apply wt_insert_ne, Hne, Hx. }
  assert (Hw1 : wait_inv K1).
  { split.
    - intros x Hx. simpl. rewrite lookup_insert_ne by (symmetry; by apply Hne). by apply (wi_task _ Hw).
    - rewrite Ew. apply Hw.
    - intros w q x xc Hq Hx. simpl. destruct (decide (x = t)) as [->|Hxt].
      + rewrite lookup_insert_eq. intros [= <-]. exact (wi_queue _ Hw w q t tc Hq Hx Ht).
      + rewrite lookup_insert_ne by done. exact (wi_queue _ Hw w q x xc Hq Hx). }
  eapply wp_mono; [apply (insert_waited_run K1 t tc1 Hinv1 Hw1); try done; apply lookup_insert_eq|].
  by intros [] K' (? & ? & _).
Qed.

Lemma delay_inv : kernel_inv delay_kernel ∧ wait_inv delay_kernel.
Proof.
  unfold delay_kernel.
  assert (Hs : ∀ K t d, kernel_inv K ∧ wait_inv K → is_Some (tasks K !! t) →
    default true (ready <$> tasks K !! t) = false → c_linked t (oq K) = false → 0 ≤ d < 2 ^ 32 →
    kernel_inv (after (delay t d) K) ∧ wait_inv (after (delay t d) K)).
  { intros K t d [Hi Hw] [tc Ht] Hr. rewrite Ht in Hr. by eapply delay_step. }
  do 3 (apply Hs; [|vm_compute; eexists; reflexivity|vm_compute; reflexivity|vm_compute; reflexivity|lia]).
  split; [apply demo_inv|apply demo_wait].
Qed.

Lemma insert_waited_correct_witness :
  ∃ K', ttosInsertWaitedTask 4 (after (delay 2 7) demo_kernel) = Some (tt, K') ∧
    deadlines (waited K') = [(4%nat, 0); (2%nat, 7)].
Proof.
  assert (Hd : kernel_inv (after (delay 2 7) demo_kernel) ∧ wait_inv (after (delay 2 7) demo_kernel)).
  { apply (delay_step demo_kernel 2 (mk_task 0 10 None None)); [apply demo_inv|apply demo_wait|..|lia];
      vm_compute; reflexivity. }
  destruct Hd as [Hi Hw].
  destruct (insert_waited_correct _ 4 (mk_task 0 20 (Some 0%nat) None) Hi Hw)
    as (K' & Hr & _ & _ & _ & _ & _ & Ed); [vm_compute; reflexivity..|simpl; lia|].
  exists K'. split; [exact Hr|]. rewrite Ed. vm_compute. reflexivity.
Defined.

Lemma exact_waited_correct_witness :
  ∃ K', ttosExactWaitedTask 3 delay_kernel = Some (tt, K') ∧
    deadlines (waited K') = [(2%nat, 7); (4%nat, 7)].
Proof.
  destruct delay_inv as [Hi Hw].
  destruct (exact_waited_correct delay_kernel 3 Hi Hw) as (K' & Hr & _ & _ & _ & _ & _ & Ed).
  - change (3%nat ∈ [3%nat; 2%nat; 4%nat]). left.
  - exists K'. split; [exact Hr|]. rewrite Ed. vm_compute. reflexivity.
Defined.

Lemma tick_notify_correct_witness :
  ∃ K', ttosTickNotify 4 5 delay_kernel = Some (tt, K') ∧
    deadlines (waited K') = [(2%nat, 2); (4%nat, 2)] ∧
    ∃ tc, tasks K' !! 3%nat = Some tc ∧ ready tc = true.
Proof.
  destruct delay_inv as [Hi Hw].
  destruct (tick_notify_correct delay_kernel 5 4 Hi Hw) as (K' & Hr & _ & _ & _ & Ed & _ & Hwk & _).
  - lia.
  - vm_compute. lia.
  - exists K'. split; [exact Hr|]. split; [rewrite Ed; vm_compute; reflexivity|].
    destruct (Hwk 3%nat) as (tc & tc' & Ht & Ht' & Hk).
    + change (3%nat ∈ [3%nat]). left.
    + exists tc'. split; [exact Ht'|]. rewrite (wk_ready _ _ Hk).
      assert (E : tasks delay_kernel !! 3%nat =
        Some (set_state TTOS_TASK_DELAYING (set_waitedTicks 3 (mk_task 0 20 (Some 0%nat) None))))
        by (vm_compute; reflexivity).
      rewrite E in Ht. injection Ht as <-. vm_compute. reflexivity.
Defined.

(** ** What [TTOS_SleepTask] returns *)

(** Task 3 runs on CPU 0 with [code] left in its wait block by an earlier
    wait, sleeps five ticks, is woken by the tick and runs again. *)
Definition sleep_run (code : retcode) : M kernel (retcode * list tid) :=
  _ ← upd_task 3 (upd_wait (set_returnCode code));
  _ ← TTOS_SleepTask 5;
  asleep ← gets (λ K, c_get TaskWaitedQ (oq K));
  _ ← ttosTickNotify 2 5;
  r ← TTOS_SleepTask_result 3;
  mret (r, asleep).

(** An undisturbed sleep returns whatever code the task's previous wait
    left: [TTOS_SleepTask] does not reset [wait.returnCode], and a tick writes
    it only for blocked tasks, so after a semaphore wait that timed out a
    complete sleep answers [TTOS_TIMEOUT], where its comment promises
    [TTOS_OK]. *)
Theorem sleep_returns_stale_code code :
  fst <$> sleep_run code busy_kernel = Some (code, [3%nat]).
Proof. by destruct code; vm_compute. Qed.
