(* ===== verification/Block.v ===== *)
(** * Blocking on a wait queue and leaving it

    The wait queues, the tick queue and the ready queues together: the invariant
    that ties them, and what [ttosEnqueueTaskqEx] and [ttosDequeueTaskq] do to
    all three.  The services that block ([Sema]) are proved on top of these. *)

From S2P Require Import Prelude Chain PrioMap DeltaQ Kernel Sched Frame SchedInv Dispatch SchedProps Service Wait WaitInv.
Import Width.
Local Open Scope Z_scope.

(** ** The invariant of the wait queues *)

(** A queued task is not ready, records the queue it is on, and its object node
    is on no list but the tick queue. *)
Record wq_inv (K : kernel) : Prop := {
  wq_nodup : ∀ w q, wqs K !! w = Some q → NoDup (wq_tasks q);
  wq_member : ∀ w q t, wqs K !! w = Some q → t ∈ wq_tasks q →
    ∃ tc, tasks K !! t = Some tc ∧ ready tc = false ∧ wait_queue (wait tc) = Some w;
  wq_apart : ∀ w q t o, wqs K !! w = Some q → t ∈ wq_tasks q → o ≠ TaskWaitedQ →
    t ∉ c_get o (oq K);
}.

(** The three queue structures between two kernel calls. *)
Record block_inv (K : kernel) : Prop := {
  bi_sched : kernel_inv K;
  bi_wait : wait_inv K;
  bi_wqs : wq_inv K;
}.

(** The queue of [w] after [t] joined it. *)
Definition joined (K : kernel) (q : wqueue) (t : tid) : wqueue :=
  set_wq_tasks (if wq_fifo q then wq_tasks q ++ [t] else pri_insert (cur_pri K) t (wq_tasks q)) q.

Definition blocked_state (q : wqueue) (is_interruptible : bool) : Z :=
  if is_interruptible then set_flag TTOS_TASK_INTERRUPTIBLE_BY_SIGNAL (wq_state q)
  else clear_flag TTOS_TASK_INTERRUPTIBLE_BY_SIGNAL (wq_state q).

(** Every task but [t] keeps its control block, up to the delta of the tick queue. *)
Definition only_wt_but (t : tid) (K K' : kernel) : Prop :=
  ∀ x, x ≠ t → option_Forall2 same_but_wt (tasks K !! x) (tasks K' !! x).

(** What blocking [t] on [w] does. *)
Record blocked (t : tid) (w : wqid) (ticks : Z) (intr : bool) (tc : tcb) (q : wqueue) (K K' : kernel) : Prop := {
  bl_inv : block_inv K';
  bl_env : env K' = env K;
  bl_task : ∃ v, tasks K' !! t = Some (set_waitedTicks v
    (upd_wait (set_wait_queue (Some w)) (set_state (blocked_state q intr) tc)));
  bl_rest : only_wt_but t K K';
  bl_wqs : wqs K' = <[w := joined K q t]> (wqs K);
  bl_waited : waited K' = if ticks =? TTOS_WAIT_FOREVER then waited K
                          else d_insert true t ticks (waited K);
  bl_oq : ∀ o x, o ≠ TaskWaitedQ → x ∈ c_get o (oq K') ↔ x ≠ t ∧ x ∈ c_get o (oq K);
}.

(** What waking the first task [t] of [w] does. *)
Record released (t : tid) (xs : list tid) (w : wqid) (tc : tcb) (q : wqueue) (K K' : kernel) : Prop := {
  re_inv : block_inv K';
  re_env : env K' = env K;
  re_task : ∃ tc', tasks K' !! t = Some tc' ∧ wait tc' = set_wait_queue None (wait tc) ∧
    flag_on TTOS_TASK_WAITING (state tc') = false ∧
    ready tc' = negb (flag_on TTOS_TASK_NONRUNNING_STATE (clear_flag TTOS_TASK_WAITING (state tc))) ∧
    flag_on TTOS_TASK_NONRUNNING_STATE (state tc') = negb (ready tc') ∧ smpInfo tc' = smpInfo tc ∧
    resourceCount tc' = resourceCount tc;
  re_rest : only_wt_but t K K';
  re_wqs : wqs K' = <[w := set_wq_tasks xs q]> (wqs K);
  re_waited : waited K' = d_extract t (waited K);
  re_unl : ∀ c, (c < ncpus K)%nat → running_unlinked c K → running_unlinked c K';
}.

(** ** Frames of the queue operations *)

#[export] Instance keeps_add_before t n q : Keeps (obj_add_before t n q).
Proof. unfold obj_add_before. apply _. Qed.

#[export] Instance keeps_insert_from nodes t : Keeps (insert_waited_from nodes t).
Proof. induction nodes; simpl; apply _. Qed.

#[export] Instance keeps_insert_waited t : Keeps (ttosInsertWaitedTask t).
Proof. unfold ttosInsertWaitedTask. apply _. Qed.

#[export] Instance keeps_exact_waited t : Keeps (ttosExactWaitedTask t).
Proof. unfold ttosExactWaitedTask. apply _. Qed.

(** ** Small steps *)

Lemma member_links K w q t o : wq_inv K → wqs K !! w = Some q → t ∈ wq_tasks q →
  t ∈ c_get o (oq K) → o = TaskWaitedQ.
Proof. intros Hq Hw Hin Hl. apply dec_stable. intros Hne. by eapply wq_apart. Qed.

(** A ready task is on no wait queue. *)
Lemma ready_not_queued K t tc : wq_inv K → tasks K !! t = Some tc → ready tc = true →
  ∀ w q, wqs K !! w = Some q → t ∉ wq_tasks q.
Proof.
  intros Hq Ht Hr w q Hw Hin. destruct (wq_member _ Hq w q t Hw Hin) as (tc0 & ? & ? & _). congruence.
Qed.

Lemma wq_linked_false t K : wq_linked t K = false ↔ ∀ w q, wqs K !! w = Some q → t ∉ wq_tasks q.
Proof.
  unfold wq_linked. rewrite bool_decide_eq_false. split.
  - intros Hno w q Hw Hin. apply Hno, list_elem_of_In, in_concat. exists (wq_tasks q).
    split; [|by apply list_elem_of_In]. apply list_elem_of_In, list_elem_of_fmap. exists q. split; [done|].
    apply list_elem_of_fmap. exists (w, q). split; [done|]. by apply elem_of_map_to_list.
  - intros Hno Hin. apply list_elem_of_In, in_concat in Hin as (ys & Hys & Hin).
    apply list_elem_of_In, list_elem_of_fmap in Hys as (q & -> & Hq).
    apply list_elem_of_fmap in Hq as ([w q'] & -> & Hm). apply elem_of_map_to_list in Hm.
    apply (Hno w q' Hm). by apply list_elem_of_In.
Qed.

(** Changing the control block of a task that is on no queue. *)
Lemma wait_inv_upd K K' t tc' : wait_inv K →
  c_get TaskWaitedQ (oq K') = c_get TaskWaitedQ (oq K) → wqs K' = wqs K →
  tasks K' = <[t := tc']> (tasks K) → t ∉ c_get TaskWaitedQ (oq K) →
  (∀ w q, wqs K !! w = Some q → t ∉ wq_tasks q) → wait_inv K' ∧ waited K' = waited K.
Proof.
  intros Hw Eo Eq Et Hn Hq.
  assert (Hne : ∀ x, x ∈ c_get TaskWaitedQ (oq K) → t ≠ x) by (by intros x Hx ->).
  assert (Ew : waited K' = waited K).
  { unfold waited. rewrite Eo. apply view_ext. intros x Hx. unfold wt.
    by rewrite Et, lookup_insert_ne by (by apply Hne). }
  split; [split|done].
  - intros x. rewrite Eo, Et. intros Hx. rewrite lookup_insert_ne by (by apply Hne). by apply (wi_task _ Hw).
  - rewrite Ew. apply Hw.
  - intros w q x xc. rewrite Eq, Et. intros Hwq Hx.
    rewrite lookup_insert_ne; [by apply (wi_queue _ Hw w q)|]. intros <-. by apply (Hq w q).
Qed.

Lemma only_wt_wait_queue K K' x tc' : only_wt K K' → tasks K' !! x = Some tc' →
  ∃ tc, tasks K !! x = Some tc ∧ tc' = set_waitedTicks (waitedTicks tc') tc.
Proof.
  intros Ho Ht. specialize (Ho x). rewrite Ht in Ho. inversion Ho as [a b Hab E1 E2|]; subst. by exists a.
Qed.

Lemma pri_insert_perm pri t xs : pri_insert pri t xs ≡ₚ t :: xs.
Proof.
  induction xs as [|x xs IH]; simpl; [done|]. destruct (pri x <=? pri t); [|done].
  rewrite IH. by rewrite Permutation_swap.
Qed.

Lemma pri_insert_ext f g t xs : (∀ x, f x = g x) → pri_insert f t xs = pri_insert g t xs.
Proof. intros E. induction xs as [|x xs IH]; simpl; [done|]. by rewrite !E, IH. Qed.

Lemma joined_perm K q t : wq_tasks (joined K q t) ≡ₚ t :: wq_tasks q.
Proof.
  unfold joined. simpl. destruct (wq_fifo q); [|apply pri_insert_perm]. by rewrite Permutation_app_comm.
Qed.

Lemma flag_on_set_ne m m' s : Z.land m' m = 0 → flag_on m (set_flag m' s) = flag_on m s.
Proof.
  intros Hd. unfold flag_on, set_flag. by rewrite Z.land_lor_distr_l, Hd, Z.lor_0_r.
Qed.

Lemma blocked_not_ready q intr : flag_on TTOS_TASK_READY (wq_state q) = false →
  flag_on TTOS_TASK_READY (blocked_state q intr) = false.
Proof.
  intros Hr. unfold blocked_state. destruct intr; [by rewrite flag_on_set_ne|by rewrite flag_on_clear_ne].
Qed.

(** ** Blocking *)

Section Enqueue.
Context (K : kernel) (t : tid) (tc : tcb) (w : wqid) (q : wqueue) (intr : bool).
Hypothesis Hinv : block_inv K.
Hypothesis Ht : tasks K !! t = Some tc.
Hypothesis Hr : ready tc = true.
Hypothesis Hni : not_idle t K.
Hypothesis Hunl : queued_kind tc = false → c_linked t (oq K) = false.
Hypothesis Hw : wqs K !! w = Some q.
Hypothesis Hst : flag_on TTOS_TASK_READY (wq_state q) = false.

Let tc1 := upd_wait (set_wait_queue (Some w)) (set_state (blocked_state q intr) tc).

(** The task off the ready queues, with its new state, on no list yet. *)
Record prepared (K' : kernel) : Prop := {
  pr_inv : kernel_inv K';
  pr_wait : wait_inv K';
  pr_env : env K' = env K;
  pr_wqs : wqs K' = wqs K;
  pr_tasks : tasks K' = <[t := tc1]> (tasks K);
  pr_waited : waited K' = waited K;
  pr_off : c_linked t (oq K') = false;
  pr_oq : ∀ o x, x ∈ c_get o (oq K') ↔ x ≠ t ∧ x ∈ c_get o (oq K);
}.

Lemma prepare_run (k : M kernel unit) Φ : (∀ K', prepared K' → wp k K' Φ) →
  wp (_ ← ttosClearTaskReady t;
      q ← get_wq w;
      _ ← upd_task t (set_state (wq_state q));
      _ ← upd_task t (λ tc, set_state
            (if intr then set_flag TTOS_TASK_INTERRUPTIBLE_BY_SIGNAL (state tc)
             else clear_flag TTOS_TASK_INTERRUPTIBLE_BY_SIGNAL (state tc)) tc);
      _ ← upd_task t (upd_wait (set_wait_queue (Some w)));
      k) K Φ.
Proof.
  intros Hk. destruct Hinv as [Hi Hwt Hq]. apply wp_bind.
  pose proof (clear_ready_run K t tc tc Hi Ht Hr Hni eq_refl eq_refl) as Hwp.
  rewrite insert_id, set_tasks_same in Hwp by done.
  apply (wp_pres (λ K K', env K' = env K)) in Hwp; [|apply _].
  apply (wp_pres (λ K K', wqs K' = wqs K)) in Hwp; [|apply _].
  eapply wp_mono; [exact Hwp|]. intros [] K1 (((Hi1 & Et1 & _ & _ & Eo1) & He1) & Ew1).
  apply wp_bind. unfold get_wq. unfold wp at 1. rewrite Ew1, Hw. simpl.
  assert (Ht1 : tasks K1 !! t = Some (made_unready tc)) by (rewrite Et1; apply lookup_insert_eq).
  do 3 (apply wp_bind; eapply wp_upd_task; [first [exact Ht1|apply lookup_insert_eq]|]; simpl).
  apply Hk. clear Hk Hwp.
  assert (Hoff : c_linked t (oq K1) = false).
  { rewrite Eo1. destruct (queued_kind tc) eqn:Hqk; [apply c_linked_delete|by apply Hunl]. }
  assert (Hoq : ∀ o x, x ∈ c_get o (oq K1) ↔ x ≠ t ∧ x ∈ c_get o (oq K)).
  { intros o x. rewrite Eo1. destruct (queued_kind tc) eqn:Hqk; [rewrite elem_of_c_delete; naive_solver|].
    specialize (Hunl eq_refl). rewrite c_linked_false in Hunl. specialize (Hunl o).
    destruct (decide (x = t)) as [->|]; naive_solver. }
  set (K2 := set_tasks _ _).
  assert (Et2 : tasks K2 = <[t := tc1]> (tasks K)).
  { simpl. rewrite Et1, !insert_insert_eq. unfold tc1, blocked_state. by destruct intr. }
  assert (Hnt : t ∉ c_get TaskWaitedQ (oq K)).
  { intros Hin. destruct (wi_task _ Hwt t Hin) as (? & ? & ? & _). congruence. }
  assert (Etw : c_get TaskWaitedQ (oq K1) = c_get TaskWaitedQ (oq K)).
  { rewrite Eo1. destruct (queued_kind tc); [by apply c_get_delete_fresh|done]. }
  destruct (wait_inv_upd K K2 t tc1 Hwt Etw Ew1 Et2 Hnt (ready_not_queued K t tc Hq Ht Hr)) as [Hw2 Ewt2].
  split; try done.
  assert (E2 : K2 = set_tasks (<[t := tc1]> (tasks K1)) K1).
  { unfold K2. simpl. by rewrite !insert_insert_eq. }
  rewrite E2. eapply inv_upd_inert; [done|exact Ht1|done..| |done].
  unfold ready. simpl. rewrite blocked_not_ready by done. symmetry. by apply flag_on_clear.
Qed.

(** The task's place on the tick queue, when the wait has a limit. *)
Record timed (ticks : Z) (K' : kernel) : Prop := {
  td_inv : kernel_inv K';
  td_wait : wait_inv K';
  td_env : env K' = env K;
  td_wqs : wqs K' = wqs K;
  td_task : ∃ v, tasks K' !! t = Some (set_waitedTicks v tc1);
  td_rest : only_wt_but t K K';
  td_waited : waited K' = if ticks =? TTOS_WAIT_FOREVER then waited K
                          else d_insert true t ticks (waited K);
  td_oq : ∀ o x, o ≠ TaskWaitedQ → x ∈ c_get o (oq K') ↔ x ≠ t ∧ x ∈ c_get o (oq K);
}.

Lemma only_wt_but_upd tc' : only_wt_but t K (set_tasks (<[t := tc']> (tasks K)) K).
Proof.
  intros x Hx. simpl. rewrite lookup_insert_ne by done.
  destruct (tasks K !! x); constructor. apply same_but_wt_refl.
Qed.

Lemma timed_run K1 ticks : prepared K1 → 0 ≤ ticks < 2 ^ 32 →
  wp (whenM (negb (ticks =? TTOS_WAIT_FOREVER)) (
    _ ← upd_task t (set_waitedTicks ticks); ttosInsertWaitedTask t)) K1 (λ _ K', timed ticks K').
Proof.
  intros [Hi1 Hw1 He1 Eq1 Et1 Ew1 Hoff Ho1] Hk.
  assert (Hrest : only_wt_but t K K1).
  { intros x Hx. rewrite Et1, lookup_insert_ne by done. destruct (tasks K !! x); constructor.
    apply same_but_wt_refl. }
  assert (Ht1 : tasks K1 !! t = Some tc1) by (rewrite Et1; apply lookup_insert_eq).
  assert (Hr1 : ready tc1 = false) by (unfold ready; by apply blocked_not_ready).
  apply wp_when; intros Hf.
  - rewrite negb_true_iff in Hf. apply wp_bind. eapply wp_upd_task; [done|].
    set (K2 := set_tasks _ K1). rewrite c_linked_false in Hoff.
    assert (Hnq : ∀ w q, wqs K1 !! w = Some q → t ∉ wq_tasks q).
    { rewrite Eq1. by apply (ready_not_queued K t tc (bi_wqs _ Hinv)). }
    destruct (wait_inv_upd K1 K2 t (set_waitedTicks ticks tc1)) as [Hw2 Ew2]; try done.
    eapply wp_mono.
    + apply (wp_pres (λ K K', env K' = env K)); [apply _|].
      apply (insert_waited_run K2 t (set_waitedTicks ticks tc1)); try done.
      * by eapply inv_upd_wt.
      * apply lookup_insert_eq.
      * by apply c_linked_false.
    + intros [] K3 ((Hi3 & Hw3 & Ho3 & Hoc3 & Eq3 & Ewt3) & He3). split; try done.
      * by rewrite He3.
      * by rewrite Eq3.
      * destruct (only_wt_lookup _ _ t _ Ho3 (lookup_insert_eq _ _ _)) as (tc' & Ht' & E'). rewrite E' in Ht'.
        by exists (waitedTicks tc').
      * intros x Hx. specialize (Ho3 x). simpl in Ho3. rewrite lookup_insert_ne in Ho3 by done.
        rewrite Et1, lookup_insert_ne in Ho3 by done. done.
      * by rewrite Hf, Ewt3, Ew2, Ew1.
      * intros o x Hne. rewrite (Hoc3 o Hne). apply Ho1.
  - apply negb_false_iff in Hf. split; try done.
    + exists (waitedTicks tc1). rewrite Ht1. by destruct tc.
    + by rewrite Hf.
Qed.

Lemma join_inv K2 ticks : timed ticks K2 → block_inv (set_wqs (<[w := joined K q t]> (wqs K)) K2).
Proof.
  intros [Hi Hwt He Eq [v Ht2] Hrest Ewt Ho]. destruct Hinv as [Hki Hkw Hq].
  assert (Hin : ∀ w' q' x, <[w := joined K q t]> (wqs K) !! w' = Some q' → x ∈ wq_tasks q' →
    (x = t ∧ w' = w) ∨ x ≠ t ∧ ∃ q0, wqs K !! w' = Some q0 ∧ x ∈ wq_tasks q0).
  { intros w' q' x Hq' Hx. assert (Hnt := ready_not_queued K t tc Hq Ht Hr).
    apply lookup_insert_Some in Hq' as [[<- <-]|[Hne Hq']].
    - rewrite joined_perm in Hx. apply elem_of_cons in Hx as [->|Hx]; [by left|].
      right. split; [|by exists q]. intros ->. by apply (Hnt w q).
    - right. split; [|by exists q']. intros ->. by apply (Hnt w' q'). }
  assert (Hmem : ∀ w' q' x, <[w := joined K q t]> (wqs K) !! w' = Some q' → x ∈ wq_tasks q' →
    ∃ xc, tasks K2 !! x = Some xc ∧ ready xc = false ∧ wait_queue (wait xc) = Some w').
  { intros w' q' x Hq' Hx. destruct (Hin w' q' x Hq' Hx) as [[-> ->]|(Hne & q0 & Hq0 & Hx0)].
    - eexists. split; [exact Ht2|]. split; [|done]. unfold ready. by apply blocked_not_ready.
    - destruct (wq_member _ Hq w' q0 x Hq0 Hx0) as (xc & Hxc & Hxr & Hxq).
      specialize (Hrest x Hne). rewrite Hxc in Hrest. inversion Hrest as [a b Hab E1 E2|]; subst.
      exists b. split; [done|]. by rewrite Hab. }
  split; [by apply inv_set_wqs|split|split].
  - apply (wi_task _ Hwt).
  - apply (wi_bound _ Hwt).
  - intros w' q' x xc Hq' Hx Hxc. destruct (Hmem w' q' x Hq' Hx) as (xc' & Hxc' & _ & E).
    simpl in Hxc. simplify_eq. by rewrite E.
  - intros w' q' Hq'. simpl in Hq'. apply lookup_insert_Some in Hq' as [[<- <-]|[_ Hq']]; [|by apply (wq_nodup _ Hq w')].
    rewrite joined_perm. apply NoDup_cons. split; [by apply (ready_not_queued K t tc Hq Ht Hr w)|].
    by apply (wq_nodup _ Hq w).
  - exact Hmem.
  - intros w' q' x o Hq' Hx Hne Hox. simpl in Hox. apply (Ho o x Hne) in Hox as [Hxt Hox].
    destruct (Hin w' q' x Hq' Hx) as [[-> _]|(_ & q0 & Hq0 & Hx0)]; [done|].
    by apply (wq_apart _ Hq w' q0 x o).
Qed.

(** The end of [ttosEnqueueTaskqEx]: the task joins the queue. *)
Lemma join_run K2 ticks : timed ticks K2 →
  wp (wq_enqueue w t) K2 (λ _ K', blocked t w ticks intr tc q K K').
Proof.
  intros [Hi Hwt He Eq [v Ht2] Hrest Ewt Ho]. pose proof (bi_wqs _ Hinv) as Hq.
  unfold wq_enqueue. apply wp_bind. unfold get_wq, wp at 1. rewrite Eq, Hw. simpl.
  apply wp_bind, wp_gets, wp_bind, wp_assert.
  { rewrite (proj2 (wq_linked_false t K2)); [done|]. rewrite Eq. by apply (ready_not_queued K t tc). }
  apply wp_bind, wp_gets, wp_bind.
  assert (Hpri : ∀ x, cur_pri K2 x = cur_pri K x).
  { intros x. unfold cur_pri. destruct (decide (x = t)) as [->|Hx]; [by rewrite Ht2, Ht|].
    specialize (Hrest x Hx). destruct Hrest as [a b Hab|]; [|done]. simpl. by rewrite Hab. }
  assert (Hjoin : wp (set_wq w (if wq_fifo q then wq_tasks q ++ [t] else pri_insert (cur_pri K2) t (wq_tasks q)))
    K2 (λ _ K', blocked t w ticks intr tc q K K')).
  { unfold set_wq, wp. rewrite Eq, Hw. simpl.
    assert (Ej : set_wq_tasks (if wq_fifo q then wq_tasks q ++ [t] else pri_insert (cur_pri K2) t (wq_tasks q)) q
      = joined K q t) by (unfold joined; by rewrite (pri_insert_ext _ _ t _ Hpri)).
    rewrite Ej. split; try done; [|by exists v]. apply (join_inv K2 ticks). split; try done. by exists v. }
  apply wp_when; intros Hf.
  - eapply wp_upd_task; [done|]. replace (set_tasks _ K2) with K2; [done|].
    rewrite <- (set_tasks_same K2) at 1. f_equal. symmetry. apply insert_id. rewrite Ht2. by destruct tc.
  - done.
Qed.

(** [ttosEnqueueTaskqEx]: a ready task leaves the ready queues, joins the wait
    queue in its place and, for a limited wait, the tick queue. *)
Lemma enqueue_run ticks : 0 ≤ ticks < 2 ^ 32 →
  wp (ttosEnqueueTaskqEx t w ticks intr) K (λ _ K', blocked t w ticks intr tc q K K').
Proof.
  intros Hk. unfold ttosEnqueueTaskqEx. apply prepare_run. intros K1 H1. apply wp_bind.
  eapply wp_mono; [by apply timed_run|]. intros [] K2 H2. by apply join_run.
Qed.

End Enqueue.

(** ** Waking *)

Section Dequeue.
Context (K : kernel) (t : tid) (xs : list tid) (tc : tcb) (w : wqid) (q : wqueue).
Hypothesis Hinv : block_inv K.
Hypothesis Hw : wqs K !! w = Some q.
Hypothesis Hhd : wq_tasks q = t :: xs.
Hypothesis Ht : tasks K !! t = Some tc.

Let K0 := set_wqs (<[w := set_wq_tasks xs q]> (wqs K)) K.

(** The queues without their first task. *)
Lemma left_sub w' q' x : wqs K0 !! w' = Some q' → x ∈ wq_tasks q' →
  x ≠ t ∧ ∃ q0, wqs K !! w' = Some q0 ∧ x ∈ wq_tasks q0.
Proof.
  destruct Hinv as [_ _ Hq]. intros Hq' Hx.
  assert (Hnd := wq_nodup _ Hq w q Hw). rewrite Hhd in Hnd. apply NoDup_cons in Hnd as [Hnt _].
  assert (Htq : t ∈ wq_tasks q) by (rewrite Hhd; left).
  simpl in Hq'. apply lookup_insert_Some in Hq' as [[<- <-]|[Hne Hq']].
  - split; [by intros ->|]. exists q. split; [done|]. rewrite Hhd. by right.
  - split; [|by exists q']. intros ->.
    destruct (wq_member _ Hq w q t Hw Htq) as (c1 & ? & _ & E1).
    destruct (wq_member _ Hq w' q' t Hq' Hx) as (c2 & ? & _ & E2). congruence.
Qed.

Lemma left_wait : wait_inv K0.
Proof.
  destruct Hinv as [_ Hwt _]. split; [apply (wi_task _ Hwt)|apply (wi_bound _ Hwt)|].
  intros w' q' x xc Hq' Hx. destruct (left_sub w' q' x Hq' Hx) as (_ & q0 & Hq0 & Hx0).
  exact (wi_queue _ Hwt w' q0 x xc Hq0 Hx0).
Qed.

Lemma head_member : ready tc = false ∧ wait_queue (wait tc) = Some w ∧
  ∀ o, o ≠ TaskWaitedQ → t ∉ c_get o (oq K).
Proof.
  destruct Hinv as [_ _ Hq]. assert (Htq : t ∈ wq_tasks q) by (rewrite Hhd; left).
  destruct (wq_member _ Hq w q t Hw Htq) as (c1 & ? & ? & ?). simplify_eq. split_and!; [done..|].
  intros o Hne. by apply (wq_apart _ Hq w q t o).
Qed.

(** Off the tick queue, when the wait had a limit. *)
Record untimed (K' : kernel) : Prop := {
  ut_inv : kernel_inv K';
  ut_wait : wait_inv K';
  ut_env : env K' = env K;
  ut_only : only_wt K K';
  ut_oq : other_chains K K';
  ut_wqs : wqs K' = wqs K0;
  ut_off : c_linked t (oq K') = false;
  ut_waited : waited K' = d_extract t (waited K);
}.

Lemma untimed_run :
  wp (b ← gets (λ K, c_linked t (oq K)); whenM b (ttosExactWaitedTask t)) K0 (λ _ K', untimed K').
Proof.
  destruct head_member as (Hr & Hwq & Hap). destruct Hinv as [Hi Hwt Hq].
  assert (Hi0 : kernel_inv K0) by (by apply inv_set_wqs). assert (Hw0 := left_wait).
  apply wp_bind, wp_gets. change (oq K0) with (oq K). apply wp_when; intros Hl.
  - assert (Hin : t ∈ c_get TaskWaitedQ (oq K)).
    { apply c_linked_spec in Hl as [o Ho]. destruct (decide (o = TaskWaitedQ)) as [->|Hne]; [done|].
      by apply Hap in Ho. }
    eapply wp_mono.
    + apply (wp_pres (λ K K', env K' = env K)); [apply _|]. by apply (exact_waited_run K0 t).
    + intros [] K1 ((Hi1 & Hw1 & Ho1 & Hoc1 & Eq1 & Hl1 & Ewt1) & He1). by split.
  - split; try done; [exact (only_wt_refl K)|]. change (waited K0) with (waited K).
    rewrite extract_fresh; [done|]. rewrite waited_ids. rewrite c_linked_false in Hl. apply Hl.
Qed.

(** The chains after the task was made ready. *)
Definition requeued (K1 K2 : kernel) : Prop :=
  oq K2 = oq K1 ∨ queued_kind tc = true ∧ oq K2 = c_add_tail t (RQ (affCpu tc) (taskCurPriority tc)) (oq K1).

Lemma requeued_ne K1 K2 x o : requeued K1 K2 → x ≠ t → x ∈ c_get o (oq K2) ↔ x ∈ c_get o (oq K1).
Proof.
  intros [->|[_ ->]] Hne; [done|]. change (c_add_tail t) with (c_put false t).
  rewrite elem_of_c_put. naive_solver.
Qed.

Lemma released_unl K1 K2 c tc' : untimed K1 → requeued K1 K2 → env K2 = env K →
  tasks K2 !! t = Some tc' → smpInfo tc' = smpInfo tc →
  only_wt_but t K K2 → (c < ncpus K)%nat → running_unlinked c K → running_unlinked c K2.
Proof.
  intros [Hi1 Hw1 He1 Ho1 Hoc1 Eq1 Hoff1 Ew1] Hrq He Ht' Hs Hrest Hc Hunl r rc Hrun Hrc Ha Hr.
  injection He as Er _ _ _ _ _ _ _. rewrite Er in Hrun. destruct (decide (r = t)) as [->|Hne].
  - simplify_eq. assert (Hon : onCpu tc = Some c).
    { destruct Hinv as [Hi _ _]. destruct (si_run _ _ Hi c Hc) as (? & ? & ? & ? & ?). by simplify_eq. }
    destruct Hrq as [->|[Hq _]]; [done|]. unfold queued_kind in Hq. unfold affCpu in Ha. rewrite Hs in Ha.
    fold (affCpu tc) in Ha. by rewrite Ha, Hon in Hq.
  - specialize (Hrest r Hne). rewrite Hrc in Hrest. inversion Hrest as [a b Hab E1 E2|]; subst.
    rewrite Hab in Ha, Hr. specialize (Hunl r a Hrun (eq_sym E1) Ha Hr).
    rewrite c_linked_false in Hunl |- *. intros o Ho. apply (requeued_ne K1 K2) in Ho; [|done..].
    destruct (decide (o = TaskWaitedQ)) as [->|Hno]; [|rewrite (Hoc1 o Hno) in Ho; by apply (Hunl o)].
    apply (Hunl TaskWaitedQ). rewrite <- waited_ids in Ho |- *. rewrite Ew1 in Ho. by eapply extract_sub.
Qed.

(** Every queue but [w] is as before, and the invariant holds of what is left. *)
Lemma left_inv K1 K2 tc' : untimed K1 → kernel_inv K2 → wqs K2 = wqs K0 →
  tasks K2 = <[t := tc']> (tasks K1) → c_get TaskWaitedQ (oq K2) = c_get TaskWaitedQ (oq K1) →
  requeued K1 K2 → block_inv K2 ∧ waited K2 = d_extract t (waited K) ∧ only_wt_but t K K2.
Proof.
  intros [Hi1 Hw1 He1 Ho1 Hoc1 Eq1 Hoff1 Ew1] Hi2 Eq2 Et2 Etw Hrq. destruct Hinv as [_ _ Hq].
  destruct (wait_inv_upd K1 K2 t tc') as [Hw2 Ew2]; try done.
  - by rewrite Eq2.
  - rewrite c_linked_false in Hoff1. apply Hoff1.
  - rewrite Eq1. intros w' q' Hq' Hin. by destruct (left_sub w' q' t Hq' Hin).
  - assert (Hrest : only_wt_but t K K2).
    { intros x Hx. rewrite Et2, lookup_insert_ne by done. apply Ho1. }
    split_and!; [split; [done..|split]|by rewrite Ew2|done]; rewrite Eq2.
    + intros w' q' Hq'. simpl in Hq'. apply lookup_insert_Some in Hq' as [[<- <-]|[_ Hq']].
      * pose proof (wq_nodup _ Hq w q Hw) as Hnd. rewrite Hhd in Hnd. by apply NoDup_cons in Hnd as [_ ?].
      * by apply (wq_nodup _ Hq w').
    + intros w' q' x Hq' Hx. destruct (left_sub w' q' x Hq' Hx) as (Hne & q0 & Hq0 & Hx0).
      destruct (wq_member _ Hq w' q0 x Hq0 Hx0) as (xc & Hxc & Hxr & Hxq). specialize (Hrest x Hne).
      rewrite Hxc in Hrest. inversion Hrest as [a b Hab E1 E2|]; subst. exists b. by rewrite Hab.
    + intros w' q' x o Hq' Hx Hno Hin. destruct (left_sub w' q' x Hq' Hx) as (Hne & q0 & Hq0 & Hx0).
      apply (requeued_ne K1 K2) in Hin; [|done..]. rewrite (Hoc1 o Hno) in Hin.
      by apply (wq_apart _ Hq w' q0 x o).
Qed.

(** [ttosDequeueTaskq] on a queue with a first task: it leaves both queues and,
    if nothing else stops it, becomes ready. *)
Lemma dequeue_run :
  wp (ttosDequeueTaskq w) K (λ o K', o = Some t ∧ released t xs w tc q K K').
Proof.
  destruct head_member as (Hr & Hwq & Hap). unfold ttosDequeueTaskq, wq_dequeue.
  apply wp_bind, wp_bind. unfold get_wq, wp at 1. rewrite Hw. simpl. rewrite Hhd.
  apply wp_bind. unfold set_wq, wp at 1. rewrite Hw. simpl. apply wp_seq.
  fold K0. eapply wp_mono; [apply untimed_run|]. intros [] K1 H1.
  pose proof H1 as [Hi1 Hw1 He1 Ho1 Hoc1 Eq1 Hoff1 Ew1].
  destruct (only_wt_lookup K K1 t tc Ho1 Ht) as (tc1 & Ht1 & E1).
  assert (Hr1 : ready tc1 = false) by (by rewrite E1).
  apply wp_bind. eapply wp_mono; [by apply (clear_waiting_run K1 t tc1)|].
  intros [] K2 (Hi2 & He2 & Eq2 & Etw2 & tc2 & Et2 & _ & Hwait2 & Hfl2 & Hrd2 & Hnr2 & Hs2 & Hrc2 & Hrq2).
  apply wp_bind. eapply wp_upd_task; [rewrite Et2; apply lookup_insert_eq|].
  apply wp_ret. split; [done|]. set (tc3 := upd_wait _ tc2). set (K3 := set_tasks _ K2).
  assert (Et3 : tasks K3 = <[t := tc3]> (tasks K1)) by (simpl; by rewrite Et2, insert_insert_eq).
  assert (Hi3 : kernel_inv K3).
  { eapply inv_upd_inert; [done|rewrite Et2; apply lookup_insert_eq|done..]. }
  assert (Hrq : requeued K1 K3).
  { destruct Hrq2 as [?|[Hq ?]]; [by left|]. right. rewrite E1 in Hq. split; [done|]. simpl. by rewrite E1 in *. }
  destruct (left_inv K1 K3 tc3) as (Hb3 & Ew3 & Hrest3); try done; [by rewrite <- Eq1|].
  assert (He3 : env K3 = env K) by (etrans; [exact He2|done]).
  assert (Hs3 : smpInfo tc3 = smpInfo tc) by (simpl; by rewrite Hs2, E1).
  assert (Ht3 : tasks K3 !! t = Some tc3) by (rewrite Et3; apply lookup_insert_eq).
  split; try done.
  - exists tc3. split_and!; [done| |done| |done|done|simpl; by rewrite Hrc2, E1].
    + simpl. by rewrite Hwait2, E1.
    + change (ready tc3) with (ready tc2). by rewrite Hrd2, E1.
  - simpl. by rewrite Eq2, Eq1.
  - intros c Hc. by apply (released_unl K1 K3 c tc3).
Qed.

(** [ttosDequeueTaskFromTaskq] takes the task off the queues and leaves its state. *)
Definition taken (K' : kernel) : Prop := ∃ K1 tc1, untimed K1 ∧ tasks K1 !! t = Some tc1 ∧
  K' = set_tasks (<[t := upd_wait (λ i, set_wait_id None (set_wait_queue None i)) tc1]> (tasks K1)) K1.

Lemma take_run : wp (ttosDequeueTaskFromTaskq w) K (λ o K', o = Some t ∧ taken K').
Proof.
  unfold ttosDequeueTaskFromTaskq, wq_dequeue.
  apply wp_bind, wp_bind. unfold get_wq, wp at 1. rewrite Hw. simpl. rewrite Hhd.
  apply wp_bind. unfold set_wq, wp at 1. rewrite Hw. simpl. apply wp_seq.
  fold K0. eapply wp_mono; [apply untimed_run|]. intros [] K1 H1.
  destruct (only_wt_lookup K K1 t tc (ut_only _ H1) Ht) as (tc1 & Ht1 & _).
  apply wp_bind. eapply wp_upd_task; [done|]. apply wp_ret. split; [done|]. by exists K1, tc1.
Qed.

(** The task is made ready later. *)
Lemma wake_taken_run K' : taken K' →
  wp (ttosClearTaskWaiting t) K' (λ _ K2, released t xs w (upd_wait (set_wait_id None) tc) q K K2).
Proof.
  destruct head_member as (Hr & Hwq & Hap). intros (K1 & tc1 & H1 & Ht1 & ->).
  destruct (only_wt_lookup K K1 t tc (ut_only _ H1) Ht) as (? & ? & E1). simplify_eq.
  pose proof H1 as [Hi1 Hw1 He1 Ho1 Hoc1 Eq1 Hoff1 Ew1].
  set (tcw := upd_wait _ _). set (Kw := set_tasks _ K1).
  assert (Htw : tasks Kw !! t = Some tcw) by apply lookup_insert_eq.
  assert (Hiw : kernel_inv Kw) by (by eapply inv_upd_inert).
  assert (Hrw : ready tcw = false) by (change (ready tc1 = false); by rewrite E1).
  eapply wp_mono; [by apply (clear_waiting_run Kw t tcw)|].
  intros [] K2 (Hi2 & He2 & Eq2 & Etw2 & tc2 & Et2 & _ & Hwait2 & Hfl2 & Hrd2 & Hnr2 & Hs2 & Hrc2 & Hrq2).
  assert (Et3 : tasks K2 = <[t := tc2]> (tasks K1)) by (rewrite Et2; simpl; by rewrite insert_insert_eq).
  assert (Hrq : requeued K1 K2).
  { destruct Hrq2 as [?|[Hq ?]]; [by left|]. right. subst tcw. rewrite E1 in Hq. split; [done|]. by rewrite E1 in *. }
  destruct (left_inv K1 K2 tc2) as (Hb3 & Ew3 & Hrest3); try done; [by rewrite Eq2|].
  assert (He3 : env K2 = env K) by (etrans; [exact He2|exact He1]).
  assert (Hs3 : smpInfo tc2 = smpInfo tc) by (rewrite Hs2; subst tcw; by rewrite E1).
  assert (Ht3 : tasks K2 !! t = Some tc2) by (rewrite Et3; apply lookup_insert_eq).
  split; try done.
  - exists tc2. split_and!; [done| |done| |done|done|rewrite Hrc2; subst tcw; by rewrite E1].
    + rewrite Hwait2. subst tcw. by rewrite E1.
    + rewrite Hrd2. subst tcw. by rewrite E1.
  - by rewrite Eq2.
  - intros c Hc. by apply (released_unl K1 K2 c tc2).
Qed.

End Dequeue.

Lemma take_empty_run K w q : wqs K !! w = Some q → wq_tasks q = [] →
  ttosDequeueTaskFromTaskq w K = Some (None, K).
Proof.
  intros Hw He. unfold ttosDequeueTaskFromTaskq, wq_dequeue, get_wq. simpl. unfold mbind, M_bind. simpl.
  by rewrite Hw; simpl; rewrite He.
Qed.

Lemma dequeue_empty_run K w q : wqs K !! w = Some q → wq_tasks q = [] →
  ttosDequeueTaskq w K = Some (None, K).
Proof.
  intros Hw He. unfold ttosDequeueTaskq, wq_dequeue, get_wq. simpl. unfold mbind, M_bind. simpl.
  by rewrite Hw; simpl; rewrite He.
Qed.
