(* ===== verification/Names.v ===== *)
(** * Object names

    The string functions of [kernel/utils]: [ttosVerifyName.c], [ttosCompare.c]
    and [ttosCopy.c].  A C string is a buffer of bytes; reading or writing past
    its end is a fault ([None]). *)

From S2P Require Import Prelude.
From Stdlib Require Import Init.Byte.
Local Open Scope Z_scope.

Definition TTOS_OBJECT_NAME_LENGTH : nat := 32.
Definition TTOS_OBJECT_VERSION_LENGTH : nat := 32.

#[export] Instance byte_eq_dec : EqDecision byte.
Proof. exact Byte.byte_eq_dec. Defined.

Definition byte_val (b : byte) : Z := Z.of_N (Byte.to_N b).

(** The loop of [ttosVerifyName], [n] characters from its bound. *)
Fixpoint verify_chars (n : nat) (name : list byte) : option bool :=
  c ← head name;
  if decide (c = x00) then Some true
  else match n with
       | O => Some true
       | S n => if (byte_val c <=? 31) || (127 <=? byte_val c) then Some false
                else verify_chars n (tail name)
       end.

(** A null pointer is [None]. *)
Definition ttosVerifyName (name : option (list byte)) (length : nat) : option bool :=
  match name with
  | None => Some false
  | Some name => c ← head name; if decide (c = x00) then Some false else verify_chars length name
  end.

(** The comparison loop; [n] turns are left. *)
Fixpoint compare_from (n : nat) (name1 name2 : list byte) : option bool :=
  c1 ← head name1;
  match n with
  | S n =>
      c2 ← head name2;
      if bool_decide (c1 = x00) || bool_decide (c2 = x00) || bool_decide (c1 ≠ c2)
      then Some (bool_decide (c1 = x00) && bool_decide (c2 = x00))
      else compare_from n (tail name1) (tail name2)
  | O => if decide (c1 = x00) then c2 ← head name2; Some (bool_decide (c2 = x00)) else Some false
  end.

Definition ttosCompareName (name1 name2 : list byte) : option bool :=
  compare_from (S TTOS_OBJECT_NAME_LENGTH) name1 name2.

Definition ttosCompareVerison (version1 version2 : list byte) : option bool :=
  compare_from (S TTOS_OBJECT_VERSION_LENGTH) version1 version2.

(** The copy loop; [n] is [TTOS_OBJECT_NAME_LENGTH - cnt]. *)
Fixpoint copy_chars (n : nat) (src dest : list byte) : option (list byte) :=
  match n with
  | O => match dest with [] => None | _ :: dest => Some (x00 :: dest) end
  | S n =>
      c ← head src;
      match dest with
      | [] => None
      | _ :: dest' =>
          if decide (c = x00) then Some (x00 :: dest')
          else rest ← copy_chars n (tail src) dest'; Some (c :: rest)
      end
  end.

Definition ttosCopyName (src dest : list byte) : option (list byte) :=
  copy_chars TTOS_OBJECT_NAME_LENGTH src dest.

Definition ttosCopyVersion (src dest : list byte) : option (list byte) :=
  copy_chars TTOS_OBJECT_VERSION_LENGTH src dest.

(** The default name gives way to the running task's, [running]; the buffer of
    [name1] comes back. *)
Definition ttosChangeName (running name1 name2 : list byte) : option (list byte) :=
  same ← ttosCompareName name1 name2;
  if (same : bool) then ttosCopyName running name1 else Some name1.

(** ** Specification *)

(** The buffer holds the string [s]. *)
Definition cstr (buf s : list byte) : Prop := ∃ rest, buf = s ++ x00 :: rest ∧ x00 ∉ s.

Definition printable (c : byte) : Prop := 32 ≤ byte_val c ≤ 126.

#[export] Instance printable_dec c : Decision (printable c).
Proof. unfold printable. apply _. Defined.

Lemma cstr_cons c buf s : cstr (c :: buf) (c :: s) ↔ c ≠ x00 ∧ cstr buf s.
Proof.
  unfold cstr. split.
  - intros (rest & [= ->] & [? ?]%not_elem_of_cons). split; [done|]. by exists rest.
  - intros (Hc & rest & -> & Hs). exists rest. split; [done|]. by apply not_elem_of_cons.
Qed.

Lemma cstr_nil buf : cstr buf [] → ∃ rest, buf = x00 :: rest.
Proof. intros (rest & -> & _). by exists rest. Qed.

Lemma cstr_inv c buf s : cstr (c :: buf) s → (c = x00 ∧ s = []) ∨ (c ≠ x00 ∧ ∃ s', s = c :: s' ∧ cstr buf s').
Proof.
  intros (rest & E & Hs). destruct s as [|c' s]; simplify_eq/=; [by left|].
  apply not_elem_of_cons in Hs as [? Hs]. right. split; [done|]. exists s. split; [done|]. by exists rest.
Qed.

Lemma verify_chars_run n : ∀ buf s, cstr buf s →
  verify_chars n buf = Some (bool_decide (Forall printable (take n s))).
Proof.
  induction n as [|n IH]; intros [|c buf] s Hc; [by destruct Hc as ([] & ? & _); destruct s|..];
    try (by destruct Hc as ([] & ? & _); destruct s); destruct (cstr_inv _ _ _ Hc) as [[-> ->]|(Hne & s' & -> & Hs)];
    simpl; rewrite ?decide_False by done; try done.
  destruct ((byte_val c <=? 31) || (127 <=? byte_val c)) eqn:Hp.
  - rewrite bool_decide_false; [done|]. intros [[? ?] _]%Forall_cons.
    apply orb_true_iff in Hp as [Hp|Hp]; lia.
  - apply orb_false_iff in Hp as [Hl%Z.leb_gt Hg%Z.leb_gt]. rewrite (IH _ _ Hs). f_equal.
    apply bool_decide_ext. rewrite Forall_cons. unfold printable at 2. split; [|tauto]. intros. split; [lia|done].
Qed.

Lemma compare_run n : ∀ b1 b2 s1 s2, cstr b1 s1 → cstr b2 s2 → (length s1 ≤ n)%nat →
  compare_from n b1 b2 = Some (bool_decide (s1 = s2)).
Proof.
  induction n as [|n IH]; intros [|c1 b1] [|c2 b2] s1 s2 H1 H2 Hn;
    try (by destruct H1 as ([] & ? & _); destruct s1); try (by destruct H2 as ([] & ? & _); destruct s2);
    destruct (cstr_inv _ _ _ H1) as [[-> ->]|(Hn1 & t1 & -> & Ht1)];
    destruct (cstr_inv _ _ _ H2) as [[-> ->]|(Hn2 & t2 & -> & Ht2)]; simpl in *; try lia;
    rewrite ?bool_decide_true by done; try done.
  - by rewrite bool_decide_false by done.
  - by rewrite bool_decide_false by done.
  - by rewrite orb_true_r, (bool_decide_false (c1 = x00)) by done.
  - rewrite (bool_decide_false (c1 = x00)), (bool_decide_false (c2 = x00)) by done. simpl.
    destruct (decide (c1 = c2)) as [->|Hne].
    + rewrite bool_decide_false by naive_solver. rewrite (IH _ _ _ _ Ht1 Ht2) by lia. f_equal.
      apply bool_decide_ext. naive_solver.
    + rewrite bool_decide_true by done. by rewrite bool_decide_false by naive_solver.
Qed.

Lemma copy_run n : ∀ src s dest, cstr src s → (n < length dest)%nat →
  ∃ dest', copy_chars n src dest = Some dest' ∧ cstr dest' (take n s) ∧ length dest' = length dest.
Proof.
  induction n as [|n IH]; intros src s [|d dest] Hs Hl; simpl in *; try lia.
  - exists (x00 :: dest). split_and!; [done|exists dest; split; [done|apply not_elem_of_nil]|done].
  - destruct src as [|c src]; [by destruct Hs as ([] & ? & _); destruct s|].
    destruct (cstr_inv _ _ _ Hs) as [[-> ->]|(Hne & s' & -> & Hs')]; simpl.
    + exists (x00 :: dest). split_and!; [done|exists dest; split; [done|apply not_elem_of_nil]|done].
    + rewrite decide_False by done. destruct (IH src s' dest Hs') as (d' & -> & Hd & El); [lia|].
      exists (c :: d'). split_and!; [done|by apply cstr_cons|simpl; by rewrite El].
Qed.

(** [ttosVerifyName] accepts a string exactly when it is not empty and its
    first [length] characters are printable ASCII (32 to 126). *)
Lemma verify_name_run buf s n : cstr buf s →
  ttosVerifyName (Some buf) n = Some (bool_decide (s ≠ [] ∧ Forall printable (take n s))).
Proof.
  intros Hs. destruct buf as [|c buf]; [by destruct Hs as ([] & ? & _); destruct s|]. simpl.
  destruct (cstr_inv _ _ _ Hs) as [[-> ->]|(Hne & s' & -> & Hs')].
  - by rewrite decide_True by done.
  - rewrite decide_False by done. rewrite (verify_chars_run n _ _ Hs). f_equal. apply bool_decide_ext. naive_solver.
Qed.

(** A name copied into a control block ([ttosCopyName] into a buffer of at
    least 33 bytes) is the name, cut at 32 characters, and is found again by
    [ttosCompareName] exactly when it was not cut. *)
Lemma copy_name_roundtrip src s dest : cstr src s → (TTOS_OBJECT_NAME_LENGTH < length dest)%nat →
  ∃ dest', ttosCopyName src dest = Some dest' ∧ length dest' = length dest ∧
    cstr dest' (take TTOS_OBJECT_NAME_LENGTH s) ∧
    ttosCompareName dest' src = Some (bool_decide (length s ≤ TTOS_OBJECT_NAME_LENGTH)%nat).
Proof.
  intros Hs Hl. destruct (copy_run _ _ _ _ Hs Hl) as (d & Hd & Hc & El). exists d. split_and!; try done.
  unfold ttosCompareName. rewrite (compare_run _ _ _ _ _ Hc Hs) by (rewrite length_take; lia).
  f_equal. apply bool_decide_ext. split; [|apply take_ge].
  intros E. apply (f_equal length) in E. rewrite length_take in E. lia.
Qed.
