(* ===== verification/Sema.v ===== *)
(** * Semaphores and mutexes

    [kernel/sema/*.c], [taskChangePriority] of [kernel/task/ttosTaskUtils.c],
    [ttosFlushTaskq] of [kernel/task/ttosTaskq.c], the object pool functions of
    [kernel/utils/ttosUtils.c] for semaphores, and the mutex wrappers of
    [include/ttos.h].

    The wait queue of a semaphore is the kernel's wait queue of the same name.
    A blocking call has two halves: up to the point where the caller is switched
    away, and what it does when it runs again ([obtain_resume]); between them
    other services and interrupts run.  Signed overflow of the count is a fault.
    [sigpend] is [pcb_signal_pending] of the caller's process. *)

From S2P Require Import Prelude Chain PrioMap DeltaQ Kernel Sched Frame SchedInv Dispatch SchedProps Service Wait WaitInv Names.
From Stdlib Require Import Init.Byte.
Import Width.
Local Open Scope Z_scope.

Definition TTOS_SEMAPHORE_MASK : Z := 0x3.
Definition TTOS_COUNTING_SEMAPHORE : Z := 0x1.
Definition TTOS_MUTEX_SEMAPHORE : Z := 0x2.
Definition TTOS_MUTEX_WAIT_PRIORITY_CEILING : Z := 0.
Definition TTOS_MUTEX_WAIT_PRIORITY_INHERIT : Z := 64.
Definition TTOS_MUTEX_WAIT_ATTR_MASK : Z := 96.
Definition TTOS_MAX_PRIORITY : Z := 255.
Definition INT_MAX : Z := 2 ^ 31 - 1.
Definition INT_MIN : Z := - 2 ^ 31.

(** The conversion of an unsigned to a signed 32-bit integer. *)
Definition s32 (x : Z) : Z := if x <? 2 ^ 31 then x else x - 2 ^ 32.

(** [T_TTOS_SemaControlBlock]. *)
Record sema := Sema {
  objName : list byte;
  attributeSet : Z;
  semaControlValue : Z;
  isPriorityCeiling : bool;
  priorityCeiling : Z;
  semHolder : option tid;
  nestCount : Z;
}.

Definition set_value (v : Z) (s : sema) : sema :=
  Sema (objName s) (attributeSet s) v (isPriorityCeiling s) (priorityCeiling s) (semHolder s) (nestCount s).
Definition set_holder (v : option tid) (s : sema) : sema :=
  Sema (objName s) (attributeSet s) (semaControlValue s) (isPriorityCeiling s) (priorityCeiling s) v (nestCount s).
Definition set_nest (v : Z) (s : sema) : sema :=
  Sema (objName s) (attributeSet s) (semaControlValue s) (isPriorityCeiling s) (priorityCeiling s) (semHolder s) v.

(** A control block whose memory is zero. *)
Definition zero_sema : sema := Sema (replicate 33 x00) 0 0 false 0 None 0.

(** The kernel with the memory of the semaphore control blocks, the lists of the
    semaphores in use and of the free blocks, and the manager's counters. *)
Record sworld := SWorld {
  kern : kernel;
  semas : gmap wqid sema;
  inUsedResource : list wqid;
  inactiveResource : list wqid;
  inUsedResourceNum : Z;
  objExistNumber : Z;
  objMaxNumber : Z;
}.

Definition set_kern (v : kernel) (s : sworld) : sworld :=
  SWorld v (semas s) (inUsedResource s) (inactiveResource s) (inUsedResourceNum s) (objExistNumber s) (objMaxNumber s).
Definition set_semas (v : gmap wqid sema) (s : sworld) : sworld :=
  SWorld (kern s) v (inUsedResource s) (inactiveResource s) (inUsedResourceNum s) (objExistNumber s) (objMaxNumber s).
Definition set_pools (used free : list wqid) (num exist_num : Z) (s : sworld) : sworld :=
  SWorld (kern s) (semas s) used free num exist_num (objMaxNumber s).

(** A kernel operation. *)
Definition lk {A} (m : M kernel A) : M sworld A :=
  λ s, match m (kern s) with Some (a, K) => Some (a, set_kern K s) | None => None end.

Definition get_sema (id : wqid) : M sworld sema :=
  λ s, match semas s !! id with Some c => Some (c, s) | None => None end.

Definition upd_sema (id : wqid) (f : sema → sema) : M sworld unit :=
  λ s, match semas s !! id with
       | Some c => Some (tt, set_semas (<[id := f c]> (semas s)) s)
       | None => None
       end.

(** [semaControlValue--] and [++]. *)
Definition dec_value (id : wqid) : M sworld Z :=
  c ← get_sema id;
  _ ← massert (INT_MIN <? semaControlValue c);
  _ ← upd_sema id (set_value (semaControlValue c - 1));
  mret (semaControlValue c).

Definition inc_value (id : wqid) : M sworld unit :=
  c ← get_sema id;
  _ ← massert (semaControlValue c <? INT_MAX);
  upd_sema id (set_value (semaControlValue c + 1)).

Definition is_mutex (c : sema) : bool := Z.land (attributeSet c) TTOS_SEMAPHORE_MASK =? TTOS_MUTEX_SEMAPHORE.

Definition inherits (c : sema) : bool :=
  Z.land (attributeSet c) TTOS_MUTEX_WAIT_ATTR_MASK =? TTOS_MUTEX_WAIT_PRIORITY_INHERIT.

(** [ttosGetObjectById (id, TTOS_OBJECT_SEMA)]: a block in use has a valid header;
    the lookup leaves the dispatch lock held. *)
Definition get_sema_object (id : wqid) : M sworld bool :=
  ok ← gets (λ s, bool_decide (id ∈ inUsedResource s));
  if (ok : bool) then _ ← lk ttosDisableTaskDispatchWithLock; mret true else mret false.

Definition lock : M sworld unit := lk ttosDisableTaskDispatchWithLock.
Definition unlock : M sworld unit := lk ttosEnableTaskDispatchWithLock.

(** ** The priority of a task, whatever it waits for *)

(** The place of a ready task on its new queue.  A node that is linked elsewhere
    is left alone, and the change is not announced ([false]). *)
Definition requeue_ready (t : tid) (tc : tcb) (before newPriority : Z) (prependIt : bool) : M kernel bool :=
  inReadyQueue ← gets (λ K, bool_decide (t ∈ c_get (RQ (affCpu tc) before) (oq K)));
  nodeLinked ← gets (λ K, c_linked t (oq K));
  if negb inReadyQueue && nodeLinked then
    _ ← ttosSetHighestPriorityTask (affCpu tc); mret false
  else
    _ ← whenM inReadyQueue (
      _ ← obj_delete t;
      e ← ttosReadyQueueIsEmpty (affCpu tc) before;
      whenM e (clear_priority_bit (affCpu tc) before));
    _ ← set_priority_bit (affCpu tc) newPriority;
    _ ← ttosReadyQueuePut t prependIt;
    _ ← ttosSetHighestPriorityTask (affCpu tc);
    mret true.

Definition taskChangePriority (t : tid) (newPriority : Z) (prependIt : bool) : M kernel unit :=
  tc ← get_task t;
  let beforePriority := taskCurPriority tc in
  _ ← upd_task t (set_taskCurPriority newPriority);
  if negb (flag_on TTOS_TASK_NONRUNNING_STATE (state tc)) then
    ok ← (if queued_kind tc then requeue_ready t tc beforePriority newPriority prependIt else mret true);
    whenM ok (ttosTaskStateChanged t true)
  else if flag_on TTOS_TASK_BLOCKING_ON_TASK_QUEUE (state tc) then
    match wait_queue (wait tc) with
    | None => mret tt
    | Some w =>
        q ← get_wq w;
        whenM (negb (wq_fifo q)) (
          _ ← ttosExtractTaskq (Some w) t;
          wq_enqueue w t)
    end
  else mret tt.

(** ** Obtaining *)

(** The count was positive. *)
Definition take_sema (id : wqid) (executing : tid) : M sworld unit :=
  _ ← upd_sema id (set_holder (Some executing));
  c ← get_sema id;
  whenM (is_mutex c) (
    _ ← upd_sema id (set_nest 1);
    _ ← lk (upd_task executing (λ tc, set_resourceCount (u32 (resourceCount tc + 1)) tc));
    tc ← lk (get_task executing);
    whenM (isPriorityCeiling c && (priorityCeiling c <? taskCurPriority tc))
      (lk (taskChangePriority executing (priorityCeiling c) false))).

(** The holder of a mutex that is waited for inherits the caller's priority. *)
Definition inherit_priority (c : sema) (ec : tcb) : M kernel unit :=
  whenM (is_mutex c && inherits c) (
    h ← lift (semHolder c);
    hc ← get_task h;
    whenM (taskCurPriority ec <? taskCurPriority hc) (taskChangePriority h (taskCurPriority ec) false)).

(** [None]: the caller waits, and continues with [obtain_resume]. *)
Definition TTOS_ObtainSemaWithInterruptFlags (id : wqid) (ticks : Z) (is_interruptable sigpend : bool) :
    M sworld (option retcode) :=
  isr ← lk (gets in_isr);
  if (isr : bool) then mret (Some TTOS_CALLED_FROM_ISR)
  else
    executing ← lk ttosGetRunningTask;
    idle ← lk (ttosIsIdleTask executing);
    if (idle : bool) then mret (Some TTOS_INVALID_USER)
    else
      ok ← get_sema_object id;
      if negb ok then mret (Some TTOS_INVALID_ID)
      else
        c ← get_sema id;
        ec ← lk (get_task executing);
        if isPriorityCeiling c && (taskCurPriority ec <? priorityCeiling c) then
          _ ← unlock; mret (Some TTOS_UNSATISFIED)
        else
          v ← dec_value id;
          if 0 <? v then
            _ ← take_sema id executing; _ ← unlock; mret (Some TTOS_OK)
          else if is_mutex c && bool_decide (semHolder c = Some executing) then
            _ ← upd_sema id (λ c, set_nest (u32 (nestCount c + 1)) c);
            _ ← unlock; mret (Some TTOS_OK)
          else if ticks =? 0 then
            _ ← unlock; mret (Some TTOS_UNSATISFIED)
          else
            _ ← lk (inherit_priority c ec);
            _ ← lk (upd_task executing (upd_wait (set_returnCode TTOS_OK)));
            _ ← whenM (negb (is_interruptable && sigpend)) (lk (ttosEnqueueTaskq id ticks is_interruptable));
            cpu ← lk (gets this_cpu);
            level ← lk (ttosGetDisableScheduleLevelWithCpuID cpu);
            _ ← massert (level =? 1);
            _ ← unlock;
            mret None.

(** The end of the call, when [executing] runs again. *)
Definition obtain_resume (id : wqid) (executing : tid) : M sworld retcode :=
  tc ← lk (get_task executing);
  _ ← whenM (bool_decide (returnCode (wait tc) ≠ TTOS_OK)) (
    _ ← lock; _ ← inc_value id; unlock);
  tc ← lk (get_task executing);
  mret (returnCode (wait tc)).

(** ** Releasing *)

(** The owner's part of the release of a mutex; the call goes on with [None]. *)
Definition release_mutex (id : wqid) (executing : tid) : M sworld (option retcode) :=
  isr ← lk (gets in_isr);
  if (isr : bool) then _ ← unlock; mret (Some TTOS_CALLED_FROM_ISR)
  else
    c ← get_sema id;
    if 0 <? semaControlValue c then _ ← unlock; mret (Some TTOS_NOT_OWNER_OF_RESOURCE)
    else
      _ ← whenM (nestCount c =? 0) (
        _ ← upd_sema id (λ c, set_nest 1 (set_holder (Some executing) c));
        lk (upd_task executing (λ tc, set_resourceCount (u32 (resourceCount tc + 1)) tc)));
      c ← get_sema id;
      if bool_decide (semHolder c ≠ Some executing) then
        _ ← unlock; mret (Some TTOS_NOT_OWNER_OF_RESOURCE)
      else
        _ ← upd_sema id (λ c, set_nest (u32 (nestCount c - 1)) c);
        c ← get_sema id;
        if negb (nestCount c =? 0) then
          _ ← inc_value id; _ ← unlock; mret (Some TTOS_OK)
        else
          tc ← lk (get_task executing);
          _ ← whenM (negb (resourceCount tc =? 0))
                (lk (upd_task executing (set_resourceCount (resourceCount tc - 1))));
          _ ← upd_sema id (set_holder None);
          tc ← lk (get_task executing);
          _ ← whenM ((resourceCount tc =? 0) && negb (taskCurPriority tc =? taskPriority tc))
                (lk (taskChangePriority executing (taskPriority tc) true));
          mret None.

(** A mutex handed to the first waiting task. *)
Definition hand_over (id : wqid) (t : tid) : M sworld unit :=
  _ ← upd_sema id (λ c, set_holder (Some t) (set_nest 1 c));
  _ ← lk (upd_task t (λ tc, set_resourceCount (u32 (resourceCount tc + 1)) tc));
  c ← get_sema id;
  tc ← lk (get_task t);
  whenM (isPriorityCeiling c && (priorityCeiling c <? taskCurPriority tc))
    (lk (taskChangePriority t (priorityCeiling c) false)).

(** The second component is [*wakedup_task]. *)
Definition TTOS_ReleaseSemaReturnTask (id : wqid) : M sworld (retcode * option tid) :=
  executing ← lk ttosGetRunningTask;
  ok ← get_sema_object id;
  if negb ok then mret (TTOS_INVALID_ID, None)
  else
    c ← get_sema id;
    done ← (if is_mutex c then release_mutex id executing else mret None);
    match done with
    | Some r => mret (r, None)
    | None =>
        c ← get_sema id;
        _ ← whenM (semaControlValue c <? INT_MAX) (upd_sema id (set_value (semaControlValue c + 1)));
        task ← lk (ttosDequeueTaskq id);
        _ ← match task with
            | Some t => c ← get_sema id; whenM (is_mutex c) (hand_over id t)
            | None => mret tt
            end;
        _ ← unlock;
        mret (TTOS_OK, task)
    end.

Definition TTOS_ReleaseSema (id : wqid) : M sworld retcode :=
  r ← TTOS_ReleaseSemaReturnTask id; mret r.1.

(** ** Resetting *)

Fixpoint reset_loop (fuel : nat) (count : Z) (id : wqid) : M sworld unit :=
  match fuel with
  | O => fault
  | S fuel =>
      c ← get_sema id;
      if semaControlValue c <? count then
        _ ← TTOS_ReleaseSema id; reset_loop fuel count id
      else mret tt
  end.

Definition TTOS_ResetSema (fuel : nat) (count : Z) (id : wqid) : M sworld retcode :=
  ok ← get_sema_object id;
  if negb ok then mret TTOS_INVALID_ID
  else
    _ ← reset_loop fuel count id;
    _ ← upd_sema id (set_value count);
    _ ← unlock;
    mret TTOS_OK.

(** ** Creation and deletion *)

(** [ttosFlushTaskq]: every waiting task is woken with [status]. *)
Fixpoint flush_loop (fuel : nat) (w : wqid) (status : retcode) : M kernel unit :=
  match fuel with
  | O => fault
  | S fuel =>
      o ← ttosDequeueTaskq w;
      match o with
      | None => mret tt
      | Some t =>
          _ ← upd_task t (upd_wait (λ i, set_wait_id None (set_returnCode status i)));
          _ ← ttosEnableTaskDispatchWithLock;
          _ ← ttosDisableTaskDispatchWithLock;
          flush_loop fuel w status
      end
  end.

Definition ttosFlushTaskq (fuel : nat) (w : wqid) (status : retcode) : M kernel unit :=
  _ ← ttosDisableTaskDispatchWithLock;
  _ ← flush_loop fuel w status;
  ttosEnableTaskDispatchWithLock.

(** For a semaphore: the block leaves the list in use, is cleared with its wait
    queue, and joins the free blocks. *)
Definition ttosReturnObjectToInactiveResource (id : wqid) : M sworld unit :=
  _ ← upd_sema id (λ _, zero_sema);
  _ ← lk (modify (λ K, set_wqs (delete id (wqs K)) K));
  modify (λ s, set_pools (filter (λ x, x ≠ id) (inUsedResource s)) (inactiveResource s ++ [id])
                 (u32 (inUsedResourceNum s - 1)) (objExistNumber s) s).

Definition TTOS_DeleteSema (fuel : nat) (id : wqid) : M sworld retcode :=
  isr ← lk (gets in_isr);
  if (isr : bool) then mret TTOS_CALLED_FROM_ISR
  else
    ok ← get_sema_object id;
    if negb ok then mret TTOS_INVALID_ID
    else
      _ ← lk (ttosFlushTaskq fuel id TTOS_OBJECT_WAS_DELETED);
      _ ← ttosReturnObjectToInactiveResource id;
      _ ← unlock;
      mret TTOS_OK.

(** The first free block, or a new one from the allocator ([mem]: the block
    [memalign] returns); the block is cleared. *)
Definition ttosAllocateObject (mem : option wqid) : M sworld (retcode * option wqid) :=
  s ← gets id;
  match inactiveResource s with
  | b :: free =>
      _ ← modify (set_pools (inUsedResource s) free (inUsedResourceNum s) (objExistNumber s));
      _ ← modify (λ s, set_semas (<[b := zero_sema]> (semas s)) s);
      mret (TTOS_OK, Some b)
  | [] =>
      if objExistNumber s =? objMaxNumber s then mret (TTOS_TOO_MANY, None)
      else
        match mem with
        | None => mret (TTOS_UNSATISFIED, None)
        | Some b =>
            _ ← modify (set_pools (inUsedResource s) [] (inUsedResourceNum s) (u32 (objExistNumber s + 1)));
            _ ← modify (λ s, set_semas (<[b := zero_sema]> (semas s)) s);
            mret (TTOS_OK, Some b)
        end
  end.

(** [T_TTOS_ConfigSema]. *)
Record sema_config := SemaConfig {
  cfgSemaName : list byte;
  cfg_initValue : Z;
  cfg_attributeSet : Z;
  cfg_priorityCeiling : Z;
  objVersion : list byte;
}.

Definition ttosInitSema (id : wqid) (cfg : sema_config) (ceiling : bool) : M sworld unit :=
  c ← get_sema id;
  name ← lift (ttosCopyName (cfgSemaName cfg) (objName c));
  _ ← upd_sema id (λ _, Sema name (cfg_attributeSet cfg) (s32 (cfg_initValue cfg)) ceiling
        (u8 (cfg_priorityCeiling cfg)) None 0);
  c ← get_sema id;
  _ ← lk (ttosInitializeTaskq id (negb (is_mutex c)) TTOS_TASK_WAITING_FOR_SEMAPHORE);
  modify (λ s, set_pools (inUsedResource s ++ [id]) (inactiveResource s)
                 (u32 (inUsedResourceNum s + 1)) (objExistNumber s) s).

Definition current_version : list byte := [x31; x2e; x30; x00].

(** The checks by kind of semaphore: the code to return, and whether the mutex
    uses a priority ceiling. *)
Definition check_kind (cfg : sema_config) : retcode * bool :=
  let kind := Z.land (cfg_attributeSet cfg) TTOS_SEMAPHORE_MASK in
  if kind =? TTOS_COUNTING_SEMAPHORE then (TTOS_OK, false)
  else if kind =? TTOS_MUTEX_SEMAPHORE then
    if 1 <? cfg_initValue cfg then (TTOS_INVALID_NUMBER, false)
    else if TTOS_MAX_PRIORITY <? cfg_priorityCeiling cfg then (TTOS_INVALID_PRIORITY, false)
    else (TTOS_OK, Z.land (cfg_attributeSet cfg) TTOS_MUTEX_WAIT_ATTR_MASK =? TTOS_MUTEX_WAIT_PRIORITY_CEILING)
  else (TTOS_INVALID_ATTRIBUTE, false).

(** [semaID]: whether the pointer for the result is not null. *)
Definition TTOS_CreateSema (semaParam : option sema_config) (semaID : bool) (mem : option wqid) :
    M sworld (retcode * option wqid) :=
  isr ← lk (gets in_isr);
  if (isr : bool) then mret (TTOS_CALLED_FROM_ISR, None)
  else match semaParam with
  | None => mret (TTOS_INVALID_ADDRESS, None)
  | Some cfg =>
      same ← lift (ttosCompareVerison (objVersion cfg) current_version);
      if negb same then mret (TTOS_INVAILD_VERSION, None)
      else if negb semaID then mret (TTOS_INVALID_ADDRESS, None)
      else
        status ← lift (ttosVerifyName (Some (cfgSemaName cfg)) TTOS_OBJECT_NAME_LENGTH);
        if negb status then mret (TTOS_INVALID_NAME, None)
        else
          let '(ret, ceiling) := check_kind cfg in
          if bool_decide (ret ≠ TTOS_OK) then mret (ret, None)
          else
            _ ← lock;
            r ← ttosAllocateObject mem;
            match (r : retcode * option wqid) with
            | (TTOS_OK, Some b) =>
                _ ← ttosInitSema b cfg ceiling; _ ← unlock; mret (TTOS_OK, Some b)
            | (ret, _) => _ ← unlock; mret (ret, None)
            end
  end.

Definition TTOS_GetSemaCount (semaCount : bool) : M sworld (retcode * option Z) :=
  if negb semaCount then mret (TTOS_INVALID_ADDRESS, None)
  else n ← gets inUsedResourceNum; mret (TTOS_OK, Some n).

(** ** Queries by name *)

(** The walk of [ttosGetIdByName] over the semaphores in use. *)
Fixpoint find_name (name : list byte) (ids : list wqid) : M sworld (option wqid) :=
  match ids with
  | [] => mret None
  | id :: ids =>
      c ← get_sema id;
      same ← lift (ttosCompareName name (objName c));
      if (same : bool) then mret (Some id) else find_name name ids
  end.

Definition ttosGetIdByName (name : list byte) : M sworld (option wqid) :=
  _ ← lock;
  ids ← gets inUsedResource;
  r ← find_name name ids;
  _ ← unlock;
  mret r.

Definition TTOS_GetSemaID (semaName : option (list byte)) (semaID : bool) : M sworld (retcode * option wqid) :=
  match semaName with
  | None => mret (TTOS_INVALID_ADDRESS, None)
  | Some name =>
      if negb semaID then mret (TTOS_INVALID_ADDRESS, None)
      else
        r ← ttosGetIdByName name;
        match r with
        | None => mret (TTOS_INVALID_NAME, None)
        | Some id => mret (TTOS_OK, Some id)
        end
  end.

(** The caller's buffer comes back with the name. *)
Definition TTOS_GetSemaName (id : wqid) (semaName : option (list byte)) : M sworld (retcode * option (list byte)) :=
  match semaName with
  | None => mret (TTOS_INVALID_ADDRESS, None)
  | Some buf =>
      ok ← get_sema_object id;
      if negb ok then mret (TTOS_INVALID_ID, Some buf)
      else
        c ← get_sema id;
        buf' ← lift (ttosCopyName (objName c) buf);
        _ ← unlock;
        mret (TTOS_OK, Some buf')
  end.

(** The identifiers the loop stores, at most [areaSize]. *)
Definition ttosGetIdList (areaSize : nat) : M sworld (list wqid) :=
  _ ← lock;
  ids ← gets inUsedResource;
  _ ← unlock;
  mret (take areaSize ids).

Definition TTOS_GetSemaIdList (idList : bool) (maxIdNum : nat) : M sworld (retcode * list wqid) :=
  if negb idList then mret (TTOS_INVALID_ADDRESS, [])
  else ids ← ttosGetIdList maxIdNum; mret (TTOS_OK, ids).

(** ** The inline interface *)

(** ["defaultCreateSema6789"]. *)
Definition TTOS_DEFAULT_SEMA_NAME : list byte :=
  [x64; x65; x66; x61; x75; x6c; x74; x43; x72; x65; x61; x74; x65; x53; x65; x6d; x61;
   x36; x37; x38; x39; x00].

Definition TTOS_CreateSemaEx (initValue : Z) (semaID : bool) (mem : option wqid) :
    M sworld (retcode * option wqid) :=
  TTOS_CreateSema (Some (SemaConfig TTOS_DEFAULT_SEMA_NAME initValue TTOS_COUNTING_SEMAPHORE 0 current_version))
    semaID mem.

Definition TTOS_CreateMutex (initValue priorityCeiling : Z) (mutexID : bool) (mem : option wqid) :
    M sworld (retcode * option wqid) :=
  TTOS_CreateSema (Some (SemaConfig TTOS_DEFAULT_SEMA_NAME initValue
    (Z.lor TTOS_MUTEX_SEMAPHORE TTOS_MUTEX_WAIT_PRIORITY_INHERIT) priorityCeiling current_version)) mutexID mem.

Definition TTOS_ObtainSema (id : wqid) (ticks : Z) (sigpend : bool) : M sworld (option retcode) :=
  TTOS_ObtainSemaWithInterruptFlags id ticks true sigpend.

Definition TTOS_ObtainSemaUninterruptable (id : wqid) (ticks : Z) : M sworld (option retcode) :=
  TTOS_ObtainSemaWithInterruptFlags id ticks false false.


Definition ttosSemaIsMutex (id : wqid) : M sworld bool :=
  ok ← get_sema_object id;
  if negb ok then mret false
  else c ← get_sema id; _ ← unlock; mret (is_mutex c).

Definition TTOS_ObtainMutex (id : wqid) (ticks : Z) : M sworld (option retcode) :=
  b ← ttosSemaIsMutex id;
  if negb b then mret (Some TTOS_INVALID_ID) else TTOS_ObtainSemaUninterruptable id ticks.

Definition TTOS_ObtainMutexInterruptible (id : wqid) (ticks : Z) (sigpend : bool) : M sworld (option retcode) :=
  b ← ttosSemaIsMutex id;
  if negb b then mret (Some TTOS_INVALID_ID) else TTOS_ObtainSema id ticks sigpend.

Definition TTOS_ReleaseMutexAndGetHolder (id : wqid) : M sworld (retcode * option tid) :=
  b ← ttosSemaIsMutex id;
  if negb b then mret (TTOS_INVALID_ID, None) else TTOS_ReleaseSemaReturnTask id.

Definition TTOS_ReleaseMutex (id : wqid) : M sworld retcode :=
  r ← TTOS_ReleaseMutexAndGetHolder id; mret r.1.

Definition TTOS_ResetMutex (fuel : nat) (id : wqid) : M sworld retcode :=
  b ← ttosSemaIsMutex id;
  if negb b then mret TTOS_INVALID_ID
  else
    _ ← upd_sema id (λ c, set_nest 0 (set_holder None c));
    TTOS_ResetSema fuel 1 id.

Definition TTOS_DeleteMutex (fuel : nat) (id : wqid) : M sworld retcode :=
  b ← ttosSemaIsMutex id;
  if negb b then mret TTOS_INVALID_ID else TTOS_DeleteSema fuel id.
