(* ===== verification/SemaInv.v ===== *)
(** * Lemmas for the semaphore services

    The state between two service calls ([calls_ok]), entering and leaving a
    service on a semaphore, and the two halves of a counting semaphore's
    operations. *)

From S2P Require Import Prelude Chain PrioMap DeltaQ Kernel Sched Frame SchedInv Dispatch SchedProps Service Wait WaitInv Block Names Sema.
Import Width.
Local Open Scope Z_scope.

(** A task is ready exactly when no bit of its state stops it. *)
Definition state_ok (K : kernel) : Prop := ∀ t tc, tasks K !! t = Some tc →
  ready tc = negb (flag_on TTOS_TASK_NONRUNNING_STATE (state tc)).

(** Inside a service: everything but the dispatch level. *)
Record inside_ok (K : kernel) : Prop := {
  is_block : block_inv K;
  is_state : state_ok K;
  is_unl : running_unlinked (this_cpu K) K;
  is_task : in_isr K = false;
}.

(** Between two service calls of a task. *)
Record calls_ok (K : kernel) : Prop := {
  co_inside : inside_ok K;
  co_level : ttosDisableScheduleLevel K !! this_cpu K = Some 0;
  co_ready : ∀ r rc, runningTask K !! this_cpu K = Some r → tasks K !! r = Some rc → ready rc = true;
}.

(** A semaphore in use. *)
Record sema_at (id : wqid) (c : sema) (q : wqueue) (W : sworld) : Prop := {
  sa_used : id ∈ inUsedResource W;
  sa_cb : semas W !! id = Some c;
  sa_queue : wqs (kern W) !! id = Some q;
  sa_state : wq_state q = TTOS_TASK_WAITING_FOR_SEMAPHORE;
  sa_kind : wq_fifo q = negb (is_mutex c);
}.

(** ** Rescheduling *)

Lemma calm_ready tc tc' : calm tc tc' → ready tc' = ready tc ∧
  flag_on TTOS_TASK_NONRUNNING_STATE (state tc') = flag_on TTOS_TASK_NONRUNNING_STATE (state tc).
Proof.
  unfold ready. intros [_ [->| ->]]; [done|]. by rewrite !flag_on_clear_ne.
Qed.

Lemma calm_fields tc tc' : calm tc tc' → wait tc' = wait tc ∧ waitedTicks tc' = waitedTicks tc.
Proof. intros [E _]. by rewrite E. Qed.

Lemma rescheduled_block K K' : block_inv K → kernel_inv K' → rescheduled K K' →
  block_inv K' ∧ waited K' = waited K.
Proof.
  intros [Hi Hw Hq] Hi' [He Ho Ewq _ _].
  assert (Etw : c_get TaskWaitedQ (oq K') = c_get TaskWaitedQ (oq K)) by (by apply Ho).
  assert (Hback : ∀ t tc, tasks K !! t = Some tc → ∃ tc', tasks K' !! t = Some tc' ∧
    ready tc' = ready tc ∧ wait tc' = wait tc ∧ waitedTicks tc' = waitedTicks tc).
  { intros t tc Ht. destruct (evolves_task _ _ _ _ He Ht) as (tc' & Ht' & Hc). exists tc'.
    destruct (calm_ready _ _ Hc), (calm_fields _ _ Hc). done. }
  assert (Ew : waited K' = waited K).
  { unfold waited. rewrite Etw. apply view_ext. intros x Hx. destruct (wi_task _ Hw x Hx) as (xc & Hxc & _).
    destruct (Hback x xc Hxc) as (xc' & Hxc' & _ & _ & E). unfold wt. by rewrite Hxc, Hxc'. }
  split; [split; [done|split|split]|done].
  - intros t. rewrite Etw. intros Hin. destruct (wi_task _ Hw t Hin) as (tc & Ht & Hr & Hp).
    destruct (Hback t tc Ht) as (tc' & Ht' & Er & _ & Et). exists tc'. by rewrite Er, Et.
  - rewrite Ew. apply Hw.
  - intros w q t tc'. rewrite Ewq. intros Hwq Hin Ht'.
    destruct (wq_member _ Hq w q t Hwq Hin) as (tc & Ht & _ & E).
    destruct (Hback t tc Ht) as (tc2 & Ht2 & _ & E2 & _). simplify_eq. by rewrite E2, E.
  - intros w q. rewrite Ewq. apply (wq_nodup _ Hq).
  - intros w q t. rewrite Ewq. intros Hwq Hin. destruct (wq_member _ Hq w q t Hwq Hin) as (tc & Ht & Hr & E).
    destruct (Hback t tc Ht) as (tc' & Ht' & Er & E2 & _). exists tc'. by rewrite Er, E2.
  - intros w q t o. rewrite Ewq. intros Hwq Hin Hno. destruct (wq_member _ Hq w q t Hwq Hin) as (tc & Ht & Hr & E).
    destruct (Hback t tc Ht) as (tc' & Ht' & Er & _). destruct o as [a p| | |]; [|done|..].
    + apply (off_queues _ _ _ _ Hi' Ht'). left. by rewrite Er.
    + rewrite Ho by done. by apply (wq_apart _ Hq w q).
    + rewrite Ho by done. by apply (wq_apart _ Hq w q).
Qed.

Lemma rescheduled_state K K' : state_ok K → rescheduled K K' → state_ok K'.
Proof.
  intros Hs [He _ _ _ _] t tc' Ht'. destruct (evolves_back _ _ _ _ He Ht') as (tc & Ht & Hc).
  destruct (calm_ready _ _ Hc) as [-> ->]. by apply (Hs t).
Qed.

(** The end of a service. *)
Lemma leave_run K : inside_ok K → ttosDisableScheduleLevel K !! this_cpu K = Some 1 →
  wp ttosEnableTaskDispatchWithLock K (λ _ K', calls_ok K' ∧ rescheduled K K' ∧ waited K' = waited K).
Proof.
  intros [Hb Hs Hu Hisr] Hl. eapply wp_mono; [apply leave_service_run; [apply Hb|done..]|].
  intros [] K' (Hi' & Hset & Hrs). destruct (rescheduled_block K K' Hb Hi' Hrs) as [Hb' Ew].
  pose proof (rescheduled_state K K' Hs Hrs) as Hs'. pose proof (rs_sys _ _ Hrs) as [= _ En _ _ Ec Ei].
  destruct Hset as (Hl' & r & rc & Hr & Hrc & Hcase). split_and!; [split; [split|..]|done..]; try done.
  - rewrite Ec. apply Hrs.
  - by rewrite Ei.
  - by rewrite Ec.
  - intros r' rc'. rewrite Ec. intros Hr' Hrc'. simplify_eq. destruct Hcase as [Hcand|[Hf _]].
    + destruct (candidate_fit K' (this_cpu K) Hi') with r as (t & tc & Hc & Ht & Hrd & _); [|done|].
      { rewrite En. apply (si_this _ _ (bi_sched _ Hb)). }
      rewrite Hcand in Hc. injection Hc as <-. by simplify_eq.
    + by rewrite (Hs' r rc Hrc), Hf.
Qed.

(** ** Entering and leaving *)

Definition locked (n : Z) (K : kernel) : kernel :=
  set_ttosDisableScheduleLevel (<[this_cpu K := n]> (ttosDisableScheduleLevel K)) K.

Lemma wp_lk {A} (m : M kernel A) W Φ :
  wp m (kern W) (λ a K, Φ a (set_kern K W)) → wp (lk m) W Φ.
Proof. unfold wp, lk. by destruct (m (kern W)) as [[]|]. Qed.

Lemma wp_get_sema W id c Φ : semas W !! id = Some c → Φ c W → wp (get_sema id) W Φ.
Proof. intros Hc ?. unfold wp, get_sema. by rewrite Hc. Qed.

Lemma wp_upd_sema W id c f Φ : semas W !! id = Some c →
  Φ tt (set_semas (<[id := f c]> (semas W)) W) → wp (upd_sema id f) W Φ.
Proof. intros Hc ?. unfold wp, upd_sema. by rewrite Hc. Qed.

Lemma lock_run K l : ttosDisableScheduleLevel K !! this_cpu K = Some l →
  wp ttosDisableTaskDispatchWithLock K (λ _ K', K' = locked (u64 (l + 1)) K).
Proof.
  intros Hl. unfold ttosDisableTaskDispatchWithLock, ttosDisableTaskDispatch, ttosIncDisableScheduleLevel,
    ttosGetDisableScheduleLevelWithCpuID. apply wp_bind, wp_gets, wp_bind. unfold wp at 1. rewrite Hl. simpl.
  by apply wp_modify.
Qed.

Lemma inside_locked n K : inside_ok K → inside_ok (locked n K).
Proof.
  intros [[Hi [? ? ?] [? ? ?]] ? ? ?]. split; [split|..]; try done. by apply inv_set_level.
Qed.

Lemma locked_level n K : ttosDisableScheduleLevel (locked n K) !! this_cpu (locked n K) = Some n.
Proof. apply lookup_insert_eq. Qed.

(** [ttosGetObjectById] on a semaphore in use. *)
Lemma sema_object_run W id l : id ∈ inUsedResource W →
  ttosDisableScheduleLevel (kern W) !! this_cpu (kern W) = Some l →
  wp (get_sema_object id) W (λ b W', b = true ∧ W' = set_kern (locked (u64 (l + 1)) (kern W)) W).
Proof.
  intros Hin Hl. unfold get_sema_object. apply wp_bind, wp_gets. rewrite bool_decide_true by done.
  apply wp_bind, wp_lk. eapply wp_mono; [by apply lock_run|]. intros [] K' ->. by apply wp_ret.
Qed.

Lemma unlock_run W : inside_ok (kern W) →
  ttosDisableScheduleLevel (kern W) !! this_cpu (kern W) = Some 1 →
  wp unlock W (λ _ W', ∃ K', W' = set_kern K' W ∧ calls_ok K' ∧ rescheduled (kern W) K' ∧
    waited K' = waited (kern W)).
Proof.
  intros Hi Hl. apply wp_lk. eapply wp_mono; [by apply leave_run|]. intros [] K' (? & ? & ?). by exists K'.
Qed.

(** An inner unlock only counts. *)
Lemma nested_leave_run K l : ttosDisableScheduleLevel K !! this_cpu K = Some (l + 1) → 1 ≤ l < 2 ^ 32 →
  wp ttosEnableTaskDispatchWithLock K (λ _ K', K' = locked l K).
Proof.
  intros Hl Hb. unfold ttosEnableTaskDispatchWithLock. apply wp_bind, wp_gets, wp_bind.
  unfold ttosGetDisableScheduleLevelWithCpuID, wp at 1. rewrite Hl. simpl.
  rewrite (proj2 (Z.eqb_neq (l + 1) 1)), (proj2 (Z.ltb_lt 1 (l + 1))) by lia.
  unfold ttosDecDisableScheduleLevel, ttosGetDisableScheduleLevelWithCpuID. apply wp_bind.
  unfold wp at 1. rewrite Hl. simpl. replace (u64 (l + 1 - 1)) with l by (rewrite u64_small; lia).
  by apply wp_modify.
Qed.

(** Leaving a service at any depth of the dispatch lock. *)
Lemma unlock_any W l : inside_ok (kern W) → 0 ≤ l < 2 ^ 32 →
  ttosDisableScheduleLevel (kern W) !! this_cpu (kern W) = Some (l + 1) →
  wp unlock W (λ _ W', ∃ K', W' = set_kern K' W ∧ rescheduled (kern W) K' ∧ waited K' = waited (kern W) ∧
    if l =? 0 then calls_ok K'
    else inside_ok K' ∧ ttosDisableScheduleLevel K' !! this_cpu K' = Some l).
Proof.
  intros Hi Hlb Hl. destruct (Z.eqb_spec l 0) as [->|Hne].
  - eapply wp_mono; [by apply unlock_run|]. intros [] W' (K' & -> & ? & ? & ?). by exists K'.
  - apply wp_lk. eapply wp_mono; [apply (nested_leave_run _ l Hl); lia|]. intros [] K' ->.
    exists (locked l (kern W)). split_and!; [done| |done|by apply inside_locked|apply locked_level].
    split; try done; [|apply Hi]. intros t. simpl. destruct (tasks (kern W) !! t); constructor. reflexivity.
Qed.

(** A task that runs on the calling CPU and is not its idle task is no idle task. *)
Lemma running_not_idle K e ec : kernel_inv K → runningTask K !! this_cpu K = Some e →
  tasks K !! e = Some ec → idleTask K !! this_cpu K ≠ Some e → not_idle e K.
Proof.
  intros Hi Hr He Hn c Hc Hic. destruct (si_idle _ _ Hi c Hc) as (i & ic & Hi' & Ht & Ha & _). simplify_eq.
  destruct (si_run _ _ Hi _ (si_this _ _ Hi)) as (r & rc & Hr' & Hrc & Hon). simplify_eq.
  apply Hn. by rewrite (to_bound _ _ (si_tcb_ok _ _ _ _ Hi He) _ _ Ha Hon).
Qed.

(** Fields of a ready task that no queue looks at. *)
Lemma block_upd K t tc tc' : block_inv K → tasks K !! t = Some tc → ready tc = true →
  smpInfo tc' = smpInfo tc → taskCurPriority tc' = taskCurPriority tc → ready tc' = ready tc →
  block_inv (set_tasks (<[t := tc']> (tasks K)) K).
Proof.
  intros [Hi Hw Hq] Ht Hr Hs Hp Er. pose proof (ready_not_queued K t tc Hq Ht Hr) as Hnq.
  assert (Hnt : t ∉ c_get TaskWaitedQ (oq K)).
  { intros Hin. destruct (wi_task _ Hw t Hin) as (? & ? & ? & _). congruence. }
  set (K' := set_tasks _ K).
  destruct (wait_inv_upd K K' t tc' Hw eq_refl eq_refl eq_refl Hnt Hnq) as [Hw' _].
  split; [|done|split].
  - eapply inv_upd_inert; try done. unfold queued_kind, affCpu, onCpu. by rewrite Hs.
  - apply (wq_nodup _ Hq).
  - intros w q x Hwq Hx. simpl. rewrite lookup_insert_ne; [by apply (wq_member _ Hq w q)|].
    intros <-. by apply (Hnq w q).
  - apply (wq_apart _ Hq).
Qed.

Lemma state_upd K t tc tc' : state_ok K → tasks K !! t = Some tc → state tc' = state tc →
  state_ok (set_tasks (<[t := tc']> (tasks K)) K).
Proof.
  intros Hs Ht E x xc. simpl. rewrite lookup_insert_Some. intros [[<- <-]|[_ Hx]]; [|by apply (Hs x)].
  unfold ready. rewrite E. by apply (Hs t).
Qed.

Lemma unl_upd K c t tc tc' : running_unlinked c K → tasks K !! t = Some tc → smpInfo tc' = smpInfo tc →
  state tc' = state tc → running_unlinked c (set_tasks (<[t := tc']> (tasks K)) K).
Proof.
  intros Hu Ht Es Est r rc Hr. simpl. rewrite lookup_insert_Some. intros [[<- <-]|[_ Hx]]; [|by apply (Hu r)].
  unfold affCpu, ready. rewrite Es, Est. by apply (Hu t).
Qed.

Lemma inside_upd K t tc tc' : inside_ok K → tasks K !! t = Some tc → ready tc = true →
  smpInfo tc' = smpInfo tc → taskCurPriority tc' = taskCurPriority tc → state tc' = state tc →
  inside_ok (set_tasks (<[t := tc']> (tasks K)) K).
Proof.
  intros [Hb Hs Hu Hi] Ht Hr Es Ep Est. split; [|by eapply state_upd|by eapply unl_upd|done].
  eapply block_upd; try done. unfold ready. by rewrite Est.
Qed.

(** A field no queue looks at, of a task on no queue. *)
Lemma block_upd_free K t tc tc' : block_inv K → tasks K !! t = Some tc → wait_queue (wait tc) = None →
  t ∉ c_get TaskWaitedQ (oq K) → smpInfo tc' = smpInfo tc → taskCurPriority tc' = taskCurPriority tc →
  ready tc' = ready tc → block_inv (set_tasks (<[t := tc']> (tasks K)) K).
Proof.
  intros [Hi Hw Hq] Ht Hwq Hnt Hs Hp Er.
  assert (Hnq : ∀ w q, wqs K !! w = Some q → t ∉ wq_tasks q).
  { intros w q Hwq' Hin. destruct (wq_member _ Hq w q t Hwq' Hin) as (? & ? & _ & ?). congruence. }
  set (K' := set_tasks _ K).
  destruct (wait_inv_upd K K' t tc' Hw eq_refl eq_refl eq_refl Hnt Hnq) as [Hw' _].
  split; [|done|split].
  - eapply inv_upd_inert; try done. unfold queued_kind, affCpu, onCpu. by rewrite Hs.
  - apply (wq_nodup _ Hq).
  - intros w q x Hwq' Hx. simpl. rewrite lookup_insert_ne; [by apply (wq_member _ Hq w q)|].
    intros <-. by apply (Hnq w q).
  - apply (wq_apart _ Hq).
Qed.

Lemma inside_upd_free K t tc tc' : inside_ok K → tasks K !! t = Some tc → wait_queue (wait tc) = None →
  t ∉ c_get TaskWaitedQ (oq K) → smpInfo tc' = smpInfo tc → taskCurPriority tc' = taskCurPriority tc →
  state tc' = state tc → inside_ok (set_tasks (<[t := tc']> (tasks K)) K).
Proof.
  intros [Hb Hs Hu Hi] Ht Hwq Hnt Es Ep Est. split; [|by eapply state_upd|by eapply unl_upd|done].
  eapply block_upd_free; try done. unfold ready. by rewrite Est.
Qed.

(** The tick queue holds no ready task. *)
Lemma waited_upd K t tc tc' : block_inv K → tasks K !! t = Some tc → ready tc = true →
  waited (set_tasks (<[t := tc']> (tasks K)) K) = waited K.
Proof.
  intros Hb Ht Hr. unfold waited. apply view_ext. intros x Hx. apply wt_insert_ne. intros ->.
  destruct (wi_task _ (bi_wait _ Hb) t Hx) as (? & ? & ? & _). congruence.
Qed.

(** Blocking the running task. *)
Lemma blocked_inside_any K K' e ec w q ticks intr : inside_ok K → runningTask K !! this_cpu K = Some e →
  blocked e w ticks intr ec q K K' → flag_on TTOS_TASK_READY (blocked_state q intr) = false →
  flag_on TTOS_TASK_NONRUNNING_STATE (blocked_state q intr) = true → inside_ok K'.
Proof.
  intros [Hb Hs Hu Hi] Hr [Hb' He' [v Ht'] Hrest _ _ _] Hb1 Hb2. injection He' as Er _ _ _ _ Ec Ei _.
  split; [done|..].
  - intros x xc Hx. destruct (decide (x = e)) as [->|Hne].
    + simplify_eq. unfold ready. simpl. by rewrite Hb1, Hb2.
    + specialize (Hrest x Hne). rewrite Hx in Hrest. inversion Hrest as [a b Hab E1 E2|]; subst.
      rewrite Hab. exact (Hs x a (eq_sym E1)).
  - intros r rc. rewrite Ec, Er, Hr. intros [= <-] Hrc _ Hrd. simplify_eq. unfold ready in Hrd. simpl in Hrd.
    congruence.
  - by rewrite Ei.
Qed.

Lemma blocked_inside K K' e ec w q ticks intr : inside_ok K → runningTask K !! this_cpu K = Some e →
  blocked e w ticks intr ec q K K' → wq_state q = TTOS_TASK_WAITING_FOR_SEMAPHORE → inside_ok K'.
Proof.
  intros Hin Hr Hbl Hst. eapply blocked_inside_any; [done..| |]; unfold blocked_state; rewrite Hst; by destruct intr.
Qed.

(** Waking a task. *)
Lemma released_inside K K' t xs w tc q : inside_ok K → released t xs w tc q K K' → inside_ok K'.
Proof.
  intros [Hb Hs Hu Hi] [Hb' He' (tc' & Ht' & _ & _ & _ & Hnr & _) Hrest _ _ Hunl].
  injection He' as Er _ En _ _ Ec Ei _. split; [done|..].
  - intros x xc Hx. destruct (decide (x = t)) as [->|Hne].
    + simplify_eq. by rewrite Hnr, negb_involutive.
    + specialize (Hrest x Hne). rewrite Hx in Hrest. inversion Hrest as [a b Hab E1 E2|]; subst.
      rewrite Hab. exact (Hs x a (eq_sym E1)).
  - rewrite Ec. apply Hunl; [apply (si_this _ _ (bi_sched _ Hb))|done].
  - by rewrite Ei.
Qed.

(** A woken task is on no timeout queue. *)
Lemma released_untimed K K' t xs w tc q : inside_ok K → released t xs w tc q K K' →
  t ∉ c_get TaskWaitedQ (oq K').
Proof.
  intros Hin Hre. rewrite <- waited_ids, (re_waited _ _ _ _ _ _ _ Hre). apply extract_gone. rewrite waited_ids.
  apply (c_nodup _ (si_wf _ _ (bi_sched _ (is_block _ Hin)))).
Qed.

(** ** A counting semaphore *)

(** The count goes down by one, whatever comes of the call. *)
Definition count_down (e : tid) (c : sema) : sema :=
  let c1 := set_value (semaControlValue c - 1) c in
  if 0 <? semaControlValue c then set_holder (Some e) c1 else c1.

(** What a call of [TTOS_ObtainSemaWithInterruptFlags] by [e] does. *)
Definition obtained (id : wqid) (e : tid) (ticks : Z) (intr sigpend : bool) (c : sema) (q : wqueue)
    (W : sworld) (r : option retcode) (W' : sworld) : Prop :=
  let v := semaControlValue c in
  let waits := negb (0 <? v) && negb (ticks =? 0) && negb (intr && sigpend) in
  semas W' = <[id := count_down e c]> (semas W) ∧
  r = (if 0 <? v then Some TTOS_OK else if ticks =? 0 then Some TTOS_UNSATISFIED else None) ∧
  wqs (kern W') = (if waits then <[id := set_wq_tasks (wq_tasks q ++ [e]) q]> (wqs (kern W)) else wqs (kern W)) ∧
  waited (kern W') = (if waits && negb (ticks =? TTOS_WAIT_FOREVER)
                      then d_insert true e ticks (waited (kern W)) else waited (kern W)) ∧
  ∃ ec', tasks (kern W') !! e = Some ec' ∧ ready ec' = negb waits ∧
    (r = None → returnCode (wait ec') = TTOS_OK).

(** The parts of the state no call on one semaphore touches. *)
Definition elsewhere (W W' : sworld) : Prop :=
  inUsedResource W' = inUsedResource W ∧ sys (kern W') = sys (kern W).

Section Obtain.
Context (W : sworld) (id : wqid) (c : sema) (q : wqueue) (e : tid) (ec : tcb).
Let K := kern W.
Hypothesis Hok : calls_ok K.
Hypothesis Hat : sema_at id c q W.
Hypothesis Hcount : is_mutex c = false.
Hypothesis Hceil : isPriorityCeiling c = false.
Hypothesis Hlow : INT_MIN < semaControlValue c.
Hypothesis Hrun : runningTask K !! this_cpu K = Some e.
Hypothesis He : tasks K !! e = Some ec.
Hypothesis Hni : idleTask K !! this_cpu K ≠ Some e.

Let c1 := set_value (semaControlValue c - 1) c.
Let W1 := set_semas (<[id := c1]> (semas W)) (set_kern (locked 1 K) W).

Lemma obtain_enter ticks intr sigpend Φ :
  wp (if 0 <? semaControlValue c then
        _ ← take_sema id e; _ ← unlock; mret (Some TTOS_OK)
      else if ticks =? 0 then
        _ ← unlock; mret (Some TTOS_UNSATISFIED)
      else
        _ ← lk (upd_task e (upd_wait (set_returnCode TTOS_OK)));
        _ ← whenM (negb (intr && sigpend)) (lk (ttosEnqueueTaskq id ticks intr));
        cpu ← lk (gets this_cpu);
        level ← lk (ttosGetDisableScheduleLevelWithCpuID cpu);
        _ ← massert (level =? 1);
        _ ← unlock;
        mret None) W1 Φ →
  wp (TTOS_ObtainSemaWithInterruptFlags id ticks intr sigpend) W Φ.
Proof.
  intros Hk. destruct Hok as [[Hb Hs Hu Hisr] Hl Hrd]. destruct Hat as [Hin Hc Hq Hst Hfifo].
  unfold TTOS_ObtainSemaWithInterruptFlags. apply wp_bind, wp_lk, wp_gets. fold K. rewrite Hisr.
  apply wp_bind, wp_lk. unfold ttosGetRunningTask. apply wp_bind, wp_gets.
  unfold wp at 1, ttosGetRunningTaskWithCpuID. simpl. fold K. rewrite Hrun. simpl.
  replace (set_kern K W) with W by (by destruct W).
  apply wp_bind, wp_lk. unfold ttosIsIdleTask. apply wp_bind, wp_gets, wp_gets. fold K.
  rewrite bool_decide_false by done. replace (set_kern K W) with W by (by destruct W).
  apply wp_bind. eapply wp_mono; [by eapply sema_object_run|]. intros b W0 [-> ->]. simpl.
  apply wp_bind. eapply wp_get_sema; [done|]. apply wp_bind, wp_lk. eapply wp_get_task; [done|]. simpl.
  rewrite Hceil. simpl. apply wp_bind. unfold dec_value. apply wp_bind. eapply wp_get_sema; [done|].
  apply wp_bind, wp_assert; [by apply Z.ltb_lt|]. apply wp_bind. eapply wp_upd_sema; [done|]. apply wp_ret.
  unfold inherit_priority. rewrite Hcount. simpl.
  destruct (0 <? semaControlValue c); [exact Hk|]. destruct (ticks =? 0); [exact Hk|].
  apply wp_bind, wp_lk, wp_ret. exact Hk.
Qed.

Lemma inside_entered : inside_ok (locked 1 K).
Proof. apply inside_locked, Hok. Qed.

(** Leaving without waiting. *)
Lemma obtain_leave K1 c2 (r : option retcode) : inside_ok K1 → sys K1 = sys K → wqs K1 = wqs K → waited K1 = waited K →
  ttosDisableScheduleLevel K1 !! this_cpu K1 = Some 1 → (∃ ec1, tasks K1 !! e = Some ec1 ∧
    ready ec1 = true ∧ (r = None → returnCode (wait ec1) = TTOS_OK)) →
  wp (_ ← unlock; mret r) (set_semas (<[id := c2]> (semas W)) (set_kern K1 W)) (λ r' W',
    calls_ok (kern W') ∧ elsewhere W W' ∧ r' = r ∧ semas W' = <[id := c2]> (semas W) ∧
    wqs (kern W') = wqs K ∧ waited (kern W') = waited K ∧
    ∃ ec', tasks (kern W') !! e = Some ec' ∧ ready ec' = true ∧ (r = None → returnCode (wait ec') = TTOS_OK)).
Proof.
  intros Hi Hs Hq Hw Hl (ec1 & He1 & Hr1 & Hc1). apply wp_bind.
  eapply wp_mono; [by apply unlock_run|]. intros [] W' (K' & -> & Hok' & Hrs & Ew). apply wp_ret.
  destruct (evolves_task _ _ _ _ (rs_evolves _ _ Hrs) He1) as (ec' & He' & Hc). simpl in *.
  split_and!; try done.
  - split; [done|]. simpl. by rewrite (rs_sys _ _ Hrs).
  - by rewrite (rs_wqs _ _ Hrs).
  - by rewrite Ew.
  - exists ec'. destruct (calm_ready _ _ Hc) as [-> _], (calm_fields _ _ Hc) as [-> _]. done.
Qed.

(** Leaving by waiting: the caller [e], whose control block is [ec1] by now. *)
Lemma obtain_wait K2 c2 ec1 ticks intr : inside_ok K2 → sys K2 = sys K → wqs K2 = wqs K →
  waited K2 = waited K → runningTask K2 = runningTask K → tasks K2 !! e = Some ec1 → ready ec1 = true →
  smpInfo ec1 = smpInfo ec → returnCode (wait ec1) = TTOS_OK →
  ttosDisableScheduleLevel K2 !! this_cpu K2 = Some 1 → 0 ≤ ticks < 2 ^ 32 →
  wp (_ ← lk (ttosEnqueueTaskq id ticks intr);
      cpu ← lk (gets this_cpu);
      level ← lk (ttosGetDisableScheduleLevelWithCpuID cpu);
      _ ← massert (level =? 1);
      _ ← unlock;
      mret (@None retcode)) (set_semas (<[id := c2]> (semas W)) (set_kern K2 W)) (λ r W',
    calls_ok (kern W') ∧ elsewhere W W' ∧ r = None ∧ semas W' = <[id := c2]> (semas W) ∧
    wqs (kern W') = <[id := joined K2 q e]> (wqs K) ∧
    waited (kern W') = (if ticks =? TTOS_WAIT_FOREVER then waited K else d_insert true e ticks (waited K)) ∧
    ∃ ec', tasks (kern W') !! e = Some ec' ∧ ready ec' = false ∧ returnCode (wait ec') = TTOS_OK).
Proof.
  intros Hin2 Es2 Eq2 Ew2 Er2 He2 Hr2 Hs2 Hc2 Hl2 Hk. pose proof Es2 as [= Ei2 En2 _ _ Ec2 _].
  destruct Hat as [_ _ Hq Hst _]. assert (Hr2' : runningTask K2 !! this_cpu K2 = Some e) by (by rewrite Er2, Ec2).
  apply wp_bind, wp_lk. unfold ttosEnqueueTaskq. apply wp_bind. unfold ttosGetRunningTask.
  apply wp_bind, wp_gets. unfold wp at 1, ttosGetRunningTaskWithCpuID. simpl. rewrite Hr2'. simpl.
  eapply wp_mono; [apply (enqueue_run K2 e ec1 id q intr); try done|].
  - apply Hin2.
  - intros i. rewrite En2, Ei2.
    apply (running_not_idle K e ec (bi_sched _ (is_block _ (co_inside _ Hok))) Hrun He Hni).
  - intros Hqk. apply (is_unl _ Hin2 e ec1); try done. unfold queued_kind in Hqk.
    by apply orb_false_iff in Hqk as [H%bool_decide_eq_false _]; apply dec_stable.
  - by rewrite Eq2.
  - by rewrite Hst.
  - intros [] K3 Hbl. pose proof (blocked_inside K2 K3 e ec1 id q ticks intr Hin2 Hr2' Hbl Hst) as Hin3.
    pose proof (bl_env _ _ _ _ _ _ _ _ Hbl) as [= _ Ei3 En3 Een3 Ere3 Ec3 Eisr3 El3].
    apply wp_bind, wp_lk, wp_gets, wp_bind, wp_lk. simpl.
    unfold ttosGetDisableScheduleLevelWithCpuID, wp at 1. simpl. rewrite Ec3, El3, Hl2. simpl.
    apply wp_bind, wp_assert; [done|]. apply wp_bind.
    eapply wp_mono; [apply unlock_run; [exact Hin3|by rewrite <- Hl2, <- El3, <- Ec3]|].
    intros [] W' (K4 & -> & Hok4 & Hrs & Ew4). apply wp_ret. simpl in *.
    destruct (bl_task _ _ _ _ _ _ _ _ Hbl) as [v Ht3].
    destruct (evolves_task _ _ _ _ (rs_evolves _ _ Hrs) Ht3) as (ec' & He' & Hc).
    destruct (calm_ready _ _ Hc) as [Hrd _], (calm_fields _ _ Hc) as [Hwt _].
    split_and!; try done.
    + split; [done|]. simpl. etrans; [apply Hrs|]. etrans; [|exact Es2]. unfold sys. congruence.
    + by rewrite (rs_wqs _ _ Hrs), (bl_wqs _ _ _ _ _ _ _ _ Hbl), Eq2.
    + by rewrite Ew4, (bl_waited _ _ _ _ _ _ _ _ Hbl), Ew2.
    + exists ec'. split_and!; [done| |by rewrite Hwt]. rewrite Hrd. unfold ready. simpl.
      apply blocked_not_ready. by rewrite Hst.
Qed.

(** [TTOS_ObtainSemaWithInterruptFlags] on a counting semaphore. *)
Lemma obtain_run ticks intr sigpend : 0 ≤ ticks < 2 ^ 32 →
  wp (TTOS_ObtainSemaWithInterruptFlags id ticks intr sigpend) W (λ r W',
    calls_ok (kern W') ∧ elsewhere W W' ∧ obtained id e ticks intr sigpend c q W r W').
Proof.
  intros Hk. apply obtain_enter. pose proof inside_entered as Hin1. pose proof (co_ready _ Hok e ec Hrun He) as Hrd.
  pose proof (locked_level 1 K) as Hl1. unfold obtained, count_down.
  destruct (0 <? semaControlValue c) eqn:Hv; simpl.
  { unfold take_sema. apply wp_bind, wp_bind. eapply wp_upd_sema; [apply lookup_insert_eq|]. apply wp_bind.
    eapply wp_get_sema; [apply lookup_insert_eq|]. simpl. change (is_mutex _) with (is_mutex c). rewrite Hcount.
    apply wp_ret. simpl. rewrite insert_insert_eq.
    eapply wp_mono; [apply (obtain_leave (locked 1 K) (set_holder (Some e) c1) (Some TTOS_OK)); try done; by exists ec|].
    intros r W' (? & ? & -> & ? & ? & ? & ?). done. }
  destruct (ticks =? 0) eqn:Ht; simpl.
  { eapply wp_mono; [apply (obtain_leave (locked 1 K) c1 (Some TTOS_UNSATISFIED)); try done; by exists ec|].
    intros r W' (? & ? & -> & ? & ? & ? & ?). done. }
  apply wp_bind, wp_lk. eapply wp_upd_task; [exact He|]. set (ec1 := upd_wait _ ec). set (K2 := set_tasks _ _).
  assert (Hin2 : inside_ok K2) by (by eapply inside_upd).
  assert (Hw2 : waited K2 = waited K) by (by apply (waited_upd (locked 1 K) e ec); [apply inside_entered|..]).
  assert (He2 : tasks K2 !! e = Some ec1) by apply lookup_insert_eq.
  destruct (intr && sigpend) eqn:Hsig; simpl.
  - apply wp_bind, wp_ret, wp_bind, wp_lk, wp_gets, wp_bind, wp_lk. simpl.
    unfold ttosGetDisableScheduleLevelWithCpuID, wp at 1. simpl. rewrite lookup_insert_eq. simpl.
    apply wp_bind, wp_assert; [done|].
    eapply wp_mono; [apply (obtain_leave K2 c1 None); try done; by exists ec1|].
    intros r W' (? & ? & -> & ? & ? & ? & ?). done.
  - eapply wp_mono; [by apply (obtain_wait K2 c1 ec1 ticks intr)|].
    intros r W' (? & ? & -> & ? & Eq' & Ew' & ec' & ? & ? & ?). split_and!; try done.
    + rewrite Eq'. unfold joined. rewrite (sa_kind _ _ _ _ Hat), Hcount. done.
    + rewrite Ew'. by destruct (ticks =? TTOS_WAIT_FOREVER).
    + by exists ec'.
Qed.

End Obtain.

(** The count goes up by one, up to the largest [int]. *)
Definition count_up (c : sema) : sema :=
  if semaControlValue c <? INT_MAX then set_value (semaControlValue c + 1) c else c.

(** What a call of [TTOS_ReleaseSemaReturnTask] does: the first waiting task leaves
    both queues, keeps the code of its wait, and runs again if nothing else stops
    it. *)
Definition given (id : wqid) (c : sema) (q : wqueue) (W W' : sworld) : Prop :=
  semas W' = <[id := count_up c]> (semas W) ∧
  match wq_tasks q with
  | [] => wqs (kern W') = wqs (kern W) ∧ waited (kern W') = waited (kern W)
  | t :: xs =>
      wqs (kern W') = <[id := set_wq_tasks xs q]> (wqs (kern W)) ∧
      waited (kern W') = d_extract t (waited (kern W)) ∧
      ∃ tc tc', tasks (kern W) !! t = Some tc ∧ tasks (kern W') !! t = Some tc' ∧
        wait tc' = set_wait_queue None (wait tc) ∧
        ready tc' = negb (flag_on TTOS_TASK_NONRUNNING_STATE (clear_flag TTOS_TASK_WAITING (state tc)))
  end.

(** The middle of the release of a counting semaphore. *)
Lemma dequeue_inside K id q : inside_ok K → wqs K !! id = Some q →
  wp (ttosDequeueTaskq id) K (λ o K', inside_ok K' ∧ env K' = env K ∧ o = head (wq_tasks q) ∧
    match wq_tasks q with
    | [] => K' = K
    | t :: xs => ∃ tc, tasks K !! t = Some tc ∧ released t xs id tc q K K'
    end).
Proof.
  intros Hin Hq. destruct (wq_tasks q) as [|t xs] eqn:Hxs.
  - unfold wp. by rewrite (dequeue_empty_run K id q Hq Hxs).
  - destruct (wq_member _ (bi_wqs _ (is_block _ Hin)) id q t Hq) as (tc & Ht & _); [rewrite Hxs; left|].
    eapply wp_mono; [by apply (dequeue_run K t xs tc id q (is_block _ Hin))|].
    intros o K' [-> Hre]. split_and!; try done; [by eapply released_inside|apply Hre|by exists tc].
Qed.

Lemma release_run W id c q l : inside_ok (kern W) → sema_at id c q W → is_mutex c = false → 0 ≤ l < 2 ^ 32 →
  ttosDisableScheduleLevel (kern W) !! this_cpu (kern W) = Some l →
  wp (TTOS_ReleaseSemaReturnTask id) W (λ r W', elsewhere W W' ∧ given id c q W W' ∧
    r = (TTOS_OK, head (wq_tasks q)) ∧
    if l =? 0 then calls_ok (kern W') else inside_ok (kern W') ∧
      ttosDisableScheduleLevel (kern W') !! this_cpu (kern W') = Some l).
Proof.
  intros Hin [Huse Hc Hq Hst Hfifo] Hm Hlb Hl. set (K := kern W) in *.
  destruct (si_run _ _ (bi_sched _ (is_block _ Hin)) _ (si_this _ _ (bi_sched _ (is_block _ Hin)))) as (e & ec & He & Hec & _).
  unfold TTOS_ReleaseSemaReturnTask. apply wp_bind, wp_lk. unfold ttosGetRunningTask. apply wp_bind, wp_gets.
  unfold wp at 1, ttosGetRunningTaskWithCpuID. simpl. fold K. rewrite He. simpl.
  replace (set_kern K W) with W by (by destruct W).
  apply wp_bind. eapply wp_mono; [by eapply sema_object_run|]. intros b W0 [-> ->]. simpl. fold K.
  replace (u64 (l + 1)) with (l + 1) by (symmetry; apply u64_small; lia).
  apply wp_bind. eapply wp_get_sema; [done|]. rewrite Hm. apply wp_bind, wp_ret, wp_bind.
  eapply wp_get_sema; [done|]. apply wp_bind.
  assert (Hup : wp (whenM (semaControlValue c <? INT_MAX) (upd_sema id (set_value (semaControlValue c + 1))))
    (set_kern (locked (l + 1) K) W) (λ _ W', W' = set_semas (<[id := count_up c]> (semas W)) (set_kern (locked (l + 1) K) W))).
  { unfold count_up. apply wp_when; intros ->; [by eapply wp_upd_sema|]. rewrite insert_id by done. by destruct W. }
  eapply wp_mono; [exact Hup|]. intros [] W1 ->. clear Hup.
  apply wp_bind, wp_lk. eapply wp_mono; [apply (dequeue_inside (locked (l + 1) K) id q); [by apply inside_locked|done]|].
  intros o K2 (Hin2 & He2 & -> & Hcase). simpl in *.
  apply wp_bind. eapply (wp_mono _ _ (λ _ W', W' = set_kern K2 (set_semas (<[id := count_up c]> (semas W)) (set_kern (locked (l + 1) K) W)))).
  { destruct (wq_tasks q) as [|t xs]; simpl; [by apply wp_ret|]. apply wp_bind.
    eapply wp_get_sema; [apply lookup_insert_eq|].
    replace (is_mutex (count_up c)) with false; [by apply wp_ret|].
    unfold count_up. by destruct (_ <? _). }
  intros [] W2 ->. apply wp_bind.
  eapply wp_mono; [apply (unlock_any _ l); [exact Hin2|done|]|].
  { simpl. injection He2 as _ _ _ _ _ -> _ ->. apply lookup_insert_eq. }
  intros [] W' (K3 & -> & Hrs & Ew3 & Hend). apply wp_ret. simpl in *.
  pose proof (rs_sys _ _ Hrs) as Es3. pose proof (rs_wqs _ _ Hrs) as Eq3.
  split_and!; try done.
  - split; [done|]. simpl. rewrite Es3. by apply (env_sys (locked (l + 1) K)).
  - split; [done|]. simpl. fold K. destruct (wq_tasks q) as [|t xs].
    + subst K2. by rewrite Eq3, Ew3.
    + destruct Hcase as (tc & Ht & Hre). split_and!.
      * by rewrite Eq3, (re_wqs _ _ _ _ _ _ _ Hre).
      * by rewrite Ew3, (re_waited _ _ _ _ _ _ _ Hre).
      * destruct (re_task _ _ _ _ _ _ _ Hre) as (tc2 & Ht2 & Hw2 & _ & Hr2 & _).
        destruct (evolves_task _ _ _ _ (rs_evolves _ _ Hrs) Ht2) as (tc3 & Ht3 & Hcm).
        destruct (calm_ready _ _ Hcm) as [Hr3 _], (calm_fields _ _ Hcm) as [Hw3 _].
        exists tc, tc3. split_and!; [done..|by rewrite Hw3|by rewrite Hr3].
Qed.
