(* ===== verification/SemaProps.v ===== *)
(** * Theorems on semaphores and mutexes

    The operations of a counting semaphore on every branch, sequences of them
    against an abstract counter with a queue, resetting, priority changes, and
    the ways in which the count goes wrong. *)

From S2P Require Import Prelude Chain PrioMap DeltaQ Kernel Sched Frame SchedInv Dispatch SchedProps Service Wait WaitInv WaitProps Block Names Sema SemaInv.
From Stdlib Require Import Init.Byte.
Import Width.
Local Open Scope Z_scope.

(** ** One call *)

(** C37: [TTOS_ObtainSemaWithInterruptFlags] on a counting semaphore, called by a
    task that is not an idle task, never faults and keeps the invariants of the
    ready, tick and wait queues.  With a positive count the caller gets it at
    once; otherwise a call that may not wait is refused, and one that may puts the
    caller at the end of the wait queue, with its deadline on the tick queue, and
    another task runs.  A pending signal keeps an interruptible caller off the
    queue.  On every one of these branches the count goes down by one. *)
Theorem obtain_sema_correct W id c q e ticks intr sigpend :
  calls_ok (kern W) → sema_at id c q W → is_mutex c = false → isPriorityCeiling c = false →
  INT_MIN < semaControlValue c → 0 ≤ ticks < 2 ^ 32 →
  runningTask (kern W) !! this_cpu (kern W) = Some e → idleTask (kern W) !! this_cpu (kern W) ≠ Some e →
  ∃ r W', TTOS_ObtainSemaWithInterruptFlags id ticks intr sigpend W = Some (r, W') ∧
    calls_ok (kern W') ∧ elsewhere W W' ∧ obtained id e ticks intr sigpend c q W r W'.
Proof.
  intros Hok Hat Hm Hc Hlow Hk Hr Hni. destruct (co_inside _ Hok) as [[Hi _ _] _ _ _].
  destruct (si_run _ _ Hi _ (si_this _ _ Hi)) as (e' & ec & He' & Hec & _). simplify_eq.
  pose proof (obtain_run W id c q e ec Hok Hat Hm Hc Hlow Hr Hec Hni ticks intr sigpend Hk) as Hwp.
  apply wp_run in Hwp as (r & W' & ? & ? & ? & ?). by exists r, W'.
Qed.

(** [TTOS_ReleaseSemaReturnTask] on a counting semaphore, from a task, never
    faults and keeps the invariants: the count goes up by one (it stays at
    [INT_MAX]), the first waiting task, if there is one, leaves the wait queue and
    the tick queue and is ready unless something else stops it, and every other
    deadline is kept. *)
Theorem release_sema_correct W id c q :
  calls_ok (kern W) → sema_at id c q W → is_mutex c = false →
  ∃ W', TTOS_ReleaseSemaReturnTask id W = Some ((TTOS_OK, head (wq_tasks q)), W') ∧
    calls_ok (kern W') ∧ elsewhere W W' ∧ given id c q W W'.
Proof.
  intros [Hin Hl Hrd] Hat Hm. pose proof (release_run W id c q 0 Hin Hat Hm) as Hwp.
  destruct (proj1 (wp_run _ _ _) (Hwp ltac:(lia) Hl)) as (r & W' & Hr & ? & ? & -> & ?). by exists W'.
Qed.

(** ** Sequences of calls *)

(** A call of [TTOS_ObtainSemaWithInterruptFlags], with whether a signal is pending,
    or of [TTOS_ReleaseSemaReturnTask]. *)
Inductive sop := Obtain (ticks : Z) (is_interruptable sigpend : bool) | Release.

(** What the calls answer: [None] for an obtain that waits, the task a release woke. *)
Inductive sres := Answer (r : option retcode) | Woken (t : option tid).

(** A call with the task that makes it, whether that is an idle task, and the answer. *)
Abbreviation event := (tid * bool * sres)%type.

Definition sem_exec (id : wqid) (o : sop) : M sworld event :=
  e ← lk ttosGetRunningTask;
  idle ← lk (ttosIsIdleTask e);
  r ← match o with
      | Obtain ticks intr sigpend => r ← TTOS_ObtainSemaWithInterruptFlags id ticks intr sigpend; mret (Answer r)
      | Release => r ← TTOS_ReleaseSemaReturnTask id; mret (Woken r.2)
      end;
  mret (e, idle, r).

Fixpoint sem_exec_all (id : wqid) (os : list sop) : M sworld (list event) :=
  match os with
  | [] => mret []
  | o :: os => ev ← sem_exec id o; evs ← sem_exec_all id os; mret (ev :: evs)
  end.

(** An abstract semaphore: a count and the tasks that wait, in order.  The count goes
    down with every obtain; a caller that finds it positive goes on, others wait
    behind the rest, unless they may not or a signal is pending. *)
Definition sem_spec (e : tid) (idle : bool) (o : sop) (a : Z * list tid) : sres * (Z * list tid) :=
  let '(v, xs) := a in
  match o with
  | Obtain ticks intr sigpend =>
      if idle then (Answer (Some TTOS_INVALID_USER), a)
      else if 0 <? v then (Answer (Some TTOS_OK), (v - 1, xs))
      else if ticks =? 0 then (Answer (Some TTOS_UNSATISFIED), (v - 1, xs))
      else (Answer None, (v - 1, if intr && sigpend then xs else xs ++ [e]))
  | Release => (Woken (head xs), (v + 1, tail xs))
  end.

Inductive sem_run : Z * list tid → list sop → list event → Z * list tid → Prop :=
| run_nil a : sem_run a [] [] a
| run_cons a e idle o r b os evs d : sem_spec e idle o a = (r, b) → sem_run b os evs d →
    sem_run a (o :: os) ((e, idle, r) :: evs) d.

(** The units a semaphore stands for, and when it is sound: none is owed, and no
    task waits while one is there. *)
Definition tokens (a : Z * list tid) : Z := a.1 + Z.of_nat (length a.2).
Definition sound (a : Z * list tid) : Prop := 0 ≤ tokens a ∧ (a.2 ≠ [] → tokens a = 0).

(** A release that wakes nobody adds a unit; an obtain that goes on takes one, and so
    does one that is refused or kept from waiting by a signal. *)
Definition gain (o : sop) (r : sres) : Z :=
  match r, o with
  | Woken None, _ => 1
  | Answer (Some TTOS_OK), _ | Answer (Some TTOS_UNSATISFIED), _ => -1
  | Answer None, Obtain _ true true => -1
  | _, _ => 0
  end.

Fixpoint gains (os : list sop) (evs : list event) : Z :=
  match os, evs with o :: os, ev :: evs => gain o ev.2 + gains os evs | _, _ => 0 end.

(** An obtain that waits when it must. *)
Definition patient (o : sop) : Prop :=
  match o with Obtain ticks intr sigpend => ticks ≠ 0 ∧ intr && sigpend = false | Release => True end.

Lemma spec_tokens e idle o a r b : sem_spec e idle o a = (r, b) →
  tokens b = tokens a + gain o r ∧ (patient o → sound a → sound b).
Proof.
  destruct a as [v xs], o as [ticks intr sigpend|]; unfold sound, tokens; simpl.
  - destruct idle; [intros [= <- <-]; simpl; split; [lia|done]|].
    destruct (Z.ltb_spec 0 v) as [Hv|Hv].
    { intros [= <- <-]. simpl. split; [lia|]. intros _ [H1 H2]. destruct xs as [|x xs]; [simpl in *; split; [lia|done]|].
      specialize (H2 ltac:(done)). simpl in *. exfalso. lia. }
    destruct (Z.eqb_spec ticks 0) as [->|Ht]; [intros [= <- <-]; simpl; split; [lia|by intros [? _]]|].
    destruct (intr && sigpend) eqn:Es; intros [= <- <-]; simpl.
    { apply andb_true_iff in Es as [-> ->]. split; [lia|]. intros [_ ?]. done. }
    assert (Eg : gain (Obtain ticks intr sigpend) (Answer None) = 0) by (by destruct intr, sigpend).
    simpl in Eg. rewrite Eg, length_app. simpl. split; [lia|]. intros _ [H1 H2]. split; [lia|intros _].
    destruct xs as [|x xs]; [simpl in *; lia|]. specialize (H2 ltac:(done)). lia.
  - intros [= <- <-]. destruct xs as [|t xs]; simpl; (split; [lia|]); intros _ [H1 H2]; simpl in *.
    + split; [lia|done].
    + specialize (H2 ltac:(done)). split; [lia|intros; lia].
Qed.

Lemma run_tokens a os evs b : sem_run a os evs b →
  tokens b = tokens a + gains os evs ∧ (Forall patient os → sound a → sound b).
Proof.
  induction 1 as [a|a e idle o r b os evs d Hs _ [IH1 IH2]]; [split; [simpl; lia|done]|].
  simpl. destruct (spec_tokens _ _ _ _ _ _ Hs) as [E1 E2]. split; [lia|]. intros [? ?]%Forall_cons ?. auto.
Qed.

(** A counting semaphore with its state. *)
Definition counter_at (id : wqid) (a : Z * list tid) (W : sworld) : Prop :=
  ∃ c q, sema_at id c q W ∧ is_mutex c = false ∧ isPriorityCeiling c = false ∧
    a = (semaControlValue c, wq_tasks q).

(** After a call that set the count and the tasks waiting. *)
Lemma counter_after id c q c' xs W W' : sema_at id c q W → elsewhere W W' →
  semas W' = <[id := c']> (semas W) → wqs (kern W') !! id = Some (set_wq_tasks xs q) →
  is_mutex c' = false → isPriorityCeiling c' = false → is_mutex c = false →
  counter_at id (semaControlValue c', xs) W'.
Proof.
  intros [Hu Hc Hq Hst Hf] [Eu _] Es Eq Hm Hp Hm0. exists c', (set_wq_tasks xs q). split_and!; try done.
  split; simpl; try done; [by rewrite Eu|by rewrite Es, lookup_insert_eq|by rewrite Hm, Hf, Hm0].
Qed.

Lemma set_wq_same q : set_wq_tasks (wq_tasks q) q = q.
Proof. by destruct q. Qed.

(** An idle task may not wait for a semaphore. *)
Lemma obtain_idle W id ticks intr sigpend e : in_isr (kern W) = false →
  runningTask (kern W) !! this_cpu (kern W) = Some e → idleTask (kern W) !! this_cpu (kern W) = Some e →
  TTOS_ObtainSemaWithInterruptFlags id ticks intr sigpend W = Some (Some TTOS_INVALID_USER, W).
Proof.
  intros Hisr Hr Hi.
  enough (Hwp : wp (TTOS_ObtainSemaWithInterruptFlags id ticks intr sigpend) W
    (λ r W', r = Some TTOS_INVALID_USER ∧ W' = W)).
  { by apply wp_run in Hwp as (r & W' & ? & -> & ->). }
  unfold TTOS_ObtainSemaWithInterruptFlags. apply wp_bind, wp_lk, wp_gets. rewrite Hisr.
  apply wp_bind, wp_lk. unfold ttosGetRunningTask. apply wp_bind, wp_gets.
  unfold wp at 1, ttosGetRunningTaskWithCpuID. simpl. rewrite Hr. simpl.
  apply wp_bind, wp_lk. unfold ttosIsIdleTask. apply wp_bind, wp_gets, wp_gets. simpl.
  rewrite bool_decide_true by done. apply wp_ret. split; [done|]. by destruct W.
Qed.

(** One call against the abstract semaphore. *)
Lemma sem_exec_run W id o a : calls_ok (kern W) → counter_at id a W →
  match o with Obtain ticks _ _ => 0 ≤ ticks < 2 ^ 32 | Release => True end → INT_MIN < a.1 < INT_MAX →
  wp (sem_exec id o) W (λ ev W', calls_ok (kern W') ∧
    ∃ b, counter_at id b W' ∧ sem_spec ev.1.1 ev.1.2 o a = (ev.2, b) ∧ a.1 - 1 ≤ b.1 ≤ a.1 + 1).
Proof.
  intros Hok (c & q & Hat & Hm & Hp & ->) Ho Hv. simpl in Hv. pose proof (co_inside _ Hok) as [[Hi Hwi Hq] Hs Hu Hisr].
  destruct (si_run _ _ Hi _ (si_this _ _ Hi)) as (e & ec & He & Hec & _). unfold sem_exec.
  apply wp_bind, wp_lk. unfold ttosGetRunningTask. apply wp_bind, wp_gets.
  unfold wp at 1, ttosGetRunningTaskWithCpuID. simpl. rewrite He. simpl.
  replace (set_kern (kern W) W) with W by (by destruct W).
  apply wp_bind, wp_lk. unfold ttosIsIdleTask. apply wp_bind, wp_gets, wp_gets. simpl.
  replace (set_kern (kern W) W) with W by (by destruct W). apply wp_bind.
  destruct o as [ticks intr sigpend|]; apply wp_bind; [case_bool_decide as Hid|].
  - unfold wp at 1. rewrite (obtain_idle W id ticks intr sigpend e Hisr He Hid). simpl.
    split; [done|]. exists (semaControlValue c, wq_tasks q). split_and!; [by exists c, q|done|simpl; lia..].
  - eapply wp_mono; [apply (obtain_run W id c q e ec); try done; lia|].
    intros r W' (Hok' & Hel & Es & -> & Eq & _ & _). apply wp_ret, wp_ret. split; [done|]. cbn [fst snd].
    assert (Hcd : ∀ xs, wqs (kern W') !! id = Some (set_wq_tasks xs q) → counter_at id (semaControlValue c - 1, xs) W').
    { intros xs Ex. pose proof (counter_after id c q _ xs W W' Hat Hel Es Ex) as Hca. unfold count_down in *.
      destruct (0 <? semaControlValue c); by apply Hca. }
    assert (Hsame : wqs (kern W) !! id = Some (set_wq_tasks (wq_tasks q) q)) by (rewrite set_wq_same; apply Hat).
    simpl. destruct (0 <? semaControlValue c); simpl in *; [eexists; split_and!; [by apply Hcd; rewrite Eq|done|simpl; lia..]|].
    destruct (ticks =? 0); simpl in *; [eexists; split_and!; [by apply Hcd; rewrite Eq|done|simpl; lia..]|].
    destruct (intr && sigpend); simpl in *.
    + eexists; split_and!; [by apply Hcd; rewrite Eq|done|simpl; lia..].
    + eexists; split_and!; [apply Hcd; rewrite Eq; apply lookup_insert_eq|done|simpl; lia..].
  - eapply wp_mono; [apply (release_run W id c q 0); try done; apply Hok|].
    intros r W' (Hel & [Es Hg] & -> & Hok'). apply wp_ret, wp_ret. split; [done|]. simpl.
    unfold count_up in Es. rewrite (proj2 (Z.ltb_lt (semaControlValue c) INT_MAX)) in Es by lia.
    eexists. split_and!; [eapply (counter_after id c q _ (tail (wq_tasks q)) W W'); try done|done|simpl; lia..].
    destruct (wq_tasks q) as [|t xs] eqn:Exs; simpl; destruct Hg as [-> _].
    + rewrite <- Exs, set_wq_same. apply Hat.
    + apply lookup_insert_eq.
Qed.

(** C7: any sequence of obtains and releases of a counting semaphore, each made by
    whatever task the scheduler runs on the CPU, with any timeout, interruptible or
    not, with or without a signal pending, never faults and answers every call as
    the abstract semaphore does: a unit is granted exactly when the count is
    positive, callers that wait queue up in order, a release wakes the first of them
    or frees a unit.  No wait times out between the calls, the idle task is refused,
    and the count stays inside the range of an int.  So the units change by what [gain] says of each call, and as
    long as every obtain waits when it must, no unit is owed and no task waits while
    one is free, if that was so at the start. *)
Theorem semaphore_trace_correct os W id a :
  calls_ok (kern W) → counter_at id a W → (∀ ticks intr sigpend, Obtain ticks intr sigpend ∈ os → 0 ≤ ticks < 2 ^ 32) →
  INT_MIN + Z.of_nat (length os) < a.1 < INT_MAX - Z.of_nat (length os) →
  ∃ evs W' b, sem_exec_all id os W = Some (evs, W') ∧ calls_ok (kern W') ∧ counter_at id b W' ∧
    sem_run a os evs b ∧ tokens b = tokens a + gains os evs ∧ (Forall patient os → sound a → sound b).
Proof.
  intros Hok Hat Hticks Hv.
  enough (Hwp : wp (sem_exec_all id os) W (λ evs W', calls_ok (kern W') ∧
    ∃ b, counter_at id b W' ∧ sem_run a os evs b)).
  { apply wp_run in Hwp as (evs & W' & ? & ? & b & ? & Hrun). destruct (run_tokens _ _ _ _ Hrun). by exists evs, W', b. }
  revert W a Hok Hat Hticks Hv. induction os as [|o os IH]; intros W a Hok Hat Hticks Hv; simpl.
  { apply wp_ret. split; [done|]. exists a. split; [done|constructor]. }
  simpl length in Hv. apply wp_bind. eapply wp_mono; [apply (sem_exec_run W id o a Hok Hat)|].
  - destruct o as [ticks intr sigpend|]; [eapply Hticks; left|done].
  - lia.
  - intros [[e idle] r] W1 (Hok1 & b & Hat1 & Hst & Hb). apply wp_bind.
    eapply wp_mono; [apply (IH W1 b Hok1 Hat1); [intros ticks ? ? Ht; eapply Hticks; by right|lia]|].
    intros evs W2 (Hok2 & d & Hat2 & Hrun). apply wp_ret. split; [done|]. exists d. split; [done|].
    by econstructor.
Qed.

(** ** A world with one semaphore

    Semaphore 7 on the kernel in which task 3 runs on CPU 0, with task 4 ready
    there at the same priority and task 2 running on CPU 1. *)

Definition sema_queue (c : sema) : wqueue := WQueue (negb (is_mutex c)) TTOS_TASK_WAITING_FOR_SEMAPHORE [].

Definition sema_kernel (c : sema) : kernel := set_wqs {[7%nat := sema_queue c]} busy_kernel.

Definition sema_world (c : sema) : sworld := SWorld (sema_kernel c) {[7%nat := c]} [7%nat] [] 1 1 4.

Definition plain (v : Z) : sema := Sema [] TTOS_COUNTING_SEMAPHORE v false 0 None 0.

Lemma sema_world_at c : sema_at 7 c (sema_queue c) (sema_world c).
Proof. split; [left|reflexivity..]. Qed.

(** A kernel without waiting tasks, with one empty wait queue. *)
Lemma one_queue_ok K t tc q : kernel_inv K → c_get TaskWaitedQ (oq K) = [] →
  runningTask K !! this_cpu K = Some t → tasks K !! t = Some tc → ready tc = true →
  affCpu tc ≠ None → in_isr K = false → ttosDisableScheduleLevel K !! this_cpu K = Some 0 →
  map_Forall (λ _ tc, ready tc = negb (flag_on TTOS_TASK_NONRUNNING_STATE (state tc))) (tasks K) →
  wq_tasks q = [] → calls_ok (set_wqs {[7%nat := q]} K).
Proof.
  intros Hk Hw Hr Ht Hrd Ha Hi Hl Hs Hq.
  assert (Hqs : ∀ w q' x, ({[7%nat := q]} : gmap wqid wqueue) !! w = Some q' → x ∉ wq_tasks q').
  { intros w q' x [_ <-]%lookup_singleton_Some. rewrite Hq. apply not_elem_of_nil. }
  split; [split; [split|..]|..]; simpl; try done.
  - by apply inv_set_wqs.
  - split; simpl; rewrite ?Hw.
    + intros x Hin. by apply not_elem_of_nil in Hin.
    + unfold waited. simpl. rewrite Hw. constructor.
    + intros w q' x xc Hq' Hin. by apply (Hqs w) in Hin.
  - split; simpl.
    + intros w q' [_ <-]%lookup_singleton_Some. rewrite Hq. constructor.
    + intros w q' x Hq' Hin. by apply (Hqs w) in Hin.
    + intros w q' x o Hq' Hin. by apply (Hqs w) in Hin.
  - intros r rc. simpl. rewrite Hr. intros [= <-]. rewrite Ht. intros [= <-]. done.
  - intros r rc. rewrite Hr. intros [= <-]. rewrite Ht. by intros [= <-].
Qed.

Definition runner : tcb := first_run_over (switched_in 0 (made_ready (mk_task 0 20 (Some 0%nat) None))).

Lemma sema_world_ok c : calls_ok (kern (sema_world c)).
Proof.
  apply (one_queue_ok busy_kernel 3 runner); [apply busy_inv|vm_compute; reflexivity..| | | | |].
  - vm_compute. discriminate.
  - vm_compute. reflexivity.
  - vm_compute. reflexivity.
  - apply (bool_decide_unpack _). vm_compute. exact I.
  - reflexivity.
Qed.

Lemma obtain_sema_correct_witness :
  ∃ W', TTOS_ObtainSemaWithInterruptFlags 7 5 false false (sema_world (plain 0)) = Some (None, W') ∧
    calls_ok (kern W') ∧ wqs (kern W') !! 7%nat = Some (set_wq_tasks [3%nat] (sema_queue (plain 0))).
Proof.
  destruct (obtain_sema_correct (sema_world (plain 0)) 7 (plain 0) (sema_queue (plain 0)) 3 5 false false)
    as (r & W' & Hr & Hok & _ & _ & Er & Eq & _).
  - apply sema_world_ok.
  - apply sema_world_at.
  - reflexivity.
  - reflexivity.
  - reflexivity.
  - lia.
  - vm_compute. reflexivity.
  - vm_compute. discriminate.
  - exists W'. rewrite Er in Hr. split; [exact Hr|]. split; [exact Hok|]. rewrite Eq. reflexivity.
Defined.

Lemma release_sema_correct_witness :
  ∃ W', TTOS_ReleaseSemaReturnTask 7 (sema_world (plain 2)) = Some ((TTOS_OK, None), W') ∧
    semas W' !! 7%nat = Some (plain 3).
Proof.
  destruct (release_sema_correct (sema_world (plain 2)) 7 (plain 2) (sema_queue (plain 2))) as (W' & Hr & _ & _ & Es & _).
  - apply sema_world_ok.
  - apply sema_world_at.
  - reflexivity.
  - exists W'. split; [exact Hr|]. rewrite Es. reflexivity.
Defined.

Definition demo_calls : list sop := [Obtain 5 true false; Obtain 9 false true; Release; Release].

Lemma semaphore_trace_correct_witness :
  ∃ evs W' b, sem_exec_all 7 demo_calls (sema_world (plain 1)) = Some (evs, W') ∧
    counter_at 7 b W' ∧ sem_run (1, []) demo_calls evs b ∧ sound b.
Proof.
  assert (Hs0 : sound (1, [])) by (split; [unfold tokens; simpl; lia|done]).
  destruct (semaphore_trace_correct demo_calls (sema_world (plain 1)) 7 (1, []))
    as (evs & W' & b & Hr & _ & Hb & Hrun & _ & Hs).
  - apply sema_world_ok.
  - exists (plain 1), (sema_queue (plain 1)). split; [apply sema_world_at|]. repeat split.
  - intros ticks intr sigpend Hin. unfold demo_calls in Hin. rewrite !elem_of_cons, elem_of_nil in Hin. naive_solver lia.
  - simpl. unfold INT_MIN, INT_MAX. lia.
  - exists evs, W', b. split; [exact Hr|]. split; [exact Hb|]. split; [exact Hrun|]. apply Hs; [|exact Hs0].
    unfold demo_calls. repeat apply Forall_cons_2; [split; [discriminate|reflexivity]..|exact I|exact I|apply Forall_nil_2].
Defined.

(** ** Resetting *)

(** Every task of [xs] in turn off the queue. *)
Lemma reset_run n : ∀ fuel W id c q count,
  inside_ok (kern W) → sema_at id c q W → is_mutex c = false → isPriorityCeiling c = false →
  ttosDisableScheduleLevel (kern W) !! this_cpu (kern W) = Some 1 → count ≤ INT_MAX →
  n = Z.to_nat (count - semaControlValue c) → (n < fuel)%nat →
  wp (reset_loop fuel count id) W (λ _ W', inside_ok (kern W') ∧ elsewhere W W' ∧
    ttosDisableScheduleLevel (kern W') !! this_cpu (kern W') = Some 1 ∧
    ∃ c', sema_at id c' (set_wq_tasks (drop n (wq_tasks q)) q) W' ∧ is_mutex c' = false ∧
      isPriorityCeiling c' = false ∧ semaControlValue c' = Z.max count (semaControlValue c)).
Proof.
  induction n as [|n IH]; intros fuel W id c q count Hin Hat Hm Hp Hl Hmax Hn Hf;
    (destruct fuel as [|fuel]; [lia|]); simpl; apply wp_bind; (eapply wp_get_sema; [apply Hat|]).
  - rewrite (proj2 (Z.ltb_ge (semaControlValue c) count)) by lia. apply wp_ret. split_and!; try done.
    exists c. rewrite drop_0, set_wq_same. split_and!; try done. lia.
  - rewrite (proj2 (Z.ltb_lt (semaControlValue c) count)) by lia. apply wp_bind. unfold TTOS_ReleaseSema. apply wp_bind.
    eapply wp_mono; [apply (release_run W id c q 1 Hin Hat Hm); [lia|done]|].
    intros r W1 ([Eu Es1] & [Es Hg] & _ & Hin1 & Hl1). apply wp_ret.
    unfold count_up in Es. rewrite (proj2 (Z.ltb_lt (semaControlValue c) INT_MAX)) in Es by lia.
    destruct Hat as [Hu Hc Hq Hst Hk].
    assert (Hat1 : sema_at id (set_value (semaControlValue c + 1) c) (set_wq_tasks (tail (wq_tasks q)) q) W1).
    { split; simpl; try done; [by rewrite Eu|by rewrite Es, lookup_insert_eq|].
      destruct (wq_tasks q) as [|t xs] eqn:Exs; destruct Hg as [Eq _]; rewrite Eq; simpl; [|apply lookup_insert_eq].
      rewrite <- Exs, set_wq_same. done. }
    eapply wp_mono; [apply (IH fuel W1 id _ _ count Hin1 Hat1); try done; [simpl; lia|lia]|].
    intros [] W2 (Hin2 & [Eu2 Es2] & Hl2 & c2 & Hat2 & Hm2 & Hp2 & Hv2). split_and!; try done.
    + split; [by rewrite Eu2|by rewrite Es2].
    + exists c2. split_and!; try done; [|simpl in Hv2; lia].
      replace (drop (S n) (wq_tasks q)) with (drop n (tail (wq_tasks q))); [done|].
      destruct (wq_tasks q); simpl; by rewrite ?drop_nil.
Qed.

(** [TTOS_ResetSema] on a counting semaphore ends (the distance from the count
    to its goal bounds its loop), never faults, keeps the invariants, leaves
    exactly the count asked for, and has woken the tasks at the head of the wait
    queue, one for each unit the count was short of. *)
Theorem reset_sema_correct W id c q count fuel :
  calls_ok (kern W) → sema_at id c q W → is_mutex c = false → isPriorityCeiling c = false →
  count ≤ INT_MAX → (Z.to_nat (count - semaControlValue c) < fuel)%nat →
  ∃ W', TTOS_ResetSema fuel count id W = Some (TTOS_OK, W') ∧ calls_ok (kern W') ∧
    counter_at id (count, drop (Z.to_nat (count - semaControlValue c)) (wq_tasks q)) W'.
Proof.
  intros [Hin Hl _] Hat Hm Hp Hmax Hf.
  enough (Hwp : wp (TTOS_ResetSema fuel count id) W (λ r W', r = TTOS_OK ∧ calls_ok (kern W') ∧
    counter_at id (count, drop (Z.to_nat (count - semaControlValue c)) (wq_tasks q)) W')).
  { apply wp_run in Hwp as (r & W' & ? & -> & ? & ?). by exists W'. }
  unfold TTOS_ResetSema. apply wp_bind. eapply wp_mono; [eapply sema_object_run; [apply Hat|exact Hl]|].
  intros b W0 [-> ->]. simpl. apply wp_bind.
  eapply wp_mono; [apply (reset_run (Z.to_nat (count - semaControlValue c)) fuel (set_kern (locked 1 (kern W)) W) id c q count); try done|].
  - by apply inside_locked.
  - destruct Hat. by split.
  - apply locked_level.
  - intros [] W1 (Hin1 & _ & Hl1 & c1 & Hat1 & Hm1 & Hp1 & _). apply wp_bind.
    eapply wp_upd_sema; [apply Hat1|]. apply wp_bind.
    eapply wp_mono; [by apply unlock_run|]. intros [] W2 (K2 & -> & Hok & Hrs & _). apply wp_ret.
    split_and!; [done..|]. destruct Hat1 as [Hu Hc Hq Hst Hk].
    exists (set_value count c1), (set_wq_tasks (drop (Z.to_nat (count - semaControlValue c)) (wq_tasks q)) q).
    split_and!; try done. split; simpl; try done; [apply lookup_insert_eq|]. by rewrite (rs_wqs _ _ Hrs).
Qed.

Lemma reset_sema_correct_witness :
  ∃ W', TTOS_ResetSema 4 3 7 (sema_world (plain 0)) = Some (TTOS_OK, W') ∧ counter_at 7 (3, []) W'.
Proof.
  destruct (reset_sema_correct (sema_world (plain 0)) 7 (plain 0) (sema_queue (plain 0)) 3 4) as (W' & Hr & _ & Hc).
  - apply sema_world_ok.
  - apply sema_world_at.
  - reflexivity.
  - reflexivity.
  - unfold INT_MAX. lia.
  - simpl. lia.
  - exists W'. split; [exact Hr|exact Hc].
Defined.

(** ** How the count goes wrong *)

Definition value_of (id : wqid) : M sworld Z := c ← get_sema id; mret (semaControlValue c).

Definition waiting_for (id : wqid) : M sworld (list tid) := q ← lk (get_wq id); mret (wq_tasks q).

(** Two attempts that may not wait, with a release in between. *)
Definition try_release_try : M sworld (list (option retcode) * Z) :=
  r1 ← TTOS_ObtainSemaWithInterruptFlags 7 0 true false;
  r2 ← TTOS_ReleaseSema 7;
  r3 ← TTOS_ObtainSemaWithInterruptFlags 7 0 true false;
  v ← value_of 7;
  mret ([r1; Some r2; r3], v).

(** A refused attempt costs a unit.  [TTOS_ObtainSemaWithInterruptFlags] takes
    the count down before it looks at [ticks] and does not put it back: after an
    attempt that was refused, a release makes up for the attempt only, and the
    next attempt is refused although a unit was released and nobody took it. *)
Theorem refused_attempt_loses_unit :
  fst <$> try_release_try (sema_world (plain 0)) =
    Some ([Some TTOS_UNSATISFIED; Some TTOS_OK; Some TTOS_UNSATISFIED], -1).
Proof. vm_compute. reflexivity. Qed.

(** Task 3 waits interruptibly with a signal pending, and continues. *)
Definition obtain_interrupted : M sworld (option retcode * retcode * list tid) :=
  r1 ← TTOS_ObtainSemaWithInterruptFlags 7 5 true true;
  r2 ← obtain_resume 7 3;
  xs ← waiting_for 7;
  mret (r1, r2, xs).

(** An interruptible caller with a signal pending is told [TTOS_OK] without a
    unit: the call skips the wait queue but leaves [TTOS_OK] as the code of the
    wait. *)
Theorem pending_signal_grants_nothing :
  fst <$> obtain_interrupted (sema_world (plain 0)) = Some (None, TTOS_OK, []).
Proof. vm_compute. reflexivity. Qed.

(** Task 3 waits five ticks, task 4 runs, the wait times out; before task 3 runs
    again task 4 releases a unit and waits for it. *)
Definition timeout_race : M sworld (retcode * Z * list tid) :=
  _ ← TTOS_ObtainSemaWithInterruptFlags 7 5 false false;
  _ ← lk (ttosTickNotify 2 5);
  _ ← TTOS_ReleaseSema 7;
  _ ← TTOS_ObtainSemaWithInterruptFlags 7 TTOS_WAIT_FOREVER false false;
  r ← obtain_resume 7 3;
  v ← value_of 7;
  xs ← waiting_for 7;
  mret (r, v, xs).

(** A timed-out task puts the count back only when it runs again.  In between,
    a release finds no waiting task and a count below zero; the next obtain waits
    for the unit that was just released, and nothing wakes it. *)
Theorem timeout_loses_wakeup :
  fst <$> timeout_race (sema_world (plain 0)) = Some (TTOS_TIMEOUT, 0, [4%nat]).
Proof. vm_compute. reflexivity. Qed.

(** Task 3 waits, task 4 deletes the semaphore, creates another one with count 0
    and sleeps; task 3 runs again. *)
Definition delete_and_create : M sworld (retcode * (retcode * option wqid) * retcode * Z) :=
  _ ← TTOS_ObtainSemaWithInterruptFlags 7 TTOS_WAIT_FOREVER false false;
  r1 ← TTOS_DeleteSema 2 7;
  r2 ← TTOS_CreateSema (Some (SemaConfig [x73; x00] 0 TTOS_COUNTING_SEMAPHORE 0 current_version)) true None;
  _ ← lk (TTOS_SleepTask 5);
  r3 ← obtain_resume 7 3;
  v ← value_of 7;
  mret (r1, r2, r3, v).

(** A task woken by the deletion of its semaphore still takes the count of the
    control block up.  When the block is in use again by then, the new semaphore
    gets a unit nobody released. *)
Theorem deleted_sema_adds_unit :
  fst <$> delete_and_create (sema_world (plain 0)) =
    Some (TTOS_OK, (TTOS_OK, Some 7%nat), TTOS_OBJECT_WAS_DELETED, 1).
Proof. vm_compute. reflexivity. Qed.

(** ** Mutexes *)

(** The mutexes [TTOS_CreateMutex] makes: free, with priority inheritance. *)
Definition free_mutex : sema :=
  Sema [] (Z.lor TTOS_MUTEX_SEMAPHORE TTOS_MUTEX_WAIT_PRIORITY_INHERIT) 1 false 0 None 0.

Definition on_cpu (c : cpuid) : M sworld unit := lk (modify (set_this_cpu c)).

(** Task 3 locks the mutex, task 2 tries to on the other CPU, task 3 unlocks. *)
Definition lock_try_unlock : M sworld (list (option retcode)) :=
  r1 ← TTOS_ObtainMutex 7 TTOS_WAIT_FOREVER;
  _ ← on_cpu 1;
  r2 ← TTOS_ObtainMutex 7 0;
  _ ← on_cpu 0;
  r3 ← TTOS_ReleaseMutex 7;
  mret [r1; r2; Some r3].

(** One refused attempt breaks a mutex.  After lock, a refused attempt of
    another task and unlock, the mutex has no owner and a count of 0, so the next
    lock takes it for owned and reads the priority of its null owner. *)
Theorem refused_attempt_breaks_mutex :
  ∃ W c, lock_try_unlock (sema_world free_mutex) =
      Some ([Some TTOS_OK; Some TTOS_UNSATISFIED; Some TTOS_OK], W) ∧
    semas W !! 7%nat = Some c ∧ semHolder c = None ∧ semaControlValue c = 0 ∧
    TTOS_ObtainMutex 7 TTOS_WAIT_FOREVER W = None.
Proof.
  eexists _, _. split; [vm_compute; reflexivity|]. split; [vm_compute; reflexivity|].
  split; [reflexivity|]. split; [reflexivity|]. vm_compute. reflexivity.
Qed.

(** Task 3 locks the mutex, task 2 waits for it on the other CPU. *)
Definition contended : M sworld (list (option retcode)) :=
  r1 ← TTOS_ObtainMutex 7 TTOS_WAIT_FOREVER;
  _ ← on_cpu 1;
  r2 ← TTOS_ObtainMutex 7 TTOS_WAIT_FOREVER;
  _ ← on_cpu 0;
  mret [r1; r2].

(** The loop does not end when a release changes nothing. *)
Lemma reset_loop_stuck W id c r count fuel : semas W !! id = Some c → semaControlValue c < count →
  TTOS_ReleaseSema id W = Some (r, W) → reset_loop fuel count id W = None.
Proof.
  intros Hc Hv Hr. induction fuel as [|fuel IH]; [done|]. simpl.
  erewrite bind_run by (unfold get_sema; by rewrite Hc). rewrite (proj2 (Z.ltb_lt _ _) Hv).
  by erewrite bind_run by exact Hr.
Qed.

Definition world_after {A} (m : M sworld A) (W : sworld) : sworld :=
  match m W with Some (_, W') => W' | None => W end.

(** The worlds on the way to the loop of [TTOS_ResetSema], and after its first turn. *)
Definition reset_call : sworld := world_after contended (sema_world free_mutex).
Definition reset_checked : sworld := world_after (ttosSemaIsMutex 7) reset_call.
Definition reset_cleared : sworld :=
  world_after (upd_sema 7 (λ c, set_nest 0 (set_holder None c))) reset_checked.
Definition reset_start : sworld := world_after (get_sema_object 7) reset_cleared.
Definition reset_turn : sworld := world_after (TTOS_ReleaseSema 7) reset_start.

(** [TTOS_ResetMutex] on a mutex that a task waits for never ends.  The first
    turn of its loop hands the mutex to the waiting task with a count of 0; every
    further release is refused, because the caller is not the owner, and the
    count never reaches 1. *)
Theorem reset_mutex_hangs :
  ∃ W, contended (sema_world free_mutex) = Some ([Some TTOS_OK; None], W) ∧
    ∀ fuel, TTOS_ResetMutex fuel 7 W = None.
Proof.
  exists reset_call. split; [vm_compute; reflexivity|]. intros fuel.
  assert (Hloop : reset_loop fuel 1 7 reset_start = None).
  { destruct fuel as [|fuel]; [done|]. simpl.
    erewrite bind_run by (vm_compute; reflexivity).
    assert (E : TTOS_ReleaseSema 7 reset_start = Some (TTOS_OK, reset_turn)) by (vm_compute; reflexivity).
    change (semaControlValue _ <? 1) with true. cbv iota. erewrite bind_run by exact E.
    eapply reset_loop_stuck; [vm_compute; reflexivity|vm_compute; reflexivity|vm_compute; reflexivity]. }
  unfold TTOS_ResetMutex.
  erewrite (bind_run _ _ _ true reset_checked) by (vm_compute; reflexivity). cbn [negb].
  erewrite (bind_run _ _ _ tt reset_cleared) by (vm_compute; reflexivity). unfold TTOS_ResetSema.
  erewrite (bind_run _ _ _ true reset_start) by (vm_compute; reflexivity). cbn [negb].
  unfold mbind, M_bind. by rewrite Hloop.
Qed.
