(* ===== verification/Prio.v ===== *)
(** * Changing the priority of a task that may wait

    [taskChangePriority] of [kernel/task/ttosTaskUtils.c], which the mutexes use
    for priority ceilings and inheritance: a ready task moves to the queue of its
    new priority, a task that waits on a queue by priority moves to its new place
    there. *)

From S2P Require Import Prelude Chain PrioMap DeltaQ Kernel Sched Frame SchedInv Dispatch SchedProps Service Wait WaitInv WaitProps Block Names Sema SemaInv SemaProps.
Import Width.
Local Open Scope Z_scope.

(** The chains after the change. *)
Definition moved (t : tid) (p : Z) (prepend : bool) (tc : tcb) (C : gmap oqid (list tid)) :=
  if ready tc && queued_kind tc then c_put prepend t (RQ (affCpu tc) p) (c_delete t C) else C.

(** The wait queue the task is on by priority, with its new place. *)
Definition resorted (K : kernel) (t : tid) (q : wqueue) : wqueue :=
  set_wq_tasks (pri_insert (cur_pri K) t (filter (λ x, x ≠ t) (wq_tasks q))) q.

(** ** A ready task *)

Lemma change_ready_run K t tc p prepend :
  kernel_inv K → tasks K !! t = Some tc → not_idle t K → 0 ≤ p < 256 → ready tc = true →
  flag_on TTOS_TASK_NONRUNNING_STATE (state tc) = false →
  wp (taskChangePriority t p prepend) K (λ _ K', kernel_inv K' ∧
    tasks K' = <[t := set_taskCurPriority p tc]> (tasks K) ∧ wqs K' = wqs K ∧
    oq K' = moved t p prepend tc (oq K)).
Proof.
  intros Hinv Ht Hni Hp Hr Hrun. unfold taskChangePriority, moved. apply wp_bind.
  eapply wp_get_task; [done|]. apply wp_bind. eapply wp_upd_task; [done|]. set (tc1 := set_taskCurPriority p tc).
  rewrite Hrun, Hr. simpl.
  assert (Hok : tcb_ok (ncpus K) tc1) by (destruct (si_tcb_ok _ _ _ _ Hinv Ht); by split).
  assert (Hend : ∀ K1, kernel_inv K1 → tasks K1 = <[t := tc1]> (tasks K) → wqs K1 = wqs K →
    wp (ttosTaskStateChanged t true) K1 (λ _ K', kernel_inv K' ∧ tasks K' = <[t := tc1]> (tasks K) ∧
      wqs K' = wqs K ∧ oq K' = oq K1)).
  { intros K1 Hi1 Et1 Eq1. eapply wp_mono.
    - apply (wp_pres (λ K K', wqs K' = wqs K)); [apply _|].
      apply (announce_run K1 _ t tc1 Hi1 Et1); apply lookup_insert_eq.
    - intros [] K2 ((? & ? & _ & ?) & Eq2). rewrite Eq2. by split_and!. }
  destruct (queued_kind tc) eqn:Hk; apply wp_bind.
  - assert (Hin : t ∈ c_get (RQ (affCpu tc) (taskCurPriority tc)) (oq K)) by (by apply (si_complete _ _ Hinv)).
    unfold requeue_ready. apply wp_bind, wp_gets, wp_bind, wp_gets. simpl. rewrite bool_decide_true by done. simpl.
    pose proof (requeue_run K t tc tc1 prepend Hinv Ht Hni Hr Hk Hok eq_refl Hr) as Hwp.
    apply (wp_pres (λ K K', wqs K' = wqs K)) in Hwp; [|unfold ttosReadyQueueIsEmpty, obj_delete, ttosReadyQueuePut, obj_add_head, obj_add_tail; apply _].
    apply wp_bind, wp_bind. eapply wp_mono; [exact (wp_bind_inv _ _ _ _ Hwp)|]. clear Hwp. intros [] K1 Hwp.
    apply wp_bind. eapply wp_mono; [exact (wp_bind_inv _ _ _ _ Hwp)|]. clear Hwp. intros e K2 Hwp.
    eapply wp_mono; [exact (wp_bind_inv _ _ _ _ Hwp)|]. clear Hwp. intros [] K3 Hwp.
    do 2 (apply wp_bind; eapply wp_mono; [exact (wp_bind_inv _ _ _ _ Hwp)|]; clear Hwp; intros [] ? Hwp).
    apply wp_bind. eapply wp_mono; [exact Hwp|]. intros [] K6 ((Hi6 & Et6 & _ & Eo6) & Eq6). apply wp_ret. simpl.
    eapply wp_mono; [by apply Hend|]. intros [] K7 (? & ? & ? & Eo7). rewrite Eo7. by split_and!.
  - apply wp_ret, (Hend (set_tasks _ K)); try done. apply (inv_new_priority K t tc tc1); try done. by rewrite Hk, andb_false_r.
Qed.

(** ** A task on a wait queue *)

Lemma leave_others K t w q : wq_inv K → wqs K !! w = Some q → t ∈ wq_tasks q →
  ∀ w' q', w' ≠ w → wqs K !! w' = Some q' → leave [t] q' = q'.
Proof.
  intros Hq Hw Hin w' q' Hne Hw'. unfold leave. rewrite filter_all; [by destruct q'|].
  apply Forall_forall. intros x Hx. apply not_elem_of_cons. split; [|apply not_elem_of_nil]. intros ->.
  destruct (wq_member _ Hq w q t Hw Hin) as (c1 & ? & _ & E1).
  destruct (wq_member _ Hq w' q' t Hw' Hx) as (c2 & ? & _ & E2). congruence.
Qed.

Lemma leave_insert K t w q q' : wq_inv K → wqs K !! w = Some q → t ∈ wq_tasks q →
  <[w := q']> (leave [t] <$> wqs K) = <[w := q']> (wqs K).
Proof.
  intros Hq Hw Hin. apply map_eq. intros w'. destruct (decide (w' = w)) as [->|Hne]; [by rewrite !lookup_insert_eq|].
  rewrite !lookup_insert_ne, lookup_fmap by done. destruct (wqs K !! w') as [q1|] eqn:E; [|done].
  simpl. by rewrite (leave_others K t w q Hq Hw Hin w' q1 Hne E).
Qed.

Lemma leave_tasks t q : wq_tasks (leave [t] q) = filter (λ x, x ≠ t) (wq_tasks q).
Proof. unfold leave. simpl. apply list_filter_iff. intros x. set_solver. Qed.

(** The wait queues and the tick queue do not look at the priority. *)
Lemma block_new_priority K t tc p : block_inv K → tasks K !! t = Some tc → not_idle t K → ready tc = false →
  0 ≤ p < 256 → block_inv (set_tasks (<[t := set_taskCurPriority p tc]> (tasks K)) K).
Proof.
  intros [Hi Hwt Hq] Ht Hni Hr Hp. set (tc1 := set_taskCurPriority p tc). set (K1 := set_tasks _ K).
  assert (Hsame : ∀ x xc, tasks K !! x = Some xc → ∃ xc', tasks K1 !! x = Some xc' ∧ ready xc' = ready xc ∧
    waitedTicks xc' = waitedTicks xc ∧ wait xc' = wait xc).
  { intros x xc Hx. simpl. destruct (decide (x = t)) as [->|Hne].
    - simplify_eq. exists tc1. by rewrite lookup_insert_eq.
    - exists xc. by rewrite lookup_insert_ne. }
  assert (Ew : waited K1 = waited K).
  { unfold waited. apply view_ext. intros x Hx. destruct (wi_task _ Hwt x Hx) as (xc & Hxc & _).
    destruct (Hsame x xc Hxc) as (xc' & Hxc' & _ & E & _). unfold wt. by rewrite Hxc, Hxc'. }
  split; [|split|split].
  - apply (inv_new_priority K t tc); try done; [|by rewrite Hr]. destruct (si_tcb_ok _ _ _ _ Hi Ht). by split.
  - intros x Hx. destruct (wi_task _ Hwt x Hx) as (xc & Hxc & Hxr & Hxp).
    destruct (Hsame x xc Hxc) as (xc' & ? & E1 & E2 & _). exists xc'. by rewrite E1, E2.
  - rewrite Ew. apply Hwt.
  - intros w q x xc' Hw Hx Hxc'. destruct (wq_member _ Hq w q x Hw Hx) as (xc & Hxc & _ & E).
    destruct (Hsame x xc Hxc) as (xc2 & Hxc2 & _ & _ & E2). simplify_eq. by rewrite E2, E.
  - apply (wq_nodup _ Hq).
  - intros w q x Hw Hx. destruct (wq_member _ Hq w q x Hw Hx) as (xc & Hxc & Hxr & E).
    destruct (Hsame x xc Hxc) as (xc2 & Hxc2 & Hxr2 & _ & E2). exists xc2. by rewrite Hxr2, E2.
  - apply (wq_apart _ Hq).
Qed.

(** Nor at the order of a wait queue. *)
Lemma block_permute K w q q' : block_inv K → wqs K !! w = Some q → wq_tasks q' ≡ₚ wq_tasks q →
  block_inv (set_wqs (<[w := q']> (wqs K)) K).
Proof.
  intros [Hi Hwt Hq] Hw Hp.
  assert (Hmem : ∀ w1 q1 x, <[w := q']> (wqs K) !! w1 = Some q1 → x ∈ wq_tasks q1 →
    ∃ q0, wqs K !! w1 = Some q0 ∧ x ∈ wq_tasks q0).
  { intros w1 q1 x [[<- <-]|[_ Hw1]]%lookup_insert_Some Hx; [|by exists q1]. exists q. by rewrite <- Hp. }
  split; [by apply inv_set_wqs|split|split]; simpl.
  - apply (wi_task _ Hwt).
  - apply (wi_bound _ Hwt).
  - intros w1 q1 x xc Hw1 Hx. destruct (Hmem w1 q1 x Hw1 Hx) as (q0 & Hq0 & Hx0). by apply (wi_queue _ Hwt w1 q0).
  - intros w1 q1 [[<- <-]|[_ Hw1]]%lookup_insert_Some; [rewrite Hp|]; by eapply wq_nodup.
  - intros w1 q1 x Hw1 Hx. destruct (Hmem w1 q1 x Hw1 Hx) as (q0 & Hq0 & Hx0). by apply (wq_member _ Hq w1 q0).
  - intros w1 q1 x o Hw1 Hx. destruct (Hmem w1 q1 x Hw1 Hx) as (q0 & Hq0 & Hx0). by apply (wq_apart _ Hq w1 q0).
Qed.

Lemma resorted_perm K t q : NoDup (wq_tasks q) → t ∈ wq_tasks q → wq_tasks (resorted K t q) ≡ₚ wq_tasks q.
Proof.
  intros Hnd Hin. unfold resorted. simpl. rewrite pri_insert_perm.
  apply list_elem_of_split in Hin as (l1 & l2 & E). rewrite E in Hnd |- *.
  apply NoDup_app in Hnd as (_ & Hd & [Hn _]%NoDup_cons).
  rewrite filter_ne_split; [by rewrite Permutation_middle| |done]. intros Hx. eapply Hd; [done|left].
Qed.

Lemma change_blocked_run K t tc p prepend w q :
  block_inv K → tasks K !! t = Some tc → not_idle t K → ready tc = false → 0 ≤ p < 256 →
  flag_on TTOS_TASK_NONRUNNING_STATE (state tc) = true →
  flag_on TTOS_TASK_BLOCKING_ON_TASK_QUEUE (state tc) = true →
  wqs K !! w = Some q → t ∈ wq_tasks q → wq_fifo q = false →
  let K1 := set_tasks (<[t := set_taskCurPriority p tc]> (tasks K)) K in
  wp (taskChangePriority t p prepend) K (λ _ K', block_inv K' ∧
    K' = set_wqs (<[w := resorted K1 t q]> (wqs K)) K1).
Proof.
  intros Hb Ht Hni Hr Hp Hnr Hbl Hw Hin Hfifo K1. pose proof (bi_wqs _ Hb) as Hq.
  destruct (wq_member _ Hq w q t Hw Hin) as (tc0 & ? & _ & Ewq). simplify_eq.
  assert (Hb' : block_inv (set_wqs (<[w := resorted K1 t q]> (wqs K)) K1)).
  { apply (block_permute K1 w q); [by apply block_new_priority|done|].
    apply resorted_perm; [by eapply wq_nodup|done]. }
  unfold taskChangePriority. apply wp_bind. eapply wp_get_task; [done|]. apply wp_bind. eapply wp_upd_task; [done|].
  rewrite Hnr, Hbl, Ewq. cbn [negb]. set (tc1 := set_taskCurPriority p tc). fold K1.
  assert (Ht1 : tasks K1 !! t = Some tc1) by apply lookup_insert_eq.
  apply wp_bind. unfold get_wq at 1. unfold wp at 1. simpl. rewrite Hw. simpl. rewrite Hfifo. simpl.
  apply wp_bind. pose proof (extract_taskq_run K1 t tc1 Ht1) as Hex. simpl in Hex. rewrite Ewq in Hex.
  eapply wp_mono; [apply Hex; done|]. intros [] K2 ->. clear Hex.
  unfold wq_enqueue. apply wp_bind. unfold get_wq, wp at 1. simpl. rewrite lookup_fmap, Hw. simpl.
  apply wp_bind, wp_gets, wp_bind, wp_assert.
  { rewrite (proj2 (wq_linked_false t _)); [done|]. simpl. intros w' q'. rewrite lookup_fmap.
    destruct (wqs K !! w') as [q0|]; [|done]. simpl. intros [= <-]. rewrite leave_tasks, list_elem_of_filter. by intros [? _]. }
  apply wp_bind, wp_gets, wp_bind. rewrite Hfifo. simpl. eapply wp_upd_task; [apply lookup_insert_eq|].
  unfold set_wq, wp. simpl. rewrite lookup_fmap, Hw. simpl.
  rewrite (leave_insert K t w q _ Hq Hw Hin), !insert_insert_eq.
  assert (Et : upd_wait (set_wait_queue (Some w)) (upd_wait (set_wait_queue None) tc1) = tc1).
  { unfold tc1, upd_wait, set_wait_queue. destruct tc as [?????????????[?????]?]; simpl in *. by subst. }
  rewrite Et. set (K2 := set_wqs _ _).
  assert (E2 : K2 = set_wqs (<[w := resorted K1 t q]> (wqs K)) K1); [|by rewrite E2].
  unfold K2, resorted. change (filter (λ x, x ∉ [t]) (wq_tasks q)) with (wq_tasks (leave [t] q)).
  rewrite leave_tasks. change (set_wq_tasks ?xs (leave [t] q)) with (set_wq_tasks xs q).
  rewrite (pri_insert_ext (cur_pri (set_wqs _ _)) (cur_pri K1)); [done|]. intros x. unfold cur_pri. simpl.
  destruct (decide (x = t)) as [->|Hne]; [by rewrite !lookup_insert_eq|by rewrite !lookup_insert_ne].
Qed.

(** ** The property *)

(** The wait queues after the change. *)
Definition wqs_after (K : kernel) (t : tid) (tc : tcb) (p : Z) : gmap wqid wqueue :=
  match wait_queue (wait tc) with
  | Some w =>
      match wqs K !! w with
      | Some q =>
          if negb (ready tc) && flag_on TTOS_TASK_BLOCKING_ON_TASK_QUEUE (state tc) && negb (wq_fifo q)
          then <[w := resorted (set_tasks (<[t := set_taskCurPriority p tc]> (tasks K)) K) t q]> (wqs K)
          else wqs K
      | None => wqs K
      end
  | None => wqs K
  end.

(** A ready task off and on the ready queues is on no other one. *)
Lemma block_moved K K' t tc p prepend : block_inv K → tasks K !! t = Some tc → ready tc = true →
  kernel_inv K' → tasks K' = <[t := set_taskCurPriority p tc]> (tasks K) → wqs K' = wqs K →
  oq K' = moved t p prepend tc (oq K) → block_inv K' ∧ waited K' = waited K.
Proof.
  intros [Hi Hwt Hq] Ht Hr Hi' Et Eq Eo. pose proof (ready_not_queued K t tc Hq Ht Hr) as Hnq.
  assert (Hnt : t ∉ c_get TaskWaitedQ (oq K)).
  { intros Hin. destruct (wi_task _ Hwt t Hin) as (? & ? & ? & _). congruence. }
  assert (Etw : c_get TaskWaitedQ (oq K') = c_get TaskWaitedQ (oq K)).
  { rewrite Eo. unfold moved. destruct (_ && _); [|done].
    unfold c_put, c_add_head, c_add_tail. destruct prepend; rewrite c_get_set_ne by done; by apply c_get_delete_fresh. }
  destruct (wait_inv_upd K K' t _ Hwt Etw Eq Et Hnt Hnq) as [Hwt' Ew]. split; [|done]. split; [done..|split]; rewrite Eq.
  - apply (wq_nodup _ Hq).
  - intros w q x Hw Hx. rewrite Et, lookup_insert_ne; [by apply (wq_member _ Hq w q)|]. intros <-. by apply (Hnq w q).
  - intros w q x o Hw Hx Hno Ho. assert (Hne : x ≠ t) by (intros ->; by apply (Hnq w q)).
    apply (wq_apart _ Hq w q x o Hw Hx Hno). rewrite Eo in Ho. unfold moved in Ho.
    destruct (_ && _); [|done]. apply elem_of_c_put in Ho as [Ho|[-> _]]; [|done].
    by apply elem_of_c_delete in Ho as [_ ?].
Qed.

(** C36: [taskChangePriority] never faults on a task that is not an idle task and
    keeps the invariants of the ready, tick and wait queues.  The task has the new
    current priority; a ready one is at the head or tail of the ready queue of that
    priority, one that waits on a queue by priority is at its new place there,
    behind its equals, and every other queue and task is as before. *)
Theorem change_priority_correct K t tc p prepend :
  block_inv K → tasks K !! t = Some tc → not_idle t K → 0 ≤ p < 256 →
  ready tc = negb (flag_on TTOS_TASK_NONRUNNING_STATE (state tc)) →
  (∀ w, ready tc = false → wait_queue (wait tc) = Some w → ∃ q, wqs K !! w = Some q ∧ t ∈ wq_tasks q) →
  ∃ K', taskChangePriority t p prepend K = Some (tt, K') ∧ block_inv K' ∧
    tasks K' = <[t := set_taskCurPriority p tc]> (tasks K) ∧
    oq K' = moved t p prepend tc (oq K) ∧ wqs K' = wqs_after K t tc p.
Proof.
  intros Hb Ht Hni Hp Hrun Hmem. unfold wqs_after, moved. destruct (ready tc) eqn:Hr; simpl.
  - symmetry in Hrun. apply negb_true_iff in Hrun.
    pose proof (change_ready_run K t tc p prepend (bi_sched _ Hb) Ht Hni Hp Hr Hrun) as Hwp.
    apply wp_run in Hwp as ([] & K' & ? & Hi' & Et & Eq & Eo). pose proof Eo as Eo'. unfold moved in Eo.
    rewrite Hr in Eo. simpl in Eo. exists K'. split_and!; try done; [by eapply (block_moved K K')|].
    rewrite Eq. by destruct (wait_queue _) as [w|]; [destruct (wqs K !! w)|].
  - symmetry in Hrun. apply negb_false_iff in Hrun.
    pose proof (block_new_priority K t tc p Hb Ht Hni Hr Hp) as Hb1. set (K1 := set_tasks _ K) in *.
    assert (Hkeep : (∀ w q, wait_queue (wait tc) = Some w → wqs K !! w = Some q →
        flag_on TTOS_TASK_BLOCKING_ON_TASK_QUEUE (state tc) = true → wq_fifo q = true) →
      taskChangePriority t p prepend K = Some (tt, K1)).
    { intros Hf. unfold taskChangePriority. erewrite bind_run by (unfold get_task; by rewrite Ht).
      erewrite bind_run by (unfold upd_task; by rewrite Ht). rewrite Hrun. simpl.
      destruct (flag_on TTOS_TASK_BLOCKING_ON_TASK_QUEUE (state tc)) eqn:Hbl; [|done].
      destruct (wait_queue (wait tc)) as [w|] eqn:Ewq; [|done]. destruct (Hmem w eq_refl eq_refl) as (q & Hw & _).
      erewrite bind_run by (unfold get_wq; simpl; by rewrite Hw). by rewrite (Hf w q eq_refl Hw eq_refl). }
    destruct (wait_queue (wait tc)) as [w|] eqn:Ewq; [|exists K1; split; [by apply Hkeep|done]].
    destruct (Hmem w eq_refl eq_refl) as (q & Hw & Hin). rewrite Hw.
    destruct (flag_on TTOS_TASK_BLOCKING_ON_TASK_QUEUE (state tc)) eqn:Hbl; simpl;
      [|exists K1; split; [apply Hkeep; congruence|done]].
    destruct (wq_fifo q) eqn:Hf; simpl.
    + exists K1. split; [apply Hkeep; congruence|done].
    + pose proof (change_blocked_run K t tc p prepend w q Hb Ht Hni Hr Hp Hrun Hbl Hw Hin Hf) as Hwp.
      apply wp_run in Hwp as ([] & K' & ? & ? & ->). eexists. done.
Qed.

Lemma change_priority_correct_witness :
  ∃ K', taskChangePriority 3 5 true (sema_kernel (plain 0)) = Some (tt, K') ∧
    tasks K' !! 3%nat = Some (set_taskCurPriority 5 runner).
Proof.
  destruct (change_priority_correct (sema_kernel (plain 0)) 3 runner 5 true) as (K' & Hr & _ & Et & _).
  - apply (sema_world_ok (plain 0)).
  - vm_compute. reflexivity.
  - intros c Hc. change (c < 2)%nat in Hc. assert (Hc' : c = 0%nat ∨ c = 1%nat) by lia.
    destruct Hc' as [E|E]; rewrite E; vm_compute; discriminate.
  - lia.
  - vm_compute. reflexivity.
  - intros w Hn. vm_compute in Hn. discriminate Hn.
  - exists K'. split; [exact Hr|]. rewrite Et. vm_compute. reflexivity.
Defined.
