(* ===== verification/Mutex.v ===== *)
(** * Theorems on the release of a mutex

    Ownership, nesting, the return to the base priority and the hand-over to the
    first waiting task, for mutexes without a priority ceiling. *)

From S2P Require Import Prelude Chain PrioMap DeltaQ Kernel Sched Frame SchedInv Dispatch SchedProps Service Wait WaitInv WaitProps Block Names Sema SemaInv SemaProps Prio.
Import Width.
Local Open Scope Z_scope.

(** ** Frames *)

#[export] Instance keeps_get_wq w : Keeps (get_wq w).
Proof. unfold get_wq. apply _. Qed.

#[export] Instance keeps_set_wq w xs : Keeps (set_wq w xs).
Proof. intros K a K'. unfold set_wq. simpl. by destruct (wqs K !! w); intros [= <- <-]. Qed.

#[export] Instance keeps_enqueue w t : Keeps (wq_enqueue w t).
Proof. unfold wq_enqueue. apply _. Qed.

#[export] Instance keeps_leave t : Keeps (wq_extract t).
Proof. by intros K a K' [= <- <-]. Qed.

#[export] Instance keeps_extract w t : Keeps (ttosExtractTaskq w t).
Proof. unfold ttosExtractTaskq. apply _. Qed.

#[export] Instance keeps_change_priority t p b : Keeps (taskChangePriority t p b).
Proof. unfold taskChangePriority, requeue_ready, ttosReadyQueueIsEmpty. apply _. Qed.

(** ** The steps of a release *)

(** The running task's priority. *)
Lemma change_inside K e ec p prepend : inside_ok K → runningTask K !! this_cpu K = Some e →
  tasks K !! e = Some ec → ready ec = true → not_idle e K → 0 ≤ p < 256 →
  wp (taskChangePriority e p prepend) K (λ _ K', inside_ok K' ∧ env K' = env K ∧
    tasks K' = <[e := set_taskCurPriority p ec]> (tasks K) ∧ wqs K' = wqs K ∧ waited K' = waited K).
Proof.
  intros [Hb Hs Hu Hisr] Hrun He Hr Hni Hp.
  assert (Hnr : flag_on TTOS_TASK_NONRUNNING_STATE (state ec) = false).
  { pose proof (Hs e ec He) as E. rewrite Hr in E. symmetry in E. by apply negb_true_iff in E. }
  eapply wp_mono.
  - apply (wp_pres (λ K K', env K' = env K)); [apply _|].
    apply (change_ready_run K e ec p prepend (bi_sched _ Hb) He Hni Hp Hr Hnr).
  - intros [] K' ((Hi' & Et & Eq & Eo) & Henv).
    destruct (block_moved K K' e ec p prepend Hb He Hr Hi' Et Eq Eo) as [Hb' Ew]. split_and!; try done.
    pose proof Henv as [= Er _ _ _ _ Ec Ei _]. split.
    + done.
    + intros x xc. rewrite Et, lookup_insert_Some. intros [[<- <-]|[_ Hx]]; [exact (Hs e ec He)|exact (Hs x xc Hx)].
    + intros r rc. rewrite Ec, Er, Hrun, Et. intros [= <-]. rewrite lookup_insert_eq. intros [= <-] Ha _.
      change (affCpu ec = None) in Ha. rewrite Eo. unfold moved.
      replace (queued_kind ec) with false; [rewrite andb_false_r; by apply (Hu e ec)|].
      destruct (si_run _ _ (bi_sched _ Hb) _ (si_this _ _ (bi_sched _ Hb))) as (r & rc & Hr' & Hrc & Hon). simplify_eq.
      unfold queued_kind. by rewrite Ha, Hon.
    + by rewrite Ei.
Qed.

Lemma set_tasks_id K : set_tasks (tasks K) K = K.
Proof. by destruct K. Qed.

(** ** The release by the owner *)

(** The owner's control block after it gave up one mutex: without any other one it
    is back at its base priority. *)
Definition retired (ec : tcb) : tcb :=
  let n := if resourceCount ec =? 0 then 0 else resourceCount ec - 1 in
  let ec1 := set_resourceCount n ec in
  if n =? 0 then set_taskCurPriority (taskPriority ec) ec1 else ec1.

(** What [TTOS_ReleaseSemaReturnTask] by the owner [e] does to the mutex: the inner
    levels only count, the outermost one hands it to the first waiting task. *)
Definition unlocked (c : sema) (q : wqueue) : sema :=
  let c1 := set_value (semaControlValue c + 1) c in
  if nestCount c =? 1 then
    match wq_tasks q with
    | [] => set_holder None (set_nest 0 c1)
    | t :: _ => set_holder (Some t) (set_nest 1 c1)
    end
  else set_nest (nestCount c - 1) c1.

Section Release.
Context (W : sworld) (id : wqid) (c : sema) (q : wqueue) (e : tid) (ec : tcb).
Let K := kern W.
Hypothesis Hok : calls_ok K.
Hypothesis Hat : sema_at id c q W.
Hypothesis Hmutex : is_mutex c = true.
Hypothesis Hceil : isPriorityCeiling c = false.
Hypothesis Hval : semaControlValue c ≤ 0.
Hypothesis Hnest : 0 < nestCount c < 2 ^ 32.
Hypothesis Hrun : runningTask K !! this_cpu K = Some e.
Hypothesis He : tasks K !! e = Some ec.
Hypothesis Hni : idleTask K !! this_cpu K ≠ Some e.

Let W0 := set_kern (locked 1 K) W.

(** A call that ends with the answer [r] before the count changes hands. *)
Lemma answer_run c' (r : retcode) :
  wp (_ ← unlock; mret (Some r)) (set_semas (<[id := c']> (semas W)) W0) (λ o W', o = Some r ∧
    calls_ok (kern W') ∧ elsewhere W W' ∧ semas W' = <[id := c']> (semas W) ∧
    wqs (kern W') = wqs K ∧ waited (kern W') = waited K ∧ evolves K (kern W')).
Proof.
  apply wp_bind. eapply wp_mono; [apply unlock_run; [apply inside_locked, Hok|apply locked_level]|].
  intros [] W' (K' & -> & Hok' & Hrs & Ew). apply wp_ret. simpl in *. split_and!; try done.
  - split; [done|]. exact (rs_sys _ _ Hrs).
  - exact (rs_wqs _ _ Hrs).
  - exact (rs_evolves _ _ Hrs).
Qed.

(** The call of a task that does not own the mutex changes nothing. *)
Lemma not_owner_run : semHolder c ≠ Some e →
  wp (release_mutex id e) W0 (λ o W', o = Some TTOS_NOT_OWNER_OF_RESOURCE ∧
    calls_ok (kern W') ∧ elsewhere W W' ∧ semas W' = semas W ∧
    wqs (kern W') = wqs K ∧ waited (kern W') = waited K ∧ evolves K (kern W')).
Proof.
  intros Hh. unfold release_mutex. apply wp_bind, wp_lk, wp_gets. simpl. fold K.
  rewrite (is_task _ (co_inside _ Hok)). apply wp_bind. eapply wp_get_sema; [apply Hat|].
  rewrite (proj2 (Z.ltb_ge _ _) Hval), (proj2 (Z.eqb_neq (nestCount c) 0)) by lia.
  apply wp_bind, wp_ret, wp_bind. eapply wp_get_sema; [apply Hat|]. rewrite bool_decide_true by done.
  pose proof (answer_run c TTOS_NOT_OWNER_OF_RESOURCE) as Ha. rewrite insert_id in Ha by apply Hat. exact Ha.
Qed.

(** The owner's part, at the outermost level and inside. *)
Lemma owner_run : semHolder c = Some e → 0 ≤ taskPriority ec < 256 →
  wp (release_mutex id e) W0 (λ o W', if nestCount c =? 1 then
    o = None ∧ ∃ K1, W' = set_semas (<[id := set_holder None (set_nest 0 c)]> (semas W)) (set_kern K1 W) ∧
      inside_ok K1 ∧ env K1 = env (locked 1 K) ∧ tasks K1 = <[e := retired ec]> (tasks K) ∧
      wqs K1 = wqs K ∧ waited K1 = waited K
    else o = Some TTOS_OK ∧
      calls_ok (kern W') ∧ elsewhere W W' ∧ semas W' = <[id := unlocked c q]> (semas W) ∧
      wqs (kern W') = wqs K ∧ waited (kern W') = waited K ∧ evolves K (kern W')).
Proof.
  intros Hh Hbase. unfold release_mutex. apply wp_bind, wp_lk, wp_gets. simpl. fold K.
  rewrite (is_task _ (co_inside _ Hok)). apply wp_bind. eapply wp_get_sema; [apply Hat|].
  rewrite (proj2 (Z.ltb_ge _ _) Hval), (proj2 (Z.eqb_neq (nestCount c) 0)) by lia.
  apply wp_bind, wp_ret, wp_bind. eapply wp_get_sema; [apply Hat|]. rewrite bool_decide_false by (by intros []).
  apply wp_bind. eapply wp_upd_sema; [apply Hat|]. apply wp_bind. eapply wp_get_sema; [apply lookup_insert_eq|].
  simpl. rewrite u32_small by lia. destruct (Z.eqb_spec (nestCount c) 1) as [E1|E1].
  - rewrite E1. simpl. apply wp_bind, wp_lk. eapply wp_get_task; [exact He|]. apply wp_bind.
    set (n := if resourceCount ec =? 0 then 0 else resourceCount ec - 1). set (ec1 := set_resourceCount n ec).
    set (K1 := set_tasks (<[e := ec1]> (tasks K)) (locked 1 K)).
    pose proof (co_ready _ Hok e ec Hrun He) as Hr.
    assert (Hin1 : inside_ok K1) by (eapply (inside_upd (locked 1 K)); try done; by apply inside_locked, Hok).
    assert (Hw1 : waited K1 = waited K).
    { by apply (waited_upd (locked 1 K) e ec); [apply inside_locked, Hok|..]. }
    eapply (wp_mono _ _ (λ _ W', W' = set_semas (<[id := set_nest 0 c]> (semas W)) (set_kern K1 W))).
    { apply wp_when; intros Hz.
      - apply wp_lk. eapply wp_upd_task; [exact He|]. apply negb_true_iff in Hz. unfold K1, ec1, n. by rewrite Hz.
      - apply negb_false_iff in Hz. unfold K1, ec1, n. rewrite Hz. apply Z.eqb_eq in Hz.
        replace (set_resourceCount 0 ec) with ec by (rewrite <- Hz; by destruct ec). simpl.
        rewrite (insert_id (tasks K) e ec He). pose proof (set_tasks_id (locked 1 K)) as Hid. simpl in Hid. by rewrite Hid. }
    intros [] W1 ->. apply wp_bind. eapply wp_upd_sema; [apply lookup_insert_eq|]. simpl. rewrite insert_insert_eq.
    apply wp_bind, wp_lk. eapply wp_get_task; [apply lookup_insert_eq|]. simpl.
    assert (Hend : ∀ K2 : kernel, inside_ok K2 → env K2 = env (locked 1 K) → tasks K2 = <[e := retired ec]> (tasks K) →
      wqs K2 = wqs K → waited K2 = waited K → ∃ K3, set_kern K2 (set_semas (<[id := set_holder None (set_nest 0 c)]> (semas W)) (set_kern K1 W)) =
        set_semas (<[id := set_holder None (set_nest 0 c)]> (semas W)) (set_kern K3 W) ∧
      inside_ok K3 ∧ env K3 = env (locked 1 K) ∧ tasks K3 = <[e := retired ec]> (tasks K) ∧
      wqs K3 = wqs K ∧ waited K3 = waited K) by (intros K2 ? ? ? ? ?; by exists K2).
    apply wp_bind, wp_when; intros Hb.
    + apply andb_true_iff in Hb as [Hz _]. apply wp_lk.
      eapply wp_mono; [apply (change_inside K1 e ec1 _ true Hin1)|]; try done.
      * apply lookup_insert_eq.
      * intros i. apply (running_not_idle K e ec (bi_sched _ (is_block _ (co_inside _ Hok))) Hrun He Hni).
      * intros [] K2 (Hin2 & Henv2 & Et2 & Eq2 & Ew2). apply wp_ret. split; [done|]. apply Hend; try done.
        -- rewrite Et2. simpl. rewrite insert_insert_eq. unfold retired. fold n. by rewrite Hz.
        -- by rewrite Ew2.
    + apply wp_ret. split; [done|]. apply (Hend K1); try done. simpl. f_equal. unfold retired. fold n. fold ec1.
      destruct (n =? 0); [|done]. simpl in Hb. apply negb_false_iff, Z.eqb_eq in Hb. rewrite <- Hb. by destruct ec.
  - rewrite (proj2 (Z.eqb_neq (nestCount c - 1) 0)) by lia. simpl. unfold inc_value.
    apply wp_bind, wp_bind. eapply wp_get_sema; [apply lookup_insert_eq|]. apply wp_bind, wp_assert.
    { apply Z.ltb_lt. simpl. unfold INT_MAX. lia. }
    eapply wp_upd_sema; [apply lookup_insert_eq|]. simpl. rewrite insert_insert_eq.
    unfold unlocked. rewrite (proj2 (Z.eqb_neq (nestCount c) 1)) by done. apply answer_run.
Qed.

(** The outermost release from here on: the count goes up and the first waiting
    task, if any, owns the mutex. *)
Definition passed_on (woken : option tid) (W' : sworld) : Prop :=
  woken = head (wq_tasks q) ∧
  (∃ ec', tasks (kern W') !! e = Some ec' ∧ resourceCount ec' = resourceCount (retired ec) ∧
    taskCurPriority ec' = taskCurPriority (retired ec)) ∧
  match wq_tasks q with
  | [] => wqs (kern W') = wqs K ∧ waited (kern W') = waited K
  | t :: xs =>
      wqs (kern W') = <[id := set_wq_tasks xs q]> (wqs K) ∧ waited (kern W') = d_extract t (waited K) ∧
      ∃ tc tc', tasks K !! t = Some tc ∧ tasks (kern W') !! t = Some tc' ∧
        wait tc' = set_wait_queue None (wait tc) ∧ resourceCount tc' = u32 (resourceCount tc + 1) ∧
        ready tc' = negb (flag_on TTOS_TASK_NONRUNNING_STATE (clear_flag TTOS_TASK_WAITING (state tc)))
  end.

(** A task just woken gets one more resource. *)
Lemma hand_over_run K1 K2 t xs tc c1 : inside_ok K1 → inside_ok K2 → released t xs id tc q K1 K2 →
  isPriorityCeiling c1 = false → semas W !! id = Some c →
  wp (hand_over id t) (set_kern K2 (set_semas (<[id := c1]> (semas W)) (set_kern K1 W))) (λ _ W', ∃ K3,
    W' = set_semas (<[id := set_holder (Some t) (set_nest 1 c1)]> (semas W)) (set_kern K3 W) ∧
    inside_ok K3 ∧ env K3 = env K1 ∧ wqs K3 = <[id := set_wq_tasks xs q]> (wqs K1) ∧
    waited K3 = d_extract t (waited K1) ∧ only_wt_but t K1 K3 ∧
    ∃ tc', tasks K3 !! t = Some tc' ∧ wait tc' = set_wait_queue None (wait tc) ∧
      resourceCount tc' = u32 (resourceCount tc + 1) ∧
      ready tc' = negb (flag_on TTOS_TASK_NONRUNNING_STATE (clear_flag TTOS_TASK_WAITING (state tc)))).
Proof.
  intros Hin1 Hin2 Hre Hc1 Hc. destruct (re_task _ _ _ _ _ _ _ Hre) as (tc2 & Ht2 & Hw2 & _ & Hr2 & _ & _ & Hrc2).
  unfold hand_over. apply wp_bind. eapply wp_upd_sema; [apply lookup_insert_eq|]. simpl. rewrite insert_insert_eq.
  apply wp_bind, wp_lk. eapply wp_upd_task; [exact Ht2|]. set (tc3 := set_resourceCount _ tc2). simpl.
  apply wp_bind. eapply wp_get_sema; [apply lookup_insert_eq|]. apply wp_bind, wp_lk.
  eapply wp_get_task; [apply lookup_insert_eq|]. simpl. rewrite Hc1. apply wp_ret.
  set (K3 := set_tasks _ K2). exists K3.
  assert (Hnt : t ∉ c_get TaskWaitedQ (oq K2)) by exact (released_untimed _ _ _ _ _ _ _ Hin1 Hre).
  split_and!.
  - done.
  - apply (inside_upd_free K2 t tc2); try done. by rewrite Hw2.
  - apply (re_env _ _ _ _ _ _ _ Hre).
  - apply (re_wqs _ _ _ _ _ _ _ Hre).
  - rewrite <- (re_waited _ _ _ _ _ _ _ Hre). apply view_ext. intros x Hx. apply wt_insert_ne. by intros ->.
  - intros x Hx. simpl. rewrite lookup_insert_ne by done. by apply (re_rest _ _ _ _ _ _ _ Hre).
  - exists tc3. simpl. rewrite lookup_insert_eq. split_and!; try done. by rewrite Hrc2.
Qed.

(** The end of the call. *)
Lemma leave_with K3 c3 (o : option tid) : inside_ok K3 → env K3 = env (locked 1 K) →
  wp (_ ← unlock; mret (TTOS_OK, o)) (set_semas (<[id := c3]> (semas W)) (set_kern K3 W)) (λ r W',
    calls_ok (kern W') ∧ elsewhere W W' ∧ r = (TTOS_OK, o) ∧ semas W' = <[id := c3]> (semas W) ∧
    rescheduled K3 (kern W') ∧ waited (kern W') = waited K3).
Proof.
  intros Hin3 Henv3. apply wp_bind. eapply wp_mono; [apply unlock_run; [exact Hin3|]|].
  - pose proof Henv3 as [= _ _ _ _ _ Ec _ El]. simpl. rewrite Ec, El. apply lookup_insert_eq.
  - intros [] W' (K4 & -> & ? & Hrs & ?). apply wp_ret. split_and!; try done. split; [done|]. simpl.
    rewrite (rs_sys _ _ Hrs). by apply (env_sys (locked 1 K)).
Qed.

Lemma owner_fields K3 K4 : option_Forall2 same_but_wt (Some (retired ec)) (tasks K3 !! e) → evolves K3 K4 →
  ∃ ec', tasks K4 !! e = Some ec' ∧ resourceCount ec' = resourceCount (retired ec) ∧
    taskCurPriority ec' = taskCurPriority (retired ec).
Proof.
  intros Hw Hev. inversion Hw as [a b Hab E1 E2|]; subst. symmetry in E2.
  destruct (evolves_task _ _ _ _ Hev E2) as (ec' & Hec' & [Hc _]). exists ec'. split; [done|].
  rewrite Hc, Hab. done.
Qed.

(** The rest of the release, from the owner's part on. *)
Lemma pass_on_run K1 : inside_ok K1 → env K1 = env (locked 1 K) → tasks K1 = <[e := retired ec]> (tasks K) →
  wqs K1 = wqs K → waited K1 = waited K → nestCount c = 1 → semaControlValue c ≤ 0 →
  wp (c ← get_sema id;
      _ ← whenM (semaControlValue c <? INT_MAX) (upd_sema id (set_value (semaControlValue c + 1)));
      task ← lk (ttosDequeueTaskq id);
      _ ← match task with
          | Some t => c ← get_sema id; whenM (is_mutex c) (hand_over id t)
          | None => mret tt
          end;
      _ ← unlock;
      mret (TTOS_OK, task))
    (set_semas (<[id := set_holder None (set_nest 0 c)]> (semas W)) (set_kern K1 W)) (λ r W',
    calls_ok (kern W') ∧ elsewhere W W' ∧ r.1 = TTOS_OK ∧ semas W' = <[id := unlocked c q]> (semas W) ∧
    passed_on r.2 W').
Proof.
  intros Hin1 Henv1 Et1 Eq1 Ew1 Hn Hv. apply wp_bind. eapply wp_get_sema; [apply lookup_insert_eq|].
  simpl. rewrite (proj2 (Z.ltb_lt (semaControlValue c) INT_MAX)) by (unfold INT_MAX; lia).
  apply wp_bind. eapply wp_upd_sema; [apply lookup_insert_eq|]. simpl. rewrite insert_insert_eq.
  set (c1 := set_value _ _). apply wp_bind, wp_lk.
  eapply wp_mono; [apply (dequeue_inside K1 id q Hin1); rewrite Eq1; apply Hat|]. simpl.
  intros o K2 (Hin2 & Henv2 & -> & Hcase).
  destruct (wq_tasks q) as [|t xs] eqn:Hxs; simpl.
  - subst K2. apply wp_bind, wp_ret. eapply wp_mono; [by apply (leave_with K1 c1 None)|].
    intros r W' (Hok' & Helse & -> & Hsem & Hrs & Ew). split_and!; try done.
    + rewrite Hsem. unfold unlocked. by rewrite Hn, Hxs.
    + unfold passed_on. rewrite Hxs, Ew, (rs_wqs _ _ Hrs). split_and!; try done.
      apply (owner_fields K1); [|apply Hrs]. rewrite Et1, lookup_insert_eq. constructor. apply same_but_wt_refl.
  - destruct Hcase as (tc & Ht & Hre).
    assert (Hne : e ≠ t).
    { intros <-. destruct (wq_member _ (bi_wqs _ (is_block _ Hin1)) id q e) as (? & ? & Hr & _);
        [by rewrite Eq1; apply Hat|rewrite Hxs; left|].
      assert (Hrd : ready (retired ec) = ready ec) by (unfold retired; by destruct (_ =? 0)).
      rewrite Et1, lookup_insert_eq in Ht. pose proof (co_ready _ Hok e ec Hrun He). simplify_eq.
      rewrite Et1, lookup_insert_eq in H. congruence. }
    assert (Ht0 : tasks K !! t = Some tc) by (by rewrite Et1, lookup_insert_ne in Ht).
    apply wp_bind. apply wp_bind. eapply wp_get_sema; [apply lookup_insert_eq|].
    change (is_mutex c1) with (is_mutex c). rewrite Hmutex. simpl.
    eapply wp_mono; [by apply (hand_over_run K1 K2 t xs tc c1); [..|apply Hat]|].
    intros [] W3 (K3 & -> & Hin3 & Henv3 & Eq3 & Ew3 & Hrest3 & tc3 & Ht3 & Hw3 & Hrc3 & Hr3).
    eapply wp_mono; [by apply (leave_with K3 _ (Some t)); [|rewrite Henv3]|].
    intros r W' (Hok' & Helse & -> & Hsem & Hrs & Ew). split_and!; try done.
    + rewrite Hsem. unfold unlocked. by rewrite Hn, Hxs.
    + unfold passed_on. rewrite Hxs, Ew, Ew3, Ew1, (rs_wqs _ _ Hrs), Eq3, Eq1. split_and!; try done.
      * apply (owner_fields K3); [|apply Hrs]. specialize (Hrest3 e Hne). by rewrite Et1, lookup_insert_eq in Hrest3.
      * destruct (evolves_task _ _ _ _ (rs_evolves _ _ Hrs) Ht3) as (tc4 & Ht4 & Hcm).
        exists tc, tc4. destruct (calm_ready _ _ Hcm) as [-> _], (calm_fields _ _ Hcm) as [-> _].
        split_and!; try done. rewrite (cm_fields _ _ Hcm). exact Hrc3.
Qed.

End Release.


Definition held_mutex (nest : Z) : sema :=
  Sema [] (Z.lor TTOS_MUTEX_SEMAPHORE TTOS_MUTEX_WAIT_PRIORITY_INHERIT) (1 - nest) false 0 (Some 3%nat) nest.

