(* ===== verification/SemaLife.v ===== *)
(** * Creating, finding and deleting semaphores

    The object pool side of [kernel/sema]: what [TTOS_CreateSema] sets up is what
    the other services rely on, [TTOS_GetSemaID] finds it by name, and
    [TTOS_DeleteSema] wakes every task that waits and gives the block back. *)

From S2P Require Import Prelude Chain PrioMap DeltaQ Kernel Sched Frame SchedInv Dispatch SchedProps Service Wait WaitInv WaitProps Block Names Sema SemaInv SemaProps.
From Stdlib Require Import Init.Byte.
Import Width.
Local Open Scope Z_scope.

(** ** Flushing a wait queue *)

(** What became of a task that was waiting. *)
Definition flushed (status : retcode) (tc tc' : tcb) : Prop :=
  returnCode (wait tc') = status ∧ wait_queue (wait tc') = None ∧
  ready tc' = negb (flag_on TTOS_TASK_NONRUNNING_STATE (clear_flag TTOS_TASK_WAITING (state tc))).

Definition extract_all (xs : list tid) (d : list (tid * Z)) : list (tid * Z) :=
  foldl (λ d t, d_extract t d) d xs.

Lemma relock K l : ttosDisableScheduleLevel K !! this_cpu K = Some l → locked l (locked (l - 1) K) = K.
Proof.
  intros Hl. unfold locked. simpl. rewrite insert_insert_eq, insert_id by done. by destruct K.
Qed.

(** One turn of the loop. *)
Record flushed_one (t : tid) (xs : list tid) (w : wqid) (q : wqueue) (status : retcode) (K K' : kernel) : Prop := {
  fo_inside : inside_ok K';
  fo_env : env K' = env K;
  fo_wqs : wqs K' = <[w := set_wq_tasks xs q]> (wqs K);
  fo_waited : waited K' = d_extract t (waited K);
  fo_rest : only_wt_but t K K';
  fo_task : ∃ tc tc', tasks K !! t = Some tc ∧ tasks K' !! t = Some tc' ∧ flushed status tc tc';
}.

Lemma flush_turn K w q t xs status l fuel Φ : inside_ok K → wqs K !! w = Some q → wq_tasks q = t :: xs →
  ttosDisableScheduleLevel K !! this_cpu K = Some (l + 1) → 1 ≤ l < 2 ^ 32 →
  (∀ K', flushed_one t xs w q status K K' → wp (flush_loop fuel w status) K' Φ) →
  wp (flush_loop (S fuel) w status) K Φ.
Proof.
  intros Hin Hw Hxs Hl Hb Hk. simpl. apply wp_bind. eapply wp_mono; [by apply (dequeue_inside K w q)|].
  rewrite Hxs. simpl. intros o K1 (Hin1 & He1 & -> & tc & Ht & Hre). simpl.
  destruct (re_task _ _ _ _ _ _ _ Hre) as (tc1 & Ht1 & Hw1 & _ & Hr1 & _).
  apply wp_bind. eapply wp_upd_task; [done|]. set (tc2 := upd_wait _ tc1). set (K2 := set_tasks _ K1).
  assert (Hnt : t ∉ c_get TaskWaitedQ (oq K1)) by exact (released_untimed _ _ _ _ _ _ _ Hin Hre).
  assert (Hin2 : inside_ok K2) by (apply (inside_upd_free K1 t tc1); try done; by rewrite Hw1).
  assert (Hl2 : ttosDisableScheduleLevel K2 !! this_cpu K2 = Some (l + 1)).
  { simpl. injection He1 as _ _ _ _ _ -> _ ->. done. }
  apply wp_bind. eapply wp_mono; [by apply (nested_leave_run K2 l)|]. intros [] K3 ->.
  apply wp_bind. eapply wp_mono; [apply lock_run, locked_level|]. intros [] K3 ->. rewrite u64_small by lia.
  pose proof (relock K2 _ Hl2) as E. replace (l + 1 - 1) with l in E by lia. rewrite E. apply Hk. split.
  - done.
  - exact He1.
  - apply (re_wqs _ _ _ _ _ _ _ Hre).
  - rewrite <- (re_waited _ _ _ _ _ _ _ Hre). apply view_ext. intros x Hx. apply wt_insert_ne. by intros ->.
  - intros x Hx. simpl. rewrite lookup_insert_ne by done. by apply (re_rest _ _ _ _ _ _ _ Hre).
  - exists tc, tc2. simpl. rewrite lookup_insert_eq. split_and!; try done. split_and!; [done| |done].
    simpl. by rewrite Hw1.
Qed.

(** The whole loop, on a dispatch lock that stays held. *)
Lemma flush_run xs : ∀ fuel K w q status l, inside_ok K → wqs K !! w = Some q → wq_tasks q = xs →
  ttosDisableScheduleLevel K !! this_cpu K = Some (l + 1) → 1 ≤ l < 2 ^ 32 → (length xs < fuel)%nat →
  wp (flush_loop fuel w status) K (λ _ K', inside_ok K' ∧ env K' = env K ∧
    wqs K' = <[w := set_wq_tasks [] q]> (wqs K) ∧ waited K' = extract_all xs (waited K) ∧
    (∀ x, x ∉ xs → option_Forall2 same_but_wt (tasks K !! x) (tasks K' !! x)) ∧
    ∀ x xc, x ∈ xs → tasks K !! x = Some xc → ∃ xc', tasks K' !! x = Some xc' ∧ flushed status xc xc').
Proof.
  induction xs as [|t xs IH]; intros fuel K w q status l Hin Hw Hxs Hl Hb Hf; (destruct fuel as [|fuel]; simpl in Hf; [lia|]).
  - simpl. apply wp_bind. unfold wp at 1. rewrite (dequeue_empty_run K w q Hw Hxs). apply wp_ret. split_and!; try done.
    + rewrite insert_id; [done|]. rewrite <- Hxs, set_wq_same. done.
    + intros x _. destruct (tasks K !! x); constructor. apply same_but_wt_refl.
    + intros x xc Hx. by apply elem_of_nil in Hx.
  - assert (Hnt : t ∉ xs).
    { pose proof (wq_nodup _ (bi_wqs _ (is_block _ Hin)) w q Hw) as Hnd. rewrite Hxs in Hnd. by apply NoDup_cons in Hnd as [? _]. }
    eapply (flush_turn K w q t xs status l); try done. intros K1 [Hin1 He1 Eq1 Ew1 Hr1 (tc & tc' & Ht & Ht' & Hfl)].
    eapply wp_mono; [apply (IH fuel K1 w (set_wq_tasks xs q) status l); try done; [|..|lia]|].
    + rewrite Eq1. apply lookup_insert_eq.
    + injection He1 as _ _ _ _ _ -> _ ->. done.
    + intros [] K2 (Hin2 & He2 & Eq2 & Ew2 & Hrest2 & Hwoken2). split_and!; try done.
      * by rewrite He2.
      * rewrite Eq2, Eq1, insert_insert_eq. done.
      * rewrite Ew2, Ew1. done.
      * intros x Hx. apply not_elem_of_cons in Hx as [Hne Hx]. specialize (Hr1 x Hne). specialize (Hrest2 x Hx).
        destruct Hr1 as [a b Hab|]; inversion Hrest2 as [b' c Hbc|]; subst; constructor. unfold same_but_wt in *.
        rewrite Hbc, Hab. by destruct a.
      * intros x xc Hx Hxc. apply elem_of_cons in Hx as [->|Hx].
        -- simplify_eq. specialize (Hrest2 t Hnt). rewrite Ht' in Hrest2. inversion Hrest2 as [a b Hab E1 E2|]; subst.
           exists b. split; [done|]. unfold flushed, ready in *. by rewrite Hab.
        -- assert (Hne : x ≠ t) by (by intros ->). specialize (Hr1 x Hne). rewrite Hxc in Hr1.
           inversion Hr1 as [a b Hab E1 E2|]; subst. destruct (Hwoken2 x b Hx) as (xc' & ? & Hf'); [done|].
           exists xc'. split; [done|]. unfold flushed in *. by rewrite Hab in Hf'.
Qed.

(** ** Wait queues come and go *)

Lemma inside_set_wqs K m : inside_ok K →
  (∀ w q, m !! w = Some q → wq_tasks q = [] ∨ wqs K !! w = Some q) → inside_ok (set_wqs m K).
Proof.
  intros [[Hi [H1 H2 H3] [H4 H5 H6]] Hs Hu Hisr] Hm.
  assert (Hsub : ∀ w q t, m !! w = Some q → t ∈ wq_tasks q → wqs K !! w = Some q).
  { intros w q t Hw Ht. destruct (Hm w q Hw) as [E|?]; [|done]. rewrite E in Ht. by apply elem_of_nil in Ht. }
  split; [split; [by apply inv_set_wqs|split|split]|..]; try done; simpl.
  - intros w q t tc Hw Ht. eapply H3; [by eapply Hsub|done].
  - intros w q Hw. destruct (Hm w q Hw) as [->|?]; [constructor|by eapply H4].
  - intros w q t Hw Ht. eapply H5; [by eapply Hsub|done].
  - intros w q t o Hw Ht. eapply H6; [by eapply Hsub|done].
Qed.

(** ** Deletion *)

(** What a reschedule and another task's wake-up leave of a task. *)
Definition undisturbed (tc tc' : tcb) : Prop := ready tc' = ready tc ∧ wait tc' = wait tc.

(** [TTOS_DeleteSema] up to the point where the block goes back to the pool. *)
Lemma flush_locked_run K w q status fuel : inside_ok K → wqs K !! w = Some q →
  ttosDisableScheduleLevel K !! this_cpu K = Some 1 → (length (wq_tasks q) < fuel)%nat →
  wp (ttosFlushTaskq fuel w status) K (λ _ K', inside_ok K' ∧ env K' = env K ∧
    wqs K' = <[w := set_wq_tasks [] q]> (wqs K) ∧ waited K' = extract_all (wq_tasks q) (waited K) ∧
    (∀ x, x ∉ wq_tasks q → option_Forall2 same_but_wt (tasks K !! x) (tasks K' !! x)) ∧
    ∀ x xc, x ∈ wq_tasks q → tasks K !! x = Some xc → ∃ xc', tasks K' !! x = Some xc' ∧ flushed status xc xc').
Proof.
  intros Hin Hw Hl Hf. unfold ttosFlushTaskq. apply wp_bind. eapply wp_mono; [by apply lock_run|].
  intros [] K1 ->. rewrite u64_small by lia. change (1 + 1) with 2. apply wp_bind.
  eapply wp_mono; [apply (flush_run (wq_tasks q) fuel (locked 2 K) w q status 1); try done|].
  - by apply inside_locked.
  - apply locked_level.
  - intros [] K2 (Hin2 & He2 & Eq2 & Ew2 & Hr2 & Hf2).
    assert (Hl2 : ttosDisableScheduleLevel K2 !! this_cpu K2 = Some (1 + 1)).
    { pose proof He2 as [= _ _ _ _ _ -> _ ->]. apply lookup_insert_eq. }
    eapply wp_mono; [apply (nested_leave_run K2 1 Hl2); lia|]. intros [] K3 ->. split_and!; try done.
    + by apply inside_locked.
    + pose proof He2 as [= ? ? ? ? ? Ec ? El]. unfold env, locked. simpl. rewrite Ec, El. simpl.
      rewrite insert_insert_eq, insert_id by done. congruence.
Qed.

(** An identifier that is not in use is refused. *)
Lemma release_unused W id : inside_ok (kern W) → id ∉ inUsedResource W →
  TTOS_ReleaseSema id W = Some (TTOS_INVALID_ID, W).
Proof.
  intros Hin Hno. destruct (si_run _ _ (bi_sched _ (is_block _ Hin)) _ (si_this _ _ (bi_sched _ (is_block _ Hin)))) as (e & ec & He & _).
  enough (Hwp : wp (TTOS_ReleaseSema id) W (λ r W', r = TTOS_INVALID_ID ∧ W' = W)).
  { by apply wp_run in Hwp as (r & W' & ? & -> & ->). }
  unfold TTOS_ReleaseSema, TTOS_ReleaseSemaReturnTask. apply wp_bind, wp_bind, wp_lk. unfold ttosGetRunningTask.
  apply wp_bind, wp_gets. unfold wp at 1, ttosGetRunningTaskWithCpuID. simpl. rewrite He. simpl.
  replace (set_kern (kern W) W) with W by (by destruct W). apply wp_bind. unfold get_sema_object.
  apply wp_bind, wp_gets. rewrite bool_decide_false by done. apply wp_ret, wp_ret, wp_ret. done.
Qed.

(** [TTOS_DeleteSema] with the state [K1] before the final reschedule. *)
Lemma delete_run W id c q fuel : calls_ok (kern W) → sema_at id c q W → (length (wq_tasks q) < fuel)%nat →
  wp (TTOS_DeleteSema fuel id) W (λ r W', r = TTOS_OK ∧ ∃ K1 K2,
    W' = set_kern K2 (set_pools (filter (λ x, x ≠ id) (inUsedResource W)) (inactiveResource W ++ [id])
      (u32 (inUsedResourceNum W - 1)) (objExistNumber W) (set_semas (<[id := zero_sema]> (semas W)) W)) ∧
    calls_ok K2 ∧ rescheduled K1 K2 ∧ waited K2 = extract_all (wq_tasks q) (waited (kern W)) ∧
    sys K1 = sys (kern W) ∧ wqs K1 = delete id (wqs (kern W)) ∧
    (∀ x, x ∉ wq_tasks q → option_Forall2 same_but_wt (tasks (kern W) !! x) (tasks K1 !! x)) ∧
    ∀ x xc, x ∈ wq_tasks q → tasks (kern W) !! x = Some xc → ∃ xc', tasks K1 !! x = Some xc' ∧
      flushed TTOS_OBJECT_WAS_DELETED xc xc').
Proof.
  intros Hok [Huse Hc Hq Hst Hfifo] Hf. set (K := kern W) in *. pose proof (co_inside _ Hok) as Hin.
  unfold TTOS_DeleteSema. apply wp_bind, wp_lk, wp_gets. fold K. rewrite (is_task _ Hin).
  replace (set_kern K W) with W by (by destruct W).
  apply wp_bind. eapply wp_mono; [apply sema_object_run; [done|apply Hok]|]. intros b W0 [-> ->]. simpl. fold K.
  apply wp_bind, wp_lk. eapply wp_mono; [apply (flush_locked_run (locked 1 K) id q); try done|].
  - by apply inside_locked.
  - apply locked_level.
  - intros [] K1 (Hin1 & He1 & Eq1 & Ew1 & Hr1 & Hf1). unfold ttosReturnObjectToInactiveResource. apply wp_bind.
    apply wp_bind. eapply wp_upd_sema; [done|]. apply wp_bind, wp_lk, wp_modify, wp_modify. simpl.
    set (K2 := set_wqs _ K1).
    assert (Eq2 : wqs K2 = delete id (wqs K)) by (simpl; by rewrite Eq1, delete_insert_eq).
    assert (Hin2 : inside_ok K2).
    { apply inside_set_wqs; [done|]. intros w q' [_ Hw]%lookup_delete_Some. by right. }
    apply wp_bind. eapply wp_mono; [apply unlock_run; [exact Hin2|]|].
    { simpl. injection He1 as _ _ _ _ _ -> _ ->. apply lookup_insert_eq. }
    intros [] W' (K3 & -> & Hok3 & Hrs & Ew3). apply wp_ret. split; [done|]. simpl in *. exists K2, K3.
    split_and!; try done.
    + rewrite Ew3. exact Ew1.
    + by apply (env_sys (locked 1 K)).
Qed.



(** ** Creation *)

(** The block an allocation returns, or the code of its refusal. *)
Definition allocation (W : sworld) (mem : option wqid) : retcode + wqid :=
  match inactiveResource W, mem with
  | b :: _, _ => inr b
  | [], _ => if objExistNumber W =? objMaxNumber W then inl TTOS_TOO_MANY
             else match mem with Some b => inr b | None => inl TTOS_UNSATISFIED end
  end.

(** The kind of semaphore is in bits 0 and 1 of the attributes, the policy of a
    mutex in bits 5 and 6. *)
Definition counting_kind (attributes : Z) : bool := Z.testbit attributes 0 && negb (Z.testbit attributes 1).
Definition mutex_kind (attributes : Z) : bool := negb (Z.testbit attributes 0) && Z.testbit attributes 1.
Definition ceiling_policy (attributes : Z) : bool := negb (Z.testbit attributes 5) && negb (Z.testbit attributes 6).

(** Why a call of [TTOS_CreateSema] is refused before it looks for a block, for a
    configuration with the name [s] and the version [v]. *)
Definition refusal (isr : bool) (param : option sema_config) (semaID : bool) (s v : list byte) : option retcode :=
  if isr then Some TTOS_CALLED_FROM_ISR else
  match param with
  | None => Some TTOS_INVALID_ADDRESS
  | Some cfg =>
      if decide (v ≠ [x31; x2e; x30]) then Some TTOS_INVAILD_VERSION
      else if negb semaID then Some TTOS_INVALID_ADDRESS
      else if decide (s = [] ∨ ¬ Forall printable (take TTOS_OBJECT_NAME_LENGTH s)) then Some TTOS_INVALID_NAME
      else if counting_kind (cfg_attributeSet cfg) then None
      else if negb (mutex_kind (cfg_attributeSet cfg)) then Some TTOS_INVALID_ATTRIBUTE
      else if 2 <=? cfg_initValue cfg then Some TTOS_INVALID_NUMBER
      else if 256 <=? cfg_priorityCeiling cfg then Some TTOS_INVALID_PRIORITY
      else None
  end.

(** The control block and the wait queue of a new semaphore. *)
Definition created (cfg : sema_config) (name : list byte) : sema :=
  Sema name (cfg_attributeSet cfg) (s32 (cfg_initValue cfg))
    (mutex_kind (cfg_attributeSet cfg) && ceiling_policy (cfg_attributeSet cfg)) (u8 (cfg_priorityCeiling cfg)) None 0.

Definition new_queue (cfg : sema_config) : wqueue :=
  WQueue (negb (mutex_kind (cfg_attributeSet cfg))) TTOS_TASK_WAITING_FOR_SEMAPHORE [].

(** The masks of the code pick out these bits. *)
Lemma low_bits a : Z.land a 3 = Z.b2z (Z.testbit a 0) + 2 * Z.b2z (Z.testbit a 1).
Proof.
  change 3 with (Z.ones 2). rewrite Z.land_ones by lia. change (2 ^ 2) with (2 * 2). rewrite Z.rem_mul_r by lia.
  rewrite !Z.testbit_spec' by lia. by rewrite Z.div_1_r.
Qed.

Lemma counting_mask a : (Z.land a TTOS_SEMAPHORE_MASK =? TTOS_COUNTING_SEMAPHORE) = counting_kind a.
Proof.
  unfold TTOS_SEMAPHORE_MASK, TTOS_COUNTING_SEMAPHORE, counting_kind. change 0x3 with 3. rewrite low_bits.
  by destruct (Z.testbit a 0), (Z.testbit a 1).
Qed.

Lemma mutex_mask a : (Z.land a TTOS_SEMAPHORE_MASK =? TTOS_MUTEX_SEMAPHORE) = mutex_kind a.
Proof.
  unfold TTOS_SEMAPHORE_MASK, TTOS_MUTEX_SEMAPHORE, mutex_kind. change 0x3 with 3. rewrite low_bits.
  by destruct (Z.testbit a 0), (Z.testbit a 1).
Qed.

Lemma ceiling_mask a : (Z.land a TTOS_MUTEX_WAIT_ATTR_MASK =? TTOS_MUTEX_WAIT_PRIORITY_CEILING) = ceiling_policy a.
Proof.
  unfold TTOS_MUTEX_WAIT_ATTR_MASK, TTOS_MUTEX_WAIT_PRIORITY_CEILING, ceiling_policy.
  assert (E : Z.land a 96 = Z.shiftl (Z.land (Z.shiftr a 5) 3) 5).
  { rewrite Z.shiftl_land. apply Z.bits_inj'. intros n Hn. rewrite !Z.land_spec, Z.shiftl_spec by done.
    change (Z.shiftl 3 5) with 96. destruct (Z.testbit 96 n) eqn:Eb; [|by rewrite !andb_false_r].
    destruct (Z.ltb_spec n 5) as [Hlt|Hge].
    - exfalso. assert (n = 0 ∨ n = 1 ∨ n = 2 ∨ n = 3 ∨ n = 4) as [->|[->|[->|[->| ->]]]] by lia; done.
    - rewrite Z.shiftr_spec by lia. by replace (n - 5 + 5) with n by lia. }
  rewrite E, low_bits, Z.shiftl_mul_pow2, !Z.shiftr_spec by lia. change (0 + 5) with 5. change (1 + 5) with 6.
  by destruct (Z.testbit a 5), (Z.testbit a 6).
Qed.

(** The code's checks by kind. *)
Lemma check_kind_spec cfg : check_kind cfg =
  if counting_kind (cfg_attributeSet cfg) then (TTOS_OK, false)
  else if negb (mutex_kind (cfg_attributeSet cfg)) then (TTOS_INVALID_ATTRIBUTE, false)
  else if 2 <=? cfg_initValue cfg then (TTOS_INVALID_NUMBER, false)
  else if 256 <=? cfg_priorityCeiling cfg then (TTOS_INVALID_PRIORITY, false)
  else (TTOS_OK, mutex_kind (cfg_attributeSet cfg) && ceiling_policy (cfg_attributeSet cfg)).
Proof.
  unfold check_kind. rewrite counting_mask, mutex_mask, ceiling_mask. unfold TTOS_MAX_PRIORITY.
  destruct (counting_kind _); [done|]. destruct (mutex_kind _); [|done]. simpl.
  replace (1 <? cfg_initValue cfg) with (2 <=? cfg_initValue cfg) by (apply eq_true_iff_eq; rewrite Z.ltb_lt, Z.leb_le; lia).
  by replace (255 <? cfg_priorityCeiling cfg) with (256 <=? cfg_priorityCeiling cfg) by (apply eq_true_iff_eq; rewrite Z.ltb_lt, Z.leb_le; lia).
Qed.

Lemma counting_not_mutex a : counting_kind a = true → mutex_kind a = false.
Proof. unfold counting_kind, mutex_kind. by destruct (Z.testbit a 0), (Z.testbit a 1). Qed.

Lemma version_cstr : cstr current_version [x31; x2e; x30].
Proof. exists []. split; [reflexivity|]. apply (bool_decide_unpack _). vm_compute. exact I. Qed.

(** The allocation, on both outcomes. *)
Lemma allocate_run W mem :
  wp (ttosAllocateObject mem) W (λ r W', kern W' = kern W ∧ inUsedResource W' = inUsedResource W ∧
    match allocation W mem with
    | inl e => r = (e, None) ∧ e ≠ TTOS_OK ∧ W' = W
    | inr b => r = (TTOS_OK, Some b) ∧ semas W' = <[b := zero_sema]> (semas W) ∧
        inactiveResource W' = tail (inactiveResource W)
    end).
Proof.
  unfold ttosAllocateObject, allocation. apply wp_bind, wp_gets. unfold id.
  destruct (inactiveResource W) as [|b free] eqn:Ef.
  - destruct (objExistNumber W =? objMaxNumber W); [by apply wp_ret|].
    destruct mem as [b|]; [|by apply wp_ret]. by apply wp_bind, wp_modify, wp_bind, wp_modify, wp_ret.
  - by apply wp_bind, wp_modify, wp_bind, wp_modify, wp_ret.
Qed.

(** The initialisation of a cleared block. *)
Lemma init_run W b cfg s ceiling : inside_ok (kern W) → semas W !! b = Some zero_sema → cstr (cfgSemaName cfg) s →
  ceiling = mutex_kind (cfg_attributeSet cfg) && ceiling_policy (cfg_attributeSet cfg) →
  wp (ttosInitSema b cfg ceiling) W (λ _ W', ∃ name, cstr name (take TTOS_OBJECT_NAME_LENGTH s) ∧
    semas W' = <[b := created cfg name]> (semas W) ∧ inUsedResource W' = inUsedResource W ++ [b] ∧
    inactiveResource W' = inactiveResource W ∧
    kern W' = set_wqs (<[b := new_queue cfg]> (wqs (kern W))) (kern W) ∧ inside_ok (kern W')).
Proof.
  intros Hin Hb Hs ->. unfold ttosInitSema. apply wp_bind. eapply wp_get_sema; [done|].
  destruct (copy_run TTOS_OBJECT_NAME_LENGTH (cfgSemaName cfg) s (objName zero_sema) Hs) as (name & Hn & Hname & _).
  { simpl. unfold TTOS_OBJECT_NAME_LENGTH. lia. }
  apply wp_bind, wp_lift with name; [exact Hn|]. apply wp_bind. eapply wp_upd_sema; [done|].
  apply wp_bind. eapply wp_get_sema; [apply lookup_insert_eq|]. apply wp_bind, wp_lk.
  unfold Wait.ttosInitializeTaskq, is_mutex. simpl. rewrite mutex_mask. apply wp_modify, wp_modify.
  exists name. split_and!; try done.
  apply inside_set_wqs; [done|]. intros w q' [[_ <-]|[_ Hw]]%lookup_insert_Some; [by left|by right].
Qed.

(** The second half of [TTOS_CreateSema], for a configuration that is accepted. *)
Definition create_accepted (cfg : sema_config) (ceiling : bool) (mem : option wqid) : M sworld (retcode * option wqid) :=
  _ ← lock;
  r ← ttosAllocateObject mem;
  match (r : retcode * option wqid) with
  | (TTOS_OK, Some b) => _ ← ttosInitSema b cfg ceiling; _ ← unlock; mret (TTOS_OK, Some b)
  | (ret, _) => _ ← unlock; mret (ret, None)
  end.

(** What it comes to: the block, with its control block and its wait queue, or the
    code of the refusal. *)
Definition accepted (W : sworld) (cfg : sema_config) (s : list byte) (mem : option wqid) (r : retcode * option wqid)
    (W' : sworld) : Prop :=
  match allocation W mem with
  | inl e => r = (e, None) ∧ e ≠ TTOS_OK ∧ semas W' = semas W ∧ inUsedResource W' = inUsedResource W ∧
      inactiveResource W' = inactiveResource W ∧ wqs (kern W') = wqs (kern W)
  | inr b => r = (TTOS_OK, Some b) ∧ ∃ name, cstr name (take TTOS_OBJECT_NAME_LENGTH s) ∧
      semas W' = <[b := created cfg name]> (semas W) ∧ inUsedResource W' = inUsedResource W ++ [b] ∧
      inactiveResource W' = tail (inactiveResource W) ∧
      wqs (kern W') = <[b := new_queue cfg]> (wqs (kern W)) ∧ sema_at b (created cfg name) (new_queue cfg) W'
  end.

Lemma accepted_run W cfg s ceiling mem : calls_ok (kern W) → cstr (cfgSemaName cfg) s →
  ceiling = mutex_kind (cfg_attributeSet cfg) && ceiling_policy (cfg_attributeSet cfg) →
  wp (create_accepted cfg ceiling mem) W (λ r W', calls_ok (kern W') ∧ accepted W cfg s mem r W').
Proof.
  intros Hok Hs Hc. unfold create_accepted, accepted. pose proof (co_inside _ Hok) as Hin. apply wp_bind, wp_lk.
  eapply wp_mono; [apply lock_run, Hok|]. intros [] K1 ->. rewrite u64_small by lia. change (0 + 1) with 1.
  apply wp_bind. eapply wp_mono; [apply allocate_run|]. intros r W1 (EK1 & Eu1 & Hcase).
  assert (Hin1 : inside_ok (kern W1)) by (rewrite EK1; by apply inside_locked).
  assert (Hl1 : ttosDisableScheduleLevel (kern W1) !! this_cpu (kern W1) = Some 1) by (rewrite EK1; apply locked_level).
  change (allocation (set_kern _ W) mem) with (allocation W mem) in Hcase.
  destruct (allocation W mem) as [e|b].
  - destruct Hcase as (-> & Hne & ->).
    assert (Hend : wp (_ ← unlock; mret (e, None)) (set_kern (locked 1 (kern W)) W) (λ r W', calls_ok (kern W') ∧
      r = (e, @None wqid) ∧ e ≠ TTOS_OK ∧ semas W' = semas W ∧ inUsedResource W' = inUsedResource W ∧
      inactiveResource W' = inactiveResource W ∧ wqs (kern W') = wqs (kern W))).
    { apply wp_bind. eapply wp_mono; [by apply unlock_run|]. intros [] W' (K' & -> & ? & Hrs & _). apply wp_ret.
      split_and!; try done. exact (rs_wqs _ _ Hrs). }
    destruct e; try done; exact Hend.
  - destruct Hcase as (-> & Esem & Ei). apply wp_bind.
    eapply wp_mono; [by apply (init_run W1 b cfg s ceiling); [|rewrite Esem; apply lookup_insert_eq|..]|].
    intros [] W2 (name & Hname & Esem2 & Eu2 & Ei2 & EK2 & Hin2). apply wp_bind.
    eapply wp_mono; [apply unlock_run; [done|by rewrite EK2]|]. intros [] W' (K' & -> & Hok' & Hrs & _). apply wp_ret.
    assert (Eq' : wqs K' = <[b := new_queue cfg]> (wqs (kern W))) by (by rewrite (rs_wqs _ _ Hrs), EK2; simpl; rewrite EK1).
    assert (Esem' : semas W2 = <[b := created cfg name]> (semas W)) by (by rewrite Esem2, Esem, insert_insert_eq).
    split_and!; try done. exists name. split_and!; try done; [simpl; by rewrite Eu2, Eu1|simpl; by rewrite Ei2, Ei|].
    split; simpl; try done.
    + rewrite Eu2. set_solver.
    + rewrite Esem'. apply lookup_insert_eq.
    + rewrite Eq'. apply lookup_insert_eq.
    + unfold is_mutex. simpl. by rewrite mutex_mask.
Qed.


Definition demo_config : sema_config := SemaConfig [x73; x31; x00] 3 TTOS_COUNTING_SEMAPHORE 0 current_version.

Lemma demo_name : cstr [x73; x31; x00] [x73; x31].
Proof. exists []. split; [reflexivity|]. apply (bool_decide_unpack _). vm_compute. exact I. Qed.


(** ** Lookup by name *)

Section Lookup.
Context (W : sworld) (names : wqid → list byte).
Hypothesis Hnames : ∀ id, id ∈ inUsedResource W → ∃ c, semas W !! id = Some c ∧ cstr (objName c) (names id).

Lemma find_name_run name s ids : cstr name s → (length s ≤ TTOS_OBJECT_NAME_LENGTH)%nat →
  (∀ id, id ∈ ids → id ∈ inUsedResource W) →
  ∀ K, find_name name ids (set_kern K W) = Some (snd <$> list_find (λ id, names id = s) ids, set_kern K W).
Proof.
  intros Hs Hlen. induction ids as [|id ids IH]; intros Hsub K; [done|]. simpl.
  destruct (Hnames id) as (c & Hc & Hn); [apply Hsub; left|].
  erewrite bind_run by (unfold get_sema; simpl; by rewrite Hc).
  erewrite bind_run by (unfold lift, ttosCompareName; by rewrite (compare_run _ _ _ _ _ Hs Hn) by lia).
  case_bool_decide as E.
  - by rewrite decide_True by done.
  - rewrite decide_False by done. rewrite IH by (intros; apply Hsub; by right).
    by destruct (list_find _ ids) as [[]|].
Qed.

End Lookup.

(** [TTOS_GetSemaID] with a name of at most 32 characters returns the first
    semaphore in use, in order of creation, that has this name, and
    [TTOS_INVALID_NAME] exactly when there is none; it changes no semaphore. *)
Theorem get_sema_id_correct W names name s :
  calls_ok (kern W) → cstr name s → (length s ≤ TTOS_OBJECT_NAME_LENGTH)%nat →
  (∀ id, id ∈ inUsedResource W → ∃ c, semas W !! id = Some c ∧ cstr (objName c) (names id)) →
  ∃ r K', TTOS_GetSemaID (Some name) true W = Some (r, set_kern K' W) ∧ calls_ok K' ∧
    wqs K' = wqs (kern W) ∧
    match list_find (λ id, names id = s) (inUsedResource W) with
    | Some (_, id) => r = (TTOS_OK, Some id)
    | None => r = (TTOS_INVALID_NAME, None)
    end.
Proof.
  intros Hok Hs Hlen Hnames.
  enough (Hwp : wp (TTOS_GetSemaID (Some name) true) W (λ r W', ∃ K', W' = set_kern K' W ∧ calls_ok K' ∧
    wqs K' = wqs (kern W) ∧ match list_find (λ id, names id = s) (inUsedResource W) with
    | Some (_, id) => r = (TTOS_OK, Some id) | None => r = (TTOS_INVALID_NAME, None) end)).
  { apply wp_run in Hwp as (r & W' & ? & K' & -> & ? & ? & ?). by exists r, K'. }
  simpl. apply wp_bind. unfold ttosGetIdByName. apply wp_bind, wp_lk. eapply wp_mono; [apply lock_run, Hok|].
  intros [] K1 ->. rewrite u64_small by lia. change (0 + 1) with 1. apply wp_bind, wp_gets, wp_bind. simpl.
  unfold wp at 1. rewrite (find_name_run W names Hnames name s (inUsedResource W) Hs Hlen) by done.
  apply wp_bind. eapply wp_mono; [apply unlock_run; [apply inside_locked, Hok|apply locked_level]|].
  intros [] W' (K' & -> & Hok' & Hrs & _). apply wp_ret. pose proof (rs_wqs _ _ Hrs) as Eq.
  destruct (list_find _ _) as [[i id]|]; simpl; apply wp_ret; exists K'; done.
Qed.

Definition named (s : list byte) : sema := Sema s TTOS_COUNTING_SEMAPHORE 0 false 0 None 0.

Lemma get_sema_id_correct_witness :
  ∃ K', TTOS_GetSemaID (Some [x73; x31; x00]) true (sema_world (named [x73; x31; x00])) =
    Some ((TTOS_OK, Some 7%nat), set_kern K' (sema_world (named [x73; x31; x00]))).
Proof.
  destruct (get_sema_id_correct (sema_world (named [x73; x31; x00])) (λ _, [x73; x31]) [x73; x31; x00] [x73; x31])
    as (r & K' & Hr & _ & _ & Er).
  - apply sema_world_ok.
  - exact demo_name.
  - vm_compute. lia.
  - intros id Hid. apply list_elem_of_singleton in Hid. rewrite Hid. exists (named [x73; x31; x00]).
    split; [reflexivity|]. exact demo_name.
  - assert (Er' : r = (TTOS_OK, Some 7%nat)).
    { revert Er. assert (E : list_find (λ _ : wqid, [x73; x31] = [x73; x31]) [7%nat] = Some (0%nat, 7%nat))
        by (vm_compute; reflexivity). change (inUsedResource _) with [7%nat]. rewrite E. intros Er. exact Er. }
    exists K'. rewrite Hr, Er'. reflexivity.
Defined.
