(* ===== verification/Timer.v ===== *)
(** * Software timers

    [kernel/timer/]: the timer wait queue ([ttosInsertWaitedTimer.c],
    [ttosExactWaitedTimer.c]), the tick notification ([ttosTimerNotify.c]) and the
    services on a timer.  A timer handler is code of the application: it is the
    argument [routine] of the definitions that call it.

    Timers are named by their identifier; [timers] has the objects that exist.
    [dispatch] counts the task-dispatch locks: a successful lookup takes one and
    every exit of a service gives it back.  [tm_calls] is the trace of the handler
    calls made: handler, timer, argument. *)

From S2P Require Import Prelude Chain DeltaQ Kernel.
Import Width.
Local Open Scope Z_scope.

Abbreviation tmid := nat.

Inductive tmstate :=
| TTOS_TIMER_UNINSTALL | TTOS_TIMER_INSTALLED | TTOS_TIMER_ACTIVE | TTOS_TIMER_STOP.

#[export] Instance tmstate_eq_dec : EqDecision tmstate.
Proof. solve_decision. Defined.

Definition TTOS_TIMER_LOOP_FOREVER : Z := 0xFFFFFFFF.

(** [T_TTOS_TimerControlBlock]. *)
Record timer := Timer {
  tm_state : tmstate;
  tm_ticks : Z;
  tm_waited : Z;
  tm_repeat : Z;
  tm_remain : Z;
  tm_argument : Z;
  tm_handler : option nat;
}.

Definition set_tm_state (v : tmstate) (r : timer) : timer :=
  Timer v (tm_ticks r) (tm_waited r) (tm_repeat r) (tm_remain r) (tm_argument r) (tm_handler r).
Definition set_tm_waited (v : Z) (r : timer) : timer :=
  Timer (tm_state r) (tm_ticks r) v (tm_repeat r) (tm_remain r) (tm_argument r) (tm_handler r).
Definition set_tm_remain (v : Z) (r : timer) : timer :=
  Timer (tm_state r) (tm_ticks r) (tm_waited r) (tm_repeat r) v (tm_argument r) (tm_handler r).

Record tworld := TWorld {
  timers : gmap tmid timer;
  timerWaitedQueue : list tmid;
  dispatch : Z;
  tm_isr : bool;
  tm_calls : list (nat * tmid * Z);
}.

Definition set_timers (v : gmap tmid timer) (s : tworld) : tworld :=
  TWorld v (timerWaitedQueue s) (dispatch s) (tm_isr s) (tm_calls s).
Definition set_queue (v : list tmid) (s : tworld) : tworld :=
  TWorld (timers s) v (dispatch s) (tm_isr s) (tm_calls s).
Definition set_dispatch (v : Z) (s : tworld) : tworld :=
  TWorld (timers s) (timerWaitedQueue s) v (tm_isr s) (tm_calls s).
Definition add_call (v : nat * tmid * Z) (s : tworld) : tworld :=
  TWorld (timers s) (timerWaitedQueue s) (dispatch s) (tm_isr s) (tm_calls s ++ [v]).

Definition get_timer (t : tmid) : M tworld timer :=
  λ s, match timers s !! t with Some c => Some (c, s) | None => None end.

Definition upd_timer (t : tmid) (f : timer → timer) : M tworld unit :=
  λ s, match timers s !! t with
       | Some c => Some (tt, set_timers (<[t := f c]> (timers s)) s)
       | None => None
       end.

Definition disable_dispatch : M tworld unit := modify (λ s, set_dispatch (dispatch s + 1) s).
Definition enable_dispatch : M tworld unit := modify (λ s, set_dispatch (dispatch s - 1) s).

(** [ttosGetObjectById (id, TTOS_OBJECT_TIMER)]. *)
Definition get_timer_object (t : tmid) : M tworld bool :=
  b ← gets (λ s, bool_decide (is_Some (timers s !! t)));
  _ ← whenM b disable_dispatch;
  mret b.

(** ** The wait queue *)

Definition tm_linked (t : tmid) (s : tworld) : bool := bool_decide (t ∈ timerWaitedQueue s).

(** The search loop, over the nodes from the current one on. *)
Fixpoint insert_timer_from (nodes : list tmid) (t : tmid) : M tworld unit :=
  match nodes with
  | [] => modify (λ s, set_queue (timerWaitedQueue s ++ [t]) s)
  | n :: nodes =>
      tc ← get_timer t;
      nc ← get_timer n;
      if tm_waited nc <? tm_waited tc then
        _ ← upd_timer t (set_tm_waited (u32 (tm_waited tc - tm_waited nc)));
        insert_timer_from nodes t
      else
        _ ← upd_timer n (set_tm_waited (u32 (tm_waited nc - tm_waited tc)));
        modify (λ s, set_queue (insert_before t n (timerWaitedQueue s)) s)
  end.

(** Linking a node twice corrupts the list: a fault. *)
Definition ttosInsertWaitedTimer (t : tmid) : M tworld unit :=
  b ← gets (tm_linked t);
  _ ← massert (negb b);
  nodes ← gets timerWaitedQueue;
  insert_timer_from nodes t.

Definition ttosExactWaitedTimer (t : tmid) : M tworld unit :=
  b ← gets (tm_linked t);
  _ ← massert b;
  next ← gets (λ s, succ_in t (timerWaitedQueue s));
  tc ← get_timer t;
  _ ← match next with
      | Some n => upd_timer n (λ nc, set_tm_waited (u32 (tm_waited nc + tm_waited tc)) nc)
      | None => mret tt
      end;
  _ ← upd_timer t (set_tm_waited 0);
  modify (λ s, set_queue (filter (λ x, x ≠ t) (timerWaitedQueue s)) s).

Section Code.
Context (routine : nat → tmid → Z → M tworld unit).

(** One expired timer: off the queue, back on it or stopped, and its handler. *)
Definition expire_timer (t : tmid) (ticks : Z) : M tworld unit :=
  _ ← upd_timer t (set_tm_waited 0);
  _ ← modify (λ s, set_queue (filter (λ x, x ≠ t) (timerWaitedQueue s)) s);
  tc ← get_timer t;
  _ ← if negb (tm_remain tc =? 0) then
        _ ← upd_timer t (set_tm_waited (u32 (tm_ticks tc + ticks)));
        _ ← ttosInsertWaitedTimer t;
        whenM (negb (tm_repeat tc =? TTOS_TIMER_LOOP_FOREVER))
          (upd_timer t (λ c, set_tm_remain (u32 (tm_remain c - 1)) c))
      else upd_timer t (set_tm_state TTOS_TIMER_STOP);
  tc ← get_timer t;
  h ← lift (tm_handler tc);
  _ ← modify (add_call (h, t, tm_argument tc));
  routine h t (tm_argument tc).

Fixpoint ttosTimerNotify (fuel : nat) (ticks : Z) : M tworld unit :=
  match fuel with
  | O => fault
  | S fuel =>
      node ← gets (λ s, head (timerWaitedQueue s));
      match node with
      | None => mret tt
      | Some t =>
          tc ← get_timer t;
          if ticks <? tm_waited tc
          then upd_timer t (set_tm_waited (u32 (tm_waited tc - ticks)))
          else
            let ticks := u32 (ticks - tm_waited tc) in
            _ ← expire_timer t ticks;
            ttosTimerNotify fuel ticks
      end
  end.

End Code.

(** ** Services *)

Definition TTOS_ActiveTimer (t : tmid) : M tworld retcode :=
  ok ← get_timer_object t;
  if negb ok then mret TTOS_INVALID_ID
  else
    tc ← get_timer t;
    if decide (tm_state tc = TTOS_TIMER_UNINSTALL) then
      _ ← enable_dispatch; mret TTOS_INVALID_STATE
    else
      _ ← whenM (bool_decide (tm_state tc = TTOS_TIMER_ACTIVE)) (ttosExactWaitedTimer t);
      _ ← upd_timer t (λ c, set_tm_waited (tm_ticks c) c);
      _ ← upd_timer t (λ c, set_tm_remain (tm_repeat c) c);
      _ ← ttosInsertWaitedTimer t;
      _ ← upd_timer t (set_tm_state TTOS_TIMER_ACTIVE);
      _ ← enable_dispatch;
      mret TTOS_OK.

Definition TTOS_UpdateTimer (t : tmid) (ticks : Z) : M tworld retcode :=
  ok ← get_timer_object t;
  if negb ok then mret TTOS_INVALID_ID
  else
    tc ← get_timer t;
    _ ← whenM (bool_decide (tm_state tc = TTOS_TIMER_ACTIVE)) (ttosExactWaitedTimer t);
    _ ← upd_timer t (set_tm_waited ticks);
    _ ← ttosInsertWaitedTimer t;
    _ ← upd_timer t (set_tm_state TTOS_TIMER_ACTIVE);
    _ ← enable_dispatch;
    mret TTOS_OK.

Definition TTOS_StopTimer (t : tmid) : M tworld retcode :=
  ok ← get_timer_object t;
  if negb ok then mret TTOS_INVALID_ID
  else
    tc ← get_timer t;
    if decide (tm_state tc ≠ TTOS_TIMER_ACTIVE) then
      _ ← enable_dispatch; mret TTOS_INVALID_STATE
    else
      _ ← ttosExactWaitedTimer t;
      _ ← upd_timer t (set_tm_state TTOS_TIMER_STOP);
      _ ← enable_dispatch;
      mret TTOS_OK.

(** A null handler is [None]. *)
Definition TTOS_InstallTimer (t : tmid) (ticks : Z) (handler : option nat) (argument repeatCount : Z) :
    M tworld retcode :=
  if ticks =? 0 then mret TTOS_INVALID_TIME
  else
    ok ← get_timer_object t;
    if negb ok then mret TTOS_INVALID_ID
    else
      match handler with
      | None => _ ← enable_dispatch; mret TTOS_INVALID_ADDRESS
      | Some _ =>
          _ ← upd_timer t (λ c, Timer (tm_state c) ticks (tm_waited c) repeatCount (tm_remain c) argument handler);
          tc ← get_timer t;
          _ ← whenM (bool_decide (tm_state tc = TTOS_TIMER_UNINSTALL))
                (upd_timer t (set_tm_state TTOS_TIMER_INSTALLED));
          _ ← enable_dispatch;
          mret TTOS_OK
      end.

Definition TTOS_DeleteTimer (t : tmid) : M tworld retcode :=
  isr ← gets tm_isr;
  if (isr : bool) then mret TTOS_CALLED_FROM_ISR
  else
    ok ← get_timer_object t;
    if negb ok then mret TTOS_INVALID_ID
    else
      tc ← get_timer t;
      _ ← whenM (bool_decide (tm_state tc = TTOS_TIMER_ACTIVE)) (ttosExactWaitedTimer t);
      _ ← modify (λ s, set_timers (delete t (timers s)) s);
      _ ← enable_dispatch;
      mret TTOS_OK.

(** The values handed out are the result's second component. *)
Definition TTOS_GetTimerState (t : tmid) (state : bool) : M tworld (retcode * option tmstate) :=
  if negb state then mret (TTOS_INVALID_ADDRESS, None)
  else
    ok ← get_timer_object t;
    if negb ok then mret (TTOS_INVALID_ID, None)
    else
      tc ← get_timer t;
      _ ← enable_dispatch;
      mret (TTOS_OK, Some (tm_state tc)).

Definition TTOS_GetTimerInfo (t : tmid) (timerInfo : bool) :
    M tworld (retcode * option (Z * option nat * Z * Z)) :=
  if negb timerInfo then mret (TTOS_INVALID_ADDRESS, None)
  else
    ok ← get_timer_object t;
    if negb ok then mret (TTOS_INVALID_ID, None)
    else
      tc ← get_timer t;
      _ ← enable_dispatch;
      mret (TTOS_OK, Some (tm_ticks tc, tm_handler tc, tm_argument tc, tm_repeat tc)).

(** [T_TTOS_ConfigTimer], without the name and the version. *)
Record timer_config := TimerConfig {
  cfg_ticks : Z;
  cfg_repeatCount : Z;
  cfg_argument : Z;
  cfg_handler : option nat;
  cfg_autoStarted : bool;
}.

Definition ttosInitTimer (t : tmid) (cfg : timer_config) : M tworld unit :=
  _ ← upd_timer t (λ c, Timer (tm_state c) (cfg_ticks cfg) (tm_waited c) (cfg_repeatCount cfg)
        (tm_remain c) (cfg_argument cfg) (cfg_handler cfg));
  if cfg_autoStarted cfg then
    _ ← upd_timer t (set_tm_state TTOS_TIMER_ACTIVE);
    _ ← upd_timer t (λ c, set_tm_remain (tm_repeat c) c);
    _ ← upd_timer t (λ c, set_tm_waited (tm_ticks c) c);
    ttosInsertWaitedTimer t
  else
    upd_timer t (set_tm_state
      (if negb (cfg_ticks cfg =? 0) && bool_decide (cfg_handler cfg ≠ None)
       then TTOS_TIMER_INSTALLED else TTOS_TIMER_UNINSTALL)).
