(* ===== verification/TimerInv.v ===== *)
(** * Timers: the invariant and the theorems

    The timer queue is a delta queue ([DeltaQ]) of the active timers; every
    service keeps the invariant and the dispatch-lock balance; a notification
    fires exactly the timers whose time has come. *)

From S2P Require Import Prelude Chain DeltaQ Kernel Timer.
Import Width.
Local Open Scope Z_scope.

(** ** The queue as a delta queue *)

Definition tw (s : tworld) (t : tmid) : Z := default 0 (tm_waited <$> timers s !! t).
Definition tview (s : tworld) (xs : list tmid) : list (tmid * Z) := (λ t, (t, tw s t)) <$> xs.
Definition tqueue (s : tworld) : list (tmid * Z) := tview s (timerWaitedQueue s).

Record queue_ok (s : tworld) : Prop := {
  qo_nodup : NoDup (timerWaitedQueue s);
  qo_timer : ∀ t, t ∈ timerWaitedQueue s → ∃ c, timers s !! t = Some c ∧ 0 ≤ tm_waited c;
  qo_bound : Forall (λ p, p.2 < 2 ^ 32) (deadlines (tqueue s));
}.

(** Only waiting times differ. *)
Definition same_but_waited (c c' : timer) : Prop := c' = set_tm_waited (tm_waited c') c.

Record only_waited (s s' : tworld) : Prop := {
  ow_timers : ∀ x, option_Forall2 same_but_waited (timers s !! x) (timers s' !! x);
  ow_dispatch : dispatch s' = dispatch s;
  ow_isr : tm_isr s' = tm_isr s;
  ow_calls : tm_calls s' = tm_calls s;
}.

#[export] Instance only_waited_preorder : PreOrder only_waited.
Proof.
  split.
  - intros s. split; [|done..]. intros x. destruct (timers s !! x) as [[]|]; by constructor.
  - intros s1 s2 s3 [H12 ? ? ?] [H23 ? ? ?]. split; [|congruence..]. intros x. specialize (H12 x). specialize (H23 x).
    destruct H12 as [c1 c2 E12|]; inversion H23 as [c c3 E23|]; subst; constructor.
    unfold same_but_waited in *. by rewrite E23, E12.
Qed.

Lemma wp_get_timer s t c Φ : timers s !! t = Some c → Φ c s → wp (get_timer t) s Φ.
Proof. intros Ht ?. unfold wp, get_timer. by rewrite Ht. Qed.

Lemma wp_upd_timer s t c f (Φ : unit → tworld → Prop) : timers s !! t = Some c →
  Φ tt (set_timers (<[t := f c]> (timers s)) s) → wp (upd_timer t f) s Φ.
Proof. intros Ht ?. unfold wp, upd_timer. by rewrite Ht. Qed.

Lemma only_waited_upd s t c v : timers s !! t = Some c →
  only_waited s (set_timers (<[t := set_tm_waited v c]> (timers s)) s).
Proof.
  intros Ht. split; [|done..]. intros x. simpl. destruct (decide (x = t)) as [->|Hne].
  - rewrite lookup_insert_eq, Ht. by constructor.
  - rewrite lookup_insert_ne by done. destruct (timers s !! x) as [[]|]; by constructor.
Qed.

Lemma only_waited_queue s xs : only_waited s (set_queue xs s).
Proof. split; [|done..]. intros x. simpl. destruct (timers s !! x) as [[]|]; by constructor. Qed.

Lemma only_waited_lookup s s' t c : only_waited s s' → timers s !! t = Some c →
  ∃ v, timers s' !! t = Some (set_tm_waited v c).
Proof.
  intros [Ho _ _ _] Ht. specialize (Ho t). rewrite Ht in Ho. inversion Ho as [? c' E E1 E2|]; subst.
  exists (tm_waited c'). by rewrite <- E.
Qed.

Lemma tview_ext s s' xs : (∀ x, x ∈ xs → tw s' x = tw s x) → tview s' xs = tview s xs.
Proof.
  intros Hx. unfold tview. apply list_fmap_ext. intros i x Hi. f_equal. apply Hx.
  by eapply list_elem_of_lookup_2.
Qed.

Lemma tview_app s xs ys : tview s (xs ++ ys) = tview s xs ++ tview s ys.
Proof. apply fmap_app. Qed.

Lemma tview_ids s xs : (tview s xs).*1 = xs.
Proof. unfold tview. rewrite <- list_fmap_compose. by apply list_fmap_id. Qed.

Lemma tw_upd_ne s t c x : x ≠ t → tw (set_timers (<[t := c]> (timers s)) s) x = tw s x.
Proof. intros Hne. unfold tw. simpl. by rewrite lookup_insert_ne. Qed.

Lemma tw_upd_eq s t c : tw (set_timers (<[t := c]> (timers s)) s) t = tm_waited c.
Proof. unfold tw. simpl. by rewrite lookup_insert_eq. Qed.

Lemma tw_lookup s t c : timers s !! t = Some c → tw s t = tm_waited c.
Proof. unfold tw. by intros ->. Qed.

Lemma tview_upd s t c xs : t ∉ xs → tview (set_timers (<[t := c]> (timers s)) s) xs = tview s xs.
Proof. intros Ht. apply tview_ext. intros x Hx. apply tw_upd_ne. by intros ->. Qed.

Lemma tqueue_wf s : queue_ok s → dq_wf (tqueue s).
Proof.
  intros [Hnd Ht _]. split.
  - intros n d Hin. unfold tqueue, tview in Hin. apply list_elem_of_fmap in Hin as (x & [= -> ->] & Hx).
    destruct (Ht _ Hx) as (c & Hc & ?). by rewrite (tw_lookup _ _ _ Hc).
  - unfold tqueue. by rewrite tview_ids.
Qed.

(** ** Insertion and removal *)

Lemma insert_timer_run nodes : ∀ pre s t c,
  timerWaitedQueue s = pre ++ nodes → NoDup (pre ++ nodes) → t ∉ pre ++ nodes →
  timers s !! t = Some c → 0 ≤ tm_waited c < 2 ^ 32 →
  (∀ x, x ∈ nodes → is_Some (timers s !! x)) →
  dq_wf (tview s nodes) → Forall (λ p, p.2 < 2 ^ 32) (deadlines (tview s nodes)) →
  wp (insert_timer_from nodes t) s (λ _ s', only_waited s s' ∧
    tqueue s' = tview s pre ++ d_insert false t (tm_waited c) (tview s nodes)).
Proof.
  induction nodes as [|n nodes IH]; intros pre s t c Hq Hnd Ht Hc Hw Hsome Hwf Hb; simpl.
  - apply wp_modify. split; [apply only_waited_queue|]. unfold tqueue. simpl.
    rewrite Hq, app_nil_r. change (tview s (pre ++ [t]) = tview s pre ++ [(t, tm_waited c)]).
    rewrite tview_app. simpl. by rewrite (tw_lookup _ _ _ Hc).
  - destruct (Hsome n) as [nc Hn]; [left|]. pose proof (tw_lookup _ _ _ Hn) as Ewn.
    simpl in Hwf, Hb. rewrite Ewn in *. apply dq_wf_cons in Hwf as (Hd & Hnn & Hwf).
    destruct (bound_tail _ _ _ _ Hd Hb) as [Hdn Hb'].
    assert (Hnt : n ≠ t) by (intros ->; set_solver).
    assert (Hnpre : n ∉ pre ∧ n ∉ nodes).
    { apply NoDup_app in Hnd as (_ & Hdj & [? _]%NoDup_cons). split; [|done].
      intros Hin. apply (Hdj n Hin). left. }
    apply wp_bind. eapply wp_get_timer; [done|]. apply wp_bind. eapply wp_get_timer; [done|].
    destruct (Z.ltb_spec (tm_waited nc) (tm_waited c)) as [Hlt|Hge].
    + apply wp_bind. eapply wp_upd_timer; [done|]. rewrite u32_small by lia. set (s1 := set_timers _ s).
      assert (Hv : ∀ xs, t ∉ xs → tview s1 xs = tview s xs) by (intros; by apply tview_upd).
      assert (Hvn : tview s1 nodes = tview s nodes) by (apply Hv; set_solver).
      eapply wp_mono; [eapply (IH (pre ++ [n]) s1 t (set_tm_waited (tm_waited c - tm_waited nc) c))|].
      * by rewrite <- (assoc_L (++)).
      * by rewrite <- (assoc_L (++)).
      * by rewrite <- (assoc_L (++)).
      * apply lookup_insert_eq.
      * simpl. lia.
      * intros x Hx. simpl. apply lookup_insert_is_Some'. right. apply Hsome. by right.
      * by rewrite Hvn.
      * by rewrite Hvn.
      * intros _ s' [Ho ->]. split; [etrans; [by apply (only_waited_upd s t c)|exact Ho]|].
        rewrite Hvn, Hv, tview_app, <- (assoc_L (++)) by set_solver. simpl. by rewrite Ewn.
    + apply wp_bind. eapply wp_upd_timer; [done|]. rewrite u32_small by lia. set (s1 := set_timers _ s).
      apply wp_modify. split; [etrans; [by apply (only_waited_upd s n nc)|apply only_waited_queue]|].
      unfold tqueue. simpl. rewrite Hq, insert_before_split by apply Hnpre.
      change (tview s1 (pre ++ t :: n :: nodes) =
        tview s pre ++ (t, tm_waited c) :: (n, tm_waited nc - tm_waited c) :: tview s nodes).
      rewrite tview_app. unfold tview at 2. cbn [fmap list_fmap]. fold (tview s1 nodes).
      unfold s1. rewrite !tview_upd, tw_upd_eq, tw_upd_ne, (tw_lookup _ _ _ Hc) by (done || apply Hnpre). done.
Qed.

(** A state whose queue view is a well-formed delta queue is well formed. *)
Lemma queue_ok_intro s : dq_wf (tqueue s) → Forall (λ p, p.2 < 2 ^ 32) (deadlines (tqueue s)) →
  (∀ t, t ∈ timerWaitedQueue s → is_Some (timers s !! t)) → queue_ok s.
Proof.
  intros [Hp Hnd] Hb Hs. unfold tqueue in Hnd. rewrite tview_ids in Hnd. split; [done| |done].
  intros t Ht. destruct (Hs t Ht) as [c Hc]. exists c. split; [done|].
  apply (Hp t). unfold tqueue, tview. apply list_elem_of_fmap. exists t. by rewrite (tw_lookup _ _ _ Hc).
Qed.

Lemma insert_run s t c :
  queue_ok s → timers s !! t = Some c → t ∉ timerWaitedQueue s → 0 ≤ tm_waited c < 2 ^ 32 →
  wp (ttosInsertWaitedTimer t) s (λ _ s', only_waited s s' ∧ queue_ok s' ∧
    timerWaitedQueue s' ≡ₚ t :: timerWaitedQueue s ∧
    tqueue s' = d_insert false t (tm_waited c) (tqueue s)).
Proof.
  intros Hq Hc Ht Hw. pose proof (tqueue_wf s Hq) as Hwf. unfold ttosInsertWaitedTimer.
  apply wp_bind, wp_gets, wp_bind, wp_assert; [unfold tm_linked; by rewrite bool_decide_false|].
  apply wp_bind, wp_gets. eapply wp_mono.
  { apply (insert_timer_run (timerWaitedQueue s) [] s t c); try done; try apply Hq.
    intros x Hx. destruct (qo_timer _ Hq x Hx) as (? & ? & _). eauto. }
  simpl. intros _ s' [Ho Et]. fold (tqueue s) in Et.
  assert (Hp : timerWaitedQueue s' ≡ₚ t :: timerWaitedQueue s).
  { rewrite <- (tview_ids s' (timerWaitedQueue s')). fold (tqueue s'). rewrite Et, insert_ids.
    unfold tqueue. by rewrite tview_ids. }
  split_and!; try done. apply queue_ok_intro.
  - rewrite Et. apply insert_wf; [done| |lia]. unfold tqueue. by rewrite tview_ids.
  - rewrite Et. unfold deadlines. rewrite insert_deadlines. apply insert_by_bound; [apply Hq|lia].
  - intros x. rewrite Hp. intros [->|Hx]%elem_of_cons.
    + destruct (only_waited_lookup _ _ _ _ Ho Hc) as [v ->]. eauto.
    + destruct (qo_timer _ Hq x Hx) as (xc & Hxc & _).
      destruct (only_waited_lookup _ _ _ _ Ho Hxc) as [v ->]. eauto.
Qed.

Lemma queue_ok_upd s s' : queue_ok s → only_waited s s' → dq_wf (tqueue s') →
  Forall (λ p, p.2 < 2 ^ 32) (deadlines (tqueue s')) →
  (∀ x, x ∈ timerWaitedQueue s' → x ∈ timerWaitedQueue s) → queue_ok s'.
Proof.
  intros Hq Ho Hwf Hb Hsub. apply queue_ok_intro; [done..|]. intros x Hx.
  destruct (qo_timer _ Hq x (Hsub x Hx)) as (c & Hc & _).
  destruct (only_waited_lookup _ _ _ _ Ho Hc) as [v ->]. eauto.
Qed.

(** The end of the removal, after the successor's time is put right. *)
Lemma unlink_run s s1 t d pre post :
  queue_ok s → tqueue s = tview s pre ++ (t, d) :: tview s post → timerWaitedQueue s1 = pre ++ t :: post →
  t ∉ pre → t ∉ post → only_waited s s1 →
  timerWaitedQueue s = pre ++ t :: post →
  tview s1 (pre ++ post) = tview s pre ++ match tview s post with
      | [] => [] | (n, d') :: q => (n, d' + d) :: q end →
  is_Some (timers s1 !! t) →
  wp (_ ← upd_timer t (set_tm_waited 0);
      modify (λ s, set_queue (filter (λ x, x ≠ t) (timerWaitedQueue s)) s)) s1
    (λ _ s', only_waited s s' ∧ queue_ok s' ∧ timerWaitedQueue s' = filter (λ x, x ≠ t) (timerWaitedQueue s) ∧
      tw s' t = 0 ∧ tqueue s' = d_extract t (tqueue s)).
Proof.
  intros Hq Ew Eq1 Hpre Hpost Ho Eq Ev [c Hc]. apply wp_bind. eapply wp_upd_timer; [done|].
  apply wp_modify. set (s2 := set_queue _ _). pose proof (tqueue_wf s Hq) as Hwf.
  assert (Ho2 : only_waited s s2).
  { etrans; [exact Ho|]. etrans; [by apply (only_waited_upd s1 t c)|apply only_waited_queue]. }
  assert (E2 : timerWaitedQueue s2 = pre ++ post) by (simpl; by rewrite Eq1, filter_ne_split).
  assert (Et : tqueue s2 = d_extract t (tqueue s)).
  { unfold tqueue at 1. rewrite E2, Ew, extract_app, <- Ev by (by rewrite tview_ids).
    apply tview_ext. intros x Hx. apply (tw_upd_ne s1). intros ->. set_solver. }
  split_and!; [done| |by rewrite E2, Eq, filter_ne_split|apply tw_upd_eq|done].
  eapply queue_ok_upd; [done..| | |].
  - rewrite Et. by apply extract_wf.
  - rewrite Et. unfold deadlines. rewrite extract_deadlines by done. pose proof (qo_bound _ Hq) as Hb.
    rewrite Forall_forall in Hb |- *. intros p [_ Hp]%list_elem_of_filter. by apply Hb.
  - intros x. rewrite E2, Eq. set_solver.
Qed.

Lemma exact_run s t :
  queue_ok s → t ∈ timerWaitedQueue s →
  wp (ttosExactWaitedTimer t) s (λ _ s', only_waited s s' ∧ queue_ok s' ∧
    timerWaitedQueue s' = filter (λ x, x ≠ t) (timerWaitedQueue s) ∧ tw s' t = 0 ∧
    tqueue s' = d_extract t (tqueue s)).
Proof.
  intros Hq Hin. destruct (qo_timer _ Hq t Hin) as (tc & Ht & Hp).
  pose proof (tqueue_wf s Hq) as Hwf. pose proof (qo_bound _ Hq) as Hb. pose proof (qo_nodup _ Hq) as Hnd.
  unfold ttosExactWaitedTimer. apply wp_bind, wp_gets, wp_bind, wp_assert; [unfold tm_linked; by rewrite bool_decide_true|].
  apply list_elem_of_split in Hin as (pre & post & Hc). rewrite Hc in Hnd.
  apply NoDup_app in Hnd as (_ & Hdj & [Hpost Hnd]%NoDup_cons).
  assert (Hpre : t ∉ pre) by (intros Hi; apply (Hdj t Hi); left).
  assert (Ew : tqueue s = tview s pre ++ (t, tm_waited tc) :: tview s post).
  { unfold tqueue. rewrite Hc, tview_app. simpl. by rewrite (tw_lookup _ _ _ Ht). }
  assert (Es : succ_in t (timerWaitedQueue s) = head post) by (by rewrite Hc, succ_in_split).
  apply wp_bind, wp_gets. rewrite Es.
  apply wp_bind. eapply wp_get_timer; [done|]. destruct post as [|n post]; simpl.
  - apply wp_bind, wp_ret. eapply unlink_run; eauto; [reflexivity|]. by rewrite tview_app.
  - destruct (qo_timer _ Hq n) as (nc & Hn & Hpn); [rewrite Hc; set_solver|].
    pose proof (tw_lookup _ _ _ Hn) as Ewn.
    assert (Hfit : 0 ≤ tm_waited nc + tm_waited tc < 2 ^ 32).
    { rewrite Ew in Hwf, Hb. simpl in Hwf, Hb. rewrite Ewn in Hwf, Hb. by eapply neighbours_fit. }
    assert (Hnt : n ≠ t) by set_solver. apply NoDup_cons in Hnd as [Hnpost _].
    assert (Hnp : n ∉ pre) by (intros Hi; apply (Hdj n Hi); set_solver).
    apply wp_bind. eapply wp_upd_timer; [done|]. rewrite u32_small by lia.
    eapply unlink_run; eauto.
    + by apply only_waited_upd.
    + rewrite tview_app. simpl. rewrite tw_upd_eq, !tview_upd by done. by rewrite Ewn.
    + simpl. rewrite lookup_insert_ne by done. eauto.
Qed.
