(* ===== verification/TimerProps.v ===== *)
(** * Timers: the services and the notification

    The invariant of the timer component, that every service keeps it, and what a
    notification of [k] ticks does. *)

From S2P Require Import Prelude Chain DeltaQ Kernel Timer TimerInv.
Import Width.
Local Open Scope Z_scope.

(** ** The invariant *)

(** A timer that is not uninstalled can fire: it has a handler and a period. *)
Record timer_ok (s : tworld) (t : tmid) (c : timer) : Prop := {
  to_active : t ∈ timerWaitedQueue s ↔ tm_state c = TTOS_TIMER_ACTIVE;
  to_installed : tm_state c ≠ TTOS_TIMER_UNINSTALL → is_Some (tm_handler c) ∧ 0 < tm_ticks c;
  to_ticks : 0 ≤ tm_ticks c < 2 ^ 32;
  to_repeat : 0 ≤ tm_repeat c < 2 ^ 32;
  to_remain : 0 ≤ tm_remain c < 2 ^ 32;
}.

Record timer_inv (s : tworld) : Prop := {
  ti_queue : queue_ok s;
  ti_timer : ∀ t c, timers s !! t = Some c → timer_ok s t c;
}.

(** ** Specifications *)

(** [s'] is [s] with timer [t] replaced by [c'] up to waiting times. *)
Record timer_becomes (t : tmid) (c' : timer) (s s' : tworld) : Prop := {
  tb_timer : ∃ v, timers s' !! t = Some (set_tm_waited v c');
  tb_others : ∀ x, x ≠ t → option_Forall2 same_but_waited (timers s !! x) (timers s' !! x);
  tb_dispatch : dispatch s' = dispatch s;
  tb_isr : tm_isr s' = tm_isr s;
  tb_calls : tm_calls s' = tm_calls s;
}.

(** The queue of [s'] by deadline: [t] due in [w] ticks, everyone else as before. *)
Definition due_in (t : tmid) (w : Z) (s s' : tworld) : Prop :=
  deadlines (tqueue s') = insert_by false t w (filter (λ p, p.1 ≠ t) (deadlines (tqueue s))).

Definition not_due (t : tmid) (s s' : tworld) : Prop :=
  deadlines (tqueue s') = filter (λ p, p.1 ≠ t) (deadlines (tqueue s)).

(** A fired timer: one repetition less, or stopped. *)
Definition fired_timer (c : timer) : timer :=
  if tm_remain c =? 0 then set_tm_state TTOS_TIMER_STOP c
  else if tm_repeat c =? TTOS_TIMER_LOOP_FOREVER then c
  else set_tm_remain (tm_remain c - 1) c.

(** Re-arming, on deadlines: a repeated timer is due in one period. *)
Definition rearm (s : tworld) (l : list (tmid * Z)) (t : tmid) : list (tmid * Z) :=
  match timers s !! t with
  | Some c => if tm_remain c =? 0 then l else insert_by false t (tm_ticks c) l
  | None => l
  end.

Definition handler_call (s : tworld) (t : tmid) : option (nat * tmid * Z) :=
  c ← timers s !! t; h ← tm_handler c; Some (h, t, tm_argument c).

(** The timers due within [k] ticks, in the order of their deadlines. *)
Definition due (k : Z) (s : tworld) : list tmid := (filter (λ p, p.2 ≤ k) (deadlines (tqueue s))).*1.

Record notified (k : Z) (s s' : tworld) : Prop := {
  nt_calls : Some <$> tm_calls s' = (Some <$> tm_calls s) ++ (handler_call s <$> due k s);
  nt_queue : deadlines (tqueue s') =
    foldl (rearm s) (prod_map id (λ x, x - k) <$> filter (λ p, k < p.2) (deadlines (tqueue s))) (due k s);
  nt_timers : ∀ x, option_Forall2 same_but_waited
    ((λ c, if decide (x ∈ due k s) then fired_timer c else c) <$> timers s !! x) (timers s' !! x);
  nt_dispatch : dispatch s' = dispatch s;
  nt_isr : tm_isr s' = tm_isr s;
}.

(** ** What handlers may do *)

(** No period is so long that it wraps when it is counted from the end of a
    notification of [K] ticks. *)
Definition periods (K : Z) (s : tworld) : Prop := ∀ t c, timers s !! t = Some c → tm_ticks c + K < 2 ^ 32.

(** A call of a timer service.  An update is of a timer that is installed, and by at
    least one tick. *)
Inductive service (K : Z) (s s' : tworld) : Prop :=
  | sv_active t r : TTOS_ActiveTimer t s = Some (r, s') → service K s s'
  | sv_update t c w r : timers s !! t = Some c → tm_state c ≠ TTOS_TIMER_UNINSTALL → 0 < w < 2 ^ 32 →
      TTOS_UpdateTimer t w s = Some (r, s') → service K s s'
  | sv_stop t r : TTOS_StopTimer t s = Some (r, s') → service K s s'
  | sv_install t ticks h a n r : 0 ≤ ticks → ticks + K < 2 ^ 32 → 0 ≤ n < 2 ^ 32 →
      TTOS_InstallTimer t ticks h a n s = Some (r, s') → service K s s'
  | sv_delete t r : TTOS_DeleteTimer t s = Some (r, s') → service K s s'.

(** The handlers return, and what they do to the timers is a series of such calls. *)
Definition handlers_ok (K : Z) (routine : nat → tmid → Z → M tworld unit) : Prop :=
  ∀ h t a s, timer_inv s → periods K s → ∃ s', routine h t a s = Some (tt, s') ∧ rtc (service K) s s'.

(** ** A notification, one expiry after the other *)

(** Timer [t] expires after [w] ticks, when [r] more are to pass: the others come [w]
    ticks closer; [t] is due one period after the end of the notification, or
    stopped. *)
Record expired (t : tmid) (w r : Z) (call : nat * tmid * Z) (s s1 : tworld) : Prop := {
  ex_queue : ∃ c rest, timers s !! t = Some c ∧ deadlines (tqueue s) = (t, w) :: rest ∧
    deadlines (tqueue s1) = (let l := prod_map id (λ x, x - w) <$> rest in
      if tm_remain c =? 0 then l else insert_by false t (tm_ticks c + r) l);
  ex_call : handler_call s t = Some call;
  ex_calls : tm_calls s1 = tm_calls s ++ [call];
  ex_timers : ∀ x, option_Forall2 same_but_waited
    ((λ c, if decide (x = t) then fired_timer c else c) <$> timers s !! x) (timers s1 !! x);
  ex_dispatch : dispatch s1 = dispatch s;
  ex_isr : tm_isr s1 = tm_isr s;
}.

(** [k] ticks pass: while a timer is due within them, the first one expires and its
    handler runs, which may change what is due; then the rest of the time passes. *)
Inductive notification (routine : nat → tmid → Z → M tworld unit) : Z → tworld → tworld → Prop :=
  | nf_quiet k s s' : due k s = [] → notified k s s' → notification routine k s s'
  | nf_expire k s t w h a s1 s2 s' :
      w ≤ k → expired t w (k - w) (h, t, a) s s1 → routine h t a s1 = Some (tt, s2) →
      notification routine (k - w) s2 s' → notification routine k s s'.

(** ** Services *)

Lemma wp_found s t c Φ : timers s !! t = Some c → Φ true (set_dispatch (dispatch s + 1) s) →
  wp (get_timer_object t) s Φ.
Proof.
  intros Hc H. unfold get_timer_object. apply wp_bind, wp_gets. rewrite Hc, bool_decide_true by eauto.
  apply wp_bind. by apply wp_modify.
Qed.

Lemma wp_not_found s t Φ : timers s !! t = None → Φ false s → wp (get_timer_object t) s Φ.
Proof.
  intros Hc H. unfold get_timer_object. apply wp_bind, wp_gets. rewrite Hc, bool_decide_false by (by intros [? ?]).
  by apply wp_bind, wp_ret.
Qed.

(** Off the queue, if it is active: the deadlines of the others stay. *)
Lemma leave_timer_run s t c : timer_inv s → timers s !! t = Some c →
  wp (whenM (bool_decide (tm_state c = TTOS_TIMER_ACTIVE)) (ttosExactWaitedTimer t)) s
    (λ _ s', only_waited s s' ∧ queue_ok s' ∧
      timerWaitedQueue s' = filter (λ x, x ≠ t) (timerWaitedQueue s) ∧ not_due t s s').
Proof.
  intros [Hq Ht] Hc. pose proof (tqueue_wf s Hq) as Hwf. destruct (Ht _ _ Hc) as [Ha _ _ _ _].
  unfold whenM. case_bool_decide as Hst.
  - eapply wp_mono; [apply exact_run; [done|by apply Ha]|]. intros _ s' (Ho & Hq' & Eq & _ & Et).
    split_and!; try done. unfold not_due, deadlines. rewrite Et. by apply extract_deadlines.
  - apply wp_ret. assert (Hni : t ∉ timerWaitedQueue s) by (by rewrite Ha).
    split_and!; [reflexivity|done|by rewrite filter_ne_fresh|].
    unfold not_due, deadlines. rewrite <- extract_deadlines by done. f_equal. unfold tqueue.
    symmetry. apply extract_fresh. by rewrite tview_ids.
Qed.

Lemma queue_ok_insert s t c s' : queue_ok s → timers s' = <[t := c]> (timers s) →
  tqueue s' = tqueue s → queue_ok s'.
Proof.
  intros Hq Et Ev. pose proof (f_equal (λ q, q.*1) Ev) as Eq. unfold tqueue in Eq. simpl in Eq.
  rewrite !tview_ids in Eq. apply queue_ok_intro; rewrite ?Ev; [by apply tqueue_wf|apply Hq|].
  intros x. rewrite Eq, Et. intros Hx. apply lookup_insert_is_Some'. right.
  destruct (qo_timer _ Hq x Hx) as (? & ? & _). eauto.
Qed.

(** Onto the queue, [w] ticks from now. *)
Lemma enter_run s t c : queue_ok s → timers s !! t = Some c → t ∉ timerWaitedQueue s →
  0 ≤ tm_waited c < 2 ^ 32 →
  wp (_ ← ttosInsertWaitedTimer t; upd_timer t (set_tm_state TTOS_TIMER_ACTIVE)) s
    (λ _ s', queue_ok s' ∧ timer_becomes t (set_tm_state TTOS_TIMER_ACTIVE c) s s' ∧
      timerWaitedQueue s' ≡ₚ t :: timerWaitedQueue s ∧
      deadlines (tqueue s') = insert_by false t (tm_waited c) (deadlines (tqueue s))).
Proof.
  intros Hq Hc Ht Hw. apply wp_bind. eapply wp_mono; [by apply (insert_run s t c)|].
  intros _ s1 (Ho & Hq1 & Ep & Et). destruct (only_waited_lookup _ _ _ _ Ho Hc) as [v Hv].
  eapply wp_upd_timer; [done|]. set (s2 := set_timers _ _).
  assert (Ev : tqueue s2 = tqueue s1).
  { apply tview_ext. intros x _. destruct (decide (x = t)) as [->|Hne].
    - unfold s2. by rewrite tw_upd_eq, (tw_lookup _ _ _ Hv).
    - by apply tw_upd_ne. }
  split_and!; try done.
  - by eapply (queue_ok_insert s1).
  - destruct Ho as [Ho ? ? ?]. split; try done; [exists v; simpl; by rewrite lookup_insert_eq|].
    intros x Hx. simpl. by rewrite lookup_insert_ne.
  - rewrite Ev. unfold deadlines. by rewrite Et, insert_deadlines.
Qed.

Lemma timer_inv_dispatch v s : timer_inv s → timer_inv (set_dispatch v s).
Proof. intros [[Hn Ht Hb] Hi]. split; [by split|]. intros t c Hc. destruct (Hi t c Hc). by split. Qed.

Lemma timer_ok_moved s s' t c c' : same_but_waited c c' →
  (t ∈ timerWaitedQueue s' ↔ t ∈ timerWaitedQueue s) → timer_ok s t c → timer_ok s' t c'.
Proof. intros E Eq [Ha ? ? ? ?]. rewrite E. split; simpl; try done. by rewrite Eq. Qed.

(** One timer changes and the queue is intact: the invariant. *)
Lemma timer_inv_becomes s s' t c' : timer_inv s → queue_ok s' → timer_becomes t c' s s' →
  (∀ x, x ≠ t → x ∈ timerWaitedQueue s' ↔ x ∈ timerWaitedQueue s) →
  timer_ok s' t c' → timer_inv s'.
Proof.
  intros [_ Hi] Hq [[v Hv] Ho _ _ _] Hx Hok. split; [done|]. intros x c Hc.
  destruct (decide (x = t)) as [->|Hne].
  - rewrite Hv in Hc. simplify_eq. by eapply (timer_ok_moved s' s' t c').
  - specialize (Ho x Hne). rewrite Hc in Ho. destruct (timers s !! x) as [c0|] eqn:E0; inversion Ho; subst.
    eapply timer_ok_moved; [done|by apply Hx|by apply Hi].
Qed.

(** The end of an activation: [s1] is [s] without [t] on the queue. *)
Lemma restart_run s s1 t c2 : timer_inv s → only_waited s s1 → queue_ok s1 →
  timerWaitedQueue s1 = filter (λ x, x ≠ t) (timerWaitedQueue s) → not_due t s s1 →
  is_Some (tm_handler c2) → 0 < tm_ticks c2 < 2 ^ 32 → 0 ≤ tm_repeat c2 < 2 ^ 32 →
  0 ≤ tm_remain c2 < 2 ^ 32 → 0 ≤ tm_waited c2 < 2 ^ 32 →
  wp (_ ← ttosInsertWaitedTimer t; upd_timer t (set_tm_state TTOS_TIMER_ACTIVE))
    (set_timers (<[t := c2]> (timers s1)) s1)
    (λ _ s', timer_inv s' ∧ timer_becomes t (set_tm_state TTOS_TIMER_ACTIVE c2) s s' ∧
      due_in t (tm_waited c2) s s').
Proof.
  intros Hi Ho Hq1 Eq Hnd Hh Htk Hrp Hrm Hw. set (s2 := set_timers _ _).
  assert (Hni : t ∉ timerWaitedQueue s1) by (rewrite Eq; by intros [? _]%list_elem_of_filter).
  assert (Ev : tqueue s2 = tqueue s1) by (by apply tview_upd).
  assert (Hq2 : queue_ok s2).
  { by eapply (queue_ok_insert s1). }
  eapply wp_mono; [apply (enter_run s2 t c2); try done; apply lookup_insert_eq|].
  intros _ s' (Hq' & [[v Hv] Hoth ? ? ?] & Ep & Ed). destruct Ho as [Ho ? ? ?].
  assert (Hb : timer_becomes t (set_tm_state TTOS_TIMER_ACTIVE c2) s s').
  { split; try (simpl in *; congruence); [by exists v|]. intros x Hx. specialize (Hoth x Hx). simpl in Hoth.
    rewrite lookup_insert_ne in Hoth by done. specialize (Ho x).
    destruct Ho as [c1 c1' E1|]; inversion Hoth as [? c2' E2|]; subst; constructor.
    unfold same_but_waited in *. by rewrite E2, E1. }
  split_and!; [|done|].
  - eapply timer_inv_becomes; [done..| |].
    + intros x Hx. rewrite Ep. simpl. rewrite Eq, elem_of_cons, list_elem_of_filter. naive_solver.
    + split; simpl; try lia; [|intros _; split; [done|lia]]. split; [done|]. intros _. rewrite Ep. left.
  - unfold due_in. rewrite Ed, Ev. by rewrite Hnd.
Qed.

Lemma dispatch_back s : set_dispatch (dispatch s + 1 - 1) (set_dispatch (dispatch s + 1) s) = s.
Proof. rewrite Z.add_simpl_r. by destruct s. Qed.

(** The waiting time of the timer named does not matter. *)
Lemma becomes_waited s s' t c c' : set_tm_waited 0 c = set_tm_waited 0 c' →
  timer_becomes t c s s' → timer_becomes t c' s s'.
Proof.
  intros E [[v Hv] ? ? ? ?]. split; try done. exists v. rewrite Hv. f_equal.
  by apply (f_equal (set_tm_waited v)) in E.
Qed.

(** The dispatch lock taken by the lookup is given back. *)
Lemma released s s1 t c c' : set_tm_waited 0 c = set_tm_waited 0 c' →
  timer_becomes t c (set_dispatch (dispatch s + 1) s) s1 →
  timer_becomes t c' s (set_dispatch (dispatch s1 - 1) s1).
Proof. intros E [? ? Hd ? ?]%(becomes_waited _ _ _ _ _ E). split; try done. simpl in *. lia. Qed.

(** A sample: timer 1 repeats twice every 5 ticks, timer 2 fires once in 3 ticks,
    timer 3 is not installed, timer 4 is installed. *)
Definition sample : tworld := TWorld
  (list_to_map
    [(1%nat, Timer TTOS_TIMER_ACTIVE 5 2 2 2 11 (Some 7%nat));
     (2%nat, Timer TTOS_TIMER_ACTIVE 3 3 0 0 22 (Some 8%nat));
     (3%nat, Timer TTOS_TIMER_UNINSTALL 0 0 0 0 0 None);
     (4%nat, Timer TTOS_TIMER_INSTALLED 4 0 1 0 44 (Some 9%nat))])
  [2%nat; 1%nat] 0 false [].

Lemma sample_inv : timer_inv sample.
Proof.
  split.
  - apply queue_ok_intro.
    + split; [|by apply (bool_decide_unpack _)]. intros n d. unfold tqueue, tview. simpl.
      intros [[= -> ->]|[[= -> ->]|[]%not_elem_of_nil]%elem_of_cons]%elem_of_cons; vm_compute; discriminate.
    + by apply (bool_decide_unpack _).
    + intros t [->|[->|[]%not_elem_of_nil]%elem_of_cons]%elem_of_cons; vm_compute; eauto.
  - intros t c Hc%elem_of_list_to_map_2. rewrite !elem_of_cons in Hc.
    destruct Hc as [[= -> ->]|[[= -> ->]|[[= -> ->]|[[= -> ->]|[]%not_elem_of_nil]]]];
      (split; simpl; [|split; [eauto|lia]||done|lia..]); split; try done; set_solver.
Qed.

(** [TTOS_ActiveTimer]: an unknown timer and an uninstalled one are refused
    and nothing changes; any other timer becomes active with its full number of
    repetitions, due in one period counted from now, whether or not it was active
    before; the deadlines of the other timers stay, the dispatch lock is given back
    and the invariant is kept. *)
Theorem active_timer_correct s t : timer_inv s →
  wp (TTOS_ActiveTimer t) s (λ r s', match timers s !! t with
    | None => r = TTOS_INVALID_ID ∧ s' = s
    | Some c =>
        if decide (tm_state c = TTOS_TIMER_UNINSTALL) then r = TTOS_INVALID_STATE ∧ s' = s
        else r = TTOS_OK ∧ timer_inv s' ∧ due_in t (tm_ticks c) s s' ∧
          timer_becomes t (set_tm_state TTOS_TIMER_ACTIVE (set_tm_remain (tm_repeat c) c)) s s'
    end).
Proof.
  intros Hi. unfold TTOS_ActiveTimer. apply wp_bind. destruct (timers s !! t) as [c|] eqn:Hc.
  2:{ by apply wp_not_found, wp_ret. }
  eapply wp_found; [done|]. cbn [negb]. set (s0 := set_dispatch _ s).
  apply wp_bind. eapply wp_get_timer; [done|]. case_decide as Hu.
  { apply wp_bind, wp_modify, wp_ret. split; [done|]. apply dispatch_back. }
  assert (Hi0 : timer_inv s0) by by apply timer_inv_dispatch.
  destruct (ti_timer _ Hi _ _ Hc) as [_ [Hh Hp]%(λ H, H Hu) Htk Hrp Hrm].
  apply wp_bind. eapply wp_mono; [by apply leave_timer_run|]. intros _ s1 (Ho & Hq1 & Eq & Hnd).
  destruct (only_waited_lookup _ _ _ _ Ho Hc) as [v Hv].
  apply wp_bind. eapply wp_upd_timer; [done|]. apply wp_bind. eapply wp_upd_timer; [apply lookup_insert_eq|].
  simpl. rewrite insert_insert_eq. change (set_timers ?a (set_timers _ ?b)) with (set_timers a b).
  apply wp_seq. eapply wp_mono; [apply (restart_run s0 s1); try done; simpl; lia|].
  intros _ s2 (Hi2 & Hb & Hd). apply wp_bind, wp_modify, wp_ret. split_and!.
  - done.
  - by apply timer_inv_dispatch.
  - exact Hd.
  - eapply released; [|exact Hb]. done.
Qed.

Lemma active_timer_correct_witness :
  wp (TTOS_ActiveTimer 1) sample (λ r s', r = TTOS_OK ∧ timer_inv s' ∧ due_in 1 5 sample s' ∧
    timer_becomes 1 (Timer TTOS_TIMER_ACTIVE 5 2 2 2 11 (Some 7%nat)) sample s').
Proof. exact (active_timer_correct sample 1 sample_inv). Defined.

(** [TTOS_UpdateTimer] on a timer that is installed, stopped or active: it
    becomes active and is due in the given number of ticks counted from now; its
    repetitions, the other deadlines and the dispatch lock stay. *)
Theorem update_timer_correct s t c ticks : timer_inv s → timers s !! t = Some c →
  tm_state c ≠ TTOS_TIMER_UNINSTALL → 0 ≤ ticks < 2 ^ 32 →
  wp (TTOS_UpdateTimer t ticks) s (λ r s', r = TTOS_OK ∧ timer_inv s' ∧ due_in t ticks s s' ∧
    timer_becomes t (set_tm_state TTOS_TIMER_ACTIVE c) s s').
Proof.
  intros Hi Hc Hu Hw. unfold TTOS_UpdateTimer. apply wp_bind. eapply wp_found; [done|]. cbn [negb].
  set (s0 := set_dispatch _ s). apply wp_bind. eapply wp_get_timer; [done|].
  assert (Hi0 : timer_inv s0) by by apply timer_inv_dispatch.
  destruct (ti_timer _ Hi _ _ Hc) as [_ [Hh Hp]%(λ H, H Hu) Htk Hrp Hrm].
  apply wp_bind. eapply wp_mono; [by apply leave_timer_run|]. intros _ s1 (Ho & Hq1 & Eq & Hnd).
  destruct (only_waited_lookup _ _ _ _ Ho Hc) as [v Hv].
  apply wp_bind. eapply wp_upd_timer; [done|].
  apply wp_seq. eapply wp_mono; [apply (restart_run s0 s1); try done; simpl; lia|].
  intros _ s2 (Hi2 & Hb & Hd). apply wp_bind, wp_modify, wp_ret. split_and!.
  - done.
  - by apply timer_inv_dispatch.
  - exact Hd.
  - eapply released; [|exact Hb]. done.
Qed.

Lemma update_timer_correct_witness :
  wp (TTOS_UpdateTimer 4 2) sample (λ r s', r = TTOS_OK ∧ timer_inv s' ∧ due_in 4 2 sample s' ∧
    timer_becomes 4 (Timer TTOS_TIMER_ACTIVE 4 0 1 0 44 (Some 9%nat)) sample s').
Proof.
  apply (update_timer_correct sample 4 (Timer TTOS_TIMER_INSTALLED 4 0 1 0 44 (Some 9%nat)) 2);
    [exact sample_inv|vm_compute; reflexivity|discriminate|lia].
Defined.

(** A timer off the queue that changes into a timer at rest. *)
Lemma settle_run s s1 t c c2 : timer_inv s → only_waited s s1 → queue_ok s1 →
  timerWaitedQueue s1 = filter (λ x, x ≠ t) (timerWaitedQueue s) →
  timers s !! t = Some c → tm_state c2 ≠ TTOS_TIMER_ACTIVE → tm_state c ≠ TTOS_TIMER_UNINSTALL →
  set_tm_state TTOS_TIMER_STOP (set_tm_waited 0 c2) = set_tm_state TTOS_TIMER_STOP (set_tm_waited 0 c) →
  let s' := set_timers (<[t := c2]> (timers s1)) s1 in
  timer_inv s' ∧ timer_becomes t c2 s s' ∧ tqueue s' = tqueue s1.
Proof.
  intros Hi Ho Hq1 Eq Hc Ha Hcu E s'.
  assert (Hni : t ∉ timerWaitedQueue s1) by (rewrite Eq; by intros [? _]%list_elem_of_filter).
  assert (Ev : tqueue s' = tqueue s1) by (by apply tview_upd).
  assert (Hb : timer_becomes t c2 s s').
  { destruct Ho as [Ho ? ? ?]. split; try done.
    - exists (tm_waited c2). simpl. rewrite lookup_insert_eq. by destruct c2.
    - intros x Hx. simpl. by rewrite lookup_insert_ne. }
  split_and!; [|done|done].
  eapply timer_inv_becomes; [done| |done| |].
  - by eapply (queue_ok_insert s1).
  - intros x Hx. simpl. rewrite Eq, list_elem_of_filter. naive_solver.
  - destruct (ti_timer _ Hi _ _ Hc) as [_ Hin Htk Hrp Hrm]. destruct c, c2; simpl in *. simplify_eq.
    split; simpl; try done. intros _. by apply Hin.
Qed.

(** [TTOS_StopTimer] refuses an unknown timer and one that is not active and
    then changes nothing; an active timer leaves the queue and is stopped, and every
    other timer keeps its deadline. *)
Theorem stop_timer_correct s t : timer_inv s →
  wp (TTOS_StopTimer t) s (λ r s', match timers s !! t with
    | None => r = TTOS_INVALID_ID ∧ s' = s
    | Some c =>
        if decide (tm_state c = TTOS_TIMER_ACTIVE) then r = TTOS_OK ∧ timer_inv s' ∧ not_due t s s' ∧
          timer_becomes t (set_tm_state TTOS_TIMER_STOP c) s s'
        else r = TTOS_INVALID_STATE ∧ s' = s
    end).
Proof.
  intros Hi. unfold TTOS_StopTimer. apply wp_bind. destruct (timers s !! t) as [c|] eqn:Hc.
  2:{ by apply wp_not_found, wp_ret. }
  eapply wp_found; [done|]. cbn [negb]. set (s0 := set_dispatch _ s).
  apply wp_bind. eapply wp_get_timer; [done|].
  destruct (decide (tm_state c = TTOS_TIMER_ACTIVE)) as [Ha|Hn].
  2:{ rewrite decide_True by done. apply wp_bind, wp_modify, wp_ret. split; [done|]. apply dispatch_back. }
  rewrite decide_False by naive_solver.
  assert (Hi0 : timer_inv s0) by by apply timer_inv_dispatch.
  pose proof (leave_timer_run s0 t c Hi0 Hc) as Hl. rewrite bool_decide_true in Hl by done.
  apply wp_bind. eapply wp_mono; [exact Hl|]. intros _ s1 (Ho & Hq1 & Eq & Hnd).
  destruct (only_waited_lookup _ _ _ _ Ho Hc) as [v Hv].
  apply wp_bind. eapply wp_upd_timer; [done|]. apply wp_bind, wp_modify, wp_ret.
  destruct (settle_run s0 s1 t c (set_tm_state TTOS_TIMER_STOP (set_tm_waited v c))) as (Hi2 & Hb & Hd);
    try done; [by rewrite Ha|].
  split_and!; [done|by apply timer_inv_dispatch|etrans; [exact (f_equal deadlines Hd)|exact Hnd]|].
  eapply released; [|exact Hb]. done.
Qed.

Lemma stop_timer_correct_witness :
  wp (TTOS_StopTimer 2) sample (λ r s', r = TTOS_OK ∧ timer_inv s' ∧ not_due 2 sample s' ∧
    timer_becomes 2 (Timer TTOS_TIMER_STOP 3 3 0 0 22 (Some 8%nat)) sample s').
Proof. exact (stop_timer_correct sample 2 sample_inv). Defined.

(** [TTOS_InstallTimer] refuses a zero period, an unknown timer and a null
    handler and then changes nothing; otherwise the timer has the new period,
    handler, argument and repetitions, an uninstalled timer becomes installed, a
    timer in another state keeps it, and no deadline changes. *)
Theorem install_timer_correct s t ticks handler argument repeatCount :
  timer_inv s → 0 ≤ ticks < 2 ^ 32 → 0 ≤ repeatCount < 2 ^ 32 →
  wp (TTOS_InstallTimer t ticks handler argument repeatCount) s (λ r s',
    if ticks =? 0 then r = TTOS_INVALID_TIME ∧ s' = s
    else match timers s !! t, handler with
    | None, _ => r = TTOS_INVALID_ID ∧ s' = s
    | Some _, None => r = TTOS_INVALID_ADDRESS ∧ s' = s
    | Some c, Some _ => r = TTOS_OK ∧ timer_inv s' ∧ tqueue s' = tqueue s ∧
        timer_becomes t (Timer
          (if decide (tm_state c = TTOS_TIMER_UNINSTALL) then TTOS_TIMER_INSTALLED else tm_state c)
          ticks (tm_waited c) repeatCount (tm_remain c) argument handler) s s'
    end).
Proof.
  intros Hi Hw Hr. unfold TTOS_InstallTimer. destruct (Z.eqb_spec ticks 0) as [|Hz]; [by apply wp_ret|].
  apply wp_bind. destruct (timers s !! t) as [c|] eqn:Hc.
  2:{ by apply wp_not_found, wp_ret. }
  eapply wp_found; [done|]. cbn [negb]. destruct handler as [h|].
  2:{ apply wp_bind, wp_modify, wp_ret. split; [done|]. apply dispatch_back. }
  apply wp_bind. eapply wp_upd_timer; [done|]. apply wp_bind. eapply wp_get_timer; [apply lookup_insert_eq|].
  set (c1 := Timer _ _ _ _ _ _ _). set (c' := Timer (if decide _ then _ else _) _ _ _ _ _ _).
  apply wp_bind. eapply (wp_mono _ _ (λ _ s', s' = set_timers (<[t := c']> (timers s))
    (set_dispatch (dispatch s + 1) s))).
  { unfold whenM, c'. case_bool_decide as Hu; simpl in Hu.
    - eapply wp_upd_timer; [apply lookup_insert_eq|]. simpl. by rewrite insert_insert_eq, decide_True.
    - apply wp_ret. by rewrite decide_False. }
  intros _ s1 ->. apply wp_bind, wp_modify, wp_ret. set (s2 := set_dispatch _ _).
  assert (Ev : tqueue s2 = tqueue s).
  { apply tview_ext. intros x _. unfold s2, tw. simpl. destruct (decide (x = t)) as [->|Hne].
    - by rewrite lookup_insert_eq, Hc.
    - by rewrite lookup_insert_ne. }
  assert (Hb : timer_becomes t c' s s2).
  { split; try done; [exists (tm_waited c)|intros x Hx|simpl; lia]; simpl.
    - by rewrite lookup_insert_eq.
    - rewrite lookup_insert_ne by done. destruct (timers s !! x) as [[]|]; by constructor. }
  split_and!; try done. eapply timer_inv_becomes; [done| |done|done|].
  - by apply (queue_ok_insert s t c'); [apply Hi|..].
  - destruct (ti_timer _ Hi _ _ Hc) as [Ha _ _ _ Hrm]. split; simpl; try done.
    + rewrite Ha. case_decide as Hu; [rewrite Hu|]; naive_solver.
    + split; [done|lia].
Qed.

Lemma install_timer_correct_witness :
  wp (TTOS_InstallTimer 3 6 (Some 5%nat) 33 1) sample (λ r s', r = TTOS_OK ∧ timer_inv s' ∧
    tqueue s' = tqueue sample ∧
    timer_becomes 3 (Timer TTOS_TIMER_INSTALLED 6 0 1 0 33 (Some 5%nat)) sample s').
Proof. apply (install_timer_correct sample 3 6 (Some 5%nat) 33 1); [exact sample_inv|lia|lia]. Defined.

(** [TTOS_DeleteTimer] is refused in an interrupt and for an unknown timer;
    otherwise the timer no longer exists and is on no queue, and every other timer
    keeps its state and its deadline. *)
Theorem delete_timer_correct s t : timer_inv s →
  wp (TTOS_DeleteTimer t) s (λ r s',
    if tm_isr s then r = TTOS_CALLED_FROM_ISR ∧ s' = s
    else match timers s !! t with
    | None => r = TTOS_INVALID_ID ∧ s' = s
    | Some _ => r = TTOS_OK ∧ timer_inv s' ∧ not_due t s s' ∧ timers s' !! t = None ∧
        (∀ x, x ≠ t → option_Forall2 same_but_waited (timers s !! x) (timers s' !! x)) ∧
        dispatch s' = dispatch s ∧ tm_calls s' = tm_calls s
    end).
Proof.
  intros Hi. unfold TTOS_DeleteTimer. apply wp_bind, wp_gets. destruct (tm_isr s) eqn:Eisr; [by apply wp_ret|].
  apply wp_bind. destruct (timers s !! t) as [c|] eqn:Hc.
  2:{ by apply wp_not_found, wp_ret. }
  eapply wp_found; [done|]. cbn [negb]. set (s0 := set_dispatch _ s).
  apply wp_bind. eapply wp_get_timer; [done|]. assert (Hi0 : timer_inv s0) by by apply timer_inv_dispatch.
  apply wp_bind. eapply wp_mono; [by apply leave_timer_run|]. intros _ s1 (Ho & Hq1 & Eq & Hnd).
  apply wp_bind, wp_modify, wp_bind, wp_modify, wp_ret. destruct Ho as [Ho Hd ? Hcl].
  assert (Hni : t ∉ timerWaitedQueue s1) by (rewrite Eq; by intros [? _]%list_elem_of_filter).
  set (s2 := set_dispatch _ _).
  assert (Ev : tqueue s2 = tqueue s1).
  { apply tview_ext. intros x Hx. unfold tw. simpl. by rewrite lookup_delete_ne by (intros ->; done). }
  assert (Hoth : ∀ x, x ≠ t → option_Forall2 same_but_waited (timers s !! x) (timers s2 !! x)).
  { intros x Hx. simpl. rewrite lookup_delete_ne by done. apply Ho. }
  split_and!; try done.
  - split.
    + apply queue_ok_intro; rewrite ?Ev; [by apply tqueue_wf|apply Hq1|]. intros x Hx. simpl.
      rewrite lookup_delete_ne by (intros ->; done). destruct (qo_timer _ Hq1 x Hx) as (? & ? & _). eauto.
    + intros x cx. destruct (decide (x = t)) as [->|Hne]; [simpl; by rewrite lookup_delete_eq|]. intros Hx.
      specialize (Hoth x Hne). rewrite Hx in Hoth. destruct (timers s !! x) as [c0|] eqn:E0; inversion Hoth; subst.
      eapply timer_ok_moved; [done| |by apply (ti_timer _ Hi)]. simpl. rewrite Eq, list_elem_of_filter.
      simpl. naive_solver.
  - unfold not_due. rewrite Ev. exact Hnd.
  - simpl. apply lookup_delete_eq.
  - simpl in *. lia.
Qed.

Lemma delete_timer_correct_witness :
  wp (TTOS_DeleteTimer 2) sample (λ r s', r = TTOS_OK ∧ timer_inv s' ∧ not_due 2 sample s' ∧
    timers s' !! 2%nat = None ∧
    (∀ x, x ≠ 2%nat → option_Forall2 same_but_waited (timers sample !! x) (timers s' !! x)) ∧
    dispatch s' = dispatch sample ∧ tm_calls s' = tm_calls sample).
Proof. exact (delete_timer_correct sample 2 sample_inv). Defined.

(** ** The notification *)

Lemma pop_ok s t d q : queue_ok s → tqueue s = (t, d) :: q →
  ∃ rest, timerWaitedQueue s = t :: rest ∧ q = tview s rest ∧ t ∉ rest ∧ 0 ≤ d ∧ dq_wf q ∧
    Forall (λ p, p.2 < 2 ^ 32) (deadlines q).
Proof.
  intros Hq Et. pose proof (tqueue_wf s Hq) as Hwf. pose proof (qo_bound _ Hq) as Hb. unfold tqueue in *.
  destruct (timerWaitedQueue s) as [|t' rest] eqn:E; [done|]. simpl in *. simplify_eq.
  apply dq_wf_cons in Hwf as (Hd & Hn & Hwf). rewrite tview_ids in Hn. apply bound_tail in Hb as [_ Hb]; [|done].
  by exists rest.
Qed.

(** The head of the queue comes off. *)
Lemma pop_run s t c d q : timer_inv s → timers s !! t = Some c → tqueue s = (t, d) :: q →
  wp (_ ← upd_timer t (set_tm_waited 0);
      modify (λ s, set_queue (filter (λ x, x ≠ t) (timerWaitedQueue s)) s)) s
    (λ _ s1, only_waited s s1 ∧ queue_ok s1 ∧
      timerWaitedQueue s1 = filter (λ x, x ≠ t) (timerWaitedQueue s) ∧ tqueue s1 = q ∧
      timers s1 !! t = Some (set_tm_waited 0 c)).
Proof.
  intros [Hq _] Hc Et. destruct (pop_ok _ _ _ _ Hq Et) as (rest & Eq & -> & Hn & _ & Hwf & Hb).
  apply wp_bind. eapply wp_upd_timer; [done|]. apply wp_modify. set (s1 := set_queue _ _).
  assert (E1 : timerWaitedQueue s1 = rest) by (simpl; rewrite Eq; apply (filter_ne_split t []); [apply not_elem_of_nil|done]).
  assert (Ev : tqueue s1 = tview s rest) by (unfold tqueue; rewrite E1; by apply (tview_upd s)).
  assert (Ho : only_waited s s1) by (etrans; [by apply (only_waited_upd s t c)|apply only_waited_queue]).
  split_and!; try done; [|apply lookup_insert_eq].
  eapply queue_ok_upd; rewrite ?Ev; try done. intros x. rewrite E1, Eq. by right.
Qed.

(** A timer that repeats goes back on the queue. *)
Lemma repeat_run s s1 t c k :
  timer_inv s → timers s !! t = Some c → t ∈ timerWaitedQueue s →
  only_waited s s1 → queue_ok s1 → timerWaitedQueue s1 = filter (λ x, x ≠ t) (timerWaitedQueue s) →
  timers s1 !! t = Some (set_tm_waited 0 c) → tm_remain c ≠ 0 → 0 ≤ k → tm_ticks c + k < 2 ^ 32 →
  wp (_ ← upd_timer t (set_tm_waited (u32 (tm_ticks c + k)));
      _ ← ttosInsertWaitedTimer t;
      whenM (negb (tm_repeat c =? TTOS_TIMER_LOOP_FOREVER))
        (upd_timer t (λ c, set_tm_remain (u32 (tm_remain c - 1)) c))) s1
    (λ _ s', timer_inv s' ∧ tqueue s' = d_insert false t (tm_ticks c + k) (tqueue s1) ∧
      timer_becomes t (fired_timer c) s s').
Proof.
  intros Hi Hc Hin Ho Hq1 Eq Hc1 Hrm Hk Hw. destruct (ti_timer _ Hi _ _ Hc) as [Ha Hin' Htk Hrp Hrmr].
  assert (Hni : t ∉ timerWaitedQueue s1) by (rewrite Eq; by intros [? _]%list_elem_of_filter).
  apply wp_bind. eapply wp_upd_timer; [done|]. rewrite u32_small by lia. set (s2 := set_timers _ _).
  assert (Ev : tqueue s2 = tqueue s1) by (by apply tview_upd).
  assert (Hq2 : queue_ok s2) by (by eapply (queue_ok_insert s1)).
  assert (Ho2 : only_waited s s2) by (etrans; [exact Ho|by apply (only_waited_upd s1 t (set_tm_waited 0 c))]).
  apply wp_bind. eapply wp_mono; [apply (insert_run s2 t (set_tm_waited (tm_ticks c + k) c)); try done;
    [apply lookup_insert_eq|simpl; lia]|].
  intros _ s3 (Ho3 & Hq3 & Ep & Ed). simpl in Ed, Ep.
  assert (Ho' : only_waited s s3) by (by etrans). destruct (only_waited_lookup _ _ _ _ Ho' Hc) as [v Hv].
  eapply (wp_mono _ _ (λ _ s', s' = set_timers (<[t := set_tm_waited v (fired_timer c)]> (timers s3)) s3)).
  { unfold fired_timer. rewrite (proj2 (Z.eqb_neq (tm_remain c) 0)) by done. apply wp_when.
    - intros ->%negb_true_iff. eapply wp_upd_timer; [done|]. simpl. rewrite u32_small by lia. done.
    - intros ->%negb_false_iff. rewrite insert_id by done. by destruct s3. }
  intros _ s' ->. set (s' := set_timers _ s3).
  assert (Ev3 : tqueue s' = tqueue s3).
  { apply tview_ext. intros x _. destruct (decide (x = t)) as [->|Hne]; [|by apply tw_upd_ne].
    unfold s'. by rewrite tw_upd_eq, (tw_lookup _ _ _ Hv). }
  assert (Hb : timer_becomes t (fired_timer c) s s').
  { destruct Ho' as [Ho' ? ? ?]. split; try done; [exists v; apply lookup_insert_eq|].
    intros x Hx. simpl. by rewrite lookup_insert_ne. }
  split_and!; [|by rewrite Ev3, Ed, Ev|done]. eapply timer_inv_becomes; [done| |done| |].
  - by eapply (queue_ok_insert s3).
  - intros x Hx. simpl. rewrite Ep, elem_of_cons, Eq, list_elem_of_filter. naive_solver.
  - unfold fired_timer. rewrite (proj2 (Z.eqb_neq (tm_remain c) 0)) by done.
    assert (t ∈ timerWaitedQueue s') by (simpl; rewrite Ep; left).
    destruct (_ =? _); split; simpl; try done; try lia; split; try done; intros _; by apply Ha.
Qed.

Lemma becomes_fired t c s s' : timers s !! t = Some c → timer_becomes t (fired_timer c) s s' →
  ∀ x, option_Forall2 same_but_waited
    ((λ c, if decide (x = t) then fired_timer c else c) <$> timers s !! x) (timers s' !! x).
Proof.
  intros Hc [[v Hv] Ho _ _ _] x. destruct (decide (x = t)) as [->|Hne].
  - rewrite Hc, Hv. by constructor.
  - specialize (Ho x Hne). by destruct (timers s !! x).
Qed.

Lemma due_tick k s : queue_ok s → 0 ≤ k →
  due k s = (d_tick k (tqueue s)).1 ∧
  prod_map id (λ x, x - k) <$> filter (λ p, k < p.2) (deadlines (tqueue s)) =
    deadlines (d_tick k (tqueue s)).2.
Proof.
  intros Hq Hk. destruct (tick_deadlines k (tqueue s)) as [H1 H2]; [by apply tqueue_wf|done|].
  unfold due. by rewrite H1, H2.
Qed.

(** A tick that fires no timer only moves the head's waiting time. *)
Lemma quiet_notified k s s' : timer_inv s → 0 ≤ k → (d_tick k (tqueue s)).1 = [] →
  only_waited s s' → tqueue s' = (d_tick k (tqueue s)).2 →
  timerWaitedQueue s' = timerWaitedQueue s → timer_inv s' ∧ notified k s s'.
Proof.
  intros [Hq Hi] Hk E1 Ho E2 Eq. pose proof (tqueue_wf s Hq) as Hwf. pose proof Ho as [Hot ? ? ?].
  destruct (due_tick k s Hq Hk) as [D1 D2]. split; split.
  - apply (queue_ok_upd s); try done; rewrite ?E2, ?Eq; [by apply tick_wf|by apply tick_bound; [..|apply Hq]|done].
  - intros x c' Hx. specialize (Hot x). rewrite Hx in Hot.
    destruct (timers s !! x) as [c|] eqn:Hc; inversion Hot; subst.
    eapply timer_ok_moved; [done|by rewrite Eq|by apply Hi].
  - rewrite D1, E1. simpl. rewrite app_nil_r. congruence.
  - by rewrite D2, D1, E1, E2.
  - intros x. rewrite D1, E1. specialize (Hot x). by destruct (timers s !! x).
  - done.
  - done.
Qed.

Lemma foldl_ext_in {A B} (f g : A → B → A) l : ∀ a, (∀ a b, b ∈ l → f a b = g a b) → foldl f a l = foldl g a l.
Proof.
  induction l as [|b l IH]; intros a H; simpl; [done|]. rewrite H by left. apply IH. intros. apply H. by right.
Qed.

Lemma fired_waited v w c :
  set_tm_waited w (fired_timer (set_tm_waited v c)) = set_tm_waited w (fired_timer c).
Proof. unfold fired_timer. simpl. by repeat case_match. Qed.

(** One firing and the rest of the notification. *)
Lemma fire_notified k d s s1 s' t c q h : timer_inv s → timers s !! t = Some c →
  tqueue s = (t, d) :: q → d ≤ k → queue_ok s1 →
  tqueue s1 = (if tm_remain c =? 0 then q else d_insert false t (tm_ticks c + (k - d)) q) →
  0 < tm_ticks c → tm_handler c = Some h → tm_calls s1 = tm_calls s ++ [(h, t, tm_argument c)] →
  (∀ x, option_Forall2 same_but_waited
      ((λ c, if decide (x = t) then fired_timer c else c) <$> timers s !! x) (timers s1 !! x)) →
  dispatch s1 = dispatch s → tm_isr s1 = tm_isr s →
  notified (k - d) s1 s' → notified k s s'.
Proof.
  intros [Hq Hi] Hc Et Hdk Hq1 E1 Hp Hh Hcl Ht Hd Hisr [Ncl Nq Nt ? ?].
  destruct (pop_ok _ _ _ _ Hq Et) as (rest & _ & Erest & Hnr & Hd0 & Hwf & _).
  destruct (due_tick k s Hq) as [D1 D2]; [lia|]. destruct (due_tick (k - d) s1 Hq1) as [F1 F2]; [lia|].
  assert (Etick : d_tick (k - d) (tqueue s1) = ((d_tick (k - d) q).1,
    if tm_remain c =? 0 then (d_tick (k - d) q).2 else d_insert false t (tm_ticks c) (d_tick (k - d) q).2)).
  { rewrite E1. destruct (_ =? _); [apply surjective_pairing|]. apply tick_insert; [lia|done|lia]. }
  assert (Es : d_tick k (tqueue s) = (t :: (d_tick (k - d) q).1, (d_tick (k - d) q).2)).
  { rewrite Et. simpl. rewrite (proj2 (Z.ltb_ge _ _)) by lia. by destruct (d_tick (k - d) q). }
  assert (Edue : due k s = t :: due (k - d) s1) by (by rewrite D1, Es, F1, Etick).
  assert (Hfresh : t ∉ due (k - d) s1).
  { rewrite F1, Etick. intros Hin. apply Hnr. rewrite <- (tview_ids s rest), <- Erest.
    apply (tick_wf (k - d) q Hwf). by left. }
  assert (Hsame : ∀ x, x ∈ due (k - d) s1 → option_Forall2 same_but_waited (timers s !! x) (timers s1 !! x)).
  { intros x Hx. specialize (Ht x). assert (x ≠ t) by (by intros ->). destruct (timers s !! x); [|done].
    simpl in Ht. by rewrite decide_False in Ht. }
  split; [| | |congruence..].
  - rewrite Ncl, Hcl, Edue, fmap_app, <- (assoc_L (++)). f_equal. simpl. f_equal.
    + unfold handler_call. rewrite Hc. simpl. by rewrite Hh.
    + apply list_fmap_ext. intros i x Hx. apply list_elem_of_lookup_2, Hsame in Hx. unfold handler_call.
      destruct Hx as [? ? E|]; [rewrite E|]; done.
  - rewrite Nq, Edue, F2, D2, Etick, Es. simpl. unfold rearm at 3. rewrite Hc.
    erewrite (foldl_ext_in (rearm s1) (rearm s)).
    + f_equal. destruct (_ =? _); [done|]. apply insert_deadlines.
    + intros l x Hx%Hsame. unfold rearm. destruct Hx as [? ? E|]; [rewrite E|]; done.
  - intros x. rewrite Edue. specialize (Ht x). specialize (Nt x).
    destruct (timers s !! x) as [c0|] eqn:E0; inversion Ht as [a b Hab Ea Eb|Ea Eb]; rewrite <- Eb in Nt;
      inversion Nt as [a' b' Hab' Ea' Eb'|]; simpl; constructor. subst.
    destruct (decide (x = t)) as [->|Hne].
    + rewrite decide_True by left. rewrite decide_False in Hab' by done. unfold same_but_waited in *.
      by rewrite Hab', Hab.
    + unfold same_but_waited in *. rewrite Hab', Hab. destruct (decide (x ∈ due (k - d) s1)) as [Hx|Hx].
      * rewrite decide_True by (by right). apply fired_waited.
      * rewrite decide_False by (by intros [?|?]%elem_of_cons). done.
Qed.

Section Notify.
Context (routine : nat → tmid → Z → M tworld unit).

(** One expiry, up to the handler. *)
Lemma expire_run s t c d k q (Φ : unit → tworld → Prop) :
  timer_inv s → timers s !! t = Some c → tqueue s = (t, d) :: q → 0 ≤ k → tm_ticks c + k < 2 ^ 32 →
  (∀ h s1, tm_handler c = Some h → timer_inv s1 →
    tqueue s1 = (if tm_remain c =? 0 then q else d_insert false t (tm_ticks c + k) q) →
    tm_calls s1 = tm_calls s ++ [(h, t, tm_argument c)] →
    (∀ x, option_Forall2 same_but_waited
      ((λ c, if decide (x = t) then fired_timer c else c) <$> timers s !! x) (timers s1 !! x)) →
    dispatch s1 = dispatch s → tm_isr s1 = tm_isr s → wp (routine h t (tm_argument c)) s1 Φ) →
  wp (expire_timer routine t k) s Φ.
Proof.
  intros Hi Hc Et Hk Hw HΦ. destruct (pop_ok _ _ _ _ (ti_queue _ Hi) Et) as (rest & Eq & _).
  assert (Hin : t ∈ timerWaitedQueue s) by (rewrite Eq; left).
  destruct (ti_timer _ Hi _ _ Hc) as [Ha Hinst _ _ _]. apply Ha in Hin as Hst.
  destruct Hinst as [[h Hh] _]; [by rewrite Hst|].
  unfold expire_timer. apply wp_seq. eapply wp_mono; [by eapply pop_run|].
  intros _ s1 (Ho & Hq1 & Eq1 & Ev1 & Hc1). apply wp_bind. eapply wp_get_timer; [done|]. apply wp_bind.
  eapply (wp_mono _ _ (λ _ s2, timer_inv s2 ∧
    tqueue s2 = (if tm_remain c =? 0 then q else d_insert false t (tm_ticks c + k) q) ∧
    timer_becomes t (fired_timer c) s s2)).
  { cbn [tm_remain tm_ticks tm_repeat set_tm_waited]. destruct (Z.eqb_spec (tm_remain c) 0) as [Ez|Hnz]; cbn [negb].
    - eapply wp_upd_timer; [done|].
      destruct (settle_run s s1 t c (set_tm_state TTOS_TIMER_STOP (set_tm_waited 0 c))) as (Hi2 & Hb & Hd);
        try done; [by rewrite Hst|]. split_and!; [done|by etrans|]. eapply becomes_waited; [|exact Hb].
      unfold fired_timer. by rewrite Ez.
    - eapply wp_mono; [by eapply repeat_run|]. intros _ s2 (? & E & ?). by rewrite E, Ev1. }
  intros _ s2 (Hi2 & E2 & Hb). pose proof Hb as [[v Hv] _ Hd Hisr Hcl].
  assert (Ef : tm_handler (fired_timer c) = Some h ∧ tm_argument (fired_timer c) = tm_argument c).
  { unfold fired_timer. repeat case_match; done. }
  apply wp_bind. eapply wp_get_timer; [done|]. apply wp_bind. eapply wp_lift; [apply Ef|].
  apply wp_bind, wp_modify. simpl. destruct Ef as [_ ->]. apply HΦ; try done.
  - destruct Hi2 as [[? ? ?] Hi2]. split; [by split|]. intros x cx Hx. by destruct (Hi2 x cx Hx).
  - simpl. by rewrite Hcl.
  - exact (becomes_fired t c s s2 Hc Hb).
Qed.

(** [fits]: no re-armed timer's time wraps. *)
Definition fits (k : Z) (s : tworld) : Prop :=
  ∀ t c, t ∈ timerWaitedQueue s → timers s !! t = Some c → tm_ticks c + k < 2 ^ 32.

Lemma fired_ids s s1 t d q (b : bool) w : tqueue s = (t, d) :: q →
  tqueue s1 = (if b then q else d_insert false t w q) →
  ∀ x, x ∈ timerWaitedQueue s1 → x ∈ timerWaitedQueue s.
Proof.
  intros E E1 x. rewrite <- (tview_ids s1 (timerWaitedQueue s1)), <- (tview_ids s (timerWaitedQueue s)).
  fold (tqueue s) (tqueue s1). rewrite E, E1. simpl. destruct b; [by right|]. by rewrite insert_ids.
Qed.

Lemma notify_run fuel : (∀ h t a s, routine h t a s = Some (tt, s)) → ∀ s k, timer_inv s → 0 ≤ k < 2 ^ 32 → fits k s →
  (length (d_tick k (tqueue s)).1 < fuel)%nat →
  wp (ttosTimerNotify routine fuel k) s (λ _ s', timer_inv s' ∧ notified k s s').
Proof.
  intros Hroutine. induction fuel as [|fuel IH]; intros s k Hi Hk Hfit Hlen; [lia|]. simpl.
  apply wp_bind, wp_gets. pose proof (ti_queue _ Hi) as Hq.
  destruct (timerWaitedQueue s) as [|t rest] eqn:Eq; simpl.
  { assert (tqueue s = []) as E by (unfold tqueue; by rewrite Eq). apply wp_ret.
    apply quiet_notified; rewrite ?E; try done; lia. }
  destruct (qo_timer _ Hq t) as (c & Hc & Hw); [rewrite Eq; left|].
  assert (Et : tqueue s = (t, tm_waited c) :: tview s rest).
  { unfold tqueue. rewrite Eq. simpl. by rewrite (tw_lookup _ _ _ Hc). }
  apply wp_bind. eapply wp_get_timer; [done|]. rewrite Et in Hlen. simpl in Hlen.
  destruct (pop_ok _ _ _ _ Hq Et) as (rest' & Eq' & _ & Hnr & _ & Hwf & _). rewrite Eq in Eq'. simplify_eq Eq'. intros ->.
  pose proof (Hfit t c ltac:(rewrite Eq; left) Hc) as Hft.
  destruct (Z.ltb_spec k (tm_waited c)) as [Hlt|Hge].
  - eapply wp_upd_timer; [done|]. pose proof (qo_bound _ Hq) as Hb. rewrite Et in Hb.
    apply bound_tail in Hb as [Hb _]; [|done]. rewrite u32_small by lia.
    assert (Ek : k <? tm_waited c = true) by (by apply Z.ltb_lt).
    apply quiet_notified; rewrite ?Et; simpl; rewrite ?Ek; try done; [lia|by apply only_waited_upd|].
    unfold tqueue. simpl. rewrite Eq. simpl. by rewrite tw_upd_eq, tview_upd.
  - rewrite u32_small by lia. destruct (ti_timer _ Hi _ _ Hc) as [Ha Hin _ _ _].
    destruct Hin as [_ Hp]; [rewrite (proj1 Ha) by (rewrite Eq; left); done|].
    apply wp_bind. eapply expire_run; [done..|lia|lia|].
    intros h s1 Hh Hi1 E1 Hcl Ht Hd Hisr. unfold wp at 1. rewrite Hroutine.
    eapply wp_mono; [apply IH; [done|lia| |]|].
    + intros x cx Hx Hcx. apply (fired_ids s s1 t _ _ _ _ Et E1) in Hx. specialize (Ht x). rewrite Hcx in Ht.
      destruct (timers s !! x) as [c0|] eqn:E0; inversion Ht as [a b Hab|]; subst. rewrite Hab. simpl.
      specialize (Hfit x c0 Hx E0). unfold fired_timer. repeat case_match; simpl; lia.
    + destruct (d_tick (k - tm_waited c) (tview s rest')) as [out rst] eqn:Etk. simpl in Hlen.
      rewrite E1. destruct (_ =? _); [rewrite Etk; simpl; lia|].
      rewrite tick_insert by (done || lia). rewrite Etk. simpl. lia.
    + intros _ s' [Hi' Hn]. split; [done|].
      apply (fire_notified k (tm_waited c) s s1 s' t c (tview s rest') h); try done. apply Hi1.
Qed.

End Notify.

(** ** Handlers that call the services *)

(** The timers whose time has come. *)
Definition zeros (s : tworld) : nat := length (filter (λ p : tmid * Z, p.2 = 0) (deadlines (tqueue s))).

Lemma zeros_insert t w (l : list (tmid * Z)) : 0 < w →
  filter (λ p : tmid * Z, p.2 = 0) (insert_by false t w l) = filter (λ p : tmid * Z, p.2 = 0) l.
Proof.
  intros Hw. induction l as [|[n x] l IH]; simpl.
  - by rewrite filter_cons_False by (simpl; lia).
  - destruct (x <? w); [|by rewrite filter_cons_False by (simpl; lia)]. rewrite !filter_cons. by rewrite IH.
Qed.

Lemma zeros_filter t (l : list (tmid * Z)) :
  (length (filter (λ p : tmid * Z, p.2 = 0%Z) (filter (λ p, p.1 ≠ t) l)) ≤ length (filter (λ p : tmid * Z, p.2 = 0%Z) l))%nat.
Proof. induction l as [|p l IH]; [done|]. rewrite !filter_cons. repeat case_decide; rewrite ?filter_cons; repeat case_decide; simpl; lia || done. Qed.

Lemma due_in_zeros t w s s' : 0 < w → due_in t w s s' → (zeros s' ≤ zeros s)%nat.
Proof. unfold due_in, zeros. intros Hw ->. rewrite zeros_insert by done. apply zeros_filter. Qed.

Lemma not_due_zeros t s s' : not_due t s s' → (zeros s' ≤ zeros s)%nat.
Proof. unfold not_due, zeros. intros ->. apply zeros_filter. Qed.

Section Handlers.
Context (K : Z) (HK : 0 ≤ K).

(** What the services keep, and every handler with them. *)
Record keeps (s s' : tworld) : Prop := {
  kp_inv : timer_inv s';
  kp_periods : periods K s';
  kp_dom : dom (timers s') ⊆ dom (timers s);
  kp_zeros : (zeros s' ≤ zeros s)%nat;
}.

Lemma keeps_refl s : timer_inv s → periods K s → keeps s s.
Proof. by split. Qed.

Lemma same_dom (P : tmid → Prop) s s' :
  (∀ x, P x → option_Forall2 same_but_waited (timers s !! x) (timers s' !! x)) →
  periods K s → ∀ x c, P x → timers s' !! x = Some c → x ∈ dom (timers s) ∧ tm_ticks c + K < 2 ^ 32.
Proof.
  intros Ho Hp x c HP Hc. specialize (Ho x HP). rewrite Hc in Ho. destruct (timers s !! x) as [c0|] eqn:E; inversion Ho as [? ? Hs|]; subst.
  split; [apply elem_of_dom; eauto|]. rewrite Hs. simpl. by apply (Hp x).
Qed.

Lemma becomes_keeps s s' t c c' :
  timer_inv s' → periods K s → timers s !! t = Some c → timer_becomes t c' s s' → tm_ticks c' + K < 2 ^ 32 →
  (zeros s' ≤ zeros s)%nat → keeps s s'.
Proof.
  intros Hi Hp Hc [[v Hv] Ho _ _ _] Htk Hz.
  assert (Hall : ∀ x cx, timers s' !! x = Some cx → x ∈ dom (timers s) ∧ tm_ticks cx + K < 2 ^ 32).
  { intros x cx Hx. destruct (decide (x = t)) as [->|Hne]; [|by apply (same_dom (λ x, x ≠ t) s s')].
    split; [apply elem_of_dom; eauto|]. rewrite Hv in Hx. by simplify_eq. }
  split; [done| |intros x [cx Hx]%elem_of_dom; by eapply Hall|done]. intros x cx Hx. by eapply Hall.
Qed.

Lemma service_keeps s s' : timer_inv s → periods K s → service K s s' → keeps s s'.
Proof.
  intros Hi Hp [t r Hrun|t c w r Hc Hu Hw Hrun|t r Hrun|t ticks h a n r H0 Hk Hn Hrun|t r Hrun].
  - pose proof (active_timer_correct s t Hi) as H. unfold wp in H. rewrite Hrun in H.
    destruct (timers s !! t) as [c|] eqn:Hc; [|destruct H as [_ ->]; by apply keeps_refl].
    case_decide as Hu; [destruct H as [_ ->]; by apply keeps_refl|]. destruct H as (_ & Hi' & Hd & Hb).
    eapply becomes_keeps; [done|done|done|exact Hb|by apply (Hp t c)|]. eapply due_in_zeros; [|exact Hd].
    by apply (ti_timer _ Hi _ _ Hc).
  - pose proof (update_timer_correct s t c w Hi Hc Hu ltac:(lia)) as H. unfold wp in H. rewrite Hrun in H.
    destruct H as (_ & Hi' & Hd & Hb).
    eapply becomes_keeps; [done|done|done|exact Hb|by apply (Hp t c)|]. eapply due_in_zeros; [|exact Hd]. lia.
  - pose proof (stop_timer_correct s t Hi) as H. unfold wp in H. rewrite Hrun in H.
    destruct (timers s !! t) as [c|] eqn:Hc; [|destruct H as [_ ->]; by apply keeps_refl].
    case_decide as Hu; [|destruct H as [_ ->]; by apply keeps_refl]. destruct H as (_ & Hi' & Hd & Hb).
    eapply becomes_keeps; [done|done|done|exact Hb|by apply (Hp t c)|]. by eapply not_due_zeros.
  - pose proof (install_timer_correct s t ticks h a n Hi ltac:(lia) Hn) as H. unfold wp in H. rewrite Hrun in H.
    destruct (ticks =? 0); [destruct H as [_ ->]; by apply keeps_refl|].
    destruct (timers s !! t) as [c|] eqn:Hc, h as [h|]; try (destruct H as [_ ->]; by apply keeps_refl).
    destruct H as (_ & Hi' & Hd & Hb). eapply becomes_keeps; [done|done|done|exact Hb|done|]. unfold zeros. by rewrite Hd.
  - pose proof (delete_timer_correct s t Hi) as H. unfold wp in H. rewrite Hrun in H.
    destruct (tm_isr s); [destruct H as [_ ->]; by apply keeps_refl|].
    destruct (timers s !! t) as [c|] eqn:Hc; [|destruct H as [_ ->]; by apply keeps_refl].
    destruct H as (_ & Hi' & Hd & Hg & Ho & _ & _).
    assert (Hall := same_dom (λ x, x ≠ t) s s' Ho Hp).
    split; [done| | |by eapply not_due_zeros].
    + intros x cx Hx. apply (Hall x cx); [|done]. intros ->. congruence.
    + intros x [cx Hx]%elem_of_dom. apply (Hall x cx); [|done]. intros ->. congruence.
Qed.

Lemma services_keep s s' : timer_inv s → periods K s → rtc (service K) s s' → keeps s s'.
Proof.
  intros Hi Hp Hr. revert Hi Hp. induction Hr as [s|s s1 s' H1 _ IH]; intros Hi Hp; [by apply keeps_refl|].
  destruct (service_keeps _ _ Hi Hp H1) as [Hi1 Hp1 Hd1 Hz1]. destruct (IH Hi1 Hp1) as [Hi2 Hp2 Hd2 Hz2].
  split; [done|done|set_solver|lia].
Qed.

Context (routine : nat → tmid → Z → M tworld unit) (Hroutine : handlers_ok K routine).

(** The turns a notification may take: every timer at most once for each tick. *)
Definition turns (N : nat) (k : Z) (s : tworld) : nat := Z.to_nat k * S N + zeros s.

Lemma queue_bound s : queue_ok s → (length (timerWaitedQueue s) ≤ size (dom (timers s)))%nat.
Proof.
  intros Hq. rewrite <- (size_list_to_set (C := gset tmid)) by apply Hq. apply subseteq_size.
  intros x Hx%elem_of_list_to_set. destruct (qo_timer _ Hq x Hx) as (c & Hc & _). apply elem_of_dom. eauto.
Qed.

Lemma zeros_bound s : queue_ok s → (zeros s ≤ size (dom (timers s)))%nat.
Proof.
  intros Hq. unfold zeros. etrans; [apply length_filter|].
  assert (length (deadlines (tqueue s)) = length (timerWaitedQueue s)) as ->; [|by apply queue_bound].
  rewrite <- (length_fmap fst). unfold deadlines. rewrite abs_ids. unfold tqueue. by rewrite tview_ids.
Qed.

(** The head of the queue by deadline. *)
Lemma head_deadline s t d q : tqueue s = (t, d) :: q →
  deadlines (tqueue s) = (t, d) :: (prod_map id (Z.add d) <$> deadlines q).
Proof. intros ->. unfold deadlines. simpl. f_equal. by rewrite <- (abs_shift 0 d q). Qed.

Lemma shift_back d (l : list (tmid * Z)) : prod_map id (λ x, x - d) <$> (prod_map id (Z.add d) <$> l) = l.
Proof.
  rewrite <- list_fmap_compose. rewrite <- (list_fmap_id l) at 2. apply list_fmap_ext. intros i [n x] _. unfold prod_map. simpl.
  f_equal. lia.
Qed.

Lemma zeros_shift d (l : list (tmid * Z)) : 0 < d → (∀ n x, (n, x) ∈ l → 0 ≤ x) →
  filter (λ p : tmid * Z, p.2 = 0) (prod_map id (Z.add d) <$> l) = [].
Proof.
  intros Hd. induction l as [|[n x] l IH]; intros Hl; [done|]. rewrite fmap_cons, filter_cons_False.
  - apply IH. intros n' x' ?. apply (Hl n'). by right.
  - simpl. specialize (Hl n x ltac:(left)). lia.
Qed.

(** An expiry takes the loop closer to its end. *)
Lemma expire_turns N s s1 s2 t d c q k :
  queue_ok s → tqueue s = (t, d) :: q → 0 ≤ d ≤ k → 0 < tm_ticks c →
  tqueue s1 = (if tm_remain c =? 0 then q else d_insert false t (tm_ticks c + (k - d)) q) →
  (zeros s2 ≤ zeros s1)%nat → (zeros s2 ≤ N)%nat → (turns N (k - d) s2 < turns N k s)%nat.
Proof.
  intros Hq Et Hd Hp E1 Hz HN. unfold turns. destruct (decide (d = 0)) as [->|Hne].
  - rewrite Z.sub_0_r. enough (zeros s1 < zeros s)%nat by lia.
    assert (zeros s = S (length (filter (λ p : tmid * Z, p.2 = 0%Z) (deadlines q)))) as ->.
    { unfold zeros. rewrite (head_deadline s t 0 q Et), filter_cons_True by done. simpl. do 2 f_equal.
      rewrite <- (list_fmap_id (deadlines q)) at 2. f_equal. apply list_fmap_ext. by intros i [n x] _. }
    unfold zeros. rewrite E1. destruct (_ =? _); [lia|]. unfold deadlines. rewrite insert_deadlines, zeros_insert by lia. lia.
  - assert (Z.to_nat k = Z.to_nat (k - d) + Z.to_nat d)%nat as -> by lia.
    assert (1 <= Z.to_nat d)%nat by lia. nia.
Qed.

Lemma expired_intro s s1 t c d q h k :
  timers s !! t = Some c → tqueue s = (t, d) :: q → tm_handler c = Some h →
  tqueue s1 = (if tm_remain c =? 0 then q else d_insert false t (tm_ticks c + k) q) →
  tm_calls s1 = tm_calls s ++ [(h, t, tm_argument c)] →
  (∀ x, option_Forall2 same_but_waited
    ((λ c, if decide (x = t) then fired_timer c else c) <$> timers s !! x) (timers s1 !! x)) →
  dispatch s1 = dispatch s → tm_isr s1 = tm_isr s → expired t d k (h, t, tm_argument c) s s1.
Proof.
  intros Hc Et Hh E1 Hcl Ht Hd Hisr. split; try done.
  - exists c, (prod_map id (Z.add d) <$> deadlines q). split_and!; [done|by apply head_deadline|]. simpl.
    rewrite shift_back, E1. destruct (_ =? _); [done|]. apply (insert_deadlines false t (tm_ticks c + k) 0 q).
  - unfold handler_call. rewrite Hc. simpl. by rewrite Hh.
Qed.

Lemma expired_periods s s1 t : periods K s →
  (∀ x, option_Forall2 same_but_waited
    ((λ c, if decide (x = t) then fired_timer c else c) <$> timers s !! x) (timers s1 !! x)) →
  periods K s1 ∧ dom (timers s1) ⊆ dom (timers s).
Proof.
  intros Hp Ht. assert (H : ∀ x cx, timers s1 !! x = Some cx → x ∈ dom (timers s) ∧ tm_ticks cx + K < 2 ^ 32).
  { intros x cx Hx. specialize (Ht x). rewrite Hx in Ht. destruct (timers s !! x) as [c|] eqn:Hc; inversion Ht as [? ? Hs|]; subst.
    split; [apply elem_of_dom; eauto|]. rewrite Hs. simpl. specialize (Hp x c Hc). unfold fired_timer. repeat case_match; simpl; lia. }
  split; [intros x cx Hx; by eapply H|]. intros x [cx Hx]%elem_of_dom. by eapply H.
Qed.

Lemma quiet_positive k s s' : due k s = [] → notified k s s' → Forall (λ p, 0 < p.2) (deadlines (tqueue s')).
Proof.
  intros Hd [_ Hq _ _ _]. rewrite Hq, Hd. simpl. apply Forall_forall.
  intros p ([n x] & -> & [Hx _]%list_elem_of_filter)%list_elem_of_fmap. simpl in *. lia.
Qed.

Lemma notify_general N fuel : ∀ s k, timer_inv s → periods K s → 0 ≤ k ≤ K → K < 2 ^ 32 →
  (size (dom (timers s)) ≤ N)%nat → (turns N k s < fuel)%nat →
  wp (ttosTimerNotify routine fuel k) s (λ _ s',
    timer_inv s' ∧ notification routine k s s' ∧ Forall (λ p, 0 < p.2) (deadlines (tqueue s'))).
Proof.
  induction fuel as [|fuel IH]; intros s k Hi Hp Hk HK32 HN Hlen; [lia|]. simpl.
  apply wp_bind, wp_gets. pose proof (ti_queue _ Hi) as Hq.
  assert (Hquiet : ∀ s', (d_tick k (tqueue s)).1 = [] → only_waited s s' → tqueue s' = (d_tick k (tqueue s)).2 →
    timerWaitedQueue s' = timerWaitedQueue s →
    timer_inv s' ∧ notification routine k s s' ∧ Forall (λ p, 0 < p.2) (deadlines (tqueue s'))).
  { intros s' E1 Ho E2 Eq. destruct (quiet_notified k s s' Hi ltac:(lia) E1 Ho E2 Eq) as [Hi' Hn].
    assert (due k s = []) by (rewrite <- E1; apply due_tick; [done|lia]).
    split_and!; [done|by apply nf_quiet|by eapply quiet_positive]. }
  destruct (timerWaitedQueue s) as [|t rest] eqn:Eq; simpl.
  { assert (tqueue s = []) as E by (unfold tqueue; by rewrite Eq). apply wp_ret. apply Hquiet; rewrite ?E; done. }
  destruct (qo_timer _ Hq t) as (c & Hc & Hw); [rewrite Eq; left|].
  assert (Et : tqueue s = (t, tm_waited c) :: tview s rest).
  { unfold tqueue. rewrite Eq. simpl. by rewrite (tw_lookup _ _ _ Hc). }
  apply wp_bind. eapply wp_get_timer; [done|]. pose proof (Hp t c Hc) as Hft.
  destruct (Z.ltb_spec k (tm_waited c)) as [Hlt|Hge].
  - eapply wp_upd_timer; [done|]. pose proof (qo_bound _ Hq) as Hb. rewrite Et in Hb.
    apply bound_tail in Hb as [Hb _]; [|lia]. rewrite u32_small by lia.
    assert (Ek : k <? tm_waited c = true) by (by apply Z.ltb_lt).
    apply Hquiet; rewrite ?Et; simpl; rewrite ?Ek; try done; [by apply only_waited_upd|].
    unfold tqueue. simpl. rewrite Eq. simpl.
    destruct (pop_ok _ _ _ _ Hq Et) as (rest' & Eq' & _ & Hnr & _). rewrite Eq in Eq'. simplify_eq Eq'. intros ->.
    by rewrite tw_upd_eq, tview_upd.
  - rewrite u32_small by lia. destruct (ti_timer _ Hi _ _ Hc) as [Ha Hin _ _ _].
    destruct Hin as [_ Hpos]; [rewrite (proj1 Ha) by (rewrite Eq; left); done|].
    apply wp_bind. eapply expire_run; [done..|lia|lia|].
    intros h s1 Hh Hi1 E1 Hcl Ht Hd Hisr. destruct (expired_periods s s1 t Hp Ht) as [Hp1 Hd1].
    destruct (Hroutine h t (tm_argument c) s1 Hi1 Hp1) as (s2 & Hrun & Hserv).
    destruct (services_keep s1 s2 Hi1 Hp1 Hserv) as [Hi2 Hp2 Hd2 Hz2].
    assert (Hsz : (size (dom (timers s2)) ≤ N)%nat) by (etrans; [|exact HN]; apply subseteq_size; set_solver).
    pose proof (zeros_bound s2 (ti_queue _ Hi2)).
    pose proof (expire_turns N s s1 s2 t _ c _ k Hq Et ltac:(lia) Hpos E1 Hz2 ltac:(lia)).
    unfold wp at 1. rewrite Hrun. eapply wp_mono; [apply IH; [done|done|lia|done|done|lia]|].
    intros _ s' (Hi' & Hn & Hpos'). split_and!; [done| |done].
    eapply nf_expire; [exact Hge|by eapply expired_intro|exact Hrun|done].
Qed.

End Handlers.

(** C15: a notification of [k] ticks.  The handlers may activate, update, stop,
    install and delete timers, as long as an update is of an installed timer and by
    at least one tick; no period added to [k] reaches 2^32.  Then the notification
    returns: a turn for every timer and tick is enough.  While a timer is due within
    the ticks that are left, the one with the first deadline expires and its handler
    is called: it has one repetition less and is due one period after the end of the
    notification, or is stopped; what the handler then changes is taken into account
    for the timers that follow.  At the end no timer is due and the invariant holds.
    If the handlers leave the timers alone, the handlers called are those of exactly
    the timers due within [k] ticks at the start, once each and in the order of their
    deadlines, and every other timer's deadline is [k] ticks closer. *)
Theorem timer_notify_correct (routine : nat → tmid → Z → M tworld unit) fuel s k :
  handlers_ok k routine → timer_inv s → 0 ≤ k < 2 ^ 32 → periods k s →
  (Z.succ k * Z.succ (Z.of_nat (size (dom (timers s)))) ≤ Z.of_nat fuel) →
  wp (ttosTimerNotify routine fuel k) s (λ _ s',
    timer_inv s' ∧ notification routine k s s' ∧ Forall (λ p, 0 < p.2) (deadlines (tqueue s')) ∧
    ((∀ h t a s, routine h t a s = Some (tt, s)) → notified k s s')).
Proof.
  intros Hr Hi Hk Hp Hfuel. set (N := size (dom (timers s))) in *. pose proof (zeros_bound s (ti_queue _ Hi)) as Hz. fold N in Hz.
  assert (Hwp : wp (ttosTimerNotify routine fuel k) s (λ _ s',
    timer_inv s' ∧ notification routine k s s' ∧ Forall (λ p, 0 < p.2) (deadlines (tqueue s')))).
  { apply (notify_general k ltac:(lia) routine Hr N); try done; [lia..|]. unfold turns. nia. }
  unfold wp in *. destruct (ttosTimerNotify routine fuel k s) as [[[] s']|] eqn:Hrun; [|done].
  destruct Hwp as (Hi' & Hn & Hpos). split_and!; [done..|]. intros Hq.
  enough (wp (ttosTimerNotify routine fuel k) s (λ _ s', timer_inv s' ∧ notified k s s')) as Hw
    by (unfold wp in Hw; rewrite Hrun in Hw; apply Hw).
  apply notify_run; [done|done|lia|intros t c _; by apply Hp|]. eapply Nat.le_lt_trans; [apply tick_length|].
  unfold tqueue, tview. rewrite length_fmap. eapply Nat.le_lt_trans; [apply (queue_bound s), Hi|]. fold N. nia.
Qed.

(** The handler of timer 2 stops timer 1, which is also due: it does not fire. *)
Definition stopper (h : nat) (t : tmid) (a : Z) : M tworld unit :=
  if decide (h = 8%nat) then _ ← TTOS_StopTimer 1; mret tt else mret tt.

Lemma stopper_ok K : handlers_ok K stopper.
Proof.
  intros h t a s Hi _. unfold stopper. case_decide; [|exists s; split; [done|apply rtc_refl]].
  pose proof (stop_timer_correct s 1 Hi) as Hs. unfold wp in Hs. unfold mbind, M_bind.
  destruct (TTOS_StopTimer 1 s) as [[r s']|] eqn:E; [|done]. exists s'. split; [done|]. apply rtc_once. by eapply sv_stop.
Qed.

Lemma timer_notify_correct_witness :
  due 6 sample = [2%nat; 1%nat] ∧ ∃ s', ttosTimerNotify stopper 40 6 sample = Some (tt, s') ∧
    tm_calls s' = [(8%nat, 2%nat, 22)] ∧ timer_inv s' ∧ notification stopper 6 sample s' ∧
    Forall (λ p, 0 < p.2) (deadlines (tqueue s')).
Proof.
  split; [vm_compute; reflexivity|].
  assert (Hwp := timer_notify_correct stopper 40 sample 6 (stopper_ok 6) sample_inv ltac:(lia)).
  unfold wp in Hwp. destruct (ttosTimerNotify stopper 40 6 sample) as [[[] s']|] eqn:E.
  - destruct Hwp as (Hi & Hn & Hf & _).
    + intros t c Hc%elem_of_list_to_map_2. rewrite !elem_of_cons in Hc.
      destruct Hc as [[= -> ->]|[[= -> ->]|[[= -> ->]|[[= -> ->]|[]%not_elem_of_nil]]]]; simpl; lia.
    + vm_compute. discriminate.
    + exists s'. split; [reflexivity|]. split; [vm_compute in E; by injection E as <-|]. split; [exact Hi|]. split; [exact Hn|exact Hf].
  - exfalso. vm_compute in E. discriminate.
Defined.

(** [TTOS_UpdateTimer] does not check that the timer is installed: on an
    uninstalled timer it returns [TTOS_OK] and queues it, and the notification that
    finds it due calls a null handler, whatever the handlers are. *)
Theorem update_uninstalled_faults (routine : nat → tmid → Z → M tworld unit) (fuel : nat) :
  ∃ s', TTOS_UpdateTimer 3 1 sample = Some (TTOS_OK, s') ∧ timerWaitedQueue s' = [3; 2; 1]%nat ∧
    ttosTimerNotify routine fuel 1 s' = None.
Proof.
  eexists. split_and!; [vm_compute; reflexivity|reflexivity|]. destruct fuel; [reflexivity|].
  vm_compute. reflexivity.
Qed.
