(* ===== verification/Circbuf.v ===== *)
(** * Circular byte buffers

    [kernel/utils/circbuf/circbuf.c] and its use by
    [drivers/virtio/virtio-console.c] ([char_prepare_xfer]).  [head] and [tail]
    are free-running 64-bit counters; the byte of position [p] is at offset
    [p % size] of the buffer.

    The buffer a control block points to is part of the state ([cb_base], [None]
    for a null pointer); [malloc] is code outside the repository, so the block it
    returned is an argument of the two operations that call it.  The caller's
    buffers are arguments and results.  [memcpy] outside a buffer is a fault. *)

From S2P Require Import Prelude.
From Stdlib Require Import Init.Byte.
Import Width.
Local Open Scope Z_scope.

Record circbuf := Circbuf {
  cb_base : option (list byte);
  cb_size : Z;
  cb_head : Z;
  cb_tail : Z;
  cb_external : bool;
}.

Definition set_cb_base (v : option (list byte)) (c : circbuf) : circbuf :=
  Circbuf v (cb_size c) (cb_head c) (cb_tail c) (cb_external c).
Definition set_cb_head (v : Z) (c : circbuf) : circbuf :=
  Circbuf (cb_base c) (cb_size c) v (cb_tail c) (cb_external c).
Definition set_cb_tail (v : Z) (c : circbuf) : circbuf :=
  Circbuf (cb_base c) (cb_size c) (cb_head c) v (cb_external c).

(** [memcpy (dst + d, src + s, n)]. *)
Definition memcpy (dst : list byte) (d : Z) (src : list byte) (s n : Z) : option (list byte) :=
  if (0 <=? d) && (0 <=? s) && (0 <=? n) &&
     (d + n <=? Z.of_nat (length dst)) && (s + n <=? Z.of_nat (length src))
  then Some (take (Z.to_nat d) dst ++ take (Z.to_nat n) (drop (Z.to_nat s) src) ++ drop (Z.to_nat (d + n)) dst)
  else None.

(** The conversion of a [size_t] to the [ssize_t] a function returns. *)
Definition ssize (x : Z) : Z := if x <? 2 ^ 63 then x else x - 2 ^ 64.

Definition ENOMEM : Z := 12.

(** ** The operations *)

(** [mem]: the block [malloc] returned. *)
Definition circbuf_init (base : option (list byte)) (bytes : Z) (mem : option (list byte)) : M circbuf Z :=
  _ ← massert (bool_decide (base = None) || negb (bytes =? 0));
  _ ← modify (λ c, Circbuf (cb_base c) (cb_size c) (cb_head c) (cb_tail c) (bool_decide (base ≠ None)));
  let fresh := bool_decide (base = None) && negb (bytes =? 0) in
  if fresh && bool_decide (mem = None) then mret (- ENOMEM)
  else
    _ ← modify (λ c, Circbuf (if fresh then mem else base) bytes 0 0 (cb_external c));
    mret 0.

Definition circbuf_size : M circbuf Z := gets cb_size.

Definition circbuf_used : M circbuf Z := gets (λ c, u64 (cb_head c - cb_tail c)).

Definition circbuf_space : M circbuf Z :=
  size ← circbuf_size; used ← circbuf_used; mret (u64 (size - used)).

Definition circbuf_is_init : M circbuf bool := gets (λ c, bool_decide (cb_base c ≠ None)).

Definition circbuf_is_empty : M circbuf bool := used ← circbuf_used; mret (used =? 0).

Definition circbuf_is_full : M circbuf bool := space ← circbuf_space; mret (space =? 0).

Definition circbuf_reset : M circbuf unit := modify (λ c, set_cb_head 0 (set_cb_tail 0 c)).

Definition circbuf_uninit : M circbuf unit := modify (λ _, Circbuf None 0 0 0 false).

(** The results are the return value and the destination buffer. *)
Definition circbuf_peekat (pos : Z) (dst : list byte) (bytes : Z) : M circbuf (Z * list byte) :=
  c ← gets id;
  if cb_size c =? 0 then mret (0, dst)
  else
    let pos := if u64 (cb_head c - cb_tail c) <? u64 (cb_head c - pos) then cb_tail c else pos in
    let len := u64 (cb_head c - pos) in
    let off := pos mod cb_size c in
    let bytes := if len <? bytes then len else bytes in
    let len := u64 (cb_size c - off) in
    let len := if bytes <? len then bytes else len in
    base ← lift (cb_base c);
    dst ← lift (memcpy dst 0 base off len);
    dst ← lift (memcpy dst len base 0 (u64 (bytes - len)));
    mret (ssize bytes, dst).

Definition circbuf_peek (dst : list byte) (bytes : Z) : M circbuf (Z * list byte) :=
  tail ← gets cb_tail; circbuf_peekat tail dst bytes.

Definition circbuf_read (dst : list byte) (bytes : Z) : M circbuf (Z * list byte) :=
  r ← circbuf_peek dst bytes;
  let bytes := u64 r.1 in
  _ ← modify (λ c, set_cb_tail (u64 (cb_tail c + bytes)) c);
  mret (ssize bytes, r.2).

Definition circbuf_skip (bytes : Z) : M circbuf Z :=
  len ← circbuf_used;
  let bytes := if len <? bytes then len else bytes in
  _ ← modify (λ c, set_cb_tail (u64 (cb_tail c + bytes)) c);
  mret (ssize bytes).

(** The two copies into the buffer at the end of both writing functions. *)
Definition copy_in (off : Z) (src : list byte) (soff space bytes : Z) : M circbuf unit :=
  c ← gets id;
  base ← lift (cb_base c);
  base ← lift (memcpy base off src soff space);
  base ← lift (memcpy base 0 src (soff + space) (u64 (bytes - space)));
  modify (set_cb_base (Some base)).

Definition circbuf_write (src : list byte) (bytes : Z) : M circbuf Z :=
  c ← gets id;
  if cb_size c =? 0 then mret 0
  else
    space ← circbuf_space;
    let off := cb_head c mod cb_size c in
    let bytes := if space <? bytes then space else bytes in
    let space := u64 (cb_size c - off) in
    let space := if bytes <? space then bytes else space in
    _ ← copy_in off src 0 space bytes;
    _ ← modify (λ c, set_cb_head (u64 (cb_head c + bytes)) c);
    mret (ssize bytes).

Definition circbuf_overwrite (src : list byte) (bytes : Z) : M circbuf Z :=
  c ← gets id;
  if cb_size c =? 0 then mret 0
  else
    let skip := if cb_size c <? bytes then u64 (bytes - cb_size c) else 0 in
    let bytes := if cb_size c <? bytes then cb_size c else bytes in
    space ← circbuf_space;
    let overwrite := if space <? bytes then u64 (bytes - space + skip) else 0 in
    _ ← modify (λ c, set_cb_head (u64 (cb_head c + skip)) c);
    c ← gets id;
    let off := cb_head c mod cb_size c in
    let space := u64 (cb_size c - off) in
    let space := if bytes <? space then bytes else space in
    _ ← copy_in off src skip space bytes;
    _ ← modify (λ c, set_cb_head (u64 (cb_head c + bytes)) c);
    _ ← modify (λ c, set_cb_tail (u64 (cb_tail c + overwrite)) c);
    mret (ssize overwrite).

Definition circbuf_resize (bytes : Z) (mem : option (list byte)) : M circbuf Z :=
  c ← gets id;
  _ ← massert (negb (cb_external c));
  if bytes =? cb_size c then mret 0
  else if bytes =? 0 then
    _ ← modify (λ c, Circbuf None 0 0 0 (cb_external c)); mret 0
  else
    match mem with
    | None => mret (- ENOMEM)
    | Some tmp =>
        len ← circbuf_used;
        _ ← whenM (bytes <? len) (_ ← circbuf_skip (u64 (len - bytes)); mret tt);
        let len := if bytes <? len then bytes else len in
        r ← circbuf_read tmp len;
        _ ← modify (λ c, Circbuf (Some r.2) bytes len 0 (cb_external c));
        mret 0
    end.

(** The pointers are offsets into the buffer; the second component is [*size].
    A zero [size] divides by zero. *)
Definition circbuf_get_writeptr : M circbuf (Z * Z) :=
  c ← gets id;
  _ ← massert (negb (cb_size c =? 0));
  let off := cb_head c mod cb_size c in
  let pos := cb_tail c mod cb_size c in
  mret (off, if pos <=? off then cb_size c - off else pos - off).

Definition circbuf_get_readptr : M circbuf (Z * Z) :=
  c ← gets id;
  _ ← massert (negb (cb_size c =? 0));
  let off := cb_head c mod cb_size c in
  let pos := cb_tail c mod cb_size c in
  mret (pos, if off <? pos then cb_size c - pos else off - pos).

Definition circbuf_writecommit (writtensize : Z) : M circbuf unit :=
  modify (λ c, set_cb_head (u64 (cb_head c + writtensize)) c).

Definition circbuf_readcommit (readsize : Z) : M circbuf unit :=
  modify (λ c, set_cb_tail (u64 (cb_tail c + readsize)) c).

(** [char_prepare_xfer]: the one or two blocks handed to the device, as offset and
    length; [None] when there is nothing to send. *)
Definition char_prepare_xfer : M circbuf (option (Z * Z * option (Z * Z))) :=
  used ← circbuf_used;
  if used =? 0 then mret None
  else
    r ← circbuf_get_readptr;
    let '(buf1, len1) := (r : Z * Z) in
    let len1 := if used <? len1 then used else len1 in
    let len2 := u64 (used - len1) in
    mret (Some (buf1, len1, if len2 =? 0 then None else Some (0, len2))).

(** ** Specification: a bounded queue of bytes *)

Definition room (size : Z) (xs : list byte) : Z := size - Z.of_nat (length xs).

Definition q_write (size : Z) (src xs : list byte) : list byte :=
  xs ++ take (Z.to_nat (room size xs)) src.

(** The last [size] bytes. *)
Definition q_last (size : Z) (xs : list byte) : list byte :=
  drop (length xs - Z.to_nat size) xs.
