(* ===== verification/CircbufProps.v ===== *)
(** * Circular byte buffers: refinement of a bounded byte queue

    The control block and its buffer represent a sequence of bytes; every
    operation acts on that sequence as on a bounded queue, without a copy outside
    a buffer, as long as the counters do not pass 2^64 or the size divides
    2^64. *)

From S2P Require Import Prelude Circbuf.
From Stdlib Require Import Init.Byte.
Import Width.
Local Open Scope Z_scope.

(** ** Copies *)

Lemma memcpy_run dst d src s n :
  0 ≤ d → 0 ≤ s → 0 ≤ n → d + n ≤ Z.of_nat (length dst) → s + n ≤ Z.of_nat (length src) →
  ∃ dst', memcpy dst d src s n = Some dst' ∧ length dst' = length dst ∧
    ∀ z, 0 ≤ z → dst' !! Z.to_nat z =
      if (d <=? z) && (z <? d + n) then src !! Z.to_nat (s + (z - d)) else dst !! Z.to_nat z.
Proof.
  intros Hd Hs Hn Hdst Hsrc. unfold memcpy. rewrite !(proj2 (Z.leb_le _ _)) by lia. eexists. split; [done|].
  assert (Hl : length (take (Z.to_nat n) (drop (Z.to_nat s) src)) = Z.to_nat n)
    by (rewrite length_take, length_drop; lia).
  split; [rewrite !length_app, Hl, length_take, length_drop; lia|]. intros z Hz.
  destruct (Z.leb_spec d z); simpl.
  - rewrite lookup_app_r by (rewrite length_take; lia). rewrite length_take, Nat.min_l by lia.
    destruct (Z.ltb_spec z (d + n)).
    + rewrite lookup_app_l by lia. rewrite lookup_take_lt, lookup_drop by lia. f_equal. lia.
    + rewrite lookup_app_r, Hl, lookup_drop by lia. f_equal. lia.
  - rewrite lookup_app_l by (rewrite length_take; lia). by rewrite lookup_take_lt by lia.
Qed.

(** Positions of one turn of the ring. *)
Lemma ring_mod P L s : 0 < s → P ≤ L < P + s →
  L mod s = if P mod s + (L - P) <? s then P mod s + (L - P) else P mod s + (L - P) - s.
Proof.
  intros Hs HL. pose proof (Z.mod_pos_bound P s Hs). pose proof (Z.div_mod P s ltac:(lia)).
  destruct (Z.ltb_spec (P mod s + (L - P)) s).
  - symmetry. apply (Z.mod_unique_pos _ _ (P / s)); lia.
  - symmetry. apply (Z.mod_unique_pos _ _ (P / s + 1)); lia.
Qed.

(** The byte of position [p]. *)
Definition cell (b : list byte) (s p : Z) : option byte := b !! Z.to_nat (p mod s).

(** Two copies at the offset of position [P] write the bytes of the positions from
    [P] on and leave those of the turn before. *)
Lemma ring_write b s P src k n : 0 < s ≤ Z.of_nat (length b) → 0 ≤ n ≤ s → 0 ≤ k →
  k + n ≤ Z.of_nat (length src) →
  let off := P mod s in
  let m := if n <? s - off then n else s - off in
  ∃ b1 b', memcpy b off src k m = Some b1 ∧ memcpy b1 0 src (k + m) (n - m) = Some b' ∧
    length b' = length b ∧
    (∀ L, P ≤ L < P + n → cell b' s L = src !! Z.to_nat (k + (L - P))) ∧
    (∀ L, P + n - s ≤ L < P → cell b' s L = cell b s L).
Proof.
  intros Hs Hn Hk Hsrc off m. pose proof (Z.mod_pos_bound P s ltac:(lia)) as Ho. fold off in Ho.
  assert (Hm : 0 ≤ m ≤ n ∧ m ≤ s - off ∧ (m < n → m = s - off)) by (unfold m; destruct (Z.ltb_spec n (s - off)); lia).
  destruct (memcpy_run b off src k m) as (b1 & E1 & L1 & H1); [lia..|].
  destruct (memcpy_run b1 0 src (k + m) (n - m)) as (b' & E' & L' & H'); [lia..|].
  exists b1, b'. split_and!; [done..|lia| |]; intros L HL; unfold cell.
  - pose proof (Z.mod_pos_bound L s ltac:(lia)) as Hb. rewrite H', H1 by lia.
    rewrite (ring_mod P) in * by lia. fold off. fold off in Hb.
    destruct (Z.ltb_spec (off + (L - P)) s).
    + replace ((0 <=? off + (L - P)) && (off + (L - P) <? 0 + (n - m))) with false
        by (symmetry; apply andb_false_intro2, Z.ltb_ge; lia).
      rewrite (proj2 (Z.leb_le _ _)), (proj2 (Z.ltb_lt _ _)) by lia. simpl. f_equal. lia.
    + rewrite (proj2 (Z.leb_le _ _)), (proj2 (Z.ltb_lt _ _)) by lia. simpl. f_equal. lia.
  - pose proof (Z.mod_pos_bound L s ltac:(lia)) as Hb. rewrite H', H1 by lia.
    assert (EL : L mod s = (L + s) mod s) by (by rewrite <- Z.add_mod_idemp_r, Z_mod_same_full, Z.add_0_r by lia).
    rewrite EL in Hb |- *. rewrite (ring_mod P) in * by lia. fold off. fold off in Hb.
    set (z := if _ <? s then _ else _) in *.
    assert (Hz : off + (L + s - P) < s ∧ z = off + (L + s - P) ∨ s ≤ off + (L + s - P) ∧ z = off + (L + s - P) - s)
      by (unfold z; destruct (Z.ltb_spec (off + (L + s - P)) s); auto).
    destruct (Z.leb_spec 0 z), (Z.ltb_spec z (0 + (n - m))), (Z.leb_spec off z), (Z.ltb_spec z (off + m));
      simpl; try lia; done.
Qed.

(** Two copies out of the ring read the bytes of the positions from [P] on. *)
Lemma ring_read b s P dst n : 0 < s ≤ Z.of_nat (length b) → 0 ≤ n ≤ s → n ≤ Z.of_nat (length dst) →
  let off := P mod s in
  let m := if n <? s - off then n else s - off in
  ∃ d1 d', memcpy dst 0 b off m = Some d1 ∧ memcpy d1 m b 0 (n - m) = Some d' ∧
    length d' = length dst ∧
    (∀ i, 0 ≤ i < n → d' !! Z.to_nat i = cell b s (P + i)) ∧
    (∀ i, n ≤ i → d' !! Z.to_nat i = dst !! Z.to_nat i).
Proof.
  intros Hs Hn Hdst off m. pose proof (Z.mod_pos_bound P s ltac:(lia)) as Ho. fold off in Ho.
  assert (Hm : 0 ≤ m ≤ n ∧ m ≤ s - off ∧ (m < n → m = s - off)) by (unfold m; destruct (Z.ltb_spec n (s - off)); lia).
  destruct (memcpy_run dst 0 b off m) as (d1 & E1 & L1 & H1); [lia..|].
  destruct (memcpy_run d1 m b 0 (n - m)) as (d' & E' & L' & H'); [lia..|].
  exists d1, d'. split_and!; [done..|lia| |]; intros i Hi; rewrite H', H1 by lia.
  - unfold cell. rewrite (ring_mod P) by lia. fold off. replace (P + i - P) with i by lia.
    destruct (Z.leb_spec m i), (Z.ltb_spec i (m + (n - m))), (Z.leb_spec 0 i), (Z.ltb_spec i (0 + m)),
      (Z.ltb_spec (off + i) s); simpl; try lia; f_equal; lia.
  - destruct (Z.leb_spec m i), (Z.ltb_spec i (m + (n - m))), (Z.leb_spec 0 i), (Z.ltb_spec i (0 + m));
      simpl; try lia; done.
Qed.

(** ** Representation *)

Abbreviation len xs := (Z.of_nat (length xs)).

(** [c] holds [xs], the bytes of the positions from [T] to [H]; the counters are
    these positions modulo 2^64. *)
Record Rep (c : circbuf) (H T : Z) (xs : list byte) : Prop := {
  rp_size : 0 ≤ cb_size c < 2 ^ 63;
  rp_base : 0 < cb_size c → ∃ b, cb_base c = Some b ∧ cb_size c ≤ len b ∧
    ∀ i, 0 ≤ i < len xs → cell b (cb_size c) (T + i) = xs !! Z.to_nat i;
  rp_pos : 0 ≤ T ∧ H = T + len xs;
  rp_len : len xs ≤ cb_size c;
  rp_head : cb_head c = u64 H;
  rp_tail : cb_tail c = u64 T;
  rp_wrap : H < 2 ^ 64 ∨ (cb_size c | 2 ^ 64);
}.

Definition holds (c : circbuf) (xs : list byte) : Prop := ∃ H T, Rep c H T xs.

(** [n] more bytes do not carry the head past 2^64, or it does not matter. *)
Definition fits (c : circbuf) (n : Z) : Prop := (cb_size c | 2 ^ 64) ∨ cb_head c + n < 2 ^ 64.

Lemma u64_sub a b : u64 (u64 a - u64 b) = u64 (a - b).
Proof. unfold u64, wrap. by rewrite <- Zminus_mod. Qed.

Lemma u64_add a b : u64 (u64 a + b) = u64 (a + b).
Proof. unfold u64, wrap. by rewrite Zplus_mod_idemp_l. Qed.

Lemma wp_used c H T xs Φ : Rep c H T xs → Φ (len xs) c → wp circbuf_used c Φ.
Proof.
  intros [? _ ? ? Hh Ht _] HΦ. apply wp_gets. rewrite Hh, Ht, u64_sub, u64_small by lia.
  by replace (H - T) with (len xs) by lia.
Qed.

Lemma wp_space c H T xs Φ : Rep c H T xs → Φ (room (cb_size c) xs) c → wp circbuf_space c Φ.
Proof.
  intros HR HΦ. unfold circbuf_space. apply wp_bind, wp_gets, wp_bind. eapply wp_used; [done|]. apply wp_ret.
  destruct HR. rewrite u64_small by lia. exact HΦ.
Qed.

Lemma rep_off c H T xs P : Rep c H T xs → 0 < cb_size c → 0 ≤ P ≤ H → u64 P mod cb_size c = P mod cb_size c.
Proof.
  intros [? _ ? _ _ _ Hw] Hs HP. destruct Hw as [Hw|Hw]; [by rewrite u64_small by lia|].
  unfold u64, wrap. symmetry. apply Znumtheory.Zmod_div_mod; [lia..|done].
Qed.

Lemma fits_wrap c H T xs n : Rep c H T xs → 0 ≤ n → fits c n → H + n < 2 ^ 64 ∨ (cb_size c | 2 ^ 64).
Proof.
  intros [_ _ ? _ Hh _ Hw] Hn [Hf|Hf]; [by right|]. destruct Hw as [Hw|Hw]; [|by right]. left.
  rewrite Hh, u64_small in Hf by lia. done.
Qed.

Lemma ssize_small x : x < 2 ^ 63 → ssize x = x.
Proof. intros. unfold ssize. by rewrite (proj2 (Z.ltb_lt _ _)). Qed.

(** ** Reading *)

Lemma peekat_run c H T xs k dst n :
  Rep c H T xs → 0 ≤ k ≤ len xs → 0 ≤ n → n `min` (len xs - k) ≤ len dst →
  let out := take (Z.to_nat n) (drop (Z.to_nat k) xs) in
  wp (circbuf_peekat (u64 (T + k)) dst n) c (λ r c', c' = c ∧ r = (len out, out ++ drop (length out) dst)).
Proof.
  intros HR Hk Hn Hdst out. pose proof HR as [Hs Hb Hp Hl Hh Ht _]. unfold circbuf_peekat. apply wp_bind, wp_gets.
  change (id c) with c. destruct (Z.eqb_spec (cb_size c) 0) as [E|E].
  { assert (xs = []) as -> by (apply length_zero_iff_nil; lia). unfold out. rewrite drop_nil, take_nil.
    by apply wp_ret. }
  destruct Hb as (b & Eb & Hbl & Hcell); [lia|].
  rewrite Hh, Ht, !u64_sub, !(u64_small (H - _)) by lia.
  rewrite (proj2 (Z.ltb_ge (H - T) (H - (T + k)))) by lia.
  rewrite !u64_sub, (u64_small (H - (T + k))), (rep_off c H T xs) by (done || lia).
  pose proof (Z.mod_pos_bound (T + k) (cb_size c) ltac:(lia)). rewrite (u64_small (_ - _ mod _)) by lia.
  set (n' := if H - (T + k) <? n then H - (T + k) else n).
  assert (Hn' : n' = n `min` (len xs - k)) by (unfold n'; destruct (Z.ltb_spec (H - (T + k)) n); lia).
  destruct (ring_read b (cb_size c) (T + k) dst n') as (d1 & d' & E1 & E' & L' & Hin & Hout); [lia..|].
  set (m := if n' <? _ then _ else _) in *.
  assert (Hm : 0 ≤ m ≤ n') by (unfold m; destruct (Z.ltb_spec n' (cb_size c - (T + k) mod cb_size c)); lia).
  apply wp_bind. eapply wp_lift; [done|]. apply wp_bind. eapply wp_lift; [done|].
  apply wp_bind. rewrite u64_small by lia. eapply wp_lift; [done|]. apply wp_ret. split; [done|].
  assert (Hol : len out = n') by (unfold out; rewrite length_take, length_drop; lia).
  rewrite ssize_small by lia. f_equal; [lia|]. apply list_eq. intros i. rewrite <- (Nat2Z.id i).
  destruct (decide (Z.of_nat i < n')).
  - rewrite Hin by lia. rewrite lookup_app_l by lia. rewrite <- Z.add_assoc, Hcell by lia.
    unfold out. rewrite lookup_take_lt, lookup_drop by lia. f_equal. lia.
  - rewrite Hout by lia. rewrite lookup_app_r, lookup_drop by lia. f_equal. lia.
Qed.

(** The tail moves forward over [k] bytes. *)
Lemma rep_skip c H T xs k : Rep c H T xs → 0 ≤ k ≤ len xs →
  Rep (set_cb_tail (u64 (cb_tail c + k)) c) H (T + k) (drop (Z.to_nat k) xs).
Proof.
  intros [Hs Hb Hp Hl Hh Ht Hw] Hk. split; simpl; try done.
  - intros Hpos. destruct (Hb Hpos) as (b & Eb & Hbl & Hc). exists b. split_and!; [done..|].
    intros i. rewrite length_drop. intros Hi. rewrite <- Z.add_assoc, Hc, lookup_drop by lia. f_equal. lia.
  - rewrite length_drop. lia.
  - rewrite length_drop. lia.
  - by rewrite Ht, u64_add.
Qed.

Lemma take_min {A} n (xs : list A) : take n xs = take (n `min` length xs)%nat xs.
Proof. destruct (Nat.min_spec n (length xs)) as [[? ->]|[? ->]]; [done|]. by rewrite !take_ge by lia. Qed.

Lemma drop_min {A} n (xs : list A) : drop n xs = drop (n `min` length xs)%nat xs.
Proof. destruct (Nat.min_spec n (length xs)) as [[? ->]|[? ->]]; [done|]. by rewrite !drop_ge by lia. Qed.

Lemma read_run c H T xs dst n : Rep c H T xs → 0 ≤ n → n `min` len xs ≤ len dst →
  let out := take (Z.to_nat n) xs in
  wp (circbuf_read dst n) c (λ r c', r = (len out, out ++ drop (length out) dst) ∧
    Rep c' H (T + len out) (drop (Z.to_nat n) xs) ∧ cb_size c' = cb_size c).
Proof.
  intros HR Hn Hd out. pose proof HR as [Hs _ Hp Hl _ Ht _]. unfold circbuf_read, circbuf_peek.
  apply wp_bind, wp_bind, wp_gets. rewrite Ht. replace T with (T + 0) at 1 by lia.
  eapply wp_mono; [eapply (peekat_run c H T xs 0); (done || lia)|].
  intros r c' [-> ->]. rewrite drop_0. fold out. cbn [fst snd]. apply wp_bind, wp_modify, wp_ret.
  assert (Hol : len out = n `min` len xs) by (unfold out; rewrite length_take; lia).
  rewrite u64_small, ssize_small by lia. split_and!; [done| |done].
  replace (drop (Z.to_nat n) xs) with (drop (Z.to_nat (len out)) xs); [apply rep_skip; (done || lia)|].
  rewrite (drop_min (Z.to_nat n)). f_equal. lia.
Qed.

Lemma skip_run c H T xs n : Rep c H T xs → 0 ≤ n →
  wp (circbuf_skip n) c (λ r c', r = n `min` len xs ∧
    Rep c' H (T + r) (drop (Z.to_nat n) xs) ∧ cb_size c' = cb_size c ∧ cb_external c' = cb_external c).
Proof.
  intros HR Hn. pose proof HR as [Hs _ Hp Hl _ Ht _]. unfold circbuf_skip. apply wp_bind. eapply wp_used; [done|].
  set (k := if len xs <? n then len xs else n).
  assert (Hk : k = n `min` len xs) by (unfold k; destruct (Z.ltb_spec (len xs) n); lia).
  apply wp_bind, wp_modify, wp_ret. rewrite ssize_small by lia. split_and!; try done.
  replace (drop (Z.to_nat n) xs) with (drop (Z.to_nat k) xs); [apply rep_skip; (done || lia)|].
  rewrite (drop_min (Z.to_nat n)). f_equal. lia.
Qed.

(** ** Writing *)

(** [n] bytes of [src] go to the positions from [P] on. *)
Lemma copy_in_run c b P src k n : cb_base c = Some b → 0 < cb_size c < 2 ^ 63 → cb_size c ≤ len b →
  0 ≤ n ≤ cb_size c → 0 ≤ k → k + n ≤ len src →
  let off := P mod cb_size c in
  let space := u64 (cb_size c - off) in
  let m := if n <? space then n else space in
  wp (copy_in off src k m n) c (λ _ c', ∃ b', c' = set_cb_base (Some b') c ∧ length b' = length b ∧
    (∀ L, P ≤ L < P + n → cell b' (cb_size c) L = src !! Z.to_nat (k + (L - P))) ∧
    (∀ L, P + n - cb_size c ≤ L < P → cell b' (cb_size c) L = cell b (cb_size c) L)).
Proof.
  intros Eb Hs Hb Hn Hk Hsrc off space m. pose proof (Z.mod_pos_bound P (cb_size c) ltac:(lia)) as Ho. fold off in Ho.
  destruct (ring_write b (cb_size c) P src k n) as (b1 & b' & E1 & E' & L' & Hin & Hout); [lia..|].
  assert (Em : m = if n <? cb_size c - off then n else cb_size c - off)
    by (unfold m, space; by rewrite u64_small by lia).
  fold off in E1, E'. rewrite <- Em in E1, E'. clearbody m.
  assert (0 ≤ m ≤ n) by (rewrite Em; destruct (Z.ltb_spec n (cb_size c - off)); lia).
  unfold copy_in. apply wp_bind, wp_gets, wp_bind. eapply wp_lift; [done|]. apply wp_bind. eapply wp_lift; [done|].
  apply wp_bind. rewrite u64_small by lia. eapply wp_lift; [done|]. apply wp_modify. eauto.
Qed.

(** [m] bytes behind the head have become those of [src], and the head moves. *)
Lemma rep_append c H T xs b b' src m : Rep c H T xs → cb_base c = Some b → cb_size c ≤ len b →
  0 ≤ m ≤ len src → m ≤ room (cb_size c) xs → H + m < 2 ^ 64 ∨ (cb_size c | 2 ^ 64) → length b' = length b →
  (∀ L, H ≤ L < H + m → cell b' (cb_size c) L = src !! Z.to_nat (0 + (L - H))) →
  (∀ L, H + m - cb_size c ≤ L < H → cell b' (cb_size c) L = cell b (cb_size c) L) →
  Rep (set_cb_head (u64 (cb_head c + m)) (set_cb_base (Some b') c)) (H + m) T (xs ++ take (Z.to_nat m) src).
Proof.
  intros HR Eb Hbl Hm Hroom Hw L' Hin Hout. pose proof HR as [Hs Hb Hp Hl Hh Ht _]. unfold room in Hroom.
  assert (Hlen : len (xs ++ take (Z.to_nat m) src) = len xs + m) by (rewrite length_app, length_take; lia).
  split; simpl; try lia; try done.
  - intros Hpos. destruct (Hb Hpos) as (b0 & Eb0 & _ & Hcell). rewrite Eb in Eb0. injection Eb0 as <-.
    exists b'. split_and!; [done|lia|]. intros i Hi. destruct (decide (i < len xs)).
    + rewrite Hout, Hcell by lia. by rewrite lookup_app_l by lia.
    + rewrite Hin by lia. rewrite lookup_app_r, lookup_take_lt by lia. f_equal. lia.
  - by rewrite Hh, u64_add.
Qed.

Lemma write_run c H T xs src n : Rep c H T xs → 0 ≤ n ≤ len src → fits c n →
  let m := n `min` room (cb_size c) xs in
  wp (circbuf_write src n) c (λ r c', r = m ∧ Rep c' (H + m) T (xs ++ take (Z.to_nat m) src) ∧
    cb_size c' = cb_size c).
Proof.
  intros HR Hn Hf m. pose proof HR as [Hs Hb Hp Hl Hh Ht _]. unfold room in m.
  unfold circbuf_write. apply wp_bind, wp_gets. change (id c) with c.
  destruct (Z.eqb_spec (cb_size c) 0) as [E|E].
  { assert (m = 0) as -> by lia. apply wp_ret. split_and!; [done| |done]. simpl. by rewrite app_nil_r, Z.add_0_r. }
  destruct (Hb ltac:(lia)) as (b & Eb & Hbl & Hcell). apply wp_bind. eapply wp_space; [done|]. unfold room.
  set (n' := if _ <? n then _ else n).
  assert (Hn' : n' = m) by (unfold n'; destruct (Z.ltb_spec (cb_size c - len xs) n); lia). clearbody n'. subst n'.
  rewrite Hh, (rep_off c H T xs) by (done || lia). apply wp_bind.
  eapply wp_mono; [apply (copy_in_run c b H src 0 m); (done || lia)|].
  intros _ c' (b' & -> & L' & Hin & Hout). apply wp_bind, wp_modify, wp_ret. rewrite ssize_small by lia.
  split_and!; [done| |done].
  apply (rep_append c H T xs b b' src m); try done; try lia; [unfold room; lia|].
  destruct (fits_wrap c H T xs n HR) as [?|?]; [lia|done|left; lia|by right].
Qed.

Lemma length_q_last size xs : 0 ≤ size → len (q_last size xs) = len xs `min` size.
Proof. intros. unfold q_last. rewrite length_drop. lia. Qed.

Lemma lookup_q_last size xs i : 0 ≤ size →
  q_last size xs !! Z.to_nat i = xs !! Z.to_nat (0 `max` (len xs - size) + 0 `max` i).
Proof. intros. unfold q_last. rewrite lookup_drop. f_equal. lia. Qed.

Lemma overwrite_run c H T xs src n : Rep c H T xs → 0 < cb_size c → 0 ≤ n ≤ len src → n < 2 ^ 62 →
  fits c n → n ≤ cb_size c ∨ xs ≠ [] →
  wp (circbuf_overwrite src n) c (λ r c', r = 0 `max` (len xs + n - cb_size c) ∧
    Rep c' (H + n) (T + r) (q_last (cb_size c) (xs ++ take (Z.to_nat n) src)) ∧ cb_size c' = cb_size c).
Proof.
  intros HR Hpos Hn Hn62 Hf Hbug. pose proof HR as [Hs Hb Hp Hl Hh Ht _].
  destruct (Hb Hpos) as (b & Eb & Hbl & Hcell). unfold circbuf_overwrite. apply wp_bind, wp_gets. change (id c) with c.
  rewrite (proj2 (Z.eqb_neq _ _)) by lia. set (skip := if cb_size c <? n then u64 _ else 0).
  set (n' := if cb_size c <? n then cb_size c else n).
  assert (Hsk : skip = 0 `max` (n - cb_size c) ∧ n' = n `min` cb_size c).
  { unfold skip, n'. destruct (Z.ltb_spec (cb_size c) n); [rewrite u64_small by lia|]; lia. }
  clearbody skip n'. apply wp_bind. eapply wp_space; [done|]. set (ov := if _ <? n' then u64 _ else 0).
  assert (Hxs : xs ≠ [] → 0 < len xs) by (destruct xs; [done|simpl; lia]).
  assert (Hov : ov = 0 `max` (len xs + n - cb_size c)).
  { unfold ov, room. destruct (Z.ltb_spec (cb_size c - len xs) n'); [rewrite u64_small by lia; lia|].
    destruct Hbug as [?|?%Hxs]; lia. }
  clearbody ov. apply wp_bind, wp_modify, wp_bind, wp_gets. set (c1 := set_cb_head _ c). change (id c1) with c1.
  assert (Hw : H + n < 2 ^ 64 ∨ (cb_size c | 2 ^ 64)) by (eapply fits_wrap; [done|lia|done]).
  assert (Eoff : cb_head c1 mod cb_size c1 = (H + skip) mod cb_size c).
  { simpl. rewrite Hh, u64_add. destruct Hw as [?|?]; [by rewrite u64_small by lia|].
    unfold u64, wrap. symmetry. apply Znumtheory.Zmod_div_mod; [lia..|done]. }
  rewrite Eoff. apply wp_bind.
  eapply wp_mono; [apply (copy_in_run c1 b (H + skip) src skip n'); simpl; (done || lia)|].
  intros _ c' (b' & -> & L' & Hin & Hout). apply wp_bind, wp_modify, wp_bind, wp_modify, wp_ret. simpl in *.
  rewrite ssize_small by lia. split_and!; [done| |done].
  assert (Hlen : len (xs ++ take (Z.to_nat n) src) = len xs + n) by (rewrite length_app, length_take; lia).
  assert (Hql := length_q_last (cb_size c) (xs ++ take (Z.to_nat n) src)). rewrite Hlen in Hql.
  split; simpl; try lia; try done.
  - intros _. exists b'. split_and!; [done|lia|]. intros i Hi. rewrite lookup_q_last, Hlen by lia.
    rewrite Hql in Hi by lia. destruct (decide (T + ov + i < H + skip)).
    + rewrite Hout by lia. replace (T + ov + i) with (T + (ov + i)) by lia. rewrite Hcell by lia.
      rewrite lookup_app_l by lia. f_equal. lia.
    + rewrite Hin by lia. rewrite lookup_app_r, lookup_take_lt by lia. f_equal. lia.
  - rewrite Hh, !u64_add, <- Z.add_assoc, u64_add. f_equal. lia.
  - by rewrite Ht, u64_add.
Qed.

(** ** The write pointer *)

(** The room [circbuf_get_writeptr] reports is free, unless the buffer is full: then
    it reports the bytes from the head to the end of the buffer, all of them
    unread. *)
Lemma writeptr_run c H T xs : Rep c H T xs → 0 < cb_size c →
  wp circbuf_get_writeptr c (λ r c', c' = c ∧ r.1 = H mod cb_size c ∧
    (len xs < cb_size c → 0 < r.2 ≤ room (cb_size c) xs ∧ r.1 + r.2 ≤ cb_size c) ∧
    (len xs = cb_size c → r.2 = cb_size c - r.1)).
Proof.
  intros HR Hpos. pose proof HR as [Hs _ Hp Hl Hh Ht _]. unfold circbuf_get_writeptr.
  apply wp_bind, wp_gets, wp_bind, wp_assert; [by rewrite (proj2 (Z.eqb_neq _ _)) by (simpl; lia)|].
  apply wp_ret. change (id c) with c. rewrite Hh, Ht, !(rep_off c H T xs) by (done || lia). simpl.
  set (s := cb_size c) in *. pose proof (Z.mod_pos_bound T s ltac:(lia)) as HT. split_and!; [done..| |].
  - intros Hlt. rewrite (ring_mod T H) by lia. unfold room. replace (H - T) with (len xs) by lia.
    set (pos := T mod s) in *. clearbody pos. destruct (Z.ltb_spec (pos + len xs) s);
      match goal with |- context [pos <=? ?a] => destruct (Z.leb_spec pos a) end; lia.
  - intros Hfull. replace H with (T + 1 * s) by lia. rewrite Z.mod_add by lia. by rewrite Z.leb_refl.
Qed.

(** A producer that stores up to [len src] bytes at the write pointer itself, as many
    as it reports, if the buffer is not full. *)
Definition produce (src : list byte) : M circbuf Z :=
  full ← circbuf_is_full;
  if (full : bool) then mret 0
  else
    r ← circbuf_get_writeptr;
    let m := len src `min` r.2 in
    c ← gets id;
    base ← lift (cb_base c);
    base ← lift (memcpy base r.1 src 0 m);
    _ ← modify (set_cb_base (Some base));
    _ ← circbuf_writecommit m;
    mret m.

Lemma produce_run c H T xs src : Rep c H T xs → 0 < cb_size c → fits c (len src) →
  wp (produce src) c (λ m c', 0 ≤ m ≤ len src `min` room (cb_size c) xs ∧ (m = 0 → src = [] ∨ len xs = cb_size c) ∧
    Rep c' (H + m) T (xs ++ take (Z.to_nat m) src) ∧ cb_size c' = cb_size c).
Proof.
  intros HR Hpos Hf. pose proof HR as [Hs Hb Hp Hl Hh Ht Hwr]. destruct (Hb Hpos) as (b & Eb & Hbl & _).
  unfold produce. apply wp_bind. unfold circbuf_is_full. apply wp_bind. eapply wp_space; [done|]. apply wp_ret. unfold room.
  destruct (Z.eqb_spec (cb_size c - len xs) 0) as [Hfull|Hnf].
  { apply wp_ret. simpl. rewrite app_nil_r, Z.add_0_r. split_and!; [lia|lia|right; lia|done|done]. }
  apply wp_bind. eapply wp_mono; [by eapply writeptr_run|]. intros [off n] c1 (-> & Eoff & Hn & _). simpl in Eoff. subst off.
  destruct (Hn ltac:(lia)) as [Hroom Hend]. cbn [fst snd] in *. set (m := len src `min` n).
  apply wp_bind, wp_gets. change (id c) with c. apply wp_bind. eapply wp_lift; [done|].
  destruct (ring_write b (cb_size c) H src 0 m) as (b1 & b' & E1 & E' & L' & Hin & Hout); [unfold room in *; lia..|].
  assert (Em : (if m <? cb_size c - H mod cb_size c then m else cb_size c - H mod cb_size c) = m)
    by (destruct (Z.ltb_spec m (cb_size c - H mod cb_size c)); lia).
  rewrite Em in E1, E'. rewrite Z.sub_diag in E'.
  assert (b' = b1) as ->.
  { unfold memcpy in E'. destruct (_ && _ && _ && _ && _); [|done]. injection E' as <-. simpl. by rewrite !drop_0. }
  apply wp_bind. eapply wp_lift; [done|]. apply wp_bind, wp_modify, wp_bind, wp_modify, wp_ret.
  split_and!; [unfold room in *; lia|unfold room in *; lia| | |done].
  - intros Hm. left. destruct src; [done|]. simpl in m. lia.
  - apply (rep_append c H T xs b b1 src m); try done; [lia|lia|].
    destruct (fits_wrap c H T xs (len src) HR) as [?|?]; [lia|done|left; lia|by right].
Qed.

(** ** Sequences of operations *)

Inductive cbop :=
| OWrite (src : list byte) | OOverwrite (src : list byte)
| OProduce (src : list byte) | OConsume (n : nat)
| ORead (n : nat) | OPeek (n : nat) | OPeekAt (k n : nat) | OSkip (n : nat)
| OReset | OUsed | OSpace | OIsEmpty | OIsFull.

Inductive cbres := RNum (z : Z) | RBytes (xs : list byte) | RBool (b : bool) | RUnit.

(** The bytes a reading operation delivered into a cleared buffer of [n] bytes. *)
Definition delivered (r : Z * list byte) : cbres := RBytes (take (Z.to_nat r.1) r.2).

(** [OPeekAt k n] peeks at position [tail + k], as [klog_read_circbuf] does; [OConsume]
    commits bytes read in place, as [virtio-console.c] does when they are sent. *)
Definition cb_exec (o : cbop) : M circbuf cbres :=
  match o with
  | OWrite src => r ← circbuf_write src (len src); mret (RNum r)
  | OOverwrite src => r ← circbuf_overwrite src (len src); mret (RNum r)
  | OProduce src => r ← produce src; mret (RNum r)
  | OConsume n => _ ← circbuf_readcommit (Z.of_nat n); mret RUnit
  | ORead n => r ← circbuf_read (replicate n x00) (Z.of_nat n); mret (delivered r)
  | OPeek n => r ← circbuf_peek (replicate n x00) (Z.of_nat n); mret (delivered r)
  | OPeekAt k n =>
      tail ← gets cb_tail;
      r ← circbuf_peekat (u64 (tail + Z.of_nat k)) (replicate n x00) (Z.of_nat n); mret (delivered r)
  | OSkip n => r ← circbuf_skip (Z.of_nat n); mret (RNum r)
  | OReset => _ ← circbuf_reset; mret RUnit
  | OUsed => r ← circbuf_used; mret (RNum r)
  | OSpace => r ← circbuf_space; mret (RNum r)
  | OIsEmpty => r ← circbuf_is_empty; mret (RBool r)
  | OIsFull => r ← circbuf_is_full; mret (RBool r)
  end.

(** What the operations ask for: no peek behind the end, no commit of bytes that are
    not there, no storing into a buffer without a size; and no overwriting of an empty
    buffer with more bytes than its size, which overruns it
    ([overwrite_empty_overruns]). *)
Definition cb_pre (size : Z) (o : cbop) (xs : list byte) : Prop :=
  match o with
  | OOverwrite src => 0 < size ∧ len src < 2 ^ 62 ∧ (len src ≤ size ∨ xs ≠ [])
  | OPeekAt k _ | OConsume k => (k ≤ length xs)%nat
  | OProduce _ => 0 < size
  | _ => True
  end.

(** The same on a queue of at most [size] bytes: the result and the content.  How many
    bytes a producer can store at once depends on where the buffer ends: one at least,
    if there is room. *)
Definition cb_spec (size : Z) (o : cbop) (xs : list byte) (r : cbres) (xs' : list byte) : Prop :=
  match o with
  | OWrite src => r = RNum (len src `min` room size xs) ∧ xs' = q_write size src xs
  | OOverwrite src => r = RNum (0 `max` (len xs + len src - size)) ∧ xs' = q_last size (xs ++ src)
  | OProduce src => ∃ m, 0 ≤ m ≤ len src `min` room size xs ∧ (m = 0 → src = [] ∨ len xs = size) ∧
      r = RNum m ∧ xs' = xs ++ take (Z.to_nat m) src
  | OConsume n => r = RUnit ∧ xs' = drop n xs
  | ORead n => r = RBytes (take n xs) ∧ xs' = drop n xs
  | OPeek n => r = RBytes (take n xs) ∧ xs' = xs
  | OPeekAt k n => r = RBytes (take n (drop k xs)) ∧ xs' = xs
  | OSkip n => r = RNum (Z.of_nat n `min` len xs) ∧ xs' = drop n xs
  | OReset => r = RUnit ∧ xs' = []
  | OUsed => r = RNum (len xs) ∧ xs' = xs
  | OSpace => r = RNum (room size xs) ∧ xs' = xs
  | OIsEmpty => r = RBool (bool_decide (xs = [])) ∧ xs' = xs
  | OIsFull => r = RBool (len xs =? size) ∧ xs' = xs
  end.

Fixpoint cb_exec_all (os : list cbop) : M circbuf (list cbres) :=
  match os with
  | [] => mret []
  | o :: os => r ← cb_exec o; rs ← cb_exec_all os; mret (r :: rs)
  end.

Fixpoint cb_spec_all (size : Z) (os : list cbop) (xs : list byte) (rs : list cbres) (xs' : list byte) : Prop :=
  match os, rs with
  | [], [] => xs' = xs
  | o :: os, r :: rs => ∃ xs1, cb_spec size o xs r xs1 ∧ cb_spec_all size os xs1 rs xs'
  | _, _ => False
  end.

(** Every operation of the sequence is asked for what it allows. *)
Fixpoint cb_pre_all (size : Z) (os : list cbop) (xs : list byte) : Prop :=
  match os with
  | [] => True
  | o :: os => cb_pre size o xs ∧ ∀ r xs1, cb_spec size o xs r xs1 → cb_pre_all size os xs1
  end.

Definition written (o : cbop) : Z :=
  match o with OWrite src | OOverwrite src | OProduce src => len src | _ => 0 end.

Definition total (os : list cbop) : Z := foldr (λ o n, written o + n) 0 os.

Lemma fits_of_wrap c H T xs n : Rep c H T xs → 0 ≤ n → H + n < 2 ^ 64 ∨ (cb_size c | 2 ^ 64) → fits c n.
Proof. intros [_ _ ? _ Hh _ _] Hn [Hw|Hw]; [right|by left]. by rewrite Hh, u64_small by lia. Qed.

Lemma delivered_out (out : list byte) n : delivered (len out, out ++ drop (length out) (replicate n x00)) = RBytes out.
Proof. unfold delivered. simpl. rewrite Nat2Z.id. by rewrite take_app_length. Qed.

Lemma bool_decide_len xs : (len xs =? 0) = bool_decide (xs = @nil byte).
Proof. apply eq_true_iff_eq. rewrite Z.eqb_eq, bool_decide_eq_true. destruct xs; simpl; [done|]. split; [lia|done]. Qed.

Lemma cb_exec_refines c H T xs o : Rep c H T xs →
  H + written o < 2 ^ 64 ∨ (cb_size c | 2 ^ 64) → cb_pre (cb_size c) o xs →
  wp (cb_exec o) c (λ r c', cb_size c' = cb_size c ∧
    ∃ xs' H' T', cb_spec (cb_size c) o xs r xs' ∧ Rep c' H' T' xs' ∧ H' ≤ H + written o).
Proof.
  intros HR Hw Hpre. pose proof HR as [Hs _ Hp Hl _ Ht _].
  assert (Hfit : fits c (written o)) by (eapply fits_of_wrap; [done| |done]; destruct o; simpl; lia).
  assert (Hsame : ∀ r, cb_spec (cb_size c) o xs r xs → cb_size c = cb_size c ∧
    ∃ xs' H' T', cb_spec (cb_size c) o xs r xs' ∧ Rep c H' T' xs' ∧ H' ≤ H + written o).
  { intros r Hr. split; [done|]. exists xs, H, T. split_and!; [done|done|destruct o; simpl; lia]. }
  destruct o as [src|src|src|n|n|n|k n|n| | | | |]; simpl in *; apply wp_bind.
  - eapply wp_mono; [apply (write_run c H T xs src); (done || lia)|]. intros _ c' (-> & HR' & ?).
    apply wp_ret. split; [done|]. exists (q_write (cb_size c) src xs), (H + len src `min` room (cb_size c) xs), T.
    split_and!; [done|done| |unfold room in *; lia]. unfold q_write. rewrite (take_min (Z.to_nat (room _ _))). unfold room in *.
    by replace (Z.to_nat (cb_size c - len xs) `min` length src)%nat with
      (Z.to_nat (len src `min` (cb_size c - len xs))) by lia.
  - destruct Hpre as (Hc1 & Hc2 & Hc3). eapply wp_mono; [apply (overwrite_run c H T xs src); (done || lia)|].
    intros _ c' (-> & HR' & ?). apply wp_ret. split; [done|]. rewrite Nat2Z.id, firstn_all in HR'.
    eexists _, _, _. split_and!; [done|done|exact HR'|lia].
  - eapply wp_mono; [by apply (produce_run c H T xs src)|]. intros m c' (Hm & Hz & HR' & ?). apply wp_ret. split; [done|].
    eexists _, _, _. split_and!; [exists m; split_and!; (done || lia)|exact HR'|lia].
  - apply wp_modify, wp_ret. split; [done|]. eexists _, _, _. split_and!; [done|done| |].
    + rewrite <- (Nat2Z.id n) at 2. apply (rep_skip c H T xs (Z.of_nat n)); (done || lia).
    + lia.
  - eapply wp_mono; [apply (read_run c H T xs); rewrite ?length_replicate; (done || lia)|].
    intros _ c' (-> & HR' & ?). apply wp_ret. rewrite delivered_out. rewrite Nat2Z.id in *. split; [done|].
    eexists _, _, _. split_and!; [done|done|exact HR'|lia].
  - unfold circbuf_peek. apply wp_bind, wp_gets. rewrite Ht. replace T with (T + 0) by lia.
    eapply wp_mono; [apply (peekat_run c H T xs 0); rewrite ?length_replicate; (done || lia)|].
    intros _ c' (-> & ->). apply wp_ret. rewrite delivered_out. rewrite Nat2Z.id, drop_0. by apply Hsame.
  - apply wp_gets, wp_bind. rewrite Ht, u64_add.
    eapply wp_mono; [apply (peekat_run c H T xs (Z.of_nat k)); rewrite ?length_replicate; (done || lia)|].
    intros _ c' (-> & ->). apply wp_ret. rewrite delivered_out. rewrite !Nat2Z.id. by apply Hsame.
  - eapply wp_mono; [apply (skip_run c H T xs); (done || lia)|].
    intros _ c' (-> & HR' & ? & _). apply wp_ret. rewrite Nat2Z.id in *. split; [done|].
    eexists _, _, _. split_and!; [done|done|exact HR'|lia].
  - apply wp_modify, wp_ret. split; [done|]. exists [], 0, 0. split_and!; [done|done| |lia].
    destruct HR as [? Hb ? ? ? ? ?]. split; simpl; try done; try lia. intros Hpos.
    destruct (Hb Hpos) as (b & ? & ? & _). exists b. split_and!; [done..|lia].
  - eapply wp_used; [done|]. by apply wp_ret, Hsame.
  - eapply wp_space; [done|]. by apply wp_ret, Hsame.
  - apply wp_bind. eapply wp_used; [done|]. apply wp_ret, wp_ret. rewrite bool_decide_len. by apply Hsame.
  - apply wp_bind. eapply wp_space; [done|]. apply wp_ret, wp_ret, Hsame. split; [|done].
    f_equal. unfold room. apply eq_true_iff_eq. rewrite !Z.eqb_eq. lia.
Qed.

Lemma total_nonneg os : 0 ≤ total os.
Proof. induction os as [|[] os IH]; simpl in *; lia. Qed.

(** C16: a circular buffer is a bounded queue of bytes: for any sequence of writes,
    overwrites, reads, peeks, skips, resets, queries, stores at the write pointer with
    their commit and commits of bytes read, on a control block that holds [xs], no
    operation copies outside a buffer or faults, each returns what it returns on the
    queue, and the control block afterwards holds the queue's content.  Two conditions:
    the size divides 2^64, or fewer than 2^64 bytes pass through the buffer; and what
    [cb_pre] asks for, in particular that an empty buffer is not overwritten with more
    bytes than its size. *)
Theorem circbuf_refines_queue os : ∀ c xs, holds c xs →
  (cb_size c | 2 ^ 64) ∨ cb_head c + total os < 2 ^ 64 →
  cb_pre_all (cb_size c) os xs →
  wp (cb_exec_all os) c (λ rs c', cb_size c' = cb_size c ∧ ∃ xs', cb_spec_all (cb_size c) os xs rs xs' ∧ holds c' xs').
Proof.
  intros c xs (H & T & HR) Hf. pose proof (total_nonneg os) as Hn.
  assert (Hw : H + total os < 2 ^ 64 ∨ (cb_size c | 2 ^ 64)) by (eapply fits_wrap; done).
  clear Hf Hn. revert c H T xs HR Hw.
  induction os as [|o os IH]; intros c H T xs HR Hw Hpre; simpl in *.
  { apply wp_ret. split; [done|]. exists xs. split; [done|]. by exists H, T. }
  destruct Hpre as [Hpre Hall].
  pose proof (total_nonneg os). apply wp_bind. eapply wp_mono; [eapply cb_exec_refines; [done| |done]|].
  { destruct Hw as [?|?]; [left; lia|by right]. }
  intros r c1 (Es & xs1 & H1 & T1 & Hsp & HR1 & Hle). rewrite <- Es in Hw, Hall, Hsp |- *. apply wp_bind.
  eapply wp_mono; [eapply (IH c1 H1 T1 xs1); [done| |by eapply Hall]|].
  { destruct Hw as [?|?]; [left; lia|by right]. }
  intros rs c2 (Es2 & xs' & Hrest & Hh). apply wp_ret. split; [done|]. exists xs'. split; [|done]. by exists xs1.
Qed.

(** A buffer of four bytes with [x41; x42] in it, after some traffic. *)
Definition demo_buf : circbuf := Circbuf (Some [x42; x00; x00; x41]) 4 5 3 false.

Lemma demo_holds : holds demo_buf [x41; x42].
Proof.
  exists 5, 3. split; simpl; try lia; try reflexivity.
  intros _. exists [x42; x00; x00; x41]. split_and!; [done|simpl; lia|]. intros i Hi.
  assert (i = 0 ∨ i = 1) as [-> | ->] by lia; reflexivity.
Qed.

Definition demo_ops : list cbop :=
  [OWrite [x43; x44; x45]; ORead 3; OOverwrite [x61; x62; x63; x64; x65]; OConsume 1; OPeek 9; OProduce [x66; x67]].

Lemma circbuf_refines_queue_witness :
  ∃ rs c' xs', cb_exec_all demo_ops demo_buf = Some (rs, c') ∧ cb_spec_all 4 demo_ops [x41; x42] rs xs' ∧ holds c' xs' ∧
    rs = [RNum 2; RBytes [x41; x42; x43]; RNum 2; RUnit; RBytes [x63; x64; x65]; RNum 1].
Proof.
  assert (Hwp := circbuf_refines_queue demo_ops demo_buf [x41; x42] demo_holds).
  unfold wp in Hwp. destruct (cb_exec_all demo_ops demo_buf) as [[rs c']|] eqn:E; [|exfalso; vm_compute in E; discriminate].
  destruct Hwp as (_ & xs' & Hsp & Hh).
  - left. exists (2 ^ 62). vm_compute. reflexivity.
  - simpl. split; [exact I|]. intros ? ? [_ ->]. split; [exact I|]. intros ? ? [_ ->].
    split; [split_and!; [lia|simpl; lia|right; discriminate]|]. intros ? ? [_ ->]. split; [simpl; lia|].
    intros ? ? [_ ->]. split; [exact I|]. intros ? ? [_ ->]. split; [lia|]. intros ? ? _. exact I.
  - exists rs, c', xs'. split; [reflexivity|]. split; [exact Hsp|]. split; [exact Hh|].
    vm_compute in E. injection E as <- <-. reflexivity.
Defined.

(** [circbuf_overwrite] on an empty buffer with more bytes than the buffer
    has counts the bytes it dropped as present: the buffer then claims more bytes
    than its size, and reading them copies from behind the end of the buffer. *)
Theorem overwrite_empty_overruns :
  ∃ c', circbuf_overwrite [x61; x62; x63; x64; x65] 5 (Circbuf (Some [x00; x00]) 2 0 0 false) = Some (0, c') ∧
    circbuf_used c' = Some (5, c') ∧ cb_size c' = 2 ∧
    circbuf_read (replicate 5 x00) 5 c' = None.
Proof. eexists. split_and!; [vm_compute; reflexivity..]. Qed.

(** ** Initialisation and resizing *)

(** [circbuf_resize] on a buffer it owns: the same size changes nothing, a
    failed allocation changes nothing and returns [-ENOMEM], and otherwise the
    buffer has the new size and keeps the most recent bytes that fit. *)
Theorem circbuf_resize_correct c xs bytes mem :
  holds c xs → cb_external c = false → 0 ≤ bytes < 2 ^ 63 → (∀ tmp, mem = Some tmp → bytes ≤ len tmp) →
  wp (circbuf_resize bytes mem) c (λ r c',
    if bytes =? cb_size c then r = 0 ∧ c' = c
    else if negb (bytes =? 0) && bool_decide (mem = None) then r = - ENOMEM ∧ c' = c
    else r = 0 ∧ cb_size c' = bytes ∧ holds c' (q_last bytes xs)).
Proof.
  intros (H & T & HR) Hext Hb Hmem. pose proof HR as [Hs _ Hp Hl _ _ _]. unfold circbuf_resize.
  apply wp_bind, wp_gets, wp_bind. change (id c) with c. apply wp_assert; [by rewrite Hext|].
  destruct (Z.eqb_spec bytes (cb_size c)); [by apply wp_ret|].
  destruct (Z.eqb_spec bytes 0) as [->|Hnz]; cbn [negb andb].
  { apply wp_bind, wp_modify, wp_ret. split_and!; [done..|]. exists 0, 0. unfold q_last. rewrite drop_ge by lia.
    split; simpl; try done; lia. }
  destruct mem as [tmp|]; cbn [bool_decide]; [|by apply wp_ret]. specialize (Hmem tmp eq_refl).
  rewrite bool_decide_false by done. apply wp_bind. eapply wp_used; [done|]. apply wp_bind.
  set (len' := if bytes <? len xs then bytes else len xs).
  assert (Hlen' : len' = bytes `min` len xs) by (unfold len'; destruct (Z.ltb_spec bytes (len xs)); lia).
  eapply (wp_mono _ _ (λ _ c1, ∃ H1 T1, Rep c1 H1 T1 (q_last bytes xs))).
  { apply wp_when.
    - intros Hlt%Z.ltb_lt. rewrite u64_small by lia. apply wp_bind.
      eapply wp_mono; [apply (skip_run c H T xs); (done || lia)|]. intros r c1 (_ & HR1 & _). apply wp_ret.
      exists H, (T + r). unfold q_last. by replace (length xs - Z.to_nat bytes)%nat with (Z.to_nat (len xs - bytes)) by lia.
    - intros Hge%Z.ltb_ge. exists H, T. unfold q_last. by replace (length xs - Z.to_nat bytes)%nat with 0%nat by lia. }
  intros _ c1 (H1 & T1 & HR1). pose proof (length_q_last bytes xs ltac:(lia)) as Hq.
  apply wp_bind. eapply wp_mono; [apply (read_run c1 H1 T1 (q_last bytes xs)); (done || lia)|].
  intros r c2 (-> & _ & _). apply wp_bind, wp_modify, wp_ret. split_and!; [done..|].
  rewrite take_ge by lia. cbn [snd]. set (ys := q_last bytes xs) in *. exists len', 0.
  split; simpl; try lia.
  - intros _. eexists. split_and!; [done| |].
    + rewrite length_app, length_drop. lia.
    + intros i Hi. unfold cell. rewrite Z.mod_small, lookup_app_l by lia. done.
  - by rewrite u64_small by lia.
  - done.
Qed.

Lemma circbuf_resize_correct_witness :
  wp (circbuf_resize 1 (Some [x00])) demo_buf (λ r c', r = 0 ∧ cb_size c' = 1 ∧ holds c' [x42]).
Proof.
  apply (circbuf_resize_correct demo_buf [x41; x42] 1 (Some [x00])); [exact demo_holds|reflexivity|lia|].
  intros tmp [= <-]. simpl. lia.
Defined.

(** ** The transmit blocks *)

(** The bytes of the blocks [char_prepare_xfer] hands to the device. *)
Definition sent (b : list byte) (blocks : option (Z * Z * option (Z * Z))) : list byte :=
  match blocks with
  | None => []
  | Some (off, l, rest) =>
      take (Z.to_nat l) (drop (Z.to_nat off) b) ++
      match rest with Some (off2, l2) => take (Z.to_nat l2) (drop (Z.to_nat off2) b) | None => [] end
  end.

Lemma two_blocks c H T xs b m : Rep c H T xs → cb_base c = Some b → 0 < cb_size c →
  0 ≤ m ≤ len xs → T mod cb_size c + m ≤ cb_size c →
  (m < len xs → T mod cb_size c + m = cb_size c ∨ T mod cb_size c + m = 0) →
  take (Z.to_nat m) (drop (Z.to_nat (T mod cb_size c)) b) ++ take (Z.to_nat (len xs - m)) b = xs.
Proof.
  intros HR Eb Hpos Hm Hs Hlt. pose proof HR as [? Hb Hp Hl _ _ _].
  destruct (Hb Hpos) as (b' & Eb' & Hbl & Hcell). simplify_eq. set (s := cb_size c) in *.
  pose proof (Z.mod_pos_bound T s ltac:(lia)) as HT. apply list_eq. intros i.
  destruct (decide (Z.of_nat i < len xs)) as [Hi|Hi].
  2:{ rewrite (proj2 (lookup_ge_None xs i)) by lia. apply lookup_ge_None.
      rewrite length_app, !length_take, length_drop. lia. }
  rewrite <- (Nat2Z.id i), <- Hcell by lia. unfold cell. rewrite (ring_mod T (T + _)) by lia.
  assert (Hl1 : length (take (Z.to_nat m) (drop (Z.to_nat (T mod s)) b)) = Z.to_nat m)
    by (rewrite length_take, length_drop; lia).
  destruct (decide (Z.of_nat i < m)).
  - rewrite lookup_app_l, lookup_take_lt, lookup_drop by lia.
    rewrite (proj2 (Z.ltb_lt _ _)) by lia. f_equal. lia.
  - rewrite lookup_app_r, Hl1, lookup_take_lt by lia.
    specialize (Hlt ltac:(lia)). set (pos := T mod s) in *. clearbody pos.
    destruct (Z.ltb_spec (pos + (T + Z.of_nat i - T)) s); f_equal; lia.
Qed.

(** The blocks [char_prepare_xfer] hands to the device hold exactly the bytes of
    the transmit buffer, in order, as long as the buffer is not full or its first
    byte is at the start of the buffer. *)
Theorem prepare_xfer_correct c b xs :
  holds c xs → cb_base c = Some b → 0 < cb_size c → len xs < cb_size c ∨ cb_tail c mod cb_size c = 0 →
  wp char_prepare_xfer c (λ r c', c' = c ∧ sent b r = xs).
Proof.
  intros (H & T & HR) Eb Hpos Hnf. pose proof HR as [Hs Hb Hp Hl Hh Ht _].
  destruct (Hb Hpos) as (b' & Eb' & Hbl & Hcell). simplify_eq. unfold char_prepare_xfer.
  apply wp_bind. eapply wp_used; [done|]. destruct (Z.eqb_spec (len xs) 0).
  { apply wp_ret. split; [done|]. simpl. symmetry. apply length_zero_iff_nil. lia. }
  unfold circbuf_get_readptr. apply wp_bind, wp_bind, wp_gets. change (id c) with c.
  apply wp_bind, wp_assert; [by rewrite (proj2 (Z.eqb_neq _ _)) by lia|].
  rewrite Hh, Ht in *. rewrite !(rep_off c H T xs) in * by (done || lia). apply wp_ret.
  set (s := cb_size c) in *. pose proof (Z.mod_pos_bound T s ltac:(lia)) as HT.
  pose proof (Z.mod_pos_bound H s ltac:(lia)) as HH. set (l1 := if H mod s <? _ then _ else _).
  set (m := if len xs <? l1 then len xs else l1).
  assert (Hm : 0 ≤ m ≤ len xs ∧ T mod s + m ≤ s ∧ (m < len xs → T mod s + m = s ∨ T mod s + m = 0)).
  { assert (Hmod : H mod s = if T mod s + len xs <? s then T mod s + len xs else T mod s + len xs - s).
    { destruct Hnf as [Hnf|Hnf].
      - rewrite (ring_mod T) by lia. by replace (H - T) with (len xs) by lia.
      - destruct (decide (len xs < s)); [rewrite (ring_mod T) by lia; by replace (H - T) with (len xs) by lia|].
        assert (len xs = s) as -> by lia. replace H with (T + 1 * s) by lia. rewrite Z.mod_add by lia.
        rewrite Hnf. destruct (Z.ltb_spec (0 + s) s); lia. }
    unfold m, l1. rewrite Hmod. destruct (Z.ltb_spec (T mod s + len xs) s);
      match goal with |- context [?a <? T mod s] => destruct (Z.ltb_spec a (T mod s)) end;
      match goal with |- context [len xs <? ?a] => destruct (Z.ltb_spec (len xs) a) end; lia. }
  clearbody m. apply wp_ret. split; [done|]. rewrite u64_small by lia. simpl.
  pose proof (two_blocks c H T xs b m HR Eb Hpos) as Htb. fold s in Htb.
  etrans; [|apply Htb; apply Hm]. by destruct (Z.eqb_spec (len xs - m) 0) as [->|_].
Qed.

Lemma prepare_xfer_correct_witness :
  wp char_prepare_xfer demo_buf (λ r c', c' = demo_buf ∧ sent [x42; x00; x00; x41] r = [x41; x42]).
Proof.
  apply (prepare_xfer_correct demo_buf [x42; x00; x00; x41] [x41; x42]);
    [exact demo_holds|reflexivity|simpl; lia|left; simpl; lia].
Defined.

(** On a full buffer whose first byte is not at the start,
    [circbuf_get_readptr] reports no readable byte, and [char_prepare_xfer] sends
    the buffer from its start: the bytes go out in the wrong order. *)
Theorem prepare_xfer_full_reorders :
  ∃ c, holds c [x41; x42; x43; x44] ∧ cb_base c = Some [x43; x44; x41; x42] ∧
    circbuf_get_readptr c = Some ((2, 0), c) ∧
    ∃ r, char_prepare_xfer c = Some (r, c) ∧ sent [x43; x44; x41; x42] r = [x43; x44; x41; x42].
Proof.
  exists (Circbuf (Some [x43; x44; x41; x42]) 4 6 2 false). split_and!; [|done|vm_compute; reflexivity|].
  - exists 6, 2. split; simpl; try lia; try reflexivity.
    intros _. exists [x43; x44; x41; x42]. split_and!; [done|simpl; lia|]. intros i Hi.
    assert (i = 0 ∨ i = 1 ∨ i = 2 ∨ i = 3) as [-> |[-> |[-> | ->]]] by lia; reflexivity.
  - eexists. split; vm_compute; reflexivity.
Qed.

(** ** A fresh buffer *)

(** An initialised buffer holds nothing and has the requested size. *)
Lemma circbuf_init_run c base bytes mem : 0 ≤ bytes < 2 ^ 63 →
  (∀ b, base = Some b → 0 < bytes ≤ len b) → (∀ b, mem = Some b → bytes ≤ len b) →
  wp (circbuf_init base bytes mem) c (λ r c',
    if bool_decide (base = None) && negb (bytes =? 0) && bool_decide (mem = None) then r = - ENOMEM
    else r = 0 ∧ cb_size c' = bytes ∧ holds c' [] ∧ cb_external c' = bool_decide (base ≠ None)).
Proof.
  intros Hb Hbase Hmem. unfold circbuf_init. apply wp_bind, wp_assert.
  { destruct base as [b|]; [|done]. destruct (Hbase b eq_refl). rewrite (proj2 (Z.eqb_neq _ _)) by lia. apply orb_true_r. }
  apply wp_bind, wp_modify. set (fresh := bool_decide (base = None) && negb (bytes =? 0)).
  destruct (fresh && bool_decide (mem = None)) eqn:Ef; [by apply wp_ret|].
  apply wp_bind, wp_modify, wp_ret. split_and!; try done. exists 0, 0. split; simpl; try lia; try done.
  intros Hpos. destruct base as [b|]; simpl in fresh.
  - exists b. unfold fresh. destruct (Hbase b eq_refl). split_and!; [done|lia|lia].
  - unfold fresh in *. rewrite (proj2 (Z.eqb_neq _ _)) in * by lia. simpl in *.
    destruct mem as [m|]; [|done]. exists m. split_and!; [done|by apply Hmem|lia].
Qed.
