(* ===== verification/Page.v ===== *)
(** * The physical page allocator

    [kernel/memory/page.c], [struct page] of [include/page.h] and
    [memory_is_zone] of [include/ttosMM.h], in the 64-bit configuration with pages
    of 4 KiB.

    The descriptors are an array indexed by page frame number; a descriptor that
    [kernel_access_check] finds unmapped is absent from [pages], and
    [pfn_to_page] returns null for it.  A pointer to a descriptor is the frame
    number it describes ([page_to_pfn]).  Every entry point holds [page_lock], so
    it is one step.  A shift by the width of its operand or more, the leading zeros
    of 0 and the overflow of a reference count are faults. *)

From S2P Require Import Prelude.
Import Width.
Local Open Scope Z_scope.

Definition PAGE_SIZE_SHIFT : Z := 12.
Definition ARCH_ADDRESS_WIDTH_BITS : Z := 64.
Definition PAGE_LIST_SIZE : Z := ARCH_ADDRESS_WIDTH_BITS - PAGE_SIZE_SHIFT.

Definition ZONE_NORMAL : Z := 0.
Definition ZONE_DMA : Z := 1.
Definition ZONE_HIGH : Z := 2.
Definition ZONE_DMA32 : Z := 3.
Definition ZONE_ANYWHERE : Z := 4.

Record page := Page {
  pg_next : option Z;
  pg_pre : option Z;
  size_bits : Z;
  ref_cnt : Z;
}.

Definition set_pg_next (v : option Z) (p : page) : page := Page v (pg_pre p) (size_bits p) (ref_cnt p).
Definition set_pg_pre (v : option Z) (p : page) : page := Page (pg_next p) v (size_bits p) (ref_cnt p).
Definition set_size_bits (v : Z) (p : page) : page := Page (pg_next p) (pg_pre p) v (ref_cnt p).
Definition set_ref_cnt (v : Z) (p : page) : page := Page (pg_next p) (pg_pre p) (size_bits p) v.

(** The array [page_list] has the indices 0 to 51. *)
Record pstate := PState {
  pages : gmap Z page;
  page_list : gmap Z (option Z);
  page_nr : Z;
}.

Definition set_pages (v : gmap Z page) (s : pstate) : pstate := PState v (page_list s) (page_nr s).
Definition set_page_list (v : gmap Z (option Z)) (s : pstate) : pstate := PState (pages s) v (page_nr s).
Definition set_page_nr (v : Z) (s : pstate) : pstate := PState (pages s) (page_list s) v.

(** The bounds of the linear map, fixed at boot: [min_low_pfn], [max_low_pfn] and
    [zone_normal_pvoffset ()]. *)
Record zone_cfg := ZoneCfg {
  min_low_pfn : Z;
  max_low_pfn : Z;
  zone_normal_pvoffset : Z;
}.

(** ** Access to the descriptors *)

Definition get_page (p : Z) : M pstate page := λ s, pg ← pages s !! p; Some (pg, s).
Definition upd_page (p : Z) (f : page → page) : M pstate unit :=
  λ s, pg ← pages s !! p; Some (tt, set_pages (<[p := f pg]> (pages s)) s).
Definition get_head (l : Z) : M pstate (option Z) := λ s, h ← page_list s !! l; Some (h, s).
Definition set_head (l : Z) (h : option Z) : M pstate unit :=
  λ s, _ ← page_list s !! l; Some (tt, set_page_list (<[l := h]> (page_list s)) s).

Definition pfn_to_page (pfn : Z) : M pstate (option Z) :=
  gets (λ s, _ ← pages s !! pfn; Some pfn).

Definition PFN_UP (addr : Z) : Z := Z.shiftr (u64 (addr + 2 ^ PAGE_SIZE_SHIFT - 1)) PAGE_SIZE_SHIFT.
Definition PFN_DOWN (addr : Z) : Z := Z.shiftr addr PAGE_SIZE_SHIFT.
Definition addr_to_page (addr : Z) : M pstate (option Z) := pfn_to_page (PFN_DOWN addr).
Definition page_to_addr (p : Z) : Z := u64 (Z.shiftl p PAGE_SIZE_SHIFT).

(** ** Orders *)

Definition page_bits (size : Z) : option Z :=
  if size =? 0 then None
  else
    let bit := Z.log2 size in
    let bit := if negb (Z.lxor size (Z.shiftl 1 bit) =? 0) then bit + 1 else bit in
    let bit := bit - PAGE_SIZE_SHIFT in
    Some (if bit <? 0 then 0 else bit).

Definition not64 (x : Z) : Z := 2 ^ 64 - 1 - x.

(** [pfn & ~((1ULL << size_bits) - 1)]. *)
Definition group_head (pfn size_bits : Z) : M pstate Z :=
  _ ← massert (size_bits <? 64);
  mret (Z.land pfn (not64 (Z.shiftl 1 size_bits - 1))).

Definition buddy_get (p size_bits : Z) : M pstate (option Z) :=
  _ ← massert (size_bits + PAGE_SIZE_SHIFT <? 64);
  addr_to_page (Z.lxor (page_to_addr p) (Z.shiftl 1 (size_bits + PAGE_SIZE_SHIFT))).

(** ** The free lists *)

Definition page_remove (p l : Z) : M pstate unit :=
  pg ← get_page p;
  _ ← match pg_pre pg with
      | Some q => upd_page q (set_pg_next (pg_next pg))
      | None => set_head l (pg_next pg)
      end;
  pg ← get_page p;
  _ ← match pg_next pg with
      | Some n => upd_page n (set_pg_pre (pg_pre pg))
      | None => mret tt
      end;
  upd_page p (set_size_bits ARCH_ADDRESS_WIDTH_BITS).

Definition page_insert (p l : Z) : M pstate unit :=
  h ← get_head l;
  _ ← upd_page p (set_pg_next h);
  _ ← match h with
      | Some n => upd_page n (set_pg_pre (Some p))
      | None => mret tt
      end;
  _ ← upd_page p (set_pg_pre None);
  _ ← set_head l (Some p);
  upd_page p (set_size_bits l).

(** ** Reference counts *)

Definition _pages_ref_inc (p size_bits : Z) : M pstate unit :=
  pfn ← group_head p size_bits;
  h ← pfn_to_page pfn;
  match h with
  | None => mret tt
  | Some h =>
      pg ← get_page h;
      _ ← massert (ref_cnt pg <? 2 ^ 31 - 1);
      upd_page h (set_ref_cnt (ref_cnt pg + 1))
  end.

Definition _pages_ref_get (p size_bits : Z) : M pstate Z :=
  pfn ← group_head p size_bits;
  h ← pfn_to_page pfn;
  match h with
  | None => mret 0
  | Some h => pg ← get_page h; mret (ref_cnt pg)
  end.

Definition page_ref_get (addr size_bits : Z) : M pstate Z :=
  p ← addr_to_page addr;
  match p with None => mret 0 | Some p => _pages_ref_get p size_bits end.

Definition page_ref_inc (addr size_bits : Z) : M pstate unit :=
  p ← addr_to_page addr;
  match p with None => mret tt | Some p => _pages_ref_inc p size_bits end.

Definition totalram_pages_add (count : Z) : M pstate unit :=
  nr ← gets page_nr;
  _ ← massert ((- 2 ^ 31 <=? nr + count) && (nr + count <? 2 ^ 31));
  modify (set_page_nr (nr + count)).

Section Zones.
Context (zc : zone_cfg).

Definition page_address (addr : Z) : Z :=
  if (addr <=? u64 (Z.shiftl (max_low_pfn zc) PAGE_SIZE_SHIFT)) &&
     (u64 (Z.shiftl (min_low_pfn zc) PAGE_SIZE_SHIFT) <=? addr)
  then u64 (addr - zone_normal_pvoffset zc) else 0.

Definition memory_is_zone (addr zone : Z) : bool :=
  if zone =? ZONE_NORMAL then negb (page_address addr =? 0)
  else if zone =? ZONE_DMA then true
  else if zone =? ZONE_HIGH then page_address addr =? 0
  else if zone =? ZONE_DMA32 then
    if 2 ^ 32 - 1 <? addr then false else negb (page_address addr =? 0)
  else if zone =? ZONE_ANYWHERE then true
  else false.

Definition page_is_zone (p zone : Z) : bool := memory_is_zone (page_to_addr p) zone.

(** ** Freeing *)

(** The loop that joins a block with its buddy as long as that is free. *)
Fixpoint merge_up (fuel : nat) (p level : Z) : M pstate (Z * Z) :=
  match fuel with
  | O => fault
  | S fuel =>
      if level <? PAGE_LIST_SIZE then
        b ← buddy_get p level;
        match b with
        | None => mret (p, level)
        | Some buddy =>
            bg ← get_page buddy;
            if (size_bits bg =? level) &&
               Bool.eqb (page_is_zone buddy ZONE_NORMAL) (page_is_zone p ZONE_NORMAL) then
              _ ← page_remove buddy level;
              merge_up fuel (if p <? buddy then p else buddy) (level + 1)
            else mret (p, level)
        end
      else mret (p, level)
  end.

Definition _pages_free (p size_bits : Z) : M pstate Z :=
  pfn ← group_head p size_bits;
  h ← pfn_to_page pfn;
  match h with
  | None => mret 0
  | Some p =>
      pg ← get_page p;
      _ ← massert (0 <? ref_cnt pg);
      _ ← massert (Page.size_bits pg =? ARCH_ADDRESS_WIDTH_BITS);
      _ ← upd_page p (set_ref_cnt (ref_cnt pg - 1));
      if negb (ref_cnt pg - 1 =? 0) then mret 0
      else
        '(p, level) ← merge_up (S (Z.to_nat PAGE_LIST_SIZE)) p size_bits;
        _ ← page_insert p level;
        mret 1
  end.

Definition pages_free (addr size_bits : Z) : M pstate Z :=
  p ← addr_to_page addr;
  match p with None => mret 0 | Some p => _pages_free p size_bits end.

Definition free_page (p : Z) : M pstate unit := _ ← pages_free (page_to_addr p) 0; mret tt.

(** ** Allocation *)

(** The first block of the list in the zone. *)
Fixpoint find_zone (fuel : nat) (p : option Z) (zone : Z) : M pstate (option Z) :=
  match fuel with
  | O => fault
  | S fuel =>
      match p with
      | None => mret None
      | Some q =>
          if page_is_zone q zone then mret (Some q)
          else pg ← get_page q; find_zone fuel (pg_next pg) zone
      end
  end.

(** A list is never longer than the array of descriptors. *)
Definition find_in (l zone : Z) : M pstate (option Z) :=
  h ← get_head l;
  fuel ← gets (λ s, S (size (pages s)));
  find_zone fuel h zone.

(** The levels above, up to the last one; [n] are left. *)
Fixpoint find_above (n : nat) (level zone : Z) : M pstate (option (Z * Z)) :=
  match n with
  | O => mret None
  | S n =>
      p ← find_in level zone;
      match p with
      | Some p => mret (Some (p, level))
      | None => find_above n (level + 1) zone
      end
  end.

(** The block is cut in half until it has the size asked for; the lower half is
    freed each time. *)
Fixpoint split_down (n : nat) (p level : Z) : M pstate Z :=
  match n with
  | O => mret p
  | S n =>
      _ ← page_insert p (level - 1);
      b ← buddy_get p (level - 1);
      b ← lift b;
      split_down n b (level - 1)
  end.

Definition take_page (p : Z) : M pstate unit :=
  _ ← upd_page p (set_size_bits ARCH_ADDRESS_WIDTH_BITS);
  upd_page p (set_ref_cnt 1).

Definition _pages_alloc (size_bits zone : Z) : M pstate (option Z) :=
  p ← find_in size_bits zone;
  match p with
  | Some p =>
      _ ← page_remove p size_bits;
      _ ← take_page p;
      mret (Some p)
  | None =>
      r ← find_above (Z.to_nat (PAGE_LIST_SIZE - (size_bits + 1))) (size_bits + 1) zone;
      match r with
      | None => mret None
      | Some (p, level) =>
          _ ← page_remove p level;
          p ← split_down (Z.to_nat (level - size_bits)) p level;
          _ ← take_page p;
          mret (Some p)
      end
  end.

Definition pages_alloc (size_bits zone : Z) : M pstate Z :=
  p ← _pages_alloc size_bits zone;
  mret (match p with None => 0 | Some p => page_to_addr p end).

Definition alloc_page : M pstate (option Z) :=
  addr ← pages_alloc 0 ZONE_NORMAL;
  if negb (addr =? 0) then addr_to_page addr else mret None.

(** ** Boot *)

(** Blocks that cross the border of the linear map are halved.  The zone of a null
    descriptor is undefined. *)
Fixpoint set_page_free (order : nat) (start : Z) : M pstate unit :=
  _ ← massert (Z.of_nat order <? 31);
  let start_pfn := PFN_DOWN start in
  let end_pfn := u64 (start_pfn + Z.shiftl 1 (Z.of_nat order)) in
  p1 ← pfn_to_page start_pfn;
  p1 ← lift p1;
  p2 ← pfn_to_page (u64 (end_pfn - 1));
  p2 ← lift p2;
  if Bool.eqb (page_is_zone p1 ZONE_NORMAL) (page_is_zone p2 ZONE_NORMAL) then
    _ ← upd_page p1 (set_size_bits ARCH_ADDRESS_WIDTH_BITS);
    _ ← upd_page p1 (set_ref_cnt 1);
    _ ← _pages_free p1 (Z.of_nat order);
    mret tt
  else
    match order with
    | O => fault
    | S n =>
        _ ← set_page_free n start;
        set_page_free n (u64 (start + Z.shiftl 1 (Z.of_nat n + PAGE_SIZE_SHIFT)))
    end.

Fixpoint reserve_from (n : nat) (pfn : Z) : M pstate unit :=
  match n with
  | O => mret tt
  | S n =>
      p ← pfn_to_page pfn;
      _ ← match p with
          | Some p =>
              _ ← upd_page p (set_size_bits ARCH_ADDRESS_WIDTH_BITS);
              upd_page p (set_ref_cnt 1)
          | None => mret tt
          end;
      reserve_from n (pfn + 1)
  end.

Definition set_page_reserved (start end_ : Z) : M pstate unit :=
  reserve_from (Z.to_nat (PFN_DOWN end_ - PFN_DOWN start)) (PFN_DOWN start).

End Zones.

(** ** Statistics *)

Fixpoint count_list (fuel : nat) (p : option Z) (i total : Z) : M pstate Z :=
  match fuel with
  | O => fault
  | S fuel =>
      match p with
      | None => mret total
      | Some q => pg ← get_page q; count_list fuel (pg_next pg) i (u64 (total + Z.shiftl 1 i))
      end
  end.

Fixpoint count_lists (n : nat) (i total : Z) : M pstate Z :=
  match n with
  | O => mret total
  | S n =>
      h ← get_head i;
      fuel ← gets (λ s, S (size (pages s)));
      total ← count_list fuel h i total;
      count_lists n (i + 1) total
  end.

(** The pair [*total_nr], [*free_nr]. *)
Definition page_get_info : M pstate (Z * Z) :=
  free ← count_lists (Z.to_nat PAGE_LIST_SIZE) 0 0;
  nr ← gets page_nr;
  mret (u64 nr, free).
