(* ===== verification/PageGeo.v ===== *)
(** * The geometry of the page allocator

    A block of order [l] is [2 ^ l] frames that start at a multiple of [2 ^ l].
    Two blocks are nested or disjoint; a block and its buddy make up a block of the
    next order.  A {e geometry} is a family of pairwise disjoint blocks, each in one
    zone, no two of which are buddies of one zone.  Such a family is determined by
    the frames it covers, which is what makes freeing undo allocation. *)

From S2P Require Import Prelude Chain.
Local Open Scope Z_scope.

Definition in_block (l x q : Z) : Prop := x ≤ q < x + 2 ^ l.

Definition buddy (l x : Z) : Z := Z.lxor x (2 ^ l).

(** ** Dyadic blocks *)

Lemma pow2_pos l : 0 ≤ l → 0 < 2 ^ l.
Proof. intros. lia. Qed.

Lemma pow2_S l : 0 ≤ l → 2 ^ (l + 1) = 2 * 2 ^ l.
Proof. intros. rewrite Z.add_1_r, Z.pow_succ_r by done. done. Qed.

Lemma pow2_le l m : 0 ≤ l ≤ m → ∃ k, 0 < k ∧ 2 ^ m = k * 2 ^ l.
Proof.
  intros. exists (2 ^ (m - l)). split; [lia|]. rewrite <- Z.pow_add_r by lia. f_equal. lia.
Qed.

Lemma in_block_self l x : 0 ≤ l → in_block l x x.
Proof. unfold in_block. intros. pose proof (pow2_pos l ltac:(lia)). lia. Qed.

Lemma lxor_1 k : Z.lxor k 1 = if Z.even k then k + 1 else k - 1.
Proof.
  destruct (Z.even k) eqn:E.
  - apply Z.even_spec in E as [m ->]. symmetry. apply Z.add_nocarry_lxor.
    apply Z.bits_inj'. intros n Hn. rewrite Z.land_spec, Z.bits_0.
    destruct (decide (n = 0)) as [->|].
    + by rewrite Z.testbit_even_0.
    + change 1 with (2 ^ 0). rewrite (Z.pow2_bits_false 0 n) by lia. by rewrite andb_false_r.
  - assert (Z.odd k = true) as [m ->]%Z.odd_spec by (rewrite <- Z.negb_even, E; done).
    replace (2 * m + 1 - 1) with (2 * m) by lia.
    apply Z.bits_inj'. intros n Hn. rewrite Z.lxor_spec.
    destruct (decide (n = 0)) as [->|].
    + by rewrite Z.testbit_odd_0, Z.testbit_even_0.
    + change 1 with (2 ^ 0) at 2. rewrite (Z.pow2_bits_false 0 n), xorb_false_r by lia.
      replace n with (Z.succ (n - 1)) by lia.
      by rewrite Z.testbit_odd_succ, Z.testbit_even_succ by lia.
Qed.

Lemma buddy_mul l k :
  0 ≤ l → buddy l (2 ^ l * k) = 2 ^ l * (if Z.even k then k + 1 else k - 1).
Proof.
  intros. unfold buddy. rewrite <- lxor_1.
  rewrite !(Z.mul_comm (2 ^ l)), <- !Z.shiftl_mul_pow2 by done.
  rewrite Z.shiftl_lxor. f_equal. by rewrite Z.shiftl_mul_pow2, Z.mul_1_l.
Qed.

(** A block is the lower or the upper half of the block it makes up with its
    buddy. *)
Lemma buddy_cases l x :
  0 ≤ l → (2 ^ l | x) →
  ((2 ^ (l + 1) | x) ∧ buddy l x = x + 2 ^ l) ∨
  ((2 ^ (l + 1) | x - 2 ^ l) ∧ buddy l x = x - 2 ^ l).
Proof.
  intros Hl [k ->]. rewrite (Z.mul_comm k), buddy_mul, pow2_S by done.
  destruct (Z.even k) eqn:E.
  - apply Z.even_spec in E as [m ->]. left. split; [exists m; lia|lia].
  - assert (Z.odd k = true) as [m ->]%Z.odd_spec by (rewrite <- Z.negb_even, E; done).
    right. split; [exists m; lia|lia].
Qed.

Lemma buddy_lower l x : 0 ≤ l → (2 ^ (l + 1) | x) → buddy l x = x + 2 ^ l.
Proof.
  intros Hl Hd. pose proof (pow2_pos l Hl).
  destruct (buddy_cases l x Hl) as [[_ ?]|[[k2 Hk] _]]; [|done|].
  { destruct Hd as [k ->]. rewrite pow2_S by done. exists (k * 2). lia. }
  destruct Hd as [k ->]. rewrite pow2_S in Hk by done. exfalso.
  assert (2 ^ l * (2 * k - 1 - 2 * k2) = 0) as [?|?]%Z.mul_eq_0 by lia; lia.
Qed.

Lemma buddy_invol l x : buddy l (buddy l x) = x.
Proof. unfold buddy. by rewrite Z.lxor_assoc, Z.lxor_nilpotent, Z.lxor_0_r. Qed.

Lemma buddy_div l x : 0 ≤ l → (2 ^ l | x) → (2 ^ l | buddy l x).
Proof.
  intros Hl Hd. destruct (buddy_cases l x Hl Hd) as [[_ ->]|[_ ->]].
  - apply Z.divide_add_r; [done|apply Z.divide_refl].
  - apply Z.divide_sub_r; [done|apply Z.divide_refl].
Qed.

(** A block meets one of the same or a higher order only inside it. *)
Lemma nested l x m y q :
  0 ≤ l ≤ m → (2 ^ l | x) → (2 ^ m | y) → in_block l x q → in_block m y q →
  y ≤ x ∧ x + 2 ^ l ≤ y + 2 ^ m.
Proof.
  unfold in_block. intros Hlm [a ->] [b ->] Hx Hy.
  destruct (pow2_le l m Hlm) as (k & Hk & E). rewrite E in *. clear E.
  pose proof (pow2_pos l ltac:(lia)). rewrite Z.mul_assoc in *.
  assert (b * k < a + 1) by (apply (Z.mul_lt_mono_pos_r (2 ^ l)); lia).
  assert (a < b * k + k) by (apply (Z.mul_lt_mono_pos_r (2 ^ l)); lia).
  split.
  - apply Z.mul_le_mono_nonneg_r; lia.
  - assert ((a + 1) * 2 ^ l ≤ (b * k + k) * 2 ^ l) by (apply Z.mul_le_mono_nonneg_r; lia). lia.
Qed.

Lemma nested_in l x m y q :
  0 ≤ l ≤ m → (2 ^ l | x) → (2 ^ m | y) → in_block l x q → in_block m y q →
  ∀ r, in_block l x r → in_block m y r.
Proof. intros ????? r. edestruct (nested l x m y q); eauto. unfold in_block in *. lia. Qed.

(** Blocks of one order that meet are the same. *)
Lemma block_eq l x y q :
  0 ≤ l → (2 ^ l | x) → (2 ^ l | y) → in_block l x q → in_block l y q → x = y.
Proof.
  intros. destruct (nested l x l y q), (nested l y l x q); auto; try lia.
Qed.

(** A block whose lower end is not 0 does not cross a power of two. *)
Lemma block_below l x n :
  0 ≤ l → 0 ≤ n → 0 < x → (2 ^ l | x) → x < 2 ^ n → x + 2 ^ l ≤ 2 ^ n.
Proof.
  intros Hl Hn Hx [a ->] Hlt. pose proof (pow2_pos l Hl).
  destruct (decide (l ≤ n)).
  - destruct (pow2_le l n) as (k & ? & Hk); [lia|]. rewrite Hk in *.
    assert (a < k) by (apply (Z.mul_lt_mono_pos_r (2 ^ l)); lia).
    assert ((a + 1) * 2 ^ l ≤ k * 2 ^ l) by (apply Z.mul_le_mono_nonneg_r; lia). lia.
  - destruct (pow2_le n l) as (k & ? & Hk); [lia|]. rewrite Hk, Z.mul_assoc in *.
    pose proof (pow2_pos n Hn). exfalso.
    assert (0 < a * k) by (apply (Z.mul_lt_mono_pos_r (2 ^ n)); lia).
    assert (a * k < 1) by (apply (Z.mul_lt_mono_pos_r (2 ^ n)); lia). lia.
Qed.

(** ** Families of blocks *)

Definition covers (C : gmap Z (list Z)) (q : Z) : Prop := ∃ l x, x ∈ c_get l C ∧ in_block l x q.

Lemma elem_of_add_head (n l m y : Z) (C : gmap Z (list Z)) :
  y ∈ c_get m (c_add_head n l C) ↔ (m = l ∧ y = n) ∨ y ∈ c_get m C.
Proof.
  unfold c_add_head. rewrite c_get_set. case_decide as E.
  - subst. rewrite elem_of_cons. naive_solver.
  - naive_solver.
Qed.

Lemma covers_add (C : gmap Z (list Z)) n l q : covers (c_add_head n l C) q ↔ in_block l n q ∨ covers C q.
Proof. unfold covers. setoid_rewrite elem_of_add_head. naive_solver. Qed.

Lemma halves_cover l x q :
  0 ≤ l → in_block (l + 1) x q ↔ in_block l x q ∨ in_block l (x + 2 ^ l) q.
Proof. intros. unfold in_block. rewrite pow2_S by done. pose proof (pow2_pos l ltac:(lia)). lia. Qed.

Lemma join_cover l x q :
  0 ≤ l → (2 ^ l | x) →
  in_block (l + 1) (Z.min x (buddy l x)) q ↔ in_block l x q ∨ in_block l (buddy l x) q.
Proof.
  intros. rewrite halves_cover by done. pose proof (pow2_pos l ltac:(lia)).
  destruct (buddy_cases l x) as [[_ ->]|[_ ->]]; try done.
  - by rewrite Z.min_l by lia.
  - rewrite Z.min_r by lia. replace (x - 2 ^ l + 2 ^ l) with x by lia. tauto.
Qed.

Section Geometry.
Context (D : gset Z) (zn : Z → bool).
Implicit Types (C : gmap Z (list Z)).

Record block_ok (l x : Z) : Prop := BlockOk {
  b_lev : 0 ≤ l < 52;
  b_pos : 0 < x;
  b_end : x + 2 ^ l ≤ 2 ^ 52;
  b_div : (2 ^ l | x);
  b_map : ∀ q, in_block l x q → q ∈ D;
  b_zone : ∀ q, in_block l x q → zn q = zn x;
}.

Record Geo C : Prop := MkGeo {
  g_block : ∀ l x, x ∈ c_get l C → block_ok l x;
  g_disj : ∀ l x m y q, x ∈ c_get l C → y ∈ c_get m C →
    in_block l x q → in_block m y q → l = m ∧ x = y;
  g_coal : ∀ l x, x ∈ c_get l C → buddy l x ∈ c_get l C → zn (buddy l x) ≠ zn x;
}.

(** A block outside the family. *)
Record Hole C (l x : Z) : Prop := MkHole {
  h_ok : block_ok l x;
  h_free : ∀ q, in_block l x q → ¬ covers C q;
}.

Lemma hole_unlinked C l x m : Geo C → Hole C l x → x ∉ c_get m C.
Proof.
  intros HG HH Hin. apply (h_free _ _ _ HH x).
  - apply in_block_self, HH.
  - exists m, x. split; [done|]. apply in_block_self, (g_block _ HG _ _ Hin).
Qed.

Lemma hole_c_unlinked C l x : Geo C → Hole C l x → c_linked x C = false.
Proof. intros. apply c_linked_false. intros. by eapply hole_unlinked. Qed.

Lemma covers_delete C l x q :
  c_wf C → Geo C → x ∈ c_get l C →
  covers (c_delete x C) q ↔ covers C q ∧ ¬ in_block l x q.
Proof.
  intros Hwf HG Hx. unfold covers. setoid_rewrite elem_of_c_delete. split.
  - intros (m & y & [Hne Hy] & Hq). split; [by eauto|]. intros Hq'.
    destruct (g_disj _ HG m y l x q); auto.
  - intros [(m & y & Hy & Hq) Hn]. exists m, y. split_and!; try done.
    intros ->. rewrite (c_disj _ Hwf l m x) in Hn by done. done.
Qed.

Lemma geo_delete C x : Geo C → Geo (c_delete x C).
Proof.
  intros HG. split.
  - intros l y [_ ?]%elem_of_c_delete. by apply HG.
  - intros l y m z q [_ ?]%elem_of_c_delete [_ ?]%elem_of_c_delete. by apply HG.
  - intros l y [_ ?]%elem_of_c_delete [_ ?]%elem_of_c_delete. by apply HG.
Qed.

Lemma hole_delete C l x : c_wf C → Geo C → x ∈ c_get l C → Hole (c_delete x C) l x.
Proof.
  intros Hwf HG Hx. split; [by apply HG|].
  intros q Hq. rewrite covers_delete by done. naive_solver.
Qed.

Lemma geo_add C l x :
  Geo C → Hole C l x → (buddy l x ∈ c_get l C → zn (buddy l x) ≠ zn x) →
  Geo (c_add_head x l C).
Proof.
  intros HG HH Hb. split.
  - intros m y [[-> ->]|?]%elem_of_add_head; [apply HH|by apply HG].
  - intros m y k z q [[-> ->]|Hy]%elem_of_add_head [[-> ->]|Hz]%elem_of_add_head Hq1 Hq2; [done| | |].
    + destruct (h_free _ _ _ HH q Hq1). by exists k, z.
    + destruct (h_free _ _ _ HH q Hq2). by exists m, y.
    + by eapply HG.
  - intros m y [[-> ->]|Hy]%elem_of_add_head [[Hm Hz]|Hz]%elem_of_add_head.
    + exfalso. destruct (h_ok _ _ _ HH) as [? _ _ Hd _ _]. pose proof (pow2_pos l ltac:(lia)).
      destruct (buddy_cases l x) as [[_ E]|[_ E]]; [lia|done|lia|lia].
    + by apply Hb.
    + subst. rewrite buddy_invol in Hb. by apply not_eq_sym, Hb.
    + by apply HG.
Qed.

Lemma hole_add C l x m y :
  Hole C l x → (∀ q, in_block l x q → ¬ in_block m y q) → Hole (c_add_head y m C) l x.
Proof.
  intros HH Hd. split; [apply HH|]. intros q Hq. rewrite covers_add.
  intros [?|?]; [by apply (Hd q)|by apply (h_free _ _ _ HH q)].
Qed.

Lemma hole_mono C C' l x : (∀ q, covers C' q → covers C q) → Hole C l x → Hole C' l x.
Proof. intros Hc HH. split; [apply HH|]. intros q Hq Hq'. by apply (h_free _ _ _ HH q), Hc. Qed.

(** A hole and its buddy, of one zone, make up a hole; the ends stay below [2 ^ 52]
    because frame 0 is in no block. *)
Lemma hole_join C l x :
  Hole C l x → Hole C l (buddy l x) → zn (buddy l x) = zn x →
  Hole C (l + 1) (Z.min x (buddy l x)).
Proof.
  intros [[Hl Hx He Hd Hm Hz] Hf] [[_ Hx' He' _ Hm' Hz'] Hf'] Hzz.
  pose proof (pow2_pos l ltac:(lia)). assert (HS := pow2_S l ltac:(lia)).
  assert (Hin : ∀ q, in_block (l + 1) (Z.min x (buddy l x)) q →
    in_block l x q ∨ in_block l (buddy l x) q).
  { unfold in_block. rewrite HS. destruct (buddy_cases l x) as [[_ E]|[_ E]]; try done; lia. }
  split; [split|].
  - split; [lia|]. destruct (decide (l = 51)) as [->|]; [|lia]. exfalso.
    assert (2 ^ 52 = 2 * 2 ^ 51) as E52 by done. rewrite E52 in *.
    destruct (buddy_cases 51 x) as [[_ E]|[_ E]]; try done; lia.
  - lia.
  - rewrite HS. destruct (buddy_cases l x) as [[_ E]|[_ E]]; try done; lia.
  - destruct (buddy_cases l x) as [[? E]|[? E]]; try done; try lia; rewrite E.
    + by rewrite Z.min_l by lia.
    + by rewrite Z.min_r by lia.
  - intros q [?|?]%Hin; auto.
  - intros q Hq%Hin. trans (zn x).
    + destruct Hq as [?|?]; [auto|]. by rewrite Hz'.
    + destruct (Z.min_spec x (buddy l x)) as [[_ ->]|[_ ->]]; done.
  - intros q [?|?]%Hin; auto.
Qed.

Lemma hole_halves C l x :
  Hole C (l + 1) x → 0 ≤ l →
  Hole C l x ∧ Hole C l (x + 2 ^ l) ∧ buddy l x = x + 2 ^ l.
Proof.
  intros [[Hl Hx He Hd Hm Hz] Hf] Hl0.
  pose proof (pow2_pos l ltac:(lia)). assert (HS := pow2_S l ltac:(lia)).
  assert (Hdx : (2 ^ l | x)).
  { destruct Hd as [k ->]. rewrite HS. exists (k * 2). lia. }
  assert (H1 : ∀ q, in_block l x q → in_block (l + 1) x q) by (unfold in_block; lia).
  assert (H2 : ∀ q, in_block l (x + 2 ^ l) q → in_block (l + 1) x q) by (unfold in_block; lia).
  split_and!.
  - split; [split|]; auto; lia.
  - split; [split|]; auto; try lia.
    + apply Z.divide_add_r; [done|apply Z.divide_refl].
    + intros q Hq. rewrite (Hz q), (Hz (x + 2 ^ l)) by (apply H2; [done||apply in_block_self; lia]).
      done.
  - by apply buddy_lower.
Qed.

(** ** The frames covered determine the blocks *)

(** An aligned run of covered frames of one zone lies in one block: the largest
    free blocks are always there to be found. *)
Lemma cover_single C : Geo C → ∀ n b,
  let l := Z.of_nat n in
  (2 ^ l | b) → (∀ q, in_block l b q → covers C q ∧ zn q = zn b) →
  ∃ m y, l ≤ m ∧ y ∈ c_get m C ∧ y ≤ b ∧ b + 2 ^ l ≤ y + 2 ^ m.
Proof.
  intros HG. induction n as [|n IH]; intros b l Hd Hcov; subst l.
  { destruct (Hcov b) as [(m & y & Hy & Hb) _]; [by apply in_block_self|].
    exists m, y. destruct (g_block _ HG m y Hy). unfold in_block in Hb.
    change (2 ^ Z.of_nat 0) with 1. split_and!; [lia|done|lia|lia]. }
  replace (Z.of_nat (S n)) with (Z.of_nat n + 1) in * by lia.
  set (l := Z.of_nat n) in *. assert (Hl : 0 ≤ l) by lia. pose proof (pow2_pos l Hl).
  assert (Hd' : (2 ^ l | b)).
  { destruct Hd as [k ->]. rewrite pow2_S by done. exists (k * 2). lia. }
  setoid_rewrite halves_cover in Hcov; [|done].
  destruct (IH b) as (m1 & y1 & ? & Hy1 & ? & ?); [done|by auto|].
  destruct (IH (b + 2 ^ l)) as (m2 & y2 & ? & Hy2 & ? & ?).
  { apply Z.divide_add_r; [done|apply Z.divide_refl]. }
  { intros q Hq. destruct (Hcov q) as [? ->]; [by auto|]. split; [done|].
    symmetry. apply Hcov. right. by apply in_block_self. }
  destruct (g_block _ HG _ _ Hy1) as [? _ _ Hdy1 _ _], (g_block _ HG _ _ Hy2) as [? _ _ Hdy2 _ _].
  assert (Hin : in_block (l + 1) b b) by (apply in_block_self; lia).
  assert (Hin2 : in_block (l + 1) b (b + 2 ^ l)) by (unfold in_block; rewrite pow2_S; lia).
  destruct (decide (m1 = l)) as [->|].
  2: { exists m1, y1. destruct (nested (l + 1) b m1 y1 b); try done; [lia|unfold in_block; lia|].
       split_and!; try done; lia. }
  destruct (decide (m2 = l)) as [->|].
  2: { exists m2, y2. destruct (nested (l + 1) b m2 y2 (b + 2 ^ l)); try done; [lia|unfold in_block; lia|].
       split_and!; try done; lia. }
  assert (y1 = b) as -> by lia. assert (y2 = b + 2 ^ l) as -> by lia.
  exfalso. rewrite <- buddy_lower in Hy2 by done.
  apply (g_coal _ HG l b Hy1 Hy2). rewrite buddy_lower by done.
  apply Hcov. right. by apply in_block_self.
Qed.

Lemma cover_sub C C' l x :
  Geo C → Geo C' → (∀ q, covers C q ↔ covers C' q) → x ∈ c_get l C →
  ∃ m y, l ≤ m ∧ y ∈ c_get m C' ∧ y ≤ x ∧ x + 2 ^ l ≤ y + 2 ^ m.
Proof.
  intros HG HG' Hc Hx. destruct (g_block _ HG _ _ Hx) as [Hl _ _ Hd _ Hz].
  destruct (cover_single C' HG' (Z.to_nat l) x) as (m & y & Hm).
  - by rewrite Z2Nat.id by lia.
  - rewrite Z2Nat.id by lia. intros q Hq. split; [|by auto].
    apply Hc. by exists l, x.
  - rewrite Z2Nat.id in Hm by lia. by exists m, y.
Qed.

(** Two geometries that cover the same frames have the same blocks. *)
Lemma geo_canonical C C' l x :
  Geo C → Geo C' → (∀ q, covers C q ↔ covers C' q) → x ∈ c_get l C ↔ x ∈ c_get l C'.
Proof.
  assert (Hdir : ∀ C C', Geo C → Geo C' → (∀ q, covers C q ↔ covers C' q) →
    x ∈ c_get l C → x ∈ c_get l C').
  { clear. intros C C' HG HG' Hc Hx.
    destruct (cover_sub C C' l x) as (m & y & Hm & Hy & ? & ?); try done.
    destruct (cover_sub C' C m y) as (k & z & Hk & Hz & ? & ?); try done.
    assert (0 ≤ l) by apply (g_block _ HG _ _ Hx).
    pose proof (pow2_pos l ltac:(lia)).
    destruct (g_disj _ HG l x k z x) as [<- <-]; try done; [by apply in_block_self|unfold in_block; lia|].
    assert (m = l) as -> by lia. by assert (y = x) as -> by lia. }
  intros. split; by apply Hdir.
Qed.

End Geometry.
