(* ===== verification/PageInv.v ===== *)
(** * The free lists of the page allocator

    [seg] says that the descriptors of a list are doubly linked; [Links] that the
    lists of [page.c] are the chains of a chain store (level to frames) and that
    exactly the descriptors off the lists carry the mark
    [ARCH_ADDRESS_WIDTH_BITS].  [page_remove] and [page_insert] are the deletion and
    the insertion at the head of that store. *)

From S2P Require Import Prelude Chain PageGeo Page.
Import Width.
Local Open Scope Z_scope.

Definition normal (zc : zone_cfg) (q : Z) : bool := page_is_zone zc q ZONE_NORMAL.

Definition first (xs : list Z) (nxt : option Z) : option Z :=
  match xs with [] => nxt | x :: _ => Some x end.

Definition final (prev : option Z) (xs : list Z) : option Z :=
  match last xs with Some x => Some x | None => prev end.

Fixpoint seg (pgs : gmap Z page) (l : Z) (prev : option Z) (xs : list Z) (nxt : option Z) : Prop :=
  match xs with
  | [] => True
  | x :: ys =>
      (∃ pg, pgs !! x = Some pg ∧ pg_pre pg = prev ∧ pg_next pg = first ys nxt ∧ size_bits pg = l) ∧
      seg pgs l (Some x) ys nxt
  end.

Record Links (s : pstate) (C : gmap Z (list Z)) : Prop := MkLinks {
  l_wf : c_wf C;
  l_heads : ∀ l, 0 ≤ l < 52 → page_list s !! l = Some (head (c_get l C));
  l_lev : ∀ l x, x ∈ c_get l C → 0 ≤ l < 52;
  l_seg : ∀ l, seg (pages s) l None (c_get l C) None;
  l_bits : ∀ p pg, pages s !! p = Some pg → c_linked p C = false → size_bits pg = 64;
}.

(** Only links and marks have changed. *)
Definition same_refs (s s' : pstate) : Prop :=
  page_nr s' = page_nr s ∧ ∀ q, ref_cnt <$> pages s' !! q = ref_cnt <$> pages s !! q.

(** ** Steps *)

Lemma wp_get_page p pg s Φ : pages s !! p = Some pg → Φ pg s → wp (get_page p) s Φ.
Proof. intros Hp HΦ. unfold wp, get_page. by rewrite Hp. Qed.

Lemma wp_upd_page p pg f s Φ :
  pages s !! p = Some pg → Φ tt (set_pages (<[p := f pg]> (pages s)) s) → wp (upd_page p f) s Φ.
Proof. intros Hp HΦ. unfold wp, upd_page. by rewrite Hp. Qed.

Lemma wp_get_head l h s Φ : page_list s !! l = Some h → Φ h s → wp (get_head l) s Φ.
Proof. intros Hp HΦ. unfold wp, get_head. by rewrite Hp. Qed.

Lemma wp_set_head l h h' s Φ :
  page_list s !! l = Some h → Φ tt (set_page_list (<[l := h']> (page_list s)) s) →
  wp (set_head l h') s Φ.
Proof. intros Hp HΦ. unfold wp, set_head. by rewrite Hp. Qed.

Lemma same_refs_refl s : same_refs s s.
Proof. done. Qed.

Lemma same_refs_trans s1 s2 s3 : same_refs s1 s2 → same_refs s2 s3 → same_refs s1 s3.
Proof. intros [? H1] [? H2]. split; [congruence|]. intros. by rewrite H2, H1. Qed.

Lemma same_refs_dom s s' : same_refs s s' → dom (pages s') = dom (pages s).
Proof.
  intros [_ H]. apply set_eq. intros q. rewrite !elem_of_dom. specialize (H q).
  destruct (pages s' !! q), (pages s !! q); simpl in H; naive_solver.
Qed.

Lemma same_refs_upd s p pg f :
  pages s !! p = Some pg → ref_cnt (f pg) = ref_cnt pg →
  same_refs s (set_pages (<[p := f pg]> (pages s)) s).
Proof.
  intros Hp Hf. split; [done|]. intros q. simpl.
  destruct (decide (p = q)) as [->|]; [by rewrite lookup_insert_eq, Hp; simpl; rewrite Hf|].
  by rewrite lookup_insert_ne.
Qed.

(** ** Doubly linked segments *)

Lemma seg_app pgs l prev xs ys nxt :
  seg pgs l prev (xs ++ ys) nxt ↔ seg pgs l prev xs (first ys nxt) ∧ seg pgs l (final prev xs) ys nxt.
Proof.
  revert prev. induction xs as [|x xs IH]; intros prev; simpl.
  - unfold final. simpl. naive_solver.
  - rewrite IH. replace (first (xs ++ ys) nxt) with (first xs (first ys nxt)) by by destruct xs.
    replace (final prev (x :: xs)) with (final (Some x) xs).
    + naive_solver.
    + unfold final. rewrite last_cons. by destruct (last xs).
Qed.

Lemma seg_frame pgs pgs' l prev xs nxt :
  (∀ x, x ∈ xs → pgs' !! x = pgs !! x) → seg pgs l prev xs nxt → seg pgs' l prev xs nxt.
Proof.
  revert prev. induction xs as [|x xs IH]; intros prev Hf; simpl; [done|].
  intros [(pg & Hp & ?) ?]. split.
  - exists pg. by rewrite Hf by left.
  - apply IH; [|done]. intros. apply Hf. by right.
Qed.

Lemma seg_insert pgs l prev xs nxt p pg :
  p ∉ xs → seg pgs l prev xs nxt → seg (<[p := pg]> pgs) l prev xs nxt.
Proof. intros Hp. apply seg_frame. intros x Hx. apply lookup_insert_ne. congruence. Qed.

Lemma seg_elem pgs l prev xs nxt x :
  seg pgs l prev xs nxt → x ∈ xs → ∃ pg, pgs !! x = Some pg ∧ size_bits pg = l.
Proof.
  intros Hs Hx. apply list_elem_of_split in Hx as (xs1 & xs2 & ->).
  apply seg_app in Hs as [_ [(pg & ? & _ & _ & ?) _]]. eauto.
Qed.

(** Writing the link forward of the last node, or the link back of the first. *)
Lemma seg_set_next pgs l prev xs q n n' pg :
  pgs !! q = Some pg → q ∉ xs → seg pgs l prev (xs ++ [q]) n →
  seg (<[q := set_pg_next n' pg]> pgs) l prev (xs ++ [q]) n'.
Proof.
  intros Hq Hn. rewrite !seg_app. simpl. intros [H1 [(pg' & ? & ? & ? & ?) _]]. simplify_eq.
  split; [by apply seg_insert|]. split; [|done].
  eexists. by rewrite lookup_insert_eq.
Qed.

Lemma seg_set_pre pgs l prev prev' n ys nxt pg :
  pgs !! n = Some pg → n ∉ ys → seg pgs l prev (n :: ys) nxt →
  seg (<[n := set_pg_pre prev' pg]> pgs) l prev' (n :: ys) nxt.
Proof.
  intros Hn Hni. simpl. intros [(pg' & ? & ? & ? & ?) Hys]. simplify_eq.
  split; [|by apply seg_insert]. eexists. by rewrite lookup_insert_eq.
Qed.

Lemma links_linked s C l p :
  Links s C → p ∈ c_get l C → ∃ pg, pages s !! p = Some pg ∧ size_bits pg = l.
Proof. intros HL Hp. by eapply seg_elem; [apply (l_seg _ _ HL)|]. Qed.

(** ** Removal *)

(** What a removal has to establish, whichever links it wrote. *)
Lemma links_removed s s' C l p xs ys :
  Links s C → c_get l C = xs ++ p :: ys →
  (∀ m, 0 ≤ m < 52 → page_list s' !! m = Some (head (if decide (m = l) then xs ++ ys else c_get m C))) →
  seg (pages s') l None xs (first ys None) → seg (pages s') l (final None xs) ys None →
  (∀ q, q ∉ xs ++ p :: ys → pages s' !! q = pages s !! q) →
  (∃ pg, pages s' !! p = Some pg ∧ size_bits pg = 64) →
  Links s' (c_delete p C).
Proof.
  intros HL Hc Hh Hs1 Hs2 Hf (pg & Hpg & Hb).
  pose proof (c_nodup _ (l_wf _ _ HL) l) as Hnd. rewrite Hc in Hnd.
  apply NoDup_app in Hnd as (_ & Hnd1 & [Hnd2 _]%NoDup_cons).
  assert (Hp1 : p ∉ xs) by (intros Hx; apply (Hnd1 p Hx); left).
  assert (Hget : c_get l (c_delete p C) = xs ++ ys) by (rewrite c_get_delete, Hc; by apply filter_ne_split).
  assert (Hoth : ∀ m, m ≠ l → c_get m (c_delete p C) = c_get m C ∧ ∀ q, q ∈ c_get m C → q ∉ xs ++ p :: ys).
  { intros m Hm. rewrite <- Hc. assert (Hq : ∀ q, q ∈ c_get m C → q ∉ c_get l C).
    { intros q Hq Hq'. apply Hm. by eapply (l_wf _ _ HL). }
    split; [|done]. apply c_get_delete_fresh. intros Hx. apply (Hq p Hx). rewrite Hc.
    apply elem_of_app. right. left. }
  split.
  - apply c_wf_delete, HL.
  - intros m Hm. rewrite Hh by done. case_decide; [by subst; rewrite Hget|].
    by rewrite (proj1 (Hoth _ H)).
  - intros m q [_ Hq]%elem_of_c_delete. by eapply HL.
  - intros m. destruct (decide (m = l)) as [->|Hm].
    + rewrite Hget. apply seg_app. by destruct ys.
    + destruct (Hoth m Hm) as [-> Hq]. eapply seg_frame; [|apply (l_seg _ _ HL)].
      intros. by apply Hf, Hq.
  - intros q qg Hqg Hq. destruct (decide (q = p)) as [->|Hne]; [by simplify_eq|].
    rewrite c_linked_delete_ne in Hq by done.
    apply (l_bits _ _ HL q); [|done]. rewrite <- Hf; [done|].
    rewrite <- Hc. by rewrite c_linked_false in Hq.
Qed.

(** The link from the left, which is the head of the list for the first node. *)
Lemma unlink_left s C l p xs ys :
  Links s C → 0 ≤ l < 52 → c_get l C = xs ++ p :: ys → NoDup xs →
  seg (pages s) l None xs (Some p) →
  wp (match final None xs with
      | Some q => upd_page q (set_pg_next (first ys None))
      | None => set_head l (first ys None)
      end) s (λ _ s1,
    (∀ m, 0 ≤ m < 52 →
      page_list s1 !! m = Some (head (if decide (m = l) then xs ++ ys else c_get m C))) ∧
    seg (pages s1) l None xs (first ys None) ∧
    (∀ q, q ∉ xs → pages s1 !! q = pages s !! q) ∧ same_refs s s1).
Proof.
  intros HL Hl Hc Hndx Hs1. destruct xs as [|q xs _] using rev_ind; unfold final; simpl.
  - eapply wp_set_head; [by apply HL|]. simpl. split_and!; try done.
    intros m Hm. case_decide as E; [subst; rewrite lookup_insert_eq; by destruct ys|].
    rewrite lookup_insert_ne by done. by apply HL.
  - rewrite last_snoc. destruct (seg_elem _ _ _ _ _ q Hs1) as (qg & Hqg & _); [set_solver|].
    apply NoDup_app in Hndx as (_ & Hqx & _).
    eapply wp_upd_page; [done|]. split; [|split; [|split; [|by apply same_refs_upd]]].
    + intros m Hm. rewrite (l_heads _ _ HL) by done. case_decide; [subst|done].
      rewrite Hc. by destruct xs.
    + eapply seg_set_next; [done| |done]. intros Hx. apply (Hqx q Hx). by left.
    + intros r Hr. simpl. apply lookup_insert_ne. set_solver.
Qed.

(** The link from the right. *)
Lemma unlink_right s l prev0 prev ys :
  NoDup ys → seg (pages s) l prev0 ys None →
  wp (match first ys None with
      | Some n => upd_page n (set_pg_pre prev)
      | None => mret tt
      end) s (λ _ s2,
    page_list s2 = page_list s ∧ seg (pages s2) l prev ys None ∧
    (∀ q, q ∉ ys → pages s2 !! q = pages s !! q) ∧ same_refs s s2).
Proof.
  intros Hndy Hs. destruct ys as [|n ys]; simpl; [by split_and!|].
  destruct Hs as [(ng & Hng & Hrest) Hs3]. apply NoDup_cons in Hndy as [? _].
  eapply wp_upd_page; [done|].
  split; [done|split; [|split; [|by apply same_refs_upd]]].
  - eapply (seg_set_pre _ _ prev0); [done|done|]. split; [by exists ng|done].
  - intros r Hr. simpl. apply lookup_insert_ne. set_solver.
Qed.

Lemma page_remove_run s C l p :
  Links s C → p ∈ c_get l C →
  wp (page_remove p l) s (λ _ s', Links s' (c_delete p C) ∧ same_refs s s').
Proof.
  intros HL Hp. pose proof (l_lev _ _ HL _ _ Hp) as Hl.
  pose proof (c_nodup _ (l_wf _ _ HL) l) as Hnd. pose proof (l_seg _ _ HL l) as Hs.
  pose proof Hp as (xs & ys & Hc)%list_elem_of_split. rewrite Hc in Hnd, Hs.
  apply seg_app in Hs as [Hs1 [(pg & Hpg & Hpre & Hnx & Hb) Hs2]].
  apply NoDup_app in Hnd as (Hndx & Hdis & [Hpy Hndy]%NoDup_cons).
  assert (Hpx : p ∉ xs) by (intros Hx; apply (Hdis p Hx); left).
  unfold page_remove. apply wp_bind. eapply wp_get_page; [done|]. rewrite Hpre, Hnx.
  apply wp_bind. eapply wp_mono; [by eapply unlink_left|].
  intros _ s1 (Hh1 & Hs1' & Hf1 & Hr1).
  apply wp_bind. eapply wp_get_page; [by rewrite Hf1|]. rewrite Hpre, Hnx.
  assert (Hs2' : seg (pages s1) l (Some p) ys None).
  { eapply seg_frame; [|done]. intros x Hx. apply Hf1. intros Hx'. apply (Hdis x Hx'). by right. }
  apply wp_bind. eapply wp_mono; [by eapply unlink_right|].
  intros _ s2 (Hh2 & Hs2'' & Hf2 & Hr2).
  assert (Hpg2 : pages s2 !! p = Some pg) by (by rewrite Hf2, Hf1).
  eapply wp_upd_page; [done|].
  assert (Hr3 : same_refs s (set_pages (<[p:=set_size_bits 64 pg]> (pages s2)) s2)).
  { eapply same_refs_trans; [eapply same_refs_trans; done|].
    by apply (same_refs_upd _ _ _ (set_size_bits 64)). }
  split; [|done]. eapply links_removed; try done; simpl.
  - by rewrite Hh2.
  - apply seg_insert; [done|]. eapply seg_frame; [|done]. intros x Hx. apply Hf2.
    intros Hx'. apply (Hdis x Hx). by right.
  - by apply seg_insert.
  - intros q Hq. rewrite lookup_insert_ne by set_solver. rewrite Hf2, Hf1 by set_solver. done.
  - eexists. by rewrite lookup_insert_eq.
Qed.

(** ** Insertion *)

Lemma head_first (xs : list Z) : head xs = first xs None.
Proof. by destruct xs. Qed.

Lemma links_inserted s s' C l p :
  Links s C → 0 ≤ l < 52 → c_linked p C = false →
  page_list s' = <[l := Some p]> (page_list s) →
  seg (pages s') l (Some p) (c_get l C) None →
  (∃ pg, pages s' !! p = Some pg ∧ pg_pre pg = None ∧ pg_next pg = head (c_get l C) ∧ size_bits pg = l) →
  (∀ q, q ≠ p → q ∉ c_get l C → pages s' !! q = pages s !! q) →
  Links s' (c_add_head p l C).
Proof.
  intros HL Hl Hp Hh Hs Hpg Hf. split.
  - apply c_wf_add_head; [apply HL|done].
  - intros m Hm. rewrite Hh. unfold c_add_head. rewrite c_get_set. case_decide.
    + subst. by rewrite lookup_insert_eq.
    + rewrite lookup_insert_ne by done. by apply HL.
  - intros m q [[-> _]|Hq]%elem_of_add_head; [done|]. by eapply HL.
  - intros m. unfold c_add_head. rewrite c_get_set. case_decide as E.
    + subst m. simpl. split; [|done]. destruct Hpg as (pg & ? & ? & ? & ?). exists pg.
      by rewrite <- head_first.
    + eapply seg_frame; [|apply (l_seg _ _ HL)]. intros x Hx. apply Hf.
      * intros ->. rewrite c_linked_false in Hp. by apply (Hp m).
      * intros Hx'. apply E. by eapply (l_wf _ _ HL).
  - intros q qg Hq Hnl. rewrite c_linked_false in Hnl.
    assert (Hne : q ≠ p) by (intros ->; apply (Hnl l), elem_of_add_head; auto).
    assert (Hnl' : ∀ m, q ∉ c_get m C) by (intros m Hm; apply (Hnl m), elem_of_add_head; auto).
    apply (l_bits _ _ HL q); [|by apply c_linked_false]. rewrite <- Hf; auto.
Qed.

Lemma page_insert_run s C l p :
  Links s C → 0 ≤ l < 52 → is_Some (pages s !! p) → c_linked p C = false →
  wp (page_insert p l) s (λ _ s', Links s' (c_add_head p l C) ∧ same_refs s s').
Proof.
  intros HL Hl [pg Hpg] Hp. pose proof Hp as Hp'. rewrite c_linked_false in Hp'. specialize (Hp' l).
  unfold page_insert. apply wp_bind. eapply wp_get_head; [by apply HL|].
  apply wp_bind. eapply wp_upd_page; [done|]. set (s1 := set_pages _ s).
  assert (Hr1 : same_refs s s1) by (by apply (same_refs_upd _ _ _ (set_pg_next _))).
  apply wp_bind. rewrite head_first. eapply wp_mono.
  { eapply (unlink_right _ l None); [apply HL|]. simpl. apply seg_insert; [done|]. apply HL. }
  intros _ s2 (Hh2 & Hs2 & Hf2 & Hr2).
  assert (Hpg2 : pages s2 !! p = Some (set_pg_next (head (c_get l C)) pg)).
  { rewrite Hf2 by done. simpl. by rewrite lookup_insert_eq. }
  apply wp_bind. eapply wp_upd_page; [done|]. set (s3 := set_pages _ s2).
  assert (Hr3 : same_refs s2 s3) by (by apply (same_refs_upd _ _ _ (set_pg_pre None))).
  apply wp_bind. eapply wp_set_head; [simpl; rewrite Hh2; by apply HL|]. set (s4 := set_page_list _ s3).
  assert (Hpg4 : pages s4 !! p = Some (set_pg_pre None (set_pg_next (head (c_get l C)) pg))).
  { simpl. by rewrite lookup_insert_eq. }
  eapply wp_upd_page; [done|].
  assert (Hr4 : same_refs s (set_pages (<[p:=set_size_bits l (set_pg_pre None (set_pg_next (head (c_get l C)) pg))]> (pages s4)) s4)).
  { eapply same_refs_trans; [|by apply (same_refs_upd s4 _ _ (set_size_bits l))].
    eapply same_refs_trans; [exact Hr1|]. by eapply same_refs_trans. }
  split; [|done]. eapply links_inserted; try done; simpl.
  - by rewrite Hh2.
  - apply seg_insert; [done|]. by apply seg_insert.
  - eexists. by rewrite lookup_insert_eq.
  - intros q Hq Hq'. rewrite !lookup_insert_ne by done. rewrite Hf2 by done. simpl.
    by rewrite lookup_insert_ne.
Qed.

(** The mark of a descriptor says on which list it is. *)
Lemma links_bits s C p pg l :
  Links s C → pages s !! p = Some pg → l ≠ 64 → size_bits pg = l ↔ p ∈ c_get l C.
Proof.
  intros HL Hp Hl. split.
  - intros Hb. destruct (c_linked p C) eqn:E.
    + apply c_linked_spec in E as [m Hm].
      destruct (links_linked _ _ _ _ HL Hm) as (pg' & ? & ?). by simplify_eq.
    + apply (l_bits _ _ HL p pg) in E; [congruence|done].
  - intros Hin. destruct (links_linked _ _ _ _ HL Hin) as (pg' & ? & ?). by simplify_eq.
Qed.
