(* ===== verification/PageAlloc.v ===== *)
(** * Freeing and allocating blocks of pages

    The loops of [_pages_free] and [_pages_alloc] over the free lists ([PageInv])
    and the blocks they stand for ([PageGeo]). *)

From S2P Require Import Prelude Chain PageGeo Page PageInv.
Import Width.
Local Open Scope Z_scope.

(** ** Frames and addresses *)

Lemma page_to_addr_small q : 0 ≤ q < 2 ^ 52 → page_to_addr q = q * 4096.
Proof.
  intros. unfold page_to_addr. rewrite Z.shiftl_mul_pow2 by done.
  apply u64_small. change (2 ^ PAGE_SIZE_SHIFT) with 4096. lia.
Qed.

Lemma pfn_of_addr q : 0 ≤ q < 2 ^ 52 → PFN_DOWN (page_to_addr q) = q.
Proof.
  intros. rewrite page_to_addr_small by done. unfold PFN_DOWN.
  rewrite Z.shiftr_div_pow2 by done. apply Z.div_mul. done.
Qed.

Lemma buddy_addr l p :
  0 ≤ l → 0 ≤ p < 2 ^ 52 →
  PFN_DOWN (Z.lxor (page_to_addr p) (Z.shiftl 1 (l + PAGE_SIZE_SHIFT))) = buddy l p.
Proof.
  intros Hl Hp. rewrite page_to_addr_small by done. unfold PFN_DOWN, buddy.
  rewrite Z.shiftr_lxor. f_equal.
  - rewrite Z.shiftr_div_pow2 by done. by apply Z.div_mul.
  - unfold PAGE_SIZE_SHIFT. rewrite Z.shiftr_shiftl_l by lia.
    replace (l + 12 - 12) with l by lia. rewrite Z.shiftl_mul_pow2; lia.
Qed.

Lemma land_high q l :
  0 ≤ l < 64 → 0 ≤ q < 2 ^ 64 →
  Z.land q (not64 (Z.shiftl 1 l - 1)) = 2 ^ l * (q / 2 ^ l).
Proof.
  intros Hl Hq. unfold not64. rewrite Z.shiftl_mul_pow2, Z.mul_1_l by lia.
  replace (2 ^ 64 - 1 - (2 ^ l - 1)) with (Z.shiftl (Z.ones (64 - l)) l).
  2: { rewrite Z.shiftl_mul_pow2, Z.ones_equiv by lia.
       replace (2 ^ 64) with (2 ^ (64 - l) * 2 ^ l); [lia|]. rewrite <- Z.pow_add_r; [f_equal|..]; lia. }
  rewrite Z.mul_comm, <- Z.shiftl_mul_pow2, <- Z.shiftr_div_pow2 by lia.
  apply Z.bits_inj'. intros n Hn. rewrite Z.land_spec, !Z.shiftl_spec by done.
  destruct (decide (n < l)).
  - rewrite !(Z.testbit_neg_r _ (n - l)) by lia. by rewrite andb_false_r.
  - rewrite Z.shiftr_spec by lia. replace (n - l + l) with n by lia.
    destruct (decide (n < 64)).
    + rewrite Z.ones_spec_low by lia. by rewrite andb_true_r.
    + rewrite <- (Z.mod_small q (2 ^ 64)) by done. rewrite Z.mod_pow2_bits_high by lia. done.
Qed.

Lemma group_head_run s l x q :
  0 ≤ l < 52 → 0 ≤ x → x + 2 ^ l ≤ 2 ^ 52 → (2 ^ l | x) → in_block l x q →
  group_head q l s = Some (x, s).
Proof.
  intros Hl Hx He [k ->] [H1 H2]. unfold group_head.
  replace (l <? 64) with true by lia. erewrite bind_run by done.
  pose proof (pow2_pos l ltac:(lia)). rewrite land_high by lia. unfold mret, M_ret.
  rewrite Z.mul_comm. do 3 f_equal. symmetry. apply Z.div_unique with (q - k * 2 ^ l); lia.
Qed.

Lemma pfn_to_page_run q s :
  pfn_to_page q s = Some (if decide (q ∈ dom (pages s)) then Some q else None, s).
Proof.
  unfold pfn_to_page, gets. case_decide as E.
  - apply elem_of_dom in E as [pg ->]. done.
  - apply not_elem_of_dom in E as ->. done.
Qed.

Lemma buddy_get_run s p l :
  0 ≤ l < 52 → 0 ≤ p < 2 ^ 52 →
  buddy_get p l s = Some (if decide (buddy l p ∈ dom (pages s)) then Some (buddy l p) else None, s).
Proof.
  intros Hl Hp. unfold buddy_get. replace (l + PAGE_SIZE_SHIFT <? 64) with true by (unfold PAGE_SIZE_SHIFT; lia).
  unfold addr_to_page. rewrite buddy_addr by lia. apply pfn_to_page_run.
Qed.

Section Zone.
Context (zc : zone_cfg).
Notation zn := (normal zc).

(** The free lists and the blocks on them. *)
Record Free (s : pstate) (C : gmap Z (list Z)) : Prop := MkFree {
  f_links : Links s C;
  f_geo : Geo (dom (pages s)) zn C;
}.

Notation hole s C := (Hole (dom (pages s)) zn C).

Lemma free_remove s C l p :
  Free s C → p ∈ c_get l C →
  wp (page_remove p l) s (λ _ s', Free s' (c_delete p C) ∧ hole s' (c_delete p C) l p ∧ same_refs s s').
Proof.
  intros [HL HG] Hp. eapply wp_mono; [by apply page_remove_run|].
  intros _ s' [HL' Hr]. rewrite (same_refs_dom _ _ Hr).
  split_and!; [split; [done|]|..|done].
  - rewrite (same_refs_dom _ _ Hr). by apply geo_delete.
  - apply hole_delete; [apply HL|done..].
Qed.

Lemma free_insert s C l p :
  Free s C → hole s C l p → (buddy l p ∈ c_get l C → zn (buddy l p) ≠ zn p) →
  wp (page_insert p l) s (λ _ s', Free s' (c_add_head p l C) ∧ same_refs s s').
Proof.
  intros [HL HG] HH Hb. eapply wp_mono.
  { apply page_insert_run; [done|apply HH| |by eapply hole_c_unlinked].
    apply elem_of_dom, (b_map _ _ _ _ (h_ok _ _ _ _ _ HH)), in_block_self, HH. }
  intros _ s' [HL' Hr]. split; [|done]. split; [done|].
  rewrite (same_refs_dom _ _ Hr). by apply geo_add.
Qed.

Lemma hole_range s C l p : hole s C l p → 0 ≤ l < 52 ∧ 0 ≤ p < 2 ^ 52.
Proof. intros [[? ? ? _ _ _] _]. pose proof (pow2_pos l). lia. Qed.

(** ** Joining buddies *)

Definition merged (s : pstate) (C : gmap Z (list Z)) (p l : Z) (r : Z * Z) (s' : pstate) : Prop :=
  let '(p', l') := r in ∃ C',
    Free s' C' ∧ hole s' C' l' p' ∧ same_refs s s' ∧
    (∀ q, covers C' q ∨ in_block l' p' q ↔ covers C q ∨ in_block l p q) ∧
    (buddy l' p' ∈ c_get l' C' → zn (buddy l' p') ≠ zn p').

Lemma merge_up_run fuel s C p l :
  Free s C → hole s C l p → 52 - l < Z.of_nat fuel →
  wp (merge_up zc fuel p l) s (merged s C p l).
Proof.
  revert s C p l. induction fuel as [|fuel IH]; intros s C p l HF HH Hfuel.
  { exfalso. destruct (hole_range _ _ _ _ HH). lia. }
  destruct (hole_range _ _ _ _ HH) as [Hl Hp]. destruct HF as [HL HG]. simpl.
  change PAGE_LIST_SIZE with 52. replace (l <? 52) with true by lia.
  apply wp_bind. unfold wp at 1. rewrite buddy_get_run by done.
  assert (Hstop : (buddy l p ∈ c_get l C → zn (buddy l p) ≠ zn p) → merged s C p l (p, l) s).
  { intros Hb. exists C. split_and!; done. }
  case_decide as E; [|].
  2: { apply wp_ret, Hstop. intros Hb. exfalso. apply E.
       apply (b_map _ _ _ _ (g_block _ _ _ HG _ _ Hb)), in_block_self. lia. }
  apply elem_of_dom in E as [bg Hbg]. apply wp_bind. eapply wp_get_page; [done|].
  pose proof (links_bits _ _ _ _ l HL Hbg ltac:(lia)) as Hbits.
  destruct (Z.eqb_spec (size_bits bg) l) as [Hb|Hb].
  2: { apply wp_ret, Hstop. intros Hb'. by apply Hbits in Hb'. }
  simpl. apply Hbits in Hb. fold (normal zc (buddy l p)) (normal zc p).
  destruct (Bool.eqb _ _) eqn:Ez.
  2: { apply wp_ret, Hstop. intros _ Hz. rewrite Hz, eqb_reflx in Ez. done. }
  apply eqb_prop in Ez. apply wp_bind. eapply wp_mono; [by apply free_remove|].
  intros _ s1 (HF1 & HH1 & Hr1).
  assert (HH' : hole s1 (c_delete (buddy l p) C) l p).
  { rewrite (same_refs_dom _ _ Hr1). eapply hole_mono; [|done].
    intros q. rewrite covers_delete; [by intros [??]|apply HL|done..]. }
  replace (if p <? buddy l p then p else buddy l p) with (Z.min p (buddy l p)).
  2: { destruct (Z.ltb_spec p (buddy l p)); lia. }
  eapply wp_mono; [apply (IH s1 (c_delete (buddy l p) C)); [done|by apply hole_join|lia]|].
  intros [p' l'] s' (C' & HF' & HHH & Hr' & Hcov & Hnb). exists C'.
  split_and!; try done; [by eapply same_refs_trans|].
  intros q. rewrite Hcov, join_cover; [|lia|apply HH'].
  rewrite covers_delete; [|apply HL|done..].
  assert (in_block l (buddy l p) q → covers C q) by (intros; by exists l, (buddy l p)).
  destruct (decide (buddy l p ≤ q < buddy l p + 2 ^ l)); unfold in_block in *; tauto.
Qed.

(** ** Zones *)

(** Every zone is uniform on a block: a block is on one side of the border of the
    linear map by construction, and on one side of 4 GiB by alignment. *)
Lemma zone_block D m y q zone :
  block_ok D zn m y → in_block m y q → page_is_zone zc q zone = page_is_zone zc y zone.
Proof.
  intros [Hm Hy He Hd _ Hz] Hq. specialize (Hz q Hq). unfold normal, page_is_zone in Hz.
  pose proof (pow2_pos m ltac:(lia)). unfold in_block in Hq.
  unfold page_is_zone. revert Hz. unfold memory_is_zone at 1 2. cbn [Z.eqb ZONE_NORMAL].
  intros Hz. apply (f_equal negb) in Hz. rewrite !negb_involutive in Hz. unfold memory_is_zone. rewrite Hz.
  assert (H32 : (2 ^ 32 - 1 <? page_to_addr q) = (2 ^ 32 - 1 <? page_to_addr y)).
  { rewrite !page_to_addr_small by lia. apply eq_bool_prop_intro.
    rewrite !Is_true_true, !Z.ltb_lt. split; [|lia]. intros Hlt.
    destruct (decide (2 ^ 20 ≤ y)); [lia|].
    pose proof (block_below m y 20 ltac:(lia) ltac:(lia) Hy Hd ltac:(lia)). lia. }
  by rewrite H32.
Qed.

(** ** Searching the lists *)

Definition pick (C : gmap Z (list Z)) (l zone : Z) : option Z :=
  head (filter (λ q, page_is_zone zc q zone = true) (c_get l C)).

Lemma pick_Some C l zone p : pick C l zone = Some p → p ∈ c_get l C ∧ page_is_zone zc p zone = true.
Proof.
  unfold pick. intros Hp. destruct (filter _ _) as [|q qs] eqn:E; [done|]. simplify_eq/=.
  assert (Hin : p ∈ filter (λ q, page_is_zone zc q zone = true) (c_get l C)) by (rewrite E; left).
  apply list_elem_of_filter in Hin. naive_solver.
Qed.

Lemma pick_None C l zone p : pick C l zone = None → p ∈ c_get l C → page_is_zone zc p zone = false.
Proof.
  unfold pick. intros Hp Hin. destruct (filter _ _) as [|q qs] eqn:E; [|done].
  apply not_true_is_false. intros Hz.
  assert (Hin' : p ∈ filter (λ q, page_is_zone zc q zone = true) (c_get l C)) by by apply list_elem_of_filter.
  rewrite E in Hin'. by apply not_elem_of_nil in Hin'.
Qed.

Lemma find_zone_run s l prev xs zone fuel :
  seg (pages s) l prev xs None → (length xs < fuel)%nat →
  find_zone zc fuel (first xs None) zone s =
    Some (head (filter (λ q, page_is_zone zc q zone = true) xs), s).
Proof.
  revert prev fuel. induction xs as [|x xs IH]; intros prev [|fuel] Hs Hf; simpl in Hf; try lia; [done|].
  destruct Hs as [(pg & Hpg & _ & Hn & _) Hs]. simpl.
  destruct (page_is_zone zc x zone) eqn:E.
  - by rewrite filter_cons_True.
  - rewrite filter_cons_False by congruence.
    erewrite bind_run by (unfold get_page; by rewrite Hpg).
    rewrite Hn. eapply IH; [done|lia].
Qed.

Lemma links_length s C l : Links s C → (length (c_get l C) ≤ size (pages s))%nat.
Proof.
  intros HL. rewrite <- size_dom, <- (size_list_to_set (C := gset Z)) by apply HL.
  apply subseteq_size. intros x. rewrite elem_of_list_to_set, elem_of_dom. intros Hx.
  destruct (links_linked _ _ _ _ HL Hx) as (pg & -> & _). by eexists.
Qed.

Lemma find_in_run s C l zone :
  Links s C → 0 ≤ l < 52 → find_in zc l zone s = Some (pick C l zone, s).
Proof.
  intros HL Hl. unfold find_in.
  erewrite bind_run by (unfold get_head; by rewrite (l_heads _ _ HL)).
  erewrite bind_run by done. rewrite head_first.
  eapply find_zone_run; [apply HL|]. pose proof (links_length s C l HL). lia.
Qed.

Lemma find_above_run s C n level zone :
  Links s C → 0 ≤ level → level + Z.of_nat n ≤ 52 →
  wp (find_above zc n level zone) s (λ r s', s' = s ∧
    match r with
    | Some (p, m) => level ≤ m < 52 ∧ p ∈ c_get m C ∧ page_is_zone zc p zone = true
    | None => ∀ m p, level ≤ m < level + Z.of_nat n → p ∈ c_get m C → page_is_zone zc p zone = false
    end).
Proof.
  intros HL. revert level. induction n as [|n IH]; intros level Hl Hn; simpl.
  { apply wp_ret. split; [done|]. lia. }
  apply wp_bind. unfold wp at 1. rewrite (find_in_run s C) by (try done; lia).
  destruct (pick C level zone) as [p|] eqn:E.
  { apply wp_ret. apply pick_Some in E. split_and!; try done; lia || naive_solver. }
  eapply wp_mono; [apply IH; lia|]. intros [[p m]|] s' [-> Hr].
  - split; [done|]. split_and!; try lia; apply Hr.
  - split; [done|]. intros m p Hm Hp. destruct (decide (m = level)) as [->|].
    + by eapply pick_None.
    + apply (Hr m); [lia|done].
Qed.

(** ** Splitting *)

Lemma split_down_run n s C p level :
  Free s C → hole s C level p → Z.of_nat n ≤ level →
  wp (split_down n p level) s (λ p' s', ∃ C',
    let l := level - Z.of_nat n in
    Free s' C' ∧ hole s' C' l p' ∧ same_refs s s' ∧
    (∀ q, covers C' q ∨ in_block l p' q ↔ covers C q ∨ in_block level p q) ∧
    p ≤ p' ∧ p' + 2 ^ l ≤ p + 2 ^ level).
Proof.
  revert s C p level. induction n as [|n IH]; intros s C p level HF HH Hn.
  { apply wp_ret. exists C. rewrite Z.sub_0_r. split_and!; try done; lia. }
  cbn [split_down]. destruct (hole_range _ _ _ _ HH) as [Hl Hp].
  replace level with (level - 1 + 1) in HH by lia.
  destruct (hole_halves _ _ _ _ _ HH) as (HH1 & HH2 & Hb); [lia|].
  set (k := level - 1) in *.
  apply wp_bind. eapply wp_mono.
  { apply free_insert; [done|done|]. rewrite Hb. intros Hin. exfalso.
    by eapply hole_unlinked; [apply HF|exact HH2|]. }
  intros _ s1 [HF1 Hr1]. pose proof (same_refs_dom _ _ Hr1) as Hd1.
  apply wp_bind. unfold wp at 1. rewrite buddy_get_run by lia. rewrite Hb, Hd1.
  rewrite decide_True by (apply (b_map _ _ _ _ (h_ok _ _ _ _ _ HH2)), in_block_self; lia).
  apply wp_bind. eapply wp_lift; [done|].
  eapply wp_mono; [apply (IH s1 (c_add_head p k C)); [done| |lia]|].
  { rewrite Hd1. apply hole_add; [done|]. unfold in_block. lia. }
  intros p' s' (C' & HF' & HH' & Hr' & Hcov & Hle1 & Hle2). exists C'.
  replace (k - Z.of_nat n) with (level - Z.of_nat (S n)) in * by lia.
  pose proof (pow2_S k ltac:(lia)) as HS. replace (k + 1) with level in HS by lia.
  pose proof (pow2_pos k ltac:(lia)).
  split_and!; try done; try lia; [by eapply same_refs_trans|].
  intros q. rewrite Hcov, covers_add. replace level with (k + 1) by lia.
  rewrite halves_cover by lia. tauto.
Qed.

(** ** Whole operations *)

(** The reference count of [x] is now [n]; nothing else about the counts has
    changed. *)
Definition ref_set (s s' : pstate) (x n : Z) : Prop :=
  page_nr s' = page_nr s ∧ dom (pages s') = dom (pages s) ∧
  (∃ pg, pages s' !! x = Some pg ∧ ref_cnt pg = n) ∧
  ∀ q, q ≠ x → ref_cnt <$> pages s' !! q = ref_cnt <$> pages s !! q.

Lemma ref_set_then s s1 s' x n : ref_set s s1 x n → same_refs s1 s' → ref_set s s' x n.
Proof.
  intros (Hn & Hd & (pg & Hx & Hr) & Hf) [Hn' Hf']. unfold ref_set.
  rewrite (same_refs_dom s1 s') by done. split_and!; try congruence.
  - specialize (Hf' x). rewrite Hx in Hf'. destruct (pages s' !! x) as [pg'|]; simplify_eq/=. eauto.
  - intros q Hq. by rewrite Hf', Hf.
Qed.

Lemma ref_set_after s s1 s' x n : same_refs s s1 → ref_set s1 s' x n → ref_set s s' x n.
Proof.
  intros Hs (Hn & Hd & Hx & Hf). pose proof (same_refs_dom _ _ Hs). destruct Hs as [? Hf'].
  split_and!; try congruence. intros q Hq. by rewrite Hf, Hf'.
Qed.

(** Writing to a descriptor off the lists. *)
Lemma free_upd s C p pg pg' :
  Free s C → pages s !! p = Some pg → c_linked p C = false → size_bits pg' = 64 →
  Free (set_pages (<[p := pg']> (pages s)) s) C.
Proof.
  intros [HL HG] Hp Hl Hb.
  assert (Hdom : dom (<[p := pg']> (pages s)) = dom (pages s)).
  { rewrite dom_insert_L. apply elem_of_dom_2 in Hp. set_solver. }
  split; [split|]; simpl; try apply HL.
  - intros l. apply seg_insert; [|apply HL]. by rewrite c_linked_false in Hl.
  - intros q qg. destruct (decide (p = q)) as [->|Hne].
    + rewrite lookup_insert_eq. naive_solver.
    + rewrite lookup_insert_ne by done. apply HL.
  - by rewrite Hdom.
Qed.

Lemma ref_set_upd s p pg pg' :
  pages s !! p = Some pg → ref_set s (set_pages (<[p := pg']> (pages s)) s) p (ref_cnt pg').
Proof.
  intros Hp. split_and!; simpl; [done| |by eexists; rewrite lookup_insert_eq|].
  - rewrite dom_insert_L. apply elem_of_dom_2 in Hp. set_solver.
  - intros q Hq. by rewrite lookup_insert_ne.
Qed.

Lemma hole_desc s C l p : hole s C l p → ∃ pg, pages s !! p = Some pg.
Proof. intros HH. apply elem_of_dom, (h_ok _ _ _ _ _ HH), in_block_self, HH. Qed.

Lemma set_pages_twice a b s : set_pages a (set_pages b s) = set_pages a s.
Proof. done. Qed.

Lemma take_page_run s C l p :
  Free s C → hole s C l p → wp (take_page p) s (λ _ s', Free s' C ∧ ref_set s s' p 1).
Proof.
  intros HF HH. destruct (hole_desc _ _ _ _ HH) as [pg Hpg].
  assert (Hl : c_linked p C = false) by (by eapply hole_c_unlinked; [apply HF|]).
  unfold take_page. apply wp_bind. eapply wp_upd_page; [done|].
  eapply wp_upd_page; [simpl; apply lookup_insert_eq|]. simpl. rewrite insert_insert_eq, set_pages_twice.
  split; [by eapply free_upd|]. by eapply (ref_set_upd _ _ _ (set_ref_cnt 1 _)).
Qed.

Definition alloc_post (s : pstate) (C : gmap Z (list Z)) (l zone : Z) (r : option Z) (s' : pstate) : Prop :=
  match r with
  | None => s' = s ∧ ∀ m y, l ≤ m → y ∈ c_get m C → page_is_zone zc y zone = false
  | Some x => ∃ C',
      Free s' C' ∧ hole s' C' l x ∧ ref_set s s' x 1 ∧
      (∀ q, covers C' q ∨ in_block l x q ↔ covers C q) ∧
      (∀ q, in_block l x q → page_is_zone zc q zone = true)
  end.

(** Taking the block [p] of level [m] and cutting it down to level [l]; for
    [m = l] nothing is cut. *)
Lemma take_block s C l m p zone :
  Free s C → p ∈ c_get m C → page_is_zone zc p zone = true → 0 ≤ l ≤ m →
  wp (_ ← page_remove p m; p ← split_down (Z.to_nat (m - l)) p m; _ ← take_page p; mret (Some p)) s
     (alloc_post s C l zone).
Proof.
  intros HF Hp Hz Hl. pose proof (g_block _ _ _ (f_geo _ _ HF) _ _ Hp) as Hok.
  apply wp_bind. eapply wp_mono; [by apply free_remove|]. intros _ s1 (HF1 & HH1 & Hr1).
  apply wp_bind. eapply wp_mono; [apply split_down_run; [done|done|lia]|].
  intros x s2 (C' & HF2 & HH2 & Hr2 & Hcov & Hle1 & Hle2).
  replace (m - Z.of_nat (Z.to_nat (m - l))) with l in * by lia.
  apply wp_bind. eapply wp_mono; [by eapply take_page_run|]. intros _ s3 [HF3 Hr3].
  apply wp_ret. exists C'. split_and!; try done.
  - destruct Hr3 as (_ & -> & _). done.
  - eapply ref_set_after; [|done]. by eapply same_refs_trans.
  - intros q. rewrite Hcov, covers_delete; [|apply HF|apply HF|done].
    assert (in_block m p q → covers C q) by (intros; by exists m, p).
    destruct (decide (p ≤ q < p + 2 ^ m)); unfold in_block in *; tauto.
  - intros q Hq. rewrite <- Hz. eapply zone_block; [done|]. unfold in_block in *. lia.
Qed.

Lemma pages_alloc_run s C l zone :
  Free s C → 0 ≤ l < 52 → wp (_pages_alloc zc l zone) s (alloc_post s C l zone).
Proof.
  intros HF Hl. unfold _pages_alloc. apply wp_bind. unfold wp at 1.
  rewrite (find_in_run s C) by (apply HF || done).
  destruct (pick C l zone) as [p|] eqn:E.
  { apply pick_Some in E as [Hp Hz]. pose proof (take_block s C l l p zone HF Hp Hz ltac:(lia)) as Hw.
    rewrite Z.sub_diag in Hw. exact Hw. }
  apply wp_bind. change PAGE_LIST_SIZE with 52.
  eapply wp_mono; [apply find_above_run; [apply HF|lia|lia]|].
  intros [[p m]|] s' [-> Hr].
  - destruct Hr as (Hm & Hp & Hz). apply take_block; [done..|lia].
  - apply wp_ret. split; [done|]. intros m y Hm Hy. destruct (decide (m = l)) as [->|].
    + by eapply pick_None.
    + apply (Hr m); [|done]. pose proof (l_lev _ _ (f_links _ _ HF) _ _ Hy). lia.
Qed.

(** Freeing the block at [x] of level [l], named by any frame [q] of it. *)
Lemma pages_free_run s C l x q pg :
  Free s C → hole s C l x → in_block l x q → pages s !! x = Some pg → 0 < ref_cnt pg →
  wp (_pages_free zc q l) s (λ r s', ref_set s s' x (ref_cnt pg - 1) ∧
    if ref_cnt pg =? 1 then
      r = 1 ∧ ∃ C', Free s' C' ∧ ∀ f, covers C' f ↔ covers C f ∨ in_block l x f
    else r = 0 ∧ Free s' C).
Proof.
  intros HF HH Hq Hpg Hr. pose proof (h_ok _ _ _ _ _ HH) as [Hl Hx He Hd _ _].
  assert (Hun : c_linked x C = false) by (by eapply hole_c_unlinked; [apply HF|]).
  unfold _pages_free. apply wp_bind. unfold wp at 1. rewrite (group_head_run s l x q) by (done || lia).
  apply wp_bind. unfold wp at 1. rewrite pfn_to_page_run, decide_True by (by eapply elem_of_dom_2).
  apply wp_bind. eapply wp_get_page; [done|].
  apply wp_bind, wp_assert; [lia|].
  apply wp_bind, wp_assert.
  { rewrite (l_bits _ _ (f_links _ _ HF) _ _ Hpg Hun). done. }
  apply wp_bind. eapply wp_upd_page; [done|]. set (s1 := set_pages _ s).
  assert (HF1 : Free s1 C).
  { eapply free_upd; [done..|]. simpl. by apply (l_bits _ _ (f_links _ _ HF) x). }
  assert (Hr1 : ref_set s s1 x (ref_cnt pg - 1)) by (by eapply (ref_set_upd _ _ _ (set_ref_cnt _ _))).
  destruct (Z.eqb_spec (ref_cnt pg) 1) as [E|E].
  - rewrite E. cbn [negb Z.eqb Z.sub Z.pos_sub Z.add Z.opp]. apply wp_bind. eapply wp_mono.
    { eapply merge_up_run; [exact HF1|destruct Hr1 as (_ & -> & _); exact HH|]. vm_compute Z.of_nat. lia. }
    intros [p' l'] s2 (C' & HF2 & HH2 & Hr2 & Hcov & Hb).
    apply wp_bind. eapply wp_mono; [by apply free_insert|]. intros _ s3 [HF3 Hr3].
    apply wp_ret. rewrite E in Hr1.
    split; [eapply ref_set_then; [done|by eapply same_refs_trans]|].
    split; [done|]. exists (c_add_head p' l' C'). split; [done|].
    intros f. rewrite covers_add, <- Hcov. tauto.
  - replace (ref_cnt pg - 1 =? 0) with false by lia. by apply wp_ret.
Qed.

End Zone.
