(* ===== verification/PageProps.v ===== *)
(** * Correctness of the page allocator

    The clients of the allocator keep a {e book}: for every block they hold its
    level and how many references they have taken.  [history] is any sequence of
    calls from boot on in which frames are given to the allocator at most once and
    a client frees or references only blocks in the book.  The abstract state is the
    set of free frames; the buddy structure is determined by it
    ([geo_canonical]). *)

From S2P Require Import Prelude Chain PageGeo Page PageInv PageAlloc.
Import Width.
Local Open Scope Z_scope.

Inductive page_op :=
  | ORelease (start : Z) (order : nat)
  | OAlloc (size_bits zone : Z)
  | OFree (addr size_bits : Z)
  | OInc (addr size_bits : Z)
  | OGet (addr size_bits : Z).

Definition page_do (zc : zone_cfg) (op : page_op) : M pstate Z :=
  match op with
  | ORelease start order => _ ← set_page_free zc order start; mret 0
  | OAlloc l zone => pages_alloc zc l zone
  | OFree addr l => pages_free zc addr l
  | OInc addr l => _ ← page_ref_inc addr l; mret 0
  | OGet addr l => page_ref_get addr l
  end.

Notation book := (gmap Z (Z * Z)).

(** The block of the book an address lies in. *)
Definition holds (B : book) (addr l x n : Z) : Prop :=
  B !! x = Some (l, n) ∧ in_block l x (PFN_DOWN addr).

Definition block_of (addr l : Z) : Z := 2 ^ l * (PFN_DOWN addr / 2 ^ l).

Definition refs_of (B : book) (x : Z) : Z := match B !! x with Some (_, n) => n | None => 0 end.

Definition book_after (B : book) (op : page_op) (r : Z) : book :=
  match op with
  | ORelease _ _ => B
  | OAlloc l _ => if r =? 0 then B else <[PFN_DOWN r := (l, 1)]> B
  | OFree addr l =>
      let x := block_of addr l in
      if r =? 1 then delete x B else <[x := (l, refs_of B x - 1)]> B
  | OInc addr l => let x := block_of addr l in <[x := (l, refs_of B x + 1)]> B
  | OGet _ _ => B
  end.

Definition owned (B : book) (q : Z) : Prop := ∃ x l n, B !! x = Some (l, n) ∧ in_block l x q.

(** The blocks given to the allocator so far. *)
Definition released (R : list (Z * Z)) (q : Z) : Prop := ∃ l x, (l, x) ∈ R ∧ in_block l x q.

Definition released_after (R : list (Z * Z)) (op : page_op) : list (Z * Z) :=
  match op with ORelease start order => (Z.of_nat order, PFN_DOWN start) :: R | _ => R end.

Definition same_frames (F F' : Z → Prop) : Prop := ∀ q, F' q ↔ F q.

Section Alloc.
Context (zc : zone_cfg).

(** An aligned run of frames on one side of the border of the linear map. *)
Definition run_of (F : Z → Prop) (l zone b : Z) : Prop :=
  (2 ^ l | b) ∧ ∀ q, in_block l b q → F q ∧ normal zc q = normal zc b ∧ page_is_zone zc q zone = true.

(** What an operation does to the set of free frames. *)
Definition page_spec (F : Z → Prop) (B : book) (op : page_op) (r : Z) (F' : Z → Prop) : Prop :=
  match op with
  | ORelease start order =>
      r = 0 ∧ ∀ q, F' q ↔ F q ∨ in_block (Z.of_nat order) (PFN_DOWN start) q
  | OAlloc l zone =>
      (r = 0 ∧ same_frames F F' ∧ ¬ ∃ b, run_of F l zone b) ∨
      (∃ x, r = x * 4096 ∧ 0 < x ∧ run_of F l zone x ∧ ∀ q, F' q ↔ F q ∧ ¬ in_block l x q)
  | OFree addr l =>
      ∃ x n, holds B addr l x n ∧
        if n =? 1 then r = 1 ∧ ∀ q, F' q ↔ F q ∨ in_block l x q else r = 0 ∧ same_frames F F'
  | OInc addr l => r = 0 ∧ same_frames F F'
  | OGet addr l => (∃ x, holds B addr l x r) ∧ same_frames F F'
  end.

(** The allocator and the book agree. *)
Record PInv (s : pstate) (C : gmap Z (list Z)) (B : book) : Prop := MkPInv {
  i_free : Free zc s C;
  i_hole : ∀ x l n, B !! x = Some (l, n) → Hole (dom (pages s)) (normal zc) C l x;
  i_refs : ∀ x l n, B !! x = Some (l, n) →
    0 < n < 2 ^ 31 ∧ ∃ pg, pages s !! x = Some pg ∧ ref_cnt pg = n;
  i_disj : ∀ x y lx nx ly ny q, B !! x = Some (lx, nx) → B !! y = Some (ly, ny) →
    in_block lx x q → in_block ly y q → x = y;
}.

(** Frames that may be given to the allocator: mapped, at or above the start of the
    linear map, aligned, and not given before. *)
Record releasable (s : pstate) (old : Z → Prop) (l x : Z) : Prop := MkReleasable {
  r_lev : 0 ≤ l < 31;
  r_pos : 0 < x;
  r_low : min_low_pfn zc ≤ x;
  r_end : x + 2 ^ l ≤ 2 ^ 52;
  r_div : (2 ^ l | x);
  r_map : ∀ q, in_block l x q → q ∈ dom (pages s);
  r_new : ∀ q, in_block l x q → ¬ old q;
}.

Definition op_ok (s : pstate) (R : list (Z * Z)) (B : book) (op : page_op) : Prop :=
  match op with
  | ORelease start order =>
      ∃ x, start = page_to_addr x ∧ releasable s (released R) (Z.of_nat order) x
  | OAlloc l _ => 0 ≤ l < 52
  | OFree addr l | OGet addr l => ∃ x n, holds B addr l x n
  | OInc addr l => ∃ x n, holds B addr l x n ∧ n < 2 ^ 31 - 1
  end.

(** Calls made from [s0], with the blocks given to the allocator and the book. *)
Inductive history (s0 : pstate) : pstate → list (Z * Z) → book → Prop :=
  | hist_start : history s0 s0 [] ∅
  | hist_step s R B op r s' :
      history s0 s R B → op_ok s R B op → page_do zc op s = Some (r, s') →
      history s0 s' (released_after R op) (book_after B op r).

(** ** The operations *)

Lemma holds_block B s C addr l x n :
  PInv s C B → holds B addr l x n → block_of addr l = x.
Proof.
  intros HI [HB Hin]. pose proof (h_ok _ _ _ _ _ (i_hole _ _ _ HI _ _ _ HB)) as [Hl _ _ [k Hk] _ _].
  unfold in_block in Hin. unfold block_of. subst x. pose proof (pow2_pos l ltac:(lia)).
  rewrite Z.mul_comm. f_equal. symmetry. apply Z.div_unique with (PFN_DOWN addr - k * 2 ^ l); lia.
Qed.

Lemma holds_mapped B s C addr l x n :
  PInv s C B → holds B addr l x n → addr_to_page addr s = Some (Some (PFN_DOWN addr), s).
Proof.
  intros HI [HB Hin]. unfold addr_to_page. rewrite pfn_to_page_run.
  rewrite decide_True; [done|]. by eapply (h_ok _ _ _ _ _ (i_hole _ _ _ HI _ _ _ HB)).
Qed.

Lemma ref_set_other s s' x n y pg :
  ref_set s s' x n → y ≠ x → pages s !! y = Some pg →
  ∃ pg', pages s' !! y = Some pg' ∧ ref_cnt pg' = ref_cnt pg.
Proof.
  intros (_ & _ & _ & Hrs) Hne Hpg. specialize (Hrs y Hne). rewrite Hpg in Hrs.
  destruct (pages s' !! y) as [pg'|]; simplify_eq/=. eauto.
Qed.

(** A new block, taken from the free frames, enters the book. *)
Lemma pinv_alloc s s' C C' B l x :
  PInv s C B → Free zc s' C' → Hole (dom (pages s')) (normal zc) C' l x → ref_set s s' x 1 →
  (∀ q, covers C' q ∨ in_block l x q ↔ covers C q) → PInv s' C' (<[x := (l, 1)]> B).
Proof.
  intros HI HF HH Hrs Hcov.
  assert (Hold : ∀ y ly ny q, B !! y = Some (ly, ny) → in_block ly y q → ¬ in_block l x q).
  { intros y ly ny q HB Hq Hq'.
    apply (h_free _ _ _ _ _ (i_hole _ _ _ HI _ _ _ HB) q); [done|]. apply Hcov. auto. }
  split; [done|..].
  - intros y ly ny. destruct (decide (x = y)) as [<-|Hne].
    { rewrite lookup_insert_eq. by intros [= <- <-]. }
    rewrite lookup_insert_ne by done. intros HB. destruct Hrs as (_ & -> & _).
    eapply hole_mono; [|by eapply i_hole]. intros q ?. apply Hcov. auto.
  - intros y ly ny. destruct (decide (x = y)) as [<-|Hne].
    { rewrite lookup_insert_eq. intros [= <- <-]. split; [done|]. apply Hrs. }
    rewrite lookup_insert_ne by done. intros HB.
    destruct (i_refs _ _ _ HI _ _ _ HB) as (? & pg & Hpg & Hr). split; [done|].
    edestruct ref_set_other as (pg' & ? & ?); [done|..|done|]; [done|]. exists pg'. by rewrite <- Hr.
  - intros y1 y2 l1 n1 l2 n2 q.
    destruct (decide (x = y1)) as [<-|], (decide (x = y2)) as [<-|];
      rewrite ?lookup_insert_eq, ?lookup_insert_ne by done; try done.
    + intros [= <- <-] HB ??. exfalso. by eapply (Hold y2).
    + intros HB [= <- <-] ??. exfalso. by eapply (Hold y1).
    + apply (i_disj _ _ _ HI).
Qed.

(** A block of the book changes its count. *)
Lemma pinv_refs s s' C B l x n n' :
  PInv s C B → B !! x = Some (l, n) → Free zc s' C → ref_set s s' x n' → 0 < n' < 2 ^ 31 →
  PInv s' C (<[x := (l, n')]> B).
Proof.
  intros HI HB HF Hrs Hn'.
  assert (Hlk : ∀ y ly ny, <[x := (l, n')]> B !! y = Some (ly, ny) →
    ∃ my, B !! y = Some (ly, my) ∧ (y ≠ x → my = ny)).
  { intros y ly ny. destruct (decide (x = y)) as [<-|].
    - rewrite lookup_insert_eq. intros [= <- <-]. by exists n.
    - rewrite lookup_insert_ne by done. eauto. }
  split; [done|..].
  - intros y ly ny (my & HBy & _)%Hlk. destruct Hrs as (_ & -> & _). by eapply i_hole.
  - intros y ly ny HBy. destruct (decide (x = y)) as [<-|Hne].
    { rewrite lookup_insert_eq in HBy. simplify_eq. split; [done|]. apply Hrs. }
    apply Hlk in HBy as (my & HBy & <-); [|done].
    destruct (i_refs _ _ _ HI _ _ _ HBy) as (? & pg & Hpg & Hr). split; [done|].
    edestruct ref_set_other as (pg' & ? & ?); [done|..|done|]; [done|]. exists pg'. by rewrite <- Hr.
  - intros y1 y2 l1 n1 l2 n2 q (m1 & ? & _)%Hlk (m2 & ? & _)%Hlk. by eapply (i_disj _ _ _ HI).
Qed.

(** A block leaves the book and its frames become free. *)
Lemma pinv_free s s' C C' B l x n n' :
  PInv s C B → B !! x = Some (l, n) → Free zc s' C' → ref_set s s' x n' →
  (∀ q, covers C' q ↔ covers C q ∨ in_block l x q) → PInv s' C' (delete x B).
Proof.
  intros HI HB HF Hrs Hcov. split; [done|..].
  - intros y ly ny [Hne HBy]%lookup_delete_Some. destruct Hrs as (_ & -> & _).
    pose proof (i_hole _ _ _ HI _ _ _ HBy) as HH. split; [apply HH|].
    intros q Hq [Hc|Hc]%Hcov; [by apply (h_free _ _ _ _ _ HH q)|].
    apply Hne. by eapply (i_disj _ _ _ HI).
  - intros y ly ny [Hne HBy]%lookup_delete_Some.
    destruct (i_refs _ _ _ HI _ _ _ HBy) as (? & pg & Hpg & Hr). split; [done|].
    edestruct ref_set_other as (pg' & ? & ?); [done|..|done|]; [done|]. exists pg'. by rewrite <- Hr.
  - intros y1 y2 l1 n1 l2 n2 q [_ ?]%lookup_delete_Some [_ ?]%lookup_delete_Some.
    by eapply (i_disj _ _ _ HI).
Qed.

Definition op_post (s : pstate) (C : gmap Z (list Z)) (B : book) (op : page_op) (r : Z) (s' : pstate) : Prop :=
  dom (pages s') = dom (pages s) ∧
  ∃ C', PInv s' C' (book_after B op r) ∧ page_spec (covers C) B op r (covers C').

Lemma alloc_op s C B l zone :
  PInv s C B → 0 ≤ l < 52 → wp (pages_alloc zc l zone) s (op_post s C B (OAlloc l zone)).
Proof.
  intros HI Hl. unfold pages_alloc. apply wp_bind.
  eapply wp_mono; [apply (pages_alloc_run zc s C l zone); [apply HI|done]|].
  intros [x|] s' Hpost; apply wp_ret; unfold op_post; simpl.
  - destruct Hpost as (C' & HF & HH & Hrs & Hcov & Hz).
    pose proof (h_ok _ _ _ _ _ HH) as [_ Hx He Hd _ Hzn]. pose proof (pow2_pos l ltac:(lia)).
    assert (Hxr : 0 ≤ x < 2 ^ 52) by lia.
    split; [apply Hrs|]. exists C'. rewrite pfn_of_addr, page_to_addr_small by done.
    replace (x * 4096 =? 0) with false by lia.
    split; [by eapply pinv_alloc|]. right. exists x. split_and!; try done.
    + split; [done|]. intros q Hq. split_and!; auto. apply Hcov. auto.
    + intros q. rewrite <- Hcov. pose proof (h_free _ _ _ _ _ HH q). tauto.
  - destruct Hpost as [-> Hno]. split; [done|]. exists C. split; [done|]. left. split_and!; [done|done|].
    intros (b & Hd & Hb). pose proof (f_geo _ _ _ (i_free _ _ _ HI)) as HG.
    destruct (cover_single _ _ _ HG (Z.to_nat l) b) as (m & y & Hm & Hy & ? & ?).
    { by rewrite Z2Nat.id by lia. }
    { rewrite Z2Nat.id by lia. intros q Hq. split; apply (Hb q Hq). }
    rewrite Z2Nat.id in * by lia. specialize (Hno m y Hm Hy).
    destruct (Hb b) as (_ & _ & Hbz); [apply in_block_self; lia|].
    erewrite (zone_block zc _ m y b) in Hbz; [congruence|by apply HG|].
    unfold in_block. pose proof (pow2_pos l ltac:(lia)). lia.
Qed.

Lemma free_op s C B addr l :
  PInv s C B → (∃ x n, holds B addr l x n) → wp (pages_free zc addr l) s (op_post s C B (OFree addr l)).
Proof.
  intros HI (x & n & Hh). pose proof (holds_block _ _ _ _ _ _ _ HI Hh) as Hx.
  unfold pages_free. apply wp_bind. unfold wp at 1. erewrite holds_mapped by done.
  pose proof Hh as [HB Hin]. destruct (i_refs _ _ _ HI _ _ _ HB) as (Hn & pg & Hpg & Hr).
  eapply wp_mono; [eapply pages_free_run; [apply HI|by eapply i_hole|done|done|lia]|].
  rewrite Hr. intros r s' [Hrs Hpost]. unfold op_post. simpl. rewrite Hx.
  split; [apply Hrs|].
  destruct (Z.eqb_spec n 1) as [->|Hne].
  - destruct Hpost as (-> & C' & HF & Hcov). exists C'. split; [by eapply pinv_free|].
    exists x, 1. done.
  - destruct Hpost as [-> HF]. exists C. simpl. unfold refs_of. rewrite HB. split.
    + eapply pinv_refs; try done; lia.
    + exists x, n. split; [done|]. replace (n =? 1) with false by lia. done.
Qed.

Lemma inc_op s C B addr l :
  PInv s C B → (∃ x n, holds B addr l x n ∧ n < 2 ^ 31 - 1) →
  wp (_ ← page_ref_inc addr l; mret 0) s (op_post s C B (OInc addr l)).
Proof.
  intros HI (x & n & Hh & Hlt). pose proof (holds_block _ _ _ _ _ _ _ HI Hh) as Hx.
  unfold page_ref_inc. do 2 apply wp_bind. unfold wp at 1. erewrite holds_mapped by done.
  pose proof Hh as [HB Hin]. destruct (i_refs _ _ _ HI _ _ _ HB) as (Hn & pg & Hpg & Hr).
  pose proof (i_hole _ _ _ HI _ _ _ HB) as HH. pose proof (h_ok _ _ _ _ _ HH) as [Hl Hx0 He Hd _ _].
  unfold _pages_ref_inc. apply wp_bind. unfold wp at 1.
  rewrite (group_head_run s l x) by (done || lia).
  apply wp_bind. unfold wp at 1. rewrite pfn_to_page_run, decide_True by (by eapply elem_of_dom_2).
  apply wp_bind. eapply wp_get_page; [done|]. apply wp_bind, wp_assert; [lia|].
  eapply wp_upd_page; [done|]. apply wp_ret. rewrite Hr.
  pose proof (ref_set_upd s x pg (set_ref_cnt (n + 1) pg) Hpg) as Hrs.
  split; [apply Hrs|]. exists C. simpl. unfold refs_of. rewrite Hx, HB.
  split; [|done].
  eapply pinv_refs; [done|done| |exact Hrs|lia].
  assert (Hun : c_linked x C = false) by (by eapply hole_c_unlinked; [apply HI|]).
  eapply free_upd; [apply HI|done|done|]. simpl. by apply (l_bits _ _ (f_links _ _ _ (i_free _ _ _ HI)) x).
Qed.

Lemma get_op s C B addr l :
  PInv s C B → (∃ x n, holds B addr l x n) → wp (page_ref_get addr l) s (op_post s C B (OGet addr l)).
Proof.
  intros HI (x & n & Hh). unfold page_ref_get. apply wp_bind. unfold wp at 1.
  erewrite holds_mapped by done.
  pose proof Hh as [HB Hin]. destruct (i_refs _ _ _ HI _ _ _ HB) as (Hn & pg & Hpg & Hr).
  pose proof (h_ok _ _ _ _ _ (i_hole _ _ _ HI _ _ _ HB)) as [Hl Hx0 He Hd _ _].
  unfold _pages_ref_get. apply wp_bind. unfold wp at 1.
  rewrite (group_head_run s l x) by (done || lia).
  apply wp_bind. unfold wp at 1. rewrite pfn_to_page_run, decide_True by (by eapply elem_of_dom_2).
  apply wp_bind. eapply wp_get_page; [done|]. apply wp_ret. split; [done|]. exists C. rewrite Hr. simpl.
  split; [done|]. split; [by exists x|done].
Qed.

Lemma pinv_start s C : Free zc s C → PInv s C ∅.
Proof. intros HF. by split; [|intros *; rewrite lookup_empty..]. Qed.


(** ** Boot *)

(** Before any page is given to the allocator: all descriptors carry the mark of a
    page that is not free and the lists are empty. *)
Definition booted (s : pstate) : Prop :=
  (∀ p pg, pages s !! p = Some pg → size_bits pg = 64) ∧
  (∀ l, 0 ≤ l < 52 → page_list s !! l = Some None).

Lemma free_boot s : booted s → Free zc s ∅.
Proof.
  intros [Hb Hh]. assert (Hg : ∀ l, c_get l (∅ : gmap Z (list Z)) = []).
  { intros l. unfold c_get. by rewrite lookup_empty. }
  split; split; intros *; rewrite ?Hg; try (by intros ?%not_elem_of_nil).
  - apply c_wf_empty.
  - apply Hh.
  - done.
  - intros Hp _. by eapply Hb.
Qed.

(** The linear map: the frames from [min_low_pfn] to [max_low_pfn], none of which is
    mapped at address 0. *)
Record zone_sane : Prop := ZoneSane {
  z_low : 0 ≤ min_low_pfn zc ≤ max_low_pfn zc;
  z_high : max_low_pfn zc < 2 ^ 52;
  z_off : 0 ≤ zone_normal_pvoffset zc < 2 ^ 64;
  z_null : ¬ (min_low_pfn zc * 4096 ≤ zone_normal_pvoffset zc ≤ max_low_pfn zc * 4096);
}.

Lemma normal_iff q :
  zone_sane → 0 ≤ q < 2 ^ 52 → normal zc q = (min_low_pfn zc <=? q) && (q <=? max_low_pfn zc).
Proof.
  intros [Hl Hh Ho Hn] Hq. unfold normal, page_is_zone, memory_is_zone. cbn [Z.eqb ZONE_NORMAL].
  unfold page_address. fold (page_to_addr (max_low_pfn zc)) (page_to_addr (min_low_pfn zc)).
  rewrite !page_to_addr_small by lia. rewrite andb_comm.
  replace (min_low_pfn zc * 4096 <=? q * 4096) with (min_low_pfn zc <=? q) by lia.
  replace (q * 4096 <=? max_low_pfn zc * 4096) with (q <=? max_low_pfn zc) by lia.
  destruct ((min_low_pfn zc <=? q) && (q <=? max_low_pfn zc)) eqn:E; [|done].
  apply andb_true_iff in E as [?%Z.leb_le ?%Z.leb_le].
  apply negb_true_iff, Z.eqb_neq. unfold u64, wrap. intros Hz.
  apply Z.mod_divide in Hz as [k Hk]; [|done]. nia.
Qed.

(** At or above [min_low_pfn] a run of frames whose ends are on one side of the
    border is on one side of it. *)
Lemma ends_uniform x n q :
  zone_sane → min_low_pfn zc ≤ x → x + n ≤ 2 ^ 52 → x ≤ q < x + n →
  normal zc x = normal zc (x + n - 1) → normal zc q = normal zc x.
Proof. intros Hs Hx Hn Hq. pose proof (z_low Hs). rewrite !normal_iff by (done || lia). lia. Qed.

Lemma pinv_grow s s' C C' B l x n :
  PInv s C B → Free zc s' C' → ref_set s s' x n →
  (∀ q, in_block l x q → ¬ owned B q) → 0 ≤ l →
  (∀ q, covers C' q ↔ covers C q ∨ in_block l x q) → PInv s' C' B.
Proof.
  intros HI HF Hrs Hno Hl Hcov. split; [done|..|apply HI].
  - intros y ly ny HB. destruct Hrs as (_ & -> & _).
    pose proof (i_hole _ _ _ HI _ _ _ HB) as HH. split; [apply HH|].
    intros q Hq [Hc|Hc]%Hcov; [by apply (h_free _ _ _ _ _ HH q)|].
    apply (Hno q Hc). by exists y, ly, ny.
  - intros y ly ny HB. destruct (i_refs _ _ _ HI _ _ _ HB) as (? & pg & Hpg & Hr). split; [done|].
    assert (y ≠ x).
    { intros ->. apply (Hno x (in_block_self _ _ Hl)). exists x, ly, ny. split; [done|].
      apply in_block_self, (i_hole _ _ _ HI _ _ _ HB). }
    edestruct ref_set_other as (pg' & ? & ?); [done|..|done|]; [done|]. exists pg'. by rewrite <- Hr.
Qed.

Lemma set_page_free_uniform s C B l x :
  zone_sane → PInv s C B → releasable s (λ q, covers C q ∨ owned B q) l x → normal zc x = normal zc (x + 2 ^ l - 1) →
  wp (_ ← upd_page x (set_size_bits ARCH_ADDRESS_WIDTH_BITS); _ ← upd_page x (set_ref_cnt 1);
      _ ← _pages_free zc x l; mret tt) s
     (λ _ s', dom (pages s') = dom (pages s) ∧ page_nr s' = page_nr s ∧
       ∃ C', PInv s' C' B ∧ ∀ q, covers C' q ↔ covers C q ∨ in_block l x q).
Proof.
  intros Hzs HI [Hl Hx Hlow He Hd Hm Hnew] Hends.
  assert (HH : Hole (dom (pages s)) (normal zc) C l x).
  { split; [split|]; try done; try lia; [|naive_solver]. intros q Hq. by apply (ends_uniform x (2 ^ l)). }
  destruct (hole_desc _ _ _ _ _ HH) as [pg Hpg].
  assert (Hun : c_linked x C = false) by (by eapply hole_c_unlinked; [apply HI|]).
  apply wp_bind. eapply wp_upd_page; [done|].
  apply wp_bind. eapply wp_upd_page; [simpl; apply lookup_insert_eq|]. simpl.
  rewrite insert_insert_eq, set_pages_twice.
  set (pg1 := set_ref_cnt 1 _). set (s1 := set_pages _ s).
  assert (HF1 : Free zc s1 C) by (eapply free_upd; [apply HI|done..]).
  pose proof (ref_set_upd s x pg pg1 Hpg) as Hr1. fold s1 in Hr1.
  assert (Hd1 : dom (pages s1) = dom (pages s)) by apply Hr1.
  apply wp_bind. eapply wp_mono.
  { eapply (pages_free_run _ _ _ l x x pg1); [done|by rewrite Hd1|apply in_block_self; lia| |done].
    simpl. apply lookup_insert_eq. }
  intros r s' (Hr2 & _ & C' & HF' & Hcov). apply wp_ret.
  assert (Hrs : ref_set s s' x 0).
  { destruct Hr1 as (? & ? & _ & Hf1), Hr2 as (? & ? & ? & Hf2). split_and!; try congruence; [done|].
    intros q Hq. by rewrite Hf2, Hf1. }
  split_and!; [apply Hrs|apply Hrs|]. exists C'. split; [|done].
  eapply (pinv_grow _ _ _ _ _ l x); [done|done|done|naive_solver|lia|done].
Qed.

(** The comparison of the zones of the two ends. *)
Lemma compare_ends s l x (halves : M pstate unit) (whole : Z → M pstate unit) Φ :
  0 ≤ l < 31 → 0 < x → x + 2 ^ l ≤ 2 ^ 52 → (∀ q, in_block l x q → q ∈ dom (pages s)) →
  (normal zc x = normal zc (x + 2 ^ l - 1) → wp (whole x) s Φ) →
  (normal zc x ≠ normal zc (x + 2 ^ l - 1) → wp halves s Φ) →
  wp (_ ← massert (l <? 31);
      p1 ← pfn_to_page (PFN_DOWN (page_to_addr x));
      p1 ← lift p1;
      p2 ← pfn_to_page (u64 (u64 (PFN_DOWN (page_to_addr x) + Z.shiftl 1 l) - 1));
      p2 ← lift p2;
      if Bool.eqb (page_is_zone zc p1 ZONE_NORMAL) (page_is_zone zc p2 ZONE_NORMAL)
      then whole p1 else halves) s Φ.
Proof.
  intros Hl Hx He Hm Hw Hh. pose proof (pow2_pos l ltac:(lia)).
  rewrite pfn_of_addr, Z.shiftl_mul_pow2, Z.mul_1_l, (u64_small (x + 2 ^ l)), u64_small by lia.
  apply wp_bind, wp_assert; [lia|].
  apply wp_bind. unfold wp at 1. rewrite pfn_to_page_run, decide_True by (apply Hm; unfold in_block; lia).
  apply wp_bind. eapply wp_lift; [done|].
  apply wp_bind. unfold wp at 1. rewrite pfn_to_page_run, decide_True by (apply Hm; unfold in_block; lia).
  apply wp_bind. eapply wp_lift; [done|].
  fold (normal zc x) (normal zc (x + 2 ^ l - 1)). destruct (Bool.eqb _ _) eqn:E.
  - by apply Hw, eqb_prop.
  - apply Hh. intros Heq. rewrite Heq, eqb_reflx in E. done.
Qed.

Lemma set_page_free_run order s C B x :
  zone_sane → PInv s C B → releasable s (λ q, covers C q ∨ owned B q) (Z.of_nat order) x →
  wp (set_page_free zc order (page_to_addr x)) s
     (λ _ s', dom (pages s') = dom (pages s) ∧ page_nr s' = page_nr s ∧
       ∃ C', PInv s' C' B ∧ ∀ q, covers C' q ↔ covers C q ∨ in_block (Z.of_nat order) x q).
Proof.
  intros Hzs. revert s C x. induction order as [|n IH]; intros s C x HI Hrel;
    pose proof Hrel as [Hlev Hx Hlow He Hd Hm Hnew].
  { refine (compare_ends s 0 x fault _ _ _ _ _ _ _ _); try done.
    - intros. by apply set_page_free_uniform.
    - change (2 ^ 0) with 1. by replace (x + 1 - 1) with x by lia. }
  set (l := Z.of_nat (S n)) in *.
  refine (compare_ends s l x _ _ _ _ _ _ _ _ _); [lia|done|done|done|..].
  { intros. by apply set_page_free_uniform. }
  intros _.
  assert (Hl : l = Z.of_nat n + 1) by lia. set (k := Z.of_nat n) in *.
  rewrite Hl in Hd, He, Hm, Hnew. pose proof (pow2_S k ltac:(lia)) as HS. rewrite HS in *.
  pose proof (pow2_pos k ltac:(lia)).
  assert (Hdk : (2 ^ k | x)) by (destruct Hd as [c ->]; exists (c * 2); lia).
  apply wp_bind. eapply wp_mono.
  { apply IH; [done|]. split; try done; try lia.
    - intros q Hq. apply Hm, halves_cover; [lia|auto].
    - intros q Hq. apply Hnew, halves_cover; [lia|auto]. }
  intros _ s1 (Hd1 & Hn1 & C1 & HI1 & Hc1).
  replace (u64 _) with (page_to_addr (x + 2 ^ k)).
  2: { unfold PAGE_SIZE_SHIFT. rewrite !page_to_addr_small, Z.shiftl_mul_pow2 by lia.
       rewrite Z.mul_1_l, Z.pow_add_r by lia. change (2 ^ 12) with 4096. rewrite u64_small; lia. }
  eapply wp_mono.
  { apply (IH s1 C1); [done|]. split; try lia.
    - apply Z.divide_add_r; [done|apply Z.divide_refl].
    - intros q Hq. rewrite Hd1. apply Hm, halves_cover; [lia|auto].
    - intros q Hq. pose proof (Hnew q) as Hc. rewrite halves_cover in Hc by lia.
      rewrite Hc1. unfold in_block in *. intros [[?|?]|?]; [tauto|lia|tauto]. }
  intros _ s2 (Hd2 & Hn2 & C2 & HI2 & Hc2). split_and!; [congruence..|]. exists C2. split; [done|].
  intros q. rewrite Hc2, Hc1, Hl, halves_cover by lia. tauto.
Qed.

(** ** Every operation *)

Lemma release_op s C B R start order :
  zone_sane → PInv s C B → (∀ q, covers C q ∨ owned B q ↔ released R q) →
  op_ok s R B (ORelease start order) →
  wp (_ ← set_page_free zc order start; mret 0) s (op_post s C B (ORelease start order)).
Proof.
  intros Hzs HI Hcons (x & -> & Hrel). apply wp_bind.
  assert (Hrel' : releasable s (λ q, covers C q ∨ owned B q) (Z.of_nat order) x).
  { destruct Hrel. split; try done. setoid_rewrite Hcons. done. }
  eapply wp_mono; [by apply set_page_free_run|]. intros _ s' (Hdom & _ & C' & HI' & Hcov).
  apply wp_ret. split; [done|]. exists C'. split; [done|]. simpl. split; [done|]. rewrite pfn_of_addr; [done|].
  destruct Hrel as [? ? _ ? _ _ _]. pose proof (pow2_pos (Z.of_nat order) ltac:(lia)). lia.
Qed.

Lemma page_do_run s R C B op :
  zone_sane → PInv s C B → (∀ q, covers C q ∨ owned B q ↔ released R q) → op_ok s R B op →
  wp (page_do zc op) s (op_post s C B op).
Proof.
  intros Hzs HI Hcons Hok. destruct op; simpl.
  - by apply (release_op s C B R).
  - by apply alloc_op.
  - by apply free_op.
  - by apply inc_op.
  - by apply get_op.
Qed.

Lemma owned_insert B x l n q :
  (∀ m k, B !! x = Some (m, k) → m = l) →
  owned (<[x := (l, n)]> B) q ↔ owned B q ∨ in_block l x q.
Proof.
  intros Hx. unfold owned. split.
  - intros (y & ly & ny & HB & Hq). destruct (decide (x = y)) as [<-|].
    + rewrite lookup_insert_eq in HB. simplify_eq. auto.
    + rewrite lookup_insert_ne in HB by done. left. by exists y, ly, ny.
  - intros [(y & ly & ny & HB & Hq)|Hq].
    + destruct (decide (x = y)) as [<-|].
      * exists x, l, n. rewrite lookup_insert_eq. by rewrite <- (Hx _ _ HB).
      * exists y, ly, ny. by rewrite lookup_insert_ne.
    + exists x, l, n. by rewrite lookup_insert_eq.
Qed.

Lemma owned_delete s C B x l n q :
  PInv s C B → B !! x = Some (l, n) → owned B q ↔ owned (delete x B) q ∨ in_block l x q.
Proof.
  intros HI HB. unfold owned. split.
  - intros (y & ly & ny & HBy & Hq). destruct (decide (x = y)) as [<-|].
    + simplify_eq. auto.
    + left. exists y, ly, ny. by rewrite lookup_delete_ne.
  - intros [(y & ly & ny & [_ HBy]%lookup_delete_Some & Hq)|Hq]; [by exists y, ly, ny|by exists x, l, n].
Qed.

(** No frame is lost or made up. *)
Lemma spec_conserves s C B op r F' q :
  PInv s C B → page_spec (covers C) B op r F' → (∃ R, op_ok s R B op) →
  F' q ∨ owned (book_after B op r) q ↔
  (covers C q ∨ owned B q) ∨
    match op with ORelease start order => in_block (Z.of_nat order) (PFN_DOWN start) q | _ => False end.
Proof.
  intros HI Hsp [R Hok]. destruct op as [start order|l zone|addr l|addr l|addr l]; simpl in *.
  - destruct Hsp as [-> HF]. rewrite HF. tauto.
  - destruct Hsp as [(-> & HF & _)|(x & -> & Hx & [Hd Hrun] & HF)]; [rewrite (HF q); simpl; tauto|].
    replace (x * 4096 =? 0) with false by lia. unfold PFN_DOWN. rewrite Z.shiftr_div_pow2 by done.
    change (2 ^ PAGE_SIZE_SHIFT) with 4096. rewrite Z.div_mul by done.
    rewrite HF, owned_insert.
    + assert (in_block l x q → covers C q) by (intros Hq; apply (Hrun q Hq)).
      destruct (decide (x ≤ q < x + 2 ^ l)); unfold in_block in *; tauto.
    + intros m k HB. exfalso. pose proof (i_hole _ _ _ HI _ _ _ HB) as HH.
      apply (h_free _ _ _ _ _ HH x); [apply in_block_self, HH|]. apply Hrun, in_block_self. lia.
  - destruct Hsp as (x & n & Hh & HF). pose proof (holds_block _ _ _ _ _ _ _ HI Hh) as ->.
    destruct Hh as [HB _]. destruct (n =? 1); destruct HF as [-> HF]; rewrite (HF q); simpl.
    + rewrite (owned_delete s C B x l n q) by done. tauto.
    + rewrite owned_insert by naive_solver. assert (in_block l x q → owned B q) by (by exists x, l, n). tauto.
  - destruct Hsp as [-> HF]. rewrite (HF q). destruct Hok as (x & n & Hh & _).
    pose proof (holds_block _ _ _ _ _ _ _ HI Hh) as ->. destruct Hh as [HB _].
    rewrite owned_insert by naive_solver. assert (in_block l x q → owned B q) by (by exists x, l, n). tauto.
  - destruct Hsp as [_ HF]. rewrite (HF q). tauto.
Qed.

Lemma history_inv s0 s R B :
  zone_sane → booted s0 → history s0 s R B →
  ∃ C, PInv s C B ∧ ∀ q, covers C q ∨ owned B q ↔ released R q.
Proof.
  intros Hzs Hb. induction 1 as [|s R B op r s' _ (C & HI & Hcons) Hok Hrun].
  - exists ∅. split; [by apply pinv_start, free_boot|]. intros q. split.
    + intros [(l & x & Hin & _)|(x & l & n & HB & _)]; [|by rewrite lookup_empty in HB].
      unfold c_get in Hin. rewrite lookup_empty in Hin. by apply not_elem_of_nil in Hin.
    + intros (l & x & []%not_elem_of_nil & _).
  - pose proof (page_do_run s R C B op Hzs HI Hcons Hok) as Hw. unfold wp in Hw. rewrite Hrun in Hw.
    destruct Hw as (_ & C' & HI' & Hsp). exists C'. split; [done|]. intros q.
    rewrite (spec_conserves s C B op r (covers C') q) by (done || eauto). rewrite Hcons.
    destruct op; simpl; try tauto. unfold released. setoid_rewrite elem_of_cons. split.
    + intros [(l & x & ? & ?)|Hq]; [eauto|]. eexists _, _. split; [by left|done].
    + intros (l & x & [[= -> ->]|Hin] & Hq); [by right|]. left. eauto.
Qed.

(** C4: From boot on, whatever blocks are given to the allocator and whatever its
    clients allocate, reference and free: two blocks held by clients never overlap;
    no frame of a held block is free; the free frames and the held frames together
    are exactly the frames given to the allocator; and the next legal call runs
    without a fault and does to the set of free frames what its specification says
    (in particular an allocation fails only if no aligned run of free frames of the
    zone exists). *)
Theorem page_history_correct s0 s R B :
  zone_sane → booted s0 → history s0 s R B →
  (∀ x y lx nx ly ny q, B !! x = Some (lx, nx) → B !! y = Some (ly, ny) →
    in_block lx x q → in_block ly y q → x = y) ∧
  ∃ C, Free zc s C ∧
    (∀ q, ¬ (covers C q ∧ owned B q)) ∧
    (∀ q, covers C q ∨ owned B q ↔ released R q) ∧
    ∀ op, op_ok s R B op → ∃ r s' C',
      page_do zc op s = Some (r, s') ∧ Free zc s' C' ∧ page_spec (covers C) B op r (covers C').
Proof.
  intros Hzs Hb Hh. destruct (history_inv s0 s R B Hzs Hb Hh) as (C & HI & Hcons).
  split; [apply HI|]. exists C. split_and!; [apply HI| |done|].
  - intros q [Hc (x & l & n & HB & Hq)]. by apply (h_free _ _ _ _ _ (i_hole _ _ _ HI _ _ _ HB) q).
  - intros op Hok. pose proof (page_do_run s R C B op Hzs HI Hcons Hok) as Hw.
    apply wp_run in Hw as (r & s' & Hrun & _ & C' & HI' & Hsp). exists r, s', C'. split_and!; [done| |done].
    apply HI'.
Qed.

(** C29: Freeing undoes allocation: after a successful allocation, freeing the
    address it returned succeeds and leaves every free list with the same blocks as
    before. *)
Theorem alloc_free_roundtrip s C B l zone r s1 :
  PInv s C B → 0 ≤ l < 52 → pages_alloc zc l zone s = Some (r, s1) → r ≠ 0 →
  ∃ s2 C2, pages_free zc r l s1 = Some (1, s2) ∧ Free zc s2 C2 ∧
    ∀ m x, x ∈ c_get m C2 ↔ x ∈ c_get m C.
Proof.
  intros HI Hl Hrun Hr. pose proof (alloc_op s C B l zone HI Hl) as Hw.
  unfold wp in Hw. rewrite Hrun in Hw. destruct Hw as (Hd1 & C1 & HI1 & Hsp). simpl in Hsp.
  destruct Hsp as [[-> _]|(x & -> & Hx & [_ Hrn] & Hcov)]; [done|]. simpl in HI1.
  replace (x * 4096 =? 0) with false in HI1 by lia.
  assert (Hpfn : PFN_DOWN (x * 4096) = x).
  { unfold PFN_DOWN. rewrite Z.shiftr_div_pow2 by done. by apply Z.div_mul. }
  rewrite Hpfn in HI1. set (B1 := <[x := (l, 1)]> B) in *.
  assert (Hh : holds B1 (x * 4096) l x 1).
  { split; [apply lookup_insert_eq|]. rewrite Hpfn. apply in_block_self. lia. }
  pose proof (free_op s1 C1 B1 (x * 4096) l HI1 ltac:(by exists x, 1)) as Hw.
  apply wp_run in Hw as (r2 & s2 & Hrun2 & Hd2 & C2 & HI2 & x' & n' & Hh' & Hpost).
  assert (x' = x) as ->.
  { by rewrite <- (holds_block _ _ _ _ _ _ _ HI1 Hh), <- (holds_block _ _ _ _ _ _ _ HI1 Hh'). }
  assert (n' = 1) as -> by (destruct Hh as [E _], Hh' as [E' _]; congruence).
  destruct Hpost as [-> Hcov2]. exists s2, C2. split_and!; [done|apply HI2|].
  intros m y. eapply geo_canonical; [|apply HI|].
  - rewrite <- Hd1, <- Hd2. apply HI2.
  - intros q. rewrite Hcov2, Hcov. assert (in_block l x q → covers C q) by (intros Hq; apply (Hrn q Hq)).
    destruct (decide (x ≤ q < x + 2 ^ l)); unfold in_block in *; tauto.
Qed.

(** ** Statistics *)

Lemma count_list_run s l prev xs fuel total :
  seg (pages s) l prev xs None → (length xs < fuel)%nat → 0 ≤ l →
  0 ≤ total → total + Z.of_nat (length xs) * 2 ^ l < 2 ^ 64 →
  count_list fuel (first xs None) l total s = Some (total + Z.of_nat (length xs) * 2 ^ l, s).
Proof.
  revert prev fuel total.
  induction xs as [|x xs IH]; intros prev [|fuel] total Hs Hf Hl Ht Hb; simpl in Hf; try lia; simpl.
  { unfold mret, M_ret. do 2 f_equal. lia. }
  destruct Hs as [(pg & Hpg & _ & Hn & _) Hs]. pose proof (pow2_pos l Hl).
  erewrite bind_run by (unfold get_page; by rewrite Hpg). rewrite Hn.
  cbn [length] in Hb. rewrite Nat2Z.inj_succ in Hb.
  rewrite Z.shiftl_mul_pow2, Z.mul_1_l, u64_small by nia.
  erewrite IH; [|done|lia|lia|lia|nia]. do 2 f_equal. lia.
Qed.

Definition level_frames (C : gmap Z (list Z)) (l : Z) : list Z := c_get l C ≫= λ x, seqZ x (2 ^ l).

Lemma length_level_frames C l :
  0 ≤ l → Z.of_nat (length (level_frames C l)) = Z.of_nat (length (c_get l C)) * 2 ^ l.
Proof.
  intros Hl. unfold level_frames. induction (c_get l C) as [|x xs IH]; [done|].
  rewrite bind_cons. cbn [length]. pose proof (pow2_pos l Hl).
  rewrite length_app, length_seqZ, Nat2Z.inj_add, IH, Z2Nat.id by lia. lia.
Qed.

Lemma elem_of_level_frames C l q : q ∈ level_frames C l ↔ ∃ x, x ∈ c_get l C ∧ in_block l x q.
Proof.
  unfold level_frames. rewrite list_elem_of_bind. setoid_rewrite elem_of_seqZ.
  unfold in_block. naive_solver.
Qed.

Lemma level_frames_nodup s C l : Free zc s C → NoDup (level_frames C l).
Proof.
  intros HF. apply NoDup_bind.
  - intros x y q Hx Hy Hq1 Hq2. apply elem_of_seqZ in Hq1, Hq2.
    by destruct (g_disj _ _ _ (f_geo _ _ _ HF) l x l y q Hx Hy).
  - intros. apply NoDup_seqZ.
  - apply (f_links _ _ _ HF).
Qed.

(** The free frames of [n] levels from [i] on. *)
Definition free_frames (C : gmap Z (list Z)) (n : nat) (i : Z) : list Z :=
  seqZ i (Z.of_nat n) ≫= level_frames C.

Lemma free_frames_S C n i : free_frames C (S n) i = level_frames C i ++ free_frames C n (i + 1).
Proof. unfold free_frames. rewrite seqZ_cons by lia. simpl. do 2 f_equal. f_equal; lia. Qed.

Lemma count_lists_run s C n i total :
  Free zc s C → 0 ≤ i → i + Z.of_nat n ≤ 52 → 0 ≤ total →
  total + Z.of_nat (length (free_frames C n i)) < 2 ^ 64 →
  count_lists n i total s = Some (total + Z.of_nat (length (free_frames C n i)), s).
Proof.
  intros HF. pose proof (f_links _ _ _ HF) as HL. revert i total.
  induction n as [|n IH]; intros i total Hi Hn Ht Hb; cbn [count_lists].
  { unfold free_frames. simpl. by rewrite Z.add_0_r. }
  rewrite free_frames_S, length_app in *.
  assert (HLi := length_level_frames C i Hi).
  erewrite bind_run by (unfold get_head; rewrite (l_heads _ _ HL) by lia; done).
  erewrite bind_run by done. rewrite head_first.
  erewrite bind_run.
  2: { eapply count_list_run; [apply HL| |done|done|lia]. pose proof (links_length s C i HL). lia. }
  rewrite IH; [|lia..]. do 2 f_equal. lia.
Qed.

Lemma free_frames_nodup s C : Free zc s C → NoDup (free_frames C 52 0).
Proof.
  intros HF. apply NoDup_bind; [|intros; by eapply level_frames_nodup|apply NoDup_seqZ].
  intros l m q _ _ (x & Hx & Hqx)%elem_of_level_frames (y & Hy & Hqy)%elem_of_level_frames.
  by destruct (g_disj _ _ _ (f_geo _ _ _ HF) l x m y q Hx Hy).
Qed.

Lemma elem_of_free_frames s C q : Free zc s C → q ∈ free_frames C 52 0 ↔ covers C q.
Proof.
  intros HF. unfold free_frames, covers. rewrite list_elem_of_bind.
  setoid_rewrite elem_of_level_frames. setoid_rewrite elem_of_seqZ. split; [naive_solver|].
  intros (l & x & Hx & Hq). exists l. split; [by eauto|].
  pose proof (l_lev _ _ (f_links _ _ _ HF) _ _ Hx). lia.
Qed.

(** The free frames are frames below [2 ^ 52]. *)
Lemma free_frames_bound s C : Free zc s C → Z.of_nat (length (free_frames C 52 0)) ≤ 2 ^ 52.
Proof.
  intros HF. pose proof (free_frames_nodup s C HF) as Hnd.
  rewrite <- (size_list_to_set (C := gset Z)) by done.
  trans (Z.of_nat (size (list_to_set (C := gset Z) (seqZ 0 (2 ^ 52))))).
  - apply Nat2Z.inj_le, subseteq_size. intros q. rewrite !elem_of_list_to_set, elem_of_seqZ.
    rewrite (elem_of_free_frames s) by done. intros (l & x & Hx & Hq).
    destruct (g_block _ _ _ (f_geo _ _ _ HF) _ _ Hx). unfold in_block in Hq. lia.
  - rewrite size_list_to_set by apply NoDup_seqZ. rewrite length_seqZ. lia.
Qed.

(** [page_get_info] reports exactly the number of frames that were given to
    the allocator and are held by nobody. *)
Theorem page_get_info_counts s0 s R B :
  zone_sane → booted s0 → history s0 s R B →
  ∃ fs, NoDup fs ∧ (∀ q, q ∈ fs ↔ released R q ∧ ¬ owned B q) ∧
    page_get_info s = Some ((u64 (page_nr s), Z.of_nat (length fs)), s).
Proof.
  intros Hzs Hb Hh. destruct (history_inv s0 s R B Hzs Hb Hh) as (C & HI & Hcons).
  pose proof (i_free _ _ _ HI) as HF. pose proof (free_frames_bound s C HF).
  exists (free_frames C 52 0). split_and!; [by eapply free_frames_nodup| |].
  - intros q. rewrite (elem_of_free_frames s) by done. rewrite <- Hcons.
    assert (owned B q → ¬ covers C q); [|tauto].
    intros (x & l & n & HB & Hq). by apply (h_free _ _ _ _ _ (i_hole _ _ _ HI _ _ _ HB)).
  - unfold page_get_info. change (Z.to_nat PAGE_LIST_SIZE) with 52%nat.
    erewrite bind_run; [|apply (count_lists_run s C); [done|lia|lia|lia|lia]].
    by rewrite Z.add_0_l.
Qed.

(** ** Reserved frames *)

Lemma reserve_from_run n s C pfn :
  Free zc s C → (∀ q, pfn ≤ q < pfn + Z.of_nat n → ¬ covers C q) →
  wp (reserve_from n pfn) s (λ _ s', Free zc s' C ∧ dom (pages s') = dom (pages s) ∧
    page_list s' = page_list s ∧ page_nr s' = page_nr s ∧
    ∀ q pg, pages s' !! q = Some pg →
      if decide (pfn ≤ q < pfn + Z.of_nat n) then size_bits pg = 64 ∧ ref_cnt pg = 1
      else pages s !! q = Some pg).
Proof.
  revert s pfn. induction n as [|n IH]; intros s pfn HF Hnc; cbn [reserve_from].
  { apply wp_ret. split_and!; try done. intros q pg Hq. by rewrite decide_False by lia. }
  apply wp_bind. unfold wp at 1. rewrite pfn_to_page_run.
  assert (Hun : c_linked pfn C = false).
  { apply c_linked_false. intros l Hl. apply (Hnc pfn); [lia|]. exists l, pfn. split; [done|].
    apply in_block_self, (g_block _ _ _ (f_geo _ _ _ HF) _ _ Hl). }
  apply wp_bind. case_decide as E.
  - apply elem_of_dom in E as [pg Hpg].
    apply wp_bind. eapply wp_upd_page; [done|].
    eapply wp_upd_page; [simpl; apply lookup_insert_eq|]. simpl. rewrite insert_insert_eq, set_pages_twice.
    set (s1 := set_pages _ s). assert (HF1 : Free zc s1 C) by (by eapply free_upd).
    eapply wp_mono; [apply IH; [done|]|].
    { intros q Hq. apply Hnc. lia. }
    intros _ s' (HF' & Hd & Hpl & Hnr & Hf). split_and!; [done| |done|done|].
    + rewrite Hd. apply (ref_set_upd s pfn pg _ Hpg).
    + intros q qg Hq. specialize (Hf q qg Hq). destruct (decide (q = pfn)) as [->|].
      * rewrite decide_False in Hf by lia. rewrite decide_True by lia. simpl in Hf.
        rewrite lookup_insert_eq in Hf. by simplify_eq.
      * simpl in Hf. rewrite lookup_insert_ne in Hf by done.
        case_decide; case_decide; try done; lia.
  - apply wp_ret. eapply wp_mono; [apply IH; [done|]|].
    { intros q Hq. apply Hnc. lia. }
    intros _ s' (HF' & Hd & Hpl & Hnr & Hf). split_and!; [done|done|done|done|].
    intros q qg Hq. specialize (Hf q qg Hq).
    assert (q ≠ pfn) by (intros ->; apply E; rewrite <- Hd; by eapply elem_of_dom_2).
    case_decide; case_decide; try done; lia.
Qed.

End Alloc.

(** ** Orders *)

(** [page_bits] returns the smallest order whose block holds [size] bytes; it is
    at most 52, and 52, which is no index of the free lists, only above [2 ^ 63]
    bytes. *)
Theorem page_bits_smallest size :
  0 < size < 2 ^ 64 →
  ∃ b, page_bits size = Some b ∧ 0 ≤ b ≤ 52 ∧ size ≤ 2 ^ (b + 12) ∧
    (∀ k, 0 ≤ k → size ≤ 2 ^ (k + 12) → b ≤ k) ∧ (b = 52 ↔ 2 ^ 63 < size).
Proof.
  intros Hs. unfold page_bits. replace (size =? 0) with false by lia. unfold PAGE_SIZE_SHIFT.
  rewrite Z.shiftl_mul_pow2, Z.mul_1_l by apply Z.log2_nonneg.
  pose proof (Z.log2_spec size ltac:(lia)) as [Hlo Hhi]. pose proof (Z.log2_nonneg size) as Hg0.
  set (g := Z.log2 size) in *. clearbody g. rewrite Z.pow_succ_r in Hhi by done.
  assert (Hg : g < 64) by (apply (Z.pow_lt_mono_r_iff 2); lia).
  assert (Hmono : ∀ a b, 0 ≤ b → 2 ^ a < 2 ^ b → a < b) by (intros; apply (Z.pow_lt_mono_r_iff 2); lia).
  set (t := if negb _ then g + 1 else g).
  assert (Ht : size ≤ 2 ^ t ∧ (∀ k, 0 ≤ k → size ≤ 2 ^ k → t ≤ k) ∧ 0 ≤ t ≤ 64).
  { subst t. destruct (Z.eqb_spec (Z.lxor size (2 ^ g)) 0) as [E|E]; cbn [negb].
    - apply Z.lxor_eq in E. split_and!; try lia. intros k Hk Hle.
      destruct (decide (g ≤ k)); [done|]. pose proof (Z.pow_lt_mono_r 2 k g). lia.
    - assert (2 ^ g ≠ size) by (intros <-; by rewrite Z.lxor_nilpotent in E).
      rewrite Z.add_1_r, Z.pow_succ_r by done. split_and!; try lia. intros k Hk Hle.
      pose proof (Hmono g k Hk). lia. }
  clearbody t. destruct Ht as (Hle & Hmin & Ht). eexists. split; [done|].
  destruct (Z.ltb_spec (t - 12) 0).
  - split_and!; try lia.
    + pose proof (Z.pow_le_mono_r 2 t (0 + 12)). lia.
    + split; [lia|]. pose proof (Z.pow_le_mono_r 2 t 63). lia.
  - replace (t - 12 + 12) with t by lia. split_and!; try lia.
    + intros k Hk Hsz. apply Hmin in Hsz; lia.
    + split; intros H'.
      * destruct (decide (2 ^ 63 < size)); [done|]. pose proof (Hmin 63 ltac:(lia)). lia.
      * destruct (decide (t = 64)); [lia|]. pose proof (Z.pow_le_mono_r 2 t 63). lia.
Qed.

Lemma page_bits_smallest_witness :
  ∃ b, page_bits 4097 = Some b ∧ 0 ≤ b ≤ 52 ∧ 4097 ≤ 2 ^ (b + 12) ∧
    (∀ k, 0 ≤ k → 4097 ≤ 2 ^ (k + 12) → b ≤ k) ∧ (b = 52 ↔ 2 ^ 63 < 4097).
Proof. apply (page_bits_smallest 4097). lia. Defined.

(** ** A small machine

    Frames 1 to 7, of which 1 to 3 are in the linear map; the last two blocks are
    given to the allocator and one page of the linear map is taken. *)

Definition zc0 : zone_cfg := ZoneCfg 1 3 (2 ^ 63).

Definition boot0 : pstate :=
  PState (list_to_map ((λ i, (i, Page None None 64 0)) <$> seqZ 1 7))
         (list_to_map ((λ l, (l, None)) <$> seqZ 0 52)) 7.

Definition run0 (op : page_op) (s : pstate) : pstate :=
  match page_do zc0 op s with Some (_, s') => s' | None => s end.

Definition op1 := ORelease (page_to_addr 2) 1.
Definition op2 := ORelease (page_to_addr 4) 2.
Definition op3 := OAlloc 0 ZONE_NORMAL.
Definition live1 : pstate := run0 op1 boot0.
Definition live2 : pstate := run0 op2 live1.
Definition live3 : pstate := run0 op3 live2.

Lemma zone_sane0 : zone_sane zc0.
Proof. split; simpl; lia. Qed.

Lemma booted0 : booted boot0.
Proof.
  split.
  - intros p pg Hp. apply elem_of_list_to_map_2 in Hp.
    apply list_elem_of_fmap in Hp as (i & [= -> ->] & _). done.
  - intros l Hl. apply elem_of_list_to_map_1.
    + rewrite <- list_fmap_compose. apply NoDup_fmap_2; [|apply NoDup_seqZ]. by intros ?? [= ->].
    + apply list_elem_of_fmap. exists l. split; [done|]. apply elem_of_seqZ. lia.
Qed.

Lemma releasable0 s old l x :
  dom (pages s) = dom (pages boot0) → 0 ≤ l < 31 → 0 < x → x + 2 ^ l ≤ 8 → (2 ^ l | x) →
  (∀ q, in_block l x q → ¬ old q) → releasable zc0 s old l x.
Proof.
  intros Hd Hl Hx He Hdv Hn. split; try done; [simpl; lia|lia|].
  intros q Hq. rewrite Hd. unfold in_block in Hq. unfold boot0. simpl.
  apply elem_of_dom. assert (q = 1 ∨ q = 2 ∨ q = 3 ∨ q = 4 ∨ q = 5 ∨ q = 6 ∨ q = 7) as Hc by lia.
  destruct Hc as [->|[->|[->|[->|[->|[->| ->]]]]]]; by eexists.
Qed.

Lemma history0 : history zc0 boot0 live3 [(2, 4); (1, 2)] {[3 := (0, 1)]}.
Proof.
  assert (H1 : history zc0 boot0 live1 [(1, 2)] ∅).
  { apply (hist_step zc0 boot0 boot0 [] ∅ op1 0 live1); [constructor| |by vm_compute].
    exists 2. split; [done|]. apply releasable0; try done.
    intros q _ (l & x & Hin & _). by apply not_elem_of_nil in Hin. }
  assert (H2 : history zc0 boot0 live2 [(2, 4); (1, 2)] ∅).
  { apply (hist_step zc0 boot0 live1 [(1, 2)] ∅ op2 0 live2); [done| |by vm_compute].
    exists 4. split; [done|]. apply releasable0; try done.
    intros q Hq (l & x & [= -> ->]%list_elem_of_singleton & Hq'). unfold in_block in *. simpl in *. lia. }
  exact (hist_step zc0 boot0 live2 [(2, 4); (1, 2)] ∅ op3 12288 live3 H2 ltac:(done) ltac:(by vm_compute)).
Qed.

Lemma page_history_correct_witness :
  ∃ C, Free zc0 live3 C ∧ (∀ q, ¬ (covers C q ∧ owned {[3 := (0, 1)]} q)) ∧
    page_do zc0 (OFree 12288 0) live3 = Some (1, live2).
Proof.
  destruct (page_history_correct zc0 boot0 live3 [(2, 4); (1, 2)] {[3 := (0, 1)]} zone_sane0 booted0 history0)
    as (_ & C & HF & Hd & _).
  exists C. split_and!; [done|done|by vm_compute].
Defined.

Lemma page_get_info_counts_witness :
  page_get_info live3 = Some ((7, 5), live3) ∧
  ∃ fs, NoDup fs ∧ (∀ q, q ∈ fs ↔ released [(2, 4); (1, 2)] q ∧ ¬ owned {[3 := (0, 1)]} q) ∧
    page_get_info live3 = Some ((u64 (page_nr live3), Z.of_nat (length fs)), live3).
Proof.
  split; [by vm_compute|].
  exact (page_get_info_counts zc0 boot0 live3 [(2, 4); (1, 2)] {[3 := (0, 1)]} zone_sane0 booted0 history0).
Defined.

Lemma alloc_free_roundtrip_witness :
  ∃ C s2 C2, PInv zc0 live3 C {[3 := (0, 1)]} ∧
    pages_free zc0 28672 0 (run0 (OAlloc 0 ZONE_HIGH) live3) = Some (1, s2) ∧
    Free zc0 s2 C2 ∧ ∀ m x, x ∈ c_get m C2 ↔ x ∈ c_get m C.
Proof.
  destruct (history_inv zc0 _ _ _ _ zone_sane0 booted0 history0) as (C & HI & _).
  destruct (alloc_free_roundtrip zc0 live3 C {[3 := (0, 1)]} 0 ZONE_HIGH 28672
    (run0 (OAlloc 0 ZONE_HIGH) live3) HI ltac:(lia) ltac:(by vm_compute) ltac:(done)) as (s2 & C2 & H).
  by exists C, s2, C2.
Defined.
