(* ===== verification/PageRegions.v ===== *)
(** * The physical memory report

    The regions of [kernel/memory/page.c] and the shell command [phymem]: the free
    blocks of the allocator are collected, merged and subtracted from the total
    memory.  The static arrays [free_regions] and [total_regions] are the lists of
    their used entries; an entry beyond the end of [total_regions] or of the local
    array [used] is a fault.  [qsort] of the C library is a parameter. *)

From S2P Require Import Prelude Chain PageGeo Page PageInv PageAlloc PageProps.
From Stdlib Require Import Sorted.
Import Width.
Local Open Scope Z_scope.

Definition MAX_REGIONS : Z := 256.
Definition MAX_TOTAL_REGIONS : Z := 16.

Record mem_region := MemRegion { mr_start : Z; mr_size : Z }.

Definition mr_end (r : mem_region) : Z := u64 (mr_start r + mr_size r).

Record rstate := RState {
  r_pages : pstate;
  free_regions : list mem_region;
  total_regions : list mem_region;
}.

Definition add_free_region (addr size : Z) (fr : list mem_region) : list mem_region :=
  if Z.of_nat (length fr) <? MAX_REGIONS then fr ++ [MemRegion addr size] else fr.

Definition compare_regions (a b : mem_region) : Z :=
  Z.b2z (mr_start b <? mr_start a) - Z.b2z (mr_start a <? mr_start b).

Definition page_mem_regions_set (addr size : Z) : M rstate unit :=
  n ← gets (λ s, Z.of_nat (length (total_regions s)));
  _ ← massert (n <? MAX_TOTAL_REGIONS);
  modify (λ s, RState (r_pages s) (free_regions s) (total_regions s ++ [MemRegion addr size])).

(** The entry [out[idx]] is [cur]; those before it are final. *)
Fixpoint merge_loop (ins : list mem_region) (cur : mem_region) : list mem_region :=
  match ins with
  | [] => [cur]
  | r :: ins =>
      if mr_start r <=? mr_end cur then
        if mr_end cur <? mr_end r
        then merge_loop ins (MemRegion (mr_start cur) (u64 (mr_end r - mr_start cur)))
        else merge_loop ins cur
      else cur :: merge_loop ins r
  end.

(** The pair of the sorted input, which [qsort] leaves in place, and the output. *)
Definition merge_regions (qsort : list mem_region → list mem_region) (ins : list mem_region)
    : list mem_region * list mem_region :=
  match qsort ins with
  | [] => (ins, [])
  | r :: rs => (r :: rs, merge_loop rs r)
  end.

Definition push_used (r : mem_region) (used : list mem_region) : option (list mem_region) :=
  if Z.of_nat (length used) <? MAX_REGIONS then Some (used ++ [r]) else None.

(** The inner loop of [subtract_regions]: what is left of the region from [ts] to
    [te]. *)
Fixpoint subtract_one (free : list mem_region) (ts te : Z) (used : list mem_region)
    : option (Z * list mem_region) :=
  match free with
  | [] => Some (ts, used)
  | f :: free =>
      if ts <? te then
        let fs := mr_start f in
        let fe := mr_end f in
        if fe <=? ts then subtract_one free ts te used
        else if te <=? fs then Some (ts, used)
        else
          used ← (if ts <? fs then push_used (MemRegion ts (u64 (fs - ts))) used else Some used);
          subtract_one free (if ts <? fe then fe else ts) te used
      else Some (ts, used)
  end.

Fixpoint subtract_loop (total free used : list mem_region) : option (list mem_region) :=
  match total with
  | [] => Some used
  | t :: total =>
      let te := mr_end t in
      '(ts, used) ← subtract_one free (mr_start t) te used;
      used ← (if ts <? te then push_used (MemRegion ts (u64 (te - ts))) used else Some used);
      subtract_loop total free used
  end.

(** The sorted total, and the used regions. *)
Definition subtract_regions (qsort : list mem_region → list mem_region) (total free : list mem_region)
    : option (list mem_region * list mem_region) :=
  used ← subtract_loop (qsort total) (qsort free) [];
  Some (qsort total, used).

Fixpoint collect_list (fuel : nat) (p : option Z) (fr : list mem_region) : M pstate (list mem_region) :=
  match fuel with
  | O => fault
  | S fuel =>
      match p with
      | None => mret fr
      | Some q =>
          pg ← get_page q;
          _ ← massert (size_bits pg + 12 <? 64);
          collect_list fuel (pg_next pg)
            (add_free_region (page_to_addr q) (Z.shiftl 1 (size_bits pg + 12)) fr)
      end
  end.

Fixpoint collect_lists (n : nat) (i : Z) (fr : list mem_region) : M pstate (list mem_region) :=
  match n with
  | O => mret fr
  | S n =>
      h ← get_head i;
      fuel ← gets (λ s, S (size (pages s)));
      fr ← collect_list fuel h fr;
      collect_lists n (i + 1) fr
  end.

(** The regions printed as free and as used. *)
Definition phy_mem_cmd (qsort : list mem_region → list mem_region)
    : M rstate (list mem_region * list mem_region) := λ s,
  '(fr, ps) ← collect_lists (Z.to_nat PAGE_LIST_SIZE) 0 (free_regions s) (r_pages s);
  let '(fr, merged) := merge_regions qsort fr in
  '(total, used) ← subtract_regions qsort (total_regions s) merged;
  Some ((merged, used), RState ps fr total).

(** ** Regions as sets of addresses *)

Definition in_region (r : mem_region) (a : Z) : Prop := mr_start r ≤ a < mr_start r + mr_size r.
Definition in_regions (rs : list mem_region) (a : Z) : Prop := ∃ r, r ∈ rs ∧ in_region r a.

Record region_ok (r : mem_region) : Prop := RegionOk {
  ro_start : 0 ≤ mr_start r;
  ro_size : 0 < mr_size r;
  ro_end : mr_start r + mr_size r < 2 ^ 64;
}.

Definition before (a b : mem_region) : Prop := mr_start a ≤ mr_start b.

Lemma mr_end_ok r : region_ok r → mr_end r = mr_start r + mr_size r.
Proof. intros [???]. apply u64_small. lia. Qed.

Lemma in_regions_cons r rs a : in_regions (r :: rs) a ↔ in_region r a ∨ in_regions rs a.
Proof.
  unfold in_regions. setoid_rewrite elem_of_cons. split; [|naive_solver].
  intros (r' & [->|?] & ?); eauto.
Qed.

Lemma in_regions_snoc rs r a : in_regions (rs ++ [r]) a ↔ in_regions rs a ∨ in_region r a.
Proof.
  unfold in_regions. setoid_rewrite elem_of_app. setoid_rewrite list_elem_of_singleton. naive_solver.
Qed.

Lemma in_regions_nil a : ¬ in_regions [] a.
Proof. by intros (r & ?%not_elem_of_nil & _). Qed.

Lemma in_regions_perm rs rs' a : rs ≡ₚ rs' → in_regions rs a ↔ in_regions rs' a.
Proof. intros Hp. unfold in_regions. by setoid_rewrite Hp. Qed.

(** The output of the merge: in order, and with a gap between neighbours. *)
Definition gap (a b : mem_region) : Prop := mr_start a + mr_size a < mr_start b.

Lemma merge_loop_ok ins cur :
  region_ok cur → Forall region_ok ins → StronglySorted before (cur :: ins) →
  (∀ a, in_regions (merge_loop ins cur) a ↔ in_region cur a ∨ in_regions ins a) ∧
  Forall region_ok (merge_loop ins cur) ∧
  StronglySorted gap (merge_loop ins cur) ∧
  Forall (λ r, mr_start cur ≤ mr_start r) (merge_loop ins cur).
Proof.
  revert cur. induction ins as [|r ins IH]; intros cur Hc Hin Hs; simpl.
  { split_and!; [|by constructor|by repeat constructor|by repeat constructor].
    intros a. rewrite in_regions_cons. pose proof (in_regions_nil a). tauto. }
  apply Forall_cons in Hin as [Hr Hin]. inversion_clear Hs as [|?? Hs' Hall].
  apply Forall_cons in Hall as [Hcr Hall]. inversion_clear Hs' as [|?? Hs2 Hall2].
  rewrite !mr_end_ok by done. unfold before in *.
  pose proof Hc as [? ? ?]. pose proof Hr as [? ? ?].
  destruct (Z.leb_spec (mr_start r) (mr_start cur + mr_size cur)) as [Hle|Hgt].
  - destruct (Z.ltb_spec (mr_start cur + mr_size cur) (mr_start r + mr_size r)).
    + rewrite u64_small by lia. set (cur' := MemRegion _ _).
      destruct (IH cur') as (Hset & Hok & Hgap & Hst); [split; simpl; lia|done|by constructor|].
      split_and!; try done. intros a. rewrite Hset, in_regions_cons. unfold in_region. simpl.
      split; [intros [?|?]; [|auto]; lia|]. intros [?|[?|?]]; auto; left; lia.
    + destruct (IH cur) as (Hset & Hok & Hgap & Hst); [done|done|by constructor|].
      split_and!; try done. intros a. rewrite Hset, in_regions_cons. unfold in_region.
      split; [tauto|]. intros [?|[?|?]]; auto. left. lia.
  - destruct (IH r) as (Hset & Hok & Hgap & Hst); [done|done|by constructor|].
    split_and!.
    + intros a. rewrite !in_regions_cons, Hset. tauto.
    + by constructor.
    + constructor; [done|]. eapply Forall_impl; [exact Hst|]. unfold gap. simpl. lia.
    + constructor; [done|]. eapply Forall_impl; [exact Hst|]. simpl. lia.
Qed.

Lemma gap_before rs : Forall region_ok rs → StronglySorted gap rs → StronglySorted before rs.
Proof.
  intros Hok. induction 1 as [|r rs _ IH Hall]; constructor.
  - apply IH. by inversion Hok.
  - apply Forall_cons in Hok as [[? ? ?] _]. eapply Forall_impl; [exact Hall|].
    unfold gap, before. simpl. lia.
Qed.

Lemma push_used_ok r used used' a :
  push_used r used = Some used' → in_regions used' a ↔ in_regions used a ∨ in_region r a.
Proof. unfold push_used. case_match; [|done]. intros [= <-]. apply in_regions_snoc. Qed.

(** What the loop has cut out so far, with what is left from the returned start. *)
Lemma subtract_one_ok free ts te used ts' used' a :
  Forall region_ok free → StronglySorted before free → 0 ≤ ts → te < 2 ^ 64 →
  subtract_one free ts te used = Some (ts', used') →
  0 ≤ ts' ∧
  (in_regions used' a ∨ ts' ≤ a < te ↔ in_regions used a ∨ (ts ≤ a < te ∧ ¬ in_regions free a)).
Proof.
  intros Hok Hs. revert ts used. induction Hs as [|f free _ IH Hall]; intros ts used Hts Hte; simpl.
  { intros [= -> ->]. pose proof (in_regions_nil a). tauto. }
  apply Forall_cons in Hok as [Hf Hok]. rewrite mr_end_ok by done. pose proof Hf as [? ? ?].
  rewrite in_regions_cons.
  assert (Hlater : in_regions free a → mr_start f ≤ a).
  { intros (r & Hr & Ha). rewrite Forall_forall in Hall. specialize (Hall r Hr).
    unfold before, in_region in *. lia. }
  destruct (Z.ltb_spec ts te).
  2: { intros [= -> ->]. split; [done|]. split; [|tauto]. intros [?|?]; [auto|lia]. }
  destruct (Z.leb_spec (mr_start f + mr_size f) ts).
  { intros Hr. destruct (IH Hok _ _ Hts Hte Hr) as [? ->]. split; [done|]. unfold in_region.
    split; [|naive_solver lia]. intros [?|[??]]; [auto|]. right. split; [done|]. intros [?|?]; [lia|done]. }
  destruct (Z.leb_spec te (mr_start f)).
  { intros [= -> ->]. split; [done|]. unfold in_region. split; [|tauto].
    intros [?|?]; [auto|]. right. split; [done|]. intros [?|?%Hlater]; lia. }
  replace (ts <? mr_start f + mr_size f) with true by lia.
  intros (u & Hu & Hr)%bind_Some. destruct (IH Hok (mr_start f + mr_size f) _ ltac:(lia) Hte Hr) as [? ->].
  split; [done|]. unfold in_region.
  assert (Hu' : in_regions u a ↔ in_regions used a ∨ ts ≤ a < mr_start f).
  { destruct (Z.ltb_spec ts (mr_start f)).
    - rewrite (push_used_ok _ _ _ a Hu). unfold in_region. simpl. rewrite u64_small by lia.
      split; (intros [?|?]; [auto|right; lia]).
    - simplify_eq. split; [auto|]. intros [?|?]; [done|lia]. }
  rewrite Hu'. split.
  - intros [[?|?]|[? Hn]]; [auto|..]; right; (split; [lia|]).
    + intros [?|?%Hlater]; lia.
    + intros [?|?]; [lia|done].
  - intros [?|[? Hn]]; [auto|]. destruct (decide (a < mr_start f)); [left; right; lia|].
    right. split; [|tauto]. destruct (decide (mr_start f + mr_size f ≤ a)); [lia|].
    exfalso. apply Hn. left. lia.
Qed.

Lemma subtract_loop_ok total free used used' a :
  Forall region_ok total → Forall region_ok free → StronglySorted before free →
  subtract_loop total free used = Some used' →
  in_regions used' a ↔ in_regions used a ∨ (in_regions total a ∧ ¬ in_regions free a).
Proof.
  intros Ht Hf Hs. revert used. induction Ht as [|t total Htok _ IH]; intros used; simpl.
  { intros [= ->]. pose proof (in_regions_nil a). tauto. }
  rewrite mr_end_ok by done. pose proof Htok as [? ? ?].
  intros ((ts & u) & Hone & (u2 & Hu2 & Hloop)%bind_Some)%bind_Some.
  rewrite (IH _ Hloop), in_regions_cons.
  destruct (subtract_one_ok free (mr_start t) (mr_start t + mr_size t) used ts u a) as [? Hsub]; try done.
  assert (Hu : in_regions u2 a ↔ in_regions u a ∨ ts ≤ a < mr_start t + mr_size t).
  { destruct (Z.ltb_spec ts (mr_start t + mr_size t)).
    - rewrite (push_used_ok _ _ _ a Hu2). unfold in_region. simpl. rewrite u64_small by lia.
      split; (intros [?|?]; [auto|right; lia]).
    - simplify_eq. split; [auto|]. intros [?|?]; [done|lia]. }
  rewrite Hu, Hsub. unfold in_region. tauto.
Qed.

(** ** Room in the local array *)

Lemma push_used_run r used :
  Z.of_nat (length used) < 256 → push_used r used = Some (used ++ [r]).
Proof. intros. unfold push_used. by replace (_ <? _) with true by (unfold MAX_REGIONS; lia). Qed.

Lemma subtract_one_total free ts te used :
  Z.of_nat (length used) + Z.of_nat (length free) ≤ 256 →
  ∃ ts' used', subtract_one free ts te used = Some (ts', used') ∧
    (length used' ≤ length used + length free)%nat.
Proof.
  revert ts used. induction free as [|f free IH]; intros ts used Hn; simpl in *.
  { exists ts, used. split; [done|]. lia. }
  assert (Hskip : ∀ t, ∃ ts' used', subtract_one free t te used = Some (ts', used') ∧
    (length used' ≤ length used + S (length free))%nat).
  { intros t. destruct (IH t used) as (ts' & u' & ? & ?); [lia|]. exists ts', u'. split; [done|]. lia. }
  destruct (ts <? te); [|eexists _, _; split; [done|]; lia].
  destruct (mr_end f <=? ts); [done|].
  destruct (te <=? mr_start f); [eexists _, _; split; [done|]; lia|].
  destruct (ts <? mr_start f); [|apply Hskip].
  rewrite push_used_run by lia. simpl.
  edestruct (IH (if ts <? mr_end f then mr_end f else ts) (used ++ [MemRegion ts (u64 (mr_start f - ts))]))
    as (ts' & u' & ? & Hl); rewrite length_app in *; simpl in *; [lia|].
  exists ts', u'. split; [done|]. lia.
Qed.

Lemma subtract_loop_total total free used :
  Z.of_nat (length used) + Z.of_nat (length total) * (Z.of_nat (length free) + 1) ≤ 256 →
  is_Some (subtract_loop total free used).
Proof.
  revert used. induction total as [|t total IH]; intros used Hn; simpl; [by eexists|].
  cbn [length] in Hn. rewrite Nat2Z.inj_succ in Hn.
  destruct (subtract_one_total free (mr_start t) (mr_end t) used) as (ts & u & -> & Hl); [nia|]. simpl.
  case_match; simpl; [|apply IH; nia].
  rewrite push_used_run by nia. simpl. apply IH. rewrite length_app. simpl. nia.
Qed.

Lemma length_merge_loop ins cur : (length (merge_loop ins cur) ≤ S (length ins))%nat.
Proof.
  revert cur. induction ins as [|r ins IH]; intros cur; simpl; [done|].
  repeat case_match; simpl; [etrans; [apply IH|]; lia..|]. apply le_n_S, IH.
Qed.

(** ** The blocks on the free lists *)

Definition block_region (l x : Z) : mem_region := MemRegion (x * 4096) (2 ^ (l + 12)).

Definition block_regions (C : gmap Z (list Z)) (n : nat) (i : Z) : list mem_region :=
  seqZ i (Z.of_nat n) ≫= λ l, block_region l <$> c_get l C.

Section Report.
Context (zc : zone_cfg).

(** The end of a region is an address: the last frame of the 64-bit space is not
    free. *)
Lemma block_region_ok s C l x :
  Free zc s C → ¬ covers C (2 ^ 52 - 1) → x ∈ c_get l C → region_ok (block_region l x).
Proof.
  intros HF Hlast Hx. assert (Hne : x + 2 ^ l ≠ 2 ^ 52).
  { intros E. apply Hlast. exists l, x. split; [done|]. unfold in_block.
    pose proof (pow2_pos l (proj1 (l_lev _ _ (f_links _ _ _ HF) _ _ Hx))). lia. } destruct (g_block _ _ _ (f_geo _ _ _ HF) _ _ Hx) as [Hl Hp He _ _ _].
  unfold block_region. rewrite Z.pow_add_r by lia. pose proof (pow2_pos l ltac:(lia)).
  split; simpl; lia.
Qed.

Lemma collect_list_run s C l prev xs fuel fr :
  Free zc s C → (∀ x, x ∈ xs → x ∈ c_get l C) → seg (pages s) l prev xs None →
  (length xs < fuel)%nat → Z.of_nat (length fr + length xs) ≤ 256 →
  collect_list fuel (first xs None) fr s = Some (fr ++ (block_region l <$> xs), s).
Proof.
  intros HF. revert prev fuel fr.
  induction xs as [|x xs IH]; intros prev [|fuel] fr Hin Hs Hf Hn; simpl in Hf; try lia; simpl.
  { by rewrite app_nil_r. }
  destruct Hs as [(pg & Hpg & _ & Hnx & Hb) Hs].
  pose proof (g_block _ _ _ (f_geo _ _ _ HF) l x ltac:(apply Hin; left)) as [Hl Hp He _ _ _].
  pose proof (pow2_pos l ltac:(lia)).
  erewrite bind_run by (unfold get_page; by rewrite Hpg). rewrite Hb, Hnx.
  erewrite bind_run by (unfold massert; by replace (l + 12 <? 64) with true by lia).
  rewrite page_to_addr_small, Z.shiftl_mul_pow2, Z.mul_1_l by lia.
  cbn [length] in Hn. unfold add_free_region.
  replace (_ <? MAX_REGIONS) with true by (unfold MAX_REGIONS; lia).
  erewrite IH; [|by intros; apply Hin; right|done|lia|rewrite length_app; simpl; lia].
  by rewrite <- (assoc_L (++)).
Qed.

Lemma collect_lists_run s C n i fr :
  Free zc s C → 0 ≤ i → i + Z.of_nat n ≤ 52 →
  Z.of_nat (length fr + length (block_regions C n i)) ≤ 256 →
  collect_lists n i fr s = Some (fr ++ block_regions C n i, s).
Proof.
  intros HF. pose proof (f_links _ _ _ HF) as HL. revert i fr.
  induction n as [|n IH]; intros i fr Hi Hn Hb; cbn [collect_lists].
  { by rewrite app_nil_r. }
  assert (E : block_regions C (S n) i = (block_region i <$> c_get i C) ++ block_regions C n (i + 1)).
  { unfold block_regions. rewrite seqZ_cons by lia. rewrite bind_cons. do 3 f_equal; lia. }
  rewrite E, length_app, length_fmap in *.
  erewrite bind_run by (unfold get_head; rewrite (l_heads _ _ HL) by lia; done).
  erewrite bind_run by done. rewrite head_first. erewrite bind_run.
  2: { eapply (collect_list_run s C i); [done|done|apply HL| |lia].
       pose proof (links_length s C i HL). lia. }
  rewrite IH; [|lia|lia|]; [by rewrite (assoc_L (++))|]. rewrite length_app, length_fmap. lia.
Qed.

Lemma block_regions_all s C :
  Free zc s C → ¬ covers C (2 ^ 52 - 1) → Forall region_ok (block_regions C 52 0) ∧
  ∀ a, in_regions (block_regions C 52 0) a ↔ covers C (a / 4096).
Proof.
  intros HF Hlast. assert (Hel : ∀ r, r ∈ block_regions C 52 0 ↔ ∃ l x, r = block_region l x ∧ x ∈ c_get l C).
  { intros r. unfold block_regions. rewrite list_elem_of_bind. split.
    - intros (l & (x & -> & Hx)%list_elem_of_fmap & _). eauto.
    - intros (l & x & -> & Hx). pose proof (l_lev _ _ (f_links _ _ _ HF) _ _ Hx). exists l.
      split; [by apply list_elem_of_fmap_2|apply elem_of_seqZ; lia]. }
  split.
  - apply Forall_forall. intros r (l & x & -> & Hx)%Hel. by eapply block_region_ok.
  - intros a. unfold in_regions, covers.
    assert (Hin : ∀ l x, 0 ≤ l → in_region (block_region l x) a ↔ in_block l x (a / 4096)).
    { intros l x Hl. unfold in_region, block_region, in_block. simpl.
      rewrite Z.pow_add_r by lia. change (2 ^ 12) with 4096.
      pose proof (Z.div_mod a 4096 ltac:(done)). pose proof (Z.mod_pos_bound a 4096 ltac:(done)). lia. }
    split.
    + intros (r & (l & x & -> & Hx)%Hel & Ha). exists l, x. split; [done|]. apply Hin; [|done].
      apply (l_lev _ _ (f_links _ _ _ HF) _ _ Hx).
    + intros (l & x & Hx & Ha). exists (block_region l x). split; [apply Hel; eauto|]. apply Hin; [|done].
      apply (l_lev _ _ (f_links _ _ _ HF) _ _ Hx).
Qed.

(** The contract of [qsort] with [compare_regions]. *)
Definition sorts (qsort : list mem_region → list mem_region) : Prop :=
  ∀ rs, qsort rs ≡ₚ rs ∧ StronglySorted (λ a b, compare_regions a b ≤ 0) (qsort rs).

Lemma sorts_before qsort rs : sorts qsort → StronglySorted before (qsort rs).
Proof.
  intros Hq. destruct (Hq rs) as [_ Hs]. induction Hs as [|r rs' _ IH Hall]; constructor; [done|].
  eapply Forall_impl; [exact Hall|]. unfold compare_regions, before. simpl. intros x.
  destruct (Z.ltb_spec (mr_start x) (mr_start r)), (Z.ltb_spec (mr_start r) (mr_start x)); simpl; lia.
Qed.

Lemma merge_regions_ok qsort rs :
  sorts qsort → Forall region_ok rs →
  let '(_, out) := merge_regions qsort rs in
  (∀ a, in_regions out a ↔ in_regions rs a) ∧ Forall region_ok out ∧ StronglySorted gap out ∧
  (length out ≤ length rs)%nat.
Proof.
  intros Hq Hok. pose proof (sorts_before qsort rs Hq) as Hs. destruct (Hq rs) as [Hp _].
  unfold merge_regions. rewrite <- Hp in Hok. destruct (qsort rs) as [|r out].
  - assert (rs = []) as -> by (symmetry; by apply Permutation_nil_l).
    split_and!; [done|constructor|constructor|done].
  - apply Forall_cons in Hok as [Hr Hok].
    destruct (merge_loop_ok out r Hr Hok Hs) as (Hset & Hok' & Hgap & _).
    split_and!; [|done|done|].
    + intros a. by rewrite Hset, <- in_regions_cons, (in_regions_perm _ _ a Hp).
    + rewrite <- Hp. apply length_merge_loop.
Qed.

(** C30: the first report of [phymem], for any [qsort] that sorts: with at most 256
    free blocks, the room in the local array that the blocks and total regions need,
    and the last frame of all not free, the command runs; the
    regions it prints as free are in order, do not touch, and hold exactly the
    addresses of free frames; those it prints as used hold exactly the addresses of
    the total memory that are not in a free frame. *)
Theorem phymem_report qsort s C :
  sorts qsort → Free zc (r_pages s) C → ¬ covers C (2 ^ 52 - 1) → free_regions s = [] →
  Forall region_ok (total_regions s) →
  Z.of_nat (length (total_regions s)) * (Z.of_nat (length (block_regions C 52 0)) + 1) ≤ 256 →
  Z.of_nat (length (block_regions C 52 0)) ≤ 256 →
  ∃ free used s', phy_mem_cmd qsort s = Some ((free, used), s') ∧
    StronglySorted gap free ∧
    (∀ a, in_regions free a ↔ covers C (a / 4096)) ∧
    (∀ a, in_regions used a ↔ in_regions (total_regions s) a ∧ ¬ covers C (a / 4096)).
Proof.
  intros Hq HF Hlast Hnil Htot Hroom Hblk.
  destruct (block_regions_all _ C HF Hlast) as [Hok Hset].
  unfold phy_mem_cmd. rewrite Hnil. change (Z.to_nat PAGE_LIST_SIZE) with 52%nat.
  rewrite (collect_lists_run (r_pages s) C) by (try done; simpl; lia). simpl.
  pose proof (merge_regions_ok qsort (block_regions C 52 0) Hq Hok) as Hm.
  destruct (merge_regions qsort _) as [fr merged]. destruct Hm as (Hms & Hmok & Hgap & Hlen).
  unfold subtract_regions. destruct (Hq (total_regions s)) as [Hpt _], (Hq merged) as [Hpm _].
  assert (Hsub : is_Some (subtract_loop (qsort (total_regions s)) (qsort merged) [])).
  { apply subtract_loop_total. rewrite Hpt, Hpm. simpl. nia. }
  destruct Hsub as [used Hused]. rewrite Hused. simpl.
  eexists _, _, _. split; [done|]. split_and!; [done|..].
  - intros a. by rewrite Hms.
  - intros a. rewrite (subtract_loop_ok (qsort (total_regions s)) (qsort merged) [] used a);
      [|by rewrite Hpt|by rewrite Hpm|by apply sorts_before|done].
    rewrite (in_regions_perm _ _ a Hpt), (in_regions_perm _ _ a Hpm), Hms, Hset.
    pose proof (in_regions_nil a). tauto.
Qed.

End Report.

(** Insertion sort by start, a concrete [qsort]. *)
Fixpoint insert_region (r : mem_region) (rs : list mem_region) : list mem_region :=
  match rs with
  | [] => [r]
  | x :: rs' => if mr_start r <=? mr_start x then r :: rs else x :: insert_region r rs'
  end.

Definition sort_regions (rs : list mem_region) : list mem_region := foldr insert_region [] rs.

Lemma insert_region_perm r rs : insert_region r rs ≡ₚ r :: rs.
Proof.
  induction rs as [|x rs IH]; simpl; [done|]. case_match; [done|]. rewrite IH. apply Permutation_swap.
Qed.

Lemma sorts_insertion : sorts sort_regions.
Proof.
  intros rs. induction rs as [|r rs [Hp Hs]]; simpl; [by split; [|constructor]|]. split.
  { rewrite insert_region_perm. by rewrite Hp. }
  clear Hp. fold (sort_regions rs). induction Hs as [|x xs Hs IH Hall]; simpl; [by repeat constructor|].
  destruct (Z.leb_spec (mr_start r) (mr_start x)) as [Hle|Hgt].
  - constructor; [by constructor|]. constructor.
    + unfold compare_regions. destruct (Z.ltb_spec (mr_start x) (mr_start r)); [lia|].
      by destruct (_ <? _).
    + eapply Forall_impl; [exact Hall|]. unfold compare_regions. simpl. intros y.
      destruct (Z.ltb_spec (mr_start y) (mr_start x)), (Z.ltb_spec (mr_start x) (mr_start y)),
        (Z.ltb_spec (mr_start y) (mr_start r)), (Z.ltb_spec (mr_start r) (mr_start y)); simpl; lia.
  - constructor; [done|]. rewrite insert_region_perm. constructor; [|done].
    unfold compare_regions.
    destruct (Z.ltb_spec (mr_start r) (mr_start x)), (Z.ltb_spec (mr_start x) (mr_start r)); simpl; lia.
Qed.

(** ** The small machine *)

Lemma length_blocks C n i : 0 ≤ i → (length (block_regions C n i) ≤ length (free_frames C n i))%nat.
Proof.
  revert i. induction n as [|n IH]; intros i Hi; [done|]. rewrite free_frames_S.
  assert (E : block_regions C (S n) i = (block_region i <$> c_get i C) ++ block_regions C n (i + 1)).
  { unfold block_regions. rewrite seqZ_cons by lia. rewrite bind_cons. do 3 f_equal; lia. }
  rewrite E, !length_app, length_fmap. pose proof (length_level_frames C i Hi).
  specialize (IH (i + 1) ltac:(lia)). pose proof (pow2_pos i Hi). nia.
Qed.

Definition total0 : list mem_region := [MemRegion 4096 28672].

Lemma phymem_report_witness :
  ∃ C free used s', Free zc0 live3 C ∧
    phy_mem_cmd sort_regions (RState live3 [] total0) = Some ((free, used), s') ∧
    StronglySorted gap free ∧
    (∀ a, in_regions free a ↔ covers C (a / 4096)) ∧
    (∀ a, in_regions used a ↔ in_regions total0 a ∧ ¬ covers C (a / 4096)).
Proof.
  destruct (history_inv zc0 _ _ _ _ zone_sane0 booted0 history0) as (C & HI & Hcons).
  pose proof (i_free _ _ _ _ HI) as HF.
  assert (Hlen : (length (block_regions C 52 0) ≤ 5)%nat).
  { etrans; [apply length_blocks; lia|]. pose proof (free_frames_bound zc0 live3 C HF).
    pose proof (count_lists_run zc0 live3 C 52 0 0 HF ltac:(lia) ltac:(lia) ltac:(lia) ltac:(lia)) as Hc.
    assert (Hc5 : count_lists 52 0 0 live3 = Some (5, live3)) by (by vm_compute).
    rewrite Hc5 in Hc. assert (5 = 0 + Z.of_nat (length (free_frames C 52 0))) by congruence. lia. }
  destruct (phymem_report zc0 sort_regions (RState live3 [] total0) C) as (free & used & s' & H).
  - apply sorts_insertion.
  - exact HF.
  - intros Hc. assert (Hrel : released [(2, 4); (1, 2)] (2 ^ 52 - 1)) by (apply Hcons; auto).
    destruct Hrel as (l & x & Hin & Hq). unfold in_block in Hq.
    apply elem_of_cons in Hin as [[= -> ->]|Hin]; [lia|].
    apply list_elem_of_singleton in Hin as [= -> ->]. lia.
  - done.
  - repeat constructor; simpl; lia.
  - simpl length. lia.
  - lia.
  - exists C, free, used, s'. exact (conj HF H).
Defined.

(** [free_region_count] is never reset: a second report repeats the regions of
    the first.  Here a page is allocated between the two reports; the second still
    prints it as free and not as used. *)
Theorem phymem_second_report_stale :
  ∃ free used s1 free2 used2 s2,
    phy_mem_cmd sort_regions (RState live2 [] total0) = Some ((free, used), s1) ∧
    pages_alloc zc0 0 ZONE_NORMAL (r_pages s1) = Some (12288, live3) ∧
    phy_mem_cmd sort_regions (RState live3 (free_regions s1) (total_regions s1)) =
      Some ((free2, used2), s2) ∧
    (free2, used2) = (free, used) ∧ in_regions free2 12288.
Proof.
  eexists _, _, _, _, _, _. split; [by vm_compute|]. split; [by vm_compute|].
  split; [by vm_compute|]. split; [done|]. eexists. split; [left|]. unfold in_region. simpl. lia.
Qed.

(** The local array [used] of [phy_mem_cmd] has 256 entries, but 256 free
    regions inside one total region leave 257 used ones: the last is written behind
    the end of the array. *)
Theorem phymem_used_overruns :
  let free := (λ i, MemRegion ((2 * i + 1) * 4096) 4096) <$> seqZ 0 256 in
  Z.of_nat (length free) = MAX_REGIONS ∧
  merge_regions sort_regions free = (free, free) ∧
  subtract_regions sort_regions [MemRegion 0 (513 * 4096)] free = None.
Proof. split_and!; by vm_compute. Qed.
