(* ===== verification/Memblock.v ===== *)
(** * Early physical memory: memblock

    [kernel/memory/memblock/memblock.c]: the tables of memory and reserved regions,
    the early allocator, and the hand-over of the free memory to the page
    allocator.  A table is the list of its used entries.  The index of a loop over a
    table is the point where its list is split into the entries before it and the
    rest, so that moving entries with [memmove] is concatenation.

    [kmap], which maps the descriptors, is a parameter of the hand-over: it acts on
    the readable descriptors. *)

From S2P Require Import Prelude Page.
Import Width.
Local Open Scope Z_scope.

Definition DEFAULT_MEMBLOCK_REGIONS : Z := 128.
Definition DEFAULT_MEMBLOCK_RESERVED_REGIONS : Z := 128.
Definition MEMBLOCK_MAX_ITER_RANGES : Z := DEFAULT_MEMBLOCK_REGIONS + DEFAULT_MEMBLOCK_RESERVED_REGIONS + 4.
Definition PHYS_ADDR_MAX : Z := 2 ^ 64 - 1.
Definition MEMBLOCK_NONE : Z := 0.
Definition MEMBLOCK_NOMAP : Z := 4.
Definition MEMBLOCK_ALLOC_ACCESSIBLE : Z := 0.
Definition MAX_ORDER : Z := 64.
Definition SMP_CACHE_BYTES : Z := 32.
Definition PAGE_SIZE : Z := 4096.
Definition EINVAL : Z := 22.
Definition ENOMEM : Z := 12.

Record region := Region { rg_start : Z; rg_size : Z; rg_flags : Z }.

Definition rg_end (r : region) : Z := u64 (rg_start r + rg_size r).

Record collect := Collect { regions : list region; rgn_max : Z; total_size : Z }.

Definition rgn_num (c : collect) : Z := Z.of_nat (length (regions c)).

Record memblk := Memblk {
  memory : collect;
  reserved : collect;
  bottom_up : bool;
  current_limit : Z;
  max_pfn : Z;
  mb_min_low_pfn : Z;
  mb_max_low_pfn : Z;
}.

Definition set_memory (c : collect) (m : memblk) : memblk :=
  Memblk c (reserved m) (bottom_up m) (current_limit m) (max_pfn m) (mb_min_low_pfn m) (mb_max_low_pfn m).
Definition set_reserved (c : collect) (m : memblk) : memblk :=
  Memblk (memory m) c (bottom_up m) (current_limit m) (max_pfn m) (mb_min_low_pfn m) (mb_max_low_pfn m).
Definition set_pfns (mx lo hi : Z) (m : memblk) : memblk :=
  Memblk (memory m) (reserved m) (bottom_up m) (current_limit m) mx lo hi.

Definition memblock_init : memblk :=
  Memblk (Collect [] DEFAULT_MEMBLOCK_REGIONS 0) (Collect [] DEFAULT_MEMBLOCK_RESERVED_REGIONS 0)
    false (2 ^ 64 - 1) 0 (2 ^ 64 - 1) 0.

(** ** Ranges *)

(** The end of the range, cut at the top of the address space. *)
Definition ttos_memblk_normalize_range (start size : Z) : option Z :=
  if size =? 0 then None
  else
    let end_ := if PHYS_ADDR_MAX - start <? size then PHYS_ADDR_MAX else start + size in
    if end_ <=? start then None else Some end_.

Definition ttos_memblk_region_overlap (start_a end_a start_b end_b : Z) : bool :=
  (start_a <? end_b) && (start_b <? end_a).

Definition ttos_memblk_recount_total (rs : list region) : Z :=
  foldl (λ total r, u64 (total + rg_size r)) 0 rs.

(** ** Tables *)

(** [ttos_memblk_insert_slot] at the split point: [None] is [-ENOMEM]. *)
Definition ttos_memblk_insert_slot (max : Z) (pre rest : list region) (total start size flags : Z)
    : option (list region * Z) :=
  if max <=? Z.of_nat (length pre + length rest) then None
  else Some (pre ++ [Region start size flags], u64 (total + size)).

(** [curr] is the entry at the index, [pre] those before it. *)
Fixpoint merge_walk (pre : list region) (curr : region) (rest : list region) (total : Z)
    : list region * Z :=
  match rest with
  | [] => (pre ++ [curr], total)
  | next :: rest =>
      if negb (rg_flags curr =? rg_flags next) || (rg_end curr <? rg_start next)
      then merge_walk (pre ++ [curr]) next rest total
      else
        let curr :=
          if rg_end curr <? rg_end next
          then Region (rg_start curr) (u64 (rg_end next - rg_start curr)) (rg_flags curr) else curr in
        merge_walk pre curr rest (ttos_memblk_recount_total (pre ++ curr :: rest))
  end.

Definition ttos_memblk_merge_regions (rs : list region) (total : Z) : list region * Z :=
  match rs with [] => ([], total) | r :: rs => merge_walk [] r rs total end.

(** The first loop of [ttos_memblk_add_range]. *)
Fixpoint skip_before (start : Z) (pre rest : list region) : list region * list region :=
  match rest with
  | r :: rest' => if rg_end r <=? start then skip_before start (pre ++ [r]) rest' else (pre, rest)
  | [] => (pre, [])
  end.

(** The code behind the second loop. *)
Definition add_finish (max end_ flags : Z) (pre rest : list region) (cursor total : Z) : Z * collect :=
  let done pre total := let '(rs, total) := ttos_memblk_merge_regions (pre ++ rest) total in
                        (0, Collect rs max total) in
  if cursor <? end_ then
    match ttos_memblk_insert_slot max pre rest total cursor (end_ - cursor) flags with
    | None => (- ENOMEM, Collect (pre ++ rest) max total)
    | Some (pre, total) => done pre total
    end
  else done pre total.

(** The second loop. *)
Fixpoint add_walk (max end_ flags : Z) (pre rest : list region) (cursor total : Z) : Z * collect :=
  match rest with
  | r :: rest' =>
      if rg_start r <? end_ then
        let step pre total :=
          let cursor := if cursor <? rg_end r then rg_end r else cursor in
          if end_ <=? cursor then add_finish max end_ flags pre rest cursor total
          else add_walk max end_ flags (pre ++ [r]) rest' cursor total in
        if cursor <? rg_start r then
          match ttos_memblk_insert_slot max pre rest total cursor (rg_start r - cursor) flags with
          | None => (- ENOMEM, Collect (pre ++ rest) max total)
          | Some (pre, total) => step pre total
          end
        else step pre total
      else add_finish max end_ flags pre rest cursor total
  | [] => add_finish max end_ flags pre rest cursor total
  end.

Definition ttos_memblk_add_range (c : collect) (start size flags : Z) : Z * collect :=
  match ttos_memblk_normalize_range start size with
  | None => (- EINVAL, c)
  | Some end_ =>
      let '(pre, rest) := skip_before start [] (regions c) in
      add_walk (rgn_max c) end_ flags pre rest start (total_size c)
  end.

Fixpoint remove_walk (max start end_ : Z) (pre rest : list region) (total : Z) : Z * collect :=
  match rest with
  | [] => (0, Collect pre max total)
  | r :: rest' =>
      let rs := rg_start r in
      let re := rg_end r in
      if end_ <=? rs then (0, Collect (pre ++ rest) max total)
      else if negb (ttos_memblk_region_overlap rs re start end_)
      then remove_walk max start end_ (pre ++ [r]) rest' total
      else if (start <=? rs) && (re <=? end_)
      then remove_walk max start end_ pre rest' (u64 (total - rg_size r))
      else if start <=? rs
      then remove_walk max start end_ (pre ++ [Region end_ (re - end_) (rg_flags r)]) rest'
             (u64 (total - (end_ - rs)))
      else if re <=? end_
      then remove_walk max start end_ (pre ++ [Region rs (start - rs) (rg_flags r)]) rest'
             (u64 (total - (re - start)))
      else if max <=? Z.of_nat (length pre + length rest)
      then (- ENOMEM, Collect (pre ++ rest) max total)
      else remove_walk max start end_
             (pre ++ [Region rs (start - rs) (rg_flags r); Region end_ (re - end_) (rg_flags r)]) rest'
             (u64 (total - (end_ - start)))
  end.

Definition ttos_memblk_remove_range (c : collect) (start size : Z) : Z * collect :=
  match ttos_memblk_normalize_range start size with
  | None => (- EINVAL, c)
  | Some end_ => remove_walk (rgn_max c) start end_ [] (regions c) (total_size c)
  end.

Fixpoint intersect_walk (rs : list region) (start end_ : Z) : bool :=
  match rs with
  | [] => false
  | r :: rs =>
      if end_ <=? rg_start r then false
      else if ttos_memblk_region_overlap (rg_start r) (rg_end r) start end_ then true
      else intersect_walk rs start end_
  end.

Definition ttos_memblk_range_intersect_collect (c : collect) (start size : Z) : bool :=
  match ttos_memblk_normalize_range start size with
  | None => false
  | Some end_ => intersect_walk (regions c) start end_
  end.

(** [left] and [right] close in on the entry; [None] is the result -1. *)
Fixpoint search_walk (fuel : nat) (rs : list region) (addr : Z) (left right : nat) : option nat :=
  match fuel with
  | O => None
  | S fuel =>
      if (left <? right)%nat then
        let mid := (left + (right - left) / 2)%nat in
        match rs !! mid with
        | None => None
        | Some r =>
            if addr <? rg_start r then search_walk fuel rs addr left mid
            else if rg_end r <=? addr then search_walk fuel rs addr (S mid) right
            else Some mid
        end
      else None
  end.

Definition ttos_memblk_collect_search_addr (c : collect) (addr : Z) : option nat :=
  search_walk (S (length (regions c))) (regions c) addr 0 (length (regions c)).

(** ** Iteration *)

Definition ttos_memblk_region_is_nomap (r : region) : bool := negb (Z.land (rg_flags r) MEMBLOCK_NOMAP =? 0).

(** [is_memory] says whether the table is [memblock.memory]. *)
Definition ttos_memblk_skip_region (is_memory : bool) (r : region) (flags : Z) : bool :=
  is_memory && (Z.land flags MEMBLOCK_NOMAP =? 0) && ttos_memblk_region_is_nomap r.

Definition out_full (out : list region) : bool := MEMBLOCK_MAX_ITER_RANGES <=? Z.of_nat (length out).

(** The inner loop: [inl] is the early return on a full array, [inr] carries the
    cursor. *)
Fixpoint cut_walk (bs : list region) (a_end flags cursor : Z) (out : list region)
    : list region + Z * list region :=
  match bs with
  | [] => inr (cursor, out)
  | b :: bs =>
      if cursor <? a_end then
        let b_start := rg_start b in
        let b_end := rg_end b in
        if b_end <=? cursor then cut_walk bs a_end flags cursor out
        else if a_end <=? b_start then inr (cursor, out)
        else if (cursor <? b_start) && out_full out then inl out
        else
          let out := if cursor <? b_start then out ++ [Region cursor (b_start - cursor) flags] else out in
          cut_walk bs a_end flags (if cursor <? b_end then Z.min b_end a_end else cursor) out
      else inr (cursor, out)
  end.

Fixpoint collect_walk (is_memory : bool) (flags : Z) (rs : list region) (b : option (list region))
    (out : list region) : list region :=
  match rs with
  | [] => out
  | a :: rs =>
      if ttos_memblk_skip_region is_memory a flags then collect_walk is_memory flags rs b out
      else if out_full out then out
      else
        match b with
        | None => collect_walk is_memory flags rs b (out ++ [a])
        | Some bs =>
            match cut_walk bs (rg_end a) (rg_flags a) (rg_start a) out with
            | inl out => out
            | inr (cursor, out) =>
                if cursor <? rg_end a then
                  if out_full out then out
                  else collect_walk is_memory flags rs b
                         (out ++ [Region cursor (rg_end a - cursor) (rg_flags a)])
                else collect_walk is_memory flags rs b out
            end
        end
  end.

Definition ttos_memblk_collect_ranges (is_memory : bool) (flags : Z) (a : collect) (b : option collect)
    : list region :=
  collect_walk is_memory flags (regions a) (regions <$> b) [].

(** The iterators return the next index and the range, if there is one. *)
Definition ULLONG_MAX : Z := 2 ^ 64 - 1.

Definition __next_range (idx flags : Z) (is_memory : bool) (a : collect) (b : option collect)
    : Z * option (Z * Z) :=
  let ranges := ttos_memblk_collect_ranges is_memory flags a b in
  let count := Z.of_nat (length ranges) in
  let pos := if idx =? ULLONG_MAX then count else idx in
  match ranges !! Z.to_nat pos with
  | None => (ULLONG_MAX, None)
  | Some r => (if count <=? pos + 1 then ULLONG_MAX else pos + 1, Some (rg_start r, rg_end r))
  end.

Definition __next_range_reverse (idx flags : Z) (is_memory : bool) (a : collect) (b : option collect)
    : Z * option (Z * Z) :=
  let ranges := ttos_memblk_collect_ranges is_memory flags a b in
  let count := Z.of_nat (length ranges) in
  let seen := if idx =? ULLONG_MAX then 0 else idx in
  if count <=? seen then (ULLONG_MAX, None)
  else
    match ranges !! Z.to_nat (count - seen - 1) with
    | None => (ULLONG_MAX, None)
    | Some r => (if count <=? seen + 1 then ULLONG_MAX else seen + 1, Some (rg_start r, rg_end r))
    end.

(** ** Allocation *)

Definition round_up (x y : Z) : Z := u64 (Z.lor (u64 (x - 1)) (y - 1) + 1).
Definition round_down (x y : Z) : Z := Z.land x (not64 (y - 1)).
Definition clamp (val lo hi : Z) : Z := Z.min (Z.max val lo) hi.

(** [None]: no valid range. *)
Definition ttos_memblk_modify_alloc_range (m : memblk) (range_start range_end : Z) : option (Z * Z) :=
  let range_end := if range_end =? MEMBLOCK_ALLOC_ACCESSIBLE then current_limit m else range_end in
  let range_start := Z.max range_start PAGE_SIZE in
  if range_start <? range_end then Some (range_start, range_end) else None.

(** The ranges from the last one down. *)
Fixpoint search_down (rev_ranges : list region) (size align lo hi : Z) : Z :=
  match rev_ranges with
  | [] => 0
  | r :: rs =>
      let start := clamp (rg_start r) lo hi in
      let end_ := clamp (rg_end r) lo hi in
      if (end_ <=? start) || (end_ - start <? size) then search_down rs size align lo hi
      else
        let dest := round_down (end_ - size) align in
        if start <=? dest then dest else search_down rs size align lo hi
  end.

Fixpoint search_up (ranges : list region) (size align lo hi : Z) : Z :=
  match ranges with
  | [] => 0
  | r :: rs =>
      let start := clamp (rg_start r) lo hi in
      let end_ := clamp (rg_end r) lo hi in
      if end_ <=? start then search_up rs size align lo hi
      else
        let dest := round_up start align in
        if (dest <? end_) && (size <=? end_ - dest) then dest else search_up rs size align lo hi
  end.

Definition ttos_memblk_request_size_in_range (m : memblk) (size align range_start range_end flags : Z) : Z :=
  if size =? 0 then 0
  else
    let align := if align =? 0 then SMP_CACHE_BYTES else align in
    match ttos_memblk_modify_alloc_range m range_start range_end with
    | None => 0
    | Some (lo, hi) =>
        let ranges := ttos_memblk_collect_ranges true flags (memory m) (Some (reserved m)) in
        if bottom_up m then search_up ranges size align lo hi
        else search_down (reverse ranges) size align lo hi
    end.

Definition ttos_memblk_reserve (start size : Z) (m : memblk) : Z * memblk :=
  let '(r, c) := ttos_memblk_add_range (reserved m) start size MEMBLOCK_NONE in (r, set_reserved c m).

Definition ttos_memblk_remove (start size : Z) (m : memblk) : Z * memblk :=
  let '(r, c) := ttos_memblk_remove_range (memory m) start size in (r, set_memory c m).

Definition ttos_memblk_free (start size : Z) (m : memblk) : Z * memblk :=
  let '(r, c) := ttos_memblk_remove_range (reserved m) start size in (r, set_reserved c m).

Definition ttos_memblk_choose_alloc_flags : Z := MEMBLOCK_NONE.

Definition ttos_memblk_alloc_in_specify_range (size align range_start range_end : Z) (m : memblk) : Z * memblk :=
  let align := if align =? 0 then SMP_CACHE_BYTES else align in
  let result := ttos_memblk_request_size_in_range m size align range_start range_end
                  ttos_memblk_choose_alloc_flags in
  if result =? 0 then (0, m)
  else
    let '(r, m) := ttos_memblk_reserve result size m in
    if negb (r =? 0) then (0, m) else (result, m).

Definition ttos_memblk_phys_alloc_specify_range (size align min_addr max_addr : Z) (m : memblk) : Z * memblk :=
  ttos_memblk_alloc_in_specify_range size align min_addr max_addr m.

Definition ttos_memblk_phys_alloc (size align : Z) (m : memblk) : Z * memblk :=
  ttos_memblk_phys_alloc_specify_range size align 0 MEMBLOCK_ALLOC_ACCESSIBLE m.

Section Zone.
(** [zone_normal_pvoffset ()], [ZONE_NORMAL_START] and [ZONE_NORMAL_END]. *)
Context (pvoffset zone_normal_start_v zone_normal_end_v : Z).

Definition phys_to_virt (x : Z) : Z := u64 (x - pvoffset).
Definition virt_to_phys (x : Z) : Z := u64 (x + pvoffset).

Definition ttos_memblk_add (start size : Z) (m : memblk) : Z * memblk :=
  match ttos_memblk_normalize_range start size with
  | None => (- EINVAL, m)
  | Some end_ =>
      let zone_normal_start := virt_to_phys zone_normal_start_v in
      let zone_normal_end := virt_to_phys zone_normal_end_v in
      let m := set_pfns
        (Z.max (max_pfn m) (PFN_DOWN (end_ - 1)))
        (Z.max (Z.min (mb_min_low_pfn m) (PFN_DOWN start)) (PFN_DOWN zone_normal_start))
        (Z.min (Z.max (mb_max_low_pfn m) (PFN_DOWN (end_ - 1))) (PFN_DOWN zone_normal_end)) m in
      let '(r, c) := ttos_memblk_add_range (memory m) start size MEMBLOCK_NONE in (r, set_memory c m)
  end.

(** ** The hand-over to the page allocator *)

Definition zone_of (m : memblk) : zone_cfg := ZoneCfg (mb_min_low_pfn m) (mb_max_low_pfn m) pvoffset.

(** [__builtin_ctzl], undefined for 0. *)
Fixpoint ctz_pos (p : positive) : Z :=
  match p with xO p => 1 + ctz_pos p | _ => 0 end.
Definition ctz (x : Z) : option Z := match x with Zpos p => Some (ctz_pos p) | _ => None end.
Definition ffsll (x : Z) : Z := match ctz x with Some n => n + 1 | None => 0 end.

(** [while (temp_start + (1ULL << order) > temp_end) order--]; a shift by a negative
    number is undefined. *)
Fixpoint shrink_order (order : nat) (start end_ : Z) : option nat :=
  if end_ <? u64 (start + Z.shiftl 1 (Z.of_nat order)) then
    match order with O => None | S order => shrink_order order start end_ end
  else Some order.

Fixpoint release_walk (zc : zone_cfg) (fuel : nat) (temp_start temp_end : Z) : M pstate unit :=
  match fuel with
  | O => fault
  | S fuel =>
      if temp_start <? temp_end then
        order ← lift (shrink_order (Z.to_nat (Z.min (MAX_ORDER - 1) (ffsll temp_start))) temp_start temp_end);
        align_order ← lift (ctz temp_start);
        let order := if align_order <? Z.of_nat order then Z.to_nat align_order else order in
        _ ← set_page_free zc order (u64 (Z.shiftl temp_start PAGE_SIZE_SHIFT));
        release_walk zc fuel (u64 (temp_start + Z.shiftl 1 (Z.of_nat order))) temp_end
      else mret tt
  end.

Definition __ttos_memblk_release_avail_mem_core (zc : zone_cfg) (start end_ : Z) : M pstate Z :=
  let start_pfn := PFN_UP start in
  let end_pfn := PFN_UP end_ in
  if end_pfn <=? start_pfn then mret 0
  else
    let temp_start := Z.max start_pfn (min_low_pfn zc) in
    _ ← release_walk zc (S (Z.to_nat (end_pfn - temp_start))) temp_start end_pfn;
    mret (end_pfn - start_pfn).

(** The size of [struct page]; [kmap] acts on the readable descriptors. *)
Context (sizeof_page : Z) (kmap : Z → Z → Z → pstate → pstate).

Definition vpage_start (m : memblk) : Z := phys_to_virt (u64 (Z.shiftl (mb_max_low_pfn m) PAGE_SIZE_SHIFT)).

Definition setup_page_area (start end_ : Z) : M (memblk * pstate) Z :=
  let start_pfn := PFN_DOWN start in
  let end_pfn := PFN_UP end_ in
  if end_pfn <=? start_pfn then mret 0
  else λ '(m, s),
    let vaddr := u64 (vpage_start m + start_pfn * sizeof_page) in
    let vaddr := round_down vaddr PAGE_SIZE in
    let per := PAGE_SIZE / sizeof_page in
    let page_cnt := (end_pfn - start_pfn + per - 1) / per in
    let '(paddr, m) := ttos_memblk_phys_alloc (u64 (page_cnt * PAGE_SIZE)) PAGE_SIZE m in
    if paddr =? 0 then Some (0, (m, s))
    else Some (end_pfn - start_pfn, (m, kmap vaddr paddr (u64 (page_cnt * PAGE_SIZE)) s)).

Fixpoint setup_walk (ranges : list region) (count : Z) : M (memblk * pstate) Z :=
  match ranges with
  | [] => mret count
  | r :: ranges => n ← setup_page_area (rg_start r) (rg_end r); setup_walk ranges (u64 (count + n))
  end.

Definition on_pages {A} (f : M pstate A) : M (memblk * pstate) A :=
  λ '(m, s), '(a, s) ← f s; Some (a, (m, s)).

Fixpoint reserve_walk (ranges : list region) : M pstate unit :=
  match ranges with
  | [] => mret tt
  | r :: ranges => _ ← set_page_reserved (rg_start r) (rg_end r); reserve_walk ranges
  end.

Fixpoint avail_walk (zc : zone_cfg) (ranges : list region) : M pstate unit :=
  match ranges with
  | [] => mret tt
  | r :: ranges =>
      _ ← __ttos_memblk_release_avail_mem_core zc (rg_start r) (rg_end r); avail_walk zc ranges
  end.

(** The argument of [totalram_pages_add] is an [int]. *)
Definition to_int (x : Z) : Z := (x + 2 ^ 31) mod 2 ^ 32 - 2 ^ 31.

Definition ttos_memblk_release_mem_to_pagealloc : M (memblk * pstate) Z :=
  ranges ← gets (λ '(m, _), ttos_memblk_collect_ranges true MEMBLOCK_NONE (memory m) None);
  count ← setup_walk ranges 0;
  ranges ← gets (λ '(m, _), ttos_memblk_collect_ranges false MEMBLOCK_NONE (reserved m) None);
  _ ← on_pages (reserve_walk ranges);
  ranges ← gets (λ '(m, _), ttos_memblk_collect_ranges true MEMBLOCK_NONE (memory m) (Some (reserved m)));
  zc ← gets (λ '(m, _), zone_of m);
  _ ← on_pages (avail_walk zc ranges);
  _ ← on_pages (totalram_pages_add (to_int count));
  mret 0.

End Zone.
