(* ===== verification/MemblockInv.v ===== *)
(** * The tables of memblock as sets of addresses

    [chain d lo rs]: the regions are in order from [lo] on and, with [d = 1], keep a
    gap between neighbours.  Adding a range is the union, removing one the
    difference, and collecting ranges the difference of two tables. *)

From S2P Require Import Prelude Page Memblock.
Import Width.
Local Open Scope Z_scope.

Definition inr_ (rs : list region) (a : Z) : Prop :=
  ∃ r, r ∈ rs ∧ rg_start r ≤ a < rg_start r + rg_size r.

Record rok (r : region) : Prop := ROk {
  ok_size : 0 < rg_size r;
  ok_end : rg_start r + rg_size r < 2 ^ 64;
  ok_flags : rg_flags r = MEMBLOCK_NONE;
}.

Fixpoint chain (d lo : Z) (rs : list region) : Prop :=
  match rs with
  | [] => True
  | r :: rs => lo ≤ rg_start r ∧ rok r ∧ chain d (rg_start r + rg_size r + d) rs
  end.

Fixpoint last_end (d lo : Z) (rs : list region) : Z :=
  match rs with [] => lo | r :: rs => last_end d (rg_start r + rg_size r + d) rs end.

Fixpoint sum (rs : list region) : Z := match rs with [] => 0 | r :: rs => rg_size r + sum rs end.

(** A table: its regions are in order, it is not overfull and its total is right. *)
Record table (d : Z) (c : collect) : Prop := MkTable {
  t_chain : chain d 0 (regions c);
  t_len : rgn_num c ≤ rgn_max c;
  t_total : total_size c = u64 (sum (regions c));
}.

(** ** Sets of addresses *)

Lemma inr_nil a : ¬ inr_ [] a.
Proof. by intros (r & ?%not_elem_of_nil & _). Qed.

Lemma inr_cons r rs a : inr_ (r :: rs) a ↔ rg_start r ≤ a < rg_start r + rg_size r ∨ inr_ rs a.
Proof.
  unfold inr_. setoid_rewrite elem_of_cons. split; [|naive_solver].
  intros (r' & [->|?] & ?); eauto.
Qed.

Lemma inr_app xs ys a : inr_ (xs ++ ys) a ↔ inr_ xs a ∨ inr_ ys a.
Proof. unfold inr_. setoid_rewrite elem_of_app. naive_solver. Qed.

Lemma inr_one r a : inr_ [r] a ↔ rg_start r ≤ a < rg_start r + rg_size r.
Proof. rewrite inr_cons. pose proof (inr_nil a). tauto. Qed.

(** ** Chains *)

Lemma chain_app d lo xs ys : chain d lo (xs ++ ys) ↔ chain d lo xs ∧ chain d (last_end d lo xs) ys.
Proof. revert lo. induction xs as [|x xs IH]; intros lo; simpl; [tauto|]. rewrite IH. tauto. Qed.

Lemma last_end_app d lo xs ys : last_end d lo (xs ++ ys) = last_end d (last_end d lo xs) ys.
Proof. revert lo. induction xs as [|x xs IH]; intros lo; simpl; [done|]. apply IH. Qed.

Lemma chain_mono d lo lo' rs : lo' ≤ lo → chain d lo rs → chain d lo' rs.
Proof. destruct rs; simpl; [done|]. intros ? (? & ?). split; [lia|done]. Qed.

Lemma chain_weaken d d' lo rs : d ≤ d' → chain d' lo rs → chain d lo rs.
Proof.
  intros Hd. revert lo. induction rs as [|r rs IH]; intros lo; simpl; [done|]. intros (? & ? & Hc).
  split_and!; try done. apply IH. eapply chain_mono; [|done]. lia.
Qed.

Lemma last_end_ge d lo rs : 0 ≤ d → chain d lo rs → lo ≤ last_end d lo rs.
Proof.
  intros Hd. revert lo. induction rs as [|r rs IH]; intros lo; simpl; [done|].
  intros (? & [? _ _] & Hc). specialize (IH _ Hc). lia.
Qed.

Lemma last_end_mono d d' lo lo' rs : d ≤ d' → lo ≤ lo' → last_end d lo rs ≤ last_end d' lo' rs.
Proof. intros Hd. revert lo lo'. induction rs as [|r rs IH]; intros lo lo' Hlo; simpl; [done|]. apply IH. lia. Qed.

Lemma chain_lower d lo rs a : 0 ≤ d → chain d lo rs → inr_ rs a → lo ≤ a.
Proof.
  intros Hd. revert lo. induction rs as [|r rs IH]; intros lo; [by intros _ ?%inr_nil|].
  rewrite inr_cons. intros (? & [? _ _] & Hc) [?|Hi]; [lia|]. specialize (IH _ Hc Hi). lia.
Qed.

Lemma chain_upper d lo rs a : 0 ≤ d → chain d lo rs → inr_ rs a → a < last_end d lo rs.
Proof.
  intros Hd. revert lo. induction rs as [|r rs IH]; intros lo; [by intros _ ?%inr_nil|].
  rewrite inr_cons. intros (? & [? _ _] & Hc) [?|Hi]; simpl; [|by apply IH].
  pose proof (last_end_ge d _ rs Hd Hc). lia.
Qed.

Lemma rg_end_ok r : 0 ≤ rg_start r → rok r → rg_end r = rg_start r + rg_size r.
Proof. intros ? [? ? _]. apply u64_small. lia. Qed.

Lemma sum_app xs ys : sum (xs ++ ys) = sum xs + sum ys.
Proof. induction xs as [|x xs IH]; simpl; [done|]. lia. Qed.

(** The regions of a chain are disjoint, so their sizes do not overflow. *)
Lemma sum_bound d lo rs : 0 ≤ d → chain d lo rs → 0 ≤ sum rs ≤ last_end d lo rs - lo.
Proof.
  intros Hd. revert lo. induction rs as [|r rs IH]; intros lo; simpl; [lia|].
  intros (? & [? _ _] & Hc). specialize (IH _ Hc). lia.
Qed.

Lemma u64_add_mod x y : u64 (u64 x + y) = u64 (x + y).
Proof. unfold u64, wrap. by rewrite Zplus_mod_idemp_l. Qed.

Lemma u64_sub_mod x y : u64 (u64 x - y) = u64 (x - y).
Proof. unfold u64, wrap. by rewrite Zminus_mod_idemp_l. Qed.

Lemma recount_sum rs : ttos_memblk_recount_total rs = u64 (sum rs).
Proof.
  unfold ttos_memblk_recount_total.
  enough (H : ∀ t, foldl (λ total r, u64 (total + rg_size r)) (u64 t) rs = u64 (t + sum rs)).
  { specialize (H 0). rewrite u64_small in H by lia. by rewrite H. }
  induction rs as [|r rs IH]; intros t; simpl; [by rewrite Z.add_0_r|].
  rewrite u64_add_mod, IH. f_equal. lia.
Qed.

(** ** Merging *)

Lemma merge_walk_ok pre curr rest total rs' total' :
  chain 1 0 pre → chain 0 (last_end 1 0 pre) (curr :: rest) → total = u64 (sum (pre ++ curr :: rest)) →
  merge_walk pre curr rest total = (rs', total') →
  chain 1 0 rs' ∧ (∀ a, inr_ rs' a ↔ inr_ (pre ++ curr :: rest) a) ∧ total' = u64 (sum rs') ∧
  (length rs' ≤ length (pre ++ curr :: rest))%nat.
Proof.
  revert pre curr total. induction rest as [|nx rest IH]; intros pre curr total Hp Hc Ht; simpl.
  { intros [= <- <-]. destruct Hc as (? & ? & _). split_and!; try done.
    apply chain_app. by split_and!; simpl. }
  pose proof (last_end_ge 1 0 pre ltac:(lia) Hp) as Hlo.
  destruct Hc as (Hs & Hok & Hs2 & Hok2 & Hc2).
  pose proof Hok as [Hz He Hf]. pose proof Hok2 as [Hz2 He2 Hf2]. rewrite Hf, Hf2. simpl.
  rewrite !rg_end_ok by (done || lia).
  destruct (Z.ltb_spec (rg_start curr + rg_size curr) (rg_start nx)) as [Hgap|Hgap].
  - intros Hm. apply IH in Hm; rewrite <- ?(assoc_L (++)) in *; simpl in *; try done.
    + apply chain_app. by split_and!; simpl.
    + rewrite last_end_app. simpl. split_and!; try done. lia.
  - set (curr' := if _ <? _ then Region _ _ _ else curr). intros Hm.
    assert (Hcur : rg_start curr' = rg_start curr ∧ rok curr' ∧
      rg_start curr' + rg_size curr' = rg_start nx + rg_size nx).
    { subst curr'. destruct (Z.ltb_spec (rg_start curr + rg_size curr) (rg_start nx + rg_size nx)); [|lia].
      simpl. rewrite u64_small by lia. split_and!; [done| |lia]. split; simpl; [lia|lia|done]. }
    destruct Hcur as (Hst & Hok' & Hen). apply IH in Hm; try done.
    + destruct Hm as (? & Hset & ? & Hlen). split_and!; try done.
      * intros a. rewrite Hset, !inr_app, !inr_cons.
        assert (rg_start curr' ≤ a < rg_start curr' + rg_size curr' ↔
          rg_start curr ≤ a < rg_start curr + rg_size curr ∨
          rg_start nx ≤ a < rg_start nx + rg_size nx) by lia.
        tauto.
      * rewrite length_app in *. simpl in *. lia.
    + split_and!; [lia|done|]. by rewrite Hen.
    + apply recount_sum.
Qed.

Lemma merge_regions_table rs total max :
  chain 0 0 rs → total = u64 (sum rs) → Z.of_nat (length rs) ≤ max →
  let '(rs', total') := ttos_memblk_merge_regions rs total in
  table 1 (Collect rs' max total') ∧ ∀ a, inr_ rs' a ↔ inr_ rs a.
Proof.
  intros Hc Ht Hl. destruct rs as [|r rs]; simpl; [by split|].
  destruct (merge_walk [] r rs total) as [rs' total'] eqn:E.
  apply merge_walk_ok in E as (? & ? & ? & Hlen); try done. split; [|done]. split; try done.
  unfold rgn_num. simpl in *. lia.
Qed.

(** ** Adding a range *)

Lemma normalize_Some start size end_ :
  0 ≤ start < 2 ^ 64 → 0 ≤ size < 2 ^ 64 → ttos_memblk_normalize_range start size = Some end_ →
  start < end_ < 2 ^ 64 ∧ end_ = Z.min (start + size) (2 ^ 64 - 1).
Proof.
  intros Hs Hz. unfold ttos_memblk_normalize_range, PHYS_ADDR_MAX.
  destruct (Z.eqb_spec size 0); [done|].
  destruct (Z.ltb_spec (2 ^ 64 - 1 - start) size); cbv zeta; case_match; intros [= <-]; lia.
Qed.

Lemma normalize_None start size :
  0 ≤ start < 2 ^ 64 → 0 ≤ size < 2 ^ 64 →
  ttos_memblk_normalize_range start size = None ↔ size = 0 ∨ start = 2 ^ 64 - 1.
Proof.
  intros Hs Hz. unfold ttos_memblk_normalize_range, PHYS_ADDR_MAX.
  destruct (Z.eqb_spec size 0); [naive_solver|].
  destruct (Z.ltb_spec (2 ^ 64 - 1 - start) size); cbv zeta; case_match eqn:E; split; try done; lia.
Qed.

(** What an operation on a table does: success, or a full table. *)
Definition added (max : Z) (old : list region) (lo hi : Z) (r : Z * collect) : Prop :=
  let '(ret, c) := r in
  rgn_max c = max ∧
  ((ret = 0 ∧ table 1 c ∧ ∀ a, inr_ (regions c) a ↔ inr_ old a ∨ lo ≤ a < hi) ∨
   (ret = - ENOMEM ∧ table 0 c ∧ rgn_num c = max ∧
    (∀ a, inr_ old a → inr_ (regions c) a) ∧
    ∀ a, inr_ (regions c) a → inr_ old a ∨ lo ≤ a < hi)).

(** The state of the second loop: [pre] is settled up to [cursor]. *)
Record adding (max : Z) (pre rest : list region) (cursor total : Z) : Prop := MkAdding {
  a_pre : chain 0 0 pre;
  a_cur : last_end 0 0 pre ≤ cursor;
  a_rest : chain 0 (last_end 0 0 pre) rest;
  a_len : Z.of_nat (length pre + length rest) ≤ max;
  a_total : total = u64 (sum (pre ++ rest));
}.

Lemma adding_table max pre rest cursor total :
  adding max pre rest cursor total → table 0 (Collect (pre ++ rest) max total).
Proof.
  intros [? ? ? ? ?]. split; simpl; [by apply chain_app| |done].
  unfold rgn_num. simpl. rewrite length_app. lia.
Qed.

Lemma adding_insert max pre rest cursor total hi :
  adding max pre rest cursor total → cursor < hi → hi < 2 ^ 64 → chain 0 hi rest →
  Z.of_nat (length pre + length rest) < max →
  adding max (pre ++ [Region cursor (hi - cursor) 0]) rest hi (u64 (total + (hi - cursor))).
Proof.
  intros [? ? ? ? ->] ? ? ? ?. split.
  - apply chain_app. split; [done|]. simpl. split_and!; [done| |done]. split; simpl; lia || done.
  - rewrite last_end_app. simpl. lia.
  - rewrite last_end_app. simpl. eapply chain_mono; [|done]. lia.
  - rewrite length_app. simpl. lia.
  - rewrite u64_add_mod, !sum_app. simpl. f_equal. lia.
Qed.

Lemma insert_slot_run max pre rest total start size flags :
  ttos_memblk_insert_slot max pre rest total start size flags =
    if decide (Z.of_nat (length pre + length rest) < max)
    then Some (pre ++ [Region start size flags], u64 (total + size)) else None.
Proof.
  unfold ttos_memblk_insert_slot.
  case_decide; destruct (Z.leb_spec max (Z.of_nat (length pre + length rest))); done || lia.
Qed.

Lemma add_full max pre rest cursor total lo hi :
  adding max pre rest cursor total → ¬ Z.of_nat (length pre + length rest) < max →
  added max (pre ++ rest) lo hi (- ENOMEM, Collect (pre ++ rest) max total).
Proof.
  intros Ha Hn. split; [done|]. right. split_and!; try done; [by eapply adding_table| |by auto].
  destruct Ha. unfold rgn_num. simpl. rewrite length_app. lia.
Qed.

Lemma add_merge max pre rest cursor total lo hi :
  adding max pre rest cursor total → hi ≤ lo →
  added max (pre ++ rest) lo hi
    (let '(rs, total) := ttos_memblk_merge_regions (pre ++ rest) total in (0, Collect rs max total)).
Proof.
  intros Ha Hle. pose proof (adding_table _ _ _ _ _ Ha) as [Hc Hl Ht]. unfold rgn_num in Hl.
  pose proof (merge_regions_table (pre ++ rest) total max Hc Ht Hl) as Hm.
  destruct (ttos_memblk_merge_regions _ _) as [rs t]. destruct Hm as [Htab Hset].
  split; [done|]. left. split_and!; try done. intros a. simpl. rewrite Hset.
  split; [auto|]. intros [?|?]; [done|lia].
Qed.

(** Inserting a piece in front of the rest, then continuing. *)
Lemma added_weaken max pre pre' rest lo mid hi r :
  (∀ a, inr_ pre' a ↔ inr_ pre a ∨ lo ≤ a < mid) → lo ≤ mid ≤ hi →
  added max (pre' ++ rest) mid hi r → added max (pre ++ rest) lo hi r.
Proof.
  intros Hp Hm. destruct r as [ret c]. intros [? Hr]. split; [done|].
  assert (Hset : ∀ a, inr_ (pre' ++ rest) a ↔ inr_ (pre ++ rest) a ∨ lo ≤ a < mid).
  { intros a. rewrite !inr_app, Hp. tauto. }
  destruct Hr as [(? & ? & Hs)|(? & ? & ? & Hs1 & Hs2)]; [left|right]; split_and!; try done.
  - intros a. rewrite Hs, Hset. assert (lo ≤ a < hi ↔ lo ≤ a < mid ∨ mid ≤ a < hi) by lia. tauto.
  - intros a Ha. apply Hs1, Hset. auto.
  - intros a Ha. apply Hs2 in Ha as [[?|?]%Hset|?]; [auto|right; lia|right; lia].
Qed.

Lemma add_finish_ok max end_ pre rest cursor total :
  adding max pre rest cursor total → end_ < 2 ^ 64 → chain 0 end_ rest ∨ end_ ≤ cursor →
  added max (pre ++ rest) cursor end_ (add_finish max end_ 0 pre rest cursor total).
Proof.
  intros Ha He Hr. unfold add_finish. destruct (Z.ltb_spec cursor end_) as [Hlt|Hge].
  2: { by eapply add_merge. }
  destruct Hr as [Hr|?]; [|lia]. rewrite insert_slot_run. case_decide; [|by eapply add_full].
  eapply (added_weaken max pre (pre ++ [Region cursor (end_ - cursor) 0]) rest cursor end_ end_); [|lia|].
  - intros a. rewrite inr_app, inr_one. simpl.
    assert (cursor ≤ a < cursor + (end_ - cursor) ↔ cursor ≤ a < end_) by lia. tauto.
  - eapply add_merge; [by eapply adding_insert|done].
Qed.

(** Passing a region of the table. *)
Lemma adding_pass max pre r rest cursor total :
  adding max pre (r :: rest) cursor total → rg_start r ≤ cursor →
  adding max (pre ++ [r]) rest (Z.max cursor (rg_start r + rg_size r)) total.
Proof.
  intros [? ? (? & ? & ?) Hl Ht] Hc. split.
  - apply chain_app. by split_and!; simpl.
  - rewrite last_end_app. simpl. lia.
  - rewrite last_end_app. simpl. by rewrite Z.add_0_r in *.
  - rewrite length_app. simpl in *. lia.
  - by rewrite <- (assoc_L (++)).
Qed.

(** What the table covers already need not be added. *)
Lemma added_covered max old lo lo' hi r :
  (∀ a, lo ≤ a < hi → inr_ old a ∨ lo' ≤ a < hi) → lo ≤ lo' ∨ hi ≤ lo' →
  added max old lo' hi r → added max old lo hi r.
Proof.
  intros Hin Hle. destruct r as [ret c]. intros [? Hres]. split; [done|].
  destruct Hres as [(? & ? & Hs)|(? & ? & ? & Hs1 & Hs2)]; [left|right]; split_and!; try done.
  - intros a. rewrite Hs. split; [intros [?|?]; [auto|right; lia]|]. intros [?|?%Hin]; [auto|done].
  - intros a Hra%Hs2. destruct Hra; [auto|right; lia].
Qed.

(** The second loop from the region [r], which starts at or before the cursor. *)
Lemma add_reach max end_ r rest pre cursor total :
  (∀ pre cursor total, adding max pre rest cursor total → cursor < end_ → 0 ≤ cursor →
    added max (pre ++ rest) cursor end_ (add_walk max end_ 0 pre rest cursor total)) →
  adding max pre (r :: rest) cursor total → 0 ≤ rg_start r ≤ cursor → cursor < end_ < 2 ^ 64 →
  added max (pre ++ r :: rest) cursor end_
    (let cursor := if cursor <? rg_end r then rg_end r else cursor in
     if end_ <=? cursor then add_finish max end_ 0 pre (r :: rest) cursor total
     else add_walk max end_ 0 (pre ++ [r]) rest cursor total).
Proof.
  intros IH Ha Hr0 Hce. pose proof Ha as [_ _ (Hlo & Hok & _) _ _]. pose proof Hok as [? ? _].
  pose proof (adding_pass _ _ _ _ _ _ Ha (proj2 Hr0)) as Ha'.
  rewrite rg_end_ok by (done || lia). cbv zeta.
  set (cur := if cursor <? rg_start r + rg_size r then rg_start r + rg_size r else cursor).
  assert (Ecur : cur = Z.max cursor (rg_start r + rg_size r)).
  { subst cur. destruct (Z.ltb_spec cursor (rg_start r + rg_size r)); lia. }
  rewrite <- Ecur in Ha'. clearbody cur. apply (added_covered _ _ _ cur).
  - intros a Hra. rewrite inr_app, inr_cons. destruct (decide (cur ≤ a)); [right; lia|].
    left. right. left. lia.
  - lia.
  - destruct (Z.leb_spec end_ cur).
    + apply add_finish_ok; [|lia|by right]. destruct Ha. split; try done. lia.
    + pose proof (IH (pre ++ [r]) cur total Ha' ltac:(lia) ltac:(lia)) as Hw.
      by rewrite <- (assoc_L (++)) in Hw.
Qed.

Lemma add_walk_ok max end_ pre rest cursor total :
  adding max pre rest cursor total → cursor < end_ < 2 ^ 64 → 0 ≤ cursor →
  added max (pre ++ rest) cursor end_ (add_walk max end_ 0 pre rest cursor total).
Proof.
  revert pre cursor total. induction rest as [|r rest IH]; intros pre cursor total Ha He Hc0; cbn [add_walk].
  { apply add_finish_ok; [done|lia|by left]. }
  destruct (Z.ltb_spec (rg_start r) end_) as [Hlt|Hge].
  2: { apply add_finish_ok; [done|lia|]. left. destruct Ha as [_ _ (? & ? & ?) _ _]. by split_and!. }
  assert (IH' : ∀ pre cursor total, adding max pre rest cursor total → cursor < end_ → 0 ≤ cursor →
    added max (pre ++ rest) cursor end_ (add_walk max end_ 0 pre rest cursor total)).
  { intros. apply IH; [done|lia|done]. }
  pose proof Ha as [Hp _ (Hlo & Hok & Hrest) _ _].
  pose proof (last_end_ge 0 0 pre ltac:(lia) Hp). pose proof Hok as [? ? _].
  destruct (Z.ltb_spec cursor (rg_start r)) as [Hcur|Hcur]; [|apply add_reach; [done|done|lia|lia]].
  rewrite insert_slot_run. case_decide; [|by eapply add_full].
  eapply (added_weaken max pre (pre ++ [Region cursor (rg_start r - cursor) 0]) (r :: rest) cursor (rg_start r)); [|lia|].
  - intros a. rewrite inr_app, inr_one. simpl.
    assert (cursor ≤ a < cursor + (rg_start r - cursor) ↔ cursor ≤ a < rg_start r) by lia. tauto.
  - replace (if cursor <? rg_end r then rg_end r else cursor)
      with (if rg_start r <? rg_end r then rg_end r else rg_start r).
    2: { rewrite rg_end_ok by (done || lia).
         destruct (Z.ltb_spec (rg_start r) (rg_start r + rg_size r)); [|lia].
         destruct (Z.ltb_spec cursor (rg_start r + rg_size r)); [done|lia]. }
    apply add_reach; [done| |lia|lia]. eapply adding_insert; [done|lia|lia| |done]. by split_and!.
Qed.

Lemma skip_before_ok start pre rest xs ys :
  skip_before start pre rest = (xs, ys) → chain 0 0 (pre ++ rest) → last_end 0 0 pre ≤ start → 0 ≤ start →
  xs ++ ys = pre ++ rest ∧ last_end 0 0 xs ≤ start ∧
  match ys with [] => True | y :: _ => start < rg_start y + rg_size y end.
Proof.
  revert pre. induction rest as [|r rest IH]; intros pre; simpl.
  { intros [= <- <-] _ ?. done. }
  intros Hsk Hc Hle H0. apply chain_app in Hc as Hc'. destruct Hc' as (Hp & Hlo & Hok & _).
  pose proof (last_end_ge 0 0 pre ltac:(lia) Hp).
  rewrite rg_end_ok in Hsk by (done || lia).
  destruct (Z.leb_spec (rg_start r + rg_size r) start); [|by simplify_eq].
  apply IH in Hsk as (-> & ? & ?); rewrite <- ?(assoc_L (++)); try done.
  rewrite last_end_app. simpl. lia.
Qed.

Lemma add_range_ok c start size :
  table 0 c → 0 ≤ start < 2 ^ 64 → 0 ≤ size < 2 ^ 64 →
  match ttos_memblk_normalize_range start size with
  | None => ttos_memblk_add_range c start size MEMBLOCK_NONE = (- EINVAL, c)
  | Some end_ => added (rgn_max c) (regions c) start end_ (ttos_memblk_add_range c start size MEMBLOCK_NONE)
  end.
Proof.
  intros [Hc Hl Ht] Hs Hz. unfold ttos_memblk_add_range.
  destruct (ttos_memblk_normalize_range start size) as [end_|] eqn:E; [|done].
  apply normalize_Some in E as [He _]; [|done..].
  destruct (skip_before start [] (regions c)) as [xs ys] eqn:Esk.
  apply skip_before_ok in Esk as (Hxy & Hle & _); [|done|simpl; lia|lia]. simpl in Hxy. rewrite <- Hxy.
  apply add_walk_ok; [|lia|lia]. unfold rgn_num in Hl. rewrite <- Hxy in *.
  apply chain_app in Hc as [? ?]. rewrite length_app in Hl. split; try done.
Qed.

(** A range that meets no region is added whole or not at all. *)
Lemma add_range_disjoint c start size ret c' :
  table 0 c → 0 ≤ start < 2 ^ 64 → 0 ≤ size < 2 ^ 64 →
  (∀ a, start ≤ a < start + size → ¬ inr_ (regions c) a) →
  ttos_memblk_add_range c start size MEMBLOCK_NONE = (ret, c') → ret ≠ 0 → c' = c.
Proof.
  intros [Hc Hl Ht] Hs Hz Hdis. unfold ttos_memblk_add_range.
  destruct (ttos_memblk_normalize_range start size) as [end_|] eqn:E; [|by intros [= <- <-]].
  apply normalize_Some in E as [He Hend]; [|done..].
  destruct (skip_before start [] (regions c)) as [xs ys] eqn:Esk.
  apply skip_before_ok in Esk as (Hxy & Hle & Hhd); [|done|simpl; lia|lia]. simpl in Hxy.
  assert (Hgo : add_walk (rgn_max c) end_ MEMBLOCK_NONE xs ys start (total_size c) =
    add_finish (rgn_max c) end_ MEMBLOCK_NONE xs ys start (total_size c)).
  { destruct ys as [|y ys]; [done|]. cbn [add_walk].
    destruct (Z.ltb_spec (rg_start y) end_) as [Hlt|]; [|done]. exfalso.
    rewrite <- Hxy in Hc, Hdis. apply chain_app in Hc as (_ & Hlo & [? _ _] & _).
    apply (Hdis (Z.max start (rg_start y))); [lia|]. rewrite inr_app, inr_cons. right. left. lia. }
  rewrite Hgo. unfold add_finish. destruct (Z.ltb_spec start end_); [|lia].
  rewrite insert_slot_run. case_decide.
  - destruct (ttos_memblk_merge_regions _ _). by intros [= <- <-].
  - intros [= <- <-] _. destruct c; simpl in *. by subst.
Qed.

(** ** Removing a range *)

Definition removed (d : Z) (c : collect) (lo hi : Z) (r : Z * collect) : Prop :=
  let '(ret, c') := r in
  rgn_max c' = rgn_max c ∧ table d c' ∧
  ((ret = 0 ∧ ∀ a, inr_ (regions c') a ↔ inr_ (regions c) a ∧ ¬ lo ≤ a < hi) ∨
   (ret = - ENOMEM ∧ c' = c ∧ rgn_num c = rgn_max c ∧ ∃ r, r ∈ regions c ∧
     rg_start r < lo ∧ hi < rg_start r + rg_size r)).

(** The settled part [pre] keeps clear of the range. *)
Record removing (d max lo hi : Z) (pre rest : list region) (total : Z) : Prop := MkRemoving {
  m_d : 0 ≤ d;
  m_pre : chain d 0 pre;
  m_rest : chain d (last_end d 0 pre) rest;
  m_len : Z.of_nat (length pre + length rest) ≤ max;
  m_total : total = u64 (sum (pre ++ rest));
  m_clear : ∀ a, inr_ pre a → ¬ lo ≤ a < hi;
}.

Lemma removing_table d max lo hi pre rest total :
  removing d max lo hi pre rest total → table d (Collect (pre ++ rest) max total).
Proof.
  intros [? ? ? ? ? ?]. split; simpl; [by apply chain_app| |done].
  unfold rgn_num. simpl. rewrite length_app. lia.
Qed.

Lemma chain_elem d lo rs r : 0 ≤ d → chain d lo rs → r ∈ rs → lo ≤ rg_start r ∧ rok r.
Proof.
  intros Hd. revert lo. induction rs as [|x rs IH]; intros lo; simpl; [by intros _ ?%not_elem_of_nil|].
  intros (? & Hok & Hc) [->|Hr]%elem_of_cons; [done|]. destruct Hok as [? _ _].
  destruct (IH _ Hc Hr). split; [lia|done].
Qed.

Lemma u64_idemp x : u64 (u64 x) = u64 x.
Proof. unfold u64, wrap. by rewrite Zmod_mod. Qed.

(** One region leaves [rest] and the pieces [ps] of it enter [pre]. *)
Lemma removing_step d max lo hi pre r rest total ps total' :
  removing d max lo hi pre (r :: rest) total →
  chain d (last_end d 0 pre) ps → last_end d (last_end d 0 pre) ps ≤ rg_start r + rg_size r + d →
  Z.of_nat (length pre + length ps + length rest) ≤ max →
  total' = u64 (total - (rg_size r - sum ps)) →
  (∀ a, inr_ ps a → ¬ lo ≤ a < hi) →
  removing d max lo hi (pre ++ ps) rest total'.
Proof.
  intros [? ? (? & ? & ?) ? -> Hcl] Hps Hle Hlen -> Hclr. split; [done|..].
  - by apply chain_app.
  - rewrite last_end_app. by eapply chain_mono.
  - rewrite length_app. lia.
  - rewrite u64_sub_mod, !sum_app. simpl. f_equal. lia.
  - intros a [?|?]%inr_app; auto.
Qed.

(** What [remove_walk] does from a state of the loop. *)
Definition walk_removed (d max lo hi : Z) (pre rest : list region) (total : Z) (r : Z * collect) : Prop :=
  let '(ret, c') := r in
  rgn_max c' = max ∧ table d c' ∧
  ((ret = 0 ∧ ∀ a, inr_ (regions c') a ↔ inr_ (pre ++ rest) a ∧ ¬ lo ≤ a < hi) ∨
   (ret = - ENOMEM ∧ c' = Collect (pre ++ rest) max total ∧ rgn_num c' = max ∧
     ∃ r, r ∈ rest ∧ rg_start r < lo ∧ hi < rg_start r + rg_size r)).

(** A step that changes the table; the walk cannot fail behind it, since no later
    region can hold the whole range. *)
Lemma walk_removed_step d max lo hi pre r rest total ps total' res :
  removing d max lo hi pre (r :: rest) total → lo < hi →
  lo < rg_start r + rg_size r → rg_start r < hi →
  (∀ a, inr_ ps a ↔ rg_start r ≤ a < rg_start r + rg_size r ∧ ¬ lo ≤ a < hi) →
  walk_removed d max lo hi (pre ++ ps) rest total' res →
  walk_removed d max lo hi pre (r :: rest) total res.
Proof.
  intros [Hd _ (_ & _ & Hrest) _ _ _] Hlh Hov1 Hov2 Hps. destruct res as [ret c'].
  intros (? & ? & Hres). split_and!; [done|done|].
  destruct Hres as [[-> Hset]|(_ & _ & _ & x & Hx & Hx1 & Hx2)].
  - left. split; [done|]. intros a. rewrite Hset, !inr_app, inr_cons, Hps. tauto.
  - exfalso. destruct (chain_elem d _ rest x Hd Hrest Hx). lia.
Qed.

(** A region outside the range is passed. *)
Lemma walk_removed_pass d max lo hi pre r rest total res :
  walk_removed d max lo hi (pre ++ [r]) rest total res → walk_removed d max lo hi pre (r :: rest) total res.
Proof.
  unfold walk_removed. rewrite <- (assoc_L (++)). simpl. destruct res as [ret c'].
  intros (? & ? & Hres). split_and!; [done|done|].
  destruct Hres as [?|(? & ? & ? & x & ? & ?)]; [by left|right].
  split_and!; try done. exists x. split; [by right|done].
Qed.

Lemma remove_walk_ok d max lo hi pre rest total :
  removing d max lo hi pre rest total → 0 ≤ lo < hi → hi < 2 ^ 64 → 0 ≤ d ≤ 1 →
  walk_removed d max lo hi pre rest total (remove_walk max lo hi pre rest total).
Proof.
  intros Hr Hlh Hh Hd01. revert pre total Hr.
  induction rest as [|r rest IH]; intros pre total Hr; cbn [remove_walk].
  { pose proof (removing_table _ _ _ _ _ _ _ Hr) as Ht. rewrite app_nil_r in *.
    split_and!; [done|done|]. left. split; [done|]. intros a. rewrite app_nil_r. simpl.
    destruct Hr as [_ _ _ _ _ Hcl]. specialize (Hcl a). tauto. }
  pose proof Hr as [Hd Hp (Hlo & Hok & Hrest) Hlen Htot Hcl]. cbn [length] in Hlen. pose proof Hok as [Hsz Hen Hfl].
  pose proof (last_end_ge d 0 pre Hd Hp) as Hge. rewrite rg_end_ok by (done || lia). cbv zeta.
  set (rs := rg_start r) in *. set (re := rs + rg_size r) in *.
  destruct (Z.leb_spec hi rs).
  { split_and!; [done|by eapply removing_table|]. left. split; [done|]. intros a. simpl.
    split; [|tauto]. intros Hi. split; [done|]. apply inr_app in Hi as [Hi|Hi]; [by apply Hcl|].
    pose proof (chain_lower d rs (r :: rest) a Hd ltac:(by split_and!) Hi). lia. }
  unfold ttos_memblk_region_overlap.
  destruct ((rs <? hi) && (lo <? re)) eqn:Eov; cbn [negb].
  2: { assert (re ≤ lo) by lia.
       assert (Hr' : removing d max lo hi (pre ++ [r]) rest total).
       { apply (removing_step d max lo hi pre r rest total [r]); try done; simpl.
         - lia.
         - rewrite Z.add_0_r, Z.sub_diag, Z.sub_0_r, Htot. by rewrite u64_idemp.
         - intros a. rewrite inr_one. fold rs re. lia. }
       by apply walk_removed_pass, IH. }
  apply andb_true_iff in Eov as [Hov1%Z.ltb_lt Hov2%Z.ltb_lt].
  destruct (Z.leb_spec lo rs) as [Hlr|Hlr]; destruct (Z.leb_spec re hi) as [Hrh|Hrh]; cbn [andb].
  - apply (walk_removed_step d max lo hi pre r rest total [] (u64 (total - rg_size r))); try done; [lia..| |].
    { intros a. pose proof (inr_nil a). fold rs re. split; [tauto|lia]. }
    rewrite app_nil_r. apply IH. rewrite <- (app_nil_r pre) at 1.
    apply (removing_step d max lo hi pre r rest total []); try done; simpl in *; [lia|lia|f_equal; lia|].
    by intros a ?%inr_nil.
  - set (p := Region hi (re - hi) (rg_flags r)).
    apply (walk_removed_step d max lo hi pre r rest total [p] (u64 (total - (hi - rs)))); try done; [lia..| |].
    { intros a. rewrite inr_one. simpl. fold rs re. lia. }
    apply IH. apply (removing_step d max lo hi pre r rest total [p]); try done; simpl in *.
    + split_and!; [lia| |done]. split; simpl; [lia|lia|done].
    + fold rs. lia.
    + lia.
    + f_equal. lia.
    + intros a. rewrite inr_one. simpl. lia.
  - set (p := Region rs (lo - rs) (rg_flags r)).
    apply (walk_removed_step d max lo hi pre r rest total [p] (u64 (total - (re - lo)))); try done; [lia..| |].
    { intros a. rewrite inr_one. simpl. fold rs re. lia. }
    apply IH. apply (removing_step d max lo hi pre r rest total [p]); try done; simpl in *.
    + split_and!; [lia| |done]. split; simpl; [lia|lia|done].
    + fold rs. lia.
    + lia.
    + f_equal. lia.
    + intros a. rewrite inr_one. simpl. lia.
  - destruct (Z.leb_spec max (Z.of_nat (length pre + length (r :: rest)))).
    { split_and!; [done|by eapply removing_table|]. right. split_and!; try done.
      - unfold rgn_num. simpl. rewrite length_app. simpl in *. lia.
      - exists r. split; [by left|done]. }
    set (p := Region rs (lo - rs) (rg_flags r)). set (p' := Region hi (re - hi) (rg_flags r)).
    apply (walk_removed_step d max lo hi pre r rest total [p; p'] (u64 (total - (hi - lo)))); try done; [lia..| |].
    { intros a. rewrite inr_cons, inr_one. simpl. fold rs re. lia. }
    apply IH. apply (removing_step d max lo hi pre r rest total [p; p']); try done; simpl in *.
    + split_and!; [lia| |lia| |done]; split; simpl; [lia|lia|done|lia|lia|done].
    + fold rs. lia.
    + lia.
    + f_equal. lia.
    + intros a. rewrite inr_cons, inr_one. simpl. lia.
Qed.

Lemma remove_range_ok d c start size :
  0 ≤ d ≤ 1 → table d c → 0 ≤ start < 2 ^ 64 → 0 ≤ size < 2 ^ 64 →
  match ttos_memblk_normalize_range start size with
  | None => ttos_memblk_remove_range c start size = (- EINVAL, c)
  | Some end_ => removed d c start end_ (ttos_memblk_remove_range c start size)
  end.
Proof.
  intros Hd [Hc Hl Ht] Hs Hz. unfold ttos_memblk_remove_range.
  destruct (ttos_memblk_normalize_range start size) as [end_|] eqn:E; [|done].
  apply normalize_Some in E as [He _]; [|done..].
  assert (Hr : removing d (rgn_max c) start end_ [] (regions c) (total_size c)).
  { split; simpl; try done; [lia|]. by intros a ?%inr_nil. }
  pose proof (remove_walk_ok _ _ _ _ _ _ _ Hr ltac:(lia) ltac:(lia) Hd) as Hw.
  destruct (remove_walk _ _ _ _ _ _) as [ret c']. destruct Hw as (? & ? & Hres).
  split_and!; [done|done|]. destruct Hres as [?|(? & -> & ? & ?)]; [by left|right].
  destruct c; split_and!; done.
Qed.

(** ** Intersection and search *)

Lemma intersect_walk_ok lo rs start end_ :
  0 ≤ lo → chain 0 lo rs → start < end_ →
  intersect_walk rs start end_ = true ↔ ∃ a, start ≤ a < end_ ∧ inr_ rs a.
Proof.
  intros H0 Hc Hse. revert lo H0 Hc. induction rs as [|r rs IH]; intros lo H0 Hc; simpl.
  { split; [done|]. by intros (a & _ & ?%inr_nil). }
  pose proof Hc as (Hlo & Hok & Hrest). pose proof Hok as [? ? _].
  rewrite rg_end_ok by (done || lia). unfold ttos_memblk_region_overlap.
  destruct (Z.leb_spec end_ (rg_start r)).
  { split; [done|]. intros (a & Ha & Hi). exfalso.
    pose proof (chain_lower 0 (rg_start r) (r :: rs) a ltac:(lia) ltac:(by split_and!) Hi). lia. }
  destruct (_ && _) eqn:E.
  - split; [intros _|done]. exists (Z.max start (rg_start r)). rewrite inr_cons. lia.
  - rewrite (IH (rg_start r + rg_size r + 0)) by (done || lia). setoid_rewrite inr_cons.
    split; intros (a & Ha & Hi); exists a; (split; [done|]); [auto|]. destruct Hi; [lia|done].
Qed.

Lemma chain_lookup_lt d lo rs i j x y :
  0 ≤ d → chain d lo rs → rs !! i = Some x → rs !! j = Some y → (i < j)%nat →
  rg_start x + rg_size x ≤ rg_start y.
Proof.
  intros Hd. revert lo i j. induction rs as [|r rs IH]; intros lo i j Hc Hi Hj Hij; [done|].
  destruct Hc as (? & ? & Hc). destruct j as [|j]; [lia|]. destruct i as [|i]; simpl in *.
  - simplify_eq. apply list_elem_of_lookup_2 in Hj.
    destruct (chain_elem d _ rs y Hd Hc Hj). lia.
  - eapply (IH _ i j); [done..|lia].
Qed.

Lemma search_walk_ok rs addr fuel left right :
  chain 0 0 rs → (right ≤ length rs)%nat → (right - left < fuel)%nat →
  (∀ i r, rs !! i = Some r → (i < left)%nat → rg_start r + rg_size r ≤ addr) →
  (∀ i r, rs !! i = Some r → (right ≤ i)%nat → addr < rg_start r) →
  match search_walk fuel rs addr left right with
  | Some i => ∃ r, rs !! i = Some r ∧ rg_start r ≤ addr < rg_start r + rg_size r
  | None => ¬ inr_ rs addr
  end.
Proof.
  intros Hc. revert left right. induction fuel as [|fuel IH]; intros left right Hlen Hf Hl Hr; [lia|].
  cbn [search_walk]. destruct (Nat.ltb_spec left right) as [Hlt|Hge].
  2: { intros (r & Hin & Ha). apply list_elem_of_lookup in Hin as [i Hi].
       destruct (decide (i < left)%nat); [specialize (Hl i r Hi ltac:(done))|specialize (Hr i r Hi ltac:(lia))]; lia. }
  set (mid := (left + (right - left) / 2)%nat).
  assert (Hmid : (left ≤ mid < right)%nat).
  { pose proof (Nat.div_lt_upper_bound (right - left) 2 (right - left)). lia. }
  destruct (lookup_lt_is_Some_2 rs mid) as [r Hm]; [lia|]. rewrite Hm.
  assert (Hok : 0 ≤ rg_start r ∧ rok r) by (eapply chain_elem; [|done|by eapply list_elem_of_lookup_2]; lia).
  rewrite rg_end_ok by apply Hok. destruct Hok as [_ [? _ _]].
  destruct (Z.ltb_spec addr (rg_start r)).
  { apply IH; [lia|lia|done|]. intros i x Hi Hge. destruct (decide (i = mid)) as [->|]; [by simplify_eq|].
    pose proof (chain_lookup_lt 0 0 rs mid i r x ltac:(lia) Hc Hm Hi ltac:(lia)). lia. }
  destruct (Z.leb_spec (rg_start r + rg_size r) addr).
  { apply IH; [lia|lia| |done]. intros i x Hi Hlt'. destruct (decide (i = mid)) as [->|]; [by simplify_eq|].
    pose proof (chain_lookup_lt 0 0 rs i mid x r ltac:(lia) Hc Hi Hm ltac:(lia)).
    lia. }
  by exists r.
Qed.

(** ** The difference of two tables *)

(** The entries that start inside an interval. *)
Definition starts_in (lo hi : Z) (bs : list region) : nat :=
  length (filter (λ b, lo ≤ rg_start b < hi) bs).

Lemma starts_in_cons lo hi b bs :
  starts_in lo hi (b :: bs) = ((if decide (lo ≤ rg_start b < hi)%Z then 1 else 0) + starts_in lo hi bs)%nat.
Proof. unfold starts_in. rewrite filter_cons. by case_decide. Qed.

Lemma starts_in_split lo mid hi bs :
  lo ≤ mid ≤ hi → starts_in lo hi bs = (starts_in lo mid bs + starts_in mid hi bs)%nat.
Proof.
  intros. induction bs as [|b bs IH]; [done|]. rewrite !starts_in_cons, IH.
  repeat case_decide; lia.
Qed.

Lemma starts_in_le lo hi bs : (starts_in lo hi bs ≤ length bs)%nat.
Proof. unfold starts_in. apply length_filter. Qed.

Lemma cut_walk_ok bs lo a_end cursor out :
  chain 0 lo bs → 0 ≤ lo → 0 ≤ cursor → a_end < 2 ^ 64 →
  Z.of_nat (length out) + Z.of_nat (starts_in (cursor + 1) a_end bs) < 260 →
  ∃ ps cursor', cut_walk bs a_end MEMBLOCK_NONE cursor out = inr (cursor', out ++ ps) ∧
    cursor ≤ cursor' ≤ Z.max cursor a_end ∧ chain 1 cursor ps ∧ last_end 1 cursor ps ≤ cursor' ∧
    (length ps ≤ starts_in (cursor + 1) a_end bs)%nat ∧
    ∀ a, inr_ ps a ∨ cursor' ≤ a < a_end ↔ cursor ≤ a < a_end ∧ ¬ inr_ bs a.
Proof.
  revert lo cursor out. induction bs as [|b bs IH]; intros lo cursor out Hc Hlo H0 Hae Hroom; cbn [cut_walk].
  { exists [], cursor. rewrite app_nil_r. split_and!; try done; try lia.
    intros a. pose proof (inr_nil a). tauto. }
  pose proof Hc as (Hbs & Hok & Hrest). pose proof Hok as [? ? _]. cbv zeta.
  rewrite rg_end_ok by (done || lia). rewrite starts_in_cons in *.
  set (bst := rg_start b) in *. set (bnd := bst + rg_size b) in *.
  assert (Hlater : ∀ a, inr_ bs a → bnd ≤ a).
  { intros a Ha. pose proof (chain_lower 0 _ bs a ltac:(lia) Hrest Ha). lia. }
  assert (Hstop : a_end ≤ cursor ∨ a_end ≤ bst →
    ∃ ps cursor', @inr (list region) _ (cursor, out) = inr (cursor', out ++ ps) ∧
    cursor ≤ cursor' ≤ Z.max cursor a_end ∧ chain 1 cursor ps ∧ last_end 1 cursor ps ≤ cursor' ∧
    (length ps ≤ (if decide (cursor + 1 ≤ bst < a_end)%Z then 1 else 0) + starts_in (cursor + 1) a_end bs)%nat ∧
    ∀ a, inr_ ps a ∨ cursor' ≤ a < a_end ↔ cursor ≤ a < a_end ∧ ¬ inr_ (b :: bs) a).
  { intros Hst. exists [], cursor. rewrite app_nil_r. split_and!; try done; simpl; try lia.
    intros a. pose proof (inr_nil a). rewrite inr_cons. fold bst bnd. specialize (Hlater a).
    split; [|tauto]. intros [?|?]; [done|]. split; [done|]. intros [?|?]; [lia|]. specialize (Hlater ltac:(done)). lia. }
  destruct (Z.ltb_spec cursor a_end); [|apply Hstop; lia].
  destruct (Z.leb_spec bnd cursor).
  { destruct (IH (bnd + 0) cursor out) as (ps & cur & -> & ? & ? & ? & ? & Hset); [done|lia|done|done|lia|].
    exists ps, cur. split_and!; try done; try lia. intros a. rewrite Hset, inr_cons. fold bst bnd.
    split; [|tauto]. intros [? Hn]. split; [done|]. intros [?|?]; [lia|done]. }
  destruct (Z.leb_spec a_end bst); [apply Hstop; lia|].
  replace (cursor <? bnd) with true by lia.
  assert (Hmono : (starts_in (Z.min bnd a_end + 1) a_end bs ≤ starts_in (cursor + 1) a_end bs)%nat).
  { destruct (decide (Z.min bnd a_end + 1 ≤ a_end)).
    - rewrite (starts_in_split (cursor + 1) (Z.min bnd a_end + 1) a_end) by lia. lia.
    - assert (starts_in (Z.min bnd a_end + 1) a_end bs = 0%nat) as ->; [|lia].
      unfold starts_in. rewrite filter_none; [done|]. apply Forall_forall. intros. lia. }
  destruct (Z.ltb_spec cursor bst) as [Hcb|Hcb]; cbn [andb].
  - rewrite decide_True in * by lia. unfold out_full.
    replace (MEMBLOCK_MAX_ITER_RANGES <=? Z.of_nat (length out)) with false.
    2: { symmetry. apply Z.leb_gt. change MEMBLOCK_MAX_ITER_RANGES with 260. lia. }
    set (p := Region cursor (bst - cursor) MEMBLOCK_NONE).
    destruct (IH (bnd + 0) (Z.min bnd a_end) (out ++ [p])) as (ps & cur & -> & ? & Hch & ? & ? & Hset);
      [done|lia|lia|done|rewrite length_app; simpl; lia|].
    exists (p :: ps), cur. rewrite <- (assoc_L (++)). split_and!; try done; [lia|lia|..].
    + simpl. split_and!; [lia| |]; [split; simpl; lia || done|]. eapply chain_mono; [|done]. lia.
    + simpl. etrans; [|done]. apply last_end_mono; lia.
    + simpl. lia.
    + intros a. rewrite !inr_cons. simpl. fold bst bnd. specialize (Hlater a).
      transitivity (cursor ≤ a < bst ∨ (inr_ ps a ∨ cur ≤ a < a_end)).
      { assert (cursor ≤ a < cursor + (bst - cursor) ↔ cursor ≤ a < bst) by lia. tauto. }
      rewrite Hset. split.
      * intros [?|[? ?]]; (split; [lia|]); intros [?|?]; try done; [lia| |lia]. specialize (Hlater ltac:(done)). lia.
      * intros [? Hn]. destruct (decide (a < bst)); [left; lia|]. right. split; [|tauto].
        destruct (decide (a < bnd)); [|lia]. exfalso. apply Hn. left. lia.
  - destruct (IH (bnd + 0) (Z.min bnd a_end) out) as (ps & cur & -> & ? & Hch & ? & ? & Hset);
      [done|lia|lia|done|case_decide; lia|].
    exists ps, cur. split_and!; try done; [lia|lia|..].
    + eapply chain_mono; [|done]. lia.
    + etrans; [|done]. apply last_end_mono; lia.
    + case_decide; lia.
    + intros a. rewrite Hset, inr_cons. fold bst bnd. split.
      * intros [? ?]. split; [lia|]. intros [?|?]; [lia|done].
      * intros [? Hn]. split; [|tauto]. destruct (decide (a < bnd)); [|lia]. exfalso. apply Hn. left. lia.
Qed.

Lemma not_skipped (r : region) : rok r → ttos_memblk_skip_region true r MEMBLOCK_NONE = false.
Proof. intros [_ _ Hf]. unfold ttos_memblk_skip_region, ttos_memblk_region_is_nomap. by rewrite Hf. Qed.

(** The ranges collected: the room of the array suffices, because every piece ends at
    the end of a region or at the start of an excluded one. *)
Lemma collect_walk_ok d lo rs bs out :
  0 ≤ d ≤ 1 → chain d lo rs → chain 0 0 bs → 0 ≤ lo →
  Z.of_nat (length out + length rs) + Z.of_nat (starts_in lo (2 ^ 64) bs) < 260 →
  ∃ ps, collect_walk true MEMBLOCK_NONE rs (Some bs) out = out ++ ps ∧
    chain d lo ps ∧ (length ps ≤ length rs + starts_in lo (2 ^ 64) bs)%nat ∧
    ∀ a, inr_ ps a ↔ inr_ rs a ∧ ¬ inr_ bs a.
Proof.
  intros Hd Hrs Hbs. revert lo out Hrs. induction rs as [|r rs IH]; intros lo out Hrs Hlo Hroom; cbn [collect_walk].
  { exists []. rewrite app_nil_r. split_and!; try done; [simpl; lia|]. intros a. pose proof (inr_nil a). tauto. }
  pose proof Hrs as (Hst & Hok & Hrest). pose proof Hok as [Hsz Hen Hfl]. cbn [length] in Hroom.
  rewrite not_skipped by done. unfold out_full at 1. change MEMBLOCK_MAX_ITER_RANGES with 260.
  replace (260 <=? Z.of_nat (length out)) with false by lia.
  rewrite rg_end_ok, Hfl by (done || lia). set (st := rg_start r) in *. set (en := st + rg_size r) in *.
  assert (Hsplit : (starts_in (st + 1) en bs + starts_in (en + d) (2 ^ 64) bs ≤ starts_in lo (2 ^ 64) bs)%nat).
  { rewrite (starts_in_split lo (st + 1) (2 ^ 64)), (starts_in_split (st + 1) en (2 ^ 64)) by lia.
    destruct (decide (en + d ≤ 2 ^ 64)); [|lia].
    rewrite (starts_in_split en (en + d) (2 ^ 64)) by lia. lia. }
  destruct (cut_walk_ok bs 0 en st out) as (ps & cur & -> & Hcur & Hch & Hle & Hlen & Hset); [done|lia|lia|lia|lia|].
  set (q := if cur <? en then [Region cur (en - cur) MEMBLOCK_NONE] else []).
  assert (Hq : chain d lo (ps ++ q) ∧ last_end d lo (ps ++ q) ≤ en + d ∧ (length q ≤ 1)%nat ∧
    ∀ a, inr_ q a ↔ cur ≤ a < en).
  { pose proof (last_end_mono d 1 lo st ps ltac:(lia) Hst) as Hm. pose proof (last_end_ge 1 st ps ltac:(lia) Hch).
    assert (Hps : chain d lo ps) by (eapply chain_mono, chain_weaken; [done| |done]; lia).
    rewrite last_end_app. unfold q. destruct (Z.ltb_spec cur en); simpl.
    - split_and!; [|lia|lia|].
      + apply chain_app. split; [done|]. simpl. split_and!; [lia| |done]. split; simpl; lia || done.
      + intros a. rewrite inr_one. simpl. lia.
    - rewrite app_nil_r. split_and!; [done|lia|lia|]. intros a. pose proof (inr_nil a). split; [done|lia]. }
  destruct Hq as (Hq1 & Hq2 & Hq3 & Hq4).
  assert (Hgo : (if cur <? en then
      if out_full (out ++ ps) then out ++ ps
      else collect_walk true MEMBLOCK_NONE rs (Some bs) ((out ++ ps) ++ [Region cur (en - cur) MEMBLOCK_NONE])
    else collect_walk true MEMBLOCK_NONE rs (Some bs) (out ++ ps)) =
    collect_walk true MEMBLOCK_NONE rs (Some bs) (out ++ ps ++ q)).
  { unfold q. destruct (cur <? en).
    - unfold out_full. change MEMBLOCK_MAX_ITER_RANGES with 260.
      destruct (Z.leb_spec 260 (Z.of_nat (length (out ++ ps)))); [rewrite length_app in *; lia|].
      by rewrite <- (assoc_L (++)).
    - by rewrite app_nil_r. }
  rewrite Hgo. destruct (IH (en + d) (out ++ ps ++ q)) as (ps2 & -> & Hc2 & Hl2 & Hs2);
    [done|lia|rewrite !length_app; lia|].
  exists (ps ++ q ++ ps2). rewrite <- !(assoc_L (++)). split_and!; [done|..].
  - rewrite (assoc_L (++)). apply chain_app. split; [done|]. by eapply chain_mono.
  - rewrite !length_app. simpl. lia.
  - intros a. rewrite !inr_app, Hs2, Hq4, inr_cons. fold st en. specialize (Hset a). tauto.
Qed.
