(* ===== verification/MemblockProps.v ===== *)
(** * Correctness of memblock

    Memory and reserved regions are sets of addresses; the operations are union,
    difference and the search for an aligned run of addresses in memory that is not
    reserved. *)

From S2P Require Import Prelude Chain PageGeo Page PageInv PageAlloc PageProps Memblock MemblockInv.
Import Width.
Local Open Scope Z_scope.

(** ** Rounding *)

Lemma round_down_pow2 x k :
  0 ≤ k < 64 → 0 ≤ x < 2 ^ 64 → round_down x (2 ^ k) = 2 ^ k * (x / 2 ^ k).
Proof.
  intros Hk Hx. unfold round_down. rewrite <- (land_high x k) by done.
  by rewrite Z.shiftl_mul_pow2, Z.mul_1_l by lia.
Qed.

Lemma lor_low x k : 0 ≤ k → 0 ≤ x → Z.lor x (2 ^ k - 1) = 2 ^ k * (x / 2 ^ k) + (2 ^ k - 1).
Proof.
  intros Hk Hx. replace (2 ^ k - 1) with (Z.ones k) by (rewrite Z.ones_equiv; lia).
  rewrite Z.mul_comm, <- Z.shiftl_mul_pow2, <- Z.shiftr_div_pow2 by lia.
  assert (Hz : Z.land (Z.shiftl (Z.shiftr x k) k) (Z.ones k) = 0).
  { apply Z.bits_inj'. intros n Hn. rewrite Z.land_spec, Z.shiftl_spec, Z.bits_0 by done.
    destruct (decide (n < k)); [by rewrite Z.testbit_neg_r by lia|].
    rewrite Z.ones_spec_high by lia. apply andb_false_r. }
  rewrite <- Z.add_lor_land, Hz, Z.add_0_r. apply Z.bits_inj'. intros n Hn.
  rewrite !Z.lor_spec, Z.shiftl_spec by done. destruct (decide (n < k)).
  - rewrite (Z.ones_spec_low k n), !orb_true_r by lia. done.
  - rewrite (Z.ones_spec_high k n), !orb_false_r, Z.shiftr_spec by lia. f_equal. lia.
Qed.

(** The least multiple of [2 ^ k] at or above [x], or 0 if there is none. *)
Lemma round_up_pow2 x k :
  0 ≤ k < 64 → 0 < x < 2 ^ 64 →
  let y := 2 ^ k * ((x - 1) / 2 ^ k + 1) in
  x ≤ y ∧ (∀ d, (2 ^ k | d) → x ≤ d → y ≤ d) ∧ round_up x (2 ^ k) = if y <? 2 ^ 64 then y else 0.
Proof.
  intros Hk Hx y. unfold round_up. rewrite (u64_small (x - 1)), lor_low by lia.
  pose proof (pow2_pos k ltac:(lia)) as Hp. subst y.
  pose proof (Z.div_mod (x - 1) (2 ^ k) ltac:(lia)). pose proof (Z.mod_pos_bound (x - 1) (2 ^ k) Hp).
  set (m := (x - 1) / 2 ^ k) in *. clearbody m. split_and!; [lia|..].
  - intros d [c ->] Hd. rewrite (Z.mul_comm c) in *. apply Z.mul_le_mono_nonneg_l; [lia|].
    enough (m < c) by lia. apply (Z.mul_lt_mono_pos_l (2 ^ k)); lia.
  - replace (2 ^ k * m + (2 ^ k - 1) + 1) with (2 ^ k * (m + 1)) by lia.
    assert (Hm0 : 0 ≤ m) by nia.
    destruct (Z.ltb_spec (2 ^ k * (m + 1)) (2 ^ 64)); [apply u64_small; nia|].
    assert (2 ^ k * m < 2 ^ 64) by lia.
    assert (E : 2 ^ k * (m + 1) = 2 ^ 64).
    { destruct (pow2_le k 64) as (c & Hc & E); [lia|]. rewrite E in *. rewrite (Z.mul_comm c) in *.
      f_equal. assert (m < c) by (apply (Z.mul_lt_mono_pos_l (2 ^ k)); lia).
      assert (c ≤ m + 1) by (apply (Z.mul_le_mono_pos_l _ _ (2 ^ k)); lia). lia. }
    rewrite E. done.
Qed.

(** ** The search *)

(** [x] is an aligned place for [size] bytes in the region, between [lo] and [hi]. *)
Definition fits (r : region) (size k lo hi x : Z) : Prop :=
  rg_start r ≤ x ∧ x + size ≤ rg_start r + rg_size r ∧ lo ≤ x ∧ x + size ≤ hi ∧ (2 ^ k | x).

Definition found (rs : list region) (size k lo hi x : Z) : Prop :=
  (x = 0 ∧ ∀ r y, r ∈ rs → ¬ fits r size k lo hi y) ∨ (∃ r, r ∈ rs ∧ fits r size k lo hi x).

Section Search.
Context (size k lo hi : Z) (Hsz : 0 < size) (Hk : 0 ≤ k < 64) (Hlo : 0 < lo) (Hhi : lo < hi < 2 ^ 64).

Lemma search_down_found rs :
  (∀ r, r ∈ rs → 0 ≤ rg_start r ∧ rok r) → found rs size k lo hi (search_down rs size (2 ^ k) lo hi).
Proof.
  induction rs as [|r rs IH]; intros Hrs; simpl.
  { left. split; [done|]. by intros r y ?%not_elem_of_nil. }
  destruct (Hrs r ltac:(left)) as [H0 Hok]. pose proof Hok as [? ? _].
  assert (IH' := IH ltac:(intros; apply Hrs; by right)). clear IH.
  assert (Hskip : (∀ y, ¬ fits r size k lo hi y) → found (r :: rs) size k lo hi (search_down rs size (2 ^ k) lo hi)).
  { intros Hno. destruct IH' as [[? Hn]|(x & ? & ?)].
    - left. split; [done|]. intros x y [->|?]%elem_of_cons; [apply Hno|by apply Hn].
    - right. exists x. split; [by right|done]. }
  rewrite rg_end_ok by done. unfold clamp.
  set (st := Z.min (Z.max (rg_start r) lo) hi).
  set (en := Z.min (Z.max (rg_start r + rg_size r) lo) hi).
  destruct ((en <=? st) || (en - st <? size)) eqn:E.
  { apply Hskip. intros y (? & ? & ? & ? & _). apply orb_true_iff in E as [E|E]; lia. }
  apply orb_false_iff in E as [E1%Z.leb_gt E2%Z.ltb_ge].
  pose proof (pow2_pos k ltac:(lia)) as Hp. rewrite round_down_pow2 by lia.
  pose proof (Z.div_mod (en - size) (2 ^ k) ltac:(lia)). pose proof (Z.mod_pos_bound (en - size) (2 ^ k) Hp).
  destruct (Z.leb_spec st (2 ^ k * ((en - size) / 2 ^ k))).
  - right. exists r. split; [by left|]. unfold fits. split_and!; try lia. exists ((en - size) / 2 ^ k). lia.
  - apply Hskip. intros y (? & ? & ? & ? & [c ->]).
    assert (c ≤ (en - size) / 2 ^ k) by (apply Z.div_le_lower_bound; lia).
    assert (c * 2 ^ k ≤ 2 ^ k * ((en - size) / 2 ^ k)) by nia. lia.
Qed.

Lemma search_up_found b rs :
  0 ≤ b → chain 0 b rs → found rs size k lo hi (search_up rs size (2 ^ k) lo hi).
Proof.
  revert b. induction rs as [|r rs IH]; intros b Hb Hc; simpl.
  { left. split; [done|]. by intros r y ?%not_elem_of_nil. }
  pose proof Hc as (Hst & Hok & Hrest). pose proof Hok as [? ? _].
  assert (IH' := IH (rg_start r + rg_size r + 0) ltac:(lia) Hrest). clear IH.
  assert (Hskip : (∀ y, ¬ fits r size k lo hi y) → found (r :: rs) size k lo hi (search_up rs size (2 ^ k) lo hi)).
  { intros Hno. destruct IH' as [[? Hn]|(x & ? & ?)].
    - left. split; [done|]. intros x y [->|?]%elem_of_cons; [apply Hno|by apply Hn].
    - right. exists x. split; [by right|done]. }
  rewrite rg_end_ok by (done || lia). unfold clamp.
  set (st := Z.min (Z.max (rg_start r) lo) hi).
  set (en := Z.min (Z.max (rg_start r + rg_size r) lo) hi).
  destruct (Z.leb_spec en st).
  { apply Hskip. intros y (? & ? & ? & ? & _). lia. }
  destruct (round_up_pow2 st k Hk ltac:(lia)) as (Hge & Hleast & ->).
  set (y := 2 ^ k * _) in *. assert (Hdy : (2 ^ k | y)) by (eexists; apply Z.mul_comm). clearbody y.
  destruct (Z.ltb_spec y (2 ^ 64)) as [Hy|Hy].
  - destruct (_ && _) eqn:E.
    + apply andb_true_iff in E as [E1%Z.ltb_lt E2%Z.leb_le].
      right. exists r. split; [by left|]. unfold fits. split_and!; lia || done.
    + apply Hskip. intros x (? & ? & ? & ? & Hd). specialize (Hleast x Hd ltac:(lia)). lia.
  - assert (Hno : ∀ x z, x ∈ r :: rs → ¬ fits x size k lo hi z).
    { intros x z Hx (? & ? & ? & ? & Hd).
      destruct (chain_elem 0 (rg_start r) (r :: rs) x ltac:(lia) ltac:(by split_and!) Hx).
      specialize (Hleast z Hd ltac:(lia)). lia. }
    destruct (_ && _); [by left|]. apply Hskip. intros z. apply Hno. left.
Qed.

End Search.

(** ** Runs of free addresses *)

(** In a chain with gaps, a run of covered addresses lies in one region. *)
Lemma chain_run lo rs x y :
  chain 1 lo rs → x < y → (∀ a, x ≤ a < y → inr_ rs a) →
  ∃ r, r ∈ rs ∧ rg_start r ≤ x ∧ y ≤ rg_start r + rg_size r.
Proof.
  revert lo. induction rs as [|r rs IH]; intros lo Hc Hxy Hin.
  { exfalso. by apply (inr_nil x), Hin. }
  destruct Hc as (? & [? _ _] & Hrest).
  assert (Hlater : ∀ a, inr_ rs a → rg_start r + rg_size r + 1 ≤ a).
  { intros a Ha. exact (chain_lower 1 _ rs a ltac:(lia) Hrest Ha). }
  destruct (decide (rg_start r ≤ x < rg_start r + rg_size r)) as [Hx|Hx].
  - exists r. split; [by left|]. split; [lia|]. destruct (decide (y ≤ rg_start r + rg_size r)); [done|].
    exfalso. destruct (Hin (rg_start r + rg_size r) ltac:(lia)) as (r' & Hr' & Ha).
    assert (inr_ (r :: rs) (rg_start r + rg_size r)) as [?|?%Hlater]%inr_cons by (by exists r'); lia.
  - destruct (IH _ Hrest Hxy) as (r' & Hr' & ?).
    + intros a Ha. destruct (proj1 (inr_cons r rs a) (Hin a Ha)) as [?|?]; [|done].
      destruct (proj1 (inr_cons r rs x) (Hin x ltac:(lia))) as [?|?%Hlater]; lia.
    + exists r'. split; [by right|done].
Qed.

(** ** The operations on the two tables *)

Record MInv (d : Z) (m : memblk) : Prop := MkMInv {
  mi_mem : table d (memory m);
  mi_res : table d (reserved m);
  mi_max : rgn_max (memory m) = 128 ∧ rgn_max (reserved m) = 128;
  mi_limit : 0 ≤ current_limit m < 2 ^ 64;
}.

Definition mem_of (m : memblk) (a : Z) : Prop := inr_ (regions (memory m)) a.
Definition res_of (m : memblk) (a : Z) : Prop := inr_ (regions (reserved m)) a.

Definition same_set (P Q : Z → Prop) : Prop := ∀ a, Q a ↔ P a.

(** An empty range, or one that starts at the last address. *)
Definition bad_range (start size : Z) : Prop := size = 0 ∨ start = 2 ^ 64 - 1.

Definition in_range (start size a : Z) : Prop := start ≤ a < Z.min (start + size) (2 ^ 64 - 1).

(** The union with a range; a full table may hold only a part of it. *)
Definition union_spec (P : Z → Prop) (start size ret : Z) (full : Prop) (Q : Z → Prop) : Prop :=
  (ret = - EINVAL ∧ bad_range start size ∧ same_set P Q) ∨
  (ret = 0 ∧ ¬ bad_range start size ∧ ∀ a, Q a ↔ P a ∨ in_range start size a) ∨
  (ret = - ENOMEM ∧ full ∧ (∀ a, P a → Q a) ∧ ∀ a, Q a → P a ∨ in_range start size a).

(** The difference with a range; only splitting a region can fail, and changes
    nothing then. *)
Definition diff_spec (P : Z → Prop) (start size ret : Z) (full : Prop) (Q : Z → Prop) : Prop :=
  (ret = - EINVAL ∧ bad_range start size ∧ same_set P Q) ∨
  (ret = 0 ∧ ¬ bad_range start size ∧ ∀ a, Q a ↔ P a ∧ ¬ in_range start size a) ∨
  (ret = - ENOMEM ∧ full ∧ same_set P Q).

Inductive mb_op :=
  | BAdd (start size : Z)
  | BReserve (start size : Z)
  | BRemove (start size : Z)
  | BFree (start size : Z).

Definition mb_args (op : mb_op) : Z * Z :=
  match op with BAdd s z | BReserve s z | BRemove s z | BFree s z => (s, z) end.

Definition mb_do (pv zs ze : Z) (op : mb_op) (m : memblk) : Z * memblk :=
  match op with
  | BAdd s z => ttos_memblk_add pv zs ze s z m
  | BReserve s z => ttos_memblk_reserve s z m
  | BRemove s z => ttos_memblk_remove s z m
  | BFree s z => ttos_memblk_free s z m
  end.

Definition full_table (c : collect) : Prop := rgn_num c = 128.

Definition mb_spec (m : memblk) (op : mb_op) (ret : Z) (m' : memblk) : Prop :=
  match op with
  | BAdd s z => union_spec (mem_of m) s z ret (full_table (memory m')) (mem_of m') ∧ same_set (res_of m) (res_of m')
  | BReserve s z => union_spec (res_of m) s z ret (full_table (reserved m')) (res_of m') ∧ same_set (mem_of m) (mem_of m')
  | BRemove s z => diff_spec (mem_of m) s z ret (full_table (memory m')) (mem_of m') ∧ same_set (res_of m) (res_of m')
  | BFree s z => diff_spec (res_of m) s z ret (full_table (reserved m')) (res_of m') ∧ same_set (mem_of m) (mem_of m')
  end.

Lemma table_weaken c : table 1 c → table 0 c.
Proof. intros [? ? ?]. split; try done. eapply chain_weaken; [|done]. lia. Qed.

Lemma add_range_spec c start size :
  table 0 c → rgn_max c = 128 → 0 ≤ start < 2 ^ 64 → 0 ≤ size < 2 ^ 64 →
  let '(ret, c') := ttos_memblk_add_range c start size MEMBLOCK_NONE in
  rgn_max c' = 128 ∧ table 0 c' ∧ (ret ≠ - ENOMEM → table 1 c → table 1 c') ∧
  union_spec (inr_ (regions c)) start size ret (full_table c') (inr_ (regions c')).
Proof.
  intros Ht Hm Hs Hz. pose proof (add_range_ok c start size Ht Hs Hz) as Hadd.
  pose proof (normalize_None start size Hs Hz) as Hbad.
  destruct (ttos_memblk_normalize_range start size) as [e|] eqn:E.
  - apply normalize_Some in E as [_ ->]; [|done..].
    destruct (ttos_memblk_add_range _ _ _ _) as [ret c']. destruct Hadd as [Hmax Hr]. rewrite Hm in *.
    assert (Hnb : ¬ bad_range start size) by (by intros ?%Hbad).
    destruct Hr as [(-> & Ht1 & Hset)|(-> & Ht0 & Hfull & Hs1 & Hs2)].
    + split_and!; try done; [by apply table_weaken|]. right. left. done.
    + split_and!; try done. right. right. done.
  - rewrite Hadd. split_and!; try done. left. split_and!; try done. by apply Hbad.
Qed.

Lemma remove_range_spec d c start size :
  0 ≤ d ≤ 1 → table d c → rgn_max c = 128 → 0 ≤ start < 2 ^ 64 → 0 ≤ size < 2 ^ 64 →
  let '(ret, c') := ttos_memblk_remove_range c start size in
  rgn_max c' = 128 ∧ table d c' ∧
  diff_spec (inr_ (regions c)) start size ret (full_table c') (inr_ (regions c')).
Proof.
  intros Hd Ht Hm Hs Hz. pose proof (remove_range_ok d c start size Hd Ht Hs Hz) as Hrem.
  pose proof (normalize_None start size Hs Hz) as Hbad.
  destruct (ttos_memblk_normalize_range start size) as [e|] eqn:E.
  - apply normalize_Some in E as [_ ->]; [|done..].
    destruct (ttos_memblk_remove_range _ _ _) as [ret c']. destruct Hrem as (Hmax & Htab & Hr). rewrite Hm in *.
    assert (Hnb : ¬ bad_range start size) by (by intros ?%Hbad).
    split_and!; try done. destruct Hr as [[-> Hset]|(-> & -> & Hfull & _)]; right; [by left|right].
    by split_and!.
  - rewrite Hrem. split_and!; try done. left. split_and!; try done. by apply Hbad.
Qed.

(** C10: Adding and reserving a range is the union with it, removing and freeing the
    difference, on the one table named and on no other; [-EINVAL] is returned exactly
    for an empty range or one at the last address, and changes nothing; [-ENOMEM]
    only with a full table of 128 regions.  The regions stay sorted and disjoint,
    with the right total size, and stay merged as long as no table overflows. *)
Theorem memblk_sets_correct pv zs ze op m ret m' :
  MInv 0 m → (let '(s, z) := mb_args op in 0 ≤ s < 2 ^ 64 ∧ 0 ≤ z < 2 ^ 64) →
  mb_do pv zs ze op m = (ret, m') →
  MInv 0 m' ∧ (ret ≠ - ENOMEM → MInv 1 m → MInv 1 m') ∧ mb_spec m op ret m'.
Proof.
  intros [Hmem Hres [Hm1 Hm2] Hlim] Hargs Hdo. destruct op as [s z|s z|s z|s z]; simpl in *; destruct Hargs as [Hs Hz].
  - unfold ttos_memblk_add in Hdo. pose proof (add_range_spec (memory m) s z Hmem Hm1 Hs Hz) as Ha.
    unfold ttos_memblk_add_range in Hdo, Ha.
    destruct (ttos_memblk_normalize_range s z) as [e|] eqn:E.
    + simpl in Hdo. destruct (skip_before s [] (regions (memory m))) as [pre rest].
      destruct (add_walk _ _ _ _ _ _ _) as [r c]. destruct Ha as (? & ? & ? & ?). simplify_eq.
      split_and!; [by split|intros ? []; by split; auto|done|done].
    + destruct Ha as (? & ? & ? & ?). simplify_eq. split_and!; try done.
  - unfold ttos_memblk_reserve in Hdo. pose proof (add_range_spec (reserved m) s z Hres Hm2 Hs Hz) as Ha.
    destruct (ttos_memblk_add_range _ _ _ _) as [r c]. destruct Ha as (? & ? & ? & ?). simplify_eq.
    split_and!; [by split|intros ? []; by split; auto|done|done].
  - unfold ttos_memblk_remove in Hdo.
    pose proof (λ d Hd Ht, remove_range_spec d (memory m) s z Hd Ht Hm1 Hs Hz) as Ha.
    destruct (ttos_memblk_remove_range _ _ _) as [r c]. simplify_eq.
    destruct (Ha 0 ltac:(lia) Hmem) as (? & ? & ?).
    split_and!; [by split|intros ? [? ? ? ?]; split; try done; by apply (Ha 1)|done|done].
  - unfold ttos_memblk_free in Hdo.
    pose proof (λ d Hd Ht, remove_range_spec d (reserved m) s z Hd Ht Hm2 Hs Hz) as Ha.
    destruct (ttos_memblk_remove_range _ _ _) as [r c]. simplify_eq.
    destruct (Ha 0 ltac:(lia) Hres) as (? & ? & ?).
    split_and!; [by split|intros ? [? ? ? ?]; split; try done; by apply (Ha 1)|done|done].
Qed.

Lemma free_ranges d m :
  0 ≤ d ≤ 1 → MInv d m →
  let ps := ttos_memblk_collect_ranges true MEMBLOCK_NONE (memory m) (Some (reserved m)) in
  chain d 0 ps ∧ Z.of_nat (length ps) ≤ 256 ∧ ∀ a, inr_ ps a ↔ mem_of m a ∧ ¬ res_of m a.
Proof.
  intros Hd [[Hmc Hml _] [Hrc Hrl _] [Hm1 Hm2] _]. unfold rgn_num in *.
  pose proof (starts_in_le 0 (2 ^ 64) (regions (reserved m))).
  destruct (collect_walk_ok d 0 (regions (memory m)) (regions (reserved m)) []) as (ps & E & Hc & Hl & Hset).
  - done.
  - done.
  - eapply chain_weaken; [|done]. lia.
  - lia.
  - simpl. lia.
  - unfold ttos_memblk_collect_ranges. simpl fmap. rewrite E. simpl. split_and!; [done|lia|done].
Qed.

(** A place the allocator may return. *)
Definition free_run (m : memblk) (size k lo hi x : Z) : Prop :=
  lo ≤ x ∧ x + size ≤ hi ∧ (2 ^ k | x) ∧ ∀ a, x ≤ a < x + size → mem_of m a ∧ ¬ res_of m a.

Lemma request_found d m size k range_start range_end :
  0 ≤ d ≤ 1 → MInv d m → 0 < size < 2 ^ 64 → 0 ≤ k < 64 → 0 ≤ range_start → 0 ≤ range_end < 2 ^ 64 →
  let lo := Z.max range_start PAGE_SIZE in
  let hi := if range_end =? 0 then current_limit m else range_end in
  let x := ttos_memblk_request_size_in_range m size (2 ^ k) range_start range_end MEMBLOCK_NONE in
  (x = 0 ∧ (d = 1 → ∀ y, ¬ free_run m size k lo hi y)) ∨ (PAGE_SIZE ≤ x ∧ free_run m size k lo hi x).
Proof.
  intros Hd HI Hsz Hk Hs He lo hi x. destruct (free_ranges d m Hd HI) as (Hc & _ & Hset).
  pose proof (mi_limit d m HI) as Hlim. subst x. unfold ttos_memblk_request_size_in_range.
  replace (size =? 0) with false by lia. replace (2 ^ k =? 0) with false by (pose proof (pow2_pos k); lia).
  unfold ttos_memblk_modify_alloc_range. change MEMBLOCK_ALLOC_ACCESSIBLE with 0. fold lo hi.
  assert (Hhi : hi < 2 ^ 64) by (subst hi; case_match; lia). unfold PAGE_SIZE in *.
  destruct (Z.ltb_spec lo hi) as [Hlh|Hlh].
  2: { left. split; [done|]. intros _ y (? & ? & _). lia. }
  set (ps := ttos_memblk_collect_ranges _ _ _ _) in *. set (x := if bottom_up m then _ else _).
  assert (Hf : found ps size k lo hi x).
  { subst x. destruct (bottom_up m).
    - apply (search_up_found size k lo hi ltac:(lia) Hk ltac:(lia) ltac:(lia) 0); [lia|].
      eapply chain_weaken; [|done]. lia.
    - pose proof (search_down_found size k lo hi ltac:(lia) Hk ltac:(lia) ltac:(lia) (reverse ps)) as Hf.
      unfold found in *. setoid_rewrite elem_of_reverse in Hf. apply Hf.
      intros r Hr. eapply chain_elem; [|done|done]. lia. }
  destruct Hf as [[-> Hno]|(r & Hr & ? & ? & ? & ? & ?)].
  - left. split; [done|]. intros -> y (? & ? & Hdv & Hrun).
    destruct (chain_run 0 ps y (y + size) Hc ltac:(lia)) as (r & Hr & ? & ?).
    { intros a Ha. by apply Hset, Hrun. }
    by apply (Hno r y Hr).
  - right. split; [lia|]. split_and!; try done. intros a Ha. apply Hset. exists r. split; [done|lia].
Qed.

(** C25: An early allocation that succeeds returns an aligned address, not below one
    page, such that the whole block is memory that was not reserved and lies in the
    range searched; the block is reserved and nothing else changes.  One that fails
    changes nothing, and, while the tables are merged, fails only if the size is 0,
    the table of reserved regions is full, or there is no such block. *)
Theorem memblk_alloc_correct m size k range_start range_end x m' :
  MInv 0 m → 0 ≤ size < 2 ^ 64 → 0 ≤ k < 64 → 0 ≤ range_start → 0 ≤ range_end < 2 ^ 64 →
  ttos_memblk_phys_alloc_specify_range size (2 ^ k) range_start range_end m = (x, m') →
  let lo := Z.max range_start PAGE_SIZE in
  let hi := if range_end =? 0 then current_limit m else range_end in
  MInv 0 m' ∧ memory m' = memory m ∧
  ((x = 0 ∧ m' = m ∧
    (MInv 1 m → size = 0 ∨ full_table (reserved m) ∨ ∀ y, ¬ free_run m size k lo hi y)) ∨
   (PAGE_SIZE ≤ x ∧ free_run m size k lo hi x ∧
    ∀ a, res_of m' a ↔ res_of m a ∨ x ≤ a < x + size)).
Proof.
  intros HI Hsz Hk Hs He Hrun lo hi.
  unfold ttos_memblk_phys_alloc_specify_range, ttos_memblk_alloc_in_specify_range in Hrun.
  replace (2 ^ k =? 0) with false in Hrun by (pose proof (pow2_pos k); lia).
  unfold ttos_memblk_choose_alloc_flags in Hrun. set (y := ttos_memblk_request_size_in_range _ _ _ _ _ _) in *.
  destruct (decide (size = 0)) as [->|Hz].
  { assert (y = 0) as Hy by done. rewrite Hy in Hrun. injection Hrun as <- <-. split_and!; try done. left. auto. }
  destruct (request_found 0 m size k range_start range_end ltac:(lia) HI ltac:(lia) Hk Hs He)
    as [[Hy _]|[Hge Hfit]].
  { fold y in Hy. rewrite Hy in Hrun. injection Hrun as <- <-. split_and!; try done. left. split_and!; try done.
    intros HI1. right. right.
    destruct (request_found 1 m size k range_start range_end ltac:(lia) HI1 ltac:(lia) Hk Hs He) as [[_ Hno]|[Hge _]].
    - by apply Hno.
    - fold y in Hge. rewrite Hy in Hge. done. }
  fold lo hi y in Hge, Hfit. replace (y =? 0) with false in Hrun by (unfold PAGE_SIZE in *; lia).
  pose proof Hfit as (? & Hyhi & _ & Hfree).
  assert (Hhi : hi < 2 ^ 64) by (pose proof (mi_limit 0 m HI); subst hi; case_match; lia).
  assert (Hy64 : 0 ≤ y < 2 ^ 64) by (unfold PAGE_SIZE in *; lia).
  unfold ttos_memblk_reserve in Hrun. pose proof HI as [Hmem Hres [Hm1 Hm2] Hlim].
  pose proof (add_range_spec (reserved m) y size Hres Hm2 Hy64 Hsz) as Ha.
  destruct (ttos_memblk_add_range _ _ _ _) as [r c] eqn:Eadd. destruct Ha as (Hcm & Hct & _ & Hsp).
  destruct (Z.eqb_spec r 0) as [->|Hr]; cbn [negb] in Hrun; injection Hrun as <- <-.
  - split_and!; [by split|done|]. right. split_and!; [done|done|].
    destruct Hsp as [(? & _)|[(_ & _ & Hset)|(? & _)]]; [done| |done].
    intros a. unfold res_of at 1. simpl. rewrite Hset. unfold in_range. rewrite Z.min_l by lia. done.
  - assert (c = reserved m) as ->.
    { eapply (add_range_disjoint (reserved m) y size); [done..| |exact Eadd|done].
      intros a Ha. by apply Hfree. }
    assert (Em : set_reserved (reserved m) m = m) by (by destruct m). rewrite Em.
    split_and!; [done|done|]. left. split_and!; [done|done|]. intros _. right. left.
    destruct Hsp as [(-> & [?|?] & _)|[(-> & _)|(_ & Hfull & _)]]; [lia|lia|done|done].
Qed.

(** ** Looking up an address *)

(** The binary search returns the index of the region an address lies in, and -1
    exactly if there is none. *)
Lemma search_addr_ok c addr :
  table 0 c →
  match ttos_memblk_collect_search_addr c addr with
  | Some i => ∃ r, regions c !! i = Some r ∧ rg_start r ≤ addr < rg_start r + rg_size r
  | None => ¬ inr_ (regions c) addr
  end.
Proof.
  intros [Hc _ _]. unfold ttos_memblk_collect_search_addr.
  apply search_walk_ok; [done|done|lia|lia|]. intros i r Hi. apply lookup_lt_Some in Hi. lia.
Qed.

(** A range meets the table exactly if one of its addresses is in it. *)
Lemma range_intersect_ok c start size :
  table 0 c → 0 ≤ start < 2 ^ 64 → 0 ≤ size < 2 ^ 64 →
  ttos_memblk_range_intersect_collect c start size = true ↔
  ∃ a, in_range start size a ∧ inr_ (regions c) a.
Proof.
  intros [Hc _ _] Hs Hz. unfold ttos_memblk_range_intersect_collect, in_range.
  destruct (ttos_memblk_normalize_range start size) as [e|] eqn:E.
  - apply normalize_Some in E as [? ->]; [|done..]. apply (intersect_walk_ok 0); [lia|done|lia].
  - apply normalize_None in E; [|done..]. split; [done|]. intros (a & ? & _). lia.
Qed.

(** The iterator visits the ranges of the difference in order. *)
Lemma next_range_ok m idx :
  MInv 0 m → 0 ≤ idx < 2 ^ 64 - 1 →
  let ps := ttos_memblk_collect_ranges true MEMBLOCK_NONE (memory m) (Some (reserved m)) in
  match __next_range idx MEMBLOCK_NONE true (memory m) (Some (reserved m)) with
  | (idx', Some (lo, hi)) =>
      (∀ a, lo ≤ a < hi → mem_of m a ∧ ¬ res_of m a) ∧
      (∃ r, ps !! Z.to_nat idx = Some r ∧ lo = rg_start r) ∧
      (idx' = idx + 1 ∨ idx' = ULLONG_MAX ∧ Z.of_nat (length ps) = idx + 1)
  | (idx', None) => idx' = ULLONG_MAX ∧ Z.of_nat (length ps) ≤ idx
  end.
Proof.
  intros HI Hidx ps. destruct (free_ranges 0 m ltac:(lia) HI) as (Hc & Hlen & Hset). fold ps in Hc, Hlen, Hset.
  unfold __next_range. fold ps. replace (idx =? ULLONG_MAX) with false by (unfold ULLONG_MAX; lia).
  destruct (ps !! Z.to_nat idx) as [r|] eqn:E.
  - assert (Hr : 0 ≤ rg_start r ∧ rok r) by (eapply chain_elem; [|done|by eapply list_elem_of_lookup_2]; lia).
    rewrite rg_end_ok by apply Hr. split_and!.
    + intros a Ha. apply Hset. exists r. split; [by eapply list_elem_of_lookup_2|done].
    + by exists r.
    + apply lookup_lt_Some in E. destruct (Z.leb_spec (Z.of_nat (length ps)) (idx + 1)); [right; lia|by left].
  - apply lookup_ge_None in E. split; [done|]. lia.
Qed.

(** ** Witnesses *)

Lemma minv_start : MInv 0 memblock_init.
Proof. by repeat split. Qed.

Lemma memblk_sets_correct_witness :
  let m' := (ttos_memblk_reserve 4096 8192 memblock_init).2 in
  MInv 0 m' ∧ mb_spec memblock_init (BReserve 4096 8192) 0 m'.
Proof.
  intros m'. destruct (memblk_sets_correct 0 0 0 (BReserve 4096 8192) memblock_init 0 m') as (? & _ & ?).
  - apply minv_start.
  - simpl. lia.
  - done.
  - done.
Defined.

Definition memblk_small : memblk := (ttos_memblk_add 0 0 (2 ^ 40) 65536 65536 memblock_init).2.

Lemma minv_small : MInv 0 memblk_small.
Proof. repeat split; simpl; lia || done. Qed.

Lemma memblk_alloc_correct_witness :
  let m' := (ttos_memblk_phys_alloc_specify_range 4096 (2 ^ 12) 0 0 memblk_small).2 in
  MInv 0 m' ∧ ∀ a, res_of m' a ↔ res_of memblk_small a ∨ 126976 ≤ a < 131072.
Proof.
  intros m'.
  destruct (memblk_alloc_correct memblk_small 4096 12 0 0 126976 m') as (HI & _ & [(? & _)|(_ & _ & Hset)]).
  - apply minv_small.
  - lia.
  - lia.
  - lia.
  - lia.
  - by vm_compute.
  - done.
  - split; [done|]. exact Hset.
Defined.
