(* ===== verification/Handover.v ===== *)
(** * From memblock to the page allocator

    [ttos_memblk_release_mem_to_pagealloc]: which frames the page allocator holds
    when memblock has handed over. *)

From S2P Require Import Prelude Chain PageGeo Page PageInv PageAlloc PageProps Memblock MemblockInv MemblockProps.
Import Width.
Local Open Scope Z_scope.

(** ** Frames of a range *)

(** For an end below the last page of the address space, a frame is at or above
    [PFN_UP e] exactly if its first address is at or above [e]. *)
Lemma PFN_UP_le e f : 0 ≤ e ≤ 2 ^ 64 - 4096 → PFN_UP e ≤ f ↔ e ≤ f * 4096.
Proof.
  intros He. unfold PFN_UP. rewrite Z.shiftr_div_pow2 by done. change (2 ^ PAGE_SIZE_SHIFT) with 4096.
  rewrite u64_small by lia.
  pose proof (Z.div_mod (e + 4096 - 1) 4096 ltac:(lia)).
  pose proof (Z.mod_pos_bound (e + 4096 - 1) 4096 ltac:(lia)). lia.
Qed.

(** ** The order of a block *)

Lemma ctz_pos_spec p : 0 ≤ ctz_pos p ∧ (2 ^ ctz_pos p | Zpos p).
Proof.
  induction p as [p IH|p [IH1 [k IH2]]|]; simpl.
  - split; [done|]. change (2 ^ 0) with 1. apply Z.divide_1_l.
  - split; [lia|]. rewrite Z.pow_add_r by lia. exists k. rewrite (Pos2Z.inj_xO p), IH2. lia.
  - split; [done|]. change (2 ^ 0) with 1. apply Z.divide_1_l.
Qed.

Lemma shrink_order_spec n start end_ :
  0 ≤ start < end_ → end_ < 2 ^ 63 → Z.of_nat n ≤ 62 →
  ∃ o, shrink_order n start end_ = Some o ∧ (o ≤ n)%nat ∧ start + 2 ^ Z.of_nat o ≤ end_.
Proof.
  intros Hs He. induction n as [|n IH]; intros Hn; cbn [shrink_order].
  - change (Z.shiftl 1 (Z.of_nat 0)) with 1. rewrite u64_small by lia.
    destruct (Z.ltb_spec end_ (start + 1)); [lia|]. exists 0%nat. split_and!; [done|done|].
    change (2 ^ Z.of_nat 0) with 1. lia.
  - rewrite Z.shiftl_mul_pow2, Z.mul_1_l by lia.
    pose proof (Z.pow_le_mono_r 2 (Z.of_nat (S n)) 62 ltac:(lia) ltac:(lia)).
    rewrite u64_small by lia.
    destruct (Z.ltb_spec end_ (start + 2 ^ Z.of_nat (S n))).
    + destruct (IH ltac:(lia)) as (o & ? & ? & ?). exists o. split_and!; [done|lia|done].
    + exists (S n). done.
Qed.

Lemma block_order start end_ :
  0 < start < end_ → end_ ≤ 2 ^ 31 →
  ∃ o a, shrink_order (Z.to_nat (Z.min (MAX_ORDER - 1) (ffsll start))) start end_ = Some o ∧
    ctz start = Some a ∧
    let l := if a <? Z.of_nat o then Z.to_nat a else o in
    (2 ^ Z.of_nat l | start) ∧ start + 2 ^ Z.of_nat l ≤ end_ ∧ Z.of_nat l < 31.
Proof.
  intros Hs He. destruct start as [|p|p]; [lia| |lia]. unfold ffsll. simpl ctz.
  destruct (ctz_pos_spec p) as [Ha0 Had]. set (a := ctz_pos p) in *. clearbody a.
  assert (Hale : 2 ^ a ≤ Z.pos p) by (apply Z.divide_pos_le; lia || done).
  assert (Ha : a < 31) by (apply (Z.pow_lt_mono_r_iff 2); lia).
  change (MAX_ORDER - 1) with 63. rewrite Z.min_r by lia.
  destruct (shrink_order_spec (Z.to_nat (a + 1)) (Z.pos p) end_) as (o & Ho & Hle & Hfit); [lia..|].
  exists o, a. split_and!; [done|done|..]; destruct (Z.ltb_spec a (Z.of_nat o)).
  - by rewrite Z2Nat.id by lia.
  - destruct Had as [c ->]. exists (c * 2 ^ (a - Z.of_nat o)).
    rewrite <- Z.mul_assoc, <- Z.pow_add_r by lia. do 2 f_equal. lia.
  - rewrite Z2Nat.id by lia. pose proof (Z.pow_le_mono_r 2 a (Z.of_nat o) ltac:(lia) ltac:(lia)). lia.
  - done.
  - lia.
  - lia.
Qed.

(** ** The blocks that are released

    Whatever the descriptors hold, the hand-over is a sequence of releases of blocks,
    each given by its first frame and its order. *)

Fixpoint release_blocks (zc : zone_cfg) (bs : list (Z * nat)) : M pstate unit :=
  match bs with
  | [] => mret tt
  | (p, l) :: bs => _ ← set_page_free zc l (page_to_addr p); release_blocks zc bs
  end.

(** The blocks are aligned to their size and follow each other without overlap. *)
Fixpoint ordered (lo : Z) (bs : list (Z * nat)) : Prop :=
  match bs with
  | [] => True
  | (p, l) :: bs => lo ≤ p ∧ (2 ^ Z.of_nat l | p) ∧ ordered (p + 2 ^ Z.of_nat l) bs
  end.

Definition released (bs : list (Z * nat)) (q : Z) : Prop := ∃ p l, (p, l) ∈ bs ∧ in_block (Z.of_nat l) p q.

Lemma released_cons p l bs q : released ((p, l) :: bs) q ↔ in_block (Z.of_nat l) p q ∨ released bs q.
Proof.
  unfold released. setoid_rewrite elem_of_cons. split.
  - intros (p' & l' & [[= -> ->]|Hin] & Hb); [by left|right; by exists p', l'].
  - intros [Hb|(p' & l' & Hin & Hb)]; [exists p, l; auto|exists p', l'; auto].
Qed.

Lemma released_nil q : ¬ released [] q.
Proof. intros (p & l & Hin & _). by apply elem_of_nil in Hin. Qed.

Lemma released_app bs1 bs2 q : released (bs1 ++ bs2) q ↔ released bs1 q ∨ released bs2 q.
Proof. unfold released. setoid_rewrite elem_of_app. naive_solver. Qed.

Lemma ordered_le lo lo' bs : lo' ≤ lo → ordered lo bs → ordered lo' bs.
Proof. destruct bs as [|[p l] bs]; [done|]. intros ? (? & ? & ?). split_and!; [lia|done..]. Qed.

Lemma ordered_app lo hi bs1 bs2 : ordered lo bs1 → (∀ q, released bs1 q → q < hi) → ordered hi bs2 → lo ≤ hi →
  ordered lo (bs1 ++ bs2).
Proof.
  revert lo. induction bs1 as [|[p l] bs1 IH]; intros lo H1 Hhi H2 Hle; simpl; [by eapply ordered_le|].
  destruct H1 as (? & ? & H1). pose proof (pow2_pos (Z.of_nat l) ltac:(lia)). split_and!; [done|done|].
  apply IH; [done| |done|].
  - intros q Hq. apply Hhi, released_cons. auto.
  - enough (p + 2 ^ Z.of_nat l - 1 < hi) by lia. apply Hhi, released_cons. left. unfold in_block. lia.
Qed.

Lemma release_blocks_app zc bs1 bs2 s :
  release_blocks zc (bs1 ++ bs2) s = (_ ← release_blocks zc bs1; release_blocks zc bs2) s.
Proof.
  revert s. induction bs1 as [|[p l] bs1 IH]; intros s; [done|]. simpl. unfold mbind, M_bind in *.
  destruct (set_page_free _ _ _ s) as [[[] s1]|]; [|done]. apply IH.
Qed.

Lemma release_walk_blocks zc fuel start end_ : 0 < start → end_ ≤ 2 ^ 31 → end_ - start ≤ Z.of_nat fuel →
  ∃ bs, ordered start bs ∧ (∀ q, released bs q ↔ start ≤ q < end_) ∧
    ∀ s, release_walk zc (S fuel) start end_ s = release_blocks zc bs s.
Proof.
  revert start. induction fuel as [|fuel IH]; intros start H0 He Hfuel.
  { exists []. split_and!; [done|intros q; split; [by intros ?%released_nil|lia]|].
    intros s. simpl. destruct (Z.ltb_spec start end_); [lia|done]. }
  destruct (Z.ltb_spec start end_) as [Hlt|Hge].
  2: { exists []. split_and!; [done|intros q; split; [by intros ?%released_nil|lia]|].
       intros s. cbn [release_walk]. by rewrite (proj2 (Z.ltb_ge start end_)). }
  destruct (block_order start end_) as (o & a & Ho & Hctz & Hdiv & Hfit & Hl31); [lia|lia|].
  set (l := if a <? Z.of_nat o then Z.to_nat a else o) in *.
  pose proof (pow2_pos (Z.of_nat l) ltac:(lia)).
  destruct (IH (start + 2 ^ Z.of_nat l)) as (bs & Hord & Hcov & Hrun); [lia|lia|lia|].
  exists ((start, l) :: bs). split_and!; [split_and!; [lia|done|done]| |].
  - intros q. rewrite released_cons, Hcov. unfold in_block. lia.
  - intros s. cbn [release_blocks]. set (fuel' := S fuel) in *. cbn [release_walk].
    rewrite (proj2 (Z.ltb_lt start end_) Hlt).
    erewrite bind_run by (unfold lift; by rewrite Ho). erewrite bind_run by (unfold lift; by rewrite Hctz). fold l.
    rewrite Z.shiftl_mul_pow2 with (n := Z.of_nat l), Z.mul_1_l, (u64_small (start + _)) by lia. fold (page_to_addr start).
    unfold mbind, M_bind. destruct (set_page_free _ _ _ s) as [[[] s1]|]; [|done]. apply Hrun.
Qed.

(** The frames of the range [start], [end_) from [low] on: those whose first address
    lies in it. *)
Definition frames_of (low start end_ q : Z) : Prop := low ≤ q ∧ start ≤ q * 4096 < end_.

Lemma release_core_blocks zc start end_ : 0 < min_low_pfn zc → 0 ≤ start < end_ → end_ ≤ 2 ^ 43 →
  ∃ bs n, ordered (PFN_UP start) bs ∧ (∀ q, released bs q ↔ frames_of (min_low_pfn zc) start end_ q) ∧
    ∀ s, __ttos_memblk_release_avail_mem_core zc start end_ s = (_ ← release_blocks zc bs; mret n) s.
Proof.
  intros Hmin Hse He. assert (Hs := λ f, PFN_UP_le start f ltac:(lia)). assert (He' := λ f, PFN_UP_le end_ f ltac:(lia)).
  unfold __ttos_memblk_release_avail_mem_core. destruct (Z.leb_spec (PFN_UP end_) (PFN_UP start)) as [Hle|Hlt].
  { exists [], 0. split_and!; [done| |done]. intros q. split; [by intros ?%released_nil|]. intros [? ?].
    assert (PFN_UP start ≤ q) by (apply Hs; lia). assert (end_ ≤ q * 4096) by (apply He'; lia). lia. }
  assert (Hend : PFN_UP end_ ≤ 2 ^ 31) by (apply He'; lia).
  set (ts := Z.max (PFN_UP start) (min_low_pfn zc)).
  destruct (release_walk_blocks zc (Z.to_nat (PFN_UP end_ - ts)) ts (PFN_UP end_)) as (bs & Hord & Hcov & Hrun); [lia..|].
  exists bs, (PFN_UP end_ - PFN_UP start). split_and!.
  - eapply ordered_le; [|exact Hord]. lia.
  - intros q. rewrite Hcov. unfold frames_of. specialize (Hs q). specialize (He' q). lia.
  - intros s. unfold mbind, M_bind. by rewrite Hrun.
Qed.

Lemma avail_walk_blocks zc rs lo : chain 0 lo rs → 0 ≤ lo ≤ 2 ^ 43 → 0 < min_low_pfn zc → (∀ a, inr_ rs a → a < 2 ^ 43) →
  ∃ bs, ordered (PFN_UP lo) bs ∧ (∀ q, released bs q ↔ min_low_pfn zc ≤ q ∧ inr_ rs (q * 4096)) ∧
    ∀ s, avail_walk zc rs s = release_blocks zc bs s.
Proof.
  revert lo. induction rs as [|r rs IH]; intros lo Hc Hlo Hmin Hhi.
  { exists []. split_and!; [done| |done]. intros q. split; [by intros ?%released_nil|by intros [_ ?%inr_nil]]. }
  destruct Hc as (Hst & Hok & Hrest). pose proof Hok as [? ? _].
  assert (Hlast : rg_start r + rg_size r ≤ 2 ^ 43).
  { enough (rg_start r + rg_size r - 1 < 2 ^ 43) by lia. apply Hhi, inr_cons. left. lia. }
  destruct (release_core_blocks zc (rg_start r) (rg_start r + rg_size r)) as (b1 & n & Ho1 & Hc1 & Hr1); [done|lia|done|].
  destruct (IH (rg_start r + rg_size r + 0)) as (b2 & Ho2 & Hc2 & Hr2); [done|lia|done|intros a Ha; apply Hhi, inr_cons; auto|].
  rewrite Z.add_0_r in Ho2. exists (b1 ++ b2).
  assert (Hup : ∀ x y, 0 ≤ x ≤ y → y ≤ 2 ^ 43 → PFN_UP x ≤ PFN_UP y).
  { intros x y ? ?. apply PFN_UP_le; [lia|]. pose proof (proj1 (PFN_UP_le y (PFN_UP y) ltac:(lia)) ltac:(lia)). lia. }
  split_and!.
  - apply (ordered_app _ (PFN_UP (rg_start r + rg_size r))); [|intros q Hq|done|apply Hup; lia].
    + eapply ordered_le; [|exact Ho1]. apply Hup; lia.
    + apply Hc1 in Hq as [_ Hq]. destruct (Z.le_gt_cases (PFN_UP (rg_start r + rg_size r)) q) as [Hle|]; [|lia].
      apply PFN_UP_le in Hle; lia.
  - intros q. rewrite released_app, Hc1, Hc2, inr_cons. unfold frames_of. tauto.
  - intros s. rewrite release_blocks_app. cbn [avail_walk]. rewrite rg_end_ok by (done || lia).
    unfold mbind, M_bind. rewrite Hr1. unfold mbind, M_bind. destruct (release_blocks zc b1 s) as [[[] s1]|]; [|done]. apply Hr2.
Qed.

(** ** Releasing frames *)

(** The state has gained the frames [P] and nothing else. *)
Definition gained (zc : zone_cfg) (s : pstate) (C : gmap Z (list Z)) (P : Z → Prop) (s' : pstate) : Prop :=
  dom (pages s') = dom (pages s) ∧ page_nr s' = page_nr s ∧
  ∃ C', Free zc s' C' ∧ ∀ q, covers C' q ↔ covers C q ∨ P q.

Section Release.
Context (zc : zone_cfg) (Hzs : zone_sane zc).

Lemma no_owned q : ¬ owned ∅ q.
Proof. intros (x & l & n & HB & _). by rewrite lookup_empty in HB. Qed.

Lemma gained_none s C P : Free zc s C → (∀ q, ¬ P q) → gained zc s C P s.
Proof. intros HF HP. split_and!; try done. exists C. split; [done|]. intros q. specialize (HP q). tauto. Qed.

Lemma release_walk_run fuel s C start end_ :
  Free zc s C → 0 < start → min_low_pfn zc ≤ start → end_ ≤ 2 ^ 31 → end_ - start ≤ Z.of_nat fuel →
  (∀ q, start ≤ q < end_ → q ∈ dom (pages s) ∧ ¬ covers C q) →
  wp (release_walk zc (S fuel) start end_) s (λ _ s', gained zc s C (λ q, start ≤ q < end_) s').
Proof.
  revert s C start. induction fuel as [|fuel IH]; intros s C start HF H0 Hlow He Hfuel Hq.
  { simpl. destruct (Z.ltb_spec start end_); [lia|]. apply wp_ret, gained_none; [done|]. lia. }
  set (fuel' := S fuel) in *. cbn [release_walk].
  destruct (Z.ltb_spec start end_) as [Hlt|]; [|apply wp_ret, gained_none; [done|lia]].
  destruct (block_order start end_) as (o & a & Ho & Hctz & Hdiv & Hfit & Hl31); [lia|lia|].
  apply wp_bind. eapply wp_lift; [done|]. apply wp_bind. eapply wp_lift; [done|].
  set (l := if a <? Z.of_nat o then Z.to_nat a else o) in *. clearbody l.
  pose proof (pow2_pos (Z.of_nat l) ltac:(lia)).
  rewrite Z.shiftl_mul_pow2, Z.mul_1_l, u64_small by lia. fold (page_to_addr start).
  apply wp_bind. eapply wp_mono.
  { apply (set_page_free_run zc l s C ∅); [done|by apply pinv_start|]. split; try done; try lia.
    - intros q Hb. apply Hq. unfold in_block in Hb. lia.
    - intros q Hb [Hc|Ho']; [|by apply no_owned in Ho']. apply (Hq q); [unfold in_block in Hb; lia|done]. }
  intros _ s1 (Hd1 & Hn1 & C1 & HI1 & Hc1).
  eapply wp_mono; [apply (IH s1 C1); [apply HI1|lia|lia|lia|lia|]|].
  { intros q Hb. rewrite Hd1, Hc1. destruct (Hq q ltac:(lia)). split; [done|]. unfold in_block. intros [?|?]; [done|lia]. }
  intros _ s2 (Hd2 & Hn2 & C2 & HF2 & Hc2). split_and!; [congruence..|]. exists C2. split; [done|].
  intros q. rewrite Hc2, Hc1. unfold in_block.
  assert (start ≤ q < end_ ↔ start ≤ q < start + 2 ^ Z.of_nat l ∨ start + 2 ^ Z.of_nat l ≤ q < end_) by lia. tauto.
Qed.

Lemma release_core_run s C start end_ :
  Free zc s C → 0 < min_low_pfn zc → 0 ≤ start < end_ → end_ ≤ 2 ^ 43 →
  (∀ q, frames_of (min_low_pfn zc) start end_ q → q ∈ dom (pages s) ∧ ¬ covers C q) →
  wp (__ttos_memblk_release_avail_mem_core zc start end_) s (λ _ s', gained zc s C (frames_of (min_low_pfn zc) start end_) s').
Proof.
  intros HF Hmin Hse He Hq. unfold __ttos_memblk_release_avail_mem_core.
  assert (Hs := λ f, PFN_UP_le start f ltac:(lia)). assert (He' := λ f, PFN_UP_le end_ f ltac:(lia)).
  destruct (Z.leb_spec (PFN_UP end_) (PFN_UP start)) as [Hle|Hlt].
  { apply wp_ret, gained_none; [done|]. intros q [? ?].
    assert (PFN_UP start ≤ q) by (apply Hs; lia). assert (PFN_UP end_ ≤ q) by lia.
    assert (end_ ≤ q * 4096) by (by apply He'). lia. }
  assert (Hend : PFN_UP end_ ≤ 2 ^ 31) by (apply He'; lia).
  set (ts := Z.max (PFN_UP start) (min_low_pfn zc)).
  assert (Hfr : ∀ q, ts ≤ q < PFN_UP end_ ↔ frames_of (min_low_pfn zc) start end_ q).
  { intros q. unfold frames_of. specialize (Hs q). specialize (He' q). subst ts. lia. }
  apply wp_bind. eapply wp_mono.
  { apply (release_walk_run _ s C); [done|lia|lia|lia|lia|]. intros q Hb. by apply Hq, Hfr. }
  intros _ s' (Hd & Hn & C' & HF' & Hc). apply wp_ret. split_and!; try done. exists C'. split; [done|].
  intros q. by rewrite Hc, Hfr.
Qed.

Lemma avail_walk_run d rs s C lo :
  0 ≤ d → chain d lo rs → 0 ≤ lo → Free zc s C → 0 < min_low_pfn zc →
  (∀ a, inr_ rs a → a < 2 ^ 43) →
  (∀ q, min_low_pfn zc ≤ q → inr_ rs (q * 4096) → q ∈ dom (pages s) ∧ ¬ covers C q) →
  wp (avail_walk zc rs) s (λ _ s', gained zc s C (λ q, min_low_pfn zc ≤ q ∧ inr_ rs (q * 4096)) s').
Proof.
  intros Hd. revert lo s C. induction rs as [|r rs IH]; intros lo s C Hc Hlo HF Hmin Hhi Hq; cbn [avail_walk].
  { apply wp_ret, gained_none; [done|]. by intros q [_ ?%inr_nil]. }
  destruct Hc as (Hst & Hok & Hrest). pose proof Hok as [? ? _]. rewrite rg_end_ok by (done || lia).
  assert (Hlast : rg_start r + rg_size r ≤ 2 ^ 43).
  { enough (rg_start r + rg_size r - 1 < 2 ^ 43) by lia. apply Hhi, inr_cons. left. lia. }
  apply wp_bind. eapply wp_mono.
  { apply (release_core_run s C); [done|done|lia|done|]. intros q [? ?]. apply Hq; [done|]. apply inr_cons. auto. }
  intros _ s1 (Hd1 & Hn1 & C1 & HF1 & Hc1).
  eapply wp_mono; [apply (IH (rg_start r + rg_size r + d) s1 C1); [done|lia|done|done|..]|].
  - intros a Ha. apply Hhi, inr_cons. auto.
  - intros q Hlow Hin. rewrite Hd1, Hc1. destruct (Hq q Hlow) as [? ?]; [apply inr_cons; auto|].
    split; [done|]. intros [?|[_ ?]]; [done|].
    pose proof (chain_lower d _ rs _ Hd Hrest Hin). lia.
  - intros _ s2 (Hd2 & Hn2 & C2 & HF2 & Hc2).
    split_and!; [congruence..|]. exists C2. split; [done|]. intros q. rewrite Hc2, Hc1, inr_cons.
    unfold frames_of. tauto.
Qed.

(** Marking reserved frames, none of which is free, changes nothing else. *)
Lemma reserve_walk_run (rs : list region) s :
  booted s → wp (reserve_walk rs) s (λ _ s', booted s' ∧ dom (pages s') = dom (pages s) ∧
    page_nr s' = page_nr s).
Proof.
  revert s. induction rs as [|r rs IH]; intros s Hb; cbn [reserve_walk]; [by apply wp_ret|].
  apply wp_bind. unfold set_page_reserved. eapply wp_mono.
  { apply (reserve_from_run zc _ s ∅); [by apply free_boot|]. intros q _ (l & x & Hx & _).
    unfold c_get in Hx. rewrite lookup_empty in Hx. by apply not_elem_of_nil in Hx. }
  intros _ s1 (_ & Hd1 & Hl1 & Hn1 & Hf1). destruct Hb as [Hb Hh].
  eapply wp_mono; [apply IH|].
  - split; [|by rewrite Hl1]. intros p pg Hp. specialize (Hf1 p pg Hp). case_decide; [by apply Hf1|].
    by eapply Hb.
  - intros _ s2 (? & ? & ?). split_and!; [done|congruence..].
Qed.

End Release.

(** ** The hand-over *)

Section Handover.
Context (pvoffset zs ze sizeof_page : Z) (kmap : Z → Z → Z → pstate → pstate).

Lemma bind_run_M {S A B} (m : M S A) (f : A → M S B) s a s' Φ :
  m s = Some (a, s') → wp (f a) s' Φ → wp (m ≫= f) s Φ.
Proof. intros Hm Hf. unfold wp. by rewrite (bind_run m f s a s' Hm). Qed.

Lemma wp_on_pages {A} (f : M pstate A) m s Φ :
  wp f s (λ a s', Φ a (m, s')) → wp (on_pages f) (m, s) Φ.
Proof. unfold wp, on_pages. by destruct (f s) as [[]|]. Qed.

Lemma free_page_nr zc s C n : Free zc s C → Free zc (set_page_nr n s) C.
Proof. intros [[? ? ? ? ?] ?]. by split; [split|]. Qed.

(** The hand-over with the descriptors of all memory marked as in use. *)
Lemma handover_run m s count m1 s1 :
  setup_walk pvoffset sizeof_page kmap (ttos_memblk_collect_ranges true MEMBLOCK_NONE (memory m) None) 0
    (m, s) = Some (count, (m1, s1)) →
  MInv 0 m1 → zone_sane (zone_of pvoffset m1) → 0 < mb_min_low_pfn m1 →
  booted s1 → (∀ q, mem_of m1 (q * 4096) → q ∈ dom (pages s1)) → (∀ a, mem_of m1 a → a < 2 ^ 43) →
  - 2 ^ 31 ≤ page_nr s1 + to_int count < 2 ^ 31 →
  wp (ttos_memblk_release_mem_to_pagealloc pvoffset sizeof_page kmap) (m, s) (λ r st,
    r = 0 ∧ ∃ s2 C, st = (m1, s2) ∧ Free (zone_of pvoffset m1) s2 C ∧ page_nr s2 = page_nr s1 + to_int count ∧
    ∀ q, covers C q ↔ mb_min_low_pfn m1 ≤ q ∧ mem_of m1 (q * 4096) ∧ ¬ res_of m1 (q * 4096)).
Proof.
  intros Hsetup HI Hzs Hmin Hboot Hmap Hhi Hnr. set (zc := zone_of pvoffset m1) in *.
  unfold ttos_memblk_release_mem_to_pagealloc.
  apply wp_bind, wp_gets. eapply bind_run_M; [exact Hsetup|].
  apply wp_bind, wp_gets. apply wp_bind, wp_on_pages.
  eapply wp_mono; [by apply (reserve_walk_run zc)|]. intros _ s2 (Hb2 & Hd2 & Hn2).
  apply wp_bind, wp_gets. destruct (free_ranges 0 m1 ltac:(lia) HI) as (Hc & _ & Hset).
  apply wp_bind, wp_gets. fold zc. apply wp_bind, wp_on_pages. eapply wp_mono.
  { apply (avail_walk_run zc Hzs 0 _ s2 ∅ 0); [lia|done|lia|by apply free_boot|done|..].
    - intros a [Ha _]%Hset. by apply Hhi.
    - intros q _ [Ha _]%Hset. rewrite Hd2. split; [by apply Hmap|]. intros (l & x & Hx & _).
      unfold c_get in Hx. rewrite lookup_empty in Hx. by apply not_elem_of_nil in Hx. }
  intros _ s3 (Hd3 & Hn3 & C & HF & Hcov).
  apply wp_bind, wp_on_pages. unfold totalram_pages_add. apply wp_bind, wp_gets.
  rewrite Hn3, Hn2. apply wp_bind, wp_assert; [lia|]. apply wp_modify, wp_ret.
  split; [done|]. eexists _, C. split_and!; [done|by apply free_page_nr|done|].
  intros q. rewrite Hcov, Hset. unfold covers. simpl.
  split; [|tauto]. intros [(l & x & Hx & _)|?]; [|tauto].
  unfold c_get in Hx. rewrite lookup_empty in Hx. by apply not_elem_of_nil in Hx.
Qed.

(** What the hand-over does to the page allocator once the descriptors are mapped. *)
Definition handed (m1 : memblk) (count : Z) (bs : list (Z * nat)) : M pstate unit :=
  _ ← reserve_walk (ttos_memblk_collect_ranges false MEMBLOCK_NONE (reserved m1) None);
  _ ← release_blocks (zone_of pvoffset m1) bs;
  totalram_pages_add (to_int count).

(** C11: the hand-over of early memory, for memory below 2^43 and a linear map that
    does not start at frame 0.  Whatever the page descriptors hold, the hand-over
    marks the reserved ranges and then releases a sequence of aligned, disjoint
    blocks to the page allocator, which contain exactly the frames, from the start of
    the linear map on, whose first address is memory that is not reserved; it does
    nothing else but count the pages.  If moreover the descriptors of all memory are
    readable and none reads as a free page (which the code does not see to: see
    [unmarked_descriptor_merged]), it does not fault, the free lists of the page
    allocator are consistent, and they hold exactly these frames. *)
Theorem handover_correct m s count m1 s1 :
  setup_walk pvoffset sizeof_page kmap (ttos_memblk_collect_ranges true MEMBLOCK_NONE (memory m) None) 0
    (m, s) = Some (count, (m1, s1)) →
  MInv 0 m1 → 0 < mb_min_low_pfn m1 → (∀ a, mem_of m1 a → a < 2 ^ 43) →
  ∃ bs, ordered 0 bs ∧
    (∀ q, released bs q ↔ mb_min_low_pfn m1 ≤ q ∧ mem_of m1 (q * 4096) ∧ ¬ res_of m1 (q * 4096)) ∧
    ttos_memblk_release_mem_to_pagealloc pvoffset sizeof_page kmap (m, s) =
      ('(_, s2) ← handed m1 count bs s1; Some (0, (m1, s2))) ∧
    (zone_sane (zone_of pvoffset m1) → booted s1 → (∀ q, mem_of m1 (q * 4096) → q ∈ dom (pages s1)) →
     - 2 ^ 31 ≤ page_nr s1 + to_int count < 2 ^ 31 →
     ∃ s2 C, handed m1 count bs s1 = Some (tt, s2) ∧ Free (zone_of pvoffset m1) s2 C ∧
       page_nr s2 = page_nr s1 + to_int count ∧ ∀ q, covers C q ↔ released bs q).
Proof.
  intros Hsetup HI Hmin Hhi. destruct (free_ranges 0 m1 ltac:(lia) HI) as (Hc & _ & Hset).
  destruct (avail_walk_blocks (zone_of pvoffset m1) _ 0 Hc) as (bs & Hord & Hcov & Hrun); [lia|done| |].
  { intros a [Ha _]%Hset. by apply Hhi. }
  assert (Hq : ∀ q, released bs q ↔ mb_min_low_pfn m1 ≤ q ∧ mem_of m1 (q * 4096) ∧ ¬ res_of m1 (q * 4096)).
  { intros q. by rewrite Hcov, Hset. }
  assert (Heq : ttos_memblk_release_mem_to_pagealloc pvoffset sizeof_page kmap (m, s) =
    ('(_, s2) ← handed m1 count bs s1; Some (0, (m1, s2)))).
  { unfold ttos_memblk_release_mem_to_pagealloc, handed. erewrite bind_run by done.
    erewrite bind_run by exact Hsetup. erewrite bind_run by done. unfold mbind, M_bind, option_bind, on_pages, gets.
    simpl. destruct (reserve_walk _ s1) as [[[] s2]|]; [|done]. simpl. rewrite Hrun.
    destruct (release_blocks _ bs s2) as [[[] s3]|]; [|done]. simpl. by destruct (totalram_pages_add (to_int count) s3) as [[[] s4]|]. }
  exists bs. split_and!; [by eapply ordered_le; [|exact Hord]|done|done|].
  intros Hzs Hboot Hmap Hnr.
  pose proof (handover_run m s count m1 s1 Hsetup HI Hzs Hmin Hboot Hmap Hhi Hnr) as Hwp.
  unfold wp in Hwp. rewrite Heq in Hwp. destruct (handed m1 count bs s1) as [[[] s2]|]; [|done].
  destruct Hwp as (_ & s2' & C & [= <-] & HF & Hn & Hcv). exists s2, C. split_and!; try done.
  intros q. by rewrite Hcv, Hq.
Qed.

End Handover.

(** ** A small machine

    Sixteen frames of memory from frame 16 on, of which the first two are reserved;
    the descriptors take one more. *)

Definition pv0 : Z := 2 ^ 63.
Definition zs0 : Z := 2 ^ 63.
Definition ze0 : Z := 2 ^ 63 + 2 ^ 40.

Definition memblk0 : memblk :=
  Eval vm_compute in
    (ttos_memblk_reserve 65536 8192 (ttos_memblk_add pv0 zs0 ze0 65536 65536 memblock_init).2).2.

Definition marked (frames : list Z) : gmap Z page := list_to_map ((λ i, (i, Page None None 64 0)) <$> frames).

Definition kmap0 (vaddr paddr size : Z) (s : pstate) : pstate := set_pages (marked (seqZ 16 16)) s.

Definition bare : pstate := PState ∅ (list_to_map ((λ l, (l, None)) <$> seqZ 0 52)) 0.

Definition memblk1 : memblk := Eval vm_compute in (ttos_memblk_phys_alloc 4096 4096 memblk0).2.
Definition mapped0 : pstate := kmap0 0 0 0 bare.

Lemma minv1 : MInv 0 memblk1.
Proof. repeat split; simpl; lia || done. Qed.

Lemma booted_mapped : booted mapped0.
Proof.
  split.
  - intros p pg Hp. apply elem_of_list_to_map_2 in Hp.
    apply list_elem_of_fmap in Hp as (i & [= -> ->] & _). done.
  - intros l Hl. apply elem_of_list_to_map_1.
    + rewrite <- list_fmap_compose. apply NoDup_fmap_2; [|apply NoDup_seqZ]. by intros ?? [= ->].
    + apply list_elem_of_fmap. exists l. split; [done|]. apply elem_of_seqZ. lia.
Qed.

Lemma mem1 a : mem_of memblk1 a ↔ 65536 ≤ a < 131072.
Proof. unfold mem_of. simpl. rewrite inr_one. simpl. lia. Qed.

Lemma handover_correct_witness :
  ∃ bs s2 C, ttos_memblk_release_mem_to_pagealloc pv0 32 kmap0 (memblk0, bare) = Some (0, (memblk1, s2)) ∧
    Free (zone_of pv0 memblk1) s2 C ∧ page_nr s2 = 16 ∧ ordered 0 bs ∧ ∀ q, covers C q ↔ released bs q.
Proof.
  destruct (handover_correct pv0 32 kmap0 memblk0 bare 16 memblk1 mapped0) as (bs & Hord & _ & Heq & Hall).
  - by vm_compute.
  - apply minv1.
  - done.
  - intros a Ha%mem1. lia.
  - destruct Hall as (s2 & C & Hr & HF & Hn & Hc).
    + split; simpl; unfold pv0; lia.
    + apply booted_mapped.
    + intros q Hq%mem1. apply elem_of_dom. exists (Page None None 64 0). simpl.
      apply elem_of_list_to_map_1.
      * rewrite <- list_fmap_compose. apply NoDup_fmap_2; [|apply NoDup_seqZ]. by intros ?? [= ->].
      * apply list_elem_of_fmap. exists q. split; [reflexivity|]. apply elem_of_seqZ. lia.
    + clear. done.
    + rewrite Hr in Heq. exists bs, s2, C. split; [exact Heq|]. split; [exact HF|]. split; [exact Hn|]. split; [exact Hord|exact Hc].
Defined.

(** ** What goes wrong *)

Definition lists0 : gmap Z (option Z) := list_to_map ((λ l, (l, None)) <$> seqZ 0 52).

(** [__ttos_memblk_release_avail_mem_core] rounds the end of a free range up: a
    page whose second half is reserved is handed to the page allocator, which gives
    it out. *)
Theorem partly_reserved_page_released :
  let mem := (ttos_memblk_add pv0 zs0 ze0 65536 4096 memblock_init).2 in
  let m := (ttos_memblk_reserve (65536 + 2048) 2048 mem).2 in
  let zc := zone_of pv0 m in
  ∃ s1 s2, avail_walk zc (ttos_memblk_collect_ranges true MEMBLOCK_NONE (memory m) (Some (reserved m)))
      (PState (marked [16]) lists0 0) = Some (tt, s1) ∧
    pages_alloc zc 0 ZONE_ANYWHERE s1 = Some (65536, s2) ∧ res_of m (65536 + 2048).
Proof.
  simpl. eexists _, _. split; [by vm_compute|]. split; [by vm_compute|].
  eexists. split; [vm_compute; left|]. simpl. lia.
Qed.

(** The descriptors are never initialised: only the heads of released blocks and
    the reserved frames are marked.  Here memory has frames 16 to 18 and 24 to 31,
    and the descriptors, in pages full of zeros, are also readable for the frames
    between.  Releasing frame 18 merges it with frame 19, which does not exist, since
    the zero in its descriptor reads as a free page of order 0; the allocator then
    gives out a block of four frames of which one is no memory. *)
Theorem unmarked_descriptor_merged :
  let mem := (ttos_memblk_add pv0 zs0 ze0 65536 12288 memblock_init).2 in
  let m := (ttos_memblk_add pv0 zs0 ze0 98304 32768 mem).2 in
  let zc := zone_of pv0 m in
  let zeros := list_to_map ((λ i, (i, Page None None 0 0)) <$> seqZ 16 16) in
  ∃ s1 s2, avail_walk zc (ttos_memblk_collect_ranges true MEMBLOCK_NONE (memory m) (Some (reserved m)))
      (PState zeros lists0 0) = Some (tt, s1) ∧
    pages_alloc zc 2 ZONE_ANYWHERE s1 = Some (65536, s2) ∧ ¬ mem_of m (19 * 4096).
Proof.
  simpl. eexists _, _. split; [by vm_compute|]. split; [by vm_compute|].
  unfold mem_of. vm_compute regions. rewrite inr_cons, inr_one. simpl. lia.
Qed.

(** Memory that starts at address 0 and is not reserved there cannot be handed
    over: the order of a block at frame 0 is [__builtin_ctzl(0)], which is
    undefined. *)
Theorem frame_zero_undefined zc fuel s end_ :
  0 < end_ → release_walk zc fuel 0 end_ s = None.
Proof.
  intros He. destruct fuel as [|fuel]; [done|]. cbn [release_walk].
  destruct (Z.ltb_spec 0 end_); [|lia]. unfold mbind, M_bind, lift.
  set (o := shrink_order _ 0 end_). by destruct o.
Qed.

Lemma frame_zero_undefined_witness : release_walk (ZoneCfg 0 3 pv0) 5 0 4 bare = None.
Proof. apply (frame_zero_undefined (ZoneCfg 0 3 pv0) 5 bare 4). lia. Defined.
