(* ===== verification/RBTree.v ===== *)
(** * Red-black trees: the pointer code

    [kernel/utils/ttosRBTree.c] and [include/ttosRBTree.h].  A node is addressed by
    a number; the word [rb_parent_color] is its two parts, the pointer to the parent
    and the colour bit.  The state holds the nodes of one tree and its root.  The
    loops climb to the root or descend to a leaf; their fuel is one more than the
    number of nodes. *)

From S2P Require Import Prelude.

Record rb_node := RbNode {
  rb_parent : option N;
  rb_black : bool;
  rb_right : option N;
  rb_left : option N;
}.

Definition upd_parent (v : option N) (n : rb_node) : rb_node := RbNode v (rb_black n) (rb_right n) (rb_left n).
Definition upd_black (v : bool) (n : rb_node) : rb_node := RbNode (rb_parent n) v (rb_right n) (rb_left n).
Definition upd_right (v : option N) (n : rb_node) : rb_node := RbNode (rb_parent n) (rb_black n) v (rb_left n).
Definition upd_left (v : option N) (n : rb_node) : rb_node := RbNode (rb_parent n) (rb_black n) (rb_right n) v.

Record rb_state := RbState {
  rb_nodes : gmap N rb_node;
  rb_root : option N;
}.

Definition rb_get (p : N) : M rb_state rb_node := λ s, n ← rb_nodes s !! p; Some (n, s).
Definition rb_upd (p : N) (f : rb_node → rb_node) : M rb_state unit :=
  λ s, n ← rb_nodes s !! p; Some (tt, RbState (<[p := f n]> (rb_nodes s)) (rb_root s)).
Definition get_root : M rb_state (option N) := gets rb_root.
Definition set_root (r : option N) : M rb_state unit := modify (λ s, RbState (rb_nodes s) r).

Definition rb_set_parent (p : N) (q : option N) : M rb_state unit := rb_upd p (upd_parent q).
Definition rb_set_red (p : N) : M rb_state unit := rb_upd p (upd_black false).
Definition rb_set_black (p : N) : M rb_state unit := rb_upd p (upd_black true).
Definition rb_set_color (p : N) (b : bool) : M rb_state unit := rb_upd p (upd_black b).

(** [!p || rb_is_black(p)]. *)
Definition null_or_black (p : option N) : M rb_state bool :=
  match p with None => mret true | Some p => n ← rb_get p; mret (rb_black n) end.

(** [p && rb_is_red(p)]. *)
Definition and_red (p : option N) : M rb_state bool := b ← null_or_black p; mret (negb b).

(** The pointer to the old child, in the parent or the root, is replaced. *)
Definition relink (parent : option N) (old : N) (new : option N) : M rb_state unit :=
  match parent with
  | Some p =>
      pn ← rb_get p;
      if decide (rb_left pn = Some old) then rb_upd p (upd_left new) else rb_upd p (upd_right new)
  | None => set_root new
  end.

Definition relink_right_first (parent : option N) (old : N) (new : option N) : M rb_state unit :=
  match parent with
  | Some p =>
      pn ← rb_get p;
      if decide (rb_right pn = Some old) then rb_upd p (upd_right new) else rb_upd p (upd_left new)
  | None => set_root new
  end.

Definition __rb_rotate_left (node : N) : M rb_state unit :=
  n ← rb_get node;
  right ← lift (rb_right n);
  let parent := rb_parent n in
  rn ← rb_get right;
  _ ← rb_upd node (upd_right (rb_left rn));
  _ ← match rb_left rn with Some c => rb_set_parent c (Some node) | None => mret tt end;
  _ ← rb_upd right (upd_left (Some node));
  _ ← rb_set_parent right parent;
  _ ← relink parent node (Some right);
  rb_set_parent node (Some right).

Definition __rb_rotate_right (node : N) : M rb_state unit :=
  n ← rb_get node;
  left ← lift (rb_left n);
  let parent := rb_parent n in
  ln ← rb_get left;
  _ ← rb_upd node (upd_left (rb_right ln));
  _ ← match rb_right ln with Some c => rb_set_parent c (Some node) | None => mret tt end;
  _ ← rb_upd left (upd_right (Some node));
  _ ← rb_set_parent left parent;
  _ ← relink_right_first parent node (Some left);
  rb_set_parent node (Some left).

(** ** Insertion *)

(** A [struct rb_node **]: the root pointer or a child pointer of a node. *)
Inductive rb_link := RootLink | LeftLink (p : N) | RightLink (p : N).

Definition rb_load (link : rb_link) : M rb_state (option N) :=
  match link with
  | RootLink => get_root
  | LeftLink p => n ← rb_get p; mret (rb_left n)
  | RightLink p => n ← rb_get p; mret (rb_right n)
  end.

Definition rb_store (link : rb_link) (v : option N) : M rb_state unit :=
  match link with
  | RootLink => set_root v
  | LeftLink p => rb_upd p (upd_left v)
  | RightLink p => rb_upd p (upd_right v)
  end.

Definition rb_link_node (node : N) (parent : option N) (link : rb_link) : M rb_state unit :=
  _ ← rb_upd node (λ _, RbNode parent false None None);
  rb_store link (Some node).

Fixpoint insert_color_loop (fuel : nat) (node : N) : M rb_state unit :=
  match fuel with
  | O => fault
  | S fuel =>
      n ← rb_get node;
      match rb_parent n with
      | None => mret tt
      | Some parent =>
          pn ← rb_get parent;
          if rb_black pn then mret tt
          else
            gparent ← lift (rb_parent pn);
            gn ← rb_get gparent;
            if decide (rb_left gn = Some parent) then
              red ← and_red (rb_right gn);
              if (red : bool) then
                uncle ← lift (rb_right gn);
                _ ← rb_set_black uncle;
                _ ← rb_set_black parent;
                _ ← rb_set_red gparent;
                insert_color_loop fuel gparent
              else
                pn ← rb_get parent;
                '(node, parent) ←
                  (if decide (rb_right pn = Some node)
                   then _ ← __rb_rotate_left parent; mret (parent, node)
                   else mret (node, parent));
                _ ← rb_set_black parent;
                _ ← rb_set_red gparent;
                _ ← __rb_rotate_right gparent;
                insert_color_loop fuel node
            else
              red ← and_red (rb_left gn);
              if (red : bool) then
                uncle ← lift (rb_left gn);
                _ ← rb_set_black uncle;
                _ ← rb_set_black parent;
                _ ← rb_set_red gparent;
                insert_color_loop fuel gparent
              else
                pn ← rb_get parent;
                '(node, parent) ←
                  (if decide (rb_left pn = Some node)
                   then _ ← __rb_rotate_right parent; mret (parent, node)
                   else mret (node, parent));
                _ ← rb_set_black parent;
                _ ← rb_set_red gparent;
                _ ← __rb_rotate_left gparent;
                insert_color_loop fuel node
      end
  end.

Definition tree_fuel : M rb_state nat := gets (λ s, S (size (rb_nodes s))).

Definition rb_insert_color (node : N) : M rb_state unit :=
  fuel ← tree_fuel;
  _ ← insert_color_loop fuel node;
  root ← get_root;
  root ← lift root;
  rb_set_black root.

(** ** Removal *)

(** A turn of the loop of [__rb_erase_color] below [p] with the black sibling
    [other]: [next] is the next turn; otherwise the loop is left with the root. *)
Definition erase_turn_left (next : option N → option N → M rb_state (option N)) (p other : N)
    : M rb_state (option N) :=
  on ← rb_get other;
  bl ← null_or_black (rb_left on);
  br ← null_or_black (rb_right on);
  if bl && br then
    _ ← rb_set_red other;
    pn ← rb_get p;
    next (Some p) (rb_parent pn)
  else
    other ← (if (br : bool) then
               l ← lift (rb_left on);
               _ ← rb_set_black l;
               _ ← rb_set_red other;
               _ ← __rb_rotate_right other;
               pn ← rb_get p;
               lift (rb_right pn)
             else mret other);
    pn ← rb_get p;
    _ ← rb_set_color other (rb_black pn);
    _ ← rb_set_black p;
    on ← rb_get other;
    _ ← match rb_right on with Some r => rb_set_black r | None => mret tt end;
    _ ← __rb_rotate_left p;
    get_root.

Definition erase_turn_right (next : option N → option N → M rb_state (option N)) (p other : N)
    : M rb_state (option N) :=
  on ← rb_get other;
  bl ← null_or_black (rb_left on);
  br ← null_or_black (rb_right on);
  if bl && br then
    _ ← rb_set_red other;
    pn ← rb_get p;
    next (Some p) (rb_parent pn)
  else
    other ← (if (bl : bool) then
               r ← lift (rb_right on);
               _ ← rb_set_black r;
               _ ← rb_set_red other;
               _ ← __rb_rotate_left other;
               pn ← rb_get p;
               lift (rb_left pn)
             else mret other);
    pn ← rb_get p;
    _ ← rb_set_color other (rb_black pn);
    _ ← rb_set_black p;
    on ← rb_get other;
    _ ← match rb_left on with Some l => rb_set_black l | None => mret tt end;
    _ ← __rb_rotate_right p;
    get_root.

(** The loop returns the node that is made black in the end. *)
Fixpoint erase_color_loop (fuel : nat) (node parent : option N) : M rb_state (option N) :=
  match fuel with
  | O => fault
  | S fuel =>
      black ← null_or_black node;
      root ← get_root;
      if negb black || bool_decide (node = root) then mret node
      else
        p ← lift parent;
        pn ← rb_get p;
        if decide (rb_left pn = node) then
          match rb_right pn with
          | None => mret node
          | Some other =>
              on ← rb_get other;
              other ← (if rb_black on then mret other
                       else
                         _ ← rb_set_black other;
                         _ ← rb_set_red p;
                         _ ← __rb_rotate_left p;
                         pn ← rb_get p;
                         lift (rb_right pn));
              erase_turn_left (erase_color_loop fuel) p other
          end
        else
          other ← lift (rb_left pn);
          on ← rb_get other;
          other ← (if rb_black on then mret other
                   else
                     _ ← rb_set_black other;
                     _ ← rb_set_red p;
                     _ ← __rb_rotate_right p;
                     pn ← rb_get p;
                     lift (rb_left pn));
          erase_turn_right (erase_color_loop fuel) p other
  end.

Definition __rb_erase_color (node parent : option N) : M rb_state unit :=
  fuel ← tree_fuel;
  node ← erase_color_loop fuel node parent;
  match node with Some node => rb_set_black node | None => mret tt end.

(** Down to the left, and down to the right, as far as possible. *)
Fixpoint leftmost (fuel : nat) (p : N) : M rb_state N :=
  match fuel with
  | O => fault
  | S fuel => n ← rb_get p; match rb_left n with None => mret p | Some l => leftmost fuel l end
  end.

Fixpoint rightmost (fuel : nat) (p : N) : M rb_state N :=
  match fuel with
  | O => fault
  | S fuel => n ← rb_get p; match rb_right n with None => mret p | Some r => rightmost fuel r end
  end.

(** A node with at most one child is spliced out. *)
Definition splice (node : N) (child : option N) : M rb_state unit :=
  n ← rb_get node;
  let parent := rb_parent n in
  let color := rb_black n in
  _ ← match child with Some c => rb_set_parent c parent | None => mret tt end;
  _ ← relink parent node child;
  if color then __rb_erase_color child parent else mret tt.

(** A node with two children is replaced by its successor. *)
Definition replace_by_successor (old : N) : M rb_state unit :=
  oldn ← rb_get old;
  right ← lift (rb_right oldn);
  fuel ← tree_fuel;
  node ← leftmost fuel right;
  _ ← relink (rb_parent oldn) old (Some node);
  n ← rb_get node;
  let child := rb_right n in
  parent ← lift (rb_parent n);
  let color := rb_black n in
  parent ←
    (if decide (parent = old) then mret node
     else
       _ ← match child with Some c => rb_set_parent c (Some parent) | None => mret tt end;
       _ ← rb_upd parent (upd_left child);
       oldn ← rb_get old;
       _ ← rb_upd node (upd_right (rb_right oldn));
       oright ← lift (rb_right oldn);
       _ ← rb_set_parent oright (Some node);
       mret parent);
  oldn ← rb_get old;
  _ ← rb_upd node (λ n, upd_black (rb_black oldn) (upd_parent (rb_parent oldn) n));
  _ ← rb_upd node (upd_left (rb_left oldn));
  oleft ← lift (rb_left oldn);
  _ ← rb_set_parent oleft (Some node);
  if color then __rb_erase_color child (Some parent) else mret tt.

Definition rb_erase (node : N) : M rb_state unit :=
  n ← rb_get node;
  match rb_left n, rb_right n with
  | None, child => splice node child
  | child, None => splice node child
  | Some _, Some _ => replace_by_successor node
  end.

(** ** Traversal *)

Definition rb_first : M rb_state (option N) :=
  root ← get_root;
  match root with
  | None => mret None
  | Some n => fuel ← tree_fuel; l ← leftmost fuel n; mret (Some l)
  end.

Definition rb_last : M rb_state (option N) :=
  root ← get_root;
  match root with
  | None => mret None
  | Some n => fuel ← tree_fuel; r ← rightmost fuel n; mret (Some r)
  end.

Fixpoint up_from_right (fuel : nat) (node : N) : M rb_state (option N) :=
  match fuel with
  | O => fault
  | S fuel =>
      n ← rb_get node;
      match rb_parent n with
      | None => mret None
      | Some parent =>
          pn ← rb_get parent;
          if decide (rb_right pn = Some node) then up_from_right fuel parent else mret (Some parent)
      end
  end.

Fixpoint up_from_left (fuel : nat) (node : N) : M rb_state (option N) :=
  match fuel with
  | O => fault
  | S fuel =>
      n ← rb_get node;
      match rb_parent n with
      | None => mret None
      | Some parent =>
          pn ← rb_get parent;
          if decide (rb_left pn = Some node) then up_from_left fuel parent else mret (Some parent)
      end
  end.

Definition rb_next (node : N) : M rb_state (option N) :=
  n ← rb_get node;
  if decide (rb_parent n = Some node) then mret None
  else
    fuel ← tree_fuel;
    match rb_right n with
    | Some r => l ← leftmost fuel r; mret (Some l)
    | None => up_from_right fuel node
    end.

Definition rb_prev (node : N) : M rb_state (option N) :=
  n ← rb_get node;
  if decide (rb_parent n = Some node) then mret None
  else
    fuel ← tree_fuel;
    match rb_left n with
    | Some l => r ← rightmost fuel l; mret (Some r)
    | None => up_from_left fuel node
    end.

Definition rb_replace_node (victim new : N) : M rb_state unit :=
  v ← rb_get victim;
  _ ← relink (rb_parent v) victim (Some new);
  v ← rb_get victim;
  _ ← match rb_left v with Some l => rb_set_parent l (Some new) | None => mret tt end;
  v ← rb_get victim;
  _ ← match rb_right v with Some r => rb_set_parent r (Some new) | None => mret tt end;
  v ← rb_get victim;
  rb_upd new (λ _, v).

(** An unlinked node is its own parent. *)
Definition RB_EMPTY_NODE (p : N) : M rb_state bool := n ← rb_get p; mret (bool_decide (rb_parent n = Some p)).

Definition rb_init_node (p : N) : M rb_state unit := rb_upd p (λ _, RbNode (Some p) false None None).
