(* ===== verification/RBHeap.v ===== *)
(** * A separation logic for the tree code

    The nodes of the state of [RBTree] as resources of Iris: [p ↦ n] owns the node at
    [p], [rootptr r] the root pointer.  [hwp m Φ] is total correctness of a computation
    over that state.  [is_tree] and [is_ctx] describe a subtree and what surrounds it;
    a subtree is changed in place without touching the rest. *)

From iris.proofmode Require Import proofmode.
From iris.base_logic.lib Require Import ghost_map.
From S2P Require Import Prelude RBTree.

(** ** Trees and their surroundings *)

Inductive tree :=
  | E
  | T (black : bool) (l : tree) (k : N) (r : tree).

(** The surroundings of a hole: it is the left child of [k], or the right one. *)
Inductive ctx :=
  | Top
  | CL (black : bool) (k : N) (r : tree) (up : ctx)
  | CR (black : bool) (l : tree) (k : N) (up : ctx).

#[export] Instance tree_eq_dec : EqDecision tree.
Proof. unfold EqDecision. solve_decision. Defined.
#[export] Instance ctx_eq_dec : EqDecision ctx.
Proof. unfold EqDecision. solve_decision. Defined.

Fixpoint plug (C : ctx) (t : tree) : tree :=
  match C with
  | Top => t
  | CL b k r up => plug up (T b t k r)
  | CR b l k up => plug up (T b l k t)
  end.

Definition root_of (t : tree) : option N := match t with E => None | T _ _ k _ => Some k end.

Definition parent_of (C : ctx) : option N := match C with Top => None | CL _ k _ _ | CR _ _ k _ => Some k end.

Fixpoint elems (t : tree) : list N := match t with E => [] | T _ l k r => elems l ++ k :: elems r end.

Fixpoint depth (C : ctx) : nat := match C with Top => 0 | CL _ _ _ up | CR _ _ _ up => S (depth up) end.

Fixpoint height (t : tree) : nat := match t with E => 0 | T _ l _ r => S (height l `max` height r) end.

(** The elements before and after the hole. *)
Fixpoint before (C : ctx) : list N :=
  match C with Top => [] | CL _ _ _ up => before up | CR _ l k up => before up ++ elems l ++ [k] end.

Fixpoint after (C : ctx) : list N :=
  match C with Top => [] | CL _ k r up => k :: elems r ++ after up | CR _ _ _ up => after up end.

Lemma elems_plug C t : elems (plug C t) = before C ++ elems t ++ after C.
Proof.
  revert t. induction C as [|b k r up IH|b l k up IH]; intros t; simpl.
  - by rewrite app_nil_r.
  - rewrite IH. simpl. by rewrite -!app_assoc.
  - rewrite IH. simpl. by rewrite -!app_assoc.
Qed.

(** ** Resources *)

Section Heap.
Context `{!ghost_mapG Σ N rb_node, !ghost_mapG Σ unit (option N)} (γn γr : gname).

Notation "p ↦ n" := (ghost_map_elem γn p (DfracOwn 1) n) (at level 20).

Definition rootptr (r : option N) : iProp Σ := ghost_map_elem γr () (DfracOwn 1) r.

Definition SI (s : rb_state) : iProp Σ :=
  ghost_map_auth γn 1 (rb_nodes s) ∗ ghost_map_auth γr 1 {[ () := rb_root s ]}.

Definition hwp {A} (m : M rb_state A) (Φ : A → iProp Σ) : iProp Σ :=
  ∀ s, SI s ==∗ ∃ a s', ⌜m s = Some (a, s')⌝ ∗ SI s' ∗ Φ a.

Lemma hwp_ret {A} (a : A) Φ : Φ a -∗ hwp (mret a) Φ.
Proof. iIntros "H" (s) "HS". iModIntro. iExists a, s. by iFrame. Qed.

Lemma hwp_bind {A B} (m : M rb_state A) (f : A → M rb_state B) Φ :
  hwp m (λ a, hwp (f a) Φ) -∗ hwp (m ≫= f) Φ.
Proof.
  iIntros "H" (s) "HS". iMod ("H" with "HS") as (a s1 Hm) "[HS H]".
  iMod ("H" with "HS") as (b s2 Hf) "[HS H]". iModIntro. iExists b, s2. iFrame.
  iPureIntro. unfold mbind, M_bind. by rewrite Hm.
Qed.

Lemma hwp_mono {A} (m : M rb_state A) Φ Ψ : hwp m Φ -∗ (∀ a, Φ a -∗ Ψ a) -∗ hwp m Ψ.
Proof.
  iIntros "H HΦ" (s) "HS". iMod ("H" with "HS") as (a s1 Hm) "[HS H]".
  iModIntro. iExists a, s1. iFrame. iSplit; [done|]. by iApply "HΦ".
Qed.

Lemma hwp_lift {A} (a : A) Φ : Φ a -∗ hwp (lift (Some a)) Φ.
Proof. iIntros "H" (s) "HS". iModIntro. iExists a, s. by iFrame. Qed.

Lemma hwp_get p n Φ : p ↦ n -∗ (p ↦ n -∗ Φ n) -∗ hwp (rb_get p) Φ.
Proof.
  iIntros "Hp H" (s) "[HS HR]". iDestruct (ghost_map_lookup with "HS Hp") as %Hn.
  iModIntro. iExists n, s. iFrame. iSplit; [iPureIntro; unfold rb_get; by rewrite Hn|]. by iApply "H".
Qed.

Lemma hwp_upd p n f Φ : p ↦ n -∗ (p ↦ f n -∗ Φ tt) -∗ hwp (rb_upd p f) Φ.
Proof.
  iIntros "Hp H" (s) "[HS HR]". iDestruct (ghost_map_lookup with "HS Hp") as %Hn.
  iMod (ghost_map_update (f n) with "HS Hp") as "[HS Hp]". iModIntro.
  iExists tt, (RbState (<[p := f n]> (rb_nodes s)) (rb_root s)). iFrame.
  iSplit; [iPureIntro; unfold rb_upd; by rewrite Hn|]. by iApply "H".
Qed.

Lemma hwp_get_root r Φ : rootptr r -∗ (rootptr r -∗ Φ r) -∗ hwp get_root Φ.
Proof.
  iIntros "Hp H" (s) "[HS HR]". iDestruct (ghost_map_lookup with "HR Hp") as %Hn.
  apply lookup_singleton_Some in Hn as [_ <-]. iModIntro. iExists _, s. iFrame. iSplit; [done|]. by iApply "H".
Qed.

Lemma hwp_set_root r r' Φ : rootptr r -∗ (rootptr r' -∗ Φ tt) -∗ hwp (set_root r') Φ.
Proof.
  iIntros "Hp H" (s) "[HS HR]". iMod (ghost_map_update r' with "HR Hp") as "[HR Hp]". iModIntro.
  iExists tt, (RbState (rb_nodes s) r'). rewrite insert_singleton_eq. iFrame. iSplit; [done|]. by iApply "H".
Qed.

(** ** Trees as resources *)

Fixpoint is_tree (p : option N) (t : tree) : iProp Σ :=
  match t with
  | E => emp
  | T b l k r => k ↦ RbNode p b (root_of r) (root_of l) ∗ is_tree (Some k) l ∗ is_tree (Some k) r
  end.

Fixpoint is_ctx (C : ctx) (h : option N) : iProp Σ :=
  match C with
  | Top => rootptr h
  | CL b k r up => k ↦ RbNode (parent_of up) b (root_of r) h ∗ is_tree (Some k) r ∗ is_ctx up (Some k)
  | CR b l k up => k ↦ RbNode (parent_of up) b h (root_of l) ∗ is_tree (Some k) l ∗ is_ctx up (Some k)
  end.

Lemma plug_split C t :
  is_tree None (plug C t) ∗ rootptr (root_of (plug C t)) ⊣⊢ is_ctx C (root_of t) ∗ is_tree (parent_of C) t.
Proof.
  revert t. induction C as [|b k r up IH|b l k up IH]; intros t; simpl.
  - iSplit; iIntros "[$ $]".
  - rewrite IH. simpl. iSplit; [iIntros "($ & $ & $ & $)"|iIntros "(($ & $ & $) & $)"].
  - rewrite IH. simpl. iSplit; [iIntros "($ & $ & $ & $)"|iIntros "(($ & $ & $) & $)"].
Qed.

Lemma tree_root_ne p t k n : is_tree p t -∗ k ↦ n -∗ ⌜root_of t ≠ Some k⌝.
Proof.
  destruct t as [|b l j r]; simpl; [by iIntros|]. iIntros "(Hj & _) Hk".
  iDestruct (ghost_map_elem_ne with "Hj Hk") as %Hne. iPureIntro. congruence.
Qed.

(** The parent pointer of a subtree, if there is one. *)
Lemma hwp_reparent p q t Φ :
  is_tree p t -∗ (is_tree q t -∗ Φ tt) -∗
  hwp (match root_of t with Some c => rb_set_parent c q | None => mret tt end) Φ.
Proof.
  destruct t as [|b l k r]; simpl; iIntros "Ht H".
  - iApply hwp_ret. by iApply "H".
  - iDestruct "Ht" as "(Hk & Hl & Hr)". iApply (hwp_upd with "Hk"). iIntros "Hk". iApply "H". iFrame.
Qed.

Lemma hwp_relink C k n new Φ :
  k ↦ n -∗ is_ctx C (Some k) -∗ (k ↦ n -∗ is_ctx C new -∗ Φ tt) -∗ hwp (relink (parent_of C) k new) Φ.
Proof.
  iIntros "Hk HC H". destruct C as [|b j r up|b l j up]; simpl.
  - iApply (hwp_set_root with "HC"). iApply ("H" with "Hk").
  - iDestruct "HC" as "(Hj & Hr & HC)". iApply hwp_bind. iApply (hwp_get with "Hj"). iIntros "Hj". simpl.
    rewrite decide_True //. iApply (hwp_upd with "Hj"). iIntros "Hj". iApply ("H" with "Hk"). iFrame.
  - iDestruct "HC" as "(Hj & Hl & HC)". iDestruct (tree_root_ne with "Hl Hk") as %Hne.
    iApply hwp_bind. iApply (hwp_get with "Hj"). iIntros "Hj". simpl.
    rewrite decide_False //. iApply (hwp_upd with "Hj"). iIntros "Hj". iApply ("H" with "Hk"). iFrame.
Qed.

Lemma hwp_relink_right_first C k n new Φ :
  k ↦ n -∗ is_ctx C (Some k) -∗ (k ↦ n -∗ is_ctx C new -∗ Φ tt) -∗
  hwp (relink_right_first (parent_of C) k new) Φ.
Proof.
  iIntros "Hk HC H". destruct C as [|b j r up|b l j up]; simpl.
  - iApply (hwp_set_root with "HC"). iApply ("H" with "Hk").
  - iDestruct "HC" as "(Hj & Hr & HC)". iDestruct (tree_root_ne with "Hr Hk") as %Hne.
    iApply hwp_bind. iApply (hwp_get with "Hj"). iIntros "Hj". simpl.
    rewrite decide_False //. iApply (hwp_upd with "Hj"). iIntros "Hj". iApply ("H" with "Hk"). iFrame.
  - iDestruct "HC" as "(Hj & Hl & HC)". iApply hwp_bind. iApply (hwp_get with "Hj"). iIntros "Hj". simpl.
    rewrite decide_True //. iApply (hwp_upd with "Hj"). iIntros "Hj". iApply ("H" with "Hk"). iFrame.
Qed.

Lemma hwp_rotate_left C b l k b2 rl k2 rr Φ :
  is_ctx C (Some k) -∗ is_tree (parent_of C) (T b l k (T b2 rl k2 rr)) -∗
  (is_ctx C (Some k2) -∗ is_tree (parent_of C) (T b2 (T b l k rl) k2 rr) -∗ Φ tt) -∗
  hwp (__rb_rotate_left k) Φ.
Proof.
  iIntros "HC (Hk & Hl & Hk2 & Hrl & Hrr) H". unfold __rb_rotate_left. simpl.
  iApply hwp_bind. iApply (hwp_get with "Hk"). iIntros "Hk". simpl.
  iApply hwp_bind. iApply hwp_lift.
  iApply hwp_bind. iApply (hwp_get with "Hk2"). iIntros "Hk2". simpl.
  iApply hwp_bind. iApply (hwp_upd with "Hk"). iIntros "Hk".
  iApply hwp_bind. iApply (hwp_reparent _ (Some k) with "Hrl"). iIntros "Hrl".
  iApply hwp_bind. iApply (hwp_upd with "Hk2"). iIntros "Hk2".
  iApply hwp_bind. iApply (hwp_upd with "Hk2"). iIntros "Hk2".
  iApply hwp_bind. iApply (hwp_relink C with "Hk HC"). iIntros "Hk HC".
  iApply (hwp_upd with "Hk"). iIntros "Hk". iApply ("H" with "HC"). iFrame.
Qed.

Lemma hwp_rotate_right C b b2 ll k2 lr k r Φ :
  is_ctx C (Some k) -∗ is_tree (parent_of C) (T b (T b2 ll k2 lr) k r) -∗
  (is_ctx C (Some k2) -∗ is_tree (parent_of C) (T b2 ll k2 (T b lr k r)) -∗ Φ tt) -∗
  hwp (__rb_rotate_right k) Φ.
Proof.
  iIntros "HC (Hk & (Hk2 & Hll & Hlr) & Hr) H". unfold __rb_rotate_right. simpl.
  iApply hwp_bind. iApply (hwp_get with "Hk"). iIntros "Hk". simpl.
  iApply hwp_bind. iApply hwp_lift.
  iApply hwp_bind. iApply (hwp_get with "Hk2"). iIntros "Hk2". simpl.
  iApply hwp_bind. iApply (hwp_upd with "Hk"). iIntros "Hk".
  iApply hwp_bind. iApply (hwp_reparent _ (Some k) with "Hlr"). iIntros "Hlr".
  iApply hwp_bind. iApply (hwp_upd with "Hk2"). iIntros "Hk2".
  iApply hwp_bind. iApply (hwp_upd with "Hk2"). iIntros "Hk2".
  iApply hwp_bind. iApply (hwp_relink_right_first C with "Hk HC"). iIntros "Hk HC".
  iApply (hwp_upd with "Hk"). iIntros "Hk". iApply ("H" with "HC"). iFrame.
Qed.

(** The colour of a subtree. *)
Definition is_black (t : tree) : bool := match t with T false _ _ _ => false | _ => true end.

Lemma hwp_null_or_black p t Φ :
  is_tree p t -∗ (is_tree p t -∗ Φ (is_black t)) -∗ hwp (null_or_black (root_of t)) Φ.
Proof.
  destruct t as [|b l k r]; simpl; iIntros "Ht H"; [iApply hwp_ret; by iApply "H"|].
  iDestruct "Ht" as "(Hk & Ht)". iApply hwp_bind. iApply (hwp_get with "Hk"). iIntros "Hk".
  iApply hwp_ret. simpl. destruct b; iApply "H"; iFrame.
Qed.

Lemma hwp_and_red p t Φ :
  is_tree p t -∗ (is_tree p t -∗ Φ (negb (is_black t))) -∗ hwp (and_red (root_of t)) Φ.
Proof.
  iIntros "Ht H". iApply hwp_bind. iApply (hwp_null_or_black with "Ht"). iIntros "Ht".
  iApply hwp_ret. by iApply "H".
Qed.

(** ** Fuel

    A path is no longer than there are nodes. *)

Fixpoint path (C : ctx) : list N :=
  match C with Top => [] | CL _ k _ up | CR _ _ k up => k :: path up end.

Lemma path_length C : length (path C) = depth C.
Proof. induction C; simpl; auto. Qed.

Lemma ctx_owns C h k n : is_ctx C h -∗ k ↦ n -∗ ⌜k ∉ path C⌝.
Proof.
  revert h. induction C as [|b j r up IH|b l j up IH]; intros h; simpl; iIntros "HC Hk".
  - iPureIntro. apply not_elem_of_nil.
  - iDestruct "HC" as "(Hj & _ & HC)". iDestruct (ghost_map_elem_ne with "Hk Hj") as %Hne.
    iDestruct (IH with "HC Hk") as %Hn. iPureIntro. by apply not_elem_of_cons.
  - iDestruct "HC" as "(Hj & _ & HC)". iDestruct (ghost_map_elem_ne with "Hk Hj") as %Hne.
    iDestruct (IH with "HC Hk") as %Hn. iPureIntro. by apply not_elem_of_cons.
Qed.

Lemma path_nodup C h : is_ctx C h -∗ ⌜NoDup (path C)⌝.
Proof.
  revert h. induction C as [|b j r up IH|b l j up IH]; intros h; simpl; iIntros "HC".
  - iPureIntro. constructor.
  - iDestruct "HC" as "(Hj & _ & HC)". iDestruct (ctx_owns with "HC Hj") as %Hn.
    iDestruct (IH with "HC") as %Hnd. iPureIntro. by constructor.
  - iDestruct "HC" as "(Hj & _ & HC)". iDestruct (ctx_owns with "HC Hj") as %Hn.
    iDestruct (IH with "HC") as %Hnd. iPureIntro. by constructor.
Qed.

Lemma path_mapped C h s : SI s -∗ is_ctx C h -∗ ⌜∀ k, k ∈ path C → k ∈ dom (rb_nodes s)⌝.
Proof.
  revert h. induction C as [|b j r up IH|b l j up IH]; intros h; simpl; iIntros "HS HC".
  - iPureIntro. by intros k ?%not_elem_of_nil.
  - iDestruct "HC" as "(Hj & _ & HC)". iDestruct (ghost_map_lookup with "[HS] Hj") as %Hj; [by iDestruct "HS" as "[$ _]"|].
    iDestruct (IH with "HS HC") as %Hn. iPureIntro.
    intros k [->|?]%elem_of_cons; [by eapply elem_of_dom_2|auto].
  - iDestruct "HC" as "(Hj & _ & HC)". iDestruct (ghost_map_lookup with "[HS] Hj") as %Hj; [by iDestruct "HS" as "[$ _]"|].
    iDestruct (IH with "HS HC") as %Hn. iPureIntro.
    intros k [->|?]%elem_of_cons; [by eapply elem_of_dom_2|auto].
Qed.

Lemma hwp_fuel C h Φ :
  is_ctx C h -∗ (∀ fuel, ⌜depth C < fuel⌝ -∗ is_ctx C h -∗ Φ fuel) -∗ hwp tree_fuel Φ.
Proof.
  iIntros "HC H" (s) "HS". iDestruct (path_nodup with "HC") as %Hnd.
  iDestruct (path_mapped with "HS HC") as %Hin. iModIntro. iExists _, s. iSplit; [done|]. iFrame "HS".
  iApply ("H" with "[] HC"). iPureIntro. rewrite -path_length -size_dom.
  rewrite -(size_list_to_set (C := gset N)) //.
  assert (Hs : list_to_set (path C) ⊆ dom (rb_nodes s)).
  { intros k. rewrite elem_of_list_to_set. apply Hin. }
  apply subseteq_size in Hs. lia.
Qed.

(** ** What a tree owns *)

Definition owns (ks : list N) : iProp Σ := [∗ list] k ∈ ks, ∃ n, k ↦ n.

Lemma tree_owns p t : is_tree p t -∗ owns (elems t).
Proof.
  revert p. induction t as [|b l IHl k r IHr]; intros p; simpl; [rewrite /owns; iIntros "_"; done|].
  iIntros "(Hk & Hl & Hr)". rewrite /owns big_sepL_app big_sepL_cons.
  iDestruct (IHl with "Hl") as "Hl". iDestruct (IHr with "Hr") as "Hr". iFrame.
Qed.

Lemma owns_nodup ks : owns ks -∗ ⌜NoDup ks⌝.
Proof.
  induction ks as [|k ks IH]; simpl; iIntros "H"; [iPureIntro; constructor|].
  iDestruct "H" as "[(%n & Hk) H]". iAssert (⌜k ∉ ks⌝)%I as %Hn.
  { iIntros (Hin). iDestruct (big_sepL_elem_of with "H") as (n') "Hk'"; [done|].
    by iDestruct (ghost_map_elem_ne with "Hk Hk'") as %?. }
  iDestruct (IH with "H") as %Hnd. iPureIntro. by constructor.
Qed.

Lemma owns_mapped s ks : SI s -∗ owns ks -∗ ⌜∀ k, k ∈ ks → k ∈ dom (rb_nodes s)⌝.
Proof.
  iIntros "[HS _] H" (k Hk). iDestruct (big_sepL_elem_of with "H") as (n) "Hk"; [done|].
  iDestruct (ghost_map_lookup with "HS Hk") as %Hn. iPureIntro. by eapply elem_of_dom_2.
Qed.

Lemma height_elems t : height t ≤ length (elems t).
Proof. induction t; simpl; [lia|]. rewrite length_app. simpl. lia. Qed.

Lemma hwp_fuel_tree p t Φ :
  is_tree p t -∗ (∀ fuel, ⌜height t < fuel⌝ -∗ is_tree p t -∗ Φ fuel) -∗ hwp tree_fuel Φ.
Proof.
  iIntros "Ht H" (s) "HS". iAssert (⌜height t < S (size (rb_nodes s))⌝)%I as %Hf.
  { iDestruct (tree_owns with "Ht") as "Ho". iDestruct (owns_nodup with "Ho") as %Hnd.
    iDestruct (owns_mapped with "HS Ho") as %Hin. iPureIntro. pose proof (height_elems t) as Hh.
    rewrite -(size_list_to_set (C := gset N)) // in Hh.
    assert (Hs : list_to_set (elems t) ⊆ dom (rb_nodes s)).
    { intros k. rewrite elem_of_list_to_set. apply Hin. }
    apply subseteq_size in Hs. rewrite -size_dom. lia. }
  iModIntro. iExists _, s. iSplit; [done|]. iFrame "HS". by iApply "H".
Qed.

(** The ends of a tree. *)
Lemma hwp_leftmost t fuel p k Φ :
  root_of t = Some k → height t ≤ fuel →
  is_tree p t -∗ (∀ j, ⌜head (elems t) = Some j⌝ -∗ is_tree p t -∗ Φ j) -∗ hwp (leftmost fuel k) Φ.
Proof.
  revert fuel p k Φ. induction t as [|b l IH j r _]; intros fuel p k Φ Hk Hf; simplify_eq/=.
  destruct fuel as [|fuel]; [lia|]. iIntros "(Hk & Hl & Hr) H". cbn [leftmost].
  iApply hwp_bind. iApply (hwp_get with "Hk"). iIntros "Hk". simpl.
  destruct l as [|lb ll lk lr]; simpl.
  - iApply hwp_ret. iApply "H"; [done|]. iFrame.
  - iApply (IH with "Hl"); [done|simpl in *; lia|]. iIntros (j Hj) "Hl". iApply "H"; [|iFrame].
    iPureIntro. simpl in *. by destruct (elems ll).
Qed.

Lemma hwp_rightmost t fuel p k Φ :
  root_of t = Some k → height t ≤ fuel →
  is_tree p t -∗ (∀ j, ⌜last (elems t) = Some j⌝ -∗ is_tree p t -∗ Φ j) -∗ hwp (rightmost fuel k) Φ.
Proof.
  revert fuel p k Φ. induction t as [|b l _ j r IH]; intros fuel p k Φ Hk Hf; simplify_eq/=.
  destruct fuel as [|fuel]; [lia|]. iIntros "(Hk & Hl & Hr) H". cbn [rightmost].
  iApply hwp_bind. iApply (hwp_get with "Hk"). iIntros "Hk". simpl.
  destruct r as [|rb rl rk rr]; simpl.
  - iApply hwp_ret. iApply "H"; [|iFrame]. iPureIntro. by rewrite last_snoc.
  - iApply (IH with "Hr"); [done|simpl in *; lia|]. iIntros (j Hj) "Hr". iApply "H"; [|iFrame].
    iPureIntro. by rewrite last_app last_cons Hj.
Qed.

End Heap.

(** Symbolic execution of one step. *)
Ltac hget H := iApply hwp_bind; iApply (hwp_get with H); iIntros H; simpl.
Ltac hupd H := iApply hwp_bind; iApply (hwp_upd with H); iIntros H; simpl.
Ltac hlift := iApply hwp_bind; iApply hwp_lift.
