(* ===== verification/RBPure.v ===== *)
(** * Rebalancing, as functions on trees

    What [rb_insert_color] and [__rb_erase_color] do, as functions on a tree and its
    surroundings, with the red-black invariant: no red node has a red child and all
    paths down have the same number of black nodes. *)

From S2P Require Import Prelude RBTree RBHeap.

(** ** The invariant *)

(** [ok n t]: a red-black tree of black height [n]. *)
Inductive ok : nat → tree → Prop :=
  | ok_E : ok 0 E
  | ok_red n l k r : ok n l → ok n r → is_black l = true → is_black r = true → ok n (T false l k r)
  | ok_black n l k r : ok n l → ok n r → ok (S n) (T true l k r).

(** The hole may hold a red tree: its parent is black. *)
Definition takes_red (C : ctx) : bool := match C with CL true _ _ _ | CR true _ _ _ => true | _ => false end.

(** [cok n C]: a hole for a tree of black height [n]. *)
Fixpoint cok (n : nat) (C : ctx) : Prop :=
  match C with
  | Top => True
  | CL true _ t up | CR true t _ up => ok n t ∧ cok (S n) up
  | CL false _ t up | CR false t _ up => ok n t ∧ is_black t = true ∧ takes_red up = true ∧ cok n up
  end.

(** A whole tree: its root is black. *)
Definition rb_ok (t : tree) : Prop := is_black t = true ∧ ∃ n, ok n t.

Definition blacken (t : tree) : tree := match t with E => E | T _ l k r => T true l k r end.

Lemma ok_blacken n t : ok n t → ∃ m, ok m (blacken t).
Proof. destruct 1; eexists; by constructor. Qed.

Lemma is_black_blacken t : is_black (blacken t) = true.
Proof. by destruct t. Qed.

Lemma elems_blacken t : elems (blacken t) = elems t.
Proof. by destruct t. Qed.

(** A tree of the right height and colour in its hole is a red-black tree. *)
Lemma plug_ok n C t :
  cok n C → ok n t → is_black t = true ∨ takes_red C = true → rb_ok (plug C t) ∨ C = Top.
Proof.
  revert n t. induction C as [|b k r up IH|b l k up IH]; intros n t HC Ht Hcol; [by right| |]; left.
  - destruct b; simpl in *.
    + destruct HC as [Hr Hup]. assert (Hk : ok (S n) (T true t k r)) by (by constructor).
      destruct (IH _ _ Hup Hk) as [?| ->]; [by left|done|]. simpl. split; [done|]. eauto.
    + destruct HC as (Hr & Hbr & Hred & Hup), Hcol as [Hcol|?]; [|done].
      destruct (IH n (T false t k r) Hup) as [?| ->]; [by constructor|by right|done|done].
  - destruct b; simpl in *.
    + destruct HC as [Hr Hup]. assert (Hk : ok (S n) (T true l k t)) by (by constructor).
      destruct (IH _ _ Hup Hk) as [?| ->]; [by left|done|]. simpl. split; [done|]. eauto.
    + destruct HC as (Hr & Hbr & Hred & Hup), Hcol as [Hcol|?]; [|done].
      destruct (IH n (T false l k t) Hup) as [?| ->]; [by constructor|by right|done|done].
Qed.

(** Taking a red-black tree apart. *)
Lemma plug_inv C t :
  rb_ok (plug C t) → ∃ n, cok n C ∧ ok n t ∧ (is_black t = true ∨ takes_red C = true).
Proof.
  revert t. induction C as [|b k r up IH|b l k up IH]; intros t; simpl.
  - intros [Hb [n Hn]]. eauto.
  - intros (n & Hup & Hok & Hcol)%IH. destruct b; inversion Hok; subst; simpl in *.
    + eexists. split_and!; [done|done|done|by right].
    + destruct Hcol as [?|?]; [done|]. exists n. split_and!; try done. by left.
  - intros (n & Hup & Hok & Hcol)%IH. destruct b; inversion Hok; subst; simpl in *.
    + eexists. split_and!; [done|done|done|by right].
    + destruct Hcol as [?|?]; [done|]. exists n. split_and!; try done. by left.
Qed.

Lemma plug_whole C t n :
  cok n C → ok n t → is_black t = true ∨ takes_red C = true → rb_ok (blacken (plug C t)).
Proof.
  intros HC Ht Hcol. destruct (plug_ok n C t HC Ht Hcol) as [[Hb [m Hm]]| ->].
  - split; [apply is_black_blacken|]. by eapply ok_blacken.
  - split; [apply is_black_blacken|]. by eapply ok_blacken.
Qed.

(** Equality of concatenations. *)
Ltac flat := repeat (progress (rewrite <- ?app_assoc; simpl)); done.

(** ** Insertion *)

(** The loop of [rb_insert_color] from the red subtree [t]: where it stops. *)
Fixpoint ins_fix (t : tree) (C : ctx) : tree * ctx :=
  match C with
  | CL false p pr (CL gb g u up) =>
      if is_black u then (T true t p (T false pr g u), up)
      else ins_fix (T false (T true t p pr) g (blacken u)) up
  | CR false pl p (CL gb g u up) =>
      if is_black u then
        match t with
        | T _ a n b => (T true (T false pl p a) n (T false b g u), up)
        | E => (t, C)
        end
      else ins_fix (T false (T true pl p t) g (blacken u)) up
  | CR false pl p (CR gb u g up) =>
      if is_black u then (T true (T false u g pl) p t, up)
      else ins_fix (T false (blacken u) g (T true pl p t)) up
  | CL false p pr (CR gb u g up) =>
      if is_black u then
        match t with
        | T _ a n b => (T true (T false u g a) n (T false b p pr), up)
        | E => (t, C)
        end
      else ins_fix (T false (blacken u) g (T true t p pr)) up
  | _ => (t, C)
  end.

Definition red (t : tree) : Prop := is_black t = false.

Lemma red_inv t : red t → ∃ l k r, t = T false l k r.
Proof. destruct t as [|[] l k r]; [done|done|eauto]. Qed.

Lemma ok_red_inv n l k r : ok n (T false l k r) → ok n l ∧ ok n r ∧ is_black l = true ∧ is_black r = true.
Proof. by inversion 1. Qed.

Lemma ok_blacken_red n t : ok n t → is_black t = false → ok (S n) (blacken t).
Proof. destruct 1; [done| |done]. intros _. by constructor. Qed.

Lemma ins_fix_ok C n t t' C' :
  red t → ok n t → cok n C → ins_fix t C = (t', C') →
  ∃ m, ok m t' ∧ cok m C' ∧ (is_black t' = true ∨ takes_red C' = true ∨ C' = Top).
Proof.
  remember (depth C) as d eqn:Hd. revert C Hd n t t' C'.
  induction d as [d IH] using lt_wf_ind. intros C -> n t t' C' Hred Hok HC.
  pose proof Hred as (tl & tk & tr & ->)%red_inv. apply ok_red_inv in Hok as Hk. destruct Hk as (? & ? & ? & ?).
  destruct C as [|[] p pr [|gb g u up|gb u g up]|[] pl p [|gb g u up|gb u g up]]; simpl in *; destruct_and?; try done;
    try (intros [= <- <-]; exists n; split_and!; try done; by auto).
  all: destruct gb; [|done]; simpl in *; destruct_and?.
  all: destruct (is_black u) eqn:Eu.
  all: try (intros [= <- <-]; exists (S n); split_and!; [by repeat constructor|done|by left]).
  all: intros Hrec; eapply (IH (depth up)) in Hrec; [exact Hrec|lia|done|done| |done].
  all: constructor; [..|by rewrite ?is_black_blacken|by rewrite ?is_black_blacken];
    try (by apply ok_blacken_red); by repeat constructor.
Qed.

Lemma ins_fix_elems C t t' C' :
  ins_fix t C = (t', C') → elems (plug C' t') = elems (plug C t).
Proof.
  remember (depth C) as d eqn:Hd. revert C Hd t t' C'.
  induction d as [d IH] using lt_wf_ind. intros C -> t t' C'.
  destruct C as [|[] p pr [|gb g u up|gb u g up]|[] pl p [|gb g u up|gb u g up]]; simpl in *;
    try (by intros [= <- <-]).
  all: destruct (is_black u) eqn:Eu.
  all: try (intros Hrec; eapply (IH (depth up)) in Hrec; [|lia|done]; rewrite Hrec, !elems_plug; simpl;
    rewrite ?elems_blacken; flat).
  all: try (destruct t as [|tb a n b]; [by intros [= <- <-]|]).
  all: intros [= <- <-]; rewrite !elems_plug; simpl; flat.
Qed.

(** ** Removal *)

(** A turn below the black sibling with the children [ol] and [or]: [t] is one black
    node short. *)
Definition turn_left (t : tree) (pb : bool) (p : N) (ol : tree) (o : N) (or : tree) (up : ctx)
    (next : tree → tree) : tree :=
  if is_black ol && is_black or then
    if pb then next (T true t p (T false ol o or)) else plug up (T true t p (T false ol o or))
  else if is_black or then
    match ol with
    | T _ a x b => blacken (plug up (T pb (T true t p a) x (T true b o or)))
    | E => plug up (T pb t p (T true ol o or))
    end
  else blacken (plug up (T pb (T true t p ol) o (blacken or))).

Definition turn_right (t : tree) (pb : bool) (p : N) (ol : tree) (o : N) (or : tree) (up : ctx)
    (next : tree → tree) : tree :=
  if is_black ol && is_black or then
    if pb then next (T true (T false ol o or) p t) else plug up (T true (T false ol o or) p t)
  else if is_black ol then
    match or with
    | T _ a x b => blacken (plug up (T pb (T true ol o a) x (T true b p t)))
    | E => plug up (T pb (T true ol o or) p t)
    end
  else blacken (plug up (T pb (blacken ol) o (T true or p t))).

(** [__rb_erase_color] from the subtree [t]. *)
Fixpoint del_fix (t : tree) (C : ctx) : tree :=
  if negb (is_black t) then plug C (blacken t)
  else
    match C with
    | Top => t
    | CL pb p (T true ol o or) up => turn_left t pb p ol o or up (λ t', del_fix t' up)
    | CL pb p (T false (T true ol o or) s sr) up =>
        turn_left t false p ol o or (CL true s sr up) (plug (CL true s sr up))
    | CR pb (T true ol o or) p up => turn_right t pb p ol o or up (λ t', del_fix t' up)
    | CR pb (T false sl s (T true ol o or)) p up =>
        turn_right t false p ol o or (CR true sl s up) (plug (CR true sl s up))
    | _ => plug C t
    end.

(** The shape of a sibling of a short subtree. *)
Lemma sibling n o :
  ok (S n) o → (∃ l k r, o = T true l k r ∧ ok n l ∧ ok n r) ∨
  (∃ l k r, o = T false l k r ∧ ok (S n) l ∧ ok (S n) r ∧ is_black l = true ∧ is_black r = true).
Proof. inversion 1; subst; [right|left]; eexists _, _, _; by split_and!. Qed.

Lemma black_sibling n o :
  ok (S n) o → is_black o = true → ∃ l k r, o = T true l k r ∧ ok n l ∧ ok n r.
Proof. intros [?|(l & k & r & -> & _)]%sibling ?; done. Qed.

Lemma red_sibling n o : ok n o → is_black o = false → ∃ l k r, o = T false l k r ∧ ok n l ∧ ok n r ∧
  is_black l = true ∧ is_black r = true.
Proof. destruct 1; try done. intros _. eexists _, _, _. by split_and!. Qed.

Lemma turn_left_ok n t pb p ol o or up next :
  ok n t → is_black t = true → ok n ol → ok n or → cok (S n) (CL pb p (T true ol o or) up) →
  (pb = true → ∀ t', ok (S n) t' → is_black t' = true → cok (S (S n)) up → rb_ok (next t')) →
  rb_ok (turn_left t pb p ol o or up next).
Proof.
  intros Ht Hb Hol Hor HC Hnext. unfold turn_left.
  assert (Hup : cok (if pb then S (S n) else S n) up ∧ (pb = false → takes_red up = true)).
  { destruct pb; simpl in HC; destruct_and?; by split. }
  destruct Hup as [Hup Hred]. destruct (is_black ol && is_black or) eqn:E1.
  { apply andb_true_iff in E1 as [? ?]. destruct pb.
    - apply Hnext; [done|by repeat constructor|done|done].
    - destruct (plug_ok (S n) up (T true t p (T false ol o or)) Hup) as [?| ->]; [by repeat constructor|by left|done|].
      by specialize (Hred eq_refl). }
  assert (Hfin : ∀ x, ok (if pb then S (S n) else S n) x → is_black x = pb → rb_ok (blacken (plug up x))).
  { intros x Hx Hbx. destruct pb; [by eapply plug_whole; [..|left]|eapply plug_whole; [done|done|right; auto]]. }
  destruct (is_black or) eqn:E2.
  - apply andb_false_iff in E1 as [E1|]; [|done].
    destruct (red_sibling _ _ Hol E1) as (a & x & b & -> & ? & ? & ? & ?). apply Hfin; [|by destruct pb].
    destruct pb; by repeat constructor.
  - apply Hfin; [|by destruct pb]. pose proof (ok_blacken_red _ _ Hor E2).
    destruct pb; [by repeat constructor|]. constructor; [by constructor|done|done|apply is_black_blacken].
Qed.

Lemma turn_right_ok n t pb p ol o or up next :
  ok n t → is_black t = true → ok n ol → ok n or → cok (S n) (CR pb (T true ol o or) p up) →
  (pb = true → ∀ t', ok (S n) t' → is_black t' = true → cok (S (S n)) up → rb_ok (next t')) →
  rb_ok (turn_right t pb p ol o or up next).
Proof.
  intros Ht Hb Hol Hor HC Hnext. unfold turn_right.
  assert (Hup : cok (if pb then S (S n) else S n) up ∧ (pb = false → takes_red up = true)).
  { destruct pb; simpl in HC; destruct_and?; by split. }
  destruct Hup as [Hup Hred]. destruct (is_black ol && is_black or) eqn:E1.
  { apply andb_true_iff in E1 as [? ?]. destruct pb.
    - apply Hnext; [done|by repeat constructor|done|done].
    - destruct (plug_ok (S n) up (T true (T false ol o or) p t) Hup) as [?| ->]; [by repeat constructor|by left|done|].
      by specialize (Hred eq_refl). }
  assert (Hfin : ∀ x, ok (if pb then S (S n) else S n) x → is_black x = pb → rb_ok (blacken (plug up x))).
  { intros x Hx Hbx. destruct pb; [by eapply plug_whole; [..|left]|eapply plug_whole; [done|done|right; auto]]. }
  destruct (is_black ol) eqn:E2.
  - apply andb_false_iff in E1 as [|E1]; [done|].
    destruct (red_sibling _ _ Hor E1) as (a & x & b & -> & ? & ? & ? & ?). apply Hfin; [|by destruct pb].
    destruct pb; by repeat constructor.
  - apply Hfin; [|by destruct pb]. pose proof (ok_blacken_red _ _ Hol E2).
    destruct pb; [by repeat constructor|]. constructor; [done|by constructor|apply is_black_blacken|done].
Qed.

Lemma del_fix_ok n C t : ok n t → cok (S n) C → rb_ok (del_fix t C).
Proof.
  revert n t. induction C as [|pb p o up IH|pb o p up IH]; intros n t Ht HC; cbn [del_fix].
  - destruct (is_black t) eqn:Eb; cbn [negb plug]; [split; eauto|].
    split; [apply is_black_blacken|by eapply ok_blacken].
  - destruct (is_black t) eqn:Eb; cbn [negb].
    2: { destruct (plug_ok (S n) (CL pb p o up) (blacken t)) as [?|?]; try done;
         [by apply ok_blacken_red|left; apply is_black_blacken]. }
    assert (Ho : ok (S n) o) by (destruct pb; apply HC).
    destruct (sibling n o Ho) as [(l & k & r & -> & Hl & Hr)|(l & k & r & -> & Hl & Hr & Hbl & Hbr)].
    + eapply (turn_left_ok n); try done. intros -> t' Ht' Hbt' Hup. by eapply IH.
    + destruct (black_sibling n l Hl Hbl) as (ol & o & or & -> & Hol & Hor).
      destruct pb; simpl in HC; destruct_and?; try done.
      eapply (turn_left_ok n); try done.
  - destruct (is_black t) eqn:Eb; cbn [negb].
    2: { destruct (plug_ok (S n) (CR pb o p up) (blacken t)) as [?|?]; try done;
         [by apply ok_blacken_red|left; apply is_black_blacken]. }
    assert (Ho : ok (S n) o) by (destruct pb; apply HC).
    destruct (sibling n o Ho) as [(l & k & r & -> & Hl & Hr)|(l & k & r & -> & Hl & Hr & Hbl & Hbr)].
    + eapply (turn_right_ok n); try done. intros -> t' Ht' Hbt' Hup. by eapply IH.
    + destruct (black_sibling n r Hr Hbr) as (ol & o & or & -> & Hol & Hor).
      destruct pb; simpl in HC; destruct_and?; try done.
      eapply (turn_right_ok n); try done.
Qed.

Lemma turn_left_elems t pb p ol o or up next :
  (∀ t', elems (next t') = elems (plug up t')) →
  elems (turn_left t pb p ol o or up next) = elems (plug up (T pb t p (T true ol o or))).
Proof.
  intros Hn. unfold turn_left. destruct (is_black ol && is_black or).
  { destruct pb; [rewrite Hn|]; by rewrite !elems_plug. }
  destruct (is_black or); [destruct ol as [|? a x b]; [done|]|];
    rewrite elems_blacken, !elems_plug; simpl; rewrite ?elems_blacken; flat.
Qed.

Lemma turn_right_elems t pb p ol o or up next :
  (∀ t', elems (next t') = elems (plug up t')) →
  elems (turn_right t pb p ol o or up next) = elems (plug up (T pb (T true ol o or) p t)).
Proof.
  intros Hn. unfold turn_right. destruct (is_black ol && is_black or).
  { destruct pb; [rewrite Hn|]; by rewrite !elems_plug. }
  destruct (is_black ol); [destruct or as [|? a x b]; [done|]|];
    rewrite elems_blacken, !elems_plug; simpl; rewrite ?elems_blacken; flat.
Qed.

Lemma del_fix_elems C t : elems (del_fix t C) = elems (plug C t).
Proof.
  revert t. induction C as [|pb p o up IH|pb o p up IH]; intros t; cbn [del_fix].
  - destruct (is_black t); cbn [negb plug]; [done|apply elems_blacken].
  - destruct (is_black t); cbn [negb]; [|by rewrite !elems_plug, elems_blacken].
    destruct o as [|[] ol s sr]; [done|by rewrite turn_left_elems|].
    destruct ol as [|[] ol o or]; [done| |done]. rewrite turn_left_elems by done.
    rewrite !elems_plug. simpl. flat.
  - destruct (is_black t); cbn [negb]; [|by rewrite !elems_plug, elems_blacken].
    destruct o as [|[] sl s or]; [done|by rewrite turn_right_elems|].
    destruct or as [|[] ol o or]; [done| |done]. rewrite turn_right_elems by done.
    rewrite !elems_plug. simpl. flat.
Qed.

(** The tree after a node with the one subtree [t] is spliced out of its place. *)
Definition spliced (black : bool) (C : ctx) (t : tree) : tree :=
  if black then del_fix t C else plug C t.

Fixpoint ctx_app (D C : ctx) : ctx :=
  match D with
  | Top => C
  | CL b k r up => CL b k r (ctx_app up C)
  | CR b l k up => CR b l k (ctx_app up C)
  end.

(** The first node of a tree: what is above it, its colour, itself, its right subtree. *)
Fixpoint down (b : bool) (l : tree) (k : N) (r : tree) (C : ctx) : ctx * bool * N * tree :=
  match l with
  | E => (C, b, k, r)
  | T b' l' k' r' => down b' l' k' r' (CL b k r C)
  end.

(** The tree after the removal of [k]: its successor takes its place if it has two
    children. *)
Definition erased (C : ctx) (b : bool) (l : tree) (r : tree) : tree :=
  match l, r with
  | E, _ => spliced b C r
  | _, E => spliced b C l
  | _, T rb rl rk rr =>
      let '(D, cb, j, c) := down rb rl rk rr Top in spliced cb (ctx_app D (CR b l j C)) c
  end.

Lemma plug_app D C t : plug (ctx_app D C) t = plug C (plug D t).
Proof. revert t. induction D; intros; simpl; auto. Qed.

Lemma before_app D C : before (ctx_app D C) = before C ++ before D.
Proof. induction D as [|? ? ? ? IH|? ? ? ? IH]; simpl; rewrite ?app_nil_r, ?IH; flat. Qed.

Lemma after_app D C : after (ctx_app D C) = after D ++ after C.
Proof. induction D as [|? ? ? ? IH|? ? ? ? IH]; simpl; rewrite ?IH; flat. Qed.

Lemma down_ok l b k r C D cb j c :
  down b l k r C = (D, cb, j, c) →
  plug D (T cb E j c) = plug C (T b l k r) ∧ before D = before C ∧ j :: elems c ++ after D = elems l ++ k :: elems r ++ after C.
Proof.
  revert b k r C. induction l as [|b' l' IH k' r' _]; intros b k r C; simpl.
  - intros [= <- <- <- <-]. done.
  - intros (H1 & H2 & H3)%IH. split; [done|]. split; [done|]. rewrite H3. simpl. flat.
Qed.

(** The first node is the left child of the one above it, if there is one. *)
Definition left_hole (D : ctx) : Prop := match D with CR _ _ _ _ => False | _ => True end.

Lemma down_left l b k r C D cb j c : down b l k r C = (D, cb, j, c) → left_hole C → left_hole D.
Proof.
  revert b k r C. induction l as [|b' l' IH k' r' _]; intros b k r C; simpl.
  - by intros [= <- <- <- <-].
  - intros H _. by eapply IH.
Qed.

Lemma spliced_ok C b k t :
  rb_ok (plug C (T b E k t)) ∨ rb_ok (plug C (T b t k E)) → rb_ok (spliced b C t).
Proof.
  intros H. assert (∃ n, cok n C ∧ ok n (T b E k t) ∧ (b = true ∨ takes_red C = true)) as (n & HC & Hok & Hcol).
  { destruct H as [H|H]; apply plug_inv in H as (n & HC & Hok & Hcol); exists n; split_and!; try done.
    - by destruct b; auto.
    - inversion Hok; subst; by constructor.
    - by destruct b; auto. }
  destruct b; simpl.
  - inversion Hok as [| |? ? ? ? HE Ht]; subst. inversion HE; subst. by eapply del_fix_ok.
  - apply ok_red_inv in Hok as (_ & Ht & _ & Hb). destruct (plug_ok n C t) as [?| ->]; auto.
    destruct Hcol; done.
Qed.

Lemma spliced_elems C b t : elems (spliced b C t) = before C ++ elems t ++ after C.
Proof. destruct b; simpl; [rewrite del_fix_elems|]; apply elems_plug. Qed.

(** The keys play no role in the invariant. *)
Lemma rekey C b l k j r : rb_ok (plug C (T b l k r)) → rb_ok (plug C (T b l j r)).
Proof.
  intros (n & HC & Hok & Hcol)%plug_inv.
  assert (ok n (T b l j r)) by (inversion Hok; by constructor).
  destruct (plug_ok n C (T b l j r)) as [?| ->]; auto.
  split; [by destruct Hcol|]. eauto.
Qed.

Lemma erased_ok C b l k r : rb_ok (plug C (T b l k r)) → rb_ok (erased C b l r).
Proof.
  intros H. unfold erased. destruct l as [|lb ll lk lr]; [apply (spliced_ok _ _ k); by left|].
  destruct r as [|rb rl rk rr]; [apply (spliced_ok _ _ k); by right|].
  destruct (down rb rl rk rr Top) as [[[D cb] j] c] eqn:Ed. apply down_ok in Ed as (Hp & _).
  apply (spliced_ok _ _ j). left. rewrite plug_app, Hp. simpl. by eapply rekey.
Qed.

Lemma erased_elems C b l r : elems (erased C b l r) = before C ++ elems l ++ elems r ++ after C.
Proof.
  unfold erased. destruct l as [|lb ll lk lr]; [by rewrite spliced_elems|].
  destruct r as [|rb rl rk rr]; [by rewrite spliced_elems|].
  destruct (down rb rl rk rr Top) as [[[D cb] j] c] eqn:Ed. apply down_ok in Ed as (_ & Hb & Hj).
  rewrite spliced_elems, before_app, after_app, Hb. rewrite app_nil_r in Hj.
  generalize dependent (T lb ll lk lr). intros l. cbn [before after elems]. rewrite app_nil_r, <- Hj. flat.
Qed.
