(* ===== verification/RBInsert.v ===== *)
(** * Insertion into a red-black tree

    [rb_link_node] and [rb_insert_color] do in place what [ins_fix] does to trees. *)

From iris.proofmode Require Import proofmode.
From iris.base_logic.lib Require Import ghost_map.
From S2P Require Import Prelude RBTree RBHeap RBPure.

Section Insert.
Context `{!ghost_mapG Σ N rb_node, !ghost_mapG Σ unit (option N)} (γn γr : gname).

Notation "p ↦ n" := (ghost_map_elem γn p (DfracOwn 1) n) (at level 20).
Notation is_tree := (is_tree γn).
Notation is_ctx := (is_ctx γn γr).
Notation hwp := (hwp γn γr).

(** One turn at a node whose parent is black, or that has none. *)
Lemma insert_stop C b l k r fuel Φ :
  (C = Top ∨ takes_red C = true) →
  is_ctx C (Some k) -∗ is_tree (parent_of C) (T b l k r) -∗
  (is_ctx C (Some k) -∗ is_tree (parent_of C) (T b l k r) -∗ Φ tt) -∗
  hwp (insert_color_loop (S fuel) k) Φ.
Proof.
  iIntros (HC) "HC (Hk & Hl & Hr) H". cbn [insert_color_loop].
  destruct C as [|[] p pr up|[] pl p up]; simpl; try (by destruct HC).
  - hget "Hk". iApply hwp_ret. iApply ("H" with "HC"). iFrame.
  - iDestruct "HC" as "(Hp & Hpr & HC)". hget "Hk". hget "Hp". iApply hwp_ret.
    iApply ("H" with "[Hp Hpr HC]"); iFrame.
  - iDestruct "HC" as "(Hp & Hpr & HC)". hget "Hk". hget "Hp". iApply hwp_ret.
    iApply ("H" with "[Hp Hpr HC]"); iFrame.
Qed.

(** One turn below a red parent [p] and a black grandparent [g] with the uncle [u]:
    either the colours move up or the tree is rotated, in which case the next turn is
    the last. *)

Lemma insert_left_left l k r p pr g u up fuel Φ :
  is_ctx (CL false p pr (CL true g u up)) (Some k) -∗ is_tree (Some p) (T false l k r) -∗
  (if is_black u
   then is_ctx up (Some p) -∗ is_tree (parent_of up) (T true (T false l k r) p (T false pr g u)) -∗ Φ tt
   else is_ctx up (Some g) -∗ is_tree (parent_of up) (T false (T true (T false l k r) p pr) g (blacken u)) -∗
     hwp (insert_color_loop (S fuel) g) Φ) -∗
  hwp (insert_color_loop (S (S fuel)) k) Φ.
Proof.
  iIntros "(Hp & Hpr & Hg & Hu & HC) (Hk & Hl & Hr) H". set (F := S fuel). cbn [insert_color_loop].
  hget "Hk". hget "Hp". hlift. hget "Hg". rewrite decide_True //.
  iApply hwp_bind. iApply (hwp_and_red with "Hu"). iIntros "Hu".
  destruct (is_black u) eqn:Eu; cbn [negb].
  - hget "Hp". iDestruct (tree_root_ne with "Hpr Hk") as %Hne. rewrite decide_False //.
    iApply hwp_bind. iApply hwp_ret. hupd "Hp". hupd "Hg".
    iApply hwp_bind. iApply (hwp_rotate_right _ _ up false true (T false l k r) p pr g u
      with "HC [Hp Hpr Hg Hu Hk Hl Hr]"); [iFrame|]. iIntros "HC (Hp & Ht & Hg)".
    iApply (insert_stop (CL true p (T false pr g u) up) with "[Hp Hg HC] Ht"); [by right|iFrame|].
    iIntros "(Hp & Hg & HC) Ht". iApply ("H" with "HC"). iFrame.
  - apply red_inv in Eu as (ul & uk & ur & ->). hlift. iDestruct "Hu" as "(Hu & Hul & Hur)".
    hupd "Hu". hupd "Hp". hupd "Hg". iApply ("H" with "HC"). iFrame.
Qed.

Lemma insert_right_left l k r p pl g u up fuel Φ :
  is_ctx (CR false pl p (CL true g u up)) (Some k) -∗ is_tree (Some p) (T false l k r) -∗
  (if is_black u
   then is_ctx up (Some k) -∗ is_tree (parent_of up) (T true (T false pl p l) k (T false r g u)) -∗ Φ tt
   else is_ctx up (Some g) -∗ is_tree (parent_of up) (T false (T true pl p (T false l k r)) g (blacken u)) -∗
     hwp (insert_color_loop (S fuel) g) Φ) -∗
  hwp (insert_color_loop (S (S fuel)) k) Φ.
Proof.
  iIntros "(Hp & Hpl & Hg & Hu & HC) (Hk & Hl & Hr) H". set (F := S fuel). cbn [insert_color_loop].
  hget "Hk". hget "Hp". hlift. hget "Hg". rewrite decide_True //.
  iApply hwp_bind. iApply (hwp_and_red with "Hu"). iIntros "Hu".
  destruct (is_black u) eqn:Eu; cbn [negb].
  - hget "Hp". rewrite decide_True //. do 2 iApply hwp_bind.
    iApply (hwp_rotate_left _ _ (CL true g u up) false pl p false l k r
      with "[Hg Hu HC] [Hp Hpl Hk Hl Hr]"); [iFrame..|]. iIntros "(Hg & Hu & HC) (Hk & Hp & Hr)".
    iApply hwp_ret. hupd "Hk". hupd "Hg".
    iApply hwp_bind. iApply (hwp_rotate_right _ _ up false true (T false pl p l) k r g u
      with "HC [Hp Hg Hu Hk Hr]"); [iFrame|]. iIntros "HC (Hk & Hp & Hg)".
    iApply (insert_stop (CL true k (T false r g u) up) with "[Hk Hg HC] Hp"); [by right|iFrame|].
    iIntros "(Hk & Hg & HC) Ht". iApply ("H" with "HC"). iFrame.
  - apply red_inv in Eu as (ul & uk & ur & ->). hlift. iDestruct "Hu" as "(Hu & Hul & Hur)".
    hupd "Hu". hupd "Hp". hupd "Hg". iApply ("H" with "HC"). iFrame.
Qed.

Lemma insert_right_right l k r p pl g u up fuel Φ :
  is_ctx (CR false pl p (CR true u g up)) (Some k) -∗ is_tree (Some p) (T false l k r) -∗
  (if is_black u
   then is_ctx up (Some p) -∗ is_tree (parent_of up) (T true (T false u g pl) p (T false l k r)) -∗ Φ tt
   else is_ctx up (Some g) -∗ is_tree (parent_of up) (T false (blacken u) g (T true pl p (T false l k r))) -∗
     hwp (insert_color_loop (S fuel) g) Φ) -∗
  hwp (insert_color_loop (S (S fuel)) k) Φ.
Proof.
  iIntros "(Hp & Hpl & Hg & Hu & HC) (Hk & Hl & Hr) H". set (F := S fuel). cbn [insert_color_loop].
  hget "Hk". hget "Hp". hlift. hget "Hg".
  iDestruct (tree_root_ne with "Hu Hp") as %Hup. rewrite decide_False //.
  iApply hwp_bind. iApply (hwp_and_red with "Hu"). iIntros "Hu".
  destruct (is_black u) eqn:Eu; cbn [negb].
  - hget "Hp". iDestruct (tree_root_ne with "Hpl Hk") as %Hne. rewrite decide_False //.
    iApply hwp_bind. iApply hwp_ret. hupd "Hp". hupd "Hg".
    iApply hwp_bind. iApply (hwp_rotate_left _ _ up false u g true pl p (T false l k r)
      with "HC [Hp Hpl Hg Hu Hk Hl Hr]"); [iFrame|]. iIntros "HC (Hp & Hg & Ht)".
    iApply (insert_stop (CR true (T false u g pl) p up) with "[Hp Hg HC] Ht"); [by right|iFrame|].
    iIntros "(Hp & Hg & HC) Ht". iApply ("H" with "HC"). iFrame.
  - apply red_inv in Eu as (ul & uk & ur & ->). hlift. iDestruct "Hu" as "(Hu & Hul & Hur)".
    hupd "Hu". hupd "Hp". hupd "Hg". iApply ("H" with "HC"). iFrame.
Qed.

Lemma insert_left_right l k r p pr g u up fuel Φ :
  is_ctx (CL false p pr (CR true u g up)) (Some k) -∗ is_tree (Some p) (T false l k r) -∗
  (if is_black u
   then is_ctx up (Some k) -∗ is_tree (parent_of up) (T true (T false u g l) k (T false r p pr)) -∗ Φ tt
   else is_ctx up (Some g) -∗ is_tree (parent_of up) (T false (blacken u) g (T true (T false l k r) p pr)) -∗
     hwp (insert_color_loop (S fuel) g) Φ) -∗
  hwp (insert_color_loop (S (S fuel)) k) Φ.
Proof.
  iIntros "(Hp & Hpr & Hg & Hu & HC) (Hk & Hl & Hr) H". set (F := S fuel). cbn [insert_color_loop].
  hget "Hk". hget "Hp". hlift. hget "Hg".
  iDestruct (tree_root_ne with "Hu Hp") as %Hup. rewrite decide_False //.
  iApply hwp_bind. iApply (hwp_and_red with "Hu"). iIntros "Hu".
  destruct (is_black u) eqn:Eu; cbn [negb].
  - hget "Hp". rewrite decide_True //. do 2 iApply hwp_bind.
    iApply (hwp_rotate_right _ _ (CR true u g up) false false l k r p pr
      with "[Hg Hu HC] [Hp Hpr Hk Hl Hr]"); [iFrame..|]. iIntros "(Hg & Hu & HC) (Hk & Hl & Hp)".
    iApply hwp_ret. hupd "Hk". hupd "Hg".
    iApply hwp_bind. iApply (hwp_rotate_left _ _ up false u g true l k (T false r p pr)
      with "HC [Hp Hg Hu Hk Hl]"); [iFrame|]. iIntros "HC (Hk & Hg & Hp)".
    iApply (insert_stop (CR true (T false u g l) k up) with "[Hk Hg HC] Hp"); [by right|iFrame|].
    iIntros "(Hk & Hg & HC) Ht". iApply ("H" with "HC"). iFrame.
  - apply red_inv in Eu as (ul & uk & ur & ->). hlift. iDestruct "Hu" as "(Hu & Hul & Hur)".
    hupd "Hu". hupd "Hp". hupd "Hg". iApply ("H" with "HC"). iFrame.
Qed.

Definition holds_at (r : tree * ctx) : iProp Σ :=
  is_ctx r.2 (root_of r.1) ∗ is_tree (parent_of r.2) r.1.

Lemma hwp_insert_loop n fuel C l k r Φ :
  depth C < fuel → cok n C →
  is_ctx C (Some k) -∗ is_tree (parent_of C) (T false l k r) -∗
  (holds_at (ins_fix (T false l k r) C) -∗ Φ tt) -∗
  hwp (insert_color_loop fuel k) Φ.
Proof.
  revert C n l k r. induction fuel as [fuel IH] using lt_wf_ind. intros C n l k r Hf HC.
  iIntros "HC Ht H". destruct fuel as [|fuel]; [lia|].
  destruct (bool_decide (C = Top) || takes_red C) eqn:Es.
  { iApply (insert_stop with "HC Ht"); [apply orb_true_iff in Es as [?%bool_decide_eq_true|?]; auto|].
    iIntros "HC Ht". iApply "H".
    assert (ins_fix (T false l k r) C = (T false l k r, C)) as ->; [|iFrame].
    destruct C as [|[] ? ? []|[] ? ? []]; done. }
  destruct C as [|[] p pr up|[] pl p up]; try done; destruct HC as (Hpr & Hbpr & Hup & HC);
    (destruct fuel as [|fuel]; [simpl in Hf; lia|]);
    destruct up as [|[] g u up|[] u g up]; try done; destruct HC as [Hu HC]; simpl in *.
  - iApply (insert_left_left with "HC Ht"). destruct (is_black u) eqn:Eu; iIntros "HC Ht".
    + iApply "H". iFrame.
    + iApply (IH with "HC Ht H"); [lia|lia|done].
  - iApply (insert_left_right with "HC Ht"). destruct (is_black u) eqn:Eu; iIntros "HC Ht".
    + iApply "H". iFrame.
    + iApply (IH with "HC Ht H"); [lia|lia|done].
  - iApply (insert_right_left with "HC Ht"). destruct (is_black u) eqn:Eu; iIntros "HC Ht".
    + iApply "H". iFrame.
    + iApply (IH with "HC Ht H"); [lia|lia|done].
  - iApply (insert_right_right with "HC Ht"). destruct (is_black u) eqn:Eu; iIntros "HC Ht".
    + iApply "H". iFrame.
    + iApply (IH with "HC Ht H"); [lia|lia|done].
Qed.

(** A whole tree. *)
Definition whole (t : tree) : iProp Σ := is_tree None t ∗ rootptr γr (root_of t).

Lemma hwp_blacken_root t Φ :
  t ≠ E → whole t -∗ (whole (blacken t) -∗ Φ tt) -∗
  hwp (root ← get_root; root ← lift root; rb_set_black root) Φ.
Proof.
  iIntros (Hne) "[Ht Hr] H". destruct t as [|b l k r]; [done|]. simpl.
  iApply hwp_bind. iApply (hwp_get_root with "Hr"). iIntros "Hr". hlift.
  iDestruct "Ht" as "(Hk & Hl & Hr')". iApply (hwp_upd with "Hk"). iIntros "Hk". iApply "H". iFrame.
Qed.

(** The tree after the insertion of [k] at the hole. *)
Definition inserted (C : ctx) (k : N) : tree :=
  let '(t', C') := ins_fix (T false E k E) C in blacken (plug C' t').

Lemma hwp_insert_color n C k Φ :
  cok n C → is_ctx C (Some k) -∗ is_tree (parent_of C) (T false E k E) -∗
  (whole (inserted C k) -∗ Φ tt) -∗ hwp (rb_insert_color k) Φ.
Proof.
  iIntros (HC) "HC Ht H". iApply hwp_bind. iApply (hwp_fuel with "HC"). iIntros (fuel Hf) "HC".
  iApply hwp_bind. iApply (hwp_insert_loop with "HC Ht"); [done|done|]. iIntros "Hat".
  unfold inserted. destruct (ins_fix _ _) as [t' C'] eqn:Ei. unfold holds_at. simpl.
  rewrite -plug_split. iApply (hwp_blacken_root with "Hat H").
  apply ins_fix_elems in Ei. intros E'. rewrite E' elems_plug in Ei.
  simpl in Ei. by destruct (before C).
Qed.

End Insert.

Lemma inserted_ok C k : cok 0 C → rb_ok (inserted C k) ∧ elems (inserted C k) = before C ++ k :: after C.
Proof.
  intros HC. unfold inserted. destruct (ins_fix _ _) as [t' C'] eqn:Ei. split.
  - destruct (ins_fix_ok C 0 (T false E k E) t' C') as (m & Ht & HC' & Hcol); [done|by repeat constructor|done|done|].
    destruct Hcol as [Hb|[Hr|Htop]].
    + eapply plug_whole; [done|done|by left].
    + eapply plug_whole; [done|done|by right].
    + rewrite Htop /=. split; [apply is_black_blacken|by eapply ok_blacken].
  - rewrite elems_blacken. apply ins_fix_elems in Ei. by rewrite Ei elems_plug.
Qed.
