(* ===== verification/RBErase.v ===== *)
(** * Removal from a red-black tree

    [__rb_erase_color] does in place what [del_fix] does to trees; [rb_erase] takes the
    node out of the tree, or its successor after that has taken the place of the node. *)

From iris.proofmode Require Import proofmode.
From iris.base_logic.lib Require Import ghost_map.
From S2P Require Import Prelude RBTree RBHeap RBPure RBInsert.

(** The pointer at the top of the surroundings of a hole that holds [h]. *)
Fixpoint top_of (C : ctx) (h : option N) : option N :=
  match C with Top => h | CL _ k _ up | CR _ _ k up => top_of up (Some k) end.

Lemma top_of_path C k : ∃ j, top_of C (Some k) = Some j ∧ j ∈ k :: path C.
Proof.
  revert k. induction C as [|b j r up IH|b l j up IH]; intros k; simpl.
  - exists k. split; [done|]. apply list_elem_of_here.
  - destruct (IH j) as (i & Hi & Hin). exists i. split; [done|]. by right.
  - destruct (IH j) as (i & Hi & Hin). exists i. split; [done|]. by right.
Qed.

(** The end of [__rb_erase_color]. *)
Definition make_black (node : option N) : M rb_state unit :=
  match node with Some node => rb_set_black node | None => mret tt end.

Section Erase.
Context `{!ghost_mapG Σ N rb_node, !ghost_mapG Σ unit (option N)} (γn γr : gname).

Notation "p ↦ n" := (ghost_map_elem γn p (DfracOwn 1) n) (at level 20).
Notation is_tree := (is_tree γn).
Notation is_ctx := (is_ctx γn γr).
Notation hwp := (hwp γn γr).
Notation whole := (whole γn γr).

Lemma hwp_top C h Φ : is_ctx C h -∗ (is_ctx C h -∗ Φ (top_of C h)) -∗ hwp get_root Φ.
Proof.
  revert h Φ. induction C as [|b k r up IH|b l k up IH]; intros h Φ; simpl; iIntros "HC H".
  - iApply (hwp_get_root with "HC H").
  - iDestruct "HC" as "(Hk & Hr & HC)". iApply (IH with "HC"). iIntros "HC". iApply "H". iFrame.
  - iDestruct "HC" as "(Hk & Hr & HC)". iApply (IH with "HC"). iIntros "HC". iApply "H". iFrame.
Qed.

(** The node under the hole is not the root, if there is something around it. *)
Lemma not_top C t :
  C ≠ Top → is_ctx C (root_of t) -∗ is_tree (parent_of C) t -∗ ⌜root_of t ≠ top_of C (root_of t)⌝.
Proof.
  iIntros (HC) "HC Ht". iAssert (⌜∀ k, root_of t = Some k → k ∉ path C⌝)%I as %Hn.
  { iIntros (k Hk). destruct t as [|b l j r]; simplify_eq/=. iDestruct "Ht" as "(Hj & _)".
    iApply (ctx_owns with "HC Hj"). }
  iPureIntro. destruct C as [|b k r up|b l k up]; [done| |]; simpl;
    destruct (top_of_path up k) as (j & -> & Hj); intros E; by apply (Hn j E).
Qed.

Lemma hwp_make_black p t Φ :
  is_tree p t -∗ (is_tree p (blacken t) -∗ Φ tt) -∗ hwp (make_black (root_of t)) Φ.
Proof.
  destruct t as [|b l k r]; simpl; iIntros "Ht H"; [iApply hwp_ret; by iApply "H"|].
  iDestruct "Ht" as "(Hk & Ht)". iApply (hwp_upd with "Hk"). iIntros "Hk". iApply "H". iFrame.
Qed.

(** Leaving the loop with the root. *)
Lemma hwp_leave up x k Φ :
  root_of x = Some k → is_ctx up (Some k) -∗ is_tree (parent_of up) x -∗
  (whole (blacken (plug up x)) -∗ Φ tt) -∗ hwp get_root (λ q, hwp (make_black q) Φ).
Proof.
  iIntros (<-) "HC Ht H". iCombine "HC Ht" as "HW". rewrite -plug_split. iDestruct "HW" as "[Ht Hr]".
  iApply (hwp_get_root with "Hr"). iIntros "Hr". iApply (hwp_make_black with "Ht"). iIntros "Ht".
  iApply "H". iFrame. by destruct (plug up x).
Qed.

Lemma hwp_turn_left next next' t pb p ol o or up Φ :
  is_ctx up (Some p) -∗ is_tree (parent_of up) (T pb t p (T true ol o or)) -∗
  (if is_black ol && is_black or
   then is_ctx up (Some p) -∗ is_tree (parent_of up) (T pb t p (T false ol o or)) -∗
     hwp (next (Some p) (parent_of up)) (λ q, hwp (make_black q) Φ)
   else whole (turn_left t pb p ol o or up next') -∗ Φ tt) -∗
  hwp (erase_turn_left next p o) (λ q, hwp (make_black q) Φ).
Proof.
  iIntros "HC (Hp & Ht & Ho & Hol & Hor) H". unfold erase_turn_left, turn_left. hget "Ho".
  iApply hwp_bind. iApply (hwp_null_or_black with "Hol"). iIntros "Hol".
  iApply hwp_bind. iApply (hwp_null_or_black with "Hor"). iIntros "Hor".
  destruct (is_black ol && is_black or) eqn:E1.
  { hupd "Ho". hget "Hp". iApply ("H" with "HC"). iFrame. }
  iApply hwp_bind. destruct (is_black or) eqn:E2.
  - rewrite andb_true_r in E1. apply red_inv in E1 as (a & x & b & ->).
    iDestruct "Hol" as "(Hx & Ha & Hb)". cbn [root_of]. hlift. hupd "Hx". hupd "Ho".
    iApply hwp_bind. iApply (hwp_rotate_right _ _ (CR pb t p up) false true a x b o or
      with "[Hp Ht HC] [Ho Hx Ha Hb Hor]"); [iFrame..|]. iIntros "(Hp & Ht & HC) (Hx & Ha & Ho & Hb & Hor)".
    hget "Hp". iApply hwp_lift. hget "Hp". hupd "Hx". hupd "Hp". hget "Hx". hupd "Ho".
    iApply hwp_bind. iApply (hwp_rotate_left _ _ up true t p pb a x (T true b o or)
      with "HC [Hp Ht Hx Ha Ho Hb Hor]"); [iFrame|]. iIntros "HC Hx".
    by iApply (hwp_leave with "HC Hx H").
  - apply red_inv in E2 as (a & x & b & ->). iDestruct "Hor" as "(Hx & Ha & Hb)". iApply hwp_ret.
    hget "Hp". hupd "Ho". hupd "Hp". hget "Ho". hupd "Hx".
    iApply hwp_bind. iApply (hwp_rotate_left _ _ up true t p pb ol o (T true a x b)
      with "HC [Hp Ht Hx Ha Ho Hb Hol]"); [iFrame|]. iIntros "HC Hx".
    by iApply (hwp_leave with "HC Hx H").
Qed.

Lemma hwp_turn_right next next' t pb p ol o or up Φ :
  is_ctx up (Some p) -∗ is_tree (parent_of up) (T pb (T true ol o or) p t) -∗
  (if is_black ol && is_black or
   then is_ctx up (Some p) -∗ is_tree (parent_of up) (T pb (T false ol o or) p t) -∗
     hwp (next (Some p) (parent_of up)) (λ q, hwp (make_black q) Φ)
   else whole (turn_right t pb p ol o or up next') -∗ Φ tt) -∗
  hwp (erase_turn_right next p o) (λ q, hwp (make_black q) Φ).
Proof.
  iIntros "HC (Hp & (Ho & Hol & Hor) & Ht) H". unfold erase_turn_right, turn_right. hget "Ho".
  iApply hwp_bind. iApply (hwp_null_or_black with "Hol"). iIntros "Hol".
  iApply hwp_bind. iApply (hwp_null_or_black with "Hor"). iIntros "Hor".
  destruct (is_black ol && is_black or) eqn:E1.
  { hupd "Ho". hget "Hp". iApply ("H" with "HC"). iFrame. }
  iApply hwp_bind. destruct (is_black ol) eqn:E2.
  - cbn [andb] in E1. apply red_inv in E1 as (a & x & b & ->).
    iDestruct "Hor" as "(Hx & Ha & Hb)". cbn [root_of]. hlift. hupd "Hx". hupd "Ho".
    iApply hwp_bind. iApply (hwp_rotate_left _ _ (CL pb p t up) false ol o true a x b
      with "[Hp Ht HC] [Ho Hx Ha Hb Hol]"); [iFrame..|]. iIntros "(Hp & Ht & HC) (Hx & (Ho & Hol & Ha) & Hb)".
    hget "Hp". iApply hwp_lift. hget "Hp". hupd "Hx". hupd "Hp". hget "Hx". hupd "Ho".
    iApply hwp_bind. iApply (hwp_rotate_right _ _ up true pb (T true ol o a) x b p t
      with "HC [Hp Ht Hx Ha Ho Hb Hol]"); [iFrame|]. iIntros "HC Hx".
    by iApply (hwp_leave with "HC Hx H").
  - apply red_inv in E2 as (a & x & b & ->). iDestruct "Hol" as "(Hx & Ha & Hb)". iApply hwp_ret.
    hget "Hp". hupd "Ho". hupd "Hp". hget "Ho". hupd "Hx".
    iApply hwp_bind. iApply (hwp_rotate_right _ _ up true pb (T true a x b) o or p t
      with "HC [Hp Ht Hx Ha Ho Hb Hor]"); [iFrame|]. iIntros "HC Hx".
    by iApply (hwp_leave with "HC Hx H").
Qed.

(** A red node, or the root, ends the loop. *)
Lemma erase_stop fuel C t Φ :
  is_black t = false ∨ C = Top →
  is_ctx C (root_of t) -∗ is_tree (parent_of C) t -∗
  (whole (plug C (blacken t)) -∗ Φ tt) -∗
  hwp (erase_color_loop (S fuel) (root_of t) (parent_of C)) (λ q, hwp (make_black q) Φ).
Proof.
  iIntros (Hor) "HC Ht H". cbn [erase_color_loop].
  iApply hwp_bind. iApply (hwp_null_or_black with "Ht"). iIntros "Ht".
  iApply hwp_bind. iApply (hwp_top with "HC"). iIntros "HC".
  assert (negb (is_black t) || bool_decide (root_of t = top_of C (root_of t)) = true) as ->.
  { apply orb_true_iff. destruct Hor as [-> | ->]; [by left|right]. by apply bool_decide_eq_true. }
  iApply hwp_ret. iApply (hwp_make_black with "Ht"). iIntros "Ht". iApply "H".
  iApply plug_split. iFrame. by destruct t.
Qed.

(** What the loop does below [p], for both sides: the sibling is black, or is made so by
    a rotation. *)
Definition loop_ok (fuel : nat) (C : ctx) (t : tree) : Prop :=
  ∀ Φ, is_ctx C (root_of t) -∗ is_tree (parent_of C) t -∗ (whole (del_fix t C) -∗ Φ tt) -∗
    hwp (erase_color_loop fuel (root_of t) (parent_of C)) (λ q, hwp (make_black q) Φ).

(** The recursive call: one level up, or at a node that is now red. *)
Lemma next_ok fuel up t :
  (is_black t = true → loop_ok fuel up t) → fuel ≠ 0 → loop_ok fuel up t.
Proof.
  intros IH Hf Φ. destruct (is_black t) eqn:Eb; [by apply IH|]. destruct fuel; [done|].
  iIntros "HC Ht H". iApply (erase_stop with "HC Ht [H]"); [by left|].
  iIntros "HW". iApply "H". destruct up; simpl; by rewrite Eb.
Qed.

Lemma erase_loop_left fuel n pb p o up t :
  ok n t → is_black t = true → ok (S n) o → (pb = false → is_black o = true) → fuel ≠ 0 →
  (pb = true → ∀ t', ok (S n) t' → loop_ok fuel up t') → loop_ok (S fuel) (CL pb p o up) t.
Proof.
  intros Ht Eb Ho Hpb Hf IH Φ. iIntros "HC Ht H". iDestruct (not_top with "HC Ht") as %Htop; [done|].
  cbn [erase_color_loop]. iApply hwp_bind. iApply (hwp_null_or_black with "Ht"). iIntros "Ht".
  iApply hwp_bind. iApply (hwp_top with "HC"). iIntros "HC". rewrite Eb bool_decide_false //. cbn [negb orb].
  iDestruct "HC" as "(Hp & Ho & HC)". cbn [parent_of]. hlift. hget "Hp". rewrite decide_True //.
  destruct (sibling n o Ho) as [(l & k & r & -> & Hl & Hr)|(l & k & r & -> & Hl & Hr & Hbl & Hbr)]; simpl.
  - iDestruct "Ho" as "(Hk & Hl & Hr)". hget "Hk". iApply hwp_bind. iApply hwp_ret.
    iApply (hwp_turn_left _ (λ t', del_fix t' up) t pb p l k r up with "HC [Hp Ht Hk Hl Hr]"); [iFrame|].
    rewrite Eb /=. destruct (is_black l && is_black r) eqn:E2; [|done].
    iIntros "HC Ht". iApply (next_ok fuel up (T pb t p (T false l k r)) with "HC Ht"); [|done|].
    { destruct pb; [|done]. intros _. apply IH; [done|]. apply andb_true_iff in E2 as [? ?]. by repeat constructor. }
    iIntros "HW". iApply "H". unfold turn_left. rewrite E2. destruct pb; [done|]. by destruct up.
  - destruct (black_sibling n l Hl Hbl) as (ol & o & or & -> & Hol & Hor). iDestruct "Ho" as "(Hk & Hl & Hr)".
    hget "Hk". destruct pb; [|by specialize (Hpb eq_refl)]. iApply hwp_bind. hupd "Hk". hupd "Hp". iApply hwp_bind.
    iApply (hwp_rotate_left _ _ up false t p true (T true ol o or) k r with "HC [Hp Ht Hk Hl Hr]"); [iFrame|].
    iIntros "HC (Hk & Ht & Hr)". iDestruct "Ht" as "(Hp & Ht)". hget "Hp". iApply hwp_lift.
    iApply (hwp_turn_left _ (plug (CL true k r up)) t false p ol o or (CL true k r up) with "[HC Hk Hr] [Hp Ht]"); [iFrame..|].
    rewrite Eb /=. destruct (is_black ol && is_black or) eqn:E2; [|done].
    iIntros "HC Ht". iApply (next_ok fuel (CL true k r up) (T false t p (T false ol o or)) with "HC Ht"); [done|done|].
    iIntros "HW". iApply "H". unfold turn_left. by rewrite E2.
Qed.

Lemma erase_loop_right fuel n pb p o up t :
  ok n t → is_black t = true → ok (S n) o → (pb = false → is_black o = true) → fuel ≠ 0 →
  (pb = true → ∀ t', ok (S n) t' → loop_ok fuel up t') → loop_ok (S fuel) (CR pb o p up) t.
Proof.
  intros Ht Eb Ho Hpb Hf IH Φ. iIntros "HC Ht H". iDestruct (not_top with "HC Ht") as %Htop; [done|].
  cbn [erase_color_loop]. iApply hwp_bind. iApply (hwp_null_or_black with "Ht"). iIntros "Ht".
  iApply hwp_bind. iApply (hwp_top with "HC"). iIntros "HC". rewrite Eb bool_decide_false //. cbn [negb orb].
  iDestruct "HC" as "(Hp & Ho & HC)". cbn [parent_of]. hlift. hget "Hp".
  iAssert (⌜root_of o ≠ root_of t⌝)%I as %Hne.
  { destruct (root_of t) as [k|] eqn:Et; [|iPureIntro; by inversion Ho].
    destruct t as [|? ? j ?]; simplify_eq/=. iDestruct "Ht" as "(Hk & _)". iApply (tree_root_ne with "Ho Hk"). }
  rewrite decide_False //.
  destruct (sibling n o Ho) as [(l & k & r & -> & Hl & Hr)|(l & k & r & -> & Hl & Hr & Hbl & Hbr)]; simpl; hlift.
  - iDestruct "Ho" as "(Hk & Hl & Hr)". hget "Hk". iApply hwp_bind. iApply hwp_ret.
    iApply (hwp_turn_right _ (λ t', del_fix t' up) t pb p l k r up with "HC [Hp Ht Hk Hl Hr]"); [iFrame|].
    rewrite Eb /=. destruct (is_black l && is_black r) eqn:E2; [|done].
    iIntros "HC Ht". iApply (next_ok fuel up (T pb (T false l k r) p t) with "HC Ht"); [|done|].
    { destruct pb; [|done]. intros _. apply IH; [done|]. apply andb_true_iff in E2 as [? ?]. by repeat constructor. }
    iIntros "HW". iApply "H". unfold turn_right. rewrite E2. destruct pb; [done|]. by destruct up.
  - destruct (black_sibling n r Hr Hbr) as (ol & o & or & -> & Hol & Hor). iDestruct "Ho" as "(Hk & Hl & Hr)".
    hget "Hk". destruct pb; [|by specialize (Hpb eq_refl)]. iApply hwp_bind. hupd "Hk". hupd "Hp". iApply hwp_bind.
    iApply (hwp_rotate_right _ _ up false true l k (T true ol o or) p t with "HC [Hp Ht Hk Hl Hr]"); [iFrame|].
    iIntros "HC (Hk & Hl & Hp & Hr & Ht)". hget "Hp". iApply hwp_lift.
    iApply (hwp_turn_right _ (plug (CR true l k up)) t false p ol o or (CR true l k up) with "[HC Hk Hl] [Hp Ht Hr]"); [iFrame..|].
    rewrite Eb /=. destruct (is_black ol && is_black or) eqn:E2; [|done].
    iIntros "HC Ht". iApply (next_ok fuel (CR true l k up) (T false (T false ol o or) p t) with "HC Ht"); [done|done|].
    iIntros "HW". iApply "H". unfold turn_right. by rewrite E2.
Qed.

Lemma hwp_erase_loop C n fuel t : depth C < fuel → ok n t → cok (S n) C → loop_ok fuel C t.
Proof.
  revert n fuel t. induction C as [|pb p o up IH|pb o p up IH]; intros n fuel t Hf Ht HC;
    (destruct fuel as [|fuel]; [lia|]).
  - intros Φ. iIntros "HC Ht H". iApply (erase_stop with "HC Ht [H]"); [by right|]. simpl.
    iIntros "HW". iApply "H". by destruct t as [|[] ? ? ?].
  - simpl in Hf. destruct (is_black t) eqn:Eb; [|apply next_ok; [by rewrite Eb|done]].
    apply (erase_loop_left fuel n); try done; [by destruct pb; apply HC|by intros ->; apply HC|lia|].
    intros -> t' Ht'. apply (IH (S n)); [lia|done|]. apply HC.
  - simpl in Hf. destruct (is_black t) eqn:Eb; [|apply next_ok; [by rewrite Eb|done]].
    apply (erase_loop_right fuel n); try done; [by destruct pb; apply HC|by intros ->; apply HC|lia|].
    intros -> t' Ht'. apply (IH (S n)); [lia|done|]. apply HC.
Qed.

Lemma hwp_erase_color n C t Φ :
  ok n t → cok (S n) C → is_ctx C (root_of t) -∗ is_tree (parent_of C) t -∗
  (whole (del_fix t C) -∗ Φ tt) -∗ hwp (__rb_erase_color (root_of t) (parent_of C)) Φ.
Proof.
  iIntros (Ht HC) "HC Ht H". iApply hwp_bind. iApply (hwp_fuel with "HC"). iIntros (fuel Hf) "HC".
  iApply hwp_bind. by iApply (hwp_erase_loop _ _ _ _ Hf Ht HC with "HC Ht").
Qed.

(** The hole after a node of colour [b] with the one subtree [t] is taken out of it. *)
Lemma hwp_recolor C b j t Φ :
  rb_ok (plug C (T b E j t)) ∨ rb_ok (plug C (T b t j E)) →
  is_ctx C (root_of t) -∗ is_tree (parent_of C) t -∗ (whole (spliced b C t) -∗ Φ tt) -∗
  hwp (if b then __rb_erase_color (root_of t) (parent_of C) else mret tt) Φ.
Proof.
  iIntros (Hok) "HC Ht H". destruct b; simpl.
  - assert (ok 0 t ∧ cok 1 C) as [Ht HC].
    { destruct Hok as [(n & HC & Hn & _)%plug_inv|(n & HC & Hn & _)%plug_inv];
        inversion Hn as [| |? ? ? ? H1 H2]; subst; inversion H1; inversion H2; subst; by repeat constructor. }
    by iApply (hwp_erase_color with "HC Ht").
  - iApply hwp_ret. iApply "H". iApply plug_split. iFrame.
Qed.

Lemma hwp_splice C b k t n Φ :
  rb_ok (plug C (T b E k t)) ∨ rb_ok (plug C (T b t k E)) →
  rb_parent n = parent_of C → rb_black n = b →
  is_ctx C (Some k) -∗ k ↦ n -∗ is_tree (Some k) t -∗
  (k ↦ n -∗ whole (spliced b C t) -∗ Φ tt) -∗ hwp (splice k (root_of t)) Φ.
Proof.
  iIntros (Hok Hp Hb) "HC Hk Ht H". unfold splice. hget "Hk". rewrite Hp Hb.
  iApply hwp_bind. iApply (hwp_reparent _ _ _ (parent_of C) with "Ht"). iIntros "Ht".
  iApply hwp_bind. iApply (hwp_relink with "Hk HC"). iIntros "Hk HC".
  iApply (hwp_recolor C b k t with "HC Ht"); [done|]. by iApply "H".
Qed.

(** Part of the surroundings of a hole: [q] is the parent of its topmost node. *)
Fixpoint is_part (D : ctx) (q h : option N) : iProp Σ :=
  match D with
  | Top => emp
  | CL b k r up => k ↦ RbNode (from_option Some q (parent_of up)) b (root_of r) h ∗ is_tree (Some k) r ∗ is_part up q (Some k)
  | CR b l k up => k ↦ RbNode (from_option Some q (parent_of up)) b h (root_of l) ∗ is_tree (Some k) l ∗ is_part up q (Some k)
  end.

Lemma ctx_split D C h : is_ctx (ctx_app D C) h ⊣⊢ is_part D (parent_of C) h ∗ is_ctx C (top_of D h).
Proof.
  assert (Hp : ∀ up, parent_of (ctx_app up C) = from_option Some (parent_of C) (parent_of up)).
  { intros []; done. }
  revert h. induction D as [|b k r up IH|b l k up IH]; intros h; simpl; [by rewrite left_id| |];
    rewrite IH Hp; iSplit; [iIntros "($ & $ & $ & $)"|iIntros "(($ & $ & $) & $)"|iIntros "($ & $ & $ & $)"|iIntros "(($ & $ & $) & $)"].
Qed.

(** Another parent for the topmost node. *)
Lemma hwp_part_parent D q q' h k Φ :
  D ≠ Top → top_of D h = Some k → is_part D q h -∗ (is_part D q' h -∗ Φ tt) -∗ hwp (rb_set_parent k q') Φ.
Proof.
  revert h. induction D as [|b j r up IH|b l j up IH]; intros h HD Hk; [done| |]; simpl; iIntros "(Hj & Ht & HP) H".
  - destruct (decide (up = Top)) as [-> |Hup].
    + simpl in *. simplify_eq. iApply (hwp_upd with "Hj"). iIntros "Hj". iApply "H". iFrame.
    + iApply (IH with "HP"); [done..|]. iIntros "HP". iApply "H". iFrame. by destruct up.
  - destruct (decide (up = Top)) as [-> |Hup].
    + simpl in *. simplify_eq. iApply (hwp_upd with "Hj"). iIntros "Hj". iApply "H". iFrame.
    + iApply (IH with "HP"); [done..|]. iIntros "HP". iApply "H". iFrame. by destruct up.
Qed.

Lemma part_split D q t :
  is_tree q (plug D t) ⊣⊢ is_part D q (root_of t) ∗ is_tree (from_option Some q (parent_of D)) t.
Proof.
  revert t. induction D as [|b k r up IH|b l k up IH]; intros t; simpl; [by rewrite left_id| |];
    rewrite IH; simpl; iSplit; [iIntros "($ & $ & $ & $)"|iIntros "(($ & $ & $) & $)"|iIntros "($ & $ & $ & $)"|iIntros "(($ & $ & $) & $)"].
Qed.

Lemma root_plug D t : root_of (plug D t) = top_of D (root_of t).
Proof. revert t. induction D; intros; simpl; auto. Qed.

Lemma hwp_set_parent_root p q t c Φ :
  root_of t = Some c → is_tree p t -∗ (is_tree q t -∗ Φ tt) -∗ hwp (rb_set_parent c q) Φ.
Proof.
  iIntros (Hc) "Ht H". iPoseProof (hwp_reparent _ _ p q t Φ with "Ht H") as "H". by rewrite Hc.
Qed.

(** The successor [j] leaves its place in [D], below the node [k] it is to replace. *)
Lemma hwp_detach D k kn j cb c parent Φ :
  left_hole D → from_option id k (parent_of D) = parent → rb_right kn = top_of D (Some j) →
  k ↦ kn -∗ j ↦ RbNode (Some parent) cb (root_of c) None -∗ is_part D (Some k) (Some j) -∗ is_tree (Some j) c -∗
  (k ↦ kn -∗ j ↦ RbNode (Some parent) cb (top_of D (root_of c)) None -∗ is_part D (Some j) (root_of c) -∗
    is_tree (Some (from_option id j (parent_of D))) c -∗ Φ (from_option id j (parent_of D))) -∗
  hwp (if decide (parent = k) then mret j
       else
         _ ← match root_of c with Some c => rb_set_parent c (Some parent) | None => mret tt end;
         _ ← rb_upd parent (upd_left (root_of c));
         oldn ← rb_get k;
         _ ← rb_upd j (upd_right (rb_right oldn));
         oright ← lift (rb_right oldn);
         _ ← rb_set_parent oright (Some j);
         mret parent) Φ.
Proof.
  iIntros (HD Hp Hr) "Hk Hj HP Hc H". destruct D as [|b pk r up|]; [| |done]; simpl in *; subst parent.
  - rewrite decide_True //. iApply hwp_ret. iApply ("H" with "Hk Hj HP Hc").
  - iDestruct "HP" as "(Hpk & Hpr & HP)". iDestruct (ghost_map_elem_ne with "Hpk Hk") as %Hne. rewrite decide_False //.
    iApply hwp_bind. iApply (hwp_reparent _ _ _ (Some pk) with "Hc"). iIntros "Hc".
    hupd "Hpk". hget "Hk". hupd "Hj". rewrite Hr. destruct (top_of_path up pk) as (rk & Htop & _). rewrite Htop. hlift.
    iApply hwp_bind. iApply (hwp_part_parent (CL b pk r up) (Some k) (Some j) (root_of c) with "[Hpk Hpr HP]"); [done|done|iFrame|].
    iIntros "HP". iApply hwp_ret. iApply ("H" with "Hk Hj HP Hc").
Qed.

Lemma hwp_replace_at C b l k r lk rk D cb j c Φ :
  rb_ok (plug C (T b l k r)) → root_of l = Some lk → root_of r = Some rk →
  plug D (T cb E j c) = r → left_hole D → head (elems r) = Some j →
  is_ctx C (Some k) -∗ is_tree (parent_of C) (T b l k r) -∗
  ((∃ n, k ↦ n) -∗ whole (spliced cb (ctx_app D (CR b l j C)) c) -∗ Φ tt) -∗
  hwp (replace_by_successor k) Φ.
Proof.
  iIntros (Hok Hl Hr Hp HD Hj) "HC (Hk & Hl & Hr) H". unfold replace_by_successor.
  hget "Hk". rewrite {2}Hr. hlift. iApply hwp_bind. iApply (hwp_fuel_tree with "Hr"). iIntros (fuel Hf) "Hr".
  iApply hwp_bind. iApply (hwp_leftmost with "Hr"); [done|lia|]. iIntros (j' Hj') "Hr".
  rewrite Hj in Hj'. injection Hj' as <-.
  iApply hwp_bind. iApply (hwp_relink with "Hk HC"). iIntros "Hk HC".
  rewrite -Hp part_split. iDestruct "Hr" as "(HP & Hj & _ & Hc)". hget "Hj".
  assert (from_option Some (Some k) (parent_of D) = Some (from_option id k (parent_of D))) as -> by (by destruct D).
  hlift. iApply hwp_bind. iApply (hwp_detach D with "Hk Hj HP Hc"); [done|done|by rewrite /= root_plug|].
  iIntros "Hk Hj HP Hc". hget "Hk". hupd "Hj". hupd "Hj". rewrite Hl. hlift.
  iApply hwp_bind. iApply (hwp_set_parent_root with "Hl"); [done|]. iIntros "Hl".
  assert (Some (from_option id j (parent_of D)) = parent_of (ctx_app D (CR b l j C))) as -> by (by destruct D).
  iApply (hwp_recolor (ctx_app D (CR b l j C)) cb j c with "[HC Hj Hl HP] Hc").
  - left. rewrite plug_app Hp. by apply (rekey C b l k j r).
  - rewrite ctx_split /= Hl. iFrame.
  - iApply "H". by iExists _.
Qed.

Lemma hwp_replace C b l k r Φ :
  rb_ok (plug C (T b l k r)) → l ≠ E → r ≠ E →
  is_ctx C (Some k) -∗ is_tree (parent_of C) (T b l k r) -∗
  ((∃ n, k ↦ n) -∗ whole (erased C b l r) -∗ Φ tt) -∗ hwp (replace_by_successor k) Φ.
Proof.
  intros Hok Hl Hr. unfold erased. destruct l as [|lb ll lk lr]; [done|]. destruct r as [|rb rl rk rr]; [done|].
  destruct (down rb rl rk rr Top) as [[[D cb] j] c] eqn:Ed. pose proof (down_left _ _ _ _ _ _ _ _ _ Ed I) as HD.
  apply down_ok in Ed as (Hp & _ & Hj). rewrite app_nil_r in Hj.
  eapply hwp_replace_at; [done..|]. simpl. by rewrite -Hj.
Qed.

(** [rb_erase] of [k]: the node stays, out of the tree. *)
Lemma hwp_erase C b l k r Φ :
  rb_ok (plug C (T b l k r)) →
  is_ctx C (Some k) -∗ is_tree (parent_of C) (T b l k r) -∗
  ((∃ n, k ↦ n) -∗ whole (erased C b l r) -∗ Φ tt) -∗ hwp (rb_erase k) Φ.
Proof.
  iIntros (Hok) "HC Ht H". unfold rb_erase.
  destruct (decide (l = E)) as [-> |Hl]; [|destruct (decide (r = E)) as [-> |Hr]].
  - iDestruct "Ht" as "(Hk & _ & Hr)". hget "Hk".
    iApply (hwp_splice with "HC Hk Hr"); [by left|done|done|]. iIntros "Hk HW". iApply ("H" with "[Hk] HW"). by iExists _.
  - iDestruct "Ht" as "(Hk & Hl & _)". hget "Hk". destruct l as [|lb ll lk lr]; [done|].
    iApply (hwp_splice C b k (T lb ll lk lr) with "HC Hk Hl"); [by right|done|done|].
    iIntros "Hk HW". iApply ("H" with "[Hk] HW"). by iExists _.
  - iDestruct "Ht" as "(Hk & Hl & Hr)". iApply hwp_bind. iApply (hwp_get with "Hk"). iIntros "Hk".
    destruct l as [|lb ll lk lr]; [done|]. destruct r as [|rb rl rk rr]; [done|]. cbn [rb_left rb_right root_of].
    iApply (hwp_replace with "HC [Hk Hl Hr] H"); [done..|]. iFrame.
Qed.

End Erase.
