(* ===== verification/RBProps.v ===== *)
(** * Red-black trees: what the operations do

    [represents s t]: the nodes and the root pointer of [s] are the tree [t].  The
    triples of the separation logic are turned into equations about runs of the code;
    every operation finishes, keeps the tree red-black, changes its sequence of nodes
    as it should and leaves the nodes outside the tree alone. *)

From iris.proofmode Require Import proofmode.
From iris.base_logic.lib Require Import ghost_map.
From S2P Require Import Prelude RBTree RBHeap RBPure RBInsert RBErase.

(** ** The state of a tree *)

Fixpoint in_nodes (m : gmap N rb_node) (p : option N) (t : tree) : Prop :=
  match t with
  | E => True
  | T b l k r =>
      m !! k = Some (RbNode p b (root_of r) (root_of l)) ∧ in_nodes m (Some k) l ∧ in_nodes m (Some k) r
  end.

Definition represents (s : rb_state) (t : tree) : Prop :=
  in_nodes (rb_nodes s) None t ∧ rb_root s = root_of t ∧ NoDup (elems t).

(** The location of a hole. *)
Definition link_of (C : ctx) : rb_link :=
  match C with Top => RootLink | CL _ k _ _ => LeftLink k | CR _ _ k _ => RightLink k end.

(** [rb_link_node] and [rb_insert_color], as all callers use them. *)
Definition rb_insert (k : N) (parent : option N) (link : rb_link) : M rb_state unit :=
  _ ← rb_link_node k parent link; rb_insert_color k.

Lemma in_nodes_ext m m' p t :
  in_nodes m p t → (∀ k, k ∈ elems t → m' !! k = m !! k) → in_nodes m' p t.
Proof.
  revert p. induction t as [|b l IHl k r IHr]; intros p; [done|]. simpl. intros (Hk & Hl & Hr) Hext.
  split; [rewrite Hext //; set_solver|]. split; [apply IHl|apply IHr]; try done; set_solver.
Qed.

Lemma in_nodes_plug m C t :
  in_nodes m None (plug C t) → in_nodes m (parent_of C) t.
Proof.
  revert t. induction C as [|b k r up IH|b l k up IH]; intros t H; [done| |]; apply IH in H; apply H.
Qed.

(** The node at a hole. *)
Lemma node_at s C b l k r :
  represents s (plug C (T b l k r)) → rb_nodes s !! k = Some (RbNode (parent_of C) b (root_of r) (root_of l)).
Proof. intros ((Hk & _)%in_nodes_plug & _). done. Qed.

(** ** Traversal *)

Section Walk.
Context `{!ghost_mapG Σ N rb_node, !ghost_mapG Σ unit (option N)} (γn γr : gname).

Notation "p ↦ n" := (ghost_map_elem γn p (DfracOwn 1) n) (at level 20).
Notation is_tree := (is_tree γn).
Notation is_ctx := (is_ctx γn γr).
Notation hwp := (hwp γn γr).
Notation whole := (whole γn γr).

Lemma hwp_up_from_right C fuel k n Φ :
  depth C < fuel → rb_parent n = parent_of C →
  k ↦ n -∗ is_ctx C (Some k) -∗ (k ↦ n -∗ is_ctx C (Some k) -∗ Φ (head (after C))) -∗
  hwp (up_from_right fuel k) Φ.
Proof.
  revert fuel k n Φ. induction C as [|b j r up IH|b l j up IH]; intros fuel k n Φ Hf Hn; simpl in Hf;
    (destruct fuel as [|fuel]; [lia|]); iIntros "Hk HC H"; cbn [up_from_right]; hget "Hk"; rewrite Hn /=.
  - iApply hwp_ret. iApply ("H" with "Hk HC").
  - iDestruct "HC" as "(Hj & Hr & HC)". iDestruct (tree_root_ne with "Hr Hk") as %Hne. hget "Hj". rewrite decide_False //.
    iApply hwp_ret. iApply ("H" with "Hk"). iFrame.
  - iDestruct "HC" as "(Hj & Hl & HC)". hget "Hj". rewrite decide_True //.
    iApply (IH with "Hj HC"); [lia|done|]. iIntros "Hj HC". iApply ("H" with "Hk"). iFrame.
Qed.

Lemma hwp_up_from_left C fuel k n Φ :
  depth C < fuel → rb_parent n = parent_of C →
  k ↦ n -∗ is_ctx C (Some k) -∗ (k ↦ n -∗ is_ctx C (Some k) -∗ Φ (last (before C))) -∗
  hwp (up_from_left fuel k) Φ.
Proof.
  revert fuel k n Φ. induction C as [|b j r up IH|b l j up IH]; intros fuel k n Φ Hf Hn; simpl in Hf;
    (destruct fuel as [|fuel]; [lia|]); iIntros "Hk HC H"; cbn [up_from_left]; hget "Hk"; rewrite Hn /=.
  - iApply hwp_ret. iApply ("H" with "Hk HC").
  - iDestruct "HC" as "(Hj & Hr & HC)". hget "Hj". rewrite decide_True //.
    iApply (IH with "Hj HC"); [lia|done|]. iIntros "Hj HC". iApply ("H" with "Hk"). iFrame.
  - iDestruct "HC" as "(Hj & Hl & HC)". iDestruct (tree_root_ne with "Hl Hk") as %Hne. hget "Hj". rewrite decide_False //.
    iApply hwp_ret. rewrite app_assoc last_snoc. iApply ("H" with "Hk"). iFrame.
Qed.

Lemma ctx_parent_ne C k n : k ↦ n -∗ is_ctx C (Some k) -∗ ⌜parent_of C ≠ Some k⌝.
Proof.
  iIntros "Hk HC". iDestruct (ctx_owns with "HC Hk") as %Hn. iPureIntro. intros E.
  destruct C; simplify_eq/=; apply Hn, list_elem_of_here.
Qed.

Lemma hwp_next C b l k r Φ :
  is_ctx C (Some k) -∗ is_tree (parent_of C) (T b l k r) -∗
  (is_ctx C (Some k) -∗ is_tree (parent_of C) (T b l k r) -∗ Φ (head (elems r ++ after C))) -∗
  hwp (rb_next k) Φ.
Proof.
  iIntros "HC (Hk & Hl & Hr) H". unfold rb_next. hget "Hk". iDestruct (ctx_parent_ne with "Hk HC") as %Hne.
  rewrite decide_False //. destruct (root_of r) as [rk|] eqn:Er.
  - iApply hwp_bind. iApply (hwp_fuel_tree with "Hr"). iIntros (fuel Hf) "Hr".
    iApply hwp_bind. iApply (hwp_leftmost with "Hr"); [done|lia|]. iIntros (j Hj) "Hr". iApply hwp_ret.
    assert (head (elems r ++ after C) = Some j) as ->. { destruct (elems r); simplify_eq/=. done. }
    iApply ("H" with "HC"). rewrite /= ?Er. iFrame.
  - destruct r; [|done]. iApply hwp_bind. iApply (hwp_fuel with "HC"). iIntros (fuel Hf) "HC". simpl.
    iApply (hwp_up_from_right with "Hk HC"); [done|done|]. iIntros "Hk HC". iApply ("H" with "HC"). iFrame.
Qed.

Lemma hwp_prev C b l k r Φ :
  is_ctx C (Some k) -∗ is_tree (parent_of C) (T b l k r) -∗
  (is_ctx C (Some k) -∗ is_tree (parent_of C) (T b l k r) -∗ Φ (last (before C ++ elems l))) -∗
  hwp (rb_prev k) Φ.
Proof.
  iIntros "HC (Hk & Hl & Hr) H". unfold rb_prev. hget "Hk". iDestruct (ctx_parent_ne with "Hk HC") as %Hne.
  rewrite decide_False //. destruct (root_of l) as [lk|] eqn:El.
  - iApply hwp_bind. iApply (hwp_fuel_tree with "Hl"). iIntros (fuel Hf) "Hl".
    iApply hwp_bind. iApply (hwp_rightmost with "Hl"); [done|lia|]. iIntros (j Hj) "Hl". iApply hwp_ret.
    rewrite last_app Hj. iApply ("H" with "HC"). rewrite /= ?El. iFrame.
  - destruct l; [|done]. iApply hwp_bind. iApply (hwp_fuel with "HC"). iIntros (fuel Hf) "HC". rewrite app_nil_r.
    iApply (hwp_up_from_left with "Hk HC"); [done|done|]. iIntros "Hk HC". iApply ("H" with "HC"). iFrame.
Qed.

Lemma hwp_first t Φ : whole t -∗ (whole t -∗ Φ (head (elems t))) -∗ hwp rb_first Φ.
Proof.
  iIntros "[Ht Hr] H". iApply hwp_bind. iApply (hwp_get_root with "Hr"). iIntros "Hr".
  destruct (root_of t) as [k|] eqn:Ek.
  - iApply hwp_bind. iApply (hwp_fuel_tree with "Ht"). iIntros (fuel Hf) "Ht".
    iApply hwp_bind. iApply (hwp_leftmost with "Ht"); [done|lia|]. iIntros (j Hj) "Ht". iApply hwp_ret.
    rewrite Hj. iApply "H". rewrite /RBInsert.whole Ek. iFrame.
  - destruct t; [|done]. iApply hwp_ret. iApply "H". iFrame.
Qed.

Lemma hwp_last t Φ : whole t -∗ (whole t -∗ Φ (last (elems t))) -∗ hwp rb_last Φ.
Proof.
  iIntros "[Ht Hr] H". iApply hwp_bind. iApply (hwp_get_root with "Hr"). iIntros "Hr".
  destruct (root_of t) as [k|] eqn:Ek.
  - iApply hwp_bind. iApply (hwp_fuel_tree with "Ht"). iIntros (fuel Hf) "Ht".
    iApply hwp_bind. iApply (hwp_rightmost with "Ht"); [done|lia|]. iIntros (j Hj) "Ht". iApply hwp_ret.
    rewrite Hj. iApply "H". rewrite /RBInsert.whole Ek. iFrame.
  - destruct t; [|done]. iApply hwp_ret. iApply "H". iFrame.
Qed.

Lemma hwp_replace_node C b l k r j n Φ :
  is_ctx C (Some k) -∗ is_tree (parent_of C) (T b l k r) -∗ j ↦ n -∗
  (whole (plug C (T b l j r)) -∗ Φ tt) -∗ hwp (rb_replace_node k j) Φ.
Proof.
  iIntros "HC (Hk & Hl & Hr) Hj H". unfold rb_replace_node. hget "Hk".
  iApply hwp_bind. iApply (hwp_relink with "Hk HC"). iIntros "Hk HC". hget "Hk".
  iApply hwp_bind. iApply (hwp_reparent _ _ _ (Some j) with "Hl"). iIntros "Hl". hget "Hk".
  iApply hwp_bind. iApply (hwp_reparent _ _ _ (Some j) with "Hr"). iIntros "Hr". hget "Hk".
  iApply (hwp_upd with "Hj"). iIntros "Hj". iApply "H". iApply plug_split. iFrame.
Qed.

Lemma hwp_insert n C k x Φ :
  cok n C → is_ctx C None -∗ k ↦ x -∗ (whole (inserted C k) -∗ Φ tt) -∗
  hwp (rb_insert k (parent_of C) (link_of C)) Φ.
Proof.
  iIntros (HC) "HC Hk H". unfold rb_insert, rb_link_node. iApply hwp_bind. hupd "Hk".
  destruct C as [|b p r up|b l p up]; simpl.
  - iApply (hwp_set_root with "HC"). iIntros "HC". iApply (hwp_insert_color _ _ _ Top with "HC [Hk] H"); [done|iFrame; done].
  - iDestruct "HC" as "(Hp & HC)". iApply (hwp_upd with "Hp"). iIntros "Hp".
    iApply (hwp_insert_color _ _ _ (CL b p r up) with "[Hp HC] [Hk] H"); [done|iFrame|iFrame; done].
  - iDestruct "HC" as "(Hp & HC)". iApply (hwp_upd with "Hp"). iIntros "Hp".
    iApply (hwp_insert_color _ _ _ (CR b l p up) with "[Hp HC] [Hk] H"); [done|iFrame|iFrame; done].
Qed.

End Walk.

(** ** From the logic to runs *)

(** The nodes outside a list. *)
Definition strip (ks : list N) (m : gmap N rb_node) : gmap N rb_node := filter (λ kn, kn.1 ∉ ks) m.

Lemma strip_lookup ks m k : k ∉ ks → strip ks m !! k = m !! k.
Proof.
  intros Hk. unfold strip. destruct (m !! k) as [n|] eqn:E.
  - by apply map_lookup_filter_Some.
  - by apply map_lookup_filter_None; left.
Qed.

Lemma strip_nil m : strip [] m = m.
Proof. apply map_filter_id. intros k n _. apply not_elem_of_nil. Qed.

Lemma strip_strip ks js m : strip js (strip ks m) = strip (ks ++ js) m.
Proof. unfold strip. rewrite map_filter_filter. apply map_filter_ext. intros k n _. simpl. set_solver. Qed.

Lemma strip_one k m : strip [k] m = delete k m.
Proof.
  apply map_eq. intros j. destruct (decide (j = k)) as [-> |Hne].
  - rewrite lookup_delete_eq. apply map_lookup_filter_None. right. simpl. set_solver.
  - rewrite lookup_delete_ne // strip_lookup //. set_solver.
Qed.

Section Alloc.
Context `{!ghost_mapG Σ N rb_node, !ghost_mapG Σ unit (option N)} (γn γr : gname).

Notation "p ↦ n" := (ghost_map_elem γn p (DfracOwn 1) n) (at level 20).
Notation nodes m := ([∗ map] k ↦ n ∈ m, k ↦ n)%I.

Lemma tree_alloc p t m :
  in_nodes m p t → NoDup (elems t) → nodes m -∗ is_tree γn p t ∗ nodes (strip (elems t) m).
Proof.
  revert p m. induction t as [|b l IHl k r IHr]; intros p m; simpl.
  { iIntros (_ _) "H". rewrite strip_nil. by iFrame. }
  intros (Hk & Hl & Hr) (Hndl & Hdis & [Hkr Hndr]%NoDup_cons)%NoDup_app. iIntros "H".
  iDestruct (IHl _ _ Hl Hndl with "H") as "[$ H]".
  iDestruct (big_sepM_delete _ _ k with "H") as "[Hk H]".
  { rewrite strip_lookup //. intros Hin. apply (Hdis k Hin), list_elem_of_here. }
  rewrite -strip_one strip_strip. iFrame "Hk".
  iDestruct (IHr (Some k) (strip (elems l ++ [k]) m) with "H") as "[$ H]"; [|done|].
  - eapply in_nodes_ext; [done|]. intros j Hj. apply strip_lookup. rewrite elem_of_app list_elem_of_singleton.
    intros [Hin| ->]; [|done]. by apply (Hdis j Hin); right.
  - by rewrite strip_strip -app_assoc.
Qed.

Lemma owns_alloc ks m :
  (∀ k, k ∈ ks → k ∈ dom m) → NoDup ks → nodes m -∗ owns γn ks ∗ nodes (strip ks m).
Proof.
  revert m. induction ks as [|k ks IH]; intros m Hin Hnd.
  { iIntros "H". rewrite strip_nil /owns. by iFrame. }
  apply NoDup_cons in Hnd as [Hk Hnd]. iIntros "H".
  destruct (proj1 (elem_of_dom m k) (Hin k (list_elem_of_here _ _))) as [n Hn].
  iDestruct (big_sepM_delete _ _ k with "H") as "[Hk H]"; [done|].
  iDestruct (IH (delete k m) with "H") as "[Ho H]"; [|done|].
  - intros j Hj. rewrite dom_delete. assert (j ∈ dom m) by (apply Hin; by right). set_solver.
  - rewrite -strip_one strip_strip. iFrame "H". rewrite /owns big_sepL_cons. iFrame.
Qed.

Lemma tree_in_nodes s p t : SI γn γr s -∗ is_tree γn p t -∗ ⌜in_nodes (rb_nodes s) p t⌝.
Proof.
  revert p. induction t as [|b l IHl k r IHr]; intros p; simpl; iIntros "HS Ht"; [done|].
  iDestruct "Ht" as "(Hk & Hl & Hr)". iDestruct (IHl with "HS Hl") as %Hl. iDestruct (IHr with "HS Hr") as %Hr.
  iDestruct "HS" as "[HS _]". iDestruct (ghost_map_lookup with "HS Hk") as %Hk. done.
Qed.

Lemma whole_represents s t : SI γn γr s -∗ whole γn γr t -∗ ⌜represents s t⌝.
Proof.
  iIntros "HS [Ht Hr]". iDestruct (tree_in_nodes with "HS Ht") as %Ht.
  iDestruct (tree_owns with "Ht") as "Ho". iDestruct (owns_nodup with "Ho") as %Hnd.
  iDestruct "HS" as "[_ HR]". iDestruct (ghost_map_lookup with "HR Hr") as %Hroot.
  by apply lookup_singleton_Some in Hroot as [_ Hroot].
Qed.

End Alloc.

#[local] Definition Σrb : gFunctors := #[ghost_mapΣ N rb_node; ghost_mapΣ unit (option N)].

(** A triple about a whole tree and the nodes [xs] outside it, as a statement about the
    run: it finishes, and the other nodes stay as they were. *)
Lemma run_of_triple {A} (m : M rb_state A) (s : rb_state) (t : tree) (xs ys : list N) (Q : A → tree → Prop) :
  represents s t → NoDup xs → (∀ k, k ∈ xs → k ∈ dom (rb_nodes s) ∧ k ∉ elems t) →
  (∀ Σ `(!ghost_mapG Σ N rb_node) `(!ghost_mapG Σ unit (option N)) γn γr,
    whole γn γr t -∗ owns γn xs -∗
    hwp γn γr m (λ a, ∃ t', ⌜Q a t'⌝ ∗ whole γn γr t' ∗ owns γn ys)) →
  ∃ a s' t', m s = Some (a, s') ∧ Q a t' ∧ represents s' t' ∧ (∀ k, k ∈ ys → k ∈ dom (rb_nodes s')) ∧
    ∀ k, k ∉ elems t → k ∉ xs → is_Some (rb_nodes s !! k) → rb_nodes s' !! k = rb_nodes s !! k.
Proof.
  intros (Hin & Hroot & Hnd) Hndx Hxs Hm. apply (pure_soundness (PROP := iPropI Σrb)). apply uPred.bupd_soundness; [apply _|].
  iMod (ghost_map_alloc (rb_nodes s)) as (γn) "[HN Hn]".
  iMod (ghost_map_alloc {[ () := rb_root s ]}) as (γr) "[HR Hr]". rewrite big_sepM_singleton.
  iDestruct (tree_alloc with "Hn") as "[Ht Hn]"; [done|done|].
  iDestruct (owns_alloc _ xs with "Hn") as "[Hx Hn]"; [|done|].
  { intros k Hk. destruct (Hxs k Hk) as [Hd Hne]. apply elem_of_dom. rewrite strip_lookup //. by apply elem_of_dom. }
  iMod (Hm Σrb _ _ γn γr with "[Ht Hr] Hx [HN HR]") as (a s' Hrun) "[HS (%t' & %HQ & HW & Hy)]".
  { rewrite /whole /rootptr -Hroot. iFrame. }
  { iFrame. }
  iDestruct (whole_represents with "HS HW") as %Hrep. iDestruct (owns_mapped with "HS Hy") as %Hys. iDestruct "HS" as "[HN HR]".
  rewrite strip_strip. iDestruct (ghost_map_lookup_big with "HN Hn") as %Hsub.
  iModIntro. iPureIntro. exists a, s', t'. do 4 (split; [done|]). intros k Hk Hkx [n Hn].
  rewrite Hn. eapply lookup_weaken; [|exact Hsub]. rewrite strip_lookup //. set_solver.
Qed.

(** ** Runs *)

Lemma split_at k t : k ∈ elems t → ∃ C b l r, t = plug C (T b l k r).
Proof.
  assert (H : ∀ C, k ∈ elems t → ∃ C' b l r, plug C t = plug C' (T b l k r)).
  { induction t as [|b l IHl j r IHr]; simpl; [set_solver|]. intros C [Hl|[-> |Hr]%elem_of_cons]%elem_of_app.
    - apply (IHl (CL b j r C) Hl).
    - by exists C, b, l, r.
    - apply (IHr (CR b l j C) Hr). }
  intros Hk. apply (H Top Hk).
Qed.

Lemma nodup_place (k : N) xs ys A B : NoDup (xs ++ k :: ys) → xs ++ k :: ys = A ++ k :: B → A = xs ∧ B = ys.
Proof.
  revert A. induction xs as [|x xs IH]; intros [|a A] Hnd Heq; simpl in *;
    apply NoDup_cons in Hnd as [Hk Hnd]; [by simplify_eq|injection Heq as Hx Hrest..].
  - subst. set_solver.
  - subst. set_solver.
  - destruct (IH A Hnd Hrest) as [-> ->]. by subst.
Qed.

(** The place of [k] in the sequence. *)
Lemma place t C b l k r A B :
  NoDup (elems t) → t = plug C (T b l k r) → elems t = A ++ k :: B →
  A = before C ++ elems l ∧ B = elems r ++ after C.
Proof.
  intros Hnd -> Heq. rewrite elems_plug /= in Heq Hnd. rewrite -!app_assoc /= app_assoc in Heq Hnd.
  by apply nodup_place in Heq.
Qed.

(** A computation that changes nothing. *)
Definition read_only {A} (m : M rb_state A) : Prop := ∀ s a s', m s = Some (a, s') → s' = s.

Lemma ro_bind {A B} (m : M rb_state A) (f : A → M rb_state B) :
  read_only m → (∀ a, read_only (f a)) → read_only (m ≫= f).
Proof.
  intros Hm Hf s b s'. unfold mbind, M_bind. destruct (m s) as [[a s1]|] eqn:E; [|done].
  intros E2. apply Hf in E2. apply Hm in E. congruence.
Qed.

Lemma ro_ret {A} (a : A) : read_only (mret a).
Proof. by intros s b s' [= <- <-]. Qed.

Lemma ro_get p : read_only (rb_get p).
Proof. intros s b s'. unfold rb_get. destruct (rb_nodes s !! p); [|done]. by intros [= <- <-]. Qed.

Lemma ro_gets {A} (f : rb_state → A) : read_only (gets f).
Proof. by intros s b s' [= <- <-]. Qed.

Lemma ro_leftmost fuel p : read_only (leftmost fuel p).
Proof.
  revert p. induction fuel as [|fuel IH]; intros p; [by intros ???|]. apply ro_bind; [apply ro_get|].
  intros n. destruct (rb_left n); [done|apply ro_ret].
Qed.

Lemma ro_rightmost fuel p : read_only (rightmost fuel p).
Proof.
  revert p. induction fuel as [|fuel IH]; intros p; [by intros ???|]. apply ro_bind; [apply ro_get|].
  intros n. destruct (rb_right n); [done|apply ro_ret].
Qed.

Lemma ro_up_from_right fuel p : read_only (up_from_right fuel p).
Proof.
  revert p. induction fuel as [|fuel IH]; intros p; [by intros ???|]. apply ro_bind; [apply ro_get|].
  intros n. destruct (rb_parent n) as [q|]; [|apply ro_ret]. apply ro_bind; [apply ro_get|].
  intros m. destruct (decide _); [done|apply ro_ret].
Qed.

Lemma ro_up_from_left fuel p : read_only (up_from_left fuel p).
Proof.
  revert p. induction fuel as [|fuel IH]; intros p; [by intros ???|]. apply ro_bind; [apply ro_get|].
  intros n. destruct (rb_parent n) as [q|]; [|apply ro_ret]. apply ro_bind; [apply ro_get|].
  intros m. destruct (decide _); [done|apply ro_ret].
Qed.

Lemma ro_next k : read_only (rb_next k).
Proof.
  apply ro_bind; [apply ro_get|]. intros n. destruct (decide _); [apply ro_ret|].
  apply ro_bind; [apply ro_gets|]. intros fuel. destruct (rb_right n); [|apply ro_up_from_right].
  apply ro_bind; [apply ro_leftmost|]. intros ?. apply ro_ret.
Qed.

Lemma ro_prev k : read_only (rb_prev k).
Proof.
  apply ro_bind; [apply ro_get|]. intros n. destruct (decide _); [apply ro_ret|].
  apply ro_bind; [apply ro_gets|]. intros fuel. destruct (rb_left n); [|apply ro_up_from_left].
  apply ro_bind; [apply ro_rightmost|]. intros ?. apply ro_ret.
Qed.

Lemma ro_first : read_only rb_first.
Proof.
  apply ro_bind; [apply ro_gets|]. intros [n|]; [|apply ro_ret]. apply ro_bind; [apply ro_gets|].
  intros fuel. apply ro_bind; [apply ro_leftmost|]. intros ?. apply ro_ret.
Qed.

Lemma ro_last : read_only rb_last.
Proof.
  apply ro_bind; [apply ro_gets|]. intros [n|]; [|apply ro_ret]. apply ro_bind; [apply ro_gets|].
  intros fuel. apply ro_bind; [apply ro_rightmost|]. intros ?. apply ro_ret.
Qed.

(** A read-only triple. *)
Lemma rb_read_run {A} (m : M rb_state A) s t (v : A) :
  represents s t → read_only m →
  (∀ Σ `(!ghost_mapG Σ N rb_node) `(!ghost_mapG Σ unit (option N)) γn γr (Φ : A → iProp Σ),
    whole γn γr t -∗ (whole γn γr t -∗ Φ v) -∗ hwp γn γr m Φ) →
  m s = Some (v, s).
Proof.
  intros Hs Hro Hm.
  destruct (run_of_triple m s t [] [] (λ a t', a = v) Hs) as (a & s' & t' & Hrun & -> & _); [constructor|set_solver|..].
  - iIntros (Σ ?? γn γr) "HW _". iApply (Hm with "HW"). iIntros "HW". iExists t. iSplit; [done|]. iFrame "HW". by rewrite /owns.
  - by rewrite Hrun (Hro _ _ _ Hrun).
Qed.

Lemma first_run s t : represents s t → rb_first s = Some (head (elems t), s).
Proof. intros Hs. eapply rb_read_run; [done|apply ro_first|]. intros. apply hwp_first. Qed.

Lemma last_run s t : represents s t → rb_last s = Some (last (elems t), s).
Proof. intros Hs. eapply rb_read_run; [done|apply ro_last|]. intros. apply hwp_last. Qed.

Lemma next_run s t A k B : represents s t → elems t = A ++ k :: B → rb_next k s = Some (head B, s).
Proof.
  intros Hs Heq. destruct (split_at k t) as (C & b & l & r & ->); [rewrite Heq; set_solver|].
  destruct (place _ C b l k r A B (proj2 (proj2 Hs)) eq_refl Heq) as [_ ->].
  eapply rb_read_run; [done|apply ro_next|]. iIntros (Σ ?? γn γr Φ) "HW H". rewrite /whole plug_split.
  iDestruct "HW" as "[HC Ht]". iApply (hwp_next with "HC Ht"). iIntros "HC Ht". iApply "H". iFrame.
Qed.

Lemma prev_run s t A k B : represents s t → elems t = A ++ k :: B → rb_prev k s = Some (last A, s).
Proof.
  intros Hs Heq. destruct (split_at k t) as (C & b & l & r & ->); [rewrite Heq; set_solver|].
  destruct (place _ C b l k r A B (proj2 (proj2 Hs)) eq_refl Heq) as [-> _].
  eapply rb_read_run; [done|apply ro_prev|]. iIntros (Σ ?? γn γr Φ) "HW H". rewrite /whole plug_split.
  iDestruct "HW" as "[HC Ht]". iApply (hwp_prev with "HC Ht"). iIntros "HC Ht". iApply "H". iFrame.
Qed.

(** The nodes outside [ks] are untouched. *)
Definition untouched (ks : list N) (s s' : rb_state) : Prop :=
  ∀ k, k ∉ ks → is_Some (rb_nodes s !! k) → rb_nodes s' !! k = rb_nodes s !! k.

Lemma rb_insert_run s C k :
  represents s (plug C E) → rb_ok (plug C E) → is_Some (rb_nodes s !! k) → k ∉ elems (plug C E) →
  ∃ s' t', rb_insert k (parent_of C) (link_of C) s = Some (tt, s') ∧ represents s' t' ∧ rb_ok t' ∧
    elems t' = before C ++ k :: after C ∧ untouched (elems t') s s'.
Proof.
  intros Hs Hok Hk Hn. apply plug_inv in Hok as (n & HC & Hn0 & _). inversion Hn0; subst n.
  destruct (inserted_ok C k HC) as [Hok' Hel].
  destruct (run_of_triple (rb_insert k (parent_of C) (link_of C)) s (plug C E) [k] [] (λ _ t', t' = inserted C k) Hs)
    as ([] & s' & t' & Hrun & -> & Hs' & _ & Hun).
  - apply NoDup_singleton.
  - intros j ->%list_elem_of_singleton. by rewrite elem_of_dom.
  - iIntros (Σ ?? γn γr) "HW Ho". rewrite /whole plug_split. iDestruct "HW" as "[HC _]".
    rewrite /owns big_sepL_singleton. iDestruct "Ho" as (x) "Hk".
    iApply (hwp_insert with "HC Hk"); [done|]. iIntros "HW". iExists _. iSplit; [done|]. iFrame "HW". by rewrite /owns.
  - exists s', (inserted C k). do 4 (split; [done|]). intros j Hj. rewrite Hel in Hj. apply Hun.
    + rewrite elems_plug /=. set_solver.
    + set_solver.
Qed.

Lemma erase_run s t A k B :
  represents s t → rb_ok t → elems t = A ++ k :: B →
  ∃ s' t', rb_erase k s = Some (tt, s') ∧ represents s' t' ∧ rb_ok t' ∧ elems t' = A ++ B ∧
    is_Some (rb_nodes s' !! k) ∧ untouched (elems t) s s'.
Proof.
  intros Hs Hok Heq. destruct (split_at k t) as (C & b & l & r & ->); [rewrite Heq; set_solver|].
  destruct (place _ C b l k r A B (proj2 (proj2 Hs)) eq_refl Heq) as [-> ->].
  destruct (run_of_triple (rb_erase k) s (plug C (T b l k r)) [] [k] (λ _ t', t' = erased C b l r) Hs)
    as ([] & s' & t' & Hrun & -> & Hs' & Hk & Hun); [constructor|set_solver| |].
  - iIntros (Σ ?? γn γr) "HW _". rewrite {1}/whole plug_split. iDestruct "HW" as "[HC Ht]".
    iApply (hwp_erase with "HC Ht"); [done|]. iIntros "Hk HW".
    iExists _. iSplit; [done|]. iFrame "HW". rewrite /owns big_sepL_singleton. iFrame.
  - exists s', (erased C b l r). split; [done|]. split; [done|]. split; [by eapply erased_ok|].
    split; [by rewrite erased_elems -!app_assoc|]. split; [apply elem_of_dom, Hk, list_elem_of_here|].
    intros j Hj. apply Hun; [done|]. apply not_elem_of_nil.
Qed.

Lemma rb_replace_run s t A k B j :
  represents s t → rb_ok t → elems t = A ++ k :: B → is_Some (rb_nodes s !! j) → j ∉ elems t →
  ∃ s' t', rb_replace_node k j s = Some (tt, s') ∧ represents s' t' ∧ rb_ok t' ∧ elems t' = A ++ j :: B.
Proof.
  intros Hs Hok Heq Hj Hn. destruct (split_at k t) as (C & b & l & r & ->); [rewrite Heq; set_solver|].
  destruct (place _ C b l k r A B (proj2 (proj2 Hs)) eq_refl Heq) as [-> ->].
  destruct (run_of_triple (rb_replace_node k j) s (plug C (T b l k r)) [j] [] (λ _ t', t' = plug C (T b l j r)) Hs)
    as ([] & s' & t' & Hrun & -> & Hs' & _).
  - apply NoDup_singleton.
  - intros i ->%list_elem_of_singleton. by rewrite elem_of_dom.
  - iIntros (Σ ?? γn γr) "HW Ho". rewrite {1}/whole plug_split. iDestruct "HW" as "[HC Ht]".
    rewrite /owns big_sepL_singleton. iDestruct "Ho" as (x) "Hj".
    iApply (hwp_replace_node with "HC Ht Hj"). iIntros "HW". iExists _. iSplit; [done|]. iFrame "HW". by rewrite /owns.
  - exists s', (plug C (T b l j r)). split; [done|]. split; [done|]. split; [by eapply rekey|].
    rewrite elems_plug /=. by rewrite -!app_assoc.
Qed.

(** ** Balance *)

Lemma ok_bounds n t : ok n t → 2 ^ n ≤ S (length (elems t)) ∧ height t ≤ 2 * n + (if is_black t then 0 else 1).
Proof.
  induction 1 as [|n l k r _ [IH1 IH2] _ [IH3 IH4] Hl Hr|n l k r _ [IH1 IH2] _ [IH3 IH4]]; simpl.
  - lia.
  - rewrite Hl in IH2. rewrite Hr in IH4. rewrite length_app /=. lia.
  - rewrite length_app /=. destruct (is_black l), (is_black r); lia.
Qed.

(** No path is longer than twice the binary logarithm of the number of nodes. *)
Lemma balanced t : rb_ok t → height t ≤ 2 * Nat.log2 (S (length (elems t))).
Proof.
  intros [Hb [n Hn]]. apply ok_bounds in Hn as [H1 H2]. rewrite Hb in H2.
  apply Nat.log2_le_mono in H1. rewrite Nat.log2_pow2 in H1; lia.
Qed.

(** ** The tree as a sequence *)

Definition holds (s : rb_state) (l : list N) : Prop := ∃ t, represents s t ∧ rb_ok t ∧ elems t = l.

(** C3: in every state that holds a red-black tree with the node sequence [l], the
    traversals return the ends of [l] and the neighbours of a node in it and change
    nothing; [rb_erase] of a node and [rb_replace_node] finish, take the node out of the
    sequence or put another one in its place, and the result is again a red-black tree. *)
Theorem rb_tree_correct s l :
  holds s l →
  rb_first s = Some (head l, s) ∧ rb_last s = Some (last l, s) ∧
  ∀ A k B, l = A ++ k :: B →
    rb_next k s = Some (head B, s) ∧ rb_prev k s = Some (last A, s) ∧
    (∃ s', rb_erase k s = Some (tt, s') ∧ holds s' (A ++ B) ∧ untouched l s s') ∧
    (∀ j, is_Some (rb_nodes s !! j) → j ∉ l →
      ∃ s', rb_replace_node k j s = Some (tt, s') ∧ holds s' (A ++ j :: B)).
Proof.
  intros (t & Hs & Hok & <-). split; [by apply first_run|]. split; [by apply last_run|]. intros A k B Hl.
  split; [by eapply next_run|]. split; [by eapply prev_run|]. split.
  - destruct (erase_run s t A k B Hs Hok Hl) as (s' & t' & ? & ? & ? & ? & _ & ?). exists s'. split; [done|].
    split; [by exists t'|done].
  - intros j Hj Hn. destruct (rb_replace_run s t A k B j Hs Hok Hl Hj Hn) as (s' & t' & ? & ? & ? & ?).
    exists s'. split; [done|]. by exists t'.
Qed.

(** A tree of five nodes. *)
Definition tree5 : tree := T true (T true E 1 E) 2 (T false (T true E 3 E) 4 (T true (T false E 5 E) 6 E)).

Fixpoint store (p : option N) (t : tree) (m : gmap N rb_node) : gmap N rb_node :=
  match t with
  | E => m
  | T b l k r => <[k := RbNode p b (root_of r) (root_of l)]> (store (Some k) l (store (Some k) r m))
  end.

Definition state5 : rb_state := RbState (<[9%N := RbNode (Some 9%N) false None None]> (store None tree5 ∅)) (Some 2%N).

Lemma state5_holds : holds state5 [1; 2; 3; 4; 5; 6]%N.
Proof.
  exists tree5. split; [|split; [|done]].
  - split; [vm_compute; by repeat split|]. split; [done|]. apply (bool_decide_unpack _). by vm_compute.
  - split; [done|]. exists 2. by repeat constructor.
Qed.

Lemma rb_tree_correct_witness :
  rb_next 4 state5 = Some (Some 5%N, state5) ∧
  (∃ s', rb_erase 2 state5 = Some (tt, s') ∧ holds s' [1; 3; 4; 5; 6]%N ∧ untouched [1; 2; 3; 4; 5; 6]%N state5 s') ∧
  (∃ s', rb_replace_node 4 9 state5 = Some (tt, s') ∧ holds s' [1; 2; 3; 9; 5; 6]%N).
Proof.
  destruct (rb_tree_correct state5 _ state5_holds) as (_ & _ & H).
  destruct (H [1; 2; 3]%N 4%N [5; 6]%N eq_refl) as (Hn & _ & _ & Hr).
  destruct (H [1]%N 2%N [3; 4; 5; 6]%N eq_refl) as (_ & _ & He & _).
  split; [exact Hn|]. split; [exact He|]. apply Hr; [by eexists|]. apply (bool_decide_unpack _). by vm_compute.
Defined.

(** C22: linking a node at a free child pointer and calling [rb_insert_color] finishes
    and gives a red-black tree in which the node stands where it was linked; and the
    tree stays balanced: whatever the order of insertions and removals, no path is
    longer than twice the binary logarithm of the number of nodes plus one. *)
Theorem rb_insert_correct s C k :
  represents s (plug C E) → rb_ok (plug C E) → is_Some (rb_nodes s !! k) → k ∉ elems (plug C E) →
  ∃ s' t', rb_insert k (parent_of C) (link_of C) s = Some (tt, s') ∧ represents s' t' ∧ rb_ok t' ∧
    elems t' = before C ++ k :: after C ∧ height t' ≤ 2 * Nat.log2 (S (length (elems t'))).
Proof.
  intros Hs Hok Hk Hn. destruct (rb_insert_run s C k Hs Hok Hk Hn) as (s' & t' & Hrun & Hs' & Hok' & Hel & _).
  exists s', t'. do 4 (split; [done|]). by apply balanced.
Qed.

Lemma rb_insert_correct_witness :
  ∃ s' t', rb_insert 9 (Some 5%N) (RightLink 5) state5 = Some (tt, s') ∧ represents s' t' ∧ rb_ok t' ∧
    elems t' = [1; 2; 3; 4; 5; 9; 6]%N ∧ height t' ≤ 2 * Nat.log2 (S (length (elems t'))).
Proof.
  apply (rb_insert_correct state5 (CR false E 5 (CL true 6 E (CR false (T true E 3 E) 4 (CR true (T true E 1 E) 2 Top))))).
  - split; [vm_compute; by repeat split|]. split; [done|]. apply (bool_decide_unpack _). by vm_compute.
  - split; [done|]. exists 2. by repeat constructor.
  - by eexists.
  - apply (bool_decide_unpack _). by vm_compute.
Defined.
