(* ===== verification/KTimerQ.v ===== *)
(** * The queue of high-resolution timers

    [kernel/time/ktimerqueue.c] and [include/time/ktimerqueue.h]: the entries of a
    queue are the nodes of a red-black tree ordered by their time of expiry, with the
    earliest one at hand.  The state is what the functions see: the tree nodes of all
    entries and the root of this queue, the times of expiry, the cached entry. *)

From S2P Require Import Prelude RBTree RBHeap RBPure RBProps.
From stdpp Require Import sorting.

Open Scope Z_scope.

Record ktimerqueue := KQ {
  kq_tree : rb_state;
  kq_expires : gmap N Z;
  kq_earliest : option N;
}.

Definition set_tree (v : rb_state) (q : ktimerqueue) : ktimerqueue := KQ v (kq_expires q) (kq_earliest q).
Definition set_earliest (v : option N) (q : ktimerqueue) : ktimerqueue := KQ (kq_tree q) (kq_expires q) v.

(** An operation on the tree of the queue. *)
Definition on_tree {A} (m : M rb_state A) : M ktimerqueue A :=
  λ q, '(a, s) ← m (kq_tree q); Some (a, set_tree s q).

Definition expires_of (e : N) : M ktimerqueue Z := λ q, x ← kq_expires q !! e; Some (x, q).

Definition ktimerqueue_entry_earlier (lhs rhs : N) : M ktimerqueue bool :=
  l ← expires_of lhs; r ← expires_of rhs; mret (l <? r).

Definition ktimerqueue_peek : M ktimerqueue (option N) := gets kq_earliest.

Definition ktimerqueue_is_empty : M ktimerqueue bool := e ← gets kq_earliest; mret (bool_decide (e = None)).

Definition ktimerqueue_entry_is_linked (e : N) : M ktimerqueue bool :=
  empty ← on_tree (RB_EMPTY_NODE e); mret (negb empty).

Definition ktimerqueue_entry_init (e : N) : M ktimerqueue unit := on_tree (rb_init_node e).

Definition ktimerqueue_init : M ktimerqueue unit :=
  _ ← on_tree (set_root None); modify (set_earliest None).

(** The search for the place of a new entry. *)
Fixpoint add_loop (fuel : nat) (entry : N) (parent : option N) (link : rb_link)
    : M ktimerqueue (option N * rb_link) :=
  match fuel with
  | O => fault
  | S fuel =>
      p ← on_tree (rb_load link);
      match p with
      | None => mret (parent, link)
      | Some p =>
          earlier ← ktimerqueue_entry_earlier entry p;
          add_loop fuel entry (Some p) (if (earlier : bool) then LeftLink p else RightLink p)
      end
  end.

Definition ktimerqueue_add (entry : N) : M ktimerqueue bool :=
  fuel ← on_tree tree_fuel;
  '(parent, link) ← add_loop fuel entry None RootLink;
  _ ← on_tree (rb_link_node entry parent link);
  _ ← on_tree (rb_insert_color entry);
  earliest ← gets kq_earliest;
  first ← match earliest with
          | None => mret true
          | Some e => ktimerqueue_entry_earlier entry e
          end;
  _ ← whenM first (modify (set_earliest (Some entry)));
  earliest ← gets kq_earliest;
  mret (bool_decide (earliest = Some entry)).

Definition ktimerqueue_next (entry : option N) : M ktimerqueue (option N) :=
  match entry with
  | None => mret None
  | Some entry => on_tree (rb_next entry)
  end.

Definition ktimerqueue_del (entry : N) : M ktimerqueue unit :=
  linked ← ktimerqueue_entry_is_linked entry;
  if negb linked then mret tt
  else
    earliest ← gets kq_earliest;
    next ← (if decide (earliest = Some entry) then ktimerqueue_next (Some entry) else mret None);
    _ ← on_tree (rb_erase entry);
    _ ← on_tree (rb_init_node entry);
    earliest ← gets kq_earliest;
    whenM (bool_decide (earliest = Some entry)) (modify (set_earliest next)).

(** ** The queue as a sequence *)

Section Queue.
Context (ex : N → Z).

(** A new entry goes behind those that expire no later. *)
Fixpoint enqueue (e : N) (l : list N) : list N :=
  match l with
  | [] => [e]
  | x :: l => if ex e <? ex x then e :: x :: l else x :: enqueue e l
  end.

Definition by_expiry : list N → Prop := StronglySorted (λ a b, ex a <= ex b).

Lemma enqueue_between e A B :
  (∀ a, a ∈ A → ex a <= ex e) → (∀ b, b ∈ B → ex e < ex b) → enqueue e (A ++ B) = A ++ e :: B.
Proof.
  induction A as [|a A IH]; simpl; intros HA HB.
  - destruct B as [|b B]; [done|]. simpl. specialize (HB b). destruct (Z.ltb_spec (ex e) (ex b)); [done|].
    assert (ex e < ex b) by (apply HB; set_solver). lia.
  - assert (ex a <= ex e) by (apply HA; set_solver). destruct (Z.ltb_spec (ex e) (ex a)); [lia|].
    rewrite IH; [done| |done]. intros. apply HA. set_solver.
Qed.

Lemma by_expiry_app A B :
  by_expiry (A ++ B) ↔ (∀ a b, a ∈ A → b ∈ B → ex a <= ex b) ∧ by_expiry A ∧ by_expiry B.
Proof. apply StronglySorted_app. Qed.

Lemma enqueue_sorted e A B :
  (∀ a, a ∈ A → ex a <= ex e) → (∀ b, b ∈ B → ex e < ex b) → by_expiry (A ++ B) → by_expiry (A ++ e :: B).
Proof.
  intros HA HB (HAB & HsA & HsB)%by_expiry_app. apply by_expiry_app. split_and!; [|done|].
  - intros a b Ha [->|Hb]%elem_of_cons; auto.
  - constructor; [done|]. apply Forall_forall. intros b Hb. apply Z.lt_le_incl. auto.
Qed.
End Queue.

(** ** Places in the tree *)

Lemma parent_elem C p : parent_of C = Some p → p ∈ before C ∨ p ∈ after C.
Proof. destruct C; intros; simplify_eq/=; set_solver. Qed.

Lemma linked_in_tree s C b l k r :
  represents s (plug C (T b l k r)) → parent_of C ≠ Some k.
Proof.
  intros (_ & _ & Hnd) Hp%parent_elem. rewrite elems_plug in Hnd. simpl in Hnd.
  rewrite <- !app_assoc in Hnd. simpl in Hnd.
  apply NoDup_app in Hnd as (_ & Hd1 & (_ & Hd2 & [Hk _]%NoDup_cons)%NoDup_app). set_solver.
Qed.

Lemma load_hole s C t : represents s (plug C t) → rb_load (link_of C) s = Some (root_of t, s).
Proof.
  destruct C as [|b k r up|b l k up]; simpl; intros Hs.
  - destruct Hs as (_ & Hr & _). unfold get_root, gets. by rewrite Hr.
  - unfold mbind, M_bind, rb_get. rewrite (node_at _ _ _ _ _ _ Hs). done.
  - unfold mbind, M_bind, rb_get. rewrite (node_at _ _ _ _ _ _ Hs). done.
Qed.

Lemma on_tree_run {A} (m : M rb_state A) q a s :
  m (kq_tree q) = Some (a, s) → on_tree m q = Some (a, set_tree s q).
Proof. unfold on_tree. by intros ->. Qed.

Lemma set_tree_id q : set_tree (kq_tree q) q = q.
Proof. by destruct q. Qed.

(** A reading of the tree. *)
Lemma on_tree_read {A} (m : M rb_state A) q a :
  m (kq_tree q) = Some (a, kq_tree q) → on_tree m q = Some (a, q).
Proof. intros H%on_tree_run. by rewrite set_tree_id in H. Qed.

(** ** The invariant *)

Definition exof (q : ktimerqueue) (e : N) : Z := default 0 (kq_expires q !! e).

Record QInv (q : ktimerqueue) (l : list N) : Prop := {
  qi_tree : ∃ t, represents (kq_tree q) t ∧ rb_ok t ∧ elems t = l;
  qi_expires : ∀ e, e ∈ l → is_Some (kq_expires q !! e);
  qi_sorted : by_expiry (exof q) l;
  qi_earliest : kq_earliest q = head l;
}.

Lemma expires_run q e x : kq_expires q !! e = Some x → expires_of e q = Some (x, q).
Proof. unfold expires_of. by intros ->. Qed.

Lemma earlier_run q a b :
  is_Some (kq_expires q !! a) → is_Some (kq_expires q !! b) →
  ktimerqueue_entry_earlier a b q = Some (exof q a <? exof q b, q).
Proof.
  intros [x Hx] [y Hy]. unfold ktimerqueue_entry_earlier, exof.
  by rewrite (bind_run _ _ _ _ _ (expires_run _ _ _ Hx)), (bind_run _ _ _ _ _ (expires_run _ _ _ Hy)), Hx, Hy.
Qed.

(** The search stops at the hole before the first later entry. *)
Lemma add_loop_run q e t C fuel :
  represents (kq_tree q) (plug C t) → (height t < fuel)%nat → is_Some (kq_expires q !! e) →
  (∀ x, x ∈ elems t → is_Some (kq_expires q !! x)) → by_expiry (exof q) (elems t) →
  ∃ C' A B, add_loop fuel e (parent_of C) (link_of C) q = Some ((parent_of C', link_of C'), q) ∧
    plug C' E = plug C t ∧ before C' = before C ++ A ∧ after C' = B ++ after C ∧ elems t = A ++ B ∧
    (∀ a, a ∈ A → exof q a <= exof q e) ∧ (∀ b, b ∈ B → exof q e < exof q b).
Proof.
  revert t C. induction fuel as [|fuel IH]; intros t C Hs Hf He Hex Hsort; [lia|]. cbn [add_loop].
  rewrite (bind_run _ _ _ _ _ (on_tree_read _ _ _ (load_hole _ _ _ Hs))).
  destruct t as [|b l k r]; cbn [root_of]; cbv beta iota.
  { exists C, [], []. rewrite app_nil_r. split_and!; try done; set_solver. }
  simpl in Hf, Hex, Hsort. apply by_expiry_app in Hsort as (Hlk & Hsl & Hskr).
  apply (by_expiry_app _ [k] (elems r)) in Hskr as (Hkr & _ & Hsr).
  rewrite (bind_run _ _ _ _ _ (earlier_run q e k He (Hex k ltac:(set_solver)))).
  destruct (Z.ltb_spec (exof q e) (exof q k)) as [Hlt|Hge].
  - destruct (IH l (CL b k r C) Hs) as (C' & A & B & Hrun & Hp & Hb & Ha & Hel & HA & HB);
      [lia|done|set_solver|done|]. exists C', A, (B ++ k :: elems r). split; [done|]. split; [done|].
    split; [done|]. split; [by rewrite Ha, <- !app_assoc|]. split; [by rewrite app_assoc, <- Hel|].
    split; [done|]. intros x [Hx|[->|Hx]%elem_of_cons]%elem_of_app; [by apply HB|done|].
    assert (exof q k <= exof q x) by (apply Hkr; set_solver). lia.
  - destruct (IH r (CR b l k C) Hs) as (C' & A & B & Hrun & Hp & Hb & Ha & Hel & HA & HB);
      [lia|done|set_solver|done|]. exists C', (elems l ++ k :: A), B. split; [done|]. split; [done|].
    split; [rewrite Hb; simpl; by rewrite <- !app_assoc|]. split; [done|].
    split; [simpl; by rewrite <- app_assoc, Hel|]. split; [|done].
    intros x [Hx|[->|Hx]%elem_of_cons]%elem_of_app; [|done|by apply HA].
    assert (exof q x <= exof q k) by (apply Hlk; set_solver). lia.
Qed.

Lemma elems_mapped m p t k : in_nodes m p t → k ∈ elems t → is_Some (m !! k).
Proof.
  revert p. induction t as [|b l IHl j r IHr]; intros p; simpl; [set_solver|].
  intros (Hj & Hl & Hr) [Hk|[->|Hk]%elem_of_cons]%elem_of_app; [eauto|by eexists|eauto].
Qed.

Lemma tree_fits s t : represents s t → (height t < S (size (rb_nodes s)))%nat.
Proof.
  intros (Hin & _ & Hnd). pose proof (height_elems t). rewrite <- (size_list_to_set (C := gset N)) in H by done.
  assert (Hs : list_to_set (elems t) ⊆ dom (rb_nodes s)).
  { intros k. rewrite elem_of_list_to_set, elem_of_dom. by apply elems_mapped with None. }
  apply subseteq_size in Hs. rewrite <- size_dom. lia.
Qed.

(** ** The operations *)

(** The memory of other entries is untouched. *)
Definition q_untouched (ks : list N) (q q' : ktimerqueue) : Prop :=
  kq_expires q' = kq_expires q ∧ untouched ks (kq_tree q) (kq_tree q').

Lemma insert_steps q e C s :
  rb_insert e (parent_of C) (link_of C) (kq_tree q) = Some (tt, s) →
  ∃ q1, on_tree (rb_link_node e (parent_of C) (link_of C)) q = Some (tt, q1) ∧
    on_tree (rb_insert_color e) q1 = Some (tt, set_tree s q).
Proof.
  intros ([] & s1 & H1 & H2)%bind_Some_M. exists (set_tree s1 q). split; [by apply on_tree_run|].
  by apply (on_tree_run _ (set_tree s1 q)) in H2.
Qed.

(** The cache after an insertion between [A] and [B]. *)
Lemma cache_run q e A B :
  kq_earliest q = head (A ++ B) → is_Some (kq_expires q !! e) → (∀ x, x ∈ A ++ B → is_Some (kq_expires q !! x)) →
  (∀ a, a ∈ A → exof q a <= exof q e) → (∀ b, b ∈ B → exof q e < exof q b) →
  (earliest ← gets kq_earliest;
   first ← match earliest with None => mret true | Some e' => ktimerqueue_entry_earlier e e' end;
   _ ← whenM first (modify (set_earliest (Some e)));
   earliest ← gets kq_earliest;
   mret (bool_decide (earliest = Some e))) q =
  Some (bool_decide (head (A ++ e :: B) = Some e), set_earliest (head (A ++ e :: B)) q).
Proof.
  intros Hq He Hex HA HB. rewrite (bind_run _ _ q _ _ eq_refl), Hq.
  destruct A as [|a A]; simpl in *; [destruct B as [|b B]; [done|]|].
  - rewrite (bind_run _ _ _ _ _ (earlier_run q e b He (Hex b ltac:(set_solver)))).
    specialize (HB b ltac:(set_solver)). by destruct (Z.ltb_spec (exof q e) (exof q b)); [|lia].
  - rewrite (bind_run _ _ _ _ _ (earlier_run q e a He (Hex a ltac:(set_solver)))).
    specialize (HA a ltac:(set_solver)). destruct (Z.ltb_spec (exof q e) (exof q a)); [lia|].
    rewrite <- Hq. by destruct q.
Qed.

Lemma add_run q l e :
  QInv q l → is_Some (rb_nodes (kq_tree q) !! e) → is_Some (kq_expires q !! e) → e ∉ l →
  ∃ q', ktimerqueue_add e q = Some (bool_decide (head (enqueue (exof q) e l) = Some e), q') ∧
    QInv q' (enqueue (exof q) e l) ∧ q_untouched (enqueue (exof q) e l) q q'.
Proof.
  intros [(t & Hs & Hok & <-) Hex Hsort Hfirst] Hn He Hin. unfold ktimerqueue_add.
  rewrite (bind_run _ _ _ _ _ (on_tree_read tree_fuel q _ eq_refl)).
  destruct (add_loop_run q e t RBHeap.Top _ Hs (tree_fits _ _ Hs) He Hex Hsort)
    as (C & A & B & Hloop & Hp & Hb & Ha & Hel & HA & HB).
  rewrite (bind_run _ _ _ _ _ Hloop). simpl in Hp, Hb, Ha. rewrite app_nil_r in Ha. subst t.
  destruct (rb_insert_run _ C e Hs Hok Hn Hin) as (s' & t' & Hins & Hs' & Hok' & Hel' & Hun).
  destruct (insert_steps q e C s' Hins) as (q1 & Hq1 & Hq2).
  rewrite (bind_run _ _ _ _ _ Hq1), (bind_run _ _ _ _ _ Hq2).
  rewrite Hel in Hex, Hsort, Hfirst. rewrite Hel, (enqueue_between _ e A B HA HB). rewrite Hb, Ha in Hel'.
  eexists. split; [by apply (cache_run (set_tree s' q) e A B)|]. split; [constructor|].
  - by exists t'.
  - intros x Hx. destruct (decide (x = e)) as [->|]; [done|]. apply Hex. set_solver.
  - by apply enqueue_sorted.
  - done.
  - split; [done|]. by rewrite <- Hel'.
Qed.

(** An entry that is in no queue is left alone. *)
Lemma del_unlinked_run q e n :
  rb_nodes (kq_tree q) !! e = Some n → rb_parent n = Some e → ktimerqueue_del e q = Some (tt, q).
Proof.
  intros Hn Hp. unfold ktimerqueue_del, ktimerqueue_entry_is_linked.
  assert (on_tree (RB_EMPTY_NODE e) q = Some (true, q)) as Hl.
  { apply on_tree_read. unfold RB_EMPTY_NODE, mbind, M_bind, rb_get. rewrite Hn. simpl. by rewrite bool_decide_true. }
  unfold mbind, M_bind. by rewrite Hl.
Qed.

Lemma linked_run q t e : represents (kq_tree q) t → e ∈ elems t → ktimerqueue_entry_is_linked e q = Some (true, q).
Proof.
  intros Hs (C & b & l & r & ->)%split_at. pose proof (linked_in_tree _ _ _ _ _ _ Hs) as Hp.
  assert (on_tree (RB_EMPTY_NODE e) q = Some (false, q)) as Hl.
  { apply on_tree_read. unfold RB_EMPTY_NODE, mbind, M_bind, rb_get. rewrite (node_at _ _ _ _ _ _ Hs).
    simpl. by rewrite bool_decide_false. }
  unfold ktimerqueue_entry_is_linked, mbind, M_bind. by rewrite Hl.
Qed.

(** A node outside the tree may change. *)
Lemma represents_outside s t k n :
  represents s t → k ∉ elems t → represents (RbState (<[k := n]> (rb_nodes s)) (rb_root s)) t.
Proof.
  intros (Hin & Hr & Hnd) Hk. split; [|done]. eapply in_nodes_ext; [done|]. intros j Hj. simpl.
  apply lookup_insert_ne. set_solver.
Qed.

Definition unlinked (e : N) : rb_node := RbNode (Some e) false None None.

Lemma erase_init_run s t A e B :
  represents s t → rb_ok t → elems t = A ++ e :: B →
  ∃ s1 s2 t', rb_erase e s = Some (tt, s1) ∧ rb_init_node e s1 = Some (tt, s2) ∧ represents s2 t' ∧ rb_ok t' ∧
    elems t' = A ++ B ∧ rb_nodes s2 !! e = Some (unlinked e) ∧ untouched (elems t) s s2.
Proof.
  intros Hs Hok Hel. destruct (erase_run s t A e B Hs Hok Hel) as (s1 & t' & Hrun & Hs1 & Hok' & Hel' & [n Hn] & Hun).
  exists s1, (RbState (<[e := unlinked e]> (rb_nodes s1)) (rb_root s1)), t'. split; [done|].
  split; [unfold rb_init_node, rb_upd; by rewrite Hn|].
  assert (He : e ∉ A ++ B).
  { destruct Hs as (_ & _ & Hnd). rewrite Hel in Hnd. apply NoDup_app in Hnd as (_ & Hd & [Hk _]%NoDup_cons).
    intros [HA|HB]%elem_of_app; [|done]. apply (Hd e HA). set_solver. }
  split; [apply represents_outside; [done|by rewrite Hel']|]. split; [done|]. split; [done|]. simpl.
  split; [apply lookup_insert_eq|]. intros k Hk Hsome. simpl. rewrite lookup_insert_ne; [by apply Hun|].
  intros <-. apply Hk. rewrite Hel. set_solver.
Qed.

Lemma head_del (A : list N) e B :
  e ∉ A → head (A ++ B) = if bool_decide (head (A ++ e :: B) = Some e) then head B else head (A ++ e :: B).
Proof.
  intros He. destruct A as [|a A]; simpl; [by rewrite bool_decide_true|]. rewrite bool_decide_false; [done|]. set_solver.
Qed.

Lemma del_run q A e B :
  QInv q (A ++ e :: B) →
  ∃ q', ktimerqueue_del e q = Some (tt, q') ∧ QInv q' (A ++ B) ∧
    rb_nodes (kq_tree q') !! e = Some (unlinked e) ∧ q_untouched (A ++ e :: B) q q'.
Proof.
  intros [(t & Hs & Hok & Hel) Hex Hsort Hfirst].
  destruct (erase_init_run _ _ _ _ _ Hs Hok Hel) as (s1 & s2 & t' & H1 & H2 & Hs' & Hok' & Hel' & Hn & Hun).
  assert (He : e ∉ A).
  { destruct Hs as (_ & _ & Hnd). rewrite Hel in Hnd. apply NoDup_app in Hnd as (_ & Hd & _).
    intros HA. apply (Hd e HA). set_solver. }
  unfold ktimerqueue_del. rewrite (bind_run _ _ _ _ _ (linked_run q t e Hs ltac:(rewrite Hel; set_solver))).
  cbn [negb]. rewrite (bind_run _ _ q _ _ eq_refl).
  set (next := if decide (kq_earliest q = Some e) then head B else None).
  rewrite (bind_run _ _ q next q).
  2: { unfold next. destruct (decide _); [|done]. apply on_tree_read. by eapply next_run. }
  rewrite (bind_run _ _ _ _ _ (on_tree_run _ _ _ _ H1)).
  rewrite (bind_run _ _ _ _ _ (on_tree_run _ (set_tree s1 q) _ _ H2)). rewrite (bind_run _ _ _ _ _ eq_refl).
  exists (set_earliest (head (A ++ B)) (set_tree s2 q)). split.
  { rewrite (head_del A e B He), <- Hfirst. simpl. unfold next.
    destruct (bool_decide_reflect (kq_earliest q = Some e)) as [E|E]; simpl; [by rewrite decide_True by done|].
    by destruct q. }
  split; [constructor|].
  - by exists t'.
  - intros x Hx. apply Hex. set_solver.
  - apply by_expiry_app in Hsort as (HAB & HsA & HsB). inversion HsB. apply by_expiry_app. split_and!; [|done|done].
    intros; apply HAB; set_solver.
  - done.
  - split; [done|]. split; [done|]. by rewrite <- Hel.
Qed.

Lemma queue_next_run q A e B : QInv q (A ++ e :: B) → ktimerqueue_next (Some e) q = Some (head B, q).
Proof. intros [(t & Hs & Hok & Hel) _ _ _]. apply on_tree_read. by eapply next_run. Qed.

(** ** Histories of a queue *)

Inductive q_op := QAdd (e : N) | QDel (e : N) | QNext (e : option N) | QPeek | QEmpty | QLinked (e : N).

Inductive q_res := RUnit | RBool (b : bool) | REntry (e : option N).

Definition q_do (o : q_op) : M ktimerqueue q_res :=
  match o with
  | QAdd e => b ← ktimerqueue_add e; mret (RBool b)
  | QDel e => _ ← ktimerqueue_del e; mret RUnit
  | QNext e => n ← ktimerqueue_next e; mret (REntry n)
  | QPeek => e ← ktimerqueue_peek; mret (REntry e)
  | QEmpty => b ← ktimerqueue_is_empty; mret (RBool b)
  | QLinked e => b ← ktimerqueue_entry_is_linked e; mret (RBool b)
  end.

Fixpoint succ_of (e : N) (l : list N) : option N :=
  match l with [] => None | x :: l => if decide (x = e) then head l else succ_of e l end.

(** What the queue promises, on the sequence of its entries. *)
Definition q_spec (ex : N → Z) (o : q_op) (l : list N) : q_res * list N :=
  match o with
  | QAdd e => (RBool (bool_decide (head (enqueue ex e l) = Some e)), enqueue ex e l)
  | QDel e => (RUnit, filter (λ x, x ≠ e) l)
  | QNext e => (REntry (e ≫= λ e, succ_of e l), l)
  | QPeek => (REntry (head l), l)
  | QEmpty => (RBool (bool_decide (l = [])), l)
  | QLinked e => (RBool (bool_decide (e ∈ l)), l)
  end.

Fixpoint q_run (os : list q_op) : M ktimerqueue (list q_res) :=
  match os with [] => mret [] | o :: os => r ← q_do o; rs ← q_run os; mret (r :: rs) end.

Fixpoint q_runs (ex : N → Z) (os : list q_op) (l : list N) : list q_res * list N :=
  match os with
  | [] => ([], l)
  | o :: os => let '(r, l1) := q_spec ex o l in let '(rs, l2) := q_runs ex os l1 in (r :: rs, l2)
  end.

(** The operations name initialised entries; an entry that is in the queue is not
    added again. *)
Definition q_names (o : q_op) : list N :=
  match o with QAdd e | QDel e | QLinked e | QNext (Some e) => [e] | _ => [] end.

Definition q_ok (es : list N) (o : q_op) (l : list N) : bool :=
  bool_decide (q_names o ⊆ es) && match o with QAdd e => bool_decide (e ∉ l) | _ => true end.

Fixpoint q_oks (ex : N → Z) (es : list N) (os : list q_op) (l : list N) : bool :=
  match os with [] => true | o :: os => q_ok es o l && q_oks ex es os (q_spec ex o l).2 end.

(** The entries [es] are initialised; those outside the queue are unlinked. *)
Definition entries_ok (es : list N) (q : ktimerqueue) (l : list N) : Prop :=
  l ⊆ es ∧ ∀ e, e ∈ es → is_Some (kq_expires q !! e) ∧
    ∃ n, rb_nodes (kq_tree q) !! e = Some n ∧ (e ∉ l → rb_parent n = Some e).

Lemma succ_of_place A e B : e ∉ A → succ_of e (A ++ e :: B) = head B.
Proof. induction A as [|a A IH]; simpl; intros He; [by rewrite decide_True|]. rewrite decide_False; [apply IH|]; set_solver. Qed.

Lemma succ_of_none e l : e ∉ l → succ_of e l = None.
Proof. induction l as [|a l IH]; simpl; intros He; [done|]. rewrite decide_False; [apply IH|]; set_solver. Qed.

Lemma filter_ne_id e (l : list N) : e ∉ l → filter (λ x, x ≠ e) l = l.
Proof.
  induction l as [|x l IH]; intros [Hx Hl]%not_elem_of_cons || intros; [done|].
  rewrite filter_cons_True by done. by rewrite IH.
Qed.

Lemma filter_ne_place (A : list N) e B : NoDup (A ++ e :: B) → filter (λ x, x ≠ e) (A ++ e :: B) = A ++ B.
Proof.
  intros (HA & Hd & [Hk HB]%NoDup_cons)%NoDup_app.
  rewrite filter_app, filter_cons_False by naive_solver. rewrite !filter_ne_id; [done|done|].
  intros He. apply (Hd e He). set_solver.
Qed.

Lemma qi_nodup q l : QInv q l → NoDup l.
Proof. intros [(t & (_ & _ & Hnd) & _ & <-) _ _ _]. done. Qed.

Lemma enqueue_elem ex e l x : x ∈ enqueue ex e l ↔ x = e ∨ x ∈ l.
Proof. induction l as [|y l IH]; simpl; [set_solver|]. case_match; set_solver. Qed.

Lemma next_unlinked_run q e n :
  rb_nodes (kq_tree q) !! e = Some n → rb_parent n = Some e → ktimerqueue_next (Some e) q = Some (None, q).
Proof.
  intros Hn Hp. apply on_tree_read. unfold rb_next, mbind, M_bind, rb_get. rewrite Hn. simpl. by rewrite decide_True.
Qed.

Definition q_does (es : list N) (o : q_op) (q : ktimerqueue) (l : list N) : Prop :=
  ∃ q', q_do o q = Some ((q_spec (exof q) o l).1, q') ∧ QInv q' (q_spec (exof q) o l).2 ∧
    entries_ok es q' (q_spec (exof q) o l).2 ∧ exof q' = exof q.

Lemma q_reads es o q l r :
  QInv q l → entries_ok es q l → q_do o q = Some (r, q) → q_spec (exof q) o l = (r, l) → q_does es o q l.
Proof. intros HI He Hr Hs. unfold q_does. rewrite Hs. by exists q. Qed.

Lemma exof_eq q q' : kq_expires q' = kq_expires q → exof q' = exof q.
Proof. unfold exof. by intros ->. Qed.

(** The entries outside the part of the memory that changed. *)
Lemma entries_after es q q' l l' ks :
  entries_ok es q l → q_untouched ks q q' → l' ⊆ es → (∀ e, e ∈ ks → e ∉ l' → e ∈ es →
    ∃ n, rb_nodes (kq_tree q') !! e = Some n ∧ rb_parent n = Some e) → (∀ e, e ∈ l → e ∈ ks) →
  (∀ e, e ∈ l' → is_Some (rb_nodes (kq_tree q') !! e)) → entries_ok es q' l'.
Proof.
  intros [Hsub Hes] [Hex Hun] Hl' Hks Hl Hin. split; [done|]. intros e He. destruct (Hes e He) as (Hx & n & Hn & Hp).
  split; [by rewrite Hex|]. destruct (decide (e ∈ l')) as [Hl'e|Hl'e].
  - destruct (Hin e Hl'e) as [n' Hn']. exists n'. split; [done|]. by intros [].
  - destruct (decide (e ∈ ks)) as [Hk|Hk].
    + destruct (Hks e Hk Hl'e He) as (n' & Hn' & Hp'). by exists n'.
    + exists n. rewrite Hun by (try done; by eexists). split; [done|]. intros _. apply Hp. naive_solver.
Qed.

Lemma qi_mapped q l e : QInv q l → e ∈ l → is_Some (rb_nodes (kq_tree q) !! e).
Proof. intros [(t & (Hin & _) & _ & <-) _ _ _] He. by eapply elems_mapped. Qed.

Lemma q_add_step q l es e : QInv q l → entries_ok es q l → e ∈ es → e ∉ l → q_does es (QAdd e) q l.
Proof.
  intros HI Hes He Hl. destruct (proj2 Hes e He) as (Hx & n & Hn & _).
  destruct (add_run q l e HI ltac:(by eexists) Hx Hl) as (q' & Hrun & HI' & Hun). exists q'.
  split; [simpl; by rewrite (bind_run _ _ _ _ _ Hrun)|]. split; [done|]. split; [|apply exof_eq, Hun].
  eapply entries_after; [done|done| |by intros ? ? []| |by intros; eapply qi_mapped].
  - intros x [->|Hx']%enqueue_elem; [done|]. by apply Hes.
  - intros x Hx'. apply enqueue_elem. by right.
Qed.

Lemma q_del_step q l es e : QInv q l → entries_ok es q l → e ∈ es → q_does es (QDel e) q l.
Proof.
  intros HI Hes He. destruct (proj2 Hes e He) as (Hx & n & Hn & Hp). destruct (decide (e ∈ l)) as [Hl|Hl].
  - apply list_elem_of_split in Hl as (A & B & ->). pose proof (qi_nodup _ _ HI) as Hnd.
    destruct (del_run q A e B HI) as (q' & Hrun & HI' & Hun' & Hun). exists q'.
    split; [simpl; by rewrite (bind_run _ _ _ _ _ Hrun)|]. simpl. rewrite filter_ne_place by done.
    split; [done|]. split; [|apply exof_eq, Hun].
    eapply entries_after; [done|done| | |done|by intros; eapply qi_mapped].
    + intros x Hx'. apply Hes. set_solver.
    + intros x Hk Hnot _. assert (x = e) as -> by set_solver. by eexists.
  - eapply (q_reads _ _ _ _ RUnit HI Hes).
    + simpl. by rewrite (bind_run _ _ _ _ _ (del_unlinked_run _ _ _ Hn (Hp Hl))).
    + simpl. by rewrite filter_ne_id.
Qed.

Lemma q_next_step q l es e : QInv q l → entries_ok es q l → e ∈ es → q_does es (QNext (Some e)) q l.
Proof.
  intros HI Hes He. destruct (proj2 Hes e He) as (Hx & n & Hn & Hp). destruct (decide (e ∈ l)) as [Hl|Hl].
  - apply list_elem_of_split in Hl as (A & B & ->). pose proof (qi_nodup _ _ HI) as (_ & Hd & _)%NoDup_app.
    eapply (q_reads _ _ _ _ (REntry (head B)) HI Hes).
    + cbn [q_do]. by rewrite (bind_run _ _ _ _ _ (queue_next_run _ _ _ _ HI)).
    + simpl. rewrite succ_of_place; [done|]. intros HA. apply (Hd e HA). set_solver.
  - eapply (q_reads _ _ _ _ (REntry None) HI Hes).
    + cbn [q_do]. by rewrite (bind_run _ _ _ _ _ (next_unlinked_run _ _ _ Hn (Hp Hl))).
    + simpl. by rewrite succ_of_none.
Qed.

Lemma q_linked_step q l es e : QInv q l → entries_ok es q l → e ∈ es → q_does es (QLinked e) q l.
Proof.
  intros HI Hes He. destruct (proj2 Hes e He) as (Hx & n & Hn & Hp).
  eapply (q_reads _ _ _ _ (RBool (bool_decide (e ∈ l))) HI Hes); [|done]. cbn [q_do].
  destruct (bool_decide_reflect (e ∈ l)) as [Hl|Hl].
  - destruct HI as [(t & Hs & _ & <-) _ _ _]. by rewrite (bind_run _ _ _ _ _ (linked_run q t e Hs Hl)).
  - unfold ktimerqueue_entry_is_linked, RB_EMPTY_NODE, on_tree, rb_get, mbind, M_bind. rewrite Hn. simpl.
    rewrite bool_decide_true by auto. simpl. by rewrite set_tree_id.
Qed.

(** One operation does what the sequence says. *)
Lemma q_step q l es o : QInv q l → entries_ok es q l → q_ok es o l = true → q_does es o q l.
Proof.
  intros HI Hes [Hnames%bool_decide_eq_true Hnew]%andb_true_iff. destruct o as [e|e|[e|]| | |e]; simpl in Hnames.
  - apply q_add_step; [done|done|set_solver|by apply bool_decide_eq_true in Hnew].
  - apply q_del_step; [done|done|set_solver].
  - apply q_next_step; [done|done|set_solver].
  - by eapply (q_reads _ _ _ _ (REntry None) HI Hes).
  - eapply (q_reads _ _ _ _ (REntry (head l)) HI Hes); [|done]. simpl.
    unfold ktimerqueue_peek, gets, mbind, M_bind. by rewrite (qi_earliest _ _ HI).
  - eapply (q_reads _ _ _ _ (RBool (bool_decide (l = []))) HI Hes); [|done]. simpl.
    unfold ktimerqueue_is_empty, gets, mbind, M_bind. rewrite (qi_earliest _ _ HI). by destruct l.
  - apply q_linked_step; [done|done|set_solver].
Qed.

(** C14: every history of a queue of high-resolution timers ([ktimerqueue_add],
    [ktimerqueue_del], [ktimerqueue_next], [ktimerqueue_peek], [ktimerqueue_is_empty],
    [ktimerqueue_entry_is_linked] on initialised entries) gives the results of a
    sequence ordered by expiry in which entries with equal times stay in the order of
    their insertion; the cached earliest entry is always the first of it, deleting an
    entry that is in no queue does nothing, and no call faults.  The tree stays a
    red-black tree throughout. *)
Theorem ktimerqueue_refines q l es os :
  QInv q l → entries_ok es q l → q_oks (exof q) es os l = true →
  ∃ q', q_run os q = Some ((q_runs (exof q) os l).1, q') ∧ QInv q' (q_runs (exof q) os l).2.
Proof.
  revert q l. induction os as [|o os IH]; intros q l HI Hes; simpl; [intros _; by exists q|].
  intros [Ho Hos]%andb_true_iff. destruct (q_step q l es o HI Hes Ho) as (q1 & Hrun & HI1 & Hes1 & Hex).
  destruct (IH q1 _ HI1 Hes1) as (q2 & Hrun2 & HI2); [by rewrite Hex|]. rewrite Hex in Hrun2, HI2. exists q2.
  rewrite (bind_run _ _ _ _ _ Hrun), (bind_run _ _ _ _ _ Hrun2).
  destruct (q_spec (exof q) o l) as [r l1] eqn:Es. cbn [fst snd] in *. by destruct (q_runs (exof q) os l1).
Qed.

(** Four entries; the first and the third expire at the same time. *)
Definition q0 : ktimerqueue :=
  KQ (RbState (list_to_map ((λ e, (e, unlinked e)) <$> [1; 2; 3; 4]%N)) None)
     (list_to_map [(1%N, 30); (2%N, 10); (3%N, 30); (4%N, 20)]) None.

Definition day0 : list q_op :=
  [QAdd 1%N; QAdd 2%N; QAdd 3%N; QDel 4%N; QAdd 4%N; QNext (Some 1%N); QDel 2%N; QPeek; QDel 1%N; QLinked 1%N].

Lemma ktimerqueue_refines_witness :
  q_oks (exof q0) [1; 2; 3; 4]%N day0 [] = true ∧
  (q_runs (exof q0) day0 []).1 =
    [RBool true; RBool true; RBool false; RUnit; RBool false; REntry (Some 3%N); RUnit; REntry (Some 4%N); RUnit; RBool false] ∧
  ∃ q', q_run day0 q0 = Some ((q_runs (exof q0) day0 []).1, q') ∧ QInv q' [4; 3]%N.
Proof.
  split; [by vm_compute|]. split; [by vm_compute|].
  apply (ktimerqueue_refines q0 [] [1; 2; 3; 4]%N day0); [| |by vm_compute].
  - constructor; [exists E; split; [split_and!; [done|done|constructor]|split; [split; [done|exists 0%nat; constructor]|done]]|
      set_solver|constructor|done].
  - split; [set_solver|]. intros e He. repeat (apply elem_of_cons in He as [->|He]; [split; [by eexists|by eexists]|]).
    by apply not_elem_of_nil in He.
Defined.
