(* ===== verification/IdTree.v ===== *)
(** * Trees of identifiers

    The code that [kernel/process/pid.c] and [kernel/process/tid.c] share: nodes that
    carry an identifier and a pointer, in a red-black tree ordered by the identifier.
    A node is malloc'ed and freed; the search stops at the first node with the
    identifier, the insertion refuses an identifier that is already there. *)

From S2P Require Import Prelude RBTree RBHeap RBPure RBProps KTimerQ.
From stdpp Require Import sorting.

Open Scope Z_scope.

Record id_tree := IdTree {
  it_tree : rb_state;
  it_id : gmap N Z;
  it_obj : gmap N N;
}.

Definition on_nodes {A} (m : M rb_state A) : M id_tree A :=
  λ s, '(a, t) ← m (it_tree s); Some (a, IdTree t (it_id s) (it_obj s)).

Definition id_of (n : N) : M id_tree Z := λ s, x ← it_id s !! n; Some (x, s).
Definition obj_of (n : N) : M id_tree N := λ s, x ← it_obj s !! n; Some (x, s).
Definition set_obj (n obj : N) : M id_tree unit :=
  λ s, _ ← it_obj s !! n; Some (tt, IdTree (it_tree s) (it_id s) (<[n := obj]> (it_obj s))).

(** The node returned by [malloc], with its fields set; [free]. *)
Definition new_node (n : N) (id : Z) (obj : N) : M id_tree unit :=
  modify (λ s, IdTree (RbState (<[n := RbNode None false None None]> (rb_nodes (it_tree s))) (rb_root (it_tree s)))
    (<[n := id]> (it_id s)) (<[n := obj]> (it_obj s))).

Definition free_node (n : N) : M id_tree unit :=
  λ s, _ ← it_id s !! n;
    Some (tt, IdTree (RbState (delete n (rb_nodes (it_tree s))) (rb_root (it_tree s)))
      (delete n (it_id s)) (delete n (it_obj s))).

Fixpoint search_loop (fuel : nat) (id : Z) (node : option N) : M id_tree (option N) :=
  match fuel with
  | O => fault
  | S fuel =>
      match node with
      | None => mret None
      | Some this =>
          i ← id_of this;
          n ← on_nodes (rb_get this);
          if id <? i then search_loop fuel id (rb_left n)
          else if i <? id then search_loop fuel id (rb_right n)
          else mret (Some this)
      end
  end.

Definition id_search (id : Z) : M id_tree (option N) :=
  root ← on_nodes get_root;
  fuel ← on_nodes tree_fuel;
  search_loop fuel id root.

(** [None]: the identifier is there already. *)
Fixpoint place_loop (fuel : nat) (id : Z) (parent : option N) (new : rb_link)
    : M id_tree (option (option N * rb_link)) :=
  match fuel with
  | O => fault
  | S fuel =>
      p ← on_nodes (rb_load new);
      match p with
      | None => mret (Some (parent, new))
      | Some this =>
          i ← id_of this;
          if id <? i then place_loop fuel id (Some this) (LeftLink this)
          else if i <? id then place_loop fuel id (Some this) (RightLink this)
          else mret None
      end
  end.

Definition id_insert (node : N) : M id_tree Z :=
  id ← id_of node;
  fuel ← on_nodes tree_fuel;
  place ← place_loop fuel id None RootLink;
  match place with
  | None => mret (-1)
  | Some (parent, new) =>
      _ ← on_nodes (rb_link_node node parent new);
      _ ← on_nodes (rb_insert_color node);
      mret 0
  end.

Definition id_erase (node : N) : M id_tree unit := on_nodes (rb_erase node).

(** [for (node = rb_first(root); node != NULL; node = rb_next(node)) func(obj, arg)]:
    the objects [func] is called with, in order. *)
Fixpoint foreach_loop (fuel : nat) (node : option N) : M id_tree (list N) :=
  match fuel with
  | O => fault
  | S fuel =>
      match node with
      | None => mret []
      | Some n =>
          o ← obj_of n;
          next ← on_nodes (rb_next n);
          rest ← foreach_loop fuel next;
          mret (o :: rest)
      end
  end.

Definition id_foreach : M id_tree (list N) :=
  fuel ← on_nodes tree_fuel;
  first ← on_nodes rb_first;
  foreach_loop fuel first.

(** ** The invariant *)

Definition idof (s : id_tree) (n : N) : Z := default 0 (it_id s !! n).

(** The tree holds the nodes [l], in the order of their distinct identifiers. *)
Record IInv (s : id_tree) (l : list N) : Prop := {
  ii_tree : holds (it_tree s) l;
  ii_id : ∀ n, n ∈ l → is_Some (it_id s !! n);
  ii_obj : ∀ n, n ∈ l → is_Some (it_obj s !! n);
  ii_sorted : StronglySorted (λ a b, idof s a < idof s b) l;
}.

Lemma on_nodes_run {A} (m : M rb_state A) s a t :
  m (it_tree s) = Some (a, t) → on_nodes m s = Some (a, IdTree t (it_id s) (it_obj s)).
Proof. unfold on_nodes. by intros ->. Qed.

Lemma on_nodes_read {A} (m : M rb_state A) s a :
  m (it_tree s) = Some (a, it_tree s) → on_nodes m s = Some (a, s).
Proof. intros H%on_nodes_run. rewrite H. by destruct s. Qed.

Lemma id_of_run s n : is_Some (it_id s !! n) → id_of n s = Some (idof s n, s).
Proof. intros [x Hx]. unfold id_of, idof. by rewrite Hx. Qed.

Lemma sorted_mid s A k B :
  StronglySorted (λ a b, idof s a < idof s b) (A ++ k :: B) →
  (∀ a, a ∈ A → idof s a < idof s k) ∧ (∀ b, b ∈ B → idof s k < idof s b) ∧
  StronglySorted (λ a b, idof s a < idof s b) A ∧ StronglySorted (λ a b, idof s a < idof s b) B.
Proof.
  intros (HAB & HA & [HkB HB]%StronglySorted_cons)%StronglySorted_app. split_and!; try done.
  - intros a Ha. apply HAB; [done|set_solver].
  - by apply Forall_forall.
Qed.

(** The search below a hole, in a number of turns bounded by the height. *)
Lemma search_loop_run s id t C fuel :
  represents (it_tree s) (plug C t) → (height t < fuel)%nat → (∀ n, n ∈ elems t → is_Some (it_id s !! n)) →
  StronglySorted (λ a b, idof s a < idof s b) (elems t) →
  ∃ r, search_loop fuel id (root_of t) s = Some (r, s) ∧
    match r with
    | Some n => n ∈ elems t ∧ idof s n = id
    | None => ∀ n, n ∈ elems t → idof s n ≠ id
    end.
Proof.
  revert t C. induction fuel as [|fuel IH]; intros t C Hs Hf Hid Hsort; [lia|].
  destruct t as [|b l k r]; cbn [root_of search_loop]; [exists None; set_solver|]. simpl in Hf, Hid, Hsort.
  apply sorted_mid in Hsort as (Hl & Hr & Hsl & Hsr).
  rewrite (bind_run _ _ _ _ _ (id_of_run s k (Hid k ltac:(set_solver)))).
  assert (on_nodes (rb_get k) s = Some (RbNode (parent_of C) b (root_of r) (root_of l), s)) as Hg.
  { apply on_nodes_read. unfold rb_get. by rewrite (node_at _ _ _ _ _ _ Hs). }
  rewrite (bind_run _ _ _ _ _ Hg). cbn [rb_left rb_right].
  destruct (Z.ltb_spec id (idof s k)); [|destruct (Z.ltb_spec (idof s k) id)].
  - destruct (IH l (CL b k r C) Hs) as (res & Hrun & Hres); [lia|set_solver|done|]. exists res. split; [done|].
    destruct res as [n|]; [set_solver|]. intros n [Hn|[->|Hn]%elem_of_cons]%elem_of_app; [by apply Hres|lia|].
    specialize (Hr n Hn). lia.
  - destruct (IH r (CR b l k C) Hs) as (res & Hrun & Hres); [lia|set_solver|done|]. exists res. split; [done|].
    destruct res as [n|]; [set_solver|]. intros n [Hn|[->|Hn]%elem_of_cons]%elem_of_app; [|lia|by apply Hres].
    specialize (Hl n Hn). lia.
  - exists (Some k). split; [done|]. split; [set_solver|lia].
Qed.

(** The place for a new identifier, or its refusal. *)
Lemma place_loop_run s id t C fuel :
  represents (it_tree s) (plug C t) → (height t < fuel)%nat → (∀ n, n ∈ elems t → is_Some (it_id s !! n)) →
  StronglySorted (λ a b, idof s a < idof s b) (elems t) →
  ∃ r, place_loop fuel id (parent_of C) (link_of C) s = Some (r, s) ∧
    match r with
    | None => ∃ n, n ∈ elems t ∧ idof s n = id
    | Some pl => ∃ C' A B, pl = (parent_of C', link_of C') ∧ plug C' E = plug C t ∧
        before C' = before C ++ A ∧ after C' = B ++ after C ∧ elems t = A ++ B ∧
        (∀ a, a ∈ A → idof s a < id) ∧ (∀ b, b ∈ B → id < idof s b)
    end.
Proof.
  revert t C. induction fuel as [|fuel IH]; intros t C Hs Hf Hid Hsort; [lia|]. cbn [place_loop].
  rewrite (bind_run _ _ _ _ _ (on_nodes_read _ _ _ (load_hole _ _ _ Hs))).
  destruct t as [|b l k r]; cbn [root_of]; cbv beta iota.
  { eexists. split; [done|]. exists C, [], []. rewrite app_nil_r. split_and!; try done; set_solver. }
  simpl in Hf, Hid, Hsort. apply sorted_mid in Hsort as (Hl & Hr & Hsl & Hsr).
  rewrite (bind_run _ _ _ _ _ (id_of_run s k (Hid k ltac:(set_solver)))).
  destruct (Z.ltb_spec id (idof s k)); [|destruct (Z.ltb_spec (idof s k) id)].
  - destruct (IH l (CL b k r C) Hs) as (res & Hrun & Hres); [lia|set_solver|done|]. exists res. split; [done|].
    destruct res as [pl|]; [|set_solver]. destruct Hres as (C' & A & B & -> & Hp & Hb & Ha & Hel & HA & HB).
    exists C', A, (B ++ k :: elems r). split_and!; try done.
    + by rewrite Ha, <- !app_assoc.
    + by rewrite app_assoc, <- Hel.
    + intros x [Hx|[->|Hx]%elem_of_cons]%elem_of_app; [by apply HB|done|]. specialize (Hr x Hx). lia.
  - destruct (IH r (CR b l k C) Hs) as (res & Hrun & Hres); [lia|set_solver|done|]. exists res. split; [done|].
    destruct res as [pl|]; [|set_solver]. destruct Hres as (C' & A & B & -> & Hp & Hb & Ha & Hel & HA & HB).
    exists C', (elems l ++ k :: A), B. split_and!; try done.
    + rewrite Hb. simpl. by rewrite <- !app_assoc.
    + simpl. by rewrite <- app_assoc, Hel.
    + intros x [Hx|[->|Hx]%elem_of_cons]%elem_of_app; [|done|by apply HA]. specialize (Hl x Hx). lia.
  - exists None. split; [done|]. exists k. split; [set_solver|lia].
Qed.

(** ** The operations *)

(** The node found by a search. *)
Definition found (s : id_tree) (l : list N) (id : Z) (r : option N) : Prop :=
  match r with
  | Some n => n ∈ l ∧ idof s n = id
  | None => ∀ n, n ∈ l → idof s n ≠ id
  end.

(** The search takes at most twice the binary logarithm of the number of nodes turns,
    and one more to stop. *)
Lemma search_turns s l id fuel :
  IInv s l → (2 * Nat.log2 (S (length l)) < fuel)%nat →
  ∃ r, search_loop fuel id (rb_root (it_tree s)) s = Some (r, s) ∧ found s l id r.
Proof.
  intros [(t & Hs & Hok & <-) Hid _ Hsort] Hf. pose proof (balanced t Hok).
  destruct (search_loop_run s id t RBHeap.Top fuel Hs) as (r & Hrun & Hr); [lia|done|done|].
  exists r. split; [|done]. destruct Hs as (_ & -> & _). done.
Qed.

Lemma id_search_run s l id : IInv s l → ∃ r, id_search id s = Some (r, s) ∧ found s l id r.
Proof.
  intros [(t & Hs & Hok & <-) Hid _ Hsort]. unfold id_search.
  rewrite (bind_run _ _ _ _ _ (on_nodes_read get_root s _ eq_refl)).
  rewrite (bind_run _ _ _ _ _ (on_nodes_read tree_fuel s _ eq_refl)).
  rewrite (proj1 (proj2 Hs)). by apply (search_loop_run s id t RBHeap.Top _ Hs (tree_fits _ _ Hs) Hid Hsort).
Qed.

Lemma found_unique s l id r r' : IInv s l → found s l id r → found s l id r' → r = r'.
Proof.
  intros HI Hr Hr'. destruct r as [n|], r' as [m|]; simpl in *; [|naive_solver..|done].
  destruct Hr as [Hn Hin], Hr' as [Hm Him]. f_equal. apply list_elem_of_split in Hn as (A & B & ->).
  destruct (sorted_mid _ _ _ _ (ii_sorted _ _ HI)) as (HA & HB & _).
  apply elem_of_app in Hm as [Hm|[->|Hm]%elem_of_cons]; [specialize (HA m Hm); lia|done|specialize (HB m Hm); lia].
Qed.

Lemma id_insert_run s l n :
  IInv s l → is_Some (rb_nodes (it_tree s) !! n) → is_Some (it_id s !! n) → is_Some (it_obj s !! n) → n ∉ l →
  ((∃ m, m ∈ l ∧ idof s m = idof s n) ∧ id_insert n s = Some (-1, s)) ∨
  ((∀ m, m ∈ l → idof s m ≠ idof s n) ∧ ∃ t l', id_insert n s = Some (0, IdTree t (it_id s) (it_obj s)) ∧
     IInv (IdTree t (it_id s) (it_obj s)) l' ∧ l' ≡ₚ n :: l ∧ untouched l' (it_tree s) t).
Proof.
  intros [(t & Hs & Hok & <-) Hid Hobj Hsort] Hn Hni Hno Hin. unfold id_insert.
  rewrite (bind_run _ _ _ _ _ (id_of_run s n Hni)).
  rewrite (bind_run _ _ _ _ _ (on_nodes_read tree_fuel s _ eq_refl)).
  destruct (place_loop_run s (idof s n) t RBHeap.Top _ Hs (tree_fits _ _ Hs) Hid Hsort) as (r & Hrun & Hr).
  rewrite (bind_run _ _ _ _ _ Hrun). destruct r as [pl|]; [right|by left].
  destruct Hr as (C & A & B & -> & Hp & Hb & Ha & Hel & HA & HB). simpl in Hp, Hb, Ha. rewrite app_nil_r in Ha. subst t.
  destruct (rb_insert_run _ C n Hs Hok Hn Hin) as (t' & tr & Hins & Hs' & Hok' & Hel' & Hun).
  rewrite Hb, Ha in Hel'. split.
  { intros m Hm. rewrite Hel in Hm. apply elem_of_app in Hm as [Hm|Hm]; [specialize (HA m Hm)|specialize (HB m Hm)]; lia. }
  apply bind_Some_M in Hins as ([] & t1 & H1 & H2). exists t', (A ++ n :: B).
  rewrite (bind_run _ _ _ _ _ (on_nodes_run _ _ _ _ H1)).
  rewrite (bind_run _ _ _ _ _ (on_nodes_run _ (IdTree t1 (it_id s) (it_obj s)) _ _ H2)).
  split; [done|]. rewrite Hel in *. split; [constructor; simpl|split; [by rewrite Permutation_middle|by rewrite <- Hel']].
  - by exists tr.
  - intros m [Hm|[->|Hm]%elem_of_cons]%elem_of_app; [apply Hid; set_solver|done|apply Hid; set_solver].
  - intros m [Hm|[->|Hm]%elem_of_cons]%elem_of_app; [apply Hobj; set_solver|done|apply Hobj; set_solver].
  - apply StronglySorted_app in Hsort as (HAB & HsA & HsB). apply StronglySorted_app. split_and!; [|done|].
    + intros a b Hx [->|Hy]%elem_of_cons; [by apply HA|by apply HAB].
    + apply StronglySorted_cons. split; [|done]. by apply Forall_forall.
Qed.

Lemma sorted_del s A k B :
  StronglySorted (λ a b, idof s a < idof s b) (A ++ k :: B) → StronglySorted (λ a b, idof s a < idof s b) (A ++ B).
Proof.
  intros (HAB & HA & [HkB HB]%StronglySorted_cons)%StronglySorted_app. apply StronglySorted_app.
  split_and!; [|done|done]. intros. apply HAB; set_solver.
Qed.

Lemma id_erase_run s A n B :
  IInv s (A ++ n :: B) →
  ∃ t, id_erase n s = Some (tt, IdTree t (it_id s) (it_obj s)) ∧ IInv (IdTree t (it_id s) (it_obj s)) (A ++ B) ∧
    untouched (A ++ n :: B) (it_tree s) t.
Proof.
  intros [(t & Hs & Hok & Hel) Hid Hobj Hsort].
  destruct (erase_run _ _ _ _ _ Hs Hok Hel) as (t' & tr & Hrun & Hs' & Hok' & Hel' & _ & Hun). exists t'.
  split; [by apply on_nodes_run|]. split; [constructor; simpl|by rewrite <- Hel].
  - by exists tr.
  - intros m Hm. apply Hid. set_solver.
  - intros m Hm. apply Hobj. set_solver.
  - by eapply sorted_del.
Qed.

Definition objof (s : id_tree) (n : N) : N := default 0%N (it_obj s !! n).

Lemma foreach_loop_run s A l fuel :
  IInv s (A ++ l) → (length l < fuel)%nat → foreach_loop fuel (head l) s = Some (objof s <$> l, s).
Proof.
  revert A l. induction fuel as [|fuel IH]; intros A l HI Hf; [lia|]. destruct l as [|n l]; [done|]. cbn [head foreach_loop].
  destruct (ii_obj _ _ HI n ltac:(set_solver)) as [o Ho].
  assert (obj_of n s = Some (objof s n, s)) as Hobj by (unfold obj_of, objof; by rewrite Ho).
  destruct (ii_tree _ _ HI) as (t & Hs & _ & Hel).
  rewrite (bind_run _ _ _ _ _ Hobj), (bind_run _ _ _ _ _ (on_nodes_read _ _ _ (next_run _ _ _ _ _ Hs Hel))).
  rewrite (bind_run _ _ s (objof s <$> l) s); [done|]. apply (IH (A ++ [n])); [|simpl in Hf; lia]. by rewrite <- app_assoc.
Qed.

Lemma id_foreach_run s l : IInv s l → id_foreach s = Some (objof s <$> l, s).
Proof.
  intros HI. destruct (ii_tree _ _ HI) as (t & Hs & _ & Hel). unfold id_foreach.
  rewrite (bind_run _ _ _ _ _ (on_nodes_read tree_fuel s _ eq_refl)).
  rewrite (bind_run _ _ _ _ _ (on_nodes_read _ _ _ (first_run _ _ Hs))). rewrite Hel.
  apply (foreach_loop_run s []); [done|]. rewrite <- Hel. destruct Hs as (Hin & _ & Hnd).
  rewrite <- (size_list_to_set (C := gset N)) by done. rewrite <- size_dom.
  apply Nat.lt_succ_r, subseteq_size. intros k. rewrite elem_of_list_to_set, elem_of_dom. by apply elems_mapped with None.
Qed.

(** Memory for nodes outside the tree comes and goes. *)
Lemma holds_ext s s' l :
  holds s l → rb_root s' = rb_root s → (∀ k, k ∈ l → rb_nodes s' !! k = rb_nodes s !! k) → holds s' l.
Proof.
  intros (t & (Hin & Hr & Hnd) & Hok & <-) Hroot Hext. exists t. split; [|done]. split; [by eapply in_nodes_ext|].
  by rewrite Hroot.
Qed.

Lemma inv_ext s s' l :
  IInv s l → rb_root (it_tree s') = rb_root (it_tree s) →
  (∀ k, k ∈ l → rb_nodes (it_tree s') !! k = rb_nodes (it_tree s) !! k ∧ it_id s' !! k = it_id s !! k ∧
    it_obj s' !! k = it_obj s !! k) → IInv s' l.
Proof.
  intros [Ht Hid Hobj Hs] Hr Hext. constructor.
  - eapply holds_ext; [done|done|]. intros k Hk. by apply Hext.
  - intros k Hk. destruct (Hext k Hk) as (_ & -> & _). by apply Hid.
  - intros k Hk. destruct (Hext k Hk) as (_ & _ & ->). by apply Hobj.
  - assert (Hi : ∀ k, k ∈ l → idof s' k = idof s k).
    { intros k Hk. unfold idof. by destruct (Hext k Hk) as (_ & -> & _). }
    clear -Hs Hi. induction Hs as [|x l Hs IH Hx]; constructor.
    + apply IH. intros. apply Hi. by right.
    + apply Forall_forall. intros y Hy. rewrite Forall_forall in Hx. rewrite !Hi by set_solver. by apply Hx.
Qed.
