(* ===== verification/Pid.v ===== *)
(** * Process identifiers

    [kernel/process/pid.c], [include/pid.h] and [kernel/process/process_obj.c].  A
    process identifier is a bit of the pool and a node of the tree [process_rb_root];
    the node belongs to a reference-counted process object, which the threads of a
    process share, and is given back with the last reference.  [malloc] and [calloc]
    are arguments: the address they return, or [None]. *)

From S2P Require Import Prelude Chain RBTree RBHeap RBPure RBProps KTimerQ IdTree.
From stdpp Require Import sorting.
Import Width.

Open Scope Z_scope.

(** ** The pool *)

(** [unsigned long __bits[PID_SETSIZE / sizeof(long)]]. *)
Notation pid_set_t := (list Z).

Section Pool.
Context (PROCESS_MAX : Z).

Definition pool_words : nat := Z.to_nat (PROCESS_MAX / 8).

Definition pid_outside (i : Z) (set : pid_set_t) : bool := 8 * Z.of_nat (length set) <=? u32 i / 8.
Definition pid_word (i : Z) (set : pid_set_t) : Z := default 0 (set !! Z.to_nat (i / 64)).

Definition PID_ISSET (i : Z) (set : pid_set_t) : bool :=
  if pid_outside i set then false else negb (Z.land (pid_word i set) (Z.shiftl 1 (i mod 64)) =? 0).

Definition PID_SET (i : Z) (set : pid_set_t) : pid_set_t :=
  if pid_outside i set then set
  else <[Z.to_nat (i / 64) := Z.lor (pid_word i set) (Z.shiftl 1 (i mod 64))]> set.

Definition PID_CLR (i : Z) (set : pid_set_t) : pid_set_t :=
  if pid_outside i set then set
  else <[Z.to_nat (i / 64) := Z.land (pid_word i set) (Z.lnot (Z.shiftl 1 (i mod 64)))]> set.

(** [g_last_pid++; if (g_last_pid == CONFIG_PROCESS_MAX) g_last_pid = 2;]. *)
Definition pid_after (last : Z) : Z := if last + 1 =? PROCESS_MAX then 2 else last + 1.

(** [while (PID_ISSET(g_last_pid, &pid_pool)) ...]: [None] when the loop goes on. *)
Fixpoint pid_skip (fuel : nat) (pool : pid_set_t) (last : Z) : option Z :=
  match fuel with
  | O => None
  | S fuel => if PID_ISSET last pool then pid_skip fuel pool (pid_after last) else Some last
  end.

(** ** The state *)

(** The destructor of a process object: of a pid node, or of another component. *)
Inductive destroy_fn := Process_rb_earse | Other (f : N).

Record process_obj_really := Really { ref : Z; obj : N; destroy : destroy_fn }.
Record process_obj := ProcessObj { belong_pcb : N; really : N }.

Record pid_state := PidState {
  pid_pool : pid_set_t;
  g_last_pid : Z;
  process_rb_root : id_tree;
  ps_really : gmap N process_obj_really;
  ps_obj : gmap N process_obj;
  obj_list : gmap N (list N);
  pcb_pid : gmap N (option N);
  is_terminated : gset N;
  destroyed : list (N * N);
}.

Definition set_pool v s := PidState v (g_last_pid s) (process_rb_root s) (ps_really s) (ps_obj s) (obj_list s) (pcb_pid s) (is_terminated s) (destroyed s).
Definition set_last v s := PidState (pid_pool s) v (process_rb_root s) (ps_really s) (ps_obj s) (obj_list s) (pcb_pid s) (is_terminated s) (destroyed s).
Definition set_rb v s := PidState (pid_pool s) (g_last_pid s) v (ps_really s) (ps_obj s) (obj_list s) (pcb_pid s) (is_terminated s) (destroyed s).
Definition set_really v s := PidState (pid_pool s) (g_last_pid s) (process_rb_root s) v (ps_obj s) (obj_list s) (pcb_pid s) (is_terminated s) (destroyed s).
Definition set_objs v s := PidState (pid_pool s) (g_last_pid s) (process_rb_root s) (ps_really s) v (obj_list s) (pcb_pid s) (is_terminated s) (destroyed s).
Definition set_lists v s := PidState (pid_pool s) (g_last_pid s) (process_rb_root s) (ps_really s) (ps_obj s) v (pcb_pid s) (is_terminated s) (destroyed s).
Definition set_pid v s := PidState (pid_pool s) (g_last_pid s) (process_rb_root s) (ps_really s) (ps_obj s) (obj_list s) v (is_terminated s) (destroyed s).
Definition set_destroyed v s := PidState (pid_pool s) (g_last_pid s) (process_rb_root s) (ps_really s) (ps_obj s) (obj_list s) (pcb_pid s) (is_terminated s) v.

Definition on_ids {A} (m : M id_tree A) : M pid_state A :=
  λ s, '(a, t) ← m (process_rb_root s); Some (a, set_rb t s).
Definition get_really (r : N) : M pid_state process_obj_really := λ s, x ← ps_really s !! r; Some (x, s).
Definition get_obj (o : N) : M pid_state process_obj := λ s, x ← ps_obj s !! o; Some (x, s).

(** ** Identifiers *)

Definition pid_alloc : M pid_state Z :=
  pool ← gets pid_pool;
  last ← gets g_last_pid;
  last ← lift (pid_skip (S (Z.to_nat PROCESS_MAX)) pool last);
  _ ← modify (set_pool (PID_SET last pool));
  _ ← modify (set_last (pid_after last));
  mret last.

Definition pid_free (pid : Z) : M pid_state unit := pool ← gets pid_pool; modify (set_pool (PID_CLR pid pool)).

Definition process_foreach : M pid_state (list N) := on_ids id_foreach.

Definition process_rb_search (pid : Z) : M pid_state (option N) :=
  n ← on_ids (id_search pid);
  match n with
  | None => mret None
  | Some this => leader ← on_ids (obj_of this); mret (Some leader)
  end.

Definition pcb_get_by_pid_nt (pid : Z) : M pid_state (option N) :=
  pcb ← process_rb_search pid;
  match pcb with
  | None => mret None
  | Some p => term ← gets is_terminated; mret (if decide (p ∈ term) then None else Some p)
  end.

Definition process_rb_insert (node : N) : M pid_state Z := on_ids (id_insert node).

Definition process_rb_earse (pid_node : N) : M pid_state unit :=
  _ ← on_ids (id_erase pid_node);
  pid ← on_ids (id_of pid_node);
  _ ← pid_free pid;
  on_ids (free_node pid_node).

(** ** Process objects *)

Definition process_obj_create (pcb ob : N) (fn : destroy_fn) (c1 c2 : option N) : M pid_state (option N) :=
  match c1, c2 with
  | Some po, Some r =>
      reallys ← gets ps_really;
      _ ← modify (set_really (<[r := Really 1 ob fn]> reallys));
      objs ← gets ps_obj;
      _ ← modify (set_objs (<[po := ProcessObj pcb r]> objs));
      lists ← gets obj_list;
      _ ← modify (set_lists (c_add_tail po pcb lists));
      mret (Some po)
  | _, _ => mret None
  end.

Definition process_obj_ref (pcb : N) (o c : option N) : M pid_state (option N) :=
  match c with
  | None => mret None
  | Some po =>
      o ← lift o;
      ob ← get_obj o;
      r ← get_really (really ob);
      reallys ← gets ps_really;
      _ ← modify (set_really (<[really ob := Really (ref r + 1) (obj r) (destroy r)]> reallys));
      objs ← gets ps_obj;
      _ ← modify (set_objs (<[po := ProcessObj pcb (really ob)]> objs));
      lists ← gets obj_list;
      _ ← modify (set_lists (c_add_tail po pcb lists));
      mret (Some po)
  end.

Definition call_destroy (fn : destroy_fn) (ob : N) : M pid_state unit :=
  match fn with
  | Process_rb_earse => process_rb_earse ob
  | Other f => d ← gets destroyed; modify (set_destroyed (d ++ [(f, ob)]))
  end.

Definition process_obj_destroy (o : N) : M pid_state Z :=
  ob ← get_obj o;
  r ← get_really (really ob);
  reallys ← gets ps_really;
  _ ← modify (set_really (<[really ob := Really (ref r - 1) (obj r) (destroy r)]> reallys));
  _ ← (if ref r - 1 =? 0 then
         _ ← call_destroy (destroy r) (obj r);
         reallys ← gets ps_really;
         modify (set_really (delete (really ob) reallys))
       else mret tt);
  lists ← gets obj_list;
  _ ← modify (set_lists (c_delete o lists));
  objs ← gets ps_obj;
  _ ← modify (set_objs (delete o objs));
  mret 0.

(** ** The pid of a process *)

Definition pid_node_of (o : N) : M pid_state N := ob ← get_obj o; r ← get_really (really ob); mret (obj r).

Definition pid_obj_get_pid (o : N) : M pid_state Z := n ← pid_node_of o; on_ids (id_of n).

Definition get_pcb_pid (pcb : N) : M pid_state (option N) := gets (λ s, default None (pcb_pid s !! pcb)).
Definition put_pcb_pid (pcb : N) (v : option N) : M pid_state unit := modify (λ s, set_pid (<[pcb := v]> (pcb_pid s)) s).

Definition pcb_set_pid_leader (pcb : N) : M pid_state unit :=
  o ← get_pcb_pid pcb;
  o ← lift o;
  n ← pid_node_of o;
  on_ids (set_obj n pcb).

Definition pid_obj_alloc (pcb : N) (node c1 c2 : option N) : M pid_state (option N) :=
  match node with
  | None => mret None
  | Some n =>
      pid ← pid_alloc;
      _ ← on_ids (new_node n pid pcb);
      if pid <? 0 then _ ← on_ids (free_node n); mret None
      else
        o ← process_obj_create pcb n Process_rb_earse c1 c2;
        _ ← put_pcb_pid pcb o;
        match o with
        | None => _ ← on_ids (free_node n); mret None
        | Some po => _ ← process_rb_insert n; mret (Some po)
        end
  end.

Definition pid_obj_ref (parent child : N) (c : option N) : M pid_state Z :=
  o ← get_pcb_pid parent;
  r ← process_obj_ref child o c;
  _ ← put_pcb_pid child r;
  mret (match r with None => -12 | Some _ => 0 end).

End Pool.
