(* ===== verification/PidProps.v ===== *)
(** * Process identifiers: what holds

    The pool as a set of numbers; the search for a free identifier; the table of
    processes with their references, and the simulation between the two. *)

From S2P Require Import Prelude Chain RBTree RBHeap RBPure RBProps KTimerQ IdTree Pid.
From stdpp Require Import sorting.
Import Width.

Open Scope Z_scope.

Lemma Forall2_elem_of_l {A B} (P : A → B → Prop) l k x : Forall2 P l k → x ∈ l → ∃ y, y ∈ k ∧ P x y.
Proof.
  intros H [i Hi]%list_elem_of_lookup. destruct (Forall2_lookup_l _ _ _ _ _ H Hi) as (y & Hy & HP).
  exists y. split; [by eapply list_elem_of_lookup_2|done].
Qed.

Lemma Forall2_elem_of_r {A B} (P : A → B → Prop) l k y : Forall2 P l k → y ∈ k → ∃ x, x ∈ l ∧ P x y.
Proof.
  intros H [i Hi]%list_elem_of_lookup. destruct (Forall2_lookup_r _ _ _ _ _ H Hi) as (x & Hx & HP).
  exists x. split; [by eapply list_elem_of_lookup_2|done].
Qed.

(** ** Bits *)

Lemma land_bit x k : 0 <= k → negb (Z.land x (Z.shiftl 1 k) =? 0) = Z.testbit x k.
Proof.
  intros Hk. rewrite Z.shiftl_1_l. destruct (Z.testbit x k) eqn:E; [apply negb_true_iff|apply negb_false_iff].
  - apply Z.eqb_neq. intros H0. apply (f_equal (λ v, Z.testbit v k)) in H0.
    rewrite Z.land_spec, Z.pow2_bits_true, E, Z.bits_0 in H0 by done. done.
  - apply Z.eqb_eq, Z.bits_inj'. intros j Hj. rewrite Z.land_spec, Z.bits_0.
    destruct (decide (j = k)) as [->|Hne]; [by rewrite E|]. rewrite Z.pow2_bits_false by done. by rewrite andb_false_r.
Qed.

Section Pool.
Context (PROCESS_MAX : Z) (Hmax : 8 <= PROCESS_MAX < 2 ^ 31).

Notation PID_WORDS := (pool_words PROCESS_MAX).

(** An identifier is inside the pool. *)
Lemma inside (i : Z) set : length set = PID_WORDS → 0 <= i < PROCESS_MAX → pid_outside i set = false ∧ (Z.to_nat (i / 64) < length set)%nat.
Proof.
  intros Hl Hi. unfold pid_outside. rewrite u32_small by lia. unfold pool_words in Hl.
  assert (i / 8 < 8 * (PROCESS_MAX / 8)).
  { assert (1 <= PROCESS_MAX / 8) by (apply Z.div_le_lower_bound; lia).
    assert (i / 8 <= PROCESS_MAX / 8) by (apply Z.div_le_mono; lia). lia. }
  assert (i / 64 = i / 8 / 8) by (rewrite Z.div_div; [done|lia|lia]).
  assert (i / 8 / 8 < PROCESS_MAX / 8) by (apply Z.div_lt_upper_bound; lia).
  split; [apply Z.leb_gt; lia|]. assert (0 <= i / 64) by (apply Z.div_pos; lia). lia.
Qed.

Lemma isset_bit i set :
  length set = PID_WORDS → 0 <= i < PROCESS_MAX → PID_ISSET i set = Z.testbit (pid_word i set) (i mod 64).
Proof.
  intros Hl Hi. unfold PID_ISSET. destruct (inside i set Hl Hi) as [-> _]. apply land_bit, Z.mod_pos_bound. lia.
Qed.

Lemma set_length i set : length (PID_SET i set) = length set.
Proof. unfold PID_SET. destruct (pid_outside i set); [done|]. apply length_insert. Qed.

Lemma clr_length i set : length (PID_CLR i set) = length set.
Proof. unfold PID_CLR. destruct (pid_outside i set); [done|]. apply length_insert. Qed.

Lemma word_insert i j w (set : pid_set_t) :
  (Z.to_nat (i / 64) < length set)%nat → 0 <= i → 0 <= j →
  pid_word j (<[Z.to_nat (i / 64) := w]> set) = if decide (i / 64 = j / 64) then w else pid_word j set.
Proof.
  intros Hl Hi Hj. unfold pid_word. destruct (decide (i / 64 = j / 64)) as [<-|Hne].
  - by rewrite list_lookup_insert_eq.
  - rewrite list_lookup_insert_ne; [done|]. pose proof (Z.div_pos i 64). pose proof (Z.div_pos j 64). lia.
Qed.

Lemma same_bit i j : i / 64 = j / 64 → i mod 64 = j mod 64 → i = j.
Proof. intros H1 H2. rewrite (Z.div_mod i 64), (Z.div_mod j 64), H1, H2 by lia. done. Qed.

Lemma isset_set i j set :
  length set = PID_WORDS → 0 <= i < PROCESS_MAX → 0 <= j < PROCESS_MAX →
  PID_ISSET j (PID_SET i set) = bool_decide (j = i) || PID_ISSET j set.
Proof.
  intros Hl Hi Hj. rewrite !isset_bit by (rewrite ?set_length; done). destruct (inside i set Hl Hi) as [Ho Hlen].
  unfold PID_SET. rewrite Ho, word_insert by (done || lia).
  pose proof (Z.mod_pos_bound i 64). pose proof (Z.mod_pos_bound j 64).
  destruct (bool_decide_reflect (j = i)) as [->|Hne].
  - rewrite decide_True by done. rewrite Z.lor_spec, Z.shiftl_1_l, Z.pow2_bits_true by lia. by rewrite orb_true_r.
  - destruct (decide _) as [E|]; [|done]. rewrite Z.lor_spec, Z.shiftl_1_l, Z.pow2_bits_false.
    + unfold pid_word. by rewrite E, orb_false_r.
    + intros E2. by apply Hne, same_bit.
Qed.

Lemma isset_clr i j set :
  length set = PID_WORDS → 0 <= i < PROCESS_MAX → 0 <= j < PROCESS_MAX →
  PID_ISSET j (PID_CLR i set) = negb (bool_decide (j = i)) && PID_ISSET j set.
Proof.
  intros Hl Hi Hj. rewrite !isset_bit by (rewrite ?clr_length; done). destruct (inside i set Hl Hi) as [Ho Hlen].
  unfold PID_CLR. rewrite Ho, word_insert by (done || lia).
  pose proof (Z.mod_pos_bound i 64). pose proof (Z.mod_pos_bound j 64).
  destruct (bool_decide_reflect (j = i)) as [->|Hne].
  - rewrite decide_True by done. rewrite Z.land_spec, Z.lnot_spec, Z.shiftl_1_l, Z.pow2_bits_true by lia. by rewrite andb_false_r.
  - destruct (decide _) as [E|]; [|done]. assert (i mod 64 ≠ j mod 64) by (intros E2; by apply Hne, same_bit).
    rewrite Z.land_spec, Z.lnot_spec, Z.shiftl_1_l, Z.pow2_bits_false by lia.
    unfold pid_word. by rewrite E, andb_true_r.
Qed.

(** ** The search for a free identifier *)

Lemma skip_up pool p fuel last :
  last <= p < PROCESS_MAX → PID_ISSET p pool = false → p - last < Z.of_nat fuel →
  ∃ q, pid_skip PROCESS_MAX fuel pool last = Some q ∧ last <= q <= p ∧ PID_ISSET q pool = false.
Proof.
  revert last. induction fuel as [|fuel IH]; intros last Hp Hfree Hf; [lia|]. simpl.
  destruct (PID_ISSET last pool) eqn:El; [|exists last; split_and!; done || lia].
  assert (last ≠ p) by congruence. unfold pid_after. destruct (Z.eqb_spec (last + 1) PROCESS_MAX); [lia|].
  destruct (IH (last + 1)) as (q & Hq & Hr & Hqf); [lia|done|lia|]. exists q. split_and!; done || lia.
Qed.

(** Over the end of the pool. *)
Lemma skip_wrap pool p fuel last :
  2 <= p < PROCESS_MAX → 1 <= last < PROCESS_MAX → PID_ISSET p pool = false →
  (PROCESS_MAX - last) + (p - 2) < Z.of_nat fuel →
  ∃ q, pid_skip PROCESS_MAX fuel pool last = Some q ∧ 1 <= q < PROCESS_MAX ∧ PID_ISSET q pool = false.
Proof.
  revert last. induction fuel as [|fuel IH]; intros last Hp Hl Hfree Hf; [lia|]. simpl.
  destruct (PID_ISSET last pool) eqn:El; [|exists last; split_and!; done || lia].
  unfold pid_after. destruct (Z.eqb_spec (last + 1) PROCESS_MAX).
  - destruct (skip_up pool p fuel 2) as (q & Hq & Hr & Hqf); [lia|done|lia|]. exists q. split_and!; done || lia.
  - apply IH; lia || done.
Qed.

Lemma skip_finds pool p last :
  1 <= last < PROCESS_MAX → (p = last ∨ 2 <= p < PROCESS_MAX) → PID_ISSET p pool = false →
  ∃ q, pid_skip PROCESS_MAX (S (Z.to_nat PROCESS_MAX)) pool last = Some q ∧ 1 <= q < PROCESS_MAX ∧ PID_ISSET q pool = false.
Proof.
  intros Hl Hp Hfree. destruct (decide (last <= p)).
  - destruct (skip_up pool p (S (Z.to_nat PROCESS_MAX)) last) as (q & Hq & Hr & Hqf); [lia|done|lia|].
    exists q. split_and!; done || lia.
  - apply (skip_wrap pool p); lia || done.
Qed.

(** A full pool: the loop never ends. *)
Lemma skip_full pool :
  (∀ p, 2 <= p < PROCESS_MAX → PID_ISSET p pool = true) →
  ∀ fuel last, 2 <= last < PROCESS_MAX → pid_skip PROCESS_MAX fuel pool last = None.
Proof.
  intros Hfull. induction fuel as [|fuel IH]; intros last Hl; [done|]. simpl. rewrite Hfull by done.
  apply IH. unfold pid_after. destruct (Z.eqb_spec (last + 1) PROCESS_MAX); lia.
Qed.

(** ** The table of processes *)

(** A process: its identifier, its leader, the process objects that refer to it. *)
Record group := Group { g_pid : Z; g_leader : N; g_refs : gset N }.

(** The processes, by their shared object; the [pid] field of the control blocks;
    the identifiers that are lost: taken by an allocation that failed, and never
    given back. *)
Record table := Table { groups : gmap N group; pid_of : gmap N (option N); lost : gset Z }.

Inductive pid_op :=
  | OAlloc (pcb : N) (node c1 c2 : option N)
  | ORef (parent child : N) (c : option N)
  | ODestroy (o : N)
  | OSearch (pid : Z)
  | OForeach
  | OLeader (pcb : N)
  | OGetPid (o : N).

Inductive pid_res := RPtr (o : option N) | RInt (z : Z) | RList (l : list N) | ROk.

Definition pid_do (o : pid_op) : M pid_state pid_res :=
  match o with
  | OAlloc pcb node c1 c2 => r ← pid_obj_alloc PROCESS_MAX pcb node c1 c2; mret (RPtr r)
  | ORef parent child c => r ← pid_obj_ref parent child c; mret (RInt r)
  | ODestroy o => r ← process_obj_destroy o; mret (RInt r)
  | OSearch pid => r ← process_rb_search pid; mret (RPtr r)
  | OForeach => r ← process_foreach; mret (RList r)
  | OLeader pcb => _ ← pcb_set_pid_leader pcb; mret ROk
  | OGetPid o => r ← pid_obj_get_pid o; mret (RInt r)
  end.

Definition in_use (G : table) (p : Z) : Prop := ∃ r g, groups G !! r = Some g ∧ g_pid g = p.

Definition leads (G : table) (p : Z) (x : option N) : Prop :=
  match x with
  | Some n => ∃ r g, groups G !! r = Some g ∧ g_pid g = p ∧ g_leader g = n
  | None => ¬ in_use G p
  end.

(** What the calls promise. *)
Inductive pid_spec (G : table) : pid_op → pid_res → table → Prop :=
  | sp_alloc pcb n po r p :
      ¬ in_use G p → p ∉ lost G → 1 <= p < PROCESS_MAX →
      pid_spec G (OAlloc pcb (Some n) (Some po) (Some r)) (RPtr (Some po))
        (Table (<[r := Group p pcb {[po]}]> (groups G)) (<[pcb := Some po]> (pid_of G)) (lost G))
  | sp_alloc_nomem pcb c1 c2 : pid_spec G (OAlloc pcb None c1 c2) (RPtr None) G
  | sp_alloc_fails pcb n c1 c2 p :
      c1 = None ∨ c2 = None → ¬ in_use G p → p ∉ lost G → 1 <= p < PROCESS_MAX →
      pid_spec G (OAlloc pcb (Some n) c1 c2) (RPtr None)
        (Table (groups G) (<[pcb := None]> (pid_of G)) ({[p]} ∪ lost G))
  | sp_ref parent child o r g po :
      pid_of G !! parent = Some (Some o) → groups G !! r = Some g → o ∈ g_refs g →
      pid_spec G (ORef parent child (Some po)) (RInt 0)
        (Table (<[r := Group (g_pid g) (g_leader g) ({[po]} ∪ g_refs g)]> (groups G)) (<[child := Some po]> (pid_of G)) (lost G))
  | sp_ref_nomem parent child :
      pid_spec G (ORef parent child None) (RInt (-12)) (Table (groups G) (<[child := None]> (pid_of G)) (lost G))
  | sp_destroy o r g :
      groups G !! r = Some g → o ∈ g_refs g → g_refs g ≠ {[o]} →
      pid_spec G (ODestroy o) (RInt 0)
        (Table (<[r := Group (g_pid g) (g_leader g) (g_refs g ∖ {[o]})]> (groups G)) (pid_of G) (lost G))
  | sp_destroy_last o r g :
      groups G !! r = Some g → g_refs g = {[o]} →
      pid_spec G (ODestroy o) (RInt 0) (Table (delete r (groups G)) (pid_of G) (lost G))
  | sp_search p x : leads G p x → pid_spec G (OSearch p) (RPtr x) G
  | sp_foreach gs :
      gs ≡ₚ (map_to_list (groups G)).*2 → StronglySorted (λ a b, g_pid a < g_pid b) gs →
      pid_spec G OForeach (RList (g_leader <$> gs)) G
  | sp_leader pcb o r g :
      pid_of G !! pcb = Some (Some o) → groups G !! r = Some g → o ∈ g_refs g →
      pid_spec G (OLeader pcb) ROk (Table (<[r := Group (g_pid g) pcb (g_refs g)]> (groups G)) (pid_of G) (lost G))
  | sp_get_pid o r g :
      groups G !! r = Some g → o ∈ g_refs g → pid_spec G (OGetPid o) (RInt (g_pid g)) G.

(** A process object that is alive. *)
Definition alive (G : table) (o : N) : Prop := ∃ r g, groups G !! r = Some g ∧ o ∈ g_refs g.

(** What the callers and the allocator owe: fresh memory, an identifier that is free,
    objects that are alive. *)
Definition pid_pre (s : pid_state) (G : table) (o : pid_op) : Prop :=
  match o with
  | OAlloc _ node c1 c2 =>
      (∀ n, node = Some n → it_id (process_rb_root s) !! n = None) ∧
      (∀ po, c1 = Some po → ps_obj s !! po = None) ∧ (∀ r, c2 = Some r → ps_really s !! r = None) ∧
      ∃ p, (p = g_last_pid s ∨ 2 <= p < PROCESS_MAX) ∧ ¬ in_use G p ∧ p ∉ lost G
  | ORef parent _ c => (∃ o, pid_of G !! parent = Some (Some o) ∧ alive G o) ∧ ∀ po, c = Some po → ps_obj s !! po = None
  | ODestroy o | OGetPid o => alive G o
  | OLeader pcb => ∃ o, pid_of G !! pcb = Some (Some o) ∧ alive G o
  | OSearch _ | OForeach => True
  end.

(** ** The relation between the state and the table *)

Definition node_of (s : pid_state) (r : N) : option N := obj <$> ps_really s !! r.
Definition really_of (s : pid_state) (o : N) : option N := really <$> ps_obj s !! o.

(** The memory of a process. *)
Record GroupAt (s : pid_state) (l : list N) (r : N) (g : group) (n : N) : Prop := {
  ga_really : ps_really s !! r = Some (Really (Z.of_nat (size (g_refs g))) n Process_rb_earse);
  ga_node : n ∈ l;
  ga_pid : idof (process_rb_root s) n = g_pid g;
  ga_leader : objof (process_rb_root s) n = g_leader g;
  ga_range : 1 <= g_pid g < PROCESS_MAX;
}.

(** The bit of an identifier is set exactly when a process has it or it is lost. *)
Record PoolOk (pool : pid_set_t) (G : table) : Prop := {
  po_set : ∀ p, 1 <= p < PROCESS_MAX → PID_ISSET p pool = true ↔ in_use G p ∨ p ∈ lost G;
  po_lost : ∀ p, p ∈ lost G → ¬ in_use G p;
}.

Record Rel (s : pid_state) (G : table) (l : list N) : Prop := {
  rl_tree : IInv (process_rb_root s) l;
  rl_len : length (pid_pool s) = PID_WORDS;
  rl_last : 1 <= g_last_pid s < PROCESS_MAX;
  rl_pid : pcb_pid s = pid_of G;
  rl_group : ∀ r g, groups G !! r = Some g → ∃ n, GroupAt s l r g n;
  rl_node : ∀ n, n ∈ l → ∃ r, is_Some (groups G !! r) ∧ node_of s r = Some n;
  rl_inj : ∀ r r', is_Some (groups G !! r) → is_Some (groups G !! r') → node_of s r = node_of s r' → r = r';
  rl_refs : ∀ r g o, groups G !! r = Some g → o ∈ g_refs g ↔ really_of s o = Some r;
  rl_objs : ∀ o r, really_of s o = Some r → is_Some (ps_really s !! r);
  rl_pool : PoolOk (pid_pool s) G;
}.

(** An identifier that is free, in the table and in the pool. *)
Lemma pool_free pool G p :
  PoolOk pool G → 1 <= p < PROCESS_MAX → PID_ISSET p pool = false ↔ ¬ in_use G p ∧ p ∉ lost G.
Proof. intros HP Hp. rewrite <- not_true_iff_false, (po_set _ _ HP p Hp). tauto. Qed.

Lemma pool_same pool G G' :
  PoolOk pool G → lost G' = lost G → (∀ p, in_use G' p ↔ in_use G p) → PoolOk pool G'.
Proof. intros [H1 H2] Hl Hu. constructor; intros p; rewrite Hl, Hu; auto. Qed.

(** A process whose other fields change. *)
Lemma in_use_update G r g g' a b p :
  groups G !! r = Some g → g_pid g' = g_pid g → in_use (Table (<[r := g']> (groups G)) a b) p ↔ in_use G p.
Proof.
  intros Hg Hp. unfold in_use. simpl. split.
  - intros (r' & x & Hx & <-). apply lookup_insert_Some in Hx as [[<- <-]|[_ Hx]]; [by exists r, g|by exists r', x].
  - intros (r' & x & Hx & <-). destruct (decide (r = r')) as [<-|Hne].
    + exists r, g'. rewrite lookup_insert_eq. split; [done|]. congruence.
    + exists r', x. by rewrite lookup_insert_ne.
Qed.

Lemma in_use_insert G r g a b p :
  groups G !! r = None → in_use (Table (<[r := g]> (groups G)) a b) p ↔ p = g_pid g ∨ in_use G p.
Proof.
  intros Hg. unfold in_use. simpl. split.
  - intros (r' & x & Hx & <-). apply lookup_insert_Some in Hx as [[<- <-]|[_ Hx]]; [by left|right; by exists r', x].
  - intros [->|(r' & x & Hx & <-)]; [exists r, g; by rewrite lookup_insert_eq|].
    exists r', x. rewrite lookup_insert_ne by congruence. done.
Qed.

Lemma in_use_delete G r g a b p :
  groups G !! r = Some g → (∀ r' g', groups G !! r' = Some g' → r' ≠ r → g_pid g' ≠ g_pid g) →
  in_use (Table (delete r (groups G)) a b) p ↔ in_use G p ∧ p ≠ g_pid g.
Proof.
  intros Hg Hne. unfold in_use. simpl. split.
  - intros (r' & x & [Hr Hx]%lookup_delete_Some & <-). split; [by exists r', x|]. by apply (Hne r').
  - intros [(r' & x & Hx & <-) Hp]. exists r', x. rewrite lookup_delete_ne by congruence. done.
Qed.

(** The search takes an identifier: until a process has it, it is lost. *)
Lemma pool_take pool G q :
  length pool = PID_WORDS → PoolOk pool G → 1 <= q < PROCESS_MAX → PID_ISSET q pool = false →
  PoolOk (PID_SET q pool) (Table (groups G) (pid_of G) ({[q]} ∪ lost G)).
Proof.
  intros Hl HP Hq Hf. apply (pool_free _ _ _ HP Hq) in Hf as [Hu Hlost]. constructor; intros p; simpl.
  - intros Hp. rewrite isset_set, orb_true_iff, bool_decide_eq_true, (po_set _ _ HP p Hp) by (done || lia).
    rewrite elem_of_union, elem_of_singleton. unfold in_use. simpl. tauto.
  - rewrite elem_of_union, elem_of_singleton. intros [->|Hin]; [exact Hu|by apply (po_lost _ _ HP)].
Qed.

(** A process gets a lost identifier. *)
Lemma pool_join pool G r g a :
  PoolOk pool G → groups G !! r = None → g_pid g ∈ lost G →
  PoolOk pool (Table (<[r := g]> (groups G)) a (lost G ∖ {[g_pid g]})).
Proof.
  intros HP Hg Hin. constructor; intros p; rewrite in_use_insert by done; simpl;
    rewrite elem_of_difference, elem_of_singleton.
  - intros Hp. rewrite (po_set _ _ HP p Hp). destruct (decide (p = g_pid g)) as [->|]; tauto.
  - intros [Hl Hne] [?|Hu]; [done|]. by apply (po_lost _ _ HP p).
Qed.

(** The last reference to a process goes: its identifier is free. *)
Lemma pool_leave pool G r g :
  length pool = PID_WORDS → PoolOk pool G → groups G !! r = Some g → 1 <= g_pid g < PROCESS_MAX →
  (∀ r' g', groups G !! r' = Some g' → r' ≠ r → g_pid g' ≠ g_pid g) →
  PoolOk (PID_CLR (g_pid g) pool) (Table (delete r (groups G)) (pid_of G) (lost G)).
Proof.
  intros Hl HP Hg Hr Hne. constructor; intros p; rewrite (in_use_delete _ _ g) by done; simpl.
  - intros Hp. rewrite isset_clr, andb_true_iff, negb_true_iff, bool_decide_eq_false, (po_set _ _ HP p Hp) by (done || lia).
    split; [tauto|]. intros [[? ?]|Hin]; [tauto|]. split; [|tauto]. intros ->.
    apply (po_lost _ _ HP _ Hin). by exists r, g.
  - intros Hin [Hu _]. by apply (po_lost _ _ HP p).
Qed.

Lemma on_ids_run {A} (m : M id_tree A) s a t : m (process_rb_root s) = Some (a, t) → on_ids m s = Some (a, set_rb t s).
Proof. unfold on_ids. by intros ->. Qed.

Lemma on_ids_read {A} (m : M id_tree A) s a : m (process_rb_root s) = Some (a, process_rb_root s) → on_ids m s = Some (a, s).
Proof. intros H%on_ids_run. rewrite H. by destruct s. Qed.

(** A live object, its shared part and its node. *)
Lemma alive_run s G l o r g :
  Rel s G l → groups G !! r = Some g → o ∈ g_refs g →
  ∃ n pcb, GroupAt s l r g n ∧ get_obj o s = Some (ProcessObj pcb r, s) ∧
    get_really r s = Some (Really (Z.of_nat (size (g_refs g))) n Process_rb_earse, s) ∧ pid_node_of o s = Some (n, s).
Proof.
  intros HR Hg Ho. destruct (rl_group _ _ _ HR r g Hg) as [n Hn]. exists n.
  pose proof (proj1 (rl_refs _ _ _ HR r g o Hg) Ho) as Hr. unfold really_of in Hr.
  apply fmap_Some in Hr as ([pcb r'] & Hob & Hr). simpl in Hr. subst r'. exists pcb.
  assert (get_obj o s = Some (ProcessObj pcb r, s)) as H1 by (unfold get_obj; by rewrite Hob).
  assert (get_really r s = Some (Really (Z.of_nat (size (g_refs g))) n Process_rb_earse, s)) as H2
    by (unfold get_really; by rewrite (ga_really _ _ _ _ _ Hn)).
  split_and!; [done|done|done|]. unfold pid_node_of. rewrite (bind_run _ _ _ _ _ H1). simpl.
  by rewrite (bind_run _ _ _ _ _ H2).
Qed.

Definition does (s : pid_state) (G : table) (o : pid_op) : Prop :=
  ∃ res s' G' l', pid_do o s = Some (res, s') ∧ pid_spec G o res G' ∧ Rel s' G' l'.

Lemma get_pid_does s G l o : Rel s G l → pid_pre s G (OGetPid o) → does s G (OGetPid o).
Proof.
  intros HR (r & g & Hg & Ho). destruct (alive_run s G l o r g HR Hg Ho) as (n & pcb & Hn & _ & _ & Hrun).
  exists (RInt (g_pid g)), s, G, l. split; [|by split; [econstructor|]]. simpl. unfold pid_obj_get_pid.
  assert (on_ids (id_of n) s = Some (g_pid g, s)) as Hid.
  { apply on_ids_read. rewrite id_of_run by (apply (ii_id _ _ (rl_tree _ _ _ HR)), Hn). by rewrite (ga_pid _ _ _ _ _ Hn). }
  by rewrite (bind_run _ _ _ _ _ (eq_trans (bind_run _ _ _ _ _ Hrun) Hid)).
Qed.

(** The node of an identifier belongs to the process that has it. *)
Lemma node_group s G l n :
  Rel s G l → n ∈ l → ∃ r g, groups G !! r = Some g ∧ GroupAt s l r g n.
Proof.
  intros HR Hn. destruct (rl_node _ _ _ HR n Hn) as (r & [g Hg] & Hr). exists r, g. split; [done|].
  destruct (rl_group _ _ _ HR r g Hg) as [n' Hn']. unfold node_of in Hr. rewrite (ga_really _ _ _ _ _ Hn') in Hr.
  simpl in Hr. by injection Hr as <-.
Qed.

Lemma search_does s G l p : Rel s G l → does s G (OSearch p).
Proof.
  intros HR. destruct (id_search_run _ l p (rl_tree _ _ _ HR)) as (x & Hrun & Hx).
  assert (∃ y, process_rb_search p s = Some (y, s) ∧ leads G p y) as (y & Hy & Hlead).
  { unfold process_rb_search. rewrite (bind_run _ _ _ _ _ (on_ids_read _ _ _ Hrun)). destruct x as [n|]; simpl in Hx.
    - destruct Hx as [Hn Hid]. destruct (node_group _ _ _ _ HR Hn) as (r & g & Hg & Hat).
      exists (Some (g_leader g)). split; [|exists r, g; split_and!; [done|by rewrite <- (ga_pid _ _ _ _ _ Hat)|done]].
      assert (on_ids (obj_of n) s = Some (g_leader g, s)) as Ho.
      { apply on_ids_read. destruct (ii_obj _ _ (rl_tree _ _ _ HR) n Hn) as [v Hv]. rewrite <- (ga_leader _ _ _ _ _ Hat).
        unfold obj_of, objof. by rewrite Hv. }
      by rewrite (bind_run _ _ _ _ _ Ho).
    - exists None. split; [done|]. intros (r & g & Hg & Hp). destruct (rl_group _ _ _ HR r g Hg) as [n Hn].
      apply (Hx n); [apply Hn|]. by rewrite (ga_pid _ _ _ _ _ Hn). }
  exists (RPtr y), s, G, l. split; [simpl; by rewrite (bind_run _ _ _ _ _ Hy)|]. split; [by constructor|done].
Qed.

(** The processes in the order of the tree. *)
Definition group_at (G : table) (r : N) : group := default (Group 0 0 ∅) (groups G !! r).

Lemma nodes_of s G l l' :
  Rel s G l → l' ⊆ l → ∃ rs, Forall2 (λ n r, is_Some (groups G !! r) ∧ node_of s r = Some n) l' rs.
Proof.
  intros HR. induction l' as [|n l' IH]; intros Hsub; [exists []; constructor|].
  destruct IH as [rs Hrs]; [set_solver|]. destruct (rl_node _ _ _ HR n ltac:(set_solver)) as (r & Hr).
  exists (r :: rs). by constructor.
Qed.

Lemma nodes_of_perm s G l rs :
  Rel s G l → Forall2 (λ n r, is_Some (groups G !! r) ∧ node_of s r = Some n) l rs →
  group_at G <$> rs ≡ₚ (map_to_list (groups G)).*2.
Proof.
  intros HR Hrs. assert (Hnd : NoDup rs).
  { destruct (ii_tree _ _ (rl_tree _ _ _ HR)) as (t & (_ & _ & Hnd) & _ & Hel). rewrite Hel in Hnd.
    clear -Hnd Hrs. induction Hrs as [|n r l rs [_ Hr] Hrs IH]; [constructor|]. apply NoDup_cons in Hnd as [Hn Hnd].
    constructor; [|by apply IH]. intros Hin. apply Hn. clear -Hin Hrs Hr.
    induction Hrs as [|n' r' l rs [_ Hr'] Hrs IH]; [by apply not_elem_of_nil in Hin|].
    apply elem_of_cons in Hin as [->|Hin]; [|right; auto].
    assert (n = n') as -> by congruence. left. }
  assert (Hp : rs ≡ₚ (map_to_list (groups G)).*1).
  { apply NoDup_Permutation; [done|apply NoDup_fst_map_to_list|]. intros r. split.
    - intros Hin. destruct (Forall2_elem_of_r _ _ _ _ Hrs Hin) as (n & _ & [[g Hg] _]).
      apply list_elem_of_fmap. exists (r, g). split; [done|]. by apply elem_of_map_to_list.
    - intros ([r' g] & -> & Hg%elem_of_map_to_list)%list_elem_of_fmap. simpl.
      destruct (rl_group _ _ _ HR r' g Hg) as [n Hn].
      destruct (Forall2_elem_of_l _ _ _ _ Hrs (ga_node _ _ _ _ _ Hn)) as (r & Hin & Hr & Hno).
      assert (r = r') as <-; [|done]. apply (rl_inj _ _ _ HR); [done|by eexists|].
      rewrite Hno. unfold node_of. by rewrite (ga_really _ _ _ _ _ Hn). }
  rewrite Hp, <- list_fmap_compose. apply reflexive_eq, list_fmap_ext. intros i [r g] Hi. simpl. unfold group_at.
  apply list_elem_of_lookup_2, elem_of_map_to_list in Hi. by rewrite Hi.
Qed.

Lemma foreach_does s G l : Rel s G l → does s G OForeach.
Proof.
  intros HR. destruct (nodes_of s G l l HR ltac:(done)) as [rs Hrs].
  assert (Hat : Forall2 (λ n r, objof (process_rb_root s) n = g_leader (group_at G r) ∧
    idof (process_rb_root s) n = g_pid (group_at G r)) l rs).
  { eapply Forall2_impl; [exact Hrs|]. intros n r [[g Hg] Hr]. unfold group_at. rewrite Hg. simpl.
    destruct (rl_group _ _ _ HR r g Hg) as [n' Hn']. unfold node_of in Hr. rewrite (ga_really _ _ _ _ _ Hn') in Hr.
    simpl in Hr. injection Hr as <-. split; apply Hn'. }
  assert (Hl : objof (process_rb_root s) <$> l = g_leader <$> (group_at G <$> rs)).
  { clear -Hat. induction Hat as [|n r l' rs [Hn _] _ IH]; [done|]. by rewrite !fmap_cons, Hn, IH. }
  exists (RList (g_leader <$> (group_at G <$> rs))), s, G, l. split; [|split; [constructor|done]].
  - simpl. unfold process_foreach. rewrite <- Hl.
    by rewrite (bind_run _ _ _ _ _ (on_ids_read _ _ _ (id_foreach_run _ _ (rl_tree _ _ _ HR)))).
  - by eapply nodes_of_perm.
  - pose proof (ii_sorted _ _ (rl_tree _ _ _ HR)) as Hs. clear -Hat Hs.
    induction Hat as [|n r l' rs [_ Hn] Hat IH]; [constructor|]. apply StronglySorted_cons in Hs as [Hlt Hs]. simpl.
    constructor; [by apply IH|]. apply Forall_forall. intros g (r' & -> & Hr')%list_elem_of_fmap.
    destruct (Forall2_elem_of_r _ _ _ _ Hat Hr') as (n' & Hn' & _ & Hn'at). rewrite Forall_forall in Hlt.
    specialize (Hlt n' Hn'). by rewrite Hn, Hn'at in Hlt.
Qed.

(** ** The calls that change the table *)

Lemma rel_inj s s' (gs gs' : gmap N group) :
  (∀ r r', is_Some (gs !! r) → is_Some (gs !! r') → node_of s r = node_of s r' → r = r') →
  (∀ r, is_Some (gs' !! r) → is_Some (gs !! r) ∧ node_of s' r = node_of s r) →
  ∀ r r', is_Some (gs' !! r) → is_Some (gs' !! r') → node_of s' r = node_of s' r' → r = r'.
Proof.
  intros Hinj Hext r r' Hr Hr' Heq. destruct (Hext r Hr) as [H1 E1], (Hext r' Hr') as [H2 E2].
  rewrite E1, E2 in Heq. by apply Hinj.
Qed.

(** Only the [pid] field of a control block changes. *)
Lemma rel_put_pid s G l pcb v :
  Rel s G l → Rel (set_pid (<[pcb := v]> (pcb_pid s)) s) (Table (groups G) (<[pcb := v]> (pid_of G)) (lost G)) l.
Proof.
  intros [H1 H2 H3 H4 H5 H6 H7 H8 H9 H10]. constructor; simpl; try done; [by rewrite H4| |by apply (pool_same _ G)].
  intros r g Hg. destruct (H5 r g Hg) as [n [? ? ? ? ?]]. exists n. by constructor.
Qed.

(** The process [r] gets the references [refs], with the count to match. *)
Lemma rel_refs s G l r g refs objs lists n :
  Rel s G l → groups G !! r = Some g → node_of s r = Some n →
  (∀ o r', is_Some (groups G !! r') → r' ≠ r → really <$> objs !! o = Some r' ↔ really_of s o = Some r') →
  (∀ o, o ∈ refs ↔ really <$> objs !! o = Some r) →
  (∀ o r', really <$> objs !! o = Some r' → r' = r ∨ really_of s o = Some r') →
  Rel (set_lists lists (set_objs objs (set_really
        (<[r := Really (Z.of_nat (size refs)) n Process_rb_earse]> (ps_really s)) s)))
    (Table (<[r := Group (g_pid g) (g_leader g) refs]> (groups G)) (pid_of G) (lost G)) l.
Proof.
  intros HR Hg Hn Hother Hrefs Hobjs. set (s' := set_lists _ _).
  assert (Hno : ∀ r', node_of s' r' = node_of s r').
  { intros r'. unfold node_of. simpl. destruct (decide (r' = r)) as [->|Hne].
    - rewrite lookup_insert_eq. simpl. unfold node_of in Hn. by rewrite Hn.
    - by rewrite lookup_insert_ne. }
  assert (Hkey : ∀ r', is_Some (<[r := Group (g_pid g) (g_leader g) refs]> (groups G) !! r') ↔ is_Some (groups G !! r')).
  { intros r'. rewrite lookup_insert_is_Some. split; [intros [<-|[_ ?]]; [by eexists|done]|].
    intros ?. destruct (decide (r = r')); auto. }
  destruct HR as [H1 H2 H3 H4 H5 H6 H7 H8 H9 H10]. constructor; simpl; try done.
  - intros r' g' Hg'. destruct (decide (r' = r)) as [->|Hne].
    + rewrite lookup_insert_eq in Hg'. injection Hg' as <-. destruct (H5 r g Hg) as [n' Hn'].
      assert (n' = n) as -> by (unfold node_of in Hn; rewrite (ga_really _ _ _ _ _ Hn') in Hn; simpl in Hn; congruence).
      exists n. destruct Hn' as [? ? ? ? ?]. constructor; simpl; try done. by rewrite lookup_insert_eq.
    + rewrite lookup_insert_ne in Hg' by done. destruct (H5 r' g' Hg') as [n' [? ? ? ? ?]]. exists n'.
      constructor; simpl; try done. by rewrite lookup_insert_ne.
  - intros m Hm. destruct (H6 m Hm) as (r' & Hr' & Hnr'). exists r'. by rewrite Hkey, Hno.
  - apply (rel_inj s s' (groups G)); [done|]. intros r' Hr'%Hkey. by rewrite Hno.
  - intros r' g' o Hg'. destruct (decide (r' = r)) as [->|Hne].
    + rewrite lookup_insert_eq in Hg'. injection Hg' as <-. apply Hrefs.
    + rewrite lookup_insert_ne in Hg' by done. rewrite (H8 r' g' o Hg'). symmetry. apply Hother; [by eexists|done].
  - intros o r' Ho. unfold really_of in Ho. simpl in Ho. rewrite lookup_insert_is_Some.
    destruct (decide (r = r')); [by left|right]. split; [done|]. destruct (Hobjs o r' Ho); [done|eauto].
  - apply (pool_same _ G); [done|done|]. intros p. by apply (in_use_update G r g).
Qed.

Lemma refs_live s G l r g o : Rel s G l → groups G !! r = Some g → o ∈ g_refs g → is_Some (ps_obj s !! o).
Proof.
  intros HR Hg Ho. apply (rl_refs _ _ _ HR r g o Hg) in Ho. unfold really_of in Ho. by destruct (ps_obj s !! o).
Qed.

Lemma obj_ref_run s child o po pcb r rl :
  get_obj o s = Some (ProcessObj pcb r, s) → get_really r s = Some (rl, s) →
  process_obj_ref child (Some o) (Some po) s =
    Some (Some po, set_lists (c_add_tail po child (obj_list s)) (set_objs (<[po := ProcessObj child r]> (ps_obj s))
      (set_really (<[r := Really (ref rl + 1) (obj rl) (destroy rl)]> (ps_really s)) s))).
Proof.
  intros H1 H2. unfold process_obj_ref. rewrite (bind_run _ _ s o s eq_refl), (bind_run _ _ _ _ _ H1). cbn [really].
  by rewrite (bind_run _ _ _ _ _ H2).
Qed.

Lemma ref_does s G l parent child c : Rel s G l → pid_pre s G (ORef parent child c) → does s G (ORef parent child c).
Proof.
  intros HR [(o & Hp & r & g & Hg & Ho) Hfresh].
  destruct (alive_run s G l o r g HR Hg Ho) as (n & pcb & Hn & Hobj & Hreally & _).
  assert (get_pcb_pid parent s = Some (Some o, s)) as Hget by (unfold get_pcb_pid, gets; by rewrite (rl_pid _ _ _ HR), Hp).
  unfold does. cbn [pid_do]. unfold pid_obj_ref. destruct c as [po|].
  - specialize (Hfresh po eq_refl).
    assert (Hpo : po ∉ g_refs g) by (intros Hin; destruct (refs_live _ _ _ _ _ _ HR Hg Hin); congruence).
    exists (RInt 0). eexists _, _, l. split; [|split; [by eapply (sp_ref G parent child o r g po)|]].
    + unfold mbind at 1, M_bind at 1. rewrite (bind_run _ _ _ _ _ Hget).
      rewrite (bind_run _ _ _ _ _ (obj_ref_run s child o po pcb r _ Hobj Hreally)). reflexivity.
    + cbn [ref obj destroy].
      refine (rel_put_pid _ (Table (<[r := Group (g_pid g) (g_leader g) ({[po]} ∪ g_refs g)]> (groups G)) (pid_of G) (lost G)) l child (Some po) _).
      assert (Z.of_nat (size (g_refs g)) + 1 = Z.of_nat (size ({[po]} ∪ g_refs g))) as ->.
      { rewrite size_union by set_solver. rewrite size_singleton. lia. }
      apply rel_refs; [done|done| | | |].
      * unfold node_of. by rewrite (ga_really _ _ _ _ _ Hn).
      * intros o' r' Hr' Hne. unfold really_of. destruct (decide (o' = po)) as [->|]; [|by rewrite lookup_insert_ne].
        rewrite lookup_insert_eq, Hfresh. simpl. naive_solver.
      * intros o'. destruct (decide (o' = po)) as [->|]; [rewrite lookup_insert_eq; set_solver|].
        rewrite lookup_insert_ne by done. rewrite elem_of_union, elem_of_singleton, (rl_refs _ _ _ HR r g o' Hg). naive_solver.
      * intros o' r'. unfold really_of. destruct (decide (o' = po)) as [->|]; [|rewrite lookup_insert_ne by done; auto].
        rewrite lookup_insert_eq. simpl. intros [= <-]. by left.
  - exists (RInt (-12)), (set_pid (<[child := None]> (pcb_pid s)) s). eexists _, l.
    split; [|split; [constructor|by apply rel_put_pid]].
    unfold mbind, M_bind. by rewrite Hget.
Qed.

(** A reference is dropped; others remain. *)
Lemma destroy_more_run s o pcb r rl :
  get_obj o s = Some (ProcessObj pcb r, s) → get_really r s = Some (rl, s) → ref rl - 1 ≠ 0 →
  process_obj_destroy o s =
    Some (0, set_objs (delete o (ps_obj s)) (set_lists (c_delete o (obj_list s))
      (set_really (<[r := Really (ref rl - 1) (obj rl) (destroy rl)]> (ps_really s)) s))).
Proof.
  intros H1 H2 Hne. unfold process_obj_destroy. rewrite (bind_run _ _ _ _ _ H1). cbn [really].
  rewrite (bind_run _ _ _ _ _ H2). by destruct (Z.eqb_spec (ref rl - 1) 0).
Qed.

(** The last one is dropped: the destructor runs in the state [s1] and leaves [s2]. *)
Lemma destroy_last_run s o pcb r rl s2 :
  get_obj o s = Some (ProcessObj pcb r, s) → get_really r s = Some (rl, s) → ref rl - 1 = 0 →
  call_destroy (destroy rl) (obj rl) (set_really (<[r := Really (ref rl - 1) (obj rl) (destroy rl)]> (ps_really s)) s) = Some (tt, s2) →
  process_obj_destroy o s =
    Some (0, set_objs (delete o (ps_obj s2)) (set_lists (c_delete o (obj_list s2))
      (set_really (delete r (ps_really s2)) s2))).
Proof.
  intros H1 H2 Hz Hd. unfold process_obj_destroy. rewrite (bind_run _ _ _ _ _ H1). cbn [really].
  rewrite (bind_run _ _ _ _ _ H2). rewrite (bind_run _ _ s _ s eq_refl). rewrite (bind_run _ _ s tt _ eq_refl).
  destruct (Z.eqb_spec (ref rl - 1) 0) as [_|]; [|done].
  rewrite (bind_run _ _ _ tt (set_really (delete r (ps_really s2)) s2)); [done|].
  by rewrite (bind_run _ _ _ _ _ Hd).
Qed.

(** [process_rb_earse] of a node in the tree. *)
Lemma earse_run s A n B :
  IInv (process_rb_root s) (A ++ n :: B) →
  ∃ t, process_rb_earse n s = Some (tt, set_rb t (set_pool (PID_CLR (idof (process_rb_root s) n) (pid_pool s)) s)) ∧
    IInv t (A ++ B) ∧ ∀ m, m ∈ A ++ B → idof t m = idof (process_rb_root s) m ∧ objof t m = objof (process_rb_root s) m.
Proof.
  intros HI. destruct (id_erase_run _ _ _ _ HI) as (t & Hrun & HI' & _). set (T1 := IdTree t _ _) in *.
  destruct (ii_id _ _ HI n ltac:(set_solver)) as [p Hp].
  exists (IdTree (RbState (delete n (rb_nodes t)) (rb_root t)) (delete n (it_id T1)) (delete n (it_obj T1))).
  assert (Hne : ∀ m, m ∈ A ++ B → n ≠ m).
  { intros m Hm <-. destruct (ii_tree _ _ HI) as (tr & (_ & _ & Hnd) & _ & Hel). rewrite Hel in Hnd.
    apply NoDup_app in Hnd as (_ & Hd & [Hk _]%NoDup_cons). apply elem_of_app in Hm as [Hm|Hm]; [|done].
    apply (Hd n Hm). set_solver. }
  split; [|split].
  - unfold process_rb_earse. rewrite (bind_run _ _ _ _ _ (on_ids_run _ _ _ _ Hrun)).
    assert (on_ids (id_of n) (set_rb T1 s) = Some (idof (process_rb_root s) n, set_rb T1 s)) as Hid.
    { apply on_ids_read. simpl. rewrite id_of_run by (by eexists). done. }
    rewrite (bind_run _ _ _ _ _ Hid). unfold pid_free. rewrite (bind_run _ _ _ tt _ eq_refl).
    erewrite on_ids_run; [|unfold free_node; simpl; rewrite Hp; reflexivity]. done.
  - eapply inv_ext; [exact HI'|done|]. intros m Hm. simpl. by rewrite !lookup_delete_ne by auto.
  - intros m Hm. unfold idof, objof. simpl. by rewrite !lookup_delete_ne by auto.
Qed.

Lemma destroy_last_rel s G l r g o n A B t lists :
  Rel s G l → groups G !! r = Some g → g_refs g = {[o]} → GroupAt s l r g n → l = A ++ n :: B →
  IInv t (A ++ B) → (∀ m, m ∈ A ++ B → idof t m = idof (process_rb_root s) m ∧ objof t m = objof (process_rb_root s) m) →
  ∀ x, Rel (set_objs (delete o (ps_obj s)) (set_lists lists (set_really (delete r (<[r := x]> (ps_really s)))
      (set_rb t (set_pool (PID_CLR (g_pid g) (pid_pool s)) s)))))
    (Table (delete r (groups G)) (pid_of G) (lost G)) (A ++ B).
Proof.
  intros HR Hg Hrefs Hn -> Ht Hsame x. rewrite delete_insert_eq. set (s' := set_objs _ _).
  assert (Hno : ∀ r', r' ≠ r → node_of s' r' = node_of s r').
  { intros r' Hne. unfold node_of. simpl. by rewrite lookup_delete_ne. }
  assert (Hother : ∀ r' g' n', groups G !! r' = Some g' → r' ≠ r → GroupAt s (A ++ n :: B) r' g' n' → n' ∈ A ++ B ∧ g_pid g' ≠ g_pid g).
  { intros r' g' n' Hg' Hne Hn'. assert (n' ≠ n).
    { intros ->. apply Hne, (rl_inj _ _ _ HR); [by eexists|by eexists|]. unfold node_of.
      by rewrite (ga_really _ _ _ _ _ Hn), (ga_really _ _ _ _ _ Hn'). }
    assert (n' ∈ A ++ B) by (pose proof (ga_node _ _ _ _ _ Hn'); set_solver). split; [done|].
    destruct (sorted_mid _ _ _ _ (ii_sorted _ _ (rl_tree _ _ _ HR))) as (HA & HB & _).
    rewrite <- (ga_pid _ _ _ _ _ Hn), <- (ga_pid _ _ _ _ _ Hn').
    assert (n' ∈ A ∨ n' ∈ B) as [Hin|Hin] by set_solver; [specialize (HA n' Hin)|specialize (HB n' Hin)]; lia. }
  destruct HR as [H1 H2 H3 H4 H5 H6 H7 H8 H9 H10]. constructor; simpl; try done.
  - by rewrite clr_length.
  - intros r' g' [Hne Hg']%lookup_delete_Some. destruct (H5 r' g' Hg') as [n' Hn'].
    destruct (Hother r' g' n' Hg' ltac:(done) Hn') as [Hin Hpid]. destruct Hn' as [? ? ? ? ?]. exists n'.
    destruct (Hsame n' Hin). constructor; simpl; try done; [by rewrite lookup_delete_ne|congruence|congruence].
  - intros m Hm. destruct (H6 m ltac:(set_solver)) as (r' & Hr' & Hnr').
    assert (r' ≠ r).
    { intros ->. unfold node_of in Hnr'. rewrite (ga_really _ _ _ _ _ Hn) in Hnr'. simpl in Hnr'. injection Hnr' as <-.
      destruct (ii_tree _ _ H1) as (tr & (_ & _ & Hnd) & _ & Hel). rewrite Hel in Hnd.
      apply NoDup_app in Hnd as (_ & Hd & [Hk _]%NoDup_cons). apply elem_of_app in Hm as [Hm|Hm]; [|done].
      apply (Hd n Hm). set_solver. }
    exists r'. rewrite lookup_delete_ne, Hno by done. done.
  - apply (rel_inj s s' (groups G)); [done|]. intros r' [g' [Hne Hg']%lookup_delete_Some].
    split; [by eexists|]. apply Hno. done.
  - intros r' g' o' [Hne Hg']%lookup_delete_Some. rewrite (H8 r' g' o' Hg'). unfold really_of. simpl.
    destruct (decide (o' = o)) as [->|]; [|by rewrite lookup_delete_ne].
    rewrite lookup_delete_eq. simpl. pose proof (proj1 (H8 r g o Hg) ltac:(rewrite Hrefs; set_solver)) as Hro.
    unfold really_of in Hro. rewrite Hro. naive_solver.
  - intros o' r' Ho'. unfold really_of in Ho'. simpl in Ho'. destruct (decide (o' = o)) as [->|Hne]; [by rewrite lookup_delete_eq in Ho'|].
    rewrite lookup_delete_ne in Ho' by done. assert (r' ≠ r).
    { intros ->. pose proof (proj2 (H8 r g o' Hg) Ho') as Hin. rewrite Hrefs in Hin. set_solver. }
    rewrite lookup_delete_ne by done. by apply (H9 o').
  - apply pool_leave; [done|done|done|apply Hn|]. intros r' g' Hg' Hne. destruct (H5 r' g' Hg') as [n' Hn'].
    by apply (Hother r' g' n').
Qed.

Lemma set_objs_lists a b s : set_objs a (set_lists b s) = set_lists b (set_objs a s).
Proof. done. Qed.

Lemma destroy_does s G l o : Rel s G l → pid_pre s G (ODestroy o) → does s G (ODestroy o).
Proof.
  intros HR (r & g & Hg & Ho). destruct (alive_run s G l o r g HR Hg Ho) as (n & pcb & Hn & Hobj & Hreally & _).
  unfold does. cbn [pid_do]. destruct (decide (g_refs g = {[o]})) as [Hlast|Hmore].
  - destruct (list_elem_of_split _ _ (ga_node _ _ _ _ _ Hn)) as (A & B & Hl).
    set (s1 := set_really (<[r := Really (Z.of_nat (size (g_refs g)) - 1) n Process_rb_earse]> (ps_really s)) s).
    destruct (earse_run s1 A n B) as (t & Hearse & Ht & Hsame); [rewrite <- Hl; apply HR|].
    exists (RInt 0). eexists _, _, (A ++ B). split; [|split; [by eapply (sp_destroy_last G o r g)|]].
    + erewrite bind_run; [reflexivity|]. eapply (destroy_last_run s o pcb r); [done|done| |].
      * cbn [ref]. rewrite Hlast, size_singleton. done.
      * cbn [destroy obj call_destroy ref]. exact Hearse.
    + unfold s1. cbn -[set_objs]. rewrite (ga_pid _ _ _ _ _ Hn).
      exact (destroy_last_rel s G l r g o n A B t (c_delete o (obj_list s)) HR Hg Hlast Hn Hl Ht Hsame _).
  - assert (Hsz : size (g_refs g) = S (size (g_refs g ∖ {[o]}))).
    { rewrite size_difference by (by apply singleton_subseteq_l). rewrite size_singleton.
      assert (size (g_refs g) ≠ 0%nat) by (apply size_non_empty_iff; intros Hz; apply (not_elem_of_empty (C := gset N) o); by rewrite <- Hz). lia. }
    assert (size (g_refs g ∖ {[o]}) ≠ 0%nat) by (apply size_non_empty_iff; intros Hz; apply Hmore, leibniz_equiv;
      intros x; specialize (Hz x); clear -Hz Ho; destruct (decide (x = o)); set_solver).
    exists (RInt 0). eexists _, _, l. split; [|split; [by eapply (sp_destroy G o r g)|]].
    + erewrite bind_run; [reflexivity|]. apply (destroy_more_run s o pcb r _ Hobj Hreally). cbn [ref]. lia.
    + cbn [ref obj destroy]. assert (Z.of_nat (size (g_refs g)) - 1 = Z.of_nat (size (g_refs g ∖ {[o]}))) as -> by lia.
      rewrite set_objs_lists. apply rel_refs; [done|done| | | |].
      * unfold node_of. by rewrite (ga_really _ _ _ _ _ Hn).
      * intros o' r' Hr' Hne. unfold really_of. destruct (decide (o' = o)) as [->|]; [|by rewrite lookup_delete_ne].
        rewrite lookup_delete_eq. simpl. pose proof (proj1 (rl_refs _ _ _ HR r g o Hg) Ho) as Hro.
        unfold really_of in Hro. rewrite Hro. naive_solver.
      * intros o'. destruct (decide (o' = o)) as [->|]; [rewrite lookup_delete_eq; set_solver|].
        rewrite lookup_delete_ne by done. rewrite elem_of_difference, elem_of_singleton, (rl_refs _ _ _ HR r g o' Hg).
        unfold really_of. naive_solver.
      * intros o' r' [ob [Hob%lookup_delete_Some ->]]%fmap_Some. right. unfold really_of. by destruct Hob as [_ ->].
Qed.

Lemma pid_alloc_run s :
  1 <= g_last_pid s < PROCESS_MAX → (∃ p, (p = g_last_pid s ∨ 2 <= p < PROCESS_MAX) ∧ PID_ISSET p (pid_pool s) = false) →
  ∃ q, pid_alloc PROCESS_MAX s = Some (q, set_last (pid_after PROCESS_MAX q) (set_pool (PID_SET q (pid_pool s)) s)) ∧
    1 <= q < PROCESS_MAX ∧ PID_ISSET q (pid_pool s) = false.
Proof.
  intros Hl (p & Hp & Hfree). destruct (skip_finds (pid_pool s) p (g_last_pid s) Hl Hp Hfree) as (q & Hq & Hr & Hqf).
  exists q. split; [|done]. unfold pid_alloc. rewrite (bind_run _ _ s _ s eq_refl), (bind_run _ _ s _ s eq_refl).
  by rewrite Hq.
Qed.

Lemma after_range q : 1 <= q < PROCESS_MAX → 1 <= pid_after PROCESS_MAX q < PROCESS_MAX.
Proof. unfold pid_after. destruct (Z.eqb_spec (q + 1) PROCESS_MAX); lia. Qed.

(** Another identifier is taken. *)
Lemma rel_set_pid s G l q last :
  Rel s G l → 1 <= q < PROCESS_MAX → 1 <= last < PROCESS_MAX → PID_ISSET q (pid_pool s) = false →
  Rel (set_last last (set_pool (PID_SET q (pid_pool s)) s)) (Table (groups G) (pid_of G) ({[q]} ∪ lost G)) l.
Proof.
  intros [H1 H2 H3 H4 H5 H6 H7 H8 H9 H10] Hq Hl Hf. constructor; simpl; try done; [by rewrite set_length| |by apply pool_take].
  intros r g Hg. destruct (H5 r g Hg) as [n [? ? ? ? ?]]. exists n. by constructor.
Qed.

(** A node outside the tree. *)
Lemma rel_nodes s G l t :
  Rel s G l → rb_root (it_tree t) = rb_root (it_tree (process_rb_root s)) →
  (∀ k, k ∈ l → rb_nodes (it_tree t) !! k = rb_nodes (it_tree (process_rb_root s)) !! k ∧
    it_id t !! k = it_id (process_rb_root s) !! k ∧ it_obj t !! k = it_obj (process_rb_root s) !! k) →
  Rel (set_rb t s) G l.
Proof.
  intros [H1 H2 H3 H4 H5 H6 H7 H8 H9 H10] Hr Hext. constructor; simpl; try done; [by eapply inv_ext|].
  intros r g Hg. destruct (H5 r g Hg) as [n [? Hn ? ? ?]]. exists n. destruct (Hext n Hn) as (_ & Hi & Ho).
  constructor; simpl; try done; [unfold idof; by rewrite Hi|unfold objof; by rewrite Ho].
Qed.

(** The node of a new process joins the tree. *)
Lemma alloc_rel s G l l' n t p pcb po r lists :
  Rel s G l → IInv (IdTree t (it_id (process_rb_root s)) (it_obj (process_rb_root s))) l' → l' ≡ₚ n :: l → n ∉ l →
  idof (process_rb_root s) n = p → objof (process_rb_root s) n = pcb → 1 <= p < PROCESS_MAX →
  p ∈ lost G → ps_really s !! r = None → ps_obj s !! po = None → groups G !! r = None →
  Rel (set_rb (IdTree t (it_id (process_rb_root s)) (it_obj (process_rb_root s)))
        (set_pid (<[pcb := Some po]> (pcb_pid s)) (set_lists lists (set_objs (<[po := ProcessObj pcb r]> (ps_obj s))
          (set_really (<[r := Really 1 n Process_rb_earse]> (ps_really s)) s)))))
    (Table (<[r := Group p pcb {[po]}]> (groups G)) (<[pcb := Some po]> (pid_of G)) (lost G ∖ {[p]})) l'.
Proof.
  intros HR HI' Hl' Hn Hid Hobj Hp Hset Hr Hpo Hgr. set (s' := set_rb _ _).
  assert (Hno : ∀ r', r' ≠ r → node_of s' r' = node_of s r').
  { intros r' Hne. unfold node_of. simpl. by rewrite lookup_insert_ne. }
  assert (Hnr : node_of s' r = Some n) by (unfold node_of; simpl; by rewrite lookup_insert_eq).
  assert (Hold : ∀ r', is_Some (groups G !! r') → node_of s r' ≠ Some n).
  { intros r' [g Hg] Hx. destruct (rl_group _ _ _ HR r' g Hg) as [n' Hn']. unfold node_of in Hx.
    rewrite (ga_really _ _ _ _ _ Hn') in Hx. simpl in Hx. injection Hx as ->. apply Hn, Hn'. }
  assert (Hkey : ∀ r', is_Some (<[r := Group p pcb {[po]}]> (groups G) !! r') → r' ≠ r → is_Some (groups G !! r')).
  { intros r' Hs Hne. by rewrite lookup_insert_ne in Hs. }
  destruct HR as [H1 H2 H3 H4 H5 H6 H7 H8 H9 H10]. constructor; simpl; try done.
  - by rewrite H4.
  - intros r' g' Hg'. destruct (decide (r' = r)) as [->|Hne].
    + rewrite lookup_insert_eq in Hg'. injection Hg' as <-. exists n.
      constructor; cbn [g_refs g_pid g_leader]; try done; [rewrite size_singleton; apply lookup_insert_eq|rewrite Hl'; set_solver].
    + rewrite lookup_insert_ne in Hg' by done. destruct (H5 r' g' Hg') as [n' [? ? ? ? ?]]. exists n'.
      constructor; simpl; try done; [by rewrite lookup_insert_ne|rewrite Hl'; by right].
  - intros m Hm. rewrite Hl' in Hm. apply elem_of_cons in Hm as [->|Hm].
    + exists r. rewrite lookup_insert_eq. split; [by eexists|done].
    + destruct (H6 m Hm) as (r' & Hr' & Hnr'). assert (r' ≠ r) by (intros ->; rewrite Hgr in Hr'; by destruct Hr').
      exists r'. by rewrite lookup_insert_ne, Hno by done.
  - intros r1 r2 Hs1 Hs2 Heq. destruct (decide (r1 = r)) as [->|N1], (decide (r2 = r)) as [->|N2]; [done| | |].
    + rewrite Hnr, Hno in Heq by done. symmetry in Heq. by apply Hold in Heq; [|apply Hkey].
    + rewrite Hnr, Hno in Heq by done. by apply Hold in Heq; [|apply Hkey].
    + rewrite !Hno in Heq by done. apply H7; [by apply Hkey|by apply Hkey|done].
  - intros r' g' o' Hg'. unfold really_of. simpl. destruct (decide (r' = r)) as [->|Hne].
    + rewrite lookup_insert_eq in Hg'. injection Hg' as <-. simpl. rewrite elem_of_singleton.
      destruct (decide (o' = po)) as [->|Ho]; [by rewrite lookup_insert_eq|]. rewrite lookup_insert_ne by done.
      split; [done|]. intros Hx. destruct (H9 o' r Hx). congruence.
    + rewrite lookup_insert_ne in Hg' by done. rewrite (H8 r' g' o' Hg'). unfold really_of.
      destruct (decide (o' = po)) as [->|Ho]; [|by rewrite lookup_insert_ne]. rewrite lookup_insert_eq, Hpo. naive_solver.
  - intros o' r' Ho'. unfold really_of in Ho'. simpl in Ho'. rewrite lookup_insert_is_Some.
    destruct (decide (r = r')); [by left|right]. split; [done|].
    destruct (decide (o' = po)) as [->|]; [rewrite lookup_insert_eq in Ho'; simpl in Ho'; congruence|].
    rewrite lookup_insert_ne in Ho' by done. by apply (H9 o').
  - by apply (pool_join (pid_pool s) G r (Group p pcb {[po]})).
Qed.

Definition with_node (n : N) (id : Z) (ob : N) (t : id_tree) : id_tree :=
  IdTree (RbState (<[n := RbNode None false None None]> (rb_nodes (it_tree t))) (rb_root (it_tree t)))
    (<[n := id]> (it_id t)) (<[n := ob]> (it_obj t)).

Definition without_node (n : N) (t : id_tree) : id_tree :=
  IdTree (RbState (delete n (rb_nodes (it_tree t))) (rb_root (it_tree t))) (delete n (it_id t)) (delete n (it_obj t)).

Lemma rel_with s G l n id ob : Rel s G l → n ∉ l → Rel (set_rb (with_node n id ob (process_rb_root s)) s) G l.
Proof.
  intros HR Hn. apply rel_nodes; [done|done|]. intros k Hk. simpl. by rewrite !lookup_insert_ne by set_solver.
Qed.

Lemma rel_without s G l n : Rel s G l → n ∉ l → Rel (set_rb (without_node n (process_rb_root s)) s) G l.
Proof.
  intros HR Hn. apply rel_nodes; [done|done|]. intros k Hk. simpl. by rewrite !lookup_delete_ne by set_solver.
Qed.

(** Creating the shared object fails: the node is freed. *)
Lemma alloc_fails_run s pcb n c1 c2 q s1 :
  pid_alloc PROCESS_MAX s = Some (q, s1) → 0 <= q → (c1 = None ∨ c2 = None) →
  pid_obj_alloc PROCESS_MAX pcb (Some n) c1 c2 s =
    Some (None, set_rb (without_node n (with_node n q pcb (process_rb_root s1))) (set_pid (<[pcb := None]> (pcb_pid s1)) s1)).
Proof.
  intros Ha Hq Hc. unfold pid_obj_alloc. rewrite (bind_run _ _ _ _ _ Ha).
  rewrite (bind_run _ _ s1 tt (set_rb (with_node n q pcb (process_rb_root s1)) s1) eq_refl).
  destruct (Z.ltb_spec q 0); [lia|].
  assert (process_obj_create pcb n Process_rb_earse c1 c2 = mret None) as -> by (by destruct c1, c2, Hc).
  unfold mbind, M_bind, put_pcb_pid, on_ids, free_node. simpl. by rewrite lookup_insert_eq.
Qed.

Lemma alloc_run s pcb n po r q s1 t x :
  pid_alloc PROCESS_MAX s = Some (q, s1) → 0 <= q →
  id_insert n (with_node n q pcb (process_rb_root s1)) = Some (x, t) →
  pid_obj_alloc PROCESS_MAX pcb (Some n) (Some po) (Some r) s =
    Some (Some po, set_rb t (set_pid (<[pcb := Some po]> (pcb_pid s1)) (set_lists (c_add_tail po pcb (obj_list s1))
      (set_objs (<[po := ProcessObj pcb r]> (ps_obj s1)) (set_really (<[r := Really 1 n Process_rb_earse]> (ps_really s1))
        (set_rb (with_node n q pcb (process_rb_root s1)) s1)))))).
Proof.
  intros Ha Hq Hi. unfold pid_obj_alloc. rewrite (bind_run _ _ _ _ _ Ha).
  rewrite (bind_run _ _ s1 tt (set_rb (with_node n q pcb (process_rb_root s1)) s1) eq_refl).
  destruct (Z.ltb_spec q 0); [lia|]. unfold process_rb_insert, on_ids, process_obj_create, put_pcb_pid, mbind, M_bind. simpl.
  by rewrite Hi.
Qed.

Lemma alloc_does s G l pcb node c1 c2 :
  Rel s G l → pid_pre s G (OAlloc pcb node c1 c2) → does s G (OAlloc pcb node c1 c2).
Proof.
  intros HR (Hnode & Hpo & Hr & Hfree). unfold does. cbn [pid_do]. destruct node as [n|].
  2: { exists (RPtr None), s, G, l. split; [done|]. split; [constructor|done]. }
  specialize (Hnode n eq_refl).
  assert (Hn : n ∉ l) by (intros Hin; destruct (ii_id _ _ (rl_tree _ _ _ HR) n Hin); congruence).
  assert (Hbit : ∃ p, (p = g_last_pid s ∨ 2 <= p < PROCESS_MAX) ∧ PID_ISSET p (pid_pool s) = false).
  { destruct Hfree as (p & Hp & Hf). exists p. split; [done|]. apply (pool_free _ G); [apply HR| |done].
    pose proof (rl_last _ _ _ HR). lia. }
  destruct (pid_alloc_run s (rl_last _ _ _ HR) Hbit) as (q & Ha & Hq & Hqf). set (s1 := set_last _ _) in Ha.
  destruct (proj1 (pool_free _ G q (rl_pool _ _ _ HR) Hq) Hqf) as [Hunused Hkept].
  set (G1 := Table (groups G) (pid_of G) ({[q]} ∪ lost G)).
  assert (HR1 : Rel s1 G1 l) by (by apply rel_set_pid; [| |apply after_range|]).
  assert (Hfail : c1 = None ∨ c2 = None → ∃ res s' G' l', (r ← pid_obj_alloc PROCESS_MAX pcb (Some n) c1 c2; mret (RPtr r)) s = Some (res, s') ∧
    pid_spec G (OAlloc pcb (Some n) c1 c2) res G' ∧ Rel s' G' l').
  { intros Hc. eexists (RPtr None), _, _, l. split; [|split; [by apply (sp_alloc_fails G pcb n c1 c2 q)|]].
    - rewrite (bind_run _ _ _ _ _ (alloc_fails_run s pcb n c1 c2 q s1 Ha ltac:(lia) Hc)). done.
    - exact (rel_without _ _ l n (rel_put_pid _ _ l pcb None (rel_with s1 G1 l n q pcb HR1 Hn)) Hn). }
  destruct c1 as [po|]; [|apply Hfail; by left]. destruct c2 as [r|]; [|apply Hfail; by right]. clear Hfail.
  specialize (Hpo po eq_refl). specialize (Hr r eq_refl). set (t2 := with_node n q pcb (process_rb_root s1)).
  pose proof (rel_with s1 G1 l n q pcb HR1 Hn) as HR2.
  assert (Hid : idof t2 n = q) by (unfold idof; simpl; by rewrite lookup_insert_eq).
  assert (Hob : objof t2 n = pcb) by (unfold objof; simpl; by rewrite lookup_insert_eq).
  destruct (id_insert_run t2 l n (rl_tree _ _ _ HR2)) as [[(m & Hm & Hmi) _]|(_ & t & l' & Hins & HI' & Hl' & _)];
    [simpl; rewrite lookup_insert_eq; by eexists..|done| |].
  { exfalso. apply Hunused. destruct (node_group _ _ _ _ HR2 Hm) as (r' & g & Hg & Hat). exists r', g. split; [done|].
    transitivity (idof t2 m); [symmetry; apply (ga_pid _ _ _ _ _ Hat)|by rewrite Hmi]. }
  eexists (RPtr (Some po)), _, _, l'. split; [|split; [by apply (sp_alloc G pcb n po r q)|]].
  - rewrite (bind_run _ _ _ _ _ (alloc_run s pcb n po r q s1 _ 0 Ha ltac:(lia) Hins)). done.
  - assert (lost G = lost G1 ∖ {[q]}) as -> by (clear -Hkept; simpl; set_solver).
    refine (alloc_rel _ G1 l l' n t q pcb po r _ HR2 HI' Hl' Hn Hid Hob Hq _ Hr Hpo _).
    + simpl. set_solver.
    + destruct (groups G !! r) as [g|] eqn:Eg; [|done]. destruct (rl_group _ _ _ HR r g Eg) as [m Hm].
      pose proof (ga_really _ _ _ _ _ Hm). congruence.
Qed.

Lemma leader_does s G l pcb : Rel s G l → pid_pre s G (OLeader pcb) → does s G (OLeader pcb).
Proof.
  intros HR (o & Hp & r & g & Hg & Ho). destruct (alive_run s G l o r g HR Hg Ho) as (n & pcb' & Hn & _ & _ & Hrun).
  assert (get_pcb_pid pcb s = Some (Some o, s)) as Hget by (unfold get_pcb_pid, gets; by rewrite (rl_pid _ _ _ HR), Hp).
  destruct (ii_obj _ _ (rl_tree _ _ _ HR) n (ga_node _ _ _ _ _ Hn)) as [v Hv].
  set (t := IdTree (it_tree (process_rb_root s)) (it_id (process_rb_root s)) (<[n := pcb]> (it_obj (process_rb_root s)))).
  exists ROk, (set_rb t s), (Table (<[r := Group (g_pid g) pcb (g_refs g)]> (groups G)) (pid_of G) (lost G)), l.
  split; [|split; [by econstructor|]].
  - cbn [pid_do]. unfold pcb_set_pid_leader. unfold mbind at 1, M_bind at 1. rewrite (bind_run _ _ _ _ _ Hget).
    rewrite (bind_run _ _ s o s eq_refl), (bind_run _ _ _ _ _ Hrun). unfold on_ids, set_obj. by rewrite Hv.
  - assert (Hkey : ∀ r', is_Some (<[r := Group (g_pid g) pcb (g_refs g)]> (groups G) !! r') → is_Some (groups G !! r')).
    { intros r'. rewrite lookup_insert_is_Some. intros [<-|[_ ?]]; [by eexists|done]. }
    pose proof (rl_inj _ _ _ HR) as Hinj. destruct HR as [H1 H2 H3 H4 H5 H6 H7 H8 H9 H10]. constructor; simpl; try done.
    + destruct H1 as [? ? Hobj ?]. constructor; simpl; try done. intros m Hm. rewrite lookup_insert_is_Some.
      destruct (decide (n = m)); [by left|right; split; [done|auto]].
    + intros r' g' Hg'. destruct (decide (r' = r)) as [->|Hne].
      * rewrite lookup_insert_eq in Hg'. injection Hg' as <-. exists n. destruct Hn as [? ? ? ? ?]. constructor; simpl; try done.
        unfold objof. simpl. by rewrite lookup_insert_eq.
      * rewrite lookup_insert_ne in Hg' by done. destruct (H5 r' g' Hg') as [m Hm]. exists m.
        assert (n ≠ m). { intros <-. apply Hne, Hinj; [by eexists|by eexists|]. unfold node_of.
          by rewrite (ga_really _ _ _ _ _ Hm), (ga_really _ _ _ _ _ Hn). }
        destruct Hm as [? ? ? ? ?]. constructor; simpl; try done. unfold objof. simpl. by rewrite lookup_insert_ne.
    + intros m Hm. destruct (H6 m Hm) as (r' & Hr' & Hno). exists r'. rewrite lookup_insert_is_Some.
      split; [destruct (decide (r = r')); [by left|by right]|done].
    + intros r1 r2 ?%Hkey ?%Hkey. by apply Hinj.
    + intros r' g' o' Hg'. destruct (decide (r' = r)) as [->|Hne]; [|by rewrite lookup_insert_ne in Hg'; auto].
      rewrite lookup_insert_eq in Hg'. injection Hg' as <-. exact (H8 r g o' Hg).
    + apply (pool_same _ G); [done|done|]. intros p. by apply (in_use_update G r g).
Qed.

(** C13: process identifiers.  Against a table of processes with their identifier,
    leader and references: [pid_obj_alloc] gives an identifier between 1 and
    [CONFIG_PROCESS_MAX] that no process has; [pid_obj_ref] adds a thread;
    [process_obj_destroy] drops a reference, and with the last one the process leaves
    the tree and its identifier is free again; [process_rb_search] finds the leader of
    an identifier exactly when a process has it; [process_foreach] visits every
    process once, in the order of the identifiers.  The bit of an identifier in the
    pool is set exactly when a process has it, or when it was lost: an allocation that
    fails for want of memory after it took an identifier changes no process and never
    gives the identifier back.  No call faults, provided the objects it names are
    alive, the memory it is given is fresh and, for [pid_obj_alloc], some identifier
    is neither taken nor lost. *)
Theorem pid_table_correct s G l o :
  Rel s G l → pid_pre s G o → ∃ res s' G' l', pid_do o s = Some (res, s') ∧ pid_spec G o res G' ∧ Rel s' G' l'.
Proof.
  intros HR Hpre. destruct o.
  - by eapply alloc_does.
  - by eapply ref_does.
  - by eapply destroy_does.
  - by eapply search_does.
  - by eapply foreach_does.
  - by eapply leader_does.
  - by eapply get_pid_does.
Qed.

(** A search for an identifier ends after at most twice the binary logarithm of
    the number of processes turns, and one more to stop; it finds the node exactly
    when the identifier is there. *)
Theorem pid_search_turns s l id fuel :
  IInv (process_rb_root s) l → (2 * Nat.log2 (S (length l)) < fuel)%nat →
  ∃ r, search_loop fuel id (rb_root (it_tree (process_rb_root s))) (process_rb_root s) = Some (r, process_rb_root s) ∧
    found (process_rb_root s) l id r.
Proof. apply search_turns. Qed.

(** When every identifier is taken, [pid_alloc] never returns, however long the
    loop is followed; it holds [process_pid_lock] with interrupts off. *)
Theorem pid_alloc_spins s :
  (∀ p, 2 <= p < PROCESS_MAX → PID_ISSET p (pid_pool s) = true) → 2 <= g_last_pid s < PROCESS_MAX →
  ∀ fuel, pid_skip PROCESS_MAX fuel (pid_pool s) (g_last_pid s) = None.
Proof. intros Hfull Hl fuel. by apply skip_full. Qed.

End Pool.

(** ** Instances *)

(** The state at boot, with 16 identifiers. *)
Definition boot_pids : pid_state :=
  PidState [0; 0] 1 (IdTree (RbState ∅ None) ∅ ∅) ∅ ∅ ∅ ∅ ∅ [].

Lemma boot_pool : PoolOk 16 (pid_pool boot_pids) (Table ∅ ∅ ∅).
Proof.
  constructor; [|set_solver]. intros p Hp. split.
  - rewrite isset_bit with (PROCESS_MAX := 16) by (done || lia). unfold pid_word. simpl.
    by rewrite (Z.div_small p 64), Z.bits_0 by lia.
  - intros [(r & g & Hg & _)|Hin]; [done|set_solver].
Qed.

Lemma pid_table_correct_witness :
  ∃ res s' G' l', pid_do 16 (OAlloc 100 (Some 1%N) (Some 2%N) (Some 3%N)) boot_pids = Some (res, s') ∧
    pid_spec 16 (Table ∅ ∅ ∅) (OAlloc 100 (Some 1%N) (Some 2%N) (Some 3%N)) res G' ∧ Rel 16 s' G' l'.
Proof.
  apply (pid_table_correct 16 ltac:(lia) boot_pids (Table ∅ ∅ ∅) []).
  - constructor; try done; simpl.
    + constructor; [|set_solver|set_solver|constructor]. exists E. split; [|split; [split; [done|]; exists 0%nat; constructor|done]].
      split_and!; [done|done|constructor].
    + intros n Hn. by apply not_elem_of_nil in Hn.
    + intros r r' [g Hg]. done.
    + apply boot_pool.
  - split_and!; try done. exists 1. split_and!; [by left|by intros (r & g & Hg & _)|set_solver].
Defined.

(** Six processes. *)
Definition six : pid_state :=
  set_rb (IdTree state5 (list_to_map ((λ n, (n, Z.of_N (10 * n))) <$> [1; 2; 3; 4; 5; 6]%N))
    (list_to_map ((λ n, (n, n)) <$> [1; 2; 3; 4; 5; 6]%N))) boot_pids.

Lemma pid_search_turns_witness :
  ∃ r, search_loop 5 50 (rb_root (it_tree (process_rb_root six))) (process_rb_root six) = Some (r, process_rb_root six) ∧
    found (process_rb_root six) [1; 2; 3; 4; 5; 6]%N 50 r.
Proof.
  apply (pid_search_turns six); [|apply Nat.ltb_lt; by vm_compute]. constructor.
  - apply state5_holds.
  - intros n Hn. repeat (apply elem_of_cons in Hn as [->|Hn]; [by eexists|]). by apply not_elem_of_nil in Hn.
  - intros n Hn. repeat (apply elem_of_cons in Hn as [->|Hn]; [by eexists|]). by apply not_elem_of_nil in Hn.
  - repeat (apply StronglySorted_cons; split; [repeat (apply Forall_cons; split; [by vm_compute|]); by apply Forall_nil|]).
    constructor.
Defined.

Definition full_pids : pid_state := PidState [2 ^ 64 - 1; 2 ^ 64 - 1] 2 (IdTree (RbState ∅ None) ∅ ∅) ∅ ∅ ∅ ∅ ∅ [].

Lemma pid_alloc_spins_witness :
  g_last_pid full_pids = 2 ∧ ∀ fuel, pid_skip 16 fuel (pid_pool full_pids) (g_last_pid full_pids) = None.
Proof.
  split; [done|]. apply (pid_alloc_spins 16 ltac:(lia) full_pids); [|by vm_compute].
  intros p Hp. assert (p = 2 ∨ p = 3 ∨ p = 4 ∨ p = 5 ∨ p = 6 ∨ p = 7 ∨ p = 8 ∨ p = 9 ∨ p = 10 ∨ p = 11 ∨ p = 12 ∨ p = 13 ∨ p = 14 ∨ p = 15) as Hc by lia.
  repeat (destruct Hc as [->|Hc]; [by vm_compute|]). subst p. by vm_compute.
Defined.
