(* ===== verification/KTime.v ===== *)
(** * Kernel time: representations and conversions

    [include/time/ktime.h], [kernel/time/ktime.c] and the arithmetic of
    [components/clock].  A [ktime_t] is a signed number of nanoseconds in 64 bits, a
    [timespec64] seconds and nanoseconds; most constants are unsigned, so that the
    comparisons and quotients of the code are unsigned ones. *)

From S2P Require Import Prelude.
Import Width.

Open Scope Z_scope.

(** ** Signed 64-bit and 32-bit integers *)

Definition s64 (x : Z) : Z := (x + 2 ^ 63) mod 2 ^ 64 - 2 ^ 63.
Definition s32 (x : Z) : Z := (x + 2 ^ 31) mod 2 ^ 32 - 2 ^ 31.

Definition is_s64 (x : Z) : Prop := - 2 ^ 63 <= x < 2 ^ 63.

(** [NSEC_PER_SEC] and the like are of type [unsigned long long]. *)
Definition MSEC_PER_SEC : Z := 1000.
Definition NSEC_PER_USEC : Z := 1000.
Definition NSEC_PER_MSEC : Z := 1000000.
Definition NSEC_PER_SEC : Z := 1000000000.
Definition KTIME_MAX : Z := 2 ^ 63 - 1.
Definition KTIME_SEC_MAX : Z := KTIME_MAX / NSEC_PER_SEC.
Definition KTIME_UPTIME_HEADROOM_SEC : Z := 30 * 365 * 24 * 3600.
Definition KTIME_SETTIME_SEC_MAX : Z := KTIME_SEC_MAX - KTIME_UPTIME_HEADROOM_SEC.
Definition EINVAL : Z := 22.

Record timespec64 := Timespec { tv_sec : Z; tv_nsec : Z }.

(** ** ktime.h *)

Definition timespec64_valid (ts : timespec64) : bool :=
  if tv_sec ts <? 0 then false
  else if NSEC_PER_SEC <=? u64 (tv_nsec ts) then false
  else true.

Definition timespec64_to_ns (ts : timespec64) : Z :=
  if KTIME_SEC_MAX <=? u64 (tv_sec ts) then KTIME_MAX
  else s64 (u64 (tv_sec ts) * NSEC_PER_SEC + u64 (tv_nsec ts)).

Definition ktime_sub (kt1 kt2 : Z) : Z := s64 (kt1 - kt2).
Definition ktime_add (kt1 kt2 : Z) : Z := s64 (kt1 + kt2).
Definition ktime_add_unsafe (kt1 kt2 : Z) : Z := u64 (u64 kt1 + u64 kt2).

Definition ktime_set (secs nsecs : Z) : Z :=
  if KTIME_SEC_MAX <=? u64 secs then KTIME_MAX else s64 (u64 secs * NSEC_PER_SEC + u64 nsecs).

Definition ktime_to_ns (ktime : Z) : Z := ktime.
Definition timespec64_to_ktime (ts : timespec64) : Z := ktime_set (tv_sec ts) (u64 (tv_nsec ts)).

(** [ktime_add_safe] of ktimer.c. *)
Definition ktime_add_safe (kt1 kt2 : Z) : Z :=
  let time := s64 (ktime_add_unsafe kt1 kt2) in
  if (time <? 0) || (time <? kt1) || (time <? kt2) then ktime_set KTIME_SEC_MAX 0 else time.

(** ** ktime.c *)

Definition timespec64_from_ns (nsec : Z) : timespec64 :=
  if 0 <? nsec then Timespec (s64 (u64 nsec / NSEC_PER_SEC)) (s64 (u64 nsec mod NSEC_PER_SEC))
  else if nsec <? 0 then
    let m := s64 (- nsec - 1) in
    Timespec (s64 (- (u64 m / NSEC_PER_SEC) - 1))
             (s64 (NSEC_PER_SEC - s32 (u64 m mod NSEC_PER_SEC) - 1))
  else Timespec 0 0.

Definition ktime_to_ts64 (ktime : Z) : timespec64 :=
  Timespec (s64 (u64 ktime / NSEC_PER_SEC)) (s64 (u64 ktime mod NSEC_PER_SEC)).

(** The clocks: the wall time of the hardware, the offsets and the time zone. *)
Record clocks := Clocks {
  walltime : Z;
  g_offset_real : Z;
  g_offset_boot : Z;
  g_offset_tai : Z;
  tz_minuteswest : Z;
}.

Definition ktime_now (c : clocks) : Z := s64 (walltime c).
Definition ktime_get_boottime (c : clocks) : Z := s64 (ktime_now c + g_offset_boot c).
Definition ktime_get_clocktai (c : clocks) : Z := s64 (ktime_now c + g_offset_tai c).
Definition ktime_get_real (c : clocks) : Z := s64 (ktime_now c + g_offset_real c).

Definition ktime_set_real (offset : Z) (c : clocks) : clocks :=
  Clocks (walltime c) (s64 (g_offset_real c + offset)) (g_offset_boot c) (g_offset_tai c) (tz_minuteswest c).

Definition read_realtime_ts64 (c : clocks) : timespec64 := ktime_to_ts64 (ktime_get_real c).
Definition ktime_get_boottime_ts64 (c : clocks) : timespec64 := ktime_to_ts64 (ktime_get_boottime c).
Definition ktime_get_monotonic_timespec (c : clocks) : timespec64 := ktime_to_ts64 (ktime_now c).

Definition kernel_settimeofday64 (tv : option timespec64) (tz : option Z) (c : clocks) : Z * clocks :=
  let bad := match tv with
             | Some t => negb (timespec64_valid t) || (KTIME_SETTIME_SEC_MAX <=? u64 (tv_sec t))
             | None => false
             end in
  if bad then (- EINVAL, c)
  else
    let c := match tv with
             | Some t => ktime_set_real (s64 (timespec64_to_ktime t - ktime_get_real c)) c
             | None => c
             end in
    match tz with
    | Some z => if (15 * 60 <? z) || (z <? - (15 * 60)) then (- EINVAL, c)
                else (0, Clocks (walltime c) (g_offset_real c) (g_offset_boot c) (g_offset_tai c) z)
    | None => (0, c)
    end.

(** ** components/clock *)

Definition CLOCK_REALTIME : Z := 0.
Definition CLOCK_MONOTONIC : Z := 1.
Definition CLOCK_BOOTTIME : Z := 7.

Definition kernel_clock_gettime (clk : Z) (c : clocks) : Z + timespec64 :=
  if clk =? CLOCK_REALTIME then inr (read_realtime_ts64 c)
  else if clk =? CLOCK_MONOTONIC then inr (ktime_get_monotonic_timespec c)
  else if clk =? CLOCK_BOOTTIME then inr (ktime_get_boottime_ts64 c)
  else inl (- EINVAL).

Definition clock_timespec_add64 (time1 time2 : timespec64) : timespec64 :=
  let sec := s64 (tv_sec time1 + tv_sec time2) in
  let nsec := s64 (tv_nsec time1 + tv_nsec time2) in
  if NSEC_PER_SEC <=? u64 nsec then Timespec (s64 (sec + 1)) (s64 (u64 nsec - NSEC_PER_SEC)) else Timespec sec nsec.

Definition clock_timespec_subtract64 (ts1 ts2 : timespec64) : timespec64 :=
  if tv_sec ts1 <? tv_sec ts2 then Timespec 0 0
  else if (tv_sec ts1 =? tv_sec ts2) && (tv_nsec ts1 <=? tv_nsec ts2) then Timespec 0 0
  else
    let sec := s64 (tv_sec ts1 - tv_sec ts2) in
    if tv_nsec ts1 <? tv_nsec ts2
    then Timespec (s64 (sec - 1)) (s64 (u64 (tv_nsec ts1) + NSEC_PER_SEC - u64 (tv_nsec ts2)))
    else Timespec sec (s64 (tv_nsec ts1 - tv_nsec ts2)).

(** [clock_timespec_add] and [clock_timespec_subtract] are the same code on [timespec]. *)
Definition clock_timespec_add := clock_timespec_add64.
Definition clock_timespec_subtract := clock_timespec_subtract64.

Definition clock_time_abs_to_timespec (now abstime : timespec64) : option timespec64 :=
  if u64 (u64 (tv_sec abstime) * NSEC_PER_SEC + u64 (tv_nsec abstime)) <?
     u64 (u64 (tv_sec now) * NSEC_PER_SEC + u64 (tv_nsec now)) then None
  else Some (clock_timespec_subtract abstime now).

(** The conversion of a relative time into ticks of [tick_ns] nanoseconds; [now] is
    the reading of the real-time clock for an absolute one. *)
Definition ROUNDUP (x y : Z) : Z := u64 (u64 (u64 (x + (y - 1)) / y) * y).

Definition clock_time_to_tick (tick_ns : Z) (time : timespec64) (is_abs_timeout : bool) (now : timespec64) : Z :=
  if negb (tv_sec time =? 0) || negb (tv_nsec time =? 0) then
    let tp := if is_abs_timeout then now else Timespec 0 0 in
    let '(nsecond, second) :=
      if s64 (tv_nsec time - tv_nsec tp) <? 0
      then (s64 (NSEC_PER_SEC - (tv_nsec tp - tv_nsec time)), s64 (tv_sec time - tv_sec tp - 1))
      else (s64 (tv_nsec time - tv_nsec tp), s64 (tv_sec time - tv_sec tp)) in
    let rate := NSEC_PER_SEC / tick_ns in
    let tick := s32 (s32 (u64 (u64 (s64 (second * rate)) + ROUNDUP nsecond tick_ns / tick_ns)) + 1) in
    if tick <? 0 then 0 else tick
  else 0.

Definition timespec64_to_clock_t (tick_ns : Z) (time : timespec64) : Z :=
  clock_time_to_tick tick_ns time false (Timespec 0 0).

Definition TTOS_WAIT_FOREVER : Z := 4294967295.

Definition clock_ms_to_tick (tick_ns ms : Z) : Z :=
  if ms <? 0 then TTOS_WAIT_FOREVER
  else timespec64_to_clock_t tick_ns (Timespec (ms / MSEC_PER_SEC) (ms mod MSEC_PER_SEC * NSEC_PER_MSEC)).

Definition timespec64_to_ms (time : timespec64) : Z :=
  u64 (u64 (tv_sec time) * MSEC_PER_SEC + u64 (tv_nsec time) / NSEC_PER_MSEC).

(** ttos_time.c: [count] periods of a counter that runs at [freq]. *)
Definition ttos_time_count_to_ns (freq count : Z) : Z :=
  if freq =? 0 then count
  else
    let seconds := count / freq in
    let nanoseconds := u64 (count mod freq * NSEC_PER_SEC) / freq in
    u64 (seconds * NSEC_PER_SEC + nanoseconds).
