(* ===== verification/KTimeProps.v ===== *)
(** * Kernel time: what holds *)

From S2P Require Import Prelude KTime.
Import Width.

Open Scope Z_scope.

(** ** Widths *)

Lemma s64_small x : - 2 ^ 63 <= x < 2 ^ 63 → s64 x = x.
Proof. intros. unfold s64. rewrite Z.mod_small by lia. lia. Qed.

Lemma s32_small x : - 2 ^ 31 <= x < 2 ^ 31 → s32 x = x.
Proof. intros. unfold s32. rewrite Z.mod_small by lia. lia. Qed.

Lemma s64_range x : - 2 ^ 63 <= s64 x < 2 ^ 63.
Proof. unfold s64. pose proof (Z.mod_pos_bound (x + 2 ^ 63) (2 ^ 64)). lia. Qed.

(** Equal up to a multiple of the width. *)
Lemma s64_mod x y : (∃ k, x = y + k * 2 ^ 64) → s64 x = s64 y.
Proof.
  intros [k ->]. unfold s64. replace (y + k * 2 ^ 64 + 2 ^ 63) with (y + 2 ^ 63 + k * 2 ^ 64) by lia.
  by rewrite Z_mod_plus_full.
Qed.

Lemma s64_wrap x : ∃ k, s64 x = x + k * 2 ^ 64.
Proof.
  exists (- ((x + 2 ^ 63) / 2 ^ 64)). unfold s64. pose proof (Z.div_mod (x + 2 ^ 63) (2 ^ 64)). lia.
Qed.

Lemma u64_wrap x : ∃ k, u64 x = x + k * 2 ^ 64.
Proof. exists (- (x / 2 ^ 64)). unfold u64, wrap. pose proof (Z.div_mod x (2 ^ 64)). lia. Qed.

Lemma u64_neg x : - 2 ^ 64 <= x < 0 → u64 x = x + 2 ^ 64.
Proof. intros. unfold u64, wrap. rewrite <- (Z_mod_plus_full x 1), Z.mod_small; lia. Qed.

(** The value of a normalised timespec. *)
Definition ns (ts : timespec64) : Z := tv_sec ts * NSEC_PER_SEC + tv_nsec ts.
Definition normal (ts : timespec64) : Prop := 0 <= tv_nsec ts < NSEC_PER_SEC.

Lemma KTIME_SEC_MAX_eq : KTIME_SEC_MAX = 9223372036.
Proof. done. Qed.

Lemma div_sec n : 0 <= n → 0 <= n / NSEC_PER_SEC <= n ∧ 0 <= n mod NSEC_PER_SEC < NSEC_PER_SEC ∧
  n = n / NSEC_PER_SEC * NSEC_PER_SEC + n mod NSEC_PER_SEC.
Proof.
  intros Hn. unfold NSEC_PER_SEC. pose proof (Z.div_mod n 1000000000). pose proof (Z.mod_pos_bound n 1000000000).
  pose proof (Z.div_pos n 1000000000). lia.
Qed.

Lemma from_ns_pos n : 0 <= n < 2 ^ 63 → timespec64_from_ns n = Timespec (n / NSEC_PER_SEC) (n mod NSEC_PER_SEC).
Proof.
  intros Hn. unfold timespec64_from_ns. destruct (Z.ltb_spec 0 n).
  - rewrite u64_small by lia. destruct (div_sec n) as (H1 & H2 & _); [lia|]. unfold NSEC_PER_SEC in *.
    by rewrite !s64_small by lia.
  - assert (n = 0) as -> by lia. done.
Qed.

Lemma from_ns_neg n :
  - 2 ^ 63 < n < 0 → timespec64_from_ns n =
    Timespec (- ((- n - 1) / NSEC_PER_SEC) - 1) (NSEC_PER_SEC - (- n - 1) mod NSEC_PER_SEC - 1).
Proof.
  intros Hn. unfold timespec64_from_ns. destruct (Z.ltb_spec 0 n); [lia|]. destruct (Z.ltb_spec n 0); [|lia].
  rewrite (s64_small (- n - 1)) by lia. rewrite u64_small by lia.
  destruct (div_sec (- n - 1)) as (H1 & H2 & _); [lia|]. unfold NSEC_PER_SEC in *.
  rewrite (s32_small ((- n - 1) mod 1000000000)) by lia. by rewrite !s64_small by lia.
Qed.

Lemma from_ns_normal n : - 2 ^ 63 < n < 2 ^ 63 → normal (timespec64_from_ns n) ∧ ns (timespec64_from_ns n) = n.
Proof.
  intros Hn. unfold normal, ns. destruct (decide (0 <= n)).
  - rewrite from_ns_pos by lia. simpl. destruct (div_sec n) as (H1 & H2 & H3); lia.
  - rewrite from_ns_neg by lia. simpl. destruct (div_sec (- n - 1)) as (H1 & H2 & H3); lia.
Qed.

Lemma to_ns_small ts :
  0 <= tv_sec ts < KTIME_SEC_MAX → normal ts → timespec64_to_ns ts = ns ts.
Proof.
  unfold normal, timespec64_to_ns, ns. rewrite KTIME_SEC_MAX_eq. unfold NSEC_PER_SEC. intros Hs Hn.
  rewrite !u64_small by lia. destruct (Z.leb_spec 9223372036 (tv_sec ts)); [lia|]. apply s64_small. lia.
Qed.

Lemma ns_inj ts ts' : normal ts → normal ts' → ns ts = ns ts' → ts = ts'.
Proof.
  destruct ts as [s n], ts' as [s' n']. unfold normal, ns, NSEC_PER_SEC. simpl. intros. assert (s = s') by lia. f_equal; lia.
Qed.

(** A negative time becomes the latest one: the bound [KTIME_SEC_MAX] is
    unsigned, so that [timespec64_to_ns] and [ktime_set] take negative seconds for
    huge ones.  What [timespec64_from_ns] makes of a negative number of nanoseconds is
    turned into [KTIME_MAX]. *)
Theorem negative_time_is_latest n :
  - 2 ^ 63 < n < 0 → timespec64_to_ns (timespec64_from_ns n) = KTIME_MAX.
Proof.
  intros Hn. rewrite from_ns_neg by lia. destruct (div_sec (- n - 1)) as (H1 & H2 & _); [lia|].
  unfold timespec64_to_ns. simpl. rewrite u64_neg by lia. rewrite KTIME_SEC_MAX_eq.
  destruct (Z.leb_spec 9223372036 (- ((- n - 1) / NSEC_PER_SEC) - 1 + 2 ^ 64)); [done|].
  assert ((- n - 1) / NSEC_PER_SEC < 2 ^ 63) by lia. lia.
Qed.

Lemma negative_time_is_latest_witness : timespec64_to_ns (timespec64_from_ns (-1)) = KTIME_MAX.
Proof. apply negative_time_is_latest. lia. Defined.

(** C33: the conversions between nanoseconds and seconds with nanoseconds.
    [timespec64_from_ns] keeps the value and normalises it, for every value but the
    least one, negative ones included.  [timespec64_to_ns] is inverse to it only for
    values from 0 up to [KTIME_SEC_MAX] seconds: what came from a negative value
    becomes [KTIME_MAX].  Every valid time, so not a negative one, below
    [KTIME_SEC_MAX] seconds survives the way through nanoseconds. *)
Theorem timespec_roundtrip n ts :
  - 2 ^ 63 < n < 2 ^ 63 → timespec64_valid ts = true → is_s64 (tv_nsec ts) → tv_sec ts < KTIME_SEC_MAX →
  (normal (timespec64_from_ns n) ∧ ns (timespec64_from_ns n) = n) ∧
  (0 <= n < KTIME_SEC_MAX * NSEC_PER_SEC → timespec64_to_ns (timespec64_from_ns n) = n) ∧
  (n < 0 → timespec64_to_ns (timespec64_from_ns n) = KTIME_MAX) ∧
  timespec64_from_ns (timespec64_to_ns ts) = ts.
Proof.
  intros Hn Hv His Hs. destruct (from_ns_normal n Hn) as [Hno Hns]. split; [done|]. split_and!.
  - intros Hr. rewrite to_ns_small; [done| |done]. revert Hr Hno Hns. unfold normal, ns. rewrite KTIME_SEC_MAX_eq.
    unfold NSEC_PER_SEC. lia.
  - intros H0. apply negative_time_is_latest. lia.
  - unfold timespec64_valid in Hv. destruct (Z.ltb_spec (tv_sec ts) 0) as [|H0]; [done|].
    destruct (Z.leb_spec NSEC_PER_SEC (u64 (tv_nsec ts))) as [|Hlt]; [done|].
    assert (Hnorm : normal ts).
    { unfold is_s64 in His. unfold normal. destruct (decide (0 <= tv_nsec ts)); [rewrite u64_small in Hlt by lia; lia|].
      rewrite u64_neg in Hlt by lia. unfold NSEC_PER_SEC in Hlt. lia. }
    rewrite to_ns_small by (done || lia). rewrite KTIME_SEC_MAX_eq in Hs.
    assert (0 <= ns ts < 2 ^ 63) by (revert Hnorm; unfold normal, ns, NSEC_PER_SEC; lia).
    destruct (from_ns_normal (ns ts)) as [H1 H2]; [lia|]. by apply ns_inj.
Qed.

Lemma timespec_roundtrip_witness :
  (normal (timespec64_from_ns (-1)) ∧ ns (timespec64_from_ns (-1)) = -1) ∧
  (0 <= -1 < KTIME_SEC_MAX * NSEC_PER_SEC → timespec64_to_ns (timespec64_from_ns (-1)) = -1) ∧
  (-1 < 0 → timespec64_to_ns (timespec64_from_ns (-1)) = KTIME_MAX) ∧
  timespec64_from_ns (timespec64_to_ns (Timespec 1700000000 999999999)) = Timespec 1700000000 999999999.
Proof. apply timespec_roundtrip; [lia|done|unfold is_s64; simpl; lia|by vm_compute]. Defined.

(** ** Setting and reading the clock *)

Lemma valid_normal ts : timespec64_valid ts = true → is_s64 (tv_nsec ts) → 0 <= tv_sec ts ∧ normal ts.
Proof.
  intros Hv His. unfold timespec64_valid in Hv. destruct (Z.ltb_spec (tv_sec ts) 0) as [|H0]; [done|]. split; [done|].
  destruct (Z.leb_spec NSEC_PER_SEC (u64 (tv_nsec ts))) as [|Hlt]; [done|]. unfold is_s64 in His. unfold normal.
  destruct (decide (0 <= tv_nsec ts)); [rewrite u64_small in Hlt by lia; lia|].
  rewrite u64_neg in Hlt by lia. unfold NSEC_PER_SEC in Hlt. lia.
Qed.

(** [kernel_settimeofday64] and [kernel_clock_gettime].  A valid time below the
    limit is accepted and the real-time clock, read at the same instant, shows it, to
    the nanosecond and whatever the offset was, while the other clocks are untouched;
    every other time is refused and changes nothing. *)
Theorem settime_gettime ts c :
  is_s64 (tv_sec ts) → is_s64 (tv_nsec ts) →
  if timespec64_valid ts && (tv_sec ts <? KTIME_SETTIME_SEC_MAX)
  then ∃ c', kernel_settimeofday64 (Some ts) None c = (0, c') ∧ kernel_clock_gettime CLOCK_REALTIME c' = inr ts ∧
    kernel_clock_gettime CLOCK_MONOTONIC c' = kernel_clock_gettime CLOCK_MONOTONIC c ∧
    kernel_clock_gettime CLOCK_BOOTTIME c' = kernel_clock_gettime CLOCK_BOOTTIME c
  else kernel_settimeofday64 (Some ts) None c = (- EINVAL, c).
Proof.
  intros Hs Hn. assert (Hmax : KTIME_SETTIME_SEC_MAX = 8277292036) by done. unfold kernel_settimeofday64.
  destruct (timespec64_valid ts) eqn:Ev; [|done]. destruct (valid_normal ts Ev Hn) as [H0 Hnorm]. cbn [negb orb andb].
  unfold is_s64 in Hs. rewrite (u64_small (tv_sec ts)) by lia. rewrite Hmax.
  destruct (Z.ltb_spec (tv_sec ts) 8277292036), (Z.leb_spec 8277292036 (tv_sec ts)); try lia; [|done].
  eexists. split; [done|]. split; [|done]. unfold kernel_clock_gettime. cbn [Z.eqb CLOCK_REALTIME]. f_equal.
  unfold read_realtime_ts64, ktime_get_real, ktime_set_real, ktime_now. simpl.
  assert (Hk : timespec64_to_ktime ts = ns ts).
  { unfold timespec64_to_ktime, ktime_set, ns. rewrite KTIME_SEC_MAX_eq. unfold normal, NSEC_PER_SEC in *.
    rewrite (u64_small (tv_nsec ts)) by lia. rewrite !u64_small by lia.
    destruct (Z.leb_spec 9223372036 (tv_sec ts)); [lia|]. apply s64_small. lia. }
  rewrite Hk. assert (Hr : 0 <= ns ts < 2 ^ 63) by (revert Hnorm; unfold normal, ns, NSEC_PER_SEC; lia).
  set (r := s64 (s64 (walltime c) + g_offset_real c)).
  assert (Heq : s64 (s64 (walltime c) + s64 (g_offset_real c + s64 (ns ts - r))) = ns ts).
  { rewrite <- (s64_small (ns ts)) at 2 by lia. apply s64_mod.
    destruct (s64_wrap (s64 (walltime c) + g_offset_real c)) as [k1 E1].
    destruct (s64_wrap (g_offset_real c + s64 (ns ts - r))) as [k2 E2]. destruct (s64_wrap (ns ts - r)) as [k3 E3].
    exists (k2 + k3 - k1). fold r in E1. rewrite E2, E3, E1. lia. }
  rewrite Heq. unfold ktime_to_ts64. rewrite u64_small by lia. destruct (div_sec (ns ts)) as (D1 & D2 & D3); [lia|].
  apply ns_inj; [|done|]; unfold normal, ns in *; simpl; rewrite !s64_small by (unfold NSEC_PER_SEC in *; lia); lia.
Qed.

Lemma settime_gettime_witness :
  ∃ c', kernel_settimeofday64 (Some (Timespec 1700000000 5)) None (Clocks 77 (-12) 3 4 0) = (0, c') ∧
    kernel_clock_gettime CLOCK_REALTIME c' = inr (Timespec 1700000000 5) ∧
    kernel_clock_gettime CLOCK_MONOTONIC c' = kernel_clock_gettime CLOCK_MONOTONIC (Clocks 77 (-12) 3 4 0) ∧
    kernel_clock_gettime CLOCK_BOOTTIME c' = kernel_clock_gettime CLOCK_BOOTTIME (Clocks 77 (-12) 3 4 0).
Proof. apply (settime_gettime (Timespec 1700000000 5)); unfold is_s64; simpl; lia. Defined.

(** ** Sums and differences *)

(** The arithmetic of times.  The sum of two valid times is valid and its value is
    the sum; the difference is valid and its value is the difference, or zero when the
    first time is not later; adding and subtracting the same time is the identity. *)
Theorem timespec_arithmetic a b :
  0 <= tv_sec a → 0 <= tv_sec b → tv_sec a + tv_sec b < 2 ^ 62 → normal a → normal b →
  (normal (clock_timespec_add64 a b) ∧ ns (clock_timespec_add64 a b) = ns a + ns b) ∧
  (normal (clock_timespec_subtract64 a b) ∧ ns (clock_timespec_subtract64 a b) = Z.max 0 (ns a - ns b)) ∧
  clock_timespec_subtract64 (clock_timespec_add64 a b) b = a.
Proof.
  intros Ha Hb Hab Hna Hnb.
  assert (Hadd : normal (clock_timespec_add64 a b) ∧ ns (clock_timespec_add64 a b) = ns a + ns b ∧
    0 <= tv_sec (clock_timespec_add64 a b) < 2 ^ 63).
  { unfold clock_timespec_add64. unfold normal, ns, NSEC_PER_SEC in *. rewrite !(s64_small (tv_sec a + tv_sec b)) by lia.
    rewrite !(s64_small (tv_nsec a + tv_nsec b)) by lia. rewrite (u64_small (tv_nsec a + tv_nsec b)) by lia.
    destruct (Z.leb_spec 1000000000 (tv_nsec a + tv_nsec b)); simpl; rewrite ?s64_small by lia; lia. }
  assert (Hsub : ∀ x y, 0 <= tv_sec x < 2 ^ 63 → 0 <= tv_sec y < 2 ^ 63 → normal x → normal y →
    normal (clock_timespec_subtract64 x y) ∧ ns (clock_timespec_subtract64 x y) = Z.max 0 (ns x - ns y)).
  { intros x y Hx Hy Hnx Hny. unfold clock_timespec_subtract64. unfold normal, ns, NSEC_PER_SEC in *.
    destruct (Z.ltb_spec (tv_sec x) (tv_sec y)); [simpl; lia|].
    destruct (Z.eqb_spec (tv_sec x) (tv_sec y)), (Z.leb_spec (tv_nsec x) (tv_nsec y)); cbn [andb]; try (simpl; lia);
    rewrite (s64_small (tv_sec x - tv_sec y)) by lia; rewrite !(u64_small (tv_nsec _)) by lia;
    destruct (Z.ltb_spec (tv_nsec x) (tv_nsec y)); simpl; rewrite !s64_small by lia; lia. }
  destruct Hadd as (H1 & H2 & H3). split; [done|]. split; [apply Hsub; done || lia|].
  destruct (Hsub (clock_timespec_add64 a b) b H3 ltac:(lia) H1 Hnb) as [H4 H5]. apply ns_inj; [done|done|].
  rewrite H5, H2. unfold ns, normal, NSEC_PER_SEC in *. lia.
Qed.

Lemma timespec_arithmetic_witness :
  (normal (clock_timespec_add64 (Timespec 1 600000000) (Timespec 2 700000000)) ∧
   ns (clock_timespec_add64 (Timespec 1 600000000) (Timespec 2 700000000)) =
     ns (Timespec 1 600000000) + ns (Timespec 2 700000000)) ∧
  (normal (clock_timespec_subtract64 (Timespec 1 600000000) (Timespec 2 700000000)) ∧
   ns (clock_timespec_subtract64 (Timespec 1 600000000) (Timespec 2 700000000)) =
     Z.max 0 (ns (Timespec 1 600000000) - ns (Timespec 2 700000000))) ∧
  clock_timespec_subtract64 (clock_timespec_add64 (Timespec 1 600000000) (Timespec 2 700000000)) (Timespec 2 700000000) =
    Timespec 1 600000000.
Proof. apply timespec_arithmetic; unfold normal, NSEC_PER_SEC; simpl; lia. Defined.

(** ** Counters and ticks *)

(** [ttos_time_count_to_ns] is the exact number of nanoseconds, rounded down,
    although [count * NSEC_PER_SEC] does not fit in 64 bits: for every frequency up to
    18 GHz no intermediate result overflows as long as the result itself fits. *)
Theorem count_to_ns_exact freq count :
  0 < freq → freq * NSEC_PER_SEC < 2 ^ 64 → 0 <= count → count * NSEC_PER_SEC / freq < 2 ^ 64 →
  ttos_time_count_to_ns freq count = count * NSEC_PER_SEC / freq.
Proof.
  intros Hf Hfw Hc Hres. unfold ttos_time_count_to_ns. destruct (Z.eqb_spec freq 0); [lia|].
  pose proof (Z.mod_pos_bound count freq Hf) as Hm. pose proof (Z.div_mod count freq ltac:(lia)) as Hd.
  assert (Hsmall : 0 <= count mod freq * NSEC_PER_SEC < 2 ^ 64) by (unfold NSEC_PER_SEC in *; nia).
  assert (Hval : count * NSEC_PER_SEC / freq = count / freq * NSEC_PER_SEC + count mod freq * NSEC_PER_SEC / freq).
  { rewrite Hd at 1. replace ((freq * (count / freq) + count mod freq) * NSEC_PER_SEC)
      with (count mod freq * NSEC_PER_SEC + (count / freq * NSEC_PER_SEC) * freq) by lia.
    rewrite Z.div_add by lia. lia. }
  rewrite (u64_small (count mod freq * NSEC_PER_SEC)) by lia. rewrite <- Hval. apply u64_small.
  split; [apply Z.div_pos; [unfold NSEC_PER_SEC; lia|lia]|done].
Qed.

Lemma count_to_ns_exact_witness :
  ttos_time_count_to_ns 62500000 1000000000000007 = 1000000000000007 * NSEC_PER_SEC / 62500000.
Proof. apply count_to_ns_exact; [lia|by vm_compute|lia|by vm_compute]. Defined.

(** A timeout in ticks does not end early.  With a tick that divides the second,
    [clock_time_to_tick] of a relative time gives a number of ticks that covers it with
    one tick to spare and not more than that above the next full tick, as long as the
    count fits in an [int]. *)
Theorem time_to_tick_covers tick_ns ts :
  0 < tick_ns → (tick_ns | NSEC_PER_SEC) → 0 <= tv_sec ts → normal ts → 0 < ns ts →
  ns ts / tick_ns + 2 < 2 ^ 31 →
  ns ts + tick_ns <= clock_time_to_tick tick_ns ts false (Timespec 0 0) * tick_ns < ns ts + 2 * tick_ns.
Proof.
  intros Ht [q Hq] Hs Hn Hpos Hfit. unfold clock_time_to_tick.
  assert (negb (tv_sec ts =? 0) || negb (tv_nsec ts =? 0) = true) as ->.
  { unfold ns in Hpos. destruct (Z.eqb_spec (tv_sec ts) 0), (Z.eqb_spec (tv_nsec ts) 0); try done. lia. }
  cbn [tv_sec tv_nsec]. unfold normal in Hn. assert (Hnb : NSEC_PER_SEC = 1000000000) by done.
  rewrite !Z.sub_0_r. rewrite (s64_small (tv_nsec ts)) by lia. destruct (Z.ltb_spec (tv_nsec ts) 0); [lia|].
  assert (Hrate : NSEC_PER_SEC / tick_ns = q) by (rewrite Hq; apply Z.div_mul; lia). rewrite Hrate.
  assert (Hqpos : 0 < q) by nia.
  assert (Hdiv : ns ts / tick_ns = tv_sec ts * q + tv_nsec ts / tick_ns).
  { unfold ns. rewrite Hq. replace (tv_sec ts * (q * tick_ns) + tv_nsec ts) with (tv_nsec ts + tv_sec ts * q * tick_ns) by lia.
    rewrite Z.div_add by lia. lia. }
  assert (Htn : tick_ns <= NSEC_PER_SEC) by nia.
  set (u := (tv_nsec ts + (tick_ns - 1)) / tick_ns).
  assert (Hu : 0 <= u ∧ tv_nsec ts <= u * tick_ns < tv_nsec ts + tick_ns).
  { unfold u. pose proof (Z.div_mod (tv_nsec ts + (tick_ns - 1)) tick_ns ltac:(lia)).
    pose proof (Z.mod_pos_bound (tv_nsec ts + (tick_ns - 1)) tick_ns ltac:(lia)).
    pose proof (Z.div_pos (tv_nsec ts + (tick_ns - 1)) tick_ns). lia. }
  assert (Hule : u <= tv_nsec ts / tick_ns + 1).
  { pose proof (Z.div_mod (tv_nsec ts) tick_ns ltac:(lia)). pose proof (Z.mod_pos_bound (tv_nsec ts) tick_ns ltac:(lia)). nia. }
  assert (Hround : ROUNDUP (tv_nsec ts) tick_ns / tick_ns = u).
  { unfold ROUNDUP. rewrite (u64_small (tv_nsec ts + (tick_ns - 1))) by lia. fold u.
    rewrite (u64_small u) by nia. rewrite u64_small by nia. apply Z.div_mul. lia. }
  rewrite Hround. pose proof (Z.div_pos (tv_nsec ts) tick_ns ltac:(lia) ltac:(lia)).
  assert (tv_sec ts * q + u + 1 < 2 ^ 31) by lia. assert (0 <= tv_sec ts * q) by nia.
  rewrite (s64_small (tv_sec ts)) by nia. rewrite (s64_small (tv_sec ts * q)) by lia.
  rewrite (u64_small (tv_sec ts * q)) by lia. rewrite u64_small by lia. rewrite (s32_small (tv_sec ts * q + u)) by lia.
  rewrite s32_small by lia. destruct (Z.ltb_spec (tv_sec ts * q + u + 1) 0); [lia|]. unfold ns. rewrite Hq. nia.
Qed.

Lemma time_to_tick_covers_witness :
  ns (Timespec 3 1500000) + 1000000 <=
    clock_time_to_tick 1000000 (Timespec 3 1500000) false (Timespec 0 0) * 1000000 < ns (Timespec 3 1500000) + 2 * 1000000.
Proof.
  apply time_to_tick_covers; [lia|by exists 1000|simpl; lia|unfold normal, NSEC_PER_SEC; simpl; lia|by vm_compute|by vm_compute].
Defined.

(** A long timeout ends at once.  The number of ticks is computed in an [int]; at a
    tick of one millisecond a timeout of thirty days becomes zero ticks. *)
Theorem long_timeout_returns_at_once :
  timespec64_to_clock_t 1000000 (Timespec (30 * 86400) 0) = 0.
Proof. by vm_compute. Qed.
