(* ===== verification/Calendar.v ===== *)
(** * From calendar dates to seconds

    [components/clock/clock_tm_to_timespec64.c]: the seconds since 1970 of a broken-down
    time.  Years count from 1900.  The quotients of the code are those of C, which round
    towards zero; the [int] variables hold cycles of 400 years and leap days, which stay
    below 2^31 for every year an [int] can hold. *)

From S2P Require Import Prelude KTime.
Import Width.

Open Scope Z_scope.

(** [__year_to_secs]: the seconds up to the first of January, and whether the year is a
    leap year. *)
Definition __year_to_secs (year : Z) : Z * bool :=
  if u64 (year - 2) <=? 136 then
    let leaps := Z.shiftr (year - 68) 2 in
    if Z.land (year - 68) 3 =? 0
    then (31536000 * (year - 70) + 86400 * (leaps - 1), true)
    else (31536000 * (year - 70) + 86400 * leaps, false)
  else
    let cycles := Z.quot (year - 100) 400 in
    let rem := Z.rem (year - 100) 400 in
    let '(cycles, rem) := if rem <? 0 then (cycles - 1, rem + 400) else (cycles, rem) in
    let '(centuries, leaps, is_leap) :=
      if rem =? 0 then (0, 0, true)
      else
        let '(centuries, rem) :=
          if 200 <=? rem then (if 300 <=? rem then (3, rem - 300) else (2, rem - 200))
          else (if 100 <=? rem then (1, rem - 100) else (0, rem)) in
        if rem =? 0 then (centuries, 0, false)
        else (centuries, rem / 4, rem mod 4 =? 0) in
    let leaps := leaps + 97 * cycles + 24 * centuries - Z.b2z is_leap in
    ((year - 100) * 31536000 + leaps * 86400 + 946684800 + 86400, is_leap).

Definition secs_through_month : list Z :=
  [0; 31 * 86400; 59 * 86400; 90 * 86400; 120 * 86400; 151 * 86400; 181 * 86400; 212 * 86400;
   243 * 86400; 273 * 86400; 304 * 86400; 334 * 86400].

Definition __month_to_secs (month : Z) (is_leap : bool) : option Z :=
  t ← secs_through_month !! Z.to_nat month;
  Some (if is_leap && (2 <=? month) then t + 86400 else t).

Record tm := Tm { tm_sec : Z; tm_min : Z; tm_hour : Z; tm_mday : Z; tm_mon : Z; tm_year : Z }.

Definition __tm_to_secs (t : tm) : option Z :=
  let '(year, month) :=
    if (12 <=? tm_mon t) || (tm_mon t <? 0) then
      let adj := Z.quot (tm_mon t) 12 in
      let month := Z.rem (tm_mon t) 12 in
      let '(adj, month) := if month <? 0 then (adj - 1, month + 12) else (adj, month) in
      (tm_year t + adj, month)
    else (tm_year t, tm_mon t) in
  let '(secs, is_leap) := __year_to_secs year in
  m ← __month_to_secs month is_leap;
  Some (secs + m + 86400 * (tm_mday t - 1) + 3600 * tm_hour t + 60 * tm_min t + tm_sec t).

Definition clock_tm_to_timespec64 (t : tm) : option timespec64 :=
  secs ← __tm_to_secs t; Some (Timespec secs 0).

(** ** The Gregorian calendar *)

Definition leap_year (y : Z) : bool := (y mod 4 =? 0) && negb (y mod 100 =? 0) || (y mod 400 =? 0).

(** The leap days in the years up to [y]. *)
Definition leap_days (y : Z) : Z := y / 4 - y / 100 + y / 400.

(** The days from the first of January 1970 to that of the year [y]. *)
Definition days_to_year (y : Z) : Z := 365 * (y - 1970) + leap_days (y - 1) - leap_days 1969.

Definition month_length (leap : bool) (m : nat) : Z :=
  match m with
  | 1%nat => if leap then 29 else 28
  | 3%nat | 5%nat | 8%nat | 10%nat => 30
  | _ => 31
  end.

(** The days of the first [m] months of a year. *)
Fixpoint days_to_month (leap : bool) (m : nat) : Z :=
  match m with O => 0 | S m => days_to_month leap m + month_length leap m end.

(** The day count goes up by the length of the year. *)
Lemma days_to_year_step y : days_to_year 1970 = 0 ∧
  days_to_year (y + 1) = days_to_year y + (if leap_year y then 366 else 365).
Proof.
  split; [done|]. unfold days_to_year, leap_days, leap_year. replace (y + 1 - 1) with y by lia.
  destruct (Z.eqb_spec (y mod 4) 0), (Z.eqb_spec (y mod 100) 0), (Z.eqb_spec (y mod 400) 0); simpl;
    Z.div_mod_to_equations; lia.
Qed.

(** The path for the years 1902 to 2038. *)
Lemma near_years year :
  2 <= year <= 138 → __year_to_secs year = (86400 * days_to_year (1900 + year), leap_year (1900 + year)).
Proof.
  intros Hy. unfold __year_to_secs. rewrite u64_small by lia. destruct (Z.leb_spec (year - 2) 136); [|lia].
  rewrite Z.shiftr_div_pow2 by lia. change 3 with (Z.ones 2). rewrite Z.land_ones by lia. change (2 ^ 2) with 4.
  unfold days_to_year, leap_days, leap_year.
  destruct (Z.eqb_spec ((year - 68) mod 4) 0), (Z.eqb_spec ((1900 + year) mod 4) 0), (Z.eqb_spec ((1900 + year) mod 100) 0),
    (Z.eqb_spec ((1900 + year) mod 400) 0); simpl; try (f_equal; Z.div_mod_to_equations; lia);
    exfalso; Z.div_mod_to_equations; lia.
Qed.

(** The quotient of C, corrected, is the one that rounds down. *)
Lemma floor_quot d n :
  0 < n → (if Z.rem d n <? 0 then (Z.quot d n - 1, Z.rem d n + n) else (Z.quot d n, Z.rem d n)) = (d / n, d mod n).
Proof.
  intros Hn. pose proof (Z.quot_rem' d n) as Hd. pose proof (Z.rem_bound_abs d n ltac:(lia)) as Hr.
  destruct (Z.ltb_spec (Z.rem d n) 0); f_equal.
  - apply (Z.div_unique _ _ _ (Z.rem d n + n)); lia.
  - apply (Z.mod_unique _ _ (Z.quot d n - 1)); lia.
  - apply (Z.div_unique _ _ _ (Z.rem d n)); lia.
  - apply (Z.mod_unique _ _ (Z.quot d n)); lia.
Qed.

(** Everything repeats after 400 years. *)
Lemma leap_days_cycle c r : leap_days (400 * c + r) = 97 * c + leap_days r.
Proof. unfold leap_days. Z.div_mod_to_equations. lia. Qed.

Lemma leap_year_cycle c r : leap_year (400 * c + r) = leap_year r.
Proof.
  unfold leap_year. replace (400 * c + r) with (r + 100 * c * 4) at 1 by lia. rewrite Z_mod_plus_full.
  replace (400 * c + r) with (r + 4 * c * 100) at 1 by lia. rewrite Z_mod_plus_full.
  replace (400 * c + r) with (r + c * 400) by lia. by rewrite Z_mod_plus_full.
Qed.

(** The leap days of the code within a cycle of 400 years from 2000 on. *)
Definition cycle_leaps (rem : Z) : Z * Z * bool :=
  if rem =? 0 then (0, 0, true)
  else
    let '(centuries, rem) :=
      if 200 <=? rem then (if 300 <=? rem then (3, rem - 300) else (2, rem - 200))
      else (if 100 <=? rem then (1, rem - 100) else (0, rem)) in
    if rem =? 0 then (centuries, 0, false) else (centuries, rem / 4, rem mod 4 =? 0).

Definition cycle_ok (r : Z) : bool :=
  let '(centuries, leaps, is_leap) := cycle_leaps r in
  (leaps + 24 * centuries - Z.b2z is_leap + 1 =? leap_days (1999 + r) - leap_days 1999) && Bool.eqb is_leap (leap_year (2000 + r)).

Lemma cycle_table : forallb (λ n, cycle_ok (Z.of_nat n)) (seq 0 400) = true.
Proof. by vm_compute. Qed.

Lemma cycle_spec r : 0 <= r < 400 → cycle_ok r = true.
Proof.
  intros Hr. pose proof cycle_table as H. rewrite forallb_forall in H. rewrite <- (Z2Nat.id r) by lia.
  apply H, in_seq. lia.
Qed.

Lemma far_years year :
  - 2 ^ 62 < year < 2 ^ 62 → ¬ (2 <= year <= 138) →
  __year_to_secs year = (86400 * days_to_year (1900 + year), leap_year (1900 + year)).
Proof.
  intros Hy Hfar. unfold __year_to_secs.
  assert (136 < u64 (year - 2)) by (unfold u64, wrap; Z.div_mod_to_equations; lia).
  destruct (Z.leb_spec (u64 (year - 2)) 136); [lia|]. rewrite floor_quot by lia. fold (cycle_leaps ((year - 100) mod 400)).
  pose proof (Z.div_mod (year - 100) 400 ltac:(lia)) as Hd. pose proof (Z.mod_pos_bound (year - 100) 400 ltac:(lia)) as Hr.
  set (c := (year - 100) / 400) in *. set (r := (year - 100) mod 400) in *.
  pose proof (cycle_spec r Hr) as Hc. unfold cycle_ok in Hc. destruct (cycle_leaps r) as [[ce le] il].
  apply andb_true_iff in Hc as [H1%Z.eqb_eq H2%Bool.eqb_prop].
  assert (Hl : leap_year (1900 + year) = il) by (replace (1900 + year) with (400 * c + (2000 + r)) by lia; by rewrite leap_year_cycle).
  rewrite Hl. f_equal. unfold days_to_year. replace (1900 + year - 1) with (400 * c + (1999 + r)) by lia.
  rewrite leap_days_cycle. assert (leap_days 1999 - leap_days 1969 = 7) by done. lia.
Qed.

Lemma month_to_secs_spec m leap :
  0 <= m < 12 → __month_to_secs m leap = Some (86400 * days_to_month leap (Z.to_nat m)).
Proof.
  intros Hm. assert (m = 0 ∨ m = 1 ∨ m = 2 ∨ m = 3 ∨ m = 4 ∨ m = 5 ∨ m = 6 ∨ m = 7 ∨ m = 8 ∨ m = 9 ∨ m = 10 ∨ m = 11) as Hc by lia.
  repeat (destruct Hc as [->|Hc]; [by destruct leap|]). subst m. by destruct leap.
Qed.

(** C32: the conversion of a broken-down time into seconds is the Gregorian calendar,
    for every year and on both paths of [__year_to_secs], the one with the table of
    leap days around 1970 and the one with cycles of 400 years: the seconds are those of
    the days before the year, of its months before the month and of the days before the
    day, where leap years are those divisible by 4 but not by 100, or by 400.  A month
    outside the year counts into the years before or after it. *)
Theorem tm_to_secs_is_gregorian t :
  - 2 ^ 61 < tm_year t < 2 ^ 61 → - 2 ^ 61 < tm_mon t < 2 ^ 61 →
  let y := 1900 + tm_year t + tm_mon t / 12 in
  let m := Z.to_nat (tm_mon t mod 12) in
  clock_tm_to_timespec64 t =
    Some (Timespec (86400 * (days_to_year y + days_to_month (leap_year y) m + (tm_mday t - 1)) +
                    3600 * tm_hour t + 60 * tm_min t + tm_sec t) 0).
Proof.
  intros Hy Hm y m. unfold clock_tm_to_timespec64, __tm_to_secs.
  assert (Hnorm : (if (12 <=? tm_mon t) || (tm_mon t <? 0) then
      let '(adj, month) := if Z.rem (tm_mon t) 12 <? 0 then (Z.quot (tm_mon t) 12 - 1, Z.rem (tm_mon t) 12 + 12)
        else (Z.quot (tm_mon t) 12, Z.rem (tm_mon t) 12) in (tm_year t + adj, month)
    else (tm_year t, tm_mon t)) = (tm_year t + tm_mon t / 12, tm_mon t mod 12)).
  { destruct (Z.leb_spec 12 (tm_mon t)), (Z.ltb_spec (tm_mon t) 0); cbn [orb]; rewrite ?floor_quot by lia; try done.
    rewrite Z.div_small, Z.mod_small by lia. f_equal. lia. }
  cbv zeta. rewrite Hnorm. pose proof (Z.mod_pos_bound (tm_mon t) 12 ltac:(lia)).
  assert (Hyr : __year_to_secs (tm_year t + tm_mon t / 12) = (86400 * days_to_year y, leap_year y)).
  { assert (- 2 ^ 62 < tm_year t + tm_mon t / 12 < 2 ^ 62) by (Z.div_mod_to_equations; lia).
    unfold y. rewrite <- Z.add_assoc. destruct (decide (2 <= tm_year t + tm_mon t / 12 <= 138)); [by apply near_years|by apply far_years]. }
  rewrite Hyr, month_to_secs_spec by lia. simpl. do 2 f_equal. fold m. lia.
Qed.

(** The 29th of February 2024, as the 14th month of 2023. *)
Lemma tm_to_secs_is_gregorian_witness :
  clock_tm_to_timespec64 (Tm 56 34 12 29 13 123) = Some (Timespec 1709210096 0) ∧
  clock_tm_to_timespec64 (Tm 56 34 12 29 13 123) =
    Some (Timespec (86400 * (days_to_year 2024 + days_to_month (leap_year 2024) 1 + 28) + 3600 * 12 + 60 * 34 + 56) 0).
Proof.
  split; [by vm_compute|]. apply (tm_to_secs_is_gregorian (Tm 56 34 12 29 13 123)); simpl; lia.
Defined.
