(* ===== verification/KTimer.v ===== *)
(** * High-resolution timers: the code

    [kernel/time/ktimer.c], [ktimer_run.c], [ktimer_next_event.c], [ktimer_program.c] and
    [ktimer_cpu.c].  Every CPU has four clock bases, each with a queue of timers; the
    timers of all queues share the memory of their queue entries.  A timer and its queue
    entry have the same address.  [me] is the CPU that runs the code.  The readings of
    the hardware counter are a sequence [clock]; the callback of a timer is [call]. *)

From S2P Require Import Prelude RBTree KTimerQ KTime.
Import Width.

Open Scope Z_scope.

Definition KTIMER_INACTIVE : Z := 1.
Definition KTIMER_ENQUEUED : Z := 2.
Definition KTIMER_MODE_ABS : Z := 0.
Definition KTIMER_MODE_REL : Z := 1.
Definition KTIMER_MAX_CLOCK_BASES : nat := 4.
Definition PAST_DEADLINE_GUARD_NS : Z := 2000.
Definition CLOCK_TAI : Z := 11.

(** ** The state *)

(** A clock base: its CPU and its type. *)
Definition base_id : Type := nat * nat.

Record ktimer := KTimer {
  kt_base : option base_id;
  kt_state : Z;
  kt_clock_id : Z;
  kt_function : option N;
}.

Record clock_base := ClockBase {
  cb_root : option N;
  cb_earliest : option N;
  running_timer : option N;
  time_offset : Z;
}.

Record cpu_base := CpuBase {
  active_mask : Z;
  in_irq : bool;
  next_deadline : Z;
  next_expiring : option N;
  cpu_bases : list clock_base;
  hw_timeout : Z;
}.

Record kts := Kts {
  k_nodes : gmap N rb_node;
  k_expires : gmap N Z;
  k_timers : gmap N ktimer;
  k_cpus : list cpu_base;
  k_offsets : Z * Z * Z;
  k_resolution : Z;
  k_reading : nat;
  k_ran : list N;
}.

Definition set_k_nodes v s := Kts v (k_expires s) (k_timers s) (k_cpus s) (k_offsets s) (k_resolution s) (k_reading s) (k_ran s).
Definition set_k_expires v s := Kts (k_nodes s) v (k_timers s) (k_cpus s) (k_offsets s) (k_resolution s) (k_reading s) (k_ran s).
Definition set_k_timers v s := Kts (k_nodes s) (k_expires s) v (k_cpus s) (k_offsets s) (k_resolution s) (k_reading s) (k_ran s).
Definition set_k_cpus v s := Kts (k_nodes s) (k_expires s) (k_timers s) v (k_offsets s) (k_resolution s) (k_reading s) (k_ran s).
Definition set_k_resolution v s := Kts (k_nodes s) (k_expires s) (k_timers s) (k_cpus s) (k_offsets s) v (k_reading s) (k_ran s).
Definition set_k_reading v s := Kts (k_nodes s) (k_expires s) (k_timers s) (k_cpus s) (k_offsets s) (k_resolution s) v (k_ran s).
Definition set_k_ran v s := Kts (k_nodes s) (k_expires s) (k_timers s) (k_cpus s) (k_offsets s) (k_resolution s) (k_reading s) v.

Definition set_queue r e b := ClockBase r e (running_timer b) (time_offset b).
Definition set_running v b := ClockBase (cb_root b) (cb_earliest b) v (time_offset b).
Definition set_offset v b := ClockBase (cb_root b) (cb_earliest b) (running_timer b) v.

Definition set_mask v c := CpuBase v (in_irq c) (next_deadline c) (next_expiring c) (cpu_bases c) (hw_timeout c).
Definition set_in_irq v c := CpuBase (active_mask c) v (next_deadline c) (next_expiring c) (cpu_bases c) (hw_timeout c).
Definition set_deadline v c := CpuBase (active_mask c) (in_irq c) v (next_expiring c) (cpu_bases c) (hw_timeout c).
Definition set_expiring v c := CpuBase (active_mask c) (in_irq c) (next_deadline c) v (cpu_bases c) (hw_timeout c).
Definition set_bases v c := CpuBase (active_mask c) (in_irq c) (next_deadline c) (next_expiring c) v (hw_timeout c).
Definition set_hw v c := CpuBase (active_mask c) (in_irq c) (next_deadline c) (next_expiring c) (cpu_bases c) v.

Definition get_cpu (c : nat) : M kts cpu_base := λ s, x ← k_cpus s !! c; Some (x, s).
Definition upd_cpu (c : nat) (f : cpu_base → cpu_base) : M kts unit :=
  λ s, x ← k_cpus s !! c; Some (tt, set_k_cpus (<[c := f x]> (k_cpus s)) s).

Definition get_base (b : base_id) : M kts clock_base := c ← get_cpu b.1; lift (cpu_bases c !! b.2).
Definition upd_base (b : base_id) (f : clock_base → clock_base) : M kts unit :=
  x ← get_base b; upd_cpu b.1 (λ c, set_bases (<[b.2 := f x]> (cpu_bases c)) c).

Definition get_timer (t : N) : M kts ktimer := λ s, x ← k_timers s !! t; Some (x, s).
Definition upd_timer (t : N) (f : ktimer → ktimer) : M kts unit :=
  λ s, x ← k_timers s !! t; Some (tt, set_k_timers (<[t := f x]> (k_timers s)) s).
Definition set_state v k := KTimer (kt_base k) v (kt_clock_id k) (kt_function k).
Definition set_base v k := KTimer v (kt_state k) (kt_clock_id k) (kt_function k).

(** The queue of a base, as the functions of [KTimerQ] see it. *)
Definition queue_of (b : clock_base) (s : kts) : ktimerqueue :=
  KQ (RbState (k_nodes s) (cb_root b)) (k_expires s) (cb_earliest b).

Definition on_queue {A} (b : base_id) (m : M ktimerqueue A) : M kts A :=
  x ← get_base b;
  q ← gets (queue_of x);
  '(a, q) ← lift (m q);
  _ ← modify (set_k_nodes (rb_nodes (kq_tree q)));
  _ ← modify (set_k_expires (kq_expires q));
  _ ← upd_base b (set_queue (rb_root (kq_tree q)) (kq_earliest q));
  mret a.

Section KTimers.
Context (clock : nat → Z) (call : N → N → M kts bool).

(** ** Time *)

(** [ktime_now]: the next reading. *)
Definition read_clock : M kts Z :=
  n ← gets k_reading;
  _ ← modify (set_k_reading (S n));
  mret (clock n).

(** The [read_now] of a base. *)
Definition read_now (type : nat) : M kts Z :=
  now ← read_clock;
  '(real, boot, tai) ← gets k_offsets;
  mret (match type with
        | 1%nat => ktime_add now real
        | 2%nat => ktime_add now boot
        | 3%nat => ktime_add now tai
        | _ => now
        end).

Definition ktimer_set_resolution (freq : Z) : M kts Z :=
  if freq =? 0 then mret (- EINVAL)
  else
    let nsec := NSEC_PER_SEC / freq in
    _ ← modify (set_k_resolution (if nsec =? 0 then 1 else nsec));
    mret 0.

Definition ktimer_get_expires (t : N) : M kts Z := λ s, x ← k_expires s !! t; Some (x, s).
Definition ktimer_set_expires (t : N) (time : Z) : M kts unit :=
  λ s, _ ← k_expires s !! t; Some (tt, set_k_expires (<[t := time]> (k_expires s)) s).
Definition ktimer_add_expires (t : N) (time : Z) : M kts unit :=
  x ← ktimer_get_expires t; ktimer_set_expires t (ktime_add_safe x time).

Definition ktimer_is_enqueued (t : N) : M kts bool := k ← get_timer t; mret (kt_state k =? KTIMER_ENQUEUED).
Definition ktimer_is_inactive (t : N) : M kts bool := k ← get_timer t; mret (kt_state k =? KTIMER_INACTIVE).

Definition base_of (t : N) : M kts base_id := k ← get_timer t; lift (kt_base k).

Definition ktimer_expires_remaining (t : N) : M kts Z :=
  e ← ktimer_get_expires t; b ← base_of t; now ← read_now b.2; mret (ktime_sub e now).

Definition ktimer_remaining (t : N) : M kts Z :=
  k ← get_timer t;
  match kt_base k with
  | None => mret 0
  | Some _ => ktimer_expires_remaining t
  end.

(** ** Advancing a periodic timer *)

Definition ktimer_forward (t : N) (now interval : Z) : M kts Z :=
  enqueued ← ktimer_is_enqueued t;
  if (enqueued : bool) then mret 0
  else
    expires ← ktimer_get_expires t;
    let delta := ktime_sub now expires in
    if delta <? 0 then mret 0
    else
      res ← gets k_resolution;
      let interval := if u64 interval <? res then s64 res else interval in
      if interval <=? delta then
        let interval_ns := ktime_to_ns interval in
        let overrun := u64 (Z.quot delta interval_ns) in
        _ ← ktimer_add_expires t (s64 (u64 (u64 interval_ns * overrun)));
        expires ← ktimer_get_expires t;
        if now <? expires then mret overrun
        else
          _ ← ktimer_add_expires t interval;
          mret (u64 (overrun + 1))
      else
        _ ← ktimer_add_expires t interval;
        mret 1.

Definition ktimer_forward_now (t : N) (interval : Z) : M kts Z :=
  b ← base_of t;
  now ← read_now b.2;
  ktimer_forward t now interval.

(** ** The next deadline *)

Definition ktimer_find_step (c : nat) (type : nat) (next : Z) : M kts Z :=
  cb ← get_cpu c;
  if negb (Z.testbit (active_mask cb) (Z.of_nat type)) then mret next
  else
    b ← get_base (c, type);
    entry ← on_queue (c, type) ktimerqueue_peek;
    match entry with
    | None => mret next
    | Some timer =>
        expires ← ktimer_get_expires timer;
        let deadline := ktime_sub expires (time_offset b) in
        if deadline <? next then
          _ ← upd_cpu c (set_expiring (Some timer));
          mret deadline
        else mret next
    end.

Fixpoint ktimer_find_loop (c : nat) (types : list nat) (next : Z) : M kts Z :=
  match types with
  | [] => mret next
  | type :: types => next ← ktimer_find_step c type next; ktimer_find_loop c types next
  end.

Definition ktimer_find_next_deadline (c : nat) : M kts Z :=
  next ← ktimer_find_loop c (seq 0 KTIMER_MAX_CLOCK_BASES) KTIME_MAX;
  mret (if next <? 0 then 0 else next).

Definition ktimer_select_next_deadline (c : nat) : M kts Z :=
  _ ← upd_cpu c (set_expiring None);
  ktimer_find_next_deadline c.

Definition ktimer_arm_next_deadline (next_ns : Z) (c : nat) : M kts bool :=
  _ ← upd_cpu c (set_deadline next_ns);
  now ← read_clock;
  let ret := next_ns <? now in
  let next_ns := if ret then s64 (now + PAST_DEADLINE_GUARD_NS) else next_ns in
  _ ← upd_cpu c (set_hw next_ns);
  mret ret.

Definition ktimer_refresh_next_deadline (c : nat) : M kts bool :=
  next ← ktimer_select_next_deadline c;
  ktimer_arm_next_deadline next c.

Definition ktimer_commit_next_deadline (c : nat) (expires_next : Z) : M kts unit :=
  _ ← upd_cpu c (set_deadline expires_next);
  upd_cpu c (set_hw expires_next).

Definition ktimer_reschedule_timer (me : nat) (t : N) : M kts unit :=
  cb ← get_cpu me;
  base ← base_of t;
  b ← get_base base;
  e ← ktimer_get_expires t;
  let expires := ktime_sub e (time_offset b) in
  let expires := if expires <? 0 then 0 else expires in
  if negb (base.1 =? me)%nat then mret tt
  else if next_deadline cb <=? expires then mret tt
  else if in_irq cb then mret tt
  else
    _ ← upd_cpu me (set_expiring (Some t));
    ktimer_commit_next_deadline me expires.

(** ** Queueing *)

Definition _ktimer_remove (t : N) (base : base_id) (newstate : Z) (reprogram : bool) : M kts unit :=
  k ← get_timer t;
  let state := kt_state k in
  _ ← upd_timer t (set_state newstate);
  if Z.land state KTIMER_ENQUEUED =? 0 then mret tt
  else
    _ ← on_queue base (ktimerqueue_del t);
    empty ← on_queue base ktimerqueue_is_empty;
    _ ← whenM empty (upd_cpu base.1 (λ c, set_mask (Z.land (active_mask c) (Z.lnot (Z.shiftl 1 (Z.of_nat base.2)))) c));
    cb ← get_cpu base.1;
    whenM (reprogram && bool_decide (next_expiring cb = Some t))
      (_ ← ktimer_refresh_next_deadline base.1; mret tt).

Definition ktimer_is_local (me : nat) (t : N) : M kts bool := b ← base_of t; mret (b.1 =? me)%nat.

Definition ktimer_dequeue_timer (me : nat) (t : N) (base : base_id) (restart : bool) : M kts Z :=
  enqueued ← ktimer_is_enqueued t;
  if negb enqueued then mret 0
  else
    local ← ktimer_is_local me t;
    let reprogram := if restart then false else local in
    _ ← _ktimer_remove t base KTIMER_INACTIVE reprogram;
    mret 0.

Definition ktimer_queue_timer (t : N) (base : base_id) : M kts bool :=
  _ ← upd_cpu base.1 (λ c, set_mask (Z.lor (active_mask c) (Z.shiftl 1 (Z.of_nat base.2))) c);
  _ ← upd_timer t (set_state KTIMER_ENQUEUED);
  on_queue base (ktimerqueue_add t).

Definition ktimer_clock_id_to_base_type (clock_id : Z) : nat :=
  if clock_id =? CLOCK_REALTIME then 1%nat
  else if clock_id =? CLOCK_MONOTONIC then 0%nat
  else if clock_id =? CLOCK_BOOTTIME then 2%nat
  else if clock_id =? CLOCK_TAI then 3%nat
  else 0%nat.

Definition ktimer_bind_base (me : nat) (t : N) (type : nat) : M kts unit := upd_timer t (set_base (Some (me, type))).

Definition ktimer_resolve_base (me : nat) (t : N) : M kts base_id :=
  k ← get_timer t;
  let type := ktimer_clock_id_to_base_type (kt_clock_id k) in
  _ ← ktimer_bind_base me t type;
  mret (me, type).

(** ** Starting a timer *)

Definition ktimer_init (me : nat) (timer function : option N) (clock_id mode : Z) : M kts Z :=
  match timer, function with
  | Some t, Some f =>
      _ ← modify (λ s, set_k_nodes (<[t := RbNode None false None None]> (k_nodes s)) s);
      _ ← modify (λ s, set_k_expires (<[t := 0]> (k_expires s)) s);
      let clock_id := if (clock_id =? CLOCK_REALTIME) && negb (Z.land mode KTIMER_MODE_REL =? 0)
                      then CLOCK_MONOTONIC else clock_id in
      _ ← modify (λ s, set_k_nodes (<[t := RbNode (Some t) false None None]> (k_nodes s)) s);
      _ ← modify (λ s, set_k_timers (<[t := KTimer None 0 clock_id (Some f)]> (k_timers s)) s);
      _ ← ktimer_resolve_base me t;
      _ ← upd_timer t (set_state KTIMER_INACTIVE);
      mret 0
  | _, _ => mret (- EINVAL)
  end.

Definition ktimer_start_on_base (me : nat) (t : N) (time mode : Z) (base : base_id) : M kts bool :=
  _ ← ktimer_dequeue_timer me t base true;
  time ← (if negb (Z.land mode KTIMER_MODE_REL =? 0)
          then now ← read_now base.2; mret (ktime_add_safe time now)
          else now ← read_clock; mret time);
  _ ← ktimer_set_expires t time;
  ktimer_queue_timer t base.

Definition ktimer_start (me : nat) (t : N) (time mode : Z) : M kts unit :=
  k ← get_timer t;
  match kt_function k with
  | None => mret tt
  | Some _ =>
      base ← ktimer_resolve_base me t;
      first ← ktimer_start_on_base me t time mode base;
      whenM first (ktimer_reschedule_timer me t)
  end.

Definition ktimer_start_expires (me : nat) (t : N) (mode : Z) : M kts unit :=
  e ← ktimer_get_expires t; ktimer_start me t e mode.

Definition ktimer_restart (me : nat) (t : N) : M kts unit := ktimer_start_expires me t KTIMER_MODE_ABS.

(** ** Cancelling *)

Definition ktimer_callback_is_running (t : N) : M kts bool :=
  b ← base_of t; x ← get_base b; mret (bool_decide (running_timer x = Some t)).

Definition ktimer_is_active (t : N) : M kts bool :=
  k ← get_timer t;
  match kt_base k with
  | None => mret false
  | Some _ => if negb (kt_state k =? KTIMER_INACTIVE) then mret true else ktimer_callback_is_running t
  end.

Definition ktimer_try_to_cancel_local (me : nat) (t : N) (base : base_id) : M kts Z :=
  running ← ktimer_callback_is_running t;
  if (running : bool) then mret (-1) else ktimer_dequeue_timer me t base false.

(** Run on the CPU [c] of the timer. *)
Definition ktimer_cancel_remote_cb (c : nat) (t : N) : M kts Z :=
  base ← base_of t;
  local ← ktimer_is_local c t;
  if negb local then mret (-2)
  else
    running ← ktimer_callback_is_running t;
    if (running : bool) then mret (-3) else ktimer_dequeue_timer c t base false.

(** [smp_call_function_sync] runs the function on the other CPU before it returns;
    [mem]: [calloc] succeeded. *)
Definition ktimer_try_to_cancel_remote (mem : bool) (t : N) : M kts Z :=
  if negb mem then mret (-1)
  else base ← base_of t; ktimer_cancel_remote_cb base.1 t.

Definition ktimer_try_to_cancel (me : nat) (mem : bool) (t : N) : M kts Z :=
  active ← ktimer_is_active t;
  if negb active then mret 0
  else
    base ← base_of t;
    local ← ktimer_is_local me t;
    if (local : bool) then ktimer_try_to_cancel_local me t base else ktimer_try_to_cancel_remote mem t.

(** [ktimer_cancel] tries until it succeeds; [fuel] attempts are followed. *)
Fixpoint ktimer_cancel_loop (fuel : nat) (me : nat) (mem : bool) (t : N) : M kts Z :=
  match fuel with
  | O => fault
  | S fuel =>
      ret ← ktimer_try_to_cancel me mem t;
      if ret =? 0 then mret 0 else ktimer_cancel_loop fuel me mem t
  end.

Definition EBUSY : Z := 16.

Definition ktimer_cancel (fuel : nat) (me : nat) (mem : bool) (t : N) : M kts Z :=
  local ← ktimer_is_local me t;
  running ← (if (local : bool) then ktimer_callback_is_running t else mret false);
  if (running : bool) then mret (- EBUSY) else ktimer_cancel_loop fuel me mem t.

(** ** Expiry *)

Definition ktimer_handler_run (base : base_id) (t : N) : M kts unit :=
  _ ← upd_base base (set_running (Some t));
  _ ← _ktimer_remove t base KTIMER_INACTIVE false;
  k ← get_timer t;
  f ← lift (kt_function k);
  _ ← modify (λ s, set_k_ran (k_ran s ++ [t]) s);
  restart ← call f t;
  enqueued ← ktimer_is_enqueued t;
  _ ← whenM (restart && negb enqueued) (_ ← ktimer_queue_timer t base; mret tt);
  upd_base base (set_running None).

Fixpoint ktimer_dispatch_loop (fuel : nat) (base : base_id) (base_now : Z) : M kts unit :=
  match fuel with
  | O => fault
  | S fuel =>
      entry ← on_queue base ktimerqueue_peek;
      match entry with
      | None => mret tt
      | Some t =>
          e ← ktimer_get_expires t;
          if base_now <? e then mret tt
          else
            _ ← ktimer_handler_run base t;
            ktimer_dispatch_loop fuel base base_now
      end
  end.

Definition ktimer_dispatch_expired_base (fuel : nat) (base : base_id) (now : Z) : M kts unit :=
  b ← get_base base;
  ktimer_dispatch_loop fuel base (ktime_add now (time_offset b)).

Fixpoint ktimer_dispatch_types (fuel : nat) (c : nat) (types : list nat) (now : Z) : M kts unit :=
  match types with
  | [] => mret tt
  | type :: types =>
      cb ← get_cpu c;
      _ ← whenM (Z.testbit (active_mask cb) (Z.of_nat type)) (ktimer_dispatch_expired_base fuel (c, type) now);
      ktimer_dispatch_types fuel c types now
  end.

Definition ktimer_dispatch_expired_timers (fuel : nat) (c : nat) (now : Z) : M kts unit :=
  ktimer_dispatch_types fuel c (seq 0 KTIMER_MAX_CLOCK_BASES) now.

(** ** The interrupt *)

Definition ktimer_refresh_time_offsets (c : nat) : M kts unit :=
  '(real, boot, tai) ← gets k_offsets;
  _ ← upd_base (c, 1%nat) (set_offset real);
  _ ← upd_base (c, 2%nat) (set_offset boot);
  upd_base (c, 3%nat) (set_offset tai).

Definition ktimer_recover_overrun (entry_time : Z) (c : nat) : M kts unit :=
  now ← read_clock;
  let delta := ktime_sub now entry_time in
  _ ← ktimer_arm_next_deadline (ktime_add now delta) c;
  mret tt.

(** One pass: [true] when the next deadline is already in the past. *)
Definition ktimer_interrupt_pass (fuel : nat) (me : nat) : M kts (bool * Z) :=
  now ← read_clock;
  _ ← upd_cpu me (set_in_irq true);
  _ ← ktimer_dispatch_expired_timers fuel me now;
  expires_next ← ktimer_select_next_deadline me;
  _ ← upd_cpu me (set_deadline expires_next);
  _ ← upd_cpu me (set_in_irq false);
  past ← ktimer_arm_next_deadline expires_next me;
  mret (past, now).

(** [overrun] passes have failed; five are tried. *)
Fixpoint ktimer_interrupt_loop (fuel : nat) (me : nat) (tries : nat) : M kts unit :=
  match tries with
  | O => mret tt
  | S tries =>
      '(past, now) ← ktimer_interrupt_pass fuel me;
      if negb past then mret tt
      else
        _ ← ktimer_refresh_time_offsets me;
        match tries with
        | O => ktimer_recover_overrun now me
        | S _ => ktimer_interrupt_loop fuel me tries
        end
  end.

(** [bound_on]: the CPU of the clock chip that interrupted, if one did. *)
Definition ktimer_interrupt (fuel : nat) (me : nat) (bound_on : option nat) : M kts unit :=
  if (match bound_on with Some c => negb (c =? me)%nat | None => false end) then mret tt
  else
    _ ← ktimer_refresh_time_offsets me;
    ktimer_interrupt_loop fuel me 5.

Definition ktimer_sys_init (me : nat) : M kts unit :=
  _ ← upd_cpu me (λ c, CpuBase 0 false KTIME_MAX None
         ((λ b, ClockBase None None None 0) <$> cpu_bases c) (hw_timeout c));
  ktimer_refresh_time_offsets me.

End KTimers.
