(* ===== verification/KTimerInv.v ===== *)
(** * High-resolution timers: the invariant

    The queues of all bases hold disjoint sets of timers in the shared memory; a timer
    is in the queue of its base exactly when it is enqueued; the mask of a CPU has the
    bits of its non-empty queues. *)

From S2P Require Import Prelude RBTree RBHeap RBPure RBProps KTimerQ KTime KTimer.
Import Width.

Open Scope Z_scope.

(** ** Updates of a CPU and of a base, as functions *)

Definition cpu_upd (c : nat) (f : cpu_base → cpu_base) (s : kts) : kts := set_k_cpus (alter f c (k_cpus s)) s.
Definition base_upd (b : base_id) (f : clock_base → clock_base) : kts → kts :=
  cpu_upd b.1 (λ c, set_bases (alter f b.2 (cpu_bases c)) c).
Definition timer_upd (t : N) (f : ktimer → ktimer) (s : kts) : kts := set_k_timers (alter f t (k_timers s)) s.

Definition base_at (s : kts) (b : base_id) : option clock_base := c ← k_cpus s !! b.1; cpu_bases c !! b.2.

(** The part of a CPU outside its bases. *)
Definition same_bases (f : cpu_base → cpu_base) : Prop := ∀ c, cpu_bases (f c) = cpu_bases c.

Lemma base_at_cpu c f s b : same_bases f → base_at (cpu_upd c f s) b = base_at s b.
Proof.
  intros Hf. unfold base_at, cpu_upd. simpl. destruct (decide (c = b.1)) as [->|Hne].
  - rewrite list_lookup_alter_eq. destruct (k_cpus s !! b.1); [|done]. simpl. by rewrite Hf.
  - by rewrite list_lookup_alter_ne.
Qed.

Lemma base_at_eq b f s : base_at (base_upd b f s) b = f <$> base_at s b.
Proof.
  unfold base_at, base_upd, cpu_upd. simpl. rewrite list_lookup_alter_eq. destruct (k_cpus s !! b.1); [|done]. simpl.
  by rewrite list_lookup_alter_eq.
Qed.

Lemma base_at_ne b b' f s : b ≠ b' → base_at (base_upd b f s) b' = base_at s b'.
Proof.
  intros Hne. unfold base_at, base_upd, cpu_upd. simpl. destruct (decide (b.1 = b'.1)) as [E|E].
  - rewrite <- E, list_lookup_alter_eq. destruct (k_cpus s !! b.1); [|done]. simpl. apply list_lookup_alter_ne.
    intros E2. apply Hne. destruct b, b'. simpl in *. congruence.
  - by rewrite list_lookup_alter_ne.
Qed.

Lemma list_insert_alter {A} (l : list A) i x f : l !! i = Some x → <[i := f x]> l = alter f i l.
Proof. revert i. induction l as [|y l IH]; intros [|i] H; simplify_eq/=; [done|]. f_equal. by apply IH. Qed.

Lemma map_insert_alter {A} (m : gmap N A) i x f : m !! i = Some x → <[i := f x]> m = alter f i m.
Proof.
  intros H. apply map_eq. intros j. destruct (decide (i = j)) as [->|Hne].
  - by rewrite lookup_insert_eq, lookup_alter_eq, H.
  - by rewrite lookup_insert_ne, lookup_alter_ne.
Qed.

Lemma get_cpu_run c s cb : k_cpus s !! c = Some cb → get_cpu c s = Some (cb, s).
Proof. unfold get_cpu. by intros ->. Qed.

Lemma upd_cpu_run c f s : is_Some (k_cpus s !! c) → upd_cpu c f s = Some (tt, cpu_upd c f s).
Proof. intros [x Hx]. unfold upd_cpu, cpu_upd. rewrite Hx. simpl. by rewrite (list_insert_alter _ _ x f). Qed.

Lemma get_base_run b s x : base_at s b = Some x → get_base b s = Some (x, s).
Proof.
  unfold base_at, get_base, get_cpu. intros H. destruct (k_cpus s !! b.1) as [c|] eqn:E; [|done]. simpl in H.
  unfold mbind, M_bind. rewrite E. simpl. by rewrite H.
Qed.

Lemma upd_base_run b f s : is_Some (base_at s b) → upd_base b f s = Some (tt, base_upd b f s).
Proof.
  intros [x Hx]. unfold upd_base. rewrite (bind_run _ _ _ _ _ (get_base_run b s x Hx)).
  unfold base_at in Hx. destruct (k_cpus s !! b.1) as [c|] eqn:E; [|done]. simpl in Hx.
  unfold upd_cpu, base_upd, cpu_upd. rewrite E. simpl. do 2 f_equal. unfold set_k_cpus. f_equal.
  rewrite <- (list_insert_alter _ _ c) by done. do 2 f_equal. by apply list_insert_alter.
Qed.

Lemma get_timer_run t s k : k_timers s !! t = Some k → get_timer t s = Some (k, s).
Proof. unfold get_timer. by intros ->. Qed.

Lemma upd_timer_run t f s : is_Some (k_timers s !! t) → upd_timer t f s = Some (tt, timer_upd t f s).
Proof. intros [x Hx]. unfold upd_timer, timer_upd. rewrite Hx. simpl. by rewrite (map_insert_alter _ _ x f). Qed.

Lemma get_expires_run t s x : k_expires s !! t = Some x → ktimer_get_expires t s = Some (x, s).
Proof. unfold ktimer_get_expires. by intros ->. Qed.

(** ** Operations on a queue *)

Definition put_queue (b : base_id) (q : ktimerqueue) (s : kts) : kts :=
  base_upd b (set_queue (rb_root (kq_tree q)) (kq_earliest q))
    (set_k_expires (kq_expires q) (set_k_nodes (rb_nodes (kq_tree q)) s)).

Lemma on_queue_run {A} b (m : M ktimerqueue A) s x a q :
  base_at s b = Some x → m (queue_of x s) = Some (a, q) → on_queue b m s = Some (a, put_queue b q s).
Proof.
  intros Hx Hm. unfold on_queue. rewrite (bind_run _ _ _ _ _ (get_base_run b s x Hx)).
  rewrite (bind_run _ _ s (queue_of x s) s eq_refl). rewrite (bind_run _ _ s (a, q) s); [|unfold lift; by rewrite Hm].
  unfold modify. rewrite (bind_run _ _ _ tt _ eq_refl), (bind_run _ _ _ tt _ eq_refl).
  erewrite bind_run; [reflexivity|]. apply upd_base_run. by exists x.
Qed.

Lemma list_alter_id {A} (l : list A) i f : (∀ x, l !! i = Some x → f x = x) → alter f i l = l.
Proof.
  revert i. induction l as [|y l IH]; intros [|i] H; [done|done| |].
  - change (f y :: l = y :: l). by rewrite (H y eq_refl).
  - change (y :: alter f i l = y :: l). f_equal. by apply IH.
Qed.

Lemma on_queue_read {A} b (m : M ktimerqueue A) s x a :
  base_at s b = Some x → m (queue_of x s) = Some (a, queue_of x s) → on_queue b m s = Some (a, s).
Proof.
  intros Hx Hm. rewrite (on_queue_run b m s x a _ Hx Hm). do 2 f_equal. destruct s as [no ex ti cp offs re rd ra].
  unfold put_queue, base_upd, cpu_upd. simpl. unfold set_k_cpus. simpl. f_equal. apply list_alter_id. intros c Hc.
  destruct c as [ma ir ne nx ba hw]. unfold set_bases. simpl. f_equal. apply list_alter_id. intros y Hy.
  unfold base_at in Hx. simpl in Hx. rewrite Hc in Hx. simpl in Hx. rewrite Hy in Hx. injection Hx as ->. by destruct x.
Qed.

(** ** The invariant *)

Record KInv (s : kts) (ls : base_id → list N) : Prop := {
  ki_shape : ∀ c cb, k_cpus s !! c = Some cb → length (cpu_bases cb) = KTIMER_MAX_CLOCK_BASES;
  ki_queue : ∀ b x, base_at s b = Some x → QInv (queue_of x s) (ls b);
  ki_mask : ∀ c cb i, k_cpus s !! c = Some cb → (i < KTIMER_MAX_CLOCK_BASES)%nat →
    Z.testbit (active_mask cb) (Z.of_nat i) = bool_decide (ls (c, i) ≠ []);
  ki_in : ∀ b t, t ∈ ls b → is_Some (base_at s b) ∧
    ∃ k, k_timers s !! t = Some k ∧ kt_base k = Some b ∧ kt_state k = KTIMER_ENQUEUED;
  ki_out : ∀ t k, k_timers s !! t = Some k →
    (kt_state k = KTIMER_ENQUEUED ∧ ∃ b, kt_base k = Some b ∧ t ∈ ls b) ∨ kt_state k = KTIMER_INACTIVE;
  ki_mem : ∀ t k, k_timers s !! t = Some k → is_Some (k_nodes s !! t) ∧ is_Some (k_expires s !! t);
}.

(** A timer is in one queue only. *)
Lemma ki_disjoint s ls b b' t : KInv s ls → t ∈ ls b → t ∈ ls b' → b = b'.
Proof.
  intros HI H1 H2. destruct (ki_in _ _ HI b t H1) as (_ & k & Hk & Hb & _).
  destruct (ki_in _ _ HI b' t H2) as (_ & k' & Hk' & Hb' & _). congruence.
Qed.

(** A queue is not affected by changes to the memory of other entries. *)
Lemma queue_frame q q' l :
  QInv q l → rb_root (kq_tree q') = rb_root (kq_tree q) → kq_earliest q' = kq_earliest q →
  (∀ k, k ∈ l → rb_nodes (kq_tree q') !! k = rb_nodes (kq_tree q) !! k ∧ kq_expires q' !! k = kq_expires q !! k) → QInv q' l.
Proof.
  intros [(t & (Hin & Hroot & Hnd) & Hok & Hel) Hex Hs Hf] Hr He Hext. constructor.
  - exists t. split; [|done]. split; [|by rewrite Hr].
    eapply in_nodes_ext; [done|]. intros k Hk. apply Hext. by rewrite <- Hel.
  - intros k Hk. destruct (Hext k Hk) as [_ ->]. by apply Hex.
  - assert (Hx : ∀ k, k ∈ l → exof q' k = exof q k) by (intros k Hk; unfold exof; by destruct (Hext k Hk) as [_ ->]).
    clear -Hs Hx. induction Hs as [|x l Hs IH Hall]; constructor.
    + apply IH. intros k Hk. apply Hx. by right.
    + apply Forall_forall. intros y Hy. rewrite Forall_forall in Hall. rewrite !Hx by set_solver. by apply Hall.
  - by rewrite He.
Qed.

(** The timers of a state. *)
Definition ex_of (s : kts) (t : N) : Z := default 0 (k_expires s !! t).

Lemma exof_queue x s : exof (queue_of x s) = ex_of s.
Proof. done. Qed.

Definition upd_list (b : base_id) (l : list N) (ls : base_id → list N) : base_id → list N :=
  λ b', if decide (b' = b) then l else ls b'.

Lemma upd_list_eq b l ls : upd_list b l ls b = l.
Proof. unfold upd_list. by rewrite decide_True. Qed.

Lemma upd_list_ne b b' l ls : b' ≠ b → upd_list b l ls b' = ls b'.
Proof. intros. unfold upd_list. by rewrite decide_False. Qed.

(** ** What a change of a queue leaves alone *)

Definition core (c : cpu_base) : bool * Z * option N * Z := (in_irq c, next_deadline c, next_expiring c, hw_timeout c).
Definition bcore (b : clock_base) : option N * Z := (running_timer b, time_offset b).

Record Quiet (s s' : kts) : Prop := {
  qu_core : ∀ c, core <$> k_cpus s' !! c = core <$> k_cpus s !! c;
  qu_base : ∀ b, bcore <$> base_at s' b = bcore <$> base_at s b;
  qu_offsets : k_offsets s' = k_offsets s;
  qu_resolution : k_resolution s' = k_resolution s;
  qu_reading : k_reading s' = k_reading s;
  qu_ran : k_ran s' = k_ran s;
}.

Lemma quiet_refl s : Quiet s s.
Proof. by constructor. Qed.

Lemma quiet_trans s1 s2 s3 : Quiet s1 s2 → Quiet s2 s3 → Quiet s1 s3.
Proof. intros [] []. constructor; intros; etrans; eauto. Qed.

Lemma quiet_cpu c f s :
  same_bases f → (∀ cb, core (f cb) = core cb) → Quiet s (cpu_upd c f s).
Proof.
  intros Hb Hc. constructor; try done.
  - intros c'. unfold cpu_upd. simpl. destruct (decide (c = c')) as [->|].
    + rewrite list_lookup_alter_eq. destruct (k_cpus s !! c'); [|done]. simpl. by rewrite Hc.
    + by rewrite list_lookup_alter_ne.
  - intros b. by rewrite base_at_cpu.
Qed.

Lemma quiet_base b f s : (∀ x, bcore (f x) = bcore x) → Quiet s (base_upd b f s).
Proof.
  intros Hf. constructor; try done.
  - intros c. unfold base_upd, cpu_upd. simpl. destruct (decide (b.1 = c)) as [<-|].
    + rewrite list_lookup_alter_eq. by destruct (k_cpus s !! b.1).
    + by rewrite list_lookup_alter_ne.
  - intros b'. destruct (decide (b = b')) as [<-|]; [|by rewrite base_at_ne].
    rewrite base_at_eq. destruct (base_at s b); [|done]. simpl. by rewrite Hf.
Qed.

Lemma quiet_put b q s : Quiet s (put_queue b q s).
Proof.
  unfold put_queue. eapply quiet_trans; [|by apply quiet_base]. by constructor.
Qed.

Lemma quiet_timer t f s : Quiet s (timer_upd t f s).
Proof. by constructor. Qed.

(** The shape of the CPUs is fixed. *)
Lemma cpu_exists s b : is_Some (base_at s b) → is_Some (k_cpus s !! b.1).
Proof. unfold base_at. destruct (k_cpus s !! b.1); [by eexists|]. by intros []. Qed.

Lemma base_exists s ls c i : KInv s ls → is_Some (k_cpus s !! c) → (i < KTIMER_MAX_CLOCK_BASES)%nat → is_Some (base_at s (c, i)).
Proof.
  intros HI [cb Hc] Hi. unfold base_at. simpl. rewrite Hc. simpl. apply lookup_lt_is_Some. by rewrite (ki_shape _ _ HI c cb Hc).
Qed.

Lemma base_index s ls b : KInv s ls → is_Some (base_at s b) → (b.2 < KTIMER_MAX_CLOCK_BASES)%nat.
Proof.
  intros HI [x Hx]. unfold base_at in Hx. destruct (k_cpus s !! b.1) as [cb|] eqn:E; [|done]. simpl in Hx.
  rewrite <- (ki_shape _ _ HI b.1 cb E). by eapply lookup_lt_Some.
Qed.

(** Looking up the CPUs after a queue and its mask bit have changed. *)
Definition requeue (b : base_id) (q : ktimerqueue) (mask : Z → Z) (s : kts) : kts :=
  cpu_upd b.1 (λ c, set_mask (mask (active_mask c)) c) (put_queue b q s).

Lemma requeue_cpu b q mask s c cb' :
  k_cpus (requeue b q mask s) !! c = Some cb' →
  ∃ cb, k_cpus s !! c = Some cb ∧ length (cpu_bases cb') = length (cpu_bases cb) ∧
    active_mask cb' = (if decide (c = b.1) then mask (active_mask cb) else active_mask cb).
Proof.
  unfold requeue, put_queue, base_upd, cpu_upd. simpl. destruct (decide (c = b.1)) as [->|Hne].
  - rewrite !list_lookup_alter_eq. destruct (k_cpus s !! b.1) as [cb|]; [|done]. simpl. intros [= <-]. exists cb.
    split; [done|]. simpl. by rewrite length_alter.
  - rewrite !list_lookup_alter_ne by done. intros H. by exists cb'.
Qed.

Lemma requeue_base_eq b q mask s :
  base_at (requeue b q mask s) b = set_queue (rb_root (kq_tree q)) (kq_earliest q) <$> base_at s b.
Proof. unfold requeue. rewrite base_at_cpu by done. unfold put_queue. by rewrite base_at_eq. Qed.

Lemma requeue_base_ne b b' q mask s : b ≠ b' → base_at (requeue b q mask s) b' = base_at s b'.
Proof. intros. unfold requeue. rewrite base_at_cpu by done. unfold put_queue. by rewrite base_at_ne. Qed.

Lemma requeue_quiet b q mask s : Quiet s (requeue b q mask s).
Proof. eapply quiet_trans; [apply quiet_put|]. by apply quiet_cpu. Qed.

(** A queue changes, with the mask bit to match; [ts] are the timers of the new state. *)
Lemma kinv_requeue s ls b x q l mask ts :
  KInv s ls → base_at s b = Some x → QInv q l → 
  (∀ k b', b' ≠ b → k ∈ ls b' → rb_nodes (kq_tree q) !! k = k_nodes s !! k ∧ kq_expires q !! k = k_expires s !! k) →
  (∀ cb i, k_cpus s !! b.1 = Some cb → 0 <= i →
    Z.testbit (mask (active_mask cb)) i = if decide (i = Z.of_nat b.2) then bool_decide (l ≠ []) else Z.testbit (active_mask cb) i) →
  (∀ b' t, t ∈ upd_list b l ls b' → ∃ k, ts !! t = Some k ∧ kt_base k = Some b' ∧ kt_state k = KTIMER_ENQUEUED) →
  (∀ t k, ts !! t = Some k →
    (kt_state k = KTIMER_ENQUEUED ∧ ∃ b', kt_base k = Some b' ∧ t ∈ upd_list b l ls b') ∨ kt_state k = KTIMER_INACTIVE) →
  (∀ t k, ts !! t = Some k → is_Some (rb_nodes (kq_tree q) !! t) ∧ is_Some (kq_expires q !! t)) →
  KInv (set_k_timers ts (requeue b q mask s)) (upd_list b l ls).
Proof.
  intros HI Hx Hq Hframe Hmask Hin Hout Hmem.
  assert (Hb : ∀ b', base_at (set_k_timers ts (requeue b q mask s)) b' = base_at (requeue b q mask s) b') by done.
  constructor.
  - intros c cb' Hc. apply requeue_cpu in Hc as (cb & Hcb & -> & _). by eapply ki_shape.
  - intros b' y Hy. rewrite Hb in Hy. destruct (decide (b' = b)) as [->|Hne].
    + rewrite requeue_base_eq, Hx in Hy. injection Hy as <-. rewrite upd_list_eq. eapply queue_frame; [exact Hq|done|done|]. done.
    + rewrite requeue_base_ne in Hy by done. rewrite upd_list_ne by done.
      eapply queue_frame; [by eapply ki_queue|done|done|]. intros k Hk. by apply (Hframe k b').
  - intros c cb' i Hc Hi. apply requeue_cpu in Hc as (cb & Hcb & _ & ->).
    pose proof (ki_mask _ _ HI c cb i Hcb Hi) as Hm. destruct (decide (c = b.1)) as [->|Hne].
    + rewrite (Hmask cb) by (done || lia). destruct (decide (Z.of_nat i = Z.of_nat b.2)) as [E|E].
      * assert ((b.1, i) = b) as -> by (destruct b; simpl in *; f_equal; lia). by rewrite upd_list_eq.
      * rewrite upd_list_ne; [done|]. intros Eb. apply E. by rewrite <- Eb.
    + rewrite upd_list_ne; [done|]. intros Eb. apply Hne. by rewrite <- Eb.
  - intros b' t Ht. split; [|by apply Hin]. rewrite Hb. destruct (decide (b' = b)) as [->|Hne].
    + rewrite requeue_base_eq, Hx. by eexists.
    + rewrite requeue_base_ne by done. rewrite upd_list_ne in Ht by done. by apply (ki_in _ _ HI b' t).
  - done.
  - done.
Qed.

Lemma requeue_timers b q mask s ts : requeue b q mask (set_k_timers ts s) = set_k_timers ts (requeue b q mask s).
Proof. done. Qed.

Lemma cpu_upd_id c f s : (∀ cb, k_cpus s !! c = Some cb → f cb = cb) → cpu_upd c f s = s.
Proof. intros Hf. unfold cpu_upd, set_k_cpus. rewrite list_alter_id by done. by destruct s. Qed.

(** The mask and the queue change in either order. *)
Lemma mask_first b q mask s :
  put_queue b q (cpu_upd b.1 (λ c, set_mask (mask (active_mask c)) c) s) = requeue b q mask s.
Proof.
  unfold requeue, put_queue, base_upd, cpu_upd, set_k_cpus. simpl. f_equal.
  rewrite !list_alter_alter_eq. by apply list_alter_ext.
Qed.

Lemma queue_of_put b q s x :
  base_at s b = Some x → queue_of (set_queue (rb_root (kq_tree q)) (kq_earliest q) x) (put_queue b q s) = q.
Proof. intros Hx. unfold queue_of. simpl. by destruct q as [[] ? ?]. Qed.

Lemma testbit_clear m k i : 0 <= k → 0 <= i →
  Z.testbit (Z.land m (Z.lnot (Z.shiftl 1 k))) i = if decide (i = k) then false else Z.testbit m i.
Proof.
  intros Hk Hi. rewrite Z.land_spec, Z.lnot_spec, Z.shiftl_1_l by done. destruct (decide (i = k)) as [->|Hne].
  - rewrite Z.pow2_bits_true by done. apply andb_false_r.
  - rewrite Z.pow2_bits_false by done. apply andb_true_r.
Qed.

Lemma testbit_set m k i : 0 <= k →
  Z.testbit (Z.lor m (Z.shiftl 1 k)) i = if decide (i = k) then true else Z.testbit m i.
Proof.
  intros Hk. rewrite Z.lor_spec, Z.shiftl_1_l. destruct (decide (i = k)) as [->|Hne].
  - rewrite Z.pow2_bits_true by done. apply orb_true_r.
  - rewrite Z.pow2_bits_false by done. apply orb_false_r.
Qed.

Section Ops.
Context (clock : nat → Z).

(** The part of [_ktimer_remove] before the reprogramming. *)
Definition removed (b : base_id) (t : N) (q : ktimerqueue) (s : kts) : kts :=
  set_k_timers (alter (set_state KTIMER_INACTIVE) t (k_timers s))
    (requeue b q (λ m, if bool_decide (kq_earliest q = None) then Z.land m (Z.lnot (Z.shiftl 1 (Z.of_nat b.2))) else m) s).

Lemma remove_steps s t b k x q reprogram :
  k_timers s !! t = Some k → kt_state k = KTIMER_ENQUEUED → base_at s b = Some x →
  ktimerqueue_del t (queue_of x s) = Some (tt, q) →
  ∃ cb, k_cpus (removed b t q s) !! b.1 = Some cb ∧
  _ktimer_remove clock t b KTIMER_INACTIVE reprogram s =
    whenM (reprogram && bool_decide (next_expiring cb = Some t)) (_ ← ktimer_refresh_next_deadline clock b.1; mret tt) (removed b t q s).
Proof.
  intros Hk Hst Hx Hq. set (s1 := timer_upd t (set_state KTIMER_INACTIVE) s). set (s2 := put_queue b q s1).
  assert (Hx2 : base_at s2 b = Some (set_queue (rb_root (kq_tree q)) (kq_earliest q) x)).
  { unfold s2, put_queue. rewrite base_at_eq. change (base_at (set_k_expires _ _) b) with (base_at s b). by rewrite Hx. }
  set (mask := λ m, if bool_decide (kq_earliest q = None) then Z.land m (Z.lnot (Z.shiftl 1 (Z.of_nat b.2))) else m).
  assert (Hs3 : whenM (bool_decide (kq_earliest q = None))
      (upd_cpu b.1 (λ c, set_mask (Z.land (active_mask c) (Z.lnot (Z.shiftl 1 (Z.of_nat b.2)))) c)) s2 = Some (tt, removed b t q s)).
  { unfold removed. fold mask. rewrite <- requeue_timers. change (set_k_timers _ s) with s1. unfold requeue. fold s2.
    destruct (bool_decide (kq_earliest q = None)) eqn:E; simpl.
    - by rewrite upd_cpu_run by (apply (cpu_exists s2 b); by eexists).
    - do 2 f_equal. rewrite cpu_upd_id; [done|]. intros cb _. by destruct cb. }
  assert (is_Some (k_cpus (removed b t q s) !! b.1)) as [cb Hcb].
  { apply (cpu_exists _ b). unfold removed. change (base_at (set_k_timers _ ?z) b) with (base_at z b).
    rewrite requeue_base_eq, Hx. by eexists. }
  exists cb. split; [done|]. unfold _ktimer_remove. rewrite (bind_run _ _ _ _ _ (get_timer_run t s k Hk)).
  rewrite (bind_run _ _ _ _ _ (upd_timer_run t _ s ltac:(by eexists))). rewrite Hst. fold s1.
  change (Z.land KTIMER_ENQUEUED KTIMER_ENQUEUED =? 0) with false. cbv iota.
  rewrite (bind_run _ _ _ _ _ (on_queue_run b (ktimerqueue_del t) s1 x tt q Hx Hq)). fold s2.
  assert (on_queue b ktimerqueue_is_empty s2 = Some (bool_decide (kq_earliest q = None), s2)) as He.
  { eapply on_queue_read; [exact Hx2|]. unfold s2. by rewrite (queue_of_put b q s1 x) by done. }
  rewrite (bind_run _ _ _ _ _ He), (bind_run _ _ _ _ _ Hs3). by rewrite (bind_run _ _ _ _ _ (get_cpu_run _ _ _ Hcb)).
Qed.

Lemma split_notin (A : list N) t B : NoDup (A ++ t :: B) → t ∉ A ++ B.
Proof.
  intros (_ & Hd & [Hk _]%NoDup_cons)%NoDup_app. intros [Hin|Hin]%elem_of_app; [|done]. apply (Hd t Hin). set_solver.
Qed.

Lemma kinv_removed s ls t b k x q A B :
  KInv s ls → k_timers s !! t = Some k → kt_base k = Some b → base_at s b = Some x → ls b = A ++ t :: B →
  QInv q (A ++ B) → is_Some (rb_nodes (kq_tree q) !! t) → q_untouched (A ++ t :: B) (queue_of x s) q →
  KInv (removed b t q s) (upd_list b (A ++ B) ls).
Proof.
  intros HI Hk Hb Hx Hl Hq Ht [Hex Hun]. simpl in Hex, Hun.
  assert (Hnd : t ∉ A ++ B) by (apply split_notin; rewrite <- Hl; apply (qi_nodup _ _ (ki_queue _ _ HI b x Hx))).
  assert (Hnodes : ∀ k, k ∉ A ++ t :: B → is_Some (k_nodes s !! k) → rb_nodes (kq_tree q) !! k = k_nodes s !! k) by apply Hun.
  apply (kinv_requeue s ls b x q (A ++ B)); try done.
  - intros k' b' Hne Hk'. split; [|by rewrite Hex]. destruct (ki_in _ _ HI b' k' Hk') as (_ & k2 & Hk2 & _).
    apply Hnodes; [|by eapply ki_mem]. rewrite <- Hl. intros Hin. by apply Hne, (ki_disjoint s ls b' b k').
  - intros cb i Hcb Hi. rewrite (qi_earliest _ _ Hq). destruct (A ++ B) eqn:E; simpl.
    + rewrite testbit_clear by lia. done.
    + destruct (decide (i = Z.of_nat b.2)) as [->|]; [|done].
      rewrite (ki_mask _ _ HI b.1 cb b.2 Hcb) by (eapply base_index; [done|by eexists]). destruct b as [c j]. simpl. rewrite Hl.
      rewrite bool_decide_true; [done|]. by destruct A.
  - intros b' t' Ht'. assert (Hin : t' ∈ ls b').
    { destruct (decide (b' = b)) as [->|Hne]; [rewrite upd_list_eq in Ht'; rewrite Hl; set_solver|by rewrite upd_list_ne in Ht']. }
    assert (t' ≠ t).
    { intros ->. destruct (decide (b' = b)) as [->|Hne]; [by rewrite upd_list_eq in Ht'|].
      apply Hne, (ki_disjoint s ls b' b t); [done|done|]. rewrite Hl. set_solver. }
    rewrite lookup_alter_ne by done. by apply (ki_in _ _ HI b' t').
  - intros t' k' Hk'. destruct (decide (t' = t)) as [->|Hne].
    + rewrite lookup_alter_eq, Hk in Hk'. injection Hk' as <-. by right.
    + rewrite lookup_alter_ne in Hk' by done. destruct (ki_out _ _ HI t' k' Hk') as [(Hs & b' & Hb' & Hin)|]; [left|by right].
      split; [done|]. exists b'. split; [done|]. destruct (decide (b' = b)) as [->|Hne']; [|by rewrite upd_list_ne].
      rewrite upd_list_eq. rewrite Hl in Hin. set_solver.
  - intros t' k' Hk'. rewrite Hex. simpl. assert (∃ k2, k_timers s !! t' = Some k2) as [k2 Hk2].
    { destruct (decide (t' = t)) as [->|Hne]; [by exists k|]. rewrite lookup_alter_ne in Hk' by done. by exists k'. }
    destruct (ki_mem _ _ HI t' k2 Hk2) as [Hm1 Hm2]. split; [|done]. destruct (decide (t' = t)) as [->|Hne]; [done|].
    destruct (decide (t' ∈ A ++ t :: B)) as [Hin|Hin].
    + eapply qi_mapped; [exact Hq|]. set_solver.
    + by rewrite Hnodes.
Qed.

(** What a change of a queue leaves behind. *)
Record Moved (s s' : kts) (f : gmap N ktimer → gmap N ktimer) : Prop := {
  mv_quiet : Quiet s s';
  mv_expires : k_expires s' = k_expires s;
  mv_timers : k_timers s' = f (k_timers s);
}.

Lemma remove_run s ls t b k A B reprogram :
  KInv s ls → k_timers s !! t = Some k → kt_base k = Some b → ls b = A ++ t :: B →
  ∃ s' cb, KInv s' (upd_list b (A ++ B) ls) ∧ Moved s s' (alter (set_state KTIMER_INACTIVE) t) ∧
    k_cpus s' !! b.1 = Some cb ∧
    _ktimer_remove clock t b KTIMER_INACTIVE reprogram s =
      whenM (reprogram && bool_decide (next_expiring cb = Some t)) (_ ← ktimer_refresh_next_deadline clock b.1; mret tt) s'.
Proof.
  intros HI Hk Hb Hl. assert (Hin : t ∈ ls b) by (rewrite Hl; set_solver).
  destruct (ki_in _ _ HI b t Hin) as ([x Hx] & k' & Hk' & _ & Hst). assert (k' = k) as -> by congruence.
  pose proof (ki_queue _ _ HI b x Hx) as Hq. rewrite Hl in Hq.
  destruct (del_run _ _ _ _ Hq) as (q & Hdel & Hq' & Hn & Hun).
  destruct (remove_steps s t b k x q reprogram Hk Hst Hx Hdel) as (cb & Hcb & Hrun).
  exists (removed b t q s), cb. split_and!; [|constructor|done|done].
  - eapply kinv_removed; eauto.
  - unfold removed. eapply quiet_trans; [apply requeue_quiet|]. by constructor.
  - apply Hun.
  - done.
Qed.

Lemma not_queued s ls t k b : KInv s ls → k_timers s !! t = Some k → kt_state k = KTIMER_INACTIVE → t ∉ ls b.
Proof.
  intros HI Hk Hst Hin. destruct (ki_in _ _ HI b t Hin) as (_ & k' & Hk' & _ & Hst').
  assert (k' = k) as -> by congruence. by rewrite Hst in Hst'.
Qed.

(** The part of [ktimer_queue_timer] that changes the state. *)
Definition queued (b : base_id) (t : N) (q : ktimerqueue) (s : kts) : kts :=
  set_k_timers (alter (set_state KTIMER_ENQUEUED) t (k_timers s))
    (requeue b q (λ m, Z.lor m (Z.shiftl 1 (Z.of_nat b.2))) s).

Lemma kinv_queued s ls t b k x q l :
  KInv s ls → k_timers s !! t = Some k → kt_state k = KTIMER_INACTIVE → kt_base k = Some b → base_at s b = Some x →
  (∀ y, y ∈ l ↔ y = t ∨ y ∈ ls b) → QInv q l → q_untouched l (queue_of x s) q → KInv (queued b t q s) (upd_list b l ls).
Proof.
  intros HI Hk Hst Hb Hx Hl Hq [Hex Hun]. simpl in Hex, Hun.
  assert (Hnodes : ∀ y, y ∉ l → is_Some (k_nodes s !! y) → rb_nodes (kq_tree q) !! y = k_nodes s !! y) by apply Hun.
  apply (kinv_requeue s ls b x q l); try done.
  - intros y b' Hne Hy. split; [|by rewrite Hex]. destruct (ki_in _ _ HI b' y Hy) as (_ & k' & Hk' & _).
    apply Hnodes; [|by eapply ki_mem]. intros [->|Hin]%Hl; [by destruct (not_queued _ _ _ _ b' HI Hk Hst)|]. by apply Hne, (ki_disjoint s ls b' b y).
  - intros cb i Hcb Hi. rewrite testbit_set by lia. case_decide; [|done].
    rewrite bool_decide_true; [done|]. intros ->. assert (t ∈ []) by (apply Hl; by left). set_solver.
  - intros b' y Hy. destruct (decide (y = t)) as [->|Hne].
    + rewrite lookup_alter_eq, Hk. simpl. eexists. split; [done|]. split; [|done]. simpl.
      destruct (decide (b' = b)) as [->|Hne]; [done|]. rewrite upd_list_ne in Hy by done.
      by destruct (not_queued _ _ _ _ b' HI Hk Hst).
    + rewrite lookup_alter_ne by done. apply (ki_in _ _ HI b' y).
      destruct (decide (b' = b)) as [->|Hne']; [|by rewrite upd_list_ne in Hy]. rewrite upd_list_eq in Hy.
      by apply Hl in Hy as [|].
  - intros y k' Hk'. destruct (decide (y = t)) as [->|Hne].
    + rewrite lookup_alter_eq, Hk in Hk'. injection Hk' as <-. left. split; [done|]. exists b. split; [done|].
      rewrite upd_list_eq. apply Hl. by left.
    + rewrite lookup_alter_ne in Hk' by done. destruct (ki_out _ _ HI y k' Hk') as [(Hs & b' & Hb' & Hin)|]; [left|by right].
      split; [done|]. exists b'. split; [done|]. destruct (decide (b' = b)) as [->|]; [|by rewrite upd_list_ne].
      rewrite upd_list_eq. apply Hl. by right.
  - intros y k' Hk'. rewrite Hex. assert (∃ k2, k_timers s !! y = Some k2) as [k2 Hk2].
    { destruct (decide (y = t)) as [->|Hne]; [by exists k|]. rewrite lookup_alter_ne in Hk' by done. by exists k'. }
    destruct (ki_mem _ _ HI y k2 Hk2) as [Hm1 Hm2]. split; [|done]. destruct (decide (y ∈ l)) as [Hin|Hin].
    + by eapply qi_mapped.
    + by rewrite Hnodes.
Qed.

Lemma queue_run s ls t b k :
  KInv s ls → k_timers s !! t = Some k → kt_state k = KTIMER_INACTIVE → kt_base k = Some b → is_Some (base_at s b) →
  ∃ s', ktimer_queue_timer t b s = Some (bool_decide (head (enqueue (ex_of s) t (ls b)) = Some t), s') ∧
    KInv s' (upd_list b (enqueue (ex_of s) t (ls b)) ls) ∧ Moved s s' (alter (set_state KTIMER_ENQUEUED) t).
Proof.
  intros HI Hk Hst Hb [x Hx]. pose proof (ki_queue _ _ HI b x Hx) as Hq. destruct (ki_mem _ _ HI t k Hk) as [Hn He].
  destruct (add_run _ _ t Hq Hn He (not_queued _ _ _ _ b HI Hk Hst)) as (q & Hadd & Hq' & Hun).
  rewrite exof_queue in Hadd, Hq', Hun. exists (queued b t q s). split_and!.
  - unfold ktimer_queue_timer.
    rewrite (bind_run _ _ _ _ _ (upd_cpu_run b.1 _ s ltac:(apply (cpu_exists s b); by eexists))).
    erewrite bind_run; [|apply upd_timer_run; by exists k]. unfold queued. rewrite <- requeue_timers, <- mask_first.
    apply (on_queue_run b _ _ x); [|done]. by rewrite <- Hx; apply base_at_cpu.
  - eapply kinv_queued; eauto. intros y. apply enqueue_elem.
  - constructor; [|apply Hun|done]. unfold queued. eapply quiet_trans; [apply requeue_quiet|]. by constructor.
Qed.

End Ops.
