(* ===== verification/KTimerProps.v ===== *)
(** * High-resolution timers: the properties

    What expiry, starting, cancelling and forwarding a timer do to the queues of a CPU
    and to the deadline its clock chip is programmed with. *)

From S2P Require Import Prelude RBTree RBHeap RBPure RBProps KTimerQ KTime KTimeProps KTimer KTimerInv.
Import Width.

Open Scope Z_scope.

(** ** Changes outside the queues *)

Definition bqueue (b : clock_base) : option N * option N := (cb_root b, cb_earliest b).
Definition cqueues (c : cpu_base) : Z * list (option N * option N) := (active_mask c, bqueue <$> cpu_bases c).

Record Unqueued (ls : base_id → list N) (s s' : kts) : Prop := {
  uq_cpus : ∀ c, cqueues <$> k_cpus s' !! c = cqueues <$> k_cpus s !! c;
  uq_nodes : k_nodes s' = k_nodes s;
  uq_timers : k_timers s' = k_timers s;
  uq_expires : ∀ b t, t ∈ ls b → k_expires s' !! t = k_expires s !! t;
  uq_mapped : ∀ t, is_Some (k_expires s !! t) → is_Some (k_expires s' !! t);
}.

Lemma uq_base ls s s' b : Unqueued ls s s' → bqueue <$> base_at s' b = bqueue <$> base_at s b.
Proof.
  intros HU. pose proof (uq_cpus _ _ _ HU b.1) as Hc. unfold base_at.
  destruct (k_cpus s' !! b.1) as [c'|], (k_cpus s !! b.1) as [c|]; try done. simpl in *. injection Hc as _ Hc.
  rewrite <- !list_lookup_fmap. by rewrite Hc.
Qed.

Lemma kinv_unqueued s s' ls : Unqueued ls s s' → KInv s ls → KInv s' ls.
Proof.
  intros HU HI. assert (Hcpu : ∀ c cb', k_cpus s' !! c = Some cb' → ∃ cb, k_cpus s !! c = Some cb ∧ cqueues cb' = cqueues cb).
  { intros c cb' Hc. pose proof (uq_cpus _ _ _ HU c) as E. rewrite Hc in E. destruct (k_cpus s !! c) as [cb|]; [|done].
    injection E as E1 E2. exists cb. split; [done|]. unfold cqueues. by rewrite E1, E2. }
  constructor.
  - intros c cb' (cb & Hcb & E)%Hcpu. rewrite <- (ki_shape _ _ HI c cb Hcb), <- !(length_fmap bqueue). by injection E as _ ->.
  - intros b x' Hx'. pose proof (uq_base _ _ _ b HU) as E. rewrite Hx' in E. destruct (base_at s b) as [x|] eqn:Hx; [|done].
    injection E as E1 E2. eapply queue_frame; [apply (ki_queue _ _ HI b x Hx)|done|done|]. intros k Hk. simpl.
    rewrite (uq_nodes _ _ _ HU). by rewrite (uq_expires _ _ _ HU b k Hk).
  - intros c cb' i (cb & Hcb & E)%Hcpu Hi. injection E as -> _. by apply (ki_mask _ _ HI c cb i).
  - intros b t Ht. rewrite (uq_timers _ _ _ HU). destruct (ki_in _ _ HI b t Ht) as ([x Hx] & ?). split; [|done].
    pose proof (uq_base _ _ _ b HU) as E. rewrite Hx in E. by destruct (base_at s' b).
  - rewrite (uq_timers _ _ _ HU). apply (ki_out _ _ HI).
  - intros t k. rewrite (uq_timers _ _ _ HU), (uq_nodes _ _ _ HU). intros Hk. destruct (ki_mem _ _ HI t k Hk) as [H1 H2].
    split; [done|]. by apply (uq_mapped _ _ _ HU).
Qed.

Lemma unqueued_cpu ls c f s : (∀ cb, cqueues (f cb) = cqueues cb) → Unqueued ls s (cpu_upd c f s).
Proof.
  intros Hf. constructor; try done. intros c'. unfold cpu_upd. simpl. destruct (decide (c = c')) as [->|Hne].
  - rewrite list_lookup_alter_eq. destruct (k_cpus s !! c') as [cb|]; [|done]. simpl. by rewrite Hf.
  - by rewrite list_lookup_alter_ne.
Qed.

Lemma unqueued_base ls b f s : (∀ x, bqueue (f x) = bqueue x) → Unqueued ls s (base_upd b f s).
Proof.
  intros Hf. apply unqueued_cpu. intros cb. unfold cqueues. simpl. f_equal. apply list_eq. intros i.
  rewrite !list_lookup_fmap. destruct (decide (b.2 = i)) as [<-|Hne].
  - rewrite list_lookup_alter_eq. destruct (cpu_bases cb !! b.2) as [x|]; [|done]. simpl. by rewrite Hf.
  - by rewrite list_lookup_alter_ne.
Qed.

Lemma unqueued_trans ls s1 s2 s3 : Unqueued ls s1 s2 → Unqueued ls s2 s3 → Unqueued ls s1 s3.
Proof.
  intros H1 H2. constructor.
  - intros c. by rewrite (uq_cpus _ _ _ H2), (uq_cpus _ _ _ H1).
  - by rewrite (uq_nodes _ _ _ H2), (uq_nodes _ _ _ H1).
  - by rewrite (uq_timers _ _ _ H2), (uq_timers _ _ _ H1).
  - intros b t Ht. by rewrite (uq_expires _ _ _ H2 b), (uq_expires _ _ _ H1 b).
  - intros t Ht. by apply (uq_mapped _ _ _ H2), (uq_mapped _ _ _ H1).
Qed.

Lemma unqueued_reading ls n s s' : Unqueued ls s s' → Unqueued ls s (set_k_reading n s').
Proof. intros []. by constructor. Qed.

Lemma unqueued_expires ls s t x :
  (∀ b, t ∉ ls b) → Unqueued ls s (set_k_expires (<[t := x]> (k_expires s)) s).
Proof.
  intros Ht. constructor; try done.
  - intros b y Hy. simpl. rewrite lookup_insert_ne; [done|]. intros ->. by apply (Ht b).
  - intros y Hy. simpl. destruct (decide (t = y)) as [->|Hne]; [rewrite lookup_insert_eq; by eexists|by rewrite lookup_insert_ne].
Qed.

Lemma kinv_ext s ls ls' : (∀ b, ls b = ls' b) → KInv s ls → KInv s ls'.
Proof.
  intros E HI. constructor.
  - apply (ki_shape _ _ HI).
  - intros b x Hx. rewrite <- E. by apply (ki_queue _ _ HI).
  - intros c cb i Hc Hi. rewrite <- E. by apply (ki_mask _ _ HI c cb i).
  - intros b t. rewrite <- E. apply (ki_in _ _ HI).
  - intros t k Hk. destruct (ki_out _ _ HI t k Hk) as [(Hs & b & Hb & Hin)|]; [left|by right].
    split; [done|]. exists b. by rewrite <- E.
  - apply (ki_mem _ _ HI).
Qed.

Lemma upd_list_twice b l l' ls b' : upd_list b l (upd_list b l' ls) b' = upd_list b l ls b'.
Proof. unfold upd_list. by case_decide. Qed.

Lemma upd_list_self b ls b' : upd_list b (ls b) ls b' = ls b'.
Proof. unfold upd_list. by case_decide; subst. Qed.

(** ** What the operations on queues keep *)

Definition tcore (k : ktimer) : option base_id * Z * option N := (kt_base k, kt_clock_id k, kt_function k).

Record Kept (s s' : kts) : Prop := {
  kp_core : ∀ c, core <$> k_cpus s' !! c = core <$> k_cpus s !! c;
  kp_offset : ∀ b, time_offset <$> base_at s' b = time_offset <$> base_at s b;
  kp_offsets : k_offsets s' = k_offsets s;
  kp_resolution : k_resolution s' = k_resolution s;
  kp_timers : ∀ t, tcore <$> k_timers s' !! t = tcore <$> k_timers s !! t;
}.

Lemma kept_refl s : Kept s s.
Proof. by constructor. Qed.

Lemma kept_trans s1 s2 s3 : Kept s1 s2 → Kept s2 s3 → Kept s1 s3.
Proof. intros [] []. constructor; intros; etrans; eauto. Qed.

Lemma kept_base s s' b : Kept s s' → is_Some (base_at s b) → is_Some (base_at s' b).
Proof. intros HK [x Hx]. pose proof (kp_offset _ _ HK b) as E. rewrite Hx in E. destruct (base_at s' b); [by eexists|done]. Qed.

Lemma kept_moved s s' f t :
  Moved s s' (alter f t) → (∀ k, tcore (f k) = tcore k) → Kept s s'.
Proof.
  intros [[Hc Hb Ho Hr _ _] _ Ht] Hf. constructor; try done.
  - intros b. specialize (Hb b). destruct (base_at s' b), (base_at s b); try done. simpl in *. unfold bcore in Hb. congruence.
  - intros t'. rewrite Ht. destruct (decide (t = t')) as [<-|Hne]; [|by rewrite lookup_alter_ne].
    rewrite lookup_alter_eq. destruct (k_timers s !! t) as [k|]; [|done]. simpl. by rewrite Hf.
Qed.

Lemma kept_running b v s : Kept s (base_upd b (set_running v) s).
Proof.
  constructor; try done.
  - intros c. unfold base_upd, cpu_upd. simpl. destruct (decide (b.1 = c)) as [<-|].
    + rewrite list_lookup_alter_eq. by destruct (k_cpus s !! b.1).
    + by rewrite list_lookup_alter_ne.
  - intros b'. destruct (decide (b = b')) as [<-|]; [|by rewrite base_at_ne]. rewrite base_at_eq. by destruct (base_at s b).
Qed.

Lemma kept_expires m s : Kept s (set_k_expires m s).
Proof. by constructor. Qed.

Definition running_of (s : kts) (b : base_id) : option (option N) := running_timer <$> base_at s b.

Lemma running_quiet s s' b : Quiet s s' → running_of s' b = running_of s b.
Proof.
  intros [_ Hb _ _ _ _]. specialize (Hb b). unfold running_of. destruct (base_at s' b), (base_at s b); try done.
  simpl in *. unfold bcore in Hb. congruence.
Qed.

(** ** The queues of a state *)

Lemma running_upd b v s b' : is_Some (base_at s b) →
  running_of (base_upd b (set_running v) s) b' = if decide (b' = b) then Some v else running_of s b'.
Proof.
  intros [x Hx]. unfold running_of. case_decide as E; [subst; by rewrite base_at_eq, Hx|]. by rewrite base_at_ne by congruence.
Qed.

Lemma enqueue_ext ex ex' t l : ex t = ex' t → (∀ y, y ∈ l → ex y = ex' y) → enqueue ex t l = enqueue ex' t l.
Proof.
  intros Ht. induction l as [|y l IH]; intros Hl; [done|]. simpl. rewrite Ht, Hl by set_solver.
  case_match; [done|]. f_equal. apply IH. set_solver.
Qed.

Lemma enqueue_behind ex t E L : (∀ y, y ∈ E → ex y <= ex t) → enqueue ex t (E ++ L) = E ++ enqueue ex t L.
Proof.
  induction E as [|y E IH]; intros HE; [done|]. simpl. pose proof (HE y ltac:(set_solver)).
  destruct (Z.ltb_spec (ex t) (ex y)); [lia|]. f_equal. apply IH. set_solver.
Qed.

Lemma peek_run s ls b : KInv s ls → is_Some (base_at s b) → on_queue b ktimerqueue_peek s = Some (head (ls b), s).
Proof.
  intros HI [x Hx]. eapply on_queue_read; [exact Hx|]. unfold ktimerqueue_peek, gets.
  by rewrite (qi_earliest _ _ (ki_queue _ _ HI b x Hx)).
Qed.

Lemma expires_mapped s ls b t : KInv s ls → t ∈ ls b → k_expires s !! t = Some (ex_of s t).
Proof.
  intros HI Hin. destruct (ki_in _ _ HI b t Hin) as (_ & k & Hk & _). destruct (ki_mem _ _ HI t k Hk) as [_ [x Hx]].
  unfold ex_of. by rewrite Hx.
Qed.

Lemma queue_nodup s ls b : KInv s ls → NoDup (ls b).
Proof.
  intros HI. destruct (ls b) as [|t l] eqn:E; [constructor|]. destruct (ki_in _ _ HI b t) as ([x Hx] & _); [rewrite E; set_solver|].
  rewrite <- E. eapply qi_nodup, (ki_queue _ _ HI b x Hx).
Qed.

Definition now_at (s : kts) (now : Z) (b : base_id) : Z := ktime_add now (default 0 (time_offset <$> base_at s b)).
Definition expired (s : kts) (ls : base_id → list N) (now : Z) (b : base_id) : list N :=
  filter (λ t, ex_of s t <= now_at s now b) (ls b).
Definition pending (s : kts) (ls : base_id → list N) (now : Z) (b : base_id) : list N :=
  filter (λ t, ¬ ex_of s t <= now_at s now b) (ls b).

Lemma sorted_split ex n l : by_expiry ex l → l = filter (λ t, ex t <= n) l ++ filter (λ t, ¬ ex t <= n) l.
Proof.
  induction 1 as [|t l Hs IH Hall]; [done|]. destruct (decide (ex t <= n)) as [Hle|Hgt].
  - rewrite filter_cons_True, (filter_cons_False (λ t, ¬ ex t <= n)) by tauto. simpl. by f_equal.
  - rewrite filter_cons_False, (filter_cons_True (λ t, ¬ ex t <= n)) by done.
    assert (filter (λ t, ex t <= n) l = []) as E.
    { clear -Hall Hgt. induction Hall as [|y l Hy _ IH]; [done|]. rewrite filter_cons_False by lia. done. }
    rewrite E in *. simpl. by f_equal.
Qed.

Lemma queue_sorted s ls b : KInv s ls → by_expiry (ex_of s) (ls b).
Proof.
  intros HI. destruct (ls b) as [|t l] eqn:E; [constructor|].
  destruct (ki_in _ _ HI b t) as ([x Hx] & _); [rewrite E; set_solver|].
  rewrite <- E. apply (qi_sorted _ _ (ki_queue _ _ HI b x Hx)).
Qed.

Lemma split_expired s ls now b : KInv s ls → ls b = expired s ls now b ++ pending s ls now b.
Proof. intros HI. by apply sorted_split, queue_sorted. Qed.

Lemma length_expired s ls now b : (length (expired s ls now b) <= length (ls b))%nat.
Proof. apply length_filter. Qed.

Lemma elem_expired s ls now b t : t ∈ expired s ls now b → t ∈ ls b.
Proof. intros [_ ?]%list_elem_of_filter. done. Qed.

Lemma filter_ext_in (P Q : N → Prop) `{!∀ x, Decision (P x), !∀ x, Decision (Q x)} (l : list N) :
  (∀ x, x ∈ l → P x ↔ Q x) → filter P l = filter Q l.
Proof.
  induction l as [|x l IH]; intros Heq; [done|]. specialize (IH ltac:(set_solver)). destruct (decide (P x)) as [HP|HP].
  - rewrite (filter_cons_True P), (filter_cons_True Q); [by f_equal| |done]. apply Heq; set_solver.
  - rewrite (filter_cons_False P), (filter_cons_False Q); [done| |done]. rewrite <- Heq; set_solver.
Qed.

Lemma now_kept s s' now b : Kept s s' → now_at s' now b = now_at s now b.
Proof. intros HK. unfold now_at. by rewrite (kp_offset _ _ HK b). Qed.

Lemma expired_same s s' ls ls' now b :
  now_at s' now b = now_at s now b → ls' b = ls b → (∀ t, t ∈ ls b → ex_of s' t = ex_of s t) →
  expired s' ls' now b = expired s ls now b ∧ pending s' ls' now b = pending s ls now b.
Proof.
  intros Hn El Hex. unfold expired, pending. rewrite El, Hn.
  split; apply filter_ext_in; intros t Ht; by rewrite Hex.
Qed.

Lemma map_ext_in_list {A B} (f g : A → B) l : (∀ x, x ∈ l → f x = g x) → map f l = map g l.
Proof. intros H. apply map_ext_in. intros x Hx. apply H. by apply list_elem_of_In. Qed.

Lemma kept_cpu s s' c : Kept s s' → is_Some (k_cpus s !! c) → is_Some (k_cpus s' !! c).
Proof. intros HK [x Hx]. pose proof (kp_core _ _ HK c) as E. rewrite Hx in E. destruct (k_cpus s' !! c); [by eexists|done]. Qed.

(** ** Expiry of the timers of a base *)

Definition later (now x : Z) : Prop := now < x ∧ 0 <= x < 2 ^ 63.

(** What the callbacks promise: a callback sets the expiry of its own timer and may
    read the clock; [asks]: it asks for a restart, and then only at a time its base has
    not reached. *)
Definition Callbacks (call : N → N → M kts bool) (asks : N → bool) (due : N → Z) : Prop :=
  ∀ f t s, is_Some (k_expires s !! t) →
    ∃ x n, call f t s = Some (asks t, set_k_reading n (set_k_expires (<[t := x]> (k_expires s)) s)) ∧ (asks t = true → later (due t) x).

Definition HasCallback (s : kts) : Prop := ∀ t k, k_timers s !! t = Some k → is_Some (kt_function k).

Lemma has_callback_kept s s' : Kept s s' → HasCallback s → HasCallback s'.
Proof.
  intros HK H t k Hk. pose proof (kp_timers _ _ HK t) as E. rewrite Hk in E.
  destruct (k_timers s !! t) as [k0|] eqn:Hk0; [|done]. injection E as _ _ ->. by apply (H t k0).
Qed.

Section Expiry.
Context (clock : nat → Z) (call : N → N → M kts bool) (asks : N → bool) (due : N → Z).
Hypothesis Hcall : Callbacks call asks due.

(** After a callback: back in the queue if it asked for that. *)
Lemma callback_restart_run s ls t b k :
  KInv s ls → k_timers s !! t = Some k → kt_state k = KTIMER_INACTIVE → kt_base k = Some b → is_Some (base_at s b) →
  ∃ s', (∀ m : M kts unit, (enqueued ← ktimer_is_enqueued t;
         _ ← whenM (asks t && negb enqueued) (_ ← ktimer_queue_timer t b; mret tt); m) s = m s') ∧
    KInv s' (upd_list b (if asks t then enqueue (ex_of s) t (ls b) else ls b) ls) ∧
    Kept s s' ∧ k_expires s' = k_expires s ∧ k_ran s' = k_ran s ∧ (∀ b', running_of s' b' = running_of s b').
Proof.
  intros HI Hk Hst Hb Hx.
  assert (He : ktimer_is_enqueued t s = Some (false, s)).
  { unfold ktimer_is_enqueued. rewrite (bind_run _ _ _ _ _ (get_timer_run t s k Hk)). by rewrite Hst. }
  destruct (asks t) eqn:Ha.
  - destruct (queue_run s ls t b k HI Hk Hst Hb Hx) as (s' & Hrun & HI' & HM). exists s'. split_and!; try done.
    + intros m. rewrite (bind_run _ _ _ _ _ He), (bind_run _ _ s tt s'); [done|]. simpl. by rewrite (bind_run _ _ _ _ _ Hrun).
    + by eapply kept_moved.
    + apply (mv_expires _ _ _ HM).
    + apply (qu_ran _ _ (mv_quiet _ _ _ HM)).
    + intros b'. apply running_quiet, (mv_quiet _ _ _ HM).
  - exists s. split; [intros m; by rewrite (bind_run _ _ _ _ _ He), (bind_run _ _ s tt s)|]. split_and!; [|apply kept_refl|done..].
    eapply kinv_ext; [|exact HI]. intros b'. symmetry. apply upd_list_self.
Qed.

Record Ran (b : base_id) (s s' : kts) (ts : list N) : Prop := {
  rn_kept : Kept s s';
  rn_ran : k_ran s' = k_ran s ++ ts;
  rn_expires : ∀ t, t ∉ ts → k_expires s' !! t = k_expires s !! t;
  rn_running : ∀ b', running_of s' b' = if decide (b' = b ∧ ts ≠ []) then Some None else running_of s b';
  rn_restart : ∀ t, t ∈ ts → asks t = true → later (due t) (ex_of s' t);
}.

Lemma handler_run s ls b t L :
  KInv s ls → HasCallback s → ls b = t :: L →
  ∃ s', ktimer_handler_run clock call b t s = Some (tt, s') ∧
    KInv s' (upd_list b (if asks t then enqueue (ex_of s') t L else L) ls) ∧ Ran b s s' [t].
Proof.
  intros HI HC Hl. assert (Hin : t ∈ ls b) by (rewrite Hl; set_solver).
  destruct (ki_in _ _ HI b t Hin) as (Hx & k & Hk & Hb & Hst).
  set (s1 := base_upd b (set_running (Some t)) s).
  assert (HI1 : KInv s1 ls) by (eapply kinv_unqueued; [by apply unqueued_base|done]).
  destruct (remove_run clock s1 ls t b k [] L false HI1 Hk Hb Hl) as (s2 & cb & HI2 & HM & _ & Hrem).
  set (k2 := set_state KTIMER_INACTIVE k).
  assert (Hk2 : k_timers s2 !! t = Some k2) by (rewrite (mv_timers _ _ _ HM), lookup_alter_eq; simpl; by rewrite Hk).
  destruct (HC t k Hk) as [f Hf]. set (s3 := set_k_ran (k_ran s2 ++ [t]) s2).
  destruct (Hcall f t s3) as (x & n & Hrun & Hdue).
  { simpl. rewrite (mv_expires _ _ _ HM). by apply (ki_mem _ _ HI t k). }
  set (s4 := set_k_reading n (set_k_expires (<[t := x]> (k_expires s3)) s3)) in *.
  assert (Hnq : ∀ b', t ∉ upd_list b ([] ++ L) ls b') by (intros b'; by eapply not_queued).
  assert (HI4 : KInv s4 (upd_list b ([] ++ L) ls)).
  { eapply kinv_unqueued; [|exact HI2]. eapply unqueued_trans; [by apply (unqueued_expires _ s2 t x)|by constructor]. }
  assert (HK4 : Kept s s4).
  { eapply kept_trans; [apply kept_running|]. eapply kept_trans; [eapply kept_moved; [exact HM|done]|]. by constructor. }
  assert (Hx4 : is_Some (base_at s4 b)) by by eapply kept_base.
  destruct (callback_restart_run s4 _ t b k2 HI4 Hk2 eq_refl Hb Hx4) as (s5 & Hre & HI5 & HK5 & Hex5 & Hran5 & Hrun5).
  assert (Hx5 : is_Some (base_at s5 b)) by by eapply kept_base.
  exists (base_upd b (set_running None) s5). split_and!.
  - unfold ktimer_handler_run. rewrite (bind_run _ _ _ _ _ (upd_base_run b _ s Hx)). fold s1.
    rewrite (bind_run _ _ _ _ _ Hrem), (bind_run _ _ _ _ _ (get_timer_run t s2 k2 Hk2)).
    rewrite (bind_run _ _ s2 f s2); [|simpl; by rewrite Hf]. unfold modify. erewrite bind_run; [|reflexivity]. fold s3. rewrite (bind_run _ _ _ _ _ Hrun).
    rewrite Hre. by apply upd_base_run.
  - eapply kinv_unqueued; [by apply unqueued_base|]. eapply kinv_ext; [|exact HI5]. intros b'.
    rewrite upd_list_twice, upd_list_eq. change (ex_of (base_upd _ _ s5)) with (ex_of s5). unfold ex_of. by rewrite Hex5.
  - constructor.
    + eapply kept_trans; [exact HK4|]. eapply kept_trans; [exact HK5|]. apply kept_running.
    + change (k_ran s5 = k_ran s ++ [t]). rewrite Hran5. simpl. by rewrite (qu_ran _ _ (mv_quiet _ _ _ HM)).
    + intros t' Ht'. change (k_expires s5 !! t' = k_expires s !! t'). rewrite Hex5. simpl.
      rewrite lookup_insert_ne by set_solver. by rewrite (mv_expires _ _ _ HM).
    + intros b'. rewrite running_upd by done. rewrite Hrun5. change (running_of s4 b') with (running_of s2 b').
      rewrite (running_quiet s1 s2) by apply (mv_quiet _ _ _ HM). unfold s1. rewrite running_upd by done.
      repeat case_decide; naive_solver.
    + intros t' ->%list_elem_of_singleton Ha. change (later (due t) (ex_of s5 t)). unfold ex_of. rewrite Hex5. simpl.
      rewrite lookup_insert_eq. by apply Hdue.
Qed.

(** The timers [E] that were run, in this order, put back where they asked for it. *)
Definition restarted (ex : N → Z) (E L : list N) : list N := foldl (λ l t, if asks t then enqueue ex t l else l) L E.

Lemma ran_refl b s : Ran b s s [].
Proof.
  constructor; [apply kept_refl|by rewrite app_nil_r|done| |set_solver]. intros b'. case_decide as E; [|done]. by destruct E.
Qed.

Lemma ran_cons b s s1 s2 t E : NoDup (t :: E) → Ran b s s1 [t] → Ran b s1 s2 E → Ran b s s2 (t :: E).
Proof.
  intros [Ht _]%NoDup_cons H1 H2. constructor.
  - eapply kept_trans; [apply H1|apply H2].
  - rewrite (rn_ran _ _ _ _ H2), (rn_ran _ _ _ _ H1). by rewrite <- app_assoc.
  - intros y Hy. rewrite (rn_expires _ _ _ _ H2), (rn_expires _ _ _ _ H1) by set_solver. done.
  - intros b'. rewrite (rn_running _ _ _ _ H2), (rn_running _ _ _ _ H1). repeat case_decide; naive_solver.
  - intros y Hy Ha. destruct (decide (y ∈ E)) as [HE|HE]; [by apply (rn_restart _ _ _ _ H2)|].
    assert (y = t) as -> by set_solver. unfold ex_of. rewrite (rn_expires _ _ _ _ H2) by done.
    apply (rn_restart _ _ _ _ H1); [set_solver|done].
Qed.

(** The list after a step, with the expiry times at the end. *)
Lemma step_list s1 s' b t E L :
  NoDup (t :: E ++ L) → Ran b s1 s' E →
  restarted (ex_of s') E (if asks t then enqueue (ex_of s1) t L else L) = restarted (ex_of s') (t :: E) L.
Proof.
  intros [Ht Hnd]%NoDup_cons HR. unfold restarted. simpl. f_equal. destruct (asks t); [|done].
  apply NoDup_app in Hnd as (_ & Hd & _).
  assert (Hex : ∀ y, y ∉ E → ex_of s1 y = ex_of s' y) by (intros y Hy; unfold ex_of; by rewrite (rn_expires _ _ _ _ HR)).
  apply enqueue_ext; [apply Hex; set_solver|]. intros y Hy. apply Hex. intros HE. by apply (Hd y).
Qed.

(** The list is the expired timers [E] followed by those not due yet. *)
Record DueSplit (s : kts) (now : Z) (E L : list N) : Prop := {
  ds_due : ∀ t, t ∈ E → ex_of s t <= now ∧ due t = now;
  ds_later : ∀ t, t ∈ L → now < ex_of s t;
}.

Lemma dispatch_step s ls b now t E L :
  KInv s ls → HasCallback s → ls b = t :: E ++ L → DueSplit s now (t :: E) L →
  ∃ s1, let L1 := if asks t then enqueue (ex_of s1) t L else L in
    ktimer_handler_run clock call b t s = Some (tt, s1) ∧ KInv s1 (upd_list b (E ++ L1) ls) ∧ Ran b s s1 [t] ∧ DueSplit s1 now E L1.
Proof.
  intros HI HC Hl [HE HL]. pose proof (queue_nodup s ls b HI) as Hnd. rewrite Hl in Hnd. apply NoDup_cons in Hnd as [Htn _].
  destruct (HE t ltac:(set_solver)) as [_ Hdue].
  destruct (handler_run s ls b t (E ++ L) HI HC Hl) as (s1 & Hrun & HI1 & HR1). exists s1. simpl.
  assert (Hex : ∀ y, y ∈ E ++ L → ex_of s1 y = ex_of s y).
  { intros y Hy. unfold ex_of. rewrite (rn_expires _ _ _ _ HR1); [done|]. intros ->%list_elem_of_singleton. done. }
  assert (HE1 : ∀ y, y ∈ E → ex_of s1 y <= now) by (intros y Hy; rewrite Hex by set_solver; apply HE; set_solver).
  assert (Hres : asks t = true → now < ex_of s1 t).
  { intros Ha. rewrite <- Hdue. apply (rn_restart _ _ _ _ HR1); [set_solver|done]. }
  split_and!; [done| |done|constructor].
  - destruct (asks t) eqn:Ha; [|done]. rewrite <- enqueue_behind; [done|].
    intros y Hy. specialize (HE1 y Hy). specialize (Hres eq_refl). lia.
  - intros y Hy. split; [by apply HE1|]. apply HE. set_solver.
  - intros y Hy. destruct (asks t) eqn:Ha; [apply enqueue_elem in Hy as [->|Hy]; [by apply Hres|]|];
      (rewrite Hex by set_solver; by apply HL).
Qed.

Lemma dispatch_loop_run b now E : ∀ s ls L fuel,
  KInv s ls → HasCallback s → is_Some (base_at s b) → ls b = E ++ L → DueSplit s now E L → (length E < fuel)%nat →
  ∃ s', ktimer_dispatch_loop clock call fuel b now s = Some (tt, s') ∧
    KInv s' (upd_list b (restarted (ex_of s') E L) ls) ∧ Ran b s s' E.
Proof.
  induction E as [|t E IH]; intros s ls L [|fuel] HI HC Hb Hl HD Hf; simpl in Hf; try lia.
  - exists s. split_and!; [| |apply ran_refl].
    + simpl. rewrite (bind_run _ _ _ _ _ (peek_run s ls b HI Hb)), Hl. simpl. destruct L as [|y L]; [done|]. simpl.
      rewrite (bind_run _ _ _ _ _ (get_expires_run y s _ (expires_mapped s ls b y HI ltac:(rewrite Hl; set_solver)))).
      pose proof (ds_later _ _ _ _ HD y ltac:(set_solver)). destruct (Z.ltb_spec now (ex_of s y)); [done|lia].
    + eapply kinv_ext; [|exact HI]. intros b'. simpl in *. rewrite <- Hl. symmetry. apply upd_list_self.
  - pose proof (queue_nodup s ls b HI) as Hnd. rewrite Hl in Hnd.
    destruct (dispatch_step s ls b now t E L HI HC Hl HD) as (s1 & Hrun & HI1 & HR1 & HD1).
    destruct (IH s1 _ (if asks t then enqueue (ex_of s1) t L else L) fuel HI1) as (s' & Hloop & HI' & HR').
    + by eapply has_callback_kept; [apply HR1|].
    + by eapply kept_base; [apply HR1|].
    + apply upd_list_eq.
    + done.
    + lia.
    + exists s'. split_and!.
      * simpl. rewrite (bind_run _ _ _ _ _ (peek_run s ls b HI Hb)), Hl. simpl.
        rewrite (bind_run _ _ _ _ _ (get_expires_run t s _ (expires_mapped s ls b t HI ltac:(rewrite Hl; set_solver)))).
        destruct (ds_due _ _ _ _ HD t ltac:(set_solver)). destruct (Z.ltb_spec now (ex_of s t)); [lia|].
        by rewrite (bind_run _ _ _ _ _ Hrun).
      * eapply kinv_ext; [|exact HI']. intros b'. rewrite upd_list_twice. by erewrite step_list.
      * apply (NoDup_app (t :: E) L) in Hnd as [? _]. by eapply ran_cons.
Qed.

(** ** All bases of a CPU *)

Lemma dispatch_base_run s ls now b fuel :
  KInv s ls → HasCallback s → is_Some (base_at s b) → (∀ t, t ∈ ls b → due t = now_at s now b) → (length (ls b) < fuel)%nat →
  ∃ s', ktimer_dispatch_expired_base clock call fuel b now s = Some (tt, s') ∧
    KInv s' (upd_list b (restarted (ex_of s') (expired s ls now b) (pending s ls now b)) ls) ∧ Ran b s s' (expired s ls now b).
Proof.
  intros HI HC [x Hx] Hdue Hf. unfold ktimer_dispatch_expired_base. rewrite (bind_run _ _ _ _ _ (get_base_run b s x Hx)).
  pose proof (length_expired s ls now b). apply dispatch_loop_run;
    [done|done|by exists x|by apply split_expired|constructor|lia].
  - intros t Ht. assert (Hn : now_at s now b = ktime_add now (time_offset x)) by (unfold now_at; by rewrite Hx).
    rewrite <- Hn. split; [by apply list_elem_of_filter in Ht as [Ht _]|]. by eapply Hdue, elem_expired.
  - intros t Ht. apply list_elem_of_filter in Ht as [Ht _]. unfold now_at in Ht. rewrite Hx in Ht. simpl in Ht. lia.
Qed.

(** What the expiry of the bases [types] of the CPU [c] does. *)
Record Expiry (c : nat) (types : list nat) (now : Z) (s : kts) (ls : base_id → list N) (s' : kts) (ls' : base_id → list N) : Prop := {
  ey_kept : Kept s s';
  ey_ran : k_ran s' = k_ran s ++ concat (map (λ i, expired s ls now (c, i)) types);
  ey_expires : ∀ t, (∀ i, i ∈ types → t ∉ expired s ls now (c, i)) → k_expires s' !! t = k_expires s !! t;
  ey_queue : ∀ i, i ∈ types → ls' (c, i) = restarted (ex_of s') (expired s ls now (c, i)) (pending s ls now (c, i));
  ey_other : ∀ b, ¬ (b.1 = c ∧ b.2 ∈ types) → ls' b = ls b;
  ey_restart : ∀ i t, i ∈ types → t ∈ expired s ls now (c, i) → asks t = true → later (now_at s now (c, i)) (ex_of s' t);
  ey_running : ∀ b, running_of s b = Some None → running_of s' b = Some None;
}.

Lemma restarted_ext ex ex' E L :
  (∀ t, t ∈ E ++ L → ex t = ex' t) → restarted ex E L = restarted ex' E L.
Proof.
  unfold restarted. revert L. induction E as [|t E IH]; intros L H; [done|]. simpl. destruct (asks t).
  - rewrite (enqueue_ext ex ex'); [|apply H; set_solver|intros; apply H; set_solver]. apply IH.
    intros y [Hy|[->|Hy]%enqueue_elem]%elem_of_app; apply H; set_solver.
  - apply IH. intros y Hy. apply H. set_solver.
Qed.

(** One base, then the others. *)
Lemma expiry_cons c i types now s ls s1 s' ls' :
  KInv s ls → (i ∉ types) →
  Ran (c, i) s s1 (expired s ls now (c, i)) → (∀ t, t ∈ ls (c, i) → due t = now_at s now (c, i)) →
  Expiry c types now s1 (upd_list (c, i) (restarted (ex_of s1) (expired s ls now (c, i)) (pending s ls now (c, i))) ls) s' ls' →
  Expiry c (i :: types) now s ls s' ls'.
Proof.
  intros HI Hi HR Hdue. set (ls1 := upd_list _ _ _). intros HY. pose proof (rn_kept _ _ _ _ HR) as HK.
  assert (Hne : ∀ j, j ∈ types → (c, j) ≠ (c, i)) by (intros j Hj [= ->]; done).
  assert (Hsame : ∀ j, j ∈ types → expired s1 ls1 now (c, j) = expired s ls now (c, j) ∧ pending s1 ls1 now (c, j) = pending s ls now (c, j)).
  { intros j Hj. apply expired_same; [by apply now_kept|by apply upd_list_ne, Hne|]. intros t Ht. unfold ex_of.
    rewrite (rn_expires _ _ _ _ HR); [done|]. intros Hin%elem_expired. by apply (Hne j Hj), (ki_disjoint s ls _ _ t). }
  assert (Hlate : ∀ t, t ∈ ls (c, i) → k_expires s' !! t = k_expires s1 !! t).
  { intros t Ht. apply (ey_expires _ _ _ _ _ _ _ HY). intros j Hj. destruct (Hsame j Hj) as [-> _]. intros Hin%elem_expired.
    by apply (Hne j Hj), (ki_disjoint s ls _ _ t). }
  constructor.
  - eapply kept_trans; [done|apply HY].
  - rewrite (ey_ran _ _ _ _ _ _ _ HY), (rn_ran _ _ _ _ HR), <- app_assoc. simpl. do 3 f_equal.
    apply map_ext_in_list. intros j Hj. apply (Hsame j Hj).
  - intros t Ht. rewrite (ey_expires _ _ _ _ _ _ _ HY), (rn_expires _ _ _ _ HR); [done|apply Ht; set_solver|].
    intros j Hj. destruct (Hsame j Hj) as [-> _]. apply Ht. set_solver.
  - intros j [->|Hj]%elem_of_cons.
    + rewrite (ey_other _ _ _ _ _ _ _ HY) by (simpl; tauto). unfold ls1. rewrite upd_list_eq. apply restarted_ext.
      rewrite <- split_expired by done. intros t Ht. unfold ex_of. by rewrite Hlate.
    + rewrite (ey_queue _ _ _ _ _ _ _ HY j Hj). by destruct (Hsame j Hj) as [-> ->].
  - intros b Hb. rewrite (ey_other _ _ _ _ _ _ _ HY) by set_solver. apply upd_list_ne. intros ->. apply Hb. set_solver.
  - intros j t [->|Hj]%elem_of_cons Ht Ha.
    + pose proof (elem_expired _ _ _ _ _ Ht) as Hin. rewrite <- (Hdue t) by done. unfold ex_of. rewrite Hlate by done.
      by apply (rn_restart _ _ _ _ HR).
    + rewrite <- (now_kept s s1) by done. apply (ey_restart _ _ _ _ _ _ _ HY j t Hj); [|done]. by destruct (Hsame j Hj) as [-> _].
  - intros b Hb. apply (ey_running _ _ _ _ _ _ _ HY). rewrite (rn_running _ _ _ _ HR). by case_decide.
Qed.

Lemma expiry_skip c i types now s ls s' ls' :
  KInv s ls → (i ∉ types) → ls (c, i) = [] → Expiry c types now s ls s' ls' → Expiry c (i :: types) now s ls s' ls'.
Proof.
  intros HI Hi Hl HY. assert (He : expired s ls now (c, i) = []) by (unfold expired; by rewrite Hl).
  constructor.
  - apply HY.
  - rewrite (ey_ran _ _ _ _ _ _ _ HY). simpl. by rewrite He.
  - intros t Ht. apply (ey_expires _ _ _ _ _ _ _ HY). intros j Hj. apply Ht. set_solver.
  - intros j [->|Hj]%elem_of_cons; [|by apply (ey_queue _ _ _ _ _ _ _ HY)].
    rewrite (ey_other _ _ _ _ _ _ _ HY) by (simpl; tauto). unfold expired, pending. by rewrite Hl.
  - intros b Hb. apply (ey_other _ _ _ _ _ _ _ HY). set_solver.
  - intros j t [->|Hj]%elem_of_cons; [rewrite He; set_solver|]. by apply (ey_restart _ _ _ _ _ _ _ HY).
  - apply (ey_running _ _ _ _ _ _ _ HY).
Qed.

Lemma dispatch_types_run c now types : ∀ s ls fuel,
  NoDup types → (∀ i, i ∈ types → (i < KTIMER_MAX_CLOCK_BASES)%nat) → KInv s ls → HasCallback s → is_Some (k_cpus s !! c) →
  (∀ i t, i ∈ types → t ∈ ls (c, i) → due t = now_at s now (c, i)) → (∀ i, i ∈ types → (length (ls (c, i)) < fuel)%nat) →
  ∃ s' ls', ktimer_dispatch_types clock call fuel c types now s = Some (tt, s') ∧ KInv s' ls' ∧ Expiry c types now s ls s' ls'.
Proof.
  induction types as [|i types IH]; intros s ls fuel Hnd Hty HI HC [cb Hcb] Hdue Hf.
  { exists s, ls. split_and!; [done|done|]. constructor; try set_solver; [apply kept_refl|by rewrite app_nil_r]. }
  apply NoDup_cons in Hnd as [Hi Hnd]. simpl. rewrite (bind_run _ _ _ _ _ (get_cpu_run c s cb Hcb)).
  rewrite (ki_mask _ _ HI c cb i Hcb) by (apply Hty; set_solver). case_bool_decide as Hne.
  - destruct (dispatch_base_run s ls now (c, i) fuel HI HC) as (s1 & Hrun & HI1 & HR).
    { eapply base_exists; [done|by eexists|]. apply Hty. set_solver. }
    { intros t Ht. apply Hdue; [set_solver|done]. }
    { apply Hf. set_solver. }
    pose proof (rn_kept _ _ _ _ HR) as HK. rewrite (bind_run _ _ _ _ _ Hrun).
    assert (Hj : ∀ j, j ∈ types → (c, j) ≠ (c, i)) by (intros j Hj [= ->]; done).
    destruct (IH s1 _ fuel Hnd ltac:(set_solver) HI1) as (s' & ls' & Hrest & HI' & HY).
    + by eapply has_callback_kept.
    + by eapply kept_cpu; [|eexists].
    + intros j t Hjt. rewrite upd_list_ne by by apply Hj. rewrite (now_kept s s1) by done. intros Ht. apply Hdue; [set_solver|done].
    + intros j Hjt. rewrite upd_list_ne by by apply Hj. apply Hf. set_solver.
    + exists s', ls'. split_and!; [done|done|]. eapply expiry_cons; [done|done|done| |done]. intros t Ht. apply Hdue; [set_solver|done].
  - rewrite (bind_run _ _ s tt s eq_refl).
    destruct (IH s ls fuel Hnd ltac:(set_solver) HI HC ltac:(by eexists)) as (s' & ls' & Hrest & HI' & HY).
    { intros j t Hjt. apply Hdue. set_solver. }
    { intros j Hjt. apply Hf. set_solver. }
    exists s', ls'. split_and!; [done|done|]. by apply expiry_skip.
Qed.

End Expiry.

(** ** The next deadline *)

Definition offset_at (s : kts) (b : base_id) : Z := default 0 (time_offset <$> base_at s b).
Definition deadline (s : kts) (b : base_id) (t : N) : Z := ktime_sub (ex_of s t) (offset_at s b).

(** The step of the search, on the first timers of the queues. *)
Definition better (s : kts) (ls : base_id → list N) (c : nat) (acc : Z * option N) (i : nat) : Z * option N :=
  match head (ls (c, i)) with
  | None => acc
  | Some t => if deadline s (c, i) t <? acc.1 then (deadline s (c, i) t, Some t) else acc
  end.

Lemma cpu_upd_twice c f g s : cpu_upd c f (cpu_upd c g s) = cpu_upd c (f ∘ g) s.
Proof. unfold cpu_upd, set_k_cpus. simpl. by rewrite list_alter_alter_eq. Qed.

Lemma cpu_upd_ext c f g s : (∀ cb, f cb = g cb) → cpu_upd c f s = cpu_upd c g s.
Proof. intros H. unfold cpu_upd, set_k_cpus. f_equal. by apply list_alter_ext. Qed.

Lemma cpu_upd_get c f s cb : k_cpus s !! c = Some cb → k_cpus (cpu_upd c f s) !! c = Some (f cb).
Proof. intros H. unfold cpu_upd. simpl. by rewrite list_lookup_alter_eq, H. Qed.

Lemma deadline_expiring c e s b t : deadline (cpu_upd c (set_expiring e) s) b t = deadline s b t.
Proof. unfold deadline, offset_at. by rewrite base_at_cpu. Qed.

Lemma find_step_run s ls c cb i next :
  KInv s ls → k_cpus s !! c = Some cb → (i < KTIMER_MAX_CLOCK_BASES)%nat →
  ktimer_find_step c i next s =
    Some ((better s ls c (next, next_expiring cb) i).1,
          cpu_upd c (set_expiring (better s ls c (next, next_expiring cb) i).2) s).
Proof.
  intros HI Hcb Hi. destruct (base_exists s ls c i HI ltac:(by eexists) Hi) as [x Hx].
  assert (Hid : cpu_upd c (set_expiring (next_expiring cb)) s = s).
  { apply cpu_upd_id. intros cb' Hcb'. assert (cb' = cb) as -> by congruence. by destruct cb. }
  unfold ktimer_find_step. rewrite (bind_run _ _ _ _ _ (get_cpu_run c s cb Hcb)).
  rewrite (ki_mask _ _ HI c cb i Hcb Hi). unfold better. destruct (ls (c, i)) as [|t l] eqn:El; simpl.
  { by rewrite Hid. }
  rewrite (bind_run _ _ _ _ _ (get_base_run (c, i) s x Hx)).
  rewrite (bind_run _ _ _ _ _ (peek_run s ls (c, i) HI ltac:(by eexists))), El. simpl.
  rewrite (bind_run _ _ _ _ _ (get_expires_run t s _ (expires_mapped s ls (c, i) t HI ltac:(rewrite El; set_solver)))).
  assert (Hd : deadline s (c, i) t = ktime_sub (ex_of s t) (time_offset x)) by (unfold deadline, offset_at; by rewrite Hx).
  rewrite <- Hd. destruct (Z.ltb_spec (deadline s (c, i) t) next); simpl; [|by rewrite Hid].
  by rewrite (bind_run _ _ _ _ _ (upd_cpu_run c _ s ltac:(by eexists))).
Qed.

Lemma find_loop_run ls c types : ∀ s cb next,
  KInv s ls → k_cpus s !! c = Some cb → (∀ i, i ∈ types → (i < KTIMER_MAX_CLOCK_BASES)%nat) →
  ktimer_find_loop c types next s =
    Some ((foldl (better s ls c) (next, next_expiring cb) types).1,
          cpu_upd c (set_expiring (foldl (better s ls c) (next, next_expiring cb) types).2) s).
Proof.
  induction types as [|i types IH]; intros s cb next HI Hcb Hty; simpl.
  - rewrite cpu_upd_id; [done|]. intros cb' Hcb'. assert (cb' = cb) as -> by congruence. by destruct cb.
  - rewrite (bind_run _ _ _ _ _ (find_step_run s ls c cb i next HI Hcb ltac:(apply Hty; set_solver))).
    set (p := better s ls c (next, next_expiring cb) i). set (s1 := cpu_upd c (set_expiring p.2) s).
    rewrite (IH s1 (set_expiring p.2 cb) p.1); [|by eapply kinv_unqueued; [apply unqueued_cpu|]|by apply cpu_upd_get|set_solver].
    assert (Hb : ∀ acc j, better s1 ls c acc j = better s ls c acc j).
    { intros acc j. unfold better. destruct (head (ls (c, j))); [|done]. unfold s1. by rewrite deadline_expiring. }
    assert (Hf : ∀ l acc, foldl (better s1 ls c) acc l = foldl (better s ls c) acc l).
    { intros l. induction l as [|j l IHl]; intros acc; [done|]. simpl. by rewrite Hb, IHl. }
    rewrite Hf. simpl. rewrite <- surjective_pairing. unfold s1. rewrite cpu_upd_twice. done.
Qed.

Record NextOf (s : kts) (ls : base_id → list N) (c : nat) (types : list nat) (next : Z) (d : Z) (e : option N) : Prop := {
  no_min : d <= next ∧ ∀ i t, i ∈ types → head (ls (c, i)) = Some t → d <= deadline s (c, i) t;
  no_from : d = next ∧ e = None ∨ ∃ i t, i ∈ types ∧ head (ls (c, i)) = Some t ∧ d = deadline s (c, i) t ∧ e = Some t;
}.

Lemma next_of_fold s ls c next types :
  NextOf s ls c types next (foldl (better s ls c) (next, None) types).1 (foldl (better s ls c) (next, None) types).2.
Proof.
  induction types as [|i types IH] using rev_ind; [constructor; simpl; [split; [lia|set_solver]|by left]|].
  rewrite foldl_app. simpl. destruct (foldl (better s ls c) (next, None) types) as [d e]. simpl in IH.
  destruct IH as [[Hle Hmin] Hfrom]. unfold better. destruct (head (ls (c, i))) as [t|] eqn:Eh; simpl.
  - destruct (Z.ltb_spec (deadline s (c, i) t) d) as [Hlt|Hge]; simpl; constructor.
    + split; [lia|]. intros j t' [Hj| ->%list_elem_of_singleton]%elem_of_app Ht'; [specialize (Hmin j t' Hj Ht'); lia|].
      by simplify_eq.
    + right. exists i, t. set_solver.
    + split; [done|]. intros j t' [Hj| ->%list_elem_of_singleton]%elem_of_app Ht'; [by apply Hmin|]. by simplify_eq.
    + destruct Hfrom as [?|(j & t' & Hj & ?)]; [by left|right; exists j, t'; set_solver].
  - constructor; simpl.
    + split; [done|]. intros j t' [Hj| ->%list_elem_of_singleton]%elem_of_app Ht'; [by apply Hmin|congruence].
    + destruct Hfrom as [?|(j & t' & Hj & ?)]; [by left|right; exists j, t'; set_solver].
Qed.

Lemma base_types i : i ∈ seq 0 KTIMER_MAX_CLOCK_BASES ↔ (i < KTIMER_MAX_CLOCK_BASES)%nat.
Proof. rewrite elem_of_seq. lia. Qed.

Lemma select_run s ls c :
  KInv s ls → is_Some (k_cpus s !! c) →
  ∃ d e, ktimer_select_next_deadline c s = Some (Z.max 0 d, cpu_upd c (set_expiring e) s) ∧
    NextOf s ls c (seq 0 KTIMER_MAX_CLOCK_BASES) KTIME_MAX d e.
Proof.
  intros HI [cb Hcb]. set (s1 := cpu_upd c (set_expiring None) s).
  pose proof (next_of_fold s1 ls c KTIME_MAX (seq 0 KTIMER_MAX_CLOCK_BASES)) as HN.
  set (p := foldl _ _ _) in HN. exists p.1, p.2. split.
  - unfold ktimer_select_next_deadline. rewrite (bind_run _ _ _ _ _ (upd_cpu_run c _ s ltac:(by eexists))). fold s1.
    unfold ktimer_find_next_deadline. erewrite bind_run.
    2:{ eapply (find_loop_run ls); [|by eapply cpu_upd_get|by intros i ?%base_types].
        by eapply kinv_unqueued; [apply unqueued_cpu|]. }
    change (next_expiring (set_expiring None cb)) with (@None N). fold p. unfold s1. rewrite cpu_upd_twice. unfold mret, M_ret. f_equal. f_equal.
    destruct (Z.ltb_spec p.1 0); lia.
  - destruct HN as [[H1 H2] H3]. unfold s1 in H2, H3. constructor.
    + split; [done|]. intros i t Hi Ht. specialize (H2 i t Hi Ht). by rewrite deadline_expiring in H2.
    + destruct H3 as [?|(i & t & ? & ? & Hd & ?)]; [by left|right]. rewrite deadline_expiring in Hd. by exists i, t.
Qed.

(** ** The deadline covers every queued timer *)

Record Timely (s : kts) (ls : base_id → list N) (c : nat) : Prop := {
  ti_offset : ∀ i, 0 <= offset_at s (c, i) < 2 ^ 63;
  ti_expires : ∀ i t, t ∈ ls (c, i) → 0 <= ex_of s t < 2 ^ 63;
}.

(** The CPU is programmed for a time no later than that of any of its timers. *)
Definition Armed (s : kts) (ls : base_id → list N) (c : nat) : Prop :=
  ∀ cb i t, k_cpus s !! c = Some cb → t ∈ ls (c, i) → next_deadline cb <= Z.max 0 (deadline s (c, i) t).

Lemma deadline_small s b t : 0 <= ex_of s t < 2 ^ 63 → 0 <= offset_at s b < 2 ^ 63 → deadline s b t = ex_of s t - offset_at s b.
Proof. intros. unfold deadline, ktime_sub. apply s64_small. unfold is_s64. lia. Qed.

Lemma timely_deadline s ls c i t : Timely s ls c → t ∈ ls (c, i) → deadline s (c, i) t = ex_of s t - offset_at s (c, i).
Proof. intros HT Ht. apply deadline_small; [by apply (ti_expires _ _ _ HT i)|apply (ti_offset _ _ _ HT)]. Qed.

Lemma queue_head_first s ls b h t : KInv s ls → head (ls b) = Some h → t ∈ ls b → ex_of s h <= ex_of s t.
Proof.
  intros HI Hh Ht. pose proof (queue_sorted s ls b HI) as Hs. destruct (ls b) as [|y l]; [done|]. injection Hh as ->.
  apply elem_of_cons in Ht as [->|Ht]; [done|]. inversion Hs as [|? ? _ Hall]. rewrite Forall_forall in Hall. by apply Hall.
Qed.

Lemma heads_enough s ls c d :
  KInv s ls → Timely s ls c → (∀ i h, (i < KTIMER_MAX_CLOCK_BASES)%nat → head (ls (c, i)) = Some h → d <= deadline s (c, i) h) →
  ∀ i t, t ∈ ls (c, i) → d <= deadline s (c, i) t.
Proof.
  intros HI HT Hh i t Ht. destruct (head (ls (c, i))) as [h|] eqn:E; [|destruct (ls (c, i)); set_solver].
  assert (Hi : (i < KTIMER_MAX_CLOCK_BASES)%nat) by (apply (base_index s ls (c, i) HI); by apply (ki_in _ _ HI _ t)).
  specialize (Hh i h Hi E). assert (Hin : h ∈ ls (c, i)) by (destruct (ls (c, i)); simplify_eq/=; set_solver).
  pose proof (queue_head_first s ls (c, i) h t HI E Ht).
  rewrite (timely_deadline s ls c i h HT Hin) in Hh. rewrite (timely_deadline s ls c i t HT Ht). lia.
Qed.

(** ** The interrupt *)

Lemma restarted_elem asks ex E L t : t ∈ restarted asks ex E L ↔ (t ∈ E ∧ asks t = true) ∨ t ∈ L.
Proof.
  unfold restarted. revert L. induction E as [|y E IH]; intros L; simpl; [set_solver|]. rewrite IH. destruct (asks y) eqn:Ha.
  - rewrite enqueue_elem. set_solver.
  - rewrite elem_of_cons. split; [tauto|]. intros [[[->|?] ?]|?]; [congruence|tauto..].
Qed.

(** After the expiry, no timer of the CPU is due. *)
Lemma none_due asks c now s ls s' ls' i t :
  KInv s ls → Expiry asks c (seq 0 KTIMER_MAX_CLOCK_BASES) now s ls s' ls' → (i < KTIMER_MAX_CLOCK_BASES)%nat → Timely s ls c →
  t ∈ ls' (c, i) → later (now_at s now (c, i)) (ex_of s' t).
Proof.
  intros HI HY Hi HT Ht. rewrite (ey_queue _ _ _ _ _ _ _ _ HY i) in Ht by by apply base_types.
  apply restarted_elem in Ht as [[Ht Ha]|Ht]; [by apply (ey_restart _ _ _ _ _ _ _ _ HY i); [apply base_types|..]|].
  apply list_elem_of_filter in Ht as [Hle Ht]. unfold ex_of. rewrite (ey_expires _ _ _ _ _ _ _ _ HY).
  - split; [unfold ex_of in Hle; lia|]. by apply (ti_expires _ _ _ HT i).
  - intros j Hj Hin. pose proof (elem_expired _ _ _ _ _ Hin) as Hin'.
    assert ((c, j) = (c, i)) as [= ->] by by apply (ki_disjoint s ls _ _ t).
    apply list_elem_of_filter in Hin as [Hle' _]. done.
Qed.

Lemma expiry_timely asks c now s ls s' ls' :
  KInv s ls → KInv s' ls' → Expiry asks c (seq 0 KTIMER_MAX_CLOCK_BASES) now s ls s' ls' → Timely s ls c →
  Timely s' ls' c ∧ ∀ i t, t ∈ ls' (c, i) → later (now_at s now (c, i)) (ex_of s' t).
Proof.
  intros HI HI' HY HT. assert (Hlate : ∀ i t, t ∈ ls' (c, i) → later (now_at s now (c, i)) (ex_of s' t)).
  { intros i t Ht. eapply none_due; [exact HI|exact HY| |done|done].
    apply (base_index s' ls' (c, i) HI'). by apply (ki_in _ _ HI' _ t). }
  split; [|done]. constructor; [|intros i t Ht; by apply (Hlate i t)]. intros i. unfold offset_at.
  rewrite (kp_offset _ _ (ey_kept _ _ _ _ _ _ _ _ HY)). apply (ti_offset _ _ _ HT).
Qed.

Section Interrupt.
Context (clock : nat → Z).

(** The time that is programmed for the deadline [d]. *)
Definition programmed (now d : Z) : Z := if d <? now then s64 (now + PAST_DEADLINE_GUARD_NS) else d.

Lemma arm_run c d s : is_Some (k_cpus s !! c) →
  ktimer_arm_next_deadline clock d c s =
    Some (d <? clock (k_reading s),
          set_k_reading (S (k_reading s)) (cpu_upd c (set_hw (programmed (clock (k_reading s)) d) ∘ set_deadline d) s)).
Proof.
  intros [cb Hcb]. unfold ktimer_arm_next_deadline. rewrite (bind_run _ _ _ _ _ (upd_cpu_run c _ s ltac:(by eexists))).
  unfold read_clock. rewrite (bind_run _ _ _ (clock (k_reading s)) (set_k_reading (S (k_reading s)) (cpu_upd c (set_deadline d) s))) by done.
  erewrite bind_run; [|apply upd_cpu_run; eexists; by apply (cpu_upd_get c _ s cb)].
  unfold mret, M_ret. do 2 f_equal. change (cpu_upd c ?f (set_k_reading ?n ?z)) with (set_k_reading n (cpu_upd c f z)).
  by rewrite cpu_upd_twice.
Qed.

Lemma base_at_reading n s b : base_at (set_k_reading n s) b = base_at s b.
Proof. done. Qed.

(** A state whose queues, expiry times and offsets are those of another. *)
Record Alike (s s' : kts) : Prop := {
  al_base : ∀ b, base_at s' b = base_at s b;
  al_expires : k_expires s' = k_expires s;
}.

Lemma alike_cpu c f s : same_bases f → Alike s (cpu_upd c f s).
Proof. intros Hf. constructor; [|done]. intros b. by apply base_at_cpu. Qed.

Lemma alike_now s s' now b : Alike s s' → now_at s' now b = now_at s now b.
Proof. intros HA. unfold now_at. by rewrite (al_base _ _ HA). Qed.

Lemma alike_deadline s s' b t : Alike s s' → deadline s' b t = deadline s b t.
Proof. intros HA. unfold deadline, offset_at, ex_of. by rewrite (al_base _ _ HA), (al_expires _ _ HA). Qed.

Lemma alike_expired s s' ls now b : Alike s s' →
  expired s' ls now b = expired s ls now b ∧ pending s' ls now b = pending s ls now b.
Proof. intros HA. apply expired_same; [by apply alike_now|done|]. intros t _. unfold ex_of. by rewrite (al_expires _ _ HA). Qed.

(** The state at the end of a pass, from that after the expiry. *)
Definition after_pass (me : nat) (d : Z) (e : option N) (s : kts) : kts :=
  set_k_reading (S (k_reading s))
    (cpu_upd me (λ cb, CpuBase (active_mask cb) false d e (cpu_bases cb) (programmed (clock (k_reading s)) d)) s).

Lemma pass_run call asks due s ls me fuel :
  let now := clock (k_reading s) in
  let s1 := cpu_upd me (set_in_irq true) (set_k_reading (S (k_reading s)) s) in
  Callbacks call asks due → KInv s ls → HasCallback s → is_Some (k_cpus s !! me) →
  (∀ i t, t ∈ ls (me, i) → due t = now_at s now (me, i)) → (∀ i, (length (ls (me, i)) < fuel)%nat) →
  ∃ s2 ls' d e, KInv s2 ls' ∧ Expiry asks me (seq 0 KTIMER_MAX_CLOCK_BASES) now s1 ls s2 ls' ∧
    NextOf s2 ls' me (seq 0 KTIMER_MAX_CLOCK_BASES) KTIME_MAX d e ∧
    ktimer_interrupt_pass clock call fuel me s =
      Some ((Z.max 0 d <? clock (k_reading s2), now), after_pass me (Z.max 0 d) e s2).
Proof.
  intros now s1 Hcall HI HC Hme Hdue Hf.
  assert (HI1 : KInv s1 ls) by (eapply kinv_unqueued; [by apply unqueued_cpu|]; by eapply kinv_unqueued; [constructor|exact HI]).
  assert (Hme1 : is_Some (k_cpus s1 !! me)) by (destruct Hme; eexists; by apply cpu_upd_get).
  destruct (dispatch_types_run clock call asks due Hcall me now (seq 0 KTIMER_MAX_CLOCK_BASES) s1 ls fuel) as (s2 & ls' & Hrun & HI2 & HY);
    [apply NoDup_seq|by intros i ?%base_types|done|done|done| |done|].
  { intros i t _ Ht. rewrite (Hdue i t Ht). symmetry. apply (alike_now s). unfold s1. split; [|done].
    intros b. by rewrite base_at_cpu. }
  pose proof (kept_cpu _ _ me (ey_kept _ _ _ _ _ _ _ _ HY) Hme1) as [cb2 Hcb2].
  destruct (select_run s2 ls' me HI2 ltac:(by eexists)) as (d & e & Hsel & HN).
  exists s2, ls', d, e. split_and!; [done|done|done|]. unfold ktimer_interrupt_pass, read_clock.
  rewrite (bind_run _ _ s now (set_k_reading (S (k_reading s)) s)) by done.
  rewrite (bind_run _ _ _ _ _ (upd_cpu_run me _ (set_k_reading _ s) Hme)). fold s1. rewrite (bind_run _ _ _ _ _ Hrun), (bind_run _ _ _ _ _ Hsel).
  set (s3 := cpu_upd me (set_expiring e) s2). assert (Hcb3 : k_cpus s3 !! me = Some (set_expiring e cb2)) by by apply cpu_upd_get.
  rewrite (bind_run _ _ _ _ _ (upd_cpu_run me _ s3 ltac:(by eexists))).
  set (s4 := cpu_upd me _ s3). assert (Hcb4 : is_Some (k_cpus s4 !! me)) by (eexists; by apply cpu_upd_get).
  rewrite (bind_run _ _ _ _ _ (upd_cpu_run me _ s4 Hcb4)). set (s5 := cpu_upd me _ s4).
  assert (Hcb5 : is_Some (k_cpus s5 !! me)) by (destruct Hcb4; eexists; by apply cpu_upd_get).
  rewrite (bind_run _ _ _ _ _ (arm_run me _ s5 Hcb5)). unfold mret, M_ret, after_pass. do 3 f_equal.
  unfold s5, s4, s3. by rewrite !cpu_upd_twice.
Qed.

End Interrupt.

(** C8: one pass of the timer interrupt on CPU [me] runs the callbacks of exactly the
    timers that have expired at its reading of the clock, each once, base after base and
    in the order of their expiry; a timer whose callback asks for it goes back into the
    queue of its base at its new time, behind the timers of the same time.  After the
    pass none of the CPU's timers is due, the queues of other CPUs are as before, the
    deadline is the earliest one of the remaining timers (at least 0, at most
    [KTIME_MAX]), and the hardware is programmed for it, or, when it is past already,
    for 2000 ns from now. *)
Theorem ktimer_pass_correct clock call asks due s ls me fuel :
  let now := clock (k_reading s) in
  Callbacks call asks due → KInv s ls → HasCallback s → is_Some (k_cpus s !! me) → Timely s ls me →
  (∀ i t, t ∈ ls (me, i) → due t = now_at s now (me, i)) → (∀ i, (length (ls (me, i)) < fuel)%nat) →
  ∃ s' ls' cb now', KInv s' ls' ∧ k_cpus s' !! me = Some cb ∧
    ktimer_interrupt_pass clock call fuel me s = Some ((next_deadline cb <? now', now), s') ∧
    k_ran s' = k_ran s ++ concat (map (λ i, expired s ls now (me, i)) (seq 0 KTIMER_MAX_CLOCK_BASES)) ∧
    (∀ i, (i < KTIMER_MAX_CLOCK_BASES)%nat →
      ls' (me, i) = restarted asks (ex_of s') (expired s ls now (me, i)) (pending s ls now (me, i))) ∧
    (∀ b, b.1 ≠ me → ls' b = ls b) ∧
    (∀ i t, t ∈ ls' (me, i) → later (now_at s now (me, i)) (ex_of s' t)) ∧
    Armed s' ls' me ∧ in_irq cb = false ∧ hw_timeout cb = programmed now' (next_deadline cb) ∧
    match next_expiring cb with
    | None => next_deadline cb = KTIME_MAX
    | Some t => ∃ i, head (ls' (me, i)) = Some t ∧ next_deadline cb = Z.max 0 (deadline s' (me, i) t)
    end.
Proof.
  intros now Hcall HI HC Hme HT Hdue Hf.
  destruct (pass_run clock call asks due s ls me fuel Hcall HI HC Hme Hdue Hf) as (s2 & ls' & d & e & HI2 & HY & HN & Hrun).
  fold now in HY, Hrun. set (s1 := cpu_upd me (set_in_irq true) _) in *. set (s' := after_pass clock me (Z.max 0 d) e s2) in *.
  assert (HA1 : Alike s s1) by (unfold s1; split; [|done]; intros b; by rewrite base_at_cpu).
  assert (HA2 : Alike s2 s') by (split; [|done]; intros b; apply (base_at_cpu me _ s2); done).
  assert (HI1 : KInv s1 ls) by (eapply kinv_unqueued; [by apply unqueued_cpu|]; by eapply kinv_unqueued; [constructor|exact HI]).
  assert (HT1 : Timely s1 ls me).
  { constructor; [|apply (ti_expires _ _ _ HT)]. intros i. unfold offset_at. rewrite (al_base _ _ HA1). apply (ti_offset _ _ _ HT). }
  assert (Hex : ∀ b, expired s1 ls now b = expired s ls now b ∧ pending s1 ls now b = pending s ls now b)
    by (intros b; by apply alike_expired).
  destruct (expiry_timely _ _ _ _ _ _ _ HI1 HI2 HY HT1) as [HT2 Hlate1].
  assert (Hlate : ∀ i t, t ∈ ls' (me, i) → later (now_at s now (me, i)) (ex_of s2 t)).
  { intros i t Ht. rewrite <- (alike_now s s1) by done. by apply Hlate1. }
  pose proof (kept_cpu _ _ me (ey_kept _ _ _ _ _ _ _ _ HY) ltac:(destruct Hme; eexists; by apply cpu_upd_get)) as [cb Hcb].
  destruct HN as [[Hmax Hmin] Hfrom].
  exists s', ls', (CpuBase (active_mask cb) false (Z.max 0 d) e (cpu_bases cb) (programmed (clock (k_reading s2)) (Z.max 0 d))),
    (clock (k_reading s2)).
  assert (Hcb' : k_cpus s' !! me = Some _) by apply (cpu_upd_get me _ s2 cb Hcb).
  split_and!; [..|exact Hcb'|exact Hrun| | | | | |done|done|]; simpl.
  - eapply kinv_unqueued; [|exact HI2]. apply unqueued_reading. by apply (unqueued_cpu ls' me _ s2).
  - change (k_ran s2 = k_ran s1 ++ concat (map (λ i, expired s ls now (me, i)) (seq 0 KTIMER_MAX_CLOCK_BASES))).
    rewrite (ey_ran _ _ _ _ _ _ _ _ HY). do 2 f_equal. apply map_ext. intros i. apply Hex.
  - intros i Hi. rewrite (ey_queue _ _ _ _ _ _ _ _ HY) by by apply base_types. by destruct (Hex (me, i)) as [-> ->].
  - intros b Hb. apply (ey_other _ _ _ _ _ _ _ _ HY). tauto.
  - exact Hlate.
  - intros cb' i t Hcb2 Ht. rewrite Hcb2 in Hcb'. injection Hcb' as ->. simpl. rewrite (alike_deadline s2 s') by done.
    assert (d <= deadline s2 (me, i) t); [|lia]. eapply heads_enough; [exact HI2|done| |done].
    intros j h Hj. apply Hmin. by apply base_types.
  - destruct Hfrom as [[-> ->]|(i & t & Hi & Hh & Hd & ->)]; [done|]. exists i. split; [done|].
    rewrite (alike_deadline s2 s') by done. by rewrite Hd.
Qed.
