(* ===== verification/KTimerOps.v ===== *)
(** * High-resolution timers: starting, cancelling and forwarding

    [ktimer_start], [ktimer_cancel] and [ktimer_forward] on a CPU whose queues satisfy
    the invariant; what goes wrong when a timer is started on another CPU than the one
    it is queued on. *)

From S2P Require Import Prelude RBTree RBHeap RBPure RBProps KTimerQ KTime KTimeProps KTimer KTimerInv KTimerProps.
Import Width.

Open Scope Z_scope.

Definition without (t : N) (l : list N) : list N := filter (λ y, y ≠ t) l.

Lemma without_notin t l : t ∉ l → without t l = l.
Proof.
  induction l as [|y l IH]; intros H; [done|]. unfold without. rewrite filter_cons_True by set_solver. f_equal. apply IH. set_solver.
Qed.

Lemma without_split t A B : NoDup (A ++ t :: B) → without t (A ++ t :: B) = A ++ B.
Proof.
  intros Hnd. pose proof (split_notin A t B Hnd) as Ht. unfold without. rewrite filter_app, filter_cons_False by tauto.
  f_equal; apply without_notin; set_solver.
Qed.

Lemma without_elem t l y : y ∈ without t l ↔ y ≠ t ∧ y ∈ l.
Proof. apply (list_elem_of_filter (λ y, y ≠ t)). Qed.

Lemma set_state_same k v : kt_state k = v → set_state v k = k.
Proof. intros <-. by destruct k. Qed.

(** The timer [t] leaves the queue of [b]. *)
Record Left (t : N) (k : ktimer) (b : base_id) (ls : base_id → list N) (s s' : kts) : Prop := {
  lf_inv : KInv s' (upd_list b (without t (ls b)) ls);
  lf_expires : k_expires s' = k_expires s;
  lf_timer : k_timers s' !! t = Some (set_state KTIMER_INACTIVE k);
  lf_others : ∀ y, y ≠ t → k_timers s' !! y = k_timers s !! y;
}.

Section Ops.
Context (clock : nat → Z) (me : nat).

Lemma is_enqueued_run t s k :
  k_timers s !! t = Some k → ktimer_is_enqueued t s = Some (kt_state k =? KTIMER_ENQUEUED, s).
Proof. intros Hk. unfold ktimer_is_enqueued. by rewrite (bind_run _ _ _ _ _ (get_timer_run t s k Hk)). Qed.

Lemma base_of_run t s k b : k_timers s !! t = Some k → kt_base k = Some b → base_of t s = Some (b, s).
Proof. intros Hk Hb. unfold base_of. rewrite (bind_run _ _ _ _ _ (get_timer_run t s k Hk)). simpl. by rewrite Hb. Qed.

Lemma is_local_run t s k b :
  k_timers s !! t = Some k → kt_base k = Some b → ktimer_is_local me t s = Some ((b.1 =? me)%nat, s).
Proof. intros Hk Hb. unfold ktimer_is_local. by rewrite (bind_run _ _ _ _ _ (base_of_run t s k b Hk Hb)). Qed.

Lemma left_nothing s ls t k b :
  KInv s ls → k_timers s !! t = Some k → kt_state k = KTIMER_INACTIVE → Left t k b ls s s.
Proof.
  intros HI Hk Hst. constructor; [|done| |done].
  - eapply kinv_ext; [|exact HI]. intros b'. rewrite without_notin by (by eapply not_queued). symmetry. apply upd_list_self.
  - by rewrite set_state_same.
Qed.

Lemma left_removed s ls t k b A B s' :
  KInv s ls → k_timers s !! t = Some k → ls b = A ++ t :: B →
  KInv s' (upd_list b (A ++ B) ls) → Moved s s' (alter (set_state KTIMER_INACTIVE) t) → Left t k b ls s s'.
Proof.
  intros HI Hk Hl HI' HM. pose proof (queue_nodup s ls b HI) as Hnd. rewrite Hl in Hnd. constructor.
  - rewrite Hl, without_split by done. done.
  - apply (mv_expires _ _ _ HM).
  - rewrite (mv_timers _ _ _ HM), lookup_alter_eq. by rewrite Hk.
  - intros y Hy. rewrite (mv_timers _ _ _ HM). by rewrite lookup_alter_ne.
Qed.

(** Dequeueing without reprogramming. *)
Lemma ktimer_dequeue_run s ls t b k :
  KInv s ls → k_timers s !! t = Some k → kt_base k = Some b →
  ∃ s', ktimer_dequeue_timer clock me t b true s = Some (0, s') ∧ Left t k b ls s s' ∧ Quiet s s'.
Proof.
  intros HI Hk Hb. unfold ktimer_dequeue_timer. rewrite (bind_run _ _ _ _ _ (is_enqueued_run t s k Hk)).
  destruct (ki_out _ _ HI t k Hk) as [(Hst & b' & Hb' & Hin)|Hst]; rewrite Hst; simpl.
  - assert (b' = b) as -> by congruence. apply list_elem_of_split in Hin as (A & B & Hl).
    destruct (remove_run clock s ls t b k A B false HI Hk Hb Hl) as (s' & cb & HI' & HM & _ & Hrun).
    exists s'. rewrite (bind_run _ _ _ _ _ (is_local_run t s k b Hk Hb)), (bind_run _ _ _ _ _ Hrun).
    split_and!; [done|by eapply left_removed|apply HM].
  - exists s. split_and!; [done|by apply left_nothing|apply quiet_refl].
Qed.

(** ** Starting a timer *)

(** The time of a base at a reading [now] of the clock. *)
Definition base_time (s : kts) (type : nat) (now : Z) : Z :=
  let '(real, boot, tai) := k_offsets s in
  match type with 1%nat => ktime_add now real | 2%nat => ktime_add now boot | 3%nat => ktime_add now tai | _ => now end.

(** The expiry time that is asked for. *)
Definition start_time (s : kts) (type : nat) (time mode : Z) : Z :=
  if negb (Z.land mode KTIMER_MODE_REL =? 0) then ktime_add_safe time (base_time s type (clock (k_reading s))) else time.

Lemma start_time_run s type time mode :
  (if negb (Z.land mode KTIMER_MODE_REL =? 0)
   then now ← read_now clock type; mret (ktime_add_safe time now)
   else now ← read_clock clock; mret time) s = Some (start_time s type time mode, set_k_reading (S (k_reading s)) s).
Proof.
  unfold start_time, base_time. destruct (negb _); [|done]. unfold read_now, read_clock, gets, modify, mbind, M_bind, mret, M_ret.
  simpl. destruct (k_offsets s) as [[real boot] tai]. done.
Qed.

Lemma set_expires_run t x s : is_Some (k_expires s !! t) →
  ktimer_set_expires t x s = Some (tt, set_k_expires (<[t := x]> (k_expires s)) s).
Proof. intros [y Hy]. unfold ktimer_set_expires. by rewrite Hy. Qed.

Record Started (t : N) (b : base_id) (x : Z) (ls : base_id → list N) (s s' : kts) : Prop := {
  sd_inv : KInv s' (upd_list b (enqueue (ex_of s') t (without t (ls b))) ls);
  sd_time : k_expires s' !! t = Some x;
  sd_others : ∀ y, y ≠ t → k_expires s' !! y = k_expires s !! y;
  sd_core : ∀ c, core <$> k_cpus s' !! c = core <$> k_cpus s !! c;
  sd_offset : ∀ b', time_offset <$> base_at s' b' = time_offset <$> base_at s b';
  sd_timer : (λ k, (kt_base k, kt_state k)) <$> k_timers s' !! t = Some (Some b, KTIMER_ENQUEUED);
}.

Lemma quiet_offset s s' b : Quiet s s' → time_offset <$> base_at s' b = time_offset <$> base_at s b.
Proof.
  intros [_ Hb _ _ _ _]. specialize (Hb b). destruct (base_at s' b), (base_at s b); try done. simpl in *. unfold bcore in Hb. congruence.
Qed.

Lemma quiet_base_exists s s' b : Quiet s s' → is_Some (base_at s b) → is_Some (base_at s' b).
Proof. intros HQ [x Hx]. pose proof (quiet_offset _ _ b HQ) as E. rewrite Hx in E. destruct (base_at s' b); [by eexists|done]. Qed.

Lemma start_on_base_run s ls t b k time mode :
  KInv s ls → k_timers s !! t = Some k → kt_base k = Some b → is_Some (base_at s b) →
  ∃ s', ktimer_start_on_base clock me t time mode b s =
      Some (bool_decide (head (enqueue (ex_of s') t (without t (ls b))) = Some t), s') ∧
    Started t b (start_time s b.2 time mode) ls s s'.
Proof.
  intros HI Hk Hb Hx. destruct (ktimer_dequeue_run s ls t b k HI Hk Hb) as (s1 & Hdeq & HL & HQ1).
  set (x := start_time s b.2 time mode).
  set (s2 := set_k_expires (<[t := x]> (k_expires s1)) (set_k_reading (S (k_reading s1)) s1)).
  pose proof (lf_inv _ _ _ _ _ _ HL) as HI1. pose proof (lf_timer _ _ _ _ _ _ HL) as Hk1.
  assert (HI2 : KInv s2 (upd_list b (without t (ls b)) ls)).
  { eapply kinv_unqueued; [|exact HI1]. apply (unqueued_reading _ (S (k_reading s1)) s1 (set_k_expires _ s1)).
    apply unqueued_expires. intros b'. by eapply not_queued. }
  destruct (queue_run s2 _ t b (set_state KTIMER_INACTIVE k) HI2 Hk1 eq_refl Hb) as (s' & Hq & HI' & HM).
  { by apply (quiet_base_exists s s1). }
  rewrite upd_list_eq in Hq, HI'. pose proof (mv_quiet _ _ _ HM) as HQ2. pose proof (mv_expires _ _ _ HM) as Hex. simpl in Hex.
  assert (Hexo : ex_of s' = ex_of s2) by (unfold ex_of; by rewrite Hex). exists s'. rewrite Hexo. split; [|constructor].
  - unfold ktimer_start_on_base. rewrite (bind_run _ _ _ _ _ Hdeq). rewrite (bind_run _ _ _ _ _ (start_time_run s1 b.2 time mode)).
    assert (start_time s1 b.2 time mode = x) as ->.
    { unfold x, start_time, base_time. by rewrite (qu_offsets _ _ HQ1), (qu_reading _ _ HQ1). }
    erewrite bind_run; [|apply set_expires_run]; [exact Hq|]. simpl. rewrite (lf_expires _ _ _ _ _ _ HL). by apply (ki_mem _ _ HI t k).
  - rewrite Hexo. eapply kinv_ext; [|exact HI']. intros b'. apply upd_list_twice.
  - rewrite Hex. apply lookup_insert_eq.
  - intros y Hy. rewrite Hex, lookup_insert_ne by done. by rewrite (lf_expires _ _ _ _ _ _ HL).
  - intros c. rewrite (qu_core _ _ HQ2). apply (qu_core _ _ HQ1).
  - intros b'. rewrite (quiet_offset _ _ b' HQ2). apply (quiet_offset _ _ b' HQ1).
  - rewrite (mv_timers _ _ _ HM), lookup_alter_eq. simpl. rewrite Hk1. simpl. by rewrite Hb.
Qed.

(** Programming the deadline of a timer that is the first of its queue. *)
Definition rescheduled (t : N) (d : Z) (cb : cpu_base) (s : kts) : kts :=
  if (next_deadline cb <=? d) || in_irq cb then s
  else cpu_upd me (set_hw d ∘ set_deadline d ∘ set_expiring (Some t)) s.

Lemma reschedule_run s t k i cb x :
  k_timers s !! t = Some k → kt_base k = Some (me, i) → k_cpus s !! me = Some cb → is_Some (base_at s (me, i)) →
  k_expires s !! t = Some x →
  ktimer_reschedule_timer me t s = Some (tt, rescheduled t (Z.max 0 (deadline s (me, i) t)) cb s).
Proof.
  intros Hk Hb Hcb [y Hy] Hx. unfold ktimer_reschedule_timer. rewrite (bind_run _ _ _ _ _ (get_cpu_run me s cb Hcb)).
  rewrite (bind_run _ _ _ _ _ (base_of_run t s k _ Hk Hb)), (bind_run _ _ _ _ _ (get_base_run _ s y Hy)).
  rewrite (bind_run _ _ _ _ _ (get_expires_run t s x Hx)).
  assert (Hd : deadline s (me, i) t = ktime_sub x (time_offset y)) by (unfold deadline, offset_at, ex_of; by rewrite Hx, Hy).
  rewrite <- Hd. assert ((if deadline s (me, i) t <? 0 then 0 else deadline s (me, i) t) = Z.max 0 (deadline s (me, i) t)) as ->
    by (destruct (Z.ltb_spec (deadline s (me, i) t) 0); lia).
  set (d := Z.max 0 _). simpl. rewrite Nat.eqb_refl. simpl. unfold rescheduled.
  destruct (next_deadline cb <=? d); [done|]. simpl. destruct (in_irq cb); [done|].
  rewrite (bind_run _ _ _ _ _ (upd_cpu_run me _ s ltac:(by eexists))). unfold ktimer_commit_next_deadline.
  erewrite bind_run; [|apply upd_cpu_run; eexists; by apply cpu_upd_get].
  rewrite upd_cpu_run by (eexists; eapply cpu_upd_get; by apply cpu_upd_get). by rewrite !cpu_upd_twice.
Qed.

End Ops.

Lemma kinv_rebase s ls t k b :
  KInv s ls → k_timers s !! t = Some k → kt_state k = KTIMER_INACTIVE ∨ kt_base k = Some b →
  KInv (timer_upd t (set_base (Some b)) s) ls.
Proof.
  intros HI Hk Hor. assert (Ht : ∀ y, y ≠ t → k_timers (timer_upd t (set_base (Some b)) s) !! y = k_timers s !! y)
    by (intros y Hy; simpl; by rewrite lookup_alter_ne).
  assert (Htt : k_timers (timer_upd t (set_base (Some b)) s) !! t = Some (set_base (Some b) k))
    by (simpl; by rewrite lookup_alter_eq, Hk).
  constructor; try apply HI.
  - intros b' y Hy. destruct (ki_in _ _ HI b' y Hy) as (Hx & k' & Hk' & Hb' & Hst). split; [done|].
    destruct (decide (y = t)) as [->|Hne]; [|rewrite Ht by done; by exists k']. assert (k' = k) as -> by congruence.
    destruct Hor as [Hin|Hb]; [by rewrite Hin in Hst|]. eexists. split; [exact Htt|]. simpl. split; congruence.
  - intros y k' Hk'. destruct (decide (y = t)) as [->|Hne]; [|rewrite Ht in Hk' by done; by apply (ki_out _ _ HI)].
    rewrite Htt in Hk'. injection Hk' as <-. simpl. destruct (ki_out _ _ HI t k Hk) as [(Hst & b' & Hb' & Hin)|]; [left|by right].
    split; [done|]. destruct Hor as [Hst'|Hb]; [by rewrite Hst' in Hst|]. exists b'. split; [congruence|done].
  - intros y k' Hk'. destruct (decide (y = t)) as [->|Hne]; [by apply (ki_mem _ _ HI t k)|].
    rewrite Ht in Hk' by done. by apply (ki_mem _ _ HI y k').
Qed.

Lemma started_timely t b x ls s s' c :
  Timely s ls c → Started t b x ls s s' → 0 <= x < 2 ^ 63 →
  Timely s' (upd_list b (enqueue (ex_of s') t (without t (ls b))) ls) c.
Proof.
  intros HT HS Hx. constructor.
  - intros i. unfold offset_at. rewrite (sd_offset _ _ _ _ _ _ HS). apply (ti_offset _ _ _ HT).
  - intros i y Hy. destruct (decide (y = t)) as [->|Hne]; [unfold ex_of; by rewrite (sd_time _ _ _ _ _ _ HS)|].
    unfold ex_of. rewrite (sd_others _ _ _ _ _ _ HS) by done. apply (ti_expires _ _ _ HT i). unfold upd_list in Hy.
    case_decide as E; [|done]. rewrite E. apply enqueue_elem in Hy as [|Hy]; [done|]. by apply without_elem in Hy as [_ Hy].
Qed.

Lemma started_deadline t b x ls s s' b' y :
  Started t b x ls s s' → y ≠ t → deadline s' b' y = deadline s b' y.
Proof.
  intros HS Hy. unfold deadline, offset_at, ex_of. by rewrite (sd_offset _ _ _ _ _ _ HS), (sd_others _ _ _ _ _ _ HS).
Qed.

(** A timer that is not the first of its queue changes nothing for the deadline. *)
Lemma started_covered t i x ls s s' me d :
  Timely s' (upd_list (me, i) (enqueue (ex_of s') t (without t (ls (me, i)))) ls) me →
  Started t (me, i) x ls s s' → (∀ j y, y ∈ ls (me, j) → d <= Z.max 0 (deadline s (me, j) y)) →
  head (enqueue (ex_of s') t (without t (ls (me, i)))) ≠ Some t ∨ d <= Z.max 0 (deadline s' (me, i) t) →
  ∀ j y, y ∈ upd_list (me, i) (enqueue (ex_of s') t (without t (ls (me, i)))) ls (me, j) → d <= Z.max 0 (deadline s' (me, j) y).
Proof.
  intros HT HS Hd Ht. set (ls' := upd_list _ _ _) in *. pose proof (sd_inv _ _ _ _ _ _ HS) as HI'. fold ls' in HI'.
  assert (Hold : ∀ j y, y ≠ t → y ∈ ls' (me, j) → d <= Z.max 0 (deadline s' (me, j) y)).
  { intros j y Hy Hin. rewrite (started_deadline _ _ _ _ _ _ _ _ HS Hy). apply Hd. unfold ls', upd_list in Hin.
    case_decide as E; [|done]. injection E as ->. apply enqueue_elem in Hin as [|Hin]; [done|]. by apply without_elem in Hin as [_ ?]. }
  intros j y Hy. destruct (decide (y = t)) as [->|Hne]; [|by apply Hold].
  assert (Htt : t ∈ ls' (me, i)) by (unfold ls'; rewrite upd_list_eq; apply enqueue_elem; by left).
  assert ((me, j) = (me, i)) as [= ->] by by apply (ki_disjoint s' ls' _ _ t). destruct Ht as [Hh|]; [|done].
  destruct (head (ls' (me, i))) as [h|] eqn:Eh; [|destruct (ls' (me, i)); set_solver].
  assert (Hhin : h ∈ ls' (me, i)) by (destruct (ls' (me, i)); simplify_eq/=; set_solver).
  assert (Hht : h ≠ t) by (intros ->; apply Hh; rewrite <- Eh; unfold ls'; by rewrite upd_list_eq).
  pose proof (Hold i h Hht Hhin) as Hdh. pose proof (queue_head_first s' ls' (me, i) h t HI' Eh Htt).
  rewrite (timely_deadline s' ls' me i h HT Hhin) in Hdh. rewrite (timely_deadline s' ls' me i t HT Htt). lia.
Qed.

Lemma resolve_run me t s k : k_timers s !! t = Some k →
  ktimer_resolve_base me t s =
    Some ((me, ktimer_clock_id_to_base_type (kt_clock_id k)),
          timer_upd t (set_base (Some (me, ktimer_clock_id_to_base_type (kt_clock_id k)))) s).
Proof.
  intros Hk. unfold ktimer_resolve_base, ktimer_bind_base. rewrite (bind_run _ _ _ _ _ (get_timer_run t s k Hk)).
  by rewrite (bind_run _ _ _ _ _ (upd_timer_run t _ s ltac:(by eexists))).
Qed.

Lemma base_type_small i : (ktimer_clock_id_to_base_type i < KTIMER_MAX_CLOCK_BASES)%nat.
Proof. unfold ktimer_clock_id_to_base_type, KTIMER_MAX_CLOCK_BASES. repeat case_match; lia. Qed.

(** The rescheduled state covers all timers. *)
Lemma rescheduled_armed me t i x ls s s' cb d first :
  let ls' := upd_list (me, i) (enqueue (ex_of s') t (without t (ls (me, i)))) ls in
  Timely s' ls' me → Armed s ls me → Started t (me, i) x ls s s' → k_cpus s' !! me = Some cb → in_irq cb = false →
  d = Z.max 0 (deadline s' (me, i) t) → first = bool_decide (head (enqueue (ex_of s') t (without t (ls (me, i)))) = Some t) →
  Armed (if first then rescheduled me t d cb s' else s') ls' me.
Proof.
  intros ls' HT HA HS Hcb Hirq Hd Hfirst. pose proof (sd_core _ _ _ _ _ _ HS me) as Hcore. rewrite Hcb in Hcore.
  destruct (k_cpus s !! me) as [cb0|] eqn:Hcb0; [|done]. simpl in Hcore. injection Hcore as _ Hnext _ _.
  assert (HA0 : ∀ j y, y ∈ ls (me, j) → next_deadline cb <= Z.max 0 (deadline s (me, j) y)).
  { intros j y Hy. rewrite Hnext. by apply HA. }
  destruct first; [unfold rescheduled; rewrite Hirq, orb_false_r; destruct (Z.leb_spec (next_deadline cb) d) as [Hle|Hgt]|].
  - intros cb' j y Hcb'. assert (cb' = cb) as -> by congruence. apply (started_covered t i x ls s s' me); try done. right. lia.
  - intros cb' j y Hcb' Hy. rewrite (cpu_upd_get me _ s' cb Hcb) in Hcb'. injection Hcb' as <-. simpl.
    rewrite (alike_deadline s') by by apply alike_cpu. revert j y Hy. apply (started_covered t i x ls s s' me); [done|done| |right; lia].
    intros j y Hy. specialize (HA0 j y Hy). lia.
  - intros cb' j y Hcb'. assert (cb' = cb) as -> by congruence. apply (started_covered t i x ls s s' me); try done. left.
    symmetry in Hfirst. by apply bool_decide_eq_false in Hfirst.
Qed.

Lemma rescheduled_same ls me t d cb (s : kts) (first : bool) :
  let s' := if first then rescheduled me t d cb s else s in
  k_expires s' = k_expires s ∧ k_timers s' = k_timers s ∧ Unqueued ls s s' ∧ Alike s s'.
Proof.
  assert (k_expires s = k_expires s ∧ k_timers s = k_timers s ∧ Unqueued ls s s ∧ Alike s s) by (split_and!; [done|done|by constructor|done]).
  simpl. destruct first; [|done]. unfold rescheduled. destruct (_ || _); [done|].
  split_and!; [done|done|by apply unqueued_cpu|by apply alike_cpu].
Qed.

(** C23: starting, on CPU [me] and outside its timer interrupt, a timer that is inactive
    or already belongs to its clock's base of this CPU takes it out of that base's
    queue if it is there, gives it the time asked for ([time], or for a relative mode
    [time] after the time of its base, limited to the largest time) and queues it on its
    clock's base of this CPU, behind the timers with the same time; no other timer
    changes.  If the CPU's programmed deadline was no later than any of its timers'
    deadlines, it still is: the new timer cannot be missed. *)
Theorem ktimer_start_correct clock me s ls t k cb time mode :
  let b := (me, ktimer_clock_id_to_base_type (kt_clock_id k)) in
  let x := start_time clock s b.2 time mode in
  KInv s ls → Timely s ls me → Armed s ls me → k_timers s !! t = Some k → is_Some (kt_function k) →
  kt_state k = KTIMER_INACTIVE ∨ kt_base k = Some b → k_cpus s !! me = Some cb → in_irq cb = false → 0 <= x < 2 ^ 63 →
  ∃ s', let ls' := upd_list b (enqueue (ex_of s') t (without t (ls b))) ls in
    ktimer_start clock me t time mode s = Some (tt, s') ∧ KInv s' ls' ∧ Timely s' ls' me ∧ Armed s' ls' me ∧
    k_expires s' !! t = Some x ∧ (∀ y, y ≠ t → k_expires s' !! y = k_expires s !! y) ∧
    (λ k, (kt_base k, kt_state k)) <$> k_timers s' !! t = Some (Some b, KTIMER_ENQUEUED).
Proof.
  intros b x HI HT HA Hk [f Hf] Hor Hcb Hirq Hx.
  set (s1 := timer_upd t (set_base (Some b)) s). assert (HI1 : KInv s1 ls) by by eapply kinv_rebase.
  assert (Hk1 : k_timers s1 !! t = Some (set_base (Some b) k)) by (simpl; by rewrite lookup_alter_eq, Hk).
  destruct (start_on_base_run clock me s1 ls t b _ time mode HI1 Hk1 eq_refl) as (s2 & Hrun & HS).
  { apply (base_exists s1 ls); [done|by eexists|]. apply base_type_small. }
  change (start_time clock s1 b.2 time mode) with x in HS. set (first := bool_decide _) in Hrun.
  pose proof (sd_core _ _ _ _ _ _ HS me) as Hcore. change (k_cpus s1 !! me) with (k_cpus s !! me) in Hcore. rewrite Hcb in Hcore.
  destruct (k_cpus s2 !! me) as [cb2|] eqn:Hcb2; [|done]. simpl in Hcore. injection Hcore as Hirq2 _ _ _.
  assert (HT2 : Timely s2 (upd_list b (enqueue (ex_of s2) t (without t (ls b))) ls) me) 
    by (eapply (started_timely t b x ls s1); [destruct HT; by constructor|done|done]).
  assert (HA2 := rescheduled_armed me t _ x ls s1 s2 cb2 _ first HT2 HA HS Hcb2 ltac:(congruence) eq_refl eq_refl).
  exists (if first then rescheduled me t (Z.max 0 (deadline s2 b t)) cb2 s2 else s2).
  destruct (rescheduled_same (upd_list b (enqueue (ex_of s2) t (without t (ls b))) ls) me t (Z.max 0 (deadline s2 b t)) cb2 s2 first)
    as (He & Ht & HU & HAl). set (s' := if first then _ else _) in *.
  assert (Hex : ex_of s' = ex_of s2) by (unfold ex_of; by rewrite He). simpl. rewrite Hex, He, Ht. split_and!.
  - unfold ktimer_start. rewrite (bind_run _ _ _ _ _ (get_timer_run t s k Hk)), Hf.
    rewrite (bind_run _ _ _ _ _ (resolve_run me t s k Hk)). fold b s1. rewrite (bind_run _ _ _ _ _ Hrun).
    unfold s'. destruct first; [|done]. pose proof (sd_timer _ _ _ _ _ _ HS) as Hkt.
    destruct (k_timers s2 !! t) as [k2|] eqn:Hk2; [|done]. simpl in Hkt. injection Hkt as Hb2 _.
    eapply reschedule_run; [done|done|done| |apply (sd_time _ _ _ _ _ _ HS)].
    apply (base_exists s2 _ me _ (sd_inv _ _ _ _ _ _ HS)); [by eexists|apply base_type_small].
  - eapply kinv_unqueued; [exact HU|apply (sd_inv _ _ _ _ _ _ HS)].
  - constructor; [|unfold ex_of; rewrite He; apply (ti_expires _ _ _ HT2)]. intros i. unfold offset_at. rewrite (al_base _ _ HAl).
    apply (ti_offset _ _ _ HT2).
  - exact HA2.
  - apply (sd_time _ _ _ _ _ _ HS).
  - apply (sd_others _ _ _ _ _ _ HS).
  - apply (sd_timer _ _ _ _ _ _ HS).
Qed.

(** ** Cancelling a timer *)

Lemma refresh_run clock s ls c :
  KInv s ls → Timely s ls c → is_Some (k_cpus s !! c) →
  ∃ r s', ktimer_refresh_next_deadline clock c s = Some (r, s') ∧ Armed s' ls c ∧ Unqueued ls s s' ∧ Alike s s' ∧
    k_expires s' = k_expires s ∧ k_timers s' = k_timers s.
Proof.
  intros HI HT [cb Hcb]. destruct (select_run s ls c HI ltac:(by eexists)) as (d & e & Hsel & [[_ Hmin] _]).
  set (s1 := cpu_upd c (set_expiring e) s). assert (Hcb1 : k_cpus s1 !! c = Some (set_expiring e cb)) by by apply cpu_upd_get.
  eexists _, _. split_and!.
  - unfold ktimer_refresh_next_deadline. rewrite (bind_run _ _ _ _ _ Hsel). fold s1. apply arm_run. by eexists.
  - intros cb' i t Hcb' Ht. simpl in Hcb'. rewrite list_lookup_alter_eq, list_lookup_alter_eq, Hcb in Hcb'. injection Hcb' as <-. simpl.
    assert (d <= deadline s (c, i) t).
    { eapply heads_enough; [exact HI|done| |done]. intros j h Hj. apply Hmin. by apply base_types. }
    rewrite (alike_deadline s1); [|split; [|done]; intros b; by rewrite base_at_reading, base_at_cpu].
    unfold s1. rewrite (alike_deadline s) by by apply alike_cpu. lia.
  - apply unqueued_reading. unfold s1. rewrite cpu_upd_twice. by apply unqueued_cpu.
  - unfold s1. split; [|done]. intros b. by rewrite base_at_reading, !base_at_cpu.
  - done.
  - done.
Qed.

Lemma removed_timely t k b ls s s' c :
  Timely s ls c → Left t k b ls s s' → (∀ b', time_offset <$> base_at s' b' = time_offset <$> base_at s b') →
  Timely s' (upd_list b (without t (ls b)) ls) c.
Proof.
  intros HT HL Ho. constructor.
  - intros i. unfold offset_at. rewrite Ho. apply (ti_offset _ _ _ HT).
  - intros i y Hy. unfold ex_of. rewrite (lf_expires _ _ _ _ _ _ HL). apply (ti_expires _ _ _ HT i). unfold upd_list in Hy.
    case_decide as E; [|done]. rewrite E. by apply without_elem in Hy as [_ Hy].
Qed.

Lemma removed_armed t k b ls s s' c :
  Armed s ls c → Left t k b ls s s' → Quiet s s' → Armed s' (upd_list b (without t (ls b)) ls) c.
Proof.
  intros HA HL HQ cb' i y Hcb' Hy. pose proof (qu_core _ _ HQ c) as E. rewrite Hcb' in E.
  destruct (k_cpus s !! c) as [cb|] eqn:Hcb; [|done]. injection E as _ -> _ _.
  assert (deadline s' (c, i) y = deadline s (c, i) y) as ->
    by (unfold deadline, offset_at, ex_of; by rewrite (quiet_offset _ _ _ HQ), (lf_expires _ _ _ _ _ _ HL)).
  apply HA; [done|]. unfold upd_list in Hy. case_decide as E; [|done]. rewrite E. by apply without_elem in Hy as [_ Hy].
Qed.

(** Dequeueing with a new deadline if the timer determined it. *)
Lemma dequeue_rearm_run clock me s ls t k i :
  KInv s ls → Timely s ls me → Armed s ls me → k_timers s !! t = Some k → kt_base k = Some (me, i) → kt_state k = KTIMER_ENQUEUED →
  ∃ s', ktimer_dequeue_timer clock me t (me, i) false s = Some (0, s') ∧ Left t k (me, i) ls s s' ∧
    Armed s' (upd_list (me, i) (without t (ls (me, i))) ls) me.
Proof.
  intros HI HT HA Hk Hb Hst. unfold ktimer_dequeue_timer. rewrite (bind_run _ _ _ _ _ (is_enqueued_run t s k Hk)), Hst. simpl.
  rewrite (bind_run _ _ _ _ _ (is_local_run me t s k _ Hk Hb)). simpl. rewrite Nat.eqb_refl.
  destruct (ki_out _ _ HI t k Hk) as [(_ & b' & Hb' & Hin)|Hst']; [|by rewrite Hst' in Hst].
  assert (b' = (me, i)) as -> by congruence. apply list_elem_of_split in Hin as (A & B & Hl).
  destruct (remove_run clock s ls t (me, i) k A B true HI Hk Hb Hl) as (s1 & cb & HI1 & HM & Hcb & Hrun).
  pose proof (left_removed s ls t k (me, i) A B s1 HI Hk Hl HI1 HM) as HL. pose proof (mv_quiet _ _ _ HM) as HQ.
  simpl in Hrun. destruct (bool_decide (next_expiring cb = Some t)); simpl in Hrun.
  - destruct (refresh_run clock s1 _ me (lf_inv _ _ _ _ _ _ HL)) as (r & s' & Hre & HA' & HU & HAl & He & Htm).
    { eapply removed_timely; [done|done|]. intros b'. by apply quiet_offset. }
    { by eexists. }
    rewrite (bind_run _ _ _ _ _ Hre) in Hrun. exists s'. split_and!; [by rewrite (bind_run _ _ _ _ _ Hrun)| |done].
    constructor; [by eapply kinv_unqueued; [|apply HL]|by rewrite He, (lf_expires _ _ _ _ _ _ HL)| |]; rewrite Htm; apply HL.
  - exists s1. split_and!; [by rewrite (bind_run _ _ _ _ _ Hrun)|done|by eapply removed_armed].
Qed.

Lemma running_run s t k b : k_timers s !! t = Some k → kt_base k = Some b → is_Some (base_at s b) →
  ktimer_callback_is_running t s = Some (bool_decide (running_of s b = Some (Some t)), s).
Proof.
  intros Hk Hb [x Hx]. unfold ktimer_callback_is_running. rewrite (bind_run _ _ _ _ _ (base_of_run t s k b Hk Hb)).
  rewrite (bind_run _ _ _ _ _ (get_base_run b s x Hx)). unfold running_of. rewrite Hx. simpl. unfold mret, M_ret. do 2 f_equal.
  apply bool_decide_ext. split; [by intros ->|by intros [= ->]].
Qed.

(** C24: cancelling a timer of this CPU whose callback is not running succeeds at the
    first attempt; the timer is inactive and in no queue afterwards, every other timer is
    where it was, and the programmed deadline is still no later than that of any
    remaining timer (it is computed anew when the cancelled timer determined it). *)
Theorem ktimer_cancel_correct clock me mem s ls t k i fuel :
  KInv s ls → Timely s ls me → Armed s ls me → k_timers s !! t = Some k → kt_base k = Some (me, i) →
  is_Some (base_at s (me, i)) → running_of s (me, i) ≠ Some (Some t) →
  ∃ s', let ls' := upd_list (me, i) (without t (ls (me, i))) ls in
    ktimer_cancel clock (S fuel) me mem t s = Some (0, s') ∧ KInv s' ls' ∧ Armed s' ls' me ∧
    kt_state <$> k_timers s' !! t = Some KTIMER_INACTIVE ∧ (∀ y, y ≠ t → k_timers s' !! y = k_timers s !! y) ∧
    k_expires s' = k_expires s.
Proof.
  intros HI HT HA Hk Hb Hx Hnr. pose proof (running_run s t k _ Hk Hb Hx) as Hrun. rewrite bool_decide_false in Hrun by done.
  assert (∃ s', ktimer_try_to_cancel clock me mem t s = Some (0, s') ∧ Left t k (me, i) ls s s' ∧
            Armed s' (upd_list (me, i) (without t (ls (me, i))) ls) me) as (s' & Htry & HL & HA').
  { unfold ktimer_try_to_cancel, ktimer_is_active. destruct (ki_out _ _ HI t k Hk) as [(Hst & _)|Hst].
    - erewrite bind_run; [|rewrite (bind_run _ _ _ _ _ (get_timer_run t s k Hk)), Hb, Hst; done]. simpl.
      rewrite (bind_run _ _ _ _ _ (base_of_run t s k _ Hk Hb)), (bind_run _ _ _ _ _ (is_local_run me t s k _ Hk Hb)).
      simpl. rewrite Nat.eqb_refl. unfold ktimer_try_to_cancel_local. rewrite (bind_run _ _ _ _ _ Hrun).
      by apply dequeue_rearm_run.
    - exists s. erewrite bind_run; [|rewrite (bind_run _ _ _ _ _ (get_timer_run t s k Hk)), Hb, Hst; simpl; exact Hrun].
      split_and!; [done|by apply left_nothing|]. eapply removed_armed; [done|by apply left_nothing|apply quiet_refl]. }
  exists s'. simpl. split_and!; [|apply HL|done| |apply HL|apply HL].
  - unfold ktimer_cancel. rewrite (bind_run _ _ _ _ _ (is_local_run me t s k _ Hk Hb)). simpl. rewrite Nat.eqb_refl.
    rewrite (bind_run _ _ _ _ _ Hrun). simpl. by rewrite (bind_run _ _ _ _ _ Htry).
  - by rewrite (lf_timer _ _ _ _ _ _ HL).
Qed.

(** ** Forwarding a periodic timer *)

Lemma add_safe_min a b : 0 <= a < 2 ^ 63 → 0 <= b < 2 ^ 63 → ktime_add_safe a b = Z.min (a + b) KTIME_MAX.
Proof.
  intros Ha Hb. unfold ktime_add_safe, ktime_add_unsafe. rewrite !(u64_small a), !(u64_small b), (u64_small (a + b)) by lia.
  unfold KTIME_MAX. destruct (decide (a + b < 2 ^ 63)) as [Hlt|Hge].
  - rewrite s64_small by (unfold is_s64; lia). destruct (Z.ltb_spec (a + b) 0), (Z.ltb_spec (a + b) a), (Z.ltb_spec (a + b) b); simpl; lia.
  - assert (s64 (a + b) < 0) as Hs by (unfold s64; rewrite <- (Z.mod_add _ (-1)), Z.mod_small by lia; lia).
    destruct (Z.ltb_spec (s64 (a + b)) 0); [|lia]. simpl. change (ktime_set KTIME_SEC_MAX 0) with (2 ^ 63 - 1). lia.
Qed.

Lemma add_expires_run t x y s : k_expires s !! t = Some x →
  ktimer_add_expires t y s = Some (tt, set_k_expires (<[t := ktime_add_safe x y]> (k_expires s)) s).
Proof.
  intros Hx. unfold ktimer_add_expires. rewrite (bind_run _ _ _ _ _ (get_expires_run t s x Hx)).
  by rewrite set_expires_run by (by eexists).
Qed.

(** C34: forwarding a timer that is not queued past [now] adds the least number [n] of
    periods (at least the clock resolution each) that takes its expiry beyond [now], and
    returns [n]; a timer that has not expired is left alone with result 0.  The new
    expiry is at most one period after [now]; only where it would not fit in 63 bits it
    is the largest time instead. *)
Theorem ktimer_forward_correct t s k e now interval :
  let iv := Z.max interval (k_resolution s) in
  let n := if now <? e then 0 else (now - e) / iv + 1 in
  k_timers s !! t = Some k → kt_state k ≠ KTIMER_ENQUEUED → k_expires s !! t = Some e →
  0 <= e < 2 ^ 63 → 0 <= now < 2 ^ 63 → 0 <= interval < 2 ^ 63 → 0 < k_resolution s < 2 ^ 63 →
  ktimer_forward t now interval s = Some (n, set_k_expires (<[t := Z.min (e + n * iv) KTIME_MAX]> (k_expires s)) s) ∧
  (e <= now → now < e + n * iv <= now + iv) ∧ ∀ m, 0 <= m → now < e + m * iv → n <= m.
Proof.
  intros iv n Hk Hst He Hre Hrn Hri Hrr. assert (Hiv : 0 < iv < 2 ^ 63) by lia.
  assert (Hq : (now - e) / iv * iv <= now - e < ((now - e) / iv + 1) * iv).
  { pose proof (Z.div_mod (now - e) iv ltac:(lia)). pose proof (Z.mod_pos_bound (now - e) iv ltac:(lia)). lia. }
  assert (Hn : (e <= now → now < e + n * iv <= now + iv) ∧ ∀ m, 0 <= m → now < e + m * iv → n <= m).
  { unfold n. destruct (Z.ltb_spec now e); split; [lia|lia|lia|]. intros m Hm Hlt. assert ((now - e) / iv < m); [|lia].
    apply Z.div_lt_upper_bound; lia. }
  split; [|exact Hn]. unfold ktimer_forward. rewrite (bind_run _ _ _ _ _ (is_enqueued_run t s k Hk)).
  rewrite (proj2 (Z.eqb_neq _ _) Hst). rewrite (bind_run _ _ _ _ _ (get_expires_run t s e He)). unfold ktime_sub.
  rewrite s64_small by lia. unfold n in *. destruct (Z.ltb_spec now e) as [Hlt|Hge].
  { destruct (Z.ltb_spec (now - e) 0); [|lia]. rewrite Z.mul_0_l, Z.add_0_r, Z.min_l, insert_id by (done || unfold KTIME_MAX; lia).
    by destruct s. }
  destruct (Z.ltb_spec (now - e) 0); [lia|]. rewrite (bind_run _ _ s (k_resolution s) s eq_refl).
  assert ((if u64 interval <? k_resolution s then s64 (k_resolution s) else interval) = iv) as ->.
  { rewrite u64_small, s64_small by lia. destruct (Z.ltb_spec interval (k_resolution s)); lia. }
  destruct (Z.leb_spec iv (now - e)) as [Hle|Hlt].
  - unfold ktime_to_ns. rewrite Z.quot_div_nonneg by lia. set (q := (now - e) / iv) in *.
    assert (0 <= q) by (apply Z.div_pos; lia). assert (0 <= q <= now - e) by nia.
    rewrite (u64_small q), (u64_small iv), (Z.mul_comm iv q), (u64_small (q * iv)), s64_small by lia.
    rewrite (bind_run _ _ _ _ _ (add_expires_run t e (q * iv) s He)), add_safe_min, Z.min_l by (unfold KTIME_MAX; lia).
    set (s1 := set_k_expires _ s). assert (He1 : k_expires s1 !! t = Some (e + q * iv)) by apply lookup_insert_eq.
    rewrite (bind_run _ _ _ _ _ (get_expires_run t s1 _ He1)). destruct (Z.ltb_spec now (e + q * iv)); [lia|].
    rewrite (bind_run _ _ _ _ _ (add_expires_run t _ iv s1 He1)), add_safe_min by lia.
    rewrite u64_small by lia. unfold mret, M_ret. do 2 f_equal. simpl. unfold s1, set_k_expires. simpl. rewrite insert_insert_eq.
    do 3 f_equal. lia.
  - assert ((now - e) / iv = 0) as -> by (apply Z.div_small; lia).
    rewrite (bind_run _ _ _ _ _ (add_expires_run t e iv s He)), add_safe_min by lia. by rewrite Z.mul_1_l.
Qed.

(** ** A state with four queued timers *)

(** On CPU 0, the timers 1, 2 and 3 are on the monotonic base and timer 4 is on the
    real-time base, whose offset is 1000; timer 5 is not queued.  CPU 1 has none. *)
Definition tree0 : tree := T true (T false E 1 E) 2 (T false E 3 E).
Definition tree1 : tree := T true E 4 E.

Definition empty_base (offset : Z) : clock_base := ClockBase None None None offset.

Definition two_cpus : kts :=
  Kts (<[5%N := unlinked 5]> (store None tree1 (store None tree0 ∅)))
      (list_to_map [(1%N, 50); (2%N, 90); (3%N, 500); (4%N, 1050); (5%N, 0)])
      (list_to_map [(1%N, KTimer (Some (0, 0)%nat) KTIMER_ENQUEUED CLOCK_MONOTONIC (Some 7%N));
                    (2%N, KTimer (Some (0, 0)%nat) KTIMER_ENQUEUED CLOCK_MONOTONIC (Some 8%N));
                    (3%N, KTimer (Some (0, 0)%nat) KTIMER_ENQUEUED CLOCK_MONOTONIC (Some 7%N));
                    (4%N, KTimer (Some (0, 1)%nat) KTIMER_ENQUEUED CLOCK_REALTIME (Some 7%N));
                    (5%N, KTimer (Some (0, 0)%nat) KTIMER_INACTIVE CLOCK_MONOTONIC (Some 7%N))])
      [CpuBase 3 false 50 (Some 1%N)
         [ClockBase (Some 2%N) (Some 1%N) None 0; ClockBase (Some 4%N) (Some 4%N) None 1000; empty_base 0; empty_base 37] 50;
       CpuBase 0 false KTIME_MAX None [empty_base 0; empty_base 1000; empty_base 0; empty_base 37] KTIME_MAX]
      (1000, 0, 37) 1 0%nat [].

Definition two_lists (b : base_id) : list N :=
  if decide (b = (0, 0)%nat) then [1; 2; 3]%N else if decide (b = (0, 1)%nat) then [4]%N else [].

Definition clock10 (n : nat) : Z := 100 + 10 * Z.of_nat n.

Lemma qinv_empty x s : cb_root x = None → cb_earliest x = None → QInv (queue_of x s) [].
Proof.
  intros Hr He. constructor; [|set_solver|constructor|done]. exists E. split; [split_and!; [done|done|constructor]|].
  split; [split; [done|exists 0%nat; constructor]|done].
Qed.

Lemma two_cpus_queue b x : base_at two_cpus b = Some x → QInv (queue_of x two_cpus) (two_lists b).
Proof.
  intros Hx. destruct b as [c i]. unfold base_at in Hx. 
  destruct c as [|[|c]]; [..|done]; destruct i as [|[|[|[|i]]]]; simpl in Hx; try done; injection Hx as <-; try by apply qinv_empty.
  - constructor.
    + exists tree0. split; [split_and!; [vm_compute; by repeat split|done|apply (bool_decide_unpack _); by vm_compute]|].
      split; [split; [done|exists 1%nat; by repeat constructor]|done].
    + intros e He. repeat (apply elem_of_cons in He as [->|He]; [by eexists|]). by apply not_elem_of_nil in He.
    + repeat constructor; vm_compute; discriminate.
    + done.
  - constructor.
    + exists tree1. split; [split_and!; [vm_compute; by repeat split|done|apply (bool_decide_unpack _); by vm_compute]|].
      split; [split; [done|exists 1%nat; by repeat constructor]|done].
    + intros e He. repeat (apply elem_of_cons in He as [->|He]; [by eexists|]). by apply not_elem_of_nil in He.
    + repeat constructor.
    + done.
Qed.

Definition timer_fits (t : N) (k : ktimer) : bool :=
  ((kt_state k =? KTIMER_ENQUEUED) && match kt_base k with Some b => bool_decide (t ∈ two_lists b) | None => false end
   || (kt_state k =? KTIMER_INACTIVE)) &&
  bool_decide (is_Some (k_nodes two_cpus !! t)) && bool_decide (is_Some (k_expires two_cpus !! t)) &&
  bool_decide (is_Some (kt_function k)).

Lemma two_cpus_fit : map_Forall (λ t k, Is_true (timer_fits t k)) (k_timers two_cpus).
Proof. apply (bool_decide_unpack _). by vm_compute. Qed.

Lemma two_cpus_inv : KInv two_cpus two_lists.
Proof.
  constructor.
  - intros [|[|c]] cb Hc; by simplify_eq/=.
  - apply two_cpus_queue.
  - intros [|[|c]] cb [|[|[|[|i]]]] Hc Hi; simplify_eq/=; try done; unfold KTIMER_MAX_CLOCK_BASES in Hi; lia.
  - intros b t Ht. unfold two_lists in Ht. repeat case_decide; subst; [| |by apply not_elem_of_nil in Ht];
      (split; [by eexists|]); repeat (apply elem_of_cons in Ht as [->|Ht]; [by eexists|]); by apply not_elem_of_nil in Ht.
  - intros t k Hk. pose proof (two_cpus_fit t k Hk) as Hf. unfold timer_fits in Hf. rewrite !andb_True, orb_True, andb_True in Hf.
    destruct Hf as [[[[[Hs Hb]|Hs] _] _] _]; [left|right; by apply Is_true_true, Z.eqb_eq in Hs].
    split; [by apply Is_true_true, Z.eqb_eq in Hs|]. destruct (kt_base k) as [b|]; [|done]. exists b. split; [done|].
    by apply bool_decide_spec in Hb.
  - intros t k Hk. pose proof (two_cpus_fit t k Hk) as Hf. unfold timer_fits in Hf. rewrite !andb_True in Hf.
    destruct Hf as [[[_ Hn] He] _]. by split; [apply bool_decide_spec in Hn|apply bool_decide_spec in He].
Qed.

Lemma two_lists_cases (P : base_id → N → Prop) :
  P (0, 0)%nat 1%N → P (0, 0)%nat 2%N → P (0, 0)%nat 3%N → P (0, 1)%nat 4%N → ∀ b t, t ∈ two_lists b → P b t.
Proof.
  intros H1 H2 H3 H4 b t Ht. unfold two_lists in Ht. repeat case_decide; subst; [| |by apply not_elem_of_nil in Ht];
    repeat (apply elem_of_cons in Ht as [->|Ht]; [done|]); by apply not_elem_of_nil in Ht.
Qed.

Lemma two_cpus_timely : Timely two_cpus two_lists 0.
Proof.
  constructor.
  - intros [|[|[|[|i]]]]; by vm_compute.
  - intros i t Ht. by apply (two_lists_cases (λ _ t, 0 <= ex_of two_cpus t < 2 ^ 63)) in Ht.
Qed.

Lemma two_cpus_armed : Armed two_cpus two_lists 0.
Proof.
  intros cb i t Hcb Ht. injection Hcb as <-.
  apply (two_lists_cases (λ b t, 50 <= Z.max 0 (deadline two_cpus b t))) in Ht; [done|by vm_compute..].
Qed.

Lemma two_cpus_callbacks : HasCallback two_cpus.
Proof.
  intros t k Hk. pose proof (two_cpus_fit t k Hk) as Hf. unfold timer_fits in Hf. rewrite !andb_True in Hf.
  destruct Hf as [_ Hf]. by apply bool_decide_spec in Hf.
Qed.

(** The callback of timer 2 asks to be called again at 200; the others do not. *)
Definition call2 (f t : N) : M kts bool :=
  if decide (t = 2%N) then _ ← ktimer_set_expires t 200; mret true else mret false.
Definition asks2 (t : N) : bool := bool_decide (t = 2%N).
Definition due2 (t : N) : Z := if decide (t = 4%N) then 1100 else 100.

Lemma callbacks2 : Callbacks call2 asks2 due2.
Proof.
  intros f t s [e He]. unfold call2, asks2. case_decide as E.
  - subst. exists 200, (k_reading s). rewrite (bind_run _ _ _ _ _ (set_expires_run 2%N 200 s ltac:(by eexists))).
    rewrite bool_decide_true by done. split; [by destruct s|]. unfold later, due2. rewrite decide_False by done. lia.
  - exists e, (k_reading s). rewrite bool_decide_false, insert_id by done. split; [by destruct s|done].
Qed.

Lemma ktimer_pass_correct_witness :
  ∃ s' ls' cb, ktimer_interrupt_pass clock10 call2 4 0 two_cpus = Some ((false, 100), s') ∧ KInv s' ls' ∧
    k_cpus s' !! 0%nat = Some cb ∧ k_ran s' = [1; 2; 4]%N ∧ ls' (0, 0)%nat = [2; 3]%N ∧ next_deadline cb = 200 ∧
    next_expiring cb = Some 2%N ∧ hw_timeout cb = 200.
Proof.
  destruct (ktimer_pass_correct clock10 call2 asks2 due2 two_cpus two_lists 0 4) as (s' & ls' & cb & now' & HI & Hcb & Hrun & Hran & Hq & _).
  - apply callbacks2.
  - apply two_cpus_inv.
  - apply two_cpus_callbacks.
  - by eexists.
  - apply two_cpus_timely.
  - intros i t Ht. apply (two_lists_cases (λ b t, due2 t = now_at two_cpus 100 b)) in Ht; [done|by vm_compute..].
  - intros [|[|i]]; vm_compute; lia.
  - exists s', ls', cb. assert (Hc := Hrun). vm_compute in Hc. injection Hc as Hp Hs'. subst s'. vm_compute in Hcb. injection Hcb as <-.
    split_and!; [by rewrite Hrun, Hp|exact HI|done|done| |done|done|done].
    rewrite Hq by (unfold KTIMER_MAX_CLOCK_BASES; lia). by vm_compute.
Defined.

Lemma ktimer_start_correct_witness :
  ∃ s', ktimer_start clock10 0 5 30 KTIMER_MODE_ABS two_cpus = Some (tt, s') ∧
    KInv s' (upd_list (0, 0)%nat (enqueue (ex_of s') 5 [1; 2; 3]%N) two_lists) ∧ k_expires s' !! 5%N = Some 30 ∧
    Armed s' (upd_list (0, 0)%nat (enqueue (ex_of s') 5 [1; 2; 3]%N) two_lists) 0.
Proof.
  destruct (ktimer_start_correct clock10 0 two_cpus two_lists 5 (KTimer (Some (0, 0)%nat) KTIMER_INACTIVE CLOCK_MONOTONIC (Some 7%N))
    (CpuBase 3 false 50 (Some 1%N)
       [ClockBase (Some 2%N) (Some 1%N) None 0; ClockBase (Some 4%N) (Some 4%N) None 1000; empty_base 0; empty_base 37] 50)
    30 KTIMER_MODE_ABS) as (s' & Hrun & HI & _ & HA & Hx & _).
  - apply two_cpus_inv.
  - apply two_cpus_timely.
  - apply two_cpus_armed.
  - by vm_compute.
  - by eexists.
  - by left.
  - done.
  - done.
  - by vm_compute.
  - exists s'. split_and!; [exact Hrun|exact HI|exact Hx|exact HA].
Defined.

Lemma ktimer_cancel_correct_witness :
  ∃ s', ktimer_cancel clock10 1 0 true 1 two_cpus = Some (0, s') ∧ KInv s' (upd_list (0, 0)%nat [2; 3]%N two_lists) ∧
    Armed s' (upd_list (0, 0)%nat [2; 3]%N two_lists) 0.
Proof.
  destruct (ktimer_cancel_correct clock10 0 true two_cpus two_lists 1 (KTimer (Some (0, 0)%nat) KTIMER_ENQUEUED CLOCK_MONOTONIC (Some 7%N)) 0 0)
    as (s' & Hrun & HI & HA & _).
  - apply two_cpus_inv.
  - apply two_cpus_timely.
  - apply two_cpus_armed.
  - by vm_compute.
  - done.
  - by eexists.
  - by vm_compute.
  - exists s'. split_and!; [exact Hrun|exact HI|exact HA].
Defined.

Lemma ktimer_forward_correct_witness :
  ktimer_forward 5 105 10 two_cpus = Some (11, set_k_expires (<[5%N := 110]> (k_expires two_cpus)) two_cpus).
Proof.
  apply (ktimer_forward_correct 5 two_cpus (KTimer (Some (0, 0)%nat) KTIMER_INACTIVE CLOCK_MONOTONIC (Some 7%N)) 0 105 10); by vm_compute.
Defined.

Lemma one_earliest s ls t b b' :
  KInv s ls → cb_earliest <$> base_at s b = Some (Some t) → cb_earliest <$> base_at s b' = Some (Some t) → b = b'.
Proof.
  intros HI Hb Hb'. assert (Hq : ∀ c, cb_earliest <$> base_at s c = Some (Some t) → t ∈ ls c).
  { intros c Hc. destruct (base_at s c) as [x|] eqn:Hx; [|done]. injection Hc as Hc.
    pose proof (qi_earliest _ _ (ki_queue _ _ HI c x Hx)) as Hh. simpl in Hh. rewrite Hc in Hh.
    destruct (ls c); simplify_eq/=. set_solver. }
  apply (ki_disjoint s ls _ _ t HI); auto.
Qed.

(** Starting a timer on CPU 1 while it is queued on CPU 0 leaves the invariant for
    good: the timer is bound to the new CPU before it is taken out of its queue, so it
    is removed with the new CPU's queue head; afterwards CPU 0 still has it as the
    root and the earliest entry of a queue, and so has CPU 1. *)
Theorem start_elsewhere_corrupts :
  ∃ s', ktimer_start clock10 1 4 2000 KTIMER_MODE_ABS two_cpus = Some (tt, s') ∧
    cb_earliest <$> base_at s' (0, 1)%nat = Some (Some 4%N) ∧ cb_root <$> base_at s' (0, 1)%nat = Some (Some 4%N) ∧
    cb_earliest <$> base_at s' (1, 1)%nat = Some (Some 4%N) ∧ ∀ ls, ¬ KInv s' ls.
Proof.
  eexists. split; [vm_compute; reflexivity|]. split_and!; [by vm_compute..|]. intros ls HI.
  assert ((0, 1)%nat = (1, 1)%nat) as [=] by (by apply (one_earliest _ ls 4%N _ _ HI)).
Qed.
