(* ===== verification/Msgq.v ===== *)
(** * Message queues

    [kernel/msgq/*.c], [ttosCopyString] and the object pool functions of
    [kernel/utils/ttosUtils.c] for message queues, and the bitmap macros and
    inline functions of [include/ttos.h].

    A message block is named by its address: [headers] holds its [size] and
    [priority], [mem] the bytes of its buffer and of the callers' buffers, [sizes]
    the [T_UWORD] objects the callers receive sizes in.  Memory that is not
    allocated is in none of them, and touching it is a fault, as is an array index
    out of range and a second insertion of a linked node.

    [TTOS_SendMsgq], [TTOS_ReceiveMsgq] and [TTOS_DeleteMsgq] give up the dispatch
    lock in the middle.  Each is the sequence of its locked parts, and other tasks
    run between them: a sender that got a block goes on with [ttosCommitMessage],
    a receiver that got a message with [ttosReceiveMessage], a deletion with
    [delete_contents] and [delete_block]; a caller that waits ends with
    [wait_result] when it runs again. *)

From S2P Require Import Prelude Chain PrioMap Kernel Sched SchedInv Dispatch SchedProps Service Wait Names Sema.
From Stdlib Require Import Init.Byte.
Import Width.
Local Open Scope Z_scope.

Definition TTOS_WAIT : Z := 0.
Definition TTOS_NO_WAIT : Z := 0x1.
Definition TTOS_URGENT : Z := 0x4.
Definition TTOS_PRIORITY : Z := 0x1.
Definition TTOS_MSGQ_PRIORITY_MASK : Z := 0xF8.
Definition TTOS_MSGQ_PRIORITY_NUMBER : Z := 32.
Definition TTOS_OBJECT_MALLOC_DEFAULT_SIZE : Z := 0x10.

Definition TTOS_MSGQ_GET_PRIORITY (options : Z) : Z := Z.shiftr (Z.land options TTOS_MSGQ_PRIORITY_MASK) 3.
Definition TTOS_MSGQ_SET_PRIORITYBITMAP (priorityBitMap pri : Z) : Z :=
  Z.lor priorityBitMap (Z.shiftr TOPBIT pri).
Definition TTOS_MSGQ_CLEAR_PRIORITYBITMAP (priorityBitMap pri : Z) : Z :=
  Z.land priorityBitMap (u32 (Z.lnot (Z.shiftr TOPBIT pri))).

(** [T_TTOS_MsgqBufControl] without its node and its buffer. *)
Record msgbuf := MsgBuf {
  size : Z;
  priority : Z;
}.

(** The size of the structure, and the place of [buffer] in it. *)
Definition SIZEOF_MSGBUF : Z := 32.
Definition BUFFER_OFFSET : Z := 24.

(** The heads of the lists of message blocks. *)
Inductive mhead :=
| PendingMsgQueue (pri : Z)
| InactiveMsgQueue.

#[export] Instance mhead_eq_dec : EqDecision mhead.
Proof. solve_decision. Defined.

#[export] Instance mhead_countable : Countable mhead.
Proof.
  refine (inj_countable' (λ h, match h with PendingMsgQueue p => Some p | InactiveMsgQueue => None end)
    (λ o, match o with Some p => PendingMsgQueue p | None => InactiveMsgQueue end) _). by intros [].
Defined.

(** [T_TTOS_MsgqControlBlock].  [handle] tells whether the magic number and the
    type of the header are in place; a null pointer is [0]. *)
Record msgq := Msgq {
  handle : bool;
  objName : list byte;
  attributeSet : Z;
  maxPendingMsg : Z;
  maxMsgSize : Z;
  pendingCount : Z;
  msgPriorityBitMap : Z;
  msgBuffers : Z;
  disableDeleteFlag : bool;
  notifyHandler : Z;
  notifyArgument : Z;
}.

Definition set_handle (v : bool) (m : msgq) : msgq :=
  Msgq v (objName m) (attributeSet m) (maxPendingMsg m) (maxMsgSize m) (pendingCount m) (msgPriorityBitMap m)
    (msgBuffers m) (disableDeleteFlag m) (notifyHandler m) (notifyArgument m).
Definition set_pending (count map : Z) (m : msgq) : msgq :=
  Msgq (handle m) (objName m) (attributeSet m) (maxPendingMsg m) (maxMsgSize m) count map
    (msgBuffers m) (disableDeleteFlag m) (notifyHandler m) (notifyArgument m).
Definition set_msgBuffers (v : Z) (m : msgq) : msgq :=
  Msgq (handle m) (objName m) (attributeSet m) (maxPendingMsg m) (maxMsgSize m) (pendingCount m)
    (msgPriorityBitMap m) v (disableDeleteFlag m) (notifyHandler m) (notifyArgument m).
Definition set_disable (v : bool) (m : msgq) : msgq :=
  Msgq (handle m) (objName m) (attributeSet m) (maxPendingMsg m) (maxMsgSize m) (pendingCount m)
    (msgPriorityBitMap m) (msgBuffers m) v (notifyHandler m) (notifyArgument m).
Definition set_notify (handler argument : Z) (m : msgq) : msgq :=
  Msgq (handle m) (objName m) (attributeSet m) (maxPendingMsg m) (maxMsgSize m) (pendingCount m)
    (msgPriorityBitMap m) (msgBuffers m) (disableDeleteFlag m) handler argument.

(** A control block whose memory is zero. *)
Definition zero_msgq : msgq := Msgq false (replicate 33 x00) 0 0 0 0 0 0 false 0 0.

(** Identifiers of message queues, and the wait queues inside a control block. *)
Abbreviation mqid := nat.
Definition sendWaitQueue (q : mqid) : wqid := (2 * q)%nat.
Definition receiveWaitQueue (q : mqid) : wqid := (2 * q + 1)%nat.

(** [wait.returnArgument] and [wait.returnArgument1]. *)
Record wait_args := WaitArgs {
  returnArgument : Z;
  returnArgument1 : Z;
}.

(** The kernel, the control blocks of the message queues and the manager's lists
    and counters for them, the message blocks, and memory.  [heap] maps the
    address of an allocation to its size, [notices] records the calls of the
    notification handlers. *)
Record mworld := MWorld {
  kern : kernel;
  msgqs : gmap mqid msgq;
  inUsedResource : list mqid;
  inactiveResource : list mqid;
  inUsedResourceNum : Z;
  objExistNumber : Z;
  objMaxNumber : Z;
  lists : gmap (mqid * mhead) (list Z);
  headers : gmap Z msgbuf;
  mem : gmap Z byte;
  heap : gmap Z Z;
  sizes : gmap Z Z;
  args : gmap tid wait_args;
  notices : list (Z * Z);
}.

Definition set_kern (v : kernel) (s : mworld) : mworld :=
  MWorld v (msgqs s) (inUsedResource s) (inactiveResource s) (inUsedResourceNum s) (objExistNumber s)
    (objMaxNumber s) (lists s) (headers s) (mem s) (heap s) (sizes s) (args s) (notices s).
Definition set_msgqs (v : gmap mqid msgq) (s : mworld) : mworld :=
  MWorld (kern s) v (inUsedResource s) (inactiveResource s) (inUsedResourceNum s) (objExistNumber s)
    (objMaxNumber s) (lists s) (headers s) (mem s) (heap s) (sizes s) (args s) (notices s).
Definition set_pools (used free : list mqid) (num exist_num : Z) (s : mworld) : mworld :=
  MWorld (kern s) (msgqs s) used free num exist_num
    (objMaxNumber s) (lists s) (headers s) (mem s) (heap s) (sizes s) (args s) (notices s).
Definition set_lists (v : gmap (mqid * mhead) (list Z)) (s : mworld) : mworld :=
  MWorld (kern s) (msgqs s) (inUsedResource s) (inactiveResource s) (inUsedResourceNum s) (objExistNumber s)
    (objMaxNumber s) v (headers s) (mem s) (heap s) (sizes s) (args s) (notices s).
Definition set_headers (v : gmap Z msgbuf) (s : mworld) : mworld :=
  MWorld (kern s) (msgqs s) (inUsedResource s) (inactiveResource s) (inUsedResourceNum s) (objExistNumber s)
    (objMaxNumber s) (lists s) v (mem s) (heap s) (sizes s) (args s) (notices s).
Definition set_mem (v : gmap Z byte) (s : mworld) : mworld :=
  MWorld (kern s) (msgqs s) (inUsedResource s) (inactiveResource s) (inUsedResourceNum s) (objExistNumber s)
    (objMaxNumber s) (lists s) (headers s) v (heap s) (sizes s) (args s) (notices s).
Definition set_heap (v : gmap Z Z) (s : mworld) : mworld :=
  MWorld (kern s) (msgqs s) (inUsedResource s) (inactiveResource s) (inUsedResourceNum s) (objExistNumber s)
    (objMaxNumber s) (lists s) (headers s) (mem s) v (sizes s) (args s) (notices s).
Definition set_sizes (v : gmap Z Z) (s : mworld) : mworld :=
  MWorld (kern s) (msgqs s) (inUsedResource s) (inactiveResource s) (inUsedResourceNum s) (objExistNumber s)
    (objMaxNumber s) (lists s) (headers s) (mem s) (heap s) v (args s) (notices s).
Definition set_args (v : gmap tid wait_args) (s : mworld) : mworld :=
  MWorld (kern s) (msgqs s) (inUsedResource s) (inactiveResource s) (inUsedResourceNum s) (objExistNumber s)
    (objMaxNumber s) (lists s) (headers s) (mem s) (heap s) (sizes s) v (notices s).
Definition set_notices (v : list (Z * Z)) (s : mworld) : mworld :=
  MWorld (kern s) (msgqs s) (inUsedResource s) (inactiveResource s) (inUsedResourceNum s) (objExistNumber s)
    (objMaxNumber s) (lists s) (headers s) (mem s) (heap s) (sizes s) (args s) v.

Definition lk {A} (m : M kernel A) : M mworld A :=
  λ s, match m (kern s) with Some (a, K) => Some (a, set_kern K s) | None => None end.

Definition lock : M mworld unit := lk ttosDisableTaskDispatchWithLock.
Definition unlock : M mworld unit := lk ttosEnableTaskDispatchWithLock.

Definition get_msgq (q : mqid) : M mworld msgq := s ← gets id; lift (msgqs s !! q).
Definition upd_msgq (q : mqid) (f : msgq → msgq) : M mworld unit :=
  m ← get_msgq q; modify (λ s, set_msgqs (<[q := f m]> (msgqs s)) s).

Definition get_header (a : Z) : M mworld msgbuf := s ← gets id; lift (headers s !! a).
Definition upd_header (a : Z) (f : msgbuf → msgbuf) : M mworld unit :=
  h ← get_header a; modify (λ s, set_headers (<[a := f h]> (headers s)) s).

Definition get_args (t : tid) : M mworld wait_args := s ← gets id; lift (args s !! t).
Definition put_args (t : tid) (a : wait_args) : M mworld unit :=
  modify (λ s, set_args (<[t := a]> (args s)) s).

(** [*p = v] for a [T_UWORD *p]. *)
Definition store_size (p v : Z) : M mworld unit :=
  s ← gets id;
  _ ← lift (sizes s !! p);
  modify (λ s, set_sizes (<[p := v]> (sizes s)) s).

(** [list_add_tail], [list_add_head], [list_delete] and [list_first] on message
    blocks. *)
Definition node_add_tail (a : Z) (h : mqid * mhead) : M mworld unit :=
  linked ← gets (λ s, c_linked a (lists s));
  _ ← massert (negb linked);
  modify (λ s, set_lists (c_add_tail a h (lists s)) s).

Definition node_add_head (a : Z) (h : mqid * mhead) : M mworld unit :=
  linked ← gets (λ s, c_linked a (lists s));
  _ ← massert (negb linked);
  modify (λ s, set_lists (c_add_head a h (lists s)) s).

Definition node_delete (a : Z) : M mworld unit :=
  linked ← gets (λ s, c_linked a (lists s));
  _ ← massert linked;
  modify (λ s, set_lists (c_delete a (lists s)) s).

(** [pendingMsgQueue[pri]], an index into an array of 32 heads. *)
Definition pending_head (q : mqid) (pri : Z) : M mworld (mqid * mhead) :=
  _ ← massert (pri <? TTOS_MSGQ_PRIORITY_NUMBER);
  mret (q, PendingMsgQueue pri).

(** ** Copying *)

(** The loops of [ttosCopyString], by bytes and by words of four bytes. *)
Fixpoint copy_bytes (n : nat) (dest src : Z) (m : gmap Z byte) : option (gmap Z byte) :=
  match n with
  | O => Some m
  | S n =>
      b ← m !! src;
      _ ← m !! dest;
      copy_bytes n (dest + 1) (src + 1) (<[dest := b]> m)
  end.

Fixpoint copy_words (n : nat) (dest src : Z) (m : gmap Z byte) : option (gmap Z byte) :=
  match n with
  | O => Some m
  | S n =>
      b0 ← m !! src; b1 ← m !! (src + 1); b2 ← m !! (src + 2); b3 ← m !! (src + 3);
      _ ← m !! dest; _ ← m !! (dest + 1); _ ← m !! (dest + 2); _ ← m !! (dest + 3);
      copy_words n (dest + 4) (src + 4)
        (<[dest + 3 := b3]> (<[dest + 2 := b2]> (<[dest + 1 := b1]> (<[dest := b0]> m))))
  end.

Definition ttosCopyString (dest src size : Z) (m : gmap Z byte) : option (gmap Z byte) :=
  if (dest mod 4 =? 0) && (src mod 4 =? 0) then
    m ← copy_words (Z.to_nat (size / 4)) dest src m;
    copy_bytes (Z.to_nat (size mod 4)) (dest + 4 * (size / 4)) (src + 4 * (size / 4)) m
  else copy_bytes (Z.to_nat size) dest src m.

Definition copy (dest src size : Z) : M mworld unit :=
  s ← gets id;
  m ← lift (ttosCopyString dest src size (mem s));
  modify (set_mem m).

(** ** Lookup *)

(** [ttosGetObjectById (q, TTOS_OBJECT_MSGQ)]: the header is checked (a read that
    fails is caught), and the lookup leaves the dispatch lock held. *)
Definition get_msgq_object (q : mqid) : M mworld bool :=
  ok ← gets (λ s, bool_decide (handle <$> msgqs s !! q = Some true));
  if (ok : bool) then _ ← lock; mret true else mret false.

(** ** Inserting and removing messages *)

Definition ttosInsertMsg (q : mqid) (a : Z) (isUrgent : Z) : M mworld unit :=
  m ← get_msgq q;
  empty ← lk (ttosTaskqIsEmpty (receiveWaitQueue q));
  let notify := (pendingCount m =? 0) && empty in
  _ ← upd_msgq q (λ m, set_pending (u32 (pendingCount m + 1)) (msgPriorityBitMap m) m);
  _ ← (if negb (isUrgent =? 0) then
         h ← pending_head q 0; node_add_head a h
       else
         hd ← get_header a;
         _ ← upd_msgq q (λ m, set_pending (pendingCount m)
               (TTOS_MSGQ_SET_PRIORITYBITMAP (msgPriorityBitMap m) (priority hd)) m);
         h ← pending_head q (priority hd);
         node_add_tail a h);
  whenM (notify && negb (notifyHandler m =? 0))
    (modify (λ s, set_notices (notices s ++ [(notifyHandler m, notifyArgument m)]) s)).

(** A message leaves its pending list, with the bitmap and the count. *)
Definition remove_pending (q : mqid) (pri a : Z) : M mworld unit :=
  _ ← node_delete a;
  h ← pending_head q pri;
  empty ← gets (λ s, c_is_empty h (lists s));
  _ ← whenM empty (upd_msgq q (λ m, set_pending (pendingCount m)
        (TTOS_MSGQ_CLEAR_PRIORITYBITMAP (msgPriorityBitMap m) pri) m));
  upd_msgq q (λ m, set_pending (u32 (pendingCount m - 1)) (msgPriorityBitMap m) m).

(** The message of the highest priority goes to the waiting task [t]; [n] is the
    size of the message just committed. *)
Definition hand_message (q : mqid) (t : tid) (n : Z) : M mworld unit :=
  m ← get_msgq q;
  let pri := u8 (zero_num_of_word_get (msgPriorityBitMap m)) in
  h ← pending_head q pri;
  o ← gets (λ s, c_first h (lists s));
  a ← lift o;
  _ ← remove_pending q pri a;
  hd ← get_header a;
  w ← get_args t;
  _ ← copy (returnArgument w) (a + BUFFER_OFFSET) (size hd);
  _ ← lk (ttosClearTaskWaiting t);
  _ ← store_size (returnArgument1 w) n;
  _ ← lk (upd_task t (upd_wait (set_wait_count (priority hd))));
  node_add_tail a (q, InactiveMsgQueue).

(** From the point where the lock has been given up for the copy. *)
Definition ttosCommitMessage (q : mqid) (a buffer n isUrgent : Z) : M mworld unit :=
  _ ← copy (a + BUFFER_OFFSET) buffer n;
  _ ← lock;
  _ ← upd_header a (λ hd, MsgBuf n (priority hd));
  _ ← ttosInsertMsg q a isUrgent;
  o ← lk (ttosDequeueTaskFromTaskq (receiveWaitQueue q));
  _ ← match o with
      | Some t => hand_message q t n
      | None => mret tt
      end;
  _ ← upd_msgq q (set_disable false);
  unlock.

Definition ttosSetMessageNotify (q : mqid) (handler argument : Z) : M mworld unit :=
  upd_msgq q (set_notify handler argument).

(** ** Sending *)

(** How the first part of a call ends. *)
Inductive call_result :=
| Done (r : retcode)   (** the call returns *)
| Block (a : Z)        (** the caller holds the block [a] and goes on without the lock *)
| Waiting.             (** the caller waits *)

(** [ticks] other than zero, and no [TTOS_NO_WAIT]. *)
Definition may_wait (options ticks : Z) : bool :=
  negb (negb (Z.land options TTOS_NO_WAIT =? 0) || (ticks =? 0)).

Definition is_urgent (options : Z) : Z := if negb (Z.land options TTOS_URGENT =? 0) then 1 else 0.

(** What the caller leaves for the task that wakes it. *)
Definition wait_for (q : mqid) (executing : tid) (a : wait_args) : M mworld unit :=
  _ ← lk (upd_task executing (upd_wait (λ i, set_returnCode TTOS_OK (set_wait_id (Some q) i))));
  put_args executing a.

Definition TTOS_SendMsgq (q : mqid) (buffer n options ticks : Z) : M mworld call_result :=
  isr ← lk (gets in_isr);
  if (TTOS_WAIT =? options) && isr then mret (Done TTOS_CALLED_FROM_ISR)
  else if 0 =? buffer then mret (Done TTOS_INVALID_ADDRESS)
  else if n =? 0 then mret (Done TTOS_INVALID_SIZE)
  else
    ok ← get_msgq_object q;
    if negb ok then mret (Done TTOS_INVALID_ID)
    else
      m ← get_msgq q;
      if maxMsgSize m <? n then _ ← unlock; mret (Done TTOS_INVALID_SIZE)
      else
        running ← lk (gets (λ K, runningTask K !! this_cpu K));
        msgNode ← gets (λ s, c_first (q, InactiveMsgQueue) (lists s));
        match running, msgNode with
        | None, _ => _ ← unlock; mret (Done TTOS_INVALID_ADDRESS)
        | Some _, Some a =>
            _ ← upd_header a (λ hd, MsgBuf (size hd) (u8 (TTOS_MSGQ_GET_PRIORITY options)));
            _ ← node_delete a;
            _ ← upd_msgq q (set_disable true);
            _ ← unlock;
            mret (Block a)
        | Some executing, None =>
            if negb (may_wait options ticks) then _ ← unlock; mret (Done TTOS_TOO_MANY)
            else
              _ ← wait_for q executing (WaitArgs buffer n);
              _ ← lk (upd_task executing (upd_wait (λ i,
                    set_wait_count (TTOS_MSGQ_GET_PRIORITY options) (set_wait_option (is_urgent options) i))));
              _ ← lk (ttosEnqueueTaskq (sendWaitQueue q) ticks true);
              _ ← unlock;
              mret Waiting
        end.

(** The end of a call that waited, when the caller runs again. *)
Definition wait_result (executing : tid) : M mworld retcode :=
  tc ← lk (get_task executing); mret (returnCode (wait tc)).

(** ** Receiving *)

(** The block of a received message is filled by the sender [t] that waits. *)
Definition refill (q : mqid) (a : Z) (t : tid) : M mworld unit :=
  w ← get_args t;
  _ ← copy (a + BUFFER_OFFSET) (returnArgument w) (u32 (returnArgument1 w));
  _ ← lk (ttosClearTaskWaiting t);
  tc ← lk (get_task t);
  _ ← upd_header a (λ _, MsgBuf (u32 (returnArgument1 w)) (u8 (wait_count (wait tc))));
  ttosInsertMsg q a (wait_option (wait tc)).

Definition ttosReceiveMessage (q : mqid) (a buffer psize : Z) : M mworld unit :=
  running ← lk (gets (λ K, runningTask K !! this_cpu K));
  match running with
  | None => mret tt
  | Some task =>
      hd ← get_header a;
      _ ← store_size psize (size hd);
      _ ← copy buffer (a + BUFFER_OFFSET) (size hd);
      _ ← lock;
      o ← lk (ttosDequeueTaskFromTaskq (sendWaitQueue q));
      _ ← match o with
          | Some t => refill q a t
          | None => node_add_tail a (q, InactiveMsgQueue)
          end;
      hd ← get_header a;
      _ ← lk (upd_task task (upd_wait (set_wait_count (priority hd))));
      _ ← upd_msgq q (set_disable false);
      unlock
  end.

(** [sigpend] is [pcb_signal_pending] of the caller's process. *)
Definition TTOS_ReceiveMsgq (q : mqid) (buffer psize options ticks : Z) (sigpend : bool) : M mworld call_result :=
  executing ← lk ttosGetRunningTask;
  isr ← lk (gets in_isr);
  if (isr : bool) then mret (Done TTOS_CALLED_FROM_ISR)
  else
    idle ← lk (ttosIsIdleTask executing);
    if (idle : bool) then mret (Done TTOS_INVALID_USER)
    else if (0 =? buffer) || (0 =? psize) then mret (Done TTOS_INVALID_ADDRESS)
    else
      ok ← get_msgq_object q;
      if negb ok then mret (Done TTOS_INVALID_ID)
      else
        m ← get_msgq q;
        if negb (pendingCount m =? 0) then
          let pri := zero_num_of_word_get (msgPriorityBitMap m) in
          h ← pending_head q pri;
          msgNode ← gets (λ s, c_first h (lists s));
          match msgNode with
          | None => _ ← unlock; mret (Done TTOS_INVALID_ID)
          | Some a =>
              _ ← remove_pending q pri a;
              _ ← upd_msgq q (set_disable true);
              _ ← unlock;
              mret (Block a)
          end
        else if negb (may_wait options ticks) then _ ← unlock; mret (Done TTOS_UNSATISFIED)
        else
          _ ← wait_for q executing (WaitArgs buffer psize);
          _ ← whenM (negb sigpend) (lk (ttosEnqueueTaskq (receiveWaitQueue q) ticks true));
          cpu ← lk (gets this_cpu);
          level ← lk (ttosGetDisableScheduleLevelWithCpuID cpu);
          _ ← massert (level =? 1);
          _ ← unlock;
          mret Waiting.

(** ** Deletion *)

(** [ttosDeleteMessageFromQueue]: [fuel] bounds the nodes of the list. *)
Fixpoint ttosDeleteMessageFromQueue (fuel : nat) (h : mqid * mhead) : M mworld unit :=
  match fuel with
  | O => fault
  | S fuel =>
      o ← gets (λ s, c_first h (lists s));
      match o with
      | None => mret tt
      | Some a => _ ← node_delete a; ttosDeleteMessageFromQueue fuel h
      end
  end.

(** The loop over the priorities. *)
Fixpoint delete_pending (fuel : nat) (q : mqid) (pris : list Z) : M mworld unit :=
  match pris with
  | [] => mret tt
  | pri :: pris =>
      _ ← ttosDeleteMessageFromQueue fuel (q, PendingMsgQueue pri);
      delete_pending fuel q pris
  end.

(** [free]: an address that is not the start of an allocation is a fault. *)
Definition free (base : Z) : M mworld unit :=
  s ← gets id;
  total ← lift (heap s !! base);
  let inside := λ a, base ≤ a < base + total in
  modify (λ s, set_heap (delete base (heap s))
    (set_mem (filter (λ x, ¬ inside x.1) (mem s)) (set_headers (filter (λ x, ¬ inside x.1) (headers s)) s))).

Definition ttosDeleteMessage (fuel : nat) (q : mqid) : M mworld unit :=
  _ ← delete_pending fuel q (seqZ 0 TTOS_MSGQ_PRIORITY_NUMBER);
  _ ← ttosDeleteMessageFromQueue fuel (q, InactiveMsgQueue);
  m ← get_msgq q;
  whenM (negb (msgBuffers m =? 0)) (free (msgBuffers m)).

Definition ttosDeleteWaitingTask (fuel : nat) (q : mqid) : M mworld unit :=
  _ ← lk (ttosFlushTaskq fuel (sendWaitQueue q) TTOS_OBJECT_WAS_DELETED);
  lk (ttosFlushTaskq fuel (receiveWaitQueue q) TTOS_OBJECT_WAS_DELETED).

(** [ttosReturnObjectToInactiveResource (q, TTOS_OBJECT_MSGQ, TRUE)]: the block is
    on no list; it is cleared with its wait queues and list heads, and joins the
    free blocks. *)
Definition ttosReturnObjectToInactiveResource (q : mqid) : M mworld unit :=
  _ ← upd_msgq q (λ _, zero_msgq);
  _ ← lk (modify (λ K, set_wqs (delete (sendWaitQueue q) (delete (receiveWaitQueue q) (wqs K))) K));
  modify (λ s, set_pools (inUsedResource s) (inactiveResource s ++ [q])
                 (u32 (inUsedResourceNum s - 1)) (objExistNumber s) s).

(** The parts of [TTOS_DeleteMsgq] between which the lock is free. *)
Definition TTOS_DeleteMsgq (q : mqid) : M mworld (option retcode) :=
  isr ← lk (gets in_isr);
  if (isr : bool) then mret (Some TTOS_CALLED_FROM_ISR)
  else
    ok ← get_msgq_object q;
    if negb ok then mret (Some TTOS_INVALID_ID)
    else
      m ← get_msgq q;
      if disableDeleteFlag m then _ ← unlock; mret (Some TTOS_RESOURCE_IN_USE)
      else
        _ ← modify (λ s, set_pools (filter (λ x, x ≠ q) (inUsedResource s)) (inactiveResource s)
              (inUsedResourceNum s) (objExistNumber s) s);
        _ ← unlock;
        mret None.

Definition delete_contents (fuel : nat) (q : mqid) : M mworld unit :=
  _ ← ttosDeleteMessage fuel q;
  ttosDeleteWaitingTask fuel q.

Definition delete_block (q : mqid) : M mworld retcode :=
  _ ← lock;
  _ ← ttosReturnObjectToInactiveResource q;
  _ ← unlock;
  mret TTOS_OK.

(** The call when no other task uses the queue in between. *)
Definition delete_alone (fuel : nat) (q : mqid) : M mworld retcode :=
  r ← TTOS_DeleteMsgq q;
  match r with
  | Some r => mret r
  | None => _ ← delete_contents fuel q; delete_block q
  end.

(** ** Creation *)

(** [T_TTOS_ConfigMsgq]. *)
Record msgq_config := MsgqConfig {
  cfgMsgqName : list byte;
  cfg_attributeSet : Z;
  cfg_maxMsgSize : Z;
  cfg_maxMsgqNumber : Z;
  objVersion : list byte;
}.

(** The first free block, or a new one from the allocator ([blk]: the block
    [memalign] returns); the block is cleared. *)
Definition ttosAllocateObject (blk : option mqid) : M mworld (retcode * option mqid) :=
  s ← gets id;
  match inactiveResource s with
  | b :: free =>
      _ ← modify (set_pools (inUsedResource s) free (inUsedResourceNum s) (objExistNumber s));
      _ ← modify (λ s, set_msgqs (<[b := zero_msgq]> (msgqs s)) s);
      mret (TTOS_OK, Some b)
  | [] =>
      if objExistNumber s =? objMaxNumber s then mret (TTOS_TOO_MANY, None)
      else
        match blk with
        | None => mret (TTOS_UNSATISFIED, None)
        | Some b =>
            _ ← modify (set_pools (inUsedResource s) [] (inUsedResourceNum s) (u32 (objExistNumber s + 1)));
            _ ← modify (λ s, set_msgqs (<[b := zero_msgq]> (msgqs s)) s);
            mret (TTOS_OK, Some b)
        end
  end.

(** The size of a message block in [ttosCreateMessageNode]. *)
Definition block_size (maxMsgSize : Z) : Z :=
  let blockSize := u32 (maxMsgSize + SIZEOF_MSGBUF - 4) in
  Z.land (u32 (blockSize + TTOS_OBJECT_MALLOC_DEFAULT_SIZE - 1)) (u32 (Z.lnot (TTOS_OBJECT_MALLOC_DEFAULT_SIZE - 1))).

Definition zero_bytes (first n : Z) : gmap Z byte := list_to_map ((λ i, (i, x00)) <$> seqZ first n).

(** The loop of [ttosCreateMessageNode], from block [i] on.  A block that is not
    inside the allocation is a fault. *)
Fixpoint create_nodes (count : nat) (i : Z) (q : mqid) (base blockSize totalSize : Z) : M mworld retcode :=
  match count with
  | O => mret TTOS_OK
  | S count =>
      let offset := u32 (blockSize * i) in
      let a := base + offset in
      if a =? 0 then mret TTOS_UNSATISFIED
      else
        _ ← massert (offset + Z.max blockSize SIZEOF_MSGBUF <=? totalSize);
        _ ← modify (λ s, set_headers (<[a := MsgBuf 0 0]> (headers s)) s);
        _ ← modify (λ s, set_mem (zero_bytes (a + BUFFER_OFFSET) (blockSize - BUFFER_OFFSET) ∪ mem s) s);
        _ ← node_add_tail a (q, InactiveMsgQueue);
        create_nodes count (i + 1) q base blockSize totalSize
  end.

(** [base] is what [memalign] returns for the message blocks. *)
Definition ttosCreateMessageNode (q : mqid) (count : Z) (base : option Z) : M mworld retcode :=
  m ← get_msgq q;
  let blockSize := block_size (maxMsgSize m) in
  let totalSize := u32 (blockSize * count) in
  _ ← upd_msgq q (set_msgBuffers (default 0 base));
  match base with
  | None => mret TTOS_UNSATISFIED
  | Some base =>
      _ ← modify (λ s, set_heap (<[base := totalSize]> (heap s)) s);
      create_nodes (Z.to_nat count) 0 q base blockSize totalSize
  end.

Definition ttosAllocMessageNode (q : mqid) (base : option Z) : M mworld retcode :=
  m ← get_msgq q; ttosCreateMessageNode q (maxPendingMsg m) base.

(** The empty heads of a queue. *)
Definition init_lists (q : mqid) (l : gmap (mqid * mhead) (list Z)) : gmap (mqid * mhead) (list Z) :=
  foldr (λ pri l, c_set (q, PendingMsgQueue pri) [] l) (c_set (q, InactiveMsgQueue) [] l)
    (seqZ 0 TTOS_MSGQ_PRIORITY_NUMBER).

Definition ttosInitMsgq (q : mqid) (cfg : msgq_config) (base : option Z) : M mworld retcode :=
  m ← get_msgq q;
  name ← lift (ttosCopyName (cfgMsgqName cfg) (objName m));
  _ ← upd_msgq q (λ m, Msgq (handle m) name (cfg_attributeSet cfg) (cfg_maxMsgqNumber cfg) (cfg_maxMsgSize cfg)
        0 0 (msgBuffers m) false 0 (notifyArgument m));
  let fifo := Z.land (cfg_attributeSet cfg) TTOS_PRIORITY =? 0 in
  _ ← lk (ttosInitializeTaskq (sendWaitQueue q) fifo TTOS_TASK_WAITING_FOR_MSGQ);
  _ ← lk (ttosInitializeTaskq (receiveWaitQueue q) fifo TTOS_TASK_WAITING_FOR_MSGQ);
  _ ← modify (λ s, set_lists (init_lists q (lists s)) s);
  ret ← ttosAllocMessageNode q base;
  if bool_decide (ret ≠ TTOS_OK) then mret TTOS_UNSATISFIED
  else
    _ ← lock;
    _ ← upd_msgq q (set_handle true);
    _ ← modify (λ s, set_pools (inUsedResource s ++ [q]) (inactiveResource s)
          (u32 (inUsedResourceNum s + 1)) (objExistNumber s) s);
    _ ← unlock;
    mret TTOS_OK.

(** [msgqID]: whether the pointer for the result is not null. *)
Definition TTOS_CreateMsgq (fuel : nat) (msgqParam : option msgq_config) (msgqID : bool)
    (blk : option mqid) (base : option Z) : M mworld (retcode * option mqid) :=
  isr ← lk (gets in_isr);
  if (isr : bool) then mret (TTOS_CALLED_FROM_ISR, None)
  else match msgqParam with
  | None => mret (TTOS_INVALID_ADDRESS, None)
  | Some cfg =>
      same ← lift (ttosCompareVerison (objVersion cfg) current_version);
      if negb same then mret (TTOS_INVAILD_VERSION, None)
      else if negb msgqID then mret (TTOS_INVALID_ADDRESS, None)
      else if cfg_maxMsgqNumber cfg =? 0 then mret (TTOS_INVALID_NUMBER, None)
      else if cfg_maxMsgSize cfg =? 0 then mret (TTOS_INVALID_SIZE, None)
      else
        status ← lift (ttosVerifyName (Some (cfgMsgqName cfg)) TTOS_OBJECT_NAME_LENGTH);
        if negb status then mret (TTOS_INVALID_NAME, None)
        else
          _ ← lock;
          r ← ttosAllocateObject blk;
          _ ← unlock;
          match (r : retcode * option mqid) with
          | (TTOS_OK, Some q) =>
              ret ← ttosInitMsgq q cfg base;
              if bool_decide (ret ≠ TTOS_OK) then
                _ ← ttosDeleteMessage fuel q;
                _ ← lock;
                _ ← ttosReturnObjectToInactiveResource q;
                _ ← unlock;
                mret (TTOS_UNSATISFIED, None)
              else mret (TTOS_OK, Some q)
          | (ret, _) => mret (ret, None)
          end
  end.

(** ["defaultCreatMsgq6789"]. *)
Definition TTOS_DEFAULT_MSGQ_NAME : list byte :=
  [x64; x65; x66; x61; x75; x6c; x74; x43; x72; x65; x61; x74; x4d; x73; x67; x71; x36; x37; x38; x39; x00].

Definition TTOS_CreateMsgqEx (fuel : nat) (maxMsgSize maxMsgqNumber : Z) (msgqID : bool)
    (blk : option mqid) (base : option Z) : M mworld (retcode * option mqid) :=
  TTOS_CreateMsgq fuel (Some (MsgqConfig TTOS_DEFAULT_MSGQ_NAME 0 maxMsgSize maxMsgqNumber current_version))
    msgqID blk base.

(** ** Queries *)

Definition TTOS_GetMsgqCount (msgqCount : bool) : M mworld (retcode * option Z) :=
  if negb msgqCount then mret (TTOS_INVALID_ADDRESS, None)
  else n ← gets inUsedResourceNum; mret (TTOS_OK, Some n).

Definition TTOS_GetMsgqPendingCount (q : mqid) (count : bool) : M mworld (retcode * option Z) :=
  if negb count then mret (TTOS_INVALID_ADDRESS, None)
  else
    ok ← get_msgq_object q;
    if negb ok then mret (TTOS_INVALID_ID, None)
    else m ← get_msgq q; _ ← unlock; mret (TTOS_OK, Some (pendingCount m)).

(** The caller's buffer comes back with the name. *)
Definition TTOS_GetMsgqName (q : mqid) (msgqName : option (list byte)) : M mworld (retcode * option (list byte)) :=
  match msgqName with
  | None => mret (TTOS_INVALID_ADDRESS, None)
  | Some buf =>
      ok ← get_msgq_object q;
      if negb ok then mret (TTOS_INVALID_ID, Some buf)
      else
        m ← get_msgq q;
        buf' ← lift (ttosCopyName (objName m) buf);
        _ ← unlock;
        mret (TTOS_OK, Some buf')
  end.

(** [ttosGetIdByName] and its walk over the queues in use. *)
Fixpoint find_msgq_name (name : list byte) (ids : list mqid) : M mworld (option mqid) :=
  match ids with
  | [] => mret None
  | id :: ids =>
      m ← get_msgq id;
      same ← lift (ttosCompareName name (objName m));
      if (same : bool) then mret (Some id) else find_msgq_name name ids
  end.

Definition msgq_id_by_name (name : list byte) : M mworld (option mqid) :=
  _ ← lock;
  ids ← gets inUsedResource;
  r ← find_msgq_name name ids;
  _ ← unlock;
  mret r.

Definition TTOS_GetMsgqID (msgqName : option (list byte)) (msgqID : bool) : M mworld (retcode * option mqid) :=
  match msgqName with
  | None => mret (TTOS_INVALID_ADDRESS, None)
  | Some name =>
      if negb msgqID then mret (TTOS_INVALID_ADDRESS, None)
      else
        r ← msgq_id_by_name name;
        match r with
        | None => mret (TTOS_INVALID_NAME, None)
        | Some id => mret (TTOS_OK, Some id)
        end
  end.

(** [ttosGetIdList]: the identifiers the loop stores, at most [areaSize]. *)
Definition msgq_id_list (areaSize : nat) : M mworld (list mqid) :=
  _ ← lock;
  ids ← gets inUsedResource;
  _ ← unlock;
  mret (take areaSize ids).

(** The count and the identifiers stored at [msgqArea]. *)
Definition TTOS_GetMsgqClassInfo (msgqCount msgqArea : bool) (msgqAreaSize : nat) : M mworld (retcode * list mqid) :=
  if negb msgqCount || negb msgqArea then mret (TTOS_INVALID_ADDRESS, [])
  else ids ← msgq_id_list msgqAreaSize; mret (TTOS_OK, ids).
