(* ===== verification/MsgqInv.v ===== *)
(** * Lemmas for the message queues

    Copying, the order in which the pending messages are delivered and how the
    priority bitmap finds the first, the invariant of a queue ([mq_ok]) and the
    parts of the operations. *)

From S2P Require Import Prelude Chain PrioMap DeltaQ Kernel Sched Frame SchedInv Dispatch SchedProps Service Wait WaitInv Block Names Sema SemaInv Msgq.
From Stdlib Require Import Init.Byte.
Import Width.
Local Open Scope Z_scope.

(** ** Memory *)

(** The [n] bytes at [a], and memory with bytes written at [a]. *)
Fixpoint load (n : nat) (a : Z) (m : gmap Z byte) : option (list byte) :=
  match n with
  | O => Some []
  | S n => b ← m !! a; bs ← load n (a + 1) m; Some (b :: bs)
  end.

Fixpoint store (a : Z) (bs : list byte) (m : gmap Z byte) : gmap Z byte :=
  match bs with
  | [] => m
  | b :: bs => store (a + 1) bs (<[a := b]> m)
  end.

Definition mapped (m : gmap Z byte) (a n : Z) : Prop := ∀ i, a ≤ i < a + n → is_Some (m !! i).

(** Two ranges with no address in common. *)
Definition apart (a n b k : Z) : Prop := a + n ≤ b ∨ b + k ≤ a.

Lemma store_lookup bs : ∀ a m i, store a bs m !! i =
  if decide (a ≤ i < a + Z.of_nat (length bs)) then bs !! Z.to_nat (i - a) else m !! i.
Proof.
  induction bs as [|b bs IH]; intros a m i; cbn [store length].
  - rewrite decide_False by lia. done.
  - rewrite IH. destruct (decide (i = a)) as [->|Hne].
    + rewrite decide_False, decide_True by lia. replace (a - a) with 0 by lia. simpl. apply lookup_insert_eq.
    + rewrite lookup_insert_ne by done. destruct (decide (a ≤ i < a + Z.of_nat (S (length bs)))).
      * rewrite decide_True by lia. replace (Z.to_nat (i - a)) with (S (Z.to_nat (i - (a + 1)))) by lia. done.
      * by rewrite decide_False by lia.
Qed.

Lemma store_ne a bs m i : ¬ a ≤ i < a + Z.of_nat (length bs) → store a bs m !! i = m !! i.
Proof. intros. rewrite store_lookup. by rewrite decide_False. Qed.

Lemma store_mapped a bs m b n : mapped m b n → mapped (store a bs m) b n.
Proof.
  intros Hm i Hi. rewrite store_lookup. case_decide; [|by apply Hm]. apply lookup_lt_is_Some. lia.
Qed.

Lemma load_ext n : ∀ a m m', (∀ i, a ≤ i < a + Z.of_nat n → m !! i = m' !! i) → load n a m = load n a m'.
Proof.
  induction n as [|n IH]; intros a m m' E; [done|]. cbn [load]. rewrite (E a) by lia.
  rewrite (IH (a + 1) m m'); [done|]. intros i Hi. apply E. lia.
Qed.

Lemma load_mapped n : ∀ a m, mapped m a (Z.of_nat n) → ∃ bs, load n a m = Some bs ∧ length bs = n.
Proof.
  induction n as [|n IH]; intros a m Hm; [by exists []|]. cbn [load].
  destruct (Hm a) as [b Hb]; [lia|]. destruct (IH (a + 1) m) as (bs & Hbs & Hl); [intros i Hi; apply Hm; lia|].
  rewrite Hb, Hbs. exists (b :: bs). simpl. by rewrite Hl.
Qed.

Lemma load_length n : ∀ a m bs, load n a m = Some bs → length bs = n.
Proof.
  induction n as [|n IH]; intros a m bs; cbn [load]; [by intros [= <-]|]. intros Hl.
  destruct (m !! a); [|done]. destruct (load n (a + 1) m) as [bs'|] eqn:E; [|done]. injection Hl as <-.
  simpl. f_equal. by eapply IH.
Qed.

Lemma load_store_same a bs m : load (length bs) a (store a bs m) = Some bs.
Proof.
  revert a m. induction bs as [|b bs IH]; intros a m; [done|]. cbn [load length store].
  rewrite store_ne, lookup_insert_eq by lia. simpl. by rewrite IH.
Qed.

Lemma load_store_apart n a b bs m : apart a (Z.of_nat n) b (Z.of_nat (length bs)) →
  load n a (store b bs m) = load n a m.
Proof. intros Ha. apply load_ext. intros i Hi. apply store_ne. unfold apart in Ha. lia. Qed.

(** *** [ttosCopyString] *)

(** Both loops, when source and destination are apart, write the loaded bytes. *)
Lemma copy_bytes_run n : ∀ dest src m bs, load n src m = Some bs → mapped m dest (Z.of_nat n) →
  apart dest (Z.of_nat n) src (Z.of_nat n) → copy_bytes n dest src m = Some (store dest bs m).
Proof.
  induction n as [|n IH]; intros dest src m bs; cbn [load copy_bytes]; [by intros [= <-]|]. intros Hl Hm Ha.
  destruct (m !! src) as [b|]; [|done]. destruct (load n (src + 1) m) as [bs'|] eqn:E; [|done].
  injection Hl as <-. destruct (Hm dest) as [d Hd]; [lia|]. simpl. rewrite Hd. simpl.
  apply IH.
  - rewrite <- E. apply load_ext. intros i Hi. apply lookup_insert_ne. unfold apart in Ha. lia.
  - intros i Hi. rewrite lookup_insert_is_Some. destruct (decide (dest = i)); [by left|right]. split; [done|]. apply Hm. lia.
  - unfold apart in *. lia.
Qed.

Lemma load_app n k : ∀ a m bs, load (n + k) a m = Some bs →
  ∃ bs1 bs2, bs = bs1 ++ bs2 ∧ load n a m = Some bs1 ∧ load k (a + Z.of_nat n) m = Some bs2.
Proof.
  induction n as [|n IH]; intros a m bs; cbn [load Nat.add].
  - intros Hl. exists [], bs. split_and!; [done..|]. by replace (a + Z.of_nat 0) with a by lia.
  - intros Hl. destruct (m !! a) as [b|]; [|done]. destruct (load (n + k) (a + 1) m) as [bs'|] eqn:E; [|done].
    injection Hl as <-. destruct (IH _ _ _ E) as (bs1 & bs2 & -> & H1 & H2). exists (b :: bs1), bs2.
    rewrite H1. split_and!; [done..|]. by replace (a + Z.of_nat (S n)) with (a + 1 + Z.of_nat n) by lia.
Qed.

Lemma store_app a bs1 bs2 m : store a (bs1 ++ bs2) m = store (a + Z.of_nat (length bs1)) bs2 (store a bs1 m).
Proof.
  revert a m. induction bs1 as [|b bs1 IH]; intros a m; cbn [store app length].
  - by replace (a + Z.of_nat 0) with a by lia.
  - rewrite IH. by replace (a + 1 + Z.of_nat (length bs1)) with (a + Z.of_nat (S (length bs1))) by lia.
Qed.

Lemma copy_words_run n : ∀ dest src m bs, load (4 * n) src m = Some bs → mapped m dest (4 * Z.of_nat n) →
  apart dest (4 * Z.of_nat n) src (4 * Z.of_nat n) → copy_words n dest src m = Some (store dest bs m).
Proof.
  induction n as [|n IH]; intros dest src m bs; [by intros [= <-]|]. intros Hl Hm Ha.
  replace (4 * S n)%nat with (4 + 4 * n)%nat in Hl by lia.
  destruct (load_app 4 (4 * n) _ _ _ Hl) as (ws & bs' & -> & Hws & Hbs).
  pose proof (load_length _ _ _ _ Hws) as Hlen. destruct ws as [|b0 [|b1 [|b2 [|b3 [|]]]]]; try done.
  assert (Hat : ∀ i b, [b0; b1; b2; b3] !! i = Some b → m !! (src + Z.of_nat i) = Some b).
  { cbn [load] in Hws. replace (src + 1 + 1 + 1) with (src + 3) in Hws by lia.
    replace (src + 1 + 1) with (src + 2) in Hws by lia.
    destruct (m !! src) as [c0|] eqn:E0; [|done]. destruct (m !! (src + 1)) as [c1|] eqn:E1; [|done].
    destruct (m !! (src + 2)) as [c2|] eqn:E2; [|done]. destruct (m !! (src + 3)) as [c3|] eqn:E3; [|done].
    injection Hws as -> -> -> ->. intros [|[|[|[|i]]]] b; simpl; try done; intros [= <-]; [|done..].
    by replace (src + Z.of_nat 0) with src by lia. }
  assert (Hd : ∀ i, 0 ≤ i < 4 → ∃ d, m !! (dest + i) = Some d) by (intros i Hi; apply Hm; lia).
  cbn [copy_words]. pose proof (Hat 0%nat b0 eq_refl) as H0. replace (src + Z.of_nat 0) with src in H0 by lia.
  pose proof (Hat 1%nat b1 eq_refl) as H1. pose proof (Hat 2%nat b2 eq_refl) as H2.
  pose proof (Hat 3%nat b3 eq_refl) as H3. change (Z.of_nat 1) with 1 in H1.
  change (Z.of_nat 2) with 2 in H2. change (Z.of_nat 3) with 3 in H3. rewrite H0, H1, H2, H3. simpl.
  destruct (Hd 0 ltac:(lia)) as [d0 E0], (Hd 1 ltac:(lia)) as [d1 E1], (Hd 2 ltac:(lia)) as [d2 E2], (Hd 3 ltac:(lia)) as [d3 E3].
  replace (dest + 0) with dest in E0 by lia. rewrite E0, E1, E2, E3. simpl.
  assert (Es : <[dest + 3 := b3]> (<[dest + 2 := b2]> (<[dest + 1 := b1]> (<[dest := b0]> m))) = store dest [b0; b1; b2; b3] m).
  { cbn [store]. replace (dest + 1 + 1 + 1) with (dest + 3) by lia. by replace (dest + 1 + 1) with (dest + 2) by lia. }
  rewrite Es, (IH (dest + 4) (src + 4) _ bs'); [f_equal; symmetry; exact (store_app dest [b0; b1; b2; b3] bs' m)|..].
  - rewrite <- Hbs. apply load_store_apart. unfold apart in *. simpl. lia.
  - apply store_mapped. intros i Hi. apply Hm. lia.
  - unfold apart in *. lia.
Qed.

(** [ttosCopyString] copies as many bytes as it is told, whether it goes by words
    (both addresses aligned) or by bytes: on ranges that are mapped and apart it
    does not fault, the destination holds the bytes of the source, and no other
    byte changes. *)
Lemma copy_string_run dest src n m bs : 0 ≤ n → load (Z.to_nat n) src m = Some bs →
  mapped m dest n → apart dest n src n → ttosCopyString dest src n m = Some (store dest bs m).
Proof.
  intros Hn Hl Hm Ha. unfold ttosCopyString. destruct (_ && _).
  - pose proof (Z.div_mod n 4 ltac:(lia)) as Hdm. pose proof (Z.mod_pos_bound n 4 ltac:(lia)) as Hr.
    pose proof (Z.div_pos n 4 Hn ltac:(lia)) as Hq.
    replace (Z.to_nat n) with (4 * Z.to_nat (n / 4) + Z.to_nat (n mod 4))%nat in Hl by lia.
    destruct (load_app _ _ _ _ _ Hl) as (b1 & b2 & -> & H1 & H2).
    pose proof (load_length _ _ _ _ H1) as L1.
    rewrite (copy_words_run _ dest src m b1); [|done|intros i Hi; apply Hm; lia|unfold apart in *; lia]. simpl.
    replace (Z.of_nat (4 * Z.to_nat (n / 4))) with (4 * (n / 4)) in H2 by lia.
    rewrite (copy_bytes_run _ _ _ _ b2).
    + rewrite store_app, L1. by replace (Z.of_nat (4 * Z.to_nat (n / 4))) with (4 * (n / 4)) by lia.
    + rewrite <- H2. apply load_store_apart. rewrite L1. unfold apart in *. lia.
    + apply store_mapped. intros i Hi. apply Hm. lia.
    + unfold apart in *. lia.
  - apply copy_bytes_run; [done|by replace (Z.of_nat (Z.to_nat n)) with n by lia..].
Qed.

(** ** The order of delivery *)

Definition pend (q : mqid) (p : Z) (L : gmap (mqid * mhead) (list Z)) : list Z := c_get (q, PendingMsgQueue p) L.
Definition pends (q : mqid) (first n : Z) (L : gmap (mqid * mhead) (list Z)) : list Z :=
  concat ((λ p, pend q p L) <$> seqZ first n).

(** The pending blocks, the first to be delivered first. *)
Definition order (q : mqid) (L : gmap (mqid * mhead) (list Z)) : list Z := pends q 0 TTOS_MSGQ_PRIORITY_NUMBER L.
Definition unused (q : mqid) (L : gmap (mqid * mhead) (list Z)) : list Z := c_get (q, InactiveMsgQueue) L.

(** The bitmap has a bit for each priority with a message. *)
Record bits_ok (bm : Z) (q : mqid) (L : gmap (mqid * mhead) (list Z)) : Prop := {
  bo_range : 0 ≤ bm < 2 ^ 32;
  bo_bit : ∀ p, 0 ≤ p < 32 → topbit bm p = bool_decide (pend q p L ≠ []);
}.

Lemma seqZ_one x : seqZ x 1 = [x].
Proof.
  rewrite seqZ_cons by lia.
  done.
Qed.

Lemma order_split q p L : 0 ≤ p < 32 →
  order q L = pends q 0 p L ++ pend q p L ++ pends q (p + 1) (31 - p) L.
Proof.
  intros Hp. unfold order, pends, TTOS_MSGQ_PRIORITY_NUMBER. replace 32 with (p + (1 + (31 - p))) by lia.
  rewrite !seqZ_app by lia. rewrite seqZ_one, !fmap_app, !concat_app. simpl. by rewrite app_nil_r.
Qed.

Lemma pends_ext q i n L L' : (∀ p, i ≤ p < i + n → pend q p L' = pend q p L) → pends q i n L' = pends q i n L.
Proof.
  intros E. unfold pends. f_equal. apply list_fmap_ext. intros k p Hk. apply E.
  apply list_elem_of_lookup_2, elem_of_seqZ in Hk. lia.
Qed.

Lemma elem_of_pends q i n L a : a ∈ pends q i n L ↔ ∃ p, i ≤ p < i + n ∧ a ∈ pend q p L.
Proof.
  unfold pends. rewrite list_elem_of_In, in_concat. split.
  - intros (l & Hl & Ha). apply list_elem_of_In, list_elem_of_fmap in Hl as (p & -> & Hp%elem_of_seqZ).
    exists p. split; [lia|]. by apply list_elem_of_In.
  - intros (p & Hp & Ha). exists (pend q p L). split; [|by apply list_elem_of_In].
    apply list_elem_of_In, list_elem_of_fmap. exists p. split; [done|]. apply elem_of_seqZ. lia.
Qed.

Lemma order_ext q L L' : (∀ p, 0 ≤ p < 32 → pend q p L' = pend q p L) → order q L' = order q L.
Proof. intros E. unfold order, TTOS_MSGQ_PRIORITY_NUMBER. apply pends_ext. intros. apply E. lia. Qed.

Lemma elem_of_order q L a : a ∈ order q L ↔ ∃ p, 0 ≤ p < 32 ∧ a ∈ pend q p L.
Proof. unfold order, TTOS_MSGQ_PRIORITY_NUMBER. rewrite elem_of_pends. done. Qed.

Lemma pends_snoc q p L : 0 ≤ p → pends q 0 (p + 1) L = pends q 0 p L ++ pend q p L.
Proof.
  intros Hp. unfold pends. rewrite seqZ_app, fmap_app, concat_app, seqZ_one by lia. simpl. by rewrite app_nil_r.
Qed.

(** Putting a block at the end of the messages of its priority. *)
Lemma order_add q p a L : 0 ≤ p < 32 →
  order q (c_add_tail a (q, PendingMsgQueue p) L) = pends q 0 (p + 1) L ++ a :: pends q (p + 1) (31 - p) L.
Proof.
  intros Hp. rewrite (order_split q p) by done.
  assert (Hne : ∀ p', p' ≠ p → pend q p' (c_add_tail a (q, PendingMsgQueue p) L) = pend q p' L).
  { intros p' Hp'. unfold pend, c_add_tail. apply c_get_set_ne. congruence. }
  rewrite (pends_ext q 0 p L), (pends_ext q (p + 1) (31 - p) L) by (intros; apply Hne; lia).
  assert (Heq : pend q p (c_add_tail a (q, PendingMsgQueue p) L) = pend q p L ++ [a]) by apply c_get_set_eq.
  rewrite Heq, pends_snoc, <- !app_assoc by lia. done.
Qed.

Lemma unused_add q p a L : unused q (c_add_tail a (q, PendingMsgQueue p) L) = unused q L.
Proof. unfold unused, c_add_tail. by apply c_get_set_ne. Qed.

Lemma bits_add bm q p a L : bits_ok bm q L → 0 ≤ p < 32 →
  bits_ok (TTOS_MSGQ_SET_PRIORITYBITMAP bm p) q (c_add_tail a (q, PendingMsgQueue p) L).
Proof.
  intros [Hr Hb] Hp. unfold TTOS_MSGQ_SET_PRIORITYBITMAP. split.
  - apply word_lor_range; [done|by apply topbit_range].
  - intros p' Hp'. rewrite topbit_lor, topbit_shiftr_top, Hb by done. unfold pend, c_add_tail. rewrite c_get_set.
    case_decide as E; [injection E as ->; rewrite (bool_decide_true (p' = p')), orb_true_r by done|].
    + symmetry. apply bool_decide_true. by destruct (c_get _ L).
    + rewrite (bool_decide_false (p = p')), orb_false_r by congruence. done.
Qed.

(** The bitmap leads to the first block. *)
Lemma first_pending bm q L : bits_ok bm q L → order q L ≠ [] →
  let p := zero_num_of_word_get bm in
  0 ≤ p < 32 ∧ ∃ a xs, pend q p L = a :: xs ∧ order q L = a :: xs ++ pends q (p + 1) (31 - p) L.
Proof.
  intros [Hr Hb] Hne. assert (Hbm : bm ≠ 0).
  { intros ->. apply Hne. destruct (order q L) as [|a l] eqn:E; [done|].
    assert (Ha : a ∈ order q L) by (rewrite E; left). apply elem_of_order in Ha as (p & Hp & Ha).
    specialize (Hb p ltac:(lia)). unfold topbit in Hb. rewrite Z.bits_0 in Hb.
    symmetry in Hb. apply bool_decide_eq_false in Hb. apply dec_stable in Hb. rewrite Hb in Ha. by apply elem_of_nil in Ha. }
  destruct (clz_spec bm) as (Hp & Ht & Hlow); [lia|]. set (p := zero_num_of_word_get bm) in *. cbn zeta. split; [done|].
  rewrite Hb in Ht by done. apply bool_decide_eq_true in Ht. destruct (pend q p L) as [|a xs] eqn:E; [done|].
  exists a, xs. split; [done|]. rewrite (order_split q p), E by done.
  assert (Eb : pends q 0 p L = []); [|by rewrite Eb].
  destruct (pends q 0 p L) as [|b l] eqn:E0; [done|]. assert (Hbl : b ∈ pends q 0 p L) by (rewrite E0; left).
  apply elem_of_pends in Hbl as (p' & Hp' & Hin). specialize (Hlow p' ltac:(lia)). rewrite Hb in Hlow by lia.
  apply bool_decide_eq_false, dec_stable in Hlow. rewrite Hlow in Hin. by apply elem_of_nil in Hin.
Qed.

(** Taking it. *)
Lemma pend_delete q p a xs L : c_wf L → pend q p L = a :: xs →
  pend q p (c_delete a L) = xs ∧ (∀ p', p' ≠ p → pend q p' (c_delete a L) = pend q p' L) ∧
  unused q (c_delete a L) = unused q L.
Proof.
  intros Hwf E. assert (Ha : a ∈ pend q p L) by (rewrite E; left). unfold pend, unused in *.
  assert (Hout : ∀ h, h ≠ (q, PendingMsgQueue p) → c_get h (c_delete a L) = c_get h L).
  { intros h Hh. apply c_get_delete_fresh. intros Hin. apply Hh. by eapply (c_disj _ Hwf). }
  split_and!.
  - rewrite c_get_delete, E. rewrite filter_cons_False by (by intros []). apply filter_ne_fresh.
    pose proof (c_nodup _ Hwf (q, PendingMsgQueue p)) as Hnd. rewrite E in Hnd. by apply NoDup_cons in Hnd as [? _].
  - intros p' Hp'. apply Hout. congruence.
  - by apply Hout.
Qed.

Lemma order_delete q p a xs L : c_wf L → 0 ≤ p < 32 → pend q p L = a :: xs →
  order q L = a :: xs ++ pends q (p + 1) (31 - p) L →
  order q (c_delete a L) = xs ++ pends q (p + 1) (31 - p) L.
Proof.
  intros Hwf Hp E Eo. destruct (pend_delete q p a xs L Hwf E) as (E1 & E2 & _).
  rewrite (order_split q p) in Eo |- * by done. 
  rewrite E1, (pends_ext q 0 p L), (pends_ext q (p + 1) (31 - p) L) by (intros; apply E2; lia).
  assert (Eb : pends q 0 p L = []); [|by rewrite Eb]. rewrite E, (app_assoc _ (a :: xs)) in Eo.
  change (a :: xs ++ ?l) with ((a :: xs) ++ l) in Eo. apply app_inv_tail in Eo.
  apply (f_equal length) in Eo. rewrite length_app in Eo. apply nil_length_inv. lia.
Qed.

Lemma bits_delete bm q p a xs L : c_wf L → bits_ok bm q L → 0 ≤ p < 32 → pend q p L = a :: xs →
  bits_ok (if c_is_empty (q, PendingMsgQueue p) (c_delete a L)
           then TTOS_MSGQ_CLEAR_PRIORITYBITMAP bm p else bm) q (c_delete a L).
Proof.
  intros Hwf [Hr Hb] Hp E. destruct (pend_delete q p a xs L Hwf E) as (E1 & E2 & _).
  assert (Hbit : ∀ p', 0 ≤ p' < 32 → p' ≠ p → topbit bm p' = bool_decide (pend q p' (c_delete a L) ≠ [])).
  { intros p' ? ?. by rewrite E2, Hb. }
  destruct (c_is_empty _ _) eqn:Ee.
  - apply c_is_empty_spec in Ee. unfold TTOS_MSGQ_CLEAR_PRIORITYBITMAP. split.
    + apply word_land_range; [done|]. apply Z.mod_pos_bound. lia.
    + intros p' Hp'. rewrite topbit_land_not, topbit_shiftr_top by done. destruct (decide (p' = p)) as [->|Hne].
      * rewrite (bool_decide_true (p = p)), andb_false_r by done. symmetry. apply bool_decide_false.
        change (¬ (pend q p (c_delete a L) ≠ [])). unfold pend. rewrite Ee. by intros [].
      * rewrite bool_decide_false, andb_true_r by congruence. by apply Hbit.
  - split; [done|]. intros p' Hp'. destruct (decide (p' = p)) as [->|Hne]; [|by apply Hbit].
    rewrite Hb, E by done. rewrite !bool_decide_true; [done| |done]. intros Hn.
    unfold pend in Hn. apply c_is_empty_spec in Hn. congruence.
Qed.

(** ** The invariant of a queue *)

(** A message: its priority and its bytes. *)
Abbreviation message := (Z * list byte)%type.

(** A queue of messages by priority, and by age within a priority. *)
Definition pq_insert (x : message) (C : list message) : list message :=
  filter (λ y, y.1 ≤ x.1) C ++ x :: filter (λ y, ¬ y.1 ≤ x.1) C.

(** The message blocks of a queue. *)
Definition blocks (m : msgq) : list Z :=
  (λ i, msgBuffers m + block_size (maxMsgSize m) * i) <$> seqZ 0 (maxPendingMsg m).

(** A block on no list is in the hands of a call: of a sender that is filling it, or
    of a receiver that reads the message [x] from it. *)
Inductive flight := Filling (p : Z) | Taken (x : message).

Record holds (n : Z) (H : gmap Z msgbuf) (M : gmap Z byte) (a : Z) (x : message) : Prop := {
  ho_header : H !! a = Some (MsgBuf (Z.of_nat (length x.2)) x.1);
  ho_bytes : load (length x.2) (a + BUFFER_OFFSET) M = Some x.2;
  ho_pri : 0 ≤ x.1 < 32;
  ho_size : 0 < Z.of_nat (length x.2) ≤ n;
}.

Definition flight_ok (n : Z) (H : gmap Z msgbuf) (M : gmap Z byte) (a : Z) (f : flight) : Prop :=
  match f with
  | Filling p => 0 ≤ p < 32 ∧ ∃ hd, H !! a = Some hd ∧ priority hd = p
  | Taken x => holds n H M a x
  end.

(** The lists, the blocks and their contents: every block of the queue is pending,
    unused or in the hands of one call ([F]); [C] are the pending messages in the
    order of delivery. *)
Record mq_body (q : mqid) (m : msgq) (F : list (Z * flight)) (C : list message)
    (L : gmap (mqid * mhead) (list Z)) (H : gmap Z msgbuf) (M : gmap Z byte) : Prop := {
  mb_size : 0 < maxMsgSize m;
  mb_room : BUFFER_OFFSET + maxMsgSize m ≤ block_size (maxMsgSize m);
  mb_max : 0 < maxPendingMsg m < 2 ^ 32;
  mb_lists : c_wf L;
  mb_bits : bits_ok (msgPriorityBitMap m) q L;
  mb_count : pendingCount m = Z.of_nat (length (order q L));
  mb_blocks : order q L ++ unused q L ++ F.*1 ≡ₚ blocks m;
  mb_free : ∀ a, a ∈ F.*1 → c_linked a L = false;
  mb_mem : ∀ a, a ∈ blocks m → is_Some (H !! a) ∧ mapped M (a + BUFFER_OFFSET) (maxMsgSize m);
  mb_pri : ∀ p a, 0 ≤ p < 32 → a ∈ pend q p L → ∃ hd, H !! a = Some hd ∧ priority hd = p;
  mb_contents : Forall2 (holds (maxMsgSize m) H M) (order q L) C;
  mb_flight : Forall (λ f, flight_ok (maxMsgSize m) H M f.1 f.2) F;
}.

(** *** Geometry *)

Lemma block_size_range n : 0 ≤ block_size n < 2 ^ 32.
Proof. unfold block_size. apply word_land_range; apply Z.mod_pos_bound; lia. Qed.

Lemma blocks_apart m a b : BUFFER_OFFSET + maxMsgSize m ≤ block_size (maxMsgSize m) → 0 < maxMsgSize m →
  a ∈ blocks m → b ∈ blocks m → a ≠ b →
  apart (a + BUFFER_OFFSET) (maxMsgSize m) (b + BUFFER_OFFSET) (maxMsgSize m).
Proof.
  intros Hr Hs Ha Hb Hne. unfold blocks in *. apply list_elem_of_fmap in Ha as (i & -> & Hi%elem_of_seqZ).
  apply list_elem_of_fmap in Hb as (j & -> & Hj%elem_of_seqZ). unfold apart, BUFFER_OFFSET in *.
  assert (Hij : i ≠ j) by (by intros ->). destruct (decide (i < j)); [left|right]; nia.
Qed.

Lemma blocks_nodup m : 0 < block_size (maxMsgSize m) → NoDup (blocks m).
Proof.
  intros Hb. unfold blocks. apply NoDup_fmap_2_strong; [|apply NoDup_seqZ]. intros i j _ _ E. nia.
Qed.

Lemma Forall2_impl_elem {A B} (P Q : A → B → Prop) l k :
  Forall2 P l k → (∀ x y, x ∈ l → P x y → Q x y) → Forall2 Q l k.
Proof.
  induction 1 as [|x y l k Hp _ IH]; intros HI; constructor.
  - apply HI; [left|done].
  - apply IH. intros x' y' Hx. apply HI. by right.
Qed.

Lemma pq_insert_split x C1 C2 : Forall (λ y, y.1 ≤ x.1) C1 → Forall (λ y, ¬ y.1 ≤ x.1) C2 →
  pq_insert x (C1 ++ C2) = C1 ++ x :: C2.
Proof.
  intros H1 H2. unfold pq_insert. rewrite !filter_app, (filter_all _ C1), (filter_none _ C2), (filter_all _ C2) by done.
  rewrite (filter_none (λ y, ¬ y.1 ≤ x.1) C1), app_nil_r; [done|]. eapply Forall_impl; [exact H1|]. simpl. lia.
Qed.

Section Body.
Context (q : mqid) (m : msgq) (L : gmap (mqid * mhead) (list Z)) (H : gmap Z msgbuf) (M : gmap Z byte).

Lemma body_nodup F C : mq_body q m F C L H M → NoDup (order q L ++ unused q L ++ F.*1).
Proof.
  intros B. rewrite (mb_blocks _ _ _ _ _ _ _ B). apply blocks_nodup. pose proof (mb_room _ _ _ _ _ _ _ B).
  pose proof (mb_size _ _ _ _ _ _ _ B). unfold BUFFER_OFFSET in *. lia.
Qed.

Lemma body_length F C : mq_body q m F C L H M →
  (length (order q L) + length (unused q L) + length F = Z.to_nat (maxPendingMsg m))%nat.
Proof.
  intros B. pose proof (Permutation_length (mb_blocks _ _ _ _ _ _ _ B)) as E.
  unfold blocks in E. rewrite !length_app, !length_fmap, length_seqZ in E. lia.
Qed.

(** Which blocks are in the queue. *)
Lemma body_in F C a : mq_body q m F C L H M → a ∈ blocks m ↔ a ∈ order q L ∨ a ∈ unused q L ∨ a ∈ F.*1.
Proof. intros B. rewrite <- (mb_blocks _ _ _ _ _ _ _ B), !elem_of_app. done. Qed.

(** A message stays where it is when memory outside its block changes. *)
Lemma holds_store a x b bs : holds (maxMsgSize m) H M a x →
  apart (a + BUFFER_OFFSET) (maxMsgSize m) b (Z.of_nat (length bs)) → holds (maxMsgSize m) H (store b bs M) a x.
Proof.
  intros [Hh Hl Hp Hs] Ha. split; try done. rewrite <- Hl. apply load_store_apart. unfold apart in *. lia.
Qed.

Lemma flight_store a f b bs : flight_ok (maxMsgSize m) H M a f →
  apart (a + BUFFER_OFFSET) (maxMsgSize m) b (Z.of_nat (length bs)) → flight_ok (maxMsgSize m) H (store b bs M) a f.
Proof. destruct f as [p|x]; simpl; [done|]. apply holds_store. Qed.

(** Writing outside the blocks. *)
Lemma body_store F C b bs : mq_body q m F C L H M →
  (∀ a, a ∈ blocks m → apart (a + BUFFER_OFFSET) (maxMsgSize m) b (Z.of_nat (length bs))) →
  mq_body q m F C L H (store b bs M).
Proof.
  intros B Ha. pose proof (λ a, proj2 (body_in F C a B)) as Hin. destruct B. split; try done.
  - intros a Hab. destruct (mb_mem0 a Hab). split; [done|]. by apply store_mapped.
  - eapply Forall2_impl_elem; [exact mb_contents0|]. intros a x Hao Hh. apply holds_store; [done|].
    apply Ha, Hin. by left.
  - apply Forall_forall. intros [a f] Hf. rewrite Forall_forall in mb_flight0.
    apply flight_store; [by apply (mb_flight0 (a, f))|]. apply Ha, Hin. right. right.
    apply list_elem_of_fmap. by exists (a, f).
Qed.

(** A block in the hands of a call is filled with a message. *)
Lemma body_fill a f F C x : mq_body q m ((a, f) :: F) C L H M → 0 ≤ x.1 < 32 →
  0 < Z.of_nat (length x.2) ≤ maxMsgSize m →
  mq_body q m ((a, Taken x) :: F) C L (<[a := MsgBuf (Z.of_nat (length x.2)) x.1]> H) (store (a + BUFFER_OFFSET) x.2 M).
Proof.
  intros B Hp Hs. pose proof (λ b, proj2 (body_in _ C b B)) as Hin. pose proof (body_nodup _ _ B) as Hnd.
  apply NoDup_app in Hnd as (_ & Hno & Hnd). apply NoDup_app in Hnd as (_ & _ & Hnd). simpl in Hnd.
  apply NoDup_cons in Hnd as [Haf _].
  assert (Hao : a ∉ order q L) by (intros Ho; apply (Hno a Ho), elem_of_app; right; left).
  assert (Hab : a ∈ blocks m) by (apply Hin; right; right; left). destruct B.
  assert (Hap : ∀ b, b ≠ a → b ∈ blocks m →
    apart (b + BUFFER_OFFSET) (maxMsgSize m) (a + BUFFER_OFFSET) (Z.of_nat (length x.2))).
  { intros b Hne Hb. pose proof (blocks_apart m b a mb_room0 mb_size0 Hb Hab Hne). unfold apart in *. lia. }
  assert (Hh : ∀ b y, b ≠ a → b ∈ blocks m → holds (maxMsgSize m) H M b y →
    holds (maxMsgSize m) (<[a := MsgBuf (Z.of_nat (length x.2)) x.1]> H) (store (a + BUFFER_OFFSET) x.2 M) b y).
  { intros b y Hne Hb Hy. destruct (holds_store b y (a + BUFFER_OFFSET) x.2 Hy) as [h1 h2 h3 h4]; [by apply Hap|].
    split; try done. by rewrite lookup_insert_ne by done. }
  split; try done.
  - intros b Hb. destruct (mb_mem0 b Hb). split; [|by apply store_mapped]. rewrite lookup_insert_is_Some.
    destruct (decide (a = b)); [by left|by right].
  - intros p b Hpb Hb. rewrite lookup_insert_ne; [by apply mb_pri0|]. intros <-. apply Hao.
    apply elem_of_order. by exists p.
  - eapply Forall2_impl_elem; [exact mb_contents0|]. intros b y Hb. apply Hh; [by intros ->|]. apply Hin. by left.
  - apply Forall_cons in mb_flight0 as [_ Hfl]. constructor.
    + split; [apply lookup_insert_eq|apply load_store_same|done..].
    + apply Forall_forall. intros [b g] Hbg. rewrite Forall_forall in Hfl. specialize (Hfl _ Hbg). simpl in *.
      assert (HbF : b ∈ F.*1) by (apply list_elem_of_fmap; by exists (b, g)). assert (Hne : b ≠ a) by (by intros ->).
      destruct g as [p|y]; simpl in *; [by rewrite lookup_insert_ne by done|]. apply Hh; [done| |done].
      apply Hin. right. right. by right.
Qed.

(** A block in the hands of a call goes back to the unused ones. *)
Lemma body_release a f F C : mq_body q m ((a, f) :: F) C L H M →
  mq_body q m F C (c_add_tail a (q, InactiveMsgQueue) L) H M.
Proof.
  intros B. pose proof (body_nodup _ _ B) as Hnd. destruct B.
  set (L' := c_add_tail a (q, InactiveMsgQueue) L).
  assert (Ep : ∀ p, pend q p L' = pend q p L) by (intros p; unfold L', pend, c_add_tail; by apply c_get_set_ne).
  assert (Eo : order q L' = order q L) by (apply order_ext; intros; apply Ep).
  assert (Eu : unused q L' = unused q L ++ [a]) by apply c_get_set_eq.
  assert (Ha : c_linked a L = false) by (apply mb_free0; left).
  split; rewrite ?Eo; try done.
  - by apply c_wf_add_tail.
  - destruct mb_bits0 as [Hr Hb]. split; [done|]. intros p Hp. by rewrite Ep, Hb.
  - rewrite Eu. rewrite <- mb_blocks0. by rewrite <- !app_assoc.
  - intros b Hb. apply c_linked_false. intros h. unfold L', c_add_tail. rewrite c_get_set.
    assert (Hbl : c_linked b L = false) by (apply mb_free0; by right). rewrite c_linked_false in Hbl.
    case_decide; [|by apply Hbl]. rewrite elem_of_app, list_elem_of_singleton. intros [Hc| ->]; [by apply (Hbl _ Hc)|].
    apply NoDup_app in Hnd as (_ & _ & Hnd). apply NoDup_app in Hnd as (_ & _ & Hnd). simpl in Hnd.
    by apply NoDup_cons in Hnd as [? _].
  - intros p b Hp. rewrite Ep. by apply mb_pri0.
  - by apply Forall_cons in mb_flight0 as [_ ?].
Qed.

(** The first unused block goes into the hands of a sender. *)
Lemma body_alloc a rest hd F C p : mq_body q m F C L H M → unused q L = a :: rest → H !! a = Some hd → 0 ≤ p < 32 →
  mq_body q m ((a, Filling p) :: F) C (c_delete a L) (<[a := MsgBuf (size hd) p]> H) M.
Proof.
  intros B Eu Hhd Hp. pose proof (body_nodup _ _ B) as Hnd. rewrite Eu in Hnd.
  apply NoDup_app in Hnd as (_ & Hno & Hnd). simpl in Hnd. apply NoDup_cons in Hnd as [Har Hnd]. rewrite not_elem_of_app in Har.
  destruct Har as [Har HaF]. assert (Hao : a ∉ order q L) by (intros Ho; apply (Hno a Ho); left). destruct B.
  assert (Ep : ∀ p, 0 ≤ p < 32 → pend q p (c_delete a L) = pend q p L).
  { intros p' Hp'. apply c_get_delete_fresh. intros Hin. apply Hao, elem_of_order. by exists p'. }
  assert (Eo : order q (c_delete a L) = order q L) by (by apply order_ext).
  assert (Eu' : unused q (c_delete a L) = rest).
  { unfold unused in *. rewrite c_get_delete, Eu, filter_cons_False by (by intros []). by apply filter_ne_fresh. }
  assert (Hh : ∀ b y, b ≠ a → holds (maxMsgSize m) H M b y → holds (maxMsgSize m) (<[a := MsgBuf (size hd) p]> H) M b y).
  { intros b y Hne []. split; try done. by rewrite lookup_insert_ne by done. }
  split; rewrite ?Eo; try done.
  - by apply c_wf_delete.
  - destruct mb_bits0 as [Hr Hb]. split; [done|]. intros p' Hp'. by rewrite Ep, Hb.
  - rewrite Eu', <- mb_blocks0, Eu. simpl. by rewrite (Permutation_middle rest).
  - intros b. simpl. rewrite elem_of_cons. intros [->|Hb]; [apply c_linked_delete|].
    rewrite c_linked_delete_ne; [by apply mb_free0|]. by intros ->.
  - intros b Hb. destruct (mb_mem0 b Hb). split; [|done]. rewrite lookup_insert_is_Some.
    destruct (decide (a = b)); [by left|by right].
  - intros p' b Hp'. rewrite Ep by done. intros Hb. rewrite lookup_insert_ne; [by apply mb_pri0|]. intros <-.
    apply Hao, elem_of_order. by exists p'.
  - eapply Forall2_impl_elem; [exact mb_contents0|]. intros b y Hb. apply Hh. by intros ->.
  - constructor; [split; [done|]; exists (MsgBuf (size hd) p); split; [apply lookup_insert_eq|done]|].
    apply Forall_forall. intros [b g] Hbg. rewrite Forall_forall in mb_flight0. specialize (mb_flight0 _ Hbg). simpl in *.
    assert (Hne : b ≠ a) by (intros ->; apply HaF, list_elem_of_fmap; by exists (a, g)).
    destruct g as [p'|y]; simpl in *; [by rewrite lookup_insert_ne by done|by apply Hh].
Qed.

(** The messages of the priorities [i .. i + n - 1] have those priorities. *)
Lemma pends_pri F C0 i n C : mq_body q m F C0 L H M → 0 ≤ i → 0 ≤ n → i + n ≤ 32 →
  Forall2 (holds (maxMsgSize m) H M) (pends q i n L) C → Forall (λ y, i ≤ y.1 < i + n) C.
Proof.
  intros B Hi Hn Hin Hf. apply Forall_forall. intros y Hy. apply list_elem_of_lookup in Hy as [k Hk].
  destruct (Forall2_lookup_r _ _ _ _ _ Hf Hk) as (a & Ha & Hh).
  apply list_elem_of_lookup_2, elem_of_pends in Ha as (p & Hp & Ha).
  destruct (mb_pri _ _ _ _ _ _ _ B p a ltac:(lia) Ha) as (hd & Hhd & <-).
  pose proof (ho_header _ _ _ _ _ Hh) as E. rewrite Hhd in E. injection E as ->. simpl in *. lia.
Qed.

(** A filled block becomes pending. *)
Lemma body_insert a x F C : mq_body q m ((a, Taken x) :: F) C L H M →
  mq_body q (set_pending (u32 (pendingCount m + 1)) (TTOS_MSGQ_SET_PRIORITYBITMAP (msgPriorityBitMap m) x.1) m)
    F (pq_insert x C) (c_add_tail a (q, PendingMsgQueue x.1) L) H M.
Proof.
  intros B. pose proof (body_nodup _ _ B) as Hnd. pose proof (body_length _ _ B) as Hlen. simpl in Hlen.
  pose proof (mb_flight _ _ _ _ _ _ _ B) as [Hx Hfl]%Forall_cons. simpl in Hx.
  pose proof (ho_pri _ _ _ _ _ Hx) as Hp. set (p := x.1) in *.
  set (L' := c_add_tail a (q, PendingMsgQueue p) L).
  pose proof (order_add q p a L Hp) as Eo. fold L' in Eo. pose proof (unused_add q p a L) as Eu. fold L' in Eu.
  assert (Es : order q L = pends q 0 (p + 1) L ++ pends q (p + 1) (31 - p) L).
  { rewrite (order_split q p), pends_snoc, app_assoc by lia. done. }
  assert (Epo : order q L' ≡ₚ a :: order q L) by (rewrite Eo, Es; by rewrite Permutation_middle).
  assert (Ha : c_linked a L = false) by (apply (mb_free _ _ _ _ _ _ _ B); left).
  assert (HC : ∃ C1 C2, C = C1 ++ C2 ∧ Forall2 (holds (maxMsgSize m) H M) (pends q 0 (p + 1) L) C1 ∧
    Forall2 (holds (maxMsgSize m) H M) (pends q (p + 1) (31 - p) L) C2).
  { pose proof (mb_contents _ _ _ _ _ _ _ B) as Hf. rewrite Es in Hf.
    apply Forall2_app_inv_l in Hf as (C1 & C2 & ? & ? & ?). by exists C1, C2. }
  destruct HC as (C1 & C2 & EC & HC1 & HC2).
  pose proof (pends_pri _ _ 0 (p + 1) C1 B ltac:(lia) ltac:(lia) ltac:(lia) HC1) as P1.
  pose proof (pends_pri _ _ (p + 1) (31 - p) C2 B ltac:(lia) ltac:(lia) ltac:(lia) HC2) as P2.
  assert (Epq : pq_insert x C = C1 ++ x :: C2).
  { rewrite EC. apply pq_insert_split; [eapply Forall_impl; [exact P1|]|eapply Forall_impl; [exact P2|]];
      simpl; fold p; lia. }
  destruct B. split; simpl; try done.
  - by apply c_wf_add_tail.
  - by apply bits_add.
  - rewrite Epo, mb_count0. simpl. rewrite u32_small; lia.
  - rewrite Epo, Eu. rewrite <- mb_blocks0. simpl. rewrite (Permutation_middle (order q L)). f_equiv.
    by rewrite (Permutation_middle (unused q L)).
  - intros b Hb. apply c_linked_false. intros h. unfold L', c_add_tail. rewrite c_get_set.
    assert (Hbl : c_linked b L = false) by (apply mb_free0; by right). rewrite c_linked_false in Hbl.
    case_decide; [|by apply Hbl]. rewrite elem_of_app, list_elem_of_singleton. intros [Hc| ->]; [by apply (Hbl _ Hc)|].
    apply NoDup_app in Hnd as (_ & _ & Hnd). apply NoDup_app in Hnd as (_ & _ & Hnd). simpl in Hnd.
    by apply NoDup_cons in Hnd as [? _].
  - intros p' b Hp' Hb. unfold pend, L', c_add_tail in Hb. rewrite c_get_set in Hb. case_decide as E; [|by apply mb_pri0].
    injection E as <-. apply elem_of_app in Hb as [Hb|Hb]; [by apply mb_pri0|]. apply list_elem_of_singleton in Hb as ->.
    eexists. split; [apply (ho_header _ _ _ _ _ Hx)|done].
  - rewrite Epq, Eo. apply Forall2_app; [done|]. by constructor.
Qed.

(** The first pending message is taken. *)
Lemma body_take x F C : mq_body q m F (x :: C) L H M →
  pendingCount m ≠ 0 ∧ x.1 = zero_num_of_word_get (msgPriorityBitMap m) ∧ 0 ≤ x.1 < 32 ∧
  ∃ a, c_first (q, PendingMsgQueue x.1) L = Some a ∧ c_linked a L = true ∧
    mq_body q (set_pending (u32 (pendingCount m - 1))
      (if c_is_empty (q, PendingMsgQueue x.1) (c_delete a L)
       then TTOS_MSGQ_CLEAR_PRIORITYBITMAP (msgPriorityBitMap m) x.1 else msgPriorityBitMap m) m)
      ((a, Taken x) :: F) C (c_delete a L) H M.
Proof.
  intros B. pose proof (body_nodup _ _ B) as Hnd. pose proof (body_length _ _ B) as Hlen.
  pose proof (mb_contents _ _ _ _ _ _ _ B) as Hf.
  assert (Hne : order q L ≠ []) by (intros E; rewrite E in Hf; inversion Hf).
  destruct (first_pending _ q L (mb_bits _ _ _ _ _ _ _ B) Hne) as (Hp & a & xs & Ea & Eo).
  set (p := zero_num_of_word_get (msgPriorityBitMap m)) in *. rewrite Eo in Hf.
  apply Forall2_cons in Hf as [Hx HC].
  assert (Hap : a ∈ pend q p L) by (rewrite Ea; left).
  assert (Exp : x.1 = p).
  { destruct (mb_pri _ _ _ _ _ _ _ B p a Hp Hap) as (hd & Hhd & <-).
    rewrite (ho_header _ _ _ _ _ Hx) in Hhd. by injection Hhd as <-. }
  rewrite Exp. pose proof (order_delete q p a xs L (mb_lists _ _ _ _ _ _ _ B) Hp Ea Eo) as Eo'.
  destruct (pend_delete q p a xs L (mb_lists _ _ _ _ _ _ _ B) Ea) as (Ep1 & Ep2 & Eu).
  rewrite Eo in Hnd, Hlen. simpl in Hnd. apply NoDup_cons in Hnd as [Hna Hnd]. rewrite !not_elem_of_app in Hna.
  assert (Hcl : c_linked a L = true) by (apply c_linked_spec; by exists (q, PendingMsgQueue p)).
  assert (Hcnt := mb_count _ _ _ _ _ _ _ B). rewrite Eo in Hcnt. simpl in Hcnt, Hlen. split_and!; [lia|done|lia|lia|].
  exists a. split_and!; [unfold c_first; unfold pend in Ea; by rewrite Ea|done|]. pose proof (bits_delete _ q p a xs L (mb_lists _ _ _ _ _ _ _ B)
    (mb_bits _ _ _ _ _ _ _ B) Hp Ea) as Hbits. destruct B. split; simpl; try done.
  - by apply c_wf_delete.
  - rewrite Eo', Hcnt, u32_small; lia.
  - rewrite Eo', Eu, <- mb_blocks0, Eo. simpl. rewrite <- (Permutation_middle (unused q L)). by rewrite <- Permutation_middle.
  - intros b. rewrite elem_of_cons. intros [->|Hb]; [apply c_linked_delete|].
    rewrite c_linked_delete_ne; [by apply mb_free0|]. intros ->. by apply Hna.
  - intros p' b Hp' Hb. unfold pend in Hb. apply elem_of_c_delete in Hb as [_ Hb]. by apply mb_pri0.
  - by rewrite Eo'.
  - by constructor.
Qed.

End Body.
