(* ===== verification/MsgqOps.v ===== *)
(** * The operations of the message queues

    The invariant of a queue together with the tasks that wait on it ([mq_ok]),
    and the runs of the parts of [TTOS_SendMsgq] and [TTOS_ReceiveMsgq]: each keeps
    the invariant and does to the pending messages what a queue by priority does. *)

From S2P Require Import Prelude Chain PrioMap DeltaQ Kernel Sched Frame SchedInv Dispatch SchedProps Service Wait WaitInv Block Names Sema SemaInv Msgq MsgqInv.
From Stdlib Require Import Init.Byte.
Import Width.
Local Open Scope Z_scope.

(** A caller's buffer: mapped, and apart from the message blocks. *)
Definition buffer_ok (m : msgq) (M : gmap Z byte) (b n : Z) : Prop :=
  mapped M b n ∧ ∀ a, a ∈ blocks m → apart (a + BUFFER_OFFSET) (maxMsgSize m) b n.

(** What a waiting sender and a waiting receiver have left for the task that wakes
    them. *)
Definition sender_ok (m : msgq) (A : gmap tid wait_args) (M : gmap Z byte) (K : kernel) (t : tid) : Prop :=
  ∃ w tc, A !! t = Some w ∧ tasks K !! t = Some tc ∧ 0 < returnArgument1 w ≤ maxMsgSize m ∧
    buffer_ok m M (returnArgument w) (returnArgument1 w) ∧
    wait_option (wait tc) = 0 ∧ 0 ≤ wait_count (wait tc) < 32.

Definition receiver_ok (m : msgq) (A : gmap tid wait_args) (M : gmap Z byte) (S : gmap Z Z) (t : tid) : Prop :=
  ∃ w, A !! t = Some w ∧ buffer_ok m M (returnArgument w) (maxMsgSize m) ∧ is_Some (S !! returnArgument1 w).

Record waits_ok (q : mqid) (m : msgq) (sq rq : wqueue) (A : gmap tid wait_args) (S : gmap Z Z) (M : gmap Z byte)
    (K : kernel) : Prop := {
  wk_send : wqs K !! sendWaitQueue q = Some sq;
  wk_recv : wqs K !! receiveWaitQueue q = Some rq;
  wk_send_state : wq_state sq = TTOS_TASK_WAITING_FOR_MSGQ;
  wk_recv_state : wq_state rq = TTOS_TASK_WAITING_FOR_MSGQ;
  wk_senders : ∀ t, t ∈ wq_tasks sq → sender_ok m A M K t;
  wk_receivers : ∀ t, t ∈ wq_tasks rq → receiver_ok m A M S t;
}.

(** A message queue between two steps: [m] is its control block, [sq] and [rq] its
    wait queues, [F] the blocks in the hands of calls, [C] the pending messages. *)
Record mq_ok (q : mqid) (m : msgq) (sq rq : wqueue) (F : list (Z * flight)) (C : list message) (W : mworld) : Prop := {
  mo_cb : msgqs W !! q = Some m;
  mo_handle : handle m = true;
  mo_body : mq_body q m F C (lists W) (headers W) (mem W);
  mo_waits : waits_ok q m sq rq (args W) (sizes W) (mem W) (kern W);
}.

(** ** Small steps *)

(** A sequence whose first part leads to a state in which the rest faults. *)
Lemma bind_fault {S A B} (m : M S A) (f : A → M S B) s : wp m s (λ a s', f a s' = None) → (m ≫= f) s = None.
Proof. unfold wp, mbind, M_bind. by destruct (m s) as [[]|]. Qed.

Lemma wp_mlk {A} (m : M kernel A) W Φ : wp m (kern W) (λ a K, Φ a (set_kern K W)) → wp (lk m) W Φ.
Proof. unfold wp, lk. by destruct (m (kern W)) as [[]|]. Qed.

Lemma set_kern_same W : set_kern (kern W) W = W.
Proof. by destruct W. Qed.

Lemma wp_mlk_gets {A} (f : kernel → A) W Φ : Φ (f (kern W)) W → wp (lk (gets f)) W Φ.
Proof. intros ?. apply wp_mlk, wp_gets. by rewrite set_kern_same. Qed.

Lemma wp_get_msgq W q m Φ : msgqs W !! q = Some m → Φ m W → wp (get_msgq q) W Φ.
Proof. intros Hm ?. unfold get_msgq. apply wp_bind, wp_gets, wp_lift with m; done. Qed.

Lemma wp_upd_msgq W q m f Φ : msgqs W !! q = Some m →
  Φ tt (set_msgqs (<[q := f m]> (msgqs W)) W) → wp (upd_msgq q f) W Φ.
Proof. intros Hm ?. unfold upd_msgq. apply wp_bind. eapply wp_get_msgq; [done|]. by apply wp_modify. Qed.

Lemma wp_get_header W a hd Φ : headers W !! a = Some hd → Φ hd W → wp (get_header a) W Φ.
Proof. intros Hm ?. unfold get_header. apply wp_bind, wp_gets, wp_lift with hd; done. Qed.

Lemma wp_upd_header W a hd f Φ : headers W !! a = Some hd →
  Φ tt (set_headers (<[a := f hd]> (headers W)) W) → wp (upd_header a f) W Φ.
Proof. intros Hm ?. unfold upd_header. apply wp_bind. eapply wp_get_header; [done|]. by apply wp_modify. Qed.

Lemma wp_get_args W t w Φ : args W !! t = Some w → Φ w W → wp (get_args t) W Φ.
Proof. intros Hm ?. unfold get_args. apply wp_bind, wp_gets, wp_lift with w; done. Qed.

Lemma wp_store_size W p v Φ : is_Some (sizes W !! p) →
  Φ tt (set_sizes (<[p := v]> (sizes W)) W) → wp (store_size p v) W Φ.
Proof.
  intros [x Hx] ?. unfold store_size. apply wp_bind, wp_gets, wp_bind, wp_lift with x; [done|]. by apply wp_modify.
Qed.

Lemma wp_add_tail W a h Φ : c_linked a (lists W) = false →
  Φ tt (set_lists (c_add_tail a h (lists W)) W) → wp (node_add_tail a h) W Φ.
Proof.
  intros Ha ?. unfold node_add_tail. apply wp_bind, wp_gets, wp_bind, wp_assert; [by rewrite Ha|]. by apply wp_modify.
Qed.

Lemma wp_delete W a Φ : c_linked a (lists W) = true →
  Φ tt (set_lists (c_delete a (lists W)) W) → wp (node_delete a) W Φ.
Proof. intros Ha ?. unfold node_delete. apply wp_bind, wp_gets, wp_bind, wp_assert; [done|]. by apply wp_modify. Qed.

Lemma wp_head W q p Φ : p < 32 → Φ (q, PendingMsgQueue p) W → wp (pending_head q p) W Φ.
Proof. intros Hp ?. unfold pending_head. apply wp_bind, wp_assert; [by apply Z.ltb_lt|]. by apply wp_ret. Qed.

Lemma wp_copy W dest src n bs Φ : load (Z.to_nat n) src (mem W) = Some bs → 0 ≤ n → mapped (mem W) dest n →
  apart dest n src n → Φ tt (set_mem (store dest bs (mem W)) W) → wp (copy dest src n) W Φ.
Proof.
  intros Hl Hn Hm Ha ?. unfold copy. apply wp_bind, wp_gets, wp_bind.
  eapply wp_lift; [exact (copy_string_run dest src n (mem W) bs Hn Hl Hm Ha)|]. by apply wp_modify.
Qed.

(** ** The kernel under a queue *)

(** A task keeps what it left in its wait information. *)
Definition keeps_wait (K K' : kernel) (t : tid) : Prop :=
  ∀ tc, tasks K !! t = Some tc → ∃ tc', tasks K' !! t = Some tc' ∧ wait tc' = wait tc.

Lemma waits_kern q m sq rq A S M K K' sq' rq' : waits_ok q m sq rq A S M K →
  wqs K' !! sendWaitQueue q = Some sq' → wqs K' !! receiveWaitQueue q = Some rq' →
  wq_state sq' = wq_state sq → wq_state rq' = wq_state rq →
  (∀ t, t ∈ wq_tasks sq' → t ∈ wq_tasks sq ∧ keeps_wait K K' t) →
  (∀ t, t ∈ wq_tasks rq' → t ∈ wq_tasks rq) → waits_ok q m sq' rq' A S M K'.
Proof.
  intros [Hs Hr Es Er Hss Hrs] Hs' Hr' Es' Er' Hin Hrin. split; try done; [by rewrite Es'|by rewrite Er'|..].
  - intros t Ht. destruct (Hin t Ht) as [Ht0 Hk]. destruct (Hss t Ht0) as (w & tc & Hw & Htc & Hn & Hb & Ho & Hc).
    destruct (Hk tc Htc) as (tc' & Htc' & E). exists w, tc'. rewrite E. done.
  - intros t Ht. apply Hrs. by apply Hrin.
Qed.

Lemma evolves_keeps K K' t : evolves K K' → keeps_wait K K' t.
Proof.
  intros He tc Ht. destruct (evolves_task _ _ _ _ He Ht) as (tc' & Ht' & Hc). exists tc'. split; [done|].
  by destruct (calm_fields _ _ Hc).
Qed.

Lemma only_wt_keeps K K' t x : only_wt_but t K K' → x ≠ t → keeps_wait K K' x.
Proof.
  intros Ho Hne tc Hx. specialize (Ho x Hne). rewrite Hx in Ho. inversion Ho as [a b Hab E1 E2|]; subst.
  exists b. by rewrite Hab.
Qed.

Lemma waits_resched q m sq rq A S M K K' : waits_ok q m sq rq A S M K → rescheduled K K' → waits_ok q m sq rq A S M K'.
Proof.
  intros Hw Hrs. eapply waits_kern; [done|rewrite (rs_wqs _ _ Hrs); apply Hw..|done|done| |done].
  intros t Ht. split; [done|]. apply evolves_keeps, Hrs.
Qed.

(** Leaving a call. *)
Lemma munlock_run W : inside_ok (kern W) → ttosDisableScheduleLevel (kern W) !! this_cpu (kern W) = Some 1 →
  wp unlock W (λ _ W', ∃ K', W' = set_kern K' W ∧ calls_ok K' ∧ rescheduled (kern W) K').
Proof.
  intros Hi Hl. apply wp_mlk. eapply wp_mono; [by apply leave_run|]. intros [] K' (? & ? & ?). by exists K'.
Qed.

Lemma mq_leave {A} W q m sq rq F C (r : A) : inside_ok (kern W) →
  ttosDisableScheduleLevel (kern W) !! this_cpu (kern W) = Some 1 → mq_ok q m sq rq F C W →
  wp (_ ← unlock; mret r) W (λ r' W', r' = r ∧ calls_ok (kern W') ∧ mq_ok q m sq rq F C W' ∧
    ∃ K', W' = set_kern K' W ∧ rescheduled (kern W) K').
Proof.
  intros Hi Hl [H1 H2 H3 H4]. apply wp_bind. eapply wp_mono; [by apply munlock_run|].
  intros [] W' (K' & -> & Hok & Hrs). apply wp_ret. split_and!; [done|done| |by exists K'].
  split; try done. by apply (waits_resched _ _ _ _ _ _ _ (kern W)).
Qed.

(** Entering one. *)
Lemma mq_object_run W q m : msgqs W !! q = Some m → handle m = true →
  ttosDisableScheduleLevel (kern W) !! this_cpu (kern W) = Some 0 →
  wp (get_msgq_object q) W (λ b W', b = true ∧ W' = set_kern (locked 1 (kern W)) W).
Proof.
  intros Hm Hh Hl. unfold get_msgq_object. apply wp_bind, wp_gets. rewrite bool_decide_true by (by rewrite Hm; simpl; rewrite Hh).
  apply wp_bind, wp_mlk. eapply wp_mono; [by apply lock_run|]. intros [] K' ->. by apply wp_ret.
Qed.

Lemma mq_locked q m sq rq F C W n : mq_ok q m sq rq F C W → mq_ok q m sq rq F C (set_kern (locked n (kern W)) W).
Proof. intros [H1 H2 H3 [? ? ? ? ? ?]]. split; [done..|]. by split. Qed.

(** The place a task takes depends on the priorities alone. *)
Lemma joined_ext K K' wq t : (∀ x, cur_pri K' x = cur_pri K x) → joined K' wq t = joined K wq t.
Proof. intros E. unfold joined. destruct (wq_fifo wq); [done|]. f_equal. by apply pri_insert_ext. Qed.

Lemma cur_pri_upd K K' e ec ec' x : tasks K' = <[e := ec']> (tasks K) → tasks K !! e = Some ec →
  taskCurPriority ec' = taskCurPriority ec → cur_pri K' x = cur_pri K x.
Proof.
  intros Et He Ep. unfold cur_pri. rewrite Et. destruct (decide (x = e)) as [->|Hne].
  - rewrite lookup_insert_eq, He. simpl. by rewrite Ep.
  - by rewrite lookup_insert_ne by done.
Qed.

Lemma wp_my_running K e Φ : runningTask K !! this_cpu K = Some e → Φ e K → wp ttosGetRunningTask K Φ.
Proof.
  intros Hr ?. unfold ttosGetRunningTask. apply wp_bind, wp_gets. unfold wp, ttosGetRunningTaskWithCpuID. by rewrite Hr.
Qed.

(** The running task waits. *)
Lemma enqueue_running_any K e ec w wq ticks intr : inside_ok K → runningTask K !! this_cpu K = Some e →
  tasks K !! e = Some ec → ready ec = true → idleTask K !! this_cpu K ≠ Some e → wqs K !! w = Some wq →
  flag_on TTOS_TASK_READY (wq_state wq) = false →
  flag_on TTOS_TASK_NONRUNNING_STATE (blocked_state wq intr) = true → 0 ≤ ticks < 2 ^ 32 →
  wp (ttosEnqueueTaskq w ticks intr) K (λ _ K', blocked e w ticks intr ec wq K K' ∧ inside_ok K').
Proof.
  intros Hin Hr He Hrd Hni Hw Hst Hnr Hk. unfold ttosEnqueueTaskq. apply wp_bind. eapply wp_my_running; [done|].
  eapply wp_mono; [apply (enqueue_run K e ec w wq intr); try done|].
  - apply Hin.
  - by apply (running_not_idle K e ec); [apply Hin|..].
  - intros Hqk. apply (is_unl _ Hin e ec); try done. unfold queued_kind in Hqk.
    by apply orb_false_iff in Hqk as [H%bool_decide_eq_false _]; apply dec_stable.
  - intros [] K' Hbl. split; [done|]. eapply blocked_inside_any; [done..| |done]. by apply blocked_not_ready.
Qed.

Lemma enqueue_running K e ec w wq ticks : inside_ok K → runningTask K !! this_cpu K = Some e →
  tasks K !! e = Some ec → ready ec = true → idleTask K !! this_cpu K ≠ Some e → wqs K !! w = Some wq →
  wq_state wq = TTOS_TASK_WAITING_FOR_MSGQ → 0 ≤ ticks < 2 ^ 32 →
  wp (ttosEnqueueTaskq w ticks true) K (λ _ K', blocked e w ticks true ec wq K K' ∧ inside_ok K').
Proof. intros ? ? ? ? ? ? Hst ?. apply enqueue_running_any; unfold blocked_state; by rewrite ?Hst. Qed.

(** ** Inserting and removing *)

(** The notification handler is called when the first message arrives and nobody
    waits for it. *)
Definition notified (m : msgq) (rq : wqueue) (ns : list (Z * Z)) : list (Z * Z) :=
  if (pendingCount m =? 0) && bool_decide (wq_tasks rq = []) && negb (notifyHandler m =? 0)
  then ns ++ [(notifyHandler m, notifyArgument m)] else ns.

Definition with_pending (m : msgq) (x : message) : msgq :=
  set_pending (u32 (pendingCount m + 1)) (TTOS_MSGQ_SET_PRIORITYBITMAP (msgPriorityBitMap m) x.1) m.

Lemma insert_msg_run W q m rq a x F C : msgqs W !! q = Some m →
  mq_body q m ((a, Taken x) :: F) C (lists W) (headers W) (mem W) → wqs (kern W) !! receiveWaitQueue q = Some rq →
  wp (ttosInsertMsg q a 0) W (λ _ W', W' = set_notices (notified m rq (notices W))
    (set_lists (c_add_tail a (q, PendingMsgQueue x.1) (lists W)) (set_msgqs (<[q := with_pending m x]> (msgqs W)) W)) ∧
    mq_body q (with_pending m x) F (pq_insert x C) (lists W') (headers W') (mem W')).
Proof.
  intros Hm B Hrq. pose proof (mb_flight _ _ _ _ _ _ _ B) as [Hx _]%Forall_cons. simpl in Hx.
  pose proof (mb_free _ _ _ _ _ _ _ B a ltac:(left)) as Ha. pose proof (body_insert _ _ _ _ _ _ _ _ _ B) as B'.
  unfold ttosInsertMsg. apply wp_bind. eapply wp_get_msgq; [done|]. apply wp_bind, wp_mlk.
  unfold ttosTaskqIsEmpty. apply wp_bind. unfold get_wq, wp at 1. rewrite Hrq. simpl. apply wp_ret. rewrite set_kern_same.
  apply wp_bind. eapply wp_upd_msgq; [done|]. apply wp_bind, wp_bind. simpl.
  eapply wp_get_header; [apply (ho_header _ _ _ _ _ Hx)|]. apply wp_bind. eapply wp_upd_msgq; [apply lookup_insert_eq|].
  apply wp_bind, wp_head; [pose proof (ho_pri _ _ _ _ _ Hx); simpl; lia|]. apply wp_add_tail; [done|]. simpl.
  rewrite insert_insert_eq. unfold notified. rewrite <- andb_assoc.
  destruct (_ && (_ && _)) eqn:En; rewrite <- ?andb_assoc in *; rewrite ?En; simpl.
  - apply wp_modify. split; [done|]. exact B'.
  - apply wp_ret. split; [by destruct W|]. exact B'.
Qed.

(** The control block after its first message, of priority [p] in block [a], left. *)
Definition without_first (q : mqid) (m : msgq) (p a : Z) (L : gmap (mqid * mhead) (list Z)) : msgq :=
  set_pending (u32 (pendingCount m - 1))
    (if c_is_empty (q, PendingMsgQueue p) (c_delete a L)
     then TTOS_MSGQ_CLEAR_PRIORITYBITMAP (msgPriorityBitMap m) p else msgPriorityBitMap m) m.

Lemma remove_pending_run W q m p a : msgqs W !! q = Some m → c_linked a (lists W) = true → p < 32 →
  wp (remove_pending q p a) W (λ _ W', W' = set_lists (c_delete a (lists W))
    (set_msgqs (<[q := without_first q m p a (lists W)]> (msgqs W)) W)).
Proof.
  intros Hm Ha Hp. unfold remove_pending, without_first. apply wp_bind, wp_delete; [done|]. apply wp_bind, wp_head; [done|].
  apply wp_bind, wp_gets. simpl. destruct (c_is_empty _ _); simpl.
  - apply wp_bind. eapply wp_upd_msgq; [done|]. eapply wp_upd_msgq; [apply lookup_insert_eq|]. simpl.
    by rewrite insert_insert_eq.
  - apply wp_bind, wp_ret. by eapply wp_upd_msgq.
Qed.

(** ** Sending, until the block is in hand *)

Lemma get_priority_range options : 0 ≤ TTOS_MSGQ_GET_PRIORITY options < 32.
Proof.
  unfold TTOS_MSGQ_GET_PRIORITY, TTOS_MSGQ_PRIORITY_MASK. rewrite Z.shiftr_land. change (Z.shiftr 0xF8 3) with (Z.ones 5).
  rewrite Z.land_ones by lia. apply Z.mod_pos_bound. lia.
Qed.

(** What the first part of [TTOS_SendMsgq] by [e] comes to. *)
Definition send_outcome (q : mqid) (m : msgq) (sq rq : wqueue) (F : list (Z * flight)) (C : list message) (W : mworld)
    (e : tid) (n options ticks : Z) (r : call_result) (W' : mworld) : Prop :=
  if maxMsgSize m <? n then r = Done TTOS_INVALID_SIZE ∧ mq_ok q m sq rq F C W'
  else match unused q (lists W) with
  | a :: _ => r = Block a ∧
      mq_ok q (set_disable true m) sq rq ((a, Filling (TTOS_MSGQ_GET_PRIORITY options)) :: F) C W'
  | [] => if may_wait options ticks then r = Waiting ∧ mq_ok q m (joined (kern W) sq e) rq F C W'
          else r = Done TTOS_TOO_MANY ∧ mq_ok q m sq rq F C W'
  end.

Lemma body_disable q m b F C L H M : mq_body q m F C L H M → mq_body q (set_disable b m) F C L H M.
Proof. by intros []. Qed.

Lemma waits_disable q m b sq rq A S M K : waits_ok q m sq rq A S M K → waits_ok q (set_disable b m) sq rq A S M K.
Proof. by intros []. Qed.

Section Send.
Context (W : mworld) (q : mqid) (m : msgq) (sq rq : wqueue) (F : list (Z * flight)) (C : list message).
Context (e : tid) (ec : tcb) (options : Z).
Let K := kern W.
Let W1 := set_kern (locked 1 K) W.
Hypothesis Hok : calls_ok K.
Hypothesis Hq : mq_ok q m sq rq F C W.
Hypothesis Hrun : runningTask K !! this_cpu K = Some e.
Hypothesis He : tasks K !! e = Some ec.
Hypothesis Hni : idleTask K !! this_cpu K ≠ Some e.

Lemma send_inside : inside_ok (locked 1 K) ∧ ready ec = true.
Proof. split; [apply inside_locked, Hok|]. by eapply (co_ready _ Hok). Qed.

(** A block is taken from the unused ones. *)
Lemma send_block a rest : unused q (lists W) = a :: rest →
  wp (_ ← upd_header a (λ hd, MsgBuf (size hd) (u8 (TTOS_MSGQ_GET_PRIORITY options)));
      _ ← node_delete a;
      _ ← upd_msgq q (set_disable true);
      _ ← unlock;
      mret (Block a)) W1 (λ r W', r = Block a ∧ calls_ok (kern W') ∧ mem W' = mem W ∧
    mq_ok q (set_disable true m) sq rq ((a, Filling (TTOS_MSGQ_GET_PRIORITY options)) :: F) C W').
Proof.
  intros Eu. destruct Hq as [Hm Hh B Hw]. pose proof (get_priority_range options) as Hp.
  assert (Hab : a ∈ blocks m) by (apply (body_in _ _ _ _ _ _ _ a B); right; left; rewrite Eu; left).
  destruct (mb_mem _ _ _ _ _ _ _ B a Hab) as [[hd Hhd] _].
  pose proof (body_alloc _ _ _ _ _ a rest hd F C _ B Eu Hhd Hp) as B'.
  apply wp_bind. eapply wp_upd_header; [done|]. apply wp_bind, wp_delete.
  { apply c_linked_spec. exists (q, InactiveMsgQueue). change (a ∈ unused q (lists W)). rewrite Eu. left. }
  apply wp_bind. eapply wp_upd_msgq; [done|]. rewrite u8_small by lia.
  eapply wp_mono; [apply (mq_leave _ q (set_disable true m) sq rq); [apply send_inside|apply locked_level|]|].
  - split; simpl; [apply lookup_insert_eq|done|by apply body_disable|]. apply waits_disable.
    by destruct Hw; split.
  - intros r W' (-> & Hok' & Hq' & K' & -> & _). done.
Qed.

(** The caller waits for one. *)
Lemma send_wait buf n ticks : 0 < n ≤ maxMsgSize m → buffer_ok m (mem W) buf n → 0 ≤ ticks < 2 ^ 32 →
  Z.land options TTOS_URGENT = 0 →
  wp (_ ← wait_for q e (WaitArgs buf n);
      _ ← lk (upd_task e (upd_wait (λ i,
            set_wait_count (TTOS_MSGQ_GET_PRIORITY options) (set_wait_option (is_urgent options) i))));
      _ ← lk (ttosEnqueueTaskq (sendWaitQueue q) ticks true);
      _ ← unlock;
      mret Waiting) W1 (λ r W', r = Waiting ∧ calls_ok (kern W') ∧ mem W' = mem W ∧
    mq_ok q m (joined K sq e) rq F C W').
Proof.
  intros Hn Hb Hk Hu. destruct Hq as [Hm Hh B Hw], send_inside as [Hin Hrd]. pose proof (get_priority_range options) as Hp.
  unfold wait_for. apply wp_bind, wp_bind, wp_mlk. eapply wp_upd_task; [exact He|]. apply wp_modify.
  apply wp_bind, wp_mlk. eapply wp_upd_task; [apply lookup_insert_eq|]. simpl. rewrite insert_insert_eq.
  unfold is_urgent. rewrite Hu. simpl. set (ec2 := upd_wait _ (upd_wait _ ec)). set (K2 := set_tasks _ _).
  assert (Hin2 : inside_ok K2) by exact (inside_upd (locked 1 K) e ec ec2 Hin He Hrd eq_refl eq_refl eq_refl).
  apply wp_bind, wp_mlk. eapply wp_mono.
  { apply (enqueue_running K2 e ec2 (sendWaitQueue q) sq ticks); try done; [apply lookup_insert_eq|apply Hw..]. }
  intros [] K3 [Hbl Hin3]. pose proof (bl_env _ _ _ _ _ _ _ _ Hbl) as He3.
  assert (Hnq : ∀ w wq, wqs K !! w = Some wq → e ∉ wq_tasks wq).
  { by apply (ready_not_queued K e ec); [apply Hok|..]. }
  assert (Ej : joined K2 sq e = joined K sq e).
  { apply joined_ext. intros x. by apply (cur_pri_upd K K2 e ec ec2). }
  eapply wp_mono; [apply (mq_leave _ q m (joined K sq e) rq F C)|].
  - done.
  - simpl. injection He3 as _ _ _ _ _ -> _ ->. apply lookup_insert_eq.
  - assert (Hqs : wqs K3 = <[sendWaitQueue q := joined K sq e]> (wqs K)) by (rewrite (bl_wqs _ _ _ _ _ _ _ _ Hbl), Ej; done).
    destruct Hw as [Hs Hr Es Er Hss Hrs]. split; simpl; try done. split; try done.
    + rewrite Hqs. apply lookup_insert_eq.
    + rewrite Hqs, lookup_insert_ne; [done|]. unfold sendWaitQueue, receiveWaitQueue. lia.
    + intros t Ht. rewrite joined_perm, elem_of_cons in Ht. destruct Ht as [->|Ht].
      * destruct (bl_task _ _ _ _ _ _ _ _ Hbl) as [v Hv]. exists (WaitArgs buf n). eexists.
        split_and!; [apply lookup_insert_eq|exact Hv|apply Hn..|done|done|simpl; lia|simpl; lia].
      * assert (Hne : t ≠ e) by (intros ->; by apply (Hnq _ _ Hs)).
        destruct (Hss t Ht) as (w & tc & Hw' & Htc & Hn' & Hb' & Ho & Hc).
        destruct (only_wt_keeps K2 K3 e t (bl_rest _ _ _ _ _ _ _ _ Hbl) Hne tc) as (tc' & Htc' & E).
        { simpl. by rewrite lookup_insert_ne by done. }
        exists w, tc'. rewrite E, lookup_insert_ne by done. done.
    + intros t Ht. assert (Hne : t ≠ e) by (intros ->; by apply (Hnq _ _ Hr)).
      destruct (Hrs t Ht) as (w & Hw' & Hb'). exists w. by rewrite lookup_insert_ne by done.
  - intros r W' (-> & Hok' & Hq' & K' & -> & _). done.
Qed.

Lemma send_run buf n ticks : buf ≠ 0 → 0 < n → 0 ≤ ticks < 2 ^ 32 → Z.land options TTOS_URGENT = 0 →
  buffer_ok m (mem W) buf n →
  wp (TTOS_SendMsgq q buf n options ticks) W (λ r W', calls_ok (kern W') ∧ mem W' = mem W ∧
    send_outcome q m sq rq F C W e n options ticks r W').
Proof.
  intros Hbuf Hn Hk Hu Hb. pose proof Hq as [Hm Hh B Hw]. unfold TTOS_SendMsgq, send_outcome. apply wp_bind, wp_mlk_gets.
  fold K. rewrite (is_task _ (co_inside _ Hok)), andb_false_r. rewrite (proj2 (Z.eqb_neq 0 buf)), (proj2 (Z.eqb_neq n 0)) by lia.
  apply wp_bind. eapply wp_mono; [apply (mq_object_run W q m); [done..|apply Hok]|]. intros b W0 [-> ->]. fold K W1. simpl.
  apply wp_bind. eapply wp_get_msgq; [done|]. destruct (Z.ltb_spec (maxMsgSize m) n) as [Hbig|Hfit].
  { eapply wp_mono; [apply (mq_leave W1 q m sq rq F C (Done TTOS_INVALID_SIZE)); [apply send_inside|apply locked_level|by apply mq_locked]|].
    intros r W' (-> & ? & ? & K' & -> & _). done. }
  apply wp_bind, wp_mlk_gets, wp_bind, wp_gets. simpl. fold K. rewrite Hrun. unfold c_first. fold (unused q (lists W)).
  destruct (unused q (lists W)) as [|a rest] eqn:Eu; simpl.
  - destruct (may_wait options ticks); simpl.
    + eapply wp_mono; [apply (send_wait buf n ticks); [lia|done..]|]. intros r W' (-> & ? & ? & ?). done.
    + eapply wp_mono; [apply (mq_leave W1 q m sq rq F C (Done TTOS_TOO_MANY)); [apply send_inside|apply locked_level|by apply mq_locked]|].
      intros r W' (-> & ? & ? & K' & -> & _). done.
  - eapply wp_mono; [apply (send_block a rest Eu)|]. intros r W' (-> & ? & ? & ?). done.
Qed.

End Send.

(** ** Handing over a message *)

(** The first task [t] of the queue [w] has been woken, with the count [c]. *)
Record woke (t : tid) (xs : list tid) (w : wqid) (wq : wqueue) (tc : tcb) (c : Z) (K K' : kernel) : Prop := {
  wo_inside : inside_ok K';
  wo_env : env K' = env K;
  wo_wqs : wqs K' = <[w := set_wq_tasks xs wq]> (wqs K);
  wo_rest : only_wt_but t K K';
  wo_task : ∃ tc', tasks K' !! t = Some tc' ∧
    ready tc' = negb (flag_on TTOS_TASK_NONRUNNING_STATE (clear_flag TTOS_TASK_WAITING (state tc))) ∧
    returnCode (wait tc') = returnCode (wait tc) ∧ wait_queue (wait tc') = None ∧
    wait_count (wait tc') = c ∧ wait_option (wait tc') = wait_option (wait tc);
}.

Lemma wake_up_run K t xs tc w wq K1 : inside_ok K → wqs K !! w = Some wq → wq_tasks wq = t :: xs →
  tasks K !! t = Some tc → taken K t xs w wq K1 →
  wp (ttosClearTaskWaiting t) K1 (λ _ K', woke t xs w wq tc (wait_count (wait tc)) K K' ∧
    t ∉ c_get TaskWaitedQ (oq K')).
Proof.
  intros Hin Hw Hxs Ht Htk. eapply wp_mono; [apply (wake_taken_run K t xs tc w wq); try done; apply Hin|].
  intros [] K' Hre. pose proof (released_inside _ _ _ _ _ _ _ Hin Hre) as Hin'.
  pose proof (released_untimed _ _ _ _ _ _ _ Hin Hre) as Hnt. destruct Hre as [_ He (tc' & Ht' & Hw' & _ & Hr & _) Hrest Hq _ _].
  split; [|done]. split; try done. exists tc'. rewrite Hw'. done.
Qed.

Lemma woke_count t xs w wq tc c c' K K' : woke t xs w wq tc c K K' → t ∉ c_get TaskWaitedQ (oq K') →
  wp (upd_task t (upd_wait (set_wait_count c'))) K' (λ _ K2, woke t xs w wq tc c' K K2).
Proof.
  intros [Hin He Hq Hrest (tc' & Ht & Hr & Hc & Hwq & Hcnt & Hopt)] Hnt. eapply wp_upd_task; [done|]. split; try done.
  - by apply (inside_upd_free K' t tc').
  - intros x Hx. simpl. rewrite lookup_insert_ne by done. by apply Hrest.
  - eexists. split; [apply lookup_insert_eq|]. done.
Qed.

(** The queue's waiting tasks after one of them has left. *)
Lemma waits_woke_recv q m sq rq A S M K K' t xs tc c : inside_ok K → waits_ok q m sq rq A S M K →
  wq_tasks rq = t :: xs → woke t xs (receiveWaitQueue q) rq tc c K K' →
  waits_ok q m sq (set_wq_tasks xs rq) A S M K'.
Proof.
  intros Hin Hw Hxs Hwo. eapply waits_kern; [done|..]; try done.
  - rewrite (wo_wqs _ _ _ _ _ _ _ _ Hwo), lookup_insert_ne; [apply Hw|]. unfold sendWaitQueue, receiveWaitQueue. lia.
  - rewrite (wo_wqs _ _ _ _ _ _ _ _ Hwo). apply lookup_insert_eq.
  - intros x Hx. split; [done|]. eapply only_wt_keeps; [apply Hwo|]. intros ->.
    pose proof (bi_wqs _ (is_block _ Hin)) as Hi.
    destruct (wq_member _ Hi _ _ t (wk_send _ _ _ _ _ _ _ _ Hw) Hx) as (c1 & Hc1 & _ & E1).
    destruct (wq_member _ Hi _ _ t (wk_recv _ _ _ _ _ _ _ _ Hw)) as (c2 & Hc2 & _ & E2); [rewrite Hxs; left|].
    assert (Ec : c1 = c2) by congruence. rewrite Ec, E2 in E1. injection E1. unfold sendWaitQueue, receiveWaitQueue. lia.
  - intros x Hx. rewrite Hxs. by right.
Qed.

Lemma waits_woke_send q m sq rq A S M K K' t xs tc c : inside_ok K → waits_ok q m sq rq A S M K →
  wq_tasks sq = t :: xs → woke t xs (sendWaitQueue q) sq tc c K K' →
  waits_ok q m (set_wq_tasks xs sq) rq A S M K'.
Proof.
  intros Hin Hw Hxs Hwo. eapply waits_kern; [done|..]; try done.
  - rewrite (wo_wqs _ _ _ _ _ _ _ _ Hwo). apply lookup_insert_eq.
  - rewrite (wo_wqs _ _ _ _ _ _ _ _ Hwo), lookup_insert_ne; [apply Hw|]. unfold sendWaitQueue, receiveWaitQueue. lia.
  - simpl. intros x Hx. split; [rewrite Hxs; by right|]. eapply only_wt_keeps; [apply Hwo|]. intros ->.
    pose proof (wq_nodup _ (bi_wqs _ (is_block _ Hin)) _ _ (wk_send _ _ _ _ _ _ _ _ Hw)) as Hnd. rewrite Hxs in Hnd.
    by apply NoDup_cons in Hnd as [? _].
Qed.

Lemma buffer_store m M b n d bs : buffer_ok m M b n → buffer_ok m (store d bs M) b n.
Proof. intros [Hm Ha]. split; [by apply store_mapped|done]. Qed.

Lemma waits_store q m sq rq A S M K d bs : waits_ok q m sq rq A S M K → waits_ok q m sq rq A S (store d bs M) K.
Proof.
  intros [Hs Hr Es Er Hss Hrs]. split; try done.
  - intros t Ht. destruct (Hss t Ht) as (w & tc & ? & ? & ? & ? & ? & ?). exists w, tc. split_and!; try done; try lia.
    by apply buffer_store.
  - intros t Ht. destruct (Hrs t Ht) as (w & ? & ? & ?). exists w. split_and!; try done. by apply buffer_store.
Qed.

Lemma waits_sizes q m sq rq A S M K p v : waits_ok q m sq rq A S M K → waits_ok q m sq rq A (<[p := v]> S) M K.
Proof.
  intros [Hs Hr Es Er Hss Hrs]. split; try done. intros t Ht. destruct (Hrs t Ht) as (w & ? & ? & ?).
  exists w. split_and!; try done. rewrite lookup_insert_is_Some. destruct (decide (p = returnArgument1 w)); [by left|by right].
Qed.

Lemma waits_pending q m sq rq A S M K c b : waits_ok q m sq rq A S M K → waits_ok q (set_pending c b m) sq rq A S M K.
Proof. by intros []. Qed.

(** [hand_message] to [t]: the first message goes to its buffer. *)
Lemma hand_run W q m F x C rq K t xs tc w n : msgqs W !! q = Some m →
  mq_body q m F (x :: C) (lists W) (headers W) (mem W) →
  inside_ok K → wqs K !! receiveWaitQueue q = Some rq → wq_tasks rq = t :: xs → tasks K !! t = Some tc →
  taken K t xs (receiveWaitQueue q) rq (kern W) → args W !! t = Some w →
  buffer_ok m (mem W) (returnArgument w) (maxMsgSize m) → is_Some (sizes W !! returnArgument1 w) →
  wp (hand_message q t n) W (λ _ W', ∃ a, let m' := without_first q m x.1 a (lists W) in
    woke t xs (receiveWaitQueue q) rq tc x.1 K (kern W') ∧ msgqs W' = <[q := m']> (msgqs W) ∧
    mq_body q m' F C (lists W') (headers W') (mem W') ∧ mem W' = store (returnArgument w) x.2 (mem W) ∧
    sizes W' = <[returnArgument1 w := n]> (sizes W) ∧ args W' = args W ∧ notices W' = notices W).
Proof.
  intros Hm B Hin Hrq Hxs Ht Htk Hw [Hmap Hap] Hsz.
  destruct (body_take _ _ _ _ _ _ _ _ B) as (_ & Ep & Hp & a & Hf & Hl & B1). set (m' := without_first q m x.1 a (lists W)).
  change (mq_body q m' ((a, Taken x) :: F) C (c_delete a (lists W)) (headers W) (mem W)) in B1.
  unfold hand_message. apply wp_bind. eapply wp_get_msgq; [done|]. rewrite <- Ep, u8_small by lia.
  apply wp_bind, wp_head; [lia|]. apply wp_bind, wp_gets. apply wp_bind, wp_lift with a; [done|].
  apply wp_bind. eapply wp_mono; [apply (remove_pending_run W q m); [done..|lia]|]. intros [] W1 ->. fold m'.
  pose proof (mb_flight _ _ _ _ _ _ _ B1) as [Hx _]%Forall_cons. simpl in Hx.
  apply wp_bind. eapply wp_get_header; [apply (ho_header _ _ _ _ _ Hx)|]. apply wp_bind. eapply wp_get_args; [done|].
  pose proof (ho_size _ _ _ _ _ Hx) as Hsize.
  assert (Hab : a ∈ blocks m) by (apply (body_in _ m' _ _ _ _ _ a B1); right; right; left).
  assert (Hapx : ∀ b, b ∈ blocks m → apart (b + BUFFER_OFFSET) (maxMsgSize m) (returnArgument w) (Z.of_nat (length x.2))).
  { intros b Hb. specialize (Hap b Hb). unfold apart in *. lia. }
  apply wp_bind. eapply wp_copy with (bs := x.2); simpl.
  - rewrite Nat2Z.id. apply (ho_bytes _ _ _ _ _ Hx).
  - lia.
  - intros i Hi. apply Hmap. lia.
  - specialize (Hapx a Hab). unfold apart in *. lia.
  - apply wp_bind, wp_mlk. eapply wp_mono; [by apply (wake_up_run K t xs tc)|]. intros [] K2 [Hwo Hnt].
    apply wp_bind, wp_store_size; [done|]. apply wp_bind, wp_mlk. eapply wp_mono; [by eapply woke_count|]. intros [] K3 Hwo3.
    apply wp_add_tail; [apply (mb_free _ _ _ _ _ _ _ B1); left|]. exists a. cbn zeta. split_and!; try done.
    apply (body_release q m' _ _ _ a (Taken x)). apply body_store; [done|]. exact Hapx.
Qed.

(** ** Committing a message *)

(** A control block with other counters. *)
Definition same_queue (m m' : msgq) : Prop :=
  m' = set_disable (disableDeleteFlag m') (set_pending (pendingCount m') (msgPriorityBitMap m') m).

Lemma mq_unlock W q m sq rq F C : inside_ok (kern W) →
  ttosDisableScheduleLevel (kern W) !! this_cpu (kern W) = Some 1 → mq_ok q m sq rq F C W →
  wp unlock W (λ _ W', calls_ok (kern W') ∧ mq_ok q m sq rq F C W' ∧
    ∃ K', W' = set_kern K' W ∧ rescheduled (kern W) K').
Proof.
  intros Hi Hl [H1 H2 H3 H4]. eapply wp_mono; [by apply munlock_run|].
  intros [] W' (K' & -> & Hok & Hrs). split_and!; [done| |by exists K']. split; try done.
  by apply (waits_resched _ _ _ _ _ _ _ (kern W)).
Qed.

(** A woken task after the reschedule. *)
Definition awake (t : tid) (tc : tcb) (c : Z) (K : kernel) : Prop := ∃ tc', tasks K !! t = Some tc' ∧
  ready tc' = negb (flag_on TTOS_TASK_NONRUNNING_STATE (clear_flag TTOS_TASK_WAITING (state tc))) ∧
  returnCode (wait tc') = returnCode (wait tc) ∧ wait_queue (wait tc') = None ∧ wait_count (wait tc') = c.

Lemma woke_awake t xs w wq tc c K0 K K' : woke t xs w wq tc c K0 K → rescheduled K K' → awake t tc c K'.
Proof.
  intros [_ _ _ _ (tc1 & Ht & Hr & Hc & Hq & Hn & _)] Hrs.
  destruct (evolves_task _ _ _ _ (rs_evolves _ _ Hrs) Ht) as (tc2 & Ht2 & Hcm). exists tc2.
  destruct (calm_ready _ _ Hcm) as [-> _], (calm_fields _ _ Hcm) as [-> _]. done.
Qed.

(** What committing [x] in the block [a] comes to: it joins the pending messages, and the
    first of them goes to the first task that waits. *)
Definition commit_outcome (q : mqid) (m : msgq) (sq rq : wqueue) (F : list (Z * flight)) (C : list message)
    (W : mworld) (a : Z) (x : message) (W' : mworld) : Prop :=
  match wq_tasks rq with
  | [] => ∃ m', same_queue m m' ∧ disableDeleteFlag m' = false ∧ mq_ok q m' sq rq F (pq_insert x C) W' ∧
      notices W' = notified m rq (notices W) ∧ sizes W' = sizes W ∧ mem W' = store (a + BUFFER_OFFSET) x.2 (mem W)
  | t :: xs => ∃ y C' m' w tc, pq_insert x C = y :: C' ∧ args W !! t = Some w ∧ tasks (kern W) !! t = Some tc ∧
      same_queue m m' ∧ disableDeleteFlag m' = false ∧ mq_ok q m' sq (set_wq_tasks xs rq) F C' W' ∧
      load (length y.2) (returnArgument w) (mem W') = Some y.2 ∧
      sizes W' = <[returnArgument1 w := Z.of_nat (length x.2)]> (sizes W) ∧
      awake t tc y.1 (kern W') ∧ notices W' = notices W
  end.

Lemma pq_insert_nonempty x C : ∃ y C', pq_insert x C = y :: C'.
Proof. unfold pq_insert. destruct (filter _ C) as [|y l]; simpl; eauto. Qed.

Lemma commit_run W q m sq rq a p F C buf bs : calls_ok (kern W) →
  mq_ok q m sq rq ((a, Filling p) :: F) C W → 0 < Z.of_nat (length bs) ≤ maxMsgSize m →
  buffer_ok m (mem W) buf (Z.of_nat (length bs)) → load (length bs) buf (mem W) = Some bs →
  wp (ttosCommitMessage q a buf (Z.of_nat (length bs)) 0) W (λ _ W', calls_ok (kern W') ∧
    commit_outcome q m sq rq F C W a (p, bs) W').
Proof.
  intros Hok [Hm Hh B Hw] Hn [Hmap Hap] Hld. set (x := (p, bs) : message).
  pose proof (mb_flight _ _ _ _ _ _ _ B) as [[Hp (hd & Hhd & Ehd)] _]%Forall_cons.
  assert (Hab : a ∈ blocks m) by (apply (body_in _ _ _ _ _ _ _ a B); right; right; left).
  pose proof (body_fill _ _ _ _ _ a (Filling p) F C x B Hp Hn) as B1. simpl in Hhd, Ehd.
  unfold ttosCommitMessage. apply wp_bind. eapply wp_copy with (bs := bs).
  { by rewrite Nat2Z.id. } { lia. }
  { intros i Hi. apply (mb_mem _ _ _ _ _ _ _ B a Hab). lia. }
  { specialize (Hap a Hab). unfold apart in *. lia. }
  apply wp_bind, wp_mlk. eapply wp_mono; [apply lock_run, Hok|]. intros [] K1 ->. rewrite u64_small by lia.
  change (0 + 1) with 1. simpl. apply wp_bind. eapply wp_upd_header; [done|]. rewrite Ehd. simpl.
  set (W1 := set_headers _ _). assert (Hin1 : inside_ok (locked 1 (kern W))) by (apply inside_locked, Hok).
  pose proof Hw as [Hsq Hrq _ _ _ Hrcv].
  apply wp_bind. eapply wp_mono; [apply (insert_msg_run W1 q m rq a x F C); [done|exact B1|done]|].
  intros [] W2 [-> B2]. simpl in B2. set (m2 := with_pending m x) in *.
  assert (Hw2 : waits_ok q m2 sq rq (args W) (sizes W) (store (a + BUFFER_OFFSET) bs (mem W)) (locked 1 (kern W))).
  { apply waits_pending, waits_store. by destruct Hw; split. }
  apply wp_bind, wp_mlk. simpl. unfold commit_outcome. destruct (wq_tasks rq) as [|t xs] eqn:Hxs.
  - unfold wp at 1. rewrite (take_empty_run (locked 1 (kern W)) (receiveWaitQueue q) rq) by done.
    apply wp_bind, wp_ret, wp_bind. eapply wp_upd_msgq; [apply lookup_insert_eq|]. simpl. rewrite insert_insert_eq.
    eapply wp_mono; [apply (mq_unlock _ q (set_disable false m2) sq rq F (pq_insert x C)); simpl|].
    + done.
    + apply locked_level.
    + split; simpl; [apply lookup_insert_eq|done|by apply body_disable|by apply waits_disable].
    + intros [] W' (Hok' & Hq' & K' & -> & _). split; [done|]. exists (set_disable false m2). done.
  - destruct (wq_member _ (bi_wqs _ (is_block _ Hin1)) _ _ t Hrq) as (tc & Htc & _); [rewrite Hxs; left|].
    eapply wp_mono; [apply (take_run (locked 1 (kern W)) t xs tc); try done; apply Hin1|]. intros o K2 [-> Htk].
    destruct (pq_insert_nonempty x C) as (y & C' & Ey). rewrite Ey in B2.
    destruct (wk_receivers _ _ _ _ _ _ _ _ Hw2 t) as (w & Hwa & Hbuf & Hsz); [rewrite Hxs; left|].
    apply wp_bind. eapply wp_mono; [apply (hand_run _ q m2 F y C' rq (locked 1 (kern W)) t xs tc w); try done|].
    { apply lookup_insert_eq. }
    intros [] W3 (b & Hwo & Em3 & B3 & EM3 & ES3 & EA3 & EN3). simpl in *. rewrite insert_insert_eq in Em3.
    set (m3 := without_first q m2 y.1 b _) in *. apply wp_bind.
    eapply wp_upd_msgq; [rewrite Em3; apply lookup_insert_eq|].
    eapply wp_mono; [apply (mq_unlock _ q (set_disable false m3) sq (set_wq_tasks xs rq) F C'); simpl|].
    + apply Hwo.
    + pose proof (wo_env _ _ _ _ _ _ _ _ Hwo) as [= _ _ _ _ _ -> _ ->]. apply lookup_insert_eq.
    + split; simpl; [apply lookup_insert_eq|done|by apply body_disable|]. apply waits_disable. rewrite EA3, ES3, EM3.
      apply waits_sizes, waits_store. apply waits_pending. by eapply (waits_woke_recv q m2 sq rq).
    + intros [] W' (Hok' & Hq' & K' & -> & Hrs). split; [done|]. exists y, C', (set_disable false m3), w, tc.
      split_and!; try done; simpl.
      * rewrite EM3. apply load_store_same.
      * by eapply woke_awake.
      * rewrite EN3. unfold notified. rewrite Hxs. simpl. by rewrite andb_false_r.
Qed.

(** ** Receiving, until the message is in hand *)

(** What the first part of [TTOS_ReceiveMsgq] by [e] comes to. *)
Definition receive_outcome (q : mqid) (m : msgq) (sq rq : wqueue) (F : list (Z * flight)) (C : list message)
    (W : mworld) (e : tid) (options ticks : Z) (sigpend : bool) (r : call_result) (W' : mworld) : Prop :=
  match C with
  | x :: C' => ∃ a m', r = Block a ∧ same_queue m m' ∧ disableDeleteFlag m' = true ∧
      mq_ok q m' sq rq ((a, Taken x) :: F) C' W'
  | [] => if may_wait options ticks
          then r = Waiting ∧ mq_ok q m sq (if sigpend then rq else joined (kern W) rq e) F [] W' ∧
            ∃ ec', tasks (kern W') !! e = Some ec' ∧ ready ec' = sigpend ∧ returnCode (wait ec') = TTOS_OK
          else r = Done TTOS_UNSATISFIED ∧ mq_ok q m sq rq F [] W'
  end.

Section Receive.
Context (W : mworld) (q : mqid) (m : msgq) (sq rq : wqueue) (F : list (Z * flight)) (C : list message).
Context (e : tid) (ec : tcb).
Let K := kern W.
Let W1 := set_kern (locked 1 K) W.
Hypothesis Hok : calls_ok K.
Hypothesis Hq : mq_ok q m sq rq F C W.
Hypothesis Hrun : runningTask K !! this_cpu K = Some e.
Hypothesis He : tasks K !! e = Some ec.
Hypothesis Hni : idleTask K !! this_cpu K ≠ Some e.

(** A message is taken. *)
Lemma receive_block x C' : C = x :: C' → ∃ a,
  wp (_ ← remove_pending q x.1 a;
      _ ← upd_msgq q (set_disable true);
      _ ← unlock;
      mret (Block a)) W1 (λ r W', calls_ok (kern W') ∧ mem W' = mem W ∧ sizes W' = sizes W ∧ r = Block a ∧
    ∃ m', same_queue m m' ∧ disableDeleteFlag m' = true ∧ mq_ok q m' sq rq ((a, Taken x) :: F) C' W') ∧
  pendingCount m ≠ 0 ∧ x.1 = zero_num_of_word_get (msgPriorityBitMap m) ∧ x.1 < 32 ∧
  c_first (q, PendingMsgQueue x.1) (lists W) = Some a.
Proof.
  intros EC. pose proof Hq as [Hm Hh B Hw]. rewrite EC in B.
  destruct (body_take _ _ _ _ _ _ _ _ B) as (Hc & Ep & Hp & a & Hf & Hl & B1). exists a. split_and!; try done; [|lia].
  apply wp_bind. eapply wp_mono; [apply (remove_pending_run W1 q m); [done..|lia]|]. intros [] W2 ->. simpl.
  set (m2 := without_first q m x.1 a (lists W)). change (mq_body q m2 ((a, Taken x) :: F) C' (c_delete a (lists W)) (headers W) (mem W)) in B1.
  apply wp_bind. eapply wp_upd_msgq; [apply lookup_insert_eq|]. simpl. rewrite insert_insert_eq.
  eapply wp_mono; [apply (mq_leave _ q (set_disable true m2) sq rq ((a, Taken x) :: F) C')|]; simpl.
  - apply inside_locked, Hok.
  - apply locked_level.
  - split; simpl; [apply lookup_insert_eq|done|by apply body_disable|]. apply waits_disable, waits_pending.
    by destruct Hw; split.
  - intros r W' (-> & Hok' & Hq' & K' & -> & _). split_and!; try done. by exists (set_disable true m2).
Qed.

(** The caller waits for one. *)
Lemma receive_wait buf psize ticks sigpend : C = [] → buffer_ok m (mem W) buf (maxMsgSize m) →
  is_Some (sizes W !! psize) → 0 ≤ ticks < 2 ^ 32 →
  wp (_ ← wait_for q e (WaitArgs buf psize);
      _ ← whenM (negb sigpend) (lk (ttosEnqueueTaskq (receiveWaitQueue q) ticks true));
      cpu ← lk (gets this_cpu);
      level ← lk (ttosGetDisableScheduleLevelWithCpuID cpu);
      _ ← massert (level =? 1);
      _ ← unlock;
      mret Waiting) W1 (λ r W', r = Waiting ∧ calls_ok (kern W') ∧ mem W' = mem W ∧ sizes W' = sizes W ∧
    mq_ok q m sq (if sigpend then rq else joined K rq e) F [] W' ∧
    ∃ ec', tasks (kern W') !! e = Some ec' ∧ ready ec' = sigpend ∧ returnCode (wait ec') = TTOS_OK).
Proof.
  intros EC Hb Hsz Hk. pose proof Hq as [Hm Hh B Hw]. rewrite EC in B. destruct (send_inside W e ec Hok Hrun He) as [Hin Hrd].
  fold K in Hin. unfold wait_for. apply wp_bind, wp_bind, wp_mlk. eapply wp_upd_task; [exact He|]. apply wp_modify. simpl.
  set (ec2 := upd_wait _ ec). set (K2 := set_tasks _ _).
  assert (Hin2 : inside_ok K2) by exact (inside_upd (locked 1 K) e ec ec2 Hin He Hrd eq_refl eq_refl eq_refl).
  assert (Hnq : ∀ w wq, wqs K !! w = Some wq → e ∉ wq_tasks wq).
  { by apply (ready_not_queued K e ec); [apply Hok|..]. }
  assert (Hw2 : waits_ok q m sq rq (<[e := WaitArgs buf psize]> (args W)) (sizes W) (mem W) K2).
  { destruct Hw as [Hs Hr Es Er Hss Hrs]. split; try done.
    - intros t Ht. assert (Hne : t ≠ e) by (intros ->; by apply (Hnq _ _ Hs)).
      destruct (Hss t Ht) as (w & tc & ? & ? & ? & ? & ? & ?). exists w, tc. simpl. by rewrite !lookup_insert_ne by done.
    - intros t Ht. assert (Hne : t ≠ e) by (intros ->; by apply (Hnq _ _ Hr)).
      destruct (Hrs t Ht) as (w & ? & ?). exists w. by rewrite lookup_insert_ne by done. }
  set (W2 := set_args _ _).
  assert (Hrest : ∀ K3, inside_ok K3 → env K3 = env K2 →
    (∃ ec3, tasks K3 !! e = Some ec3 ∧ ready ec3 = sigpend ∧ returnCode (wait ec3) = TTOS_OK) →
    waits_ok q m sq (if sigpend then rq else joined K rq e) (args W2) (sizes W) (mem W) K3 →
    wp (cpu ← lk (gets this_cpu);
        level ← lk (ttosGetDisableScheduleLevelWithCpuID cpu);
        _ ← massert (level =? 1);
        _ ← unlock;
        mret Waiting) (set_kern K3 W2) (λ r W', r = Waiting ∧ calls_ok (kern W') ∧ mem W' = mem W ∧ sizes W' = sizes W ∧
      mq_ok q m sq (if sigpend then rq else joined K rq e) F [] W' ∧
      ∃ ec', tasks (kern W') !! e = Some ec' ∧ ready ec' = sigpend ∧ returnCode (wait ec') = TTOS_OK)).
  { intros K3 Hin3 He3 (ec3 & Hec3 & Hr3 & Hc3) Hw3. pose proof He3 as [= _ _ _ _ _ Ec3 _ El3].
    apply wp_bind, wp_mlk_gets, wp_bind, wp_mlk. simpl. unfold ttosGetDisableScheduleLevelWithCpuID, wp at 1.
    assert (Hl3 : ttosDisableScheduleLevel K3 !! this_cpu K3 = Some 1) by (rewrite El3, Ec3; apply lookup_insert_eq).
    rewrite Hl3. simpl. apply wp_bind, wp_assert; [done|].
    eapply wp_mono; [apply (mq_leave _ q m sq (if sigpend then rq else joined K rq e) F []); [done..|by split]|].
    intros r W' (-> & Hok' & Hq' & K' & -> & Hrs). split_and!; try done. simpl in *.
    destruct (evolves_task _ _ _ _ (rs_evolves _ _ Hrs) Hec3) as (ec' & He' & Hcm). exists ec'.
    destruct (calm_ready _ _ Hcm) as [-> _], (calm_fields _ _ Hcm) as [-> _]. done. }
  destruct sigpend; simpl in *.
  - apply wp_bind, wp_ret. apply (Hrest K2); try done. exists ec2. split; [apply lookup_insert_eq|done].
  - apply wp_bind, wp_mlk. eapply wp_mono.
    { apply (enqueue_running K2 e ec2 (receiveWaitQueue q) rq ticks); try done; [apply lookup_insert_eq|apply Hw..]. }
    intros [] K3 [Hbl Hin3]. destruct (bl_task _ _ _ _ _ _ _ _ Hbl) as [v Hv].
    assert (Ej : joined K2 rq e = joined K rq e).
    { apply joined_ext. intros y. by apply (cur_pri_upd K K2 e ec ec2). }
    apply (Hrest K3); [done|apply Hbl|..].
    + eexists. split; [exact Hv|]. split; [|done]. apply (blocked_not_ready rq true).
      by rewrite (wk_recv_state _ _ _ _ _ _ _ _ Hw).
    + pose proof (bl_wqs _ _ _ _ _ _ _ _ Hbl) as Hqs. rewrite Ej in Hqs. destruct Hw2 as [Hs Hr Es Er Hss Hrs]. split; try done.
      * rewrite Hqs, lookup_insert_ne; [done|]. unfold sendWaitQueue, receiveWaitQueue. lia.
      * rewrite Hqs. apply lookup_insert_eq.
      * intros t Ht. assert (Hne : t ≠ e) by (intros ->; by apply (Hnq _ _ Hs)).
        destruct (Hss t Ht) as (w & tc & Hw' & Htc & Hn' & Hb' & Ho & Hc).
        destruct (only_wt_keeps K2 K3 e t (bl_rest _ _ _ _ _ _ _ _ Hbl) Hne tc Htc) as (tc' & Htc' & E).
        exists w, tc'. by rewrite E.
      * intros t Ht. rewrite joined_perm, elem_of_cons in Ht. destruct Ht as [->|Ht]; [|by apply Hrs].
        exists (WaitArgs buf psize). split; [apply lookup_insert_eq|done].
Qed.

Lemma receive_run buf psize options ticks sigpend : buf ≠ 0 → psize ≠ 0 → 0 ≤ ticks < 2 ^ 32 →
  buffer_ok m (mem W) buf (maxMsgSize m) → is_Some (sizes W !! psize) →
  wp (TTOS_ReceiveMsgq q buf psize options ticks sigpend) W (λ r W', calls_ok (kern W') ∧ mem W' = mem W ∧ sizes W' = sizes W ∧
    receive_outcome q m sq rq F C W e options ticks sigpend r W').
Proof.
  intros Hbuf Hps Hk Hb Hsz. pose proof Hq as [Hm Hh B Hw]. unfold TTOS_ReceiveMsgq, receive_outcome.
  apply wp_bind, wp_mlk. eapply wp_my_running; [done|]. rewrite set_kern_same.
  apply wp_bind, wp_mlk_gets. fold K. rewrite (is_task _ (co_inside _ Hok)).
  apply wp_bind, wp_mlk. unfold ttosIsIdleTask. apply wp_bind, wp_gets, wp_gets. fold K.
  rewrite bool_decide_false by done. replace (set_kern K W) with W by (by destruct W).
  rewrite (proj2 (Z.eqb_neq 0 buf)), (proj2 (Z.eqb_neq 0 psize)) by lia. simpl.
  apply wp_bind. eapply wp_mono; [apply (mq_object_run W q m); [done..|apply Hok]|]. intros b W0 [-> ->]. fold K W1. simpl.
  apply wp_bind. eapply wp_get_msgq; [done|].
  assert (Hcase : C = [] ∨ ∃ x C', C = x :: C') by (clear; destruct C; eauto).
  destruct Hcase as [EC|(x & C' & EC)]; rewrite EC.
  - assert (Hc : pendingCount m = 0).
    { rewrite (mb_count _ _ _ _ _ _ _ B). pose proof (mb_contents _ _ _ _ _ _ _ B) as Hf. rewrite EC in Hf.
      by rewrite (Forall2_nil_inv_r _ _ Hf). }
    rewrite Hc. simpl. destruct (may_wait options ticks); simpl.
    + eapply wp_mono; [by apply receive_wait|]. intros r W' (-> & ? & ? & ? & ? & ?). done.
    + eapply wp_mono; [apply (mq_leave W1 q m sq rq F [] (Done TTOS_UNSATISFIED)); [apply inside_locked, Hok|apply locked_level|rewrite <- EC; by apply mq_locked]|].
      intros r W' (-> & ? & ? & K' & -> & _). done.
  - destruct (receive_block x C' EC) as (a & Hwp & Hc & Ep & Hp & Hf).
    rewrite (proj2 (Z.eqb_neq _ 0)) by done. simpl. rewrite <- Ep. apply wp_bind, wp_head; [done|].
    apply wp_bind, wp_gets. simpl. rewrite Hf. eapply wp_mono; [exact Hwp|].
    intros r W' (? & ? & ? & -> & m' & ? & ? & ?). split_and!; try done. by exists a, m'.
Qed.

End Receive.

(** ** Reading the message in hand *)

(** What [ttosReceiveMessage] by [e] does with the message [x]: its bytes and its size
    go to the caller; its block goes back, or takes the message of the first task
    that waits to send. *)
Definition finish_outcome (q : mqid) (m : msgq) (sq rq : wqueue) (F : list (Z * flight)) (C : list message)
    (W : mworld) (e : tid) (x : message) (buf psize : Z) (W' : mworld) : Prop :=
  sizes W' = <[psize := Z.of_nat (length x.2)]> (sizes W) ∧ load (length x.2) buf (mem W') = Some x.2 ∧
  ∃ m' ec', same_queue m m' ∧ disableDeleteFlag m' = false ∧ tasks (kern W') !! e = Some ec' ∧
  match wq_tasks sq with
  | [] => mq_ok q m' sq rq F C W' ∧ wait_count (wait ec') = x.1 ∧ notices W' = notices W
  | t :: xs => ∃ w tc bs, args W !! t = Some w ∧ tasks (kern W) !! t = Some tc ∧
      load (Z.to_nat (returnArgument1 w)) (returnArgument w) (store buf x.2 (mem W)) = Some bs ∧
      mq_ok q m' (set_wq_tasks xs sq) rq F (pq_insert (wait_count (wait tc), bs) C) W' ∧
      awake t tc (wait_count (wait tc)) (kern W') ∧ wait_count (wait ec') = wait_count (wait tc) ∧
      notices W' = notified m rq (notices W)
  end.

Section Finish.
Context (q : mqid) (m : msgq) (sq rq : wqueue) (F : list (Z * flight)) (C : list message) (e : tid).

(** The priority is recorded, and the lock given up. *)
Lemma finish_leave W a hd m1 sq1 C1 ec : inside_ok (kern W) →
  ttosDisableScheduleLevel (kern W) !! this_cpu (kern W) = Some 1 → tasks (kern W) !! e = Some ec → ready ec = true →
  headers W !! a = Some hd → mq_ok q m1 sq1 rq F C1 W →
  wp (hd ← get_header a;
      _ ← lk (upd_task e (upd_wait (set_wait_count (priority hd))));
      _ ← upd_msgq q (set_disable false);
      unlock) W (λ _ W', calls_ok (kern W') ∧ mq_ok q (set_disable false m1) sq1 rq F C1 W' ∧
    (∃ ec', tasks (kern W') !! e = Some ec' ∧ wait_count (wait ec') = priority hd) ∧
    mem W' = mem W ∧ sizes W' = sizes W ∧ notices W' = notices W ∧
    ∃ K1, inside_ok K1 ∧ rescheduled K1 (kern W') ∧ only_wt_but e (kern W) K1).
Proof.
  intros Hin Hl He Hr Hhd [Hm Hh B Hw]. apply wp_bind. eapply wp_get_header; [done|].
  apply wp_bind, wp_mlk. eapply wp_upd_task; [done|]. set (ec1 := upd_wait _ ec). set (K1 := set_tasks _ _).
  apply wp_bind. eapply wp_upd_msgq; [done|]. simpl.
  assert (Hin1 : inside_ok K1) by (by apply (inside_upd (kern W) e ec)).
  assert (Hrest : only_wt_but e (kern W) K1).
  { intros y Hy. simpl. rewrite lookup_insert_ne by done. destruct (tasks (kern W) !! y); constructor. apply same_but_wt_refl. }
  eapply wp_mono; [apply (mq_unlock _ q (set_disable false m1) sq1 rq F C1); simpl; try done|].
  - split; simpl; [apply lookup_insert_eq|done|by apply body_disable|]. apply waits_disable.
    eapply waits_kern; [exact Hw|apply Hw|apply Hw|done|done| |done]. intros t Ht. split; [done|].
    eapply only_wt_keeps; [exact Hrest|]. intros ->.
    by apply (ready_not_queued (kern W) e ec (bi_wqs _ (is_block _ Hin)) He Hr _ _ (wk_send _ _ _ _ _ _ _ _ Hw)).
  - intros [] W' (Hok' & Hq' & K' & -> & Hrs). split_and!; try done; [|by exists K1].
    assert (He1 : tasks K1 !! e = Some ec1) by apply lookup_insert_eq.
    destruct (evolves_task _ _ _ _ (rs_evolves _ _ Hrs) He1) as (ec2 & He2 & Hcm). exists ec2.
    by destruct (calm_fields _ _ Hcm) as [-> _].
Qed.

(** The block is filled by the waiting sender [t]. *)
Lemma refill_run W a f K t xs tc w bs m1 : msgqs W !! q = Some m1 →
  mq_body q m1 ((a, f) :: F) C (lists W) (headers W) (mem W) → inside_ok K →
  wqs K !! sendWaitQueue q = Some sq → wqs K !! receiveWaitQueue q = Some rq →
  wq_tasks sq = t :: xs → tasks K !! t = Some tc → taken K t xs (sendWaitQueue q) sq (kern W) →
  args W !! t = Some w → 0 < returnArgument1 w ≤ maxMsgSize m1 →
  buffer_ok m1 (mem W) (returnArgument w) (returnArgument1 w) →
  wait_option (wait tc) = 0 → 0 ≤ wait_count (wait tc) < 32 →
  load (Z.to_nat (returnArgument1 w)) (returnArgument w) (mem W) = Some bs →
  wp (refill q a t) W (λ _ W', let y := (wait_count (wait tc), bs) in
    woke t xs (sendWaitQueue q) sq tc (wait_count (wait tc)) K (kern W') ∧
    msgqs W' = <[q := with_pending m1 y]> (msgqs W) ∧
    mq_body q (with_pending m1 y) F (pq_insert y C) (lists W') (headers W') (mem W') ∧
    mem W' = store (a + BUFFER_OFFSET) bs (mem W) ∧ sizes W' = sizes W ∧ args W' = args W ∧
    headers W' !! a = Some (MsgBuf (returnArgument1 w) y.1) ∧ notices W' = notified m1 rq (notices W)).
Proof.
  intros Hm B Hin Hsq Hrq Hxs Ht Htk Hwa Hn [Hmap Hap] Ho Hc Hld. pose proof (load_length _ _ _ _ Hld) as Hlen.
  assert (Hab : a ∈ blocks m1) by (apply (body_in _ _ _ _ _ _ _ a B); right; right; left).
  pose proof (block_size_range (maxMsgSize m1)) as Hbs. pose proof (mb_room _ _ _ _ _ _ _ B) as Hroom.
  unfold BUFFER_OFFSET in Hroom. assert (Eu : u32 (returnArgument1 w) = returnArgument1 w) by (apply u32_small; lia).
  set (y := (wait_count (wait tc), bs) : message).
  pose proof (body_fill _ _ _ _ _ a f F C y B Hc) as B1. specialize (B1 ltac:(simpl; lia)). simpl in B1.
  destruct (mb_mem _ _ _ _ _ _ _ B a Hab) as [[hd Hhd] Hbm].
  unfold refill. apply wp_bind. eapply wp_get_args; [done|]. rewrite Eu. apply wp_bind. eapply wp_copy with (bs := bs); [done|lia|..].
  { intros i Hi. apply Hbm. lia. }
  { specialize (Hap a Hab). unfold apart in *. lia. }
  apply wp_bind, wp_mlk. eapply wp_mono; [by apply (wake_up_run K t xs tc (sendWaitQueue q) sq)|]. intros [] K2 [Hwo _].
  destruct (wo_task _ _ _ _ _ _ _ _ Hwo) as (tc2 & Ht2 & _ & _ & _ & Ec2 & Eo2).
  apply wp_bind, wp_mlk. eapply wp_get_task; [exact Ht2|]. apply wp_bind. eapply wp_upd_header; [exact Hhd|].
  rewrite Eo2, Ho, Ec2, u8_small by lia. simpl.
  assert (En : returnArgument1 w = Z.of_nat (length bs)) by lia. rewrite En.
  eapply wp_mono; [apply (insert_msg_run _ q m1 rq a y F C); simpl; [done|exact B1|]|].
  - rewrite (wo_wqs _ _ _ _ _ _ _ _ Hwo), lookup_insert_ne; [done|]. unfold sendWaitQueue, receiveWaitQueue. lia.
  - intros [] W' [-> B2]. simpl in *. split_and!; try done. apply lookup_insert_eq.
Qed.

Lemma finish_run W a x ec buf psize : calls_ok (kern W) → mq_ok q m sq rq ((a, Taken x) :: F) C W →
  runningTask (kern W) !! this_cpu (kern W) = Some e → tasks (kern W) !! e = Some ec →
  buffer_ok m (mem W) buf (maxMsgSize m) → is_Some (sizes W !! psize) →
  wp (ttosReceiveMessage q a buf psize) W (λ _ W', calls_ok (kern W') ∧
    finish_outcome q m sq rq F C W e x buf psize W').
Proof.
  intros Hok [Hm Hh B Hw] Hrun He [Hmap Hap] Hsz. pose proof (co_ready _ Hok e ec Hrun He) as Hrd.
  pose proof (mb_flight _ _ _ _ _ _ _ B) as [Hx _]%Forall_cons. simpl in Hx. pose proof (ho_size _ _ _ _ _ Hx) as Hn.
  assert (Hab : a ∈ blocks m) by (apply (body_in _ _ _ _ _ _ _ a B); right; right; left).
  assert (Hapx : ∀ b, b ∈ blocks m → apart (b + BUFFER_OFFSET) (maxMsgSize m) buf (Z.of_nat (length x.2))).
  { intros b Hb. specialize (Hap b Hb). unfold apart in *. lia. }
  unfold ttosReceiveMessage. apply wp_bind, wp_mlk_gets. rewrite Hrun.
  apply wp_bind. eapply wp_get_header; [apply (ho_header _ _ _ _ _ Hx)|]. simpl.
  apply wp_bind, wp_store_size; [done|]. apply wp_bind. eapply wp_copy with (bs := x.2); simpl.
  { rewrite Nat2Z.id. apply (ho_bytes _ _ _ _ _ Hx). } { lia. } { intros i Hi. apply Hmap. lia. }
  { specialize (Hapx a Hab). unfold apart in *. lia. }
  apply wp_bind, wp_mlk. eapply wp_mono; [apply lock_run, Hok|]. intros [] K1 ->. rewrite u64_small by lia.
  change (0 + 1) with 1. simpl. set (M1 := store buf x.2 (mem W)). set (K1 := locked 1 (kern W)).
  assert (Hin1 : inside_ok K1) by (apply inside_locked, Hok).
  pose proof (body_store q m _ _ _ _ _ buf x.2 B Hapx) as B1. fold M1 in B1.
  set (S1 := <[psize := Z.of_nat (length x.2)]> (sizes W)).
  assert (Hw1 : waits_ok q m sq rq (args W) S1 M1 K1) by (apply waits_sizes, waits_store; by destruct Hw; split).
  apply wp_bind, wp_mlk. unfold finish_outcome. destruct (wq_tasks sq) as [|t xs] eqn:Hxs.
  - unfold wp at 1. simpl. rewrite (take_empty_run K1 (sendWaitQueue q) sq) by (try done; apply Hw).
    apply wp_bind. apply wp_add_tail; [apply (mb_free _ _ _ _ _ _ _ B); left|].
    eapply wp_mono; [eapply (finish_leave _ a _ m sq C ec); simpl; try done; [apply locked_level|apply (ho_header _ _ _ _ _ Hx)|]|].
    + split; simpl; try done. by apply (body_release q m _ _ _ a (Taken x)).
    + intros [] W' (Hok' & Hq' & (ec' & He' & Hc') & EM & ES & EN & _). split; [done|]. split_and!; [done|rewrite EM; apply load_store_same|].
      by exists (set_disable false m), ec'.
  - destruct (wk_senders _ _ _ _ _ _ _ _ Hw1 t) as (w & tc & Hwa & Htc & Hnw & Hbw & Ho & Hc); [rewrite Hxs; left|].
    destruct (load_mapped (Z.to_nat (returnArgument1 w)) (returnArgument w) M1) as (bs & Hbs & Hlb).
    { rewrite Z2Nat.id by lia. apply Hbw. }
    eapply wp_mono; [apply (take_run K1 t xs tc); try done; [apply Hin1|apply Hw]|]. intros o K2 [-> Htk].
    set (W2 := set_kern K2 _). apply wp_bind.
    eapply wp_mono; [apply (refill_run W2 a (Taken x) K1 t xs tc w bs m); try done; apply Hw1|].
    intros [] W3 (Hwo & Em3 & B3 & EM3 & ES3 & EA3 & EH3 & EN3). simpl in *.
    set (y := (wait_count (wait tc), bs) : message) in *. set (m3 := with_pending m y) in *.
    assert (Hne : e ≠ t).
    { intros <-. by apply (ready_not_queued K1 e ec (bi_wqs _ (is_block _ Hin1)) He Hrd _ _ (wk_send _ _ _ _ _ _ _ _ Hw1)); rewrite Hxs; left. }
    pose proof (wo_rest _ _ _ _ _ _ _ _ Hwo e Hne) as Hoe. change (tasks K1 !! e) with (tasks (kern W) !! e) in Hoe. rewrite He in Hoe.
    inversion Hoe as [ec0 ec3 Hec3 E1 E2|]; subst.
    eapply wp_mono; [eapply (finish_leave W3 a _ m3 (set_wq_tasks xs sq) (pq_insert y C) ec3)|].
    + apply Hwo.
    + pose proof (wo_env _ _ _ _ _ _ _ _ Hwo) as [= _ _ _ _ _ -> _ ->]. apply lookup_insert_eq.
    + done.
    + by rewrite Hec3.
    + exact EH3.
    + split; simpl; [rewrite Em3; apply lookup_insert_eq|done|done|]. rewrite EA3, ES3, EM3.
      apply waits_store, waits_pending. by eapply (waits_woke_send q m sq rq _ _ _ K1).
    + intros [] W' (Hok' & Hq' & (ec' & He' & Hc') & EM & ES & EN & K4 & Hin4 & Hrs & Hrest). split; [done|].
      split_and!; [by rewrite ES, ES3|rewrite EM, EM3|].
      { rewrite load_store_apart; [apply load_store_same|]. specialize (Hapx a Hab). unfold apart in *. lia. }
      exists (set_disable false m3), ec'. split_and!; try done. exists w, tc, bs. split_and!; try done.
      * destruct (wo_task _ _ _ _ _ _ _ _ Hwo) as (t1 & Ht1 & Hr1 & Hc1 & Hq1 & Hn1 & _).
        specialize (Hrest t ltac:(congruence)). rewrite Ht1 in Hrest. inversion Hrest as [b1 t2 Hb1 E3 E4|]; subst.
        destruct (evolves_task _ _ _ _ (rs_evolves _ _ Hrs) (eq_sym E4)) as (t3 & Ht3 & Hcm). exists t3.
        destruct (calm_ready _ _ Hcm) as [-> _], (calm_fields _ _ Hcm) as [-> _]. rewrite Hb1. done.
      * by rewrite EN, EN3.
Qed.

End Finish.
