(* ===== verification/MsgqProps.v ===== *)
(** * Theorems on message queues

    Sending and receiving against a queue by priority: the interleavings of calls
    that copy their messages outside the lock, what a commit does, the round trip
    of a message, and what urgent messages do to the bitmap. *)

From S2P Require Import Prelude Chain PrioMap DeltaQ Kernel Sched Frame SchedInv Dispatch SchedProps Service Wait WaitInv Block Names Sema SemaInv Msgq MsgqInv MsgqOps.
From Stdlib Require Import Init.Byte.
Import Width.
Local Open Scope Z_scope.

(** ** Histories *)

(** A call between its two parts, by the block it holds. *)
Inductive call := Sender (t : tid) (buf n : Z) | Reader (t : tid) (buf psize : Z).

(** The world and the calls that hold a block. *)
Abbreviation mstate := (mworld * list (Z * call))%type.

Definition started (r : call_result) (c : call) (P : list (Z * call)) : list (Z * call) :=
  match r with Block a => (a, c) :: P | _ => P end.

(** A buffer of a caller, apart from the blocks of the queue. *)
Definition caller_buffer (q : mqid) (W : mworld) (b n : Z) : Prop :=
  ∀ m, msgqs W !! q = Some m → buffer_ok m (mem W) b n.
Definition largest (q : mqid) (W : mworld) : Z := default 0 (maxMsgSize <$> msgqs W !! q).

(** The rest of the kernel between two steps on the queue: tasks leave its wait
    queues (a deadline, a signal), and those that stay keep what they left. *)
Record env_move (q : mqid) (K K' : kernel) : Prop := {
  em_calls : calls_ok K';
  em_send : ∀ wq, wqs K !! sendWaitQueue q = Some wq → ∃ wq', wqs K' !! sendWaitQueue q = Some wq' ∧
    wq_state wq' = wq_state wq ∧ ∀ t, t ∈ wq_tasks wq' → t ∈ wq_tasks wq ∧ keeps_wait K K' t;
  em_recv : ∀ wq, wqs K !! receiveWaitQueue q = Some wq → ∃ wq', wqs K' !! receiveWaitQueue q = Some wq' ∧
    wq_state wq' = wq_state wq ∧ ∀ t, t ∈ wq_tasks wq' → t ∈ wq_tasks wq;
}.

(** What a task does with the queue, with the answer of the call, and what happens
    beside it. *)
Inductive mop :=
| OSend (e : tid) (buf n options ticks : Z) (r : call_result)
| OCommit (a : Z) (e : tid) (buf n : Z)
| OReceive (e : tid) (buf psize options ticks : Z) (sigpend : bool) (r : call_result)
| OFinish (a : Z) (e : tid) (buf psize : Z)
| OKernel (K' : kernel)
| OWrite (b : Z) (bs : list byte).

(** The steps of the tasks that use the queue, of ordinary (not urgent) messages. *)
Inductive mstep (q : mqid) : mstate → mop → mstate → Prop :=
| step_send W P e buf n options ticks r W' :
    runningTask (kern W) !! this_cpu (kern W) = Some e → idleTask (kern W) !! this_cpu (kern W) ≠ Some e →
    buf ≠ 0 → 0 < n → 0 ≤ ticks < 2 ^ 32 → Z.land options TTOS_URGENT = 0 → caller_buffer q W buf n →
    TTOS_SendMsgq q buf n options ticks W = Some (r, W') →
    mstep q (W, P) (OSend e buf n options ticks r) (W', started r (Sender e buf n) P)
| step_commit W P1 P2 a e buf n W' : caller_buffer q W buf n → 0 < n ≤ largest q W →
    ttosCommitMessage q a buf n 0 W = Some (tt, W') →
    mstep q (W, P1 ++ (a, Sender e buf n) :: P2) (OCommit a e buf n) (W', P1 ++ P2)
| step_receive W P e buf psize options ticks sigpend r W' :
    runningTask (kern W) !! this_cpu (kern W) = Some e → idleTask (kern W) !! this_cpu (kern W) ≠ Some e →
    buf ≠ 0 → psize ≠ 0 → 0 ≤ ticks < 2 ^ 32 → caller_buffer q W buf (largest q W) → is_Some (sizes W !! psize) →
    TTOS_ReceiveMsgq q buf psize options ticks sigpend W = Some (r, W') →
    mstep q (W, P) (OReceive e buf psize options ticks sigpend r) (W', started r (Reader e buf psize) P)
| step_finish W P1 P2 a e buf psize W' : runningTask (kern W) !! this_cpu (kern W) = Some e →
    caller_buffer q W buf (largest q W) → is_Some (sizes W !! psize) →
    ttosReceiveMessage q a buf psize W = Some (tt, W') →
    mstep q (W, P1 ++ (a, Reader e buf psize) :: P2) (OFinish a e buf psize) (W', P1 ++ P2)
| step_kernel W P K' : env_move q (kern W) K' → mstep q (W, P) (OKernel K') (set_kern K' W, P)
| step_write W P b bs : caller_buffer q W b (Z.of_nat (length bs)) →
    mstep q (W, P) (OWrite b bs) (set_mem (store b bs (mem W)) W, P).

(** A run of such steps, each with the state it leads to. *)
Inductive mhist (q : mqid) : mstate → list (mop * mstate) → mstate → Prop :=
| hist_end S : mhist q S [] S
| hist_step S o S1 tr S' : mstep q S o S1 → mhist q S1 tr S' → mhist q S ((o, S1) :: tr) S'.

(** ** The queue that is promised

    The pending messages in the order of delivery, and the blocks in the hands of a
    call: of a sender, with the priority it asked for, or of a receiver, with the
    message it takes. *)
Abbreviation aqueue := (list message * list (Z * flight))%type.

Definition tasks_of (w : wqid) (K : kernel) : list tid := default [] (wq_tasks <$> wqs K !! w).

Definition gives_up (f : Z * flight) (F F' : list (Z * flight)) : Prop := ∃ F1 F2, F = F1 ++ f :: F2 ∧ F' = F1 ++ F2.

(** What each step does to it.  A sender gets a block if there is one; its commit
    puts the message, as its buffer has it then, behind those of its priority, and
    the first pending message then goes to the first task that waits for one.  A
    receiver takes the first message; when it has read it, the first task that waits
    to send gets its message, as its buffer has it then, into the queue. *)
Inductive aq_step (q : mqid) (W : mworld) : aqueue → mop → mworld → aqueue → Prop :=
| aq_too_big C F e buf n options ticks W' : largest q W < n →
    aq_step q W (C, F) (OSend e buf n options ticks (Done TTOS_INVALID_SIZE)) W' (C, F)
| aq_full C F e buf n options ticks W' : n ≤ largest q W → unused q (lists W) = [] →
    aq_step q W (C, F) (OSend e buf n options ticks (if may_wait options ticks then Waiting else Done TTOS_TOO_MANY)) W' (C, F)
| aq_block C F e buf n options ticks a l W' : n ≤ largest q W → unused q (lists W) = a :: l →
    aq_step q W (C, F) (OSend e buf n options ticks (Block a)) W' (C, (a, Filling (TTOS_MSGQ_GET_PRIORITY options)) :: F)
| aq_commit C F F' a e buf n p bs W' : gives_up (a, Filling p) F F' → load (Z.to_nat n) buf (mem W) = Some bs →
    tasks_of (receiveWaitQueue q) (kern W) = [] →
    aq_step q W (C, F) (OCommit a e buf n) W' (pq_insert (p, bs) C, F')
| aq_deliver C C' F F' a e buf n p bs t xs y w tc W' : gives_up (a, Filling p) F F' → load (Z.to_nat n) buf (mem W) = Some bs →
    tasks_of (receiveWaitQueue q) (kern W) = t :: xs → tasks_of (receiveWaitQueue q) (kern W') = xs →
    pq_insert (p, bs) C = y :: C' → args W !! t = Some w → load (length y.2) (returnArgument w) (mem W') = Some y.2 →
    tasks (kern W) !! t = Some tc → awake t tc y.1 (kern W') →
    aq_step q W (C, F) (OCommit a e buf n) W' (C', F')
| aq_take x C F e buf psize options ticks sigpend a W' :
    aq_step q W (x :: C, F) (OReceive e buf psize options ticks sigpend (Block a)) W' (C, (a, Taken x) :: F)
| aq_none F e buf psize options ticks sigpend W' :
    aq_step q W ([], F) (OReceive e buf psize options ticks sigpend
      (if may_wait options ticks then Waiting else Done TTOS_UNSATISFIED)) W' ([], F)
| aq_read C F F' a e buf psize x W' : gives_up (a, Taken x) F F' → load (length x.2) buf (mem W') = Some x.2 →
    sizes W' !! psize = Some (Z.of_nat (length x.2)) → tasks_of (sendWaitQueue q) (kern W) = [] →
    aq_step q W (C, F) (OFinish a e buf psize) W' (C, F')
| aq_refill C F F' a e buf psize x t xs w tc bs W' : gives_up (a, Taken x) F F' → load (length x.2) buf (mem W') = Some x.2 →
    sizes W' !! psize = Some (Z.of_nat (length x.2)) →
    tasks_of (sendWaitQueue q) (kern W) = t :: xs → tasks_of (sendWaitQueue q) (kern W') = xs →
    args W !! t = Some w → tasks (kern W) !! t = Some tc → awake t tc (wait_count (wait tc)) (kern W') →
    load (Z.to_nat (returnArgument1 w)) (returnArgument w) (store buf x.2 (mem W)) = Some bs →
    aq_step q W (C, F) (OFinish a e buf psize) W' (pq_insert (wait_count (wait tc), bs) C, F')
| aq_kernel A K' W' : aq_step q W A (OKernel K') W' A
| aq_write A b bs W' : aq_step q W A (OWrite b bs) W' A.

Inductive aq_run (q : mqid) : aqueue → mworld → list (mop * mstate) → aqueue → Prop :=
| aq_end A W : aq_run q A W [] A
| aq_next A W o S1 A1 tr A' : aq_step q W A o S1.1 A1 → aq_run q A1 S1.1 tr A' → aq_run q A W ((o, S1) :: tr) A'.

(** The calls in progress hold the blocks the invariant says. *)
Definition held (c : Z * call) (f : Z * flight) : Prop :=
  c.1 = f.1 ∧ match c.2, f.2 with Sender _ _ _, Filling _ | Reader _ _ _, Taken _ => True | _, _ => False end.

Definition queue_state (q : mqid) (A : aqueue) (S : mstate) : Prop :=
  calls_ok (kern S.1) ∧ (∃ m sq rq, mq_ok q m sq rq A.2 A.1 S.1) ∧ Forall2 held S.2 A.2.

Lemma body_perm q m F F' C L H M : mq_body q m F C L H M → F ≡ₚ F' → mq_body q m F' C L H M.
Proof. intros [] E. split; try done; [by rewrite <- E|intros a; rewrite <- E; auto|by rewrite <- E]. Qed.

Lemma mq_ok_perm q m sq rq F F' C W : mq_ok q m sq rq F C W → F ≡ₚ F' → mq_ok q m sq rq F' C W.
Proof. intros [] E. split; try done. by eapply body_perm. Qed.

Lemma held_middle P1 P2 c F : Forall2 held (P1 ++ c :: P2) F →
  ∃ f F', gives_up f F F' ∧ F ≡ₚ f :: F' ∧ held c f ∧ Forall2 held (P1 ++ P2) F'.
Proof.
  intros Hf. apply Forall2_app_inv_l in Hf as (F1 & F2 & H1 & H2 & ->). apply Forall2_cons_inv_l in H2 as (f & F2' & Hc & H2 & ->).
  exists f, (F1 ++ F2'). split_and!; [by exists F1, F2'|by rewrite Permutation_middle|done|by apply Forall2_app].
Qed.

Lemma tasks_of_recv q m sq rq F C W : mq_ok q m sq rq F C W → tasks_of (receiveWaitQueue q) (kern W) = wq_tasks rq.
Proof. intros Hq. unfold tasks_of. by rewrite (wk_recv _ _ _ _ _ _ _ _ (mo_waits _ _ _ _ _ _ _ Hq)). Qed.

Lemma tasks_of_send q m sq rq F C W : mq_ok q m sq rq F C W → tasks_of (sendWaitQueue q) (kern W) = wq_tasks sq.
Proof. intros Hq. unfold tasks_of. by rewrite (wk_send _ _ _ _ _ _ _ _ (mo_waits _ _ _ _ _ _ _ Hq)). Qed.

Section Steps.
Context (q : mqid) (C : list message) (F : list (Z * flight)).

(** A step to a state of the abstract queue that it allows. *)
Definition follows (W : mworld) (o : mop) (P' : list (Z * call)) (W' : mworld) : Prop :=
  ∃ A', aq_step q W (C, F) o W' A' ∧ queue_state q A' (W', P').

Lemma follows_to W o P' W' A' m sq rq : aq_step q W (C, F) o W' A' → calls_ok (kern W') →
  mq_ok q m sq rq A'.2 A'.1 W' → Forall2 held P' A'.2 → follows W o P' W'.
Proof. intros Ha Hok Hq Hh. exists A'. split; [done|]. split_and!; [done|by exists m, sq, rq|done]. Qed.

Lemma largest_of W m sq rq G D : mq_ok q m sq rq G D W → largest q W = maxMsgSize m.
Proof. intros Hq. unfold largest. by rewrite (mo_cb _ _ _ _ _ _ _ Hq). Qed.

Lemma running_task K e : calls_ok K → runningTask K !! this_cpu K = Some e → ∃ ec, tasks K !! e = Some ec.
Proof.
  intros Hok Hr. pose proof (bi_sched _ (is_block _ (co_inside _ Hok))) as Hi.
  destruct (si_run _ _ Hi _ (si_this _ _ Hi)) as (e' & ec & He' & Hec & _). simplify_eq. by exists ec.
Qed.

Lemma send_step W P e buf n options ticks : queue_state q (C, F) (W, P) →
  runningTask (kern W) !! this_cpu (kern W) = Some e → idleTask (kern W) !! this_cpu (kern W) ≠ Some e →
  buf ≠ 0 → 0 < n → 0 ≤ ticks < 2 ^ 32 → Z.land options TTOS_URGENT = 0 → caller_buffer q W buf n →
  wp (TTOS_SendMsgq q buf n options ticks) W (λ r W',
    follows W (OSend e buf n options ticks r) (started r (Sender e buf n) P) W').
Proof.
  intros (Hok & (m & sq & rq & Hq) & Hh) Hr Hni Hb Hn Hk Hu Hbuf. destruct (running_task _ _ Hok Hr) as [ec Hec].
  simpl in *. pose proof (largest_of _ _ _ _ _ _ Hq) as El.
  eapply wp_mono; [by apply (send_run W q m sq rq F C e ec options Hok Hq Hr Hec Hni buf n ticks Hb Hn Hk Hu), Hbuf, Hq|].
  intros r W' (Hok' & _ & Hout). unfold send_outcome in Hout. destruct (Z.ltb_spec (maxMsgSize m) n) as [Hbig|Hfit].
  { destruct Hout as [-> Hq']. eapply follows_to; [apply aq_too_big; lia|done..]. }
  destruct (unused q (lists W)) as [|a l] eqn:Eu.
  - pose proof (aq_full q W C F e buf n options ticks W' ltac:(lia) Eu) as Ha.
    destruct (may_wait options ticks); destruct Hout as [-> Hq'];
      (eapply (follows_to W _ _ W' (C, F)); [exact Ha|done|exact Hq'|done]).
  - destruct Hout as [-> Hq']. eapply follows_to; [by eapply aq_block; [lia|]|done..|]. by constructor.
Qed.

Lemma commit_step W P1 P2 a e buf n : queue_state q (C, F) (W, P1 ++ (a, Sender e buf n) :: P2) →
  caller_buffer q W buf n → 0 < n ≤ largest q W →
  wp (ttosCommitMessage q a buf n 0) W (λ _ W', follows W (OCommit a e buf n) (P1 ++ P2) W').
Proof.
  intros (Hok & (m & sq & rq & Hq) & Hh) Hbuf Hn. simpl in *. rewrite (largest_of _ _ _ _ _ _ Hq) in Hn.
  pose proof (tasks_of_recv _ _ _ _ _ _ _ Hq) as Er.
  destruct (held_middle _ _ _ _ Hh) as ([a' [p|x]] & F' & Hg & EF & [E Ht] & HF'); [|done]. simpl in E. subst a'.
  specialize (Hbuf m (mo_cb _ _ _ _ _ _ _ Hq)). destruct (load_mapped (Z.to_nat n) buf (mem W)) as (bs & Hbs & Hlen).
  { rewrite Z2Nat.id by lia. apply Hbuf. }
  assert (En : n = Z.of_nat (length bs)) by lia. pose proof Hbs as Hbs'.
  rewrite En in Hbuf, Hn, Hbs |- *. rewrite <- Hlen in Hbs'.
  eapply wp_mono; [apply (commit_run W q m sq rq a p F' C buf bs Hok); try done; by eapply mq_ok_perm|].
  intros [] W' [Hok' Hout]. unfold commit_outcome in Hout. destruct (wq_tasks rq) as [|t xs] eqn:Exs.
  - destruct Hout as (m' & _ & _ & Hq' & _). by eapply follows_to; [apply (aq_commit q W C F F' a e buf _ p bs)|..].
  - destruct Hout as (y & C' & m' & w & tc & Ey & Hw & Htc & _ & _ & Hq' & Hld & _ & Haw & _).
    eapply follows_to; [eapply (aq_deliver q W C C' F F'); try done|done|exact Hq'|done].
    by rewrite (tasks_of_recv _ _ _ _ _ _ _ Hq').
Qed.

Lemma receive_step W P e buf psize options ticks sigpend : queue_state q (C, F) (W, P) →
  runningTask (kern W) !! this_cpu (kern W) = Some e → idleTask (kern W) !! this_cpu (kern W) ≠ Some e →
  buf ≠ 0 → psize ≠ 0 → 0 ≤ ticks < 2 ^ 32 → caller_buffer q W buf (largest q W) → is_Some (sizes W !! psize) →
  wp (TTOS_ReceiveMsgq q buf psize options ticks sigpend) W (λ r W',
    follows W (OReceive e buf psize options ticks sigpend r) (started r (Reader e buf psize) P) W').
Proof.
  intros (Hok & (m & sq & rq & Hq) & Hh) Hr Hni Hb Hp Hk Hbuf Hsz. destruct (running_task _ _ Hok Hr) as [ec Hec].
  simpl in *. rewrite (largest_of _ _ _ _ _ _ Hq) in Hbuf. specialize (Hbuf m (mo_cb _ _ _ _ _ _ _ Hq)).
  eapply wp_mono; [by apply (receive_run W q m sq rq F C e ec Hok Hq Hr Hec Hni)|].
  intros r W' (Hok' & _ & _ & Hout). unfold receive_outcome in Hout. unfold follows. destruct C as [|x C'].
  - exists ([], F). pose proof (aq_none q W F e buf psize options ticks sigpend W') as Ha.
    destruct (may_wait options ticks); [destruct Hout as (-> & Hq' & _)|destruct Hout as (-> & Hq')];
      (split; [exact Ha|]; split_and!; [done|by do 3 eexists|done]).
  - destruct Hout as (a & m' & -> & _ & _ & Hq'). exists (C', (a, Taken x) :: F). split; [constructor|].
    split_and!; [done|by do 3 eexists|by constructor].
Qed.

Lemma finish_step W P1 P2 a e buf psize : queue_state q (C, F) (W, P1 ++ (a, Reader e buf psize) :: P2) →
  runningTask (kern W) !! this_cpu (kern W) = Some e → caller_buffer q W buf (largest q W) → is_Some (sizes W !! psize) →
  wp (ttosReceiveMessage q a buf psize) W (λ _ W', follows W (OFinish a e buf psize) (P1 ++ P2) W').
Proof.
  intros (Hok & (m & sq & rq & Hq) & Hh) Hr Hbuf Hsz. destruct (running_task _ _ Hok Hr) as [ec Hec].
  simpl in *. rewrite (largest_of _ _ _ _ _ _ Hq) in Hbuf. specialize (Hbuf m (mo_cb _ _ _ _ _ _ _ Hq)).
  pose proof (tasks_of_send _ _ _ _ _ _ _ Hq) as Esq.
  destruct (held_middle _ _ _ _ Hh) as ([a' [p|x]] & F' & Hg & EF & [E Ht] & HF'); [done|]. simpl in E. subst a'.
  eapply wp_mono; [apply (finish_run q m sq rq F' C e W a x ec buf psize Hok); try done; by eapply mq_ok_perm|].
  intros [] W' (Hok' & Es & Hld & m' & ec' & _ & _ & _ & Hout).
  assert (Hz : sizes W' !! psize = Some (Z.of_nat (length x.2))) by (rewrite Es; apply lookup_insert_eq).
  destruct (wq_tasks sq) as [|t xs].
  - destruct Hout as (Hq' & _). by eapply follows_to; [eapply (aq_read q W C F F')|..].
  - destruct Hout as (w & tc & bs & Hw & Htc & Hbs & Hq' & Haw & _).
    eapply follows_to; [eapply (aq_refill q W C F F'); try done|done|exact Hq'|done].
    by rewrite (tasks_of_send _ _ _ _ _ _ _ Hq').
Qed.

End Steps.

(** No call on the queue, and no continuation of a call in progress, faults. *)
Record no_fault (q : mqid) (W : mworld) (P : list (Z * call)) : Prop := {
  nf_send : ∀ e buf n options ticks,
    runningTask (kern W) !! this_cpu (kern W) = Some e → idleTask (kern W) !! this_cpu (kern W) ≠ Some e →
    buf ≠ 0 → 0 < n → 0 ≤ ticks < 2 ^ 32 → Z.land options TTOS_URGENT = 0 → caller_buffer q W buf n →
    ∃ r W', TTOS_SendMsgq q buf n options ticks W = Some (r, W');
  nf_commit : ∀ a e buf n, (a, Sender e buf n) ∈ P → caller_buffer q W buf n → 0 < n ≤ largest q W →
    ∃ W', ttosCommitMessage q a buf n 0 W = Some (tt, W');
  nf_receive : ∀ e buf psize options ticks sigpend,
    runningTask (kern W) !! this_cpu (kern W) = Some e → idleTask (kern W) !! this_cpu (kern W) ≠ Some e →
    buf ≠ 0 → psize ≠ 0 → 0 ≤ ticks < 2 ^ 32 → caller_buffer q W buf (largest q W) → is_Some (sizes W !! psize) →
    ∃ r W', TTOS_ReceiveMsgq q buf psize options ticks sigpend W = Some (r, W');
  nf_finish : ∀ a e buf psize, (a, Reader e buf psize) ∈ P → runningTask (kern W) !! this_cpu (kern W) = Some e →
    caller_buffer q W buf (largest q W) → is_Some (sizes W !! psize) →
    ∃ W', ttosReceiveMessage q a buf psize W = Some (tt, W');
}.

Lemma no_fault_state q A W P : queue_state q A (W, P) → no_fault q W P.
Proof.
  destruct A as [C F]. intros Hs. split.
  - intros e buf n options ticks ? ? ? ? ? ? ?. assert (Hwp := send_step q C F W P e buf n options ticks Hs).
    apply wp_run in Hwp as (r & W' & ? & _); eauto.
  - intros a e buf n (P1 & P2 & ->)%list_elem_of_split ? ?. assert (Hwp := commit_step q C F W P1 P2 a e buf n Hs).
    apply wp_run in Hwp as ([] & W' & ? & _); eauto.
  - intros e buf psize options ticks sigpend ? ? ? ? ? ? ?.
    assert (Hwp := receive_step q C F W P e buf psize options ticks sigpend Hs). apply wp_run in Hwp as (r & W' & ? & _); eauto.
  - intros a e buf psize (P1 & P2 & ->)%list_elem_of_split ? ? ?.
    assert (Hwp := finish_step q C F W P1 P2 a e buf psize Hs). apply wp_run in Hwp as ([] & W' & ? & _); eauto.
Qed.

(** The steps of other tasks and of the kernel. *)
Lemma kernel_step q A W P K' : queue_state q A (W, P) → env_move q (kern W) K' → queue_state q A (set_kern K' W, P).
Proof.
  intros (Hok & (m & sq & rq & [Hm Hh B Hw]) & HF) [Hc Hs Hr]. split_and!; [done| |done].
  destruct (Hs sq (wk_send _ _ _ _ _ _ _ _ Hw)) as (sq' & Hsq & Es & Hin).
  destruct (Hr rq (wk_recv _ _ _ _ _ _ _ _ Hw)) as (rq' & Hrq & Er & Hin').
  exists m, sq', rq'. split; try done. by eapply waits_kern.
Qed.

Lemma write_step q A W P b bs : queue_state q A (W, P) → caller_buffer q W b (Z.of_nat (length bs)) →
  queue_state q A (set_mem (store b bs (mem W)) W, P).
Proof.
  intros (Hok & (m & sq & rq & [Hm Hh B Hw]) & HF) Hb. split_and!; [done| |done]. exists m, sq, rq.
  split; try done; [|by apply waits_store]. apply body_store; [done|]. by apply (Hb m Hm).
Qed.

(** One step of any of them. *)
Lemma step_state q A S o S' : queue_state q A S → mstep q S o S' →
  ∃ A', aq_step q S.1 A o S'.1 A' ∧ queue_state q A' S'.
Proof.
  destruct A as [C F]. intros Hs Hst. destruct Hst as [W P e buf n options ticks r W' ? ? ? ? ? ? ? Hrun|
    W P1 P2 a e buf n W' ? ? Hrun|W P e buf psize options ticks sigpend r W' ? ? ? ? ? ? ? Hrun|
    W P1 P2 a e buf psize W' ? ? ? Hrun|W P K' ?|W P b bs ?].
  - assert (Hwp := send_step q C F W P e buf n options ticks Hs). unfold wp in Hwp. erewrite Hrun in Hwp. by apply Hwp.
  - assert (Hwp := commit_step q C F W P1 P2 a e buf n Hs). unfold wp in Hwp. erewrite Hrun in Hwp. by apply Hwp.
  - assert (Hwp := receive_step q C F W P e buf psize options ticks sigpend Hs). unfold wp in Hwp. erewrite Hrun in Hwp.
    by apply Hwp.
  - assert (Hwp := finish_step q C F W P1 P2 a e buf psize Hs). unfold wp in Hwp. erewrite Hrun in Hwp. by apply Hwp.
  - exists (C, F). split; [constructor|]. by apply kernel_step.
  - exists (C, F). split; [constructor|]. by apply write_step.
Qed.

(** C5: a message queue through every interleaving of its senders and receivers of
    ordinary (not urgent) messages, of whose calls any number may be between their
    two parts, with tasks leaving its wait queues and callers' memory changing in
    between.  The control block, the bitmap, the lists and the wait queues stay
    consistent and no message block is lost or shared ([queue_state]), no call
    faults, and step by step the queue does what [aq_step] says: a commit puts
    exactly the bytes of the sender's buffer at the priority it asked for behind
    those of that priority, and delivers the first pending message to the first
    waiting task; a receive takes the first pending message and reads exactly its
    bytes; the first waiting sender's message takes the place that becomes free; and
    nothing else changes the pending messages. *)
Theorem msgq_history_correct q A S tr S' : queue_state q A S → mhist q S tr S' →
  no_fault q S'.1 S'.2 ∧ ∃ A', aq_run q A S.1 tr A' ∧ queue_state q A' S'.
Proof.
  intros Hs Hr. assert (Hend : ∃ A', aq_run q A S.1 tr A' ∧ queue_state q A' S').
  { revert A Hs. induction Hr as [S|S o S1 tr S' Hst _ IH]; intros A Hs; [exists A; split; [constructor|done]|].
    destruct (step_state q A _ _ _ Hs Hst) as (A1 & H1 & Hs1). destruct (IH A1 Hs1) as (A' & H2 & Hs2).
    exists A'. split; [by econstructor|done]. }
  split; [|done]. destruct Hend as (A' & _ & Hs'). destruct S' as [W' P']. by eapply no_fault_state.
Qed.

(** ** Urgent messages *)

(** Without a pending message no bit is set. *)
Lemma body_empty q m F L H M : mq_body q m F [] L H M → msgPriorityBitMap m = 0 ∧ pendingCount m = 0.
Proof.
  intros B. pose proof (Forall2_nil_inv_r _ _ (mb_contents _ _ _ _ _ _ _ B)) as Eo. pose proof (mb_bits _ _ _ _ _ _ _ B) as [Hr Hb].
  split; [|by rewrite (mb_count _ _ _ _ _ _ _ B), Eo]. apply word_zero; [done|]. intros p Hp. rewrite Hb by done.
  apply bool_decide_eq_false. intros Hne. destruct (pend q p L) as [|a xs] eqn:E; [done|].
  assert (Ha : a ∈ order q L) by (apply elem_of_order; exists p; rewrite E; split; [done|left]).
  rewrite Eo in Ha. by apply elem_of_nil in Ha.
Qed.

Lemma no_such_head {A} q p (f : mqid * mhead → M mworld A) W : 32 ≤ p → (pending_head q p ≫= f) W = None.
Proof. intros Hp. unfold pending_head, massert. by rewrite (proj2 (Z.ltb_ge p TTOS_MSGQ_PRIORITY_NUMBER)). Qed.

Definition set_count (n : Z) (m : msgq) : msgq := set_pending n (msgPriorityBitMap m) m.

(** The insertion of an urgent message leaves the bitmap alone. *)
Lemma insert_urgent_run W q m rq a : msgqs W !! q = Some m → c_linked a (lists W) = false →
  wqs (kern W) !! receiveWaitQueue q = Some rq →
  wp (ttosInsertMsg q a 1) W (λ _ W', kern W' = kern W ∧ msgqs W' = <[q := set_count (u32 (pendingCount m + 1)) m]> (msgqs W)).
Proof.
  intros Hm Ha Hrq. unfold ttosInsertMsg. apply wp_bind. eapply wp_get_msgq; [done|]. apply wp_bind, wp_mlk.
  unfold ttosTaskqIsEmpty. apply wp_bind. unfold get_wq, wp at 1. rewrite Hrq. simpl. apply wp_ret. rewrite set_kern_same.
  apply wp_bind. eapply wp_upd_msgq; [done|]. apply wp_bind, wp_bind. simpl. apply wp_head; [done|]. unfold node_add_head.
  apply wp_bind, wp_gets. simpl. apply wp_bind, wp_assert; [by rewrite Ha|]. apply wp_modify.
  destruct (_ && _ && _); simpl; [by apply wp_modify|by apply wp_ret].
Qed.

(** [ttosCommitMessage] up to the waiting receivers, and from there on. *)
Definition commit_insert (q : mqid) (a buffer n isUrgent : Z) : M mworld unit :=
  _ ← copy (a + BUFFER_OFFSET) buffer n;
  _ ← lock;
  _ ← upd_header a (λ hd, MsgBuf n (priority hd));
  ttosInsertMsg q a isUrgent.

Definition commit_deliver (q : mqid) (n : Z) : M mworld unit :=
  o ← lk (ttosDequeueTaskFromTaskq (receiveWaitQueue q));
  _ ← match o with Some t => hand_message q t n | None => mret tt end;
  _ ← upd_msgq q (set_disable false);
  unlock.

Lemma commit_split q a buf n u W : ttosCommitMessage q a buf n u W = (commit_insert q a buf n u ≫= λ _, commit_deliver q n) W.
Proof.
  unfold ttosCommitMessage, commit_insert. unfold mbind, M_bind. destruct (copy _ _ _ W) as [[[] W1]|]; [|done].
  destruct (lock W1) as [[[] W2]|]; [|done]. by destruct (upd_header _ _ W2) as [[[] W3]|].
Qed.

Section Urgent.
Context (W : mworld) (q : mqid) (m : msgq) (sq rq : wqueue) (a p : Z) (F : list (Z * flight)) (buf : Z) (bs : list byte).
Hypothesis Hok : calls_ok (kern W).
Hypothesis Hq : mq_ok q m sq rq ((a, Filling p) :: F) [] W.
Hypothesis Hn : 0 < Z.of_nat (length bs) ≤ maxMsgSize m.
Hypothesis Hbuf : buffer_ok m (mem W) buf (Z.of_nat (length bs)).
Hypothesis Hld : load (length bs) buf (mem W) = Some bs.

Lemma urgent_insert_run :
  wp (commit_insert q a buf (Z.of_nat (length bs)) 1) W (λ _ W2, kern W2 = locked 1 (kern W) ∧
    msgqs W2 = <[q := set_count 1 m]> (msgqs W)).
Proof using Hok Hq Hn Hbuf Hld.
  destruct Hq as [Hm Hh B Hw], Hbuf as [Hmap Hap].
  pose proof (mb_flight _ _ _ _ _ _ _ B) as [[Hp (hd & Hhd & Ehd)] _]%Forall_cons.
  assert (Hab : a ∈ blocks m) by (apply (body_in _ _ _ _ _ _ _ a B); right; right; left).
  unfold commit_insert. apply wp_bind. eapply wp_copy with (bs := bs).
  { by rewrite Nat2Z.id. } { lia. }
  { intros i Hi. apply (mb_mem _ _ _ _ _ _ _ B a Hab). lia. }
  { specialize (Hap a Hab). unfold apart in *. lia. }
  apply wp_bind, wp_mlk. eapply wp_mono; [apply lock_run, Hok|]. intros [] K1 ->. rewrite u64_small by lia.
  change (0 + 1) with 1. simpl. apply wp_bind. eapply wp_upd_header; [done|].
  eapply wp_mono; [apply (insert_urgent_run _ q m rq a); simpl; [done| |apply Hw]|].
  - apply (mb_free _ _ _ _ _ _ _ B). left.
  - intros [] W2 [EK Em]. simpl in *. by rewrite (proj2 (body_empty _ _ _ _ _ _ B)) in Em.
Qed.

(** A task waits: the message is looked for at priority 32. *)
Lemma urgent_deliver_faults W2 n t xs : wq_tasks rq = t :: xs → kern W2 = locked 1 (kern W) →
  msgqs W2 = <[q := set_count 1 m]> (msgqs W) → commit_deliver q n W2 = None.
Proof using Hok Hq.
  intros Hxs EK Em. destruct Hq as [Hm Hh B Hw]. unfold commit_deliver. apply bind_fault, wp_mlk. rewrite EK.
  assert (Hin1 : inside_ok (locked 1 (kern W))) by (apply inside_locked, Hok).
  assert (Hrq : wqs (locked 1 (kern W)) !! receiveWaitQueue q = Some rq) by apply Hw.
  destruct (wq_member _ (bi_wqs _ (is_block _ Hin1)) _ _ t Hrq) as (tc & Htc & _); [rewrite Hxs; left|].
  eapply wp_mono; [apply (take_run (locked 1 (kern W)) t xs tc); try done; apply Hin1|]. intros o K2 [-> _].
  enough (Ef : hand_message q t n (set_kern K2 W2) = None) by (unfold mbind, M_bind; by rewrite Ef).
  unfold hand_message. apply bind_fault. eapply wp_get_msgq; [simpl; rewrite Em; apply lookup_insert_eq|].
  simpl. rewrite (proj1 (body_empty _ _ _ _ _ _ B)). by apply no_such_head.
Qed.

(** Nobody waits: the message is in the list of priority 0, and not in the bitmap. *)
Lemma urgent_deliver_run W2 n : wq_tasks rq = [] → kern W2 = locked 1 (kern W) →
  msgqs W2 = <[q := set_count 1 m]> (msgqs W) →
  wp (commit_deliver q n) W2 (λ _ W', calls_ok (kern W') ∧ msgqs W' !! q = Some (set_disable false (set_count 1 m))).
Proof using Hok Hq.
  intros Hxs EK Em. destruct Hq as [Hm Hh B Hw]. unfold commit_deliver. apply wp_bind, wp_mlk. rewrite EK.
  unfold wp at 1. rewrite (take_empty_run (locked 1 (kern W)) (receiveWaitQueue q) rq) by (done || apply Hw).
  apply wp_bind, wp_ret, wp_bind. eapply wp_upd_msgq; [simpl; rewrite Em; apply lookup_insert_eq|].
  eapply wp_mono; [apply munlock_run; simpl; [apply inside_locked, Hok|apply locked_level]|].
  intros [] W' (K' & -> & Hok' & _). split; [done|]. apply lookup_insert_eq.
Qed.

End Urgent.

(** Receiving from a queue that counts a message its bitmap does not have. *)
Lemma receive_lost W q m e buf psize options ticks sigpend : calls_ok (kern W) → msgqs W !! q = Some m → handle m = true →
  pendingCount m ≠ 0 → msgPriorityBitMap m = 0 → buf ≠ 0 → psize ≠ 0 →
  runningTask (kern W) !! this_cpu (kern W) = Some e → idleTask (kern W) !! this_cpu (kern W) ≠ Some e →
  TTOS_ReceiveMsgq q buf psize options ticks sigpend W = None.
Proof.
  intros Hok Hm Hh Hc Hb Hbuf Hps Hr Hni. unfold TTOS_ReceiveMsgq.
  apply bind_fault, wp_mlk. eapply wp_my_running; [done|]. rewrite set_kern_same.
  apply bind_fault, wp_mlk_gets. rewrite (is_task _ (co_inside _ Hok)).
  apply bind_fault, wp_mlk. unfold ttosIsIdleTask. apply wp_bind, wp_gets, wp_gets.
  rewrite bool_decide_false by done. rewrite set_kern_same.
  rewrite (proj2 (Z.eqb_neq 0 buf)), (proj2 (Z.eqb_neq 0 psize)) by lia. cbn [orb].
  apply bind_fault. eapply wp_mono; [apply (mq_object_run W q m); [done..|apply Hok]|]. intros b W0 [-> ->]. cbn [negb].
  apply bind_fault. eapply wp_get_msgq; [done|]. rewrite (proj2 (Z.eqb_neq _ 0)), Hb by done. cbn [negb].
  by apply no_such_head.
Qed.

(** An urgent message enters the list of priority 0 without its bit in the
    bitmap.  On a queue without pending messages the next access goes past the 32
    lists: the commit itself faults when a task waits for a message, and when none
    does, every receive after it faults. *)
Theorem urgent_message_faults W q m sq rq a p F buf bs : calls_ok (kern W) →
  mq_ok q m sq rq ((a, Filling p) :: F) [] W → 0 < Z.of_nat (length bs) ≤ maxMsgSize m →
  buffer_ok m (mem W) buf (Z.of_nat (length bs)) → load (length bs) buf (mem W) = Some bs →
  match wq_tasks rq with
  | [] => ∃ W', ttosCommitMessage q a buf (Z.of_nat (length bs)) 1 W = Some (tt, W') ∧
      ∀ e rbuf psize options ticks sigpend, rbuf ≠ 0 → psize ≠ 0 →
        runningTask (kern W') !! this_cpu (kern W') = Some e → idleTask (kern W') !! this_cpu (kern W') ≠ Some e →
        TTOS_ReceiveMsgq q rbuf psize options ticks sigpend W' = None
  | _ => ttosCommitMessage q a buf (Z.of_nat (length bs)) 1 W = None
  end.
Proof.
  intros Hok Hq Hn Hbuf Hld. assert (Hwp := urgent_insert_run W q m sq rq a p F buf bs Hok Hq Hn Hbuf Hld).
  destruct (wq_tasks rq) as [|t xs] eqn:Hxs; rewrite ?commit_split.
  - assert (Hall : wp (commit_insert q a buf (Z.of_nat (length bs)) 1 ≫= λ _, commit_deliver q (Z.of_nat (length bs))) W
      (λ _ W', calls_ok (kern W') ∧ msgqs W' !! q = Some (set_disable false (set_count 1 m)))).
    { apply wp_bind. eapply wp_mono; [exact Hwp|]. intros [] W2 [EK Em]. by eapply urgent_deliver_run. }
    apply wp_run in Hall as ([] & W' & Hr & Hok' & Hm'). exists W'. split; [done|].
    intros e rbuf psize options ticks sigpend Hb Hp Hru Hni. eapply receive_lost; try done; [apply Hq|].
    apply (body_empty _ _ _ _ _ _ (mo_body _ _ _ _ _ _ _ Hq)).
  - apply bind_fault. eapply wp_mono; [exact Hwp|]. intros [] W2 [EK Em]. by eapply urgent_deliver_faults.
Qed.

(** ** What is sent is what is received *)

Lemma same_queue_trans m1 m2 m3 : same_queue m1 m2 → same_queue m2 m3 → same_queue m1 m3.
Proof. unfold same_queue. intros -> ->. by destruct m1, m2, m3. Qed.

Lemma same_buffer m m' M b : same_queue m m' → buffer_ok m M b (maxMsgSize m) → buffer_ok m' M b (maxMsgSize m').
Proof. unfold same_queue. by intros ->. Qed.

(** C28: [ttosCommitMessage] of an ordinary (not urgent) message on any queue, with [p]
    the priority the sender asked for:
    the message joins the pending ones behind those of its priority and before the
    less urgent; when a task waits for a message, the first pending one is copied to
    it and the task is off its queue and ready with [TTOS_OK], but the size it is
    told is that of the message just committed, whichever it got. *)
Theorem commit_message_correct W q m sq rq a p F C buf bs : calls_ok (kern W) →
  mq_ok q m sq rq ((a, Filling p) :: F) C W → 0 < Z.of_nat (length bs) ≤ maxMsgSize m →
  buffer_ok m (mem W) buf (Z.of_nat (length bs)) → load (length bs) buf (mem W) = Some bs →
  ∃ W', ttosCommitMessage q a buf (Z.of_nat (length bs)) 0 W = Some (tt, W') ∧ calls_ok (kern W') ∧
    commit_outcome q m sq rq F C W a (p, bs) W'.
Proof.
  intros Hok Hq Hn Hbuf Hld. assert (Hwp := commit_run W q m sq rq a p F C buf bs Hok Hq Hn Hbuf Hld).
  apply wp_run in Hwp as ([] & W' & ? & ?). by exists W'.
Qed.

(** C20: an ordinary (not urgent) message committed to a queue without pending messages
    and without waiting tasks comes back whole: whichever task receives next gets a block, and from it
    the same bytes, their number, and the priority; the queue is then empty as it
    was, with the block unused again. *)
Theorem send_receive_roundtrip W q m sq rq a p F buf bs rbuf psize options ticks sigpend : calls_ok (kern W) →
  mq_ok q m sq rq ((a, Filling p) :: F) [] W → wq_tasks sq = [] → wq_tasks rq = [] →
  0 < Z.of_nat (length bs) ≤ maxMsgSize m →
  buffer_ok m (mem W) buf (Z.of_nat (length bs)) → load (length bs) buf (mem W) = Some bs →
  rbuf ≠ 0 → psize ≠ 0 → 0 ≤ ticks < 2 ^ 32 → buffer_ok m (mem W) rbuf (maxMsgSize m) → is_Some (sizes W !! psize) →
  ∃ W2, ttosCommitMessage q a buf (Z.of_nat (length bs)) 0 W = Some (tt, W2) ∧
    ∀ e, runningTask (kern W2) !! this_cpu (kern W2) = Some e → idleTask (kern W2) !! this_cpu (kern W2) ≠ Some e →
    ∃ b W3, TTOS_ReceiveMsgq q rbuf psize options ticks sigpend W2 = Some (Block b, W3) ∧
      ∀ e', runningTask (kern W3) !! this_cpu (kern W3) = Some e' →
      ∃ m' ec W4, ttosReceiveMessage q b rbuf psize W3 = Some (tt, W4) ∧ load (length bs) rbuf (mem W4) = Some bs ∧
        sizes W4 !! psize = Some (Z.of_nat (length bs)) ∧ tasks (kern W4) !! e' = Some ec ∧ wait_count (wait ec) = p ∧
        same_queue m m' ∧ mq_ok q m' sq rq F [] W4.
Proof.
  intros Hok Hq Hsq Hrq Hn Hbuf Hld Hb Hp Hk Hrb Hsz.
  assert (Hwp := commit_run W q m sq rq a p F [] buf bs Hok Hq Hn Hbuf Hld). unfold commit_outcome in Hwp. rewrite Hrq in Hwp.
  apply wp_run in Hwp as ([] & W2 & Hr2 & Hok2 & m2 & Sm2 & _ & Hq2 & _ & Es2 & EM2). exists W2. split; [done|].
  intros e He Hni. destruct (running_task _ _ Hok2 He) as [ec Hec].
  assert (Hwp := receive_run W2 q m2 sq rq F _ e ec Hok2 Hq2 He Hec Hni rbuf psize options ticks sigpend Hb Hp Hk).
  apply wp_run in Hwp as (r & W3 & Hr3 & Hok3 & EM3 & Es3 & b & m3 & -> & Sm3 & _ & Hq3).
  - exists b, W3. split; [done|]. intros e' He'. destruct (running_task _ _ Hok3 He') as [ec' Hec'].
    assert (Hwp := finish_run q m3 sq rq F [] e' W3 b (p, bs) ec' rbuf psize Hok3 Hq3 He' Hec').
    apply wp_run in Hwp as ([] & W4 & Hr4 & _ & Es4 & Hl4 & m4 & ec4 & Sm4 & _ & He4 & Hout).
    + rewrite Hsq in Hout. destruct Hout as (Hq4 & Hc4 & _). exists m4, ec4, W4. split_and!; try done.
      * by rewrite Es4, lookup_insert_eq.
      * by eapply same_queue_trans, same_queue_trans.
    + rewrite EM3, EM2. by eapply same_buffer, same_buffer, buffer_store.
    + by rewrite Es3, Es2.
  - rewrite EM2. by eapply same_buffer, buffer_store.
  - by rewrite Es2.
Qed.
