(* ===== verification/MsgqLife.v ===== *)
(** * Creating and deleting message queues

    [TTOS_CreateMsgq] sets up what the other services rely on, [TTOS_DeleteMsgq]
    wakes every task that waits and gives the memory back. *)

From S2P Require Import Prelude Chain PrioMap DeltaQ Kernel Sched Frame SchedInv Dispatch SchedProps Service Wait WaitInv WaitProps Block Names Sema SemaInv SemaProps SemaLife Msgq MsgqInv MsgqOps MsgqProps.
From Stdlib Require Import Init.Byte.
Import Width.
Local Open Scope Z_scope.

(** ** The size of a block *)

Lemma land_mask x : 0 ≤ x < 2 ^ 32 → Z.land x (u32 (Z.lnot 15)) = 16 * (x / 16).
Proof.
  intros Hx. change (u32 (Z.lnot 15)) with (Z.shiftl (Z.ones 28) 4).
  replace (16 * (x / 16)) with (Z.shiftl (Z.shiftr x 4) 4).
  2: { rewrite Z.shiftl_mul_pow2, Z.shiftr_div_pow2 by lia. change (2 ^ 4) with 16. lia. }
  apply Z.bits_inj'. intros k Hk. rewrite Z.land_spec, !Z.shiftl_spec by done.
  destruct (Z.lt_ge_cases k 4) as [Hlt|Hge].
  - rewrite !(Z.testbit_neg_r _ (k - 4)) by lia. apply andb_false_r.
  - rewrite Z.shiftr_spec by lia. replace (k - 4 + 4) with k by lia. destruct (Z.lt_ge_cases k 32).
    + rewrite Z.ones_spec_low by lia. apply andb_true_r.
    + rewrite Z.ones_spec_high, andb_false_r by lia. symmetry. destruct (decide (x = 0)) as [->|]; [apply Z.bits_0|].
      apply Z.bits_above_log2; [lia|]. pose proof (proj1 (Z.log2_lt_pow2 x 32 ltac:(lia)) ltac:(lia)). lia.
Qed.

(** A block has room for the header and a message, unless its size overflows. *)
Lemma block_size_spec n : 0 ≤ n → n + 43 < 2 ^ 32 →
  BUFFER_OFFSET + n < block_size n ≤ n + 43 ∧ (0 < n → SIZEOF_MSGBUF ≤ block_size n).
Proof.
  intros Hn Hb. unfold block_size, SIZEOF_MSGBUF, BUFFER_OFFSET, TTOS_OBJECT_MALLOC_DEFAULT_SIZE.
  rewrite (u32_small (n + 32 - 4)) by lia. change (0x10 - 1) with 15.
  replace (n + 32 - 4 + 0x10 - 1) with (n + 43) by lia. rewrite u32_small, land_mask by lia.
  pose proof (Z.div_mod (n + 43) 16). pose proof (Z.mod_pos_bound (n + 43) 16). lia.
Qed.

(** Past that bound the sum wraps, and the block is of at most 32 bytes. *)
Lemma block_size_wraps n : 2 ^ 32 - 43 ≤ n < 2 ^ 32 → block_size n ≤ 32.
Proof.
  intros Hn. unfold block_size, SIZEOF_MSGBUF, TTOS_OBJECT_MALLOC_DEFAULT_SIZE. change (0x10 - 1) with 15.
  rewrite land_mask by (apply Z.mod_pos_bound; lia). unfold u32, wrap.
  replace (n + 32 - 4) with (n + 28) by lia.
  replace ((n + 28) mod 2 ^ 32 + 0x10 - 1) with ((n + 28) mod 2 ^ 32 + 15) by lia.
  rewrite Zplus_mod_idemp_l. replace (n + 28 + 15) with (n + 43 - 2 ^ 32 + 1 * 2 ^ 32) by lia.
  rewrite Z_mod_plus_full, Z.mod_small by lia. pose proof (Z.div_lt_upper_bound (n + 43 - 2 ^ 32) 16 3). lia.
Qed.

(** C40: for every 32-bit message size, the block [ttosCreateMessageNode] computes has
    room for its header and a largest message exactly when the size is at least 43
    below 2^32; [TTOS_CreateMsgq] accepts the sizes above as well, with blocks that a
    message then overruns. *)
Theorem block_size_bounds n : 0 ≤ n < 2 ^ 32 → (BUFFER_OFFSET + n ≤ block_size n ↔ n + 43 < 2 ^ 32).
Proof.
  intros Hn. split; intros Hb; [|pose proof (block_size_spec n); lia].
  destruct (Z.lt_ge_cases (n + 43) (2 ^ 32)); [done|]. pose proof (block_size_wraps n). unfold BUFFER_OFFSET in Hb. lia.
Qed.

Lemma block_size_bounds_witness : BUFFER_OFFSET + 100 ≤ block_size 100 ↔ 100 + 43 < 2 ^ 32.
Proof. apply (block_size_bounds 100). lia. Defined.

(** ** The blocks of a new queue *)

Lemma zero_bytes_mapped a n M : mapped (zero_bytes a n ∪ M) a n.
Proof.
  intros i Hi. apply lookup_union_is_Some. left. unfold zero_bytes. exists x00. apply elem_of_list_to_map_1.
  - assert (E : ((λ i, (i, x00)) <$> seqZ a n).*1 = seqZ a n); [|rewrite E; apply NoDup_seqZ].
    rewrite <- list_fmap_compose. apply list_fmap_id.
  - apply list_elem_of_fmap. exists i. split; [done|]. apply elem_of_seqZ. lia.
Qed.

Lemma mapped_union_r (N M : gmap Z byte) a n : mapped M a n → mapped (N ∪ M) a n.
Proof. intros Hm i Hi. apply lookup_union_is_Some. right. by apply Hm. Qed.

(** What the loop leaves: [L], [H] and [M] are the lists, headers and memory. *)
Record nodes_made (q : mqid) (base bs i : Z) (count : nat) (W : mworld)
    (L : gmap (mqid * mhead) (list Z)) (H : gmap Z msgbuf) (M : gmap Z byte) : Prop := {
  nm_wf : c_wf L;
  nm_unused : unused q L = unused q (lists W) ++ ((λ j, base + bs * j) <$> seqZ i (Z.of_nat count));
  nm_other : ∀ h, h ≠ (q, InactiveMsgQueue) → c_get h L = c_get h (lists W);
  nm_old : ∀ a, is_Some (headers W !! a) → is_Some (H !! a);
  nm_mapped : ∀ b n, mapped (mem W) b n → mapped M b n;
  nm_new : ∀ j, i ≤ j < i + Z.of_nat count → is_Some (H !! (base + bs * j)) ∧
    mapped M (base + bs * j + BUFFER_OFFSET) (bs - BUFFER_OFFSET);
}.

Lemma create_nodes_run count : ∀ i W q base bs total, 0 ≤ i → 0 < base → SIZEOF_MSGBUF ≤ bs →
  bs * (i + Z.of_nat count) ≤ total → total < 2 ^ 32 → c_wf (lists W) →
  (∀ j, i ≤ j < i + Z.of_nat count → c_linked (base + bs * j) (lists W) = false) →
  wp (create_nodes count i q base bs total) W (λ r W', r = TTOS_OK ∧ ∃ L H M,
    W' = set_mem M (set_headers H (set_lists L W)) ∧ nodes_made q base bs i count W L H M).
Proof.
  induction count as [|count IH]; intros i W q base bs total Hi Hb Hs Hfit Ht Hwf Hfree.
  - apply wp_ret. split; [done|]. exists (lists W), (headers W), (mem W). split; [by destruct W|].
    split; try done; [by rewrite app_nil_r|]. intros j Hj. lia.
  - unfold SIZEOF_MSGBUF in Hs. cbn [create_nodes].
    assert (Eo : u32 (bs * i) = bs * i) by (apply u32_small; nia). rewrite Eo, (proj2 (Z.eqb_neq _ 0)) by nia.
    apply wp_bind, wp_assert; [apply Z.leb_le; unfold SIZEOF_MSGBUF; nia|].
    apply wp_bind, wp_modify, wp_bind, wp_modify, wp_bind, wp_add_tail; [apply Hfree; lia|]. simpl.
    set (a := base + bs * i). set (W1 := set_lists _ _).
    assert (Ha : c_linked a (lists W) = false) by (apply Hfree; lia).
    eapply wp_mono; [apply (IH (i + 1) W1 q base bs total); try done; [lia|nia|by apply c_wf_add_tail|]|].
    { intros j Hj. simpl. apply c_linked_false. intros h. unfold c_add_tail. rewrite c_get_set.
      assert (Hj' : c_linked (base + bs * j) (lists W) = false) by (apply Hfree; lia). rewrite c_linked_false in Hj'.
      case_decide; [|apply Hj']. rewrite elem_of_app, list_elem_of_singleton. intros [Hin|E]; [by apply (Hj' _ Hin)|].
      unfold a in E. nia. }
    intros r W' (-> & L & H & M & -> & [Hwf' Hun Hot Hold Hmap Hnew]). split; [done|]. exists L, H, M. split; [done|].
    split; try done.
    + assert (Eu : unused q (lists W1) = unused q (lists W) ++ [a]) by apply c_get_set_eq.
      rewrite Hun, Eu, <- app_assoc. f_equal.
      replace (Z.of_nat (S count)) with (Z.succ (Z.of_nat count)) by lia. rewrite (seqZ_cons i) by lia. simpl. do 2 f_equal.
      by rewrite Z.pred_succ, Z.add_1_r.
    + intros h Hh. rewrite Hot by done. simpl. unfold c_add_tail. by rewrite c_get_set_ne by congruence.
    + intros b Hb'. apply Hold. simpl. rewrite lookup_insert_is_Some. destruct (decide (a = b)); [by left|by right].
    + intros b n Hb'. apply Hmap. simpl. by apply mapped_union_r.
    + intros j Hj. destruct (decide (j = i)) as [->|Hne]; [|apply Hnew; lia]. split.
      * apply Hold. simpl. rewrite lookup_insert_is_Some. by left.
      * apply Hmap. simpl. apply zero_bytes_mapped.
Qed.

(** ** The empty lists *)

Definition clear_lists (q : mqid) (ps : list Z) (L : gmap (mqid * mhead) (list Z)) : gmap (mqid * mhead) (list Z) :=
  foldr (λ pri l, c_set (q, PendingMsgQueue pri) [] l) (c_set (q, InactiveMsgQueue) [] L) ps.

Lemma clear_get q ps L h : c_get h (clear_lists q ps L) =
  if decide (h ∈ (q, InactiveMsgQueue) :: ((λ p, (q, PendingMsgQueue p)) <$> ps)) then [] else c_get h L.
Proof.
  induction ps as [|p ps IH]; cbn [clear_lists foldr fmap].
  - rewrite c_get_set. destruct (decide (_ = h)) as [<-|E]; [rewrite decide_True; [done|]; left|].
    rewrite decide_False; [done|]. simpl. rewrite list_elem_of_singleton. congruence.
  - rewrite c_get_set. destruct (decide (_ = h)) as [<-|E]; [rewrite decide_True; [done|]; right; left|].
    fold (clear_lists q ps L). rewrite IH. apply decide_ext. rewrite fmap_cons, !elem_of_cons. naive_solver.
Qed.

Lemma init_lists_spec q L : c_wf L → let L' := init_lists q L in
  c_wf L' ∧ order q L' = [] ∧ (∀ p, 0 ≤ p < 32 → pend q p L' = []) ∧ unused q L' = [] ∧
  ∀ h a, a ∈ c_get h L' → a ∈ c_get h L.
Proof.
  intros Hwf. change (init_lists q L) with (clear_lists q (seqZ 0 TTOS_MSGQ_PRIORITY_NUMBER) L).
  set (L' := clear_lists _ _ L). assert (Hsub : ∀ h a, a ∈ c_get h L' → a ∈ c_get h L).
  { intros h a. unfold L'. rewrite clear_get. case_decide; [|done]. intros Ha. by apply elem_of_nil in Ha. }
  assert (Hp : ∀ p, 0 ≤ p < 32 → pend q p L' = []).
  { intros p Hp. unfold pend, L'. rewrite clear_get, decide_True; [done|]. right. apply list_elem_of_fmap. exists p. split; [done|].
    apply elem_of_seqZ. unfold TTOS_MSGQ_PRIORITY_NUMBER. lia. }
  cbn zeta. split_and!; try done.
  - split.
    + intros h. unfold L'. rewrite clear_get. case_decide; [constructor|]. apply (c_nodup _ Hwf).
    + intros h1 h2 a H1 H2. apply (c_disj _ Hwf h1 h2 a); by apply Hsub.
  - destruct (order q L') as [|a l] eqn:E; [done|]. assert (Ha : a ∈ order q L') by (rewrite E; left).
    apply elem_of_order in Ha as (p & Hp' & Ha). rewrite Hp in Ha by done. by apply elem_of_nil in Ha.
  - unfold unused, L'. rewrite clear_get, decide_True; [done|]. left.
Qed.

(** ** Initialisation *)

Definition new_msgq (cfg : msgq_config) (name : list byte) (base : Z) : msgq :=
  Msgq true name (cfg_attributeSet cfg) (cfg_maxMsgqNumber cfg) (cfg_maxMsgSize cfg) 0 0 base false 0 0.

Definition new_wq (cfg : msgq_config) : wqueue :=
  WQueue (Z.land (cfg_attributeSet cfg) TTOS_PRIORITY =? 0) TTOS_TASK_WAITING_FOR_MSGQ [].

Definition area (cfg : msgq_config) : Z := block_size (cfg_maxMsgSize cfg) * cfg_maxMsgqNumber cfg.

(** The sizes in the configuration do not overflow 32 bits. *)
Record fits (cfg : msgq_config) : Prop := {
  ft_size : 0 < cfg_maxMsgSize cfg;
  ft_block : cfg_maxMsgSize cfg + 43 < 2 ^ 32;
  ft_number : 0 < cfg_maxMsgqNumber cfg < 2 ^ 32;
  ft_area : area cfg < 2 ^ 32;
}.

(** The memory [memalign] returns is in no use. *)
Definition fresh_area (base n : Z) (W : mworld) : Prop :=
  0 < base ∧ ∀ h a, a ∈ c_get h (lists W) → ¬ base ≤ a < base + n.

Lemma calls_set_wqs K m : calls_ok K → (∀ w wq, m !! w = Some wq → wq_tasks wq = [] ∨ wqs K !! w = Some wq) →
  calls_ok (set_wqs m K).
Proof. intros [Hin Hl Hr] Hm. split; [by apply inside_set_wqs|done..]. Qed.

(** The state of the lists and of memory right after the loop is the invariant of
    an empty queue. *)
Lemma new_body q cfg name base W L H M : fits cfg → order q (lists W) = [] → (∀ p, 0 ≤ p < 32 → pend q p (lists W) = []) →
  unused q (lists W) = [] →
  nodes_made q base (block_size (cfg_maxMsgSize cfg)) 0 (Z.to_nat (cfg_maxMsgqNumber cfg)) W L H M →
  mq_body q (new_msgq cfg name base) [] [] L H M.
Proof.
  intros [Hs Hb Hn Ha] Eo Ep Eu [Hwf Hun Hot Hold Hmap Hnew].
  destruct (block_size_spec (cfg_maxMsgSize cfg)) as [Hbs _]; [lia..|].
  assert (Ep' : ∀ p, 0 ≤ p < 32 → pend q p L = []) by (intros p Hp; unfold pend; rewrite Hot by done; by apply Ep).
  assert (Eo' : order q L = []) by (by rewrite (order_ext q (lists W)); [|intros; rewrite Ep, Ep']).
  split; simpl; rewrite ?Eo'; try done; try lia.
  - split; [lia|]. intros p Hp. unfold topbit. by rewrite Z.bits_0, Ep'.
  - rewrite Hun, Eu, app_nil_r. simpl. unfold blocks. simpl. by rewrite Z2Nat.id by lia.
  - intros a Hin. by apply elem_of_nil in Hin.
  - intros a Hin. unfold blocks in Hin. simpl in Hin. apply list_elem_of_fmap in Hin as (j & -> & Hj%elem_of_seqZ).
    destruct (Hnew j) as [H1 H2]; [lia|]. split; [done|]. intros i Hi. apply H2. lia.
  - intros p a Hp. rewrite Ep' by done. intros Hin. by apply elem_of_nil in Hin.
Qed.

Lemma init_msgq_run W q cfg s base : calls_ok (kern W) → msgqs W !! q = Some zero_msgq → cstr (cfgMsgqName cfg) s →
  fits cfg → c_wf (lists W) → fresh_area base (area cfg) W →
  wp (ttosInitMsgq q cfg (Some base)) W (λ r W', r = TTOS_OK ∧ calls_ok (kern W') ∧ ∃ name,
    cstr name (take TTOS_OBJECT_NAME_LENGTH s) ∧ mq_ok q (new_msgq cfg name base) (new_wq cfg) (new_wq cfg) [] [] W' ∧
    inUsedResource W' = inUsedResource W ++ [q] ∧ inUsedResourceNum W' = u32 (inUsedResourceNum W + 1) ∧
    heap W' = <[base := area cfg]> (heap W) ∧ sys (kern W') = sys (kern W)).
Proof.
  intros Hok Hm Hs Hfit Hwf [Hb Hfr]. pose proof Hfit as [Hsz Hbk Hn Ha].
  destruct (block_size_spec (cfg_maxMsgSize cfg)) as [Hbs Hmin]; [lia..|].
  unfold BUFFER_OFFSET in Hbs. unfold ttosInitMsgq. apply wp_bind.
  eapply wp_get_msgq; [done|].
  destruct (copy_run TTOS_OBJECT_NAME_LENGTH (cfgMsgqName cfg) s (objName zero_msgq) Hs) as (name & Hnm & Hname & _).
  { simpl. unfold TTOS_OBJECT_NAME_LENGTH. lia. }
  apply wp_bind, wp_lift with name; [exact Hnm|]. apply wp_bind. eapply wp_upd_msgq; [done|].
  apply wp_bind, wp_mlk. unfold Wait.ttosInitializeTaskq. apply wp_modify, wp_bind, wp_mlk, wp_modify, wp_bind, wp_modify.
  destruct (init_lists_spec q (lists W) Hwf) as (Hwf1 & Eo & Ep & Eu & Hsub).
  apply wp_bind. unfold ttosAllocMessageNode. apply wp_bind. eapply wp_get_msgq; [apply lookup_insert_eq|].
  unfold ttosCreateMessageNode. apply wp_bind. eapply wp_get_msgq; [apply lookup_insert_eq|]. simpl.
  apply wp_bind. eapply wp_upd_msgq; [apply lookup_insert_eq|]. simpl. rewrite insert_insert_eq.
  apply wp_bind, wp_modify. simpl. fold (area cfg).
  assert (Ea : u32 (area cfg) = area cfg) by (apply u32_small; unfold area in *; nia). rewrite Ea.
  set (K1 := set_wqs _ _). set (W1 := set_heap _ _).
  eapply wp_mono; [apply (create_nodes_run (Z.to_nat (cfg_maxMsgqNumber cfg)) 0 W1 q base (block_size (cfg_maxMsgSize cfg)) (area cfg)); try done|].
  { by apply Hmin. } { unfold area. rewrite Z2Nat.id by lia. lia. }
  { intros j Hj. apply c_linked_false. intros h Hin. apply (Hfr h (base + block_size (cfg_maxMsgSize cfg) * j)); [by apply Hsub|].
    unfold area. nia. }
  intros r W' (-> & L & H & M & -> & Hnm'). rewrite bool_decide_false by (by intros []).
  assert (HB : mq_body q (new_msgq cfg name base) [] [] L H M) by (by apply (new_body q cfg name base W1)).
  assert (Hok1 : calls_ok K1).
  { apply calls_set_wqs; [apply calls_set_wqs; [exact Hok|]|]; intros w wq [[_ <-]|[_ Hw]]%lookup_insert_Some; first [by left|by right]. }
  apply wp_bind, wp_mlk. eapply wp_mono; [apply lock_run, Hok1|]. intros [] K2 ->. rewrite u64_small by lia. change (0 + 1) with 1.
  apply wp_bind. eapply wp_upd_msgq; [apply lookup_insert_eq|]. apply wp_bind, wp_modify. simpl. rewrite insert_insert_eq.
  eapply wp_mono; [apply (mq_leave _ q (new_msgq cfg name base) (new_wq cfg) (new_wq cfg) [] []); simpl|].
  - apply inside_locked, Hok1.
  - apply locked_level.
  - split; simpl; [apply lookup_insert_eq|done|exact HB|]. split; simpl; try done.
    + rewrite lookup_insert_ne, lookup_insert_eq; [done|]. unfold sendWaitQueue, receiveWaitQueue. lia.
    + apply lookup_insert_eq.
    + intros t Ht. by apply elem_of_nil in Ht.
    + intros t Ht. by apply elem_of_nil in Ht.
  - intros r W' (-> & Hok' & Hq' & K' & -> & Hrs). split_and!; try done. exists name. split_and!; try done. simpl.
    by rewrite (rs_sys _ _ Hrs).
Qed.

(** ** [TTOS_CreateMsgq] *)

(** The control block an allocation returns, or the code of its refusal. *)
Definition mq_allocation (W : mworld) (blk : option mqid) : retcode + mqid :=
  match inactiveResource W, blk with
  | b :: _, _ => inr b
  | [], _ => if objExistNumber W =? objMaxNumber W then inl TTOS_TOO_MANY
             else match blk with Some b => inr b | None => inl TTOS_UNSATISFIED end
  end.

(** What is decided before any memory is asked for, for a configuration with the
    name [s] and the version [v]. *)
Definition mq_checks (cfg : msgq_config) (s v : list byte) : retcode :=
  if decide (v = [x31; x2e; x30]) then
    if cfg_maxMsgqNumber cfg =? 0 then TTOS_INVALID_NUMBER
    else if cfg_maxMsgSize cfg =? 0 then TTOS_INVALID_SIZE
    else if decide (s ≠ [] ∧ Forall printable (take TTOS_OBJECT_NAME_LENGTH s)) then TTOS_OK else TTOS_INVALID_NAME
  else TTOS_INVAILD_VERSION.

Lemma mq_allocate_run W blk :
  wp (ttosAllocateObject blk) W (λ r W', kern W' = kern W ∧ inUsedResource W' = inUsedResource W ∧
    inUsedResourceNum W' = inUsedResourceNum W ∧ lists W' = lists W ∧ heap W' = heap W ∧
    match mq_allocation W blk with
    | inl e => r = (e, None) ∧ e ≠ TTOS_OK ∧ W' = W
    | inr b => r = (TTOS_OK, Some b) ∧ msgqs W' = <[b := zero_msgq]> (msgqs W)
    end).
Proof.
  unfold ttosAllocateObject, mq_allocation. apply wp_bind, wp_gets. unfold id.
  destruct (inactiveResource W) as [|b free] eqn:Ef.
  - destruct (objExistNumber W =? objMaxNumber W); [by apply wp_ret|].
    destruct blk as [b|]; [|by apply wp_ret]. by apply wp_bind, wp_modify, wp_bind, wp_modify, wp_ret.
  - by apply wp_bind, wp_modify, wp_bind, wp_modify, wp_ret.
Qed.

(** Emptying lists that are empty. *)
Lemma delete_empty_run W q ps fuel : (∀ p, p ∈ ps → pend q p (lists W) = []) →
  wp (delete_pending (S fuel) q ps) W (λ _ W', W' = W).
Proof.
  induction ps as [|p ps IH]; intros Hp; [by apply wp_ret|]. cbn [delete_pending]. apply wp_bind. simpl.
  apply wp_bind, wp_gets. unfold c_first. fold (pend q p (lists W)). rewrite Hp by left. simpl. apply wp_ret.
  apply IH. intros p' Hp'. apply Hp. by right.
Qed.

(** Without memory for the messages the control block goes back to the pool. *)
Lemma init_refused_run W q cfg s fuel : calls_ok (kern W) → msgqs W !! q = Some zero_msgq → cstr (cfgMsgqName cfg) s →
  c_wf (lists W) →
  wp (ret ← ttosInitMsgq q cfg None;
      if bool_decide (ret ≠ TTOS_OK) then
        _ ← ttosDeleteMessage (S fuel) q;
        _ ← lock;
        _ ← ttosReturnObjectToInactiveResource q;
        _ ← unlock;
        mret (TTOS_UNSATISFIED, None)
      else mret (TTOS_OK, Some q)) W (λ r W', r = (TTOS_UNSATISFIED, None) ∧ calls_ok (kern W') ∧
    inUsedResource W' = inUsedResource W ∧ inactiveResource W' = inactiveResource W ++ [q] ∧
    inUsedResourceNum W' = u32 (inUsedResourceNum W - 1) ∧ msgqs W' = <[q := zero_msgq]> (msgqs W)).
Proof.
  intros Hok Hm Hs Hwf. apply wp_bind. unfold ttosInitMsgq. apply wp_bind. eapply wp_get_msgq; [done|].
  destruct (copy_run TTOS_OBJECT_NAME_LENGTH (cfgMsgqName cfg) s (objName zero_msgq) Hs) as (name & Hnm & Hname & _).
  { simpl. unfold TTOS_OBJECT_NAME_LENGTH. lia. }
  apply wp_bind, wp_lift with name; [exact Hnm|]. apply wp_bind. eapply wp_upd_msgq; [done|].
  apply wp_bind, wp_mlk. unfold Wait.ttosInitializeTaskq. apply wp_modify, wp_bind, wp_mlk, wp_modify, wp_bind, wp_modify.
  destruct (init_lists_spec q (lists W) Hwf) as (Hwf1 & Eo & Ep & Eu & Hsub).
  apply wp_bind. unfold ttosAllocMessageNode. apply wp_bind. eapply wp_get_msgq; [apply lookup_insert_eq|].
  unfold ttosCreateMessageNode. apply wp_bind. eapply wp_get_msgq; [apply lookup_insert_eq|]. simpl.
  apply wp_bind. eapply wp_upd_msgq; [apply lookup_insert_eq|]. simpl. rewrite insert_insert_eq.
  apply wp_ret. rewrite bool_decide_true by done. apply wp_ret. rewrite bool_decide_true by done.
  set (K1 := set_wqs _ _). set (W1 := set_msgqs _ _).
  assert (Hok1 : calls_ok K1).
  { apply calls_set_wqs; [apply calls_set_wqs; [exact Hok|]|];
      intros w wq [[_ <-]|[_ Hw]]%lookup_insert_Some; first [by left|by right]. }
  apply wp_bind. unfold ttosDeleteMessage. apply wp_bind. eapply wp_mono; [apply delete_empty_run|].
  { intros p Hp%elem_of_seqZ. apply Ep. unfold TTOS_MSGQ_PRIORITY_NUMBER in Hp. lia. }
  intros [] W2 ->. assert (Ef : c_first (q, InactiveMsgQueue) (lists W1) = None).
  { unfold c_first. change (head (unused q (init_lists q (lists W))) = None). by rewrite Eu. }
  apply wp_bind. cbn [ttosDeleteMessageFromQueue]. apply wp_bind, wp_gets. rewrite Ef. apply wp_ret. apply wp_bind. eapply wp_get_msgq; [apply lookup_insert_eq|].
  apply wp_ret. apply wp_bind, wp_mlk. eapply wp_mono; [apply lock_run, Hok1|]. intros [] K2 ->. rewrite u64_small by lia.
  change (0 + 1) with 1. unfold ttosReturnObjectToInactiveResource. apply wp_bind, wp_bind. eapply wp_upd_msgq; [apply lookup_insert_eq|].
  apply wp_bind, wp_mlk, wp_modify, wp_modify. simpl. rewrite insert_insert_eq. apply wp_bind.
  eapply wp_mono; [apply munlock_run; simpl|].
  - apply inside_set_wqs; [apply inside_locked, Hok1|]. intros w wq Hw. right.
    by apply lookup_delete_Some in Hw as [_ [_ ?]%lookup_delete_Some].
  - apply lookup_insert_eq.
  - intros [] W' (K' & -> & Hok' & _). by apply wp_ret.
Qed.

(** What a creation comes to, by the checks, the pool and the memory. *)
Definition created (W : mworld) (cfg : msgq_config) (s v : list byte) (blk : option mqid) (base : option Z)
    (r : retcode * option mqid) (W' : mworld) : Prop :=
  match mq_checks cfg s v, mq_allocation W blk, base with
  | TTOS_OK, inr q, Some b => r = (TTOS_OK, Some q) ∧ inUsedResource W' = inUsedResource W ++ [q] ∧
      inUsedResourceNum W' = u32 (inUsedResourceNum W + 1) ∧ heap W' = <[b := area cfg]> (heap W) ∧
      ∃ name, cstr name (take TTOS_OBJECT_NAME_LENGTH s) ∧
        mq_ok q (new_msgq cfg name b) (new_wq cfg) (new_wq cfg) [] [] W'
  | TTOS_OK, inr q, None => r = (TTOS_UNSATISFIED, None) ∧ inUsedResource W' = inUsedResource W ∧
      inUsedResourceNum W' = u32 (inUsedResourceNum W - 1)
  | TTOS_OK, inl e, _ | e, _, _ => r = (e, None) ∧ e ≠ TTOS_OK ∧ msgqs W' = msgqs W ∧
      inUsedResource W' = inUsedResource W ∧ inUsedResourceNum W' = inUsedResourceNum W
  end.

Lemma create_run W fuel cfg s v blk base :
  calls_ok (kern W) → cstr (cfgMsgqName cfg) s → cstr (objVersion cfg) v →
  (length v ≤ S TTOS_OBJECT_VERSION_LENGTH)%nat → c_wf (lists W) →
  (mq_checks cfg s v = TTOS_OK → fits cfg) →
  (∀ b, base = Some b → fresh_area b (area cfg) W) →
  wp (TTOS_CreateMsgq (S fuel) (Some cfg) true blk base) W (λ r W', calls_ok (kern W') ∧ created W cfg s v blk base r W').
Proof.
  intros Hok Hs Hv Hlen Hwf Hfit Hfr. unfold created. pose proof (co_inside _ Hok) as Hin. unfold TTOS_CreateMsgq, mq_checks in *.
  apply wp_bind, wp_mlk_gets. rewrite (is_task _ Hin). apply wp_bind. eapply wp_lift.
  { exact (compare_run (S TTOS_OBJECT_VERSION_LENGTH) _ _ v _ Hv version_cstr Hlen). }
  case_bool_decide as Ev; cbn [negb]; [rewrite decide_True in * by done|rewrite decide_False by done; by apply wp_ret].
  destruct (cfg_maxMsgqNumber cfg =? 0); [by apply wp_ret|]. destruct (cfg_maxMsgSize cfg =? 0); [by apply wp_ret|].
  apply wp_bind. eapply wp_lift; [exact (verify_name_run _ s TTOS_OBJECT_NAME_LENGTH Hs)|].
  case_bool_decide as Es; cbn [negb]; [rewrite decide_True in * by done|rewrite decide_False by done; by apply wp_ret].
  specialize (Hfit eq_refl). apply wp_bind, wp_mlk. eapply wp_mono; [apply lock_run, Hok|]. intros [] K1 ->. rewrite u64_small by lia.
  change (0 + 1) with 1. apply wp_bind. eapply wp_mono; [apply mq_allocate_run|]. intros r W1 (EK1 & Eu1 & En1 & EL1 & EH1 & Hcase).
  change (mq_allocation (set_kern _ W) blk) with (mq_allocation W blk) in Hcase. simpl in EK1, Eu1, En1, EL1, EH1.
  apply wp_bind. eapply wp_mono; [apply munlock_run; rewrite EK1; [by apply inside_locked|apply locked_level]|].
  intros [] W2 (K2 & -> & Hok2 & Hrs). destruct (mq_allocation W blk) as [er|q].
  { destruct Hcase as (-> & Hne & ->). destruct er; try done; by apply wp_ret. }
  destruct Hcase as (-> & Em). assert (Hm1 : msgqs W1 !! q = Some zero_msgq) by (rewrite Em; apply lookup_insert_eq).
  destruct base as [b|].
  - specialize (Hfr b eq_refl). apply wp_bind.
    eapply wp_mono; [apply (init_msgq_run (set_kern K2 W1) q cfg s b); simpl; try done; [by rewrite EL1|]|].
    { unfold fresh_area in *. simpl. by rewrite EL1. }
    intros r W3 (-> & Hok3 & name & Hname & Hq3 & Eu3 & En3 & Eh3 & _). rewrite bool_decide_false by (by intros []).
    apply wp_ret. simpl in *. split_and!; try done; [by rewrite Eu3, Eu1|by rewrite En3, En1|by rewrite Eh3, EH1|by exists name].
  - eapply wp_mono; [apply (init_refused_run (set_kern K2 W1) q cfg s fuel); simpl; try done; by rewrite EL1|].
    intros r W3 (-> & Hok3 & Eu3 & _ & En3 & _). simpl in *. split_and!; [done..|by rewrite Eu3, Eu1|by rewrite En3, En1].
Qed.

(** C26: [TTOS_CreateMsgq] decides as its configuration says: a wrong version, a zero
    count or size, a name that is empty or not printable, and an exhausted pool are
    refused, each with its code, and nothing changes.  With sizes that do not
    overflow and memory for the messages, the queue it returns is an empty queue in
    the sense of [mq_ok], what all other services rely on: every block unused and
    none shared, room for a largest message in each, and two empty wait queues.
    Without that memory the control block goes back to the pool, and the number of
    queues in use is decremented although it never went up. *)
Theorem create_msgq_correct W fuel cfg s v blk base :
  calls_ok (kern W) → cstr (cfgMsgqName cfg) s → cstr (objVersion cfg) v →
  (length v ≤ S TTOS_OBJECT_VERSION_LENGTH)%nat → c_wf (lists W) →
  (mq_checks cfg s v = TTOS_OK → fits cfg) →
  (∀ b, base = Some b → fresh_area b (area cfg) W) →
  ∃ r W', TTOS_CreateMsgq (S fuel) (Some cfg) true blk base W = Some (r, W') ∧ calls_ok (kern W') ∧
    created W cfg s v blk base r W'.
Proof. intros. rewrite <- wp_run. by apply create_run. Qed.

(** ** Deletion *)

(** Emptying one list. *)
Lemma drain_run n : ∀ fuel W h, c_wf (lists W) → length (c_get h (lists W)) = n → (n < fuel)%nat →
  wp (ttosDeleteMessageFromQueue fuel h) W (λ _ W', ∃ L, W' = set_lists L W ∧ c_wf L ∧ c_get h L = [] ∧
    ∀ h', h' ≠ h → c_get h' L = c_get h' (lists W)).
Proof.
  induction n as [|n IH]; intros [|fuel] W h Hwf Hn Hf; try lia; cbn [ttosDeleteMessageFromQueue];
    apply wp_bind, wp_gets; unfold c_first; destruct (c_get h (lists W)) as [|a xs] eqn:E; try done; simpl.
  - apply wp_ret. exists (lists W). split_and!; [by destruct W|done..].
  - assert (Ha : a ∈ c_get h (lists W)) by (rewrite E; left).
    apply wp_bind, wp_delete; [apply c_linked_spec; by exists h|].
    assert (Eh : c_get h (c_delete a (lists W)) = xs).
    { rewrite c_get_delete, E, filter_cons_False by (by intros []). apply filter_ne_fresh.
      pose proof (c_nodup _ Hwf h) as Hnd. rewrite E in Hnd. by apply NoDup_cons in Hnd as [? _]. }
    eapply wp_mono; [apply (IH fuel (set_lists (c_delete a (lists W)) W) h); simpl; [by apply c_wf_delete|rewrite Eh; simpl in Hn; lia|lia]|].
    intros [] W' (L & -> & HL & EL & Hot). exists L. split_and!; try done. intros h' Hh'. rewrite Hot by done. simpl.
    apply c_get_delete_fresh. intros Hin. apply Hh'. by eapply (c_disj _ Hwf).
Qed.

Lemma drain_all_run fuel q ps : ∀ W, c_wf (lists W) → (∀ h, length (c_get h (lists W)) < fuel)%nat →
  wp (delete_pending fuel q ps) W (λ _ W', ∃ L, W' = set_lists L W ∧ c_wf L ∧ (∀ p, p ∈ ps → pend q p L = []) ∧
    (∀ h, (length (c_get h L) < fuel)%nat) ∧
    ∀ h, (∀ p, p ∈ ps → h ≠ (q, PendingMsgQueue p)) → c_get h L = c_get h (lists W)).
Proof.
  induction ps as [|p ps IH]; intros W Hwf Hf; cbn [delete_pending].
  - apply wp_ret. exists (lists W). split_and!; [by destruct W|done| |done|done]. intros p Hp. by apply elem_of_nil in Hp.
  - apply wp_bind. eapply wp_mono; [apply (drain_run _ fuel W (q, PendingMsgQueue p) Hwf eq_refl), Hf|].
    intros [] W1 (L1 & -> & HL1 & E1 & Hot1).
    eapply wp_mono; [apply (IH (set_lists L1 W)); simpl; [done|]|].
    { intros h. destruct (decide (h = (q, PendingMsgQueue p))) as [->|Hne]; [rewrite E1; simpl; specialize (Hf (q, InactiveMsgQueue)); lia|].
      rewrite Hot1 by done. apply Hf. }
    intros [] W2 (L2 & -> & HL2 & E2 & Hlen2 & Hot2). exists L2. split_and!; try done.
    + intros p' Hp'. destruct (decide (p' ∈ ps)) as [Hin|Hno]; [by apply E2|].
      apply elem_of_cons in Hp' as [->|?]; [|done]. unfold pend. rewrite Hot2; [done|].
      intros p2 Hp2 [= ->]. done.
    + intros h Hh. rewrite Hot2 by (intros p2 Hp2; apply Hh; by right). simpl. apply Hot1. apply Hh. left.
Qed.

(** *** Waking every waiting task, with dispatching enabled

    Unlike the deletion of a semaphore, the flush runs with the dispatch lock free,
    and each woken task may be switched to at once. *)

(** What a task that is not woken keeps. *)
Definition still (tc tc' : tcb) : Prop := undisturbed tc tc' ∧
  flag_on TTOS_TASK_NONRUNNING_STATE (clear_flag TTOS_TASK_WAITING (state tc')) =
  flag_on TTOS_TASK_NONRUNNING_STATE (clear_flag TTOS_TASK_WAITING (state tc)).

Lemma calm_still tc tc' : calm tc tc' → still tc tc'.
Proof.
  intros Hc. destruct (calm_ready _ _ Hc) as [Hr _], (calm_fields _ _ Hc) as [Hw _]. split; [done|].
  destruct Hc as [_ [->| ->]]; [done|].
  replace (clear_flag TTOS_TASK_WAITING (clear_flag TTOS_TASK_FIRSTRUN (state tc)))
    with (clear_flag TTOS_TASK_FIRSTRUN (clear_flag TTOS_TASK_WAITING (state tc))).
  - by rewrite flag_on_clear_ne.
  - unfold clear_flag. rewrite <- !Z.land_assoc. f_equal.
Qed.

Lemma same_but_wt_still tc tc' : same_but_wt tc tc' → still tc tc'.
Proof. intros E. by rewrite E. Qed.

Lemma still_trans a b c : still a b → still b c → still a c.
Proof. unfold still, undisturbed. intros [[? ?] ?] [[? ?] ?]. split_and!; congruence. Qed.

Lemma still_flushed status a b c : still a b → flushed status b c → flushed status a c.
Proof. unfold still, flushed. intros [_ E] (? & ? & ?). split_and!; try done. congruence. Qed.

Lemma flushed_still status a b c : flushed status a b → still b c → flushed status a c.
Proof. unfold still, undisturbed, flushed. intros (? & ? & ?) [[E1 E2] _]. by rewrite E1, E2. Qed.

(** One turn. *)
Lemma flush_top_turn K w q t xs status fuel Φ : inside_ok K → ttosDisableScheduleLevel K !! this_cpu K = Some 1 →
  wqs K !! w = Some q → wq_tasks q = t :: xs →
  (∀ K', inside_ok K' → ttosDisableScheduleLevel K' !! this_cpu K' = Some 1 → sys K' = sys K →
    wqs K' = <[w := set_wq_tasks xs q]> (wqs K) →
    (∀ x xc, x ≠ t → tasks K !! x = Some xc → ∃ xc', tasks K' !! x = Some xc' ∧ still xc xc') →
    (∀ tc, tasks K !! t = Some tc → ∃ tc', tasks K' !! t = Some tc' ∧ flushed status tc tc') →
    wp (flush_loop fuel w status) K' Φ) →
  wp (flush_loop (S fuel) w status) K Φ.
Proof.
  intros Hin Hl Hw Hxs Hk. simpl. apply wp_bind. eapply wp_mono; [by apply (dequeue_inside K w q)|].
  rewrite Hxs. simpl. intros o K1 (Hin1 & He1 & -> & tc & Ht & Hre). simpl.
  destruct (re_task _ _ _ _ _ _ _ Hre) as (tc1 & Ht1 & Hw1 & _ & Hr1 & _).
  apply wp_bind. eapply wp_upd_task; [done|]. set (tc2 := upd_wait _ tc1). set (K2 := set_tasks _ K1).
  assert (Hnt : t ∉ c_get TaskWaitedQ (oq K1)) by exact (released_untimed _ _ _ _ _ _ _ Hin Hre).
  assert (Hin2 : inside_ok K2) by (apply (inside_upd_free K1 t tc1); try done; by rewrite Hw1).
  assert (Hl2 : ttosDisableScheduleLevel K2 !! this_cpu K2 = Some 1).
  { simpl. injection He1 as _ _ _ _ _ -> _ ->. done. }
  apply wp_bind. eapply wp_mono; [by apply leave_run|]. intros [] K3 (Hok3 & Hrs & _).
  apply wp_bind. eapply wp_mono; [apply lock_run, Hok3|]. intros [] K4 ->. rewrite u64_small by lia. change (0 + 1) with 1.
  apply Hk.
  - apply inside_locked, Hok3.
  - apply locked_level.
  - change (sys K3 = sys K). rewrite (rs_sys _ _ Hrs). exact (env_sys K K1 He1).
  - simpl. rewrite (rs_wqs _ _ Hrs). apply (re_wqs _ _ _ _ _ _ _ Hre).
  - intros x xc Hx Hxc. pose proof (re_rest _ _ _ _ _ _ _ Hre x Hx) as Ho. rewrite Hxc in Ho.
    inversion Ho as [a b Hab E1 E2|]; subst. assert (Hb : tasks K2 !! x = Some b) by (simpl; by rewrite lookup_insert_ne by done).
    destruct (evolves_task _ _ _ _ (rs_evolves _ _ Hrs) Hb) as (xc' & Hxc' & Hcm). exists xc'. split; [done|].
    eapply still_trans; [by apply same_but_wt_still|by apply calm_still].
  - intros tc0 Ht0. assert (Et : tc0 = tc) by congruence. rewrite Et.
    assert (Hb : tasks K2 !! t = Some tc2) by apply lookup_insert_eq.
    destruct (evolves_task _ _ _ _ (rs_evolves _ _ Hrs) Hb) as (xc' & Hxc' & Hcm). exists xc'. split; [done|].
    eapply flushed_still; [|by apply calm_still]. split_and!; [done| |done]. simpl. by rewrite Hw1.
Qed.

Lemma flush_top_run xs : ∀ fuel K w q status, inside_ok K → ttosDisableScheduleLevel K !! this_cpu K = Some 1 →
  wqs K !! w = Some q → wq_tasks q = xs → (length xs < fuel)%nat →
  wp (flush_loop fuel w status) K (λ _ K', inside_ok K' ∧ ttosDisableScheduleLevel K' !! this_cpu K' = Some 1 ∧
    sys K' = sys K ∧ wqs K' = <[w := set_wq_tasks [] q]> (wqs K) ∧
    (∀ x xc, x ∉ xs → tasks K !! x = Some xc → ∃ xc', tasks K' !! x = Some xc' ∧ still xc xc') ∧
    ∀ x xc, x ∈ xs → tasks K !! x = Some xc → ∃ xc', tasks K' !! x = Some xc' ∧ flushed status xc xc').
Proof.
  induction xs as [|t xs IH]; intros [|fuel] K w q status Hin Hl Hw Hxs Hf; simpl in Hf; try lia.
  - simpl. apply wp_bind. unfold wp at 1. rewrite (dequeue_empty_run K w q Hw Hxs). apply wp_ret. split_and!; try done.
    + rewrite insert_id; [done|]. rewrite <- Hxs, set_wq_same. done.
    + intros x xc _ Hx. exists xc. done.
    + intros x xc Hx. by apply elem_of_nil in Hx.
  - assert (Hnt : t ∉ xs).
    { pose proof (wq_nodup _ (bi_wqs _ (is_block _ Hin)) w q Hw) as Hnd. rewrite Hxs in Hnd. by apply NoDup_cons in Hnd as [? _]. }
    eapply flush_top_turn; try done. intros K1 Hin1 Hl1 Es1 Eq1 Hr1 Ht1.
    eapply wp_mono; [apply (IH fuel K1 w (set_wq_tasks xs q) status); try done; [rewrite Eq1; apply lookup_insert_eq|lia]|].
    intros [] K2 (Hin2 & Hl2 & Es2 & Eq2 & Hr2 & Hf2). split_and!; try done.
    + by rewrite Es2.
    + rewrite Eq2, Eq1, insert_insert_eq. done.
    + intros x xc Hx Hxc. apply not_elem_of_cons in Hx as [Hne Hx]. destruct (Hr1 x xc Hne Hxc) as (x1 & H1 & S1).
      destruct (Hr2 x x1 Hx H1) as (x2 & H2 & S2). exists x2. split; [done|]. by eapply still_trans.
    + intros x xc Hx Hxc. destruct (decide (x = t)) as [->|Hne].
      * destruct (Ht1 xc Hxc) as (x1 & H1 & F1). destruct (Hr2 t x1 Hnt H1) as (x2 & H2 & S2). exists x2.
        split; [done|]. by eapply flushed_still.
      * apply elem_of_cons in Hx as [->|Hx]; [done|]. destruct (Hr1 x xc Hne Hxc) as (x1 & H1 & S1).
        destruct (Hf2 x x1 Hx H1) as (x2 & H2 & F2). exists x2. split; [done|]. by eapply still_flushed.
Qed.

Lemma flush_calls_run K w q status fuel : calls_ok K → wqs K !! w = Some q → (length (wq_tasks q) < fuel)%nat →
  wp (ttosFlushTaskq fuel w status) K (λ _ K', calls_ok K' ∧ sys K' = sys K ∧
    wqs K' = <[w := set_wq_tasks [] q]> (wqs K) ∧
    (∀ x xc, x ∉ wq_tasks q → tasks K !! x = Some xc → ∃ xc', tasks K' !! x = Some xc' ∧ still xc xc') ∧
    ∀ x xc, x ∈ wq_tasks q → tasks K !! x = Some xc → ∃ xc', tasks K' !! x = Some xc' ∧ flushed status xc xc').
Proof.
  intros Hok Hw Hf. unfold ttosFlushTaskq. apply wp_bind. eapply wp_mono; [apply lock_run, Hok|]. intros [] K1 ->.
  rewrite u64_small by lia. change (0 + 1) with 1. apply wp_bind.
  eapply wp_mono; [apply (flush_top_run (wq_tasks q) fuel (locked 1 K) w q status); try done; [apply inside_locked, Hok|apply locked_level]|].
  intros [] K2 (Hin2 & Hl2 & Es2 & Eq2 & Hr2 & Hf2). eapply wp_mono; [by apply leave_run|]. intros [] K3 (Hok3 & Hrs & _).
  assert (Hlast : ∀ x xc, tasks K2 !! x = Some xc → ∃ xc', tasks K3 !! x = Some xc' ∧ still xc xc').
  { intros x xc Hx. destruct (evolves_task _ _ _ _ (rs_evolves _ _ Hrs) Hx) as (xc' & Hx' & Hc). exists xc'.
    split; [done|]. by apply calm_still. }
  split_and!; try done.
  - by rewrite (rs_sys _ _ Hrs).
  - by rewrite (rs_wqs _ _ Hrs).
  - intros x xc Hx Hxc. destruct (Hr2 x xc Hx Hxc) as (x1 & H1 & S1). destruct (Hlast x x1 H1) as (x2 & H2 & S2).
    exists x2. split; [done|]. by eapply still_trans.
  - intros x xc Hx Hxc. destruct (Hf2 x xc Hx Hxc) as (x1 & H1 & F1). destruct (Hlast x x1 H1) as (x2 & H2 & S2).
    exists x2. split; [done|]. by eapply flushed_still.
Qed.

(** *** The whole call *)

(** An identifier whose header is cleared is refused. *)
Lemma send_invalid W q m buf n ticks : buf ≠ 0 → n ≠ 0 → msgqs W !! q = Some m → handle m = false →
  TTOS_SendMsgq q buf n TTOS_NO_WAIT ticks W = Some (Done TTOS_INVALID_ID, W).
Proof.
  intros Hb Hn Hm Hh. enough (Hwp : wp (TTOS_SendMsgq q buf n TTOS_NO_WAIT ticks) W (λ r W', r = Done TTOS_INVALID_ID ∧ W' = W)).
  { by apply wp_run in Hwp as (r & W' & ? & -> & ->). }
  unfold TTOS_SendMsgq. apply wp_bind, wp_mlk_gets. change (TTOS_WAIT =? TTOS_NO_WAIT) with false. cbn [andb].
  rewrite (proj2 (Z.eqb_neq 0 buf)), (proj2 (Z.eqb_neq n 0)) by lia.
  unfold get_msgq_object. apply wp_bind, wp_bind, wp_gets. rewrite bool_decide_false; [by apply wp_ret, wp_ret|].
  rewrite Hm. simpl. by rewrite Hh.
Qed.

Lemma delete_message_run W q m total fuel : c_wf (lists W) → msgqs W !! q = Some m → msgBuffers m ≠ 0 →
  heap W !! msgBuffers m = Some total → (∀ h, length (c_get h (lists W)) < fuel)%nat →
  wp (ttosDeleteMessage fuel q) W (λ _ W', ∃ L,
    let inside := λ a, msgBuffers m ≤ a < msgBuffers m + total in
    W' = set_heap (delete (msgBuffers m) (heap W)) (set_mem (filter (λ x, ¬ inside x.1) (mem W))
      (set_headers (filter (λ x, ¬ inside x.1) (headers W)) (set_lists L W))) ∧
    order q L = [] ∧ unused q L = []).
Proof.
  intros Hwf Hm Hb Hh Hf. unfold ttosDeleteMessage. apply wp_bind. eapply wp_mono; [by apply drain_all_run|].
  intros [] W1 (L1 & -> & HL1 & E1 & Hlen1 & _). apply wp_bind.
  eapply wp_mono; [apply (drain_run _ fuel (set_lists L1 W) (q, InactiveMsgQueue) HL1 eq_refl), Hlen1|].
  intros [] W2 (L2 & -> & HL2 & E2 & Hot2). apply wp_bind. eapply wp_get_msgq; [done|].
  rewrite (proj2 (Z.eqb_neq _ 0)) by done. unfold free. apply wp_bind, wp_gets, wp_bind. eapply wp_lift; [exact Hh|].
  apply wp_modify. exists L2. cbn zeta. split_and!; try done.
  destruct (order q L2) as [|a l] eqn:E; [done|]. assert (Ha : a ∈ order q L2) by (rewrite E; left).
  apply elem_of_order in Ha as (p & Hp & Ha). unfold pend in Ha. rewrite Hot2 in Ha by done.
  change (a ∈ pend q p L1) in Ha. rewrite E1 in Ha; [by apply elem_of_nil in Ha|].
  apply elem_of_seqZ. unfold TTOS_MSGQ_PRIORITY_NUMBER. lia.
Qed.

Lemma delete_waiting_run W q sq rq fuel : calls_ok (kern W) → wqs (kern W) !! sendWaitQueue q = Some sq →
  wqs (kern W) !! receiveWaitQueue q = Some rq → (length (wq_tasks sq) < fuel)%nat → (length (wq_tasks rq) < fuel)%nat →
  wp (ttosDeleteWaitingTask fuel q) W (λ _ W', ∃ K', W' = set_kern K' W ∧ calls_ok K' ∧ sys K' = sys (kern W) ∧
    wqs K' = <[receiveWaitQueue q := set_wq_tasks [] rq]> (<[sendWaitQueue q := set_wq_tasks [] sq]> (wqs (kern W))) ∧
    (∀ t tc, t ∈ wq_tasks sq ∨ t ∈ wq_tasks rq → tasks (kern W) !! t = Some tc →
      ∃ tc', tasks K' !! t = Some tc' ∧ flushed TTOS_OBJECT_WAS_DELETED tc tc') ∧
    ∀ t tc, t ∉ wq_tasks sq → t ∉ wq_tasks rq → tasks (kern W) !! t = Some tc →
      ∃ tc', tasks K' !! t = Some tc' ∧ still tc tc').
Proof.
  intros Hok Hs Hr Hfs Hfr. set (K := kern W) in *. unfold ttosDeleteWaitingTask. apply wp_bind, wp_mlk.
  eapply wp_mono; [by apply (flush_calls_run K (sendWaitQueue q) sq)|].
  intros [] K1 (Hok1 & Es1 & Eq1 & Hr1 & Hf1). apply wp_mlk.
  assert (Hr' : wqs K1 !! receiveWaitQueue q = Some rq).
  { rewrite Eq1, lookup_insert_ne; [done|]. unfold sendWaitQueue, receiveWaitQueue. lia. }
  eapply wp_mono; [by apply (flush_calls_run K1 (receiveWaitQueue q) rq)|].
  intros [] K2 (Hok2 & Es2 & Eq2 & Hr2 & Hf2). exists K2. split_and!; try done.
  - by rewrite Es2.
  - by rewrite Eq2, Eq1.
  - intros t tc Ht Htc. destruct (decide (t ∈ wq_tasks sq)) as [Hin|Hno].
    + destruct (Hf1 t tc Hin Htc) as (t1 & H1 & F1). destruct (decide (t ∈ wq_tasks rq)) as [Hin2|Hno2].
      * destruct (wq_member _ (bi_wqs _ (is_block _ (co_inside _ Hok1))) _ _ t Hr' Hin2) as (c & Hc & _ & Ec).
        assert (E : c = t1) by congruence. rewrite E in Ec. destruct F1 as (_ & F1 & _). congruence.
      * destruct (Hr2 t t1 Hno2 H1) as (t2 & H2 & S2). exists t2. split; [done|]. by eapply flushed_still.
    + destruct Ht as [Ht|Ht]; [done|]. destruct (Hr1 t tc Hno Htc) as (t1 & H1 & S1).
      destruct (Hf2 t t1 Ht H1) as (t2 & H2 & F2). exists t2. split; [done|]. by eapply still_flushed.
  - intros t tc Hn1 Hn2 Htc. destruct (Hr1 t tc Hn1 Htc) as (t1 & H1 & S1). destruct (Hr2 t t1 Hn2 H1) as (t2 & H2 & S2).
    exists t2. split; [done|]. by eapply still_trans.
Qed.

Lemma delete_block_run W q m : calls_ok (kern W) → msgqs W !! q = Some m →
  wp (delete_block q) W (λ r W', r = TTOS_OK ∧ ∃ K1 K2, K1 = set_wqs (delete (sendWaitQueue q) (delete (receiveWaitQueue q) (wqs (kern W)))) (locked 1 (kern W)) ∧
    W' = set_kern K2 (set_pools (inUsedResource W) (inactiveResource W ++ [q]) (u32 (inUsedResourceNum W - 1)) (objExistNumber W)
      (set_msgqs (<[q := zero_msgq]> (msgqs W)) W)) ∧ calls_ok K2 ∧ rescheduled K1 K2).
Proof.
  intros Hok Hm. unfold delete_block. apply wp_bind, wp_mlk. eapply wp_mono; [apply lock_run, Hok|]. intros [] K1 ->.
  rewrite u64_small by lia. change (0 + 1) with 1. unfold ttosReturnObjectToInactiveResource. apply wp_bind, wp_bind.
  eapply wp_upd_msgq; [done|]. apply wp_bind, wp_mlk, wp_modify, wp_modify. simpl. apply wp_bind.
  eapply wp_mono; [apply munlock_run; simpl|].
  - apply inside_set_wqs; [apply inside_locked, Hok|]. intros w wq Hw. right.
    by apply lookup_delete_Some in Hw as [_ [_ ?]%lookup_delete_Some].
  - apply lookup_insert_eq.
  - intros [] W' (K' & -> & Hok' & Hrs). apply wp_ret. split; [done|]. eexists _, K'. split; [reflexivity|]. done.
Qed.

(** The world after a queue is gone: [m] was its control block, [sq] and [rq] its
    wait queues. *)
Record deleted (q : mqid) (m : msgq) (sq rq : wqueue) (W W' : mworld) : Prop := {
  dl_block : msgqs W' = <[q := zero_msgq]> (msgqs W);
  dl_used : inUsedResource W' = filter (λ x, x ≠ q) (inUsedResource W);
  dl_free : inactiveResource W' = inactiveResource W ++ [q];
  dl_heap : heap W' = delete (msgBuffers m) (heap W);
  dl_pending : order q (lists W') = [];
  dl_unused : unused q (lists W') = [];
  dl_queues : wqs (kern W') = delete (sendWaitQueue q) (delete (receiveWaitQueue q) (wqs (kern W)));
  dl_waiting : ∀ t tc, t ∈ wq_tasks sq ∨ t ∈ wq_tasks rq → tasks (kern W) !! t = Some tc →
    ∃ tc', tasks (kern W') !! t = Some tc' ∧ flushed TTOS_OBJECT_WAS_DELETED tc tc';
  dl_others : ∀ t tc, t ∉ wq_tasks sq → t ∉ wq_tasks rq → tasks (kern W) !! t = Some tc →
    ∃ tc', tasks (kern W') !! t = Some tc' ∧ undisturbed tc tc';
}.

Lemma msgq_delete_run W q m sq rq C total fuel :
  calls_ok (kern W) → mq_ok q m sq rq [] C W → disableDeleteFlag m = false → msgBuffers m ≠ 0 →
  heap W !! msgBuffers m = Some total → (∀ h, length (c_get h (lists W)) < fuel)%nat →
  (length (wq_tasks sq) < fuel)%nat → (length (wq_tasks rq) < fuel)%nat →
  wp (delete_alone fuel q) W (λ r W', r = TTOS_OK ∧ calls_ok (kern W') ∧ deleted q m sq rq W W').
Proof.
  intros Hok [Hm Hh B Hw] Hd Hb Hheap Hf Hfs Hfr.
  pose proof (co_inside _ Hok) as Hin. unfold delete_alone, TTOS_DeleteMsgq. apply wp_bind, wp_bind, wp_mlk_gets.
  rewrite (is_task _ Hin). apply wp_bind. eapply wp_mono; [apply (mq_object_run W q m); [done..|apply Hok]|].
  intros b W0 [-> ->]. simpl. apply wp_bind. eapply wp_get_msgq; [done|]. rewrite Hd. apply wp_bind, wp_modify, wp_bind.
  eapply wp_mono; [apply munlock_run; simpl; [by apply inside_locked|apply locked_level]|].
  intros [] W1 (K1 & -> & Hok1 & Hrs1). apply wp_ret. unfold delete_contents. apply wp_bind, wp_bind.
  eapply wp_mono; [apply (delete_message_run _ q m total fuel); simpl; try done; apply B|].
  intros [] W2 (L & -> & Eo & Eu). simpl in Hrs1. pose proof (rs_wqs _ _ Hrs1) as Eq1. simpl in Eq1.
  eapply wp_mono; [apply (delete_waiting_run _ q sq rq fuel); simpl; try done; rewrite Eq1; apply Hw|].
  intros [] W3 (K3 & -> & Hok3 & Es3 & Eq3 & Hfl & Hst).
  eapply wp_mono; [apply (delete_block_run _ q m); [exact Hok3|done]|].
  intros r W4 (-> & K4 & K5 & -> & -> & Hok5 & Hrs5). simpl in *.
  assert (Hend : ∀ t tc, tasks K3 !! t = Some tc → ∃ tc', tasks K5 !! t = Some tc' ∧ still tc tc').
  { intros t tc Ht. destruct (evolves_task _ _ _ _ (rs_evolves _ _ Hrs5) Ht) as (tc' & Ht' & Hc). exists tc'.
    split; [done|]. by apply calm_still. }
  assert (Hbeg : ∀ t tc, tasks (kern W) !! t = Some tc → ∃ tc', tasks K1 !! t = Some tc' ∧ still tc tc').
  { intros t tc Ht. destruct (evolves_task _ _ _ _ (rs_evolves _ _ Hrs1) Ht) as (tc' & Ht' & Hc). exists tc'.
    split; [done|]. by apply calm_still. }
  split; [done|]. split; [done|]. split; try done.
  - simpl. rewrite (rs_wqs _ _ Hrs5). simpl. rewrite Eq3, Eq1, delete_insert_eq, (delete_insert_ne _ (receiveWaitQueue q) (sendWaitQueue q)), delete_insert_eq; [done|].
    unfold sendWaitQueue, receiveWaitQueue. lia.
  - intros t tc Ht Htc. destruct (Hbeg t tc Htc) as (t1 & H1 & S1). destruct (Hfl t t1 Ht H1) as (t2 & H2 & F2).
    destruct (Hend t t2 H2) as (t3 & H3 & S3). exists t3. split; [done|]. eapply flushed_still; [|done]. by eapply still_flushed.
  - intros t tc Hn1 Hn2 Htc. destruct (Hbeg t tc Htc) as (t1 & H1 & S1). destruct (Hst t t1 Hn1 Hn2 H1) as (t2 & H2 & S2).
    destruct (Hend t t2 H2) as (t3 & H3 & S3). exists t3. split; [done|]. apply (still_trans _ _ _ (still_trans _ _ _ S1 S2) S3).
Qed.

(** C27: [TTOS_DeleteMsgq] on a queue that no call is using terminates within one turn
    per message block and per waiting task and never faults.  Every task that waited
    to send or to receive is off its queues with [TTOS_OBJECT_WAS_DELETED], ready
    unless it is suspended; every other task keeps its state and its wait; the
    memory of the messages is freed, no list holds one of its blocks, the control
    block is cleared and free, and the identifier is refused from then on. *)
Theorem delete_msgq_correct W q m sq rq C total fuel :
  calls_ok (kern W) → mq_ok q m sq rq [] C W → disableDeleteFlag m = false → msgBuffers m ≠ 0 →
  heap W !! msgBuffers m = Some total → (∀ h, length (c_get h (lists W)) < fuel)%nat →
  (length (wq_tasks sq) < fuel)%nat → (length (wq_tasks rq) < fuel)%nat →
  ∃ W', delete_alone fuel q W = Some (TTOS_OK, W') ∧ calls_ok (kern W') ∧ deleted q m sq rq W W' ∧
    ∀ buf n ticks, buf ≠ 0 → n ≠ 0 → TTOS_SendMsgq q buf n TTOS_NO_WAIT ticks W' = Some (Done TTOS_INVALID_ID, W').
Proof.
  intros Hok Hq Hd Hb Hheap Hf Hfs Hfr. assert (Hwp := msgq_delete_run W q m sq rq C total fuel Hok Hq Hd Hb Hheap Hf Hfs Hfr).
  apply wp_run in Hwp as (r & W' & Hr & -> & Hok' & Hdel). exists W'. split_and!; try done. intros buf n ticks Hbuf Hn.
  apply (send_invalid W' q zero_msgq); try done. by rewrite (dl_block _ _ _ _ _ _ Hdel), lookup_insert_eq.
Qed.

(** ** Lookup by name *)

Section Lookup.
Context (W : mworld) (names : mqid → list byte).
Hypothesis Hnames : ∀ id, id ∈ inUsedResource W → ∃ m, msgqs W !! id = Some m ∧ cstr (objName m) (names id).

Lemma find_msgq_name_run name s ids : cstr name s → (length s ≤ TTOS_OBJECT_NAME_LENGTH)%nat →
  (∀ id, id ∈ ids → id ∈ inUsedResource W) →
  ∀ K, find_msgq_name name ids (set_kern K W) = Some (snd <$> list_find (λ id, names id = s) ids, set_kern K W).
Proof.
  intros Hs Hlen. induction ids as [|id ids IH]; intros Hsub K; [done|]. simpl.
  destruct (Hnames id) as (c & Hc & Hn); [apply Hsub; left|].
  erewrite bind_run by (unfold get_msgq, mbind, M_bind, gets, lift; simpl; by rewrite Hc).
  erewrite bind_run by (unfold lift, ttosCompareName; by rewrite (compare_run _ _ _ _ _ Hs Hn) by lia).
  case_bool_decide as E.
  - by rewrite decide_True by done.
  - rewrite decide_False by done. rewrite IH by (intros; apply Hsub; by right).
    by destruct (list_find _ ids) as [[]|].
Qed.

End Lookup.

(** [TTOS_GetMsgqID] with a name of at most 32 characters returns the first queue in
    use, in order of creation, that has this name, and [TTOS_INVALID_NAME] exactly
    when there is none; it changes no queue. *)
Theorem get_msgq_id_correct W names name s :
  calls_ok (kern W) → cstr name s → (length s ≤ TTOS_OBJECT_NAME_LENGTH)%nat →
  (∀ id, id ∈ inUsedResource W → ∃ m, msgqs W !! id = Some m ∧ cstr (objName m) (names id)) →
  wp (TTOS_GetMsgqID (Some name) true) W (λ r W', ∃ K', W' = set_kern K' W ∧ calls_ok K' ∧ wqs K' = wqs (kern W) ∧
    match list_find (λ id, names id = s) (inUsedResource W) with
    | Some (_, id) => r = (TTOS_OK, Some id)
    | None => r = (TTOS_INVALID_NAME, None)
    end).
Proof.
  intros Hok Hs Hlen Hnames. simpl. apply wp_bind. unfold msgq_id_by_name. apply wp_bind, wp_mlk.
  eapply wp_mono; [apply lock_run, Hok|]. intros [] K1 ->. rewrite u64_small by lia. change (0 + 1) with 1.
  apply wp_bind, wp_gets, wp_bind. simpl. unfold wp at 1.
  rewrite (find_msgq_name_run W names Hnames name s (inUsedResource W) Hs Hlen) by done.
  apply wp_bind. eapply wp_mono; [apply munlock_run; simpl; [apply inside_locked, Hok|apply locked_level]|].
  intros [] W' (K' & -> & Hok' & Hrs). apply wp_ret. pose proof (rs_wqs _ _ Hrs) as Eq.
  destruct (list_find _ _) as [[i id]|]; simpl; apply wp_ret; exists K'; done.
Qed.
