(* ===== verification/MsgqCases.v ===== *)
(** * Message queues on concrete worlds

    A queue made by [TTOS_CreateMsgq] in a small kernel, on which the general
    theorems apply, and the traces that show what the code gets wrong: urgent
    messages, a wake-up that is lost, a deletion under a copy and a size that
    overflows. *)

From S2P Require Import Prelude Chain PrioMap DeltaQ Kernel Sched Frame SchedInv Dispatch SchedProps Service Wait WaitInv Block Names Sema SemaInv SemaProps SemaLife Msgq MsgqInv MsgqOps MsgqProps MsgqLife.
From Stdlib Require Import Init.Byte.
Import Width.
Local Open Scope Z_scope.

(** ** A world with one queue *)

(** Twelve bytes at 100, eight each at 200 and 300, sizes at 500 and 504. *)
Definition user_memory : gmap Z byte :=
  store 100 [x41; x42; x43; x44; x45; x46; x47; x48; x49; x4a; x4b; x4c] (store 200 (replicate 8 x00) (store 300 (replicate 8 x00) ∅)).

(** No queue yet, on the kernel where task 3 runs on CPU 0 with task 4 ready behind
    it, and task 2 runs on CPU 1. *)
Definition no_queue : mworld :=
  MWorld (sema_kernel (plain 0)) ∅ [] [] 0 0 4 ∅ ∅ user_memory ∅ {[500 := 0; 504 := 0]} ∅ [].

(** ["m1"], version ["1.0"]. *)
Definition queue_config (number maxSize : Z) : msgq_config :=
  MsgqConfig [x6d; x31; x00] 0 maxSize number [x31; x2e; x30; x00].

Definition finally {A} (m : M mworld A) (W : mworld) : mworld := match m W with Some (_, W') => W' | None => W end.

Definition one_queue (number : Z) : mworld :=
  finally (TTOS_CreateMsgq 1 (Some (queue_config number 8)) true (Some 5%nat) (Some 4096)) no_queue.

(** The CPU whose steps come next. *)
Definition on_cpu (c : nat) (W : mworld) : mworld := set_kern (set_this_cpu c (kern W)) W.

Lemma finally_run {A} (m : M mworld A) W r : fst <$> m W = Some r → m W = Some (r, finally m W).
Proof. unfold finally. by destruct (m W) as [[]|]; simpl; intros [= ->]. Qed.

Lemma run_det {A} (m : M mworld A) W r r' W1 W2 : m W = Some (r, W1) → m W = Some (r', W2) → W1 = W2.
Proof. by intros -> [= _ ->]. Qed.

(** The buffers of callers can be checked by evaluation. *)
#[export] Instance mapped_dec M a n : Decision (mapped M a n).
Proof.
  refine (cast_if (decide (Forall (λ i, is_Some (M !! i)) (seqZ a n)))); unfold mapped; rewrite Forall_forall in *.
  - intros i Hi. apply f. by apply elem_of_seqZ.
  - intros H. apply n0. intros i Hi%elem_of_seqZ. by apply H.
Defined.

#[export] Instance buffer_ok_dec m M b n : Decision (buffer_ok m M b n).
Proof.
  apply and_dec; [apply _|].
  refine (cast_if (decide (Forall (λ a, apart (a + BUFFER_OFFSET) (maxMsgSize m) b n) (blocks m)))); by rewrite <- Forall_forall.
Defined.

Lemma caller_buffer_of q W m b n : msgqs W !! q = Some m → buffer_ok m (mem W) b n → caller_buffer q W b n.
Proof. intros Hm Hb m' Hm'. by simplify_eq. Qed.

(** ** The queue is as the other theorems need it *)

Lemma queue_name : cstr [x6d; x31; x00] [x6d; x31].
Proof. exists []. split; [reflexivity|]. apply (bool_decide_unpack _). vm_compute. exact I. Qed.

Lemma queue_fits number : 0 < number < 2 ^ 20 → fits (queue_config number 8).
Proof. intros Hn. split; simpl; try lia. unfold area. change (block_size _) with 48. simpl. lia. Qed.

Lemma no_queue_fresh n : fresh_area 4096 n no_queue.
Proof. split; [done|]. intros h a Ha. by apply elem_of_nil in Ha. Qed.

Lemma finally_wp {A} (m : M mworld A) W Φ : wp m W Φ → ∃ r, m W = Some (r, finally m W) ∧ Φ r (finally m W).
Proof. unfold wp, finally. destruct (m W) as [[r W']|]; [|done]. intros ?. by exists r. Qed.

Lemma one_msgq_ok number : 0 < number < 2 ^ 20 → calls_ok (kern (one_queue number)) ∧
  ∃ name, mq_ok 5 (new_msgq (queue_config number 8) name 4096) (new_wq (queue_config number 8))
    (new_wq (queue_config number 8)) [] [] (one_queue number).
Proof.
  intros Hn. assert (Hwp := create_run no_queue 0 (queue_config number 8) [x6d; x31] [x31; x2e; x30] (Some 5%nat) (Some 4096)).
  apply finally_wp in Hwp as (r & _ & Hok & Hc).
  - split; [exact Hok|]. unfold created in Hc.
    assert (Ek : mq_checks (queue_config number 8) [x6d; x31] [x31; x2e; x30] = TTOS_OK).
    { unfold mq_checks. change (cfg_maxMsgqNumber _) with number. replace (number =? 0) with false by lia.
      vm_compute. reflexivity. }
    rewrite Ek in Hc. destruct Hc as (_ & _ & _ & _ & name & _ & Hq). by exists name.
  - apply (sema_world_ok (plain 0)).
  - exact queue_name.
  - exact version_cstr.
  - simpl. vm_compute. lia.
  - apply c_wf_empty.
  - intros _. by apply queue_fits.
  - intros b [= <-]. apply no_queue_fresh.
Qed.

Lemma one_queue_state number : 0 < number < 2 ^ 20 → queue_state 5 ([], []) (one_queue number, []).
Proof. intros Hn. destruct (one_msgq_ok number Hn) as (Hok & name & Hq). split_and!; [done|by do 3 eexists|constructor]. Qed.

Lemma short_lists h : (length (c_get h (lists (one_queue 2))) < 3)%nat.
Proof.
  assert (Hf : map_Forall (λ _ xs, length xs < 3)%nat (lists (one_queue 2))).
  { apply (bool_decide_unpack _). vm_compute. exact I. }
  unfold c_get. destruct (lists (one_queue 2) !! h) as [xs|] eqn:E; [|simpl; lia]. by apply (Hf h).
Qed.

(** ** The general theorems on it *)

Lemma create_msgq_correct_witness :
  ∃ W', TTOS_CreateMsgq 1 (Some (queue_config 2 8)) true (Some 5%nat) (Some 4096) no_queue = Some ((TTOS_OK, Some 5%nat), W') ∧
    calls_ok (kern W') ∧ inUsedResource W' = [5%nat].
Proof.
  destruct (create_msgq_correct no_queue 0 (queue_config 2 8) [x6d; x31] [x31; x2e; x30] (Some 5%nat) (Some 4096))
    as (r & W' & Hr & Hok & Hc).
  - apply (sema_world_ok (plain 0)).
  - exact queue_name.
  - exact version_cstr.
  - vm_compute. lia.
  - apply c_wf_empty.
  - intros _. apply queue_fits. lia.
  - intros b [= <-]. apply no_queue_fresh.
  - assert (Ek : mq_checks (queue_config 2 8) [x6d; x31] [x31; x2e; x30] = TTOS_OK) by (vm_compute; reflexivity).
    unfold created in Hc. rewrite Ek in Hc. destruct Hc as (Er & Eu & _). exists W'.
    split; [rewrite Hr, Er; reflexivity|]. split; [exact Hok|]. rewrite Eu. reflexivity.
Defined.

(** Task 3 asks for a block for four bytes at priority 5, and commits them. *)
Definition asked : mworld := finally (TTOS_SendMsgq 5 100 4 40 10) (one_queue 2).
Definition committed : mworld := finally (ttosCommitMessage 5 4096 100 4 0) asked.

Definition asked_state : mstate := (asked, started (Block 4096) (Sender 3 100 4) []).
Definition committed_state : mstate := (committed, []).
Definition demo_trace : list (mop * mstate) :=
  [(OSend 3 100 4 40 10 (Block 4096), asked_state); (OCommit 4096 3 100 4, committed_state)].

Lemma asked_committed : mhist 5 (one_queue 2, []) demo_trace committed_state.
Proof.
  apply hist_step; [|apply hist_step; [|apply hist_end]].
  - apply (step_send 5 (one_queue 2) [] 3 100 4 40 10 (Block 4096) asked); [vm_compute; reflexivity|vm_compute; discriminate|lia..|reflexivity| |].
    + eapply caller_buffer_of; [vm_compute; reflexivity|]. apply (bool_decide_unpack _). vm_compute. exact I.
    + apply (finally_run (TTOS_SendMsgq 5 100 4 40 10) (one_queue 2) (Block 4096)). vm_compute. reflexivity.
  - apply (step_commit 5 asked [] [] 4096 3 100 4 committed).
    + eapply caller_buffer_of; [vm_compute; reflexivity|]. apply (bool_decide_unpack _). vm_compute. exact I.
    + vm_compute. split; [reflexivity|discriminate].
    + apply (finally_run (ttosCommitMessage 5 4096 100 4 0) asked tt). vm_compute. reflexivity.
Qed.

Lemma msgq_history_correct_witness :
  no_fault 5 committed_state.1 committed_state.2 ∧
  ∃ A', aq_run 5 ([], []) (one_queue 2) demo_trace A' ∧ queue_state 5 A' committed_state.
Proof.
  apply (msgq_history_correct 5 ([], []) (one_queue 2, []) demo_trace committed_state).
  - apply one_queue_state. lia.
  - exact asked_committed.
Defined.

Lemma delete_msgq_correct_witness :
  ∃ W', delete_alone 3 5 (one_queue 2) = Some (TTOS_OK, W') ∧ inUsedResource W' = [] ∧ inactiveResource W' = [5%nat].
Proof.
  destruct (one_msgq_ok 2) as (Hok & name & Hq); [lia|].
  destruct (delete_msgq_correct (one_queue 2) 5 (new_msgq (queue_config 2 8) name 4096) (new_wq (queue_config 2 8))
    (new_wq (queue_config 2 8)) [] 96 3) as (W' & Hr & _ & Hd & _).
  - exact Hok.
  - exact Hq.
  - reflexivity.
  - discriminate.
  - vm_compute. reflexivity.
  - exact short_lists.
  - simpl. lia.
  - simpl. lia.
  - exists W'. split; [exact Hr|]. rewrite (dl_used _ _ _ _ _ _ Hd), (dl_free _ _ _ _ _ _ Hd). vm_compute. split; reflexivity.
Defined.

Definition demo_wq : wqueue := new_wq (queue_config 2 8).
Definition demo_msgq (name : list byte) : msgq := set_disable true (new_msgq (queue_config 2 8) name 4096).

Lemma demo_buffer name M b n : bool_decide (buffer_ok (demo_msgq []) M b n) = true → buffer_ok (demo_msgq name) M b n.
Proof. intros [H1 H2]%bool_decide_eq_true. exact (conj H1 H2). Qed.

Lemma asked_ok : calls_ok (kern asked) ∧ ∃ name, mq_ok 5 (demo_msgq name) demo_wq demo_wq [(4096, Filling 5)] [] asked.
Proof.
  destruct (one_msgq_ok 2) as (Hok & name & Hq); [lia|].
  assert (Hr : runningTask (kern (one_queue 2)) !! this_cpu (kern (one_queue 2)) = Some 3%nat) by (vm_compute; reflexivity).
  destruct (running_task _ _ Hok Hr) as [ec Hec].
  assert (Hwp := send_run (one_queue 2) 5 _ _ _ [] [] 3 ec 40 Hok Hq Hr Hec ltac:(vm_compute; discriminate) 100 4 10).
  apply finally_wp in Hwp as (r & _ & Hok' & _ & Hout); [|lia..|reflexivity|].
  - split; [exact Hok'|]. exists name. assert (Eu : unused 5 (lists (one_queue 2)) = [4096; 4144]) by (vm_compute; reflexivity).
    unfold send_outcome in Hout. rewrite Eu in Hout. exact (proj2 Hout).
  - apply (demo_buffer name). vm_compute. reflexivity.
Qed.

Lemma commit_message_correct_witness :
  ∃ W' name, ttosCommitMessage 5 4096 100 4 0 asked = Some (tt, W') ∧ calls_ok (kern W') ∧
    commit_outcome 5 (demo_msgq name) demo_wq demo_wq [] [] asked 4096 (5, [x41; x42; x43; x44]) W'.
Proof.
  destruct asked_ok as (Hok & name & Hq).
  destruct (commit_message_correct asked 5 (demo_msgq name) demo_wq demo_wq 4096 5 [] [] 100 [x41; x42; x43; x44])
    as (W' & Hr & Hok' & Hout).
  - exact Hok.
  - exact Hq.
  - simpl. lia.
  - apply demo_buffer. vm_compute. reflexivity.
  - vm_compute. reflexivity.
  - exists W', name. split; [exact Hr|]. split; [exact Hok'|exact Hout].
Defined.

Lemma committed_run : ttosCommitMessage 5 4096 100 4 0 asked = Some (tt, committed).
Proof. apply (finally_run (ttosCommitMessage 5 4096 100 4 0) asked tt). vm_compute. reflexivity. Qed.

Lemma send_receive_roundtrip_witness :
  ∃ W2 b W3 m' W4, ttosCommitMessage 5 4096 100 4 0 asked = Some (tt, W2) ∧
    TTOS_ReceiveMsgq 5 200 500 TTOS_NO_WAIT 0 false W2 = Some (Block b, W3) ∧
    ttosReceiveMessage 5 b 200 500 W3 = Some (tt, W4) ∧ load 4 200 (mem W4) = Some [x41; x42; x43; x44] ∧
    sizes W4 !! 500 = Some 4 ∧ mq_ok 5 m' demo_wq demo_wq [] [] W4.
Proof.
  destruct asked_ok as (Hok & name & Hq).
  destruct (send_receive_roundtrip asked 5 (demo_msgq name) demo_wq demo_wq 4096 5 [] 100 [x41; x42; x43; x44]
    200 500 TTOS_NO_WAIT 0 false) as (W2 & Hr & Hrest).
  - exact Hok.
  - exact Hq.
  - reflexivity.
  - reflexivity.
  - simpl. lia.
  - apply demo_buffer. vm_compute. reflexivity.
  - vm_compute. reflexivity.
  - discriminate.
  - discriminate.
  - lia.
  - apply demo_buffer. vm_compute. reflexivity.
  - exists 0. vm_compute. reflexivity.
  - change (ttosCommitMessage 5 4096 100 4 0 asked = Some (tt, W2)) in Hr. pose proof (run_det _ _ _ _ _ _ Hr committed_run). subst W2.
    destruct (Hrest 3%nat) as (b & W3 & Hr3 & Hrest3); [vm_compute; reflexivity|vm_compute; discriminate|].
    assert (Hrun : runningTask (kern W3) !! this_cpu (kern W3) = Some 3%nat).
    { assert (E := f_equal (λ o, '(_, W) ← o; runningTask (kern W) !! this_cpu (kern W)) Hr3). exact (eq_sym E). }
    destruct (Hrest3 3%nat Hrun) as (m' & ec & W4 & Hr4 & Hl & Hs & _ & _ & _ & Hq4).
    exists committed, b, W3, m', W4. split; [exact committed_run|]. split; [exact Hr3|]. split; [exact Hr4|].
    split; [exact Hl|]. split; [exact Hs|exact Hq4].
Defined.

Lemma urgent_message_faults_witness :
  ∃ W', ttosCommitMessage 5 4096 100 4 1 asked = Some (tt, W') ∧
    ∀ e rbuf psize options ticks sigpend, rbuf ≠ 0 → psize ≠ 0 →
      runningTask (kern W') !! this_cpu (kern W') = Some e → idleTask (kern W') !! this_cpu (kern W') ≠ Some e →
      TTOS_ReceiveMsgq 5 rbuf psize options ticks sigpend W' = None.
Proof.
  destruct asked_ok as (Hok & name & Hq).
  apply (urgent_message_faults asked 5 (demo_msgq name) demo_wq demo_wq 4096 5 [] 100 [x41; x42; x43; x44]).
  - exact Hok.
  - exact Hq.
  - simpl. lia.
  - apply demo_buffer. vm_compute. reflexivity.
  - vm_compute. reflexivity.
Defined.

Lemma get_msgq_id_correct_witness :
  wp (TTOS_GetMsgqID (Some [x6d; x31; x00]) true) no_queue (λ r _, r = (TTOS_INVALID_NAME, None)).
Proof.
  eapply wp_mono; [apply (get_msgq_id_correct no_queue (λ _, []) [x6d; x31; x00] [x6d; x31])|].
  - apply (sema_world_ok (plain 0)).
  - exact queue_name.
  - vm_compute. lia.
  - intros id Hid. by apply elem_of_nil in Hid.
  - intros r W' (K' & _ & _ & _ & Hr). exact Hr.
Defined.

(** ** Traces *)

Ltac runs :=
  match goal with |- ?m ?W = Some (?r, _) => apply (finally_run m W r) end; vm_compute; reflexivity.

(** A queue of one message: task 3 sends four bytes at priority 5, and then waits to
    send eight at priority 7; task 4 receives, and between the two parts of its call
    task 2 on CPU 1 waits for a message. *)
Definition lw1 : mworld := finally (TTOS_SendMsgq 5 100 4 (Z.shiftl 5 3) 10) (one_queue 1).
Definition lw2 : mworld := finally (ttosCommitMessage 5 4096 100 4 0) lw1.
Definition lw3 : mworld := finally (TTOS_SendMsgq 5 100 8 (Z.shiftl 7 3) 10) lw2.
Definition lw4 : mworld := finally (TTOS_ReceiveMsgq 5 200 500 TTOS_WAIT 10 false) lw3.
Definition lw5 : mworld := finally (TTOS_ReceiveMsgq 5 300 504 TTOS_WAIT 10 false) (on_cpu 1 lw4).
Definition lw6 : mworld := finally (ttosReceiveMessage 5 4096 200 500) (on_cpu 0 lw5).

(** A receiver that puts the message of a waiting sender into the block it has
    emptied does not look at the tasks that wait to receive.  After this run a
    message is pending and task 2 still waits for one; and task 4, which got the
    first message, is told the priority 7 of the second. *)
Theorem wake_up_is_lost :
  TTOS_SendMsgq 5 100 4 (Z.shiftl 5 3) 10 (one_queue 1) = Some (Block 4096, lw1) ∧
  ttosCommitMessage 5 4096 100 4 0 lw1 = Some (tt, lw2) ∧
  TTOS_SendMsgq 5 100 8 (Z.shiftl 7 3) 10 lw2 = Some (Waiting, lw3) ∧
  TTOS_ReceiveMsgq 5 200 500 TTOS_WAIT 10 false lw3 = Some (Block 4096, lw4) ∧
  TTOS_ReceiveMsgq 5 300 504 TTOS_WAIT 10 false (on_cpu 1 lw4) = Some (Waiting, lw5) ∧
  ttosReceiveMessage 5 4096 200 500 (on_cpu 0 lw5) = Some (tt, lw6) ∧
  pendingCount <$> msgqs lw6 !! 5%nat = Some 1 ∧
  wq_tasks <$> wqs (kern lw6) !! receiveWaitQueue 5 = Some [2%nat] ∧
  load 4 200 (mem lw6) = Some [x41; x42; x43; x44] ∧
  (λ tc, wait_count (wait tc)) <$> tasks (kern lw6) !! 4%nat = Some 7.
Proof.
  split; [runs|]. split; [runs|]. split; [runs|]. split; [runs|]. split; [runs|]. split; [runs|].
  vm_compute. repeat split; reflexivity.
Qed.

(** Two senders between their parts; one commits, and its CPU deletes the queue. *)
Definition du1 : mworld := finally (TTOS_SendMsgq 5 100 4 0 10) (one_queue 2).
Definition du2 : mworld := finally (TTOS_SendMsgq 5 200 4 0 10) (on_cpu 1 du1).
Definition du3 : mworld := finally (ttosCommitMessage 5 4144 200 4 0) du2.
Definition du4 : mworld := finally (delete_alone 3 5) du3.

(** [disableDeleteFlag] is one boolean for all calls in progress: task 3 holds a
    block on CPU 0, task 2 on CPU 1 sends a message of its own, which resets the
    flag, and then deletes the queue with [TTOS_OK]; the copy of task 3 into its
    block is then an access to freed memory. *)
Theorem delete_under_copy :
  TTOS_SendMsgq 5 100 4 0 10 (one_queue 2) = Some (Block 4096, du1) ∧
  TTOS_SendMsgq 5 200 4 0 10 (on_cpu 1 du1) = Some (Block 4144, du2) ∧
  ttosCommitMessage 5 4144 200 4 0 du2 = Some (tt, du3) ∧
  delete_alone 3 5 du3 = Some (TTOS_OK, du4) ∧
  ttosCommitMessage 5 4096 100 4 0 (on_cpu 0 du4) = None.
Proof. split; [runs|]. split; [runs|]. split; [runs|]. split; [runs|]. vm_compute. reflexivity. Qed.
