(* ===== verification/Notifier.v ===== *)
(** * Notifier chains

    [kernel/notifier/notifier.c] and [include/notifier.h]: singly linked lists of
    callbacks in order of priority.  The state is one chain: its head and the
    notifier blocks in memory.  A pointer to a pointer, as the loops use it, is the
    place it points to ([link]).  The callbacks are code of the clients: what one
    returns is a parameter [call], which may depend on all calls before ([trace]).

    A chain is a sequence of blocks, those of higher priority first and those of the
    same priority in the order of registration; registering, removing and calling
    are proved against that. *)

From S2P Require Import Prelude.
From stdpp Require Import sorting.
Local Open Scope Z_scope.

Definition NOTIFY_DONE : Z := 0x0000.
Definition NOTIFY_OK : Z := 0x0001.
Definition NOTIFY_STOP_MASK : Z := 0x8000.
Definition EEXIST : Z := 17.
Definition EBUSY : Z := 16.
Definition ENOENT : Z := 2.

Record notifier_block := NotifierBlock {
  nb_next : option N;
  nb_priority : Z;
}.

Record nchain := NChain {
  nb_head : option N;
  nb_blocks : gmap N notifier_block;
  trace : list (N * Z);
}.

Definition set_nb_head (v : option N) (s : nchain) : nchain := NChain v (nb_blocks s) (trace s).
Definition set_nb_blocks (v : gmap N notifier_block) (s : nchain) : nchain := NChain (nb_head s) v (trace s).
Definition set_trace (v : list (N * Z)) (s : nchain) : nchain := NChain (nb_head s) (nb_blocks s) v.

Definition get_nb (n : N) : M nchain notifier_block := b ← gets nb_blocks; lift (b !! n).
Definition set_next (n : N) (v : option N) : M nchain unit :=
  b ← get_nb n; modify (λ s, set_nb_blocks (<[n := NotifierBlock v (nb_priority b)]> (nb_blocks s)) s).

(** What a [struct notifier_block **] points to. *)
Inductive link := AtHead | AfterNb (n : N).

Definition get_link (l : link) : M nchain (option N) :=
  match l with AtHead => gets nb_head | AfterNb n => b ← get_nb n; mret (nb_next b) end.
Definition set_link (l : link) (v : option N) : M nchain unit :=
  match l with AtHead => modify (set_nb_head v) | AfterNb n => set_next n v end.

(** ** Registration *)

Fixpoint register_loop (fuel : nat) (nl : link) (n : N) (unique_priority : bool) : M nchain Z :=
  match fuel with
  | O => fault
  | S fuel =>
      o ← get_link nl;
      let insert :=
        _ ← set_next n o;
        _ ← set_link nl (Some n);
        mret 0 in
      match o with
      | None => insert
      | Some c =>
          if bool_decide (c = n) then mret (- EEXIST)
          else
            b ← get_nb n;
            cb ← get_nb c;
            if nb_priority cb <? nb_priority b then insert
            else if (nb_priority b =? nb_priority cb) && unique_priority then mret (- EBUSY)
            else register_loop fuel (AfterNb c) n unique_priority
      end
  end.

Definition notifier_chain_register (fuel : nat) (n : N) (unique_priority : bool) : M nchain Z :=
  register_loop fuel AtHead n unique_priority.

Fixpoint unregister_loop (fuel : nat) (nl : link) (n : N) : M nchain Z :=
  match fuel with
  | O => fault
  | S fuel =>
      o ← get_link nl;
      match o with
      | None => mret (- ENOENT)
      | Some c =>
          if bool_decide (c = n) then
            b ← get_nb n;
            _ ← set_link nl (nb_next b);
            mret 0
          else unregister_loop fuel (AfterNb c) n
      end
  end.

Definition notifier_chain_unregister (fuel : nat) (n : N) : M nchain Z := unregister_loop fuel AtHead n.

(** ** Calling *)

Section Calls.
Context (call : list (N * Z) → N → Z → Z).

Definition notifier_call (n : N) (val : Z) : M nchain Z :=
  t ← gets trace;
  _ ← modify (set_trace (t ++ [(n, val)]));
  mret (call t n val).

(** The loop of [notifier_call_chain] with [ret], [nb] and the two counters. *)
Fixpoint call_loop (fuel : nat) (ret : Z) (nb : option N) (val nr_to_call nr_calls : Z) : M nchain (Z * Z) :=
  match fuel with
  | O => fault
  | S fuel =>
      match nb with
      | None => mret (ret, nr_calls)
      | Some n =>
          if nr_to_call =? 0 then mret (ret, nr_calls)
          else
            b ← get_nb n;
            ret ← notifier_call n val;
            let nr_calls := nr_calls + 1 in
            if negb (Z.land ret NOTIFY_STOP_MASK =? 0) then mret (ret, nr_calls)
            else call_loop fuel ret (nb_next b) val (nr_to_call - 1) nr_calls
      end
  end.

(** The result, and the number of calls that is stored at [nr_calls]. *)
Definition notifier_call_chain (fuel : nat) (val nr_to_call : Z) : M nchain (Z * Z) :=
  nb ← gets nb_head; call_loop fuel NOTIFY_DONE nb val nr_to_call 0.

Definition notifier_call_chain_robust (fuel : nat) (val_up val_down : Z) : M nchain Z :=
  r ← notifier_call_chain fuel val_up (- 1);
  let '(ret, nr) := (r : Z * Z) in
  _ ← whenM (negb (Z.land ret NOTIFY_STOP_MASK =? 0))
        (_ ← notifier_call_chain fuel val_down (nr - 1); mret tt);
  mret ret.

(** [notifier_from_errno] and [notifier_to_errno] of the header. *)
Definition notifier_from_errno (err : Z) : Z :=
  if negb (err =? 0) then Z.lor NOTIFY_STOP_MASK (NOTIFY_OK - err) else NOTIFY_OK.
Definition notifier_to_errno (ret : Z) : Z :=
  let ret := Z.land ret (Z.lnot NOTIFY_STOP_MASK) in
  if NOTIFY_OK <? ret then NOTIFY_OK - ret else 0.

(** ** The interfaces: the atomic chains take a lock around these, the raw ones none *)

Definition atomic_notifier_chain_register (fuel : nat) (n : N) : M nchain Z := notifier_chain_register fuel n false.
Definition atomic_notifier_chain_register_unique_prio (fuel : nat) (n : N) : M nchain Z :=
  notifier_chain_register fuel n true.
Definition atomic_notifier_chain_unregister (fuel : nat) (n : N) : M nchain Z := notifier_chain_unregister fuel n.
Definition atomic_notifier_call_chain (fuel : nat) (val : Z) : M nchain Z :=
  r ← notifier_call_chain fuel val (- 1); mret (fst r).
Definition raw_notifier_chain_register (fuel : nat) (n : N) : M nchain Z := notifier_chain_register fuel n false.
Definition raw_notifier_chain_unregister (fuel : nat) (n : N) : M nchain Z := notifier_chain_unregister fuel n.
Definition raw_notifier_call_chain_robust (fuel : nat) (val_up val_down : Z) : M nchain Z :=
  notifier_call_chain_robust fuel val_up val_down.
Definition raw_notifier_call_chain (fuel : nat) (val : Z) : M nchain Z :=
  r ← notifier_call_chain fuel val (- 1); mret (fst r).

End Calls.

(** ** Chains as sequences *)

Fixpoint lseg (m : gmap N notifier_block) (o : option N) (l : list N) : Prop :=
  match l with
  | [] => o = None
  | c :: l => o = Some c ∧ ∃ b, m !! c = Some b ∧ lseg m (nb_next b) l
  end.

Definition pri (m : gmap N notifier_block) (n : N) : Z := default 0 (nb_priority <$> m !! n).

(** The chain is the blocks [l], the more urgent first. *)
Record is_chain (s : nchain) (l : list N) : Prop := {
  ic_seg : lseg (nb_blocks s) (nb_head s) l;
  ic_nodup : NoDup l;
  ic_sorted : StronglySorted (λ a b, pri (nb_blocks s) b ≤ pri (nb_blocks s) a) l;
}.

(** The place where the blocks behind [A] begin. *)
Definition end_of (A : list N) : link := match last A with None => AtHead | Some c => AfterNb c end.

Lemma lseg_ext m m' o l : (∀ c, c ∈ l → m !! c = m' !! c) → lseg m o l → lseg m' o l.
Proof.
  revert o. induction l as [|c l IH]; intros o E; [done|]. simpl. intros (-> & b & Hb & Hl). split; [done|].
  exists b. split; [rewrite <- E; [done|left]|]. apply IH; [|done]. intros x Hx. apply E. by right.
Qed.

Lemma lseg_mapped m o l c : lseg m o l → c ∈ l → is_Some (m !! c).
Proof.
  revert o. induction l as [|x l IH]; intros o Hl Hc; [by apply elem_of_nil in Hc|]. destruct Hl as (-> & b & Hb & Hl).
  apply elem_of_cons in Hc as [->|Hc]; eauto.
Qed.

Lemma lseg_next m o A c B : lseg m o (A ++ c :: B) → ∃ b, m !! c = Some b ∧ nb_next b = head B.
Proof.
  revert o. induction A as [|x A IH]; intros o; simpl.
  - intros (_ & b & Hb & Hl). exists b. split; [done|]. by destruct B as [|y B]; [|destruct Hl as (-> & _)].
  - intros (_ & b & _ & Hl). by apply (IH (nb_next b)).
Qed.

Lemma lseg_tail m o A B : lseg m o (A ++ B) → lseg m (head B) B.
Proof.
  revert o. induction A as [|a A IH]; intros o; simpl.
  - intros Hl. by destruct B; [|destruct Hl as (-> & ?)].
  - intros (_ & b & _ & Hl). by eapply IH.
Qed.

Lemma lseg_change m o A c B B' v p : lseg m o (A ++ c :: B) → NoDup (A ++ [c]) → c ∉ B' → lseg m v B' →
  lseg (<[c := NotifierBlock v p]> m) o (A ++ c :: B').
Proof.
  revert o. induction A as [|x A IH]; intros o Hl Hnd Hc HB'; simpl in *.
  - destruct Hl as (-> & b & Hb & _). split; [done|]. exists (NotifierBlock v p). rewrite lookup_insert_eq. split; [done|].
    eapply lseg_ext; [|exact HB']. intros y Hy. rewrite lookup_insert_ne; [done|]. by intros ->.
  - destruct Hl as (-> & b & Hb & Hl). apply NoDup_cons in Hnd as [Hx Hnd]. split; [done|]. exists b.
    rewrite lookup_insert_ne by set_solver. split; [done|]. by apply IH.
Qed.

Lemma get_link_run s A B : lseg (nb_blocks s) (nb_head s) (A ++ B) → get_link (end_of A) s = Some (head B, s).
Proof.
  intros Hl. unfold end_of. destruct A as [|c A _] using rev_ind.
  - simpl. unfold gets. destruct B as [|y B]; simpl in *; [by rewrite Hl|]. by destruct Hl as (-> & _).
  - rewrite last_snoc. rewrite <- app_assoc in Hl. destruct (lseg_next _ _ _ _ _ Hl) as (b & Hb & <-).
    simpl. unfold get_nb, mbind, M_bind, gets, lift. by rewrite Hb.
Qed.

(** Writing there replaces the rest of the chain. *)
Lemma set_link_run s A B B' v : lseg (nb_blocks s) (nb_head s) (A ++ B) → NoDup A → (∀ c, c ∈ A → c ∉ B') →
  lseg (nb_blocks s) v B' →
  wp (set_link (end_of A) v) s (λ _ s', lseg (nb_blocks s') (nb_head s') (A ++ B') ∧ trace s' = trace s ∧
    (∀ c, pri (nb_blocks s') c = pri (nb_blocks s) c) ∧
    (∀ c, is_Some (nb_blocks s' !! c) ↔ is_Some (nb_blocks s !! c)) ∧
    ∀ c, c ∉ A → nb_blocks s' !! c = nb_blocks s !! c).
Proof.
  intros Hl Hnd Hdis HB. unfold end_of. destruct A as [|c A _] using rev_ind.
  - simpl. by apply wp_modify.
  - rewrite last_snoc. rewrite <- app_assoc in Hl. destruct (lseg_next _ _ _ _ _ Hl) as (b & Hb & _).
    simpl. unfold set_next, get_nb. apply wp_bind, wp_bind, wp_gets. eapply wp_lift; [done|]. apply wp_modify. simpl.
    split_and!; [|done|..].
    + rewrite <- app_assoc. apply (lseg_change _ _ _ _ B); try done. apply Hdis. set_solver.
    + intros x. unfold pri. destruct (decide (x = c)) as [->|]; [by rewrite lookup_insert_eq, Hb|by rewrite lookup_insert_ne].
    + intros x. destruct (decide (x = c)) as [->|]; [|by rewrite lookup_insert_ne]. rewrite lookup_insert_eq, Hb. by split; eauto.
    + intros x Hx. rewrite lookup_insert_ne; [done|]. set_solver.
Qed.

(** What the operations on a chain leave alone. *)
Record same_blocks (s s' : nchain) : Prop := {
  sb_trace : trace s' = trace s;
  sb_pri : ∀ c, pri (nb_blocks s') c = pri (nb_blocks s) c;
  sb_mapped : ∀ c, is_Some (nb_blocks s' !! c) ↔ is_Some (nb_blocks s !! c);
}.

Lemma same_blocks_trans s1 s2 s3 : same_blocks s1 s2 → same_blocks s2 s3 → same_blocks s1 s3.
Proof. intros [T1 P1 M1] [T2 P2 M2]. split; [congruence|intros c; by rewrite P2|intros c; by rewrite M2]. Qed.

Lemma sorted_ext {A} (R R' : A → A → Prop) l : (∀ x y, R x y → R' x y) → StronglySorted R l → StronglySorted R' l.
Proof. intros E. induction 1; constructor; [done|]. eapply Forall_impl; eauto. Qed.

Lemma sorted_around {A} (R : A → A → Prop) l1 x l2 : StronglySorted R (l1 ++ l2) → Forall (λ y, R y x) l1 → Forall (R x) l2 →
  StronglySorted R (l1 ++ x :: l2).
Proof.
  intros (Hs1 & Hs2 & Hx)%StronglySorted_app H1 H2. apply StronglySorted_app. rewrite Forall_forall in H1, H2. split_and!.
  - intros a b Ha Hb. apply elem_of_cons in Hb as [->|Hb]; eauto.
  - done.
  - constructor; [done|]. by apply Forall_forall.
Qed.

(** Where a block of priority [p] goes. *)
Definition place (m : gmap N notifier_block) (n : N) (l : list N) : list N :=
  filter (λ c, pri m n ≤ pri m c) l ++ n :: filter (λ c, ¬ pri m n ≤ pri m c) l.

Lemma place_split m n A B : Forall (λ c, pri m n ≤ pri m c) A → Forall (λ c, ¬ pri m n ≤ pri m c) B →
  place m n (A ++ B) = A ++ n :: B.
Proof.
  intros HA HB. unfold place. rewrite !filter_app, (filter_all _ A), (filter_none _ B), (filter_all _ B) by done.
  rewrite (filter_none _ A), app_nil_r; [done|]. eapply Forall_impl; [exact HA|]. intros x Hx Hn. by apply Hn.
Qed.

(** The block that stands against registering [n], if any. *)
Definition clash (m : gmap N notifier_block) (l : list N) (n : N) (unique : bool) : option N :=
  if unique then head (filter (λ c, pri m c = pri m n) l) else if decide (n ∈ l) then Some n else None.

Section Chain.
Context (s : nchain) (l : list N) (n : N).
Hypothesis Hc : is_chain s l.
Hypothesis Hn : is_Some (nb_blocks s !! n).
Abbreviation p := (pri (nb_blocks s)).

Lemma get_nb_run c : is_Some (nb_blocks s !! c) → ∃ b, nb_blocks s !! c = Some b ∧ nb_priority b = p c ∧
  get_nb c s = Some (b, s).
Proof.
  intros [b Hb]. exists b. unfold get_nb, mbind, M_bind, gets, lift, pri. by rewrite Hb.
Qed.

Lemma chain_insert_run A B : l = A ++ B → n ∉ l → Forall (λ c, p n ≤ p c) A → Forall (λ c, ¬ p n ≤ p c) B →
  wp (_ ← set_next n (head B); _ ← set_link (end_of A) (Some n); mret 0) s (λ r s',
    r = 0 ∧ is_chain s' (place (nb_blocks s) n l) ∧ same_blocks s s').
Proof.
  intros -> Hnl HA HB. destruct Hc as [Hl Hnd Hs]. destruct (get_nb_run n Hn) as (b & Hb & Ep & Hg).
  unfold set_next. apply wp_bind, wp_bind. unfold wp at 1. rewrite Hg. apply wp_modify. simpl.
  set (s1 := set_nb_blocks _ s). apply NoDup_app in Hnd as Hnd'. destruct Hnd' as (HndA & Hdis & HndB).
  assert (Hpri : ∀ c, pri (nb_blocks s1) c = p c).
  { intros c. unfold pri. simpl. destruct (decide (c = n)) as [->|]; [by rewrite lookup_insert_eq, Hb|by rewrite lookup_insert_ne]. }
  assert (Hmap : ∀ c, is_Some (nb_blocks s1 !! c) ↔ is_Some (nb_blocks s !! c)).
  { intros c. simpl. destruct (decide (c = n)) as [->|]; [|by rewrite lookup_insert_ne]. rewrite lookup_insert_eq. by split. }
  assert (Hl1 : lseg (nb_blocks s1) (nb_head s1) (A ++ B)).
  { eapply lseg_ext; [|exact Hl]. intros c Hin. simpl. rewrite lookup_insert_ne; [done|]. by intros ->. }
  apply wp_bind. eapply wp_mono; [apply (set_link_run s1 A B (n :: B)); [done..| |]|].
  - intros c Hin Hin'. apply elem_of_cons in Hin' as [->|Hin']; [set_solver|by eapply Hdis].
  - split; [done|]. exists (NotifierBlock (head B) (nb_priority b)). split; [by apply lookup_insert_eq|]. simpl.
    by apply (lseg_tail _ (nb_head s1) A).
  - intros [] s2 (Hl2 & Et & Ep2 & Em2 & _). apply wp_ret. rewrite place_split by done. split_and!; [done| |].
    + split; [done|..].
      * rewrite <- Permutation_middle. constructor; [done|by apply NoDup_app].
      * apply sorted_ext with (λ a b, p b ≤ p a); [intros x y; by rewrite !Ep2, !Hpri|].
        apply sorted_around; [done|done|]. eapply Forall_impl; [exact HB|]. simpl. lia.
    + split; [done|intros c; by rewrite Ep2|intros c; by rewrite Em2].
Qed.

Lemma register_loop_run u B : ∀ A fuel, l = A ++ B → n ∉ A → Forall (λ c, p n ≤ p c) A →
  (u = true → Forall (λ c, p c ≠ p n) A) → (length B < fuel)%nat →
  wp (register_loop fuel (end_of A) n u) s (λ r s',
    match clash (nb_blocks s) l n u with
    | Some c => s' = s ∧ r = if decide (c = n) then - EEXIST else - EBUSY
    | None => r = 0 ∧ is_chain s' (place (nb_blocks s) n l) ∧ same_blocks s s'
    end).
Proof.
  induction B as [|c B IH]; intros A fuel El HnA HA Hu Hf; (destruct fuel as [|fuel]; [simpl in Hf; lia|]); cbn [register_loop];
    pose proof (ic_seg _ _ Hc) as Hl; rewrite El in Hl; apply wp_bind; unfold wp at 1; rewrite (get_link_run s A _ Hl).
  - assert (Enone : clash (nb_blocks s) l n u = None).
    { unfold clash. rewrite El, app_nil_r. destruct u; [by rewrite filter_none by auto|by rewrite decide_False]. }
    rewrite Enone. apply (chain_insert_run A []); try done. by rewrite El, app_nil_r.
  - simpl. assert (Hmc : is_Some (nb_blocks s !! c)) by (eapply lseg_mapped; [exact Hl|set_solver]).
    case_bool_decide as Ecn.
    { apply wp_ret. subst c. assert (E : clash (nb_blocks s) l n u = Some n); [|rewrite E; by rewrite decide_True].
      unfold clash. rewrite El. destruct u; [|rewrite decide_True; [done|set_solver]].
      rewrite filter_app, (filter_none _ A), filter_cons_True by auto. done. }
    destruct (get_nb_run n Hn) as (b & _ & Eb & Hgb), (get_nb_run c Hmc) as (cb & _ & Ecb & Hgc).
    apply wp_bind. unfold wp at 1. rewrite Hgb. apply wp_bind. unfold wp at 1. rewrite Hgc, Eb, Ecb.
    pose proof (ic_sorted _ _ Hc) as Hs. rewrite El in Hs. apply StronglySorted_app in Hs as (_ & _ & HsB).
    apply StronglySorted_inv in HsB as [_ HsB]. destruct (Z.ltb_spec (p c) (p n)) as [Hlt|Hge].
    + assert (HB : Forall (λ x, ¬ p n ≤ p x) (c :: B)).
      { constructor; [lia|]. eapply Forall_impl; [exact HsB|]. simpl. lia. }
      assert (HnB : n ∉ c :: B) by (rewrite Forall_forall in HB; intros Hin; by apply (HB n Hin)).
      assert (Enone : clash (nb_blocks s) l n u = None).
      { unfold clash. rewrite El. destruct u; [|rewrite decide_False; [done|set_solver]].
        rewrite filter_app, (filter_none _ A), (filter_none _ (c :: B)); [done| |by auto].
        eapply Forall_impl; [exact HB|]. simpl. lia. }
      rewrite Enone. apply (chain_insert_run A (c :: B)); try done. rewrite El. set_solver.
    + destruct (Z.eqb_spec (p n) (p c)) as [Eq|Hne]; [destruct u|]; cbn [andb].
      * apply wp_ret. assert (E : clash (nb_blocks s) l n true = Some c); [|rewrite E; by rewrite decide_False].
        unfold clash. rewrite El, filter_app, (filter_none _ A), filter_cons_True by auto. done.
      * replace (AfterNb c) with (end_of (A ++ [c])) by (unfold end_of; by rewrite last_snoc).
        apply IH; [by rewrite <- app_assoc|set_solver|apply Forall_app; split; [done|constructor; [lia|constructor]]|done|simpl in Hf; lia].
      * replace (AfterNb c) with (end_of (A ++ [c])) by (unfold end_of; by rewrite last_snoc).
        apply IH; [by rewrite <- app_assoc|set_solver|apply Forall_app; split; [done|constructor; [lia|constructor]]| |simpl in Hf; lia].
        intros ->. apply Forall_app. split; [by apply Hu|]. constructor; [lia|constructor].
Qed.

Lemma unregister_loop_run B : ∀ A fuel, l = A ++ B → n ∉ A → (length B < fuel)%nat →
  wp (unregister_loop fuel (end_of A) n) s (λ r s',
    if decide (n ∈ l) then r = 0 ∧ is_chain s' (filter (λ c, c ≠ n) l) ∧ same_blocks s s'
    else r = - ENOENT ∧ s' = s).
Proof.
  induction B as [|c B IH]; intros A fuel El HnA Hf; (destruct fuel as [|fuel]; [simpl in Hf; lia|]); cbn [unregister_loop];
    pose proof Hc as [Hl Hnd Hs]; rewrite El in Hl, Hnd, Hs; apply wp_bind; unfold wp at 1; rewrite (get_link_run s A _ Hl).
  - apply wp_ret. by rewrite decide_False by (by rewrite El, app_nil_r).
  - simpl. case_bool_decide as Ecn.
    + subst c. destruct (lseg_next _ _ _ _ _ Hl) as (b & Hb & Eb).
      destruct (get_nb_run n Hn) as (b' & Hb' & _ & Hg). rewrite Hb in Hb'. injection Hb' as <-.
      apply wp_bind. unfold wp at 1. rewrite Hg, Eb. apply NoDup_app in Hnd as (HndA & Hdis & HndB). apply NoDup_cons in HndB as [HnB HndB].
      apply wp_bind. eapply wp_mono; [apply (set_link_run s A (n :: B) B); try done|].
      * intros x Hx HxB. apply (Hdis x Hx). by right.
      * apply (lseg_tail _ (nb_head s) (A ++ [n])). by rewrite <- app_assoc.
      * intros [] s' (Hl' & Et & Ep & Em & _). apply wp_ret. rewrite decide_True by (rewrite El; set_solver). rewrite El, filter_app, filter_cons_False by naive_solver.
        rewrite !filter_all by (apply Forall_forall; intros x Hx ->; done). split_and!; [done| |by split].
        apply StronglySorted_app in Hs as (Hx & HsA & HsB). apply StronglySorted_inv in HsB as [HsB _].
        split; [done|apply NoDup_app; split_and!; [done|set_solver|done]|].
        apply sorted_ext with (λ a b, p b ≤ p a); [intros x y; by rewrite !Ep|]. apply StronglySorted_app. split_and!; [set_solver|done..].
    + replace (AfterNb c) with (end_of (A ++ [c])) by (unfold end_of; by rewrite last_snoc).
      apply IH; [by rewrite <- app_assoc|set_solver|simpl in Hf; lia].
Qed.

End Chain.

(** ** Calls *)

Definition told (val : Z) (A : list N) : list (N * Z) := (λ n, (n, val)) <$> A.

Section Told.
Context (call : list (N * Z) → N → Z → Z).

Definition stops (t : list (N * Z)) (n : N) (val : Z) : Prop := Z.land (call t n val) NOTIFY_STOP_MASK ≠ 0.

(** After the calls [t], the blocks of [A] can be told [val] one after the other. *)
Definition quiet (val : Z) (t : list (N * Z)) (A : list N) : Prop :=
  ∀ A1 n A2, A = A1 ++ n :: A2 → ¬ stops (t ++ told val A1) n val.

(** Of the blocks [l], those of [A] are told [val]: all of them, or up to the first
    that stops. *)
Definition heard (val : Z) (t : list (N * Z)) (l A : list N) : Prop :=
  ∃ B, l = A ++ B ∧ (quiet val t A ∧ B = [] ∨
    ∃ A0 f, A = A0 ++ [f] ∧ quiet val t A0 ∧ stops (t ++ told val A0) f val).

(** The answer to the last call, or [ret] without one. *)
Definition answer (val : Z) (t : list (N * Z)) (ret : Z) (A : list N) : Z :=
  match last A with None => ret | Some n => call (t ++ told val (removelast A)) n val end.

Lemma quiet_cons val t n A : quiet val t (n :: A) ↔ ¬ stops t n val ∧ quiet val (t ++ [(n, val)]) A.
Proof.
  split.
  - intros Hq. split.
    + pose proof (Hq [] n A eq_refl) as H. by rewrite app_nil_r in H.
    + intros A1 x A2 ->. specialize (Hq (n :: A1) x A2 eq_refl). by rewrite <- app_assoc.
  - intros [Hn Hq] A1 x A2 E. destruct A1 as [|y A1]; injection E as -> E; [by rewrite app_nil_r|].
    specialize (Hq A1 x A2 E). by rewrite <- app_assoc in Hq.
Qed.

Lemma heard_cons val t n l A : ¬ stops t n val → heard val (t ++ [(n, val)]) l A → heard val t (n :: l) (n :: A).
Proof.
  intros Hn (B & -> & Hcase). exists B. split; [done|]. destruct Hcase as [[Hq ->]|(A0 & f & -> & Hq & Hs)].
  - left. split; [by apply quiet_cons|done].
  - right. exists (n :: A0), f. split_and!; [done|by apply quiet_cons|]. simpl. by rewrite <- app_assoc in Hs.
Qed.

Lemma answer_cons val t ret n A : answer val (t ++ [(n, val)]) (call t n val) A = answer val t ret (n :: A).
Proof.
  unfold answer. destruct A as [|x A]; [simpl; by rewrite app_nil_r|]. rewrite last_cons_cons.
  destruct (last (x :: A)) eqn:E; [|by apply last_None in E]. change (removelast (n :: x :: A)) with (n :: removelast (x :: A)).
  simpl. by rewrite <- app_assoc.
Qed.

Definition limited (nr : Z) (l : list N) : list N := if nr <? 0 then l else take (Z.to_nat nr) l.

Lemma limited_cons nr n l : nr ≠ 0 → limited nr (n :: l) = n :: limited (nr - 1) l.
Proof.
  intros Hnr. unfold limited. destruct (Z.ltb_spec nr 0).
  - by rewrite (proj2 (Z.ltb_lt (nr - 1) 0)) by lia.
  - rewrite (proj2 (Z.ltb_ge (nr - 1) 0)) by lia. replace (Z.to_nat nr) with (S (Z.to_nat (nr - 1))) by lia. done.
Qed.

Lemma call_loop_run val l : ∀ fuel s ret o nr k, lseg (nb_blocks s) o l → (length l < fuel)%nat →
  wp (call_loop call fuel ret o val nr k) s (λ r s', ∃ A, heard val (trace s) (limited nr l) A ∧
    r = (answer val (trace s) ret A, k + Z.of_nat (length A)) ∧ s' = set_trace (trace s ++ told val A) s).
Proof.
  assert (Hnil : ∀ s ret k, ∃ A, heard val (trace s) [] A ∧ (ret, k) = (answer val (trace s) ret A, k + Z.of_nat (length A)) ∧
    s = set_trace (trace s ++ told val A) s).
  { intros s ret k. exists []. split_and!.
    - exists []. split; [done|]. left. split; [|done]. intros A1 n A2 E. by destruct A1.
    - simpl. by rewrite Z.add_0_r.
    - rewrite app_nil_r. by destruct s. }
  induction l as [|n l IH]; intros fuel s ret o nr k Hl Hf; (destruct fuel as [|fuel]; [simpl in Hf; lia|]); cbn [call_loop].
  { simpl in Hl. subst o. apply wp_ret. unfold limited. replace (if nr <? 0 then [] else take (Z.to_nat nr) []) with (@nil N); [apply Hnil|].
    destruct (nr <? 0); [done|by rewrite take_nil]. }
  destruct Hl as (-> & b & Hb & Hl). destruct (Z.eqb_spec nr 0) as [->|Hnr]; [apply wp_ret, Hnil|].
  apply wp_bind. unfold get_nb. apply wp_bind, wp_gets. eapply wp_lift; [done|].
  unfold notifier_call. apply wp_bind, wp_bind, wp_gets, wp_bind, wp_modify, wp_ret. rewrite limited_cons by done.
  destruct (Z.eqb_spec (Z.land (call (trace s) n val) NOTIFY_STOP_MASK) 0) as [Hq|Hs]; cbn [negb].
  - eapply wp_mono; [apply IH; [exact Hl|simpl in Hf; lia]|]. intros r s' (A & HA & -> & ->). simpl in HA |- *.
    assert (Hns : ¬ stops (trace s) n val) by (intros Hs; by apply Hs).
    exists (n :: A). split_and!; [by apply heard_cons|by rewrite (answer_cons _ _ ret); simpl; f_equal; lia|]. by rewrite <- app_assoc.
  - apply wp_ret. exists [n]. split_and!; [|simpl; unfold answer; simpl; by rewrite app_nil_r|done].
    exists (limited (nr - 1) l). split; [done|]. right. exists [], n. split_and!; [done| |by rewrite app_nil_r].
    intros A1 x A2 E. by destruct A1.
Qed.

End Told.

(** ** Histories of registrations *)

Inductive nop := Register (n : N) (unique_priority : bool) | Unregister (n : N).

Definition block_of (o : nop) : N := match o with Register n _ | Unregister n => n end.

Definition nexec (fuel : nat) (o : nop) : M nchain Z :=
  match o with
  | Register n u => notifier_chain_register fuel n u
  | Unregister n => notifier_chain_unregister fuel n
  end.

Fixpoint nexec_all (fuel : nat) (ops : list nop) : M nchain (list Z) :=
  match ops with
  | [] => mret []
  | o :: ops => r ← nexec fuel o; rs ← nexec_all fuel ops; mret (r :: rs)
  end.

(** The same on sequences of blocks. *)
Definition nspec (m : gmap N notifier_block) (o : nop) (l : list N) : Z * list N :=
  match o with
  | Register n u =>
      match clash m l n u with
      | Some c => (if decide (c = n) then - EEXIST else - EBUSY, l)
      | None => (0, place m n l)
      end
  | Unregister n => if decide (n ∈ l) then (0, filter (λ c, c ≠ n) l) else (- ENOENT, l)
  end.

Fixpoint nspec_all (m : gmap N notifier_block) (ops : list nop) (l : list N) : list Z * list N :=
  match ops with
  | [] => ([], l)
  | o :: ops =>
      let '(r, l1) := nspec m o l in
      let '(rs, l2) := nspec_all m ops l1 in (r :: rs, l2)
  end.

Lemma nspec_ext m m' o l : (∀ c, pri m' c = pri m c) → nspec m' o l = nspec m o l.
Proof.
  intros E. destruct o as [n u|n]; [|done]. cbn [nspec].
  assert (Ec : clash m' l n u = clash m l n u).
  { unfold clash. destruct u; [|done]. f_equal. apply list_filter_iff. intros c. by rewrite !E. }
  assert (Ep : place m' n l = place m n l).
  { unfold place. f_equal; [|f_equal]; apply list_filter_iff; intros c; by rewrite !E. }
  by rewrite Ec, Ep.
Qed.

Lemma nspec_all_ext m m' ops l : (∀ c, pri m' c = pri m c) → nspec_all m' ops l = nspec_all m ops l.
Proof.
  intros E. revert l. induction ops as [|o ops IH]; intros l; [done|]. cbn [nspec_all]. rewrite (nspec_ext m m') by done.
  destruct (nspec m o l) as [r l1]. by rewrite IH.
Qed.

Lemma nspec_length m o l : (length (nspec m o l).2 ≤ S (length l))%nat.
Proof.
  destruct o as [n u|n]; cbn [nspec].
  - destruct (clash m l n u); simpl; [lia|]. unfold place. rewrite <- Permutation_middle. simpl.
    rewrite filter_app_complement. lia.
  - case_decide; simpl; [|lia]. pose proof (length_filter (λ c, c ≠ n) l). lia.
Qed.

Lemma nexec_run fuel o s l : is_chain s l → is_Some (nb_blocks s !! block_of o) → (length l < fuel)%nat →
  wp (nexec fuel o) s (λ r s', is_chain s' (nspec (nb_blocks s) o l).2 ∧ r = (nspec (nb_blocks s) o l).1 ∧ same_blocks s s').
Proof.
  intros Hc Hn Hf. assert (Hrefl : same_blocks s s) by done. destruct o as [n u|n]; cbn [nspec nexec block_of] in *.
  - eapply wp_mono; [apply (register_loop_run s l n Hc Hn u l []); [done|set_solver|constructor|constructor|done]|].
    intros r s'. destruct (clash _ _ _ _); simpl; [by intros [-> ->]|by intros (-> & ? & ?)].
  - eapply wp_mono; [apply (unregister_loop_run s l n Hc Hn l []); [done|set_solver|done]|].
    intros r s'. case_decide; simpl; [by intros (-> & ? & ?)|by intros [-> ->]].
Qed.

(** C17: any sequence of registrations, with or without unique priorities, and
    removals on a notifier chain, with fuel for the longest chain that can arise,
    does not fault and acts as on a sequence of blocks: a new block goes behind
    those of its priority and above, a block that is there already or, if so asked,
    a second one of the same priority is refused with its code, and removing takes
    out exactly one block; no other block is touched. *)
Theorem notifier_chain_refines s l ops fuel : is_chain s l → (∀ o, o ∈ ops → is_Some (nb_blocks s !! block_of o)) →
  (length l + length ops < fuel)%nat →
  ∃ s', nexec_all fuel ops s = Some ((nspec_all (nb_blocks s) ops l).1, s') ∧
    is_chain s' (nspec_all (nb_blocks s) ops l).2 ∧ same_blocks s s'.
Proof.
  revert s l. induction ops as [|o ops IH]; intros s l Hc Hm Hf; [by exists s|]. cbn [nexec_all nspec_all].
  assert (Hwp : wp (nexec fuel o) s (λ r s', is_chain s' (nspec (nb_blocks s) o l).2 ∧ r = (nspec (nb_blocks s) o l).1 ∧ same_blocks s s')).
  { apply nexec_run; [done|apply Hm; left|simpl in Hf; lia]. }
  apply wp_run in Hwp as (r & s1 & Hr & Hc1 & -> & Hsb). pose proof (nspec_length (nb_blocks s) o l) as Hlen.
  destruct (nspec (nb_blocks s) o l) as [r l1]. simpl in *.
  destruct (IH s1 l1) as (s2 & Hr2 & Hc2 & Hsb2); [done| |lia|].
  - intros o' Ho'. apply (sb_mapped _ _ Hsb), Hm. by right.
  - rewrite (nspec_all_ext (nb_blocks s) (nb_blocks s1)) in Hr2, Hc2 by apply Hsb. exists s2.
    rewrite (bind_run _ _ _ _ _ Hr), (bind_run _ _ _ _ _ Hr2). destruct (nspec_all (nb_blocks s) ops l1) as [rs l2].
    split_and!; [done|done|by eapply same_blocks_trans].
Qed.

(** C31: [notifier_call_chain_robust] tells the blocks of the chain [val_up], in order,
    up to the first that answers with the stop bit, and returns the last answer.
    When one stopped it, the blocks called before that one are told [val_down], in
    the same order, up to the first of them that answers that with the stop bit; no
    other block is told; the chain does not change. *)
Theorem notifier_robust_correct call s l fuel val_up val_down : is_chain s l → (length l < fuel)%nat →
  ∃ r s' A, notifier_call_chain_robust call fuel val_up val_down s = Some (r, s') ∧
    heard call val_up (trace s) l A ∧ r = answer call val_up (trace s) NOTIFY_DONE A ∧
    ((quiet call val_up (trace s) l ∧ A = l ∧ s' = set_trace (trace s ++ told val_up l) s) ∨
     ∃ A0 f D, A = A0 ++ [f] ∧ stops call (trace s ++ told val_up A0) f val_up ∧
       heard call val_down (trace s ++ told val_up A) A0 D ∧
       s' = set_trace ((trace s ++ told val_up A) ++ told val_down D) s).
Proof.
  intros Hc Hf. pose proof (ic_seg _ _ Hc) as Hl.
  assert (Hwp := call_loop_run call val_up l fuel s NOTIFY_DONE (nb_head s) (-1) 0 Hl Hf).
  apply wp_run in Hwp as (r & s1 & Hr & A & HA & -> & ->). change (limited (-1) l) with l in HA.
  unfold notifier_call_chain_robust. erewrite bind_run; [|unfold notifier_call_chain; erewrite bind_run; [exact Hr|done]].
  destruct HA as (B & El & Hcase). destruct Hcase as [[Hq ->]|(A0 & f & EA & Hq & Hs)].
  - rewrite app_nil_r in El. subst A. assert (Hns : Z.land (answer call val_up (trace s) NOTIFY_DONE l) NOTIFY_STOP_MASK = 0).
    { unfold answer. destruct (last l) as [n|] eqn:E; [|done]. apply last_Some in E as [l' ->]. rewrite removelast_last.
      apply dec_stable, (Hq l' n []). done. }
    rewrite Hns. simpl. eexists _, _, l. split_and!; [done| |done|left; by split_and!]. exists []. rewrite app_nil_r. by eauto.
  - assert (Ea : answer call val_up (trace s) NOTIFY_DONE A = call (trace s ++ told val_up A0) f val_up).
    { unfold answer. by rewrite EA, last_snoc, removelast_last. }
    rewrite Ea, (proj2 (Z.eqb_neq _ _) Hs). cbn [negb whenM].
    assert (Hwp := call_loop_run call val_down l fuel (set_trace (trace s ++ told val_up A) s) NOTIFY_DONE (nb_head s)
      (0 + Z.of_nat (length A) - 1) 0 Hl Hf).
    apply wp_run in Hwp as (r2 & s2 & Hr2 & D & HD & -> & ->).
    assert (El0 : limited (0 + Z.of_nat (length A) - 1) l = A0).
    { unfold limited. rewrite EA, length_app. simpl. rewrite (proj2 (Z.ltb_ge _ 0)) by lia.
      replace (Z.to_nat (0 + Z.of_nat (length A0 + 1) - 1)) with (length A0) by lia. by rewrite El, EA, <- app_assoc, take_app_length. }
    rewrite El0 in HD. simpl in *.
    erewrite bind_run; [|erewrite bind_run; [|unfold notifier_call_chain; erewrite bind_run; [exact Hr2|done]]; done].
    eexists _, _, A. split_and!; [done| |done|right; exists A0, f, D; by split_and!]. exists B. split; [done|]. right. by exists A0, f.
Qed.

(** An error code that fits below the stop bit survives the encoding in an answer,
    and the encoded answer stops the chain; success does not. *)
Theorem notifier_errno_roundtrip err : -32766 ≤ err ≤ 0 →
  notifier_to_errno (notifier_from_errno err) = err ∧
  (Z.land (notifier_from_errno err) NOTIFY_STOP_MASK ≠ 0 ↔ err ≠ 0).
Proof.
  intros He. unfold notifier_from_errno. destruct (Z.eqb_spec err 0) as [->|Hne]; simpl; [by vm_compute|].
  set (x := NOTIFY_OK - err). assert (Hx : 1 < x < 2 ^ 15) by (unfold x, NOTIFY_OK; lia).
  assert (Hdisj : Z.land x NOTIFY_STOP_MASK = 0).
  { change NOTIFY_STOP_MASK with (2 ^ 15). apply Z.bits_inj'. intros k Hk. rewrite Z.land_spec, Z.bits_0, Z.pow2_bits_eqb by lia.
    destruct (Z.eqb_spec 15 k) as [<-|]; [|apply andb_false_r]. 
    assert (Hb : Z.testbit x 15 = false) by (apply Z.testbit_false; [lia|]; by rewrite Z.div_small by lia). by rewrite Hb. }
  split.
  - unfold notifier_to_errno. rewrite Z.land_lor_distr_l, Z.land_lnot_diag, Z.lor_0_l.
    rewrite <- Z.ldiff_land. assert (E : Z.ldiff x NOTIFY_STOP_MASK = x).
    { apply Z.bits_inj'. intros k Hk. rewrite Z.ldiff_spec. assert (Hb := f_equal (λ z, Z.testbit z k) Hdisj). simpl in Hb.
      rewrite Z.land_spec, Z.bits_0 in Hb. by destruct (Z.testbit x k), (Z.testbit NOTIFY_STOP_MASK k). }
    rewrite E, (proj2 (Z.ltb_lt NOTIFY_OK x)) by (unfold NOTIFY_OK; lia). unfold x. lia.
  - split; [done|]. intros _. rewrite Z.land_lor_distr_l, Z.land_diag, Hdisj. done.
Qed.

Lemma notifier_errno_roundtrip_witness : notifier_to_errno (notifier_from_errno (-22)) = -22.
Proof. apply (notifier_errno_roundtrip (-22)). lia. Defined.

(** ** A chain of two blocks, and two that are not on it *)

Definition demo_chain : nchain :=
  NChain (Some 10%N) (<[10%N := NotifierBlock (Some 20%N) 5]> (<[20%N := NotifierBlock None 1]>
    (<[30%N := NotifierBlock None 5]> {[40%N := NotifierBlock None 3]}))) [].

Lemma demo_chain_ok : is_chain demo_chain [10%N; 20%N].
Proof.
  split.
  - split; [reflexivity|]. eexists. split; [reflexivity|]. split; [reflexivity|]. eexists. split; reflexivity.
  - apply (bool_decide_unpack _). vm_compute. exact I.
  - repeat constructor. vm_compute. discriminate.
Qed.

Lemma notifier_chain_refines_witness :
  ∃ s', nexec_all 7 [Register 30 false; Register 40 true; Register 30 true; Unregister 10] demo_chain = Some ([0; 0; - EBUSY; 0], s') ∧
    is_chain s' [30%N; 40%N; 20%N].
Proof.
  destruct (notifier_chain_refines demo_chain [10%N; 20%N] [Register 30 false; Register 40 true; Register 30 true; Unregister 10] 7)
    as (s' & Hr & Hc & _).
  - exact demo_chain_ok.
  - intros o Ho. apply (bool_decide_unpack _). rewrite !elem_of_cons, elem_of_nil in Ho.
    destruct Ho as [->|[->|[->|[->|[]]]]]; vm_compute; exact I.
  - simpl. lia.
  - exists s'. split; [exact Hr|exact Hc].
Defined.

Lemma notifier_robust_correct_witness :
  ∃ r s' A, notifier_call_chain_robust (λ _ n val, if (n =? 20)%N && (val =? 1) then NOTIFY_STOP_MASK + 2 else NOTIFY_OK) 3 1 2 demo_chain
    = Some (r, s') ∧ heard (λ _ n val, if (n =? 20)%N && (val =? 1) then NOTIFY_STOP_MASK + 2 else NOTIFY_OK) 1 [] [10%N; 20%N] A.
Proof.
  destruct (notifier_robust_correct (λ _ n val, if (n =? 20)%N && (val =? 1) then NOTIFY_STOP_MASK + 2 else NOTIFY_OK)
    demo_chain [10%N; 20%N] 3 1 2) as (r & s' & A & Hr & HA & _).
  - exact demo_chain_ok.
  - simpl. lia.
  - exists r, s', A. split; [exact Hr|exact HA].
Defined.
