(* ===== verification/Tid.v ===== *)
(** * Thread identifiers

    [kernel/process/tid.c]: every task has an identifier; those of the first threads
    of processes are process identifiers, below [CONFIG_PROCESS_MAX], the others are
    given out upwards from there and used again after they are freed.  The tree
    [task_rb_root] finds a task by its identifier.  [malloc] is an argument: the
    address it returns, or [None].

    The tree, the list of free identifiers and the counter implement a table of
    tasks. *)

From S2P Require Import Prelude RBTree RBHeap RBPure RBProps KTimerQ IdTree PidProps.
From stdpp Require Import sorting.
Local Open Scope Z_scope.

Section Tid.
Context (PROCESS_MAX : Z).

(** The identifiers of [g_free_tid_list_head], [last_tid], [task_rb_root] and the field
    [tid] of the tasks. *)
Record tid_state := TidState {
  g_free_tid : list Z;
  last_tid : Z;
  task_rb_root : id_tree;
  tcb_tid : gmap N Z;
}.

Definition set_free_tid v s := TidState v (last_tid s) (task_rb_root s) (tcb_tid s).
Definition set_last_tid v s := TidState (g_free_tid s) v (task_rb_root s) (tcb_tid s).
Definition set_task_rb v s := TidState (g_free_tid s) (last_tid s) v (tcb_tid s).
Definition set_tcb_tid v s := TidState (g_free_tid s) (last_tid s) (task_rb_root s) v.

Definition on_tasks {A} (m : M id_tree A) : M tid_state A :=
  λ s, match m (task_rb_root s) with Some (a, t) => Some (a, set_task_rb t s) | None => None end.

(** [last_tid++] on an [int]. *)
Definition tid_alloc : M tid_state Z :=
  free ← gets g_free_tid;
  match free with
  | [] =>
      last ← gets last_tid;
      _ ← massert (last <? 2 ^ 31 - 1);
      _ ← modify (set_last_tid (last + 1));
      mret last
  | tid :: free => _ ← modify (set_free_tid free); mret tid
  end.

(** [pdata]: whether [malloc] succeeds; its result is not checked. *)
Definition tid_free (tid : Z) (pdata : bool) : M tid_state unit :=
  if tid <? PROCESS_MAX then mret tt
  else
    _ ← massert pdata;
    modify (λ s, set_free_tid (g_free_tid s ++ [tid]) s).

Definition get_max_tid : M tid_state Z := gets last_tid.

(** The tasks [func] is called with, in order. *)
Definition task_foreach : M tid_state (list N) := on_tasks id_foreach.

Definition task_rb_search (tid : Z) : M tid_state (option N) :=
  o ← on_tasks (id_search tid);
  match o with
  | None => mret None
  | Some n => t ← on_tasks (obj_of n); mret (Some t)
  end.

Definition task_rb_insert (node : N) : M tid_state Z := on_tasks (id_insert node).

Definition task_rb_earse (tid_node : N) (pdata : bool) : M tid_state unit :=
  _ ← on_tasks (id_erase tid_node);
  tid ← on_tasks (id_of tid_node);
  _ ← tid_free tid pdata;
  on_tasks (free_node tid_node).

(** The common end of the two allocations. *)
Definition tid_obj_enter (tcb : N) (tid_node : N) (tid : Z) : M tid_state Z :=
  _ ← on_tasks (new_node tid_node tid tcb);
  _ ← modify (λ s, set_tcb_tid (<[tcb := tid]> (tcb_tid s)) s);
  _ ← task_rb_insert tid_node;
  mret tid.

Definition tid_obj_alloc (tcb : N) (tid_node : option N) : M tid_state Z :=
  n ← lift tid_node;
  tid ← tid_alloc;
  tid_obj_enter tcb n tid.

Definition tid_obj_alloc_with_id (tcb : N) (tid : Z) (tid_node : option N) : M tid_state Z :=
  n ← lift tid_node;
  tid_obj_enter tcb n tid.

Definition tid_obj_free (tid : Z) (pdata : bool) : M tid_state unit :=
  o ← on_tasks (id_search tid);
  match o with
  | None => mret tt
  | Some this => task_rb_earse this pdata
  end.

(** ** The table *)

Inductive tid_op :=
| TAlloc (tcb : N) (node : option N)
| TAllocId (tcb : N) (tid : Z) (node : option N)
| TFree (tid : Z) (pdata : bool)
| TSearch (tid : Z)
| TForeach
| TMax.

Inductive tid_res := RTid (tid : Z) | RTask (o : option N) | RTasks (l : list N) | RUnit.

Definition tid_do (o : tid_op) : M tid_state tid_res :=
  match o with
  | TAlloc tcb node => t ← tid_obj_alloc tcb node; mret (RTid t)
  | TAllocId tcb tid node => t ← tid_obj_alloc_with_id tcb tid node; mret (RTid t)
  | TFree tid pdata => _ ← tid_obj_free tid pdata; mret RUnit
  | TSearch tid => o ← task_rb_search tid; mret (RTask o)
  | TForeach => l ← task_foreach; mret (RTasks l)
  | TMax => t ← get_max_tid; mret (RTid t)
  end.

(** What an operation does to a table from identifiers to tasks. *)
Inductive tid_spec (T : gmap Z N) : tid_op → tid_res → gmap Z N → Prop :=
| ts_alloc tcb node tid : T !! tid = None → PROCESS_MAX ≤ tid →
    tid_spec T (TAlloc tcb node) (RTid tid) (<[tid := tcb]> T)
| ts_alloc_id tcb tid node : T !! tid = None → tid_spec T (TAllocId tcb tid node) (RTid tid) (<[tid := tcb]> T)
| ts_alloc_dup tcb tid node : is_Some (T !! tid) → tid_spec T (TAllocId tcb tid node) (RTid tid) T
| ts_free tid pdata : tid_spec T (TFree tid pdata) RUnit (delete tid T)
| ts_search tid : tid_spec T (TSearch tid) (RTask (T !! tid)) T
| ts_foreach ids ts : StronglySorted Z.lt ids → (∀ i, i ∈ ids ↔ is_Some (T !! i)) → Forall2 (λ i t, T !! i = Some t) ids ts →
    tid_spec T TForeach (RTasks ts) T
| ts_max tid : (∀ i, is_Some (T !! i) → i < tid) → tid_spec T TMax (RTid tid) T.

(** The tree holds the table. *)
Record tree_of (t : id_tree) (T : gmap Z N) (l : list N) : Prop := {
  to_inv : IInv t l;
  to_nodes : ∀ n, n ∈ l → T !! idof t n = Some (objof t n);
  to_tasks : ∀ i, is_Some (T !! i) → ∃ n, n ∈ l ∧ idof t n = i;
}.

(** The state implements the table: the tree holds it, and the identifiers from
    [PROCESS_MAX] to the counter that are not in it are the free ones, once each. *)
Record TRel (s : tid_state) (T : gmap Z N) (l : list N) : Prop := {
  tr_tree : tree_of (task_rb_root s) T l;
  tr_last : PROCESS_MAX ≤ last_tid s;
  tr_below : ∀ i, is_Some (T !! i) → i < last_tid s;
  tr_nodup : NoDup (g_free_tid s);
  tr_free : ∀ i, i ∈ g_free_tid s ↔ PROCESS_MAX ≤ i < last_tid s ∧ T !! i = None;
}.

(** Memory returned by [malloc] is not in use, and identifiers remain. *)
Definition tid_pre (s : tid_state) (o : tid_op) : Prop :=
  match o with
  | TAlloc _ node => (∃ n, node = Some n ∧ it_id (task_rb_root s) !! n = None) ∧ (g_free_tid s = [] → last_tid s < 2 ^ 31 - 1)
  | TAllocId _ tid node => (∃ n, node = Some n ∧ it_id (task_rb_root s) !! n = None) ∧ tid < PROCESS_MAX
  | TFree _ pdata => pdata = true
  | _ => True
  end.

(** ** The operations *)

Lemma on_tasks_run {A} (m : M id_tree A) s a t : m (task_rb_root s) = Some (a, t) → on_tasks m s = Some (a, set_task_rb t s).
Proof. intros H. unfold on_tasks. by rewrite H. Qed.

Lemma on_tasks_read {A} (m : M id_tree A) s a : m (task_rb_root s) = Some (a, task_rb_root s) → on_tasks m s = Some (a, s).
Proof. intros H%on_tasks_run. rewrite H. by destruct s. Qed.

Lemma tree_ext t t' T l : tree_of t T l → rb_root (it_tree t') = rb_root (it_tree t) →
  (∀ k, k ∈ l → rb_nodes (it_tree t') !! k = rb_nodes (it_tree t) !! k ∧ it_id t' !! k = it_id t !! k ∧ it_obj t' !! k = it_obj t !! k) →
  tree_of t' T l.
Proof.
  intros [HI Hn Ht] Hr He. assert (Ei : ∀ k, k ∈ l → idof t' k = idof t k ∧ objof t' k = objof t k).
  { intros k Hk. unfold idof, objof. destruct (He k Hk) as (_ & -> & ->). done. }
  split; [by eapply inv_ext|..].
  - intros n Hin. destruct (Ei n Hin) as [-> ->]. by apply Hn.
  - intros i Hi. destruct (Ht i Hi) as (n & Hin & <-). exists n. split; [done|]. by apply Ei.
Qed.

Lemma fresh_node t l n : IInv t l → it_id t !! n = None → n ∉ l.
Proof. intros HI Hn Hin. destruct (ii_id _ _ HI n Hin). congruence. Qed.

(** The node is entered, or the identifier is there already. *)
Lemma tid_enter_run s T l tcb n tid : tree_of (task_rb_root s) T l → it_id (task_rb_root s) !! n = None →
  ∃ t l', tid_obj_enter tcb n tid s = Some (tid, set_task_rb t (set_tcb_tid (<[tcb := tid]> (tcb_tid s)) s)) ∧
    tree_of t (if decide (is_Some (T !! tid)) then T else <[tid := tcb]> T) l'.
Proof.
  intros Ht Hn. pose proof (fresh_node _ _ _ (to_inv _ _ _ Ht) Hn) as Hnl. set (t0 := task_rb_root s) in *.
  set (t1 := with_node n tid tcb t0). assert (Ht1 : tree_of t1 T l).
  { eapply tree_ext; [exact Ht|done|]. intros k Hk. simpl. by rewrite !lookup_insert_ne by set_solver. }
  assert (Hid : idof t1 n = tid) by (unfold idof; simpl; by rewrite lookup_insert_eq).
  assert (Hob : objof t1 n = tcb) by (unfold objof; simpl; by rewrite lookup_insert_eq).
  unfold tid_obj_enter. rewrite (bind_run _ _ s tt (set_task_rb t1 s) eq_refl).
  set (s2 := set_tcb_tid (<[tcb := tid]> (tcb_tid s)) (set_task_rb t1 s)). rewrite (bind_run _ _ (set_task_rb t1 s) tt s2 eq_refl).
  destruct (id_insert_run t1 l n (to_inv _ _ _ Ht1)) as [[(m & Hm & Hmi) Hr]|(Hnew & t & l' & Hr & HI' & Hl' & _)];
    [simpl; rewrite lookup_insert_eq; by eexists..|done| |]; unfold task_rb_insert;
    rewrite (bind_run _ _ _ _ _ (on_tasks_run (id_insert n) s2 _ _ Hr)).
  - exists t1, l. split; [done|]. rewrite decide_True; [done|]. rewrite <- Hid, <- Hmi. rewrite (to_nodes _ _ _ Ht1 m Hm). done.
  - exists (IdTree t (it_id t1) (it_obj t1)), l'. split; [done|]. rewrite decide_False.
    2: { intros Hi. destruct (to_tasks _ _ _ Ht1 tid Hi) as (m & Hm & Em). apply (Hnew m Hm). by rewrite Em, Hid. }
    split; [done|..].
    + intros k Hk. rewrite Hl', elem_of_cons in Hk. change (idof (IdTree t (it_id t1) (it_obj t1)) k) with (idof t1 k).
      change (objof (IdTree t (it_id t1) (it_obj t1)) k) with (objof t1 k). destruct (decide (k = n)) as [->|Hne].
      * by rewrite Hid, Hob, lookup_insert_eq.
      * destruct Hk as [->|Hk]; [done|]. rewrite lookup_insert_ne; [by apply (to_nodes _ _ _ Ht1)|].
        intros E. apply (Hnew k Hk). by rewrite Hid.
    + intros i Hi. destruct (decide (i = tid)) as [->|Hne]; [exists n; split; [rewrite Hl'; left|exact Hid]|].
      rewrite lookup_insert_ne in Hi by done. destruct (to_tasks _ _ _ Ht1 i Hi) as (m & Hm & Em). exists m.
      split; [rewrite Hl'; by right|exact Em].
Qed.

Definition tid_does (s : tid_state) (T : gmap Z N) (o : tid_op) : Prop :=
  ∃ r s' T' l', tid_do o s = Some (r, s') ∧ tid_spec T o r T' ∧ TRel s' T' l'.

Lemma alloc_id_does s T l tcb tid node : TRel s T l → tid_pre s (TAllocId tcb tid node) → tid_does s T (TAllocId tcb tid node).
Proof.
  intros [Ht Hl Hb Hnd Hf] [(n & -> & Hn) Hlt]. destruct (tid_enter_run s T l tcb n tid Ht Hn) as (t & l' & Hr & Ht').
  unfold tid_does. cbn [tid_do]. unfold tid_obj_alloc_with_id, lift.
  rewrite (bind_run _ _ s tid (set_task_rb t (set_tcb_tid (<[tcb := tid]> (tcb_tid s)) s))) by exact Hr.
  destruct (decide (is_Some (T !! tid))) as [Hi|Hi]; eexists _, _, _, l'; (split; [done|]).
  - split; [by apply ts_alloc_dup|]. by split.
  - assert (Hno : T !! tid = None) by (by apply eq_None_not_Some). split; [by apply ts_alloc_id|].
    split; simpl; [done|done| |done|].
    + intros i. destruct (decide (i = tid)) as [->|Hne]; [lia|]. rewrite lookup_insert_ne by done. apply Hb.
    + intros i. rewrite Hf. destruct (decide (i = tid)) as [->|Hne]; [lia|]. by rewrite lookup_insert_ne.
Qed.

Lemma alloc_tid_does s T l tcb node : TRel s T l → tid_pre s (TAlloc tcb node) → tid_does s T (TAlloc tcb node).
Proof.
  intros [Ht Hl Hb Hnd Hf] [(n & -> & Hn) Hlt]. unfold tid_does. cbn [tid_do]. unfold tid_obj_alloc.
  assert (Ha : ∃ tid s1, tid_alloc s = Some (tid, s1) ∧ task_rb_root s1 = task_rb_root s ∧ T !! tid = None ∧ PROCESS_MAX ≤ tid < last_tid s1 ∧
    last_tid s ≤ last_tid s1 ∧ NoDup (g_free_tid s1) ∧ ∀ i, i ∈ g_free_tid s1 ↔ PROCESS_MAX ≤ i < last_tid s1 ∧ T !! i = None ∧ i ≠ tid).
  { unfold tid_alloc. simpl. unfold gets, mbind, M_bind. destruct (g_free_tid s) as [|x free] eqn:E.
    - unfold massert. rewrite (proj2 (Z.ltb_lt _ _)) by auto. assert (Hno : T !! last_tid s = None).
      { apply eq_None_not_Some. intros Hi. specialize (Hb _ Hi). lia. }
      eexists _, _. split; [done|]. simpl. rewrite E. split_and!; [done..|lia|lia|lia|constructor|].
      intros i. rewrite Hf. split; [intros [? ?]; split_and!; try done; lia|]. intros (? & ? & ?). split; [lia|done].
    - assert (Hx : PROCESS_MAX ≤ x < last_tid s ∧ T !! x = None) by (apply Hf; left). apply NoDup_cons in Hnd as [Hxf Hnd].
      destruct Hx as [Hxr Hxn]. eexists _, _. split; [done|]. simpl. split_and!; try done; try lia. intros i.
      specialize (Hf i). rewrite elem_of_cons in Hf. destruct (decide (i = x)) as [->|Hne]; [naive_solver|]. naive_solver. }
  destruct Ha as (tid & s1 & Ha & Er & Hno & Hr1 & Hl1 & Hnd1 & Hf1). rewrite <- Er in Ht, Hn.
  destruct (tid_enter_run s1 T l tcb n tid Ht Hn) as (t & l' & Hr & Ht'). rewrite decide_False in Ht' by (by apply eq_None_not_Some).
  rewrite (bind_run _ _ s tid (set_task_rb t (set_tcb_tid (<[tcb := tid]> (tcb_tid s1)) s1))).
  2: { rewrite (bind_run (lift (Some n)) _ s n s eq_refl), (bind_run _ _ _ _ _ Ha). exact Hr. }
  eexists _, _, _, l'. split; [done|]. split; [apply ts_alloc; [done|lia]|]. split; simpl; [done|lia| |done|].
  - intros i. destruct (decide (i = tid)) as [->|Hne]; [lia|]. rewrite lookup_insert_ne by done. intros Hi%Hb. lia.
  - intros i. rewrite Hf1. destruct (decide (i = tid)) as [->|Hne]; [rewrite lookup_insert_eq; naive_solver|].
    rewrite lookup_insert_ne by done. naive_solver.
Qed.

(** A search finds the node of the task the table has. *)
Lemma search_table t T l tid r : tree_of t T l → found t l tid r → T !! tid = objof t <$> r.
Proof.
  intros Ht Hf. destruct r as [n|]; simpl in *.
  - destruct Hf as [Hn <-]. by apply (to_nodes _ _ _ Ht).
  - apply eq_None_not_Some. intros Hi. destruct (to_tasks _ _ _ Ht tid Hi) as (n & Hn & E). by apply (Hf n).
Qed.

Lemma search_tid_does s T l tid : TRel s T l → tid_does s T (TSearch tid).
Proof.
  intros HR. pose proof (tr_tree _ _ _ HR) as Ht. destruct (id_search_run _ _ tid (to_inv _ _ _ Ht)) as (r & Hr & Hf).
  unfold tid_does. cbn [tid_do]. unfold task_rb_search. exists (RTask (T !! tid)), s, T, l. split; [|split; [constructor|done]].
  rewrite (search_table _ _ _ _ _ Ht Hf). apply on_tasks_read in Hr. rewrite (bind_run _ _ s (objof (task_rb_root s) <$> r) s); [done|].
  rewrite (bind_run _ _ _ _ _ Hr). destruct r as [n|]; [|done]. destruct Hf as [Hn _].
  destruct (ii_obj _ _ (to_inv _ _ _ Ht) n Hn) as [o Ho]. rewrite (bind_run _ _ s o s); [unfold objof; simpl; by rewrite Ho|].
  apply on_tasks_read. unfold obj_of. by rewrite Ho.
Qed.

Lemma foreach_tid_does s T l : TRel s T l → tid_does s T TForeach.
Proof.
  intros HR. pose proof (tr_tree _ _ _ HR) as [HI Hn Ht]. unfold tid_does. cbn [tid_do].
  pose proof (on_tasks_read _ _ _ (id_foreach_run _ _ HI)) as Hr. unfold task_foreach. rewrite (bind_run _ _ _ _ _ Hr).
  eexists _, s, T, l. split; [done|]. split; [|done]. apply (ts_foreach T (idof (task_rb_root s) <$> l)).
  - pose proof (ii_sorted _ _ HI) as Hs. clear -Hs. induction Hs as [|x l Hs IH Hx]; simpl; constructor; [done|].
    apply Forall_fmap. exact Hx.
  - intros i. rewrite list_elem_of_fmap. split; [intros (n & -> & Hin); rewrite (Hn n Hin); done|].
    intros Hi. destruct (Ht i Hi) as (n & Hin & <-). by exists n.
  - clear -Hn. induction l as [|n l IH]; simpl; constructor; [apply Hn; left|apply IH; intros; apply Hn; by right].
Qed.

(** Taking a node out takes its entry out. *)
Lemma tree_delete t0 T A n B t tid : tree_of t0 T (A ++ n :: B) → idof t0 n = tid →
  IInv (IdTree t (it_id t0) (it_obj t0)) (A ++ B) →
  tree_of (without_node n (IdTree t (it_id t0) (it_obj t0))) (delete tid T) (A ++ B).
Proof.
  intros Ht Hid HI'. pose proof (to_inv _ _ _ Ht) as HI.
  pose proof (sorted_mid _ _ _ _ (ii_sorted _ _ HI)) as (HA & HB & _).
  assert (Hne : ∀ k, k ∈ A ++ B → idof t0 k ≠ tid) by (intros k [Hk|Hk]%elem_of_app; [specialize (HA k Hk)|specialize (HB k Hk)]; lia).
  assert (Hdel : tree_of (IdTree t (it_id t0) (it_obj t0)) (delete tid T) (A ++ B)).
  { split; [done|..].
    - intros k Hk. change (idof _ k) with (idof t0 k). rewrite lookup_delete_ne by (symmetry; by apply Hne).
      apply (to_nodes _ _ _ Ht). set_solver.
    - intros i Hs. destruct (decide (i = tid)) as [->|Hi']; [by rewrite lookup_delete_eq in Hs; apply is_Some_None in Hs|].
      rewrite lookup_delete_ne in Hs by done. destruct (to_tasks _ _ _ Ht i Hs) as (k & Hk & <-). exists k. split; [|done].
      rewrite elem_of_app, elem_of_cons in Hk. set_solver. }
  eapply tree_ext; [exact Hdel|done|]. intros k Hk. simpl.
  assert (k ≠ n) by (intros ->; by apply (Hne n)). by rewrite !lookup_delete_ne by done.
Qed.

Lemma free_tid_does s T l tid : TRel s T l → tid_does s T (TFree tid true).
Proof.
  intros [Ht Hl Hb Hnd Hf]. destruct (id_search_run _ _ tid (to_inv _ _ _ Ht)) as (r & Hr & Hfd).
  pose proof (search_table _ _ _ _ _ Ht Hfd) as Es. apply on_tasks_read in Hr. unfold tid_does. cbn [tid_do]. unfold tid_obj_free.
  destruct r as [n|]; simpl in Es.
  2: { exists RUnit, s, (delete tid T), l. rewrite delete_id by done. split; [|split; [|done]].
       - rewrite (bind_run _ _ s tt s); [done|]. by rewrite (bind_run _ _ _ _ _ Hr).
       - rewrite <- (delete_id T tid) at 2 by done. constructor. }
  destruct Hfd as [Hn Hid]. set (t0 := task_rb_root s) in *. pose proof (to_inv _ _ _ Ht) as HI.
  apply list_elem_of_split in Hn as (A & B & ->). destruct (id_erase_run t0 A n B HI) as (t & He & HI' & _).
  destruct (ii_id _ _ HI n ltac:(set_solver)) as [i Hi].
  assert (Ei : i = tid) by (unfold idof in Hid; rewrite Hi in Hid; done). subst i.
  set (s1 := set_task_rb (IdTree t (it_id t0) (it_obj t0)) s).
  set (s2 := set_free_tid (if tid <? PROCESS_MAX then g_free_tid s else g_free_tid s ++ [tid]) s1).
  exists RUnit, (set_task_rb (without_node n (task_rb_root s2)) s2), (delete tid T), (A ++ B). split; [|split; [constructor|]].
  - rewrite (bind_run _ _ s tt (set_task_rb (without_node n (task_rb_root s2)) s2)); [done|].
    rewrite (bind_run _ _ _ _ _ Hr). unfold task_rb_earse. rewrite (bind_run _ _ _ _ _ (on_tasks_run _ _ _ _ He)). fold s1.
    rewrite (bind_run _ _ s1 tid s1) by (apply on_tasks_read; unfold id_of; simpl; by rewrite Hi).
    rewrite (bind_run _ _ s1 tt s2) by (unfold tid_free, s2; by destruct (tid <? PROCESS_MAX)).
    apply on_tasks_run. unfold free_node. simpl. by rewrite Hi.
  - assert (Hbt : tid < last_tid s) by (apply Hb; by rewrite Es).
    split; simpl; [|done|..].
    + by apply (tree_delete t0).
    + intros i [x [_ Hx]%lookup_delete_Some]. by apply Hb.
    + destruct (tid <? PROCESS_MAX); [done|]. apply NoDup_app. split_and!; [done| |apply NoDup_singleton].
      intros x Hx ->%list_elem_of_singleton. apply Hf in Hx as [_ Hx]. congruence.
    + intros i. rewrite lookup_delete_None. destruct (Z.ltb_spec tid PROCESS_MAX).
      * rewrite Hf. destruct (decide (i = tid)) as [->|]; [lia|]. naive_solver.
      * rewrite elem_of_app, Hf, list_elem_of_singleton. destruct (decide (i = tid)) as [->|]; [|naive_solver].
        split; [intros _; split; [lia|by left]|intros _; by right].
Qed.

(** C18: the tree, the list of free identifiers and the counter implement a table from
    identifiers to tasks: a new task gets an identifier that is in no use, from
    [PROCESS_MAX] on, freed ones first; freeing takes exactly that entry out; a
    search finds exactly the task entered; the traversal meets every task once, in
    the order of the identifiers; and every identifier given out is in the table or
    free, so none is ever lost.  An identifier chosen by the caller that is already
    taken is not entered, though the task is told it. *)
Theorem tid_table_correct s T l o : TRel s T l → tid_pre s o →
  ∃ r s' T' l', tid_do o s = Some (r, s') ∧ tid_spec T o r T' ∧ TRel s' T' l'.
Proof.
  intros HR Hp. destruct o as [tcb node|tcb tid node|tid pdata|tid| |].
  - by eapply alloc_tid_does.
  - by eapply alloc_id_does.
  - simpl in Hp. subst pdata. by eapply free_tid_does.
  - by eapply search_tid_does.
  - by eapply foreach_tid_does.
  - exists (RTid (last_tid s)), s, T, l. split; [done|]. split; [|done]. constructor. apply HR.
Qed.

End Tid.

(** No task yet. *)
Definition boot_tids : tid_state := TidState [] 64 (IdTree (RbState ∅ None) ∅ ∅) ∅.

Lemma boot_tids_ok : TRel 64 boot_tids ∅ [].
Proof.
  split; simpl; try done; [|intros i [? Hi]; by rewrite lookup_empty in Hi|constructor|].
  - split; [|intros n Hn; by apply elem_of_nil in Hn|intros i [? Hi]; by rewrite lookup_empty in Hi].
    split; [|intros n Hn; by apply elem_of_nil in Hn..|constructor]. exists E.
    split; [|split; [split; [done|]; exists 0%nat; constructor|done]]. split_and!; [done|done|constructor].
  - intros i. rewrite elem_of_nil. split; [done|lia].
Qed.

Lemma tid_table_correct_witness :
  ∃ r s' T' l', tid_do 64 (TAlloc 7 (Some 100%N)) boot_tids = Some (r, s') ∧ tid_spec 64 ∅ (TAlloc 7 (Some 100%N)) r T' ∧ TRel 64 s' T' l'.
Proof.
  apply (tid_table_correct 64 boot_tids ∅ [] (TAlloc 7 (Some 100%N))).
  - exact boot_tids_ok.
  - split; [exists 100%N; split; reflexivity|]. intros _. vm_compute. reflexivity.
Defined.
