(* ===== verification/Completion.v ===== *)
(** * Completions

    [kernel/completion/*.c] and [include/completion.h]: a flag that one task waits
    for and another sets.  The wait queue of a completion is the kernel's wait
    queue of the same name; it is first-in first-out.

    [ttos_WaitCompletion] blocks when it gives the dispatch lock back, and does
    nothing after it runs again but return: the value it returns is the value the
    caller gets once it runs again. *)

From S2P Require Import Prelude Chain PrioMap DeltaQ Kernel Sched Frame SchedInv Dispatch SchedProps Service Wait WaitInv WaitProps Block SemaInv SemaProps MsgqOps MsgqLife.
Import Width.
Local Open Scope Z_scope.

Definition TTOS_COMPLETION_WAIT : Z := 0.
Definition TTOS_COMPLETION_DONE : Z := 1.

(** The kernel and the flags of the completions. *)
Record cworld := CWorld { kern : kernel; flags : gmap wqid Z }.

Definition set_kern (K : kernel) (W : cworld) : cworld := CWorld K (flags W).
Definition set_flags (v : gmap wqid Z) (W : cworld) : cworld := CWorld (kern W) v.

Definition lk {A} (m : M kernel A) : M cworld A :=
  λ W, match m (kern W) with Some (a, K) => Some (a, set_kern K W) | None => None end.

Definition get_flag (comp : wqid) : M cworld Z :=
  λ W, match flags W !! comp with Some v => Some (v, W) | None => None end.

Definition put_flag (comp : wqid) (v : Z) : M cworld unit :=
  modify (λ W, set_flags (<[comp := v]> (flags W)) W).

Definition lock : M cworld unit := lk ttosDisableTaskDispatchWithLock.
Definition unlock : M cworld unit := lk ttosEnableTaskDispatchWithLock.

Definition TTOS_InitCompletion (compCB : option wqid) : M cworld retcode :=
  match compCB with
  | None => mret TTOS_INVALID_ID
  | Some comp =>
      _ ← put_flag comp TTOS_COMPLETION_WAIT;
      _ ← lk (ttosInitializeTaskq comp true TTOS_TASK_WAITING_COMPLETION);
      mret TTOS_OK
  end.

(** The end of a wait that takes the completion. *)
Definition take_completion (comp : wqid) : M cworld retcode :=
  _ ← put_flag comp TTOS_COMPLETION_WAIT;
  _ ← unlock;
  mret TTOS_OK.

Definition ttos_WaitCompletion (comp : option wqid) (ticks : Z) (is_interruptible : bool) : M cworld retcode :=
  match comp with
  | None => mret TTOS_INVALID_ID
  | Some comp =>
      task ← lk ttosGetRunningTask;
      isr ← lk (gets in_isr);
      if (isr : bool) then mret TTOS_CALLED_FROM_ISR
      else
        idle ← lk (ttosIsIdleTask task);
        if (idle : bool) then mret TTOS_INVALID_USER
        else
          _ ← lock;
          flag ← get_flag comp;
          if flag =? TTOS_COMPLETION_WAIT then
            e ← lk (ttosTaskqIsEmpty comp);
            if negb e then _ ← unlock; mret TTOS_RESOURCE_IN_USE
            else if ticks =? 0 then _ ← unlock; mret TTOS_TIMEOUT
            else
              _ ← lk (ttosEnqueueTaskq comp ticks is_interruptible);
              take_completion comp
          else take_completion comp
  end.

Definition TTOS_WaitCompletion (comp : option wqid) (ticks : Z) : M cworld retcode :=
  ttos_WaitCompletion comp ticks true.

Definition TTOS_WaitCompletionUninterruptible (comp : option wqid) (ticks : Z) : M cworld retcode :=
  ttos_WaitCompletion comp ticks false.

Definition TTOS_ReleaseCompletion (comp : option wqid) : M cworld unit :=
  match comp with
  | None => mret tt
  | Some comp =>
      _ ← lock;
      flag ← get_flag comp;
      if flag =? TTOS_COMPLETION_DONE then unlock
      else
        e ← lk (ttosTaskqIsEmpty comp);
        _ ← (if negb e then _ ← lk (ttosDequeueTaskq comp); mret tt
             else put_flag comp TTOS_COMPLETION_DONE);
        unlock
  end.

(** ** What a completion promises *)

(** Completed, or not, and then the task that waits for it. *)
Inductive comp_state := Done | Pending (waiter : option tid).

Inductive comp_op := Await (ticks : Z) (is_interruptible : bool) | Complete.

#[export] Instance comp_op_eq_dec : EqDecision comp_op.
Proof. solve_decision. Defined.

(** What a call by task [e] answers, and the completion after it. *)
Definition comp_spec (e : tid) (idle : bool) (o : comp_op) (s : comp_state) : option retcode * comp_state :=
  match o, s with
  | Await ticks _, _ => if idle then (Some TTOS_INVALID_USER, s) else
      match s with
      | Done => (Some TTOS_OK, Pending None)
      | Pending None => if ticks =? 0 then (Some TTOS_TIMEOUT, s) else (Some TTOS_OK, Pending (Some e))
      | Pending (Some _) => (Some TTOS_RESOURCE_IN_USE, s)
      end
  | Complete, Pending (Some _) => (None, Pending None)
  | Complete, _ => (None, Done)
  end.

(** A call, with the task that makes it, whether that is an idle task, and the
    answer. *)
Definition comp_event : Type := tid * bool * option retcode.

Definition comp_exec (comp : wqid) (o : comp_op) : M cworld comp_event :=
  e ← lk ttosGetRunningTask;
  idle ← lk (ttosIsIdleTask e);
  r ← match o with
      | Await ticks intr => r ← ttos_WaitCompletion (Some comp) ticks intr; mret (Some r)
      | Complete => _ ← TTOS_ReleaseCompletion (Some comp); mret None
      end;
  mret (e, idle, r).

Fixpoint comp_exec_all (comp : wqid) (os : list comp_op) : M cworld (list comp_event) :=
  match os with
  | [] => mret []
  | o :: os => ev ← comp_exec comp o; evs ← comp_exec_all comp os; mret (ev :: evs)
  end.

(** The completion [comp] is in the state [s]. *)
Record comp_at (comp : wqid) (s : comp_state) (W : cworld) : Prop := {
  ca_flag : flags W !! comp = Some (match s with Done => TTOS_COMPLETION_DONE | Pending _ => TTOS_COMPLETION_WAIT end);
  ca_queue : wqs (kern W) !! comp = Some (WQueue true TTOS_TASK_WAITING_COMPLETION
    (match s with Pending (Some t) => [t] | _ => [] end));
}.

(** What a call of task [e] that takes the completion from [s] to [s'] does to the
    tasks and their deadlines; the other completions and queues are left alone. *)
Definition comp_moved (comp : wqid) (o : comp_op) (e : tid) (s s' : comp_state) (W W' : cworld) : Prop :=
  match o, s, s' with
  | Await ticks _, Pending None, Pending (Some _) =>
      (∃ ec', tasks (kern W') !! e = Some ec' ∧ ready ec' = false) ∧
      waited (kern W') = (if ticks =? TTOS_WAIT_FOREVER then waited (kern W) else d_insert true e ticks (waited (kern W)))
  | Complete, Pending (Some t), _ =>
      waited (kern W') = d_extract t (waited (kern W)) ∧
      ∃ tc tc', tasks (kern W) !! t = Some tc ∧ tasks (kern W') !! t = Some tc' ∧
        ready tc' = negb (flag_on TTOS_TASK_NONRUNNING_STATE (clear_flag TTOS_TASK_WAITING (state tc)))
  | _, _, _ => waited (kern W') = waited (kern W)
  end ∧
  ∀ x, x ≠ comp → flags W' !! x = flags W !! x ∧ wqs (kern W') !! x = wqs (kern W) !! x.

(** The calls of [os] made one after the other: each answers as the abstract
    completion does, and changes the tasks as [comp_moved] says. *)
Inductive comp_run (comp : wqid) : comp_state → cworld → list comp_op → list comp_event → comp_state → cworld → Prop :=
| comp_end s W : comp_run comp s W [] [] s W
| comp_call s W e idle o r s1 W1 os evs s' W' : comp_spec e idle o s = (r, s1) → comp_moved comp o e s s1 W W1 →
    comp_run comp s1 W1 os evs s' W' → comp_run comp s W (o :: os) ((e, idle, r) :: evs) s' W'.

(** The completions there are to take; one is owed to a waiting task. *)
Definition balance (s : comp_state) : Z := match s with Done => 1 | Pending None => 0 | Pending (Some _) => -1 end.

(** The calls that were let through, and the completions made. *)
Definition passed (evs : list comp_event) : Z := Z.of_nat (length (filter (λ ev : comp_event, ev.2 = Some TTOS_OK) evs)).
Definition completed (os : list comp_op) : Z := Z.of_nat (length (filter (λ o, o = Complete) os)).

(** ** The calls *)

Lemma wp_clk {A} (m : M kernel A) W Φ : wp m (kern W) (λ a K, Φ a (set_kern K W)) → wp (lk m) W Φ.
Proof. unfold wp, lk. by destruct (m (kern W)) as [[]|]. Qed.

Lemma wp_get_flag W comp v Φ : flags W !! comp = Some v → Φ v W → wp (get_flag comp) W Φ.
Proof. intros Hv ?. unfold wp, get_flag. by rewrite Hv. Qed.

Lemma wp_clk_gets {A} (f : kernel → A) W Φ : Φ (f (kern W)) W → wp (lk (gets f)) W Φ.
Proof. intros H. apply wp_clk, wp_gets. by destruct W. Qed.

Lemma comp_is_empty W comp q Φ : wqs (kern W) !! comp = Some q → Φ (bool_decide (wq_tasks q = [])) W →
  wp (lk (ttosTaskqIsEmpty comp)) W Φ.
Proof.
  intros Hq H. apply wp_clk. unfold ttosTaskqIsEmpty. apply wp_bind. unfold wp at 1, get_wq. rewrite Hq. simpl.
  by destruct W.
Qed.

(** Taking the dispatch lock from a task. *)
Lemma clock_run W Φ : calls_ok (kern W) → Φ tt (set_kern (locked 1 (kern W)) W) → wp lock W Φ.
Proof.
  intros Hok H. apply wp_clk. eapply wp_mono; [apply lock_run, Hok|]. by intros [] K' ->.
Qed.

(** Giving it back. *)
Lemma cunlock_run W Φ : inside_ok (kern W) → ttosDisableScheduleLevel (kern W) !! this_cpu (kern W) = Some 1 →
  (∀ K', calls_ok K' → rescheduled (kern W) K' → waited K' = waited (kern W) → Φ tt (set_kern K' W)) → wp unlock W Φ.
Proof.
  intros Hin Hl H. apply wp_clk. eapply wp_mono; [by apply leave_run|]. intros [] K' (? & ? & ?). by apply H.
Qed.

Lemma locked_inside W : calls_ok (kern W) → inside_ok (locked 1 (kern W)).
Proof. intros Hok. apply inside_locked, Hok. Qed.

Definition comp_outcome (comp : wqid) (s : comp_state) (e : tid) (W : cworld) (o : comp_op) (idle : bool)
    (r : option retcode) (W' : cworld) : Prop :=
  calls_ok (kern W') ∧ ∃ s', comp_spec e idle o s = (r, s') ∧ comp_at comp s' W' ∧ comp_moved comp o e s s' W W'.

Section Call.
Context (W : cworld) (comp : wqid) (s : comp_state) (e : tid) (ec : tcb).
Let K := kern W.
Hypothesis Hok : calls_ok K.
Hypothesis Hat : comp_at comp s W.
Hypothesis Hrun : runningTask K !! this_cpu K = Some e.
Hypothesis Hec : tasks K !! e = Some ec.

(** The end of a call that leaves the tasks alone. *)
Lemma comp_leave {A} F (r : A) : wp (_ ← unlock; mret r) (CWorld (locked 1 K) F) (λ r' W', r' = r ∧
  calls_ok (kern W') ∧ flags W' = F ∧ wqs (kern W') = wqs K ∧ waited (kern W') = waited K).
Proof.
  apply wp_bind, cunlock_run; [by apply locked_inside|apply locked_level|]. intros K' Hok' Hrs Ew. apply wp_ret.
  split_and!; try done. simpl. by rewrite (rs_wqs _ _ Hrs).
Qed.

Lemma wait_enter ticks intr Φ : idleTask K !! this_cpu K ≠ Some e →
  wp (flag ← get_flag comp;
      if flag =? TTOS_COMPLETION_WAIT then
        e ← lk (ttosTaskqIsEmpty comp);
        if negb e then _ ← unlock; mret TTOS_RESOURCE_IN_USE
        else if ticks =? 0 then _ ← unlock; mret TTOS_TIMEOUT
        else _ ← lk (ttosEnqueueTaskq comp ticks intr); take_completion comp
      else take_completion comp) (CWorld (locked 1 K) (flags W)) Φ →
  wp (ttos_WaitCompletion (Some comp) ticks intr) W Φ.
Proof.
  intros Hni Hk. unfold ttos_WaitCompletion. apply wp_bind, wp_clk. eapply wp_my_running; [done|].
  apply wp_bind, wp_clk_gets. simpl. fold K. rewrite (is_task _ (co_inside _ Hok)).
  apply wp_bind, wp_clk. unfold ttosIsIdleTask. apply wp_bind, wp_gets, wp_gets. simpl. fold K.
  rewrite bool_decide_false by done. apply wp_bind, clock_run; [done|]. exact Hk.
Qed.

(** The caller waits. *)
Lemma wait_block ticks intr : s = Pending None → ticks ≠ 0 → 0 ≤ ticks < 2 ^ 32 → idleTask K !! this_cpu K ≠ Some e →
  wp (_ ← lk (ttosEnqueueTaskq comp ticks intr); take_completion comp) (CWorld (locked 1 K) (flags W))
    (λ r W', comp_outcome comp s e W (Await ticks intr) false (Some r) W').
Proof.
  intros Es Ht Hk Hni. unfold comp_outcome. pose proof Hat as [Hf Hq]. rewrite Es in Hf, Hq |- *. simpl in Hf, Hq. fold K in Hq. apply wp_bind, wp_clk. eapply wp_mono.
  { apply (enqueue_running_any (locked 1 K) e ec comp (WQueue true TTOS_TASK_WAITING_COMPLETION []) ticks intr); try done.
    - by apply locked_inside.
    - by apply (co_ready _ Hok e).
    - by destruct intr. }
  intros [] K2 [Hbl Hin]. pose proof (bl_env _ _ _ _ _ _ _ _ Hbl) as [= _ _ _ _ _ Ec _ El].
  unfold take_completion. apply wp_bind, wp_modify, wp_bind. simpl. apply cunlock_run; simpl.
  - done.
  - rewrite Ec, El. apply lookup_insert_eq.
  - intros K3 Hok3 Hrs Ew. apply wp_ret. split; [done|]. exists (Pending (Some e)).
    rewrite (proj2 (Z.eqb_neq ticks 0)) by done.
    pose proof (bl_wqs _ _ _ _ _ _ _ _ Hbl) as Eq. rewrite <- (rs_wqs _ _ Hrs) in Eq.
    destruct (bl_task _ _ _ _ _ _ _ _ Hbl) as [v Hv].
    destruct (evolves_task _ _ _ _ (rs_evolves _ _ Hrs) Hv) as (ec' & He' & Hc).
    split_and!; [done|split; simpl|split; simpl; [split|]].
    + apply lookup_insert_eq.
    + rewrite Eq. apply lookup_insert_eq.
    + exists ec'. split; [done|]. rewrite (proj1 (calm_ready _ _ Hc)). by apply (blocked_not_ready (WQueue true TTOS_TASK_WAITING_COMPLETION [])).
    + by rewrite Ew, (bl_waited _ _ _ _ _ _ _ _ Hbl).
    + intros x Hx. by rewrite Eq, !lookup_insert_ne by done.
Qed.

Lemma wait_run ticks intr : 0 ≤ ticks < 2 ^ 32 → idleTask K !! this_cpu K ≠ Some e →
  wp (ttos_WaitCompletion (Some comp) ticks intr) W (λ r W', comp_outcome comp s e W (Await ticks intr) false (Some r) W').
Proof.
  intros Hk Hni. apply wait_enter; [done|]. pose proof Hat as [Hf Hq]. fold K in Hq.
  apply wp_bind. eapply wp_get_flag; [exact Hf|]. assert (Hs : s = Done ∨ ∃ w, s = Pending w) by (destruct s; eauto).
  destruct Hs as [Es|[w Es]]; rewrite Es in Hf, Hq |- *; simpl.
  - unfold take_completion. apply wp_bind, wp_modify. eapply wp_mono; [apply comp_leave|].
    intros r W' (-> & Hok' & Ef & Eq & Ew). split; [done|]. simpl. exists (Pending None). split_and!; try done.
    + split; [rewrite Ef; apply lookup_insert_eq|by rewrite Eq].
    + split; [done|]. intros x Hx. by rewrite Ef, Eq, lookup_insert_ne.
  - apply wp_bind. eapply comp_is_empty; [exact Hq|].
    assert (Hout : ∀ r W', calls_ok (kern W') ∧ flags W' = flags W ∧ wqs (kern W') = wqs K ∧ waited (kern W') = waited K →
      comp_spec e false (Await ticks intr) s = (Some r, s) → comp_outcome comp s e W (Await ticks intr) false (Some r) W').
    { intros r W' (Hok' & Ef & Eq & Ew) E. split; [done|]. exists s. split_and!; [done| |].
      - by split; rewrite ?Ef, ?Eq, Es.
      - split; [|intros; by rewrite Ef, Eq]. unfold comp_moved. rewrite Es. by destruct w. }
    destruct w as [t|]; simpl.
    + eapply wp_mono; [apply comp_leave|]. intros r W' (-> & H). rewrite <- Es. apply Hout; [done|by rewrite Es].
    + destruct (Z.eqb_spec ticks 0) as [E0|Hne].
      * eapply wp_mono; [apply comp_leave|]. intros r W' (-> & H). rewrite <- Es. apply Hout; [done|by rewrite Es, E0].
      * rewrite <- Es. by apply wait_block.
Qed.

(** An idle task may not wait. *)
Lemma wait_idle ticks intr : idleTask K !! this_cpu K = Some e →
  wp (ttos_WaitCompletion (Some comp) ticks intr) W (λ r W', comp_outcome comp s e W (Await ticks intr) true (Some r) W').
Proof.
  intros Hid. unfold ttos_WaitCompletion. apply wp_bind, wp_clk. eapply wp_my_running; [done|].
  apply wp_bind, wp_clk_gets. simpl. fold K. rewrite (is_task _ (co_inside _ Hok)).
  apply wp_bind, wp_clk. unfold ttosIsIdleTask. apply wp_bind, wp_gets, wp_gets. simpl. fold K.
  rewrite bool_decide_true by done. apply wp_ret. split; [done|]. exists s. split_and!; [by destruct s as [|[]]|by destruct Hat|].
  split; [|done]. by destruct s as [|[]].
Qed.

(** The one waiting task is released. *)
Lemma release_wakes t : s = Pending (Some t) →
  wp (_ ← (_ ← lk (ttosDequeueTaskq comp); mret tt); unlock) (CWorld (locked 1 K) (flags W))
    (λ _ W', comp_outcome comp s e W Complete (bool_decide (idleTask K !! this_cpu K = Some e)) None W').
Proof.
  intros Es. unfold comp_outcome. pose proof Hat as [Hf Hq]. rewrite Es in Hf, Hq |- *. simpl in Hf, Hq. fold K in Hq.
  apply wp_bind, wp_bind, wp_clk. eapply wp_mono.
  { apply (dequeue_inside (locked 1 K) comp (WQueue true TTOS_TASK_WAITING_COMPLETION [t])); [by apply locked_inside|done]. }
  intros o K2 (Hin & Henv & _ & tc & Ht & Hre). simpl in *. pose proof Henv as [= _ _ _ _ _ Ec _ El]. apply wp_ret.
  apply cunlock_run; simpl; [done|rewrite Ec, El; apply lookup_insert_eq|]. intros K3 Hok3 Hrs Ew. split; [done|].
  pose proof (re_wqs _ _ _ _ _ _ _ Hre) as Eq. rewrite <- (rs_wqs _ _ Hrs) in Eq.
  destruct (re_task _ _ _ _ _ _ _ Hre) as (tc2 & Ht2 & _ & _ & Hr2 & _).
  destruct (evolves_task _ _ _ _ (rs_evolves _ _ Hrs) Ht2) as (tc3 & Ht3 & Hcm).
  exists (Pending None). split_and!; [done|split; simpl|split; simpl; [split|]].
  - done.
  - rewrite Eq. apply lookup_insert_eq.
  - by rewrite Ew, (re_waited _ _ _ _ _ _ _ Hre).
  - exists tc, tc3. split_and!; [done..|]. by rewrite (proj1 (calm_ready _ _ Hcm)).
  - intros x Hx. by rewrite Eq, lookup_insert_ne by done.
Qed.

Lemma complete_run :
  wp (TTOS_ReleaseCompletion (Some comp)) W
    (λ _ W', comp_outcome comp s e W Complete (bool_decide (idleTask K !! this_cpu K = Some e)) None W').
Proof.
  unfold TTOS_ReleaseCompletion. apply wp_bind, clock_run; [done|]. fold K. pose proof Hat as [Hf Hq]. fold K in Hq.
  apply wp_bind. eapply wp_get_flag; [exact Hf|].
  assert (Hout : ∀ F, F = <[comp := TTOS_COMPLETION_DONE]> (flags W) → s = Done ∨ s = Pending None →
    wp unlock (CWorld (locked 1 K) F) (λ _ W',
      comp_outcome comp s e W Complete (bool_decide (idleTask K !! this_cpu K = Some e)) None W')).
  { intros F EF Hs. apply cunlock_run; [by apply locked_inside|apply locked_level|]. intros K' Hok' Hrs Ew.
    split; [done|]. exists Done. pose proof (rs_wqs _ _ Hrs) as Eq. simpl in Eq, Ew.
    split_and!; [by destruct Hs as [->| ->]|split; simpl|split; simpl].
    - rewrite EF. apply lookup_insert_eq.
    - rewrite Eq. destruct Hs as [E|E]; by rewrite E in Hq.
    - by destruct Hs as [->| ->].
    - intros x Hx. by rewrite EF, Eq, lookup_insert_ne. }
  assert (Hs : s = Done ∨ ∃ w, s = Pending w) by (destruct s; eauto).
  destruct Hs as [Es|[w Es]]; rewrite Es in Hf, Hq |- *; simpl in *; rewrite <- Es.
  - apply Hout; [|by left]. by rewrite insert_id.
  - apply wp_bind. eapply comp_is_empty; [exact Hq|]. destruct w as [t|]; simpl.
    + by apply (release_wakes t).
    + apply wp_bind, wp_modify. apply Hout; [done|by right].
Qed.

(** One call of whatever task runs. *)
Lemma comp_exec_run o : match o with Await ticks _ => 0 ≤ ticks < 2 ^ 32 | Complete => True end →
  wp (comp_exec comp o) W (λ ev W', ∃ r, ev = (e, bool_decide (idleTask K !! this_cpu K = Some e), r) ∧
    comp_outcome comp s e W o ev.1.2 r W').
Proof.
  intros Ho. unfold comp_exec. apply wp_bind, wp_clk. eapply wp_my_running; [done|].
  apply wp_bind, wp_clk. unfold ttosIsIdleTask. apply wp_bind, wp_gets, wp_gets. simpl. fold K.
  replace (set_kern K (set_kern K W)) with W by (by destruct W). apply wp_bind.
  destruct o as [ticks intr|]; apply wp_bind; [case_bool_decide as Hid|].
  - eapply wp_mono; [by apply wait_idle|]. intros r W' H. apply wp_ret, wp_ret. eauto.
  - eapply wp_mono; [by apply wait_run|]. intros r W' H. apply wp_ret, wp_ret. eauto.
  - eapply wp_mono; [apply complete_run|]. intros r W' H. apply wp_ret, wp_ret. eauto.
Qed.

End Call.

(** ** Sequences of calls *)

Lemma comp_spec_balance e idle o s r s' : comp_spec e idle o s = (r, s') →
  balance s' ≤ balance s + (if decide (o = Complete) then 1 else 0) - (if decide (r = Some TTOS_OK) then 1 else 0).
Proof.
  destruct o as [ticks intr|], s as [|[t|]], idle; simpl; try (intros [= <- <-]; simpl; lia);
    destruct (ticks =? 0); intros [= <- <-]; simpl; lia.
Qed.

Lemma comp_run_balance comp s W os evs s' W' : comp_run comp s W os evs s' W' →
  passed evs + balance s' ≤ completed os + balance s.
Proof.
  unfold passed, completed. induction 1 as [|s W e idle o r s1 W1 os evs s' W' Hsp _ _ IH]; [simpl; lia|].
  apply comp_spec_balance in Hsp. rewrite !filter_cons. simpl. repeat case_decide; simpl in *; lia.
Qed.

Lemma comp_init_run W comp : calls_ok (kern W) →
  wp (TTOS_InitCompletion (Some comp)) W (λ r W', r = TTOS_OK ∧ calls_ok (kern W') ∧ comp_at comp (Pending None) W').
Proof.
  intros Hok. unfold TTOS_InitCompletion. apply wp_bind, wp_modify, wp_bind, wp_clk, wp_modify, wp_ret. simpl.
  split_and!; [done| |split; simpl; apply lookup_insert_eq].
  apply calls_set_wqs; [done|]. intros w wq [[_ <-]|[_ Hw]]%lookup_insert_Some; [by left|by right].
Qed.

Lemma comp_exec_all_run os W comp s : calls_ok (kern W) → comp_at comp s W →
  (∀ ticks intr, Await ticks intr ∈ os → 0 ≤ ticks < 2 ^ 32) →
  wp (comp_exec_all comp os) W (λ evs W', calls_ok (kern W') ∧ ∃ s', comp_at comp s' W' ∧ comp_run comp s W os evs s' W').
Proof.
  revert W s. induction os as [|o os IH]; intros W s Hok Hat Ho; simpl.
  { apply wp_ret. split; [done|]. exists s. split; [done|constructor]. }
  pose proof (bi_sched _ (is_block _ (co_inside _ Hok))) as Hi.
  destruct (si_run _ _ Hi _ (si_this _ _ Hi)) as (e & ec & He & Hec & _).
  apply wp_bind. eapply wp_mono; [apply (comp_exec_run W comp s e ec Hok Hat He Hec)|].
  { destruct o; [eapply Ho; left|done]. }
  intros ev W1 (r & -> & Hok1 & s1 & Hsp & Hat1 & Hmv). simpl in Hsp. apply wp_bind.
  eapply wp_mono; [apply (IH W1 s1 Hok1 Hat1); intros; eapply Ho; by right|].
  intros evs W' (Hok' & s' & Hat' & Hrun). apply wp_ret. split; [done|]. exists s'. split; [done|]. by econstructor.
Qed.

(** C12: a completion from [TTOS_InitCompletion] on, over any sequence of waits and
    releases, each made by whatever task the scheduler runs on the CPU: nothing
    faults, the invariants of the ready, tick and wait queues hold, and every call
    answers as a flag with at most one waiting task does.  A wait takes a
    completion that is there, or blocks with its deadline on the tick queue, or is
    refused because it may not wait, because a task waits already, or because the
    caller is an idle task; a release wakes the waiting task and takes its deadline
    away, or sets the flag.  So no more waits are let through than completions were
    made, the one still blocked aside. *)
Theorem completion_trace_correct os W comp :
  calls_ok (kern W) → (∀ ticks intr, Await ticks intr ∈ os → 0 ≤ ticks < 2 ^ 32) →
  ∃ W0 evs W' s, TTOS_InitCompletion (Some comp) W = Some (TTOS_OK, W0) ∧ comp_exec_all comp os W0 = Some (evs, W') ∧
    calls_ok (kern W') ∧ comp_at comp s W' ∧ comp_run comp (Pending None) W0 os evs s W' ∧
    passed evs + balance s ≤ completed os.
Proof.
  intros Hok Ho. destruct (proj1 (wp_run _ _ _) (comp_init_run W comp Hok)) as (r & W0 & Hr0 & -> & Hok0 & Hat0).
  destruct (proj1 (wp_run _ _ _) (comp_exec_all_run os W0 comp _ Hok0 Hat0 Ho)) as (evs & W' & Hr & Hok' & s & Hat & Hrun).
  exists W0, evs, W', s. pose proof (comp_run_balance _ _ _ _ _ _ _ Hrun) as Hb. simpl in Hb. split_and!; try done. lia.
Qed.

(** ** A concrete completion

    Task 3 runs on CPU 0, with task 4 ready there. *)

Definition comp_world : cworld := CWorld (set_wqs {[7%nat := WQueue true TTOS_TASK_WAITING_COMPLETION []]} busy_kernel) ∅.

Lemma comp_world_ok : calls_ok (kern comp_world).
Proof.
  apply (one_queue_ok busy_kernel 3 runner); [apply busy_inv|vm_compute; reflexivity..| | | | |].
  - vm_compute. discriminate.
  - vm_compute. reflexivity.
  - vm_compute. reflexivity.
  - apply (bool_decide_unpack _). vm_compute. exact I.
  - reflexivity.
Qed.

Lemma completion_trace_correct_witness :
  ∃ W0 evs W' s, TTOS_InitCompletion (Some 7%nat) comp_world = Some (TTOS_OK, W0) ∧
    comp_exec_all 7 [Await 0 true; Await 5 true; Await 9 false; Complete; Complete; Await 5 true] W0 = Some (evs, W') ∧
    comp_at 7 s W' ∧ passed evs + balance s ≤ 2.
Proof.
  destruct (completion_trace_correct [Await 0 true; Await 5 true; Await 9 false; Complete; Complete; Await 5 true] comp_world 7)
    as (W0 & evs & W' & s & H0 & Hr & _ & Hat & _ & Hb).
  - apply comp_world_ok.
  - intros ticks intr Hin. rewrite !elem_of_cons, elem_of_nil in Hin. naive_solver lia.
  - exists W0, evs, W', s. split_and!; [exact H0|exact Hr|exact Hat|exact Hb].
Defined.

(** Task 3 waits five ticks and nothing completes: the answer of the call, the code
    the tick left in the task's wait block, and the flag. *)
Definition wait_times_out : M cworld (retcode * option retcode * Z) :=
  _ ← TTOS_InitCompletion (Some 7%nat);
  r ← TTOS_WaitCompletion (Some 7%nat) 5;
  _ ← lk (ttosTickNotify 2 5);
  code ← lk (gets (λ K, (λ tc, returnCode (wait tc)) <$> tasks K !! 3%nat));
  flag ← get_flag 7;
  mret (r, code, flag).

(** A wait that times out is answered [TTOS_OK], where the documentation of
    [ttos_WaitCompletion] promises [TTOS_TIMEOUT]: the code of the wait is not
    looked at. *)
Theorem wait_timeout_says_ok :
  fst <$> wait_times_out comp_world = Some (TTOS_OK, Some TTOS_TIMEOUT, TTOS_COMPLETION_WAIT).
Proof. vm_compute. reflexivity. Qed.
